(* ===== verification/_CoqProject ===== *)
-Q . S2P
Prelude.v
Text.v
MessageQueue.v
Scheduler.v
Netpack.v
HashId.v
DataBuffer.v
Gate.v
Timer.v
Handle.v
Server.v
Des.v
Crypt.v
Sha1.v
Lua.v
Seri.v
Cluster.v
Bson.v
SprotoPack.v
SprotoSchema.v
SprotoWire.v
StateM.v
Memory.v
Stm.v
Multicast.v
LuaSocket.v
ShareData.v
Command.v
SocketState.v
Socket.v
SocketOk.v
SocketThread.v
SocketSend.v
SocketCalls.v
SocketSafe.v
SocketProps.v
FengnetSocket.v
HarborService.v
HarborQueue.v
HarborOk.v
HarborRecv.v
HarborSend.v
HarborSafe.v
HarborProps.v
