(* ===== verification/Prelude.v ===== *)
(** * Verification library for fengnet

    fengnet is an actor framework: services, each with a message queue, are
    scheduled over worker threads, exchange messages by handle or name, and are
    written in C++ or Lua on top of a set of C++ libraries. This library models
    the core of it, from the C++ sources under [src/], as executable
    definitions, and proves what makes each part correct. Every file starts
    with a comment that says what it holds.

    ** The program's parts and the files

    - [Prelude]: what running C code can give ([outcome]: a value, a failed
      assertion, undefined behaviour, a deadlock, or used-up fuel of the model),
      machine integers, arrays and memory, loops, and the lemmas on them.
    - [MessageQueue], [Scheduler] ([fengnet-src/fengnet_mq.cpp], [.h]): a queue
      is the record [message_queue] of the C struct, with its ring buffer as a
      list; the queues are a heap by location, chained by [next] into the global
      queue. [Scheduler] has the interleavings: [step] is one critical section of
      one thread, [sched_inv] the invariant of all reachable states.
    - [Handle] ([fengnet_handle.cpp]): the table of handles, open-addressed by
      the low bits, and the sorted array of names. Contexts are only seen
      through the class [ContextOps].
    - [Timer] ([fengnet_timer.cpp], [spinlock.h]): the hierarchical timing wheel;
      it reaches the server through the class [TimerEnv].
    - [Server] ([fengnet_server.cpp], the sending functions of [fengnet.cpp],
      [fengnet_harbor.cpp], [fengnet_monitor.cpp]): contexts with their reference
      counts, sending by handle and name, the turn of a worker. A node is the
      handle table together with the [world] of contexts and queues; [Server]
      gives the instances of [ContextOps] and [TimerEnv], so the theorems of
      [Handle] and [Timer] apply to it. Callbacks, modules, the clock and the
      memory of messages are the class [Outside].
    - [Netpack] ([lualib-src/lua-netpack.cpp]): cutting the byte streams of many
      connections into packages, with the hash table of incomplete packages and
      the ring of complete ones.
    - [HashId], [DataBuffer], [Gate] ([service-src/hashid.h], [databuffer.h],
      [service_gate.cpp]): the gate service, which accepts connections and forwards
      packages. What it asks of the server is a list of actions.
    - [Des], [Crypt], [Sha1] ([lualib-src/lua-crypt.cpp], [lsha1.cpp]): DES with its
      paddings, the Diffie-Hellman key exchange, the hashes, hexadecimal and base64
      text; SHA-1 and the keyed hash on it.
    - [Command] ([fengnet_command] in [fengnet.cpp], [fengnet_env.cpp],
      [fengnet_log.cpp]): the commands that services give by name, with the text they
      read and write, on the state of a whole process: the node, the timer, the
      environment.
    - [SprotoPack], [SprotoSchema], [SprotoWire] ([lualib-src/sproto/sproto.c],
      parts of [lsproto.c]): the 0-packing, the import of schemas, and the
      encoder and decoder of messages.
    - [Lua]: functions that Lua calls return or raise an error; the monad of
      them, for the next three files.
    - [Seri] ([lualib-src/lua-seri.cpp]): the serialization of Lua values in
      messages, written into a chain of blocks. The Lua side is what its API
      shows of values and tables.
    - [Bson] ([lualib-src/lua-bson.cpp]): the documents of MongoDB, made from tables of
      Lua and read back; numbers in them replaced in place.
    - [Cluster] ([lualib-src/lua-cluster.cpp]): requests and responses between
      the nodes of a cluster, long ones cut into parts. What the Lua code of the
      two ends does with the parts is a definition there, for the theorems.
    - [StateM], [SocketState], [Socket] ([fengnet-src/socket_server.cpp], [.h],
      [socket_epoll.h], [socket_buffer.h], [socket_info.h]): the socket server. The
      state is [net]: the [struct socket_server] with its slots, the pipe from the
      workers as a list of requests, the memory of messages as a heap, and the
      kernel, a function [answer] from the calls made so far to the answer of the
      next one. The functions are in the state monad of [StateM], with a weakest
      precondition for them. [SocketOk] has the invariant [ok]; [SocketThread],
      [SocketSend] and [SocketCalls] prove it kept by the functions of the socket
      thread, by those that send buffered data, and by the calls of workers;
      [SocketSafe] puts them together to runs of the server; [SocketProps] has the
      properties and concrete runs.

    - [FengnetSocket] ([fengnet-src/fengnet_socket.cpp]): joins [Socket] and [Server]:
      what the socket thread reports becomes messages of services, and the calls that
      services make reach the socket server.
    - [LuaSocket] ([lualib-src/lua-socket.cpp]): the buffers from which services in Lua
      read what their sockets got, with the pool of nodes that they share.
    - [Stm], [Multicast] ([lualib-src/lua-stm.cpp], [lua-multicast.cpp]): counted messages
      that many services share.
    - [ShareData] ([lualib-src/lua-sharedata.cpp]): tables of Lua copied into C structs
      that all services read, with hashes whose chains are threaded through free slots.
    - [HarborService] ([service-src/service_harbor.cpp]): the harbor of a node, which
      sends messages to other nodes and forwards what they send. Its state is
      the [struct harbor], the memory of messages, and the calls it has made;
      what [fengnet_send] answers is a parameter [reply]. [HarborQueue] shows its
      queues to be lists; [HarborOk] has the invariant [hok]: every block of
      memory has one owner; [HarborRecv], [HarborSend] and [HarborSafe] prove it kept by the
      functions for data from connections, for messages that go out, and by all
      messages; [HarborProps] has the properties and concrete runs.
    - [Memory], [Text]: for the socket server and the harbor, a heap of blocks
      of bytes; for the gate and the harbor, reading numbers and words from text.

    Definitions have the names of the C functions; [x_turn] or [x_step] is the
    body of a loop of [x]. Memory that C code indexes is a list, and an access
    outside is [Undef]; a pointer into an array is an index; a pointer to a
    struct of its own is a key of a finite map, and following one that has been
    deleted is [Undef]. A signed operation that overflows is [Undef] ([cint]),
    an unsigned one wraps ([u8], [u32], ...).

    ** What the theorems show

    - Scheduling: no message of a live service is forgotten
      ([no_stranded_messages]), a queue is in the hands of one thread at a time
      ([dispatch_exclusive]), no operation fails ([queue_operations_return]);
      push and pop refine a list ([mq_push_appends], [mq_pop_takes_oldest]).
    - Server: a worker hands the oldest messages of a service to its callback,
      in order and as many as its weight says ([dispatch_takes_turn]); a message
      that is sent arrives once, in the right queue ([send_reaches_service]); a
      service ends with its last reference, and its queue is handed to the
      workers ([retire_ends_service]).
    - Handles: while a slot is free a registered context gets a fresh handle, and a full
      table loses its contexts when it grows ([register_gives_fresh_handle],
      [register_growth_dangles]); retiring forgets exactly one, names are a finite map
      ([retire_forgets_handle], [names_refine_map], [retireall_empties]).
    - Timer: a timer is put into the list of its tick and moved down to it in time
      ([fengnet_timeout_schedules], [timer_shift_cascades]); the wheel follows the clock until
      a timer is due, when the locking of [timer_update] deadlocks ([updatetime_until_due],
      [timer_update_deadlocks]).
    - Streams: packages arrive as they were sent, however the stream is cut
      ([stream_round_trip], [lfilter_data_refines], [lfilter_events]); the gate
      forwards what the netpack would cut ([gate_forwards_packages]) and stays in
      a proper state, until a connection is accepted after the text [close]
      ([gate_handles_messages], [accept_after_close]); its table of ids is a finite map
      ([hashid_refines_map]).
    - sproto: decoding inverts encoding ([encode_decode]), neither leaves its
      buffers, for any callbacks and any bytes ([encode_safe], [decode_safe]); the
      same for the packing ([lpack_lunpack], [unpack_total], [pack_bounds]);
      accepted schemas are well formed and queries on them are right
      ([create_wf], [create_terminates], [protoquery_correct]).
    - Lua values: unpacking gives back what was packed, on all levels
      ([seri_round_trip]); unpacking any bytes ends inside them ([unpack_safe]).
    - BSON: encoding writes the bytes of the format, and decoding gives back the keys and
      values, on all levels and in order, for tables whose keys are all strings or are the
      numbers from 1 on ([bson_round_trip], [bson_order_round_trip]).
    - Cluster: what one end packs, in one package or many, is what the other end
      gets ([cluster_request_arrives], [cluster_response_arrives]); any package
      is unpacked inside its bytes ([cluster_unpack_safe]); the size announced for
      a long message is checked when it is not negative as an [int], and only
      then ([concat_checks_size]).
    - Sockets: any run of worker calls and poll turns that are [allowed], on any kernel that
      keeps [KernelLaws], is free of failed assertions, bad memory and lost blocks
      ([server_safe]), and the untagged union of a socket is read as it was written
      ([union_typed]); bytes leave a socket in the order of the messages
      ([send_keeps_order], [message_joins_stream], [send_buffer_in_order]); a closed
      socket that still has data ends when the data is out ([closing_socket_closes]);
      ids are fresh ([reserve_id_fresh]); addresses of datagrams survive the way
      through a request ([udp_address_round_trip]). When the kernel refuses what is
      written, what has gone out is a beginning of what there was ([send_buffer_in_order]).
    - Sockets of services: what a poll of the socket server reports becomes one message
      in the queue of the service that owns the socket, or its memory is freed
      ([results_reach_services], [udp_message_address]); the buffers of Lua services give
      what lists of bytes would give, however the data is cut ([buffers_are_streams]), and
      free what was read ([read_data_is_freed]).
    - Commands: names given are found and texts of handles read back
      ([named_service_found]), a killed service is reported, forgotten and deleted
      ([kill_ends_service]); [timeout_sets_timer], [environment_keeps_values].
    - Shared data: a copied table reads and is walked as in Lua, on all levels
      ([conf_reads_like_table]); a reader of a shared message gets the latest one
      ([reader_gets_latest]), and one nobody reads is freed ([unread_object_freed]).
    - Harbor: the messages whose handling is undefined behaviour are exactly the malformed
      ones, and under all others each
      block of memory keeps one owner ([harbor_safe]); messages arrive as they were
      sent, however the stream is cut ([remote_messages_arrive]); a message joins those
      that go to its harbor ([send_joins_outbox]), and these are written in order when
      the harbor connects or answers ([connection_sends_outbox], [handshake_sends_queue]).
    - Crypt: round trips of DES, base64 and hexadecimal text, agreement of the
      key exchange, SHA-1 and its keyed hash as their standards have them
      ([sha1_correct], [hmac_sha1_correct]), and the inputs on which the decoders err or read outside
      ([des_round_trip], [base64_round_trip], [dh_agreement],
      [desdecode_errors], [pkcs7_reads_before_buffer], [hexdecode_accepts]).

    Some theorems state a defect as the code has it: those named
    [register_growth_dangles], [timer_update_deadlocks],
    [pkcs7_reads_before_buffer], [hexdecode_accepts], [concat_checks_size],
    [datagram_refused], [early_name_loses_handle], [short_package_undefined],
    [second_read_frees], [logoff_keeps_file_open], [multicast_package_stays],
    [negative_size_undefined], [long_text_miscounted], [wide_key_overwrites],
    [table_key_is_empty_string], [negative_length_reads_before], [long_character_undefined],
    [single_regex_undefined], [mixed_table_loses_keys], [zero_in_key_unreadable],
    [accept_after_close] and [one_letter_undefined]; [updatetime_until_due], [harbor_safe] and
    [register_gives_fresh_handle] say when one occurs. [message_before_open_aborts] runs another one.

    ** Fuel and bounds

    A loop that does not count to a known bound is [loop fuel body]; running out
    is [NoFuel], which is no behaviour of the program, and every theorem on such
    a loop proves that it returns. Where the definitions fix the fuel it is enough
    for every reachable state: 32 turns double a queue threshold past [INT_MAX];
    the loops over a table take its size. Where the fuel is an argument, the
    theorem says how much is enough (for a worker's turn: more than the length of
    the queue). Queues hold at most 2^30 messages, since [cap] is an [int] that is
    doubled; the theorems ask for room ([ring_room]).

    ** Interleaving

    [Scheduler] is the concurrent model: all threads, one critical section of
    [fengnet_mq.cpp] at a time. [Server] is sequential: it runs one operation of
    one thread at a time on the shared state, and its invariant [server_ok]
    contains [sched_inv], with the queues that threads hold as a parameter. The
    other parts are used by one thread, or under one lock.

    The socket server is used by all threads: [SocketSafe.step] is one call of a
    worker, or one turn of the loop of the socket thread. The real functions can
    be interleaved inside; what they share then is the slot's lock, the atomics and
    the pipe, and the model does not show a lock that another thread holds. The
    premises [allowed] of a step are what the theorems rely on: the caller owns the
    memory it sends, the pipe has room ([has_room]: a full pipe makes the real
    call wait), ids are left ([ids_left]: their counter overflows an [int]), a
    message is not sent to an id whose socket is still reserved ([send_ok], see
    [message_before_open_aborts]), and the next event is not an old one of a slot
    that has been reserved anew, and the kernel does not refuse the datagram that the step
    sends ([turn_ok], [datagram_taken]; see [datagram_refused]). [KernelLaws] says of the
    kernel: [write] and [read] report no more bytes than they were given, a read gives less
    than 2^30 bytes, addresses have the size of their family, and among [fuel] tries one is
    not interrupted.

    The harbor is one service, so its functions run one after the other. [allowed]
    (of [HarborSafe]) says which messages it gets: the sender gives the memory away
    that it sends, queues are shorter than 2^29, and data of a connection is not empty.
    What data and commands say is left open.

    ** Not modelled

    - The Lua bindings ([lua-fengnet.cpp], [lua-clientsocket.cpp], the second half of
      [lua-socket.cpp], ...): arguments on the stack of Lua, handed on to operations
      that are modelled, or to the kernel.
    - Modules, the text of log files, start, daemon, [malloc_hook.cpp]: calls of
      the operating system; what the server needs of them is in [Outside].
    - [service_snlua.cpp], the callbacks of [lsproto.c], [lua-mongo.cpp],
      [lua-datasheet.cpp], [lua-sharetable.cpp]: they run Lua code, work on the internals of
      the Lua interpreter, or speak the protocol of another server.
    - Everything under [3rd/] is third-party code; the Lua code under [lualib/] and
      [service/] is another language. *)
From Stdlib Require Export ZArith Lia.
From stdpp Require Export base gmap strings numbers sorting list pretty.

Local Open Scope Z_scope.

(** ** Outcomes of C code *)

(** The result of running a piece of the C/C++ program:
    [Ret] it returns a value; [AssertFail] an [assert] (or [abort]/[exit])
    stops the process; [Undef] it reaches undefined behaviour (an access out
    of bounds, a dangling pointer, a signed overflow); [Deadlock] it waits
    for a lock its own thread holds; [NoFuel] the fuel given to a loop of
    the model is used up (never a behaviour of the program). *)
Inductive outcome (A : Type) : Type :=
| Ret (a : A)
| AssertFail
| Undef
| Deadlock
| NoFuel.
Arguments Ret {A} a.
Arguments AssertFail {A}.
Arguments Undef {A}.
Arguments Deadlock {A}.
Arguments NoFuel {A}.

#[export] Instance outcome_mret : MRet outcome := @Ret.
#[export] Instance outcome_mbind : MBind outcome := λ A B f m,
  match m with
  | Ret a => f a
  | AssertFail => AssertFail
  | Undef => Undef
  | Deadlock => Deadlock
  | NoFuel => NoFuel
  end.

#[export] Instance outcome_eq_dec {A} `{EqDecision A} : EqDecision (outcome A).
Proof. solve_decision. Defined.

Definition assert_true (b : bool) : outcome unit := if b then Ret tt else AssertFail.

(** A signed [int] result: overflow is undefined behaviour. *)
Definition INT_MAX : Z := 2147483647.
Definition INT_MIN : Z := -2147483648.
Definition cint (z : Z) : outcome Z :=
  if (INT_MIN <=? z) && (z <=? INT_MAX) then Ret z else Undef.

(** Conversions to the unsigned and signed machine types. *)
Definition u8 (z : Z) : Z := z mod 2 ^ 8.
Definition u16 (z : Z) : Z := z mod 2 ^ 16.
Definition u32 (z : Z) : Z := z mod 2 ^ 32.
Definition u64 (z : Z) : Z := z mod 2 ^ 64.
Definition i32 (z : Z) : Z := (z + 2 ^ 31) mod 2 ^ 32 - 2 ^ 31.
Definition i64 (z : Z) : Z := (z + 2 ^ 63) mod 2 ^ 64 - 2 ^ 63.

(** ** Text: characters are their codes *)

Definition codes (s : string) : list Z :=
  (λ a, Z.of_nat (Ascii.nat_of_ascii a)) <$> String.list_ascii_of_string s.

(** ["%d"] of a number. *)
Definition decimal (z : Z) : list Z := codes (pretty z).

(** ** Arrays: an access outside the object is undefined behaviour *)

Definition zlen {A} (l : list A) : Z := Z.of_nat (length l).

Definition aget {A} (l : list A) (i : Z) : outcome A :=
  if 0 <=? i then
    match l !! Z.to_nat i with Some x => Ret x | None => Undef end
  else Undef.

Definition aset {A} (l : list A) (i : Z) (x : A) : outcome (list A) :=
  if (0 <=? i) && (i <? zlen l) then Ret (<[Z.to_nat i := x]> l) else Undef.

(** ** Loops *)

(** [loop fuel body s]: a [while]/[for(;;)] whose body either continues with
    a new state ([inl]) or leaves the loop with a result ([inr]). *)
Fixpoint loop {S R : Type} (fuel : nat) (body : S → outcome (S + R)) (s : S) : outcome R :=
  match fuel with
  | O => NoFuel
  | Datatypes.S fuel' =>
      match body s with
      | Ret (inl s') => loop fuel' body s'
      | Ret (inr r) => Ret r
      | AssertFail => AssertFail
      | Undef => Undef
      | Deadlock => Deadlock
      | NoFuel => NoFuel
      end
  end.

(** [for_loop n i body s]: [for (; i < i0+n; i++) s = body(i, s)]. *)
Fixpoint for_loop {S : Type} (n : nat) (i : Z) (body : Z → S → outcome S) (s : S) : outcome S :=
  match n with
  | O => Ret s
  | Datatypes.S n' => match body i s with
            | Ret s' => for_loop n' (i + 1) body s'
            | AssertFail => AssertFail
            | Undef => Undef
            | Deadlock => Deadlock
            | NoFuel => NoFuel
            end
  end.

(** A [for] loop that can leave its function early ([None]). *)
Fixpoint for_opt {S : Type} (n : nat) (i : Z) (body : Z → S → outcome (option S)) (s : S)
    : outcome (option S) :=
  match n with
  | O => Ret (Some s)
  | Datatypes.S n' => match body i s with
            | Ret (Some s') => for_opt n' (i + 1) body s'
            | Ret None => Ret None
            | AssertFail => AssertFail
            | Undef => Undef
            | Deadlock => Deadlock
            | NoFuel => NoFuel
            end
  end.

(** [p[0] = bs[0]; p[1] = bs[1]; ...], one assignment after the other. *)
Fixpoint asets {A} (mem : list A) (off : Z) (bs : list A) : outcome (list A) :=
  match bs with
  | [] => Ret mem
  | b :: bs' => match aset mem off b with
                | Ret mem' => asets mem' (off + 1) bs'
                | AssertFail => AssertFail
                | Undef => Undef
                | Deadlock => Deadlock
                | NoFuel => NoFuel
                end
  end.

(** ** Lemmas on outcomes *)

Lemma bind_Ret_inv {A B} (m : outcome A) (f : A → outcome B) b :
  m ≫= f = Ret b ↔ ∃ a, m = Ret a ∧ f a = Ret b.
Proof.
  destruct m; simpl; (split; [intros H; try done; eauto|by intros (a' & [= <-] & H')]).
Qed.

Lemma bind_Ret {A B} (m : outcome A) (f : A → outcome B) a :
  m = Ret a → m ≫= f = f a.
Proof. intros ->. done. Qed.

Lemma assert_true_Ret b u : assert_true b = Ret u ↔ b = true.
Proof. destruct b, u; naive_solver. Qed.

Lemma cint_in z : INT_MIN ≤ z ≤ INT_MAX → cint z = Ret z.
Proof. unfold cint. intros H. by rewrite (proj2 (Z.leb_le _ _)), (proj2 (Z.leb_le _ _)) by lia. Qed.

Lemma cint_Ret z r : cint z = Ret r ↔ r = z ∧ INT_MIN ≤ z ≤ INT_MAX.
Proof.
  unfold cint. destruct (Z.leb_spec INT_MIN z), (Z.leb_spec z INT_MAX); simpl;
    split; [intros [= <-]|intros [-> ?]|intros [=]|intros [-> ?]| intros [=]|intros [-> ?]
           |intros [=]|intros [-> ?]]; done || lia.
Qed.

(** Destructs every bind of a hypothesis [_ = Ret _] into its successful steps. *)
Ltac outcome_inv :=
  repeat match goal with
  | H : mbind _ _ = Ret _ |- _ => apply bind_Ret_inv in H as (? & ? & H)
  | H : Ret _ = Ret _ |- _ => injection H as H; subst
  | H : mret _ = Ret _ |- _ => injection H as H; subst
  | H : assert_true _ = Ret _ |- _ => apply assert_true_Ret in H
  | H : cint _ = Ret _ |- _ => apply cint_Ret in H as [-> H]
  end.

(** Steps through the binds whose first part has returned. *)
Ltac bsimpl := cbn [mbind outcome_mbind mret outcome_mret].

(** [lia] with division and modulo by constants. *)
Ltac zlia := Z.to_euclidean_division_equations; lia.

(** ** Lemmas on arrays *)

Section arrays.
Context {A : Type}.
Implicit Types (l : list A) (x : A).

Lemma zlen_nonneg l : 0 ≤ zlen l.
Proof. unfold zlen. lia. Qed.

Lemma zlen_nil : zlen (@nil A) = 0.
Proof. done. Qed.

Lemma zlen_cons x l : zlen (x :: l) = 1 + zlen l.
Proof. unfold zlen. simpl. lia. Qed.

Lemma zlen_app l1 l2 : zlen (l1 ++ l2) = zlen l1 + zlen l2.
Proof. unfold zlen. rewrite length_app. lia. Qed.

Lemma zlen_insert l i x : zlen (<[i := x]> l) = zlen l.
Proof. unfold zlen. by rewrite length_insert. Qed.

Lemma aget_Ret l i x : aget l i = Ret x ↔ 0 ≤ i ∧ l !! Z.to_nat i = Some x.
Proof.
  unfold aget. destruct (Z.leb_spec 0 i), (l !! Z.to_nat i);
    split; intros; destruct_and?; simplify_eq; done || lia.
Qed.

Lemma aget_in l i : 0 ≤ i < zlen l → ∃ x, aget l i = Ret x ∧ l !! Z.to_nat i = Some x.
Proof.
  unfold zlen. intros Hi. destruct (lookup_lt_is_Some_2 l (Z.to_nat i)) as [x Hx]; [lia|].
  exists x. rewrite aget_Ret. split_and!; [lia|done|done].
Qed.

Lemma aget_out l i : i < 0 ∨ zlen l ≤ i → aget l i = Undef.
Proof.
  unfold zlen, aget. intros Hi. destruct (Z.leb_spec 0 i); [|done].
  by rewrite lookup_ge_None_2 by lia.
Qed.

Lemma aset_in l i x : 0 ≤ i < zlen l → aset l i x = Ret (<[Z.to_nat i := x]> l).
Proof.
  unfold aset. intros Hi.
  by rewrite (proj2 (Z.leb_le _ _)), (proj2 (Z.ltb_lt _ _)) by lia.
Qed.

Lemma aset_Ret l i x l' :
  aset l i x = Ret l' ↔ 0 ≤ i < zlen l ∧ l' = <[Z.to_nat i := x]> l.
Proof.
  unfold aset. destruct (Z.leb_spec 0 i), (Z.ltb_spec i (zlen l)); simpl;
    (split; [intros [= <-]|intros [? ->]]); done || lia.
Qed.

Lemma aset_out l i x : i < 0 ∨ zlen l ≤ i → aset l i x = Undef.
Proof.
  unfold aset. intros Hi.
  destruct (Z.leb_spec 0 i), (Z.ltb_spec i (zlen l)); simpl; done || lia.
Qed.
End arrays.

Create Rewrite HintDb zlen.
#[export] Hint Rewrite @zlen_insert @zlen_app @zlen_cons @zlen_nil : zlen.

(** ** Rules for loops *)

Section loops.
Context {St R : Type}.

Lemma loop_mono (body : St → outcome (St + R)) n m s r :
  loop n body s = Ret r → (n ≤ m)%nat → loop m body s = Ret r.
Proof.
  revert m s. induction n as [|n IH]; intros m s; simpl; [done|].
  destruct m as [|m]; [lia|]. simpl.
  destruct (body s) as [[s'|r']| | | |]; try done.
  intros H Hle. apply IH; [done|lia].
Qed.

(** Total correctness: an invariant, and a measure that bounds the turns. *)
Lemma loop_total (I : St → Prop) (meas : St → nat) (Post : R → Prop)
    (body : St → outcome (St + R)) :
  (∀ s, I s →
     (∃ s', body s = Ret (inl s') ∧ I s' ∧ (meas s' < meas s)%nat) ∨
     (∃ r, body s = Ret (inr r) ∧ Post r)) →
  ∀ fuel s, I s → (meas s < fuel)%nat → ∃ r, loop fuel body s = Ret r ∧ Post r.
Proof.
  intros Hbody fuel. induction fuel as [|fuel IH]; intros s Hs Hm; [lia|].
  simpl. destruct (Hbody s Hs) as [(s' & -> & Hs' & Hlt)|(r & -> & Hr)].
  - apply IH; [done|lia].
  - by exists r.
Qed.

(** Partial correctness: an invariant of every turn the loop makes. *)
Lemma loop_partial (I : St → Prop) (Post : R → Prop) (body : St → outcome (St + R)) :
  (∀ s s', I s → body s = Ret (inl s') → I s') →
  (∀ s r, I s → body s = Ret (inr r) → Post r) →
  ∀ fuel s r, I s → loop fuel body s = Ret r → Post r.
Proof.
  intros Hinl Hinr fuel. induction fuel as [|fuel IH]; intros s r Hs; simpl; [done|].
  destruct (body s) as [[s'|r']| | | |] eqn:Hb; try done.
  - apply IH. eauto.
  - intros [= <-]. eauto.
Qed.

Lemma for_loop_inv (I : Z → St → Prop) (body : Z → St → outcome St) n i s :
  I i s →
  (∀ j s, i ≤ j < i + Z.of_nat n → I j s → ∃ s', body j s = Ret s' ∧ I (j + 1) s') →
  ∃ s', for_loop n i body s = Ret s' ∧ I (i + Z.of_nat n) s'.
Proof.
  revert i s. induction n as [|n IH]; intros i s Hi Hbody; simpl.
  { exists s. by rewrite Z.add_0_r. }
  destruct (Hbody i s) as (s' & -> & Hs'); [lia|done|].
  destruct (IH (i + 1) s') as (s'' & -> & Hs''); [done| |].
  { intros j s0 Hj. apply Hbody. lia. }
  exists s''. split; [done|]. by replace (i + Z.of_nat (S n)) with (i + 1 + Z.of_nat n) by lia.
Qed.

Lemma for_loop_S (body : Z → St → outcome St) n i s :
  for_loop (S n) i body s = body i s ≫= for_loop n (i + 1) body.
Proof. done. Qed.

Lemma for_opt_S (body : Z → St → outcome (option St)) n i s :
  for_opt (S n) i body s =
    o ← body i s; match o with Some s' => for_opt n (i + 1) body s' | None => Ret None end.
Proof. simpl. by destruct (body i s) as [[]| | | |]. Qed.

(** Total correctness of a loop with early returns. *)
Lemma for_opt_inv (I : Z → St → Prop) (body : Z → St → outcome (option St)) n i s :
  I i s →
  (∀ j s, i ≤ j < i + Z.of_nat n → I j s →
     ∃ o, body j s = Ret o ∧ from_option (I (j + 1)) True o) →
  ∃ o, for_opt n i body s = Ret o ∧ from_option (I (i + Z.of_nat n)) True o.
Proof.
  revert i s. induction n as [|n IH]; intros i s Hi Hbody.
  { exists (Some s). simpl. by rewrite Z.add_0_r. }
  rewrite for_opt_S.
  destruct (Hbody i s) as ([s'|] & -> & Hs'); [lia|done| |by exists None].
  destruct (IH (i + 1) s') as (o & Ho & HI); [done| |].
  { intros j s0 Hj. apply Hbody. lia. }
  exists o. split; [done|]. by replace (i + Z.of_nat (S n)) with (i + 1 + Z.of_nat n) by lia.
Qed.

Lemma for_opt_app (body : Z → St → outcome (option St)) n m i s :
  for_opt (n + m) i body s =
  o ← for_opt n i body s;
  match o with Some s' => for_opt m (i + Z.of_nat n) body s' | None => Ret None end.
Proof.
  revert i s. induction n as [|n IH]; intros i s.
  { cbn. by rewrite Z.add_0_r. }
  cbn [Nat.add]. rewrite !for_opt_S. destruct (body i s) as [[s'|]| | | |]; cbn; try done.
  rewrite IH. by replace (i + 1 + Z.of_nat n) with (i + Z.of_nat (S n)) by lia.
Qed.

(** Partial correctness: an invariant of every turn that does not return. *)
Lemma for_opt_partial (I : Z → St → Prop) (body : Z → St → outcome (option St)) n i s s' :
  (∀ j s1 s2, i ≤ j < i + Z.of_nat n → I j s1 → body j s1 = Ret (Some s2) → I (j + 1) s2) →
  I i s → for_opt n i body s = Ret (Some s') → I (i + Z.of_nat n) s'.
Proof.
  revert i s. induction n as [|n IH]; intros i s Hbody Hi.
  { simpl. intros [= <-]. by rewrite Z.add_0_r. }
  rewrite for_opt_S. intros ([s1|] & Hb & Hrest)%bind_Ret_inv; [|done].
  replace (i + Z.of_nat (S n)) with (i + 1 + Z.of_nat n) by lia.
  apply IH with s1; [|eapply Hbody; [lia|done|done]|done].
  intros j s2 s3 Hj. apply Hbody. lia.
Qed.

Lemma loop_S (body : St → outcome (St + R)) n s :
  loop (S n) body s =
    o ← body s; match o with inl s' => loop n body s' | inr r => Ret r end.
Proof. simpl. by destruct (body s) as [[]| | | |]. Qed.

Lemma for_loop_app (body : Z → St → outcome St) n m i s :
  for_loop (n + m) i body s =
  for_loop n i body s ≫= for_loop m (i + Z.of_nat n) body.
Proof.
  revert i s. induction n as [|n IH]; intros i s; simpl.
  { by rewrite Z.add_0_r. }
  destruct (body i s) as [s'| | | |]; simpl; try done.
  rewrite IH. do 2 f_equal. lia.
Qed.
End loops.

(** ** Two programs that return related results *)

Inductive orel {A B} (Q : A → B → Prop) : outcome A → outcome B → Prop :=
| orel_ret a b : Q a b → orel Q (Ret a) (Ret b)
| orel_fuel : orel Q NoFuel NoFuel.

Lemma orel_bind {A B A' B'} (Q : A → B → Prop) (Q' : A' → B' → Prop) m1 m2 f1 f2 :
  orel Q m1 m2 → (∀ a b, Q a b → orel Q' (f1 a) (f2 b)) → orel Q' (m1 ≫= f1) (m2 ≫= f2).
Proof. intros [a b H|] Hf; cbn; [by apply Hf|constructor]. Qed.

Lemma orel_mono {A B} (Q Q' : A → B → Prop) m1 m2 :
  (∀ a b, Q a b → Q' a b) → orel Q m1 m2 → orel Q' m1 m2.
Proof. intros HQ [a b H|]; constructor. auto. Qed.

(** The results of two loop bodies: both continue or both leave. *)
Definition turn_rel {S1 S2 R1 R2} (R : S1 → S2 → Prop) (Q : R1 → R2 → Prop)
    (o1 : S1 + R1) (o2 : S2 + R2) : Prop :=
  match o1, o2 with
  | inl s1, inl s2 => R s1 s2
  | inr r1, inr r2 => Q r1 r2
  | _, _ => False
  end.

Lemma loop_sim {S1 S2 R1 R2} (R : S1 → S2 → Prop) (Q : R1 → R2 → Prop)
    (b1 : S1 → outcome (S1 + R1)) (b2 : S2 → outcome (S2 + R2)) :
  (∀ s1 s2, R s1 s2 → orel (turn_rel R Q) (b1 s1) (b2 s2)) →
  ∀ fuel s1 s2, R s1 s2 → orel Q (loop fuel b1 s1) (loop fuel b2 s2).
Proof.
  intros Hb fuel. induction fuel as [|fuel IH]; intros s1 s2 HR; [constructor|].
  simpl. destruct (Hb s1 s2 HR) as [o1 o2 H|]; [|constructor].
  destruct o1, o2; cbn in H; try done; [by apply IH|by constructor].
Qed.

#[global] Arguments loop : simpl never.
#[global] Arguments for_loop : simpl never.
#[global] Arguments for_opt : simpl never.
#[global] Arguments asets : simpl never.
#[global] Arguments aget : simpl never.
#[global] Arguments aset : simpl never.
#[global] Arguments cint : simpl never.
#[global] Arguments zlen : simpl never.

(** ** Bits and bytes *)

Lemma land_mask v n : 0 ≤ n → Z.land v (2 ^ n - 1) = v mod 2 ^ n.
Proof. intros Hn. rewrite <-Z.land_ones by done. f_equal. rewrite Z.ones_equiv. lia. Qed.

(** Conversions that change nothing. *)
Lemma i32_small n : 0 ≤ n ≤ INT_MAX → i32 n = n.
Proof. unfold INT_MAX, i32. intros. rewrite Z.mod_small; lia. Qed.

Lemma u32_small n : 0 ≤ n < 2 ^ 32 → u32 n = n.
Proof. apply Z.mod_small. Qed.

Lemma u32_bound n : 0 ≤ u32 n < 2 ^ 32.
Proof. by apply Z.mod_pos_bound. Qed.

(** An index that runs over the end of a ring at most once. *)
Lemma mod_wrap c x : 0 < c → 0 ≤ x < 2 * c → x mod c = if c <=? x then x - c else x.
Proof.
  intros Hc Hx. destruct (Z.leb_spec c x).
  - symmetry. apply Z.mod_unique with 1; lia.
  - apply Z.mod_small. lia.
Qed.

(** Joining a low part and a shifted high part. *)
Lemma lor_shiftl a b n : 0 ≤ n → 0 ≤ a < 2 ^ n → Z.lor a (Z.shiftl b n) = a + b * 2 ^ n.
Proof.
  intros Hn Ha. rewrite Z.shiftl_mul_pow2 by done.
  assert (Hland : Z.land a (b * 2 ^ n) = 0).
  { apply Z.bits_inj'. intros k Hk. rewrite Z.land_spec, Z.bits_0, <-Z.shiftl_mul_pow2 by done.
    destruct (decide (k < n)).
    - rewrite Z.shiftl_spec_low by done. by rewrite andb_false_r.
    - rewrite <-(Z.mod_small a (2 ^ n)), Z.mod_pow2_bits_high by lia. done. }
  rewrite <-Z.lxor_lor, <-Z.add_nocarry_lxor by done. done.
Qed.

Lemma lor_shiftl_l a b n : 0 ≤ n → 0 ≤ a < 2 ^ n → Z.lor (Z.shiftl b n) a = a + b * 2 ^ n.
Proof. intros. rewrite Z.lor_comm. by apply lor_shiftl. Qed.

Definition is_byte (b : Z) : Prop := 0 ≤ b < 256.
Notation bytes := (Forall is_byte).

#[export] Instance is_byte_dec b : Decision (is_byte b).
Proof. unfold is_byte. apply _. Defined.

(** ** Memory blocks: [memcpy] out of and into a buffer *)

Definition mread {A} (mem : list A) (off n : Z) : outcome (list A) :=
  if (0 <=? off) && (0 <=? n) && (off + n <=? zlen mem)
  then Ret (take (Z.to_nat n) (drop (Z.to_nat off) mem)) else Undef.

Definition mwrite {A} (mem : list A) (off : Z) (bs : list A) : outcome (list A) :=
  if (0 <=? off) && (off + zlen bs <=? zlen mem)
  then Ret (take (Z.to_nat off) mem ++ bs ++ drop (Z.to_nat (off + zlen bs)) mem) else Undef.

(** [bs] is what [mem] holds from [off] on. *)
Definition mem_at {A} (mem : list A) (off : nat) (bs : list A) : Prop :=
  ∀ k b, bs !! k = Some b → mem !! (off + k)%nat = Some b.

Lemma mread_in {A} (mem : list A) off n :
  0 ≤ off → 0 ≤ n → off + n ≤ zlen mem →
  mread mem off n = Ret (take (Z.to_nat n) (drop (Z.to_nat off) mem)).
Proof.
  intros. unfold mread. by rewrite !(proj2 (Z.leb_le _ _)) by lia.
Qed.

Lemma mwrite_in {A} (mem : list A) off bs :
  0 ≤ off → off + zlen bs ≤ zlen mem →
  ∃ mem', mwrite mem off bs = Ret mem' ∧ zlen mem' = zlen mem ∧
    mem_at mem' (Z.to_nat off) bs ∧
    (∀ k, (k < Z.to_nat off)%nat ∨ (Z.to_nat (off + zlen bs) ≤ k)%nat → mem' !! k = mem !! k).
Proof.
  intros H1 H2. unfold mwrite. rewrite !(proj2 (Z.leb_le _ _)) by lia. simpl.
  eexists. split; [done|]. unfold zlen in *.
  assert (Ht : length (take (Z.to_nat off) mem) = Z.to_nat off) by (rewrite length_take; lia).
  split_and!.
  - rewrite !length_app, length_drop, Ht. lia.
  - intros k b Hk. pose proof (lookup_lt_Some _ _ _ Hk).
    rewrite lookup_app_r by lia. rewrite lookup_app_l by lia. rewrite Ht.
    by replace (Z.to_nat off + k - Z.to_nat off)%nat with k by lia.
  - intros k [Hk|Hk].
    + rewrite lookup_app_l by lia. by rewrite lookup_take_lt by lia.
    + rewrite lookup_app_r by lia. rewrite lookup_app_r by lia. rewrite lookup_drop. f_equal. lia.
Qed.

Lemma mem_at_app {A} (mem : list A) off b1 b2 :
  mem_at mem off (b1 ++ b2) ↔ mem_at mem off b1 ∧ mem_at mem (off + length b1) b2.
Proof.
  split.
  - intros H. split; intros k b Hk.
    + apply H. by apply lookup_app_l_Some.
    + rewrite <-Nat.add_assoc. apply H. rewrite lookup_app_r by lia.
      rewrite <-Hk. f_equal. lia.
  - intros [H1 H2] k b [Hk|[Hl Hk]]%lookup_app_Some; [by apply H1|].
    apply H2 in Hk. rewrite <-Hk. f_equal. lia.
Qed.

Lemma mem_at_take {A} (mem : list A) bs : mem_at mem 0 bs ↔ take (length bs) mem = bs.
Proof.
  split.
  - intros H. apply list_eq. intros k. destruct (bs !! k) as [b|] eqn:Hk.
    + rewrite lookup_take_lt by (by eapply lookup_lt_Some). by apply H in Hk.
    + apply lookup_ge_None in Hk. apply lookup_ge_None. rewrite length_take. lia.
  - intros H k b Hk. rewrite <-H in Hk. by apply lookup_take_Some in Hk as [? _].
Qed.

Lemma mem_at_same {A} (mem mem' : list A) off bs :
  (∀ k, (off ≤ k < off + length bs)%nat → mem' !! k = mem !! k) →
  mem_at mem off bs → mem_at mem' off bs.
Proof.
  intros Hs Hm k b Hk. rewrite Hs; [by apply Hm|]. apply lookup_lt_Some in Hk. lia.
Qed.

(** Byte-wise assignments are a copy. *)
Lemma asets_in {A} (mem : list A) off bs :
  0 ≤ off → off + zlen bs ≤ zlen mem → asets mem off bs = mwrite mem off bs.
Proof.
  revert mem off. induction bs as [|b bs IH]; intros mem off H0 Hl.
  { unfold asets, mwrite. change (zlen []) with 0. rewrite !(proj2 (Z.leb_le _ _)) by (change (zlen []) with 0 in Hl; lia).
    cbn. by rewrite Z.add_0_r, take_drop. }
  rewrite zlen_cons in Hl. pose proof (zlen_nonneg bs).
  unfold asets; fold @asets. rewrite aset_in by lia.
  rewrite IH by (rewrite ?zlen_insert; lia). unfold mwrite.
  rewrite !(proj2 (Z.leb_le _ _)) by (rewrite ?zlen_insert, ?zlen_cons; lia). cbn [andb].
  f_equal. rewrite zlen_cons. unfold zlen in *.
  rewrite Z2Nat.inj_add by lia. change (Z.to_nat 1) with 1%nat.
  rewrite Nat.add_1_r. erewrite take_S_r by (apply list_lookup_insert_eq; lia).
  rewrite take_insert_ge, <-app_assoc by lia. cbn [app]. f_equal. f_equal.
  rewrite drop_insert_lt by lia. f_equal. f_equal. lia.
Qed.

(** [mem'] differs from [mem] only from [a] up to [b]. *)
Record same_outside {A} (mem mem' : list A) (a b : Z) : Prop := {
  so_zlen : zlen mem' = zlen mem;
  so_same k : Z.of_nat k < a ∨ b ≤ Z.of_nat k → mem' !! k = mem !! k
}.

Lemma same_outside_refl {A} (mem : list A) a b : same_outside mem mem a b.
Proof. done. Qed.

Lemma same_outside_trans {A} (m1 m2 m3 : list A) a1 b1 a2 b2 a b :
  same_outside m1 m2 a1 b1 → same_outside m2 m3 a2 b2 →
  a ≤ a1 → a ≤ a2 → b1 ≤ b → b2 ≤ b → same_outside m1 m3 a b.
Proof.
  intros [H1 H2] [H3 H4] ????. split; [congruence|]. intros k Hk.
  rewrite H4, H2 by lia. done.
Qed.

Lemma same_outside_mono {A} (m1 m2 : list A) a1 b1 a b :
  same_outside m1 m2 a1 b1 → a ≤ a1 → b1 ≤ b → same_outside m1 m2 a b.
Proof. intros [H1 H2] ??. split; [done|]. intros k Hk. apply H2. lia. Qed.

Lemma mwrite_spec {A} (mem : list A) off bs :
  0 ≤ off → off + zlen bs ≤ zlen mem →
  ∃ mem', mwrite mem off bs = Ret mem' ∧ same_outside mem mem' off (off + zlen bs) ∧
    mem_at mem' (Z.to_nat off) bs.
Proof.
  intros H0 H1. destruct (mwrite_in mem off bs H0 H1) as (mem' & Hw & Hl & Hat & Hs).
  exists mem'. split_and!; [done| |done]. split; [done|]. intros k Hk. apply Hs. lia.
Qed.

Lemma asets_spec {A} (mem : list A) off bs :
  0 ≤ off → off + zlen bs ≤ zlen mem →
  ∃ mem', asets mem off bs = Ret mem' ∧ same_outside mem mem' off (off + zlen bs) ∧
    mem_at mem' (Z.to_nat off) bs.
Proof. intros H0 H1. rewrite asets_in by done. by apply mwrite_spec. Qed.

Lemma aset_spec {A} (mem : list A) off b :
  0 ≤ off < zlen mem →
  ∃ mem', aset mem off b = Ret mem' ∧ same_outside mem mem' off (off + 1) ∧
    mem_at mem' (Z.to_nat off) [b].
Proof.
  intros H. rewrite aset_in by done. eexists. split; [done|]. split; [split|].
  - by rewrite zlen_insert.
  - intros k Hk. rewrite list_lookup_insert_ne by lia. done.
  - intros [|k] c Hk; [|done]. injection Hk as <-. rewrite Nat.add_0_r.
    apply list_lookup_insert_eq. unfold zlen in H. lia.
Qed.

Lemma mem_at_frame {A} (mem mem' : list A) a b off bs :
  same_outside mem mem' a b → Z.of_nat off + zlen bs ≤ a ∨ b ≤ Z.of_nat off →
  mem_at mem off bs → mem_at mem' off bs.
Proof.
  intros [_ Hs] Ho. apply mem_at_same. intros k Hk. apply Hs. unfold zlen in Ho. lia.
Qed.

Lemma mem_at_appz {A} (mem : list A) off b1 b2 :
  0 ≤ off → mem_at mem (Z.to_nat off) (b1 ++ b2) ↔
    mem_at mem (Z.to_nat off) b1 ∧ mem_at mem (Z.to_nat (off + zlen b1)) b2.
Proof.
  intros Ho. rewrite mem_at_app.
  by replace (Z.to_nat (off + zlen b1)) with (Z.to_nat off + length b1)%nat by (unfold zlen; lia).
Qed.

Lemma mread_at {A} (mem : list A) off bs :
  0 ≤ off → off + zlen bs ≤ zlen mem → mem_at mem (Z.to_nat off) bs →
  mread mem off (zlen bs) = Ret bs.
Proof.
  intros H0 H1 Hat. pose proof (zlen_nonneg bs). rewrite mread_in by lia. f_equal.
  assert (Hd : mem_at (drop (Z.to_nat off) mem) 0 bs).
  { intros k b Hk. rewrite lookup_drop. by apply Hat. }
  apply mem_at_take in Hd. unfold zlen. by rewrite Nat2Z.id.
Qed.

Lemma mread_all {A} (l : list A) : mread l 0 (zlen l) = Ret l.
Proof. apply mread_at; [done|lia|]. by intros k b Hk. Qed.

(** A loop over the elements of a list that appends to a log. *)
Lemma for_loop_imap {A E} (body : Z → list E → outcome (list E)) (g : nat → A → E) l i log :
  (∀ j x log', l !! j = Some x → body (i + Z.of_nat j) log' = Ret (log' ++ [g j x])) →
  for_loop (length l) i body log = Ret (log ++ imap g l).
Proof.
  revert g i log. induction l as [|x l IH]; intros g i log Hb.
  { cbn. by rewrite app_nil_r. }
  cbn [length]. rewrite for_loop_S. pose proof (Hb 0%nat x log eq_refl) as H0.
  rewrite Z.add_0_r in H0. rewrite H0. bsimpl. rewrite (IH (g ∘ S)).
  - cbn. by rewrite <-app_assoc.
  - intros j y log' Hj. specialize (Hb (S j) y log' Hj).
    by replace (i + 1 + Z.of_nat j) with (i + Z.of_nat (S j)) by lia.
Qed.

(** ** Words as bytes *)

(** The bytes of a word, the lowest first. *)
Definition le_bytes (n : nat) (x : Z) : list Z :=
  (λ i, Z.land (Z.shiftr x (8 * Z.of_nat i)) 0xff) <$> seq 0 n.

(** The number whose bytes, the lowest first, are [l]. *)
Fixpoint le_value (l : list Z) : Z :=
  match l with [] => 0 | b :: l' => b + 256 * le_value l' end.

Lemma le_value_range l : bytes l → 0 ≤ le_value l < 2 ^ (8 * zlen l).
Proof.
  induction 1 as [|b l Hb _ IH]; [done|]. cbn [le_value]. rewrite zlen_cons.
  pose proof (zlen_nonneg l).
  replace (8 * (1 + zlen l)) with (8 + 8 * zlen l) by lia. rewrite Z.pow_add_r by lia.
  unfold is_byte in Hb. change (2 ^ 8) with 256. lia.
Qed.

Lemma le_bytes_value n x : 0 ≤ x < 2 ^ (8 * Z.of_nat n) →
  le_value (le_bytes n x) = x ∧ length (le_bytes n x) = n ∧ bytes (le_bytes n x).
Proof.
  assert (Hs : ∀ n y, le_bytes (S n) y = y mod 256 :: le_bytes n (y / 256)).
  { intros m y. unfold le_bytes. cbn [seq fmap list_fmap].
    change 0xff with (2 ^ 8 - 1). rewrite land_mask by done. f_equal.
    rewrite <-fmap_S_seq, <-list_fmap_compose. apply list_fmap_ext. intros k i Hi. cbn.
    f_equal. rewrite !Z.shiftr_div_pow2 by lia. change 256 with (2 ^ 8).
    rewrite Z.div_div, <-Z.pow_add_r by lia. do 2 f_equal. lia. }
  revert x. induction n as [|n IH]; intros x Hx.
  { cbn in Hx. cbn. split_and!; [lia|done|done]. }
  rewrite Hs. destruct (IH (x / 256)) as (E & Hl & Hb).
  { replace (8 * Z.of_nat (S n)) with (8 + 8 * Z.of_nat n) in Hx by lia.
    rewrite Z.pow_add_r in Hx by lia. change (2 ^ 8) with 256 in Hx.
    split; [apply Z.div_pos; lia|apply Z.div_lt_upper_bound; lia]. }
  cbn [le_value length]. rewrite E, Hl. split_and!; [pose proof (Z.div_mod x 256); lia|done|].
  constructor; [apply Z.mod_pos_bound; lia|done].
Qed.

Lemma le_value_bytes l : bytes l → le_bytes (length l) (le_value l) = l.
Proof.
  intros Hb. pose proof (le_value_range l Hb) as Hr. pose proof (le_bytes_value (length l) (le_value l)) as H.
  unfold zlen in Hr. specialize (H Hr). destruct H as (E & Hl & Hb'). revert Hb E Hl Hb'.
  generalize (le_bytes (length l) (le_value l)) as l'. clear Hr. induction l as [|b l IH]; intros [|b' l'] Hb E Hl Hb'; try done.
  apply Forall_cons in Hb as [H1 Hb]. apply Forall_cons in Hb' as [H2 Hb']. cbn [le_value] in E. unfold is_byte in H1, H2.
  assert (b' = b) as -> by lia. f_equal. apply IH; [done|lia|by injection Hl|done].
Qed.

Lemma zlen_le_bytes n x : zlen (le_bytes n x) = Z.of_nat n.
Proof. unfold zlen, le_bytes. by rewrite length_fmap, length_seq. Qed.
