(* ===== verification/Text.v ===== *)
(** * Text

    What the string functions of the C library do, for the parts that read text:
    a string is the list of its character codes. *)
From S2P Require Import Prelude.

Local Open Scope Z_scope.

(** The C string in a buffer: the characters before the first NUL. *)
Fixpoint c_str (s : list Z) : list Z :=
  match s with
  | [] => []
  | c :: s' => if c =? 0 then [] else c :: c_str s'
  end.

Definition is_space (c : Z) : bool := (c =? 32) || ((9 <=? c) && (c <=? 13)).

Fixpoint skip_spaces (s : list Z) : list Z :=
  match s with
  | [] => []
  | c :: s' => if is_space c then skip_spaces s' else s
  end.

(** The value of a character as a digit, 36 when it is none. *)
Definition digit_of (c : Z) : Z :=
  if (48 <=? c) && (c <=? 57) then c - 48
  else if (97 <=? c) && (c <=? 122) then c - 87
  else if (65 <=? c) && (c <=? 90) then c - 55
  else 36.

(** The number the digits in front of [s] make, and whether there are any. *)
Fixpoint digits (base acc : Z) (some : bool) (s : list Z) : Z * bool :=
  match s with
  | c :: s' => if digit_of c <? base then digits base (acc * base + digit_of c) true s'
               else (acc, some)
  | [] => (acc, some)
  end.

(** An optional sign. *)
Definition sign_of (s : list Z) : bool * list Z :=
  match s with
  | c :: s' => if c =? 45 then (true, s') else if c =? 43 then (false, s') else (false, s)
  | [] => (false, [])
  end.

(** [strtol(s, NULL, 10)], assigned to an [int]. *)
Definition strtol10 (s : list Z) : Z :=
  let '(neg, s') := sign_of (skip_spaces (c_str s)) in
  let v := fst (digits 10 0 false s') in
  i32 (Z.max (- 2 ^ 63) (Z.min (2 ^ 63 - 1) (if neg then - v else v))).

(** [strtoul(s, NULL, 16)], assigned to a [uint32_t]: [0x] may come first. *)
Definition strtoul16 (s : list Z) : Z :=
  let '(neg, s') := sign_of (skip_spaces (c_str s)) in
  let s'' := match s' with
             | c0 :: c1 :: c2 :: r =>
                 if (c0 =? 48) && ((c1 =? 120) || (c1 =? 88)) && (digit_of c2 <? 16)
                 then c2 :: r else s'
             | _ => s'
             end in
  let v := fst (digits 16 0 false s'') in
  if 2 ^ 64 <=? v then u32 (2 ^ 64 - 1) else u32 (if neg then - v else v).

(** ** [sscanf] *)

Fixpoint word (s : list Z) : list Z * list Z :=
  match s with
  | [] => ([], [])
  | c :: s' => if is_space c then ([], s) else let '(w, r) := word s' in (c :: w, r)
  end.

Fixpoint skip_digits (s : list Z) : list Z :=
  match s with
  | c :: s' => if digit_of c <? 10 then skip_digits s' else s
  | [] => []
  end.

(** ["%s"] and ["%d"] of [sscanf]; [None]: no match. *)
Definition scan_word (s : list Z) : option (list Z * list Z) :=
  match word (skip_spaces s) with ([], _) => None | r => Some r end.
Definition scan_int (s : list Z) : option (Z * list Z) :=
  let '(_, s') := sign_of (skip_spaces s) in
  if snd (digits 10 0 false s') then Some (strtol10 s, skip_digits s') else None.

(** ["%u"] into a [uint32_t]. *)
Definition scan_unsigned (s : list Z) : option (Z * list Z) :=
  let '(neg, s') := sign_of (skip_spaces s) in
  let '(v, some) := digits 10 0 false s' in
  if some then
    Some (if 2 ^ 64 <=? v then u32 (2 ^ 64 - 1) else u32 (if neg : bool then - v else v),
          skip_digits s')
  else None.
