(* ===== verification/MessageQueue.v ===== *)
(** * Message queues

    The model of [fengnet-src/fengnet_mq.cpp] and [fengnet_mq.h]. *)
From S2P Require Import Prelude.

Local Open Scope Z_scope.

(** ** Data *)

(** [struct fengnet_message]; [data] is the pointer, as a number (0 is [NULL]). *)
Record fengnet_message := MkMsg {
  source : Z;
  session : Z;
  data : Z;
  sz : Z
}.

#[export] Instance fengnet_message_eq_dec : EqDecision fengnet_message.
Proof. solve_decision. Defined.

Definition SIZE_MAX : Z := 2 ^ 64 - 1.
Definition MESSAGE_TYPE_MASK : Z := Z.shiftr SIZE_MAX 8.
Definition MESSAGE_TYPE_SHIFT : Z := (8 - 1) * 8.

Definition DEFAULT_QUEUE_SIZE : Z := 64.
Definition MQ_IN_GLOBAL : Z := 1.
Definition MQ_OVERLOAD : Z := 1024.

(** The address of a [message_queue] in the heap. *)
Notation loc := positive (only parsing).

(** [struct message_queue]; [queue] is the array [queue] points to. The spin
    lock is not a field: each operation below is one critical section. *)
Record message_queue := MkQueue {
  handle : Z;
  cap : Z;
  head : Z;
  tail : Z;
  release : Z;
  in_global : Z;
  overload : Z;
  overload_threshold : Z;
  queue : list fengnet_message;
  next : option loc
}.

#[export] Instance message_queue_eq_dec : EqDecision message_queue.
Proof. solve_decision. Defined.

Definition set_ring (q : message_queue) (cap' head' tail' : Z) (queue' : list fengnet_message)
    : message_queue :=
  MkQueue (handle q) cap' head' tail' (release q) (in_global q) (overload q)
    (overload_threshold q) queue' (next q).
Definition set_release (q : message_queue) (v : Z) : message_queue :=
  MkQueue (handle q) (cap q) (head q) (tail q) v (in_global q) (overload q)
    (overload_threshold q) (queue q) (next q).
Definition set_in_global (q : message_queue) (v : Z) : message_queue :=
  MkQueue (handle q) (cap q) (head q) (tail q) (release q) v (overload q)
    (overload_threshold q) (queue q) (next q).
Definition set_overload (q : message_queue) (v thr : Z) : message_queue :=
  MkQueue (handle q) (cap q) (head q) (tail q) (release q) (in_global q) v thr
    (queue q) (next q).
Definition set_next (q : message_queue) (n : option loc) : message_queue :=
  MkQueue (handle q) (cap q) (head q) (tail q) (release q) (in_global q) (overload q)
    (overload_threshold q) (queue q) n.

(** [struct global_queue]: the list of queues that wait for a worker. *)
Record global_queue := MkGlobal { ghead : option loc; gtail : option loc }.

#[export] Instance global_queue_eq_dec : EqDecision global_queue.
Proof. solve_decision. Defined.

(** The state of [FengnetMQ]: the heap of queues and [Q]. *)
Record mq_state := MkMQ { heap : gmap loc message_queue; Q : global_queue }.

Definition load (st : mq_state) (l : loc) : outcome message_queue :=
  match heap st !! l with Some q => Ret q | None => Undef end.
Definition store (st : mq_state) (l : loc) (q : message_queue) : mq_state :=
  MkMQ (<[l := q]> (heap st)) (Q st).

(** ** Operations *)

(** A message as [new fengnet_message[n]()] leaves it. *)
Definition zero_message : fengnet_message := MkMsg 0 0 0 0.

Definition fengnet_mq_init : mq_state := MkMQ ∅ (MkGlobal None None).

Definition fengnet_globalmq_push (st : mq_state) (l : loc) : outcome mq_state :=
  q ← load st l;
  _ ← assert_true (bool_decide (next q = None));
  match gtail (Q st) with
  | Some t =>
      tq ← load st t;
      Ret (MkMQ (<[t := set_next tq (Some l)]> (heap st)) (MkGlobal (ghead (Q st)) (Some l)))
  | None => Ret (MkMQ (heap st) (MkGlobal (Some l) (Some l)))
  end.

Definition fengnet_globalmq_pop (st : mq_state) : outcome (option loc * mq_state) :=
  match ghead (Q st) with
  | None => Ret (None, st)
  | Some m =>
      mq ← load st m;
      let head' := next mq in
      tail' ← match head' with
              | None => _ ← assert_true (bool_decide (gtail (Q st) = Some m)); Ret None
              | Some _ => Ret (gtail (Q st))
              end;
      Ret (Some m, MkMQ (<[m := set_next mq None]> (heap st)) (MkGlobal head' tail'))
  end.

Definition new_queue (handle : Z) : message_queue :=
  MkQueue handle DEFAULT_QUEUE_SIZE 0 0 0 MQ_IN_GLOBAL 0 MQ_OVERLOAD
    (replicate (Z.to_nat DEFAULT_QUEUE_SIZE) zero_message) None.

Definition fengnet_mq_create (st : mq_state) (handle : Z) : loc * mq_state :=
  let l := fresh (dom (heap st)) in
  (l, store st l (new_queue handle)).

(** [delete q] after [delete[] q->queue]. *)
Definition _release (st : mq_state) (l : loc) : outcome mq_state :=
  q ← load st l;
  _ ← assert_true (bool_decide (next q = None));
  Ret (MkMQ (delete l (heap st)) (Q st)).

Definition fengnet_mq_mark_release (st : mq_state) (l : loc) : outcome mq_state :=
  q ← load st l;
  _ ← assert_true (release q =? 0);
  let st' := store st l (set_release q 1) in
  if negb (in_global q =? MQ_IN_GLOBAL) then fengnet_globalmq_push st' l else Ret st'.

(** The [while (length > q->overload_threshold)] loop of [fengnet_mq_pop]. *)
Definition overload_step (length : Z) (s : Z * Z) : outcome ((Z * Z) + (Z * Z)) :=
  let '(overload, threshold) := s in
  if threshold <? length then
    threshold' ← cint (threshold * 2);
    Ret (inl (length, threshold'))
  else Ret (inr (overload, threshold)).

(** The ring part of [fengnet_mq_pop]: the queue after it, and the message
    when there is one ([ret] is 0 exactly then). *)
Definition ring_pop (q : message_queue) : outcome (message_queue * option fengnet_message) :=
  if head q =? tail q then
    (* reset overload_threshold when queue is empty; ret is 1 *)
    Ret (set_in_global (set_overload q (overload q) MQ_OVERLOAD) 0, None)
  else
    message ← aget (queue q) (head q);
    let head1 := head q + 1 in
    let head' := if cap q <=? head1 then 0 else head1 in
    let length := tail q - head' in
    let length' := if length <? 0 then length + cap q else length in
    '(overload', threshold') ←
      loop 32 (overload_step length') (overload q, overload_threshold q);
    Ret (set_overload (set_ring q (cap q) head' (tail q) (queue q)) overload' threshold',
         Some message).

Definition fengnet_mq_pop (st : mq_state) (l : loc)
    : outcome (option fengnet_message * mq_state) :=
  q ← load st l;
  '(q', m) ← ring_pop q;
  Ret (m, store st l q').

Definition expand_queue (q : message_queue) : outcome message_queue :=
  cap2 ← cint (cap q * 2);
  queue' ← for_loop (Z.to_nat (cap q)) 0
    (λ i nq, x ← aget (queue q) ((head q + i) mod cap q); aset nq i x)
    (replicate (Z.to_nat cap2) zero_message);
  Ret (set_ring q cap2 0 (cap q) queue').

(** The ring part of [fengnet_mq_push]. *)
Definition ring_push (q : message_queue) (message : fengnet_message) : outcome message_queue :=
  queue' ← aset (queue q) (tail q) message;
  let tail1 := tail q + 1 in
  let tail' := if cap q <=? tail1 then 0 else tail1 in
  let q' := set_ring q (cap q) (head q) tail' queue' in
  if head q =? tail' then expand_queue q' else Ret q'.

Definition fengnet_mq_push (st : mq_state) (l : loc) (message : fengnet_message)
    : outcome mq_state :=
  q ← load st l;
  q' ← ring_push q message;
  if in_global q' =? 0 then
    fengnet_globalmq_push (store st l (set_in_global q' MQ_IN_GLOBAL)) l
  else Ret (store st l q').

Definition fengnet_mq_handle (st : mq_state) (l : loc) : outcome Z :=
  q ← load st l; Ret (handle q).

Definition ring_length (q : message_queue) : Z :=
  if head q <=? tail q then tail q - head q else tail q + cap q - head q.

Definition fengnet_mq_length (st : mq_state) (l : loc) : outcome Z :=
  q ← load st l; Ret (ring_length q).

Definition fengnet_mq_overload (st : mq_state) (l : loc) : outcome (Z * mq_state) :=
  q ← load st l;
  if overload q =? 0 then Ret (0, st)
  else Ret (overload q, store st l (set_overload q 0 (overload_threshold q))).

(** [message_drop]: called on each message a released queue still holds; it
    may push messages to other queues. *)
Definition message_drop : Type := fengnet_message → mq_state → outcome mq_state.

Definition drop_step (drop_func : message_drop) (l : loc) (st : mq_state)
    : outcome (mq_state + mq_state) :=
  '(m, st') ← fengnet_mq_pop st l;
  match m with
  | Some msg => st'' ← drop_func msg st'; Ret (inl st'')
  | None => Ret (inr st')
  end.

Definition _drop_queue (fuel : nat) (st : mq_state) (l : loc) (drop_func : message_drop)
    : outcome mq_state :=
  st' ← loop fuel (drop_step drop_func l) st;
  _release st' l.

Definition fengnet_mq_release (fuel : nat) (st : mq_state) (l : loc) (drop_func : message_drop)
    : outcome mq_state :=
  q ← load st l;
  if negb (release q =? 0) then _drop_queue fuel st l drop_func
  else fengnet_globalmq_push st l.

(** ** The ring buffer as a FIFO *)

#[export] Instance fengnet_message_inhabited : Inhabited fengnet_message :=
  populate zero_message.

(** The first [n] cells from [head] on, in the order [fengnet_mq_pop] reads them. *)
Definition window (q : message_queue) (n : nat) : list fengnet_message :=
  map (λ i, queue q !!! Z.to_nat ((head q + Z.of_nat i) mod cap q)) (seq 0 n).

(** The messages the queue holds, oldest first. *)
Definition contents (q : message_queue) : list fengnet_message :=
  window q (Z.to_nat (ring_length q)).

(** The largest [cap] whose doubling is still an [int]. *)
Definition MAX_CAP : Z := 2 ^ 30.

Record ring_wf (q : message_queue) : Prop := {
  wf_cap : 1 < cap q ≤ MAX_CAP;
  wf_pow : ∃ k, 0 ≤ k ∧ cap q = 2 ^ k;
  wf_len : zlen (queue q) = cap q;
  wf_head : 0 ≤ head q < cap q;
  wf_tail : 0 ≤ tail q < cap q;
  wf_thr : MQ_OVERLOAD ≤ overload_threshold q ≤ INT_MAX;
}.

(** There is a free cell beside the one [tail] needs, or [cap] can be doubled. *)
Definition ring_room (q : message_queue) : Prop :=
  ring_length q + 1 < cap q ∨ cap q * 2 ≤ MAX_CAP.

(** [q'] differs from [q] in the ring at most. *)
Definition same_flags (q q' : message_queue) : Prop :=
  handle q' = handle q ∧ release q' = release q ∧ in_global q' = in_global q ∧
  next q' = next q ∧ overload q' = overload q ∧ overload_threshold q' = overload_threshold q.

Lemma ring_length_bounds q : ring_wf q → 0 ≤ ring_length q < cap q.
Proof.
  intros [? ? ? ? ? ?]. unfold ring_length. destruct (Z.leb_spec (head q) (tail q)); lia.
Qed.

Lemma ring_tail q : ring_wf q → tail q = (head q + ring_length q) mod cap q.
Proof.
  intros [? ? ? ? ? ?]. unfold ring_length.
  destruct (Z.leb_spec (head q) (tail q)).
  - rewrite Z.mod_small by lia. lia.
  - rewrite mod_wrap by lia. destruct (Z.leb_spec (cap q) (head q + (tail q + cap q - head q))); lia.
Qed.

Lemma window_S q n :
  window q (S n) = window q n ++ [queue q !!! Z.to_nat ((head q + Z.of_nat n) mod cap q)].
Proof. unfold window. rewrite seq_S, map_app. done. Qed.

Lemma window_ext q q' n :
  (∀ i, (i < n)%nat →
    queue q !!! Z.to_nat ((head q + Z.of_nat i) mod cap q) =
    queue q' !!! Z.to_nat ((head q' + Z.of_nat i) mod cap q')) →
  window q n = window q' n.
Proof.
  intros H. unfold window. apply map_ext_in. intros i Hi%in_seq. apply H. lia.
Qed.

(** Writing the cell behind a window of [n < cap] cells extends it. *)
Lemma window_write q n m t' :
  0 < cap q → zlen (queue q) = cap q → 0 ≤ head q < cap q → Z.of_nat n < cap q →
  window (set_ring q (cap q) (head q) t'
            (<[Z.to_nat ((head q + Z.of_nat n) mod cap q) := m]> (queue q))) (S n) =
  window q n ++ [m].
Proof.
  intros Hc Hl Hh Hn. pose proof (Z.mod_pos_bound (head q + Z.of_nat n) (cap q) Hc).
  rewrite window_S. simpl. f_equal.
  - apply window_ext. intros i Hi. simpl.
    rewrite list_lookup_total_insert_ne; [done|].
    rewrite !mod_wrap by lia.
    destruct (Z.leb_spec (cap q) (head q + Z.of_nat n)),
      (Z.leb_spec (cap q) (head q + Z.of_nat i)); lia.
  - rewrite list_lookup_total_insert_eq; [done|]. unfold zlen in Hl. lia.
Qed.

(** [expand_queue] on a full ring ([head = tail]): the same [cap] messages, at
    the front of an array twice as long. *)
Lemma expand_queue_spec q :
  1 < cap q → cap q * 2 ≤ MAX_CAP → (∃ k, 0 ≤ k ∧ cap q = 2 ^ k) →
  zlen (queue q) = cap q → 0 ≤ head q < cap q →
  MQ_OVERLOAD ≤ overload_threshold q ≤ INT_MAX →
  ∃ q', expand_queue q = Ret q' ∧ ring_wf q' ∧ same_flags q q' ∧
    contents q' = window q (Z.to_nat (cap q)).
Proof.
  intros Hc Hm (pw & Hpw & Hpow) Hl Hh Ht. unfold MAX_CAP in Hm. unfold expand_queue.
  rewrite cint_in by (unfold INT_MIN, INT_MAX; lia). simpl.
  destruct (for_loop_inv
    (λ j nq, zlen nq = cap q * 2 ∧ ∀ k, (Z.of_nat k < j) →
       nq !!! k = queue q !!! Z.to_nat ((head q + Z.of_nat k) mod cap q))
    (λ i nq, x ← aget (queue q) ((head q + i) mod cap q); aset nq i x)
    (Z.to_nat (cap q)) 0 (replicate (Z.to_nat (cap q * 2)) zero_message))
    as (nq & -> & Hlen & Hnq).
  - unfold zlen. rewrite length_replicate. split; [lia|]. lia.
  - intros j nq Hj [Hlen Hnq].
    pose proof (Z.mod_pos_bound (head q + j) (cap q) ltac:(lia)).
    destruct (aget_in (queue q) ((head q + j) mod cap q)) as (x & -> & Hx); [lia|].
    simpl. rewrite aset_in by lia. eexists. split; [done|].
    rewrite zlen_insert. split; [done|]. intros k Hk.
    destruct (decide (Z.of_nat k = j)) as [<-|Hne].
    + rewrite Nat2Z.id, list_lookup_total_insert_eq by (unfold zlen in Hlen; lia).
      by rewrite (list_lookup_total_correct _ _ _ Hx).
    + rewrite list_lookup_total_insert_ne by lia. apply Hnq. lia.
  - simpl. eexists. split; [done|]. split_and!.
    + constructor; simpl; unfold MAX_CAP in *; try lia.
      exists (pw + 1). rewrite Z.pow_add_r, Hpow by lia. lia.
    + done.
    + unfold contents, ring_length. simpl.
      destruct (Z.leb_spec 0 (cap q)); [|lia]. rewrite Z.sub_0_r.
      unfold window. apply map_ext_in. intros i Hi%in_seq. simpl.
      rewrite <-(Hnq i) by lia. f_equal. rewrite Z.mod_small by lia. lia.
Qed.

Lemma ring_push_spec q m :
  ring_wf q → ring_room q →
  ∃ q', ring_push q m = Ret q' ∧ ring_wf q' ∧ same_flags q q' ∧
    contents q' = contents q ++ [m] ∧ cap q ≤ cap q'.
Proof.
  intros Hwf Hroom. pose proof (ring_length_bounds q Hwf) as Hlen.
  pose proof (ring_tail q Hwf) as Htail. destruct Hwf as [Hc Hpow Hl Hh Ht Hthr].
  unfold ring_push. rewrite aset_in by lia. simpl.
  assert (Hw := λ t', window_write q (Z.to_nat (ring_length q)) m t'
    ltac:(lia) Hl Hh ltac:(lia)).
  rewrite Z2Nat.id, <-Htail in Hw by lia.
  set (t' := if cap q <=? tail q + 1 then 0 else tail q + 1).
  assert (Ht' : 0 ≤ t' < cap q)
    by (unfold t'; destruct (Z.leb_spec (cap q) (tail q + 1)); lia).
  specialize (Hw t'). destruct (Z.eqb_spec (head q) t') as [Heq|Hne].
  - (* the ring is full *)
    assert (Hfull : ring_length q + 1 = cap q).
    { unfold ring_length, t' in *. destruct (Z.leb_spec (cap q) (tail q + 1)),
        (Z.leb_spec (head q) (tail q)); lia. }
    destruct Hroom as [?|Hroom]; [lia|].
    destruct (expand_queue_spec (set_ring q (cap q) (head q) t'
      (<[Z.to_nat (tail q):=m]> (queue q)))) as (q' & -> & Hwf' & Hsame & Hcont);
      simpl; rewrite ?zlen_insert; try done; try lia.
    exists q'. split_and!; try done.
    + rewrite Hcont. simpl. unfold contents. rewrite <-Hw. f_equal. lia.
    + pose proof (ring_length_bounds q' Hwf') as Hlen'.
      apply (f_equal length) in Hcont. unfold contents, window in Hcont.
      rewrite !length_map, !length_seq in Hcont. simpl in Hcont. lia.
  - eexists. split; [done|]. split_and!; try done; [by constructor; simpl; rewrite ?zlen_insert|].
    unfold contents. rewrite <-Hw. f_equal. unfold ring_length in *. simpl.
    unfold t' in *. destruct (Z.leb_spec (cap q) (tail q + 1)), (Z.leb_spec (head q) (tail q));
      simpl in *; repeat case_match; lia.
Qed.

(** A push that returns had room: at the largest [cap] doubling overflows. *)
Lemma ring_push_room q m q' : ring_wf q → ring_push q m = Ret q' → ring_room q.
Proof.
  intros Hwf Hpush. pose proof (ring_length_bounds q Hwf) as Hlen.
  destruct Hwf as [Hc (k & Hk & Hpow) Hl Hh Ht _]. unfold ring_room.
  destruct (decide (ring_length q + 1 < cap q)) as [?|Hfull]; [by left|right].
  unfold ring_push in Hpush. rewrite aset_in in Hpush by lia. simpl in Hpush.
  assert (Heq : head q = (if cap q <=? tail q + 1 then 0 else tail q + 1)).
  { unfold ring_length in *. destruct (Z.leb_spec (cap q) (tail q + 1)),
      (Z.leb_spec (head q) (tail q)); lia. }
  rewrite (proj2 (Z.eqb_eq _ _) Heq) in Hpush. unfold expand_queue in Hpush.
  apply bind_Ret_inv in Hpush as (c & Hcint & _).
  apply cint_Ret in Hcint as [_ Hmax]. simpl in Hmax. unfold INT_MAX, MAX_CAP in *.
  destruct (decide (k ≤ 29)).
  - rewrite Hpow. replace (2 ^ k * 2) with (2 ^ (k + 1)) by (rewrite Z.pow_add_r; lia).
    apply Z.pow_le_mono_r; lia.
  - assert (2 ^ 30 ≤ 2 ^ k) by (apply Z.pow_le_mono_r; lia). lia.
Qed.

Lemma overload_loop length ov thr :
  MQ_OVERLOAD ≤ thr ≤ INT_MAX → length ≤ MAX_CAP →
  ∃ ov' thr', loop 32 (overload_step length) (ov, thr) = Ret (ov', thr') ∧
    length ≤ thr' ≤ INT_MAX ∧ MQ_OVERLOAD ≤ thr' ∧
    ov' = (if thr <? length then length else ov) ∧ (thr' = thr ∨ thr' < 2 * length).
Proof.
  unfold MQ_OVERLOAD, INT_MAX, MAX_CAP. intros Hthr Hlen.
  destruct (loop_total
    (λ s, 1024 ≤ s.2 ≤ 2147483647 ∧
      ((s.1 = ov ∧ s.2 = thr) ∨ (s.1 = length ∧ thr < length ∧ s.2 < 2 * length)))
    (λ s, Z.to_nat (31 - Z.log2 s.2))
    (λ r, length ≤ r.2 ≤ 2147483647 ∧ 1024 ≤ r.2 ∧
      r.1 = (if thr <? length then length else ov) ∧ (r.2 = thr ∨ r.2 < 2 * length))
    (overload_step length)) with (fuel := 32%nat) (s := (ov, thr))
    as ([ov' thr'] & -> & Hr).
  - intros [o t] [Ht Hcase]. simpl in *. destruct (Z.ltb_spec t length).
    + left. rewrite cint_in by (unfold INT_MIN, INT_MAX; lia). simpl.
      eexists. split; [done|]. simpl. split_and!; try lia.
      pose proof (Z.log2_lt_pow2 t 31 ltac:(lia)) as [Hlog _].
      rewrite Z.mul_comm, Z.log2_double by lia. specialize (Hlog ltac:(lia)). lia.
    + right. eexists. split; [done|]. simpl. split_and!; try lia.
      destruct (Z.ltb_spec thr length); lia.
  - simpl. lia.
  - simpl. pose proof (Z.log2_nonneg thr). lia.
  - exists ov', thr'. simpl in Hr. by destruct Hr as (? & ? & ? & ?).
Qed.

Lemma contents_length q : length (contents q) = Z.to_nat (ring_length q).
Proof. unfold contents, window. by rewrite length_map, length_seq. Qed.

Lemma contents_nil q : ring_wf q → contents q = [] ↔ head q = tail q.
Proof.
  intros Hwf. pose proof (ring_length_bounds q Hwf). destruct Hwf as [? ? ? ? ? ?].
  rewrite <-length_zero_iff_nil, contents_length. unfold ring_length in *.
  destruct (Z.leb_spec (head q) (tail q)); lia.
Qed.

Lemma window_cons q n :
  window q (S n) = queue q !!! Z.to_nat (head q mod cap q) ::
    map (λ i, queue q !!! Z.to_nat ((head q + 1 + Z.of_nat i) mod cap q)) (seq 0 n).
Proof.
  unfold window. rewrite <-cons_seq, <-seq_shift. simpl. rewrite map_map, Z.add_0_r.
  f_equal. apply map_ext. intros i. do 3 f_equal. lia.
Qed.

Lemma ring_pop_empty q :
  ring_wf q → contents q = [] →
  ring_pop q = Ret (set_in_global (set_overload q (overload q) MQ_OVERLOAD) 0, None).
Proof.
  intros Hwf Hc. apply contents_nil in Hc; [|done]. unfold ring_pop.
  by rewrite (proj2 (Z.eqb_eq _ _)).
Qed.

Lemma ring_pop_spec q m ms :
  ring_wf q → contents q = m :: ms →
  ∃ q', ring_pop q = Ret (q', Some m) ∧ ring_wf q' ∧ contents q' = ms ∧
    handle q' = handle q ∧ release q' = release q ∧ in_global q' = in_global q ∧
    next q' = next q ∧ zlen ms ≤ overload_threshold q' ∧
    overload q' = (if overload_threshold q <? zlen ms then zlen ms else overload q).
Proof.
  intros Hwf Hcont. pose proof (ring_length_bounds q Hwf) as Hlen.
  assert (Hn := contents_length q). rewrite Hcont in Hn. simpl in Hn.
  assert (Hne : head q ≠ tail q).
  { intros Heq%contents_nil; [|done]. congruence. }
  destruct Hwf as [Hc Hpow Hl Hh Ht Hthr]. unfold contents in Hcont.
  rewrite <-Hn, window_cons in Hcont. injection Hcont as Hm Hms.
  unfold ring_pop. rewrite (proj2 (Z.eqb_neq _ _)) by done.
  destruct (aget_in (queue q) (head q)) as (x & -> & Hx); [lia|]. simpl.
  rewrite Z.mod_small in Hm by lia. rewrite (list_lookup_total_correct _ _ _ Hx) in Hm.
  subst x.
  set (h' := if cap q <=? head q + 1 then 0 else head q + 1).
  set (len := if tail q - h' <? 0 then tail q - h' + cap q else tail q - h').
  assert (Hh' : 0 ≤ h' < cap q)
    by (unfold h'; destruct (Z.leb_spec (cap q) (head q + 1)); lia).
  assert (Hlen' : len = zlen ms).
  { unfold zlen, len, h', ring_length in *.
    destruct (Z.leb_spec (head q) (tail q)), (Z.leb_spec (cap q) (head q + 1)), (Z.ltb_spec (tail q - h') 0);
      unfold h' in *; repeat case_match; lia. }
  destruct (overload_loop len (overload q) (overload_threshold q))
    as (ov' & thr' & -> & ? & ? & Hov & _); [done|unfold zlen in Hlen'; lia|].
  simpl. eexists. split; [done|]. split_and!; try done; try (simpl; lia).
  - constructor; simpl; try done; lia.
  - unfold contents, window. simpl. rewrite <-Hms.
    unfold ring_length. simpl.
    replace (Z.to_nat _) with (length ms).
    + apply map_ext. intros i. do 2 f_equal. unfold h'.
      destruct (Z.leb_spec (cap q) (head q + 1)); [|done].
      replace (head q + 1) with (0 + 1 * cap q) by lia.
      rewrite <-(Z.mod_add (0 + Z.of_nat i) 1) by lia. f_equal. lia.
    + unfold zlen, len in Hlen'. destruct (Z.leb_spec h' (tail q)),
        (Z.ltb_spec (tail q - h') 0); lia.
  - simpl. rewrite Hov, Hlen'. done.
Qed.

Lemma new_queue_wf h : ring_wf (new_queue h) ∧ contents (new_queue h) = [].
Proof.
  split; [|done]. constructor; unfold MAX_CAP, MQ_OVERLOAD, INT_MAX; simpl; try done; try lia.
  exists 6. done.
Qed.
