(* ===== verification/Scheduler.v ===== *)
(** * The scheduling protocol of message queues

    The global queue as a linked list, and the interleavings of the worker
    threads with the threads that send messages, create and delete services. *)
From S2P Require Import Prelude MessageQueue.

Local Open Scope Z_scope.

(** ** The global queue is a list *)

(** The cells of [l], in order, are chained by [next]. *)
Fixpoint linked (h : gmap positive message_queue) (l : list positive) : Prop :=
  match l with
  | [] => True
  | x :: l' => (∃ q, h !! x = Some q ∧ next q = hd_error l') ∧ linked h l'
  end.

Record global_ok (st : mq_state) (l : list positive) : Prop := {
  go_linked : linked (heap st) l;
  go_nodup : NoDup l;
  go_head : ghead (Q st) = hd_error l;
  go_tail : gtail (Q st) = last l;
}.

(** A queue up to its [next] field, which only the global queue touches. *)
Definition strip (q : message_queue) : message_queue := set_next q None.

(** [h'] is [h] up to the [next] fields of the queues in [touched]. *)
Definition relinked (touched : list positive) (h h' : gmap positive message_queue) : Prop :=
  strip <$> h' = strip <$> h ∧ ∀ y, y ∉ touched → h' !! y = h !! y.

Lemma relinked_lookup t h h' x q :
  relinked t h h' → h !! x = Some q → ∃ n, h' !! x = Some (set_next q n).
Proof.
  intros [Hs _] Hx. assert (Hx' : (strip <$> h') !! x = Some (strip q)).
  { by rewrite Hs, lookup_fmap, Hx. }
  rewrite lookup_fmap in Hx'. destruct (h' !! x) as [q'|]; [|done]. simpl in Hx'.
  injection Hx' as Hx'. exists (next q'). f_equal. destruct q, q'; unfold strip, set_next in *.
  simpl in *. by simplify_eq.
Qed.

Lemma relinked_lookup_inv t h h' x q' :
  relinked t h h' → h' !! x = Some q' → ∃ q, h !! x = Some q ∧ q' = set_next q (next q').
Proof.
  intros [Hs _] Hx. assert (Hx' : (strip <$> h) !! x = Some (strip q')).
  { by rewrite <-Hs, lookup_fmap, Hx. }
  rewrite lookup_fmap in Hx'. destruct (h !! x) as [q|]; [|done]. simpl in Hx'.
  injection Hx' as Hx'. exists q. split; [done|]. destruct q, q'; unfold strip, set_next in *.
  simpl in *. by simplify_eq.
Qed.

Lemma linked_lookup h l x : linked h l → x ∈ l → ∃ q, h !! x = Some q.
Proof.
  induction l as [|y l IH]; simpl; intros Hl Hx; [by apply not_elem_of_nil in Hx|].
  destruct Hl as [(q & Hq & _) Hl]. apply elem_of_cons in Hx as [->|Hx]; eauto.
Qed.

(** Cells outside the list do not matter. *)
Lemma linked_ext h h' l :
  (∀ x, x ∈ l → h' !! x = h !! x) → linked h l → linked h' l.
Proof.
  induction l as [|x l IH]; simpl; [done|]. intros Heq [(q & Hq & Hn) Hl].
  split; [|apply IH; set_solver]. exists q. rewrite Heq by set_solver. done.
Qed.

Lemma linked_insert_outside h l x q : x ∉ l → linked h l → linked (<[x := q]> h) l.
Proof.
  intros Hx. apply linked_ext. intros y Hy. rewrite lookup_insert_ne; [done|].
  intros ->. done.
Qed.

(** Changing a queue but not its [next]. *)
Lemma linked_update h l x q q' :
  h !! x = Some q → next q' = next q → linked h l → linked (<[x := q']> h) l.
Proof.
  intros Hx Hn. induction l as [|y l IH]; simpl; [done|].
  intros [(p & Hp & Hnp) Hl]. split; [|by apply IH].
  destruct (decide (x = y)) as [<-|Hne].
  - exists q'. rewrite lookup_insert_eq. split; [done|]. congruence.
  - exists p. by rewrite lookup_insert_ne.
Qed.

Lemma linked_snoc h l x t tq q :
  linked h (l ++ [t]) → NoDup (l ++ [t]) → x ∉ l ++ [t] →
  h !! t = Some tq → h !! x = Some q → next q = None →
  linked (<[t := set_next tq (Some x)]> h) ((l ++ [t]) ++ [x]).
Proof.
  intros Hl Hnd Hx Ht Hq Hn. induction l as [|y l IH]; simpl in *.
  - split.
    + exists (set_next tq (Some x)). rewrite lookup_insert_eq. done.
    + split; [|done]. exists q. rewrite lookup_insert_ne by set_solver. done.
  - destruct Hl as [(p & Hp & Hnp) Hl]. apply NoDup_cons in Hnd as [Hy Hnd].
    split; [|apply IH; set_solver]. exists p. rewrite lookup_insert_ne by set_solver.
    split; [done|]. rewrite Hnp. by destruct l.
Qed.

Lemma fengnet_globalmq_push_spec st l x q :
  global_ok st l → heap st !! x = Some q → next q = None → x ∉ l →
  ∃ st', fengnet_globalmq_push st x = Ret st' ∧ global_ok st' (l ++ [x]) ∧
    relinked l (heap st) (heap st').
Proof.
  intros [Hl Hnd Hh Ht] Hx Hn Hxl. unfold fengnet_globalmq_push, load.
  rewrite Hx. simpl. rewrite bool_decide_eq_true_2 by done. simpl. rewrite Ht.
  assert (Hnd' : NoDup (l ++ [x])).
  { apply NoDup_app. split_and!; [done|set_solver|apply NoDup_singleton]. }
  destruct l as [|t l _] using rev_ind.
  - simpl. eexists. split; [done|]. split.
    + constructor; simpl; try done. split; [|done]. by exists q.
    + done.
  - rewrite last_snoc. destruct (linked_lookup (heap st) (l ++ [t]) t Hl) as [tq Htq];
      [set_solver|]. rewrite Htq. simpl. eexists. split; [done|]. split.
    + constructor; simpl; [by eapply linked_snoc|done|rewrite Hh; by destruct l|].
      by rewrite last_snoc.
    + split; simpl.
      * rewrite fmap_insert. apply insert_id. rewrite lookup_fmap, Htq. by destruct tq.
      * intros y Hy. apply lookup_insert_ne. set_solver.
Qed.

Lemma fengnet_globalmq_pop_nil st : global_ok st [] → fengnet_globalmq_pop st = Ret (None, st).
Proof. intros [_ _ Hh _]. unfold fengnet_globalmq_pop. by rewrite Hh. Qed.

Lemma fengnet_globalmq_pop_cons st x l :
  global_ok st (x :: l) →
  ∃ q st', heap st !! x = Some q ∧ fengnet_globalmq_pop st = Ret (Some x, st') ∧
    global_ok st' l ∧ relinked [x] (heap st) (heap st') ∧
    heap st' !! x = Some (set_next q None).
Proof.
  intros [[(q & Hq & Hn) Hl] Hnd Hh Ht]. exists q. unfold fengnet_globalmq_pop, load.
  rewrite Hh. simpl. rewrite Hq. simpl. apply NoDup_cons in Hnd as [Hx Hnd].
  assert (Hre : relinked [x] (heap st) (<[x:=set_next q None]> (heap st))).
  { split; [|intros y Hy; apply lookup_insert_ne; set_solver].
    rewrite fmap_insert. apply insert_id. rewrite lookup_fmap, Hq. by destruct q. }
  rewrite Hn. destruct l as [|y l]; simpl in *.
  - rewrite bool_decide_eq_true_2 by done. simpl. eexists.
    split_and!; first [done|by constructor|by apply lookup_insert_eq].
  - eexists. split_and!; try first [done|by apply lookup_insert_eq].
    constructor; simpl; try done. change (linked (<[x:=set_next q None]> (heap st)) (y :: l)).
    by apply linked_insert_outside.
Qed.

(** ** The threads that share the queues *)

(** The queues, and those a thread owns without their being in the global
    queue: a worker took them with [fengnet_globalmq_pop], or
    [fengnet_context_new] created them and has not launched them yet. *)
Record sched := MkSched { mq : mq_state; held : gset positive }.

(** What [drop_message] can do while queue [x] is dropped: push (error)
    messages to other queues of services that are alive. *)
Definition push_to_others (x : positive) : mq_state → mq_state → Prop :=
  rtc (λ st st', ∃ y q m, y ≠ x ∧ heap st !! y = Some q ∧ release q = 0 ∧
                          fengnet_mq_push st y m = Ret st').

(** One critical section of one thread. *)
Inductive step : sched → sched → Prop :=
| step_create st hd h l st' :
    (* [fengnet_context_new] *)
    fengnet_mq_create st h = (l, st') →
    step (MkSched st hd) (MkSched st' ({[l]} ∪ hd))
| step_launch st hd x st' :
    (* the end of [fengnet_context_new] *)
    x ∈ hd → fengnet_globalmq_push st x = Ret st' →
    step (MkSched st hd) (MkSched st' (hd ∖ {[x]}))
| step_push st hd x q m st' :
    (* any thread, to a service that is alive: [fengnet_context_push] *)
    heap st !! x = Some q → release q = 0 → fengnet_mq_push st x m = Ret st' →
    step (MkSched st hd) (MkSched st' hd)
| step_take st hd x st' :
    (* a worker takes its next queue *)
    fengnet_globalmq_pop st = Ret (Some x, st') →
    step (MkSched st hd) (MkSched st' ({[x]} ∪ hd))
| step_pop st hd x q m st' :
    (* a worker, which holds a reference to the service, takes a message *)
    x ∈ hd → heap st !! x = Some q → release q = 0 →
    fengnet_mq_pop st x = Ret (Some m, st') →
    step (MkSched st hd) (MkSched st' hd)
| step_idle st hd x q st' :
    (* the queue is empty: the worker leaves it *)
    x ∈ hd → heap st !! x = Some q → release q = 0 →
    fengnet_mq_pop st x = Ret (None, st') →
    step (MkSched st hd) (MkSched st' (hd ∖ {[x]}))
| step_requeue st hd x y st1 st2 :
    (* the end of [fengnet_context_message_dispatch] *)
    x ∈ hd → fengnet_globalmq_pop st = Ret (Some y, st1) →
    fengnet_globalmq_push st1 x = Ret st2 →
    step (MkSched st hd) (MkSched st2 (({[y]} ∪ hd) ∖ {[x]}))
| step_mark_release st hd x st' :
    (* [delete_context] *)
    fengnet_mq_mark_release st x = Ret st' →
    step (MkSched st hd) (MkSched st' hd)
| step_release st hd x fuel drop_func st' :
    (* the service of the queue is gone *)
    x ∈ hd → (∀ m s s', drop_func m s = Ret s' → push_to_others x s s') →
    fengnet_mq_release fuel st x drop_func = Ret st' →
    step (MkSched st hd) (MkSched st' (hd ∖ {[x]})).

Definition init_sched : sched := MkSched fengnet_mq_init ∅.

Definition reachable (s : sched) : Prop := rtc step init_sched s.

(** ** The invariant *)

(** Queue [x] when [l] is the global queue and [hd] the queues threads own.
    While its service is alive, [in_global] says exactly whether some thread
    will look at the queue, and a queue nobody will look at is empty. *)
Definition queue_ok (l : list positive) (hd : gset positive) (x : positive)
    (q : message_queue) : Prop :=
  ring_wf q ∧ (x ∉ l → next q = None) ∧
  if release q =? 0 then
    (in_global q = MQ_IN_GLOBAL ∧ (x ∈ l ∨ x ∈ hd)) ∨
    (in_global q = 0 ∧ contents q = [] ∧ (x ∉ l) ∧ (x ∉ hd))
  else x ∈ l ∨ x ∈ hd.

Record sched_inv (s : sched) (l : list positive) : Prop := {
  si_global : global_ok (mq s) l;
  si_disj : ∀ x, x ∈ l → x ∉ held s;
  si_held : ∀ x, x ∈ held s → is_Some (heap (mq s) !! x);
  si_queues : ∀ x q, heap (mq s) !! x = Some q → queue_ok l (held s) x q;
}.

Lemma ring_wf_set_next q n : ring_wf q → ring_wf (set_next q n).
Proof. intros []. by constructor. Qed.

Lemma queue_ok_set_next l hd x q n :
  queue_ok l hd x q → (x ∉ l → n = None) → queue_ok l hd x (set_next q n).
Proof. intros (? & ? & ?) ?. split_and!; [by apply ring_wf_set_next|done|done]. Qed.

(** Membership in the global queue or among the owned queues is all that
    [queue_ok] asks of [l] and [hd]. *)
Lemma queue_ok_weaken l l' hd hd' x q :
  queue_ok l hd x q → (x ∉ l' → x ∉ l) →
  ((x ∈ l ∨ x ∈ hd) ↔ (x ∈ l' ∨ x ∈ hd')) → queue_ok l' hd' x q.
Proof.
  intros (Hwf & Hn & Hq) Hl Hiff. split_and!; [done|auto|].
  destruct (release q =? 0); [|tauto]. destruct Hq as [[? Hq]|(? & ? & Hx)]; [left; tauto|].
  right. split_and!; try done; tauto.
Qed.

(** Appending an owned queue to the global queue. *)
Lemma push_back_inv st hd l x q :
  global_ok st l → (∀ y, y ∈ l → y ∉ hd) → (∀ y, y ∈ hd → is_Some (heap st !! y)) →
  (∀ y p, y ≠ x → heap st !! y = Some p → queue_ok l hd y p) →
  heap st !! x = Some q → ring_wf q → next q = None →
  (release q = 0 → in_global q = MQ_IN_GLOBAL) → x ∉ l →
  ∃ st', fengnet_globalmq_push st x = Ret st' ∧
    sched_inv (MkSched st' (hd ∖ {[x]})) (l ++ [x]) ∧ relinked l (heap st) (heap st').
Proof.
  intros Hgo Hdisj Hheld Hqs Hx Hwf Hn Hig Hxl.
  destruct (fengnet_globalmq_push_spec st l x q) as (st' & Hpush & Hgo' & Hre); try done.
  exists st'. split_and!; [done| |done]. constructor; simpl; [done|set_solver| |].
  - intros y Hy. destruct (Hheld y) as [p Hp]; [set_solver|].
    destruct (relinked_lookup _ _ _ _ _ Hre Hp). eauto.
  - intros y p' Hp'. destruct (relinked_lookup_inv _ _ _ _ _ Hre Hp') as (p & Hp & ->).
    assert (Hnext : y ∉ l → next p' = next p).
    { intros Hy. rewrite (proj2 Hre y Hy), Hp in Hp'. by injection Hp' as <-. }
    destruct (decide (y = x)) as [->|Hne].
    + rewrite Hx in Hp. injection Hp as <-.
      split_and!; [by apply ring_wf_set_next|set_solver|]. simpl.
      destruct (Z.eqb_spec (release q) 0); [left; split; [auto|]|]; set_solver.
    + pose proof (Hqs y p Hne Hp) as Hok. apply queue_ok_set_next.
      * eapply queue_ok_weaken; [done|set_solver|set_solver].
      * intros Hy. rewrite Hnext by set_solver. apply Hok. set_solver.
Qed.

(** A state that differs from [st] in queue [x] only, [next] kept. *)
Lemma store_inv st hd l x q q' :
  sched_inv (MkSched st hd) l → heap st !! x = Some q → next q' = next q →
  queue_ok l hd x q' → sched_inv (MkSched (store st x q') hd) l.
Proof.
  intros [[Hl Hnd Hh Ht] Hdisj Hheld Hqs] Hx Hn Hok. simpl in *.
  constructor; simpl; [constructor; simpl; try done; by eapply linked_update|done| |].
  - intros y Hy. destruct (decide (x = y)) as [->|?];
      [rewrite lookup_insert_eq|rewrite lookup_insert_ne by done]; eauto.
  - intros y p. destruct (decide (x = y)) as [->|?].
    + rewrite lookup_insert_eq. by intros [= <-].
    + rewrite lookup_insert_ne by done. apply Hqs.
Qed.

Lemma take_inv st hd l x st' :
  sched_inv (MkSched st hd) l → fengnet_globalmq_pop st = Ret (Some x, st') →
  ∃ l', l = x :: l' ∧ sched_inv (MkSched st' ({[x]} ∪ hd)) l'.
Proof.
  intros [Hgo Hdisj Hheld Hqs] Hpop. simpl in *. destruct l as [|y l].
  { rewrite fengnet_globalmq_pop_nil in Hpop by done. congruence. }
  destruct (fengnet_globalmq_pop_cons st y l Hgo) as (q & st2 & Hy & Hpop' & Hgo' & Hre & Hy').
  rewrite Hpop in Hpop'. injection Hpop' as <- <-. exists l. split; [done|].
  pose proof (go_nodup _ _ Hgo) as [Hyl Hnd]%NoDup_cons. constructor; simpl; [done| | |].
  - intros z Hz. assert (z ≠ x) by (by intros ->). set_solver.
  - intros z [->%elem_of_singleton|Hz]%elem_of_union; [eauto|].
    destruct (Hheld z Hz) as [p Hp]. destruct (relinked_lookup _ _ _ _ _ Hre Hp). eauto.
  - intros z p' Hp'. destruct (relinked_lookup_inv _ _ _ _ _ Hre Hp') as (p & Hp & Heq).
    pose proof (Hqs z p Hp) as Hok. destruct (decide (z = x)) as [->|Hne].
    + rewrite Hp' in Hy'. injection Hy' as ->. rewrite Hp in Hy. injection Hy as ->.
      destruct Hok as (Hwf & _ & Hq). split_and!; [by apply ring_wf_set_next|done|].
      simpl. destruct (release q =? 0); set_solver.
    + rewrite (proj2 Hre) in Hp' by set_solver. rewrite Hp in Hp'. injection Hp' as ->.
      destruct Hok as (Hwf & Hn & Hq). split_and!; [done|set_solver|].
      destruct (release p' =? 0); set_solver.
Qed.

Lemma inv_lookup s l x : sched_inv s l → x ∈ l ∨ x ∈ held s → is_Some (heap (mq s) !! x).
Proof.
  intros [[Hl _ _ _] _ Hheld _] [Hx|Hx]; [|eauto].
  destruct (linked_lookup _ _ _ Hl Hx). eauto.
Qed.

(** ** Every operation keeps the invariant *)

Lemma mq_push_inv st hd l x q m st' :
  sched_inv (MkSched st hd) l → heap st !! x = Some q → release q = 0 →
  fengnet_mq_push st x m = Ret st' →
  ∃ l', sched_inv (MkSched st' hd) l' ∧
    ∀ y, y ≠ x → y ∉ l → heap st' !! y = heap st !! y.
Proof.
  intros Hinv Hx Hr Hpush. pose proof (si_queues _ _ Hinv x q Hx) as (Hwf & Hn & Hq).
  simpl in *. rewrite Hr in Hq. simpl in Hq.
  unfold fengnet_mq_push, load in Hpush. rewrite Hx in Hpush. simpl in Hpush.
  apply bind_Ret_inv in Hpush as (q' & Hring & Hpush).
  destruct (ring_push_spec q m Hwf (ring_push_room _ _ _ Hwf Hring))
    as (q2 & Hring' & Hwf' & (_ & Hr' & Hig' & Hn' & _) & _).
  rewrite Hring in Hring'. injection Hring' as <-. rewrite Hig' in Hpush.
  destruct (Z.eqb_spec (in_global q) 0) as [Hz|Hnz].
  - destruct Hq as [[Hig _]|(_ & _ & Hxl & Hxh)]; [unfold MQ_IN_GLOBAL in *; lia|].
    set (q2 := set_in_global q' MQ_IN_GLOBAL) in *.
    assert (Hwf2 : ring_wf q2) by (destruct Hwf'; by constructor).
    destruct Hinv as [Hgo Hdisj Hheld Hqs]. simpl in *.
    destruct (push_back_inv (store st x q2) hd l x q2) as (st2 & Hpush2 & Hinv2 & Hre).
    + destruct Hgo as [Hl ? ? ?]. constructor; simpl; try done.
      by apply linked_insert_outside.
    + done.
    + intros y Hy. simpl. rewrite lookup_insert_ne by (by intros ->). auto.
    + intros y p Hne. simpl. rewrite lookup_insert_ne by done. apply Hqs.
    + apply lookup_insert_eq.
    + done.
    + simpl. rewrite Hn'. auto.
    + done.
    + done.
    + rewrite Hpush in Hpush2. injection Hpush2 as <-. exists (l ++ [x]). split.
      * replace hd with (hd ∖ {[x]}) at 1 by set_solver. done.
      * intros y Hne Hy. rewrite (proj2 Hre y Hy). simpl. by apply lookup_insert_ne.
  - injection Hpush as <-. exists l. split.
    + eapply store_inv; [done|done|by rewrite Hn'|]. split_and!; [done|rewrite Hn'; done|].
      rewrite Hr', Hr. simpl. rewrite Hig'. destruct Hq as [?|(? & _)]; [by left|done].
    + intros y Hne _. simpl. by apply lookup_insert_ne.
Qed.

Lemma relinked_contents t h h' : relinked t h h' → contents <$> h' = contents <$> h.
Proof.
  intros [Hs _]. apply (f_equal (fmap contents)) in Hs. rewrite <-!map_fmap_compose in Hs.
  erewrite (map_fmap_ext contents (contents ∘ strip)), Hs by done.
  by apply map_fmap_ext.
Qed.

(** The whole effect of a push to a live queue. *)
Lemma mq_push_spec st hd l x q m :
  sched_inv (MkSched st hd) l → heap st !! x = Some q → release q = 0 → ring_room q →
  ∃ st', fengnet_mq_push st x m = Ret st' ∧
    contents <$> heap st' = <[x := contents q ++ [m]]> (contents <$> heap st) ∧
    global_ok st' (if in_global q =? 0 then l ++ [x] else l) ∧
    ∀ y p, heap st !! y = Some p → ∃ p', heap st' !! y = Some p' ∧
      release p' = release p ∧ handle p' = handle p.
Proof.
  intros Hinv Hx Hr Hroom. pose proof (si_queues _ _ Hinv x q Hx) as (Hwf & Hn & Hok).
  pose proof (si_global _ _ Hinv) as Hgo. simpl in *.
  unfold fengnet_mq_push, load. rewrite Hx. simpl.
  destruct (ring_push_spec q m Hwf Hroom) as (q' & -> & Hwf' & (Hh' & Hr' & Hig' & Hn' & _) & Hcont & _).
  simpl. rewrite Hig'.
  assert (Hsame : ∀ (q2 : message_queue) y p, release q2 = release q → handle q2 = handle q →
    heap st !! y = Some p → ∃ p', heap (store st x q2) !! y = Some p' ∧
      release p' = release p ∧ handle p' = handle p).
  { intros q2 y p Hr2 Hh2 Hy. simpl. destruct (decide (y = x)) as [->|Hne].
    - exists q2. rewrite lookup_insert_eq. by simplify_eq.
    - exists p. by rewrite lookup_insert_ne. }
  destruct (Z.eqb_spec (in_global q) 0) as [Hz|Hnz].
  - rewrite Hr in Hok. destruct Hok as [[? _]|(_ & _ & Hxl & _)];
      [unfold MQ_IN_GLOBAL in *; lia|].
    set (q2 := set_in_global q' MQ_IN_GLOBAL) in *.
    destruct (fengnet_globalmq_push_spec (store st x q2) l x q2) as (st2 & Hpush2 & Hgo2 & Hre);
      [|apply lookup_insert_eq|simpl; rewrite Hn'; auto|done|].
    { destruct Hgo. constructor; simpl; try done. by apply linked_insert_outside. }
    exists st2. split_and!; [done| |done|].
    + rewrite (relinked_contents _ _ _ Hre). simpl. rewrite fmap_insert. by rewrite <-Hcont.
    + intros y p Hy. destruct (Hsame q2 y p Hr' Hh' Hy) as (p2 & Hp2 & ? & ?).
      destruct (relinked_lookup _ _ _ _ _ Hre Hp2) as (nx & ?). eauto.
  - eexists. split_and!; [done| | |intros y p; by apply Hsame].
    + simpl. by rewrite fmap_insert, Hcont.
    + destruct Hgo. constructor; simpl; try done. by eapply linked_update.
Qed.

Lemma push_to_others_inv x st st' hd l q :
  push_to_others x st st' → x ∈ hd → sched_inv (MkSched st hd) l → heap st !! x = Some q →
  ∃ l', sched_inv (MkSched st' hd) l' ∧ heap st' !! x = Some q.
Proof.
  intros Hp Hx. revert l. induction Hp as [st|st st1 st2 (y & p & m & Hne & Hy & Hr & Hpush) _ IH];
    intros l Hinv Hq; [eauto|].
  destruct (mq_push_inv _ _ _ _ _ _ _ Hinv Hy Hr Hpush) as (l1 & Hinv1 & Hsame).
  apply (IH l1); [done|]. rewrite Hsame; [done|by intros ->|].
  intros Hxl. by apply (si_disj _ _ Hinv x).
Qed.

(** A pop by the thread that owns the queue: of a message, or of none when
    the service is gone. *)
Lemma mq_pop_inv st hd l x q o st' :
  sched_inv (MkSched st hd) l → x ∈ hd → heap st !! x = Some q →
  (o = None → release q ≠ 0) → fengnet_mq_pop st x = Ret (o, st') →
  sched_inv (MkSched st' hd) l ∧ ∃ q', heap st' !! x = Some q' ∧ release q' = release q.
Proof.
  intros Hinv Hx Hq Ho Hpop. pose proof (si_queues _ _ Hinv x q Hq) as (Hwf & Hn & Hok).
  assert (Hxl : x ∉ l) by (intros Hxl; by apply (si_disj _ _ Hinv x)). simpl in *.
  unfold fengnet_mq_pop, load in Hpop. rewrite Hq in Hpop. simpl in Hpop.
  destruct (contents q) as [|m ms] eqn:Hc.
  - rewrite ring_pop_empty in Hpop by done. simpl in Hpop. injection Hpop as <- <-.
    split; [|by eexists; split; [apply lookup_insert_eq|]].
    eapply store_inv; [done|done|done|]. split_and!; [|done|].
    + destruct Hwf. by constructor.
    + simpl. destruct (Z.eqb_spec (release q) 0); [by apply Ho in e|auto].
  - destruct (ring_pop_spec q m ms Hwf Hc) as (q' & Hring & Hwf' & _ & _ & Hr' & Hig' & Hn' & _).
    rewrite Hring in Hpop. simpl in Hpop. injection Hpop as <- <-.
    split; [|by eexists; split; [apply lookup_insert_eq|]].
    eapply store_inv; [done|done|done|]. split_and!; [done|by rewrite Hn'|].
    rewrite Hr', Hig'. destruct (release q =? 0); [|auto].
    destruct Hok as [?|(_ & _ & _ & ?)]; [by left|done].
Qed.

Lemma mq_drop_inv fuel st hd l x q drop_func st' :
  sched_inv (MkSched st hd) l → x ∈ hd → heap st !! x = Some q → release q ≠ 0 →
  (∀ m s s', drop_func m s = Ret s' → push_to_others x s s') →
  _drop_queue fuel st x drop_func = Ret st' →
  ∃ l', sched_inv (MkSched st' (hd ∖ {[x]})) l'.
Proof.
  intros Hinv Hx Hq Hr Hdrop Hdq. unfold _drop_queue in Hdq.
  apply bind_Ret_inv in Hdq as (st1 & Hloop & Hrel).
  set (I := λ st, ∃ l q, sched_inv (MkSched st hd) l ∧ heap st !! x = Some q ∧ release q ≠ 0).
  assert (I st1) as (l1 & q1 & Hinv1 & Hq1 & Hr1).
  { refine (loop_partial I I (drop_step drop_func x) _ _ fuel st st1 _ Hloop);
      [| |by exists l, q].
    - intros s s' (l0 & q0 & Hinv0 & Hq0 & Hr0) Hstep. unfold drop_step in Hstep.
      apply bind_Ret_inv in Hstep as ([o s1] & Hpop & Hstep).
      destruct (mq_pop_inv _ _ _ _ _ _ _ Hinv0 Hx Hq0 (λ _, Hr0) Hpop) as (Hinv1 & q1 & Hq1 & Hr1).
      destruct o as [m|]; [|done]. apply bind_Ret_inv in Hstep as (s2 & Hd & [= <-]).
      destruct (push_to_others_inv _ _ _ _ _ _ (Hdrop _ _ _ Hd) Hx Hinv1 Hq1) as (l2 & ? & ?).
      exists l2, q1. by rewrite Hr1.
    - intros s s' (l0 & q0 & Hinv0 & Hq0 & Hr0) Hstep. unfold drop_step in Hstep.
      apply bind_Ret_inv in Hstep as ([o s1] & Hpop & Hstep).
      destruct (mq_pop_inv _ _ _ _ _ _ _ Hinv0 Hx Hq0 (λ _, Hr0) Hpop) as (Hinv1 & q1 & Hq1 & Hr1).
      destruct o as [m|]; [by apply bind_Ret_inv in Hstep as (s2 & Hd & [=])|].
      injection Hstep as <-. exists l0, q1. by rewrite Hr1. }
  unfold _release, load in Hrel. rewrite Hq1 in Hrel. simpl in Hrel.
  apply bind_Ret_inv in Hrel as (u & _ & [= <-]).
  assert (Hxl : x ∉ l1) by (intros Hxl; by apply (si_disj _ _ Hinv1 x)).
  destruct Hinv1 as [[Hl Hnd Hh Ht] Hdisj Hheld Hqs]. simpl in *. exists l1.
  constructor; simpl; [constructor; simpl; try done|set_solver| |].
  - eapply linked_ext; [|done]. intros y Hy. apply lookup_delete_ne. by intros ->.
  - intros y Hy. rewrite lookup_delete_ne by set_solver. apply Hheld. set_solver.
  - intros y p. rewrite lookup_delete. destruct (decide (x = y)) as [|Hne]; [done|].
    intros Hp. eapply queue_ok_weaken; [by apply Hqs|done|set_solver].
Qed.

(** [delete_context] marks a live queue: nothing else changes but the chain of
    the global queue, in which the queue is now unless a thread holds it. *)
Lemma mark_release_spec st hd l x q :
  sched_inv (MkSched st hd) l → heap st !! x = Some q → release q = 0 →
  ∃ st' l', fengnet_mq_mark_release st x = Ret st' ∧ sched_inv (MkSched st' hd) l' ∧
    l `prefix_of` l' ∧ relinked l (<[x := set_release q 1]> (heap st)) (heap st').
Proof.
  intros Hinv Hx Hr. unfold fengnet_mq_mark_release, load. rewrite Hx. simpl. rewrite Hr. simpl.
  pose proof (si_queues _ _ Hinv x q Hx) as (Hwf & Hn & Hok). simpl in Hok. rewrite Hr in Hok.
  assert (Hwf2 : ring_wf (set_release q 1)) by (destruct Hwf; by constructor).
  simpl in Hok. destruct (Z.eqb_spec (in_global q) MQ_IN_GLOBAL) as [Hig|Hig]; simpl.
  - eexists _, l. split_and!; [done| |done|done]. eapply store_inv; [done|done|done|].
    split_and!; [done|done|]. simpl. destruct Hok as [[_ ?]|(? & _)]; [done|].
    unfold MQ_IN_GLOBAL in *. lia.
  - destruct Hok as [[? _]|(_ & _ & Hxl & Hxh)]; [done|].
    destruct Hinv as [Hgo Hdisj Hheld Hqs]. simpl in *.
    destruct (push_back_inv (store st x (set_release q 1)) hd l x (set_release q 1))
      as (st2 & Hpush2 & Hinv2 & Hre).
    + destruct Hgo as [Hl ? ? ?]. constructor; simpl; try done.
      by apply linked_insert_outside.
    + done.
    + intros y Hy. simpl. rewrite lookup_insert_ne by (by intros ->). auto.
    + intros y p Hne. simpl. rewrite lookup_insert_ne by done. apply Hqs.
    + apply lookup_insert_eq.
    + done.
    + auto.
    + done.
    + done.
    + exists st2, (l ++ [x]). replace (hd ∖ {[x]}) with hd in Hinv2 by set_solver.
      split_and!; [done|done|by apply prefix_app_r|done].
Qed.

Lemma mark_release_inv st hd l x st' :
  sched_inv (MkSched st hd) l → fengnet_mq_mark_release st x = Ret st' →
  ∃ l', sched_inv (MkSched st' hd) l'.
Proof.
  intros Hinv Hmark. assert (Hmark' := Hmark). unfold fengnet_mq_mark_release in Hmark'.
  apply bind_Ret_inv in Hmark' as (q & Hq & Hmark'). unfold load in Hq.
  destruct (heap st !! x) as [q'|] eqn:Hx; [|done]. injection Hq as ->.
  apply bind_Ret_inv in Hmark' as (u & Hr%assert_true_Ret%Z.eqb_eq & _).
  destruct (mark_release_spec _ _ _ _ _ Hinv Hx Hr) as (st2 & l' & E & ? & _).
  rewrite Hmark in E. injection E as <-. eauto.
Qed.

(** An owned queue that goes back to the global queue. *)
Lemma launch_inv st hd l x st' :
  sched_inv (MkSched st hd) l → x ∈ hd → fengnet_globalmq_push st x = Ret st' →
  ∃ l', sched_inv (MkSched st' (hd ∖ {[x]})) l'.
Proof.
  intros Hinv Hx Hpush. assert (Hxl : x ∉ l) by (intros ?; by apply (si_disj _ _ Hinv x)).
  destruct (si_held _ _ Hinv x Hx) as [q Hq].
  pose proof (si_queues _ _ Hinv x q Hq) as (Hwf & Hn & Hok). simpl in *.
  destruct Hinv as [Hgo Hdisj Hheld Hqs].
  destruct (push_back_inv st hd l x q) as (st2 & Hpush2 & Hinv2 & _); try done.
  - intros y p _. apply Hqs.
  - auto.
  - intros Hr. rewrite Hr in Hok. simpl in Hok. destruct Hok as [[? _]|(_ & _ & _ & ?)]; done.
  - rewrite Hpush in Hpush2. injection Hpush2 as <-. eauto.
Qed.

Lemma create_inv st hd l h x st' :
  sched_inv (MkSched st hd) l → fengnet_mq_create st h = (x, st') →
  sched_inv (MkSched st' ({[x]} ∪ hd)) l.
Proof.
  intros Hinv [= <- <-]. set (x := fresh _).
  assert (Hx : heap st !! x = None) by (apply not_elem_of_dom, is_fresh).
  assert ((x ∉ l) ∧ (x ∉ hd)) as [Hxl Hxh].
  { split; intros Hin; destruct (inv_lookup _ _ x Hinv) as [? ?]; simpl in *; auto; congruence. }
  destruct Hinv as [[Hl Hnd Hh Ht] Hdisj Hheld Hqs]. simpl in *.
  constructor; simpl; [constructor; simpl; try done|set_solver| |].
  - by apply linked_insert_outside.
  - intros y Hy. destruct (decide (x = y)) as [<-|Hne]; [by rewrite lookup_insert_eq|].
    rewrite lookup_insert_ne by done. apply Hheld. set_solver.
  - intros y p. destruct (decide (x = y)) as [<-|Hne].
    + rewrite lookup_insert_eq. intros [= <-]. destruct (new_queue_wf h) as [? ?].
      split_and!; [done|done|]. simpl. left. set_solver.
    + rewrite lookup_insert_ne by done. intros Hp.
      eapply queue_ok_weaken; [by apply Hqs|done|set_solver].
Qed.

(** The queues of [st'] are those of [st], up to [next] and [in_global]. *)
Definition kept (st st' : mq_state) : Prop :=
  ∀ y p, heap st !! y = Some p → ∃ p', heap st' !! y = Some p' ∧ contents p' = contents p ∧
    release p' = release p ∧ handle p' = handle p ∧ overload p' = overload p.

Lemma kept_refl st : kept st st.
Proof. intros y p Hp. by exists p. Qed.

Lemma kept_trans st1 st2 st3 : kept st1 st2 → kept st2 st3 → kept st1 st3.
Proof.
  intros H1 H2 y p Hp. destruct (H1 y p Hp) as (p2 & Hp2 & ? & ? & ? & ?).
  destruct (H2 y p2 Hp2) as (p3 & Hp3 & ? & ? & ? & ?). exists p3. split_and!; congruence.
Qed.

Lemma relinked_kept t st st' : relinked t (heap st) (heap st') → kept st st'.
Proof.
  intros Hre y p Hp. destruct (relinked_lookup _ _ _ _ _ Hre Hp) as (nx & Hp'). by eexists.
Qed.

(** A worker leaves a live queue that has no message. *)
Lemma idle_inv st hd l x q :
  sched_inv (MkSched st hd) l → x ∈ hd → heap st !! x = Some q → release q = 0 →
  contents q = [] →
  ∃ st', fengnet_mq_pop st x = Ret (None, st') ∧ kept st st' ∧
    sched_inv (MkSched st' (hd ∖ {[x]})) l ∧
    ∃ q', heap st' !! x = Some q' ∧ in_global q' = 0.
Proof.
  intros Hinv Hx Hq Hr Hc.
  assert (Hxl : x ∉ l) by (intros ?; by apply (si_disj _ _ Hinv x)).
  pose proof (si_queues _ _ Hinv x q Hq) as (Hwf & Hn & _). simpl in Hq.
  unfold fengnet_mq_pop, load. rewrite Hq. simpl. rewrite ring_pop_empty by done. simpl.
  set (q' := set_in_global _ _). exists (store st x q'). split_and!; [done| | |].
  - intros y p Hp. simpl. destruct (decide (x = y)) as [<-|Hne].
    + simplify_eq. exists q'. by rewrite lookup_insert_eq.
    + exists p. by rewrite lookup_insert_ne.
  - destruct Hinv as [[Hl Hnd Hh Ht] Hdisj Hheld Hqs]. simpl in *.
    constructor; simpl; [constructor; simpl; try done|set_solver| |].
    + by apply linked_insert_outside.
    + intros y Hy. rewrite lookup_insert_ne by set_solver. apply Hheld. set_solver.
    + intros y p. destruct (decide (x = y)) as [<-|Hne].
      * rewrite lookup_insert_eq. intros [= <-]. split_and!; [destruct Hwf; by constructor|done|].
        simpl. rewrite Hr. simpl. right. set_solver.
      * rewrite lookup_insert_ne by done. intros Hp.
        eapply queue_ok_weaken; [by apply Hqs|done|set_solver].
  - exists q'. split; [apply lookup_insert_eq|done].
Qed.

(** A worker takes a message of a queue that is not overloaded. *)
Lemma pop_message st hd l x q m ms :
  sched_inv (MkSched st hd) l → x ∈ hd → heap st !! x = Some q → release q = 0 →
  contents q = m :: ms → overload q = 0 → zlen ms ≤ MQ_OVERLOAD →
  ∃ q', fengnet_mq_pop st x = Ret (Some m, store st x q') ∧ contents q' = ms ∧
    overload q' = 0 ∧ release q' = 0 ∧ handle q' = handle q ∧
    sched_inv (MkSched (store st x q') hd) l.
Proof.
  intros Hinv Hx Hq Hr Hc Hov Hlen. pose proof (si_queues _ _ Hinv x q Hq) as (Hwf & _).
  destruct (ring_pop_spec q m ms Hwf Hc) as (q' & Hring & Hwf' & Hc' & Hh' & Hr' & _ & _ & _ & Hov').
  pose proof (wf_thr _ Hwf). exists q'. rewrite Hov, (proj2 (Z.ltb_ge _ _)) in Hov' by lia.
  assert (Hpop : fengnet_mq_pop st x = Ret (Some m, store st x q')).
  { unfold fengnet_mq_pop, load. simpl in Hq. rewrite Hq. simpl. by rewrite Hring. }
  destruct (mq_pop_inv st hd l x q (Some m) _ Hinv Hx Hq ltac:(done) Hpop) as [Hinv' _].
  split_and!; try done. congruence.
Qed.

Lemma take_spec st hd l x :
  sched_inv (MkSched st hd) (x :: l) →
  ∃ st', fengnet_globalmq_pop st = Ret (Some x, st') ∧ kept st st' ∧
    sched_inv (MkSched st' ({[x]} ∪ hd)) l.
Proof.
  intros Hinv. destruct (fengnet_globalmq_pop_cons st x l (si_global _ _ Hinv))
    as (q & st' & Hq & Hpop & _ & Hre & _). exists st'. split_and!; [done| |].
  - by eapply relinked_kept.
  - by destruct (take_inv _ _ _ _ _ Hinv Hpop) as (l' & [= <-] & ?).
Qed.

(** The end of a worker's turn: its queue goes to the end of the global queue,
    whose first queue is the next. *)
Lemma requeue_spec st hd l x :
  sched_inv (MkSched st hd) l → x ∈ hd →
  ∃ y l' st1 st', l ++ [x] = y :: l' ∧
    (if l is [] then fengnet_globalmq_pop st = Ret (None, st1) ∧ st' = st1
     else fengnet_globalmq_pop st = Ret (Some y, st1) ∧ fengnet_globalmq_push st1 x = Ret st') ∧
    kept st st' ∧ sched_inv (MkSched st' ({[y]} ∪ (hd ∖ {[x]}))) l'.
Proof.
  intros Hinv Hx. destruct l as [|y l].
  - exists x, [], st, st. split_and!; try done.
    + apply fengnet_globalmq_pop_nil. apply (si_global _ _ Hinv).
    + apply kept_refl.
    + by rewrite <-union_difference_singleton_L.
  - destruct (take_spec st hd l y Hinv) as (st1 & Hpop & Hk1 & Hinv1).
    assert (Hyh : y ∉ hd) by (apply (si_disj _ _ Hinv); set_solver).
    assert (Hxl : x ∉ l) by (intros Hxl; apply (si_disj _ _ Hinv x); set_solver).
    assert (Hx1 : x ∈ {[y]} ∪ hd) by set_solver.
    destruct (si_held _ _ Hinv1 x Hx1) as [q Hq].
    pose proof (si_queues _ _ Hinv1 x q Hq) as (Hwf & Hn & Hok). simpl in *.
    destruct (push_back_inv st1 ({[y]} ∪ hd) l x q) as (st2 & Hpush & Hinv2 & Hre); try done.
    + apply (si_global _ _ Hinv1).
    + apply (si_disj _ _ Hinv1).
    + apply (si_held _ _ Hinv1).
    + intros z p _. apply (si_queues _ _ Hinv1).
    + auto.
    + intros Hr. rewrite Hr in Hok. simpl in Hok. destruct Hok as [[? _]|(_ & _ & _ & ?)]; [done|].
      set_solver.
    + exists y, (l ++ [x]), st1, st2. split_and!; try done.
      * eapply kept_trans; [done|by eapply relinked_kept].
      * replace ({[y]} ∪ hd ∖ {[x]}) with (({[y]} ∪ hd) ∖ {[x]}); [done|].
        assert (x ≠ y) by (by intros ->). set_solver.
Qed.

Lemma step_inv s s' l : sched_inv s l → step s s' → ∃ l', sched_inv s' l'.
Proof.
  intros Hinv Hstep. destruct Hstep.
  - exists l. by eapply create_inv.
  - by eapply launch_inv.
  - edestruct mq_push_inv as (l' & ? & _); eauto.
  - edestruct take_inv as (l' & _ & ?); eauto.
  - edestruct mq_pop_inv as [? _]; eauto. done.
  - destruct (contents q) as [|m ms] eqn:Hc.
    + destruct (idle_inv _ _ _ _ _ Hinv H H0 H1 Hc) as (st2 & Hpop & _ & Hinv' & _).
      rewrite H2 in Hpop. injection Hpop as <-. eauto.
    + destruct (ring_pop_spec q m ms (proj1 (si_queues _ _ Hinv x q H0)) Hc) as (q' & Hring & _).
      unfold fengnet_mq_pop, load in H2. rewrite H0 in H2. simpl in H2. by rewrite Hring in H2.
  - destruct (take_inv _ _ _ _ _ Hinv H0) as (l' & _ & Hinv').
    eapply launch_inv; [done|set_solver|done].
  - by eapply mark_release_inv.
  - unfold fengnet_mq_release in H1. apply bind_Ret_inv in H1 as (q & Hq & H1).
    unfold load in Hq. destruct (heap st !! x) as [q'|] eqn:Hx; [|done]. injection Hq as ->.
    destruct (Z.eqb_spec (release q) 0); simpl in H1.
    + by eapply launch_inv.
    + by eapply mq_drop_inv.
Qed.

Lemma reachable_inv s : reachable s → ∃ l, sched_inv s l.
Proof.
  intros Hr. revert s Hr. apply rtc_ind_r; [|intros s s' _ Hstep [l Hinv]].
  - exists []. constructor; simpl; try done. constructor; simpl; try done. constructor.
  - by eapply step_inv.
Qed.

(** ** Properties of every reachable state *)

(** C1: No message is forgotten. In every state the threads can reach, a
    queue that holds messages and whose service is alive is in the global
    queue, where a worker will take it, or is owned by a thread. *)
Theorem no_stranded_messages s x q :
  reachable s → heap (mq s) !! x = Some q → release q = 0 → contents q ≠ [] →
  ∃ l, global_ok (mq s) l ∧ (x ∈ l ∨ x ∈ held s).
Proof.
  intros (l & Hinv)%reachable_inv Hx Hr Hc. exists l. split; [apply Hinv|].
  destruct (si_queues _ _ Hinv x q Hx) as (_ & _ & Hq). rewrite Hr in Hq.
  destruct Hq as [[_ ?]|(_ & ? & _)]; done.
Qed.

(** C20: Two workers never dispatch the same queue: the queue
    [fengnet_globalmq_pop] hands out is owned by no thread, and is not in the
    global queue any more. *)
Theorem dispatch_exclusive s x st' :
  reachable s → fengnet_globalmq_pop (mq s) = Ret (Some x, st') →
  (x ∉ held s) ∧ ∃ l, global_ok (mq s) (x :: l) ∧ global_ok st' l ∧ (x ∉ l).
Proof.
  intros (l & Hinv)%reachable_inv Hpop. destruct s as [st hd].
  destruct (take_inv _ _ _ _ _ Hinv Hpop) as (l' & -> & Hinv').
  split; [apply (si_disj _ _ Hinv); set_solver|]. exists l'.
  split_and!; [apply Hinv|apply Hinv'|].
  by pose proof (go_nodup _ _ (si_global _ _ Hinv)) as [? _]%NoDup_cons.
Qed.

(** No operation of the queues fails in a reachable state: no [assert] of
    [fengnet_mq.cpp] fires and no queue is reached through a dangling
    pointer, for a push to a live service (as long as [cap] can be doubled),
    a pop, a take, a launch or push back of an owned queue, and a release mark. *)
Theorem queue_operations_return s x q :
  reachable s → heap (mq s) !! x = Some q →
  (∃ r, fengnet_globalmq_pop (mq s) = Ret r) ∧
  (∃ r, fengnet_mq_pop (mq s) x = Ret r) ∧
  (x ∈ held s → ∃ st', fengnet_globalmq_push (mq s) x = Ret st') ∧
  (release q = 0 → ∃ st', fengnet_mq_mark_release (mq s) x = Ret st') ∧
  (release q = 0 → ring_room q → ∀ m, ∃ st', fengnet_mq_push (mq s) x m = Ret st').
Proof.
  intros (l & Hinv)%reachable_inv Hx. destruct s as [st hd]. simpl in *.
  pose proof (si_queues _ _ Hinv x q Hx) as (Hwf & Hn & Hok). simpl in Hok.
  pose proof (si_global _ _ Hinv) as Hgo. simpl in Hgo. split_and!.
  - destruct l as [|y l]; [rewrite fengnet_globalmq_pop_nil by done; eauto|].
    destruct (fengnet_globalmq_pop_cons st y l Hgo) as (? & ? & _ & -> & _). eauto.
  - unfold fengnet_mq_pop, load. rewrite Hx. simpl.
    destruct (contents q) as [|m ms] eqn:Hc; [rewrite ring_pop_empty by done; simpl; eauto|].
    destruct (ring_pop_spec q m ms Hwf Hc) as (q' & -> & _). simpl. eauto.
  - intros Hxh. assert (Hxl : x ∉ l) by (intros ?; by apply (si_disj _ _ Hinv x)).
    destruct (fengnet_globalmq_push_spec st l x q) as (st' & ? & _); eauto.
  - intros Hr. destruct (mark_release_spec st hd l x q Hinv Hx Hr) as (st' & l' & -> & _). eauto.
  - intros Hr Hroom m. destruct (mq_push_spec st hd l x q m Hinv Hx Hr Hroom) as (st' & -> & _). eauto.
Qed.

(** A run that reaches the states of the witnesses: a queue is created,
    launched, and two messages are pushed to it. *)
Definition example_queue : positive := (fengnet_mq_create fengnet_mq_init 9).1.
Definition example_message (n : Z) : fengnet_message := MkMsg 7 n 0 0.
Definition example_mq : outcome mq_state :=
  st1 ← fengnet_globalmq_push (fengnet_mq_create fengnet_mq_init 9).2 example_queue;
  st2 ← fengnet_mq_push st1 example_queue (example_message 1);
  fengnet_mq_push st2 example_queue (example_message 2).
Definition example_state : mq_state :=
  match example_mq with Ret st => st | _ => fengnet_mq_init end.

Lemma example_reachable : reachable (MkSched example_state ∅).
Proof.
  set (st0 := (fengnet_mq_create fengnet_mq_init 9).2).
  destruct (fengnet_globalmq_push st0 example_queue) as [st1| | | |] eqn:H1; try (by vm_compute in H1).
  destruct (fengnet_mq_push st1 example_queue (example_message 1)) as [st2| | | |] eqn:H2;
    try (by vm_compute in H1; injection H1 as <-; vm_compute in H2).
  destruct (fengnet_mq_push st2 example_queue (example_message 2)) as [st3| | | |] eqn:H3;
    try (by vm_compute in H1; injection H1 as <-; vm_compute in H2; injection H2 as <-;
            vm_compute in H3).
  assert (example_state = st3) as ->.
  { unfold example_state, example_mq. fold st0. rewrite H1. simpl. rewrite H2. simpl. by rewrite H3. }
  eapply rtc_l; [by eapply (step_create fengnet_mq_init ∅ 9 example_queue st0)|].
  eapply rtc_l; [apply (step_launch st0 _ example_queue st1); [set_solver|done]|].
  replace (({[example_queue]} ∪ ∅) ∖ {[example_queue]} : gset positive) with (∅ : gset positive)
    by set_solver.
  assert (∃ q, heap st1 !! example_queue = Some q ∧ release q = 0) as (q1 & Hq1 & Hr1).
  { vm_compute in H1. injection H1 as <-. eexists. split; [vm_compute; reflexivity|done]. }
  assert (∃ q, heap st2 !! example_queue = Some q ∧ release q = 0) as (q2 & Hq2 & Hr2).
  { vm_compute in H1. injection H1 as <-. vm_compute in H2. injection H2 as <-.
    eexists. split; [vm_compute; reflexivity|done]. }
  eapply rtc_l; [by eapply step_push|]. eapply rtc_once. by eapply step_push.
Qed.

(** C18: [fengnet_mq_push] refines the append of an abstract queue: it appends
    the message to the queue's contents (growing the ring when it is full),
    leaves the contents of every other queue as they are, and puts the queue
    at the end of the global queue exactly when it was not there already. *)
Theorem mq_push_appends s x q m st' :
  reachable s → heap (mq s) !! x = Some q → release q = 0 →
  fengnet_mq_push (mq s) x m = Ret st' →
  contents <$> heap st' = <[x := contents q ++ [m]]> (contents <$> heap (mq s)) ∧
  ∃ l, global_ok (mq s) l ∧ global_ok st' (if in_global q =? 0 then l ++ [x] else l).
Proof.
  intros (l & Hinv)%reachable_inv Hx Hr Hpush. destruct s as [st hd]. simpl in *.
  assert (Hroom : ring_room q).
  { pose proof (si_queues _ _ Hinv x q Hx) as (Hwf & _). simpl in Hwf.
    unfold fengnet_mq_push, load in Hpush. rewrite Hx in Hpush. simpl in Hpush.
    apply bind_Ret_inv in Hpush as (q' & Hring & _). by eapply ring_push_room. }
  destruct (mq_push_spec st hd l x q m Hinv Hx Hr Hroom) as (st2 & Hpush2 & Hc & Hg & _).
  rewrite Hpush in Hpush2. injection Hpush2 as <-. split; [done|].
  exists l. split; [apply (si_global _ _ Hinv)|done].
Qed.

(** C19: [fengnet_mq_pop] refines taking the head of an abstract queue: it
    returns the oldest message and removes it, leaves the other queues and the
    global queue as they are, and on an empty queue returns none and clears
    [in_global], so that the next push reactivates the queue. *)
Theorem mq_pop_takes_oldest s x q o st' :
  reachable s → heap (mq s) !! x = Some q → fengnet_mq_pop (mq s) x = Ret (o, st') →
  o = hd_error (contents q) ∧
  contents <$> heap st' = <[x := tl (contents q)]> (contents <$> heap (mq s)) ∧
  Q st' = Q (mq s) ∧
  (contents q = [] → ∃ q', heap st' !! x = Some q' ∧ in_global q' = 0).
Proof.
  intros (l & Hinv)%reachable_inv Hx Hpop. destruct s as [st hd].
  pose proof (si_queues _ _ Hinv x q Hx) as (Hwf & _). simpl in *.
  unfold fengnet_mq_pop, load in Hpop. rewrite Hx in Hpop. simpl in Hpop.
  destruct (contents q) as [|m ms] eqn:Hc.
  - rewrite ring_pop_empty in Hpop by done. injection Hpop as <- <-. simpl.
    split_and!; [done| |done|].
    + rewrite fmap_insert. f_equal. unfold contents, ring_length, window in *. done.
    + intros _. eexists. split; [apply lookup_insert_eq|done].
  - destruct (ring_pop_spec q m ms Hwf Hc) as (q' & Hring & _ & Hc' & _).
    rewrite Hring in Hpop. simpl in Hpop. injection Hpop as <- <-. simpl.
    split_and!; [done|by rewrite fmap_insert, Hc'|done|done].
Qed.

(** ** Witnesses *)

Definition example_ring : message_queue :=
  match heap example_state !! example_queue with Some q => q | None => new_queue 0 end.

Lemma example_ring_lookup : heap example_state !! example_queue = Some example_ring.
Proof. vm_compute. reflexivity. Qed.

Lemma no_stranded_messages_witness :
  ∃ l, global_ok example_state l ∧ (example_queue ∈ l ∨ example_queue ∈ (∅ : gset positive)).
Proof.
  apply (no_stranded_messages (MkSched example_state ∅) example_queue example_ring).
  - exact example_reachable.
  - exact example_ring_lookup.
  - vm_compute. reflexivity.
  - vm_compute. discriminate.
Defined.

Lemma dispatch_exclusive_witness :
  ∃ st', (example_queue ∉ (∅ : gset positive)) ∧
    ∃ l, global_ok example_state (example_queue :: l) ∧ global_ok st' l ∧ (example_queue ∉ l).
Proof.
  eexists. eapply (dispatch_exclusive (MkSched example_state ∅) example_queue).
  - exact example_reachable.
  - vm_compute. reflexivity.
Defined.

Lemma queue_operations_return_witness :
  ∃ st', fengnet_mq_push example_state example_queue (example_message 3) = Ret st'.
Proof.
  apply (queue_operations_return (MkSched example_state ∅) example_queue example_ring
           example_reachable example_ring_lookup).
  - vm_compute. reflexivity.
  - left. vm_compute. reflexivity.
Defined.

Lemma mq_push_appends_witness :
  ∃ st', fengnet_mq_push example_state example_queue (example_message 3) = Ret st' ∧
    contents <$> heap st' =
      <[example_queue := contents example_ring ++ [example_message 3]]>
        (contents <$> heap example_state).
Proof.
  eexists. split; [vm_compute; reflexivity|].
  eapply (mq_push_appends (MkSched example_state ∅) example_queue example_ring (example_message 3)).
  - exact example_reachable.
  - exact example_ring_lookup.
  - vm_compute. reflexivity.
  - vm_compute. reflexivity.
Defined.

Lemma mq_pop_takes_oldest_witness :
  ∃ st', fengnet_mq_pop example_state example_queue = Ret (Some (example_message 1), st') ∧
    Some (example_message 1) = hd_error (contents example_ring) ∧
    Q st' = Q example_state.
Proof.
  eexists. split; [vm_compute; reflexivity|].
  eassert (Hpop : _) by (eapply (mq_pop_takes_oldest (MkSched example_state ∅) example_queue
    example_ring); [exact example_reachable|exact example_ring_lookup|vm_compute; reflexivity]).
  split; [exact (proj1 Hpop)|exact (proj1 (proj2 (proj2 Hpop)))].
Defined.
