(* ===== verification/Netpack.v ===== *)
(** * Framed packets of TCP streams

    The model of [lualib-src/lua-netpack.cpp]: every package is a big-endian
    16-bit length and its bytes. [filter] cuts the data of many connections
    into packages; a package that is not complete waits in a hash table of
    lists, complete packages that are not returned at once wait in a ring.

    A list of [struct uncomplete] is the list of its nodes and a block of
    memory is owned by the one structure that points to it, so both are
    values. The first slot of the Lua stack holds the queue; it is the [option]
    that every function takes and returns ([None] is [nil]). *)
From S2P Require Import Prelude.

Local Open Scope Z_scope.

(** ** Data *)

Definition QUEUESIZE : Z := 1024.
Definition HASHSIZE : Z := 4096.

(** A byte of a block from [malloc]: [None] until it is written. *)
Notation cell := (option Z) (only parsing).
Notation block := (list (option Z)) (only parsing).

Definition malloc (n : Z) : block := replicate (Z.to_nat n) None.

(** [struct netpack]; a [None] buffer is [NULL]. *)
Record netpack := MkPack { id : Z; size : Z; buffer : option block }.

#[export] Instance netpack_eq_dec : EqDecision netpack.
Proof. solve_decision. Defined.

(** [struct uncomplete]: [next] is the rest of the list that holds it. *)
Record uncomplete := MkUncomplete { pack : netpack; read : Z; header : Z }.

#[export] Instance uncomplete_eq_dec : EqDecision uncomplete.
Proof. solve_decision. Defined.

(** [struct queue]; [ring] is its array [queue], whose cells are not
    initialised at first. *)
Record queue := MkQueue {
  cap : Z;
  head : Z;
  tail : Z;
  hash : list (list uncomplete);
  ring : list (option netpack)
}.

#[export] Instance queue_eq_dec : EqDecision queue.
Proof. solve_decision. Defined.

Definition set_hash (q : queue) (h : list (list uncomplete)) : queue :=
  MkQueue (cap q) (head q) (tail q) h (ring q).

(** What [filter] leaves on the Lua stack behind the queue. *)
Inductive filter_result :=
| RNone
| RData (fd : Z) (msg : option block) (sz : Z)
| RMore
| RError (fd : Z) (msg : list Z)
| ROpen (fd : Z) (addr : list Z)
| RClose (fd : Z)
| RWarning (fd sz : Z)
| RInit (fd : Z) (addr : list Z) (ud : Z).

#[export] Instance filter_result_eq_dec : EqDecision filter_result.
Proof. solve_decision. Defined.

Definition FENGNET_SOCKET_TYPE_DATA : Z := 1.
Definition FENGNET_SOCKET_TYPE_CONNECT : Z := 2.
Definition FENGNET_SOCKET_TYPE_CLOSE : Z := 3.
Definition FENGNET_SOCKET_TYPE_ACCEPT : Z := 4.
Definition FENGNET_SOCKET_TYPE_ERROR : Z := 5.
Definition FENGNET_SOCKET_TYPE_WARNING : Z := 7.

(** [struct fengnet_socket_message] with the bytes that follow it, and its
    size (three [int]s and a pointer). *)
Record fengnet_socket_message := MkSocketMessage {
  m_type : Z;
  m_id : Z;
  m_ud : Z;
  m_buffer : option (list Z);
  m_padding : list Z
}.
Definition SIZEOF_SOCKET_MESSAGE : Z := 24.

(** ** The queue *)

Definition empty_queue : queue :=
  MkQueue QUEUESIZE 0 0 (replicate (Z.to_nat HASHSIZE) [])
    (replicate (Z.to_nat QUEUESIZE) None).

Definition get_queue (L : option queue) : queue :=
  match L with None => empty_queue | Some q => q end.

(** [a + b + c] is an [int] sum. *)
Definition hash_fd (fd : Z) : outcome Z :=
  ab ← cint (Z.shiftr fd 24 + Z.shiftr fd 12);
  abc ← cint (ab + fd);
  Ret (u32 abc mod HASHSIZE).

(** The walk along one list of the table: the node it takes out, and the rest. *)
Fixpoint unlink (fd : Z) (l : list uncomplete) : option (uncomplete * list uncomplete) :=
  match l with
  | [] => None
  | uc :: l' =>
      if id (pack uc) =? fd then Some (uc, l')
      else match unlink fd l' with
           | Some (x, l'') => Some (x, uc :: l'')
           | None => None
           end
  end.

Definition find_uncomplete (L : option queue) (fd : Z)
    : outcome (option uncomplete * option queue) :=
  match L with
  | None => Ret (None, None)
  | Some q =>
      h ← hash_fd fd;
      l ← aget (hash q) h;
      match unlink fd l with
      | Some (uc, l') =>
          hash' ← aset (hash q) h l';
          Ret (Some uc, Some (set_hash q hash'))
      | None => Ret (None, Some q)
      end
  end.

(** Puts [uc] in front of the list of its descriptor. *)
Definition link_uncomplete (q : queue) (fd : Z) (uc : uncomplete) : outcome queue :=
  h ← hash_fd fd;
  l ← aget (hash q) h;
  hash' ← aset (hash q) h (uc :: l);
  Ret (set_hash q hash').

(** The caller fills the node in: [fill] maps the zeroed node to the final one. *)
Definition save_uncomplete (L : option queue) (fd : Z) (fill : uncomplete → outcome uncomplete)
    : outcome (option queue) :=
  uc ← fill (MkUncomplete (MkPack fd 0 None) 0 0);
  q ← link_uncomplete (get_queue L) fd uc;
  Ret (Some q).

Definition expand_queue (q : queue) : outcome queue :=
  cap' ← cint (cap q + QUEUESIZE);
  ring' ← for_loop (Z.to_nat (cap q)) 0
    (λ i nq,
      s ← cint (head q + i);
      x ← aget (ring q) (s mod cap q);
      aset nq i x)
    (replicate (Z.to_nat cap') None);
  Ret (MkQueue cap' 0 (cap q) (hash q) ring').

(** [push_data] with the block that goes into the queue (the [clone] of the
    caller's bytes, or the caller's own block). *)
Definition push_data (L : option queue) (fd : Z) (buf : option block) (sz : Z)
    : outcome (option queue) :=
  let q := get_queue L in
  ring' ← aset (ring q) (tail q) (Some (MkPack fd sz buf));
  tail1 ← cint (tail q + 1);
  let tail' := if cap q <=? tail1 then tail1 - cap q else tail1 in
  let q' := MkQueue (cap q) (head q) tail' (hash q) ring' in
  if head q =? tail' then q'' ← expand_queue q'; Ret (Some q'') else Ret (Some q').

(** ** Cutting packages out of a message *)

(** [memcpy] of [n] bytes of [src] from [off] on into a block, at [at_]. *)
Definition copy_bytes (blk : option block) (at_ : Z) (src : list Z) (off n : Z)
    : outcome (option block) :=
  match blk with
  | None => Undef
  | Some b => bs ← mread src off n; b' ← mwrite b at_ (Some <$> bs); Ret (Some b')
  end.

Definition read_size (src : list Z) (off : Z) : outcome Z :=
  b0 ← aget src off;
  b1 ← aget src (off + 1);
  Ret (Z.lor (Z.shiftl b0 8) b1).

Definition save_header (L : option queue) (fd : Z) (src : list Z) (off : Z)
    : outcome (option queue) :=
  save_uncomplete L fd (λ uc, b ← aget src off; Ret (MkUncomplete (pack uc) (-1) b)).

Definition save_part (L : option queue) (fd : Z) (src : list Z) (off sz pack_size : Z)
    : outcome (option queue) :=
  save_uncomplete L fd (λ uc,
    blk ← copy_bytes (Some (malloc pack_size)) 0 src off sz;
    Ret (MkUncomplete (MkPack (id (pack uc)) pack_size blk) sz (header uc))).

(** [push_data(L, fd, buffer, size, 1)]: the bytes are copied first. *)
Definition push_clone (L : option queue) (fd : Z) (src : list Z) (off sz : Z)
    : outcome (option queue) :=
  blk ← copy_bytes (Some (malloc sz)) 0 src off sz;
  push_data L fd blk sz.

(** [buffer] is the pointer [src + off]. Every turn takes two bytes at least. *)
Fixpoint push_more (fuel : nat) (L : option queue) (fd : Z) (src : list Z) (off sz : Z)
    : outcome (option queue) :=
  match fuel with
  | O => NoFuel
  | S fuel' =>
      if sz =? 1 then save_header L fd src off
      else
        pack_size ← read_size src off;
        let off := off + 2 in
        let sz := sz - 2 in
        if sz <? pack_size then save_part L fd src off sz pack_size
        else
          L' ← push_clone L fd src off pack_size;
          if 0 <? sz - pack_size
          then push_more fuel' L' fd src (off + pack_size) (sz - pack_size)
          else Ret L'
  end.

(** "read size": the second byte of the length of a package has arrived. *)
Definition start_body (uc : uncomplete) (src : list Z) : outcome uncomplete :=
  _ ← assert_true (read uc =? -1);
  b ← aget src 0;
  let pack_size := Z.lor b (Z.shiftl (header uc) 8) in
  Ret (MkUncomplete (MkPack (id (pack uc)) pack_size (Some (malloc pack_size))) 0 (header uc)).

(** The data goes into the package that waits for it ([L] is without it). *)
Definition fill_uncomplete (L : option queue) (fd : Z) (uc : uncomplete) (src : list Z) (off sz : Z)
    : outcome (option queue * filter_result) :=
  need ← cint (size (pack uc) - read uc);
  if sz <? need then
    blk ← copy_bytes (buffer (pack uc)) (read uc) src off sz;
    let uc' := MkUncomplete (MkPack (id (pack uc)) (size (pack uc)) blk)
                 (read uc + sz) (header uc) in
    match L with
    | None => Undef
    | Some q => q' ← link_uncomplete q fd uc'; Ret (Some q', RNone)
    end
  else
    blk ← copy_bytes (buffer (pack uc)) (read uc) src off need;
    let off := off + need in
    let sz := sz - need in
    if sz =? 0 then Ret (L, RData fd blk (size (pack uc)))
    else
      L' ← push_data L fd blk (size (pack uc));
      L'' ← push_more (S (Z.to_nat sz)) L' fd src off sz;
      Ret (L'', RMore).

Definition filter_data_ (L : option queue) (fd : Z) (src : list Z) (sz : Z)
    : outcome (option queue * filter_result) :=
  '(found, L) ← find_uncomplete L fd;
  match found with
  | Some uc =>
      if read uc <? 0 then
        uc' ← start_body uc src;
        fill_uncomplete L fd uc' src 1 (sz - 1)
      else fill_uncomplete L fd uc src 0 sz
  | None =>
      if sz =? 1 then L' ← save_header L fd src 0; Ret (L', RNone)
      else
        pack_size ← read_size src 0;
        let sz := sz - 2 in
        if sz <? pack_size then L' ← save_part L fd src 2 sz pack_size; Ret (L', RNone)
        else if sz =? pack_size then
          blk ← copy_bytes (Some (malloc pack_size)) 0 src 2 sz;
          Ret (L, RData fd blk sz)
        else
          L' ← push_clone L fd src 2 pack_size;
          L'' ← push_more (S (Z.to_nat sz)) L' fd src (2 + pack_size) (sz - pack_size);
          Ret (L'', RMore)
  end.

(** [filter_data] frees [buffer] when it is done; nothing points to it then. *)
Definition filter_data := filter_data_.

Definition close_uncomplete (L : option queue) (fd : Z) : outcome (option queue) :=
  '(_, L') ← find_uncomplete L fd; Ret L'.

(** [lua_pushlstring(L, msg, size)]: the size is a [size_t]. *)
Definition pushstring (msg : list Z) (sz : Z) : outcome (list Z) := mread msg 0 (u64 sz).

Definition lfilter (L : option queue) (message : fengnet_socket_message) (sz : Z)
    : outcome (option queue * filter_result) :=
  let '(buf, sz) := match m_buffer message with
                    | None => (m_padding message, sz - SIZEOF_SOCKET_MESSAGE)
                    | Some b => (b, -1)
                    end in
  if m_type message =? FENGNET_SOCKET_TYPE_DATA then
    _ ← assert_true (sz =? -1);
    filter_data L (m_id message) buf (m_ud message)
  else if m_type message =? FENGNET_SOCKET_TYPE_CONNECT then
    s ← pushstring buf sz;
    Ret (L, RInit (m_id message) s (m_ud message))
  else if m_type message =? FENGNET_SOCKET_TYPE_CLOSE then
    L' ← close_uncomplete L (m_id message);
    Ret (L', RClose (m_id message))
  else if m_type message =? FENGNET_SOCKET_TYPE_ACCEPT then
    s ← pushstring buf sz;
    Ret (L, ROpen (m_ud message) s)
  else if m_type message =? FENGNET_SOCKET_TYPE_ERROR then
    L' ← close_uncomplete L (m_id message);
    s ← pushstring buf sz;
    Ret (L', RError (m_id message) s)
  else if m_type message =? FENGNET_SOCKET_TYPE_WARNING then
    Ret (L, RWarning (m_id message) (m_ud message))
  else Ret (L, RNone).

Definition lpop (L : option queue) : outcome (option netpack * option queue) :=
  match L with
  | None => Ret (None, None)
  | Some q =>
      if head q =? tail q then Ret (None, Some q)
      else
        c ← aget (ring q) (head q);
        match c with
        | None => Undef
        | Some np =>
            head1 ← cint (head q + 1);
            Ret (Some np, Some (MkQueue (cap q) (if cap q <=? head1 then 0 else head1)
                                  (tail q) (hash q) (ring q)))
        end
  end.

(** The packs whose blocks [clear] frees, and the queue it leaves. *)
Definition lclear (L : option queue) : outcome (list netpack * option queue) :=
  match L with
  | None => Ret ([], None)
  | Some q =>
      tail' ← (if tail q <? head q then cint (tail q + cap q) else Ret (tail q));
      freed ← for_loop (Z.to_nat (tail' - head q)) (head q)
        (λ i freed,
          c ← aget (ring q) (i mod cap q);
          match c with None => Undef | Some np => Ret (freed ++ [np]) end)
        (concat (map (map pack) (hash q)));
      Ret (freed, Some (MkQueue (cap q) 0 0 (replicate (Z.to_nat HASHSIZE) []) (ring q)))
  end.

(** ** Packing *)

Definition write_size (blk : block) (len : Z) : outcome block :=
  blk' ← aset blk 0 (Some (Z.land (Z.shiftr len 8) 0xff));
  aset blk' 1 (Some (Z.land len 0xff)).

(** The first bytes of a block, which must have been written. *)
Definition block_bytes (blk : option block) (n : Z) : outcome (list Z) :=
  match blk with
  | None => Ret []
  | Some b => cs ← mread b 0 n; match mapM (M := option) (λ c, c) cs with
                                | Some bs => Ret bs
                                | None => Undef
                                end
  end.

(** A string is its bytes; [None] is the error "Invalid size (too long)". *)
Definition lpack (ptr : list Z) : outcome (option (option block * Z)) :=
  let len := zlen ptr in
  if 0x10000 <=? len then Ret None
  else
    blk ← write_size (malloc (len + 2)) (i32 len);
    blk' ← mwrite blk 2 (Some <$> ptr);
    Ret (Some (Some blk', len + 2)).

Definition ltostring (ptr : option block) (sz : Z) : outcome (list Z) := block_bytes ptr sz.

(** ** Streams of packages

    The reference: what a sender puts on a connection for a package, and how
    the bytes that have arrived are cut. *)

Definition frame (p : list Z) : list Z := zlen p / 256 :: zlen p mod 256 :: p.

Fixpoint deframe (n : nat) (s : list Z) : list (list Z) * list Z :=
  match n, s with
  | S n', b0 :: b1 :: t =>
      let sz := b0 * 256 + b1 in
      if sz <=? zlen t then
        let '(ps, r) := deframe n' (drop (Z.to_nat sz) t) in (take (Z.to_nat sz) t :: ps, r)
      else ([], s)
  | _, _ => ([], s)
  end.

(** The packages that are complete in [s], and the rest. *)
Definition cut (s : list Z) : list (list Z) * list Z := deframe (length s) s.

#[global] Arguments cut : simpl never.

Lemma deframe_stable n m s : (length s ≤ n)%nat → (length s ≤ m)%nat → deframe n s = deframe m s.
Proof.
  revert m s. induction n as [|n IH]; intros m s Hn Hm.
  { apply Nat.le_0_r, length_zero_iff_nil in Hn as ->. by destruct m. }
  destruct s as [|b0 [|b1 t]]; [by destruct m..|]. destruct m as [|m]; [cbn in Hm; lia|].
  cbn in *. destruct (_ <=? _); [|done]. by rewrite (IH m) by (rewrite length_drop; lia).
Qed.

Lemma deframe_S n b0 b1 t :
  deframe (S n) (b0 :: b1 :: t) =
  if b0 * 256 + b1 <=? zlen t then
    let '(ps, r) := deframe n (drop (Z.to_nat (b0 * 256 + b1)) t) in
    (take (Z.to_nat (b0 * 256 + b1)) t :: ps, r)
  else ([], b0 :: b1 :: t).
Proof. done. Qed.

Lemma cut_nil : cut [] = ([], []).
Proof. done. Qed.

Lemma cut_one b : cut [b] = ([], [b]).
Proof. done. Qed.

Lemma cut_short b0 b1 t : zlen t < b0 * 256 + b1 → cut (b0 :: b1 :: t) = ([], b0 :: b1 :: t).
Proof. intros H. unfold cut. cbn. by rewrite (proj2 (Z.leb_gt _ _)) by lia. Qed.

Lemma cut_cons b0 b1 t :
  b0 * 256 + b1 ≤ zlen t →
  cut (b0 :: b1 :: t) =
  let '(ps, r) := cut (drop (Z.to_nat (b0 * 256 + b1)) t) in
  (take (Z.to_nat (b0 * 256 + b1)) t :: ps, r).
Proof.
  intros H. unfold cut. set (t' := drop _ t).
  assert (Hl : (length t' ≤ S (length t))%nat) by (unfold t'; rewrite length_drop; lia).
  rewrite <-(deframe_stable _ (length t') t' Hl) by done.
  change (length (b0 :: b1 :: t)) with (S (S (length t))).
  rewrite deframe_S. by rewrite (proj2 (Z.leb_le _ _)) by done.
Qed.

(** Cutting before more data arrives loses nothing. *)
Lemma cut_app s c :
  bytes s →
  cut (s ++ c) = let '(ps, r) := cut s in let '(ps', r') := cut (r ++ c) in (ps ++ ps', r').
Proof.
  remember (length s) as n eqn:Hn. assert (Hle : (length s ≤ n)%nat) by lia. clear Hn.
  revert s Hle. induction n as [|n IH]; intros s Hle Hb.
  { apply Nat.le_0_r, length_zero_iff_nil in Hle as ->. rewrite cut_nil. cbn. by destruct (cut c). }
  destruct s as [|b0 [|b1 t]].
  - rewrite cut_nil. cbn. by destruct (cut c).
  - rewrite cut_one. cbn. by destruct (cut _).
  - apply Forall_cons in Hb as [Hb0 Hb]. apply Forall_cons in Hb as [Hb1 Ht].
    unfold is_byte in *.
    destruct (Z.le_gt_cases (b0 * 256 + b1) (zlen t)) as [Hsz|Hsz].
    + cbn [app]. rewrite !cut_cons by (rewrite ?zlen_app; pose proof (zlen_nonneg c); lia).
      unfold zlen in Hsz.
      rewrite drop_app_le, take_app_le by lia. cbn in Hle.
      rewrite IH by (rewrite ?length_drop; try lia; by apply Forall_drop).
      destruct (cut (drop _ t)) as [ps r]. by destruct (cut (r ++ c)).
    + rewrite (cut_short _ _ t) by lia. cbn. by destruct (cut _).
Qed.

Lemma cut_frames ps :
  Forall (λ p, zlen p < 0x10000) ps → cut (concat (frame <$> ps)) = (ps, []).
Proof.
  induction 1 as [|p ps Hp _ IH]; [done|]. cbn. pose proof (zlen_nonneg p).
  replace (zlen p / 256 :: _) with (zlen p / 256 :: zlen p mod 256 :: (p ++ concat (frame <$> ps)))
    by done.
  assert (Hd : zlen p / 256 * 256 + zlen p mod 256 = zlen p) by zlia.
  rewrite cut_cons by (rewrite zlen_app, Hd; pose proof (zlen_nonneg (concat (frame <$> ps))); lia).
  rewrite Hd. unfold zlen. rewrite Nat2Z.id, take_app_length, drop_app_length.
  fold (frame <$> ps). by rewrite IH.
Qed.

(** ** What a queue stands for *)

(** [hash_fd] does not overflow. *)
Definition fd_ok (fd : Z) : Prop :=
  0 ≤ fd ∧ Z.shiftr fd 24 + Z.shiftr fd 12 + fd ≤ INT_MAX.

Definition bucket (fd : Z) : nat :=
  Z.to_nat ((Z.shiftr fd 24 + Z.shiftr fd 12 + fd) mod HASHSIZE).

Lemma hash_fd_bucket fd : fd_ok fd → hash_fd fd = Ret (Z.of_nat (bucket fd)) ∧ (bucket fd < 4096)%nat.
Proof.
  intros [H0 H1]. unfold hash_fd, bucket.
  pose proof (proj2 (Z.shiftr_nonneg fd 24) H0). pose proof (proj2 (Z.shiftr_nonneg fd 12) H0).
  unfold INT_MAX, INT_MIN in *.
  rewrite cint_in by (unfold INT_MAX, INT_MIN; lia). bsimpl.
  rewrite cint_in by (unfold INT_MAX, INT_MIN; lia). bsimpl.
  unfold u32. rewrite (Z.mod_small _ (2 ^ 32)) by lia. unfold HASHSIZE.
  pose proof (Z.mod_pos_bound (Z.shiftr fd 24 + Z.shiftr fd 12 + fd) 4096).
  split; [f_equal|]; lia.
Qed.

(** [uc] is waiting for the rest of the package that begins with [s]. *)
Definition holds (uc : uncomplete) (s : list Z) : Prop :=
  (∃ b, s = [b] ∧ is_byte b ∧ read uc = -1 ∧ header uc = b ∧ size (pack uc) = 0 ∧
     buffer (pack uc) = None) ∨
  (∃ b0 b1 bs, s = b0 :: b1 :: bs ∧ is_byte b0 ∧ is_byte b1 ∧
     size (pack uc) = b0 * 256 + b1 ∧ read uc = zlen bs ∧ zlen bs < b0 * 256 + b1 ∧
     buffer (pack uc) =
       Some ((Some <$> bs) ++ replicate (Z.to_nat (b0 * 256 + b1 - zlen bs)) None)).

Fixpoint lookup_fd (fd : Z) (l : list uncomplete) : option uncomplete :=
  match l with
  | [] => None
  | uc :: l' => if id (pack uc) =? fd then Some uc else lookup_fd fd l'
  end.

Definition ids (l : list uncomplete) : list Z := id ∘ pack <$> l.

(** The node of descriptor [fd]. *)
Definition waiting (q : queue) (fd : Z) : option uncomplete :=
  lookup_fd fd (default [] (hash q !! bucket fd)).

Definition pack_of (x : Z * list Z) : netpack := MkPack x.1 (zlen x.2) (Some (Some <$> x.2)).

(** The ring holds [items], oldest first. *)
Record ring_holds (q : queue) (items : list netpack) : Prop := {
  rh_cap : QUEUESIZE ≤ cap q ≤ INT_MAX;
  rh_len : zlen (ring q) = cap q;
  rh_head : 0 ≤ head q < cap q;
  rh_room : zlen items < cap q;
  rh_tail : tail q = (head q + zlen items) mod cap q;
  rh_cells i x : items !! i = Some x →
    ring q !! Z.to_nat ((head q + Z.of_nat i) mod cap q) = Some (Some x)
}.

(** [pend] maps a descriptor to the bytes of its incomplete package, [ready]
    is the list of complete packages in the order of arrival. *)
Record rep (q : queue) (pend : gmap Z (list Z)) (ready : list (Z * list Z)) : Prop := {
  rep_hash : length (hash q) = 4096%nat;
  rep_nodup l : l ∈ hash q → NoDup (ids l);
  rep_pend fd : fd_ok fd →
    match waiting q fd, pend !! fd with
    | Some uc, Some s => holds uc s ∧ id (pack uc) = fd
    | None, None => True
    | _, _ => False
    end;
  rep_ring : ring_holds q (pack_of <$> ready)
}.

(** The bytes of [fd] that wait for more. *)
Definition pending (pend : gmap Z (list Z)) (fd : Z) : list Z := default [] (pend !! fd).

Definition put (fd : Z) (s : list Z) (pend : gmap Z (list Z)) : gmap Z (list Z) :=
  match s with [] => delete fd pend | _ => <[fd := s]> pend end.

Lemma waiting_empty fd : waiting empty_queue fd = None.
Proof.
  unfold waiting. cbn [empty_queue hash].
  destruct (_ !! _) as [l|] eqn:E; [|done]. apply lookup_replicate_1 in E as [-> _]. done.
Qed.

Lemma empty_queue_rep : rep empty_queue ∅ [].
Proof.
  split.
  - done.
  - intros l Hl. cbn in Hl. apply elem_of_replicate in Hl as [-> _]. constructor.
  - intros fd _. by rewrite lookup_empty, waiting_empty.
  - by split.
Qed.

(** *** The table *)

Lemma unlink_spec fd l :
  match unlink fd l with
  | Some (uc, l') =>
      lookup_fd fd l = Some uc ∧ id (pack uc) = fd ∧ ids l ≡ₚ fd :: ids l' ∧
      (∀ fd', fd' ≠ fd → lookup_fd fd' l' = lookup_fd fd' l)
  | None => lookup_fd fd l = None
  end.
Proof.
  induction l as [|uc l IH]; [done|]. cbn. destruct (Z.eqb_spec (id (pack uc)) fd) as [<-|Hne].
  - split_and!; [done|done|done|]. intros fd' Hfd.
    by rewrite (proj2 (Z.eqb_neq _ _)) by congruence.
  - destruct (unlink fd l) as [[x l']|]; [|done]. destruct IH as (H1 & H2 & H3 & H4).
    split_and!; [done|done| |].
    + cbn. unfold ids in H3. rewrite H3. apply Permutation_swap.
    + intros fd' Hfd. cbn. by rewrite H4.
Qed.

Lemma lookup_fd_ids fd l : fd ∉ ids l ↔ lookup_fd fd l = None.
Proof.
  induction l as [|uc l IH]; cbn; [set_solver|]. rewrite not_elem_of_cons, IH.
  destruct (Z.eqb_spec (id (pack uc)) fd); naive_solver.
Qed.

Lemma rep_bucket q pend ready fd :
  rep q pend ready → fd_ok fd → ∃ l, hash q !! bucket fd = Some l ∧ NoDup (ids l).
Proof.
  intros Hr Hfd. destruct (hash_fd_bucket fd Hfd) as [_ Hb].
  destruct (lookup_lt_is_Some_2 (hash q) (bucket fd)) as [l Hl].
  { rewrite (rep_hash _ _ _ Hr). lia. }
  exists l. split; [done|]. apply (rep_nodup _ _ _ Hr). by eapply list_elem_of_lookup_2.
Qed.

(** Changing one list of the table. *)
Lemma rep_set_bucket q pend pend' ready fd l' :
  rep q pend ready → fd_ok fd → NoDup (ids l') →
  (∀ fd', fd' ≠ fd → pend' !! fd' = pend !! fd') →
  (∀ l fd', hash q !! bucket fd = Some l → fd' ≠ fd → lookup_fd fd' l' = lookup_fd fd' l) →
  match lookup_fd fd l', pend' !! fd with
  | Some uc, Some s => holds uc s ∧ id (pack uc) = fd
  | None, None => True
  | _, _ => False
  end →
  rep (set_hash q (<[bucket fd := l']> (hash q))) pend' ready.
Proof.
  intros Hr Hfd Hnd Hpend Hl Hf. destruct (rep_bucket _ _ _ _ Hr Hfd) as (l & Hq & _).
  pose proof (lookup_lt_Some _ _ _ Hq) as Hlt. split.
  - cbn. rewrite length_insert. apply (rep_hash _ _ _ Hr).
  - cbn. intros k [j Hk]%list_elem_of_lookup.
    apply list_lookup_insert_Some in Hk as [(_ & <- & _)|(_ & Hk)]; [done|].
    apply (rep_nodup _ _ _ Hr). by eapply list_elem_of_lookup_2.
  - intros fd' Hfd'. unfold waiting. cbn [hash set_hash].
    destruct (decide (fd' = fd)) as [->|Hne].
    + by rewrite list_lookup_insert_eq by done.
    + rewrite (Hpend fd' Hne). pose proof (rep_pend _ _ _ Hr fd' Hfd') as Hw. unfold waiting in Hw.
      destruct (decide (bucket fd' = bucket fd)) as [Heq|Hb].
      * rewrite Heq in *. rewrite list_lookup_insert_eq by done. rewrite Hq in Hw. cbn in *.
        by rewrite (Hl l).
      * by rewrite list_lookup_insert_ne by done.
  - destruct Hr as [_ _ _ [? ? ? ? ? ?]]. by split.
Qed.

Lemma find_uncomplete_spec L pend ready fd :
  rep (get_queue L) pend ready → fd_ok fd →
  ∃ o L', find_uncomplete L fd = Ret (o, L') ∧ rep (get_queue L') (delete fd pend) ready ∧
    match o, pend !! fd with
    | Some uc, Some s => holds uc s ∧ id (pack uc) = fd ∧ is_Some L'
    | None, None => L' = L
    | _, _ => False
    end.
Proof.
  intros Hr Hfd. pose proof (rep_pend _ _ _ Hr fd Hfd) as Hw.
  destruct L as [q|]; cbn [get_queue] in *.
  - destruct (hash_fd_bucket fd Hfd) as [Hh Hlt].
    destruct (rep_bucket _ _ _ _ Hr Hfd) as (l & Hl & Hnd).
    unfold find_uncomplete. rewrite Hh. bsimpl.
    rewrite (proj2 (aget_Ret (hash q) _ l)) by (rewrite Nat2Z.id; auto with lia). bsimpl.
    unfold waiting in Hw. rewrite Hl in Hw. cbn in Hw.
    pose proof (unlink_spec fd l) as Hu. destruct (unlink fd l) as [[uc l']|].
    + destruct Hu as (H1 & H2 & H3 & H4). rewrite aset_in.
      2:{ unfold zlen. rewrite (rep_hash _ _ _ Hr). lia. }
      bsimpl. rewrite Nat2Z.id. eexists _, _. split; [done|]. rewrite H1 in Hw.
      rewrite H3 in Hnd. apply NoDup_cons in Hnd as [Hni Hnd]. split.
      * apply rep_set_bucket with pend; try done.
        -- intros fd' Hne. by rewrite lookup_delete_ne.
        -- intros l0 fd' [= <-]%(eq_trans (eq_sym Hl)). apply H4.
        -- rewrite lookup_delete_eq. apply lookup_fd_ids in Hni. by rewrite Hni.
      * destruct (pend !! fd) as [s|]; [|done]. destruct Hw as [Hw _].
        split_and!; [exact Hw|exact H2|by eexists].
    + rewrite Hu in Hw. destruct (pend !! fd) eqn:Hp; [done|].
      eexists _, _. split; [done|]. by rewrite delete_id.
  - eexists _, _. split; [done|]. cbn [get_queue].
    rewrite waiting_empty in Hw. destruct (pend !! fd) as [s|] eqn:Hp; [destruct Hw|].
    rewrite delete_id by exact Hp. by split.
Qed.

Lemma link_uncomplete_spec q pend ready fd uc s :
  rep q pend ready → fd_ok fd → pend !! fd = None → holds uc s → id (pack uc) = fd →
  ∃ q', link_uncomplete q fd uc = Ret q' ∧ rep q' (<[fd := s]> pend) ready.
Proof.
  intros Hr Hfd Hp Hu Hid. pose proof (rep_pend _ _ _ Hr fd Hfd) as Hw.
  destruct (hash_fd_bucket fd Hfd) as [Hh Hlt].
  destruct (rep_bucket _ _ _ _ Hr Hfd) as (l & Hl & Hnd).
  unfold link_uncomplete. rewrite Hh. bsimpl.
  rewrite (proj2 (aget_Ret (hash q) _ l)) by (rewrite Nat2Z.id; auto with lia). bsimpl.
  rewrite aset_in by (unfold zlen; rewrite (rep_hash _ _ _ Hr); lia).
  bsimpl. rewrite Nat2Z.id. eexists. split; [done|].
  unfold waiting in Hw. rewrite Hl, Hp in Hw. cbn in Hw.
  apply rep_set_bucket with pend; try done.
  - cbn. apply NoDup_cons. split; [|done]. rewrite Hid. apply lookup_fd_ids.
    by destruct (lookup_fd fd l).
  - intros fd' Hne. by rewrite lookup_insert_ne.
  - intros l0 fd' [= <-]%(eq_trans (eq_sym Hl)) Hne. cbn.
    by rewrite (proj2 (Z.eqb_neq _ _)) by congruence.
  - cbn. rewrite lookup_insert_eq. by rewrite (proj2 (Z.eqb_eq _ _)).
Qed.

(** *** The ring *)

(** Decides the positions of two cells of a ring. *)
Ltac ring_lia :=
  rewrite ?mod_wrap in * by lia;
  repeat match goal with
  | |- context [?a <=? ?b] => destruct (Z.leb_spec a b)
  | H : context [?a <=? ?b] |- _ => destruct (Z.leb_spec a b)
  end; try lia.

Lemma ring_tail_lt q items : ring_holds q items → 0 ≤ tail q < cap q.
Proof.
  intros [[Hq Hi] _ Hh Hr -> _]. unfold QUEUESIZE in Hq. apply Z.mod_pos_bound. lia.
Qed.

(** Writing the cell at [tail], when one more cell is free. *)
Lemma ring_store q items x :
  ring_holds q items →
  ∀ i y, (items ++ [x]) !! i = Some y →
    <[Z.to_nat (tail q) := Some x]> (ring q) !! Z.to_nat ((head q + Z.of_nat i) mod cap q) =
    Some (Some y).
Proof.
  intros Hr i y Hy. pose proof (ring_tail_lt _ _ Hr) as Ht.
  destruct Hr as [[Hq Hi] Hl Hh Hroom Htail Hc]. unfold QUEUESIZE, zlen in *.
  apply lookup_app_Some in Hy as [Hy|[Hle Hy]].
  - pose proof (lookup_lt_Some _ _ _ Hy). rewrite list_lookup_insert_ne; [by apply Hc|].
    rewrite Htail. ring_lia.
  - apply list_lookup_singleton_Some in Hy as [Hi0 <-].
    replace (Z.of_nat i) with (Z.of_nat (length items)) by lia. rewrite <-Htail.
    apply list_lookup_insert_eq. lia.
Qed.

Lemma expand_ring_spec q items :
  QUEUESIZE ≤ cap q ≤ 2 ^ 30 → zlen (ring q) = cap q → 0 ≤ head q < cap q →
  zlen items = cap q →
  (∀ i x, items !! i = Some x →
     ring q !! Z.to_nat ((head q + Z.of_nat i) mod cap q) = Some (Some x)) →
  ∃ q', expand_queue q = Ret q' ∧ ring_holds q' items ∧ hash q' = hash q.
Proof.
  intros Hcap Hl Hh Hn Hc. unfold QUEUESIZE in Hcap. unfold expand_queue.
  rewrite cint_in by (unfold INT_MIN, INT_MAX, QUEUESIZE; lia). bsimpl.
  destruct (for_loop_inv
    (λ j nq, zlen nq = cap q + QUEUESIZE ∧
       ∀ k x, Z.of_nat k < j → items !! k = Some x → nq !! k = Some (Some x))
    (λ i nq, s ← cint (head q + i); x ← aget (ring q) (s mod cap q); aset nq i x)
    (Z.to_nat (cap q)) 0 (replicate (Z.to_nat (cap q + QUEUESIZE)) None))
    as (nq & -> & Hlen & Hnq).
  - unfold QUEUESIZE, zlen. rewrite length_replicate. split; [lia|]. lia.
  - intros j nq Hj [Hlen Hnq]. rewrite cint_in by (unfold INT_MIN, INT_MAX; lia). bsimpl.
    assert (Hx : ∃ x, items !! Z.to_nat j = Some x).
    { apply lookup_lt_is_Some_2. unfold zlen in Hn. lia. }
    destruct Hx as [x Hx]. pose proof (Hc _ _ Hx) as Hr. rewrite Z2Nat.id in Hr by lia.
    pose proof (Z.mod_pos_bound (head q + j) (cap q)).
    rewrite (proj2 (aget_Ret (ring q) _ (Some x))) by (split; [lia|done]). bsimpl.
    unfold QUEUESIZE in *. rewrite aset_in by lia. eexists. split; [done|].
    rewrite zlen_insert. split; [done|]. intros k y Hk Hy.
    destruct (decide (Z.of_nat k = j)) as [<-|Hne].
    + rewrite Nat2Z.id in *. rewrite list_lookup_insert_eq by (unfold zlen in Hlen; lia). congruence.
    + rewrite list_lookup_insert_ne by lia. apply Hnq; [lia|done].
  - bsimpl. eexists. split; [done|]. split; [|done]. unfold QUEUESIZE in *. split; cbn.
    + unfold QUEUESIZE, INT_MAX. lia.
    + lia.
    + lia.
    + lia.
    + rewrite Z.mod_small by lia. lia.
    + intros i x Hx. pose proof (lookup_lt_Some _ _ _ Hx) as Hi. unfold zlen in Hn.
      rewrite Z.mod_small by lia. rewrite Z.add_0_l, Nat2Z.id. apply Hnq; [lia|done].
Qed.

(** A queue with another ring stands for other complete packages. *)
Lemma rep_ring_change q q' pend ready ready' :
  rep q pend ready → hash q' = hash q → ring_holds q' (pack_of <$> ready') →
  rep q' pend ready'.
Proof.
  intros [H1 H2 H3 H4] Hh Hr. split; [by rewrite Hh|by rewrite Hh| |done].
  unfold waiting. rewrite Hh. exact H3.
Qed.

Lemma push_data_spec L pend ready fd p :
  rep (get_queue L) pend ready → zlen ready < 2 ^ 30 →
  ∃ L', push_data L fd (Some (Some <$> p)) (zlen p) = Ret L' ∧
    rep (get_queue L') pend (ready ++ [(fd, p)]).
Proof.
  intros Hr Hn. unfold push_data. set (q := get_queue L) in *.
  pose proof (rep_ring _ _ _ Hr) as Hring. pose proof (ring_tail_lt _ _ Hring) as Ht.
  pose proof (ring_store _ _ (pack_of (fd, p)) Hring) as Hst.
  assert (Hz : zlen (pack_of <$> ready) = zlen ready) by (unfold zlen; by rewrite length_fmap).
  destruct Hring as [[Hq Hi] Hl Hh Hroom Htail Hc]. rewrite Hz in *. pose proof (zlen_nonneg ready).
  rewrite aset_in by lia. bsimpl. unfold QUEUESIZE in Hq.
  rewrite cint_in by (unfold INT_MAX, INT_MIN in *; lia). bsimpl.
  set (t' := if cap q <=? tail q + 1 then tail q + 1 - cap q else tail q + 1).
  assert (Ht' : t' = (head q + (zlen ready + 1)) mod cap q).
  { unfold t'. ring_lia. }
  assert (Happ : (pack_of <$> ready) ++ [pack_of (fd, p)] = pack_of <$> ready ++ [(fd, p)])
    by by rewrite fmap_app.
  rewrite Happ in Hst.
  assert (Hz' : zlen (pack_of <$> ready ++ [(fd, p)]) = zlen ready + 1).
  { unfold zlen. rewrite length_fmap, length_app. cbn. lia. }
  destruct (Z.eqb_spec (head q) t') as [Heq|Hne].
  - assert (Hfull : zlen ready + 1 = cap q) by (rewrite Ht' in Heq; ring_lia).
    destruct (expand_ring_spec
      (MkQueue (cap q) (head q) t' (hash q)
         (<[Z.to_nat (tail q) := Some (pack_of (fd, p))]> (ring q)))
      (pack_of <$> ready ++ [(fd, p)])) as (q' & He & Hr' & Hh'); cbn in *.
    + unfold QUEUESIZE. lia.
    + by rewrite zlen_insert.
    + done.
    + lia.
    + done.
    + change (MkPack fd (zlen p) (Some (Some <$> p))) with (pack_of (fd, p)).
      rewrite He. eexists. split; [done|]. by apply rep_ring_change with q ready.
  - eexists. split; [done|]. apply rep_ring_change with q ready; [done|done|]. split; cbn.
    + done.
    + by rewrite zlen_insert.
    + done.
    + rewrite Hz'. destruct (decide (zlen ready + 1 = cap q)) as [Hfull|]; [|lia].
      destruct Hne. rewrite Ht', Hfull. ring_lia.
    + by rewrite Hz'.
    + done.
Qed.

(** [pop] takes the oldest package. *)
Lemma lpop_spec L pend ready :
  rep (get_queue L) pend ready →
  match ready with
  | [] => lpop L = Ret (None, L)
  | x :: ready' => ∃ L', lpop L = Ret (Some (pack_of x), L') ∧ rep (get_queue L') pend ready'
  end.
Proof.
  intros Hr. destruct L as [q|]; cbn [get_queue] in *.
  - pose proof (rep_ring _ _ _ Hr) as [[Hq Hi] Hl Hh Hroom Htail Hc].
    assert (Hz : zlen (pack_of <$> ready) = zlen ready) by (unfold zlen; by rewrite length_fmap).
    rewrite Hz in *. unfold QUEUESIZE in Hq. unfold lpop.
    destruct ready as [|x ready].
    + rewrite Htail. change (zlen []) with 0. rewrite Z.add_0_r, Z.mod_small by lia.
      by rewrite Z.eqb_refl.
    + rewrite zlen_cons in *. pose proof (zlen_nonneg ready).
      rewrite (proj2 (Z.eqb_neq _ _)) by (rewrite Htail; ring_lia).
      pose proof (Hc 0%nat (pack_of x) eq_refl) as H0. rewrite Z.add_0_r, Z.mod_small in H0 by lia.
      rewrite (proj2 (aget_Ret (ring q) _ (Some (pack_of x)))) by (split; [lia|done]). bsimpl.
      rewrite cint_in by (unfold INT_MAX, INT_MIN in *; lia). bsimpl.
      eexists. split; [done|]. apply rep_ring_change with q (x :: ready); [done|done|].
      assert (Hz' : zlen (pack_of <$> ready) = zlen ready) by (unfold zlen; by rewrite length_fmap).
      split; cbn; rewrite ?Hz'; [done|done| |lia| |].
      * destruct (Z.leb_spec (cap q) (head q + 1)); lia.
      * rewrite Htail. destruct (Z.leb_spec (cap q) (head q + 1)); ring_lia.
      * intros i y Hy. specialize (Hc (S i) y Hy). rewrite <-Hc. f_equal. f_equal.
        pose proof (lookup_lt_Some _ _ _ Hy) as Hlt. rewrite length_fmap in Hlt. unfold zlen in *.
        destruct (Z.leb_spec (cap q) (head q + 1)); ring_lia.
  - destruct ready as [|x ready]; [done|].
    pose proof (rep_ring _ _ _ Hr) as [_ _ _ _ Htail Hc]. cbn in Htail.
    pose proof (rh_room _ _ (rep_ring _ _ _ Hr)) as Hroom.
    specialize (Hc 0%nat (pack_of x) eq_refl). cbn in Hc.
    by apply lookup_replicate in Hc as [? _].
Qed.

(** ** Cutting refines the reference *)

(** A block whose first bytes are [bs] and whose other [m] bytes are not written. *)
Definition part (bs : list Z) (m : Z) : block := (Some <$> bs) ++ replicate (Z.to_nat m) None.

Lemma malloc_part n : malloc n = part [] n.
Proof. done. Qed.

Lemma part_full bs : part bs 0 = Some <$> bs.
Proof. unfold part. apply app_nil_r. Qed.

Lemma mread_app pre (s : list Z) k :
  0 ≤ k ≤ zlen s → mread (pre ++ s) (zlen pre) k = Ret (take (Z.to_nat k) s).
Proof.
  intros Hk. pose proof (zlen_nonneg pre). rewrite mread_in by (rewrite ?zlen_app; lia).
  do 2 f_equal. apply drop_app_length'. unfold zlen. lia.
Qed.

Lemma copy_part bs m pre s k :
  0 ≤ k ≤ zlen s → k ≤ m →
  copy_bytes (Some (part bs m)) (zlen bs) (pre ++ s) (zlen pre) k =
  Ret (Some (part (bs ++ take (Z.to_nat k) s) (m - k))).
Proof.
  intros Hk Hm. unfold copy_bytes. rewrite mread_app by done. bsimpl.
  pose proof (zlen_nonneg bs). unfold mwrite, part.
  assert (Hz : zlen (Some <$> take (Z.to_nat k) s) = k).
  { unfold zlen in *. rewrite length_fmap, length_take. lia. }
  assert (Hb : length (Some <$> bs) = Z.to_nat (zlen bs)).
  { rewrite length_fmap. unfold zlen. lia. }
  rewrite Hz, !(proj2 (Z.leb_le _ _)).
  2:{ rewrite zlen_app. unfold zlen. rewrite length_fmap, length_replicate. lia. }
  2:{ done. }
  cbn. do 2 f_equal. rewrite take_app_length', fmap_app, <-app_assoc by done. f_equal. f_equal.
  rewrite drop_app_ge by lia. rewrite Hb, drop_replicate. f_equal. lia.
Qed.

Lemma read_size_at pre b0 b1 t :
  is_byte b1 → read_size (pre ++ b0 :: b1 :: t) (zlen pre) = Ret (b0 * 256 + b1).
Proof.
  intros Hb. unfold read_size, zlen.
  rewrite (proj2 (aget_Ret _ (Z.of_nat (length pre)) b0)).
  2:{ split; [lia|]. rewrite Nat2Z.id. by apply list_lookup_middle. }
  bsimpl. rewrite (proj2 (aget_Ret _ (Z.of_nat (length pre) + 1) b1)).
  2:{ split; [lia|]. rewrite lookup_app_r by lia.
      by replace (_ - _)%nat with 1%nat by lia. }
  bsimpl. rewrite (lor_shiftl_l b1 b0 8) by (unfold is_byte in Hb; lia). f_equal. lia.
Qed.

Section descriptor.
Context (fd : Z) (Hfd : fd_ok fd).
Implicit Types (L : option queue) (pend : gmap Z (list Z)) (ready : list (Z * list Z)).

Lemma save_header_spec L pend ready pre b :
  rep (get_queue L) pend ready → pend !! fd = None → is_byte b →
  ∃ L', save_header L fd (pre ++ [b]) (zlen pre) = Ret L' ∧
    rep (get_queue L') (<[fd := [b]]> pend) ready.
Proof.
  intros Hr Hp Hb. unfold save_header, save_uncomplete.
  rewrite (proj2 (aget_Ret _ (zlen pre) b)).
  2:{ unfold zlen. split; [lia|]. rewrite Nat2Z.id. by apply list_lookup_middle. }
  bsimpl. cbn [pack]. destruct (link_uncomplete_spec (get_queue L) pend ready fd
    (MkUncomplete (MkPack fd 0 None) (-1) b) [b]) as (q' & -> & Hr'); try done.
  - left. by exists b.
  - by exists (Some q').
Qed.

Lemma save_part_spec L pend ready pre b0 b1 t :
  rep (get_queue L) pend ready → pend !! fd = None → is_byte b0 → is_byte b1 →
  zlen t < b0 * 256 + b1 →
  ∃ L', save_part L fd (pre ++ t) (zlen pre) (zlen t) (b0 * 256 + b1) = Ret L' ∧
    rep (get_queue L') (<[fd := b0 :: b1 :: t]> pend) ready.
Proof.
  intros Hr Hp Hb0 Hb1 Ht. unfold save_part, save_uncomplete. pose proof (zlen_nonneg t).
  rewrite malloc_part. change 0 with (zlen (@nil Z)). rewrite copy_part by lia. bsimpl.
  replace (Z.to_nat (zlen t)) with (length t) by (unfold zlen; lia). rewrite take_ge by lia.
  destruct (link_uncomplete_spec (get_queue L) pend ready fd
    (MkUncomplete (MkPack fd (b0 * 256 + b1) (Some (part t (b0 * 256 + b1 - zlen t)))) (zlen t) 0)
    (b0 :: b1 :: t)) as (q' & Hl & Hr'); try done.
  - right. by exists b0, b1, t.
  - cbn [app pack id header]. change (zlen []) with 0. rewrite Hl. by exists (Some q').
Qed.

Lemma push_clone_spec L pend ready pre s k :
  rep (get_queue L) pend ready → zlen ready < 2 ^ 30 → 0 ≤ k ≤ zlen s →
  ∃ L', push_clone L fd (pre ++ s) (zlen pre) k = Ret L' ∧
    rep (get_queue L') pend (ready ++ [(fd, take (Z.to_nat k) s)]).
Proof.
  intros Hr Hn Hk. unfold push_clone. rewrite malloc_part. change 0 with (zlen (@nil Z)).
  rewrite copy_part by lia. bsimpl. rewrite Z.sub_diag. cbn [app]. rewrite part_full.
  destruct (push_data_spec L pend ready fd (take (Z.to_nat k) s)) as (L' & Hpd & Hr'); [done..|].
  replace (zlen (take (Z.to_nat k) s)) with k in Hpd
    by (unfold zlen in *; rewrite length_take; lia).
  by exists L'.
Qed.

Lemma put_None s pend : pend !! fd = None → s ≠ [] → put fd s pend = <[fd := s]> pend.
Proof. by destruct s. Qed.

Lemma push_more_spec fuel L pend ready pre s :
  rep (get_queue L) pend ready → pend !! fd = None → bytes s → s ≠ [] →
  zlen ready + zlen s ≤ 2 ^ 30 → (length s ≤ fuel)%nat →
  ∃ L', push_more fuel L fd (pre ++ s) (zlen pre) (zlen s) = Ret L' ∧
    rep (get_queue L') (put fd (cut s).2 pend) (ready ++ (pair fd <$> (cut s).1)).
Proof.
  revert L ready pre s. induction fuel as [|fuel IH]; intros L ready pre s Hr Hp Hb Hs Hn Hf.
  { destruct s; [done|cbn in Hf; lia]. }
  destruct s as [|b0 [|b1 t]]; [done| |].
  - apply Forall_cons in Hb as [Hb0 _]. cbn [push_more]. rewrite cut_one. cbn [fst snd fmap].
    change (zlen [b0] =? 1) with true. cbn [list_fmap]. rewrite app_nil_r.
    by apply save_header_spec.
  - apply Forall_cons in Hb as [Hb0 Hb]. apply Forall_cons in Hb as [Hb1 Ht].
    cbn [push_more]. rewrite !zlen_cons in *. pose proof (zlen_nonneg t).
    rewrite (proj2 (Z.eqb_neq _ _)) by lia. rewrite read_size_at by done. bsimpl.
    replace (1 + (1 + zlen t) - 2) with (zlen t) by lia.
    replace (pre ++ b0 :: b1 :: t) with ((pre ++ [b0; b1]) ++ t) by (by rewrite <-app_assoc).
    replace (zlen pre + 2) with (zlen (pre ++ [b0; b1])) by (by rewrite zlen_app).
    destruct (Z.ltb_spec (zlen t) (b0 * 256 + b1)) as [Hlt|Hge].
    + rewrite cut_short by done. cbn [fst snd fmap list_fmap]. rewrite app_nil_r.
      by apply save_part_spec.
    + unfold is_byte in Hb0, Hb1. rewrite cut_cons by done.
      destruct (push_clone_spec L pend ready (pre ++ [b0; b1]) t (b0 * 256 + b1))
        as (L' & Hpc & Hr'); [done|lia|lia|]. rewrite Hpc. bsimpl.
      set (n := b0 * 256 + b1) in *. set (t' := drop (Z.to_nat n) t).
      assert (Ht' : zlen t - n = zlen t').
      { unfold t', zlen in *. rewrite length_drop. lia. }
      rewrite Ht'. destruct (Z.ltb_spec 0 (zlen t')) as [Hpos|Hz].
      * destruct (IH L' (ready ++ [(fd, take (Z.to_nat n) t)])
          ((pre ++ [b0; b1]) ++ take (Z.to_nat n) t) t') as (L'' & Hpm & Hr''); try done.
        -- by apply Forall_drop.
        -- intros ->. done.
        -- rewrite zlen_app. change (zlen [_]) with 1. unfold t', zlen in *. rewrite length_drop. lia.
        -- unfold t'. rewrite length_drop. cbn in Hf. lia.
        -- exists L''. rewrite <-(app_assoc _ (take _ _)) in Hpm. unfold t' in Hpm at 1.
           rewrite take_drop in Hpm. rewrite (zlen_app (pre ++ _)) in Hpm.
           replace (zlen (take (Z.to_nat n) t)) with n in Hpm
             by (unfold zlen in *; rewrite length_take; lia).
           rewrite Hpm. split; [done|]. destruct (cut t') as [ps r]. cbn in *.
           by rewrite <-app_assoc in Hr''.
      * exists L'. split; [done|].
        assert (t' = []) as -> by (apply length_zero_iff_nil; unfold zlen in *; lia).
        rewrite cut_nil. cbn. by rewrite delete_id.
Qed.
End descriptor.

(** What [filter] returns for the packages [ps] and the rest [r] that the data
    of [fd] makes, and which packages it leaves in the queue. *)
Definition answer (fd : Z) (ps : list (list Z)) (r : list Z) : filter_result :=
  match ps, r with
  | [], _ => RNone
  | [p], [] => RData fd (Some (Some <$> p)) (zlen p)
  | _, _ => RMore
  end.

Definition queued (ps : list (list Z)) (r : list Z) : list (list Z) :=
  match ps, r with
  | [p], [] => []
  | _, _ => ps
  end.

Lemma cut_nonempty s : s ≠ [] → (cut s).1 ≠ [] ∨ (cut s).2 ≠ [].
Proof.
  destruct s as [|b0 [|b1 t]]; intros Hs; [done|by right|].
  destruct (Z.le_gt_cases (b0 * 256 + b1) (zlen t)).
  - left. rewrite cut_cons by done. by destruct (cut _).
  - right. by rewrite cut_short by lia.
Qed.

(** A package that is followed by more data. *)
Lemma answer_more fd p s :
  s ≠ [] → answer fd (p :: (cut s).1) (cut s).2 = RMore ∧
    queued (p :: (cut s).1) (cut s).2 = p :: (cut s).1.
Proof.
  intros Hs. pose proof (cut_nonempty s Hs). destruct (cut s) as [[|p' ps] [|b r]]; naive_solver.
Qed.

Section descriptor.
Context (fd : Z) (Hfd : fd_ok fd).
Implicit Types (L : option queue) (pend : gmap Z (list Z)) (ready : list (Z * list Z)).

(** After the first [n] bytes of [t] complete a package, the rest is cut. *)
Lemma more_spec L pend ready p pre t :
  rep (get_queue L) pend (ready ++ [(fd, p)]) → pend !! fd = None → bytes t → t ≠ [] →
  zlen ready + zlen t < 2 ^ 30 →
  ∃ L', push_more (S (Z.to_nat (zlen t))) L fd (pre ++ t) (zlen pre) (zlen t) = Ret L' ∧
    rep (get_queue L') (put fd (cut t).2 pend)
      (ready ++ (pair fd <$> queued (p :: (cut t).1) (cut t).2)).
Proof.
  intros Hr Hp Hb Ht Hn.
  destruct (push_more_spec fd Hfd (S (Z.to_nat (zlen t))) L pend (ready ++ [(fd, p)]) pre t)
    as (L' & Hpm & Hr'); try done.
  - rewrite zlen_app. change (zlen [_]) with 1. lia.
  - unfold zlen. lia.
  - exists L'. split; [done|]. destruct (answer_more fd p t Ht) as [_ ->].
    by rewrite <-app_assoc in Hr'.
Qed.

Lemma fill_uncomplete_spec L pend ready uc b0 b1 bs pre t :
  rep (get_queue L) pend ready → is_Some L → pend !! fd = None →
  is_byte b0 → is_byte b1 → bytes t →
  id (pack uc) = fd → size (pack uc) = b0 * 256 + b1 → read uc = zlen bs →
  zlen bs ≤ b0 * 256 + b1 → buffer (pack uc) = Some (part bs (b0 * 256 + b1 - zlen bs)) →
  zlen ready + zlen t < 2 ^ 30 →
  let '(ps, r) := cut (b0 :: b1 :: bs ++ t) in
  ∃ L', fill_uncomplete L fd uc (pre ++ t) (zlen pre) (zlen t) = Ret (L', answer fd ps r) ∧
    rep (get_queue L') (put fd r pend) (ready ++ (pair fd <$> queued ps r)).
Proof.
  intros Hr [q ->] Hp Hb0 Hb1 Ht Hid Hsz Hrd Hle Hbuf Hn. unfold fill_uncomplete.
  rewrite Hsz, Hrd, Hbuf. pose proof (zlen_nonneg bs). pose proof (zlen_nonneg t).
  unfold is_byte in Hb0, Hb1. set (n := b0 * 256 + b1) in *.
  rewrite cint_in by (unfold INT_MIN, INT_MAX; lia). bsimpl.
  destruct (Z.ltb_spec (zlen t) (n - zlen bs)) as [Hlt|Hge].
  - rewrite cut_short by (rewrite zlen_app; lia). rewrite copy_part by lia. bsimpl.
    replace (Z.to_nat (zlen t)) with (length t) by (unfold zlen; lia). rewrite take_ge by lia.
    rewrite Hid. cbn [answer queued fmap list_fmap]. rewrite app_nil_r.
    destruct (link_uncomplete_spec q pend ready fd
      (MkUncomplete (MkPack fd n (Some (part (bs ++ t) (n - zlen bs - zlen t))))
         (zlen bs + zlen t) (header uc)) (b0 :: b1 :: bs ++ t)) as (q' & Hl & Hr'); try done.
    + right. exists b0, b1, (bs ++ t). rewrite zlen_app. split_and!; try done; [cbn; lia|].
      cbn. unfold part. do 3 f_equal. unfold n. lia.
    + rewrite Hl. by exists (Some q').
  - set (m := n - zlen bs) in *. set (t1 := take (Z.to_nat m) t). set (t2 := drop (Z.to_nat m) t).
    assert (Hz1 : zlen t1 = m) by (unfold t1, zlen in *; rewrite length_take; lia).
    assert (Hz2 : zlen t2 = zlen t - m) by (unfold t2, zlen in *; rewrite length_drop; lia).
    rewrite cut_cons by (fold n; rewrite zlen_app; lia). fold n.
    rewrite drop_app_ge, take_app_ge by (unfold zlen in *; lia).
    replace (Z.to_nat n - length bs)%nat with (Z.to_nat m) by (unfold m, zlen in *; lia).
    fold t1 t2. rewrite copy_part by lia. bsimpl. fold t1. rewrite Z.sub_diag, part_full.
    replace (zlen t - m) with (zlen t2) by lia.
    assert (Hn' : n = zlen (bs ++ t1)) by (rewrite zlen_app; lia).
    rewrite Hn'. destruct (Z.eqb_spec (zlen t2) 0) as [Hz|Hnz].
    + assert (t2 = []) as -> by (apply length_zero_iff_nil; unfold zlen in *; lia).
      rewrite cut_nil. exists (Some q). split; [done|]. cbn. by rewrite app_nil_r, delete_id.
    + destruct (push_data_spec (Some q) pend ready fd (bs ++ t1)) as (L1 & Hpd & Hr1);
        [done|lia|]. rewrite Hpd. bsimpl.
      assert (Hne : t2 ≠ []) by (intros E; rewrite E in Hnz; done).
      destruct (more_spec L1 pend ready (bs ++ t1) (pre ++ t1) t2) as (L2 & Hpm & Hr2);
        [done|done|by apply Forall_drop|done|lia|].
      assert (Hsrc : (pre ++ t1) ++ t2 = pre ++ t)
        by (rewrite <-app_assoc; unfold t1, t2; by rewrite take_drop).
      rewrite Hsrc, zlen_app, Hz1 in Hpm. rewrite Hpm.
      destruct (answer_more fd (bs ++ t1) t2 Hne) as [Ha _].
      destruct (cut t2) as [ps r]. cbn [fst snd] in *. rewrite Ha. by exists L2.
Qed.
End descriptor.

Lemma push_more_mono n m L fd src off sz L' :
  push_more n L fd src off sz = Ret L' → push_more (n + m) L fd src off sz = Ret L'.
Proof.
  revert L off sz. induction n as [|n IH]; intros L off sz; [done|]. cbn [push_more Nat.add].
  destruct (sz =? 1); [done|]. destruct (read_size src off) as [k| | | |]; bsimpl; try done.
  destruct (sz - 2 <? k); [done|].
  destruct (push_clone L fd src (off + 2) k) as [L1| | | |]; bsimpl; try done.
  destruct (0 <? sz - 2 - k); [apply IH|done].
Qed.

Lemma start_body_spec uc b0 b1 t :
  holds uc [b0] → is_byte b1 →
  start_body uc (b1 :: t) =
  Ret (MkUncomplete (MkPack (id (pack uc)) (b0 * 256 + b1) (Some (part [] (b0 * 256 + b1)))) 0 b0).
Proof.
  intros [(b & [= <-] & Hb & Hrd & Hhd & _ & _)|(? & ? & ? & ? & _)] Hb1; [|done].
  unfold start_body. rewrite Hrd, Hhd. change (-1 =? -1) with true. cbn [assert_true]. bsimpl.
  rewrite (proj2 (aget_Ret (b1 :: t) 0 b1)) by done. bsimpl.
  rewrite lor_shiftl by (unfold is_byte in *; lia). rewrite malloc_part.
  by replace (b1 + b0 * 2 ^ 8) with (b0 * 256 + b1) by lia.
Qed.

Lemma filter_data_spec L pend ready fd src :
  rep (get_queue L) pend ready → fd_ok fd → bytes src → src ≠ [] →
  zlen ready + zlen src < 2 ^ 30 →
  let '(ps, r) := cut (pending pend fd ++ src) in
  ∃ L', filter_data L fd src (zlen src) = Ret (L', answer fd ps r) ∧
    rep (get_queue L') (put fd r pend) (ready ++ (pair fd <$> queued ps r)).
Proof.
  intros Hr Hfd Hb Hne Hn. unfold filter_data, filter_data_, pending.
  destruct (find_uncomplete_spec L pend ready fd Hr Hfd) as (o & L0 & -> & Hr0 & Ho). bsimpl.
  destruct o as [uc|], (pend !! fd) as [s0|] eqn:Hp; try done.
  - destruct Ho as (Hh & Hid & HL). change (default [] (Some s0)) with s0.
    assert (Hput : ∀ r, put fd r (delete fd pend) = put fd r pend).
    { intros [|b r]; cbn; [by rewrite delete_delete_eq|by rewrite insert_delete_eq]. }
    assert (Hd : delete fd pend !! fd = None) by apply lookup_delete_eq.
    pose proof Hh as [(b & -> & Hb0 & Hrd & _)|(b0 & b1 & bs & -> & Hb0 & Hb1 & Hsz & Hrd & Hlt & Hbuf)].
    + rewrite Hrd. change (-1 <? 0) with true. cbn iota. destruct src as [|b1 t]; [done|].
      apply Forall_cons in Hb as [Hb1 Ht]. rewrite (start_body_spec uc b b1 t Hh Hb1). bsimpl.
      rewrite zlen_cons in *. replace (1 + zlen t - 1) with (zlen t) by lia.
      unfold is_byte in Hb0, Hb1.
      pose proof (fill_uncomplete_spec fd Hfd L0 (delete fd pend) ready
        (MkUncomplete (MkPack (id (pack uc)) (b * 256 + b1) (Some (part [] (b * 256 + b1)))) 0 b)
        b b1 [] [b1] t) as Hfill. cbn [app] in *.
      destruct (cut (b :: b1 :: t)) as [ps r]. rewrite Hput in Hfill.
      apply Hfill; try done; cbn; rewrite ?Z.sub_0_r; try done; change (zlen []) with 0; lia.
    + rewrite Hrd. pose proof (zlen_nonneg bs). rewrite (proj2 (Z.ltb_ge _ _)) by lia.
      pose proof (fill_uncomplete_spec fd Hfd L0 (delete fd pend) ready uc b0 b1 bs [] src) as Hfill.
      cbn [app] in *. destruct (cut (b0 :: b1 :: bs ++ src)) as [ps r]. rewrite Hput in Hfill.
      apply Hfill; try done; lia.
  - subst L0. rewrite delete_id in Hr0 by done. change (default [] None ++ src) with src.
    destruct src as [|b0 [|b1 t]]; [done| |].
    + change (zlen [b0] =? 1) with true. cbn iota. rewrite cut_one.
      apply Forall_cons in Hb as [Hb0 _].
      destruct (save_header_spec fd Hfd L pend ready [] b0 Hr0 Hp Hb0) as (L' & Hs & Hr').
      cbn [app] in Hs. change (zlen []) with 0 in Hs. rewrite Hs. exists L'. split; [done|]. cbn.
      by rewrite app_nil_r.
    + apply Forall_cons in Hb as [Hb0 Hb]. apply Forall_cons in Hb as [Hb1 Ht].
      rewrite !zlen_cons in *. pose proof (zlen_nonneg t).
      rewrite (proj2 (Z.eqb_neq _ _)) by lia.
      pose proof (read_size_at [] b0 b1 t Hb1) as Hrs. cbn [app] in Hrs.
      change (zlen []) with 0 in Hrs. rewrite Hrs. bsimpl.
      replace (1 + (1 + zlen t) - 2) with (zlen t) by lia.
      unfold is_byte in Hb0, Hb1. set (n := b0 * 256 + b1) in *.
      change (b0 :: b1 :: t) with ([b0; b1] ++ t). change 2 with (zlen [b0; b1]).
      destruct (Z.ltb_spec (zlen t) n) as [Hlt|Hge]; [|destruct (Z.eqb_spec (zlen t) n) as [Heq|Hneq]].
      * cbn [app]. rewrite cut_short by done.
        destruct (save_part_spec fd Hfd L pend ready [b0; b1] b0 b1 t Hr0 Hp Hb0 Hb1 Hlt)
          as (L' & Hs & Hr'). fold n in Hs. cbn [app] in Hs. rewrite Hs. exists L'.
        split; [done|]. cbn. by rewrite app_nil_r.
      * rewrite malloc_part. change 0 with (zlen (@nil Z)). rewrite copy_part by lia. bsimpl.
        cbn [app]. rewrite cut_cons by (fold n; lia). fold n.
        rewrite Heq, Z.sub_diag, part_full, take_ge, drop_ge by (unfold zlen in *; lia).
        rewrite cut_nil. exists L. cbn. rewrite Heq. split; [done|].
        by rewrite app_nil_r, delete_id.
      * cbn [app]. rewrite cut_cons by (fold n; lia). fold n.
        set (t1 := take (Z.to_nat n) t). set (t2 := drop (Z.to_nat n) t).
        assert (Hz1 : zlen t1 = n) by (unfold t1, zlen in *; rewrite length_take; lia).
        assert (Hz2 : zlen t2 = zlen t - n) by (unfold t2, zlen in *; rewrite length_drop; lia).
        destruct (push_clone_spec fd L pend ready [b0; b1] t n)
          as (L1 & Hpc & Hr1); [done|lia|lia|]. cbn [app] in Hpc. rewrite Hpc. bsimpl.
        assert (Hne2 : t2 ≠ []) by (intros E; rewrite E in Hz2; change (zlen []) with 0 in Hz2; lia).
        replace (S (Z.to_nat (zlen t))) with (S (Z.to_nat (zlen t2)) + Z.to_nat n)%nat by lia.
        destruct (more_spec fd Hfd L1 pend ready t1 ([b0; b1] ++ t1) t2)
          as (L2 & Hpm & Hr2); [done|done|by apply Forall_drop|done|lia|].
        assert (Hsrc : ([b0; b1] ++ t1) ++ t2 = b0 :: b1 :: t)
          by (rewrite <-app_assoc; unfold t1, t2; by rewrite take_drop).
        rewrite Hsrc, zlen_app, Hz1 in Hpm. rewrite <-Hz2.
        rewrite (push_more_mono _ _ _ _ _ _ _ _ Hpm). bsimpl.
        destruct (answer_more fd t1 t2 Hne2) as [Ha _].
        destruct (cut t2) as [ps r]. cbn [fst snd] in *. rewrite Ha. by exists L2.
Qed.

(** The message the socket thread sends for data of [fd]. *)
Definition data_message (fd : Z) (src : list Z) : fengnet_socket_message :=
  MkSocketMessage FENGNET_SOCKET_TYPE_DATA fd (zlen src) (Some src) [].

Lemma pending_put fd r pend fd' :
  pending (put fd r pend) fd' = if decide (fd' = fd) then r else pending pend fd'.
Proof.
  unfold pending. destruct (decide (fd' = fd)) as [->|Hne]; destruct r as [|b r]; cbn.
  - by rewrite lookup_delete_eq.
  - by rewrite lookup_insert_eq.
  - by rewrite lookup_delete_ne.
  - by rewrite lookup_insert_ne.
Qed.

(** Data of a connection is appended to what waits for it and cut: the
    packages that are complete come out in order, the rest waits, and the data
    of other connections and the packages in the queue are untouched. [filter]
    returns a single package directly, and otherwise leaves all in the queue. *)
Theorem lfilter_data_refines L pend ready fd src sz :
  rep (get_queue L) pend ready → fd_ok fd → bytes src → src ≠ [] →
  zlen ready + zlen src < 2 ^ 30 →
  let '(ps, r) := cut (pending pend fd ++ src) in
  ∃ L', lfilter L (data_message fd src) sz = Ret (L', answer fd ps r) ∧
    rep (get_queue L') (put fd r pend) (ready ++ (pair fd <$> queued ps r)) ∧
    pending (put fd r pend) fd = r ∧
    ∀ fd', fd' ≠ fd → pending (put fd r pend) fd' = pending pend fd'.
Proof.
  intros Hr Hfd Hb Hne Hn. pose proof (filter_data_spec L pend ready fd src Hr Hfd Hb Hne Hn) as H.
  destruct (cut _) as [ps r]. destruct H as (L' & Hf & Hr'). exists L'. split_and!; [exact Hf|done| |].
  - rewrite pending_put. by destruct (decide (fd = fd)).
  - intros fd' Hne'. rewrite pending_put. by destruct (decide (fd' = fd)).
Qed.

Lemma lfilter_data_refines_witness :
  fd_ok 7 ∧ ∃ L', lfilter None (data_message 7 [0; 2; 65; 66; 0]) 0 = Ret (L', RMore) ∧
    rep (get_queue L') {[ 7 := [0] ]} [(7, [65; 66])].
Proof.
  assert (H7 : fd_ok 7) by by vm_compute. split; [exact H7|].
  pose proof (lfilter_data_refines None ∅ [] 7 [0; 2; 65; 66; 0] 0 empty_queue_rep H7) as H.
  destruct H as (L' & Hf & Hr & _).
  - by repeat constructor.
  - done.
  - done.
  - exists L'. split; [exact Hf|exact Hr].
Defined.

(** *** Messages that carry no data *)

(** Closing or breaking a connection drops its incomplete package and
    nothing else; the other socket messages leave the queue as it is. *)
Theorem lfilter_events L pend ready fd ud msg :
  rep (get_queue L) pend ready → fd_ok fd → zlen msg < 2 ^ 31 →
  let event ty := lfilter L (MkSocketMessage ty fd ud None msg) (zlen msg + SIZEOF_SOCKET_MESSAGE) in
  (∃ L', event FENGNET_SOCKET_TYPE_CLOSE = Ret (L', RClose fd) ∧
     event FENGNET_SOCKET_TYPE_ERROR = Ret (L', RError fd msg) ∧
     rep (get_queue L') (delete fd pend) ready) ∧
  event FENGNET_SOCKET_TYPE_ACCEPT = Ret (L, ROpen ud msg) ∧
  event FENGNET_SOCKET_TYPE_CONNECT = Ret (L, RInit fd msg ud) ∧
  event FENGNET_SOCKET_TYPE_WARNING = Ret (L, RWarning fd ud).
Proof.
  intros Hr Hfd Hm event. pose proof (zlen_nonneg msg).
  assert (Hs : pushstring msg (zlen msg) = Ret msg).
  { unfold pushstring, u64. rewrite Z.mod_small by lia. by apply mread_at; [|lia|intros k b]. }
  destruct (find_uncomplete_spec L pend ready fd Hr Hfd) as (o & L' & Hf & Hr' & _).
  unfold event, lfilter. cbn [m_buffer m_type m_padding m_id m_ud].
  rewrite Z.add_simpl_r. cbn [Z.eqb Pos.eqb FENGNET_SOCKET_TYPE_DATA FENGNET_SOCKET_TYPE_CONNECT
    FENGNET_SOCKET_TYPE_CLOSE FENGNET_SOCKET_TYPE_ACCEPT FENGNET_SOCKET_TYPE_ERROR
    FENGNET_SOCKET_TYPE_WARNING]. unfold close_uncomplete. rewrite Hs, Hf. bsimpl.
  split_and!; [by exists L'|done..].
Qed.

Lemma lfilter_events_witness :
  ∃ L0 L1, lfilter None (data_message 7 [0; 2; 65]) 0 = Ret (L0, RNone) ∧
    rep (get_queue L0) {[ 7 := [0; 2; 65] ]} [] ∧
    lfilter L0 (MkSocketMessage FENGNET_SOCKET_TYPE_CLOSE 7 0 None []) 24 = Ret (L1, RClose 7) ∧
    rep (get_queue L1) ∅ [].
Proof.
  assert (H7 : fd_ok 7) by by vm_compute.
  assert (H : ∃ L0, filter_data None 7 [0; 2; 65] 3 = Ret (L0, RNone) ∧
    rep (get_queue L0) {[ 7 := [0; 2; 65] ]} []).
  { apply (filter_data_spec None ∅ [] 7 [0; 2; 65] empty_queue_rep H7); [|done|done].
    by repeat constructor. }
  destruct H as (L0 & Hf & Hr).
  destruct (lfilter_events L0 _ [] 7 0 [] Hr H7) as ((L1 & Hc & _ & Hr1) & _); [done|].
  exists L0, L1. split_and!; [exact Hf|exact Hr|exact Hc|].
  rewrite delete_singleton_eq in Hr1. exact Hr1.
Defined.

(** *** From a sender to a receiver *)

(** The bytes a sender writes: the blocks [pack] makes, one after the other. *)
Fixpoint send_all (ps : list (list Z)) : outcome (option (list Z)) :=
  match ps with
  | [] => Ret (Some [])
  | p :: ps' =>
      r ← lpack p;
      match r with
      | None => Ret None
      | Some (blk, n) =>
          s ← block_bytes blk n;
          rest ← send_all ps';
          Ret (option_map (app s) rest)
      end
  end.

(** [for fd, msg, sz in netpack.pop, queue do ... netpack.tostring(msg, sz)]. *)
Fixpoint drain (fuel : nat) (L : option queue) : outcome (list (Z * list Z) * option queue) :=
  match fuel with
  | O => NoFuel
  | S fuel' =>
      '(np, L1) ← lpop L;
      match np with
      | None => Ret ([], L1)
      | Some np =>
          s ← ltostring (buffer np) (size np);
          '(l, L2) ← drain fuel' L1;
          Ret ((id np, s) :: l, L2)
      end
  end.

(** A service that takes every package as soon as [filter] has it. *)
Definition receive (L : option queue) (fd : Z) (chunk : list Z)
    : outcome (list (Z * list Z) * option queue) :=
  '(L1, r) ← lfilter L (data_message fd chunk) SIZEOF_SOCKET_MESSAGE;
  match r with
  | RData fd msg sz => s ← ltostring msg sz; Ret ([(fd, s)], L1)
  | RMore => drain (S (Z.to_nat (cap (get_queue L1)))) L1
  | _ => Ret ([], L1)
  end.

Fixpoint receive_all (L : option queue) (chunks : list (Z * list Z))
    : outcome (list (Z * list Z) * option queue) :=
  match chunks with
  | [] => Ret ([], L)
  | (fd, chunk) :: chunks' =>
      '(l1, L1) ← receive L fd chunk;
      '(l2, L2) ← receive_all L1 chunks';
      Ret (l1 ++ l2, L2)
  end.

(** What a log of chunks or packages says about one connection. *)
Definition of_fd (fd : Z) (l : list (Z * list Z)) : list (list Z) :=
  snd <$> filter (λ x, x.1 = fd) l.

Lemma block_bytes_all bs : block_bytes (Some (Some <$> bs)) (zlen bs) = Ret bs.
Proof.
  unfold block_bytes. rewrite mread_in by (unfold zlen; rewrite ?length_fmap; lia).
  bsimpl. change (Z.to_nat 0) with 0%nat. rewrite drop_0.
  rewrite take_ge by (unfold zlen; rewrite length_fmap; lia).
  assert (Hm : mapM (M := option) (λ c, c) (Some <$> bs) = Some bs).
  { clear. induction bs as [|b bs IH]; [done|]. cbn. by rewrite IH. }
  by rewrite Hm.
Qed.

Lemma lpack_spec p :
  lpack p = if 0x10000 <=? zlen p then Ret None
            else Ret (Some (Some (Some <$> frame p), zlen (frame p))).
Proof.
  unfold lpack. destruct (Z.leb_spec 0x10000 (zlen p)); [done|]. pose proof (zlen_nonneg p).
  unfold i32. rewrite (Z.mod_small (zlen p + 2 ^ 31)), Z.add_simpl_r by lia.
  set (rest := replicate (length p) (@None Z)).
  assert (Hm : malloc (zlen p + 2) = None :: None :: rest).
  { unfold malloc, rest, zlen. by replace (Z.to_nat _) with (S (S (length p))) by lia. }
  rewrite Hm. unfold write_size.
  assert (Hrest : zlen rest = zlen p) by (unfold rest, zlen; by rewrite length_replicate).
  rewrite aset_in by (rewrite !zlen_cons; lia). bsimpl. change (Z.to_nat 0) with 0%nat. cbn [list_insert insert].
  rewrite aset_in by (rewrite !zlen_cons; lia). bsimpl.
  change (Z.to_nat 1) with 1%nat. cbn [list_insert insert].
  unfold mwrite. rewrite !zlen_cons.
  assert (Hz : zlen (Some <$> p) = zlen p) by (unfold zlen; by rewrite length_fmap).
  rewrite Hz, Hrest, !(proj2 (Z.leb_le _ _)) by lia. bsimpl. cbn [andb].
  rewrite drop_ge by (cbn; unfold rest; rewrite length_replicate; unfold zlen; lia).
  rewrite app_nil_r. change (Z.to_nat 2) with 2%nat. cbn [take].
  unfold frame. cbn. change 255 with (2 ^ 8 - 1).
  rewrite !land_mask, Z.shiftr_div_pow2 by lia. change (2 ^ 8) with 256.
  rewrite (Z.mod_small (zlen p / 256)); [by replace (zlen (_ :: _)) with (zlen p + 2) by (rewrite !zlen_cons; lia)|].
  split; [apply Z.div_pos; lia|apply Z.div_lt_upper_bound; lia].
Qed.

Lemma send_all_frames ps s :
  send_all ps = Ret (Some s) →
  Forall (λ p, zlen p < 0x10000) ps ∧ s = concat (frame <$> ps).
Proof.
  revert s. induction ps as [|p ps IH]; intros s; cbn [send_all].
  { intros [= <-]. done. }
  rewrite lpack_spec. destruct (Z.leb_spec 0x10000 (zlen p)); bsimpl; [done|].
  rewrite block_bytes_all. bsimpl. intros ([rest|] & Hs & [= <-])%bind_Ret_inv.
  destruct (IH rest Hs) as [Hall ->]. split; [by constructor|done].
Qed.

Lemma drain_spec fuel L pend ready :
  rep (get_queue L) pend ready → (length ready < fuel)%nat →
  ∃ L', drain fuel L = Ret (ready, L') ∧ rep (get_queue L') pend [].
Proof.
  revert L ready. induction fuel as [|fuel IH]; intros L ready Hr Hf; [lia|]. cbn [drain].
  pose proof (lpop_spec L pend ready Hr) as Hpop. destruct ready as [|[fd p] ready].
  - rewrite Hpop. bsimpl. by exists L.
  - destruct Hpop as (L1 & -> & Hr1). bsimpl. cbn [buffer size pack_of id fst snd].
    unfold ltostring. rewrite block_bytes_all. bsimpl.
    destruct (IH L1 ready Hr1) as (L' & -> & Hr'); [cbn in Hf; lia|]. by exists L'.
Qed.

Lemma receive_spec L pend fd chunk :
  rep (get_queue L) pend [] → fd_ok fd → bytes chunk → chunk ≠ [] → zlen chunk < 2 ^ 30 →
  let '(ps, r) := cut (pending pend fd ++ chunk) in
  ∃ L', receive L fd chunk = Ret (pair fd <$> ps, L') ∧ rep (get_queue L') (put fd r pend) [].
Proof.
  intros Hr Hfd Hb Hne Hn. pose proof (filter_data_spec L pend [] fd chunk Hr Hfd Hb Hne Hn) as H.
  destruct (cut _) as [ps r]. destruct H as (L1 & Hf & Hr1). cbn [app] in Hr1. unfold receive.
  change (lfilter L (data_message fd chunk) SIZEOF_SOCKET_MESSAGE)
    with (filter_data L fd chunk (zlen chunk)). rewrite Hf. bsimpl.
  assert (Hd : queued ps r = ps → ∃ L',
    drain (S (Z.to_nat (cap (get_queue L1)))) L1 = Ret (pair fd <$> ps, L') ∧
    rep (get_queue L') (put fd r pend) []).
  { intros Hq. rewrite Hq in Hr1. apply drain_spec; [done|].
    pose proof (rh_room _ _ (rep_ring _ _ _ Hr1)) as Hroom. unfold zlen in Hroom.
    rewrite length_fmap in Hroom. lia. }
  destruct ps as [|p [|p' ps]]; [|destruct r as [|b r]|]; cbn [answer queued] in *.
  - by exists L1.
  - unfold ltostring. rewrite block_bytes_all. bsimpl. by exists L1.
  - by apply Hd.
  - by apply Hd.
Qed.

Lemma of_fd_app fd l1 l2 : of_fd fd (l1 ++ l2) = of_fd fd l1 ++ of_fd fd l2.
Proof. unfold of_fd. by rewrite filter_app, fmap_app. Qed.

Lemma of_fd_pair fd fd' ps : of_fd fd (pair fd' <$> ps) = if decide (fd = fd') then ps else [].
Proof.
  unfold of_fd. induction ps as [|p ps IH]; [by destruct (decide _)|].
  rewrite fmap_cons, filter_cons. cbn [fst]. destruct (decide (fd = fd')) as [->|Hne].
  - destruct (decide (fd' = fd')); [|done]. cbn. by rewrite IH.
  - destruct (decide (fd' = fd)); [by subst|done].
Qed.

Definition good_chunk (x : Z * list Z) : Prop :=
  fd_ok x.1 ∧ bytes x.2 ∧ x.2 ≠ [] ∧ zlen x.2 < 2 ^ 30.

Lemma bytes_cut_rest s : bytes s → bytes (cut s).2.
Proof.
  unfold cut. generalize (length s) as n. intros n. revert s.
  induction n as [|n IH]; intros s Hs; [done|]. destruct s as [|b0 [|b1 t]]; [done..|].
  rewrite deframe_S. destruct (_ <=? _); [|done].
  apply Forall_cons in Hs as [_ Hs]. apply Forall_cons in Hs as [_ Ht].
  specialize (IH (drop (Z.to_nat (b0 * 256 + b1)) t)). destruct (deframe n _) as [ps r].
  by apply IH, Forall_drop.
Qed.

(** Nothing is complete in a rest. *)
Lemma cut_rest s : bytes s → (cut (cut s).2).1 = [].
Proof.
  intros Hs. pose proof (cut_app s [] Hs) as H. rewrite app_nil_r in H.
  destruct (cut s) as [ps r]. cbn [snd]. rewrite app_nil_r in H.
  destruct (cut r) as [ps' r']. injection H as Hps _. cbn [fst].
  apply (f_equal length) in Hps. rewrite length_app in Hps.
  apply length_zero_iff_nil. lia.
Qed.

Lemma receive_all_spec chunks L pend :
  rep (get_queue L) pend [] → Forall good_chunk chunks →
  (∀ fd, bytes (pending pend fd) ∧ (cut (pending pend fd)).1 = []) →
  ∃ log L', receive_all L chunks = Ret (log, L') ∧
    ∀ fd, of_fd fd log = (cut (pending pend fd ++ concat (of_fd fd chunks))).1.
Proof.
  revert L pend. induction chunks as [|[fd0 chunk] chunks IH]; intros L pend Hr Hg Hp.
  { exists [], L. split; [done|]. intros fd. cbn. rewrite app_nil_r. symmetry. apply Hp. }
  apply Forall_cons in Hg as [(Hfd & Hbc & Hne & Hn) Hg]. cbn [fst snd] in *. cbn [receive_all].
  assert (Hbp : bytes (pending pend fd0 ++ chunk)) by (apply Forall_app; split; [apply Hp|done]).
  pose proof (receive_spec L pend fd0 chunk Hr Hfd Hbc Hne Hn) as H.
  pose proof (bytes_cut_rest _ Hbp) as Hbr. pose proof (cut_rest _ Hbp) as Hcr.
  pose proof (λ c, cut_app (pending pend fd0 ++ chunk) c Hbp) as Hca.
  destruct (cut (pending pend fd0 ++ chunk)) as [ps r]. destruct H as (L1 & -> & Hr1). bsimpl.
  destruct (IH L1 (put fd0 r pend)) as (log & L2 & -> & Hlog); [done|done| |].
  { intros fd. rewrite pending_put. by destruct (decide (fd = fd0)). }
  bsimpl. exists ((pair fd0 <$> ps) ++ log), L2. split; [done|]. intros fd.
  rewrite of_fd_app, of_fd_pair, Hlog, pending_put.
  replace (of_fd fd ((fd0, chunk) :: chunks))
    with ((if decide (fd = fd0) then [chunk] else []) ++ of_fd fd chunks).
  2:{ unfold of_fd. rewrite filter_cons. cbn.
      destruct (decide (fd = fd0)), (decide (fd0 = fd)); done || congruence. }
  destruct (decide (fd = fd0)) as [->|Hne']; [|done].
  cbn [app concat]. rewrite app_assoc, Hca. by destruct (cut (r ++ _)).
Qed.

(** C10: However the network cuts the streams of any number of connections into
    chunks and mixes them, a receiver that takes the packages [filter] and [pop]
    hand out gets, for every connection, exactly the packages that were packed
    for it, in order; nothing overflows, leaks into another connection or reads
    outside a buffer. *)
Theorem stream_round_trip (packages : Z → list (list Z)) (chunks : list (Z * list Z)) :
  Forall good_chunk chunks →
  (∀ fd, send_all (packages fd) = Ret (Some (concat (of_fd fd chunks)))) →
  ∃ log L', receive_all None chunks = Ret (log, L') ∧ ∀ fd, of_fd fd log = packages fd.
Proof.
  intros Hg Hs.
  destruct (receive_all_spec chunks None ∅ empty_queue_rep Hg) as (log & L' & Hr & Hlog).
  { intros fd. unfold pending. by rewrite lookup_empty. }
  exists log, L'. split; [done|]. intros fd. rewrite Hlog.
  destruct (send_all_frames _ _ (Hs fd)) as [Hlen ->].
  unfold pending. rewrite lookup_empty. cbn [app default from_option Datatypes.id].
  by rewrite cut_frames.
Qed.

Lemma stream_round_trip_witness :
  ∃ log L', receive_all None [(7, [0]); (9, [0; 1; 5; 0]); (7, [2; 65; 66; 0; 0]); (9, [1; 6])] =
    Ret (log, L') ∧ of_fd 7 log = [[65; 66]; []] ∧ of_fd 9 log = [[5]; [6]].
Proof.
  set (packages := λ fd : Z, if fd =? 7 then [[65; 66]; []] else if fd =? 9 then [[5]; [6]] else []).
  set (chunks := [(7, [0]); (9, [0; 1; 5; 0]); (7, [2; 65; 66; 0; 0]); (9, [1; 6])]).
  destruct (stream_round_trip packages chunks) as (log & L' & Hr & Hlog).
  - repeat (constructor; [split_and!; [by vm_compute|by repeat constructor|done|done]|]). constructor.
  - intros fd. unfold packages. destruct (Z.eqb_spec fd 7) as [->|H7]; [by vm_compute|].
    destruct (Z.eqb_spec fd 9) as [->|H9]; [by vm_compute|].
    unfold of_fd, chunks. rewrite !filter_cons. cbn.
    repeat (rewrite decide_False by congruence). done.
  - exists log, L'. split; [exact Hr|]. split; [exact (Hlog 7)|exact (Hlog 9)].
Defined.
