(* ===== verification/HashId.v ===== *)
(** * The hash table of connection ids

    The model of [service-src/hashid.h]: a map from socket ids to the numbers
    of [cap] nodes, with the nodes of a bucket in a linked list. A pointer to
    a node is its index in the array [id] ([c - hi->id]). *)
From S2P Require Import Prelude.

Local Open Scope Z_scope.

(** ** Data *)

Record hashid_node := MkNode { id : Z; next : option Z }.

#[export] Instance hashid_node_eq_dec : EqDecision hashid_node.
Proof. solve_decision. Defined.

(** [struct hashid]; [nodes] is its array [id]. *)
Record hashid := MkHashid {
  hashmod : Z;
  cap : Z;
  count : Z;
  nodes : list hashid_node;
  hash : list (option Z)
}.

#[export] Instance hashid_eq_dec : EqDecision hashid.
Proof. solve_decision. Defined.

Definition set_nodes (hi : hashid) (l : list hashid_node) : hashid :=
  MkHashid (hashmod hi) (cap hi) (count hi) l (hash hi).
Definition set_buckets (hi : hashid) (l : list (option Z)) : hashid :=
  MkHashid (hashmod hi) (cap hi) (count hi) (nodes hi) l.
Definition set_count (hi : hashid) (n : Z) : hashid :=
  MkHashid (hashmod hi) (cap hi) n (nodes hi) (hash hi).

(** ** Operations *)

(** [while (hashcap < max) hashcap *= 2]. *)
Definition hashcap_turn (max hashcap : Z) : outcome (Z + Z) :=
  if hashcap <? max then hashcap' ← cint (hashcap * 2); Ret (inl hashcap') else Ret (inr hashcap).

Definition hashid_init (max : Z) : outcome hashid :=
  hashcap ← loop 32 (hashcap_turn max) 16;
  Ret (MkHashid (hashcap - 1) max 0 (replicate (Z.to_nat max) (MkNode (-1) None))
         (replicate (Z.to_nat hashcap) None)).

(** [NULL] arrays are empty. *)
Definition hashid_clear (hi : hashid) : hashid := MkHashid 1 0 0 [] [].

(** The [while(c)] loop of [hashid_lookup]. *)
Definition lookup_turn (hi : hashid) (fd : Z) (c : option Z) : outcome (option Z + Z) :=
  match c with
  | None => Ret (inr (-1))
  | Some k =>
      n ← aget (nodes hi) k;
      if id n =? fd then Ret (inr k) else Ret (inl (next n))
  end.

(** A list has no more than [cap] nodes. *)
Definition hashid_lookup (hi : hashid) (fd : Z) : outcome Z :=
  c ← aget (hash hi) (Z.land fd (hashmod hi));
  loop (S (length (nodes hi))) (lookup_turn hi fd) c.

(** The [while(c->next)] loop of [hashid_remove], from the node [k] on: the
    node that is taken out of the list ([None]: not found). *)
Definition remove_turn (hi : hashid) (fd k : Z) : outcome (Z + option (Z * hashid)) :=
  n ← aget (nodes hi) k;
  match next n with
  | None => Ret (inr None)
  | Some k' =>
      n' ← aget (nodes hi) k';
      if id n' =? fd then
        l ← aset (nodes hi) k (MkNode (id n) (next n'));
        Ret (inr (Some (k', set_nodes hi l)))
      else Ret (inl k')
  end.

(** The label [_clear]. *)
Definition clear_node (hi : hashid) (k : Z) : outcome (Z * hashid) :=
  l ← aset (nodes hi) k (MkNode (-1) None);
  Ret (k, set_count (set_nodes hi l) (count hi - 1)).

Definition hashid_remove (hi : hashid) (fd : Z) : outcome (Z * hashid) :=
  let h := Z.land fd (hashmod hi) in
  c ← aget (hash hi) h;
  match c with
  | None => Ret (-1, hi)
  | Some k =>
      n ← aget (nodes hi) k;
      if id n =? fd then
        b ← aset (hash hi) h (next n);
        clear_node (set_buckets hi b) k
      else
        r ← loop (S (length (nodes hi))) (remove_turn hi fd) k;
        match r with
        | None => Ret (-1, hi)
        | Some (k', hi') => clear_node hi' k'
        end
  end.

(** The search for a free node, from [id % cap] on. *)
Definition free_turn (hi : hashid) (fd i : Z) : outcome (Z + option Z) :=
  if i <? cap hi then
    s ← cint (i + fd);
    let index := Z.rem s (cap hi) in
    n ← aget (nodes hi) index;
    if id n =? -1 then Ret (inr (Some index)) else Ret (inl (i + 1))
  else Ret (inr None).

Definition hashid_insert (hi : hashid) (fd : Z) : outcome (Z * hashid) :=
  c ← loop (S (Z.to_nat (cap hi))) (free_turn hi fd) 0;
  match c with
  | None => AssertFail
  | Some k =>
      n ← aget (nodes hi) k;
      _ ← assert_true (bool_decide (next n = None));
      let h := Z.land fd (hashmod hi) in
      b ← aget (hash hi) h;
      l ← aset (nodes hi) k (MkNode fd b);
      hash' ← aset (hash hi) h (Some k);
      Ret (k, MkHashid (hashmod hi) (cap hi) (count hi + 1) l hash')
  end.

Definition hashid_full (hi : hashid) : bool := count hi =? cap hi.

(** ** What the table stands for *)

(** The linked list from [c] on goes through the nodes [ks]. *)
Fixpoint chain (l : list hashid_node) (c : option Z) (ks : list Z) : Prop :=
  match ks with
  | [] => c = None
  | k :: ks' => c = Some k ∧ 0 ≤ k ∧ ∃ n, l !! Z.to_nat k = Some n ∧ chain l (next n) ks'
  end.

(** [m] maps the ids in the table to their nodes; [b] lists the nodes of each
    bucket. *)
Record hashid_rep_with (hi : hashid) (m : gmap Z Z) (b : Z → list Z) : Prop := {
  hr_cap : 0 < cap hi ≤ 2 ^ 30;
  hr_nodes : zlen (nodes hi) = cap hi;
  hr_mod : ∃ k, 0 ≤ k ∧ hashmod hi = 2 ^ k - 1;
  hr_hash : zlen (hash hi) = hashmod hi + 1;
  hr_count : count hi = Z.of_nat (size m);
  hr_used fd k : m !! fd = Some k ↔
    fd ≠ -1 ∧ 0 ≤ k ∧ (id <$> nodes hi) !! Z.to_nat k = Some fd;
  hr_free k nx : nodes hi !! k = Some (MkNode (-1) nx) → nx = None;
  hr_chain h c : hash hi !! h = Some c → chain (nodes hi) c (b (Z.of_nat h)) ∧ NoDup (b (Z.of_nat h));
  hr_bucket h k : 0 ≤ h ≤ hashmod hi →
    k ∈ b h ↔ ∃ fd, m !! fd = Some k ∧ Z.land fd (hashmod hi) = h
}.

Definition hashid_rep (hi : hashid) (m : gmap Z Z) : Prop := ∃ b, hashid_rep_with hi m b.

(** ** Lists of nodes *)

Lemma chain_frame l l' c ks :
  (∀ k, k ∈ ks → l' !! Z.to_nat k = l !! Z.to_nat k) → chain l c ks → chain l' c ks.
Proof.
  revert c. induction ks as [|k ks IH]; intros c Hs; cbn; [done|].
  intros (-> & Hk & n & Hn & Hc). split_and!; [done|done|]. exists n.
  rewrite Hs by set_solver. split; [done|]. apply IH; [set_solver|done].
Qed.

Lemma chain_in l c ks k : chain l c ks → k ∈ ks → 0 ≤ k < zlen l.
Proof.
  revert c. induction ks as [|k' ks IH]; intros c; cbn; [set_solver|].
  intros (-> & Hk & n & Hn%lookup_lt_Some & Hc) [->|Hin]%elem_of_cons; [unfold zlen; lia|by eauto].
Qed.

Lemma chain_length l c ks : chain l c ks → NoDup ks → (length ks ≤ length l)%nat.
Proof.
  intros Hc Hnd. rewrite <-(Nat2Z.id (length l)), <-(length_seqZ 0 (Z.of_nat (length l))).
  apply submseteq_length, NoDup_submseteq; [done|]. intros k Hk. apply elem_of_seqZ.
  pose proof (chain_in _ _ _ _ Hc Hk). unfold zlen in *. lia.
Qed.

Lemma lookup_loop hi fd fuel c ks :
  chain (nodes hi) c ks → (length ks < fuel)%nat →
  ∃ r, loop fuel (lookup_turn hi fd) c = Ret r ∧
    ((r = -1 ∧ ∀ k, k ∈ ks → (id <$> nodes hi) !! Z.to_nat k ≠ Some fd) ∨
     (r ∈ ks ∧ (id <$> nodes hi) !! Z.to_nat r = Some fd)).
Proof.
  revert c ks. induction fuel as [|fuel IH]; intros c ks Hc Hf; [lia|]. rewrite loop_S.
  destruct ks as [|k ks]; cbn in Hc.
  - subst c. cbn. exists (-1). split; [done|]. left. split; [done|]. set_solver.
  - destruct Hc as (-> & Hk & n & Hn & Hc). cbn [lookup_turn].
    rewrite (proj2 (aget_Ret (nodes hi) k n)) by done. bsimpl.
    assert (Hid : (id <$> nodes hi) !! Z.to_nat k = Some (id n)) by (by rewrite list_lookup_fmap, Hn).
    destruct (Z.eqb_spec (id n) fd) as [Heq|Hne].
    + bsimpl. exists k. split; [done|]. right. rewrite Hid, Heq. split; [set_solver|done].
    + bsimpl. destruct (IH (next n) ks Hc) as (r & -> & Hr); [cbn in Hf; lia|]. exists r. split; [done|].
      destruct Hr as [[-> Hr]|[Hr ?]]; [left|right]; (split; [set_solver|]); [|done].
      intros j [->|Hj]%elem_of_cons; [rewrite Hid; congruence|by apply Hr].
Qed.

(** What the walk of [hashid_remove] does to the list of the bucket. *)
Lemma remove_loop hi fd fuel k ks :
  chain (nodes hi) (Some k) (k :: ks) → NoDup (k :: ks) → (length ks < fuel)%nat →
  ∃ r, loop fuel (remove_turn hi fd) k = Ret r ∧
    match r with
    | None => ∀ j, j ∈ ks → (id <$> nodes hi) !! Z.to_nat j ≠ Some fd
    | Some (k', hi') =>
        (id <$> nodes hi) !! Z.to_nat k' = Some fd ∧
        ∃ ks' p n nx, (k :: ks) ≡ₚ k' :: k :: ks' ∧ p ∈ k :: ks' ∧
          nodes hi !! Z.to_nat p = Some n ∧
          hi' = set_nodes hi (<[Z.to_nat p := MkNode (id n) nx]> (nodes hi)) ∧
          chain (nodes hi') (Some k) (k :: ks')
    end.
Proof.
  revert k ks. induction fuel as [|fuel IH]; intros k ks Hc Hnd Hf; [lia|]. rewrite loop_S.
  pose proof Hc as (_ & Hk & n & Hn & Hc'). unfold remove_turn at 2.
  rewrite (proj2 (aget_Ret (nodes hi) k n)) by done. bsimpl.
  apply NoDup_cons in Hnd as [Hni Hnd].
  destruct ks as [|k1 ks]; cbn in Hc'.
  { rewrite Hc'. bsimpl. exists None. split; [done|]. set_solver. }
  destruct Hc' as (Hnx & Hk1 & n1 & Hn1 & Hc1). rewrite Hnx.
  rewrite (proj2 (aget_Ret (nodes hi) k1 n1)) by done. bsimpl.
  assert (Hid1 : (id <$> nodes hi) !! Z.to_nat k1 = Some (id n1))
    by (by rewrite list_lookup_fmap, Hn1).
  apply not_elem_of_cons in Hni as [Hkk1 Hni]. pose proof (lookup_lt_Some _ _ _ Hn) as Hlt.
  destruct (Z.eqb_spec (id n1) fd) as [Heq|Hne].
  - rewrite aset_in by (unfold zlen; lia). bsimpl. eexists. split; [done|]. cbn.
    split; [by rewrite Hid1, Heq|]. exists ks, k, n, (next n1). split_and!.
    + apply Permutation_swap.
    + set_solver.
    + done.
    + done.
    + done.
    + done.
    + exists (MkNode (id n) (next n1)). split; [by apply list_lookup_insert_eq|]. cbn.
      apply chain_frame with (nodes hi); [|done]. intros j Hj.
      apply list_lookup_insert_ne. intros E.
      assert (0 ≤ j) by (eapply chain_in; [exact Hc1|done]).
      apply Hni. by replace k with j by lia.
  - bsimpl. assert (Hch1 : chain (nodes hi) (Some k1) (k1 :: ks)) by (cbn; eauto).
    destruct (IH k1 ks Hch1) as (r & -> & Hr); [done|cbn in Hf; lia|].
    exists r. split; [done|]. destruct r as [[k' hi']|].
    + destruct Hr as (Hfd & ks' & p & np & nx & Hperm & Hp & Hnp & -> & Hch).
      split; [done|]. exists (k1 :: ks'), p, np, nx. cbn [nodes set_nodes] in *.
      assert (Hpk : Z.to_nat p ≠ Z.to_nat k).
      { assert (p ∈ k1 :: ks) as Hin by (rewrite Hperm; set_solver).
        pose proof (chain_in _ _ _ _ Hch1 Hin).
        intros E. assert (p = k) as -> by lia. set_solver. }
      split_and!; [rewrite Hperm; apply Permutation_swap|set_solver|done|done|].
      split_and!; [done|done|]. exists n. split; [by rewrite list_lookup_insert_ne|]. rewrite Hnx. exact Hch.
    + intros j [->|Hj]%elem_of_cons; [rewrite Hid1; congruence|by apply Hr].
Qed.

(** ** The operations on a table that stands for a map *)

Section table.
Context (hi : hashid) (m : gmap Z Z) (b : Z → list Z) (Hr : hashid_rep_with hi m b).

Lemma bucket_range fd : 0 ≤ Z.land fd (hashmod hi) ≤ hashmod hi.
Proof.
  destruct (hr_mod _ _ _ Hr) as (k & Hk & ->). rewrite land_mask by done.
  pose proof (Z.mod_pos_bound fd (2 ^ k)). lia.
Qed.

(** The bucket of [fd]. *)
Lemma bucket_get fd :
  ∃ c, aget (hash hi) (Z.land fd (hashmod hi)) = Ret c ∧
    hash hi !! Z.to_nat (Z.land fd (hashmod hi)) = Some c ∧
    chain (nodes hi) c (b (Z.land fd (hashmod hi))) ∧ NoDup (b (Z.land fd (hashmod hi))).
Proof.
  pose proof (bucket_range fd) as Hb.
  destruct (aget_in (hash hi) (Z.land fd (hashmod hi))) as (c & Hc & Hl).
  { rewrite (hr_hash _ _ _ Hr). lia. }
  exists c. split; [done|]. split; [done|]. pose proof (hr_chain _ _ _ Hr _ _ Hl) as H.
  by rewrite Z2Nat.id in H by lia.
Qed.

Lemma node_key k fd : (id <$> nodes hi) !! Z.to_nat k = Some fd → 0 ≤ k → fd ≠ -1 → m !! fd = Some k.
Proof. intros. by apply (hr_used _ _ _ Hr). Qed.

Lemma key_node fd k : m !! fd = Some k →
  fd ≠ -1 ∧ 0 ≤ k < cap hi ∧ (id <$> nodes hi) !! Z.to_nat k = Some fd.
Proof.
  intros (Hfd & Hk & Hl)%(hr_used _ _ _ Hr). split_and!; [done|done| |done].
  apply lookup_lt_Some in Hl. rewrite length_fmap in Hl.
  pose proof (hr_nodes _ _ _ Hr). unfold zlen in *. lia.
Qed.

Lemma key_bucket fd k : m !! fd = Some k ↔
  fd ≠ -1 ∧ k ∈ b (Z.land fd (hashmod hi)) ∧ (id <$> nodes hi) !! Z.to_nat k = Some fd.
Proof.
  pose proof (bucket_range fd) as Hb. split.
  - intros Hm. destruct (key_node _ _ Hm) as (? & _ & ?). split_and!; [done| |done].
    apply (hr_bucket _ _ _ Hr); eauto.
  - intros (Hfd & Hin & Hl). apply node_key; [done| |done].
    apply (hr_bucket _ _ _ Hr) in Hin as (fd' & Hm & _); [|done]. apply key_node in Hm as (_ & ? & _). lia.
Qed.

(** A node is in the list of one bucket only. *)
Lemma bucket_disjoint h h' k :
  0 ≤ h ≤ hashmod hi → 0 ≤ h' ≤ hashmod hi → k ∈ b h → k ∈ b h' → h = h'.
Proof.
  intros Hh Hh' (fd & Hm & <-)%(hr_bucket _ _ _ Hr) (fd' & Hm' & <-)%(hr_bucket _ _ _ Hr); [|done..].
  apply key_node in Hm as (_ & _ & Hl). apply key_node in Hm' as (_ & _ & Hl'). congruence.
Qed.

Lemma hashid_lookup_spec fd :
  fd ≠ -1 → hashid_lookup hi fd = Ret (default (-1) (m !! fd)).
Proof.
  intros Hfd. unfold hashid_lookup.
  destruct (bucket_get fd) as (c & -> & _ & Hc & Hnd). bsimpl.
  destruct (lookup_loop hi fd (S (length (nodes hi))) c _ Hc) as (r & -> & Hres).
  { pose proof (chain_length _ _ _ Hc Hnd). lia. }
  f_equal. destruct Hres as [[-> Hno]|[Hin Hl]].
  - destruct (m !! fd) as [k|] eqn:Hm; [|done]. apply key_bucket in Hm as (_ & Hin & Hl).
    by destruct (Hno k Hin).
  - assert (Hm : m !! fd = Some r) by (by apply key_bucket). by rewrite Hm.
Qed.

Lemma hashid_lookup_none : hashid_lookup hi (-1) = Ret (-1).
Proof.
  unfold hashid_lookup. destruct (bucket_get (-1)) as (c & -> & _ & Hc & Hnd). bsimpl.
  destruct (lookup_loop hi (-1) (S (length (nodes hi))) c _ Hc) as (r & -> & Hres).
  { pose proof (chain_length _ _ _ Hc Hnd). lia. }
  f_equal. destruct Hres as [[-> _]|[Hin Hl]]; [done|].
  apply (hr_bucket _ _ _ Hr) in Hin as (fd & Hm & _); [|apply bucket_range].
  apply key_node in Hm as (Hne & _ & Hl'). congruence.
Qed.

(** Taking the node of [fd] out: the table after [clear_node], when the list
    of its bucket has become [ks]. *)
Lemma clear_node_rep fd k nodes' hash' ks :
  m !! fd = Some k →
  id <$> nodes' = id <$> nodes hi →
  (∀ j, 0 ≤ j → j ∉ b (Z.land fd (hashmod hi)) → nodes' !! Z.to_nat j = nodes hi !! Z.to_nat j) →
  (∀ j nx, nodes' !! j = Some (MkNode (-1) nx) → nx = None) →
  b (Z.land fd (hashmod hi)) ≡ₚ k :: ks →
  zlen hash' = zlen (hash hi) →
  (∀ j, j ≠ Z.to_nat (Z.land fd (hashmod hi)) → hash' !! j = hash hi !! j) →
  (∀ c, hash' !! Z.to_nat (Z.land fd (hashmod hi)) = Some c → chain nodes' c ks) →
  ∃ hi', clear_node (MkHashid (hashmod hi) (cap hi) (count hi) nodes' hash') k = Ret (k, hi') ∧
    hashid_rep hi' (delete fd m) ∧ cap hi' = cap hi.
Proof.
  intros Hm Hids Hsame Hfree Hks Hhl Hho Hhc. set (h := Z.land fd (hashmod hi)) in *.
  destruct (key_node _ _ Hm) as (Hfd & Hk & Hkl).
  assert (Hlen : zlen nodes' = cap hi).
  { rewrite <-(hr_nodes _ _ _ Hr). unfold zlen. by rewrite <-(length_fmap id nodes'), Hids, length_fmap. }
  assert (Hnd : NoDup (k :: ks)).
  { rewrite <-Hks. by destruct (bucket_get fd) as (c & _ & _ & _ & ?). }
  apply NoDup_cons in Hnd as [Hkks Hnd].
  unfold clear_node. cbn [nodes]. rewrite aset_in by lia. bsimpl.
  eexists. split; [done|]. split; [|done].
  exists (λ x, if decide (x = h) then ks else b x).
  assert (Hids' : id <$> <[Z.to_nat k:=MkNode (-1) None]> nodes' =
    <[Z.to_nat k := -1]> (id <$> nodes hi)) by (by rewrite list_fmap_insert, Hids).
  assert (Hin : k ∈ b h) by (rewrite Hks; set_solver).
  pose proof (bucket_range fd) as Hbr. fold h in Hbr.
  assert (Hklt : (Z.to_nat k < length nodes')%nat) by (unfold zlen in Hlen; lia).
  assert (Hks0 : ∀ j, j ∈ b h → 0 ≤ j).
  { intros j Hj. destruct (bucket_get fd) as (c & _ & _ & Hc & _).
    pose proof (chain_in _ _ _ _ Hc Hj). lia. }
  split; cbn [cap nodes hashmod hash count set_count set_nodes].
  - apply Hr.
  - by rewrite zlen_insert.
  - apply Hr.
  - rewrite Hhl. apply Hr.
  - rewrite (hr_count _ _ _ Hr), map_size_delete, Hm. cbn.
    pose proof (map_size_ne_0_lookup_2 m fd (ex_intro _ k Hm)). lia.
  - intros fd' j. rewrite Hids', lookup_delete_Some, (hr_used _ _ _ Hr). split.
    + intros (Hne & ? & ? & Hj). split_and!; [done|done|].
      rewrite list_lookup_insert_ne; [done|]. intros E. rewrite E in Hkl. congruence.
    + intros (Hne & ? & Hj). apply list_lookup_insert_Some in Hj as [(_ & ? & _)|(Hjk & Hj)]; [congruence|].
      split_and!; [|done|done|done]. intros <-. apply Hjk.
      assert (m !! fd = Some j) as Hm' by (by apply node_key). congruence.
  - intros j nx Hj. apply list_lookup_insert_Some in Hj as [(_ & [= <-] & _)|(_ & Hj)]; [done|].
    by eapply Hfree.
  - intros j c Hj. destruct (decide (Z.of_nat j = h)) as [Hjh|Hjh].
    + split; [|done]. apply chain_frame with nodes'.
      * intros x Hx. apply list_lookup_insert_ne. intros E.
        assert (0 ≤ x) by (apply Hks0; rewrite Hks; set_solver).
        apply Hkks. by replace k with x by lia.
      * apply Hhc. by rewrite <-Hjh, Nat2Z.id.
    + assert (Hj' : hash hi !! j = Some c) by (rewrite <-Hho; [done|lia]).
      destruct (hr_chain _ _ _ Hr _ _ Hj') as [Hc Hn]. split; [|done].
      assert (Hjr : 0 ≤ Z.of_nat j ≤ hashmod hi).
      { pose proof (lookup_lt_Some _ _ _ Hj'). pose proof (hr_hash _ _ _ Hr). unfold zlen in *. lia. }
      apply chain_frame with (nodes hi); [|done]. intros x Hx.
      assert (Hxb : x ∉ b h) by (intros Hxh; apply Hjh; by eapply bucket_disjoint).
      pose proof (chain_in _ _ _ _ Hc Hx).
      rewrite list_lookup_insert_ne; [apply Hsame; [lia|done]|]. intros E. apply Hxb.
      by replace x with k by lia.
  - intros x j Hx. destruct (decide (x = h)) as [->|Hne].
    + assert (Hj : j ∈ ks ↔ j ∈ b h ∧ j ≠ k).
      { rewrite Hks, elem_of_cons. split; [intros; split; [by right|congruence]|naive_solver]. }
      rewrite Hj, (hr_bucket _ _ _ Hr) by done. split.
      * intros ((fd' & Hm' & Hl) & Hjk). exists fd'. rewrite lookup_delete_Some.
        split_and!; [congruence|done|done].
      * intros (fd' & (Hne & Hm')%lookup_delete_Some & Hl). split; [eauto|]. intros ->.
        apply key_node in Hm' as (_ & _ & ?). congruence.
    + rewrite (hr_bucket _ _ _ Hr) by done. split; intros (fd' & Hm' & Hl); exists fd'.
      * rewrite lookup_delete_Some. split_and!; [|done|done]. intros <-. done.
      * by apply lookup_delete_Some in Hm' as [_ ?].
Qed.

Lemma hashid_remove_spec fd :
  fd ≠ -1 →
  ∃ hi', hashid_remove hi fd = Ret (default (-1) (m !! fd), hi') ∧
    hashid_rep hi' (delete fd m) ∧ cap hi' = cap hi.
Proof.
  intros Hfd. unfold hashid_remove.
  destruct (bucket_get fd) as (c & -> & Hh & Hc & Hnd). bsimpl.
  assert (Hnone : m !! fd = None → Ret (-1, hi) = Ret (default (-1) (m !! fd), hi) ∧
    hashid_rep hi (delete fd m) ∧ cap hi = cap hi).
  { intros Hm. rewrite Hm, delete_id by done. split_and!; [done|by exists b|done]. }
  pose proof (bucket_range fd) as Hbr.
  destruct (b (Z.land fd (hashmod hi))) as [|k ks] eqn:Hb.
  { cbn in Hc. subst c. exists hi. apply Hnone.
    destruct (m !! fd) as [k|] eqn:Hm; [|done]. apply key_bucket in Hm as (_ & Hin & _).
    rewrite Hb in Hin. set_solver. }
  pose proof Hc as (-> & Hk & n & Hn & Hc').
  rewrite (proj2 (aget_Ret (nodes hi) k n)) by done. bsimpl.
  assert (Hid : (id <$> nodes hi) !! Z.to_nat k = Some (id n)) by (by rewrite list_lookup_fmap, Hn).
  destruct (Z.eqb_spec (id n) fd) as [Heq|Hne].
  - rewrite aset_in by (rewrite (hr_hash _ _ _ Hr); lia). bsimpl.
    assert (Hm : m !! fd = Some k) by (apply node_key; [by rewrite Hid, Heq|done|done]).
    rewrite Hm. apply (clear_node_rep fd k (nodes hi) _ ks); try done.
    + apply (hr_free _ _ _ Hr).
    + by rewrite Hb.
    + apply zlen_insert.
    + intros j Hj. by rewrite list_lookup_insert_ne.
    + intros c. rewrite list_lookup_insert_eq by (by eapply lookup_lt_Some). by intros [= <-].
  - destruct (remove_loop hi fd (S (length (nodes hi))) k ks Hc Hnd) as (r & -> & Hres).
    { pose proof (chain_length _ _ _ Hc Hnd). cbn in *. lia. }
    bsimpl. destruct r as [[k' hi']|].
    + destruct Hres as (Hfd' & ks' & p & np & nx & Hperm & Hp & Hnp & -> & Hch).
      assert (Hk' : k' ∈ k :: ks) by (rewrite Hperm; set_solver).
      assert (Hm : m !! fd = Some k') by (apply key_bucket; rewrite Hb; done).
      assert (Hpin : p ∈ k :: ks) by (rewrite Hperm; set_solver).
      rewrite Hm. apply (clear_node_rep fd k' _ (hash hi) (k :: ks')); try done.
      * rewrite list_fmap_insert. cbn. apply list_insert_id. by rewrite list_lookup_fmap, Hnp.
      * intros j Hj0 Hj. rewrite Hb in Hj. cbn. destruct (decide (Z.to_nat p = Z.to_nat j)) as [E|E].
        -- exfalso. apply Hj. pose proof (chain_in _ _ _ _ Hc Hpin). by replace j with p by lia.
        -- by rewrite list_lookup_insert_ne.
      * cbn. intros j nx' Hj. apply list_lookup_insert_Some in Hj as [(_ & [= Hnid _] & _)|(_ & Hj)].
        -- exfalso. rewrite <-Hb in Hpin. apply (hr_bucket _ _ _ Hr) in Hpin as (fd' & Hm' & _); [|done].
           apply key_node in Hm' as (? & _ & Hl). rewrite list_lookup_fmap, Hnp in Hl. cbn in Hl. congruence.
        -- by eapply (hr_free _ _ _ Hr).
      * by rewrite Hb.
      * intros c Hcc. rewrite Hh in Hcc. injection Hcc as <-. exact Hch.
    + exists hi. apply Hnone. destruct (m !! fd) as [j|] eqn:Hm; [|done].
      apply key_bucket in Hm as (_ & Hin & Hl). rewrite Hb in Hin.
      apply elem_of_cons in Hin as [->|Hin]; [congruence|by destruct (Hres j Hin)].
Qed.
End table.

(** A table that is not full has a free node. *)
Lemma free_node hi m b :
  hashid_rep_with hi m b → Z.of_nat (size m) < cap hi →
  ∃ k, 0 ≤ k < cap hi ∧ (id <$> nodes hi) !! Z.to_nat k = Some (-1).
Proof.
  intros Hr Hsz. destruct (decide (-1 ∈ id <$> nodes hi)) as [Hin|Hno].
  - apply list_elem_of_lookup in Hin as [k Hk]. exists (Z.of_nat k). rewrite Nat2Z.id.
    split; [|done]. apply lookup_lt_Some in Hk. rewrite length_fmap in Hk.
    pose proof (hr_nodes _ _ _ Hr). unfold zlen in *. lia.
  - exfalso.
    assert (Hm : ∀ j fd, (id <$> nodes hi) !! j = Some fd → m !! fd = Some (Z.of_nat j)).
    { intros j fd Hj. apply (hr_used _ _ _ Hr). rewrite Nat2Z.id. split_and!; [|lia|done].
      intros ->. apply Hno. by eapply list_elem_of_lookup_2. }
    assert (Hnd : NoDup (id <$> nodes hi)).
    { apply NoDup_alt. intros i j fd Hi Hj. apply Hm in Hi, Hj. rewrite Hi in Hj. injection Hj. lia. }
    assert (Hle : (length (id <$> nodes hi) ≤ length (elements (dom m)))%nat).
    { apply submseteq_length, NoDup_submseteq; [done|].
      intros fd [j Hj]%list_elem_of_lookup. apply elem_of_elements, elem_of_dom.
      rewrite (Hm _ _ Hj). by eexists. }
    rewrite length_fmap in Hle. change (length (elements (dom m))) with (size (dom m)) in Hle.
    rewrite size_dom in Hle. pose proof (hr_nodes _ _ _ Hr). unfold zlen in *. lia.
Qed.

Lemma free_loop hi m b fd :
  hashid_rep_with hi m b → Z.of_nat (size m) < cap hi → 0 ≤ fd ≤ INT_MAX - cap hi →
  ∃ k, loop (S (Z.to_nat (cap hi))) (free_turn hi fd) 0 = Ret (Some k) ∧
    0 ≤ k < cap hi ∧ (id <$> nodes hi) !! Z.to_nat k = Some (-1).
Proof.
  intros Hr Hsz Hfd. pose proof (hr_cap _ _ _ Hr) as Hcap. pose proof (hr_nodes _ _ _ Hr) as Hn.
  destruct (free_node hi m b Hr Hsz) as (k0 & Hk0 & Hfree).
  destruct (loop_total
    (λ i, 0 ≤ i ≤ cap hi ∧ ∀ j, 0 ≤ j < i →
       (id <$> nodes hi) !! Z.to_nat ((j + fd) mod cap hi) ≠ Some (-1))
    (λ i, Z.to_nat (cap hi - i))
    (λ r, ∃ k, r = Some k ∧ 0 ≤ k < cap hi ∧ (id <$> nodes hi) !! Z.to_nat k = Some (-1))
    (free_turn hi fd)) with (fuel := S (Z.to_nat (cap hi))) (s := 0) as (r & Hl & k & -> & Hk);
    [|split; [lia|lia]|lia|by exists k].
  intros i [Hi Hno]. unfold free_turn. destruct (Z.ltb_spec i (cap hi)) as [Hlt|Hge].
  - unfold INT_MAX in Hfd. rewrite cint_in by (unfold INT_MIN, INT_MAX; lia). bsimpl.
    rewrite Z.rem_mod_nonneg by lia. pose proof (Z.mod_pos_bound (i + fd) (cap hi)) as Hmod.
    destruct (aget_in (nodes hi) ((i + fd) mod cap hi)) as (n & -> & Hnl); [lia|]. bsimpl.
    assert (Hid : (id <$> nodes hi) !! Z.to_nat ((i + fd) mod cap hi) = Some (id n))
      by (by rewrite list_lookup_fmap, Hnl).
    destruct (Z.eqb_spec (id n) (-1)) as [Heq|Hne].
    + right. eexists. split; [done|]. eexists. split; [done|]. split; [lia|]. by rewrite Hid, Heq.
    + left. eexists. split; [done|]. split; [|lia]. split; [lia|]. intros j Hj.
      destruct (decide (j = i)) as [->|]; [rewrite Hid; congruence|]. apply Hno. lia.
  - exfalso. apply (Hno ((k0 - fd) mod cap hi)).
    + pose proof (Z.mod_pos_bound (k0 - fd) (cap hi)). lia.
    + rewrite Z.add_mod_idemp_l, Z.sub_add, Z.mod_small by lia. done.
Qed.

Lemma hashid_insert_spec hi m b fd :
  hashid_rep_with hi m b → Z.of_nat (size m) < cap hi → 0 ≤ fd ≤ INT_MAX - cap hi →
  m !! fd = None →
  ∃ k hi', hashid_insert hi fd = Ret (k, hi') ∧ hashid_rep hi' (<[fd := k]> m) ∧
    cap hi' = cap hi ∧ 0 ≤ k < cap hi ∧ ∀ fd', m !! fd' ≠ Some k.
Proof.
  intros Hr Hsz Hfd Hm.
  destruct (free_loop hi m b fd Hr Hsz Hfd) as (k & Hl & Hk & Hid).
  pose proof (hr_nodes _ _ _ Hr) as Hn. pose proof (hr_hash _ _ _ Hr) as Hhl.
  unfold hashid_insert. rewrite Hl. bsimpl.
  destruct (aget_in (nodes hi) k) as (n & -> & Hnl); [lia|]. bsimpl.
  rewrite list_lookup_fmap, Hnl in Hid. injection Hid as Hid.
  assert (Hnx : next n = None).
  { apply (hr_free _ _ _ Hr (Z.to_nat k)). rewrite Hnl. destruct n. cbn in *. by rewrite Hid. }
  rewrite bool_decide_eq_true_2 by done. cbn [assert_true]. bsimpl.
  pose proof (bucket_range hi m b Hr fd) as Hbr.
  destruct (bucket_get hi m b Hr fd) as (c & -> & Hc & Hch & Hnd). bsimpl.
  rewrite !aset_in by lia. bsimpl.
  set (h := Z.land fd (hashmod hi)) in *.
  assert (Hnew : ∀ fd', m !! fd' ≠ Some k).
  { intros fd' Hm'. apply (key_node _ _ _ Hr) in Hm' as (Hne & _ & Hl').
    rewrite list_lookup_fmap, Hnl in Hl'. cbn in Hl'. congruence. }
  assert (Hnob : ∀ x, 0 ≤ x ≤ hashmod hi → k ∉ b x).
  { intros x Hx (fd' & Hm' & _)%(hr_bucket _ _ _ Hr); [|done]. by destruct (Hnew fd'). }
  eexists k, _. split; [done|]. split_and!; [|done|lia|lia|done].
  exists (λ x, if decide (x = h) then k :: b x else b x).
  assert (Hframe : ∀ x c', 0 ≤ x ≤ hashmod hi → chain (nodes hi) c' (b x) →
    chain (<[Z.to_nat k:=MkNode fd c]> (nodes hi)) c' (b x)).
  { intros x c' Hx Hc'. apply chain_frame with (nodes hi); [|done]. intros j Hj.
    apply list_lookup_insert_ne. intros E. pose proof (chain_in _ _ _ _ Hc' Hj).
    apply (Hnob x Hx). by replace k with j by lia. }
  split; cbn [cap nodes hashmod hash count].
  - apply Hr.
  - by rewrite zlen_insert.
  - apply Hr.
  - by rewrite zlen_insert.
  - rewrite (hr_count _ _ _ Hr), map_size_insert_None by done. lia.
  - intros fd' j. rewrite list_fmap_insert. cbn [id].
    destruct (decide (fd' = fd)) as [->|Hne].
    + rewrite lookup_insert_eq. split.
      * intros [= <-]. split_and!; [lia|lia|]. apply list_lookup_insert_eq.
        rewrite length_fmap. unfold zlen in Hn. lia.
      * intros (_ & Hj & Hl'). apply list_lookup_insert_Some in Hl' as [(E & _ & _)|(_ & Hl')].
        -- f_equal. lia.
        -- exfalso. assert (m !! fd = Some j) by (apply (hr_used _ _ _ Hr); split_and!; [lia|done|done]).
           congruence.
    + rewrite lookup_insert_ne, (hr_used _ _ _ Hr) by done. split.
      * intros (? & ? & Hl'). split_and!; [done|done|]. rewrite list_lookup_insert_ne; [done|].
        intros E. rewrite <-E, list_lookup_fmap, Hnl in Hl'. cbn in Hl'. congruence.
      * intros (? & ? & Hl'). split_and!; [done|done|].
        apply list_lookup_insert_Some in Hl' as [(_ & ? & _)|(_ & Hl')]; [congruence|done].
  - intros j nx Hj. apply list_lookup_insert_Some in Hj as [(_ & [= E _] & _)|(_ & Hj)]; [lia|].
    by eapply (hr_free _ _ _ Hr).
  - intros j c' Hj. apply list_lookup_insert_Some in Hj as [(<- & <- & _)|(Hne & Hj)].
    + rewrite Z2Nat.id by lia. destruct (decide (h = h)); [|done]. split.
      * split_and!; [done|lia|]. exists (MkNode fd c).
        split; [apply list_lookup_insert_eq; unfold zlen in Hn; lia|]. by apply Hframe.
      * apply NoDup_cons. split; [by apply Hnob|done].
    + destruct (decide (Z.of_nat j = h)); [lia|].
      destruct (hr_chain _ _ _ Hr _ _ Hj) as [Hc' Hn']. split; [|done].
      apply Hframe; [|done]. apply lookup_lt_Some in Hj. unfold zlen in Hhl. lia.
  - intros x j Hx. destruct (decide (x = h)) as [->|Hne].
    + rewrite elem_of_cons, (hr_bucket _ _ _ Hr) by done. split.
      * intros [->|(fd' & Hm' & Hl')]; [exists fd; by rewrite lookup_insert_eq|].
        exists fd'. rewrite lookup_insert_ne by congruence. done.
      * intros (fd' & Hm' & Hl'). apply lookup_insert_Some in Hm' as [[<- <-]|[Hne Hm']]; [by left|].
        right. by exists fd'.
    + rewrite (hr_bucket _ _ _ Hr) by done. split; intros (fd' & Hm' & Hl'); exists fd'.
      * rewrite lookup_insert_ne by congruence. done.
      * apply lookup_insert_Some in Hm' as [[E _]|[_ ?]]; [|done].
        destruct Hne. unfold h. by rewrite E, Hl'.
Qed.

Lemma hashid_init_spec max :
  0 < max ≤ 2 ^ 30 → ∃ hi, hashid_init max = Ret hi ∧ hashid_rep hi ∅ ∧ cap hi = max.
Proof.
  intros Hmax. unfold hashid_init.
  destruct (loop_total
    (λ c, ∃ k, 4 ≤ k ≤ 30 ∧ c = 2 ^ k) (λ c, Z.to_nat (31 - Z.log2 c))
    (λ r, ∃ k, 4 ≤ k ≤ 30 ∧ r = 2 ^ k) (hashcap_turn max)) with (fuel := 32%nat) (s := 16)
    as (r & -> & k & Hk & ->).
  - intros c (k & Hk & ->). unfold hashcap_turn. destruct (Z.ltb_spec (2 ^ k) max) as [Hlt|Hge].
    + left. assert (Hk30 : k < 30) by (apply (Z.pow_lt_mono_r_iff 2); lia).
      pose proof (Z.pow_pos_nonneg 2 k).
      rewrite cint_in by (unfold INT_MIN, INT_MAX; lia). bsimpl. eexists. split; [done|].
      replace (2 ^ k * 2) with (2 ^ (k + 1)) by (rewrite Z.pow_add_r; lia).
      split; [exists (k + 1); split; [lia|done]|]. rewrite !Z.log2_pow2 by lia. lia.
    + right. eexists. split; [done|]. by exists k.
  - exists 4. done.
  - cbn. lia.
  - bsimpl. eexists. split; [done|]. split; [|done]. exists (λ _, []).
    pose proof (Z.pow_pos_nonneg 2 k).
    split; cbn [cap nodes hashmod hash count]; unfold zlen; rewrite ?length_replicate.
    + lia.
    + lia.
    + exists k. split; [lia|done].
    + lia.
    + by rewrite map_size_empty.
    + intros fd j. rewrite lookup_empty, fmap_replicate. split; [done|].
      intros (Hne & _ & [E _]%lookup_replicate_1). by destruct (Hne E).
    + intros j nx [[= <-] _]%lookup_replicate_1. done.
    + intros j c [-> _]%lookup_replicate_1. split; [done|constructor].
    + intros x j _. split; [set_solver|]. intros (fd & Hm & _). by rewrite lookup_empty in Hm.
Qed.

Lemma size_le_cap hi m b : hashid_rep_with hi m b → Z.of_nat (size m) ≤ cap hi.
Proof.
  intros Hr. rewrite <-(hr_nodes _ _ _ Hr), <-size_dom. unfold zlen.
  apply Nat2Z.inj_le. rewrite <-(length_fmap id).
  change (size (dom m)) with (length (elements (dom m))).
  apply submseteq_length, NoDup_submseteq; [apply NoDup_elements|].
  intros fd Hin%elem_of_elements%elem_of_dom. destruct Hin as [k Hm].
  apply (key_node _ _ _ Hr) in Hm as (_ & _ & Hl). by eapply list_elem_of_lookup_2.
Qed.

(** *** The operations on an abstract table, for the code that uses it *)

Lemma rep_key_range hi m fd k :
  hashid_rep hi m → m !! fd = Some k → fd ≠ -1 ∧ 0 ≤ k < cap hi.
Proof. intros [b Hr] Hm. by apply (key_node _ _ _ Hr) in Hm as (? & ? & _). Qed.

Lemma rep_inj hi m fd fd' k : hashid_rep hi m → m !! fd = Some k → m !! fd' = Some k → fd = fd'.
Proof.
  intros [b Hr] (_ & _ & H)%(key_node _ _ _ Hr) (_ & _ & H')%(key_node _ _ _ Hr). congruence.
Qed.

Lemma rep_lookup hi m fd : hashid_rep hi m → hashid_lookup hi fd = Ret (default (-1) (m !! fd)).
Proof.
  intros [b Hr]. destruct (decide (fd = -1)) as [->|Hfd]; [|by eapply hashid_lookup_spec].
  erewrite hashid_lookup_none by done. destruct (m !! (-1)) eqn:Hm; [|done].
  by apply (key_node _ _ _ Hr) in Hm as [? _].
Qed.

Lemma rep_remove hi m fd :
  hashid_rep hi m → fd ≠ -1 →
  ∃ hi', hashid_remove hi fd = Ret (default (-1) (m !! fd), hi') ∧
    hashid_rep hi' (delete fd m) ∧ cap hi' = cap hi.
Proof. intros [b Hr] Hfd. by eapply hashid_remove_spec. Qed.

Lemma rep_full hi m :
  hashid_rep hi m →
  hashid_full hi = bool_decide (Z.of_nat (size m) = cap hi) ∧ Z.of_nat (size m) ≤ cap hi.
Proof.
  intros [b Hr]. pose proof (size_le_cap hi m b Hr). split; [|done].
  unfold hashid_full. rewrite (hr_count _ _ _ Hr). case_bool_decide; lia.
Qed.

Lemma rep_insert hi m fd :
  hashid_rep hi m → hashid_full hi = false → 0 ≤ fd ≤ INT_MAX - cap hi → m !! fd = None →
  ∃ k hi', hashid_insert hi fd = Ret (k, hi') ∧ hashid_rep hi' (<[fd := k]> m) ∧
    cap hi' = cap hi ∧ 0 ≤ k < cap hi ∧ ∀ fd', m !! fd' ≠ Some k.
Proof.
  intros Hrep Hnf Hfd Hm. destruct (rep_full hi m Hrep) as [Hfull Hsz]. destruct Hrep as [b Hr].
  rewrite Hfull in Hnf. apply bool_decide_eq_false in Hnf.
  eapply hashid_insert_spec; [done|lia|done|done].
Qed.

(** [hashid] implements a finite map from ids to node numbers: an empty
    one after [hashid_init]; [hashid_lookup] is the lookup (-1: absent);
    [hashid_remove] deletes; [hashid_insert], on a table that is not full,
    binds an absent id to a node that no other id has; [hashid_full] tells
    whether every node is taken. *)
Theorem hashid_refines_map :
  (∀ max, 0 < max ≤ 2 ^ 30 → ∃ hi, hashid_init max = Ret hi ∧ hashid_rep hi ∅ ∧ cap hi = max) ∧
  ∀ hi m, hashid_rep hi m →
    (∀ fd, hashid_lookup hi fd = Ret (default (-1) (m !! fd))) ∧
    (∀ fd, fd ≠ -1 → ∃ hi', hashid_remove hi fd = Ret (default (-1) (m !! fd), hi') ∧
       hashid_rep hi' (delete fd m) ∧ cap hi' = cap hi) ∧
    (∀ fd, hashid_full hi = false → 0 ≤ fd ≤ INT_MAX - cap hi → m !! fd = None →
       ∃ k hi', hashid_insert hi fd = Ret (k, hi') ∧ hashid_rep hi' (<[fd := k]> m) ∧
         cap hi' = cap hi ∧ 0 ≤ k < cap hi ∧ ∀ fd', m !! fd' ≠ Some k) ∧
    hashid_full hi = bool_decide (Z.of_nat (size m) = cap hi) ∧ Z.of_nat (size m) ≤ cap hi.
Proof.
  split; [exact hashid_init_spec|]. intros hi m Hr. destruct (rep_full hi m Hr) as [Hf Hsz].
  split_and!; [|intros fd ?; by apply rep_remove|intros fd ???; by apply rep_insert|done|done].
  intros fd. by apply rep_lookup.
Qed.

Lemma hashid_refines_map_witness :
  ∃ hi0 hi1 hi2 k1 k2, hashid_init 4 = Ret hi0 ∧ hashid_insert hi0 5 = Ret (k1, hi1) ∧
    hashid_insert hi1 21 = Ret (k2, hi2) ∧ k1 ≠ k2 ∧ hashid_lookup hi2 5 = Ret k1.
Proof.
  destruct hashid_refines_map as [Hinit Hops].
  destruct (Hinit 4) as (hi0 & H0 & Hr0 & Hc0); [done|].
  destruct (Hops hi0 ∅ Hr0) as (_ & _ & Hins & Hf0 & _).
  destruct (Hins 5) as (k1 & hi1 & H1 & Hr1 & Hc1 & _ & _).
  { rewrite Hf0, Hc0. done. }
  { rewrite Hc0. done. }
  { done. }
  destruct (Hops hi1 _ Hr1) as (_ & _ & Hins1 & Hf1 & _).
  destruct (Hins1 21) as (k2 & hi2 & H2 & Hr2 & Hc2 & _ & Hk2).
  { rewrite Hf1, Hc1, Hc0. done. }
  { rewrite Hc1, Hc0. done. }
  { done. }
  destruct (Hops hi2 _ Hr2) as (Hl2 & _).
  exists hi0, hi1, hi2, k1, k2. split; [exact H0|]. split; [exact H1|]. split; [exact H2|].
  split; [|rewrite Hl2; done]. intros E. apply (Hk2 5). by rewrite E, lookup_insert_eq.
Defined.
