(* ===== verification/DataBuffer.v ===== *)
(** * Buffered socket data

    The model of [service-src/databuffer.h]: the blocks of data a connection
    has received, in a linked list from [head] to [tail], read in portions
    that need not match the blocks. The nodes come from a pool and go back to
    its free list. Every node is in one list, so a list is its nodes. *)
From S2P Require Import Prelude.

Local Open Scope Z_scope.

Definition MESSAGEPOOL : Z := 1023.

(** [struct message]; [None] is a [NULL] buffer. *)
Record message := MkMessage { buffer : option (list Z); msize : Z }.

(** [struct databuffer]; [msgs] are the messages from [head] to [tail]. *)
Record databuffer := MkBuffer { header : Z; offset : Z; size : Z; msgs : list message }.

(** [struct messagepool]: how many arrays of nodes it owns, and the free nodes. *)
Record messagepool := MkPool { pool : nat; freelist : list message }.

#[export] Instance message_eq_dec : EqDecision message.
Proof. solve_decision. Defined.
#[export] Instance databuffer_eq_dec : EqDecision databuffer.
Proof. solve_decision. Defined.
#[export] Instance messagepool_eq_dec : EqDecision messagepool.
Proof. solve_decision. Defined.

(** What [memset] makes. *)
Definition zero_buffer : databuffer := MkBuffer 0 0 0 [].
Definition zero_pool : messagepool := MkPool 0 [].

Definition messagepool_free (mp : messagepool) : messagepool := zero_pool.

Definition _return_message (db : databuffer) (mp : messagepool)
    : outcome (databuffer * messagepool) :=
  match msgs db with
  | [] => Undef
  | _ :: rest =>
      Ret (MkBuffer (header db) (offset db) (size db) rest,
           MkPool (pool mp) (MkMessage None 0 :: freelist mp))
  end.

(** One turn of the [for (;;)] of [databuffer_read]; [out] is what has been
    copied to [buffer] so far. *)
Definition read_turn (s : databuffer * messagepool * list Z * Z)
    : outcome ((databuffer * messagepool * list Z * Z) + (databuffer * messagepool * list Z)) :=
  let '(db, mp, out, sz) := s in
  match msgs db with
  | [] => Undef
  | current :: _ =>
      b ← match buffer current with Some b => Ret b | None => Undef end;
      bsz ← cint (msize current - offset db);
      if sz <? bsz then
        bs ← mread b (offset db) sz;
        Ret (inr (MkBuffer (header db) (offset db + sz) (size db) (msgs db), mp, out ++ bs))
      else if bsz =? sz then
        bs ← mread b (offset db) sz;
        '(db', mp') ← _return_message (MkBuffer (header db) 0 (size db) (msgs db)) mp;
        Ret (inr (db', mp', out ++ bs))
      else
        bs ← mread b (offset db) bsz;
        '(db', mp') ← _return_message db mp;
        Ret (inl (MkBuffer (header db') 0 (size db') (msgs db'), mp', out ++ bs, sz - bsz))
  end.

(** Every turn but the last returns a message. *)
Definition databuffer_read (db : databuffer) (mp : messagepool) (sz : Z)
    : outcome (databuffer * messagepool * list Z) :=
  _ ← assert_true (sz <=? size db);
  loop (S (length (msgs db))) read_turn
    (MkBuffer (header db) (offset db) (size db - sz) (msgs db), mp, [], sz).

(** A new array has [MESSAGEPOOL] nodes; the first is used at once. *)
Definition alloc_message (mp : messagepool) : messagepool :=
  match freelist mp with
  | _ :: rest => MkPool (pool mp) rest
  | [] => MkPool (S (pool mp)) (replicate (Z.to_nat (MESSAGEPOOL - 1)) (MkMessage None 0))
  end.

Definition databuffer_push (db : databuffer) (mp : messagepool) (data : list Z) (sz : Z)
    : outcome (databuffer * messagepool) :=
  size' ← cint (size db + sz);
  Ret (MkBuffer (header db) (offset db) size' (msgs db ++ [MkMessage (Some data) sz]),
       alloc_message mp).

(** The number in the header; [plen[0] << 24] is an [int]. *)
Definition read_plen (header_size : Z) (plen : list Z) : outcome Z :=
  p0 ← aget plen 0;
  p1 ← aget plen 1;
  if header_size =? 2 then Ret (Z.lor (Z.shiftl p0 8) p1)
  else
    p2 ← aget plen 2;
    p3 ← aget plen 3;
    Ret (Z.lor (Z.lor (Z.lor (i32 (Z.shiftl p0 24)) (Z.shiftl p1 16)) (Z.shiftl p2 8)) p3).

Definition databuffer_readheader (db : databuffer) (mp : messagepool) (header_size : Z)
    : outcome (Z * databuffer * messagepool) :=
  let complete (db : databuffer) (mp : messagepool) :=
    Ret (if size db <? header db then -1 else header db, db, mp) in
  if header db =? 0 then
    (* parser header (2 or 4) *)
    if size db <? header_size then Ret (-1, db, mp)
    else
      '(db, mp, plen) ← databuffer_read db mp header_size;
      h ← read_plen header_size plen;
      complete (MkBuffer h (offset db) (size db) (msgs db)) mp
  else complete db mp.

Definition databuffer_reset (db : databuffer) : databuffer :=
  MkBuffer 0 (offset db) (size db) (msgs db).

(** [while (db->head) _return_message(db,mp)], then [memset]. *)
Definition clear_turn (s : databuffer * messagepool)
    : outcome ((databuffer * messagepool) + (databuffer * messagepool)) :=
  let '(db, mp) := s in
  match msgs db with
  | [] => Ret (inr (db, mp))
  | _ :: _ => s' ← _return_message db mp; Ret (inl s')
  end.

Definition databuffer_clear (db : databuffer) (mp : messagepool)
    : outcome (databuffer * messagepool) :=
  '(_, mp') ← loop (S (length (msgs db))) clear_turn (db, mp);
  Ret (zero_buffer, mp').

(** ** The bytes of a buffer *)

Definition data_of (m : message) : list Z := default [] (buffer m).

(** The bytes that have not been read. *)
Definition stream (db : databuffer) : list Z :=
  drop (Z.to_nat (offset db)) (concat (data_of <$> msgs db)).

(** A node that holds data: its size is that of its block. *)
Definition full_message (m : message) : Prop :=
  ∃ b, buffer m = Some b ∧ msize m = zlen b ∧ 0 < zlen b ≤ INT_MAX.

Record buffer_wf (db : databuffer) : Prop := {
  bw_msgs : Forall full_message (msgs db);
  bw_offset : 0 ≤ offset db;
  bw_head m rest : msgs db = m :: rest → offset db < msize m;
  bw_nil : msgs db = [] → offset db = 0;
  bw_size : size db = zlen (stream db)
}.

Lemma zero_buffer_wf : buffer_wf zero_buffer.
Proof. by split. Qed.

Lemma stream_cons h o s m rest b :
  buffer m = Some b → 0 ≤ o ≤ zlen b →
  stream (MkBuffer h o s (m :: rest)) = drop (Z.to_nat o) b ++ concat (data_of <$> rest).
Proof.
  intros Hb Ho. unfold stream. cbn. unfold data_of at 1. rewrite Hb.
  change (default [] (Some b)) with b. unfold zlen in Ho. by rewrite drop_app_le by lia.
Qed.

Lemma stream_zero h s l : stream (MkBuffer h 0 s l) = concat (data_of <$> l).
Proof. done. Qed.

(** The loop of [databuffer_read]; [size] has been lowered already. *)
Lemma read_loop fuel db mp out sz :
  Forall full_message (msgs db) → 0 ≤ offset db →
  (∀ m rest, msgs db = m :: rest → offset db < msize m) →
  0 < sz ≤ zlen (stream db) → size db = zlen (stream db) - sz →
  (length (msgs db) < fuel)%nat →
  ∃ db' mp', loop fuel read_turn (db, mp, out, sz) =
      Ret (db', mp', out ++ take (Z.to_nat sz) (stream db)) ∧
    buffer_wf db' ∧ stream db' = drop (Z.to_nat sz) (stream db) ∧ header db' = header db.
Proof.
  revert db mp out sz. induction fuel as [|fuel IH]; intros db mp out sz Hm Ho Hh Hsz Hsize Hf; [lia|].
  rewrite loop_S. destruct db as [h o s l]. cbn [msgs offset size header] in *.
  destruct l as [|m rest].
  { unfold stream in Hsz. cbn in Hsz. rewrite drop_nil in Hsz. change (zlen []) with 0 in Hsz. lia. }
  apply Forall_cons in Hm as [(b & Hb & Hms & Hbl) Hm].
  specialize (Hh m rest eq_refl). rewrite (stream_cons h o s m rest b Hb) in * by lia.
  set (b1 := drop (Z.to_nat o) b) in *. set (more := concat (data_of <$> rest)) in *.
  assert (Hz1 : zlen b1 = msize m - o) by (unfold b1, zlen in *; rewrite length_drop; lia).
  unfold read_turn at 2. cbn [msgs]. rewrite Hb. bsimpl. cbn [offset].
  rewrite cint_in by (unfold INT_MIN, INT_MAX in *; lia). bsimpl.
  assert (Hread : ∀ k, 0 ≤ k ≤ zlen b1 → mread b o k = Ret (take (Z.to_nat k) b1)).
  { intros k Hk. apply mread_in; lia. }
  assert (Hfull : ∀ k, zlen b1 ≤ k → take (Z.to_nat k) (b1 ++ more) = b1 ++ take (Z.to_nat (k - zlen b1)) more).
  { intros k Hk. rewrite take_app_ge by (unfold zlen in Hk; lia). do 2 f_equal. unfold zlen in *. lia. }
  assert (Hrest : ∀ k, zlen b1 ≤ k → drop (Z.to_nat k) (b1 ++ more) = drop (Z.to_nat (k - zlen b1)) more).
  { intros k Hk. rewrite drop_app_ge by (unfold zlen in Hk; lia). f_equal. unfold zlen in *. lia. }
  destruct (Z.ltb_spec sz (msize m - o)) as [Hlt|Hge]; [|destruct (Z.eqb_spec (msize m - o) sz) as [Heq|Hne]].
  - rewrite Hread by lia. bsimpl. eexists _, _. split; [|split; [|split]].
    + rewrite take_app_le by (unfold zlen in *; lia). done.
    + split; cbn [msgs offset size].
      * constructor; [by exists b|done].
      * lia.
      * intros m' rest' [= <- <-]. lia.
      * done.
      * rewrite (stream_cons _ _ _ m rest b Hb) by lia. rewrite Hsize, !zlen_app. fold more.
        assert (zlen (drop (Z.to_nat (o + sz)) b) = zlen b1 - sz).
        { unfold zlen in *. rewrite length_drop. lia. }
        lia.
    + rewrite (stream_cons _ _ _ m rest b Hb) by lia. fold more.
      rewrite drop_app_le by (unfold zlen in *; lia). unfold b1. rewrite drop_drop. do 2 f_equal. lia.
    + done.
  - rewrite Hread by lia. bsimpl. cbn [_return_message msgs header offset size]. bsimpl.
    eexists _, _. split; [|split; [|split]].
    + rewrite Hfull by lia. rewrite (take_ge b1) by (unfold zlen in *; lia).
      replace (sz - zlen b1) with 0 by lia. by rewrite take_0, app_nil_r.
    + split; cbn [msgs offset size]; [done|lia| |done|].
      * intros m' rest' ->. apply Forall_cons in Hm as [(b' & _ & ? & ?) _]. lia.
      * rewrite stream_zero, Hsize, zlen_app. fold more. lia.
    + rewrite stream_zero, Hrest by lia. by replace (sz - zlen b1) with 0 by lia.
    + done.
  - rewrite Hread by lia. bsimpl. cbn [_return_message msgs header offset size]. bsimpl. cbn [msgs header offset size].
    destruct (IH (MkBuffer h 0 s rest) (MkPool (pool mp) (MkMessage None 0 :: freelist mp))
      (out ++ take (Z.to_nat (msize m - o)) b1) (sz - (msize m - o))) as (db' & mp' & Hl & Hwf & Hst & Hhd);
      cbn [msgs offset size].
    + done.
    + lia.
    + intros m' rest' ->. apply Forall_cons in Hm as [(b' & _ & ? & ?) _]. lia.
    + rewrite stream_zero. fold more. rewrite zlen_app in Hsz. lia.
    + rewrite stream_zero. fold more. rewrite Hsize, zlen_app. lia.
    + cbn in Hf. lia.
    + exists db', mp'. rewrite Hl, stream_zero. fold more. rewrite stream_zero in Hst. fold more in Hst.
      rewrite (take_ge b1) by (unfold zlen in *; lia).
      split; [|split; [done|split; [|done]]].
      * rewrite Hfull by lia. rewrite <-app_assoc. do 5 f_equal. lia.
      * rewrite Hrest by lia. rewrite Hst. do 2 f_equal. lia.
Qed.

Lemma databuffer_read_spec db mp sz :
  buffer_wf db → 0 < sz ≤ zlen (stream db) →
  ∃ db' mp', databuffer_read db mp sz = Ret (db', mp', take (Z.to_nat sz) (stream db)) ∧
    buffer_wf db' ∧ stream db' = drop (Z.to_nat sz) (stream db) ∧ header db' = header db.
Proof.
  intros [Hm Ho Hh Hn Hs] Hsz. unfold databuffer_read.
  rewrite (proj2 (Z.leb_le _ _)) by lia. cbn [assert_true]. bsimpl.
  apply (read_loop (S (length (msgs db)))
    (MkBuffer (header db) (offset db) (size db - sz) (msgs db)) mp [] sz); cbn [msgs offset size]; try done.
  - unfold stream in *. cbn [offset msgs]. lia.
  - lia.
Qed.

Lemma databuffer_push_spec db mp data :
  buffer_wf db → 0 < zlen data → size db + zlen data ≤ INT_MAX →
  ∃ db', databuffer_push db mp data (zlen data) = Ret (db', alloc_message mp) ∧
    buffer_wf db' ∧ stream db' = stream db ++ data ∧ header db' = header db.
Proof.
  intros [Hm Ho Hh Hn Hs] Hd Hmax. pose proof (zlen_nonneg (stream db)). unfold databuffer_push.
  unfold INT_MAX in Hmax. rewrite cint_in by (unfold INT_MIN, INT_MAX; lia). bsimpl.
  assert (Hst : drop (Z.to_nat (offset db)) (concat (data_of <$> msgs db ++ [MkMessage (Some data) (zlen data)])) =
    stream db ++ data).
  { rewrite fmap_app, concat_app. cbn [fmap list_fmap concat].
    change (data_of (MkMessage (Some data) (zlen data))) with data. rewrite app_nil_r. unfold stream. destruct (msgs db) as [|m rest] eqn:Hl.
    - rewrite (Hn eq_refl). done.
    - apply Forall_cons in Hm as [(b & Hb & Hms & Hbl) Hm]. specialize (Hh m rest eq_refl).
      assert (Hdm : data_of m = b) by (unfold data_of; by rewrite Hb).
      cbn [fmap list_fmap concat]. rewrite Hdm. unfold zlen in *.
      by rewrite drop_app_le by (rewrite length_app; lia). }
  eexists. split; [done|]. split; [|split; [exact Hst|done]]. split; cbn [msgs offset size].
  - apply Forall_app. split; [done|]. repeat constructor. exists data. unfold INT_MAX.
    split_and!; [done|done|done|lia].
  - done.
  - intros m rest Hl. destruct (msgs db) as [|m' rest'] eqn:E.
    + injection Hl as <- _. rewrite (Hn eq_refl). done.
    + injection Hl as <- _. by eapply Hh.
  - by destruct (msgs db).
  - unfold stream. cbn [offset msgs]. rewrite Hst, zlen_app. lia.
Qed.

Lemma databuffer_clear_spec db mp :
  ∃ mp', databuffer_clear db mp = Ret (zero_buffer, mp').
Proof.
  unfold databuffer_clear.
  destruct (loop_total (λ _, True) (λ s, length (msgs s.1)) (λ _, True) clear_turn)
    with (fuel := S (length (msgs db))) (s := (db, mp)) as ([db' mp'] & -> & _); [|done|cbn; lia|].
  - intros [db' mp'] _. unfold clear_turn. destruct (msgs db') as [|m rest] eqn:E; [by right; eauto|].
    left. unfold _return_message. rewrite E. bsimpl. eexists. split; [done|]. cbn. rewrite E.
    split; [done|cbn; lia].
  - bsimpl. by exists mp'.
Qed.
