(* ===== verification/Gate.v ===== *)
(** * The gate service

    The model of [service-src/service_gate.cpp]: it accepts connections, cuts
    their data into packages by a length header of 2 or 4 bytes and forwards
    every package to a broker, to the agent of the connection or to the
    watchdog. What the service asks of the rest of the server is a list of
    actions, in the order of the calls; the answers of [fengnet_queryname] and
    [fengnet_socket_listen] are arguments of the model. Characters are their
    codes. *)
From S2P Require Import Prelude Text Netpack HashId DataBuffer.

Local Open Scope Z_scope.

(** ** Data *)

Definition BACKLOG : Z := 128.
Definition REMOTE_NAME_SIZE : Z := 32.
Definition PTYPE_TEXT : Z := 0.
Definition PTYPE_CLIENT : Z := 3.
Definition PTYPE_SOCKET : Z := 6.
Definition PTYPE_TAG_DONTCOPY : Z := 0x10000.

(** [struct connection]. *)
Record connection := MkConn {
  c_id : Z;
  agent : Z;
  client : Z;
  remote_name : list Z;
  c_buffer : databuffer
}.

#[export] Instance connection_eq_dec : EqDecision connection.
Proof. solve_decision. Defined.

Definition set_buffer (c : connection) (db : databuffer) : connection :=
  MkConn (c_id c) (agent c) (client c) (remote_name c) db.
Definition set_agent (c : connection) (agent' client' : Z) : connection :=
  MkConn (c_id c) agent' client' (remote_name c) (c_buffer c).

(** [struct gate]; [ctx] is the context of every call below. *)
Record gate := MkGate {
  listen_id : Z;
  watchdog : Z;
  broker : Z;
  client_tag : Z;
  header_size : Z;
  max_connection : Z;
  ids : hashid;
  conn : list connection;
  mp : messagepool
}.

Definition set_listen (g : gate) (v : Z) : gate :=
  MkGate v (watchdog g) (broker g) (client_tag g) (header_size g) (max_connection g)
    (ids g) (conn g) (mp g).
Definition set_broker (g : gate) (v : Z) : gate :=
  MkGate (listen_id g) (watchdog g) v (client_tag g) (header_size g) (max_connection g)
    (ids g) (conn g) (mp g).
Definition set_conns (g : gate) (h : hashid) (l : list connection) (p : messagepool) : gate :=
  MkGate (listen_id g) (watchdog g) (broker g) (client_tag g) (header_size g)
    (max_connection g) h l p.

(** The calls into the rest of the server. A log line is its format and its
    numbers. *)
Inductive action :=
| Send (source destination type session : Z) (msg : list Z)
| SocketClose (fd : Z)
| SocketStart (fd : Z)
| SocketListen (host : list Z) (port backlog : Z)
| SocketSend (fd : Z) (msg : list Z)
| LogError (format : string) (args : list Z).

#[export] Instance action_eq_dec : EqDecision action.
Proof. solve_decision. Defined.

(** ** Strings *)

(** [memcmp(command, literal, n) == 0]: the bytes are compared one after the
    other, so a difference ends it; [n] may exceed the literal. *)
Fixpoint same_bytes (n : nat) (s lit : list Z) : outcome bool :=
  match n with
  | O => Ret true
  | S n' =>
      match s, lit with
      | a :: s', b :: lit' => if a =? b then same_bytes n' s' lit' else Ret false
      | _, _ => Undef
      end
  end.

Definition is_command (n : nat) (s : list Z) (name : string) : outcome bool :=
  same_bytes n s (codes name ++ [0]).

(** [strsep(&s, " ")] in a buffer: the pointer to the token, whose separator
    becomes a NUL, and the pointer behind it. A pointer is what follows it. *)
Fixpoint strsep (s : list Z) : list Z * option (list Z) :=
  match s with
  | [] => ([], None)
  | c :: s' =>
      if c =? 0 then (s, None)
      else if c =? 32 then (0 :: s', Some s')
      else let '(t, r) := strsep s' in (c :: t, r)
  end.

(** [p + 1]. *)
Definition succ_ptr (p : list Z) : outcome (list Z) :=
  match p with [] => Undef | _ :: p' => Ret p' end.

(** ** Control messages *)

(** The index of the first space, or the length. *)
Fixpoint command_end (s : list Z) : nat :=
  match s with
  | [] => O
  | c :: s' => if c =? 32 then O else S (command_end s')
  end.

Definition parm_turn (msg : list Z) (sz command_sz : Z) : outcome (Z + Z) :=
  if command_sz <? sz then
    c ← aget msg command_sz;
    if negb (c =? 32) then Ret (inr command_sz) else Ret (inl (command_sz + 1))
  else Ret (inr command_sz).

(** [_parm]: the parameters move to the front of [msg]. *)
Definition _parm (msg : list Z) (sz command_sz : Z) : outcome (list Z) :=
  start ← loop (S (length msg)) (parm_turn msg sz) command_sz;
  msg' ← for_loop (Z.to_nat (sz - start)) start
    (λ i m, c ← aget m i; aset m (i - start) c) msg;
  aset msg' (Z.max start sz - start) 0.

Section control.
(** [fengnet_queryname]. *)
Context (queryname : list Z → Z).

Definition _forward_agent (g : gate) (fd agentaddr clientaddr : Z) : outcome gate :=
  id ← hashid_lookup (ids g) fd;
  if 0 <=? id then
    c ← aget (conn g) id;
    l ← aset (conn g) id (set_agent c agentaddr clientaddr);
    Ret (set_conns g (ids g) l (mp g))
  else Ret g.

(** [agent+1] and [client+1] skip the colon of an address. *)
Definition forward_command (g : gate) (tmp : list Z) : outcome gate :=
  match strsep tmp with
  | (idstr, None) => Ret g
  | (idstr, Some client) =>
      match strsep client with
      | (agent, None) => Ret g
      | (agent, Some client) =>
          a ← succ_ptr agent;
          c ← succ_ptr client;
          _forward_agent g (strtol10 idstr) (strtoul16 a) (strtoul16 c)
      end
  end.

Definition _ctrl (g : gate) (w : list action) (msg : list Z) (sz : Z)
    : outcome (gate * list action) :=
  bytes ← mread msg 0 sz;
  let tmp := bytes ++ [0] in
  if sz =? 0 then Ret (g, w)
  else
    let i := command_end bytes in
    is_kick ← is_command i tmp "kick";
    if (is_kick : bool) then
      command ← _parm tmp sz (Z.of_nat i);
      let uid := strtol10 command in
      id ← hashid_lookup (ids g) uid;
      Ret (g, if 0 <=? id then w ++ [SocketClose uid] else w)
    else
    is_forward ← is_command i tmp "forward";
    if (is_forward : bool) then
      tmp ← _parm tmp sz (Z.of_nat i);
      g' ← forward_command g tmp;
      Ret (g', w)
    else
    is_broker ← is_command i tmp "broker";
    if (is_broker : bool) then
      command ← _parm tmp sz (Z.of_nat i);
      Ret (set_broker g (queryname (c_str command)), w)
    else
    is_start ← is_command i tmp "start";
    if (is_start : bool) then
      command ← _parm tmp sz (Z.of_nat i);
      let uid := strtol10 command in
      id ← hashid_lookup (ids g) uid;
      Ret (g, if 0 <=? id then w ++ [SocketStart uid] else w)
    else
    is_close ← is_command i tmp "close";
    if (is_close : bool) then
      if 0 <=? listen_id g then Ret (set_listen g (-1), w ++ [SocketClose (listen_id g)])
      else Ret (g, w)
    else Ret (g, w ++ [LogError "[gate] Unkown command : %s" (c_str tmp)]).
End control.

(** ** Data of a connection *)

Definition _report (g : gate) (w : list action) (text : list Z) : list action :=
  if watchdog g =? 0 then w else w ++ [Send 0 (watchdog g) PTYPE_TEXT 0 text].

(** The connection [k] of [g], and [g] with another connection and pool. *)
Definition get_conn (g : gate) (k : Z) : outcome connection := aget (conn g) k.
Definition put_conn (g : gate) (k : Z) (c : connection) (p : messagepool) : outcome gate :=
  l ← aset (conn g) k c; Ret (set_conns g (ids g) l p).

Definition _forward (g : gate) (w : list action) (k size : Z) : outcome (gate * list action) :=
  c ← get_conn g k;
  let fd := c_id c in
  let read_package :=
    '(db, p, temp) ← databuffer_read (c_buffer c) (mp g) size;
    g' ← put_conn g k (set_buffer c db) p;
    Ret (g', temp) in
  if fd <=? 0 then Ret (g, w) (* socket error *)
  else if negb (broker g =? 0) then
    '(g', temp) ← read_package;
    Ret (g', w ++ [Send 0 (broker g) (Z.lor (client_tag g) PTYPE_TAG_DONTCOPY) fd temp])
  else if negb (agent c =? 0) then
    '(g', temp) ← read_package;
    Ret (g', w ++ [Send (client c) (agent c) (Z.lor (client_tag g) PTYPE_TAG_DONTCOPY) fd temp])
  else if negb (watchdog g =? 0) then
    '(g', temp) ← read_package;
    Ret (g', w ++ [Send 0 (watchdog g) (Z.lor PTYPE_TEXT PTYPE_TAG_DONTCOPY) fd
                     (decimal fd ++ codes " data " ++ temp)])
  else Ret (g, w).

(** What the loop of [dispatch_message] does with the [size] of the header. *)
Definition handle_size (k fd : Z) (g : gate) (w : list action) (size : Z) (db : databuffer)
    (p : messagepool) : outcome ((gate * list action) + (gate * list action)) :=
  c ← get_conn g k;
  g1 ← put_conn g k (set_buffer c db) p;
  if size <? 0 then Ret (inr (g1, w))
  else if 0 <? size then
    if 0x1000000 <=? size then
      '(db', p') ← databuffer_clear db p;
      g2 ← put_conn g1 k (set_buffer c db') p';
      Ret (inr (g2, w ++ [SocketClose fd; LogError "Recv socket message > 16M" []]))
    else
      '(g2, w2) ← _forward g1 w k size;
      c2 ← get_conn g2 k;
      g3 ← put_conn g2 k (set_buffer c2 (databuffer_reset (c_buffer c2))) (mp g2);
      Ret (inl (g3, w2))
  else Ret (inl (g1, w)).

(** One turn of its [for (;;)]. *)
Definition dispatch_turn (k fd : Z) (s : gate * list action)
    : outcome ((gate * list action) + (gate * list action)) :=
  let '(g, w) := s in
  c ← get_conn g k;
  '(size, db, p) ← databuffer_readheader (c_buffer c) (mp g) (header_size g);
  handle_size k fd g w size db p.

(** Every turn but the last reads a header or a package. *)
Definition dispatch_fuel (db : databuffer) : nat := Z.to_nat (2 * size db + 3).

Definition dispatch_message (g : gate) (w : list action) (k fd : Z) (data : list Z) (sz : Z)
    : outcome (gate * list action) :=
  c ← get_conn g k;
  '(db, p) ← databuffer_push (c_buffer c) (mp g) data sz;
  g1 ← put_conn g k (set_buffer c db) p;
  loop (dispatch_fuel db) (dispatch_turn k fd) (g1, w).

(** ** Socket messages *)

Definition zero_name : list Z := replicate (Z.to_nat REMOTE_NAME_SIZE) 0.

(** After [memset(c, 0, sizeof( *c))] and [c->id = -1]. *)
Definition closed_connection : connection := MkConn (-1) 0 0 zero_name zero_buffer.

(** [sz] is what follows the message: the address of the peer. *)
Definition dispatch_socket_message (g : gate) (w : list action)
    (message : fengnet_socket_message) (sz : Z) : outcome (gate * list action) :=
  if m_type message =? FENGNET_SOCKET_TYPE_DATA then
    id ← hashid_lookup (ids g) (m_id message);
    if 0 <=? id then
      match m_buffer message with
      | None => Undef
      | Some data => dispatch_message g w id (m_id message) data (m_ud message)
      end
    else
      Ret (g, w ++ [LogError "Drop unknown connection %d message" [m_id message];
                    SocketClose (m_id message)])
  else if m_type message =? FENGNET_SOCKET_TYPE_CONNECT then
    if m_id message =? listen_id g then Ret (g, w) (* start listening *)
    else
      id ← hashid_lookup (ids g) (m_id message);
      Ret (g, if id <? 0
              then w ++ [LogError "Close unknown connection %d" [m_id message];
                         SocketClose (m_id message)]
              else w)
  else if (m_type message =? FENGNET_SOCKET_TYPE_CLOSE)
       || (m_type message =? FENGNET_SOCKET_TYPE_ERROR) then
    '(id, h) ← hashid_remove (ids g) (m_id message);
    let g1 := set_conns g h (conn g) (mp g) in
    if 0 <=? id then
      c ← get_conn g1 id;
      '(_, p) ← databuffer_clear (c_buffer c) (mp g1);
      g2 ← put_conn g1 id closed_connection p;
      Ret (g2, _report g2 w (decimal (m_id message) ++ codes " close"))
    else Ret (g1, w)
  else if m_type message =? FENGNET_SOCKET_TYPE_ACCEPT then
    _ ← assert_true (listen_id g =? m_id message);
    if hashid_full (ids g) then Ret (g, w ++ [SocketClose (m_ud message)])
    else
      '(id, h) ← hashid_insert (ids g) (m_ud message);
      c ← get_conn g id;
      let sz := if REMOTE_NAME_SIZE <=? u64 sz then REMOTE_NAME_SIZE - 1 else sz in
      name ← mread (m_padding message) 0 sz;
      name' ← mwrite (remote_name c) 0 name;
      name'' ← aset name' sz 0;
      l ← aset (conn g) id (MkConn (m_ud message) (agent c) (client c) name'' (c_buffer c));
      let g' := set_conns g h l (mp g) in
      let fd := decimal (m_ud message) in
      Ret (g', _report g' w (fd ++ codes " open " ++ fd ++ [32] ++ c_str name'' ++ codes ":0")
               ++ [LogError "socket open: %x" [m_ud message]])
  else if m_type message =? FENGNET_SOCKET_TYPE_WARNING then
    Ret (g, w ++ [LogError "fd (%d) send buffer (%d)K" [m_id message; m_ud message]])
  else Ret (g, w).

(** What the callback receives: a text, bytes for a client, or a socket message. *)
Inductive gate_message :=
| TextMessage (msg : list Z)
| ClientMessage (msg : list Z)
| SocketMessage (message : fengnet_socket_message)
| OtherMessage.

(** [_cb]; a result of 1 keeps the message. *)
Definition _cb (queryname : list Z → Z) (g : gate) (w : list action) (source : Z)
    (m : gate_message) : outcome (Z * (gate * list action)) :=
  match m with
  | TextMessage msg => r ← _ctrl queryname g w msg (i32 (zlen msg)); Ret (0, r)
  | ClientMessage msg =>
      let sz := zlen msg in
      if sz <=? 4 then Ret (0, (g, w ++ [LogError "Invalid client message from %x" [source]]))
      else
        idbuf ← mread msg (sz - 4) 4;
        b0 ← aget idbuf 0; b1 ← aget idbuf 1; b2 ← aget idbuf 2; b3 ← aget idbuf 3;
        let uid := u32 (Z.lor (Z.lor (Z.lor b0 (Z.shiftl b1 8)) (Z.shiftl b2 16)) (Z.shiftl b3 24)) in
        id ← hashid_lookup (ids g) (i32 uid);
        if 0 <=? id then
          data ← mread msg 0 (sz - 4);
          Ret (1, (g, w ++ [SocketSend (i32 uid) data]))
        else Ret (0, (g, w ++ [LogError "Invalid client id %d from %x" [i32 uid; source]]))
  | SocketMessage message =>
      r ← dispatch_socket_message g w message (i32 (zlen (m_padding message)));
      Ret (0, r)
  | OtherMessage => Ret (0, (g, w))
  end.

(** ** Starting and stopping *)

Definition zero_hashid : hashid := MkHashid 0 0 0 [] [].

Definition gate_create : gate := MkGate (-1) 0 0 0 0 0 zero_hashid [] zero_pool.

(** What [sscanf(parm, "%c %s %s %d %d", ...)] reads: [None] when there are
    fewer than four fields, and [max] keeps its 0 when there are four. *)
Definition scan_parm (parm : list Z) : option (Z * list Z * list Z * Z * Z) :=
  match parm with
  | [] => None
  | header :: s =>
      '(watchdog, s) ← scan_word s;
      '(binding, s) ← scan_word s;
      '(client_tag, s) ← scan_int s;
      Some (header, watchdog, binding, client_tag, default 0 (fst <$> scan_int s))
  end.

(** [strrchr(s, ':')]: what is before and behind the last colon. *)
Fixpoint last_colon (s : list Z) : option (list Z * list Z) :=
  match s with
  | [] => None
  | c :: s' => match last_colon s' with
               | Some (h, p) => Some (c :: h, p)
               | None => if c =? 58 then Some ([], s') else None
               end
  end.

Section start.
Context (queryname : list Z → Z) (socket_listen : list Z → Z → Z).

Definition start_listen (g : gate) (w : list action) (listen_addr : list Z)
    : Z * (gate * list action) :=
  let invalid := (1, (g, w ++ [LogError "Invalid gate address %s" listen_addr])) in
  let listen (host : list Z) (port : Z) :=
    let fd := socket_listen host port in
    let w1 := w ++ [SocketListen host port BACKLOG] in
    if fd <? 0 then (1, (set_listen g fd, w1)) else (0, (set_listen g fd, w1 ++ [SocketStart fd])) in
  match last_colon listen_addr with
  | None => let port := strtol10 listen_addr in
            if port <=? 0 then invalid else listen [] port
  | Some (host, portstr) => let port := strtol10 portstr in
                            if port <=? 0 then invalid else listen host port
  end.

(** [parm] is a C string; [None] is [NULL]. *)
Definition gate_init (g : gate) (w : list action) (parm : option (list Z))
    : outcome (Z * (gate * list action)) :=
  match parm with
  | None => Ret (1, (g, w))
  | Some parm =>
      let fail text := Ret (1, (g, w ++ [LogError text []])) in
      match scan_parm parm with
      | None => fail "Invalid gate parm %s"%string
      | Some (header, wd, binding, tag, max) =>
          if max <=? 0 then fail "Need max connection"%string
          else if negb (header =? 83) && negb (header =? 76) then
            fail "Invalid data header style"%string
          else
            let tag := if tag =? 0 then PTYPE_CLIENT else tag in
            let wd_handle := if default 0 (wd !! 0%nat) =? 33 then 0 else queryname wd in
            if negb (default 0 (wd !! 0%nat) =? 33) && (wd_handle =? 0) then
              Ret (1, (MkGate (listen_id g) 0 (broker g) (client_tag g) (header_size g)
                         (max_connection g) (ids g) (conn g) (mp g),
                       w ++ [LogError "Invalid watchdog %s" wd]))
            else
              h ← hashid_init max;
              let g' := MkGate (listen_id g) wd_handle (broker g) tag
                          (if header =? 83 then 2 else 4) max h
                          (replicate (Z.to_nat max) closed_connection) (mp g) in
              Ret (start_listen g' w binding)
      end
  end.
End start.

(** The sockets [gate_release] closes; then it frees the gate. *)
Definition gate_release (g : gate) (w : list action) : outcome (list action) :=
  w1 ← for_loop (Z.to_nat (max_connection g)) 0
    (λ i w, c ← aget (conn g) i; Ret (if 0 <=? c_id c then w ++ [SocketClose (c_id c)] else w)) w;
  Ret (if 0 <=? listen_id g then w1 ++ [SocketClose (listen_id g)] else w1).

(** ** Cutting the stream of a connection

    The reference. [target] tells whether somebody takes the packages of the
    connection: without a target the code skips the header of a package only,
    so that its body is cut as if it were headers. The rest is [None] when a
    package is too long and the connection is closed; a negative length (the
    first byte of a 4-byte header is 128 or more) is never complete. *)

Definition header_value (hs : Z) (hb : list Z) : Z :=
  match read_plen hs hb with Ret v => v | _ => 0 end.

Fixpoint gate_cut (n : nat) (target : bool) (hs : Z) (s : list Z)
    : list (list Z) * option (list Z) :=
  match n with
  | O => ([], Some s)
  | S n' =>
      if zlen s <? hs then ([], Some s)
      else
        let size := header_value hs (take (Z.to_nat hs) s) in
        let t := drop (Z.to_nat hs) s in
        if (size <? 0) || (zlen t <? size) then ([], Some s)
        else if size =? 0 then gate_cut n' target hs t
        else if 0x1000000 <=? size then ([], None)
        else if target then
          let '(ps, r) := gate_cut n' target hs (drop (Z.to_nat size) t) in
          (take (Z.to_nat size) t :: ps, r)
        else gate_cut n' target hs t
  end.

Definition gcut (target : bool) (hs : Z) (s : list Z) : list (list Z) * option (list Z) :=
  gate_cut (length s) target hs s.

Definition header_ok (hs : Z) : Prop := hs = 2 ∨ hs = 4.

Lemma gate_cut_stable n m target hs s :
  header_ok hs → (length s ≤ n)%nat → (length s ≤ m)%nat →
  gate_cut n target hs s = gate_cut m target hs s.
Proof.
  intros Hhs. revert m s. induction n as [|n IH]; intros m s Hn Hm.
  { apply Nat.le_0_r, length_zero_iff_nil in Hn as ->. destruct m; [done|]. cbn [gate_cut].
    by destruct Hhs as [-> | ->]. }
  destruct m as [|m].
  { apply Nat.le_0_r, length_zero_iff_nil in Hm as ->. cbn [gate_cut].
    by destruct Hhs as [-> | ->]. }
  cbn [gate_cut]. destruct (Z.ltb_spec (zlen s) hs) as [|Hge]; [done|].
  assert (Hl : ∀ k, (length (drop k (drop (Z.to_nat hs) s)) ≤ n)%nat ∧
    (length (drop k (drop (Z.to_nat hs) s)) ≤ m)%nat).
  { intros k. rewrite !length_drop. destruct Hhs as [-> | ->]; unfold zlen in Hge; lia. }
  pose proof (Hl 0%nat) as Hl0. rewrite drop_0 in Hl0.
  destruct Hl0 as [Hl1 Hl2]. destruct (_ || _); [done|]. destruct (_ =? 0); [by apply IH|]. destruct (_ <=? _); [done|].
  destruct target; [|by apply IH].
  rewrite (IH m); [done|apply (proj1 (Hl _))|apply (proj2 (Hl _))].
Qed.

(** The step at a header. *)
Lemma gcut_step target hs hb t :
  header_ok hs → zlen hb = hs →
  let size := header_value hs hb in
  gcut target hs (hb ++ t) =
  if (size <? 0) || (zlen t <? size) then ([], Some (hb ++ t))
  else if size =? 0 then gcut target hs t
  else if 0x1000000 <=? size then ([], None)
  else if target then
    let '(ps, r) := gcut target hs (drop (Z.to_nat size) t) in (take (Z.to_nat size) t :: ps, r)
  else gcut target hs t.
Proof.
  intros Hhs Hhb size. unfold gcut.
  assert (Hs : ∃ n, length (hb ++ t) = S n ∧ (length t ≤ n)%nat).
  { rewrite length_app. unfold zlen in Hhb. exists (length hb - 1 + length t)%nat.
    destruct Hhs as [-> | ->]; lia. }
  destruct Hs as (n & -> & Hn). cbn [gate_cut]. pose proof (zlen_nonneg t).
  rewrite (proj2 (Z.ltb_ge _ _)) by (rewrite zlen_app; lia).
  rewrite take_app_length', drop_app_length' by (unfold zlen in Hhb; lia). fold size.
  rewrite (gate_cut_stable n (length t)) by done.
  by rewrite (gate_cut_stable n (length (drop (Z.to_nat size) t)))
    by (rewrite ?length_drop; done || lia).
Qed.

Lemma gcut_short target hs s : zlen s < hs → gcut target hs s = ([], Some s).
Proof.
  intros H. unfold gcut. destruct s; [done|]. cbn [length gate_cut].
  by rewrite (proj2 (Z.ltb_lt _ _)).
Qed.

(** With headers of two bytes and a target, the gate cuts as [netpack] does,
    but for empty packages. *)
Lemma gcut_netpack s :
  bytes s → gcut true 2 s = (filter (λ p, p ≠ []) (cut s).1, Some (cut s).2).
Proof.
  remember (length s) as n eqn:Hn. assert (Hle : (length s ≤ n)%nat) by lia. clear Hn.
  revert s Hle. induction n as [|n IH]; intros s Hle Hb.
  { apply Nat.le_0_r, length_zero_iff_nil in Hle as ->. done. }
  destruct s as [|b0 [|b1 t]]; [done|done|].
  apply Forall_cons in Hb as [Hb0 Hb]. apply Forall_cons in Hb as [Hb1 Ht].
  pose proof (gcut_step true 2 [b0; b1] t (or_introl eq_refl) eq_refl) as Hstep.
  cbn zeta in Hstep. cbn [app] in Hstep.
  assert (Hv : header_value 2 [b0; b1] = b0 * 256 + b1).
  { unfold header_value, read_plen. rewrite (proj2 (aget_Ret [b0; b1] 0 b0)) by done. bsimpl.
    rewrite (proj2 (aget_Ret [b0; b1] 1 b1)) by done. bsimpl.
    change (2 =? 2) with true. cbn iota. unfold is_byte in *. rewrite lor_shiftl_l by lia. lia. }
  rewrite Hv in Hstep. unfold is_byte in Hb0, Hb1. rewrite Hstep. clear Hstep Hv.
  rewrite (proj2 (Z.ltb_ge _ 0)) by lia. cbn [orb].
  destruct (Z.ltb_spec (zlen t) (b0 * 256 + b1)) as [Hlt|Hge].
  - by rewrite cut_short.
  - rewrite cut_cons by done. cbn in Hle. destruct (Z.eqb_spec (b0 * 256 + b1) 0) as [Hz|Hnz].
    + rewrite Hz. change (Z.to_nat 0) with 0%nat. rewrite drop_0, take_0.
      rewrite IH by (done || lia). by destruct (cut t).
    + rewrite (proj2 (Z.leb_gt _ _)) by lia.
      rewrite IH by (rewrite ?length_drop; try lia; by apply Forall_drop).
      destruct (cut (drop _ t)) as [ps r]. cbn [fst snd]. rewrite filter_cons_True; [done|].
      intros E. apply (f_equal length) in E. rewrite length_take in E. unfold zlen in Hge. cbn in E. lia.
Qed.

(** ** The loop of [dispatch_message] *)

(** A buffer that stands for the bytes [s]: a header that has been read is
    no longer in the messages. *)
Definition holds_bytes (hs : Z) (db : databuffer) (s : list Z) : Prop :=
  buffer_wf db ∧
  ((header db = 0 ∧ s = stream db) ∨
   (header db ≠ 0 ∧ ∃ hb, zlen hb = hs ∧ header_value hs hb = header db ∧ s = hb ++ stream db)).

Definition target (g : gate) (c : connection) : bool :=
  negb (broker g =? 0) || negb (agent c =? 0) || negb (watchdog g =? 0).

(** How a package of [c] is forwarded. *)
Definition package_action (g : gate) (c : connection) (p : list Z) : action :=
  if negb (broker g =? 0) then
    Send 0 (broker g) (Z.lor (client_tag g) PTYPE_TAG_DONTCOPY) (c_id c) p
  else if negb (agent c =? 0) then
    Send (client c) (agent c) (Z.lor (client_tag g) PTYPE_TAG_DONTCOPY) (c_id c) p
  else Send 0 (watchdog g) (Z.lor PTYPE_TEXT PTYPE_TAG_DONTCOPY) (c_id c)
         (decimal (c_id c) ++ codes " data " ++ p).

(** [g] with the buffer of its connection [k], which is [c], replaced. *)
Definition upd (g : gate) (k : Z) (c : connection) (db : databuffer) (p : messagepool) : gate :=
  set_conns g (ids g) (<[Z.to_nat k := set_buffer c db]> (conn g)) p.

Lemma read_plen_total hs hb : header_ok hs → zlen hb = hs → read_plen hs hb = Ret (header_value hs hb).
Proof.
  intros Hhs Hhb. unfold header_value.
  assert (∃ v, read_plen hs hb = Ret v) as [v ->]; [|done]. unfold read_plen.
  destruct (aget_in hb 0) as (? & -> & _); [destruct Hhs; lia|]. bsimpl.
  destruct (aget_in hb 1) as (? & -> & _); [destruct Hhs; lia|]. bsimpl.
  destruct Hhs as [-> | ->]; [by eexists|]. change (4 =? 2) with false. cbn iota.
  destruct (aget_in hb 2) as (? & -> & _); [lia|]. bsimpl.
  destruct (aget_in hb 3) as (? & -> & _); [lia|]. bsimpl. by eexists.
Qed.

Section one_connection.
Context (g : gate) (k : Z) (c : connection).
Context (Hhs : header_ok (header_size g)) (Hk : 0 ≤ k < zlen (conn g)) (Hid : 0 < c_id c).

Lemma get_upd db p : get_conn (upd g k c db p) k = Ret (set_buffer c db).
Proof.
  unfold get_conn. cbn. apply aget_Ret. split; [lia|]. apply list_lookup_insert_eq.
  unfold zlen in Hk. lia.
Qed.

Lemma put_upd db p db' p' :
  put_conn (upd g k c db p) k (set_buffer c db') p' = Ret (upd g k c db' p').
Proof.
  unfold put_conn. cbn. rewrite aset_in by (rewrite zlen_insert; lia). bsimpl.
  by rewrite list_insert_insert_eq.
Qed.

Lemma forward_spec db p w size :
  buffer_wf db → 0 < size ≤ zlen (stream db) →
  ∃ db' p', _forward (upd g k c db p) w k size =
      Ret (upd g k c db' p', if target g c
           then w ++ [package_action g c (take (Z.to_nat size) (stream db))] else w) ∧
    buffer_wf db' ∧ header db' = header db ∧
    stream db' = if target g c then drop (Z.to_nat size) (stream db) else stream db.
Proof.
  intros Hwf Hsz. unfold _forward, target, package_action. rewrite get_upd. bsimpl.
  cbn [c_id set_buffer agent client c_buffer broker watchdog client_tag upd set_conns mp].
  rewrite (proj2 (Z.leb_gt _ _)) by lia.
  destruct (databuffer_read_spec db p size Hwf Hsz) as (db' & p' & Hr & Hwf' & Hst & Hhd).
  rewrite Hr.
  change (set_buffer (set_buffer c db)) with (set_buffer c).
  destruct (broker g =? 0), (agent c =? 0), (watchdog g =? 0); cbn [negb orb];
    bsimpl; rewrite ?put_upd; bsimpl;
    first [exists db', p'; by split_and!|exists db, p; by split_and!].
Qed.
End one_connection.

Lemma buffer_wf_header db h :
  buffer_wf db → buffer_wf (MkBuffer h (offset db) (size db) (msgs db)).
Proof. by intros [? ? ? ? ?]; split. Qed.

Lemma readheader_spec db p hs s :
  header_ok hs → holds_bytes hs db s →
  ∃ size db1 p1, databuffer_readheader db p hs = Ret (size, db1, p1) ∧
    ((zlen s < hs ∧ db1 = db ∧ size = -1) ∨
     (∃ hb, zlen hb = hs ∧ header_value hs hb = header db1 ∧ s = hb ++ stream db1 ∧
        buffer_wf db1 ∧
        size = (if zlen (stream db1) <? header db1 then -1 else header db1) ∧
        2 * zlen (stream db1) + 1 ≤ 2 * zlen (stream db) + (if header db =? 0 then 0 else 1) ∧
        (header db1 = 0 → zlen (stream db1) < zlen (stream db)))).
Proof.
  intros Hhs [Hwf Hs]. unfold databuffer_readheader. rewrite (bw_size _ Hwf).
  destruct Hs as [[Hh ->]|(Hh & hb & Hhb & Hv & ->)].
  - rewrite Hh. cbn [Z.eqb]. destruct (Z.ltb_spec (zlen (stream db)) hs) as [Hlt|Hge].
    { eexists _, _, _. split; [done|]. by left. }
    assert (Hpos : 2 ≤ hs) by (destruct Hhs; lia).
    destruct (databuffer_read_spec db p hs Hwf) as (db1 & p1 & -> & Hwf1 & Hst & _); [lia|]. bsimpl.
    set (hb := take (Z.to_nat hs) (stream db)).
    assert (Hhb : zlen hb = hs) by (unfold hb, zlen in *; rewrite length_take; lia).
    rewrite read_plen_total by done. bsimpl. cbn [size header].
    eexists _, _, _. split; [done|]. right. exists hb.
    change (stream (MkBuffer _ (offset db1) (size db1) (msgs db1))) with (stream db1). cbn [header].
    assert (Hz : zlen (stream db1) = zlen (stream db) - hs).
    { rewrite Hst. unfold zlen in *. rewrite length_drop. lia. }
    split_and!; try done; try lia.
    + rewrite Hst. unfold hb. by rewrite take_drop.
    + by apply buffer_wf_header.
    + by rewrite (bw_size _ Hwf1).
  - rewrite (proj2 (Z.eqb_neq _ _)) by done. eexists _, _, _. split; [done|]. right. exists hb.
    split_and!; done || lia.
Qed.

Definition close_actions (fd : Z) (r : option (list Z)) : list action :=
  match r with
  | Some _ => []
  | None => [SocketClose fd; LogError "Recv socket message > 16M" []]
  end.

Section one_connection.
Context (g : gate) (k : Z) (c : connection).
Context (Hhs : header_ok (header_size g)) (Hk : 0 ≤ k < zlen (conn g)) (Hid : 0 < c_id c).
Local Notation hs := (header_size g).

Lemma dispatch_loop fd fuel db p w s :
  holds_bytes hs db s →
  2 * zlen (stream db) + (if header db =? 0 then 0 else 1) < Z.of_nat fuel →
  let '(ps, r) := gcut (target g c) hs s in
  ∃ db' p', loop fuel (dispatch_turn k fd) (upd g k c db p, w) =
      Ret (upd g k c db' p', w ++ (package_action g c <$> ps) ++ close_actions fd r) ∧
    match r with Some r => holds_bytes hs db' r | None => db' = zero_buffer end.
Proof.
  revert db p w s. induction fuel as [|fuel IH]; intros db p w s Hs Hf.
  { pose proof (zlen_nonneg (stream db)). destruct (header db =? 0); lia. }
  rewrite loop_S. unfold dispatch_turn at 2. rewrite get_upd by done. bsimpl.
  cbn [c_buffer set_buffer].
  change (header_size (upd g k c db p)) with hs. change (mp (upd g k c db p)) with p.
  destruct (readheader_spec db p hs s Hhs Hs) as (sz & db1 & p1 & -> & Hcase). bsimpl.
  unfold handle_size. rewrite get_upd by done. bsimpl.
  change (set_buffer (set_buffer c db)) with (set_buffer c). rewrite put_upd by done. bsimpl.
  destruct Hcase as [(Hlt & -> & ->)|(hb & Hhb & Hv & -> & Hwf1 & -> & Hm & Hm0)].
  { rewrite gcut_short by done. bsimpl. exists db, p1. split; [|done].
    change (-1 <? 0) with true. bsimpl. by rewrite app_nil_r. }
  pose proof (gcut_step (target g c) hs hb (stream db1) Hhs Hhb) as Hstep. cbn zeta in Hstep.
  rewrite Hv in Hstep. rewrite Hstep. clear Hstep.
  destruct ((header db1 <? 0) || (zlen (stream db1) <? header db1)) eqn:Hwait.
  { exists db1, p1. split.
    - assert (Hneg : ((if zlen (stream db1) <? header db1 then -1 else header db1) <? 0) = true).
      { apply orb_true_iff in Hwait as [H|H]; [|by rewrite H].
        destruct (_ <? header db1); [done|exact H]. }
      rewrite Hneg. bsimpl. by rewrite app_nil_r.
    - split; [done|]. destruct (Z.eq_dec (header db1) 0) as [E|E]; [|right; eauto].
      exfalso. rewrite E in Hwait. pose proof (zlen_nonneg (stream db1)).
      rewrite (proj2 (Z.ltb_ge (zlen _) 0)) in Hwait by lia. done. }
  apply orb_false_iff in Hwait as [Hnn Hge]. rewrite Hge, Hnn. apply Z.ltb_ge in Hnn, Hge.
  destruct (Z.eqb_spec (header db1) 0) as [Hz|Hnz].
  - rewrite Hz. change (0 <? 0) with false. bsimpl. apply IH; [by split; [done|left]|].
    rewrite Hz. change (0 =? 0) with true. specialize (Hm0 Hz). destruct (header db =? 0); lia.
  - rewrite (proj2 (Z.ltb_lt 0 _)) by lia. destruct (Z.leb_spec 0x1000000 (header db1)) as [Hbig|Hok].
    + destruct (databuffer_clear_spec db1 p1) as (p2 & ->). bsimpl. rewrite put_upd by done. bsimpl.
      exists zero_buffer, p2. split; [|done]. done.
    + destruct (forward_spec g k c Hk Hid db1 p1 w (header db1) Hwf1)
        as (db2 & p2 & -> & Hwf2 & _ & Hst); [lia|]. bsimpl. rewrite get_upd by done. bsimpl.
      cbn [c_buffer set_buffer]. change (set_buffer (set_buffer c db2)) with (set_buffer c).
      rewrite put_upd by done. bsimpl.
      change (mp (upd g k c db2 p2)) with p2.
      assert (Hs2 : holds_bytes hs (databuffer_reset db2) (stream db2)).
      { split; [by apply buffer_wf_header|by left]. }
      assert (Hzd : zlen (drop (Z.to_nat (header db1)) (stream db1)) = zlen (stream db1) - header db1).
      { unfold zlen in *. rewrite length_drop. lia. }
      destruct (target g c).
      * pose proof (IH (databuffer_reset db2) p2
          (w ++ [package_action g c (take (Z.to_nat (header db1)) (stream db1))]) _ Hs2) as Hl.
        rewrite Hst in Hl. change (stream (databuffer_reset db2)) with (stream db2) in Hl.
        rewrite Hst in Hl. destruct (gcut true hs _) as [ps r].
        destruct Hl as (db' & p' & Hl & Hr).
        { cbn [header databuffer_reset]. change (0 =? 0) with true. destruct (header db =? 0); lia. }
        exists db', p'. split; [|done]. rewrite Hl. by rewrite <-app_assoc.
      * rewrite <-Hst. apply IH; [done|]. change (stream (databuffer_reset db2)) with (stream db2).
        rewrite Hst. cbn [header databuffer_reset]. change (0 =? 0) with true.
        destruct (header db =? 0); lia.
Qed.
End one_connection.

(** ** The state of the gate *)

(** [m] maps the sockets of the gate to their connections. *)
Record gate_wf (g : gate) (m : gmap Z Z) : Prop := {
  gw_ids : hashid_rep (ids g) m;
  gw_cap : HashId.cap (ids g) = max_connection g;
  gw_conn_len : zlen (conn g) = max_connection g;
  gw_header : header_ok (header_size g);
  gw_used fd k : m !! fd = Some k →
    ∃ c, conn g !! Z.to_nat k = Some c ∧ c_id c = fd ∧ 0 < fd ∧
      zlen (remote_name c) = REMOTE_NAME_SIZE ∧ ∃ s, holds_bytes (header_size g) (c_buffer c) s;
  gw_free k c : conn g !! k = Some c → (∀ fd, m !! fd ≠ Some (Z.of_nat k)) → c = closed_connection
}.

(** A connection of the gate. *)
Lemma gate_conn g m fd k :
  gate_wf g m → m !! fd = Some k →
  ∃ c s, aget (conn g) k = Ret c ∧ conn g !! Z.to_nat k = Some c ∧ 0 ≤ k < zlen (conn g) ∧
    c_id c = fd ∧ 0 < fd ∧ zlen (remote_name c) = REMOTE_NAME_SIZE ∧
    holds_bytes (header_size g) (c_buffer c) s.
Proof.
  intros Hg Hm. destruct (rep_key_range _ _ _ _ (gw_ids _ _ Hg) Hm) as [_ Hk].
  rewrite (gw_cap _ _ Hg), <-(gw_conn_len _ _ Hg) in Hk.
  destruct (gw_used _ _ Hg _ _ Hm) as (c & Hc & Hid & Hfd & Hn & s & Hs).
  exists c, s. split_and!; try done; try lia. apply aget_Ret. split; [lia|done].
Qed.

(** Replacing what a connection holds. *)
Lemma gate_wf_set g m fd k c' p :
  gate_wf g m → m !! fd = Some k → c_id c' = fd → zlen (remote_name c') = REMOTE_NAME_SIZE →
  (∃ s, holds_bytes (header_size g) (c_buffer c') s) →
  gate_wf (set_conns g (ids g) (<[Z.to_nat k := c']> (conn g)) p) m.
Proof.
  intros Hg Hm Hid Hn Hs. destruct (gate_conn g m fd k Hg Hm) as (c & s & _ & Hc & Hk & _ & Hfd & _).
  pose proof (lookup_lt_Some _ _ _ Hc) as Hlt. destruct Hg as [Hids Hcap Hlen Hh Hu Hf].
  split; cbn [ids conn header_size max_connection set_conns]; try done.
  - by rewrite zlen_insert.
  - intros fd' k' Hm'. destruct (decide (fd' = fd)) as [->|Hne].
    + assert (k' = k) as -> by congruence. exists c'. by rewrite list_lookup_insert_eq.
    + rewrite list_lookup_insert_ne; [by apply Hu|]. intros E.
      destruct (rep_key_range _ _ _ _ Hids Hm') as [_ Hk']. apply Hne.
      apply (rep_inj _ _ _ _ k' Hids Hm'). by replace k' with k by lia.
  - intros j cj Hj Hno. apply list_lookup_insert_Some in Hj as [(<- & _ & _)|(_ & Hj)]; [|by eapply Hf].
    destruct (Hno fd). rewrite Hm. f_equal. lia.
Qed.

Lemma holds_bytes_zero hs : holds_bytes hs zero_buffer [].
Proof. split; [apply zero_buffer_wf|by left]. Qed.

Lemma holds_bytes_le hs db s : holds_bytes hs db s → header_ok hs → zlen (stream db) ≤ zlen s.
Proof.
  intros [_ [[_ ->]|(_ & hb & Hhb & _ & ->)]] Hhs; [done|].
  rewrite zlen_app. destruct Hhs; lia.
Qed.

Lemma dispatch_message_spec g m w fd k c s data :
  gate_wf g m → m !! fd = Some k → conn g !! Z.to_nat k = Some c →
  holds_bytes (header_size g) (c_buffer c) s → data ≠ [] → zlen s + zlen data ≤ INT_MAX →
  let '(ps, r) := gcut (target g c) (header_size g) (s ++ data) in
  ∃ db' p', dispatch_message g w k fd data (zlen data) =
      Ret (upd g k c db' p', w ++ (package_action g c <$> ps) ++ close_actions fd r) ∧
    gate_wf (upd g k c db' p') m ∧
    match r with Some r => holds_bytes (header_size g) db' r | None => db' = zero_buffer end.
Proof.
  intros Hg Hm Hc Hs Hd Hmax. destruct (gate_conn g m fd k Hg Hm) as (c' & s' & Hget & Hc' & Hk & Hid & Hfd & Hn & _).
  assert (c' = c) as -> by congruence. pose proof (gw_header _ _ Hg) as Hhs.
  pose proof (holds_bytes_le _ _ _ Hs Hhs) as Hle. destruct Hs as [Hwf Hs].
  unfold dispatch_message, get_conn. rewrite Hget. bsimpl.
  assert (Hd0 : 0 < zlen data) by (destruct data; [done|rewrite zlen_cons; pose proof (zlen_nonneg data); lia]).
  destruct (databuffer_push_spec (c_buffer c) (mp g) data Hwf Hd0) as (db & -> & Hwf' & Hst & Hhd).
  { rewrite (bw_size _ Hwf). lia. }
  bsimpl. unfold put_conn at 1. rewrite aset_in by done. bsimpl.
  change (set_conns g (ids g) _ (alloc_message (mp g))) with (upd g k c db (alloc_message (mp g))).
  assert (Hs' : holds_bytes (header_size g) db (s ++ data)).
  { split; [done|]. rewrite Hhd, Hst.
    destruct Hs as [[Hh ->]|(Hh & hb & Hhb & Hv & ->)]; [by left|right].
    split; [done|]. exists hb. by rewrite <-app_assoc. }
  assert (Hid0 : 0 < c_id c) by lia.
  pose proof (dispatch_loop g k c Hhs Hk Hid0 fd (dispatch_fuel db) db (alloc_message (mp g)) w _ Hs')
    as Hloop.
  destruct (gcut _ _ _) as [ps r]. destruct Hloop as (db' & p' & Hl & Hr).
  { unfold dispatch_fuel. rewrite (bw_size _ Hwf'). pose proof (zlen_nonneg (stream db)).
    destruct (header db =? 0); lia. }
  exists db', p'. split; [exact Hl|]. split; [|done].
  apply gate_wf_set with fd; [done|done|done|done|]. cbn [c_buffer set_buffer].
  destruct r as [r|]; [by exists r|]. subst db'. exists []. apply holds_bytes_zero.
Qed.

(** C13: With two-byte headers, a gate whose connection has a target forwards
    the packages the [netpack] cut of its pending bytes and the new data makes
    (but for empty ones), in order and to that target, keeps the rest, and
    changes no other connection. *)
Theorem gate_forwards_packages queryname g m w source fd k c s data :
  gate_wf g m → header_size g = 2 → m !! fd = Some k → conn g !! Z.to_nat k = Some c →
  target g c = true → holds_bytes 2 (c_buffer c) s → bytes (s ++ data) → data ≠ [] →
  zlen s + zlen data ≤ INT_MAX →
  ∃ g' c', _cb queryname g w source (SocketMessage (data_message fd data)) =
      Ret (0, (g', w ++ (package_action g c <$> filter (λ p, p ≠ []) (cut (s ++ data)).1))) ∧
    gate_wf g' m ∧ conn g' !! Z.to_nat k = Some c' ∧ holds_bytes 2 (c_buffer c') (cut (s ++ data)).2 ∧
    ∀ j, j ≠ Z.to_nat k → conn g' !! j = conn g !! j.
Proof.
  intros Hg Hhs Hm Hc Ht Hs Hb Hd Hmax. rewrite <-Hhs in Hs.
  pose proof (dispatch_message_spec g m w fd k c s data Hg Hm Hc Hs Hd Hmax) as H.
  rewrite Ht, Hhs, gcut_netpack in H by done. destruct H as (db' & p' & Hdm & Hg' & Hr).
  unfold _cb, dispatch_socket_message, data_message. cbn [m_type m_id m_buffer m_ud].
  change (FENGNET_SOCKET_TYPE_DATA =? FENGNET_SOCKET_TYPE_DATA) with true. cbn iota.
  rewrite (rep_lookup _ _ _ (gw_ids _ _ Hg)), Hm. bsimpl. cbn [default from_option Datatypes.id].
  destruct (rep_key_range _ _ _ _ (gw_ids _ _ Hg) Hm) as [_ Hk].
  rewrite (proj2 (Z.leb_le _ _)) by lia. rewrite Hdm. bsimpl. cbn [close_actions].
  rewrite app_nil_r. eexists _, (set_buffer c db'). split_and!; [done|done| |done|].
  - cbn. apply list_lookup_insert_eq. by eapply lookup_lt_Some.
  - intros j Hj. cbn. by rewrite list_lookup_insert_ne.
Qed.

(** ** Every message is handled *)

Lemma same_bytes_total n s lit :
  (n ≤ length s)%nat → Forall (λ c, c ≠ 0) (take n s) → 0 ∈ lit → ∃ b, same_bytes n s lit = Ret b.
Proof.
  revert s lit. induction n as [|n IH]; intros s lit Hn Hs Hl; [by exists true|].
  destruct s as [|a s]; [cbn in Hn; lia|]. cbn in Hn, Hs. apply Forall_cons in Hs as [Ha Hs].
  destruct lit as [|b lit]; [set_solver|]. cbn [same_bytes].
  destruct (Z.eqb_spec a b) as [->|Hne]; [|by exists false].
  apply IH; [lia|done|]. apply elem_of_cons in Hl as [?|?]; [congruence|done].
Qed.

Lemma command_end_le s : (command_end s ≤ length s)%nat.
Proof. induction s as [|c s IH]; cbn; [lia|]. destruct (c =? 32); lia. Qed.

Lemma is_command_total bytes name :
  Forall (λ c, c ≠ 0) bytes → ∃ b, is_command (command_end bytes) (bytes ++ [0]) name = Ret b.
Proof.
  intros Hb. pose proof (command_end_le bytes). apply same_bytes_total.
  - rewrite length_app. lia.
  - rewrite take_app_le by lia. by apply Forall_take.
  - apply elem_of_app. right. by apply list_elem_of_singleton.
Qed.

(** [_parm] stays inside its buffer of [sz + 1] characters. *)
Lemma parm_total msg sz i :
  zlen msg = sz + 1 → 0 ≤ i ≤ sz →
  ∃ msg', _parm msg sz i = Ret msg' ∧ 0 ∈ msg'.
Proof.
  intros Hl Hi. unfold _parm.
  destruct (loop_total (λ j, i ≤ j ≤ sz) (λ j, Z.to_nat (sz - j)) (λ j, i ≤ j ≤ sz)
    (parm_turn msg sz)) with (fuel := S (length msg)) (s := i) as (start & -> & Hst).
  - intros j Hj. unfold parm_turn. destruct (Z.ltb_spec j sz); [|by right; eauto].
    destruct (aget_in msg j) as (c & -> & _); [lia|]. bsimpl.
    destruct (negb (c =? 32)); [by right; eauto|left; eexists; split; [done|lia]].
  - lia.
  - unfold zlen in Hl. lia.
  - bsimpl.
    destruct (for_loop_inv (λ _ m, zlen m = sz + 1)
      (λ i m, c ← aget m i; aset m (i - start) c) (Z.to_nat (sz - start)) start msg)
      as (msg' & -> & Hl'); [done| |].
    + intros j m' Hj Hm'. destruct (aget_in m' j) as (c & -> & _); [lia|]. bsimpl.
      rewrite aset_in by lia. eexists. split; [done|]. by rewrite zlen_insert.
    + bsimpl. rewrite aset_in by lia. eexists. split; [done|].
      apply list_elem_of_lookup. exists (Z.to_nat (Z.max start sz - start)).
      apply list_lookup_insert_eq. unfold zlen in Hl'. lia.
Qed.

Lemma strsep_zero s t r : 0 ∈ s → strsep s = (t, Some r) → 0 ∈ r ∧ t ≠ [].
Proof.
  revert t r. induction s as [|c s IH]; intros t r Hs; cbn [strsep]; [done|].
  destruct (Z.eqb_spec c 0) as [->|Hc]; [done|]. apply elem_of_cons in Hs as [?|Hs]; [congruence|].
  destruct (c =? 32); [by intros [= <- <-]|].
  destruct (strsep s) as [t' r'] eqn:E. intros [= <- ->]. by destruct (IH t' r Hs eq_refl).
Qed.

Lemma forward_agent_wf g m fd a b :
  gate_wf g m → ∃ g', _forward_agent g fd a b = Ret g' ∧ gate_wf g' m.
Proof.
  intros Hg. unfold _forward_agent. rewrite (rep_lookup _ _ _ (gw_ids _ _ Hg)). bsimpl.
  destruct (m !! fd) as [k|] eqn:Hm; [|by exists g]. cbn [default from_option Datatypes.id].
  destruct (gate_conn g m fd k Hg Hm) as (c & s & Hget & Hc & Hk & Hid & Hfd & Hn & Hs).
  rewrite (proj2 (Z.leb_le _ _)) by lia. rewrite Hget. bsimpl. rewrite aset_in by done. bsimpl.
  eexists. split; [done|]. apply gate_wf_set with fd; try done. by exists s.
Qed.

Lemma forward_command_wf g m tmp :
  gate_wf g m → 0 ∈ tmp → ∃ g', forward_command g tmp = Ret g' ∧ gate_wf g' m.
Proof.
  intros Hg Ht. unfold forward_command.
  destruct (strsep tmp) as [idstr [cl|]] eqn:E1; [|by exists g].
  destruct (strsep_zero _ _ _ Ht E1) as [Hcl _].
  destruct (strsep cl) as [ag [cl'|]] eqn:E2; [|by exists g].
  destruct (strsep_zero _ _ _ Hcl E2) as [Hcl' Hag].
  destruct ag as [|a0 ag]; [done|]. destruct cl' as [|c0 cl']; [set_solver|]. cbn [succ_ptr]. bsimpl.
  by apply forward_agent_wf.
Qed.

Lemma ctrl_total queryname g m w msg :
  gate_wf g m → Forall (λ c, c ≠ 0) msg →
  ∃ g' acts, _ctrl queryname g w msg (zlen msg) = Ret (g', w ++ acts) ∧ gate_wf g' m.
Proof.
  intros Hg Hmsg. pose proof (zlen_nonneg msg). unfold _ctrl.
  rewrite mread_at by (try lia; by intros j c). bsimpl.
  assert (Hnil : ∀ g', gate_wf g' m → ∃ g'' acts, Ret (g', w) = Ret (g'', w ++ acts) ∧ gate_wf g'' m).
  { intros g' Hg'. exists g', []. by rewrite app_nil_r. }
  destruct (zlen msg =? 0); [by apply Hnil|].
  pose proof (command_end_le msg) as Hce.
  destruct (parm_total (msg ++ [0]) (zlen msg) (Z.of_nat (command_end msg))) as (tmp & Hparm & Htmp).
  { by rewrite zlen_app. }
  { unfold zlen. lia. }
  assert (Hif : ∀ uid a, ∃ g'' acts,
    (id ← hashid_lookup (ids g) uid; Ret (g, if 0 <=? id then w ++ [a] else w)) = Ret (g'', w ++ acts) ∧
    gate_wf g'' m).
  { intros uid a. rewrite (rep_lookup _ _ _ (gw_ids _ _ Hg)). bsimpl.
    destruct (0 <=? _); [by eexists _, _|by apply Hnil]. }
  destruct (is_command_total msg "kick" Hmsg) as ([|] & ->); bsimpl.
  { rewrite Hparm. bsimpl. apply Hif. }
  destruct (is_command_total msg "forward" Hmsg) as ([|] & ->); bsimpl.
  { rewrite Hparm. bsimpl. destruct (forward_command_wf g m tmp Hg Htmp) as (g' & -> & Hg').
    bsimpl. by apply Hnil. }
  destruct (is_command_total msg "broker" Hmsg) as ([|] & ->); bsimpl.
  { rewrite Hparm. bsimpl. apply Hnil. by destruct Hg; split. }
  destruct (is_command_total msg "start" Hmsg) as ([|] & ->); bsimpl.
  { rewrite Hparm. bsimpl. apply Hif. }
  destruct (is_command_total msg "close" Hmsg) as ([|] & ->); bsimpl.
  { destruct (0 <=? listen_id g); [|by apply Hnil]. eexists _, _. split; [done|]. by destruct Hg; split. }
  by eexists _, _.
Qed.

(** A new gate. *)
Lemma new_gate_wf l wd br tag hs max h p :
  header_ok hs → hashid_rep h ∅ → HashId.cap h = max → 0 ≤ max →
  gate_wf (MkGate l wd br tag hs max h (replicate (Z.to_nat max) closed_connection) p) ∅.
Proof.
  intros Hhs Hh Hcap Hmax. split; cbn [ids conn header_size max_connection]; try done.
  - unfold zlen. rewrite length_replicate. lia.
  - intros k c [-> _]%lookup_replicate_1 _. done.
Qed.

Lemma gate_wf_remove g m h fd k p :
  gate_wf g m → m !! fd = Some k → hashid_rep h (delete fd m) → HashId.cap h = HashId.cap (ids g) →
  gate_wf (set_conns g h (<[Z.to_nat k := closed_connection]> (conn g)) p) (delete fd m).
Proof.
  intros Hg Hm Hh Hcap. destruct (rep_key_range _ _ _ _ (gw_ids _ _ Hg) Hm) as [_ Hk].
  destruct Hg as [Hids Hc Hlen Hhs Hu Hf]. split; cbn [ids conn header_size max_connection set_conns].
  - done.
  - congruence.
  - by rewrite zlen_insert.
  - done.
  - intros fd' k' (Hne & Hm')%lookup_delete_Some. rewrite list_lookup_insert_ne; [by apply Hu|].
    intros E. destruct (rep_key_range _ _ _ _ Hids Hm') as [_ Hk'].
    apply Hne, (rep_inj _ _ _ _ k' Hids); [|done]. by replace k' with k by lia.
  - intros j c Hj Hno. apply list_lookup_insert_Some in Hj as [(_ & <- & _)|(Hjk & Hj)]; [done|].
    apply (Hf j c Hj). intros fd' Hm'. destruct (decide (fd' = fd)) as [->|Hne].
    + rewrite Hm in Hm'. injection Hm'. lia.
    + apply (Hno fd'). by rewrite lookup_delete_ne.
Qed.

Lemma gate_wf_add g m h fd k c' :
  gate_wf g m → hashid_rep h (<[fd := k]> m) → HashId.cap h = HashId.cap (ids g) →
  0 ≤ k < HashId.cap (ids g) → (∀ fd', m !! fd' ≠ Some k) → m !! fd = None →
  c_id c' = fd → 0 < fd → zlen (remote_name c') = REMOTE_NAME_SIZE → c_buffer c' = zero_buffer →
  gate_wf (set_conns g h (<[Z.to_nat k := c']> (conn g)) (mp g)) (<[fd := k]> m).
Proof.
  intros Hg Hh Hcap Hk Hnew Hm Hid Hfd Hn Hb.
  destruct Hg as [Hids Hc Hlen Hhs Hu Hf]. split; cbn [ids conn header_size max_connection set_conns].
  - done.
  - congruence.
  - by rewrite zlen_insert.
  - done.
  - intros fd' k' [[<- <-]|[Hne Hm']]%lookup_insert_Some.
    + exists c'. rewrite list_lookup_insert_eq by (unfold zlen in Hlen; lia).
      split_and!; try done. exists []. rewrite Hb. apply holds_bytes_zero.
    + rewrite list_lookup_insert_ne; [by apply Hu|]. intros E.
      destruct (rep_key_range _ _ _ _ Hids Hm') as [_ Hk']. apply (Hnew fd').
      by replace k with k' by lia.
  - intros j c Hj Hno. apply list_lookup_insert_Some in Hj as [(Hjk & _ & _)|(_ & Hj)].
    + destruct (Hno fd). rewrite lookup_insert_eq. f_equal. lia.
    + apply (Hf j c Hj). intros fd' Hm'. apply (Hno fd').
      rewrite lookup_insert_ne; [done|]. intros <-. congruence.
Qed.

(** The messages the rest of the server sends to a gate: data is not empty and
    fits into an [int] with what is buffered; a new socket has an id that is
    not in use; a text has no NUL. *)
Definition good_message (g : gate) (m : gmap Z Z) (msg : gate_message) : Prop :=
  match msg with
  | TextMessage s => Forall (λ c, c ≠ 0) s ∧ zlen s < 2 ^ 31
  | ClientMessage _ | OtherMessage => True
  | SocketMessage x =>
      zlen (m_padding x) < 2 ^ 31 ∧
      (m_type x = FENGNET_SOCKET_TYPE_DATA → ∃ data, m_buffer x = Some data ∧ data ≠ [] ∧
         m_ud x = zlen data ∧
         ∀ k c, m !! m_id x = Some k → conn g !! Z.to_nat k = Some c →
           header_size g + size (c_buffer c) + zlen data ≤ INT_MAX) ∧
      (m_type x = FENGNET_SOCKET_TYPE_CLOSE ∨ m_type x = FENGNET_SOCKET_TYPE_ERROR → m_id x ≠ -1) ∧
      (m_type x = FENGNET_SOCKET_TYPE_ACCEPT →
         0 < m_ud x ≤ INT_MAX - max_connection g ∧ m !! m_ud x = None)
  end.

(** The assertion of the gate fails: a connection is accepted by a socket that is not
    the one the gate listens on. A gate that was told to close has no such socket. *)
Definition stray_accept (g : gate) (msg : gate_message) : bool :=
  match msg with
  | SocketMessage x => (m_type x =? FENGNET_SOCKET_TYPE_ACCEPT) && negb (m_id x =? listen_id g)
  | _ => false
  end.

(** The sockets of the gate after a message. *)
Definition next_sockets (g : gate) (m : gmap Z Z) (msg : gate_message) : gset Z :=
  match msg with
  | SocketMessage x =>
      if (m_type x =? FENGNET_SOCKET_TYPE_CLOSE) || (m_type x =? FENGNET_SOCKET_TYPE_ERROR)
      then dom m ∖ {[ m_id x ]}
      else if m_type x =? FENGNET_SOCKET_TYPE_ACCEPT then
        if Z.of_nat (base.size m) =? max_connection g then dom m else {[ m_ud x ]} ∪ dom m
      else dom m
  | _ => dom m
  end.

Lemma report_app g w text : ∃ acts, _report g w text = w ++ acts.
Proof. unfold _report. destruct (_ =? 0); [exists []; by rewrite app_nil_r|by eexists]. Qed.

Lemma close_spec g m w x :
  gate_wf g m → m_id x ≠ -1 →
  m_type x = FENGNET_SOCKET_TYPE_CLOSE ∨ m_type x = FENGNET_SOCKET_TYPE_ERROR →
  ∃ g' acts, dispatch_socket_message g w x (i32 (zlen (m_padding x))) = Ret (g', w ++ acts) ∧
    gate_wf g' (delete (m_id x) m).
Proof.
  intros Hg Hne Hty. unfold dispatch_socket_message.
  destruct (rep_remove _ _ (m_id x) (gw_ids _ _ Hg) Hne) as (h & Hrm & Hh & Hcap).
  assert (Hc : ∃ g' acts,
    ('(id, h) ← hashid_remove (ids g) (m_id x);
     let g1 := set_conns g h (conn g) (mp g) in
     if 0 <=? id then
       c ← get_conn g1 id;
       '(_, p) ← databuffer_clear (c_buffer c) (mp g1);
       g2 ← put_conn g1 id closed_connection p;
       Ret (g2, _report g2 w (decimal (m_id x) ++ codes " close"))
     else Ret (g1, w)) = Ret (g', w ++ acts) ∧ gate_wf g' (delete (m_id x) m)).
  { rewrite Hrm. bsimpl. destruct (m !! m_id x) as [k|] eqn:Hm; cbn [default from_option Datatypes.id].
    - destruct (gate_conn g m _ k Hg Hm) as (c & s & Hget & Hc & Hk & _).
      rewrite (proj2 (Z.leb_le _ _)) by lia. unfold get_conn. cbn [conn set_conns]. rewrite Hget. bsimpl.
      destruct (databuffer_clear_spec (c_buffer c) (mp (set_conns g h (conn g) (mp g)))) as (p & ->).
      bsimpl. unfold put_conn. cbn [conn set_conns]. rewrite aset_in by done. bsimpl.
      edestruct report_app as (acts & ->). eexists _, acts. split; [done|].
      exact (gate_wf_remove g m h _ k p Hg Hm Hh Hcap).
    - rewrite delete_id in * by done. change (0 <=? -1) with false. cbn iota.
      eexists _, []. rewrite app_nil_r. split; [done|].
      destruct Hg as [? ? ? ? ? ?]. split; cbn [ids conn header_size max_connection set_conns]; try done.
      congruence. }
  destruct Hty as [Hty|Hty]; rewrite Hty; exact Hc.
Qed.

Lemma stray_accept_aborts g w x sz :
  m_type x = FENGNET_SOCKET_TYPE_ACCEPT → negb (m_id x =? listen_id g) = true →
  dispatch_socket_message g w x sz = AssertFail.
Proof.
  intros Hty Hl%negb_true_iff. unfold dispatch_socket_message. rewrite Hty.
  change (FENGNET_SOCKET_TYPE_ACCEPT =? _) with false at 1 2 3 4. cbn [orb]. rewrite Z.eqb_refl.
  rewrite Z.eqb_sym, Hl. done.
Qed.

Lemma accept_spec g m w x :
  gate_wf g m → m_type x = FENGNET_SOCKET_TYPE_ACCEPT → m_id x = listen_id g →
  0 < m_ud x ≤ INT_MAX - max_connection g → m !! m_ud x = None → zlen (m_padding x) < 2 ^ 31 →
  ∃ g' acts m', dispatch_socket_message g w x (i32 (zlen (m_padding x))) = Ret (g', w ++ acts) ∧
    gate_wf g' m' ∧
    (Z.of_nat (base.size m) = max_connection g → m' = m ∧ acts = [SocketClose (m_ud x)]) ∧
    (Z.of_nat (base.size m) ≠ max_connection g → ∃ k, m' = <[m_ud x := k]> m).
Proof.
  intros Hg Hty Hlisten Hud Hm Hpad. unfold dispatch_socket_message. rewrite Hty.
  cbn [Z.eqb Pos.eqb orb FENGNET_SOCKET_TYPE_DATA FENGNET_SOCKET_TYPE_CONNECT
    FENGNET_SOCKET_TYPE_CLOSE FENGNET_SOCKET_TYPE_ACCEPT FENGNET_SOCKET_TYPE_ERROR].
  rewrite Hlisten, Z.eqb_refl. cbn [assert_true]. bsimpl.
  pose proof (rep_full _ _ (gw_ids _ _ Hg)) as [Hfull _]. rewrite (gw_cap _ _ Hg) in Hfull.
  destruct (hashid_full (ids g)) eqn:Hf.
  - symmetry in Hfull. apply bool_decide_eq_true in Hfull.
    exists g, [SocketClose (m_ud x)], m. split_and!; done || lia.
  - symmetry in Hfull. apply bool_decide_eq_false in Hfull.
    destruct (rep_insert _ _ (m_ud x) (gw_ids _ _ Hg) Hf) as (k & h & -> & Hh & Hcap & Hk & Hnew);
      [rewrite (gw_cap _ _ Hg); lia|done|]. bsimpl.
    pose proof Hk as Hk'. rewrite (gw_cap _ _ Hg), <-(gw_conn_len _ _ Hg) in Hk'.
    unfold get_conn. destruct (aget_in (conn g) k Hk') as (c & -> & Hc). bsimpl.
    assert (c = closed_connection) as ->.
    { apply (gw_free _ _ Hg _ _ Hc). intros fd'. rewrite Z2Nat.id by lia. apply Hnew. }
    pose proof (zlen_nonneg (m_padding x)) as Hp0.
    replace (i32 (zlen (m_padding x))) with (zlen (m_padding x))
      by (unfold i32; rewrite Z.mod_small by lia; lia).
    unfold u64. rewrite Z.mod_small by lia.
    set (sz := if REMOTE_NAME_SIZE <=? zlen (m_padding x) then REMOTE_NAME_SIZE - 1 else zlen (m_padding x)).
    assert (Hsz : 0 ≤ sz ≤ 31 ∧ sz ≤ zlen (m_padding x)).
    { unfold sz, REMOTE_NAME_SIZE. destruct (Z.leb_spec 32 (zlen (m_padding x))); lia. }
    rewrite mread_in by lia. bsimpl. change (Z.to_nat 0) with 0%nat. rewrite drop_0.
    set (name := take (Z.to_nat sz) (m_padding x)).
    assert (Hn : zlen name = sz) by (unfold name, zlen in *; rewrite length_take; lia).
    destruct (mwrite_in (remote_name closed_connection) 0 name) as (name' & -> & Hl & _);
      [lia|change (zlen (remote_name closed_connection)) with 32; lia|]. bsimpl. change (zlen (remote_name closed_connection)) with 32 in Hl.
    rewrite aset_in by lia. bsimpl. rewrite aset_in by done. bsimpl.
    edestruct report_app as (acts & ->). rewrite <-app_assoc.
    eexists _, _, (<[m_ud x := k]> m). split; [|split; [|split; [by intros ?|by intros _; exists k]]].
    + done.
    + apply gate_wf_add; try done; [lia|]. cbn. by rewrite zlen_insert.
Qed.

(** C21: A gate in a proper state, and a message of any kind. When the message says
    that a connection was accepted by another socket than the gate's listen socket, the
    assertion of the code fails and the process ends; this happens after the text
    [close], see [accept_after_close]. Every other message is handled: no access leaves
    a buffer, no assertion fails and no loop runs on; the state stays proper, what is
    sent only grows, and the sockets of the gate are those before, plus an accepted one
    (refused when the table is full), minus a closed one. The messages are those of the
    socket thread ([good_message]): the data is not empty and fits into an [int] with
    what is buffered, and a new socket has an id that is not in use. *)
Theorem gate_handles_messages queryname g m w source msg :
  gate_wf g m → good_message g m msg →
  if stray_accept g msg then _cb queryname g w source msg = AssertFail
  else ∃ r g' acts m', _cb queryname g w source msg = Ret (r, (g', w ++ acts)) ∧ gate_wf g' m' ∧
    dom m' = next_sockets g m msg.
Proof.
  intros Hg Hgood. destruct (stray_accept g msg) eqn:Hstray.
  { destruct msg as [| |x|]; try discriminate Hstray. apply andb_true_iff in Hstray as [Ha Hl].
    apply Z.eqb_eq in Ha. cbn [_cb]. by rewrite stray_accept_aborts. }
  assert (Hsame : ∀ (r : Z) acts, ∃ r' g' acts' m',
    Ret (r, (g, w ++ acts)) = Ret (r', (g', w ++ acts')) ∧ gate_wf g' m' ∧ dom m' = dom m)
    by (intros r acts; by exists r, g, acts, m).
  assert (Hnone : ∀ r : Z, ∃ r' g' acts' m',
    Ret (r, (g, w)) = Ret (r', (g', w ++ acts')) ∧ gate_wf g' m' ∧ dom m' = dom m)
    by (intros r; exists r, g, [], m; by rewrite app_nil_r).
  destruct msg as [s|s|x|]; cbn [_cb next_sockets].
  - destruct Hgood as [Hs Hlen]. pose proof (zlen_nonneg s).
    replace (i32 (zlen s)) with (zlen s) by (unfold i32; rewrite Z.mod_small by lia; lia).
    destruct (ctrl_total queryname g m w s Hg Hs) as (g' & acts & -> & Hg'). bsimpl.
    by exists 0, g', acts, m.
  - destruct (Z.leb_spec (zlen s) 4); [apply Hsame|].
    rewrite (mread_in s (zlen s - 4) 4) by lia. bsimpl.
    set (idbuf := take _ (drop _ s)).
    assert (Hl : zlen idbuf = 4) by (unfold idbuf, zlen in *; rewrite length_take, length_drop; lia).
    destruct (aget_in idbuf 0) as (b0 & -> & _); [lia|]. destruct (aget_in idbuf 1) as (b1 & -> & _); [lia|].
    destruct (aget_in idbuf 2) as (b2 & -> & _); [lia|]. destruct (aget_in idbuf 3) as (b3 & -> & _); [lia|].
    bsimpl. rewrite (rep_lookup _ _ _ (gw_ids _ _ Hg)). bsimpl.
    destruct (0 <=? _); [|apply Hsame]. rewrite mread_in by lia. bsimpl. apply Hsame.
  - destruct Hgood as (Hpad & Hdata & Hclose & Haccept).
    destruct ((m_type x =? FENGNET_SOCKET_TYPE_CLOSE) || (m_type x =? FENGNET_SOCKET_TYPE_ERROR)) eqn:Hc.
    { apply orb_true_iff in Hc. rewrite !Z.eqb_eq in Hc.
      destruct (close_spec g m w x Hg (Hclose Hc) Hc) as (g' & acts & -> & Hg'). bsimpl.
      exists 0, g', acts, (delete (m_id x) m). split_and!; [done|done|by rewrite dom_delete_L]. }
    destruct (Z.eqb_spec (m_type x) FENGNET_SOCKET_TYPE_ACCEPT) as [Ha|Ha].
    { destruct (Haccept Ha) as (Hud & Hm).
      assert (Hl : m_id x = listen_id g).
      { cbn [stray_accept] in Hstray. rewrite Ha, Z.eqb_refl in Hstray. cbn [andb] in Hstray.
        apply negb_false_iff in Hstray. by apply Z.eqb_eq. }
      destruct (accept_spec g m w x Hg Ha Hl Hud Hm Hpad) as (g' & acts & m' & -> & Hg' & Hfull & Hnot).
      bsimpl. exists 0, g', acts, m'. split_and!; [done|done|].
      destruct (Z.eqb_spec (Z.of_nat (base.size m)) (max_connection g)) as [E|E].
      - by destruct (Hfull E) as [-> _].
      - destruct (Hnot E) as [k ->]. by rewrite dom_insert_L. }
    unfold dispatch_socket_message. rewrite Hc, (proj2 (Z.eqb_neq _ _) Ha).
    destruct (Z.eqb_spec (m_type x) FENGNET_SOCKET_TYPE_DATA) as [Hd|Hd].
    { destruct (Hdata Hd) as (data & -> & Hne & -> & Hmax).
      rewrite (rep_lookup _ _ _ (gw_ids _ _ Hg)). bsimpl.
      destruct (m !! m_id x) as [k|] eqn:Hm; cbn [default from_option Datatypes.id]; [|apply Hsame].
      destruct (gate_conn g m _ k Hg Hm) as (c & s & Hget & Hcc & Hk & _ & _ & _ & Hs).
      rewrite (proj2 (Z.leb_le _ _)) by lia. specialize (Hmax k c eq_refl Hcc).
      assert (Hzs : zlen s ≤ header_size g + size (c_buffer c)).
      { destruct Hs as [Hwf [[_ ->]|(_ & hb & Hhb & _ & ->)]].
        - rewrite (bw_size _ Hwf). destruct (gw_header _ _ Hg) as [-> | ->]; lia.
        - rewrite (bw_size _ Hwf), zlen_app. lia. }
      assert (Hsum : zlen s + zlen data ≤ INT_MAX) by lia.
      pose proof (dispatch_message_spec g m w (m_id x) k c s data Hg Hm Hcc Hs Hne Hsum) as Hdm.
      destruct (gcut _ _ _) as [ps r]. destruct Hdm as (db' & p' & -> & Hg' & _). bsimpl.
      by eexists 0, _, _, m. }
    destruct (m_type x =? FENGNET_SOCKET_TYPE_CONNECT).
    { destruct (m_id x =? listen_id g).
      - bsimpl. apply Hnone.
      - rewrite (rep_lookup _ _ _ (gw_ids _ _ Hg)). bsimpl.
        destruct (_ <? 0); [apply Hsame|apply Hnone]. }
    destruct (m_type x =? FENGNET_SOCKET_TYPE_WARNING); [apply Hsame|apply Hnone].
  - apply Hnone.
Qed.

(** A gate with four places, a watchdog and, in [one_connection], socket 7. *)
Definition sample_gate (h : hashid) : gate :=
  MkGate 3 9 0 PTYPE_CLIENT 2 4 h (replicate 4 closed_connection) zero_pool.

Lemma sample_gate_wf : ∃ h, gate_wf (sample_gate h) ∅.
Proof.
  destruct (hashid_init_spec 4) as (h & _ & Hh & Hcap); [done|]. exists h.
  by apply (new_gate_wf 3 9 0 PTYPE_CLIENT 2 4 h zero_pool); [left| | |].
Qed.

Lemma sample_connection : ∃ g k,
  gate_wf g {[ 7 := k ]} ∧ header_size g = 2 ∧ target g (MkConn 7 0 0 zero_name zero_buffer) = true ∧
  conn g !! Z.to_nat k = Some (MkConn 7 0 0 zero_name zero_buffer) ∧ watchdog g = 9 ∧ broker g = 0.
Proof.
  destruct sample_gate_wf as [h Hg].
  destruct (rep_insert h ∅ 7 (gw_ids _ _ Hg)) as (k & h' & _ & Hh & Hcap & Hk & Hnew).
  { destruct (rep_full h ∅ (gw_ids _ _ Hg)) as [-> _]. pose proof (gw_cap _ _ Hg) as Hc. cbn in Hc.
    rewrite Hc. done. }
  { pose proof (gw_cap _ _ Hg) as Hc. cbn in Hc. rewrite Hc. done. }
  { done. }
  pose proof (gate_wf_add _ _ h' 7 k (MkConn 7 0 0 zero_name zero_buffer) Hg Hh Hcap Hk Hnew
    eq_refl eq_refl eq_refl eq_refl eq_refl) as Hg'.
  eexists _, k. rewrite <-insert_empty. split; [exact Hg'|]. split_and!; try done.
  cbn. apply (list_lookup_insert_eq (replicate 4 closed_connection)).
  pose proof (gw_cap _ _ Hg) as Hc. cbn in Hc |- *. lia.
Qed.

Lemma gate_forwards_packages_witness : ∃ g k g' c',
  gate_wf g {[ 7 := k ]} ∧
  _cb (λ _, 0) g [] 0 (SocketMessage (data_message 7 [0; 2; 65; 66; 0; 0; 0])) =
    Ret (0, (g', [Send 0 9 0x10000 7 (codes "7 data " ++ [65; 66])])) ∧
  conn g' !! Z.to_nat k = Some c' ∧ holds_bytes 2 (c_buffer c') [0].
Proof.
  destruct sample_connection as (g & k & Hg & Hhs & Ht & Hc & Hw & Hb).
  destruct (gate_forwards_packages (λ _, 0) g _ [] 0 7 k _ [] [0; 2; 65; 66; 0; 0; 0]
    Hg Hhs (lookup_singleton_eq _ _) Hc Ht (holds_bytes_zero 2)) as (g' & c' & Hcb & _ & Hc' & Hs & _).
  - by repeat constructor.
  - done.
  - done.
  - exists g, k, g', c'. split; [exact Hg|]. split; [|split; [exact Hc'|exact Hs]].
    rewrite Hcb. unfold package_action. rewrite Hb, Hw. reflexivity.
Defined.

(** The text [close] forgets the listen socket, while connections that it has accepted
    may still wait in the queue of the gate: the first of them ends the process. *)
Lemma accept_after_close queryname g w l source fd :
  gate_wf g ∅ → listen_id g = l → 0 ≤ l →
  ∃ g', _cb queryname g w source (TextMessage (codes "close")) = Ret (0, (g', w ++ [SocketClose l])) ∧
    _cb queryname g' (w ++ [SocketClose l]) source
      (SocketMessage (MkSocketMessage FENGNET_SOCKET_TYPE_ACCEPT l fd None [])) = AssertFail.
Proof.
  intros Hg <- Hl. exists (set_listen g (-1)). split.
  - cbn [_cb]. change (_ctrl queryname g w (codes "close") _) with
      (if 0 <=? listen_id g then Ret (set_listen g (-1), w ++ [SocketClose (listen_id g)]) else Ret (g, w)).
    by rewrite (proj2 (Z.leb_le _ _)) by done.
  - cbn [_cb]. rewrite stray_accept_aborts; [done..|]. cbn. destruct (Z.eqb_spec (listen_id g) (-1)); lia || done.
Qed.

Lemma gate_handles_messages_witness : ∃ g r g' acts m',
  gate_wf g ∅ ∧
  _cb (λ _, 0) g [] 0 (SocketMessage (MkSocketMessage FENGNET_SOCKET_TYPE_ACCEPT 3 7 None [49])) =
    Ret (r, (g', acts)) ∧ gate_wf g' m' ∧ dom m' = {[ 7 ]}.
Proof.
  destruct sample_gate_wf as [h Hg].
  assert (Hgood : good_message (sample_gate h) ∅
    (SocketMessage (MkSocketMessage FENGNET_SOCKET_TYPE_ACCEPT 3 7 None [49]))).
  { split; [done|]. split; [done|]. split; [intros [?|?]; done|done]. }
  pose proof (gate_handles_messages (λ _, 0) (sample_gate h) ∅ [] 0 _ Hg Hgood) as Hm.
  change (stray_accept _ _) with false in Hm. cbn iota in Hm.
  destruct Hm as (r & g' & acts & m' & Hcb & Hg' & Hd).
  - exists (sample_gate h), r, g', acts, m'. split; [exact Hg|]. split; [exact Hcb|]. split; [exact Hg'|].
    rewrite Hd. reflexivity.
Defined.
