(* ===== verification/Timer.v ===== *)
(** * The timer wheel

    The model of [fengnet-src/fengnet_timer.cpp] and [fengnet_timer.h]: the
    hierarchical wheel that wakes services up. A linked list of nodes is the
    list of its nodes, because every node is in one list only; the spin lock
    is a field, because [timer_update] and [timer_execute] both take it. *)
From S2P Require Import Prelude MessageQueue.

Local Open Scope Z_scope.

(** ** Data *)

Definition TIME_NEAR_SHIFT : Z := 8.
Definition TIME_NEAR : Z := Z.shiftl 1 TIME_NEAR_SHIFT.
Definition TIME_LEVEL_SHIFT : Z := 6.
Definition TIME_LEVEL : Z := Z.shiftl 1 TIME_LEVEL_SHIFT.
Definition TIME_NEAR_MASK : Z := TIME_NEAR - 1.
Definition TIME_LEVEL_MASK : Z := TIME_LEVEL - 1.

Definition PTYPE_RESPONSE : Z := 1.

Record timer_event := MkEvent { event_handle : Z; event_session : Z }.

(** [struct timer_node] with the [timer_event] stored behind it. *)
Record timer_node := MkNode { expire : Z; event : timer_event }.

#[export] Instance timer_event_eq_dec : EqDecision timer_event.
Proof. solve_decision. Defined.
#[export] Instance timer_node_eq_dec : EqDecision timer_node.
Proof. solve_decision. Defined.

Notation link_list := (list timer_node) (only parsing).

Record timer := MkTimer {
  near : list link_list;
  t : list (list link_list);
  lock : bool;
  time : Z;
  starttime : Z;
  current : Z;
  current_point : Z
}.

Definition set_lists (T : timer) (near' : list link_list) (t' : list (list link_list)) : timer :=
  MkTimer near' t' (lock T) (time T) (starttime T) (current T) (current_point T).
Definition set_lock (T : timer) (b : bool) : timer :=
  MkTimer (near T) (t T) b (time T) (starttime T) (current T) (current_point T).
Definition set_time (T : timer) (v : Z) : timer :=
  MkTimer (near T) (t T) (lock T) v (starttime T) (current T) (current_point T).
Definition set_clock (T : timer) (start cur point : Z) : timer :=
  MkTimer (near T) (t T) (lock T) (time T) start cur point.

(** What the timer calls in the rest of the server, whose state is [W]:
    [fengnet_context_push], and [fengnet_error] when the clock goes back. *)
Class TimerEnv (W : Type) := {
  context_push : W → Z → fengnet_message → outcome (Z * W);
  clock_error : W → Z → Z → outcome W
}.

(** [lock.lock()] on a lock that is held by the calling thread waits for ever. *)
Definition acquire (T : timer) : outcome timer :=
  if lock T then Deadlock else Ret (set_lock T true).
Definition unlock (T : timer) : timer := set_lock T false.

(** ** Operations *)

(** [link(&lists[i], node)]: at the tail. *)
Definition link (lists : list link_list) (i : Z) (node : timer_node) : outcome (list link_list) :=
  l ← aget lists i; aset lists i (l ++ [node]).

(** [link_clear(&lists[i])]: empties the list and returns its nodes. *)
Definition link_clear (lists : list link_list) (i : Z) : outcome (link_list * list link_list) :=
  l ← aget lists i; lists' ← aset lists i []; Ret (l, lists').

(** The [for (i=0;i<3;i++)] search of the level. *)
Definition level_step (time current_time : Z) (s : Z * Z) : outcome ((Z * Z) + Z) :=
  let '(i, mask) := s in
  if i <? 3 then
    if Z.lor time (u32 (mask - 1)) =? Z.lor current_time (u32 (mask - 1)) then Ret (inr i)
    else Ret (inl (i + 1, u32 (Z.shiftl mask TIME_LEVEL_SHIFT)))
  else Ret (inr i).

Definition add_node (T : timer) (node : timer_node) : outcome timer :=
  let tm := expire node in
  let current_time := time T in
  if Z.lor tm TIME_NEAR_MASK =? Z.lor current_time TIME_NEAR_MASK then
    near' ← link (near T) (Z.land tm TIME_NEAR_MASK) node;
    Ret (set_lists T near' (t T))
  else
    i ← loop 4 (level_step tm current_time) (0, Z.shiftl TIME_NEAR TIME_LEVEL_SHIFT);
    ti ← aget (t T) i;
    ti' ← link ti (Z.land (Z.shiftr tm (TIME_NEAR_SHIFT + i * TIME_LEVEL_SHIFT)) TIME_LEVEL_MASK) node;
    t' ← aset (t T) i ti';
    Ret (set_lists T (near T) t').

(** [time] is an [int]; the sum is a [uint32_t]. *)
Definition timer_add (T : timer) (arg : timer_event) (time_ : Z) : outcome timer :=
  T1 ← acquire T;
  T2 ← add_node T1 (MkNode (u32 (time_ + time T1)) arg);
  Ret (unlock T2).

(** The [while (current)] loop of [move_list]. *)
Fixpoint add_nodes (T : timer) (l : link_list) : outcome timer :=
  match l with
  | [] => Ret T
  | node :: l' => T' ← add_node T node; add_nodes T' l'
  end.

Definition move_list (T : timer) (level idx : Z) : outcome timer :=
  ti ← aget (t T) level;
  '(cur, ti') ← link_clear ti idx;
  t' ← aset (t T) level ti';
  add_nodes (set_lists T (near T) t') cur.

(** One turn of the [while ((ct & (mask-1))==0)] loop of [timer_shift]. *)
Definition shift_step (ct : Z) (T : timer) (s : Z * Z * Z) : outcome ((Z * Z * Z) + timer) :=
  let '(mask, tm, i) := s in
  if Z.land ct (mask - 1) =? 0 then
    let idx := Z.land tm TIME_LEVEL_MASK in
    if negb (idx =? 0) then T' ← move_list T i idx; Ret (inr T')
    else
      mask' ← cint (Z.shiftl mask TIME_LEVEL_SHIFT);
      Ret (inl (mask', Z.shiftr tm TIME_LEVEL_SHIFT, i + 1))
  else Ret (inr T).

Definition timer_shift (T : timer) : outcome timer :=
  let ct := u32 (time T + 1) in
  let T' := set_time T ct in
  if ct =? 0 then move_list T' 3 0
  else loop 5 (shift_step ct T') (TIME_NEAR, Z.shiftr ct TIME_NEAR_SHIFT, 0).

(** The message that wakes a service up. *)
Definition timeout_message (session_ : Z) : fengnet_message :=
  MkMsg 0 session_ 0 (Z.shiftl PTYPE_RESPONSE MESSAGE_TYPE_SHIFT).

Section operations.
Context {W : Type} `{!TimerEnv W}.

(** The body of the [do] loop of [dispatch_list], node after node. *)
Fixpoint push_events (w : W) (l : link_list) : outcome W :=
  match l with
  | [] => Ret w
  | node :: l' =>
      '(_, w') ← context_push w (event_handle (event node))
                   (timeout_message (event_session (event node)));
      push_events w' l'
  end.

(** A [do ... while (current)] loop: reading the first node of an empty list
    is a null pointer access. *)
Definition dispatch_list (w : W) (l : link_list) : outcome W :=
  match l with [] => Undef | _ :: _ => push_events w l end.

Definition execute_step (idx : Z) (s : timer * W) : outcome ((timer * W) + (timer * W)) :=
  let '(T, w) := s in
  l ← aget (near T) idx;
  match l with
  | [] => Ret (inr (T, w))
  | _ :: _ =>
      '(cur, near') ← link_clear (near T) idx;
      T1 ← acquire (set_lists T near' (t T));
      w' ← dispatch_list w cur;
      Ret (inl (unlock T1, w'))
  end.

(** The list stays empty while it is dispatched, so two turns are enough. *)
Definition timer_execute (T : timer) (w : W) : outcome (timer * W) :=
  loop 3 (execute_step (Z.land (time T) TIME_NEAR_MASK)) (T, w).

Definition timer_update (T : timer) (w : W) : outcome (timer * W) :=
  T1 ← acquire T;
  '(T2, w2) ← timer_execute T1 w;
  T3 ← timer_shift T2;
  '(T4, w4) ← timer_execute T3 w2;
  Ret (unlock T4, w4).

Definition fengnet_timeout (T : timer) (w : W) (handle_ time_ session_ : Z)
    : outcome (Z * timer * W) :=
  if time_ <=? 0 then
    '(r, w') ← context_push w handle_ (timeout_message session_);
    if negb (r =? 0) then Ret (-1, T, w') else Ret (session_, T, w')
  else
    T' ← timer_add T (MkEvent handle_ session_) time_;
    Ret (session_, T', w).

(** [cp] is what [gettime] returns. The counter [i] is an [int]. *)
Definition fengnet_updatetime (T : timer) (w : W) (cp : Z) : outcome (timer * W) :=
  if cp <? current_point T then
    w' ← clock_error w cp (current_point T);
    Ret (set_clock T (starttime T) (current T) cp, w')
  else if negb (cp =? current_point T) then
    let diff := u32 (cp - current_point T) in
    for_loop (Z.to_nat diff) 0
      (λ i '(T, w), r ← timer_update T w; _ ← cint (i + 1); Ret r)
      (set_clock T (starttime T) (u64 (current T + diff)) cp, w)
  else Ret (T, w).
End operations.

(** The clocks: a [timespec] is its seconds and nanoseconds. *)
Definition systime (tv_sec tv_nsec : Z) : Z * Z := (u32 tv_sec, u32 (Z.quot tv_nsec 10000000)).
Definition gettime (tv_sec tv_nsec : Z) : Z :=
  u64 (u64 (tv_sec * 100) + Z.quot tv_nsec 10000000).
Definition fengnet_thread_time (tv_sec tv_nsec : Z) : Z :=
  u64 (tv_sec * 1000000 + u64 tv_nsec / (1000000000 / 1000000)).

Definition timer_create_timer : timer :=
  MkTimer (replicate (Z.to_nat TIME_NEAR) [])
    (replicate 4 (replicate (Z.to_nat TIME_LEVEL) [])) false 0 0 0 0.

(** [now] and [up] are the [timespec]s of the real-time and monotonic clocks. *)
Definition fengnet_timer_init (now up : Z * Z) : timer :=
  let '(sec, cs) := systime now.1 now.2 in
  set_clock timer_create_timer sec cs (gettime up.1 up.2).

(** ** Where a node belongs *)

Inductive slot := Near (i : nat) | Level (l i : nat).

#[export] Instance slot_eq_dec : EqDecision slot.
Proof. solve_decision. Defined.

Definition slot_list (T : timer) (s : slot) : link_list :=
  match s with
  | Near i => default [] (near T !! i)
  | Level l i => default [] (t T !! l ≫= λ ti, ti !! i)
  end.

(** The slot of a node that expires at [e], at time [c]: near when both are
    in the same 256 ticks, and one level higher per 64-fold longer block. *)
Definition slot_of (c e : Z) : slot :=
  if e / 2 ^ 8 =? c / 2 ^ 8 then Near (Z.to_nat (e mod 2 ^ 8))
  else if e / 2 ^ 14 =? c / 2 ^ 14 then Level 0 (Z.to_nat (e / 2 ^ 8 mod 2 ^ 6))
  else if e / 2 ^ 20 =? c / 2 ^ 20 then Level 1 (Z.to_nat (e / 2 ^ 14 mod 2 ^ 6))
  else if e / 2 ^ 26 =? c / 2 ^ 26 then Level 2 (Z.to_nat (e / 2 ^ 20 mod 2 ^ 6))
  else Level 3 (Z.to_nat (e / 2 ^ 26 mod 2 ^ 6)).

Definition u32_range (z : Z) : Prop := 0 ≤ z < 2 ^ 32.

(** Ticks from [c] until [e], on the 32-bit clock. *)
Definition ticks_to (c e : Z) : Z := (e - c) mod 2 ^ 32.

(** The arrays have their sizes. *)
Record timer_shape (T : timer) : Prop := {
  shape_near : length (near T) = 256%nat;
  shape_t : length (t T) = 4%nat;
  shape_levels : Forall (λ ti, length ti = 64%nat) (t T);
  shape_time : u32_range (time T)
}.

(** Every node is in the slot of its expiry, less than 2^31 ticks ahead. *)
Record timer_wf (T : timer) : Prop := {
  wf_shape : timer_shape T;
  wf_slots s n : n ∈ slot_list T s →
    s = slot_of (time T) (expire n) ∧ u32_range (expire n) ∧
    ticks_to (time T) (expire n) < 2 ^ 31
}.

Lemma lor_mask_eq a b k : 0 ≤ k →
  (Z.lor a (2 ^ k - 1) =? Z.lor b (2 ^ k - 1)) = (a / 2 ^ k =? b / 2 ^ k).
Proof.
  intros Hk.
  assert (Hl : ∀ x, Z.lor x (2 ^ k - 1) = x / 2 ^ k * 2 ^ k + (2 ^ k - 1)).
  { intros x. pose proof (Z.add_lor_land x (2 ^ k - 1)) as H. rewrite land_mask in H by done.
    pose proof (Z.div_mod x (2 ^ k)). lia. }
  rewrite !Hl. apply eq_true_iff_eq. rewrite !Z.eqb_eq. nia.
Qed.

Lemma level_step_eq e c i k : 0 ≤ i < 3 → 0 < k < 32 →
  level_step e c (i, 2 ^ k) =
  Ret (if e / 2 ^ k =? c / 2 ^ k then inr i else inl (i + 1, u32 (2 ^ (k + 6)))).
Proof.
  intros Hi Hk. unfold level_step. rewrite (proj2 (Z.ltb_lt _ _)) by lia.
  assert (0 < 2 ^ k < 2 ^ 32) by (split; [lia|apply Z.pow_lt_mono_r; lia]).
  replace (u32 (2 ^ k - 1)) with (2 ^ k - 1) by (unfold u32; symmetry; apply Z.mod_small; lia).
  rewrite lor_mask_eq, Z.shiftl_mul_pow2, <-Z.pow_add_r by done || lia.
  by destruct (_ =? _).
Qed.

Lemma level_loop e c :
  loop 4 (level_step e c) (0, Z.shiftl TIME_NEAR TIME_LEVEL_SHIFT) =
  Ret (if e / 2 ^ 14 =? c / 2 ^ 14 then 0 else if e / 2 ^ 20 =? c / 2 ^ 20 then 1
       else if e / 2 ^ 26 =? c / 2 ^ 26 then 2 else 3).
Proof.
  change (Z.shiftl TIME_NEAR TIME_LEVEL_SHIFT) with (2 ^ 14).
  do 3 (rewrite loop_S, level_step_eq by lia; bsimpl; destruct (_ =? _); [done|];
        change (u32 (2 ^ (14 + 6))) with (2 ^ 20); change (u32 (2 ^ (20 + 6))) with (2 ^ 26)).
  done.
Qed.

(** Appending a node to a slot. *)
Definition slot_add (T T' : timer) (s : slot) (l : link_list) : Prop :=
  (∀ s', slot_list T' s' = if decide (s' = s) then slot_list T s' ++ l else slot_list T s') ∧
  timer_shape T' ∧ lock T' = lock T ∧ time T' = time T ∧
  set_lists T' (near T) (t T) = T.

Lemma slot_of_range c e :
  match slot_of c e with Near i => (i < 256)%nat | Level l i => (l < 4)%nat ∧ (i < 64)%nat end.
Proof.
  assert (H8 : ∀ x, (Z.to_nat (x mod 2 ^ 8) < 256)%nat)
    by (intros x; pose proof (Z.mod_pos_bound x (2 ^ 8)); lia).
  assert (H6 : ∀ x, (Z.to_nat (x mod 2 ^ 6) < 64)%nat)
    by (intros x; pose proof (Z.mod_pos_bound x (2 ^ 6)); lia).
  unfold slot_of. repeat destruct (_ =? _); split_and?; auto; lia.
Qed.

Lemma link_in lists i node :
  (Z.to_nat i < length lists)%nat → 0 ≤ i →
  link lists i node = Ret (<[Z.to_nat i := default [] (lists !! Z.to_nat i) ++ [node]]> lists).
Proof.
  intros Hi H0. unfold link. destruct (aget_in lists i) as (l & -> & ->); [unfold zlen; lia|].
  bsimpl. by rewrite aset_in by (unfold zlen; lia).
Qed.

Lemma slot_add_near T i l : timer_shape T → (i < 256)%nat →
  slot_add T (set_lists T (<[i := default [] (near T !! i) ++ l]> (near T)) (t T)) (Near i) l.
Proof.
  intros [H1 H2 H3 H4] Hi. split_and!; try done; [|split; cbn; [by rewrite length_insert|done..]|by destruct T].
  intros [j|l' j]; cbn [slot_list set_lists near t].
  - rewrite list_lookup_insert. repeat case_decide; naive_solver lia.
  - by rewrite decide_False.
Qed.

Lemma slot_add_level T l i nodes : timer_shape T → (l < 4)%nat → (i < 64)%nat →
  ∃ ti, t T !! l = Some ti ∧ length ti = 64%nat ∧
  slot_add T (set_lists T (near T) (<[l := <[i := default [] (ti !! i) ++ nodes]> ti]> (t T)))
    (Level l i) nodes.
Proof.
  intros [H1 H2 H3 H4] Hl Hi. destruct (lookup_lt_is_Some_2 (t T) l) as [ti Hti]; [lia|].
  assert (Hlen : length ti = 64%nat) by (eapply Forall_lookup_1 in H3; done).
  exists ti. split_and!; [done|done|]. split_and!; try done; [|split; cbn; try done|by destruct T].
  - intros [j|l' j]; cbn [slot_list set_lists near t]; [by rewrite decide_False|].
    rewrite list_lookup_insert. destruct (decide (l = l')) as [<-|Hne].
    + rewrite decide_True by lia. cbn. rewrite Hti. cbn. rewrite list_lookup_insert.
      repeat case_decide; naive_solver lia.
    + rewrite decide_False by naive_solver. by rewrite decide_False by naive_solver.
  - by rewrite length_insert.
  - apply Forall_insert; [done|]. by rewrite length_insert.
Qed.

Lemma add_node_spec T n : timer_shape T →
  ∃ T', add_node T n = Ret T' ∧ slot_add T T' (slot_of (time T) (expire n)) [n].
Proof.
  intros Hs. pose proof (slot_of_range (time T) (expire n)) as Hr. unfold add_node, slot_of in *.
  change TIME_NEAR_MASK with (2 ^ 8 - 1). rewrite lor_mask_eq by done.
  destruct (expire n / 2 ^ 8 =? time T / 2 ^ 8).
  - rewrite land_mask by done. pose proof (shape_near T Hs).
    rewrite link_in by (try apply Z.mod_pos_bound; lia). bsimpl. eexists.
    split; [done|]. by apply slot_add_near.
  - rewrite level_loop. bsimpl. change TIME_LEVEL_MASK with (2 ^ 6 - 1).
    unfold TIME_NEAR_SHIFT, TIME_LEVEL_SHIFT.
    assert (Hgo : ∀ l k, k = 2 ^ (8 + l * 6) → 0 ≤ l < 4 →
      ∃ T', (ti ← aget (t T) l;
             ti' ← link ti (Z.land (Z.shiftr (expire n) (8 + l * 6)) (2 ^ 6 - 1)) n;
             t' ← aset (t T) l ti'; Ret (set_lists T (near T) t')) = Ret T' ∧
            slot_add T T' (Level (Z.to_nat l) (Z.to_nat (expire n / k mod 2 ^ 6))) [n]).
    { intros l k -> Hl. rewrite land_mask, Z.shiftr_div_pow2 by lia.
      destruct (slot_add_level T (Z.to_nat l) (Z.to_nat (expire n / 2 ^ (8 + l * 6) mod 2 ^ 6)) [n])
        as (ti & Hti & Hlen & Hadd); [done|lia| |].
      { pose proof (Z.mod_pos_bound (expire n / 2 ^ (8 + l * 6)) (2 ^ 6)). lia. }
      rewrite (proj2 (aget_Ret _ _ _)) by (split; [lia|done]). bsimpl.
      pose proof (Z.mod_pos_bound (expire n / 2 ^ (8 + l * 6)) (2 ^ 6)).
      rewrite link_in by lia. bsimpl. rewrite aset_in by (unfold zlen; rewrite (shape_t T Hs); lia).
      bsimpl. eexists. split; [done|]. done. }
    repeat destruct (_ =? _); apply Hgo; done || lia.
Qed.

(** The nodes of [l] that belong in [s] at time [c]. *)
Definition belongs (c : Z) (s : slot) (l : link_list) : link_list :=
  filter (λ n, slot_of c (expire n) = s) l.

(** The fields that the wheel does not use. *)
Definition clocks (T : timer) : Z * Z * Z := (starttime T, current T, current_point T).

(** [T'] has the clock and the lock of [T], and the lists [f]. *)
Record timer_is (T T' : timer) (c : Z) (f : slot → link_list) : Prop := {
  is_slots s : slot_list T' s = f s;
  is_shape : timer_shape T';
  is_lock : lock T' = lock T;
  is_time : time T' = c;
  is_clocks : clocks T' = clocks T
}.

Lemma add_nodes_spec T l : timer_shape T →
  ∃ T', add_nodes T l = Ret T' ∧
    timer_is T T' (time T) (λ s, slot_list T s ++ belongs (time T) s l).
Proof.
  revert T. induction l as [|n l IH]; intros T Hs; cbn [add_nodes].
  { exists T. split; [done|]. split; try done. intros s. cbn. by rewrite app_nil_r. }
  destruct (add_node_spec T n Hs) as (T1 & -> & Hl1 & Hs1 & Hk1 & Ht1 & Hc1). bsimpl.
  destruct (IH T1 Hs1) as (T2 & -> & [Hl2 Hs2 Hk2 Ht2 Hc2]).
  exists T2. split; [done|]. split; [|done|congruence|congruence|rewrite Hc2, <-Hc1 at 1; done].
  intros s. rewrite Hl2, Hl1, Ht1. unfold belongs. rewrite filter_cons.
  destruct (decide (s = slot_of (time T) (expire n))) as [->|Hne].
  - rewrite decide_True by done. by rewrite <-app_assoc.
  - by rewrite decide_False by congruence.
Qed.

(** A slot is emptied and its nodes go where they belong at time [c]. *)
Definition moved_to (T : timer) (c : Z) (m : slot) (s : slot) : link_list :=
  (if decide (s = m) then [] else slot_list T s) ++ belongs c s (slot_list T m).

Lemma move_list_spec T l i : timer_shape T → 0 ≤ l < 4 → 0 ≤ i < 64 →
  ∃ T', move_list T l i = Ret T' ∧
    timer_is T T' (time T) (moved_to T (time T) (Level (Z.to_nat l) (Z.to_nat i))).
Proof.
  intros Hs Hl Hi. unfold move_list, link_clear.
  destruct (lookup_lt_is_Some_2 (t T) (Z.to_nat l)) as [ti Hti]; [rewrite (shape_t T Hs); lia|].
  assert (Hlen : length ti = 64%nat) by (eapply Forall_lookup_1 in Hti; [|apply Hs]; done).
  rewrite (proj2 (aget_Ret _ _ ti)) by (split; [lia|done]). bsimpl.
  destruct (aget_in ti i) as (cur & -> & Hcur); [unfold zlen; lia|]. bsimpl.
  rewrite aset_in by (unfold zlen; lia). bsimpl.
  rewrite aset_in by (unfold zlen; rewrite (shape_t T Hs); lia). bsimpl.
  set (T1 := set_lists _ _ _).
  assert (Hm : slot_list T (Level (Z.to_nat l) (Z.to_nat i)) = cur)
    by (cbn; rewrite Hti; cbn; by rewrite Hcur).
  assert (H1 : ∀ s, slot_list T1 s =
    if decide (s = Level (Z.to_nat l) (Z.to_nat i)) then [] else slot_list T s).
  { intros [j|l' j]; cbn [slot_list T1 set_lists near t]; [by rewrite decide_False|].
    rewrite list_lookup_insert. destruct (decide (Z.to_nat l = l')) as [<-|Hne].
    - rewrite decide_True by (rewrite (shape_t T Hs); lia). cbn. rewrite Hti. cbn.
      rewrite list_lookup_insert. repeat case_decide; naive_solver lia.
    - rewrite decide_False by naive_solver. by rewrite decide_False by naive_solver. }
  assert (Hs1 : timer_shape T1).
  { destruct Hs as [A1 A2 A3 A4]. split; cbn; try done; [by rewrite length_insert|].
    apply Forall_insert; [done|]. by rewrite length_insert. }
  destruct (add_nodes_spec T1 cur Hs1) as (T2 & -> & [Hl2 Hs2 Hk2 Ht2 Hc2]).
  exists T2. split; [done|]. split; try done. intros s. rewrite Hl2, H1. unfold moved_to.
  by rewrite Hm.
Qed.

(** The slot that [timer_shift] empties when the clock becomes [c]. *)
Definition moved (c : Z) : option slot :=
  if c =? 0 then Some (Level 3 0)
  else if negb (c mod 2 ^ 8 =? 0) then None
  else if negb (c mod 2 ^ 14 =? 0) then Some (Level 0 (Z.to_nat (c / 2 ^ 8 mod 2 ^ 6)))
  else if negb (c mod 2 ^ 20 =? 0) then Some (Level 1 (Z.to_nat (c / 2 ^ 14 mod 2 ^ 6)))
  else if negb (c mod 2 ^ 26 =? 0) then Some (Level 2 (Z.to_nat (c / 2 ^ 20 mod 2 ^ 6)))
  else Some (Level 3 (Z.to_nat (c / 2 ^ 26 mod 2 ^ 6))).

Definition shifted (T : timer) (c : Z) (s : slot) : link_list :=
  match moved c with Some m => moved_to T c m s | None => slot_list T s end.

Lemma shift_step_eq c T i k : k = 8 + 6 * i → 0 ≤ i < 4 → u32_range c → c ≠ 0 →
  c mod 2 ^ k = 0 → (i = 3 → c / 2 ^ k mod 2 ^ 6 ≠ 0) →
  shift_step c T (2 ^ k, c / 2 ^ k, i) =
  if negb (c / 2 ^ k mod 2 ^ 6 =? 0)
  then T' ← move_list T i (c / 2 ^ k mod 2 ^ 6); Ret (inr T')
  else Ret (inl (2 ^ (k + 6), c / 2 ^ (k + 6), i + 1)).
Proof.
  intros Hk Hi Hc H0 Hm H3. unfold shift_step. rewrite !land_mask by lia. rewrite Hm. cbn [Z.eqb].
  change TIME_LEVEL_MASK with (2 ^ 6 - 1). rewrite land_mask by done.
  unfold TIME_LEVEL_SHIFT.
  destruct (Z.eqb_spec (c / 2 ^ k mod 2 ^ 6) 0); cbn [negb]; [|done].
  rewrite Z.shiftl_mul_pow2, <-Z.pow_add_r by lia.
  assert (i < 3) by (destruct (decide (i = 3)); naive_solver lia).
  assert (2 ^ (k + 6) ≤ 2 ^ 26) by (apply Z.pow_le_mono_r; lia).
  assert (0 < 2 ^ (k + 6)) by lia.
  rewrite cint_in by (unfold INT_MAX, INT_MIN; lia). bsimpl.
  rewrite Z.shiftr_div_pow2, Z.div_div, <-Z.pow_add_r by lia. done.
Qed.

Lemma shift_stop c T k i : 0 ≤ k → c mod 2 ^ k ≠ 0 → ∀ tm,
  shift_step c T (2 ^ k, tm, i) = Ret (inr T).
Proof.
  intros Hk Hm tm. unfold shift_step. rewrite land_mask by done.
  by rewrite (proj2 (Z.eqb_neq _ _)).
Qed.

Lemma next_block c k : 0 ≤ k → c mod 2 ^ k = 0 → (c / 2 ^ k mod 2 ^ 6 =? 0) = (c mod 2 ^ (k + 6) =? 0).
Proof.
  intros Hk Hm. rewrite Z.pow_add_r by lia. rewrite Z.rem_mul_r by lia. rewrite Hm.
  apply eq_true_iff_eq. rewrite !Z.eqb_eq. pose proof (Z.mod_pos_bound (c / 2 ^ k) (2 ^ 6)). nia.
Qed.

Lemma top_block c : u32_range c → c ≠ 0 → c mod 2 ^ 26 = 0 → c / 2 ^ 26 mod 2 ^ 6 ≠ 0.
Proof.
  intros Hc H0 Hm. rewrite (Z.mod_small _ (2 ^ 6)).
  - pose proof (Z.div_mod c (2 ^ 26)). lia.
  - split; [apply Z.div_pos; unfold u32_range in Hc; lia|].
    apply Z.div_lt_upper_bound; unfold u32_range in Hc; lia.
Qed.

(** The loop of [timer_shift] moves the list of the highest level whose block
    starts at [c]. *)
Lemma shift_loop c T : u32_range c → c ≠ 0 →
  loop 5 (shift_step c T) (TIME_NEAR, Z.shiftr c TIME_NEAR_SHIFT, 0) =
  match moved c with
  | Some (Level l i) => move_list T (Z.of_nat l) (Z.of_nat i)
  | _ => Ret T
  end.
Proof.
  intros Hc H0.
  change TIME_NEAR with (2 ^ 8). rewrite Z.shiftr_div_pow2 by done. change TIME_NEAR_SHIFT with 8.
  unfold moved. rewrite (proj2 (Z.eqb_neq c 0)) by done.
  assert (B : ∀ x, Z.of_nat (Z.to_nat (x mod 2 ^ 6)) = x mod 2 ^ 6)
    by (intros x; apply Z2Nat.id, Z.mod_pos_bound; lia).
  assert (Hret : ∀ m n, (o ← (T' ← m; Ret (inr T'));
    match o with inl s => loop n (shift_step c T) s | inr r => Ret r end) = (m : outcome timer)).
  { intros [] n; done. }
  pose proof (top_block c Hc H0) as Htop.
  destruct (Z.eqb_spec (c mod 2 ^ 8) 0) as [H8|H8]; cbn [negb];
    [|rewrite loop_S, shift_stop by done; done].
  rewrite loop_S, (shift_step_eq c T 0 8), next_block by done.
  change (8 + 6) with 14 in *; change (0 + 1) with 1.
  destruct (Z.eqb_spec (c mod 2 ^ 14) 0) as [H14|H14]; cbn [negb];
    [|rewrite Hret; by rewrite B].
  bsimpl. rewrite loop_S, (shift_step_eq c T 1 14), next_block by done.
  change (14 + 6) with 20 in *; change (1 + 1) with 2.
  destruct (Z.eqb_spec (c mod 2 ^ 20) 0) as [H20|H20]; cbn [negb];
    [|rewrite Hret; by rewrite B].
  bsimpl. rewrite loop_S, (shift_step_eq c T 2 20), next_block by done.
  change (20 + 6) with 26 in *; change (2 + 1) with 3.
  destruct (Z.eqb_spec (c mod 2 ^ 26) 0) as [H26|H26]; cbn [negb];
    [|rewrite Hret; by rewrite B].
  bsimpl. rewrite loop_S, (shift_step_eq c T 3 26) by (done || auto).
  rewrite (proj2 (Z.eqb_neq _ 0)) by auto. cbn [negb].
  rewrite Hret. by rewrite B.
Qed.

Lemma moved_range c m : moved c = Some m →
  ∃ l i, m = Level l i ∧ (l < 4)%nat ∧ (i < 64)%nat.
Proof.
  assert (H6 : ∀ x, (Z.to_nat (x mod 2 ^ 6) < 64)%nat)
    by (intros x; pose proof (Z.mod_pos_bound x (2 ^ 6)); lia).
  unfold moved. intros H. repeat case_match; simplify_eq; eexists _, _; split_and!; eauto; lia.
Qed.

Lemma timer_shift_spec T : timer_shape T →
  let c := u32 (time T + 1) in
  ∃ T', timer_shift T = Ret T' ∧ timer_is T T' c (shifted T c).
Proof.
  intros Hs c. unfold timer_shift. fold c.
  assert (Hc : u32_range c) by (apply Z.mod_pos_bound; lia).
  set (T0 := set_time T c).
  assert (Hs0 : timer_shape T0) by (destruct Hs; by split).
  assert (Hgo : ∀ l i, (l < 4)%nat → (i < 64)%nat → moved c = Some (Level l i) →
    ∃ T', move_list T0 (Z.of_nat l) (Z.of_nat i) = Ret T' ∧ timer_is T T' c (shifted T c)).
  { intros l i Hl Hi Hm.
    destruct (move_list_spec T0 (Z.of_nat l) (Z.of_nat i) Hs0) as (T' & HT' & [? ? ? ? ?]); [lia..|].
    rewrite !Nat2Z.id in *.
    exists T'. split; [done|]. split; try done. intros s. unfold shifted. by rewrite Hm. }
  destruct (Z.eqb_spec c 0) as [H0|H0].
  { apply (Hgo 3%nat 0%nat); [lia..|]. by rewrite H0. }
  rewrite shift_loop by done. destruct (moved c) as [m|] eqn:Hm.
  - destruct (moved_range c m Hm) as (l & i & -> & ? & ?). by apply Hgo.
  - exists T0. split; [done|]. split; try done. intros s. unfold shifted. by rewrite Hm.
Qed.

(** ** The clock moves *)

Lemma ticks_next c e : u32_range c → u32_range e → ticks_to c e ≠ 0 →
  ticks_to (u32 (c + 1)) e = ticks_to c e - 1.
Proof. unfold u32_range, ticks_to, u32. zlia. Qed.

Lemma ticks_zero c e : u32_range c → u32_range e → ticks_to c e = 0 ↔ e = c.
Proof. unfold u32_range, ticks_to. zlia. Qed.

(** A block of 2^k ticks ends at [c] only if nothing ahead is in it. *)
Lemma block_next c e k : 0 ≤ k ≤ 26 → u32_range c → u32_range e →
  e ≠ c → ticks_to c e < 2 ^ 31 →
  let c' := u32 (c + 1) in
  (c' mod 2 ^ k ≠ 0 → c' / 2 ^ k = c / 2 ^ k) ∧
  (c' mod 2 ^ k = 0 → e / 2 ^ k ≠ c / 2 ^ k).
Proof.
  intros Hk Hc He Hne Ht c'. unfold u32_range, ticks_to in *.
  assert (Hp : 0 < 2 ^ k ≤ 2 ^ 26) by (split; [lia|apply Z.pow_le_mono_r; lia]).
  assert (Hd : (2 ^ k | 2 ^ 32)).
  { exists (2 ^ (32 - k)). rewrite <-Z.pow_add_r by lia. f_equal. lia. }
  destruct Hd as [q Hq]. set (p := 2 ^ k) in *. clearbody p.
  pose proof (Z.div_mod c p ltac:(lia)). pose proof (Z.mod_pos_bound c p ltac:(lia)).
  pose proof (Z.div_mod e p ltac:(lia)). pose proof (Z.mod_pos_bound e p ltac:(lia)).
  destruct (decide (c + 1 = 2 ^ 32)) as [Heq|Hn].
  - assert (Hc' : c' = 0) by (unfold c', u32; rewrite Heq; done). rewrite Hc'.
    rewrite Z.mod_0_l by lia. split; [done|]. intros _ E. rewrite E in *.
    assert (c mod p = p - 1).
    { replace c with ((q - 1) * p + (p - 1)) by lia. rewrite Z.add_comm, Z.mod_add by lia.
      apply Z.mod_small. lia. }
    assert (e < c) by lia. revert Ht. zlia.
  - assert (Hc' : c' = c + 1) by (unfold c', u32; apply Z.mod_small; lia). rewrite Hc'.
    destruct (decide (c mod p = p - 1)) as [Hl|Hl].
    + assert (Hm : (c + 1) mod p = 0) by (symmetry; apply Z.mod_unique with (c / p + 1); lia).
      split; [done|]. intros _ E. rewrite E in *. assert (e < c) by lia.
      assert (c - e < p) by lia. revert Ht. zlia.
    + assert (Hm : (c + 1) mod p = c mod p + 1)
        by (symmetry; apply Z.mod_unique with (c / p); lia).
      split; [|lia]. intros _. symmetry. apply Z.div_unique with (c mod p + 1); lia.
Qed.

(** Nodes outside the slot that is moved stay in the right place. *)
Lemma slot_stays c e : u32_range c → u32_range e → e ≠ c → ticks_to c e < 2 ^ 31 →
  moved (u32 (c + 1)) ≠ Some (slot_of c e) → slot_of (u32 (c + 1)) e = slot_of c e.
Proof.
  intros Hc He Hne Ht Hm.
  assert (Hb := λ k Hk, block_next c e k Hk Hc He Hne Ht). cbn zeta in Hb.
  assert (Hc' : u32_range (u32 (c + 1))) by (apply Z.mod_pos_bound; lia).
  pose proof (Hb 8 ltac:(lia)) as [A8 B8]. pose proof (Hb 14 ltac:(lia)) as [A14 B14].
  pose proof (Hb 20 ltac:(lia)) as [A20 B20]. pose proof (Hb 26 ltac:(lia)) as [A26 B26].
  clear Hb. set (c' := u32 (c + 1)) in *. clearbody c'.
  assert (F : ∀ k, 0 ≤ k → e / 2 ^ k = c' / 2 ^ k → e / 2 ^ (k + 6) = c' / 2 ^ (k + 6)).
  { intros k Hk E. rewrite !Z.pow_add_r, <-!Z.div_div by lia. by rewrite E. }
  pose proof (F 8 ltac:(lia)) as F8. pose proof (F 14 ltac:(lia)) as F14.
  pose proof (F 20 ltac:(lia)) as F20. clear F.
  change (8 + 6) with 14 in F8. change (14 + 6) with 20 in F14. change (20 + 6) with 26 in F20.
  assert (M : ∀ k, 0 ≤ k → c' mod 2 ^ k ≠ 0 → c' mod 2 ^ (k + 6) ≠ 0).
  { intros k Hk H0 E. apply H0. rewrite <-(Z.mod_mod_divide c' (2 ^ (k + 6))).
    - by rewrite E, Z.mod_0_l by lia.
    - exists (2 ^ 6). rewrite <-Z.pow_add_r by lia. f_equal. lia. }
  pose proof (M 8 ltac:(lia)) as M8. pose proof (M 14 ltac:(lia)) as M14.
  pose proof (M 20 ltac:(lia)) as M20. clear M.
  change (8 + 6) with 14 in M8. change (14 + 6) with 20 in M14. change (20 + 6) with 26 in M20.
  assert (H0m : c' = 0 → c' mod 2 ^ 8 = 0 ∧ c' mod 2 ^ 14 = 0 ∧ c' mod 2 ^ 20 = 0 ∧
    c' mod 2 ^ 26 = 0 ∧ c' / 2 ^ 26 = 0) by (by intros ->).
  pose proof (eq_refl : Z.to_nat (0 mod 2 ^ 6) = 0%nat) as E0.
  unfold slot_of, moved in *.
  destruct (Z.eqb_spec c' 0); [destruct H0m as (?&?&?&?&?); [done|]|clear H0m].
  all: repeat match type of Hm with context [negb (?x =? ?y)] => destruct (Z.eqb_spec x y); cbn [negb] in * end.
  all: repeat match type of Hm with context [?x =? ?y] => destruct (Z.eqb_spec x y) end.
  all: repeat match goal with |- context [?x =? ?y] => destruct (Z.eqb_spec x y) end.
  all: repeat match goal with H : ?P → ?Q, H' : ?P |- _ => specialize (H H') end.
  all: first [done | congruence | exfalso; apply Hm; congruence].
Qed.

(** After a shift from a moment at which nothing was due, every node is still
    in its slot. *)
Lemma timer_shift_wf T T' : timer_wf T → slot_list T (slot_of (time T) (time T)) = [] →
  timer_is T T' (u32 (time T + 1)) (shifted T (u32 (time T + 1))) → timer_wf T'.
Proof.
  intros [Hs Hw] Hdue [Hl Hs' _ Ht _]. split; [done|]. rewrite Ht.
  assert (Hc : u32_range (time T)) by apply Hs.
  assert (Hgo : ∀ s n, n ∈ slot_list T s →
    expire n ≠ time T ∧ u32_range (expire n) ∧ ticks_to (u32 (time T + 1)) (expire n) < 2 ^ 31).
  { intros s n Hn. destruct (Hw s n Hn) as (-> & He & Hk).
    assert (Hne : expire n ≠ time T).
    { intros E. rewrite E, Hdue in Hn. by apply not_elem_of_nil in Hn. }
    split_and!; [done|done|]. rewrite ticks_next; [lia|done..|]. by rewrite ticks_zero. }
  intros s n. rewrite Hl. unfold shifted, moved_to.
  destruct (moved _) as [m|] eqn:Hm.
  - rewrite elem_of_app. unfold belongs. rewrite list_elem_of_filter. intros [Hn|[E Hn]].
    + destruct (decide (s = m)) as [|Hne]; [by apply not_elem_of_nil in Hn|].
      destruct (Hgo s n Hn) as (? & ? & ?). destruct (Hw s n Hn) as (Es & _ & Hk).
      split_and!; [|done|done]. rewrite slot_stays; [done..|]. rewrite <-Es. congruence.
    + destruct (Hgo m n Hn) as (? & ? & ?). done.
  - intros Hn. destruct (Hgo s n Hn) as (? & ? & ?). destruct (Hw s n Hn) as (Es & _ & Hk).
    split_and!; [|done|done]. by rewrite slot_stays by (congruence || done).
Qed.

(** ** The nodes of the wheel *)

Definition all_slots : list slot :=
  (Near <$> seq 0 256) ++ (l ← seq 0 4; i ← seq 0 64; [Level l i]).

Definition pending (T : timer) : link_list := all_slots ≫= slot_list T.

Lemma all_slots_elem s :
  s ∈ all_slots ↔ match s with Near i => (i < 256)%nat | Level l i => (l < 4)%nat ∧ (i < 64)%nat end.
Proof.
  unfold all_slots. rewrite elem_of_app, list_elem_of_fmap, list_elem_of_bind.
  setoid_rewrite list_elem_of_bind. setoid_rewrite list_elem_of_singleton.
  setoid_rewrite elem_of_seq. destruct s as [i|l i].
  - split; [|intros; left; exists i; split; [done|lia]].
    intros [(j & [= ->] & ?)|(l & (j & [=] & _) & _)]; lia.
  - split; [|intros; right; exists l; split; [exists i; split; [done|lia]|lia]].
    intros [(j & [=] & _)|(l' & (j & [= -> ->] & ?) & ?)]; lia.
Qed.

Lemma all_slots_NoDup : NoDup all_slots.
Proof. apply (bool_decide_unpack _). vm_compute. exact I. Qed.

Section buckets.
Context {B : Type} `{EqDecision B}.
Implicit Types (ss : list B) (f g : B → link_list).

Lemma bind_app ss f g : (ss ≫= λ s, f s ++ g s) ≡ₚ (ss ≫= f) ++ (ss ≫= g).
Proof.
  induction ss as [|s ss IH]; cbn; [done|]. rewrite IH, <-!app_assoc. f_equiv.
  apply Permutation_app_swap_app.
Qed.

Lemma bind_ext ss f g : (∀ s, f s = g s) → ss ≫= f = ss ≫= g.
Proof. intros E. induction ss as [|s ss IH]; cbn; [done|]. by rewrite E, IH. Qed.

Lemma bind_nil ss f : (∀ s, s ∈ ss → f s = []) → ss ≫= f = [].
Proof.
  induction ss as [|s ss IH]; intros H; cbn; [done|]. rewrite H by left. rewrite IH; [done|].
  intros s' Hs'. apply H. by right.
Qed.

Lemma bind_single ss f m : NoDup ss → m ∈ ss →
  (ss ≫= λ s, if decide (s = m) then f s else []) = f m.
Proof.
  induction ss as [|s ss IH]; intros Hnd Hm; [by apply not_elem_of_nil in Hm|].
  apply NoDup_cons in Hnd as [Hns Hnd]. cbn. destruct (decide (s = m)) as [->|Hne].
  - rewrite bind_nil; [apply app_nil_r|]. intros s Hs. rewrite decide_False; [done|congruence].
  - cbn. apply IH; [done|]. by apply elem_of_cons in Hm as [->|].
Qed.

Lemma bind_partition ss (key : timer_node → B) (l : link_list) : NoDup ss →
  (∀ n, n ∈ l → key n ∈ ss) → (ss ≫= λ s, filter (λ n, key n = s) l) ≡ₚ l.
Proof.
  intros Hnd. induction l as [|n l IH]; intros Hk.
  { rewrite bind_nil; [done|]. intros s _. done. }
  rewrite (bind_ext _ _ (λ s, (if decide (s = key n) then [n] else []) ++ filter (λ n, key n = s) l)).
  - rewrite bind_app, (bind_single ss (λ _, [n])); [|done|apply Hk; by left].
    rewrite IH; [done|]. intros n' Hn'. apply Hk. by right.
  - intros s. rewrite filter_cons. destruct (decide (key n = s)); by repeat case_decide.
Qed.

Lemma bind_filter ss f (P : timer_node → Prop) `{!∀ n, Decision (P n)} :
  filter P (ss ≫= f) = ss ≫= λ s, filter P (f s).
Proof. induction ss as [|s ss IH]; cbn; [done|]. by rewrite filter_app, IH. Qed.
End buckets.

Lemma pending_elem T n : timer_shape T → n ∈ pending T ↔ ∃ s, n ∈ slot_list T s.
Proof.
  intros Hs. unfold pending. rewrite list_elem_of_bind. split; [naive_solver|].
  intros [s Hn]. exists s. split; [done|]. apply all_slots_elem.
  destruct s as [i|l i]; cbn in Hn.
  - destruct (near T !! i) eqn:E; [|by apply not_elem_of_nil in Hn].
    apply lookup_lt_Some in E. pose proof (shape_near T Hs). lia.
  - destruct (t T !! l) as [ti|] eqn:E; cbn in Hn; [|by apply not_elem_of_nil in Hn].
    destruct (ti !! i) eqn:E'; [|by apply not_elem_of_nil in Hn].
    pose proof (shape_levels T Hs) as Hl. eapply Forall_lookup_1 in Hl; [|done].
    apply lookup_lt_Some in E, E'. rewrite Hl in E'. rewrite (shape_t T Hs) in E. done.
Qed.

Lemma slot_of_in c e : slot_of c e ∈ all_slots.
Proof. apply all_slots_elem, slot_of_range. Qed.

(** A shift loses no node and makes none. *)
Lemma shifted_pending T T' c : timer_is T T' c (shifted T c) → pending T' ≡ₚ pending T.
Proof.
  intros [Hl _ _ _ _]. unfold pending.
  rewrite (bind_ext _ _ _ Hl). unfold shifted, moved_to.
  destruct (moved c) as [m|] eqn:Hm; [|done].
  assert (HP := bind_partition all_slots (λ n, slot_of c (expire n)) (slot_list T m)
    all_slots_NoDup (λ n _, slot_of_in c (expire n))). cbn beta in HP.
  unfold belongs. rewrite bind_app, HP.
  assert (Hin : m ∈ all_slots).
  { apply all_slots_elem. destruct (moved_range c m Hm) as (l & i & -> & ?). done. }
  rewrite <-(bind_single all_slots (slot_list T) m all_slots_NoDup Hin), <-bind_app.
  apply reflexive_eq, bind_ext. intros s. destruct (decide (s = m)); [done|]. by rewrite app_nil_r.
Qed.

Lemma slot_of_due c e : u32_range c → u32_range e → slot_of c e = slot_of c c ↔ e = c.
Proof.
  intros Hc He. split; [|by intros ->]. unfold slot_of. rewrite Z.eqb_refl.
  destruct (Z.eqb_spec (e / 2 ^ 8) (c / 2 ^ 8)) as [E|]; [|by repeat destruct (_ =? _)].
  injection 1 as Hi; pose proof (Z.mod_pos_bound e (2 ^ 8)). pose proof (Z.mod_pos_bound c (2 ^ 8)).
  rewrite (Z.div_mod e (2 ^ 8)), (Z.div_mod c (2 ^ 8)) by done. rewrite E. lia.
Qed.

Lemma filter_all (P : timer_node → Prop) `{!∀ n, Decision (P n)} (l : link_list) :
  (∀ n, n ∈ l → P n) → filter P l = l.
Proof.
  induction l as [|n l IH]; intros Hn; [done|]. rewrite filter_cons, decide_True by (apply Hn; by left).
  f_equal. apply IH. intros n' Hn'. apply Hn. by right.
Qed.

Lemma filter_none (P : timer_node → Prop) `{!∀ n, Decision (P n)} (l : link_list) :
  (∀ n, n ∈ l → ¬ P n) → filter P l = [].
Proof.
  induction l as [|n l IH]; intros Hn; [done|]. rewrite filter_cons, decide_False by (apply Hn; by left).
  apply IH. intros n' Hn'. apply Hn. by right.
Qed.

(** The near list of the present holds what expires now, and nothing else. *)
Lemma due_now T : timer_wf T →
  slot_list T (slot_of (time T) (time T)) = filter (λ n, expire n = time T) (pending T).
Proof.
  intros [Hs Hw]. assert (Hc : u32_range (time T)) by apply Hs.
  unfold pending. rewrite bind_filter.
  rewrite <-(bind_single all_slots (slot_list T)); [|apply all_slots_NoDup|apply slot_of_in].
  apply bind_ext. intros s. destruct (decide _) as [->|Hne]; symmetry.
  - apply filter_all. intros n Hn. destruct (Hw _ n Hn) as (E & He & _).
    by apply (slot_of_due (time T)).
  - apply filter_none. intros n Hn E. destruct (Hw _ n Hn) as (E' & _). by rewrite E in E'.
Qed.

(** ** Dispatching *)

Section dispatch.
Context {W : Type} `{!TimerEnv W}.

(** The wheel without what is due now. *)
Definition undue (T : timer) : timer :=
  set_lists T (<[Z.to_nat (time T mod 2 ^ 8) := []]> (near T)) (t T).

Lemma near_index T : timer_shape T → (Z.to_nat (time T mod 2 ^ 8) < length (near T))%nat.
Proof.
  intros Hs. rewrite (shape_near T Hs). pose proof (Z.mod_pos_bound (time T) (2 ^ 8)). lia.
Qed.

Lemma undue_slots T s : timer_shape T → slot_list (undue T) s =
  if decide (s = slot_of (time T) (time T)) then [] else slot_list T s.
Proof.
  intros Hs. pose proof (near_index T Hs). unfold slot_of. rewrite Z.eqb_refl.
  destruct s as [i|l i]; cbn; [|by rewrite decide_False].
  rewrite list_lookup_insert. repeat case_decide; naive_solver.
Qed.

Lemma undue_wf T : timer_wf T → timer_wf (undue T).
Proof.
  intros [Hs Hw]. split.
  - destruct Hs. split; try done. cbn. by rewrite length_insert.
  - intros s n. rewrite undue_slots by done. case_decide; [by intros ?%not_elem_of_nil|]. apply Hw.
Qed.

Lemma undue_pending T : timer_wf T →
  pending (undue T) = filter (λ n, expire n ≠ time T) (pending T).
Proof.
  intros Hwf. pose proof Hwf as [Hs Hw]. unfold pending. rewrite bind_filter. apply bind_ext.
  intros s. rewrite undue_slots by done. symmetry. case_decide as Hd.
  - apply filter_none. intros n Hn E. destruct (Hw s n Hn) as (Es & He & _). subst s.
    apply E, (slot_of_due (time T)); [apply Hs|done|congruence].
  - apply filter_all. intros n Hn E. destruct (Hw s n Hn) as (Es & _). congruence.
Qed.

(** With the lock free, [timer_execute] sends a message for every node that
    is due and returns the wheel without them; with the lock held it waits
    for itself as soon as one is due. *)
Lemma timer_execute_spec T (w : W) : timer_shape T →
  let due := slot_list T (slot_of (time T) (time T)) in
  timer_execute T w =
    if decide (due = []) then Ret (T, w)
    else if lock T then Deadlock
    else w' ← push_events w due; Ret (undue T, w').
Proof.
  intros Hs due. unfold timer_execute. change TIME_NEAR_MASK with (2 ^ 8 - 1).
  rewrite land_mask by done. pose proof (near_index T Hs) as Hi.
  pose proof (Z.mod_pos_bound (time T) (2 ^ 8)).
  destruct (lookup_lt_is_Some_2 _ _ Hi) as [l Hl].
  assert (due = l) as ->.
  { unfold due, slot_of. rewrite Z.eqb_refl. cbn. by rewrite Hl. }
  rewrite loop_S. unfold execute_step at 2.
  rewrite (proj2 (aget_Ret _ _ l)) by (split; [lia|done]). bsimpl.
  destruct l as [|n l]; [done|]. rewrite decide_False by done.
  unfold link_clear. rewrite (proj2 (aget_Ret _ _ (n :: l))) by (split; [lia|done]). bsimpl.
  rewrite aset_in by (unfold zlen; lia). bsimpl. fold (undue T).
  unfold acquire. change (lock (undue T)) with (lock T). destruct (lock T) eqn:Hk; [done|]. bsimpl.
  unfold dispatch_list. destruct (push_events w (n :: l)) as [w'| | | |]; try done. bsimpl.
  assert (Hu : unlock (set_lock (undue T) true) = undue T) by (destruct T; cbn in *; by subst).
  rewrite Hu, loop_S. unfold execute_step.
  rewrite (proj2 (aget_Ret _ _ [])); [done|]. split; [lia|]. cbn.
  by rewrite list_lookup_insert_eq.
Qed.
End dispatch.

(** ** Time-outs *)

Lemma timer_add_spec T ev n : timer_wf T → lock T = false → 0 < n ≤ INT_MAX →
  ∃ T', timer_add T ev n = Ret T' ∧ timer_wf T' ∧ lock T' = false ∧ time T' = time T ∧
    pending T' ≡ₚ MkNode (u32 (n + time T)) ev :: pending T.
Proof.
  intros [Hs Hw] Hk Hn. assert (Hc : u32_range (time T)) by apply Hs.
  unfold timer_add, acquire. rewrite Hk. bsimpl. cbn [time set_lock].
  set (node := MkNode _ _).
  assert (Hs1 : timer_shape (set_lock T true)) by (by destruct Hs).
  destruct (add_node_spec (set_lock T true) node Hs1) as (T2 & -> & Hl & Hs2 & _ & Ht & _).
  bsimpl. cbn [time set_lock] in Hl, Ht.
  exists (unlock T2). split_and!; [done| |done|done|].
  - split; [by destruct Hs2|]. intros s m. change (slot_list (unlock T2) s) with (slot_list T2 s).
    rewrite Hl. cbn [time unlock set_lock]. rewrite Ht.
    assert (Ho : m ∈ slot_list T s → s = slot_of (time T) (expire m) ∧ u32_range (expire m) ∧
      ticks_to (time T) (expire m) < 2 ^ 31) by apply Hw.
    destruct (decide (s = _)) as [->|]; [|apply Ho].
    rewrite elem_of_app, list_elem_of_singleton. intros [Hm| ->]; [by apply Ho|].
    split_and!; [done|apply Z.mod_pos_bound; lia|]. unfold node, ticks_to, u32_range, u32, INT_MAX in *.
    cbn. zlia.
  - change (pending (unlock T2)) with (all_slots ≫= slot_list T2). rewrite (bind_ext _ _ _ Hl).
    rewrite (bind_ext _ _ (λ s, slot_list T s ++
      (if decide (s = slot_of (time T) (expire node)) then [node] else []))).
    + rewrite bind_app, (bind_single all_slots (λ _, [node]));
        [|apply all_slots_NoDup|apply slot_of_in]. by rewrite <-Permutation_cons_append.
    + intros s. change (slot_list (set_lock T true) s) with (slot_list T s).
      case_decide; [done|]. by rewrite app_nil_r.
Qed.

(** The recorder: a server that notes the messages it is asked to push. *)
Notation wake_log := (list (Z * fengnet_message)).

#[export] Instance recorder : TimerEnv wake_log := {
  context_push := λ w h m, Ret (0, w ++ [(h, m)]);
  clock_error := λ w _ _, Ret w
}.

Definition wake (n : timer_node) : Z * fengnet_message :=
  (event_handle (event n), timeout_message (event_session (event n))).

Lemma push_events_log (w : wake_log) l : push_events w l = Ret (w ++ (wake <$> l)).
Proof.
  revert w. induction l as [|n l IH]; intros w; cbn; [by rewrite app_nil_r|].
  rewrite IH. by rewrite <-app_assoc.
Qed.

(** ** Results *)

(** [timer_shift], the cascade: on a well-formed wheel in which nothing is
    due now it returns (its loop ends within four turns and every index is in
    range), advances the clock by one, keeps every node exactly once, leaves
    every node in the slot of its expiry for the new time, and the near list
    of the new time is exactly the nodes that expire then. *)
Theorem timer_shift_cascades T :
  timer_wf T → slot_list T (slot_of (time T) (time T)) = [] →
  ∃ T', timer_shift T = Ret T' ∧ timer_wf T' ∧ time T' = u32 (time T + 1) ∧
    pending T' ≡ₚ pending T ∧
    near T' !! Z.to_nat (time T' mod 256) =
      Some (filter (λ m, expire m = time T') (pending T')).
Proof.
  intros Hwf Hnow. destruct (timer_shift_spec T (wf_shape T Hwf)) as (T1 & -> & Hi).
  pose proof (timer_shift_wf _ _ Hwf Hnow Hi) as Hwf1. exists T1.
  split_and!; [done|done|apply Hi|by eapply shifted_pending|].
  rewrite <-due_now by done. unfold slot_of. rewrite Z.eqb_refl. cbn [slot_list].
  destruct (lookup_lt_is_Some_2 _ _ (near_index T1 (wf_shape _ Hwf1))) as [l Hl].
  change 256 with (2 ^ 8). by rewrite Hl.
Qed.

(** [timer_update] waits for itself: it holds the lock of the wheel while
    [timer_execute] takes it again for the lists that are due, so it never
    returns exactly when some node is due now or at the next tick. When none
    is, it returns, pushes nothing and advances the clock by one. *)
Theorem timer_update_deadlocks {W} `{!TimerEnv W} T (w : W) :
  timer_wf T → lock T = false →
  ((∃ m, m ∈ pending T ∧ ticks_to (time T) (expire m) ≤ 1) → timer_update T w = Deadlock) ∧
  ((∀ m, m ∈ pending T → 1 < ticks_to (time T) (expire m)) →
     ∃ T', timer_update T w = Ret (T', w) ∧ timer_wf T' ∧ lock T' = false ∧
       time T' = u32 (time T + 1) ∧ clocks T' = clocks T ∧ pending T' ≡ₚ pending T).
Proof.
  intros Hwf Hk. assert (Hc : u32_range (time T)) by apply Hwf.
  set (T1 := set_lock T true).
  assert (Hwf1 : timer_wf T1) by (destruct Hwf as [[] ?]; by split).
  assert (Hr : ∀ m, m ∈ pending T → u32_range (expire m)).
  { intros m Hm. apply pending_elem in Hm as [s Hm]; [|apply Hwf]. by apply (wf_slots T Hwf s m Hm). }
  unfold timer_update, acquire. rewrite Hk. bsimpl. fold T1.
  rewrite timer_execute_spec by apply Hwf1. rewrite (due_now T1 Hwf1). cbn [lock T1 set_lock].
  change (time T1) with (time T). change (pending T1) with (pending T).
  case_decide as Hd; bsimpl.
  2: { split; [done|]. intros Hall. exfalso. apply Hd, filter_none. intros m Hm E.
       specialize (Hall m Hm). rewrite E in Hall. unfold ticks_to in Hall. by rewrite Z.sub_diag in Hall. }
  assert (Hnow : slot_list T1 (slot_of (time T1) (time T1)) = []) by by rewrite due_now.
  destruct (timer_shift_spec T1 (wf_shape _ Hwf1)) as (T2 & -> & Hi). bsimpl.
  pose proof (timer_shift_wf _ _ Hwf1 Hnow Hi) as Hwf2.
  pose proof (shifted_pending _ _ _ Hi) as Hp. destruct Hi as [_ _ Hk2 Ht2 Hcl].
  change (pending T1) with (pending T) in Hp. cbn [lock time T1 set_lock] in Hk2, Ht2.
  rewrite timer_execute_spec by apply Hwf2. rewrite (due_now T2 Hwf2), Hk2.
  assert (Hx : ∀ m, m ∈ pending T → expire m ≠ time T → expire m = time T2 ↔
    ticks_to (time T) (expire m) ≤ 1).
  { intros m Hm. rewrite Ht2. apply Hr in Hm. unfold u32_range, ticks_to, u32 in *.
    clear - Hm Hc. zlia. }
  assert (Hnd : ∀ m, m ∈ pending T → expire m ≠ time T).
  { intros m Hm E. eapply not_elem_of_nil. rewrite <-Hd. apply list_elem_of_filter; eauto. }
  case_decide as Hd2; bsimpl.
  - split.
    + intros (m & Hm & Hle). exfalso. eapply not_elem_of_nil. rewrite <-Hd2.
      apply list_elem_of_filter. rewrite Hp. split; [|done]. apply Hx; auto.
    + intros _. exists (unlock T2). split_and!; try done. destruct Hwf2 as [[] ?]; by split.
  - split; [done|]. intros Hall. exfalso. apply Hd2, filter_none. intros m Hm E. rewrite Hp in Hm.
    specialize (Hall m Hm). apply Hx in E; auto. lia.
Qed.

Lemma pending_range T m : timer_wf T → m ∈ pending T → u32_range (expire m).
Proof.
  intros Hwf Hm. apply pending_elem in Hm as [s Hm]; [|apply Hwf]. by apply (wf_slots T Hwf s m Hm).
Qed.

(** The turns of [fengnet_updatetime], from number [i] on. *)
Lemma update_loop {W} `{!TimerEnv W} (w : W) k : ∀ i T,
  timer_wf T → lock T = false → 0 ≤ i → i + Z.of_nat k ≤ INT_MAX →
  let run := for_loop k i (λ i '(T, w), r ← timer_update T w; _ ← cint (i + 1); Ret r) (T, w) in
  ((0 < k)%nat → (∃ m, m ∈ pending T ∧ ticks_to (time T) (expire m) ≤ Z.of_nat k) → run = Deadlock) ∧
  ((∀ m, m ∈ pending T → Z.of_nat k < ticks_to (time T) (expire m)) →
     ∃ T', run = Ret (T', w) ∧ timer_wf T' ∧ lock T' = false ∧ time T' = u32 (time T + Z.of_nat k) ∧
       clocks T' = clocks T ∧ pending T' ≡ₚ pending T).
Proof.
  induction k as [|k IH]; intros i T Hwf Hk Hi Hmax; cbv zeta.
  { split; [lia|]. intros _. exists T. split_and!; try done. rewrite Z.add_0_r. symmetry.
    apply Z.mod_small, (shape_time T (wf_shape T Hwf)). }
  destruct (timer_update_deadlocks T w Hwf Hk) as [Hdead Hrun]. rewrite for_loop_S.
  destruct (decide (Exists (λ m, ticks_to (time T) (expire m) ≤ 1) (pending T))) as [Hd|Hd].
  { apply Exists_exists in Hd as (m & Hm & Hle). split; [|intros Hall; specialize (Hall m Hm); lia].
    intros _ _. by rewrite Hdead by eauto. }
  assert (Hnone : ∀ m, m ∈ pending T → 1 < ticks_to (time T) (expire m)).
  { intros m Hm. apply Z.lt_nge. intros Hle. apply Hd, Exists_exists. eauto. }
  destruct (Hrun Hnone) as (T1 & -> & Hwf1 & Hk1 & Ht1 & Hc1 & Hp1). bsimpl.
  rewrite cint_in by (unfold INT_MIN; lia). bsimpl.
  destruct (IH (i + 1) T1 Hwf1 Hk1) as [Hdead1 Hrun1]; [lia|lia|]. cbv zeta in *.
  assert (Hstep : ∀ m, m ∈ pending T → ticks_to (time T1) (expire m) = ticks_to (time T) (expire m) - 1).
  { intros m Hm. rewrite Ht1. pose proof (Hnone m Hm). apply ticks_next; [apply Hwf|by apply (pending_range T)|lia]. }
  split.
  - intros _ (m & Hm & Hle). pose proof (Hnone m Hm). apply Hdead1; [lia|]. exists m.
    rewrite Hstep by done. split; [by rewrite Hp1|lia].
  - intros Hall. destruct Hrun1 as (T' & -> & Hwf' & Hk' & Ht' & Hc' & Hp').
    { intros m Hm. rewrite Hp1 in Hm. rewrite Hstep by done. specialize (Hall m Hm). lia. }
    exists T'. split_and!; [done|done|done| |congruence|by rewrite Hp'].
    rewrite Ht', Ht1. unfold u32. rewrite Zplus_mod_idemp_l. f_equal. lia.
Qed.

(** C9: What the thread of the timer does when the clock has moved on by [n], to [cp]: as
    long as no timer expires within [n] ticks, [fengnet_updatetime] returns, the wheel
    has moved by [n] ticks with every timer in the list of its expiry, and none is lost
    or fired. If one does expire, the call never returns: [timer_update] holds the lock
    of the wheel while [timer_execute] takes it for the list that is due, so the
    service never gets its response. *)
Theorem updatetime_until_due {W} `{!TimerEnv W} T (w : W) cp :
  let n := cp - current_point T in
  timer_wf T → lock T = false → 0 < n ≤ INT_MAX →
  ((∀ m, m ∈ pending T → n < ticks_to (time T) (expire m)) →
     ∃ T', fengnet_updatetime T w cp = Ret (T', w) ∧ timer_wf T' ∧ lock T' = false ∧
       time T' = u32 (time T + n) ∧ current T' = u64 (current T + n) ∧ current_point T' = cp ∧
       pending T' ≡ₚ pending T) ∧
  ((∃ m, m ∈ pending T ∧ ticks_to (time T) (expire m) ≤ n) → fengnet_updatetime T w cp = Deadlock).
Proof.
  intros n Hwf Hk Hn. unfold fengnet_updatetime, n in *. rewrite (proj2 (Z.ltb_ge _ _)) by lia.
  rewrite (proj2 (Z.eqb_neq _ _)) by lia. cbn [negb].
  assert (Hd : u32 (cp - current_point T) = cp - current_point T) by (apply Z.mod_small; unfold INT_MAX in *; lia).
  rewrite Hd. cbv zeta. set (T0 := set_clock _ _ _ _).
  assert (Hwf0 : timer_wf T0) by (destruct Hwf as [[] ?]; by split).
  destruct (update_loop w (Z.to_nat (cp - current_point T)) 0 T0 Hwf0 Hk) as [Hdead Hrun]; [lia|lia|].
  cbv zeta in *. rewrite Z2Nat.id in * by lia. split; [|by intros; apply Hdead; [lia|]].
  intros Hall. destruct (Hrun Hall) as (T' & -> & Hwf' & Hk' & Ht' & Hc' & Hp').
  exists T'. unfold clocks in Hc'. injection Hc' as _ Hcur Hpoint. by split_and!.
Qed.

Lemma init_wf now up : timer_wf (fengnet_timer_init now up) ∧
  pending (fengnet_timer_init now up) = [] ∧ lock (fengnet_timer_init now up) = false.
Proof.
  assert (He : ∀ s, slot_list (fengnet_timer_init now up) s = []).
  { intros [i|l i]; unfold fengnet_timer_init, systime; cbn [slot_list near t set_clock timer_create_timer].
    - destruct (_ !! i) as [x|] eqn:E; [|done]. by apply lookup_replicate_1 in E as [-> _].
    - destruct (_ !! l) as [x|] eqn:E; [|done]. apply lookup_replicate_1 in E as [-> _]. cbn [mbind option_bind].
      destruct (_ !! i) as [y|] eqn:E2; [|done]. by apply lookup_replicate_1 in E2 as [-> _]. }
  split_and!; [split|..]; [|intros s n; rewrite He; by intros ?%not_elem_of_nil|apply bind_nil; auto|done].
  unfold fengnet_timer_init, systime. split; cbn [near t set_clock timer_create_timer time]; [done|done| |done].
  by repeat constructor.
Qed.

(** [fengnet_timeout] schedules one wake-up. With [time <= 0] the response
    is pushed at once, and the result is -1 exactly when the push fails; with
    a positive [time] it returns the session and the wheel holds one more
    node, which expires [time] ticks ahead and carries handle and session. *)
Theorem fengnet_timeout_schedules {W} `{!TimerEnv W} T (w : W) h n s :
  timer_wf T → lock T = false → INT_MIN ≤ n ≤ INT_MAX →
  (n ≤ 0 → fengnet_timeout T w h n s =
     '(r, w') ← context_push w h (MkMsg 0 s 0 (2 ^ 56)); Ret (if r =? 0 then s else -1, T, w')) ∧
  (0 < n → ∃ T' m, fengnet_timeout T w h n s = Ret (s, T', w) ∧ timer_wf T' ∧ lock T' = false ∧
     time T' = time T ∧ pending T' ≡ₚ m :: pending T ∧
     ticks_to (time T) (expire m) = n ∧ wake m = (h, MkMsg 0 s 0 (2 ^ 56))).
Proof.
  intros Hwf Hk Hn. assert (Hc : u32_range (time T)) by apply Hwf.
  unfold fengnet_timeout. destruct (Z.leb_spec n 0); split; intros ?; try lia.
  - change (timeout_message s) with (MkMsg 0 s 0 (2 ^ 56)).
    destruct (context_push w h _) as [[r w']| | | |]; try done. bsimpl. by destruct (r =? 0).
  - destruct (timer_add_spec T (MkEvent h s) n Hwf Hk) as (T' & -> & Hwf' & Hk' & Ht & Hp); [lia|].
    bsimpl. eexists T', _. split_and!; try done. cbn [expire].
    unfold ticks_to, u32_range, u32, INT_MAX in *. zlia.
Qed.

(** ** Examples *)

(** A wheel on which a service waits for 3 ticks and another for 70000. *)
Definition example_wheel : timer :=
  match
    T1 ← timer_add (fengnet_timer_init (1700000000, 0) (5, 0)) (MkEvent 1 10) 3;
    timer_add T1 (MkEvent 2 20) 70000
  with Ret T => T | _ => timer_create_timer end.

Lemma example_wheel_wf : timer_wf example_wheel ∧ lock example_wheel = false.
Proof.
  unfold example_wheel. destruct (init_wf (1700000000, 0) (5, 0)) as (H0 & _ & K0).
  destruct (timer_add_spec _ (MkEvent 1 10) 3 H0 K0) as (T1 & -> & H1 & K1 & _); [unfold INT_MAX; lia|].
  bsimpl.
  destruct (timer_add_spec _ (MkEvent 2 20) 70000 H1 K1) as (T2 & -> & H2 & K2 & _); [unfold INT_MAX; lia|].
  done.
Qed.

Lemma timer_shift_cascades_witness :
  ∃ T', timer_shift example_wheel = Ret T' ∧ timer_wf T'.
Proof.
  destruct (timer_shift_cascades example_wheel) as (T' & Hr & Hw & _).
  - apply example_wheel_wf.
  - vm_compute. reflexivity.
  - by exists T'.
Defined.

Lemma timer_update_deadlocks_witness :
  (∃ T', timer_update example_wheel ([] : wake_log) = Ret (T', []) ∧ time T' = 1) ∧
  timer_update (set_time example_wheel 2) ([] : wake_log) = Deadlock.
Proof.
  destruct example_wheel_wf as [H0 K0]. split; [|by vm_compute].
  destruct (proj2 (timer_update_deadlocks example_wheel ([] : wake_log) H0 K0))
    as (T1 & E1 & _ & _ & Ht & _); [|by exists T1].
  intros m Hm. apply list_elem_of_In in Hm. vm_compute in Hm.
  destruct Hm as [<-|[<-|[]]]; vm_compute; done.
Defined.

(** Two ticks go well, the third one is that of the first service. *)
Lemma updatetime_until_due_witness :
  (∃ T', fengnet_updatetime example_wheel ([] : wake_log) 502 = Ret (T', []) ∧ time T' = 2 ∧
     length (pending T') = 2%nat) ∧
  fengnet_updatetime example_wheel ([] : wake_log) 503 = Deadlock.
Proof.
  destruct example_wheel_wf as [H0 K0]. split.
  - destruct (proj1 (updatetime_until_due example_wheel ([] : wake_log) 502 H0 K0 ltac:(vm_compute; done)))
      as (T' & Hr & _ & _ & Ht & _ & _ & Hp).
    + intros m Hm. apply list_elem_of_In in Hm. vm_compute in Hm.
      destruct Hm as [<-|[<-|[]]]; vm_compute; done.
    + exists T'. split_and!; [done|exact Ht|]. rewrite Hp. by vm_compute.
  - apply (proj2 (updatetime_until_due example_wheel ([] : wake_log) 503 H0 K0 ltac:(vm_compute; done))).
    exists (MkNode 3 (MkEvent 1 10)). split; [|vm_compute; done].
    apply list_elem_of_In. vm_compute. auto.
Defined.

Lemma fengnet_timeout_schedules_witness :
  ∃ T' m, fengnet_timeout example_wheel ([] : wake_log) 7 100 42 = Ret (42, T', []) ∧
    pending T' ≡ₚ m :: pending example_wheel ∧ ticks_to 0 (expire m) = 100.
Proof.
  destruct (proj2 (fengnet_timeout_schedules example_wheel ([] : wake_log) 7 100 42
    (proj1 example_wheel_wf) (proj2 example_wheel_wf) ltac:(unfold INT_MIN, INT_MAX; lia)))
    as (T' & m & Hr & _ & _ & _ & Hp & Hm & _); [lia|].
  exists T', m. split_and!; [done|done|exact Hm].
Defined.
