(* ===== verification/Handle.v ===== *)
(** * Handles and names of services

    The model of [fengnet-src/fengnet_handle.cpp] and [fengnet_handle.h]: the
    hash table of the registered contexts and the sorted array of names. Each
    operation is one critical section of the lock; [fengnet_handle_retire]
    releases the context after it. What happens to a context itself is the
    business of the server: it is the class [ContextOps]. *)
From S2P Require Import Prelude.

Local Open Scope Z_scope.

(** ** Data *)

Definition HANDLE_MASK : Z := 0xffffff.
Definition HANDLE_REMOTE_SHIFT : Z := 24.
Definition DEFAULT_SLOT_SIZE : Z := 4.
Definition MAX_SLOT_SIZE : Z := 0x40000000.

(** The address of a [fengnet_context]. *)
Notation ctx_loc := positive (only parsing).

(** A C string without its final 0, as its bytes. *)
Notation cstring := (list Z).

(** [struct handle_name]; the name of an unused entry is [NULL]. *)
Record handle_name := MkName { name_str : option cstring; name_handle : Z }.

Record handle_storage := MkStorage {
  harbor : Z;
  handle_index : Z;
  slot_size : Z;
  slot : list (option ctx_loc);
  name_cap : Z;
  name_count : Z;
  name : list handle_name
}.

#[export] Instance handle_name_eq_dec : EqDecision handle_name.
Proof. solve_decision. Defined.
#[export] Instance handle_storage_eq_dec : EqDecision handle_storage.
Proof. solve_decision. Defined.

Definition set_slots (s : handle_storage) (index size : Z) (slots : list (option ctx_loc))
    : handle_storage :=
  MkStorage (harbor s) index size slots (name_cap s) (name_count s) (name s).
Definition set_names (s : handle_storage) (cap count : Z) (names : list handle_name)
    : handle_storage :=
  MkStorage (harbor s) (handle_index s) (slot_size s) (slot s) cap count names.

(** What the table does with the contexts, which live in the state [W] of the
    server: [fengnet_context_handle], [fengnet_context_grab], [delete] and
    [fengnet_context_release]. The last may end in code of a module, which can
    call the operations of this file. *)
Class ContextOps (W : Type) := {
  context_handle : W → ctx_loc → outcome Z;
  context_grab : W → ctx_loc → outcome W;
  context_delete : W → ctx_loc → outcome W;
  context_release : handle_storage → W → ctx_loc → outcome (handle_storage * W)
}.

(** [strcmp]: the sign is that of the first difference. *)
Fixpoint strcmp (a b : cstring) : Z :=
  match a, b with
  | [], [] => 0
  | [], y :: _ => - y
  | x :: _, [] => x
  | x :: a', y :: b' => if x =? y then strcmp a' b' else x - y
  end.

(** [new handle_name[n]()]. *)
Definition new_names (n : Z) : list handle_name := replicate (Z.to_nat n) (MkName None 0).

Definition fengnet_handle_init (harbor_ : Z) : handle_storage :=
  MkStorage (u32 (Z.shiftl (Z.land harbor_ 0xff) HANDLE_REMOTE_SHIFT)) 1 DEFAULT_SLOT_SIZE
    (replicate (Z.to_nat DEFAULT_SLOT_SIZE) None) 2 0 (new_names 2).

(** ** Contexts *)

(** The inner [for] loop of [fengnet_handle_register]: the handle and the
    index of the first free slot, or [None]. *)
Definition find_step (s : handle_storage) (st : Z * Z) : outcome ((Z * Z) + option (Z * Z)) :=
  let '(i, handle) := st in
  if i <? slot_size s then
    let handle' := if HANDLE_MASK <? handle then 1 else handle in
    let hash := Z.land handle' (slot_size s - 1) in
    x ← aget (slot s) hash;
    match x with
    | None => Ret (inr (Some (handle', hash)))
    | Some _ => i' ← cint (i + 1); Ret (inl (i', u32 (handle' + 1)))
    end
  else Ret (inr None).

Definition find_slot (s : handle_storage) : outcome (option (Z * Z)) :=
  loop (S (Z.to_nat (slot_size s))) (find_step s) (0, handle_index s).

Section operations.
Context {W : Type} `{!ContextOps W}.

(** Doubling the table: the [for] loop that moves the contexts, and the one
    that deletes what the old slots point to. *)
Definition rehash_step (s : handle_storage) (w : W) (i : Z) (new_slot : list (option ctx_loc))
    : outcome (list (option ctx_loc)) :=
  x ← aget (slot s) i;
  match x with
  | Some ctx =>
      h ← context_handle w ctx;
      let hash := Z.land h (slot_size s * 2 - 1) in
      y ← aget new_slot hash;
      _ ← assert_true (bool_decide (y = None));
      aset new_slot hash (Some ctx)
  | None => Ret new_slot
  end.

Definition delete_step (s : handle_storage) (i : Z) (w : W) : outcome W :=
  x ← aget (slot s) i;
  match x with Some ctx => context_delete w ctx | None => Ret w end.

Definition grow (s : handle_storage) (w : W) : outcome (handle_storage * W) :=
  _ ← assert_true (slot_size s * 2 - 1 <=? HANDLE_MASK);
  new_slot ← for_loop (Z.to_nat (slot_size s)) 0 (rehash_step s w)
               (replicate (Z.to_nat (slot_size s * 2)) None);
  w' ← for_loop (Z.to_nat (slot_size s)) 0 (delete_step s) w;
  Ret (set_slots s (handle_index s) (slot_size s * 2) new_slot, w').

Definition register_step (ctx : ctx_loc) (st : handle_storage * W)
    : outcome ((handle_storage * W) + (Z * handle_storage * W)) :=
  let '(s, w) := st in
  o ← find_slot s;
  match o with
  | Some (handle, hash) =>
      slot' ← aset (slot s) hash (Some ctx);
      Ret (inr (Z.lor handle (harbor s), set_slots s (handle + 1) (slot_size s) slot', w))
  | None => r ← grow s w; Ret (inl r)
  end.

(** A doubled table has a free slot: two turns are enough. *)
Definition fengnet_handle_register (s : handle_storage) (w : W) (ctx : ctx_loc)
    : outcome (Z * handle_storage * W) :=
  loop 3 (register_step ctx) (s, w).

(** The [for] loop of [fengnet_handle_retire] that drops the names of [handle]. *)
Definition compact_step (handle : Z) (i : Z) (st : Z * list handle_name)
    : outcome (Z * list handle_name) :=
  let '(j, names) := st in
  e ← aget names i;
  if name_handle e =? handle then Ret (j, names)
  else
    names' ← (if negb (i =? j) then aset names j e else Ret names);
    Ret (j + 1, names').

Definition fengnet_handle_retire (s : handle_storage) (w : W) (handle : Z)
    : outcome (Z * handle_storage * W) :=
  let hash := Z.land handle (slot_size s - 1) in
  ctx ← aget (slot s) hash;
  hit ← match ctx with
        | Some c => h ← context_handle w c; Ret (if h =? handle then Some c else None)
        | None => Ret None
        end;
  match hit with
  | Some c =>
      slot' ← aset (slot s) hash None;
      '(j, names) ← for_loop (Z.to_nat (name_count s)) 0 (compact_step handle) (0, name s);
      let s' := set_names (set_slots s (handle_index s) (slot_size s) slot') (name_cap s) j names in
      '(s'', w') ← context_release s' w c;
      Ret (1, s'', w')
  | None => Ret (0, s, w)
  end.

(** One turn of the inner loop of [fengnet_handle_retireall]. *)
Definition retireall_step (st : Z * Z * handle_storage * W)
    : outcome ((Z * Z * handle_storage * W) + (Z * handle_storage * W)) :=
  let '(i, n, s, w) := st in
  if i <? slot_size s then
    ctx ← aget (slot s) i;
    '(handle, n') ← match ctx with
                    | Some c => h ← context_handle w c; n' ← cint (n + 1); Ret (h, n')
                    | None => Ret (0, n)
                    end;
    '(s', w') ← (if negb (handle =? 0)
                 then '(_, s', w') ← fengnet_handle_retire s w handle; Ret (s', w')
                 else Ret (s, w));
    i' ← cint (i + 1);
    Ret (inl (i', n', s', w'))
  else Ret (inr (n, s, w)).

Definition fengnet_handle_retireall (fuel : nat) (s : handle_storage) (w : W)
    : outcome (handle_storage * W) :=
  loop fuel (λ '(s, w),
    '(n, s', w') ← loop fuel retireall_step (0, 0, s, w);
    if n =? 0 then Ret (inr (s', w')) else Ret (inl (s', w'))) (s, w).

Definition fengnet_handle_grab (s : handle_storage) (w : W) (handle : Z)
    : outcome (option ctx_loc * W) :=
  let hash := Z.land handle (slot_size s - 1) in
  ctx ← aget (slot s) hash;
  match ctx with
  | Some c =>
      h ← context_handle w c;
      if h =? handle then w' ← context_grab w c; Ret (Some c, w') else Ret (None, w)
  | None => Ret (None, w)
  end.
End operations.

(** ** Names *)

(** The binary search of [fengnet_handle_findname] and [_insert_name]: the
    index of the entry with that name, or the place to insert it before. *)
Definition search_step (s : handle_storage) (nm : cstring) (st : Z * Z)
    : outcome ((Z * Z) + (Z + Z)) :=
  let '(begin, end_) := st in
  if begin <=? end_ then
    sum ← cint (begin + end_);
    let mid := Z.quot sum 2 in
    n ← aget (name s) mid;
    match name_str n with
    | None => Undef
    | Some str =>
        let c := strcmp str nm in
        if c =? 0 then Ret (inr (inl mid))
        else if c <? 0 then Ret (inl (mid + 1, end_))
        else Ret (inl (begin, mid - 1))
    end
  else Ret (inr (inr begin)).

Definition search_name (s : handle_storage) (nm : cstring) : outcome (Z + Z) :=
  loop (S (Z.to_nat (name_count s))) (search_step s nm) (0, name_count s - 1).

Definition fengnet_handle_findname (s : handle_storage) (nm : cstring) : outcome Z :=
  r ← search_name s nm;
  match r with
  | inl mid => n ← aget (name s) mid; Ret (name_handle n)
  | inr _ => Ret 0
  end.

(** [for (i=a;i<b;i++) n[i+d] = name[i]] copies into a new array. *)
Definition copy_names (names : list handle_name) (d : Z) (i : Z) (n : list handle_name)
    : outcome (list handle_name) :=
  e ← aget names i; aset n (i + d) e.

(** [for (i=count;i>before;i--) name[i] = name[i-1]], turn [k] of it. *)
Definition shift_names (count : Z) (k : Z) (names : list handle_name)
    : outcome (list handle_name) :=
  let i := count - k in
  e ← aget names (i - 1); aset names i e.

Definition _insert_name_before (s : handle_storage) (nm : cstring) (handle before : Z)
    : outcome handle_storage :=
  '(cap, names) ←
    (if name_cap s <=? name_count s then
       cap' ← cint (name_cap s * 2);
       _ ← assert_true (cap' <=? MAX_SLOT_SIZE);
       n1 ← for_loop (Z.to_nat before) 0 (copy_names (name s) 0) (new_names cap');
       n2 ← for_loop (Z.to_nat (name_count s - before)) before (copy_names (name s) 1) n1;
       Ret (cap', n2)
     else
       n ← for_loop (Z.to_nat (name_count s - before)) 0 (shift_names (name_count s)) (name s);
       Ret (name_cap s, n));
  names' ← aset names before (MkName (Some nm) handle);
  count' ← cint (name_count s + 1);
  Ret (set_names s cap count' names').

Definition _insert_name (s : handle_storage) (nm : cstring) (handle : Z)
    : outcome (option cstring * handle_storage) :=
  r ← search_name s nm;
  match r with
  | inl _ => Ret (None, s)
  | inr begin => s' ← _insert_name_before s nm handle begin; Ret (Some nm, s')
  end.

Definition fengnet_handle_namehandle (s : handle_storage) (handle : Z) (nm : cstring)
    : outcome (option cstring * handle_storage) :=
  _insert_name s nm handle.

(** ** Strings *)

(** A C string has no 0 byte inside. *)
Definition cstr_ok (a : cstring) : Prop := Forall (λ b, 0 < b < 256) a.

Lemma strcmp_zero a b : cstr_ok a → cstr_ok b → strcmp a b = 0 ↔ a = b.
Proof.
  revert b. induction a as [|x a IH]; intros [|y b] Ha Hb; cbn [strcmp]; [done|..].
  - apply Forall_cons in Hb as [? _]. split; [lia|done].
  - apply Forall_cons in Ha as [? _]. split; [lia|done].
  - apply Forall_cons in Ha as [? Ha]. apply Forall_cons in Hb as [? Hb].
    destruct (Z.eqb_spec x y) as [->|]; [rewrite IH by done; naive_solver|].
    split; [lia|intros [= <- _]; lia].
Qed.

Lemma strcmp_flip a b : cstr_ok a → cstr_ok b → strcmp a b < 0 ↔ 0 < strcmp b a.
Proof.
  revert b. induction a as [|x a IH]; intros [|y b] Ha Hb; cbn [strcmp]; [done|lia|lia|].
  apply Forall_cons in Ha as [? Ha]. apply Forall_cons in Hb as [? Hb].
  rewrite (Z.eqb_sym y x). destruct (Z.eqb_spec x y) as [->|]; [by apply IH|lia].
Qed.

Lemma strcmp_trans a b c : cstr_ok a → cstr_ok b → cstr_ok c →
  strcmp a b < 0 → strcmp b c < 0 → strcmp a c < 0.
Proof.
  revert b c. induction a as [|x a IH]; intros [|y b] [|z c] Ha Hb Hc; unfold cstr_ok in *;
    repeat match goal with H : Forall _ (_ :: _) |- _ => apply Forall_cons in H as [? H] end;
    cbn [strcmp]; repeat match goal with |- context [?u =? ?v] => destruct (Z.eqb_spec u v) end; subst; try lia.
  by apply IH.
Qed.

(** ** The array of names *)

Notation entry := (λ p : cstring * Z, MkName (Some p.1) p.2).

Definition name_before (p q : cstring * Z) : Prop := strcmp p.1 q.1 < 0.

(** The names in use are [l], sorted by [strcmp] without duplicates. *)
Record names_are (s : handle_storage) (l : list (cstring * Z)) : Prop := {
  na_prefix k p : l !! k = Some p → name s !! k = Some (entry p);
  na_count : name_count s = zlen l;
  na_cap : zlen (name s) = name_cap s;
  na_room : name_count s ≤ name_cap s;
  na_bound : 0 < name_cap s ≤ MAX_SLOT_SIZE;
  na_strs : Forall (λ p, cstr_ok p.1) l;
  na_sorted : StronglySorted name_before l
}.

Lemma sorted_lookup l i j a b : StronglySorted name_before l →
  (i < j)%nat → l !! i = Some a → l !! j = Some b → name_before a b.
Proof.
  intros Hs Hij Hi Hj. rewrite <-(take_drop (S i) l) in Hs.
  apply StronglySorted_app in Hs as (H & _ & _). apply H.
  - apply list_elem_of_lookup. exists i. by rewrite lookup_take_lt by lia.
  - apply list_elem_of_lookup. exists (j - S i)%nat. rewrite lookup_drop. rewrite <-Hj. f_equal. lia.
Qed.

(** Where the search for [nm] ends. *)
Definition search_result (l : list (cstring * Z)) (nm : cstring) (r : Z + Z) : Prop :=
  match r with
  | inl mid => 0 ≤ mid ∧ ∃ h, l !! Z.to_nat mid = Some (nm, h)
  | inr p => 0 ≤ p ≤ zlen l ∧
      (∀ k q, l !! k = Some q → Z.of_nat k < p → strcmp q.1 nm < 0) ∧
      (∀ k q, l !! k = Some q → p ≤ Z.of_nat k → 0 < strcmp q.1 nm)
  end.

Lemma search_name_spec s l nm : names_are s l → cstr_ok nm →
  ∃ r, search_name s nm = Ret r ∧ search_result l nm r.
Proof.
  intros [Hp Hc Hcap Hroom Hb Hstr Hs] Hnm. unfold search_name.
  apply (loop_total
    (λ '(b, e), 0 ≤ b ∧ e < zlen l ∧ b ≤ e + 1 ∧
       (∀ k q, l !! k = Some q → Z.of_nat k < b → strcmp q.1 nm < 0) ∧
       (∀ k q, l !! k = Some q → e < Z.of_nat k → 0 < strcmp q.1 nm))
    (λ '(b, e), Z.to_nat (e - b + 1))).
  2: { pose proof (zlen_nonneg l). split_and!; try lia; intros k q Hk ?; try lia.
       apply lookup_lt_Some in Hk. unfold zlen in *. lia. }
  2: lia.
  intros [b e] (H0 & He & Hbe & Hlo & Hhi). unfold search_step, MAX_SLOT_SIZE in *.
  destruct (Z.leb_spec b e).
  2: { right. eexists. split; [done|]. cbn. split_and!; [lia..|done|]. intros k q Hk ?. eapply Hhi; [done|lia]. }
  rewrite cint_in by (unfold INT_MAX, INT_MIN; lia). bsimpl. rewrite Z.quot_div_nonneg by lia.
  set (mid := (b + e) / 2). assert (Hmid : b ≤ mid ≤ e) by (unfold mid; zlia).
  destruct (lookup_lt_is_Some_2 l (Z.to_nat mid)) as [q Hq]; [unfold zlen in *; lia|].
  rewrite (proj2 (aget_Ret _ _ (entry q))) by (split; [lia|by apply Hp]). bsimpl. cbn [name_str].
  assert (Hqs : cstr_ok q.1) by (eapply Forall_lookup_1 in Hstr; done).
  destruct (Z.eqb_spec (strcmp q.1 nm) 0) as [E|Hne].
  { right. eexists. split; [done|]. split; [lia|]. apply strcmp_zero in E; [|done..].
    exists q.2. rewrite Hq. by destruct q; cbn in *; subst. }
  assert (Hok : ∀ k p, l !! k = Some p → cstr_ok p.1)
    by (intros k p Hk; eapply Forall_lookup_1 in Hstr; done).
  left. destruct (Z.ltb_spec (strcmp q.1 nm) 0) as [Hlt|Hge]; eexists; (split; [done|]).
  - split_and!; try lia; [|done]. intros k p Hk ?.
    destruct (decide (k = Z.to_nat mid)) as [->|]; [congruence|].
    destruct (decide (Z.of_nat k < b)); [by eapply Hlo|].
    eapply strcmp_trans; [..|apply Hlt]; eauto.
    eapply sorted_lookup; [done| |done..]. lia.
  - split_and!; try lia; [done|]. intros k p Hk ?.
    destruct (decide (k = Z.to_nat mid)) as [->|]; [assert (p = q) as -> by congruence; lia|].
    destruct (decide (e < Z.of_nat k)); [by eapply Hhi|].
    apply strcmp_flip; [eauto..|]. eapply strcmp_trans; [..|eapply sorted_lookup; [done| |exact Hq|exact Hk]; lia];
      eauto. apply strcmp_flip; eauto. lia.
Qed.

(** Making room: both branches of [_insert_name_before] leave an array whose
    entries before [p] are in place and whose later ones moved up by one. *)
Definition moved_up (old new : list handle_name) (count p : nat) : Prop :=
  (∀ k, (k < p)%nat → new !! k = old !! k) ∧
  (∀ k, (p ≤ k < count)%nat → new !! S k = old !! k).

Lemma copy_room names cap count p :
  0 ≤ p ≤ count → count ≤ zlen names → count < cap →
  ∃ n1 n2, for_loop (Z.to_nat p) 0 (copy_names names 0) (new_names cap) = Ret n1 ∧
    for_loop (Z.to_nat (count - p)) p (copy_names names 1) n1 = Ret n2 ∧
    zlen n2 = cap ∧ moved_up names n2 (Z.to_nat count) (Z.to_nat p).
Proof.
  intros Hp Hc Hcap.
  assert (Hl : zlen (new_names cap) = cap) by (unfold zlen, new_names; rewrite length_replicate; lia).
  destruct (for_loop_inv (λ i n, zlen n = cap ∧ ∀ k, (Z.of_nat k < i) → n !! k = names !! k)
    (copy_names names 0) (Z.to_nat p) 0 (new_names cap)) as (n1 & H1 & Hl1 & Hlo).
  { split; [done|lia]. }
  { intros j n Hj [Hn Hk]. unfold copy_names.
    destruct (aget_in names j) as (e & -> & He); [lia|]. bsimpl.
    rewrite aset_in by lia. eexists. split; [done|]. rewrite zlen_insert. split; [done|].
    intros k Hk'. rewrite list_lookup_insert. case_decide as Hd.
    - rewrite <-He. f_equal. lia.
    - apply Hk. unfold zlen in *. lia. }
  destruct (for_loop_inv (λ i n, zlen n = cap ∧ (∀ k, (k < Z.to_nat p)%nat → n !! k = names !! k) ∧
      ∀ k, (Z.to_nat p ≤ k)%nat → Z.of_nat k < i → n !! S k = names !! k)
    (copy_names names 1) (Z.to_nat (count - p)) p n1) as (n2 & H2 & Hl2 & Hlo2 & Hhi).
  { split_and!; [done|intros; apply Hlo; lia|lia]. }
  { intros j n Hj (Hn & Hk & Hk2). unfold copy_names.
    destruct (aget_in names j) as (e & -> & He); [lia|]. bsimpl.
    rewrite aset_in by lia. eexists. split; [done|]. rewrite zlen_insert. split_and!; [done|..].
    - intros k Hk'. rewrite list_lookup_insert, decide_False by lia. by apply Hk.
    - intros k Hp' Hk'. rewrite list_lookup_insert. case_decide as Hd.
      + rewrite <-He. f_equal. lia.
      + apply Hk2; [done|]. unfold zlen in *. lia. }
  exists n1, n2. split_and!; [done|done|done|]. split; [done|]. intros k Hk. apply Hhi; lia.
Qed.

Lemma shift_room names count p : 0 ≤ p ≤ count → count < zlen names →
  ∃ n, for_loop (Z.to_nat (count - p)) 0 (shift_names count) names = Ret n ∧
    zlen n = zlen names ∧ moved_up names n (Z.to_nat count) (Z.to_nat p).
Proof.
  intros Hp Hc.
  destruct (for_loop_inv (λ i n, zlen n = zlen names ∧
      (∀ k, Z.of_nat k ≤ count - i → n !! k = names !! k) ∧
      (∀ k, count - i ≤ Z.of_nat k < count → n !! S k = names !! k))
    (shift_names count) (Z.to_nat (count - p)) 0 names) as (n & Hn & Hl & Hlo & Hhi).
  { split_and!; [done|done|lia]. }
  { intros j n Hj (Hl & Hlo & Hhi). unfold shift_names.
    destruct (aget_in n (count - j - 1)) as (e & -> & He); [lia|]. bsimpl.
    rewrite aset_in by lia. eexists. split; [done|]. rewrite zlen_insert. split_and!; [done|..].
    - intros k Hk. rewrite list_lookup_insert, decide_False by lia. apply Hlo. lia.
    - intros k Hk. rewrite list_lookup_insert. case_decide as Hd.
      + rewrite <-He, Hlo by lia. f_equal. lia.
      + apply Hhi. unfold zlen in *. lia. }
  exists n. split_and!; [done|done|]. split; intros k Hk; [apply Hlo|apply Hhi]; lia.
Qed.

Lemma sorted_insert l p nm h : StronglySorted name_before l →
  (∀ k q, l !! k = Some q → (k < p)%nat → strcmp q.1 nm < 0) →
  (∀ k q, l !! k = Some q → (p ≤ k)%nat → strcmp nm q.1 < 0) →
  StronglySorted name_before (take p l ++ (nm, h) :: drop p l).
Proof.
  intros Hs Hlo Hhi. rewrite <-(take_drop p l) in Hs. apply StronglySorted_app in Hs as (Hx & H1 & H2).
  apply StronglySorted_app. split_and!; [|done|constructor; [done|]].
  - intros a b Ha [->|Hb]%elem_of_cons; [|by apply Hx].
    apply list_elem_of_lookup in Ha as [k Hk]. apply lookup_take_Some in Hk as [Hk ?]. by eapply Hlo.
  - apply Forall_forall. intros b Hb. apply list_elem_of_lookup in Hb as [k Hk].
    rewrite lookup_drop in Hk. eapply Hhi; [done|lia].
Qed.

Lemma insert_name_before_spec s l nm h p : names_are s l → cstr_ok nm →
  zlen l < MAX_SLOT_SIZE / 2 → search_result l nm (inr p) →
  ∃ s', _insert_name_before s nm h p = Ret s' ∧
    names_are s' (take (Z.to_nat p) l ++ (nm, h) :: drop (Z.to_nat p) l) ∧
    ∃ cap count names, s' = set_names s cap count names.
Proof.
  intros [Hp Hc Hcap Hroom Hb Hstr Hs] Hnm Hl (Hpr & Hlo & Hhi). unfold _insert_name_before.
  assert (Hmk : ∃ cap names, (if name_cap s <=? name_count s then
       cap' ← cint (name_cap s * 2);
       _ ← assert_true (cap' <=? MAX_SLOT_SIZE);
       n1 ← for_loop (Z.to_nat p) 0 (copy_names (name s) 0) (new_names cap');
       n2 ← for_loop (Z.to_nat (name_count s - p)) p (copy_names (name s) 1) n1;
       Ret (cap', n2)
     else
       n ← for_loop (Z.to_nat (name_count s - p)) 0 (shift_names (name_count s)) (name s);
       Ret (name_cap s, n)) = Ret (cap, names) ∧ zlen names = cap ∧ name_count s < cap ≤ MAX_SLOT_SIZE ∧
       moved_up (name s) names (Z.to_nat (name_count s)) (Z.to_nat p)).
  { change (MAX_SLOT_SIZE / 2) with 0x20000000 in Hl. unfold MAX_SLOT_SIZE in *.
    destruct (Z.leb_spec (name_cap s) (name_count s)).
    - rewrite cint_in by (unfold INT_MAX, INT_MIN; lia). bsimpl.
      rewrite (proj2 (Z.leb_le _ _)) by lia. bsimpl. cbn [assert_true]. bsimpl.
      destruct (copy_room (name s) (name_cap s * 2) (name_count s) p) as (n1 & n2 & -> & E & ? & ?); [lia..|].
      bsimpl. rewrite E. bsimpl. eexists _, _. split; [done|]. split_and!; [done|lia|lia|done].
    - destruct (shift_room (name s) (name_count s) p) as (n & -> & ? & ?); [lia..|].
      bsimpl. eexists _, _. split; [done|]. split_and!; [lia|lia|lia|done]. }
  destruct Hmk as (cap & names & -> & Hln & Hcap' & Hm1 & Hm2). bsimpl.
  rewrite aset_in by lia. bsimpl. rewrite cint_in by (unfold INT_MAX, INT_MIN, MAX_SLOT_SIZE in *; lia).
  bsimpl. eexists. split; [done|]. split; [|by eexists _, _, _].
  assert (Hpn : (Z.to_nat p ≤ length l)%nat) by (unfold zlen in *; lia).
  assert (Ht : length (take (Z.to_nat p) l) = Z.to_nat p) by (rewrite length_take; lia).
  split; cbn [name name_count name_cap set_names].
  - intros k q Hk. rewrite list_lookup_insert.
    destruct (decide (k < Z.to_nat p)%nat) as [Hlt|Hge].
    { rewrite decide_False by lia. rewrite lookup_app_l in Hk by lia.
      apply lookup_take_Some in Hk as [Hk _]. rewrite Hm1 by done. by apply Hp. }
    rewrite lookup_app_r in Hk by lia. rewrite Ht in Hk. case_decide as Hd.
    { replace (k - Z.to_nat p)%nat with 0%nat in Hk by lia. by injection Hk as <-. }
    destruct (k - Z.to_nat p)%nat as [|m] eqn:Ek; [unfold zlen in *; lia|].
    change (drop (Z.to_nat p) l !! m = Some q) in Hk. rewrite lookup_drop in Hk. pose proof (lookup_lt_Some _ _ _ Hk).
    replace k with (S (Z.to_nat p + m)) by lia. rewrite Hm2 by (unfold zlen in *; lia). by apply Hp.
  - rewrite zlen_app, zlen_cons. unfold zlen in *. rewrite length_drop. lia.
  - by rewrite zlen_insert.
  - lia.
  - lia.
  - apply Forall_app. split; [by apply Forall_take|]. constructor; [done|by apply Forall_drop].
  - apply sorted_insert; [done|..]; intros k q Hk ?; [eapply Hlo; [done|lia]|].
    apply strcmp_flip; [done| |eapply Hhi; [done|lia]]. eapply Forall_lookup_1 in Hstr; done.
Qed.

Lemma name_ok s l k q : names_are s l → l !! k = Some q → cstr_ok q.1.
Proof. intros Hl Hk. by apply (Forall_lookup_1 _ _ _ _ (na_strs s l Hl) Hk). Qed.

Lemma names_NoDup s l : names_are s l → NoDup l.*1.
Proof.
  intros Hl. apply NoDup_alt. intros i j nm Hi Hj.
  rewrite list_lookup_fmap in Hi, Hj.
  destruct (l !! i) as [p|] eqn:Ei; [|done]. destruct (l !! j) as [q|] eqn:Ej; [|done].
  injection Hi as Hi. injection Hj as Hj.
  assert (Hz : strcmp nm nm = 0) by (subst nm; by apply strcmp_zero; eauto using name_ok).
  destruct (Nat.lt_total i j) as [Hlt|[?|Hlt]]; [exfalso|done|exfalso].
  - pose proof (sorted_lookup _ _ _ _ _ (na_sorted s l Hl) Hlt Ei Ej) as Hb.
    unfold name_before in Hb. rewrite Hi, Hj in Hb. lia.
  - pose proof (sorted_lookup _ _ _ _ _ (na_sorted s l Hl) Hlt Ej Ei) as Hb.
    unfold name_before in Hb. rewrite Hi, Hj in Hb. lia.
Qed.

(** ** The names refine a finite map *)

Definition names_rel (s : handle_storage) (m : gmap cstring Z) : Prop :=
  ∃ l, names_are s l ∧ m = list_to_map l.

Lemma search_map s l nm r : names_are s l → cstr_ok nm → search_result l nm r →
  match r with
  | inl mid => ∃ h, l !! Z.to_nat mid = Some (nm, h) ∧ 0 ≤ mid ∧
                 (list_to_map l : gmap cstring Z) !! nm = Some h
  | inr _ => (list_to_map l : gmap cstring Z) !! nm = None
  end.
Proof.
  intros Hl Hnm Hr. pose proof (names_NoDup s l Hl) as Hnd. destruct r as [mid|p].
  - destruct Hr as (H0 & h & Hk). exists h. split_and!; [done|done|].
    apply elem_of_list_to_map_1; [done|]. apply list_elem_of_lookup. eauto.
  - destruct Hr as (Hp & Hlo & Hhi). apply not_elem_of_list_to_map_1. intros Hin.
    apply list_elem_of_lookup in Hin as [k Hk]. rewrite list_lookup_fmap in Hk.
    destruct (l !! k) as [[n h]|] eqn:E; [|done]. injection Hk as ->.
    assert (strcmp nm nm = 0) by by apply strcmp_zero.
    destruct (decide (Z.of_nat k < p)).
    + pose proof (Hlo k _ E ltac:(lia)). cbn in *. lia.
    + pose proof (Hhi k _ E ltac:(lia)). cbn in *. lia.
Qed.

Lemma findname_spec s m nm : names_rel s m → cstr_ok nm →
  fengnet_handle_findname s nm = Ret (default 0 (m !! nm)).
Proof.
  intros (l & Hl & ->) Hnm. unfold fengnet_handle_findname.
  destruct (search_name_spec s l nm Hl Hnm) as (r & -> & Hr). bsimpl.
  apply (search_map s) in Hr; [|done..]. destruct r as [mid|p]; [|by rewrite Hr].
  destruct Hr as (h & Hk & H0 & ->). apply Hl in Hk.
  by rewrite (proj2 (aget_Ret _ _ _)) by done.
Qed.

Lemma namehandle_spec s m nm h : names_rel s m → cstr_ok nm →
  name_count s < MAX_SLOT_SIZE / 2 →
  match m !! nm with
  | Some _ => fengnet_handle_namehandle s h nm = Ret (None, s)
  | None => ∃ s', fengnet_handle_namehandle s h nm = Ret (Some nm, s') ∧
      names_rel s' (<[nm := h]> m) ∧ ∃ cap count names, s' = set_names s cap count names
  end.
Proof.
  intros (l & Hl & ->) Hnm Hsz. unfold fengnet_handle_namehandle, _insert_name.
  rewrite (na_count s l Hl) in Hsz.
  destruct (search_name_spec s l nm Hl Hnm) as (r & -> & Hr). bsimpl.
  pose proof (search_map s l nm r Hl Hnm Hr) as Hm. destruct r as [mid|p].
  { destruct Hm as (h' & _ & _ & ->). done. }
  rewrite Hm.
  destruct (insert_name_before_spec s l nm h p) as (s' & -> & Hl' & Hs'); [done..|]. bsimpl.
  eexists. split; [done|]. split; [|done]. eexists. split; [done|].
  change (<[nm := h]> (list_to_map l)) with (list_to_map ((nm, h) :: l) : gmap cstring Z).
  symmetry. apply list_to_map_proper; [by eapply names_NoDup|].
  rewrite <-Permutation_middle. by rewrite take_drop.
Qed.

(** ** Dropping the names of a handle *)

Lemma sorted_filter (P : cstring * Z → Prop) `{!∀ p, Decision (P p)} l :
  StronglySorted name_before l → StronglySorted name_before (filter P l).
Proof.
  induction 1 as [|p l Hs IH Hp]; [constructor|]. rewrite filter_cons. case_decide; [|done].
  constructor; [done|]. apply Forall_forall. intros q [_ Hq]%list_elem_of_filter.
  rewrite Forall_forall in Hp. by apply Hp.
Qed.

Lemma compact_spec s l h : names_are s l →
  ∃ names, for_loop (Z.to_nat (name_count s)) 0 (compact_step h) (0, name s) =
    Ret (zlen (filter (λ p, p.2 ≠ h) l), names) ∧
    names_are (set_names s (name_cap s) (zlen (filter (λ p, p.2 ≠ h) l)) names)
      (filter (λ p, p.2 ≠ h) l).
Proof.
  intros [Hp Hc Hcap Hroom Hb Hstr Hs].
  set (keep := filter (λ p : cstring * Z, p.2 ≠ h)).
  assert (Hkl : ∀ j, (length (keep (take j l)) ≤ j)%nat).
  { intros j. etrans; [apply length_filter|]. rewrite length_take. lia. }
  destruct (for_loop_inv (λ i '(j, names), j = zlen (keep (take (Z.to_nat i) l)) ∧
      zlen names = zlen (name s) ∧
      (∀ k q, keep (take (Z.to_nat i) l) !! k = Some q → names !! k = Some (entry q)) ∧
      (∀ k, i ≤ Z.of_nat k → names !! k = name s !! k))
    (compact_step h) (Z.to_nat (name_count s)) 0 (0, name s)) as ([j names] & Hrun & Hj & Hln & Hk & _).
  { split_and!; done. }
  { intros i [j names] Hi (-> & Hln & Hk & Hrest). unfold compact_step.
    destruct (lookup_lt_is_Some_2 l (Z.to_nat i)) as [q Hq]; [unfold zlen in *; lia|].
    rewrite (proj2 (aget_Ret _ _ (entry q))); [|split; [lia|]; rewrite Hrest by lia; by apply Hp].
    bsimpl. cbn [name_handle].
    assert (Hstep : keep (take (Z.to_nat (i + 1)) l) =
      keep (take (Z.to_nat i) l) ++ if decide (q.2 ≠ h) then [q] else []).
    { replace (Z.to_nat (i + 1)) with (S (Z.to_nat i)) by lia. erewrite take_S_r by done.
      unfold keep. rewrite filter_app, filter_cons. by destruct (decide (q.2 ≠ h)). }
    specialize (Hkl (Z.to_nat i)). rewrite Hstep.
    destruct (Z.eqb_spec q.2 h) as [Eh|Hne].
    { rewrite decide_False by auto. rewrite app_nil_r. eexists. split; [done|]. cbn beta iota.
      split_and!; [done|done|done|]. intros k ?. apply Hrest. lia. }
    rewrite decide_True by done. set (j := zlen (keep (take (Z.to_nat i) l))) in *.
    assert (Hset : (if negb (i =? j) then aset names j (entry q) else Ret names) =
      Ret (<[Z.to_nat j := entry q]> names)).
    { destruct (Z.eqb_spec i j) as [E|]; cbn [negb].
      - f_equal. symmetry. apply list_insert_id. rewrite <-E, Hrest by lia. by apply Hp.
      - apply aset_in. unfold j, zlen in *. lia. }
    rewrite Hset. bsimpl. eexists. split; [done|]. cbn beta iota.
    split_and!; [rewrite zlen_app; done|by rewrite zlen_insert|..].
    - intros k q' [Hk'|[Hge Hk']]%lookup_app_Some.
      + pose proof (lookup_lt_Some _ _ _ Hk'). rewrite list_lookup_insert_ne; [by apply Hk|].
        unfold j, zlen. lia.
      + apply list_lookup_singleton_Some in Hk' as [Hk0 <-].
        replace (Z.to_nat j) with k by (unfold j, zlen; lia). apply list_lookup_insert_eq.
        unfold j, zlen in *. lia.
    - intros k ?. rewrite list_lookup_insert_ne by (unfold j, zlen in *; lia). apply Hrest. lia. }
  assert (Et : take (Z.to_nat (0 + Z.of_nat (Z.to_nat (name_count s)))) l = l).
  { apply take_ge. unfold zlen in *. lia. }
  rewrite Et in *. subst j. exists names. split; [done|].
  split; cbn [name name_count name_cap set_names]; [done|done|congruence| |done|..].
  - specialize (Hkl (length l)). rewrite firstn_all in Hkl. unfold keep, zlen in *. lia.
  - apply Forall_forall. intros q [_ Hq]%list_elem_of_filter. rewrite Forall_forall in Hstr. by apply Hstr.
  - by apply sorted_filter.
Qed.

Lemma compact_map l h : NoDup l.*1 →
  (list_to_map (filter (λ p, p.2 ≠ h) l) : gmap cstring Z) =
  filter (λ p, p.2 ≠ h) (list_to_map l : gmap cstring Z).
Proof.
  intros Hnd. assert (Hnd' : NoDup (filter (λ p, p.2 ≠ h) l).*1).
  { eapply sublist_NoDup; [done|]. apply fmap_sublist, sublist_filter. }
  apply map_eq. intros k. apply option_eq. intros x.
  rewrite map_lookup_filter_Some, <-!elem_of_list_to_map by done.
  rewrite list_elem_of_filter. naive_solver.
Qed.

(** ** The table of contexts *)

(** What the server promises about its contexts: reading, grabbing and
    deleting a live context works, and touches no other one. *)
Class ContextLaws (W : Type) `{!ContextOps W} := {
  grab_live w c h : context_handle w c = Ret h →
    ∃ w', context_grab w c = Ret w' ∧ ∀ c', context_handle w' c' = context_handle w c';
  delete_live w c h : context_handle w c = Ret h →
    ∃ w', context_delete w c = Ret w' ∧ context_handle w' c = Undef ∧
      ∀ c', c' ≠ c → context_handle w' c' = context_handle w c'
}.

(** The sizes and the range of the next handle. *)
Record table_shape (s : handle_storage) : Prop := {
  ts_size : ∃ k, 2 ≤ k ≤ 24 ∧ slot_size s = 2 ^ k;
  ts_slots : zlen (slot s) = slot_size s;
  ts_index : 1 ≤ handle_index s ≤ HANDLE_MASK + 1;
  ts_harbor : ∃ hb, 0 ≤ hb < 256 ∧ harbor s = Z.shiftl hb HANDLE_REMOTE_SHIFT
}.

Definition registered (s : handle_storage) (c : ctx_loc) (i : Z) : Prop :=
  0 ≤ i ∧ slot s !! Z.to_nat i = Some (Some c).

Section table.
Context {W : Type} `{!ContextOps W}.

(** Every registered context is alive and sits in the slot of its handle. *)
Record table_ok (s : handle_storage) (w : W) : Prop := {
  to_shape : table_shape s;
  to_live c i : registered s c i →
    ∃ h, context_handle w c = Ret h ∧ h mod slot_size s = i
}.

Lemma size_bounds s : table_shape s → 4 ≤ slot_size s ≤ 2 ^ 24.
Proof.
  intros [(k & Hk & ->) _ _ _]. change 4 with (2 ^ 2). split; apply Z.pow_le_mono_r; lia.
Qed.

Lemma hash_mod s h : table_shape s → Z.land h (slot_size s - 1) = h mod slot_size s.
Proof. intros [(k & Hk & ->) _ _ _]. by apply land_mask; lia. Qed.

Lemma slot_at s h : table_shape s →
  ∃ x, aget (slot s) (Z.land h (slot_size s - 1)) = Ret x ∧
    slot s !! Z.to_nat (h mod slot_size s) = Some x.
Proof.
  intros Hs. rewrite hash_mod by done. pose proof (size_bounds s Hs).
  apply aget_in. rewrite (ts_slots s Hs). apply Z.mod_pos_bound. lia.
Qed.

(** ** Grabbing *)

Lemma grab_hit `{!ContextLaws W} s (w : W) c h i : table_ok s w →
  registered s c i → context_handle w c = Ret h →
  ∃ w', fengnet_handle_grab s w h = Ret (Some c, w') ∧
    ∀ c', context_handle w' c' = context_handle w c'.
Proof.
  intros [Hs Hl] Hr Hh. unfold fengnet_handle_grab.
  destruct (slot_at s h Hs) as (x & -> & Hx). bsimpl.
  destruct (Hl c i Hr) as (h' & Hh' & Hi). assert (h' = h) as -> by congruence.
  destruct Hr as [Hi0 Hr]. rewrite Hi, Hr in Hx. injection Hx as <-.
  rewrite Hh. bsimpl. rewrite Z.eqb_refl.
  destruct (grab_live w c h Hh) as (w' & -> & Hw'). bsimpl. eauto.
Qed.

Lemma grab_miss s (w : W) h : table_ok s w →
  (∀ c i, registered s c i → context_handle w c ≠ Ret h) →
  fengnet_handle_grab s w h = Ret (None, w).
Proof.
  intros [Hs Hl] Hno. unfold fengnet_handle_grab.
  destruct (slot_at s h Hs) as (x & -> & Hx). bsimpl. destruct x as [c|]; [|done].
  assert (Hr : registered s c (h mod slot_size s)).
  { split; [|done]. apply Z.mod_pos_bound. pose proof (size_bounds s Hs). lia. }
  destruct (Hl c _ Hr) as (h' & Hh' & _). rewrite Hh'. bsimpl.
  destruct (Z.eqb_spec h' h) as [->|]; [|done]. by destruct (Hno c _ Hr).
Qed.

(** ** Finding a free slot *)

(** The handle that the search tries at turn [i]: past [HANDLE_MASK] it goes
    on from 1. *)
Definition tried (s : handle_storage) (i : Z) : Z :=
  (handle_index s + i - 1) mod HANDLE_MASK + 1.

Definition taken (s : handle_storage) (h : Z) : Prop :=
  ∃ c, slot s !! Z.to_nat (h mod slot_size s) = Some (Some c).

Lemma find_slot_spec s : table_shape s →
  (∃ i, 0 ≤ i < slot_size s ∧ let h := tried s i in
     find_slot s = Ret (Some (h, h mod slot_size s)) ∧ 1 ≤ h ≤ HANDLE_MASK ∧
     slot s !! Z.to_nat (h mod slot_size s) = Some None) ∨
  (find_slot s = Ret None ∧ ∀ i, 0 ≤ i < slot_size s → taken s (tried s i)).
Proof.
  intros Hs. pose proof (size_bounds s Hs) as Hsz. pose proof (ts_index s Hs) as Hix.
  unfold find_slot, HANDLE_MASK in *.
  destruct (loop_total
    (λ '(i, h), 0 ≤ i ≤ slot_size s ∧ (i < slot_size s → tried s i = if HANDLE_MASK <? h then 1 else h) ∧
       0 ≤ h ≤ 2 ^ 24 ∧ ∀ j, 0 ≤ j < i → taken s (tried s j))
    (λ '(i, _), Z.to_nat (slot_size s - i))
    (λ r, (∃ i, 0 ≤ i < slot_size s ∧ let h := tried s i in
       r = Some (h, h mod slot_size s) ∧ 1 ≤ h ≤ HANDLE_MASK ∧
       slot s !! Z.to_nat (h mod slot_size s) = Some None) ∨
      (r = None ∧ ∀ i, 0 ≤ i < slot_size s → taken s (tried s i)))
    (find_step s)) with (fuel := S (Z.to_nat (slot_size s))) (s := (0, handle_index s)) as (r & -> & Hr).
  - intros [i h] (Hi & Ht & Hh & Hj). unfold find_step.
    destruct (Z.ltb_spec i (slot_size s)).
    2: { right. eexists. split; [done|]. right. split; [done|]. intros j Hj'. apply Hj. lia. }
    specialize (Ht ltac:(lia)). rewrite <-Ht.
    destruct (slot_at s (tried s i) Hs) as (x & -> & Hx). bsimpl.
    assert (Hrange : 1 ≤ tried s i ≤ 0xffffff).
    { unfold tried, HANDLE_MASK. zlia. }
    destruct x as [c|].
    + left. rewrite cint_in by (unfold INT_MAX, INT_MIN; lia). bsimpl.
      eexists. split; [done|]. split; [|lia].
      assert (Hu : u32 (tried s i + 1) = tried s i + 1) by (unfold u32; apply Z.mod_small; lia).
      split_and!; [lia|lia| |lia|lia|].
      * intros ?. rewrite Hu. unfold tried, HANDLE_MASK in *. clear Ht Hx Hu.
        destruct (Z.ltb_spec 0xffffff ((handle_index s + i - 1) mod 0xffffff + 1 + 1)); zlia.
      * intros j Hj'. destruct (decide (j = i)) as [->|]; [by exists c|apply Hj; lia].
    + right. eexists. split; [done|]. left. exists i. rewrite hash_mod by done.
      split; [lia|]. split; [done|]. split; [unfold HANDLE_MASK; lia|done].
  - split_and!; try lia. intros _. unfold tried, HANDLE_MASK. rewrite Z.add_0_r.
    destruct (Z.ltb_spec 0xffffff (handle_index s)); zlia.
  - lia.
  - naive_solver.
Qed.

(** The turns of the search visit every slot, except that slot 0 is left out
    when the handles wrap around. *)
Lemma tried_covers s f : table_shape s → 0 ≤ f < slot_size s →
  f ≠ 0 ∨ handle_index s + slot_size s ≤ HANDLE_MASK + 1 →
  ∃ i, 0 ≤ i < slot_size s ∧ tried s i mod slot_size s = f.
Proof.
  intros Hs Hf Hw. pose proof (size_bounds s Hs) as Hsz. pose proof (ts_index s Hs) as Hix.
  destruct Hs as [(k & Hk & Hsize) _ _ _].
  assert (Hdiv : ∃ q, 2 ^ 24 = q * slot_size s).
  { exists (2 ^ (24 - k)). rewrite Hsize, <-Z.pow_add_r by lia. f_equal. lia. }
  destruct Hdiv as [q Hq]. clear Hsize. unfold tried, HANDLE_MASK in *.
  set (n := slot_size s) in *. clearbody n.
  set (ix := handle_index s) in *. clearbody ix.
  (* the first handle from [ix] on with hash [f] *)
  set (i := (f - ix) mod n).
  assert (Hi : 0 ≤ i < n) by (apply Z.mod_pos_bound; lia).
  assert (Hm : (ix + i) mod n = f).
  { unfold i. rewrite Z.add_mod_idemp_r by lia.
    replace (ix + (f - ix)) with f by lia. apply Z.mod_small. lia. }
  destruct (decide (ix + i ≤ 0xffffff)) as [Hle|Hgt].
  { exists i. split; [done|]. rewrite (Z.mod_small (ix + i - 1)) by lia. by rewrite Z.sub_add. }
  (* past the wrap the same slot is met one turn earlier *)
  assert (Hf0 : f ≠ 0).
  { destruct Hw as [|Hw]; [done|]. lia. }
  assert (E : ix + i = 2 ^ 24 + f).
  { assert (0 ≤ ix + i - 2 ^ 24 < n) by lia.
    assert ((ix + i - 2 ^ 24) mod n = f).
    { rewrite Hq. rewrite <-Hm. replace (ix + i - q * n) with (ix + i + (- q) * n) by lia.
      apply Z.mod_add. lia. }
    rewrite Z.mod_small in H0 by lia. lia. }
  exists (i - 1). split; [lia|].
  replace (ix + (i - 1) - 1) with (f - 1 + 1 * 0xffffff) by lia.
  rewrite Z.mod_add, (Z.mod_small (f - 1)) by lia. rewrite Z.sub_add. apply Z.mod_small. lia.
Qed.

(** ** Registering *)

Lemma find_slot_free s f : table_shape s → 0 ≤ f < slot_size s →
  slot s !! Z.to_nat f = Some None →
  f ≠ 0 ∨ handle_index s + slot_size s ≤ HANDLE_MASK + 1 →
  ∃ h, find_slot s = Ret (Some (h, h mod slot_size s)) ∧ 1 ≤ h ≤ HANDLE_MASK ∧
    slot s !! Z.to_nat (h mod slot_size s) = Some None.
Proof.
  intros Hs Hf Hfree Hw. destruct (find_slot_spec s Hs) as [(i & Hi & ?)|(_ & Hall)]; [by eauto|].
  destruct (tried_covers s f Hs Hf Hw) as (i & Hi & E). destruct (Hall i Hi) as [c Hc].
  rewrite E, Hfree in Hc. done.
Qed.

Lemma register_turn s (w : W) ctx h n : table_shape s →
  find_slot s = Ret (Some (h, h mod slot_size s)) →
  loop (S n) (register_step ctx) (s, w) =
  Ret (Z.lor h (harbor s), set_slots s (h + 1) (slot_size s)
        (<[Z.to_nat (h mod slot_size s) := Some ctx]> (slot s)), w).
Proof.
  intros Hs Hfind. rewrite loop_S. unfold register_step. rewrite Hfind. bsimpl.
  pose proof (size_bounds s Hs). pose proof (Z.mod_pos_bound h (slot_size s)).
  rewrite aset_in by (rewrite (ts_slots s Hs); lia). done.
Qed.

(** The handle with the harbor in its high byte has the same slot. *)
Lemma harbor_mod s h : table_shape s → 0 ≤ h ≤ HANDLE_MASK →
  Z.lor h (harbor s) mod slot_size s = h mod slot_size s ∧
  Z.land (Z.lor h (harbor s)) HANDLE_MASK = h.
Proof.
  intros [(k & Hk & ->) _ _ (hb & Hhb & ->)] Hh. unfold HANDLE_MASK, HANDLE_REMOTE_SHIFT in *.
  rewrite lor_shiftl by lia. split.
  - replace (hb * 2 ^ 24) with (hb * 2 ^ (24 - k) * 2 ^ k).
    + apply Z.mod_add. lia.
    + rewrite <-Z.mul_assoc, <-Z.pow_add_r by lia. do 2 f_equal. lia.
  - change 0xffffff with (2 ^ 24 - 1). rewrite land_mask, Z.mod_add by lia. apply Z.mod_small. lia.
Qed.

Lemma register_shape s h ctx : table_shape s → 1 ≤ h ≤ HANDLE_MASK →
  table_shape (set_slots s (h + 1) (slot_size s)
    (<[Z.to_nat (h mod slot_size s) := Some ctx]> (slot s))).
Proof.
  intros [H1 H2 H3 H4] Hh. split; cbn; [done|by rewrite zlen_insert|lia|done].
Qed.

(** ** Growing *)

Lemma rehash_spec s (w : W) : table_ok s w →
  ∃ new, for_loop (Z.to_nat (slot_size s)) 0 (rehash_step s w)
      (replicate (Z.to_nat (slot_size s * 2)) None) = Ret new ∧
    zlen new = slot_size s * 2 ∧
    (∀ c i h, registered s c i → context_handle w c = Ret h →
       new !! Z.to_nat (h mod (slot_size s * 2)) = Some (Some c)) ∧
    (∀ k c, new !! k = Some (Some c) → ∃ i h, registered s c i ∧ context_handle w c = Ret h ∧
       k = Z.to_nat (h mod (slot_size s * 2))).
Proof.
  intros [Hs Hl]. pose proof (size_bounds s Hs) as Hsz. set (n := slot_size s) in *.
  destruct (for_loop_inv (λ i new, zlen new = n * 2 ∧
      (∀ c j h, j < i → registered s c j → context_handle w c = Ret h →
         new !! Z.to_nat (h mod (n * 2)) = Some (Some c)) ∧
      (∀ k c, new !! k = Some (Some c) → ∃ j h, j < i ∧ registered s c j ∧ context_handle w c = Ret h ∧
         k = Z.to_nat (h mod (n * 2))))
    (rehash_step s w) (Z.to_nat n) 0 (replicate (Z.to_nat (n * 2)) None))
    as (new & Hrun & Hlen & Hin & Hout).
  - split_and!; [unfold zlen; rewrite length_replicate; lia| |].
    + intros c j h Hj [? _]. lia.
    + intros k c Hk. apply lookup_replicate_1 in Hk as [? _]. done.
  - intros i new Hi (Hlen & Hin & Hout). unfold rehash_step.
    destruct (aget_in (slot s) i) as (x & -> & Hx); [rewrite (ts_slots s Hs); fold n; lia|]. bsimpl.
    destruct x as [c|].
    2: { eexists. split; [done|]. split_and!; [done| |].
         - intros c j h Hj Hr Hh. eapply Hin; [|done..].
           destruct (decide (j = i)) as [->|]; [|lia]. destruct Hr as [_ Hr]. congruence.
         - intros k c Hk. destruct (Hout k c Hk) as (j & h & ? & ?). exists j, h. split; [lia|done]. }
    assert (Hr : registered s c i) by (split; [lia|done]).
    destruct (Hl c i Hr) as (h & Hh & Hhi). fold n in Hhi. rewrite Hh. bsimpl.
    assert (Hland : Z.land h (n * 2 - 1) = h mod (n * 2)).
    { destruct Hs as [(k & Hk & Hn) _ _ _]. fold n in Hn. rewrite Hn.
      change 2 with (2 ^ 1) at 2. rewrite <-Z.pow_add_r by lia. rewrite land_mask by lia.
      by rewrite Z.pow_add_r by lia. }
    fold n. rewrite Hland. pose proof (Z.mod_pos_bound h (n * 2) ltac:(lia)) as Hb.
    destruct (aget_in new (h mod (n * 2))) as (y & -> & Hy); [lia|]. bsimpl.
    destruct y as [c'|].
    { exfalso. destruct (Hout _ _ Hy) as (j & h' & Hj & Hr' & Hh' & E).
      destruct (Hl c' j Hr') as (h'' & Hh'' & Hj'). assert (h'' = h') as -> by congruence.
      apply (f_equal Z.of_nat) in E. pose proof (Z.mod_pos_bound h' (n * 2) ltac:(lia)).
      rewrite !Z2Nat.id in E by lia. fold n in Hj'.
      assert (Hmm : ∀ x, x mod n = (x mod (n * 2)) mod n).
      { intros x. symmetry. apply Z.mod_mod_divide. exists 2. lia. }
      rewrite (Hmm h) in Hhi. rewrite (Hmm h') in Hj'. rewrite E in Hhi. lia. }
    bsimpl. rewrite bool_decide_true by done. cbn [assert_true].
    bsimpl. rewrite aset_in by lia. eexists. split; [done|]. rewrite zlen_insert. split_and!; [done| |].
    + intros c' j h' Hj Hr' Hh'. rewrite list_lookup_insert.
      destruct (decide (j = i)) as [->|].
      { destruct Hr as [_ Hr], Hr' as [_ Hr']. assert (c' = c) as -> by congruence.
        assert (h' = h) as -> by congruence. rewrite decide_True; [done|]. unfold zlen in *. lia. }
      pose proof (Hin c' j h' ltac:(lia) Hr' Hh') as Hk.
      rewrite decide_False; [done|]. intros [E _]. rewrite <-E, Hy in Hk. done.
    + intros k c' Hk. rewrite list_lookup_insert in Hk. case_decide as Hd.
      * injection Hk as <-. exists i, h. split_and!; [lia|done|done|]. by destruct Hd.
      * destruct (Hout k c' Hk) as (j & h' & ? & ?). exists j, h'. split; [lia|done].
  - exists new. split_and!; [done|done| |].
    + intros c i h Hr Hh. eapply Hin; [|done..]. destruct Hr as [? Hr]. apply lookup_lt_Some in Hr.
      pose proof (ts_slots s Hs). unfold zlen in *. lia.
    + intros k c Hk. destruct (Hout k c Hk) as (i & h & _ & ?). eauto.
Qed.

(** The old slots own nothing, yet every context they point to is deleted. *)
Lemma delete_spec `{!ContextLaws W} s (w : W) : table_ok s w →
  ∃ w', for_loop (Z.to_nat (slot_size s)) 0 (delete_step s) w = Ret w' ∧
    (∀ c i, registered s c i → context_handle w' c = Undef).
Proof.
  intros [Hs Hl].
  assert (Huniq : ∀ c i j, registered s c i → registered s c j → i = j).
  { intros c i j Hi Hj. destruct (Hl c i Hi) as (h & Hh & <-), (Hl c j Hj) as (h' & Hh' & <-). congruence. }
  destruct (for_loop_inv (λ i w', (∀ c j, registered s c j → j < i → context_handle w' c = Undef) ∧
      (∀ c j, registered s c j → i ≤ j → context_handle w' c = context_handle w c))
    (delete_step s) (Z.to_nat (slot_size s)) 0 w) as (w' & Hrun & Hd & _).
  - split; [|done]. intros c j [? _] ?. lia.
  - intros i w' Hi (Hd & Hk). unfold delete_step.
    destruct (aget_in (slot s) i) as (x & -> & Hx); [rewrite (ts_slots s Hs); lia|]. bsimpl.
    destruct x as [c|].
    + assert (Hr : registered s c i) by (split; [lia|done]).
      destruct (Hl c i Hr) as (h & Hh & _). rewrite <-(Hk c i Hr) in Hh by lia.
      destruct (delete_live w' c h Hh) as (w2 & -> & Hu & Ho). eexists. split; [done|]. split.
      * intros c' j Hr' Hj. destruct (decide (c' = c)) as [->|Hne]; [done|]. rewrite Ho by done.
        destruct (decide (j = i)) as [->|]; [|apply (Hd c' j); [done|lia]].
        destruct Hr as [_ Hr], Hr' as [_ Hr']. congruence.
      * intros c' j Hr' Hj. rewrite Ho; [apply (Hk c' j); [done|lia]|]. intros ->.
        pose proof (Huniq c i j Hr Hr'). lia.
    + eexists. split; [done|]. split; intros c' j Hr' Hj.
      * destruct (decide (j = i)) as [->|]; [|apply (Hd c' j); [done|lia]]. destruct Hr'. congruence.
      * apply (Hk c' j); [done|lia].
  - exists w'. split; [done|]. intros c i Hr. apply (Hd c i Hr). destruct Hr as [? Hr].
    apply lookup_lt_Some in Hr. pose proof (ts_slots s Hs). unfold zlen in *. lia.
Qed.

Lemma full_not_found s : table_shape s →
  (∀ i, 0 ≤ i < slot_size s → ∃ c, registered s c i) → find_slot s = Ret None.
Proof.
  intros Hs Hfull. destruct (find_slot_spec s Hs) as [(i & Hi & _ & _ & Hx)|[? _]]; [|done].
  pose proof (size_bounds s Hs).
  destruct (Hfull (tried s i mod slot_size s)) as (c & _ & Hc); [apply Z.mod_pos_bound; lia|].
  congruence.
Qed.

(** Of the two new slots with the same old one, one is free. *)
Lemma grown_has_room s (w : W) new : table_ok s w → zlen new = slot_size s * 2 →
  (∀ k c, new !! k = Some (Some c) → ∃ i h, registered s c i ∧ context_handle w c = Ret h ∧
       k = Z.to_nat (h mod (slot_size s * 2))) →
  ∃ f, 0 < f < slot_size s * 2 ∧ new !! Z.to_nat f = Some None.
Proof.
  intros [Hs Hl] Hlen Hout. pose proof (size_bounds s Hs) as Hsz. set (n := slot_size s) in *.
  destruct (lookup_lt_is_Some_2 new (Z.to_nat 1)) as [x Hx]; [unfold zlen in *; lia|].
  destruct (lookup_lt_is_Some_2 new (Z.to_nat (n + 1))) as [y Hy]; [unfold zlen in *; lia|].
  destruct x as [c|]; [|exists 1; split; [lia|done]].
  destruct y as [c'|]; [|exists (n + 1); split; [lia|done]]. exfalso.
  destruct (Hout _ _ Hx) as (i & h & Hr & Hh & E). destruct (Hout _ _ Hy) as (j & h' & Hr' & Hh' & E').
  pose proof (Z.mod_pos_bound h (n * 2) ltac:(lia)). pose proof (Z.mod_pos_bound h' (n * 2) ltac:(lia)).
  assert (E1 : h mod (n * 2) = 1) by lia. assert (E2 : h' mod (n * 2) = n + 1) by lia. clear E E'.
  assert (Hmm : ∀ x, x mod n = (x mod (n * 2)) mod n).
  { intros x. symmetry. apply Z.mod_mod_divide. exists 2. lia. }
  assert (F1 : h mod n = 1) by (rewrite Hmm, E1; apply Z.mod_small; lia).
  assert (F2 : h' mod n = 1).
  { rewrite Hmm, E2. replace (n + 1) with (1 + 1 * n) by lia. rewrite Z.mod_add by lia.
    apply Z.mod_small. lia. }
  destruct (Hl c i Hr) as (g & Hg & Hi). destruct (Hl c' j Hr') as (g' & Hg' & Hj). fold n in Hi, Hj.
  assert (g = h) as -> by congruence. assert (g' = h') as -> by congruence.
  assert (i = j) as -> by lia. destruct Hr as [_ Hr], Hr' as [_ Hr'].
  assert (c = c') as -> by congruence. assert (h = h') as -> by congruence. lia.
Qed.

Lemma register_grows `{!ContextLaws W} s (w : W) ctx : table_ok s w →
  (∀ i, 0 ≤ i < slot_size s → ∃ c, registered s c i) →
  slot_size s * 2 - 1 ≤ HANDLE_MASK →
  ∃ h s' w', fengnet_handle_register s w ctx = Ret (h, s', w') ∧
    slot_size s' = slot_size s * 2 ∧
    (∀ c i, registered s c i → context_handle w' c = Undef) ∧
    (∀ c i h0, registered s c i → context_handle w c = Ret h0 →
       fengnet_handle_grab s' w' h0 = Undef).
Proof.
  intros Hok Hfull Hmax. pose proof Hok as [Hs Hl]. pose proof (size_bounds s Hs) as Hsz.
  unfold fengnet_handle_register. rewrite loop_S. unfold register_step at 2.
  rewrite full_not_found by done. bsimpl. unfold grow.
  rewrite (proj2 (Z.leb_le _ _)) by lia. cbn [assert_true]. bsimpl.
  destruct (rehash_spec s w Hok) as (new & -> & Hlen & Hin & Hout). bsimpl.
  destruct (delete_spec s w Hok) as (w' & -> & Hdead). bsimpl.
  set (s1 := set_slots s (handle_index s) (slot_size s * 2) new).
  assert (Hs1 : table_shape s1).
  { destruct Hs as [(k & Hk & Hn) _ H3 H4]. split; [|done|done|done]. exists (k + 1).
    cbn. rewrite Hn. split; [|by rewrite Z.pow_add_r by lia].
    split; [lia|]. destruct (decide (k = 24)) as [->|]; [|lia]. rewrite Hn in Hmax.
    unfold HANDLE_MASK in Hmax. lia. }
  destruct (grown_has_room s w new Hok Hlen Hout) as (f & Hf & Hfree).
  destruct (find_slot_free s1 f Hs1) as (h & Hfind & Hh & Hnone); [cbn; lia|done|lia|].
  rewrite (register_turn s1 w' ctx h 1 Hs1 Hfind).
  eexists _, _, w'. split; [done|]. split; [done|]. split; [done|].
  intros c i h0 Hr Hh0. pose proof (Hin c i h0 Hr Hh0) as Hc.
  set (s2 := set_slots s1 _ _ _).
  assert (Hs2 : table_shape s2) by by apply register_shape.
  unfold fengnet_handle_grab. destruct (slot_at s2 h0 Hs2) as (x & -> & Hx). bsimpl.
  cbn [slot s2 s1 set_slots slot_size] in Hx.
  rewrite list_lookup_insert in Hx. cbn [slot s1 set_slots slot_size] in Hnone.
  case_decide as Hd.
  { destruct Hd as [E _]. rewrite E, Hc in Hnone. done. }
  rewrite Hc in Hx. injection Hx as <-. by rewrite (Hdead c i Hr).
Qed.

(** ** Retiring *)

(** The table without the context in slot [i] and the names of [h]. *)
Definition retired (s : handle_storage) (h : Z) (count : Z) (names : list handle_name)
    : handle_storage :=
  set_names (set_slots s (handle_index s) (slot_size s)
    (<[Z.to_nat (h mod slot_size s) := None]> (slot s))) (name_cap s) count names.

Lemma retire_hit s (w : W) m c i h : table_ok s w → names_rel s m →
  registered s c i → context_handle w c = Ret h →
  ∃ count names, fengnet_handle_retire s w h =
      ('(s', w') ← context_release (retired s h count names) w c; Ret (1, s', w')) ∧
    names_rel (retired s h count names) (filter (λ p, p.2 ≠ h) m) ∧
    table_shape (retired s h count names) ∧
    (∀ c' j, registered (retired s h count names) c' j ↔ registered s c' j ∧ c' ≠ c).
Proof.
  intros [Hs Hl] (l & Hn & ->) Hr Hh. unfold fengnet_handle_retire.
  destruct (slot_at s h Hs) as (x & -> & Hx). bsimpl.
  destruct (Hl c i Hr) as (h' & Hh' & Hi). assert (h' = h) as -> by congruence.
  rewrite Hi in Hx. destruct Hr as [Hi0 Hr]. rewrite Hr in Hx. injection Hx as <-.
  rewrite Hh. bsimpl. rewrite Z.eqb_refl. rewrite hash_mod, Hi by done.
  pose proof (lookup_lt_Some _ _ _ Hr) as Hlt.
  rewrite aset_in by (unfold zlen; lia). bsimpl.
  destruct (compact_spec s l h Hn) as (names & -> & Hn'). bsimpl.
  exists (zlen (filter (λ p, p.2 ≠ h) l)), names. unfold retired. rewrite Hi. split_and!.
  - done.
  - exists (filter (λ p, p.2 ≠ h) l). split; [|symmetry; apply compact_map; by eapply names_NoDup].
    by destruct Hn'; split.
  - destruct Hs as [H1 H2 H3 H4]. split; cbn; [done|by rewrite zlen_insert|done|done].
  - intros c' j. unfold registered. cbn [slot set_names set_slots].
    rewrite list_lookup_insert. split.
    + intros [Hj Hc']. case_decide as Hd; [done|]. split; [done|]. intros ->.
      destruct (Hl c j) as (g & Hg & Ej); [done|]. assert (g = h) as -> by congruence.
      apply Hd. split; [congruence|lia].
    + intros [[Hj Hc'] Hne]. split; [done|]. rewrite decide_False; [done|]. intros [E _].
      rewrite <-E, Hr in Hc'. congruence.
Qed.

Lemma retire_miss s (w : W) h : table_ok s w →
  (∀ c i, registered s c i → context_handle w c ≠ Ret h) →
  fengnet_handle_retire s w h = Ret (0, s, w).
Proof.
  intros [Hs Hl] Hno. unfold fengnet_handle_retire.
  destruct (slot_at s h Hs) as (x & -> & Hx). bsimpl. destruct x as [c|]; [|done].
  assert (Hr : registered s c (h mod slot_size s)).
  { split; [|done]. apply Z.mod_pos_bound. pose proof (size_bounds s Hs). lia. }
  destruct (Hl c _ Hr) as (h' & Hh' & _). rewrite Hh'. bsimpl.
  destruct (Z.eqb_spec h' h) as [->|]; [by destruct (Hno c _ Hr)|done].
Qed.

(** Releases that leave the table and the other contexts alone. *)
Definition quiet_release : Prop := ∀ s (w : W) c h, context_handle w c = Ret h →
  ∃ w', context_release s w c = Ret (s, w') ∧
    ∀ c', c' ≠ c → context_handle w' c' = context_handle w c'.

Definition empty_table (s : handle_storage) : Prop := ∀ c i, ¬ registered s c i.

(** What holds of table and contexts between two retirements. *)
Record retiring (n : Z) (s : handle_storage) (w : W) : Prop := {
  re_ok : table_ok s w;
  re_size : slot_size s = n;
  re_names : ∃ m, names_rel s m;
  re_nonzero c i : registered s c i → context_handle w c ≠ Ret 0
}.

Lemma retire_one n s (w : W) c i h : quiet_release → retiring n s w →
  registered s c i → context_handle w c = Ret h →
  ∃ s' w', fengnet_handle_retire s w h = Ret (1, s', w') ∧ retiring n s' w' ∧
    ∀ c' j, registered s' c' j ↔ registered s c' j ∧ c' ≠ c.
Proof.
  intros Hq [Hok Hn (m & Hm) Hnz] Hr Hh.
  destruct (retire_hit s w m c i h Hok Hm Hr Hh) as (count & names & -> & Hm' & Hs' & Hr').
  destruct (Hq (retired s h count names) w c h Hh) as (w' & -> & Hw'). bsimpl.
  eexists _, w'. split; [done|]. split; [|done]. split; [split|..]; [done| |done|by eexists|].
  - intros c' j [Hc' Hne]%Hr'. rewrite Hw' by done. by apply (to_live _ _ Hok).
  - intros c' j [Hc' Hne]%Hr'. rewrite Hw' by done. by eapply Hnz.
Qed.

Lemma retireall_pass n s (w : W) fuel : quiet_release → retiring n s w →
  (Z.to_nat n < fuel)%nat →
  ∃ k s' w', loop fuel retireall_step (0, 0, s, w) = Ret (k, s', w') ∧
    retiring n s' w' ∧ empty_table s' ∧ (empty_table s → k = 0).
Proof.
  intros Hq Hre Hfuel. pose proof Hre as [[Hs _] Hsz _ _]. pose proof (size_bounds s Hs) as Hb.
  rewrite Hsz in Hb.
  destruct (loop_total
    (λ '(i, k, s', w'), 0 ≤ k ≤ i ∧ i ≤ n ∧ retiring n s' w' ∧
       (∀ c j, registered s' c j → i ≤ j) ∧ (∀ c j, registered s' c j → registered s c j) ∧
       (empty_table s → k = 0))
    (λ '(i, _, _, _), Z.to_nat (n - i))
    (λ '(k, s', w'), retiring n s' w' ∧ empty_table s' ∧ (empty_table s → k = 0))
    retireall_step) with (fuel := fuel) (s := (0, 0, s, w)) as ([[k s'] w'] & -> & Hr).
  - intros [[[i k] s'] w'] (Hk & Hi & Hre' & Hlo & Hsub & Hk0). unfold retireall_step.
    pose proof Hre' as [[Hs' Hl'] Hn' _ Hnz'].
    rewrite Hn'. destruct (Z.ltb_spec i n).
    2: { right. eexists. split; [done|]. split_and!; [done| |done]. intros c j Hr.
         pose proof (Hlo c j Hr). destruct Hr as [? Hr]. apply lookup_lt_Some in Hr.
         pose proof (ts_slots s' Hs'). unfold zlen in *. lia. }
    left. destruct (aget_in (slot s') i) as (x & -> & Hx); [rewrite (ts_slots s' Hs'); lia|]. bsimpl.
    destruct x as [c|].
    + assert (Hr : registered s' c i) by (split; [lia|done]).
      destruct (Hl' c i Hr) as (h & Hh & _). rewrite Hh. bsimpl.
      rewrite (cint_in (k + 1)), (cint_in (i + 1)) by (unfold INT_MAX, INT_MIN; lia). bsimpl.
      assert (h ≠ 0) by (intros ->; by eapply Hnz').
      rewrite (proj2 (Z.eqb_neq _ _)) by done. cbn [negb].
      destruct (retire_one n s' w' c i h Hq Hre' Hr Hh) as (s2 & w2 & -> & Hre2 & Hr2). bsimpl.
      eexists. split; [done|]. split; [|lia]. split_and!; [lia|lia|lia|done|..].
      * intros c' j [Hr' Hne]%Hr2. pose proof (Hlo c' j Hr').
        destruct (decide (j = i)) as [->|]; [|lia]. destruct Hr as [_ Hr], Hr' as [_ Hr']. congruence.
      * intros c' j [Hr' _]%Hr2. eauto.
      * intros He. by destruct (He c i (Hsub c i Hr)).
    + bsimpl. cbn [Z.eqb negb]. bsimpl. rewrite cint_in by (unfold INT_MAX, INT_MIN; lia). bsimpl.
      eexists. split; [done|]. split; [|lia]. split_and!; [lia|lia|lia|done| |done|done].
      intros c' j Hr'. pose proof (Hlo c' j Hr').
      destruct (decide (j = i)) as [->|]; [|lia]. destruct Hr' as [_ Hr']. congruence.
  - split_and!; try done; try lia. by intros c j [? _].
  - rewrite Z.sub_0_r. done.
  - exists k, s', w'. by destruct Hr.
Qed.
End table.

(** ** Results *)

(** With a free slot the first handle that is free is taken. *)
Lemma register_takes_free_slot {W} `{!ContextOps W, !ContextLaws W} s (w : W) ctx f :
  table_ok s w → 0 ≤ f < slot_size s → slot s !! Z.to_nat f = Some None →
  f ≠ 0 ∨ handle_index s + slot_size s ≤ HANDLE_MASK + 1 →
  (∀ i, ¬ registered s ctx i) →
  ∃ h s', fengnet_handle_register s w ctx = Ret (h, s', w) ∧
    1 ≤ Z.land h HANDLE_MASK ∧ Z.shiftr h HANDLE_REMOTE_SHIFT = Z.shiftr (harbor s) HANDLE_REMOTE_SHIFT ∧
    (∀ c i, registered s c i → context_handle w c ≠ Ret h) ∧
    (∀ c i, registered s' c i ↔ registered s c i ∨ (c = ctx ∧ i = h mod slot_size s)) ∧
    ∀ w', context_handle w' ctx = Ret h →
      (∀ c, c ≠ ctx → context_handle w' c = context_handle w c) →
      table_ok s' w' ∧ ∃ w'', fengnet_handle_grab s' w' h = Ret (Some ctx, w'').
Proof.
  intros [Hs Hl] Hf Hfree Hw Hnew.
  destruct (find_slot_free s f Hs Hf Hfree Hw) as (h & Hfind & Hh & Hnone).
  unfold fengnet_handle_register. rewrite (register_turn s w ctx h 2 Hs Hfind).
  destruct (harbor_mod s h Hs) as [Hhm Hlow]; [lia|].
  pose proof (size_bounds s Hs) as Hb. pose proof (Z.mod_pos_bound h (slot_size s) ltac:(lia)).
  set (s' := set_slots _ _ _ _).
  assert (Hreg : ∀ c i, registered s' c i ↔ registered s c i ∨ (c = ctx ∧ i = h mod slot_size s)).
  { intros c i. unfold registered. cbn [slot s' set_slots]. rewrite list_lookup_insert. split.
    - intros [Hi Hc]. case_decide as Hd; [|by left]. injection Hc as <-. right. split; [done|lia].
    - intros [[Hi Hc]|[-> ->]].
      + split; [done|]. rewrite decide_False; [done|]. intros [E _]. rewrite <-E, Hnone in Hc. done.
      + split; [lia|]. rewrite decide_True; [done|]. split; [done|].
        pose proof (ts_slots s Hs). unfold zlen in *. lia. }
  assert (Hs' : table_shape s') by (apply register_shape; [done|lia]).
  eexists _, s'. split; [done|]. rewrite Hlow. split_and!; [lia| | |by rewrite Hhm|].
  - rewrite Z.shiftr_lor. destruct Hs as [_ _ _ (hb & Hhb & ->)].
    unfold HANDLE_REMOTE_SHIFT, HANDLE_MASK in *.
    by rewrite (Z.shiftr_div_pow2 h), (Z.div_small h) by lia.
  - intros c i Hr Hc. destruct (Hl c i Hr) as (h' & Hh' & Hi). rewrite Hc in Hh'. injection Hh' as <-.
    destruct Hr as [_ Hr]. rewrite <-Hi, Hhm, Hnone in Hr. done.
  - intros w' Hctx Hother.
    assert (Hok : table_ok s' w').
    { split; [done|]. intros c i [Hr|[-> ->]]%Hreg.
      - rewrite Hother by (intros ->; by apply (Hnew i)). by apply Hl.
      - eexists. split; [done|]. apply Hhm. }
    split; [done|]. destruct (grab_hit s' w' ctx (Z.lor h (harbor s)) (h mod slot_size s) Hok) as (w'' & Hg & _);
      [apply Hreg; by right|done|]. by exists w''.
Qed.

(** C26: what becomes of a new context. While the table has a free slot other than 0
    (or a free slot and no wrap of the handle counter in sight),
    [fengnet_handle_register] returns a handle that carries the harbor in its
    high byte, is not 0 in the low 24 bits and belongs to no registered
    context; it puts the context in the slot of that handle and changes no
    other slot. Once the caller has stored the handle in the context, the
    table is sound again and [fengnet_handle_grab] finds the context. When every
    slot is taken and the table may still double, registering grows the table and
    deletes every context that was registered: each of them dangles, and grabbing
    a handle that was good before reads freed memory. *)
Theorem register_gives_fresh_handle {W} `{!ContextOps W, !ContextLaws W} s (w : W) ctx :
  table_ok s w → (∀ i, ¬ registered s ctx i) →
  (∀ f, 0 ≤ f < slot_size s → slot s !! Z.to_nat f = Some None →
    f ≠ 0 ∨ handle_index s + slot_size s ≤ HANDLE_MASK + 1 →
    ∃ h s', fengnet_handle_register s w ctx = Ret (h, s', w) ∧
      1 ≤ Z.land h HANDLE_MASK ∧ Z.shiftr h HANDLE_REMOTE_SHIFT = Z.shiftr (harbor s) HANDLE_REMOTE_SHIFT ∧
      (∀ c i, registered s c i → context_handle w c ≠ Ret h) ∧
      (∀ c i, registered s' c i ↔ registered s c i ∨ (c = ctx ∧ i = h mod slot_size s)) ∧
      ∀ w', context_handle w' ctx = Ret h →
        (∀ c, c ≠ ctx → context_handle w' c = context_handle w c) →
        table_ok s' w' ∧ ∃ w'', fengnet_handle_grab s' w' h = Ret (Some ctx, w'')) ∧
  ((∀ i, 0 ≤ i < slot_size s → ∃ c, registered s c i) → slot_size s * 2 - 1 ≤ HANDLE_MASK →
    ∃ h s' w', fengnet_handle_register s w ctx = Ret (h, s', w') ∧ slot_size s' = slot_size s * 2 ∧
      ∀ c i h0, registered s c i → context_handle w c = Ret h0 →
        context_handle w' c = Undef ∧ fengnet_handle_grab s' w' h0 = Undef).
Proof.
  intros Hok Hnew. split.
  - intros f Hf Hfree Hw. by apply register_takes_free_slot with f.
  - intros Hfull Hmask. destruct (register_grows s w ctx Hok Hfull Hmask) as (h & s' & w' & E & Hsz & Hd & Hg).
    exists h, s', w'. split_and!; [done|done|]. eauto.
Qed.

(** The growth of the table frees the services. When every slot is taken
    and the table may still double, [fengnet_handle_register] moves the
    contexts to the new slots and then deletes them all, so afterwards every
    one of them is dangling: grabbing any handle that was valid before reads
    freed memory. *)
Theorem register_growth_dangles {W} `{!ContextOps W, !ContextLaws W} s (w : W) ctx :
  table_ok s w → (∀ i, 0 ≤ i < slot_size s → ∃ c, registered s c i) →
  slot_size s * 2 - 1 ≤ HANDLE_MASK →
  ∃ h s' w', fengnet_handle_register s w ctx = Ret (h, s', w') ∧
    slot_size s' = slot_size s * 2 ∧
    (∀ c i, registered s c i → context_handle w' c = Undef) ∧
    (∀ c i h0, registered s c i → context_handle w c = Ret h0 →
       fengnet_handle_grab s' w' h0 = Undef).
Proof. apply register_grows. Qed.

(** Retiring a handle. For the handle of a registered context
    [fengnet_handle_retire] takes exactly that context out of the table, drops
    exactly its names, keeps the others sorted, and then releases the context;
    with the released state the handle is no longer found. For any other
    handle it returns 0 and changes nothing. *)
Theorem retire_forgets_handle {W} `{!ContextOps W} s (w : W) m h :
  table_ok s w → names_rel s m →
  (∀ c i, registered s c i → context_handle w c = Ret h →
     ∃ s1, fengnet_handle_retire s w h =
         ('(s', w') ← context_release s1 w c; Ret (1, s', w')) ∧
       names_rel s1 (filter (λ p, p.2 ≠ h) m) ∧
       (∀ c' j, registered s1 c' j ↔ registered s c' j ∧ c' ≠ c) ∧
       ∀ w', (∀ c', c' ≠ c → context_handle w' c' = context_handle w c') →
         table_ok s1 w' ∧ fengnet_handle_grab s1 w' h = Ret (None, w')) ∧
  ((∀ c i, registered s c i → context_handle w c ≠ Ret h) →
     fengnet_handle_retire s w h = Ret (0, s, w) ∧ fengnet_handle_grab s w h = Ret (None, w)).
Proof.
  intros Hok Hm. split.
  - intros c i Hr Hh.
    destruct (retire_hit s w m c i h Hok Hm Hr Hh) as (count & names & E & Hm' & Hs' & Hr').
    exists (retired s h count names). split_and!; [done|done|done|].
    intros w' Hw'. assert (Hok' : table_ok (retired s h count names) w').
    { split; [done|]. intros c' j [Hc' Hne]%Hr'. rewrite Hw' by done. by apply (to_live _ _ Hok). }
    split; [done|]. apply grab_miss; [done|]. intros c' j [Hc' Hne]%Hr'. rewrite Hw' by done.
    intros Hh'. destruct (to_live _ _ Hok c' j Hc') as (h1 & Hh1 & <-).
    destruct (to_live _ _ Hok c i Hr) as (h2 & Hh2 & <-).
    assert (h1 = h) as -> by congruence. assert (h2 = h) as -> by congruence.
    destruct Hr as [_ Hr], Hc' as [_ Hc']. congruence.
  - intros Hno. split; [by apply retire_miss|by apply grab_miss].
Qed.

(** C25: the sorted array of names is a finite map. The binary searches of
    [fengnet_handle_findname] and [fengnet_handle_namehandle] end and stay in
    range; looking a name up returns its handle, or 0 when it has none; naming
    a handle is refused exactly when the name is in use, and otherwise adds
    that one name, in its place, growing the array when it is full. *)
Theorem names_refine_map s m nm h : names_rel s m → cstr_ok nm →
  fengnet_handle_findname s nm = Ret (default 0 (m !! nm)) ∧
  (name_count s < MAX_SLOT_SIZE / 2 →
   match m !! nm with
   | Some _ => fengnet_handle_namehandle s h nm = Ret (None, s)
   | None => ∃ s', fengnet_handle_namehandle s h nm = Ret (Some nm, s') ∧
       names_rel s' (<[nm := h]> m) ∧ slot s' = slot s ∧ slot_size s' = slot_size s
   end).
Proof.
  intros Hm Hnm. split; [by apply findname_spec|]. intros Hc.
  pose proof (namehandle_spec s m nm h Hm Hnm Hc) as H. destruct (m !! nm); [done|].
  destruct H as (s' & E & Hm' & cap & count & names & ->). by eexists.
Qed.

(** [fengnet_handle_retireall] ends with an empty table. When releasing a
    context leaves the table and the other contexts alone and every registered
    context has a handle, two passes over the slots are enough, whatever the
    table held. *)
Theorem retireall_empties {W} `{!ContextOps W} s (w : W) m fuel :
  quiet_release (W := W) → table_ok s w → names_rel s m →
  (∀ c i, registered s c i → context_handle w c ≠ Ret 0) →
  (Z.to_nat (slot_size s) + 2 ≤ fuel)%nat →
  ∃ s' w', fengnet_handle_retireall fuel s w = Ret (s', w') ∧
    slot_size s' = slot_size s ∧ ∀ c i, ¬ registered s' c i.
Proof.
  intros Hq Hok Hm Hnz Hfuel. unfold fengnet_handle_retireall.
  assert (Hre : retiring (slot_size s) s w) by (split; eauto).
  destruct fuel as [|[|fuel]]; [lia..|].
  rewrite loop_S.
  destruct (retireall_pass _ s w (S (S fuel)) Hq Hre) as (k & s1 & w1 & -> & Hre1 & He1 & _); [lia|].
  bsimpl. destruct (k =? 0).
  { bsimpl. eexists s1, w1. split; [done|]. split; [apply Hre1|done]. }
  bsimpl. rewrite loop_S.
  destruct (retireall_pass _ s1 w1 (S (S fuel)) Hq Hre1) as (k' & s2 & w2 & -> & Hre2 & He2 & Hk'); [lia|].
  bsimpl. rewrite Hk' by done. bsimpl. exists s2, w2. split; [done|]. split; [apply Hre2|done].
Qed.

(** ** Examples *)

(** Contexts as their handle and reference count. *)
Notation cells := (gmap ctx_loc (Z * Z)).

#[export] Instance cell_ops : ContextOps cells := {
  context_handle := λ w c, match w !! c with Some (h, _) => Ret h | None => Undef end;
  context_grab := λ w c,
    match w !! c with Some (h, r) => Ret (<[c := (h, r + 1)]> w) | None => Undef end;
  context_delete := λ w c, match w !! c with Some _ => Ret (delete c w) | None => Undef end;
  context_release := λ s w c,
    match w !! c with
    | Some (h, r) => Ret (s, if r =? 1 then delete c w else <[c := (h, r - 1)]> w)
    | None => Undef
    end
}.

#[export] Instance cell_laws : ContextLaws cells.
Proof.
  split; cbn; intros w c h Hh; destruct (w !! c) as [[h' r]|] eqn:E; try done; injection Hh as ->;
    eexists; (split; [done|]).
  - intros c'. rewrite lookup_insert. case_decide; [|done]. subst. by rewrite E.
  - rewrite lookup_delete_eq. split; [done|]. intros c' Hne. by rewrite lookup_delete_ne.
Qed.

Lemma cell_quiet : quiet_release (W := cells).
Proof.
  intros s w c h Hh. cbn in *. destruct (w !! c) as [[h' r]|] eqn:E; [|done].
  eexists. split; [done|]. intros c' Hne. destruct (r =? 1).
  - by rewrite lookup_delete_ne.
  - by rewrite lookup_insert_ne.
Qed.

(** Service 1 and 2 on harbor 1; service 2 has two names. *)
Definition example_cells : cells := {[ 1%positive := (0x1000001, 1); 2%positive := (0x1000002, 1) ]}.
Definition example_table : handle_storage :=
  MkStorage 0x1000000 3 4 [None; Some 1%positive; Some 2%positive; None]
    2 2 [MkName (Some [97]) 0x1000002; MkName (Some [98]) 0x1000002].
Definition full_cells : cells :=
  {[ 1%positive := (1, 1); 2%positive := (2, 1); 3%positive := (3, 1); 4%positive := (4, 1) ]}.
Definition full_table : handle_storage :=
  MkStorage 0 5 4 [Some 4%positive; Some 1%positive; Some 2%positive; Some 3%positive] 2 0 (new_names 2).

Lemma registered_cases s c i : table_shape s → registered s c i →
  ∃ k, (k < length (slot s))%nat ∧ i = Z.of_nat k ∧ slot s !! k = Some (Some c).
Proof.
  intros _ [Hi Hc]. exists (Z.to_nat i). split_and!; [by eapply lookup_lt_Some|lia|done].
Qed.

Lemma example_table_ok : table_ok example_table example_cells.
Proof.
  assert (Hs : table_shape example_table).
  { split; [exists 2; split; [lia|done]|done|unfold HANDLE_MASK; cbn; lia|exists 1; split; [lia|done]]. }
  split; [done|]. intros c i (k & Hk & -> & Hc)%registered_cases; [|done].
  do 4 (destruct k as [|k]; [try done; cbn in Hc; injection Hc as <-; eexists; split; vm_compute; done|]).
  cbn in Hk. lia.
Qed.

Lemma full_table_ok : table_ok full_table full_cells.
Proof.
  assert (Hs : table_shape full_table).
  { split; [exists 2; split; [lia|done]|done|unfold HANDLE_MASK; cbn; lia|exists 0; split; [lia|done]]. }
  split; [done|]. intros c i (k & Hk & -> & Hc)%registered_cases; [|done].
  do 4 (destruct k as [|k]; [try done; cbn in Hc; injection Hc as <-; eexists; split; vm_compute; done|]).
  cbn in Hk. lia.
Qed.

Definition example_names : gmap cstring Z := {[ [97] := 0x1000002; [98] := 0x1000002 ]}.

Lemma example_names_rel : names_rel example_table example_names.
Proof.
  exists [([97], 0x1000002); ([98], 0x1000002)]. split; [|by vm_compute].
  split; [|done|done|done|done|repeat constructor; lia|repeat constructor].
  intros k p Hk. do 2 (destruct k as [|k]; [injection Hk as <-; done|]). done.
Qed.

Lemma register_gives_fresh_handle_witness :
  ∃ h s', fengnet_handle_register example_table example_cells 3 = Ret (h, s', example_cells) ∧
    1 ≤ Z.land h HANDLE_MASK.
Proof.
  destruct (register_gives_fresh_handle example_table example_cells 3) as [Hfree _].
  - apply example_table_ok.
  - intros i [Hi Hc]. pose proof (lookup_lt_Some _ _ _ Hc) as Hk. cbn in Hk.
    by destruct (Z.to_nat i) as [|[|[|[|k]]]].
  - destruct (Hfree 3) as (h & s' & E & Hh & _); [by vm_compute|done|left; lia|]. by exists h, s'.
Defined.

Lemma register_growth_dangles_witness :
  ∃ h s' w', fengnet_handle_register full_table full_cells 5 = Ret (h, s', w') ∧
    fengnet_handle_grab s' w' 1 = Undef.
Proof.
  destruct (register_growth_dangles full_table full_cells 5) as (h & s' & w' & E & _ & _ & Hg).
  - apply full_table_ok.
  - intros i Hi. cbn in Hi. unfold registered.
    destruct (decide (i = 0)) as [->|]; [by exists 4%positive|].
    destruct (decide (i = 1)) as [->|]; [by exists 1%positive|].
    destruct (decide (i = 2)) as [->|]; [by exists 2%positive|].
    assert (i = 3) as -> by lia. by exists 3%positive.
  - vm_compute. done.
  - exists h, s', w'. split; [done|]. by apply (Hg 1%positive 1).
Defined.

Lemma retire_forgets_handle_witness :
  ∃ s', fengnet_handle_retire example_table example_cells 0x1000002 =
    Ret (1, s', {[ 1%positive := (0x1000001, 1) ]}).
Proof.
  destruct (retire_forgets_handle example_table example_cells example_names 0x1000002
    example_table_ok example_names_rel) as [Hhit _].
  destruct (Hhit 2%positive 2) as (s1 & E & _); [done|done|].
  exists s1. rewrite E. by vm_compute.
Defined.

Lemma names_refine_map_witness :
  fengnet_handle_findname example_table [98] = Ret 0x1000002 ∧
  ∃ s', fengnet_handle_namehandle example_table 7 [97; 98] = Ret (Some [97; 98], s') ∧
    names_rel s' (<[ [97; 98] := 7 ]> example_names).
Proof.
  assert (O1 : cstr_ok [98]) by (repeat constructor; lia).
  assert (O2 : cstr_ok [97; 98]) by (repeat constructor; lia).
  split.
  - apply (proj1 (names_refine_map example_table example_names [98] 0 example_names_rel O1)).
  - destruct (names_refine_map example_table example_names [97; 98] 7 example_names_rel O2) as [_ H].
    destruct (H ltac:(vm_compute; done)) as (s' & E & Hr & _). by exists s'.
Defined.

Lemma retireall_empties_witness :
  ∃ s' w', fengnet_handle_retireall 6 example_table example_cells = Ret (s', w') ∧
    ∀ c i, ¬ registered s' c i.
Proof.
  destruct (retireall_empties example_table example_cells example_names 6) as (s' & w' & E & _ & H).
  - apply cell_quiet.
  - apply example_table_ok.
  - apply example_names_rel.
  - intros c i (k & Hk & -> & Hc)%registered_cases; [|apply example_table_ok].
    do 4 (destruct k as [|k]; [try done; cbn in Hc; injection Hc as <-; by vm_compute|]).
    cbn in Hk. lia.
  - vm_compute. lia.
  - by exists s', w'.
Defined.
