(* ===== verification/Server.v ===== *)
(** * Contexts and messages of the server

    The model of [fengnet-src/fengnet_server.cpp], of the message functions of
    [fengnet.cpp] ([fengnet_send], [fengnet_sendname], [fengnet_error]), of
    [fengnet_harbor.cpp] and of [fengnet_monitor.cpp]: reference-counted
    contexts, each with its message queue, on top of the handle table and the
    queues. It is what the timer and the handle table see of the server: this
    file gives their interfaces [ContextOps] and [TimerEnv] instances.

    What is not in these files is the class [Outside]: the modules and their
    callbacks (which may use the server themselves, so they map the node to a
    node), the log files, the clock and the memory of message data; the state
    of all that is [env]. *)
From S2P Require Import Prelude MessageQueue Scheduler Handle Timer.

Local Open Scope Z_scope.

(** ** Data *)

Definition PTYPE_TEXT : Z := 0.
Definition PTYPE_SYSTEM : Z := 4.
Definition PTYPE_HARBOR : Z := 5.
Definition PTYPE_ERROR : Z := 7.
Definition PTYPE_TAG_DONTCOPY : Z := 0x10000.
Definition PTYPE_TAG_ALLOCSESSION : Z := 0x20000.
Definition GLOBALNAME_LENGTH : Z := 16.
Definition SIZEOF_REMOTE_MESSAGE : Z := 48.

(** [struct fengnet_context]; the pointers [instance], [mod], [cb], [cb_ud] and
    [logfile] are numbers (0 is [NULL]), [calling] is the lock of a call. *)
Record fengnet_context := MkContext {
  c_instance : Z;
  c_mod : Z;
  c_cb_ud : Z;
  c_cb : Z;
  c_queue : positive;
  c_logfile : Z;
  c_cpu_cost : Z;
  c_cpu_start : Z;
  c_handle : Z;
  c_session_id : Z;
  c_ref : Z;
  c_message_count : Z;
  c_init : bool;
  c_endless : bool;
  c_profile : bool;
  c_calling : bool
}.

Definition set_ref (x : fengnet_context) (v : Z) : fengnet_context :=
  MkContext (c_instance x) (c_mod x) (c_cb_ud x) (c_cb x) (c_queue x) (c_logfile x) (c_cpu_cost x)
    (c_cpu_start x) (c_handle x) (c_session_id x) v (c_message_count x) (c_init x) (c_endless x)
    (c_profile x) (c_calling x).
Definition set_session_id (x : fengnet_context) (v : Z) : fengnet_context :=
  MkContext (c_instance x) (c_mod x) (c_cb_ud x) (c_cb x) (c_queue x) (c_logfile x) (c_cpu_cost x)
    (c_cpu_start x) (c_handle x) v (c_ref x) (c_message_count x) (c_init x) (c_endless x)
    (c_profile x) (c_calling x).
Definition set_identity (x : fengnet_context) (h : Z) (l : positive) : fengnet_context :=
  MkContext (c_instance x) (c_mod x) (c_cb_ud x) (c_cb x) l (c_logfile x) (c_cpu_cost x)
    (c_cpu_start x) h (c_session_id x) (c_ref x) (c_message_count x) (c_init x) (c_endless x)
    (c_profile x) (c_calling x).
Definition set_flags (x : fengnet_context) (init endless : bool) : fengnet_context :=
  MkContext (c_instance x) (c_mod x) (c_cb_ud x) (c_cb x) (c_queue x) (c_logfile x) (c_cpu_cost x)
    (c_cpu_start x) (c_handle x) (c_session_id x) (c_ref x) (c_message_count x) init endless
    (c_profile x) (c_calling x).
Definition set_call (x : fengnet_context) (calling : bool) (count cost start : Z)
    : fengnet_context :=
  MkContext (c_instance x) (c_mod x) (c_cb_ud x) (c_cb x) (c_queue x) (c_logfile x) cost
    start (c_handle x) (c_session_id x) (c_ref x) count (c_init x) (c_endless x)
    (c_profile x) calling.
Definition set_callback (x : fengnet_context) (ud cb : Z) : fengnet_context :=
  MkContext (c_instance x) (c_mod x) ud cb (c_queue x) (c_logfile x) (c_cpu_cost x)
    (c_cpu_start x) (c_handle x) (c_session_id x) (c_ref x) (c_message_count x) (c_init x)
    (c_endless x) (c_profile x) (c_calling x).

(** [struct fengnet_monitor]. *)
Record fengnet_monitor := MkMonitor {
  version : Z;
  check_version : Z;
  m_source : Z;
  m_destination : Z
}.

(** [struct remote_message]: the name of a remote service, or its handle. *)
Record remote_message := MkRemote {
  r_name : list Z;
  r_handle : Z;
  r_message : Z;
  r_sz : Z;
  r_type : Z
}.

(** A line of [fengnet_error]: its format and its numbers. *)
Notation log_line := (string * list Z)%type (only parsing).

(** The server without the handle table: the contexts, the queues, [G_NODE],
    the [logger] of [fengnet_error], [HARBOR] and [REMOTE]. *)
Record world (E : Type) := MkWorld {
  contexts : gmap positive fengnet_context;
  queues : mq_state;
  total : Z;
  profile : bool;
  logger : Z;
  HARBOR : Z;
  REMOTE : option positive;
  env : E
}.
Arguments MkWorld {E} contexts queues total profile logger HARBOR REMOTE env.
Arguments contexts {E} w.
Arguments queues {E} w.
Arguments total {E} w.
Arguments profile {E} w.
Arguments logger {E} w.
Arguments HARBOR {E} w.
Arguments REMOTE {E} w.
Arguments env {E} w.

Notation node E := (handle_storage * world E)%type.

(** What the server calls outside of the modelled files. *)
Class Outside (E : Type) := {
  module_query : E → cstring → Z * E;
  instance_create : node E → Z → outcome (Z * node E);
  instance_init : node E → Z → Z → positive → option cstring → outcome (Z * node E);
  instance_release : node E → Z → Z → outcome (node E);
  run_callback : node E → positive → Z → Z → Z → Z → Z → Z → Z → outcome (Z * node E);
  thread_time : E → Z * E;
  log_output : E → Z → Z → Z → Z → Z → Z → E;
  log_close : E → Z → E;
  data_free : E → Z → E;
  data_copy : E → Z → Z → Z * E;
  data_text : E → log_line → Z * Z * E;
  data_remote : E → remote_message → Z * E
}.

Section world.
Context {E : Type}.
Implicit Types (w : world E).

Definition set_contexts w (m : gmap positive fengnet_context) : world E :=
  MkWorld m (queues w) (total w) (profile w) (logger w) (HARBOR w) (REMOTE w) (env w).
Definition set_queues w (st : mq_state) : world E :=
  MkWorld (contexts w) st (total w) (profile w) (logger w) (HARBOR w) (REMOTE w) (env w).
Definition set_total w (n : Z) : world E :=
  MkWorld (contexts w) (queues w) n (profile w) (logger w) (HARBOR w) (REMOTE w) (env w).
Definition set_profile w (b : bool) : world E :=
  MkWorld (contexts w) (queues w) (total w) b (logger w) (HARBOR w) (REMOTE w) (env w).
Definition set_logger w (h : Z) : world E :=
  MkWorld (contexts w) (queues w) (total w) (profile w) h (HARBOR w) (REMOTE w) (env w).
Definition set_harbor w (h : Z) (r : option positive) : world E :=
  MkWorld (contexts w) (queues w) (total w) (profile w) (logger w) h r (env w).
Definition set_env w (e : E) : world E :=
  MkWorld (contexts w) (queues w) (total w) (profile w) (logger w) (HARBOR w) (REMOTE w) e.

(** A context that has been deleted is gone: following the pointer is undefined. *)
Definition get_context w (c : positive) : outcome fengnet_context :=
  match contexts w !! c with Some x => Ret x | None => Undef end.
Definition put_context w (c : positive) (x : fengnet_context) : world E :=
  set_contexts w (<[c := x]> (contexts w)).

Definition context_inc w : world E := set_total w (total w + 1).
Definition context_dec w : world E := set_total w (total w - 1).
Definition fengnet_context_total w : Z := total w.

Definition fengnet_context_grab w (c : positive) : outcome (world E) :=
  x ← get_context w c; Ret (put_context w c (set_ref x (c_ref x + 1))).

Definition fengnet_context_reserve w (c : positive) : outcome (world E) :=
  w' ← fengnet_context_grab w c; Ret (context_dec w').

Definition fengnet_context_handle w (c : positive) : outcome Z :=
  x ← get_context w c; Ret (c_handle x).

(** [session_id] is an [int]: its increment overflows at [INT_MAX]. *)
Definition fengnet_context_newsession w (c : positive) : outcome (Z * world E) :=
  x ← get_context w c;
  session ← cint (c_session_id x + 1);
  if session <=? 0 then Ret (1, put_context w c (set_session_id x 1))
  else Ret (session, put_context w c (set_session_id x session)).

Definition message_size (type sz : Z) : Z := Z.lor sz (u64 (Z.shiftl type MESSAGE_TYPE_SHIFT)).

(** [fengnet_context_send]. *)
Definition fengnet_context_send w (c : positive) (msg sz source type session : Z)
    : outcome (world E) :=
  x ← get_context w c;
  st ← fengnet_mq_push (queues w) (c_queue x) (MkMsg source session msg (message_size type sz));
  Ret (set_queues w st).

Definition fengnet_callback w (c : positive) (ud cb : Z) : outcome (world E) :=
  x ← get_context w c; Ret (put_context w c (set_callback x ud cb)).

Definition fengnet_profile_enable w (enable : Z) : world E := set_profile w (negb (enable =? 0)).
Definition fengnet_globalinit w : world E := set_total w 0.
End world.

(** ** The monitor of a worker *)

Definition fengnet_monitor_new : fengnet_monitor := MkMonitor 0 0 0 0.

(** [version] is an [atomic<int>], which wraps. *)
Definition fengnet_monitor_trigger (sm : fengnet_monitor) (source destination : Z)
    : fengnet_monitor :=
  MkMonitor (i32 (version sm + 1)) (check_version sm) source destination.

Section server.
Context {E : Type} `{!Outside E}.
Implicit Types (w : world E) (n : node E) (c : positive).

Definition on_world n (w : world E) : node E := (fst n, w).

(** ** Reference counting *)

Definition delete_context n c : outcome (node E) :=
  x ← get_context n.2 c;
  let f := c_logfile x in
  let w1 := if negb (f =? 0) then set_env n.2 (log_close (env n.2) f) else n.2 in
  n2 ← instance_release (on_world n w1) (c_mod x) (c_instance x);
  x2 ← get_context n2.2 c;
  st ← fengnet_mq_mark_release (queues n2.2) (c_queue x2);
  let w3 := set_queues n2.2 st in
  Ret (on_world n2 (context_dec (set_contexts w3 (delete c (contexts w3))))).

(** [ref.fetch_sub(1) == 1]: the reference is given up in any case. *)
Definition fengnet_context_release n c : outcome (option positive * node E) :=
  x ← get_context n.2 c;
  let n' := on_world n (put_context n.2 c (set_ref x (c_ref x - 1))) in
  if c_ref x =? 1 then n2 ← delete_context n' c; Ret (None, n2)
  else Ret (Some c, n').

(** What the handle table does with contexts. *)
#[export] Instance server_contexts : ContextOps (world E) := {
  context_handle := fengnet_context_handle;
  context_grab := fengnet_context_grab;
  context_delete := λ w c, _ ← get_context w c; Ret (set_contexts w (delete c (contexts w)));
  context_release := λ s w c, '(_, n') ← fengnet_context_release (s, w) c; Ret n'
}.

Definition handle_grab n (handle : Z) : outcome (option positive * node E) :=
  '(o, w) ← fengnet_handle_grab (fst n) (snd n) handle; Ret (o, on_world n w).

Definition fengnet_context_endless n (handle : Z) : outcome (node E) :=
  '(o, n1) ← handle_grab n handle;
  match o with
  | None => Ret n1
  | Some c =>
      x ← get_context n1.2 c;
      '(_, n2) ← fengnet_context_release
                   (on_world n1 (put_context n1.2 c (set_flags x (c_init x) true))) c;
      Ret n2
  end.

Definition fengnet_context_push n (handle : Z) (message : fengnet_message)
    : outcome (Z * node E) :=
  '(o, n1) ← handle_grab n handle;
  match o with
  | None => Ret (-1, n1)
  | Some c =>
      x ← get_context n1.2 c;
      st ← fengnet_mq_push (queues n1.2) (c_queue x) message;
      '(_, n2) ← fengnet_context_release (on_world n1 (set_queues n1.2 st)) c;
      Ret (0, n2)
  end.

(** What the timer sees of the server. *)
Definition logger_name : cstring := [108; 111; 103; 103; 101; 114].

(** [fengnet_error]; the handle of the logger is looked up once. *)
Definition fengnet_error n (context : option positive) (line : log_line) : outcome (node E) :=
  l ← (if logger n.2 =? 0 then fengnet_handle_findname (fst n) logger_name else Ret (logger n.2));
  let n := on_world n (set_logger n.2 l) in
  if l =? 0 then Ret n
  else
    let '(data, len, e) := data_text (env n.2) line in
    let n := on_world n (set_env n.2 e) in
    source ← match context with
             | None => Ret 0
             | Some c => fengnet_context_handle n.2 c
             end;
    '(_, n') ← fengnet_context_push n l (MkMsg source 0 data (message_size PTYPE_TEXT len));
    Ret n'.

#[export] Instance server_timer : TimerEnv (node E) := {
  context_push := fengnet_context_push;
  clock_error := λ n cp old,
    fengnet_error n None ("time diff error: change from %lld to %lld"%string, [cp; old])
}.

(** ** Other nodes *)

Definition invalid_type (type : Z) : bool :=
  negb (type =? PTYPE_SYSTEM) && negb (type =? PTYPE_HARBOR).

Definition fengnet_harbor_init w (harbor : Z) : world E :=
  set_harbor w (u32 (Z.shiftl (u32 harbor) HANDLE_REMOTE_SHIFT)) (REMOTE w).

Definition fengnet_harbor_start w c : outcome (world E) :=
  w' ← fengnet_context_reserve w c; Ret (set_harbor w' (HARBOR w') (Some c)).

Definition fengnet_harbor_exit n : outcome (node E) :=
  let n1 := on_world n (set_harbor n.2 (HARBOR n.2) None) in
  match REMOTE n.2 with
  | Some c => '(_, n2) ← fengnet_context_release n1 c; Ret n2
  | None => Ret n1
  end.

(** [~HANDLE_MASK] of 32 bits. *)
Definition fengnet_harbor_message_isremote w (handle : Z) : outcome bool :=
  _ ← assert_true (negb (HARBOR w =? 2 ^ 32 - 1));
  let h := Z.land handle (Z.lxor (2 ^ 32 - 1) HANDLE_MASK) in
  Ret (negb (h =? HARBOR w) && negb (h =? 0)).

Definition fengnet_isremote w (handle : Z) : outcome (bool * Z) :=
  r ← fengnet_harbor_message_isremote w handle;
  Ret (r, Z.shiftr handle HANDLE_REMOTE_SHIFT).

Definition fengnet_harbor_send w (rmsg : remote_message) (source session : Z)
    : outcome (world E) :=
  _ ← assert_true (invalid_type (r_type rmsg));
  match REMOTE w with
  | None => AssertFail
  | Some c =>
      let '(p, e) := data_remote (env w) rmsg in
      fengnet_context_send (set_env w e) c p SIZEOF_REMOTE_MESSAGE source PTYPE_SYSTEM session
  end.

(** ** Sending *)

Definition has_tag (type tag : Z) : bool := negb (Z.land type tag =? 0).

(** [_filter_args]: the session, the data, the size with the type in its top
    byte. [context] is [NULL] when the sender is no service. *)
Definition _filter_args w (context : option positive) (type session data sz : Z)
    : outcome (Z * Z * Z * world E) :=
  '(session, w) ←
    (if has_tag type PTYPE_TAG_ALLOCSESSION then
       _ ← assert_true (session =? 0);
       match context with
       | None => Undef
       | Some c => fengnet_context_newsession w c
       end
     else Ret (session, w));
  let '(data, e) := if negb (has_tag type PTYPE_TAG_DONTCOPY) && negb (data =? 0)
                    then data_copy (env w) data sz else (data, env w) in
  Ret (session, data, message_size (Z.land type 0xff) sz, set_env w e).

Definition free_tagged w (type data : Z) : world E :=
  if has_tag type PTYPE_TAG_DONTCOPY then set_env w (data_free (env w) data) else w.

(** The handle of the sender. *)
Definition source_of w (context : option positive) (source : Z) : outcome Z :=
  if source =? 0 then
    match context with None => Undef | Some c => fengnet_context_handle w c end
  else Ret source.

Definition fengnet_send n (context : option positive) (source destination type session data sz : Z)
    : outcome (Z * node E) :=
  if negb (Z.land sz MESSAGE_TYPE_MASK =? sz) then
    n1 ← fengnet_error n context ("The message to %x is too large"%string, [destination]);
    Ret (-2, on_world n1 (free_tagged n1.2 type data))
  else
    '(session, data, sz, w) ← _filter_args n.2 context type session data sz;
    source ← source_of w context source;
    if destination =? 0 then
      if negb (data =? 0) then
        n1 ← fengnet_error (on_world n w) context ("Destination address can't be 0"%string, []);
        Ret (-1, on_world n1 (set_env n1.2 (data_free (env n1.2) data)))
      else Ret (session, on_world n w)
    else
      remote ← fengnet_harbor_message_isremote w destination;
      if (remote : bool) then
        let rmsg := MkRemote (replicate (Z.to_nat GLOBALNAME_LENGTH) 0) destination data
                      (Z.land sz MESSAGE_TYPE_MASK) (i32 (Z.shiftr sz MESSAGE_TYPE_SHIFT)) in
        w' ← fengnet_harbor_send w rmsg source session;
        Ret (session, on_world n w')
      else
        '(r, n1) ← fengnet_context_push (on_world n w) destination (MkMsg source session data sz);
        if negb (r =? 0) then Ret (-1, on_world n1 (set_env n1.2 (data_free (env n1.2) data)))
        else Ret (session, n1).

(** [copy_name] into the 16 bytes of a global name. *)
Definition copy_name (addr : cstring) : list Z :=
  let name := take (Z.to_nat GLOBALNAME_LENGTH) addr in
  name ++ replicate (Z.to_nat GLOBALNAME_LENGTH - length name) 0.

Definition fengnet_queryname (strtoul16 : cstring → Z) n (context : option positive)
    (name : cstring) : outcome (Z * node E) :=
  match name with
  | 58 :: hex => Ret (u32 (strtoul16 hex), n)
  | 46 :: nm => h ← fengnet_handle_findname (fst n) nm; Ret (h, n)
  | _ =>
      n' ← fengnet_error n context ("Don't support query global name %s"%string, name);
      Ret (0, n')
  end.

(** [fengnet_sendname]; [strtoul16] is [strtoul(_, NULL, 16)]. *)
Definition fengnet_sendname (strtoul16 : cstring → Z) n (context : option positive) (source : Z)
    (addr : cstring) (type session data sz : Z) : outcome (Z * node E) :=
  source ← source_of n.2 context source;
  match addr with
  | 58 :: hex => fengnet_send n context source (u32 (strtoul16 hex)) type session data sz
  | 46 :: name =>
      des ← fengnet_handle_findname (fst n) name;
      if des =? 0 then Ret (-1, on_world n (free_tagged n.2 type data))
      else fengnet_send n context source des type session data sz
  | _ =>
      if negb (Z.land sz MESSAGE_TYPE_MASK =? sz) then
        n1 ← fengnet_error n context ("The message to %s is too large"%string, addr);
        Ret (-2, on_world n1 (free_tagged n1.2 type data))
      else
        '(session, data, sz, w) ← _filter_args n.2 context type session data sz;
        let rmsg := MkRemote (copy_name addr) 0 data
                      (Z.land sz MESSAGE_TYPE_MASK) (i32 (Z.shiftr sz MESSAGE_TYPE_SHIFT)) in
        w' ← fengnet_harbor_send w rmsg source session;
        Ret (session, on_world n w')
  end.

(** ** Dispatching *)

(** [drop_message]: the data is freed and the sender gets an error. *)
Definition drop_message n (handle : Z) (msg : fengnet_message) : outcome (node E) :=
  let n1 := on_world n (set_env n.2 (data_free (env n.2) (data msg))) in
  _ ← assert_true (negb (handle =? 0));
  '(_, n2) ← fengnet_send n1 None handle (source msg) PTYPE_ERROR 0 0 0;
  Ret n2.

(** [fengnet_mq_release] with [drop_message], which works on the whole node. *)
Definition drop_turn (l : positive) (handle : Z) n : outcome (node E + node E) :=
  '(m, st) ← fengnet_mq_pop (queues n.2) l;
  let n1 := on_world n (set_queues n.2 st) in
  match m with
  | Some msg => n2 ← drop_message n1 handle msg; Ret (inl n2)
  | None => Ret (inr n1)
  end.

Definition release_queue (fuel : nat) n (l : positive) (handle : Z) : outcome (node E) :=
  q ← load (queues n.2) l;
  if negb (release q =? 0) then
    n1 ← loop fuel (drop_turn l handle) n;
    st ← _release (queues n1.2) l;
    Ret (on_world n1 (set_queues n1.2 st))
  else
    st ← fengnet_globalmq_push (queues n.2) l;
    Ret (on_world n (set_queues n.2 st)).

(** [CHECKCALLING_BEGIN] and [CHECKCALLING_END]. *)
Definition begin_call (x : fengnet_context) : outcome fengnet_context :=
  _ ← assert_true (negb (c_calling x));
  Ret (set_call x true (c_message_count x) (c_cpu_cost x) (c_cpu_start x)).
Definition end_call (x : fengnet_context) : fengnet_context :=
  set_call x false (c_message_count x) (c_cpu_cost x) (c_cpu_start x).

Definition message_type (msg : fengnet_message) : Z := i32 (Z.shiftr (sz msg) MESSAGE_TYPE_SHIFT).
Definition message_len (msg : fengnet_message) : Z := Z.land (sz msg) MESSAGE_TYPE_MASK.

Definition dispatch_message n c (msg : fengnet_message) : outcome (node E) :=
  x ← get_context n.2 c;
  _ ← assert_true (c_init x);
  x ← begin_call x;
  let type := message_type msg in
  let len := message_len msg in
  let e1 := if negb (c_logfile x =? 0)
            then log_output (env n.2) (c_logfile x) (source msg) type (session msg) (data msg) len
            else env n.2 in
  count ← cint (c_message_count x + 1);
  let '(start, e2) := if c_profile x then thread_time e1 else (c_cpu_start x, e1) in
  let x := set_call x true count (c_cpu_cost x) start in
  '(reserve_msg, n2) ← run_callback (on_world n (set_env (put_context n.2 c x) e2)) c (c_cb x)
                         (c_cb_ud x) type (session msg) (source msg) (data msg) len;
  x2 ← get_context n2.2 c;
  let '(cost, e3) :=
    if c_profile x then
      let '(now, e) := thread_time (env n2.2) in
      (u64 (c_cpu_cost x2 + u64 (now - c_cpu_start x2)), e)
    else (c_cpu_cost x2, env n2.2) in
  let e4 := if reserve_msg =? 0 then data_free e3 (data msg) else e3 in
  let x3 := end_call (set_call x2 (c_calling x2) (c_message_count x2) cost (c_cpu_start x2)) in
  Ret (on_world n2 (set_env (put_context n2.2 c x3) e4)).

(** The next queue for a worker. *)
Definition globalmq_pop n : outcome (option positive * node E) :=
  '(o, st) ← fengnet_globalmq_pop (queues n.2); Ret (o, on_world n (set_queues n.2 st)).

(** One turn of [for (i=0;i<n;i++)]: [None] in the result means that the queue
    was empty. *)
Definition dispatch_step (l : positive) (handle : Z) c (weight : Z)
    (s : Z * Z * fengnet_monitor * node E)
    : outcome ((Z * Z * fengnet_monitor * node E) + (bool * fengnet_monitor * node E)) :=
  let '(i, num, sm, n) := s in
  if i <? num then
    '(m, st) ← fengnet_mq_pop (queues n.2) l;
    let n := on_world n (set_queues n.2 st) in
    match m with
    | None => Ret (inr (false, sm, n))
    | Some msg =>
        num ← (if (i =? 0) && (0 <=? weight)
               then len ← fengnet_mq_length (queues n.2) l; Ret (Z.shiftr len weight)
               else Ret num);
        '(overload, st) ← fengnet_mq_overload (queues n.2) l;
        let n := on_world n (set_queues n.2 st) in
        n ← (if negb (overload =? 0)
             then fengnet_error n (Some c)
                    ("May overload, message queue length = %d"%string, [overload])
             else Ret n);
        let sm := fengnet_monitor_trigger sm (source msg) handle in
        x ← get_context n.2 c;
        n ← (if c_cb x =? 0 then Ret (on_world n (set_env n.2 (data_free (env n.2) (data msg))))
             else dispatch_message n c msg);
        x ← get_context n.2 c;
        _ ← assert_true (handle =? c_handle x);
        let sm := fengnet_monitor_trigger sm 0 0 in
        i' ← cint (i + 1);
        Ret (inl (i', num, sm, n))
    end
  else Ret (inr (true, sm, n)).

(** [fuel] bounds the messages of one call. *)
Definition fengnet_context_message_dispatch (fuel : nat) n (sm : fengnet_monitor)
    (q : option positive) (weight : Z) : outcome (option positive * fengnet_monitor * node E) :=
  '(q, n) ← match q with None => globalmq_pop n | Some l => Ret (Some l, n) end;
  match q with
  | None => Ret (None, sm, n)
  | Some l =>
      handle ← fengnet_mq_handle (queues n.2) l;
      '(o, n) ← handle_grab n handle;
      match o with
      | None =>
          n ← release_queue fuel n l handle;
          '(q, n) ← globalmq_pop n;
          Ret (q, sm, n)
      | Some c =>
          '(full, sm, n) ← loop fuel (dispatch_step l handle c weight) (0, 1, sm, n);
          if (full : bool) then
            x ← get_context n.2 c;
            _ ← assert_true (bool_decide (l = c_queue x));
            '(nq, n) ← globalmq_pop n;
            '(q, n) ← match nq with
                      | Some l' =>
                          st ← fengnet_globalmq_push (queues n.2) l;
                          Ret (l', on_world n (set_queues n.2 st))
                      | None => Ret (l, n)
                      end;
            '(_, n) ← fengnet_context_release n c;
            Ret (Some q, sm, n)
          else
            '(_, n) ← fengnet_context_release n c;
            '(q, n) ← globalmq_pop n;
            Ret (q, sm, n)
      end
  end.

Definition dispatchall_turn c (l : positive) n : outcome (node E + node E) :=
  '(m, st) ← fengnet_mq_pop (queues n.2) l;
  let n := on_world n (set_queues n.2 st) in
  match m with
  | Some msg => n' ← dispatch_message n c msg; Ret (inl n')
  | None => Ret (inr n)
  end.

Definition fengnet_context_dispatchall (fuel : nat) n c : outcome (node E) :=
  x ← get_context n.2 c;
  loop fuel (dispatchall_turn c (c_queue x)) n.

(** Checked by the monitor thread every five seconds. *)
Definition fengnet_monitor_check n (sm : fengnet_monitor) : outcome (fengnet_monitor * node E) :=
  if version sm =? check_version sm then
    if negb (m_destination sm =? 0) then
      n1 ← fengnet_context_endless n (m_destination sm);
      n2 ← fengnet_error n1 None
             ("A message from [ :%08x ] to [ :%08x ] maybe in an endless loop (version = %d)"%string,
              [m_source sm; m_destination sm; version sm]);
      Ret (sm, n2)
    else Ret (sm, n)
  else Ret (MkMonitor (version sm) (version sm) (m_source sm) (m_destination sm), n).

(** ** New services *)

(** The context of a new service has two references: of the handle table and
    of [fengnet_context_new] itself; [queue] is not set before the queue
    exists. *)
Definition new_context (prof : bool) (mod_ inst : Z) : fengnet_context :=
  MkContext inst mod_ 0 0 1%positive 0 0 0 0 0 2 0 false false prof false.

Definition fengnet_context_new (fuel : nat) n (name : cstring) (param : option cstring)
    : outcome (option positive * node E) :=
  let '(mod_, e) := module_query (env n.2) name in
  let n := on_world n (set_env n.2 e) in
  if mod_ =? 0 then Ret (None, n)
  else
    '(inst, n) ← instance_create n mod_;
    if inst =? 0 then Ret (None, n)
    else
      let c := fresh (dom (contexts n.2)) in
      let n := on_world n (put_context n.2 c (new_context (profile n.2) mod_ inst)) in
      '(handle, s, w) ← fengnet_handle_register (fst n) (snd n) c;
      x ← get_context w c;
      let '(l, st) := fengnet_mq_create (queues w) handle in
      x' ← begin_call (set_identity x handle l);
      let w := context_inc (set_queues (put_context w c x') st) in
      '(r, n) ← instance_init (s, w) mod_ inst c param;
      x ← get_context n.2 c;
      let n := on_world n (put_context n.2 c (end_call x)) in
      if r =? 0 then
        '(ret, n) ← fengnet_context_release n c;
        n ← match ret with
            | Some _ =>
                x ← get_context n.2 c;
                Ret (on_world n (put_context n.2 c (set_flags x true (c_endless x))))
            | None => Ret n
            end;
        st ← fengnet_globalmq_push (queues n.2) l;
        let n := on_world n (set_queues n.2 st) in
        n ← match ret with
            | Some _ => fengnet_error n (Some c) ("LAUNCH %s %s"%string, name ++ 32 :: default [] param)
            | None => Ret n
            end;
        Ret (ret, n)
      else
        n ← fengnet_error n (Some c) ("FAILED launch %s"%string, name);
        x ← get_context n.2 c;
        let handle := c_handle x in
        '(_, n) ← fengnet_context_release n c;
        '(_, s, w) ← fengnet_handle_retire (fst n) (snd n) handle;
        n ← release_queue fuel (s, w) l handle;
        Ret (None, n).
End server.

(** ** The state of the server *)

Section proper.
Context {E : Type} `{!Outside E}.
Implicit Types (w : world E) (n : node E) (c : positive).

(** The handle table and the contexts agree; the queues keep the invariant of
    the scheduler, with the queues [hd] in the hands of threads and [l] in the
    global queue; every context is referenced and has a live queue. *)
Record server_ok n (hd : gset positive) (l : list positive) : Prop := {
  so_table : table_ok (fst n) (snd n);
  so_sched : sched_inv (MkSched (queues n.2) hd) l;
  so_context c x : contexts n.2 !! c = Some x →
    1 ≤ c_ref x ∧ ∃ q, heap (queues n.2) !! c_queue x = Some q ∧ release q = 0
}.

#[export] Instance server_laws : ContextLaws (world E).
Proof.
  split; cbn; unfold fengnet_context_handle, fengnet_context_grab, get_context; intros w c h Hh;
    destruct (contexts w !! c) as [x|] eqn:Hx; try done; injection Hh as <-; cbn;
    eexists; (split; [done|]); cbn.
  - intros c'. rewrite lookup_insert. case_decide; [|done]. subst. by rewrite Hx.
  - rewrite lookup_delete_eq. split; [done|]. intros c' Hne. by rewrite lookup_delete_ne.
Qed.

(** The table looks at the handles of the contexts only. *)
Lemma table_ok_handles s w w' :
  table_ok s w → (∀ c, context_handle w' c = context_handle w c) → table_ok s w'.
Proof.
  intros [Hs Hl] Hh. split; [done|]. intros c i Hr. rewrite Hh. by apply Hl.
Qed.

Lemma put_handles w c x x' :
  contexts w !! c = Some x → c_handle x' = c_handle x →
  ∀ c', context_handle (put_context w c x') c' = context_handle w c'.
Proof.
  intros Hx Hh c'. cbn. unfold fengnet_context_handle, get_context. cbn.
  rewrite lookup_insert. case_decide; [|done]. subst. rewrite Hx. cbn. by rewrite Hh.
Qed.

Lemma put_context_id w c x : contexts w !! c = Some x → put_context w c x = w.
Proof. intros Hx. unfold put_context, set_contexts. rewrite insert_id by done. by destruct w. Qed.

Lemma put_put_context w c x x' : put_context (put_context w c x) c x' = put_context w c x'.
Proof. unfold put_context, set_contexts. cbn. by rewrite insert_insert_eq. Qed.

(** A context that changes in nothing the others look at. *)
Lemma server_ok_put n hd l c x x' :
  server_ok n hd l → contexts n.2 !! c = Some x → c_handle x' = c_handle x →
  c_queue x' = c_queue x → 1 ≤ c_ref x' → server_ok (on_world n (put_context n.2 c x')) hd l.
Proof.
  intros [Ht Hs Hc] Hx Hh Hq Hr. split; cbn.
  - eapply table_ok_handles; [done|]. exact (put_handles n.2 c x x' Hx Hh).
  - done.
  - intros c' y [[<- <-]|[_ Hy]]%lookup_insert_Some; [|exact (Hc c' y Hy)].
    split; [done|]. rewrite Hq. exact (proj2 (Hc c x Hx)).
Qed.

Lemma server_ok_env n hd l e :
  server_ok n hd l → server_ok (on_world n (set_env n.2 e)) hd l.
Proof. intros [Ht Hs Hc]. split; cbn; [by eapply table_ok_handles|done|done]. Qed.

Lemma handle_grab_hit n hd l c x i :
  server_ok n hd l → registered (fst n) c i → contexts n.2 !! c = Some x →
  handle_grab n (c_handle x) =
    Ret (Some c, on_world n (put_context n.2 c (set_ref x (c_ref x + 1)))).
Proof.
  intros [Ht _ _] Hr Hx. unfold handle_grab, fengnet_handle_grab.
  destruct (slot_at (fst n) (c_handle x) (to_shape _ _ Ht)) as (y & -> & Hy). bsimpl.
  assert (Hh : context_handle n.2 c = Ret (c_handle x)).
  { cbn. unfold fengnet_context_handle, get_context. by rewrite Hx. }
  destruct (to_live _ _ Ht c i Hr) as (h & Hh' & Hi). rewrite Hh in Hh'. injection Hh' as <-.
  destruct Hr as [Hi0 Hr]. rewrite Hi, Hr in Hy. injection Hy as <-.
  rewrite Hh. bsimpl. rewrite Z.eqb_refl. cbn. unfold fengnet_context_grab, get_context.
  by rewrite Hx.
Qed.

Lemma handle_grab_miss n hd l h :
  server_ok n hd l →
  (∀ c i x, registered (fst n) c i → contexts n.2 !! c = Some x → c_handle x ≠ h) →
  handle_grab n h = Ret (None, n).
Proof.
  intros [Ht _ _] Hno. unfold handle_grab. rewrite (grab_miss (fst n) n.2 h Ht).
  - bsimpl. by destruct n.
  - intros c i Hr Hh. cbn in Hh. unfold fengnet_context_handle, get_context in Hh.
    destruct (contexts n.2 !! c) as [x|] eqn:Hx; [|done]. injection Hh as Hh.
    by apply (Hno c i x Hr Hx).
Qed.

(** Giving up a reference that is not the last. *)
Lemma release_not_last n c x :
  contexts n.2 !! c = Some x → c_ref x ≠ 1 →
  fengnet_context_release n c =
    Ret (Some c, on_world n (put_context n.2 c (set_ref x (c_ref x - 1)))).
Proof.
  intros Hx Hr. unfold fengnet_context_release, get_context. rewrite Hx. bsimpl.
  by rewrite (proj2 (Z.eqb_neq _ _)).
Qed.

Lemma on_world_id n : on_world n n.2 = n.
Proof. by destruct n. Qed.

Lemma context_push_spec n hd l c x i q m :
  server_ok n hd l → registered (fst n) c i → contexts n.2 !! c = Some x →
  heap (queues n.2) !! c_queue x = Some q → ring_room q →
  ∃ st' l', fengnet_context_push n (c_handle x) m = Ret (0, on_world n (set_queues n.2 st')) ∧
    contents <$> heap st' = <[c_queue x := contents q ++ [m]]> (contents <$> heap (queues n.2)) ∧
    server_ok (on_world n (set_queues n.2 st')) hd l'.
Proof.
  intros Hn Hr Hx Hq Hroom. unfold fengnet_context_push.
  rewrite (handle_grab_hit n hd l c x i Hn Hr Hx). bsimpl. cbn [on_world snd].
  unfold get_context. cbn [contexts put_context set_contexts queues]. rewrite lookup_insert_eq. bsimpl.
  cbn [c_queue set_ref]. destruct (so_context _ _ _ Hn c x Hx) as (Href & q0 & Hq0 & Hrel).
  assert (q0 = q) as -> by congruence.
  destruct (mq_push_spec _ _ _ _ q m (so_sched _ _ _ Hn) Hq Hrel Hroom) as (st' & Hp & Hc & _ & Hsame).
  destruct (mq_push_inv _ _ _ _ q m st' (so_sched _ _ _ Hn) Hq Hrel Hp) as (l' & Hinv' & _).
  rewrite Hp. bsimpl.
  rewrite (release_not_last _ c (set_ref x (c_ref x + 1)))
    by (cbn; rewrite ?lookup_insert_eq; done || lia).
  bsimpl. exists st', l'. split_and!.
  - do 2 f_equal. unfold on_world. cbn [fst snd]. f_equal.
    unfold set_queues, put_context, set_contexts. cbn. f_equal.
    rewrite insert_insert_eq. replace (c_ref x + 1 - 1) with (c_ref x) by lia.
    rewrite insert_id; [done|]. rewrite Hx. by destruct x.
  - done.
  - split; cbn.
    + eapply table_ok_handles; [apply (so_table _ _ _ Hn)|done].
    + done.
    + intros c' y Hy. destruct (so_context _ _ _ Hn c' y Hy) as (? & p & Hp' & Hrel').
      split; [done|]. destruct (Hsame _ _ Hp') as (p' & ? & ? & _). exists p'. split; [done|congruence].
Qed.

(** *** Sending *)

(** A destination of the own node. *)
Definition is_local w (destination : Z) : Prop :=
  HARBOR w ≠ 2 ^ 32 - 1 ∧
  (Z.land destination (Z.lxor (2 ^ 32 - 1) HANDLE_MASK) = HARBOR w ∨
   Z.land destination (Z.lxor (2 ^ 32 - 1) HANDLE_MASK) = 0).

Lemma isremote_local w destination :
  is_local w destination → fengnet_harbor_message_isremote w destination = Ret false.
Proof.
  intros [Hh Hd]. unfold fengnet_harbor_message_isremote.
  rewrite (proj2 (Z.eqb_neq (HARBOR w) _)) by done. cbn [negb assert_true]. bsimpl. f_equal.
  destruct Hd as [-> | ->]; [by rewrite Z.eqb_refl|]. by rewrite andb_false_r.
Qed.

(** The session, data and source that a message of [fengnet_send] carries. *)
Definition sent_session (x0 : fengnet_context) (type session : Z) : Z :=
  if has_tag type PTYPE_TAG_ALLOCSESSION then c_session_id x0 + 1 else session.
Definition sent_data w (type data sz : Z) : Z * E :=
  if negb (has_tag type PTYPE_TAG_DONTCOPY) && negb (data =? 0)
  then data_copy (env w) data sz else (data, env w).
Definition sent_source (x0 : fengnet_context) (source : Z) : Z :=
  if source =? 0 then c_handle x0 else source.

(** The size with the low byte of the type in the top byte. *)
Definition sent_size (type sz : Z) : Z := sz + type mod 256 * 2 ^ 56.

Lemma message_size_eq type sz :
  0 ≤ sz ≤ MESSAGE_TYPE_MASK → message_size (Z.land type 0xff) sz = sent_size type sz.
Proof.
  intros Hsz. unfold message_size, sent_size. change 0xff with (2 ^ 8 - 1).
  rewrite land_mask by lia. change (2 ^ 8) with 256. change MESSAGE_TYPE_SHIFT with 56.
  change MESSAGE_TYPE_MASK with (2 ^ 56 - 1) in Hsz. pose proof (Z.mod_pos_bound type 256).
  unfold u64. rewrite Z.shiftl_mul_pow2 by lia. rewrite Z.mod_small by lia.
  rewrite <-Z.shiftl_mul_pow2 by lia. rewrite lor_shiftl by lia. by rewrite Z.shiftl_mul_pow2 by lia.
Qed.

Definition session_ok (x0 : fengnet_context) (type session : Z) : Prop :=
  has_tag type PTYPE_TAG_ALLOCSESSION = true → session = 0 ∧ 0 ≤ c_session_id x0 < INT_MAX.

(** The sender after its message: it may have used a session. *)
Definition sender_after (x0 : fengnet_context) (type : Z) : fengnet_context :=
  if has_tag type PTYPE_TAG_ALLOCSESSION then set_session_id x0 (c_session_id x0 + 1) else x0.

Lemma filter_args_spec w c0 x0 type session data sz :
  contexts w !! c0 = Some x0 → 0 ≤ sz ≤ MESSAGE_TYPE_MASK → session_ok x0 type session →
  _filter_args w (Some c0) type session data sz =
  Ret (sent_session x0 type session, (sent_data w type data sz).1, sent_size type sz,
       set_env (put_context w c0 (sender_after x0 type)) (sent_data w type data sz).2).
Proof.
  intros Hx0 Hsz Hs. unfold _filter_args, sent_session, sent_data, sender_after.
  rewrite message_size_eq by done.
  destruct (has_tag type PTYPE_TAG_ALLOCSESSION) eqn:Ha.
  - destruct (Hs Ha) as [-> Hid]. cbn [Z.eqb assert_true]. bsimpl.
    unfold fengnet_context_newsession, get_context. rewrite Hx0. bsimpl. unfold INT_MAX in Hid.
    rewrite cint_in by (unfold INT_MIN, INT_MAX; lia). bsimpl.
    rewrite (proj2 (Z.leb_gt _ _)) by lia. bsimpl. cbn [env put_context set_contexts].
    by destruct (_ && _); [destruct (data_copy _ _ _)|].
  - bsimpl. rewrite (put_context_id w c0 x0 Hx0).
    by destruct (_ && _); [destruct (data_copy _ _ _)|].
Qed.

Lemma sender_after_same x0 type :
  c_handle (sender_after x0 type) = c_handle x0 ∧ c_queue (sender_after x0 type) = c_queue x0 ∧
  c_ref (sender_after x0 type) = c_ref x0.
Proof. unfold sender_after. by destruct (has_tag _ _). Qed.

(** The server after the arguments of a message have been dealt with. *)
Definition sending w c0 x0 (type data sz : Z) : world E :=
  set_env (put_context w c0 (sender_after x0 type)) (sent_data w type data sz).2.

Lemma sending_ok n hd l c0 x0 type data sz :
  server_ok n hd l → contexts n.2 !! c0 = Some x0 →
  server_ok (on_world n (sending n.2 c0 x0 type data sz)) hd l.
Proof.
  intros Hn Hx0. destruct (sender_after_same x0 type) as (Hh & Hq & Hr).
  apply (server_ok_env (on_world n (put_context n.2 c0 (sender_after x0 type)))).
  apply (server_ok_put n hd l c0 x0); try done. rewrite Hr. apply (so_context _ _ _ Hn c0 x0 Hx0).
Qed.

Lemma sending_context w c0 x0 type data sz c x :
  contexts w !! c0 = Some x0 → contexts w !! c = Some x →
  ∃ x1, contexts (sending w c0 x0 type data sz) !! c = Some x1 ∧
    c_handle x1 = c_handle x ∧ c_queue x1 = c_queue x.
Proof.
  intros Hx0 Hx. destruct (sender_after_same x0 type) as (Hh & Hq & _). cbn.
  destruct (decide (c = c0)) as [->|Hne].
  - exists (sender_after x0 type). rewrite lookup_insert_eq. by simplify_eq.
  - exists x. by rewrite lookup_insert_ne.
Qed.

(** A message of [fengnet_send] to the own node is a push. *)
Lemma send_local n c0 x0 source destination type session data sz :
  contexts n.2 !! c0 = Some x0 → 0 ≤ sz ≤ MESSAGE_TYPE_MASK → session_ok x0 type session →
  destination ≠ 0 → is_local n.2 destination →
  fengnet_send n (Some c0) source destination type session data sz =
    '(r, n1) ← fengnet_context_push (on_world n (sending n.2 c0 x0 type data sz)) destination
       (MkMsg (sent_source x0 source) (sent_session x0 type session) (sent_data n.2 type data sz).1
          (sent_size type sz));
    if negb (r =? 0)
    then Ret (-1, on_world n1 (set_env n1.2 (data_free (env n1.2) (sent_data n.2 type data sz).1)))
    else Ret (sent_session x0 type session, n1).
Proof.
  intros Hx0 Hsz Hs Hdest Hloc. destruct (sender_after_same x0 type) as (Hh & _).
  unfold fengnet_send. change MESSAGE_TYPE_MASK with (2 ^ 56 - 1) in *. rewrite land_mask by lia.
  rewrite Z.mod_small, Z.eqb_refl by lia. cbn [negb].
  rewrite (filter_args_spec n.2 c0 x0) by done. bsimpl.
  fold (sending n.2 c0 x0 type data sz). set (w1 := sending n.2 c0 x0 type data sz).
  assert (Hsrc : source_of w1 (Some c0) source = Ret (sent_source x0 source)).
  { unfold source_of, sent_source, fengnet_context_handle, get_context. cbn.
    destruct (source =? 0); [|done]. rewrite lookup_insert_eq. cbn. by rewrite Hh. }
  rewrite Hsrc. bsimpl. rewrite (proj2 (Z.eqb_neq _ _)) by done.
  rewrite (isremote_local w1 destination) by done. by bsimpl.
Qed.

(** C3: A service that sends to a service of the own node appends one message
    to the queue of that service and to no other queue: it carries the handle of
    the sender (unless another source is given), the session (a fresh positive
    one when it asks for it, which is also the result), the data (a copy unless
    it gives its own away) and, in the top byte of the size, the type. When no
    service has the handle, the result is -1, the queues are as before and the
    data is freed. *)
Theorem send_reaches_service n hd l c0 x0 source destination type session data sz :
  server_ok n hd l → contexts n.2 !! c0 = Some x0 → 0 ≤ sz ≤ MESSAGE_TYPE_MASK →
  session_ok x0 type session → destination ≠ 0 → is_local n.2 destination →
  (∀ c i x q, registered (fst n) c i → contexts n.2 !! c = Some x → c_handle x = destination →
     heap (queues n.2) !! c_queue x = Some q → ring_room q →
     ∃ n' l', fengnet_send n (Some c0) source destination type session data sz =
         Ret (sent_session x0 type session, n') ∧ fst n' = fst n ∧ server_ok n' hd l' ∧
       contents <$> heap (queues n'.2) =
         <[c_queue x := contents q ++ [MkMsg (sent_source x0 source) (sent_session x0 type session)
                                         (sent_data n.2 type data sz).1 (sent_size type sz)]]>
           (contents <$> heap (queues n.2))) ∧
  ((∀ c i x, registered (fst n) c i → contexts n.2 !! c = Some x → c_handle x ≠ destination) →
   ∃ n', fengnet_send n (Some c0) source destination type session data sz = Ret (-1, n') ∧
     server_ok n' hd l ∧ queues n'.2 = queues n.2 ∧
     env n'.2 = data_free (sent_data n.2 type data sz).2 (sent_data n.2 type data sz).1).
Proof.
  intros Hn Hx0 Hsz Hs Hdest Hloc.
  rewrite (send_local n c0 x0) by done. pose proof (sending_ok n hd l c0 x0 type data sz Hn Hx0) as Hn1.
  set (w1 := sending n.2 c0 x0 type data sz) in *. split.
  - intros c i x q Hreg Hx Hxh Hxq Hroom.
    destruct (sending_context n.2 c0 x0 type data sz c x Hx0 Hx) as (x1 & Hx1c & Hh1 & Hq1).
    destruct (context_push_spec (on_world n w1) hd l c x1 i q
      (MkMsg (sent_source x0 source) (sent_session x0 type session) (sent_data n.2 type data sz).1
          (sent_size type sz))) as (st' & l' & Hp & Hc & Hok); [done|done|done|by rewrite Hq1|done|].
    rewrite Hh1, Hxh in Hp. rewrite Hp. bsimpl.
    change (0 =? 0) with true. cbn [negb]. eexists _, l'. split; [done|]. split; [done|].
    split; [exact Hok|]. rewrite Hq1 in Hc. exact Hc.
  - intros Hno. unfold fengnet_context_push.
    rewrite (handle_grab_miss (on_world n w1) hd l destination Hn1).
    + bsimpl. change (-1 =? 0) with false. cbn [negb]. eexists. split; [done|].
      split; [by apply (server_ok_env (on_world n w1))|]. done.
    + intros c i y Hreg Hy Hyh. destruct (contexts n.2 !! c) as [x|] eqn:Hx.
      * destruct (sending_context n.2 c0 x0 type data sz c x Hx0 Hx) as (x1 & Hx1c & Hh1 & _).
        apply (Hno c i x Hreg Hx). cbn in Hy, Hx1c. congruence.
      * cbn in Hy. rewrite lookup_insert_ne in Hy by congruence. congruence.
Qed.
End proper.

(** ** A small server for the witnesses

    Two services, of the handles of [example_table]; the first has two messages
    and its queue is with a worker, the second has none and its queue is with
    nobody. The world outside is the list of the calls of callbacks. *)
Notation call := (positive * Z * fengnet_message)%type (only parsing).

#[export] Instance example_outside : Outside (list call) := {
  module_query e _ := (1, e);
  instance_create n _ := Ret (1, n);
  instance_init n _ _ _ _ := Ret (0, n);
  instance_release n _ _ := Ret n;
  run_callback n c cb ud type session source data len :=
    Ret (0, on_world n (set_env n.2 (env n.2 ++ [(c, type, MkMsg source session data len)])));
  thread_time e := (0, e);
  log_output e _ _ _ _ _ _ := e;
  log_close e _ := e;
  data_free e _ := e;
  data_copy e d _ := (d, e);
  data_text e _ := (0, 0, e);
  data_remote e _ := (0, e)
}.

Definition example_context (h : Z) (l : positive) : fengnet_context :=
  MkContext 1 1 1 1 l 0 0 0 h 0 1 0 true false false false.
Definition example_queue1 : message_queue :=
  match ring_push (new_queue 0x1000001) (MkMsg 0x1000002 1 0 0) with
  | Ret q => match ring_push q (MkMsg 0x1000002 2 0 0) with Ret q => q | _ => q end
  | _ => new_queue 0
  end.
Definition example_queue2 : message_queue := set_in_global (new_queue 0x1000002) 0.
Definition example_world : world (list call) :=
  MkWorld {[ 1%positive := example_context 0x1000001 1; 2%positive := example_context 0x1000002 2 ]}
    (MkMQ {[ 1%positive := example_queue1; 2%positive := example_queue2 ]} (MkGlobal None None))
    2 false 0 0x1000000 None [].
Definition example_node : node (list call) := (example_table, example_world).

Lemma example_queue1_ok : ring_wf example_queue1 ∧ next example_queue1 = None ∧
  release example_queue1 = 0 ∧ in_global example_queue1 = MQ_IN_GLOBAL ∧
  contents example_queue1 = [MkMsg 0x1000002 1 0 0; MkMsg 0x1000002 2 0 0].
Proof.
  destruct (new_queue_wf 0x1000001) as [Hwf Hc].
  destruct (ring_push_spec _ (MkMsg 0x1000002 1 0 0) Hwf) as (q1 & H1 & Hwf1 & Hs1 & Hc1 & _);
    [left; vm_compute; done|].
  destruct (ring_push_spec q1 (MkMsg 0x1000002 2 0 0) Hwf1) as (q2 & H2 & Hwf2 & Hs2 & Hc2 & _).
  { vm_compute in H1. injection H1 as <-. left. vm_compute. done. }
  unfold example_queue1. rewrite H1, H2. destruct Hs1 as (? & Hr1 & Hg1 & Hn1 & _).
  destruct Hs2 as (? & Hr2 & Hg2 & Hn2 & _). rewrite Hc2, Hc1, Hc.
  split_and!; [done|by rewrite Hn2, Hn1|by rewrite Hr2, Hr1|by rewrite Hg2, Hg1|done].
Qed.

Lemma example_server_ok : server_ok example_node {[1%positive]} [].
Proof.
  destruct example_queue1_ok as (Hwf & Hn & Hr & Hg & _).
  assert (Hwf2 : ring_wf example_queue2).
  { destruct (new_queue_wf 0x1000002) as [[] _]. by constructor. }
  split.
  - split; [exact (to_shape _ _ example_table_ok)|].
    intros c i (k & Hk & -> & Hc)%registered_cases; [|exact (to_shape _ _ example_table_ok)].
    do 4 (destruct k as [|k]; [try done; cbn in Hc; injection Hc as <-; eexists; split; vm_compute; done|]).
    cbn in Hk. lia.
  - split; cbn [mq held queues snd example_node example_world heap].
    + split; cbn; [done|constructor|done|done].
    + intros x Hx. by apply not_elem_of_nil in Hx.
    + intros x ->%elem_of_singleton. eexists. reflexivity.
    + intros x q [[<- <-]|[Hne [<- <-]%lookup_singleton_Some]]%lookup_insert_Some.
      * split_and!; [done|by intros _|]. rewrite Hr. left. split; [done|right; set_solver].
      * split_and!; [done|by intros _|]. right. split_and!; [done|done|set_solver|set_solver].
  - intros c x Hx. cbn in Hx.
    apply lookup_insert_Some in Hx as [[<- <-]|[Hne [<- <-]%lookup_singleton_Some]]; cbn;
      (split; [lia|]); eexists; (split; [reflexivity|]); done.
Qed.

Lemma send_reaches_service_witness : ∃ n',
  fengnet_send example_node (Some 1%positive) 0 0x1000002 (PTYPE_TAG_ALLOCSESSION + 1) 0 7 5 =
    Ret (1, n') ∧
  contents <$> heap (queues n'.2) =
    <[2%positive := [MkMsg 0x1000001 1 7 (5 + 2 ^ 56)]]> (contents <$> heap (queues example_world)).
Proof.
  destruct (send_reaches_service example_node {[1%positive]} [] 1 (example_context 0x1000001 1)
    0 0x1000002 (PTYPE_TAG_ALLOCSESSION + 1) 0 7 5) as [Hhit _].
  - exact example_server_ok.
  - reflexivity.
  - vm_compute. split; discriminate.
  - intros _. vm_compute. split; [done|]. split; [discriminate|reflexivity].
  - discriminate.
  - split; [discriminate|]. left. reflexivity.
  - destruct (Hhit 2%positive 2 (example_context 0x1000002 2) example_queue2) as (n' & l' & Hs & _ & _ & Hc).
    + split; [lia|reflexivity].
    + reflexivity.
    + reflexivity.
    + reflexivity.
    + left. vm_compute. reflexivity.
    + exists n'. split; [exact Hs|exact Hc].
Defined.

(** ** The turn of a worker *)

(** What a callback is called with for a message. *)
Definition served (c : positive) (msg : fengnet_message) : call :=
  (c, message_type msg, MkMsg (source msg) (session msg) (data msg) (message_len msg)).

(** The parts of a context that stay as they are while it handles messages. *)
Definition same_service (x x' : fengnet_context) : Prop :=
  c_queue x' = c_queue x ∧ c_handle x' = c_handle x ∧ c_cb x' = c_cb x ∧
  c_init x' = c_init x ∧ c_ref x' = c_ref x.

Lemma same_service_trans x y z : same_service x y → same_service y z → same_service x z.
Proof. unfold same_service. intuition congruence. Qed.

(** A worker holds queue [q] of the service [c]. *)
Record at_work {E} `{!Outside E} (n : node E) (hd : gset positive) (l : list positive)
    (c : positive) (x : fengnet_context) (q : message_queue) : Prop := {
  aw_server : server_ok n hd l;
  aw_context : contexts n.2 !! c = Some x;
  aw_queue : heap (queues n.2) !! c_queue x = Some q;
  aw_held : c_queue x ∈ hd
}.

(** Callbacks that return, and use the server in an orderly way: each call is
    in the trace of the outside, the invariant of the server is kept, queues
    are only added at the end of the global queue, and the own queue gets at
    most [B] messages. *)
Class Behaved (E : Type) `{!Outside E} (B : Z) := {
  trace : E → list call;
  trace_free e d : trace (data_free e d) = trace e;
  trace_log e f so ty se d len : trace (log_output e f so ty se d len) = trace e;
  trace_time e : trace (thread_time e).2 = trace e;
  behaved_bound : 0 ≤ B;
  run_behaved n hd l c x q type session source data len :
    at_work n hd l c x q →
    ∃ r n' l' x' q' extra,
      run_callback n c (c_cb x) (c_cb_ud x) type session source data len = Ret (r, n') ∧
      at_work n' hd l' c x' q' ∧ l `prefix_of` l' ∧ same_service x x' ∧
      c_message_count x' = c_message_count x ∧
      contents q' = contents q ++ extra ∧ zlen extra ≤ B ∧
      handle q' = handle q ∧ overload q' = overload q ∧
      trace (env n'.2) = trace (env n.2) ++ [(c, type, MkMsg source session data len)]
}.

Section turn.
Context {E : Type} `{!Outside E} {B : Z} `{!Behaved E B}.
Implicit Types (w : world E) (n : node E) (c : positive).

Lemma get_context_Ret w c x : contexts w !! c = Some x → get_context w c = Ret x.
Proof. intros Hx. unfold get_context. by rewrite Hx. Qed.

Lemma at_work_put n hd l c x q x' :
  at_work n hd l c x q → c_handle x' = c_handle x → c_queue x' = c_queue x → 1 ≤ c_ref x' →
  at_work (on_world n (put_context n.2 c x')) hd l c x' q.
Proof.
  intros [Hs Hc Hq Hh] Hhe Hqe Hr. split.
  - by apply (server_ok_put n hd l c x).
  - cbn. by rewrite lookup_insert_eq.
  - by rewrite Hqe.
  - by rewrite Hqe.
Qed.

Lemma at_work_env n hd l c x q e :
  at_work n hd l c x q → at_work (on_world n (set_env n.2 e)) hd l c x q.
Proof. intros [Hs Hc Hq Hh]. split; try done. by apply (server_ok_env n). Qed.

Lemma at_work_ref n hd l c x q : at_work n hd l c x q → 1 ≤ c_ref x.
Proof. intros [Hs Hc _ _]. by apply (so_context _ _ _ Hs c x). Qed.

Lemma at_work_release n hd l c x q : at_work n hd l c x q → release q = 0.
Proof.
  intros [Hs Hc Hq _]. destruct (so_context _ _ _ Hs c x Hc) as (_ & q' & Hq' & ?). congruence.
Qed.

(** Queues that keep their [release] mark. *)
Lemma server_ok_queues n hd l st' hd' l' :
  server_ok n hd l → sched_inv (MkSched st' hd') l' →
  (∀ y p, heap (queues n.2) !! y = Some p → ∃ p', heap st' !! y = Some p' ∧ release p' = release p) →
  server_ok (on_world n (set_queues n.2 st')) hd' l'.
Proof.
  intros [Ht Hs Hc] Hs' Hk. split; cbn; [by eapply table_ok_handles|done|].
  intros c x Hx. destruct (Hc c x Hx) as (Hr & q & Hq & Hrel). split; [done|].
  destruct (Hk _ _ Hq) as (q' & ? & ?). exists q'. split; [done|congruence].
Qed.

Lemma server_ok_kept n hd l st' hd' l' :
  server_ok n hd l → sched_inv (MkSched st' hd') l' → kept (queues n.2) st' →
  server_ok (on_world n (set_queues n.2 st')) hd' l'.
Proof.
  intros Hs Hs' Hk. apply (server_ok_queues n hd l); [done|done|].
  intros y p Hp. destruct (Hk y p Hp) as (p' & ? & _ & ? & _). by exists p'.
Qed.

(** One message: the callback is called once, with the message. *)
Lemma call_message_spec n hd l c x q msg :
  at_work n hd l c x q → c_init x = true → c_calling x = false →
  0 ≤ c_message_count x < INT_MAX →
  ∃ n' l' x' q' extra, dispatch_message n c msg = Ret n' ∧
    at_work n' hd l' c x' q' ∧ l `prefix_of` l' ∧ same_service x x' ∧ c_calling x' = false ∧
    c_message_count x' = c_message_count x + 1 ∧
    contents q' = contents q ++ extra ∧ zlen extra ≤ B ∧ handle q' = handle q ∧
    overload q' = overload q ∧ trace (env n'.2) = trace (env n.2) ++ [served c msg].
Proof.
  intros Hw Hi Hcall Hcount. unfold dispatch_message.
  rewrite (get_context_Ret n.2 c x (aw_context _ _ _ _ _ _ Hw)). bsimpl. rewrite Hi. bsimpl.
  unfold begin_call. rewrite Hcall. cbn [negb assert_true]. bsimpl.
  cbn [c_logfile c_message_count c_profile c_cpu_start c_cpu_cost set_call c_cb c_cb_ud].
  set (e1 := if negb (c_logfile x =? 0) then _ else _). unfold INT_MAX in Hcount.
  rewrite (cint_in (c_message_count x + 1)) by (unfold INT_MIN, INT_MAX; lia). bsimpl.
  assert (He1 : trace e1 = trace (env n.2)) by (unfold e1; case_match; [apply trace_log|done]).
  set (p := if c_profile x then thread_time e1 else (c_cpu_start x, e1)).
  assert (He2 : trace p.2 = trace (env n.2)).
  { unfold p. destruct (c_profile x); [by rewrite trace_time|done]. }
  destruct p as [start e2]. cbn [snd] in He2.
  set (x1 := set_call _ _ _ _ _).
  assert (Hw1 : at_work (on_world n (set_env (put_context n.2 c x1) e2)) hd l c x1 q).
  { apply (at_work_env (on_world n (put_context n.2 c x1))). apply (at_work_put n hd l c x); try done.
    exact (at_work_ref n hd l c x q Hw). }
  destruct (run_behaved _ hd l c x1 q (message_type msg) (session msg) (source msg) (data msg)
    (message_len msg) Hw1) as (r & n2 & l' & x2 & q' & extra & Hrun & Hw2 & Hl & Hsame & Hcnt & Hcont &
      Hex & Hhq & Hov & Htr).
  change (c_cb x1) with (c_cb x) in Hrun. change (c_cb_ud x1) with (c_cb_ud x) in Hrun. rewrite Hrun. bsimpl.
  rewrite (get_context_Ret n2.2 c x2 (aw_context _ _ _ _ _ _ Hw2)). bsimpl.
  set (p := if c_profile x then (let '(now, e) := thread_time (env n2.2) in _) else _).
  assert (He3 : trace p.2 = trace (env n2.2)).
  { unfold p. destruct (c_profile x); [|done]. pose proof (trace_time (env n2.2)) as Ht.
    by destruct (thread_time (env n2.2)). }
  destruct p as [cost e3]. cbn [snd] in He3.
  set (x3 := end_call _). set (e4 := if r =? 0 then _ else _).
  assert (He4 : trace e4 = trace (env n2.2)) by (unfold e4; case_match; [by rewrite trace_free|done]).
  eexists _, l', x3, q', extra. split; [done|]. split_and!; try done.
  - apply (at_work_env (on_world n2 (put_context n2.2 c x3))).
    apply (at_work_put n2 hd l' c x2); try done. exact (at_work_ref n2 hd l' c x2 q' Hw2).
  - cbn [on_world snd env set_env]. rewrite He4, Htr. cbn [on_world snd env set_env]. by rewrite He2.
Qed.
End turn.

(** A service that can take its turn: it has a callback, its queue is with the
    worker and is not overloaded, also when each of its messages makes [B] more. *)
Record service_ready {E} `{!Outside E} (B : Z) (n : node E) (hd : gset positive)
    (l : list positive) (c : positive) (x : fengnet_context) (q : message_queue) : Prop := {
  sr_work : at_work n hd l c x q;
  sr_registered : ∃ i, registered (fst n) c i;
  sr_handle : handle q = c_handle x;
  sr_overload : overload q = 0;
  sr_length : zlen (contents q) * (1 + B) ≤ MQ_OVERLOAD;
  sr_init : c_init x = true;
  sr_calling : c_calling x = false;
  sr_callback : c_cb x ≠ 0;
  sr_count : 0 ≤ c_message_count x ∧ c_message_count x + zlen (contents q) < INT_MAX
}.

(** How many of [len] messages a worker of the given weight takes. *)
Definition turn_count (weight len : Z) : Z :=
  if weight <? 0 then 1 else Z.max 1 (Z.shiftr (len - 1) weight).

Lemma turn_count_bounds weight len : 1 ≤ len → 1 ≤ turn_count weight len ≤ len.
Proof.
  intros Hl. unfold turn_count. destruct (Z.ltb_spec weight 0); [lia|].
  rewrite Z.shiftr_div_pow2 by lia. pose proof (Z.pow_pos_nonneg 2 weight ltac:(lia) ltac:(lia)).
  pose proof (Z.div_le_upper_bound (len - 1) (2 ^ weight) (len - 1)). nia.
Qed.

Section dispatch.
Context {E : Type} `{!Outside E} {B : Z} `{!Behaved E B}.
Implicit Types (w : world E) (n : node E) (c : positive).

(** [i] messages of the service [c], which was [x] with the messages [ms] in
    the queue and the trace [t0], have been handled. *)
Record handled (hd : gset positive) (l : list positive) (c : positive) (x : fengnet_context)
    (h : Z) (ms : list fengnet_message) (t0 : list call) (i : Z) n : Prop := {
  hn_index : 0 ≤ i ≤ zlen ms;
  hn_state : ∃ l' x' q' extra, at_work n hd l' c x' q' ∧ l `prefix_of` l' ∧
    same_service x x' ∧ c_calling x' = false ∧ c_message_count x' = c_message_count x + i ∧
    contents q' = drop (Z.to_nat i) ms ++ extra ∧ zlen extra ≤ i * B ∧
    handle q' = h ∧ overload q' = 0;
  hn_trace : trace (env n.2) = t0 ++ map (served c) (take (Z.to_nat i) ms)
}.

Lemma at_work_pop n hd l c x q m ms :
  at_work n hd l c x q → contents q = m :: ms → overload q = 0 → zlen ms ≤ MQ_OVERLOAD →
  ∃ st' q', fengnet_mq_pop (queues n.2) (c_queue x) = Ret (Some m, st') ∧
    at_work (on_world n (set_queues n.2 st')) hd l c x q' ∧
    contents q' = ms ∧ handle q' = handle q ∧ overload q' = 0.
Proof.
  intros Hw Hc Hov Hlen. pose proof (at_work_release _ _ _ _ _ _ Hw) as Hr.
  destruct Hw as [Hs Hx Hq Hh].
  destruct (pop_message _ hd l (c_queue x) q m ms (so_sched _ _ _ Hs) Hh Hq Hr Hc Hov Hlen)
    as (q' & Hpop & Hc' & Hov' & Hr' & Hh' & Hinv').
  eexists _, q'. split; [exact Hpop|]. split_and!; try done. split.
  - apply (server_ok_queues n hd l _ hd l Hs Hinv'). intros y p Hp. cbn.
    destruct (decide (c_queue x = y)) as [<-|Hne].
    + exists q'. rewrite lookup_insert_eq. split; [done|congruence].
    + exists p. by rewrite lookup_insert_ne.
  - done.
  - apply lookup_insert_eq.
  - done.
Qed.

Lemma drop_cons {A} (xs : list A) k y ys :
  drop k xs = y :: ys → xs !! k = Some y ∧ drop (S k) xs = ys.
Proof.
  intros Hd. split.
  - rewrite <-(Nat.add_0_r k), <-lookup_drop. by rewrite Hd.
  - replace (S k) with (k + 1)%nat by lia. rewrite <-drop_drop. by rewrite Hd.
Qed.

Lemma queue_length_spec st x q :
  heap st !! x = Some q → ring_wf q → fengnet_mq_length st x = Ret (zlen (contents q)).
Proof.
  intros Hq Hwf. unfold fengnet_mq_length, load. rewrite Hq. bsimpl.
  pose proof (ring_length_bounds q Hwf). f_equal. unfold zlen. rewrite contents_length. lia.
Qed.

Lemma overload_none st x q :
  heap st !! x = Some q → overload q = 0 → fengnet_mq_overload st x = Ret (0, st).
Proof. intros Hq Ho. unfold fengnet_mq_overload, load. rewrite Hq. bsimpl. by rewrite Ho. Qed.

(** A turn of the loop that finds a message. *)
Lemma dispatch_step_message hd l c x h ms t0 weight i num sm n :
  handled hd l c x h ms t0 i n → i < zlen ms → i < num →
  zlen ms * (1 + B) ≤ MQ_OVERLOAD → c_init x = true → c_cb x ≠ 0 → h = c_handle x →
  0 ≤ c_message_count x → c_message_count x + zlen ms < INT_MAX →
  ∃ sm' n',
    dispatch_step (c_queue x) h c weight (i, num, sm, n) =
      Ret (inl (i + 1, if (i =? 0) && (0 <=? weight) then Z.shiftr (zlen ms - 1) weight else num,
                sm', n')) ∧
    m_destination sm' = 0 ∧ handled hd l c x h ms t0 (i + 1) n'.
Proof.
  intros [Hi (l1 & x1 & q1 & extra & Hw & Hl & Hs & Hcall & Hcnt & Hc & Hex & Hh & Hov) Ht] Him Hin
    HB Hinit Hcb Heq Hc0 Hc1. pose proof (behaved_bound (B := B)) as HB0.
  destruct Hs as (Hsq & Hsh & Hscb & Hsi & Hsr).
  destruct (drop (Z.to_nat i) ms) as [|m rest] eqn:Hd.
  { apply (f_equal length) in Hd. rewrite length_drop in Hd. unfold zlen in Him. cbn in Hd. lia. }
  assert (Hrest : zlen rest = zlen ms - i - 1).
  { apply (f_equal length) in Hd. rewrite length_drop in Hd. unfold zlen in *. cbn in Hd. lia. }
  destruct (at_work_pop n hd l1 c x1 q1 m (rest ++ extra)) as (st' & q2 & Hpop & Hw2 & Hc2 & Hh2 & Hov2);
    [done|done|done| |].
  { rewrite zlen_app, Hrest. nia. }
  unfold dispatch_step. rewrite (proj2 (Z.ltb_lt _ _) Hin), <-Hsq, Hpop. bsimpl.
  set (n1 := on_world n (set_queues n.2 st')) in *. rewrite Hsq in *.
  pose proof (si_queues _ _ (so_sched _ _ _ (aw_server _ _ _ _ _ _ Hw2)) _ _ (aw_queue _ _ _ _ _ _ Hw2))
    as (Hwf2 & _).
  pose proof (aw_queue _ _ _ _ _ _ Hw2) as Hq2. rewrite Hsq in Hq2.
  assert (Hnum : (if (i =? 0) && (0 <=? weight)
    then len ← fengnet_mq_length (queues n1.2) (c_queue x); Ret (Z.shiftr len weight) else Ret num) =
    Ret (if (i =? 0) && (0 <=? weight) then Z.shiftr (zlen ms - 1) weight else num)).
  { destruct (Z.eqb_spec i 0) as [->|]; [|done]. destruct (0 <=? weight); [|done]. cbn [andb].
    rewrite (queue_length_spec _ _ q2) by done. bsimpl.
    do 2 f_equal. rewrite Hc2, zlen_app, Hrest. pose proof (zlen_nonneg extra). nia. }
  rewrite Hnum. bsimpl.
  rewrite (overload_none _ _ q2) by done. bsimpl.
  change (negb (0 =? 0)) with false. bsimpl.
  replace (on_world n1 (set_queues n1.2 (queues n1.2))) with n1 by (by destruct n1 as [? []]).
  rewrite (get_context_Ret n1.2 c x1 (aw_context _ _ _ _ _ _ Hw2)). bsimpl.
  rewrite Hscb, (proj2 (Z.eqb_neq (c_cb x) 0)) by done.
  destruct (call_message_spec n1 hd l1 c x1 q2 m Hw2) as (n2 & l2 & x2 & q3 & extra2 & Hdm & Hw3 &
    Hl2 & Hs2 & Hcall2 & Hcnt2 & Hc3 & Hex2 & Hh3 & Hov3 & Htr); [congruence|done|lia|].
  rewrite Hdm. bsimpl. rewrite (get_context_Ret n2.2 c x2 (aw_context _ _ _ _ _ _ Hw3)). bsimpl.
  assert (Hsame : same_service x x2).
  { apply (same_service_trans x x1); [|done]. by split_and!. }
  assert (Hhx : c_handle x2 = c_handle x) by apply Hsame.
  rewrite Hhx, Heq, Z.eqb_refl. bsimpl. 
  rewrite (cint_in (i + 1)) by (unfold INT_MIN, INT_MAX in *; lia). bsimpl.
  eexists _, n2. split; [done|]. split; [done|].
  assert (Hi1 : Z.to_nat (i + 1) = S (Z.to_nat i)) by lia.
  split; [lia| |].
  - exists l2, x2, q3, (extra ++ extra2). split_and!; try done; try lia; try congruence.
    + by transitivity l1.
    + rewrite Hc3, Hc2, Hi1, <-app_assoc. f_equal. symmetry. by apply (drop_cons ms (Z.to_nat i) m rest).
    + rewrite zlen_app. lia.
  - rewrite Htr. change (env n1.2) with (env n.2). rewrite Ht, Hi1.
    rewrite (take_S_r ms (Z.to_nat i) m), map_app, <-app_assoc; [done|].
    by apply (drop_cons ms (Z.to_nat i) m rest).
Qed.

Lemma turn_loop hd l c x h ms t0 weight sm n fuel :
  handled hd l c x h ms t0 0 n → 1 ≤ zlen ms → zlen ms * (1 + B) ≤ MQ_OVERLOAD →
  c_init x = true → c_cb x ≠ 0 → h = c_handle x → 0 ≤ c_message_count x →
  c_message_count x + zlen ms < INT_MAX → (length ms < fuel)%nat →
  ∃ sm' n', loop fuel (dispatch_step (c_queue x) h c weight) (0, 1, sm, n) = Ret (true, sm', n') ∧
    m_destination sm' = 0 ∧ handled hd l c x h ms t0 (turn_count weight (zlen ms)) n'.
Proof.
  intros Hn Hlen HB Hinit Hcb Heq Hc0 Hc1 Hfuel.
  pose proof (turn_count_bounds weight (zlen ms) Hlen) as HK.
  set (K := turn_count weight (zlen ms)) in *.
  set (N := if 0 <=? weight then Z.shiftr (zlen ms - 1) weight else 1).
  assert (HKN : K = Z.max 1 N).
  { unfold K, N, turn_count. rewrite Z.leb_antisym. by destruct (weight <? 0). }
  destruct (loop_total
    (λ s : Z * Z * fengnet_monitor * node E, let '(i, num, sm, n) := s in
       handled hd l c x h ms t0 i n ∧
       ((i = 0 ∧ num = 1) ∨ (1 ≤ i ≤ K ∧ num = N ∧ m_destination sm = 0)))
    (λ s, let '(i, _, _, _) := s in Z.to_nat (K - i))
    (λ r : bool * fengnet_monitor * node E, let '(b, sm, n) := r in
       b = true ∧ m_destination sm = 0 ∧ handled hd l c x h ms t0 K n)
    (dispatch_step (c_queue x) h c weight)) with (fuel := fuel) (s := (0, 1, sm, n))
    as ([[b sm'] n'] & Hloop & -> & Hd & Hh).
  - intros [[[i num] sm1] n1] [Hh Hcase]. destruct (Z.ltb_spec i num) as [Hin|Hin].
    + left. assert (Him : i < zlen ms) by lia.
      destruct (dispatch_step_message hd l c x h ms t0 weight i num sm1 n1) as (sm2 & n2 & -> & Hd & Hh2);
        try done.
      eexists. split; [done|]. split; [|lia]. split; [done|]. right.
      destruct Hcase as [[-> ->]|(Hi & -> & _)].
      * split_and!; [lia|lia| |done]. cbn [Z.eqb andb]. done.
      * rewrite (proj2 (Z.eqb_neq _ _)) by lia. split_and!; [lia|lia|done|done].
    + right. destruct Hcase as [[-> ->]|(Hi & -> & Hsm)]; [lia|]. assert (i = K) as -> by lia.
      exists (true, sm1, n1). split; [|done].
      unfold dispatch_step. by rewrite (proj2 (Z.ltb_ge _ _) Hin).
  - split; [done|]. by left.
  - unfold zlen in *. lia.
  - by exists sm', n'.
Qed.

Lemma dispatch_step_empty n hd l c x q weight sm h :
  at_work n hd l c x q → contents q = [] →
  ∃ st', dispatch_step (c_queue x) h c weight (0, 1, sm, n) =
      Ret (inr (false, sm, on_world n (set_queues n.2 st'))) ∧
    kept (queues n.2) st' ∧ sched_inv (MkSched st' (hd ∖ {[c_queue x]})) l.
Proof.
  intros Hw Hc. pose proof (at_work_release _ _ _ _ _ _ Hw) as Hr. destruct Hw as [Hs Hx Hq Hh].
  destruct (idle_inv _ hd l (c_queue x) q (so_sched _ _ _ Hs) Hh Hq Hr Hc) as (st' & Hpop & Hk & Hinv & _).
  exists st'. split_and!; [|done|done]. unfold dispatch_step. change (0 <? 1) with true.
  rewrite Hpop. by bsimpl.
Qed.

Lemma take_any st hd l :
  sched_inv (MkSched st hd) l →
  ∃ st', fengnet_globalmq_pop st = Ret (hd_error l, st') ∧ kept st st' ∧
    sched_inv (MkSched st' (list_to_set (take 1 l) ∪ hd)) (tl l).
Proof.
  intros Hinv. destruct l as [|y l].
  - exists st. split_and!; [apply fengnet_globalmq_pop_nil, (si_global _ _ Hinv)|apply kept_refl|].
    cbn. by rewrite union_empty_l_L.
  - destruct (take_spec st hd l y Hinv) as (st' & Hpop & Hk & Hinv'). exists st'.
    split_and!; [done|done|]. change (take 1 (y :: l)) with [y]. by rewrite list_to_set_singleton_L.
Qed.
End dispatch.

Section turns.
Context {E : Type} `{!Outside E} {B : Z} `{!Behaved E B}.
Implicit Types (n : node E) (c : positive).

Lemma queue_handle_spec n hd l c x q :
  at_work n hd l c x q → fengnet_mq_handle (queues n.2) (c_queue x) = Ret (handle q).
Proof.
  intros [_ _ Hq _]. unfold fengnet_mq_handle, load. by rewrite Hq.
Qed.

(** After the grab. *)
Lemma at_work_grabbed n hd l c x q :
  at_work n hd l c x q →
  at_work (on_world n (put_context n.2 c (set_ref x (c_ref x + 1)))) hd l c
    (set_ref x (c_ref x + 1)) q.
Proof.
  intros Hw. apply (at_work_put n hd l c x); try done. cbn.
  pose proof (at_work_ref n hd l c x q Hw). lia.
Qed.

Lemma globalmq_pop_spec n hd l :
  server_ok n hd l →
  ∃ st', globalmq_pop n = Ret (hd_error l, on_world n (set_queues n.2 st')) ∧
    server_ok (on_world n (set_queues n.2 st')) (list_to_set (take 1 l) ∪ hd) (tl l).
Proof.
  intros Hs. destruct (take_any _ _ _ (so_sched _ _ _ Hs)) as (st' & Hpop & Hk & Hinv).
  exists st'. split; [|by apply (server_ok_kept n hd l)]. unfold globalmq_pop. by rewrite Hpop.
Qed.

(** Giving back the reference of the grab. *)
Lemma release_grab n hd l c x x0 :
  server_ok n hd l → contexts n.2 !! c = Some x → c_ref x = c_ref x0 + 1 → 1 ≤ c_ref x0 →
  fengnet_context_release n c =
    Ret (Some c, on_world n (put_context n.2 c (set_ref x (c_ref x0)))) ∧
  server_ok (on_world n (put_context n.2 c (set_ref x (c_ref x0)))) hd l.
Proof.
  intros Hs Hx Hr H1. rewrite (release_not_last n c x Hx) by lia.
  replace (c_ref x - 1) with (c_ref x0) by lia. split; [done|].
  by apply (server_ok_put n hd l c x).
Qed.

Lemma server_after_turn n hd l c x q x0 st y l' :
  at_work n hd l c x q → c_ref x = c_ref x0 + 1 → 1 ≤ c_ref x0 →
  sched_inv (MkSched st ({[y]} ∪ hd ∖ {[c_queue x]})) l' → kept (queues n.2) st →
  fengnet_context_release (on_world n (set_queues n.2 st)) c =
    Ret (Some c, on_world n (put_context (set_queues n.2 st) c (set_ref x (c_ref x0)))) ∧
  server_ok (on_world n (put_context (set_queues n.2 st) c (set_ref x (c_ref x0))))
    ({[y]} ∪ hd ∖ {[c_queue x]}) l' ∧
  ∃ q', heap st !! c_queue x = Some q' ∧ contents q' = contents q.
Proof.
  intros [Hs Hx Hq _] Hr H1 Hinv Hk.
  destruct (release_grab (on_world n (set_queues n.2 st)) ({[y]} ∪ hd ∖ {[c_queue x]}) l' c x x0)
    as [? ?]; [by apply (server_ok_kept n hd l)|done|done|done|].
  split_and!; [done|done|]. destruct (Hk _ _ Hq) as (q' & ? & ? & _). by exists q'.
Qed.

Lemma turn_empty fuel n sm hd l c x q weight :
  service_ready B n hd l c x q → (0 < fuel)%nat → contents q = [] → ∃ n',
    fengnet_context_message_dispatch fuel n sm (Some (c_queue x)) weight =
      Ret (hd_error l, sm, n') ∧
    server_ok n' (list_to_set (take 1 l) ∪ hd ∖ {[c_queue x]}) (tl l) ∧
    contexts n'.2 = contexts n.2 ∧ env n'.2 = env n.2.
Proof.
  intros [Hw [i Hi] Hh Hov Hlen Hinit Hcall Hcb [Hc0 Hc1]] Hfuel Hc.
  pose proof (at_work_ref n hd l c x q Hw) as Href.
  pose proof (aw_context _ _ _ _ _ _ Hw) as Hx.
  pose proof (at_work_grabbed n hd l c x q Hw) as Hw1.
  set (x1 := set_ref x (c_ref x + 1)) in *. set (n1 := on_world n (put_context n.2 c x1)) in *.
  assert (Hgrab : handle_grab n (handle q) = Ret (Some c, n1)).
  { rewrite Hh. exact (handle_grab_hit n hd l c x i (aw_server _ _ _ _ _ _ Hw) Hi Hx). }
  unfold fengnet_context_message_dispatch. bsimpl. rewrite (queue_handle_spec n hd l c x q Hw). bsimpl.
  rewrite Hgrab. bsimpl.
  destruct fuel as [|fuel]; [lia|]. rewrite loop_S.
  destruct (dispatch_step_empty n1 hd l c x1 q weight sm (handle q) Hw1 Hc) as (st' & Hstep & Hk & Hinv).
  change (c_queue x1) with (c_queue x) in Hstep. rewrite Hstep. bsimpl.
  pose proof (server_ok_kept n1 hd l st' _ l (aw_server _ _ _ _ _ _ Hw1) Hinv Hk) as Hs2.
  set (n2 := on_world n1 (set_queues n1.2 st')) in *.
  destruct (release_grab n2 _ l c x1 x Hs2 (aw_context _ _ _ _ _ _ Hw1)) as [-> Hs3]; [done|done|].
  bsimpl. destruct (globalmq_pop_spec _ _ _ Hs3) as (st3 & -> & Hs4). bsimpl.
  eexists. split; [reflexivity|]. split; [exact Hs4|]. split; [|done]. cbn.
  rewrite insert_insert_eq. apply insert_id. rewrite Hx. by destruct x.
Qed.

Lemma turn_full fuel n sm hd l c x q weight :
  service_ready B n hd l c x q → (length (contents q) < fuel)%nat → contents q ≠ [] →
  ∃ k y sm' n' l1 l2 x' q' extra,
     k = Z.to_nat (turn_count weight (zlen (contents q))) ∧
     fengnet_context_message_dispatch fuel n sm (Some (c_queue x)) weight =
       Ret (Some y, sm', n') ∧
     trace (env n'.2) = trace (env n.2) ++ map (served c) (take k (contents q)) ∧
     l `prefix_of` l1 ∧ l1 ++ [c_queue x] = y :: l2 ∧
     server_ok n' ({[y]} ∪ hd ∖ {[c_queue x]}) l2 ∧
     contexts n'.2 !! c = Some x' ∧ same_service x x' ∧
     heap (queues n'.2) !! c_queue x = Some q' ∧ contents q' = drop k (contents q) ++ extra ∧
     m_destination sm' = 0.
Proof.
  intros [Hw [i Hi] Hh Hov Hlen Hinit Hcall Hcb [Hc0 Hc1]] Hfuel Hne.
  pose proof (at_work_ref n hd l c x q Hw) as Href.
  pose proof (aw_context _ _ _ _ _ _ Hw) as Hx.
  pose proof (at_work_grabbed n hd l c x q Hw) as Hw1.
  set (x1 := set_ref x (c_ref x + 1)) in *. set (n1 := on_world n (put_context n.2 c x1)) in *.
  assert (Hgrab : handle_grab n (handle q) = Ret (Some c, n1)).
  { rewrite Hh. exact (handle_grab_hit n hd l c x i (aw_server _ _ _ _ _ _ Hw) Hi Hx). }
  unfold fengnet_context_message_dispatch. bsimpl. rewrite (queue_handle_spec n hd l c x q Hw). bsimpl.
  rewrite Hgrab. bsimpl.
  assert (Hl1 : 1 ≤ zlen (contents q)).
  { unfold zlen. destruct (contents q); [done|]. cbn. lia. }
  destruct (turn_loop hd l c x1 (handle q) (contents q) (trace (env n.2)) weight sm n1 fuel)
    as (sm' & n2 & Hloop & Hsm & [Hk (l1 & x2 & q2 & extra & Hw2 & Hpre & Hs & _ & _ & Hc2 & _) Ht]); try done.
  { split; [lia| |].
    - exists l, x1, q, []. split_and!; try done; cbn; try lia. by rewrite app_nil_r.
    - by rewrite app_nil_r. }
  change (c_queue x1) with (c_queue x) in Hloop. rewrite Hloop. bsimpl.
  rewrite (get_context_Ret n2.2 c x2 (aw_context _ _ _ _ _ _ Hw2)). bsimpl.
  destruct Hs as (Hsq & Hsh & Hsc & Hsi & Hsr). change (c_queue x1) with (c_queue x) in Hsq.
  rewrite Hsq, bool_decide_eq_true_2 by done. bsimpl.
  pose proof (aw_held _ _ _ _ _ _ Hw2) as Hheld. pose proof (aw_queue _ _ _ _ _ _ Hw2) as Hq2.
  rewrite Hsq in Hheld, Hq2.
  destruct (requeue_spec _ hd l1 (c_queue x) (so_sched _ _ _ (aw_server _ _ _ _ _ _ Hw2)) Hheld)
    as (y & l2 & st1 & st2 & Hl2 & Hops & Hk2 & Hinv2).
  destruct (server_after_turn n2 hd l1 c x2 q2 x st2 y l2) as (Hrel & Hs4 & q4 & Hq4 & Hc4);
    [done|by rewrite Hsr|done|by rewrite Hsq|done|].
  rewrite Hsq in Hs4, Hq4. unfold globalmq_pop.
  exists (Z.to_nat (turn_count weight (zlen (contents q)))), y, sm'.
  destruct l1 as [|y0 l1].
  - destruct Hops as [-> ->]. bsimpl. cbn in Hl2. injection Hl2 as <- <-.
    rewrite Hrel. bsimpl. eexists _, [], [], (set_ref x2 (c_ref x)), q4, extra. split; [done|]. split; [reflexivity|].
    split_and!; try done; [cbn; by rewrite lookup_insert_eq|by rewrite Hc4].
  - destruct Hops as [-> Hpush]. bsimpl. cbn [on_world snd queues set_queues].
    injection Hl2 as <- <-. rewrite Hpush. bsimpl.
    change (fengnet_context_release _ c)
      with (fengnet_context_release (on_world n2 (set_queues n2.2 st2)) c).
    rewrite Hrel. bsimpl.
    eexists _, (y0 :: l1), _, (set_ref x2 (c_ref x)), q4, extra. split; [done|]. split; [reflexivity|].
    split_and!; try done; [cbn; by rewrite lookup_insert_eq|by rewrite Hc4].
Qed.

(** C2: A worker that holds the queue of a ready service gives it one turn. It
    hands the oldest messages to the callback, in order and each one once: one
    message when the weight is negative, otherwise the share
    [(length - 1) >> weight] but at least one; the rest stays, in front of what
    the callbacks sent to the service. The queue then goes to the end of the
    global queue, whose first queue is the worker's next; the monitor is clear.
    An empty queue is left, the worker takes the next queue. The service keeps
    its references. *)
Theorem dispatch_takes_turn fuel n sm hd l c x q weight :
  service_ready B n hd l c x q → (length (contents q) < fuel)%nat →
  (contents q = [] → ∃ n',
     fengnet_context_message_dispatch fuel n sm (Some (c_queue x)) weight =
       Ret (hd_error l, sm, n') ∧
     server_ok n' (list_to_set (take 1 l) ∪ hd ∖ {[c_queue x]}) (tl l) ∧
     contexts n'.2 = contexts n.2 ∧ env n'.2 = env n.2) ∧
  (contents q ≠ [] → ∃ k y sm' n' l1 l2 x' q' extra,
     k = Z.to_nat (turn_count weight (zlen (contents q))) ∧
     fengnet_context_message_dispatch fuel n sm (Some (c_queue x)) weight =
       Ret (Some y, sm', n') ∧
     trace (env n'.2) = trace (env n.2) ++ map (served c) (take k (contents q)) ∧
     l `prefix_of` l1 ∧ l1 ++ [c_queue x] = y :: l2 ∧
     server_ok n' ({[y]} ∪ hd ∖ {[c_queue x]}) l2 ∧
     contexts n'.2 !! c = Some x' ∧ same_service x x' ∧
     heap (queues n'.2) !! c_queue x = Some q' ∧ contents q' = drop k (contents q) ++ extra ∧
     m_destination sm' = 0).
Proof.
  intros Hr Hfuel. split; intros Hc.
  - apply (turn_empty fuel n sm hd l c x q weight Hr); [lia|done].
  - by apply turn_full.
Qed.
End turns.

#[export] Instance example_behaved : Behaved (list call) 0.
Proof.
  refine {| trace := λ e, e |}; try done.
  intros n hd l c x q type session source data len Hw. cbn [run_callback example_outside].
  eexists 0, _, l, x, q, []. split; [reflexivity|].
  split_and!; try done; [by apply at_work_env|by rewrite app_nil_r].
Defined.

Lemma example_ready :
  service_ready 0 example_node {[1%positive]} [] 1 (example_context 0x1000001 1) example_queue1.
Proof.
  destruct example_queue1_ok as (Hwf & Hn & Hr & Hg & Hc). split; try done.
  - split; [exact example_server_ok|done|done|set_solver].
  - exists 1. split; [lia|done].
Qed.

Lemma dispatch_takes_turn_witness : ∃ sm' n',
  fengnet_context_message_dispatch 3 example_node fengnet_monitor_new (Some 1%positive) 0 =
    Ret (Some 1%positive, sm', n') ∧
  env n'.2 = [(1%positive, 0, MkMsg 0x1000002 1 0 0)] ∧
  ∃ q', heap (queues n'.2) !! 1%positive = Some q' ∧ contents q' = [MkMsg 0x1000002 2 0 0].
Proof.
  destruct example_queue1_ok as (_ & _ & _ & _ & Hc).
  destruct (dispatch_takes_turn 3 example_node fengnet_monitor_new {[1%positive]} [] 1
    (example_context 0x1000001 1) example_queue1 0) as [_ Ht].
  - exact example_ready.
  - rewrite Hc. cbn. lia.
  - destruct Ht as (k & y & sm' & n' & l1 & l2 & x' & q' & extra & -> & Hd & Htr & _ & Hl & _ & _ & _ &
      Hq & Hq' & _); [by rewrite Hc|]. rewrite Hc in *.
    assert (Hd' := Hd).
    vm_compute in Hd'. injection Hd' as <- <- <-.
    eexists _, _. split; [exact Hd|]. split; [reflexivity|].
    eexists. split; [reflexivity|]. vm_compute. reflexivity.
Defined.

(** ** The end of a service *)

Section retire.
Context {E : Type} `{!Outside E}.
Implicit Types (n : node E) (c : positive).

(** The log file of a service that ends is closed. *)
Definition log_closed (e : E) (x : fengnet_context) : E :=
  if negb (c_logfile x =? 0) then log_close e (c_logfile x) else e.

Lemma delete_context_spec n hd l c x q (released : E → Z → Z → E) :
  sched_inv (MkSched (queues n.2) hd) l → contexts n.2 !! c = Some x →
  heap (queues n.2) !! c_queue x = Some q → release q = 0 →
  (∀ n m i, instance_release n m i = Ret (on_world n (set_env n.2 (released (env n.2) m i)))) →
  ∃ st' l', delete_context n c =
      Ret (on_world n (MkWorld (delete c (contexts n.2)) st' (total n.2 - 1) (profile n.2)
             (logger n.2) (HARBOR n.2) (REMOTE n.2)
             (released (log_closed (env n.2) x) (c_mod x) (c_instance x)))) ∧
    sched_inv (MkSched st' hd) l' ∧ l `prefix_of` l' ∧
    relinked l (<[c_queue x := set_release q 1]> (heap (queues n.2))) (heap st').
Proof.
  intros Hs Hx Hq Hr Hrel.
  destruct (mark_release_spec _ hd l (c_queue x) q Hs Hq Hr) as (st' & l' & Hmark & Hinv & Hl & Hre).
  exists st', l'. split_and!; try done. unfold delete_context.
  rewrite (get_context_Ret n.2 c x Hx). bsimpl. rewrite Hrel. bsimpl.
  set (w1 := if negb (c_logfile x =? 0) then _ else _).
  assert (Hw1 : w1 = set_env n.2 (log_closed (env n.2) x)).
  { unfold w1, log_closed. case_match; [done|]. by destruct n as [? []]. }
  rewrite Hw1. rewrite (get_context_Ret _ c x) by done. bsimpl.
  cbn [on_world snd queues set_env]. rewrite Hmark. by bsimpl.
Qed.

(** The queue of the service that ended is marked, and no other. *)
Lemma released_queue l st st' y q :
  heap st !! y = Some q → relinked l (<[y := set_release q 1]> (heap st)) (heap st') →
  contents <$> heap st' = contents <$> heap st ∧
  (∃ q', heap st' !! y = Some q' ∧ release q' = 1) ∧
  ∀ z p, z ≠ y → heap st !! z = Some p → ∃ p', heap st' !! z = Some p' ∧ release p' = release p.
Proof.
  intros Hq Hre. split_and!.
  - rewrite (relinked_contents _ _ _ Hre), fmap_insert. apply insert_id.
    by rewrite lookup_fmap, Hq.
  - destruct (relinked_lookup l _ (heap st') y (set_release q 1) Hre) as (nx & ?);
      [apply lookup_insert_eq|]. by eexists.
  - intros z p Hne Hp. destruct (relinked_lookup l _ (heap st') z p Hre) as (nx & ?);
      [by rewrite lookup_insert_ne|]. by eexists.
Qed.

(** C24: Retiring the handle of a service takes it and its names out of the
    table and gives up the reference of the table. While a worker or a sender
    still has a reference, the context and all queues stay as they are. At the
    last reference the service ends: its log file is closed, its instance
    released, the context deleted and no longer counted, and its queue is
    marked for release, still with its messages, and in the global queue
    or with the thread that holds it, so that a worker will drop it. *)
Theorem retire_ends_service n hd l c i x m q (released : E → Z → Z → E) :
  server_ok n hd l → names_rel (fst n) m → registered (fst n) c i →
  contexts n.2 !! c = Some x → heap (queues n.2) !! c_queue x = Some q →
  (∀ c' x', contexts n.2 !! c' = Some x' → c' ≠ c → c_queue x' ≠ c_queue x) →
  (∀ n m i, instance_release n m i = Ret (on_world n (set_env n.2 (released (env n.2) m i)))) →
  ∃ s' w' l', fengnet_handle_retire (fst n) n.2 (c_handle x) = Ret (1, s', w') ∧
    server_ok (s', w') hd l' ∧ names_rel s' (filter (λ p, p.2 ≠ c_handle x) m) ∧
    (∀ c' j, registered s' c' j ↔ registered (fst n) c' j ∧ c' ≠ c) ∧
    (c_ref x ≠ 1 → w' = put_context n.2 c (set_ref x (c_ref x - 1))) ∧
    (c_ref x = 1 → contexts w' = delete c (contexts n.2) ∧ total w' = total n.2 - 1 ∧
       env w' = released (log_closed (env n.2) x) (c_mod x) (c_instance x) ∧
       contents <$> heap (queues w') = contents <$> heap (queues n.2) ∧
       (∃ q', heap (queues w') !! c_queue x = Some q' ∧ release q' = 1) ∧
       (c_queue x ∈ l' ∨ c_queue x ∈ hd)).
Proof.
  intros Hs Hm Hr Hx Hq Hdist Hrel.
  assert (Hh : context_handle n.2 c = Ret (c_handle x)).
  { cbn. unfold fengnet_context_handle. by rewrite (get_context_Ret n.2 c x Hx). }
  destruct (retire_hit (fst n) n.2 m c i (c_handle x) (so_table _ _ _ Hs) Hm Hr Hh)
    as (count & names & -> & Hm' & Hs' & Hr').
  set (s' := retired (fst n) (c_handle x) count names) in *.
  destruct (so_context _ _ _ Hs c x Hx) as (H1 & q0 & Hq0 & Hq0r).
  assert (q0 = q) as -> by congruence.
  assert (Htab : ∀ w', (∀ c', c' ≠ c → contexts w' !! c' = contexts n.2 !! c') → table_ok s' w').
  { intros w' Hw'. split; [done|]. intros c' j [Hc' Hne]%Hr'. cbn.
    unfold fengnet_context_handle, get_context. rewrite Hw' by done.
    exact (to_live _ _ (so_table _ _ _ Hs) c' j Hc'). }
  cbn [context_release server_contexts]. destruct (decide (c_ref x = 1)) as [H|H].
  - unfold fengnet_context_release. cbn [snd]. rewrite (get_context_Ret n.2 c x Hx). bsimpl.
    rewrite H. change (1 =? 1) with true. change (1 - 1) with 0.
    destruct (delete_context_spec (on_world (s', n.2) (put_context n.2 c (set_ref x 0))) hd l c
      (set_ref x 0) q released) as (st' & l' & Hdel & Hinv & Hl & Hre); try done;
      [apply (so_sched _ _ _ Hs)|cbn; by rewrite lookup_insert_eq|].
    rewrite Hdel. bsimpl. destruct (released_queue l (queues n.2) st' (c_queue x) q Hq Hre) as (Hc & Hrq & Hoth).
    eexists _, _, l'. split; [reflexivity|]. split_and!; [|done|done|done|].
    + split; cbn.
      * apply Htab. intros c' Hne. cbn. by rewrite delete_insert_eq, lookup_delete_ne.
      * done.
      * intros c' x'. rewrite delete_insert_eq. intros [Hne Hx']%lookup_delete_Some.
        destruct (so_context _ _ _ Hs c' x' Hx') as (? & p & Hp & Hpr). split; [done|].
        destruct (Hoth (c_queue x') p) as (p' & ? & ?); [by eapply Hdist|done|].
        exists p'. split; [done|congruence].
    + intros _. cbn. rewrite delete_insert_eq. split_and!; try done.
      destruct Hrq as (q' & Hq' & Hrq). pose proof (si_queues _ _ Hinv _ q' Hq') as (_ & _ & Hok).
      by rewrite Hrq in Hok.
  - rewrite (release_not_last (s', n.2) c x Hx H). bsimpl.
    eexists _, _, l. split; [reflexivity|]. split_and!; [|done|done|done|done].
    split; cbn.
    + apply Htab. intros c' Hne. cbn. by rewrite lookup_insert_ne.
    + apply (so_sched _ _ _ Hs).
    + intros c' x' [[<- <-]|[_ Hx']]%lookup_insert_Some.
      * cbn. split; [lia|]. by exists q.
      * exact (so_context _ _ _ Hs c' x' Hx').
Qed.
End retire.

Lemma retire_ends_service_witness : ∃ s' w',
  fengnet_handle_retire example_table example_world 0x1000002 = Ret (1, s', w') ∧
  contexts w' = delete 2%positive (contexts example_world) ∧ total w' = 1 ∧
  ∃ q', heap (queues w') !! 2%positive = Some q' ∧ release q' = 1.
Proof.
  destruct (retire_ends_service example_node {[1%positive]} [] 2 2 (example_context 0x1000002 2)
    example_names example_queue2 (λ e _ _, e)) as (s' & w' & l' & Hret & _ & _ & _ & _ & Hone).
  - exact example_server_ok.
  - exact example_names_rel.
  - split; [lia|reflexivity].
  - reflexivity.
  - reflexivity.
  - intros c' x' Hx' Hne. cbn in Hx'.
    apply lookup_insert_Some in Hx' as [[<- <-]|[_ [<- <-]%lookup_singleton_Some]]; done.
  - intros n m i. cbn. by destruct n as [? []].
  - destruct Hone as (Hc & Ht & _ & _ & Hq & _); [reflexivity|].
    exists s', w'. split; [exact Hret|]. split; [exact Hc|]. split; [exact Ht|exact Hq].
Defined.
