(* ===== verification/Des.v ===== *)
(** * DES

    The model of the DES part of [lualib-src/lua-crypt.cpp]: the key schedule,
    the block cipher, the two paddings and [desencode]/[desdecode]. A Lua error
    is the result [None]. *)
From S2P Require Import Prelude.

Local Open Scope Z_scope.

(** ** Tables *)

Definition SB1 : list Z := [0x01010400; 0x00000000; 0x00010000; 0x01010404; 0x01010004; 0x00010404;
  0x00000004; 0x00010000; 0x00000400; 0x01010400; 0x01010404; 0x00000400;
  0x01000404; 0x01010004; 0x01000000; 0x00000004; 0x00000404; 0x01000400;
  0x01000400; 0x00010400; 0x00010400; 0x01010000; 0x01010000; 0x01000404;
  0x00010004; 0x01000004; 0x01000004; 0x00010004; 0x00000000; 0x00000404;
  0x00010404; 0x01000000; 0x00010000; 0x01010404; 0x00000004; 0x01010000;
  0x01010400; 0x01000000; 0x01000000; 0x00000400; 0x01010004; 0x00010000;
  0x00010400; 0x01000004; 0x00000400; 0x00000004; 0x01000404; 0x00010404;
  0x01010404; 0x00010004; 0x01010000; 0x01000404; 0x01000004; 0x00000404;
  0x00010404; 0x01010400; 0x00000404; 0x01000400; 0x01000400; 0x00000000;
  0x00010004; 0x00010400; 0x00000000; 0x01010004].

Definition SB2 : list Z := [0x80108020; 0x80008000; 0x00008000; 0x00108020; 0x00100000; 0x00000020;
  0x80100020; 0x80008020; 0x80000020; 0x80108020; 0x80108000; 0x80000000;
  0x80008000; 0x00100000; 0x00000020; 0x80100020; 0x00108000; 0x00100020;
  0x80008020; 0x00000000; 0x80000000; 0x00008000; 0x00108020; 0x80100000;
  0x00100020; 0x80000020; 0x00000000; 0x00108000; 0x00008020; 0x80108000;
  0x80100000; 0x00008020; 0x00000000; 0x00108020; 0x80100020; 0x00100000;
  0x80008020; 0x80100000; 0x80108000; 0x00008000; 0x80100000; 0x80008000;
  0x00000020; 0x80108020; 0x00108020; 0x00000020; 0x00008000; 0x80000000;
  0x00008020; 0x80108000; 0x00100000; 0x80000020; 0x00100020; 0x80008020;
  0x80000020; 0x00100020; 0x00108000; 0x00000000; 0x80008000; 0x00008020;
  0x80000000; 0x80100020; 0x80108020; 0x00108000].

Definition SB3 : list Z := [0x00000208; 0x08020200; 0x00000000; 0x08020008; 0x08000200; 0x00000000;
  0x00020208; 0x08000200; 0x00020008; 0x08000008; 0x08000008; 0x00020000;
  0x08020208; 0x00020008; 0x08020000; 0x00000208; 0x08000000; 0x00000008;
  0x08020200; 0x00000200; 0x00020200; 0x08020000; 0x08020008; 0x00020208;
  0x08000208; 0x00020200; 0x00020000; 0x08000208; 0x00000008; 0x08020208;
  0x00000200; 0x08000000; 0x08020200; 0x08000000; 0x00020008; 0x00000208;
  0x00020000; 0x08020200; 0x08000200; 0x00000000; 0x00000200; 0x00020008;
  0x08020208; 0x08000200; 0x08000008; 0x00000200; 0x00000000; 0x08020008;
  0x08000208; 0x00020000; 0x08000000; 0x08020208; 0x00000008; 0x00020208;
  0x00020200; 0x08000008; 0x08020000; 0x08000208; 0x00000208; 0x08020000;
  0x00020208; 0x00000008; 0x08020008; 0x00020200].

Definition SB4 : list Z := [0x00802001; 0x00002081; 0x00002081; 0x00000080; 0x00802080; 0x00800081;
  0x00800001; 0x00002001; 0x00000000; 0x00802000; 0x00802000; 0x00802081;
  0x00000081; 0x00000000; 0x00800080; 0x00800001; 0x00000001; 0x00002000;
  0x00800000; 0x00802001; 0x00000080; 0x00800000; 0x00002001; 0x00002080;
  0x00800081; 0x00000001; 0x00002080; 0x00800080; 0x00002000; 0x00802080;
  0x00802081; 0x00000081; 0x00800080; 0x00800001; 0x00802000; 0x00802081;
  0x00000081; 0x00000000; 0x00000000; 0x00802000; 0x00002080; 0x00800080;
  0x00800081; 0x00000001; 0x00802001; 0x00002081; 0x00002081; 0x00000080;
  0x00802081; 0x00000081; 0x00000001; 0x00002000; 0x00800001; 0x00002001;
  0x00802080; 0x00800081; 0x00002001; 0x00002080; 0x00800000; 0x00802001;
  0x00000080; 0x00800000; 0x00002000; 0x00802080].

Definition SB5 : list Z := [0x00000100; 0x02080100; 0x02080000; 0x42000100; 0x00080000; 0x00000100;
  0x40000000; 0x02080000; 0x40080100; 0x00080000; 0x02000100; 0x40080100;
  0x42000100; 0x42080000; 0x00080100; 0x40000000; 0x02000000; 0x40080000;
  0x40080000; 0x00000000; 0x40000100; 0x42080100; 0x42080100; 0x02000100;
  0x42080000; 0x40000100; 0x00000000; 0x42000000; 0x02080100; 0x02000000;
  0x42000000; 0x00080100; 0x00080000; 0x42000100; 0x00000100; 0x02000000;
  0x40000000; 0x02080000; 0x42000100; 0x40080100; 0x02000100; 0x40000000;
  0x42080000; 0x02080100; 0x40080100; 0x00000100; 0x02000000; 0x42080000;
  0x42080100; 0x00080100; 0x42000000; 0x42080100; 0x02080000; 0x00000000;
  0x40080000; 0x42000000; 0x00080100; 0x02000100; 0x40000100; 0x00080000;
  0x00000000; 0x40080000; 0x02080100; 0x40000100].

Definition SB6 : list Z := [0x20000010; 0x20400000; 0x00004000; 0x20404010; 0x20400000; 0x00000010;
  0x20404010; 0x00400000; 0x20004000; 0x00404010; 0x00400000; 0x20000010;
  0x00400010; 0x20004000; 0x20000000; 0x00004010; 0x00000000; 0x00400010;
  0x20004010; 0x00004000; 0x00404000; 0x20004010; 0x00000010; 0x20400010;
  0x20400010; 0x00000000; 0x00404010; 0x20404000; 0x00004010; 0x00404000;
  0x20404000; 0x20000000; 0x20004000; 0x00000010; 0x20400010; 0x00404000;
  0x20404010; 0x00400000; 0x00004010; 0x20000010; 0x00400000; 0x20004000;
  0x20000000; 0x00004010; 0x20000010; 0x20404010; 0x00404000; 0x20400000;
  0x00404010; 0x20404000; 0x00000000; 0x20400010; 0x00000010; 0x00004000;
  0x20400000; 0x00404010; 0x00004000; 0x00400010; 0x20004010; 0x00000000;
  0x20404000; 0x20000000; 0x00400010; 0x20004010].

Definition SB7 : list Z := [0x00200000; 0x04200002; 0x04000802; 0x00000000; 0x00000800; 0x04000802;
  0x00200802; 0x04200800; 0x04200802; 0x00200000; 0x00000000; 0x04000002;
  0x00000002; 0x04000000; 0x04200002; 0x00000802; 0x04000800; 0x00200802;
  0x00200002; 0x04000800; 0x04000002; 0x04200000; 0x04200800; 0x00200002;
  0x04200000; 0x00000800; 0x00000802; 0x04200802; 0x00200800; 0x00000002;
  0x04000000; 0x00200800; 0x04000000; 0x00200800; 0x00200000; 0x04000802;
  0x04000802; 0x04200002; 0x04200002; 0x00000002; 0x00200002; 0x04000000;
  0x04000800; 0x00200000; 0x04200800; 0x00000802; 0x00200802; 0x04200800;
  0x00000802; 0x04000002; 0x04200802; 0x04200000; 0x00200800; 0x00000000;
  0x00000002; 0x04200802; 0x00000000; 0x00200802; 0x04200000; 0x00000800;
  0x04000002; 0x04000800; 0x00000800; 0x00200002].

Definition SB8 : list Z := [0x10001040; 0x00001000; 0x00040000; 0x10041040; 0x10000000; 0x10001040;
  0x00000040; 0x10000000; 0x00040040; 0x10040000; 0x10041040; 0x00041000;
  0x10041000; 0x00041040; 0x00001000; 0x00000040; 0x10040000; 0x10000040;
  0x10001000; 0x00001040; 0x00041000; 0x00040040; 0x10040040; 0x10041000;
  0x00001040; 0x00000000; 0x00000000; 0x10040040; 0x10000040; 0x10001000;
  0x00041040; 0x00040000; 0x00041040; 0x00040000; 0x10041000; 0x00001000;
  0x00000040; 0x10040040; 0x00001000; 0x00041040; 0x10001000; 0x00000040;
  0x10000040; 0x10040000; 0x10040040; 0x10000000; 0x00040000; 0x10001040;
  0x00000000; 0x10041040; 0x00040040; 0x10000040; 0x10040000; 0x10001000;
  0x10001040; 0x00000000; 0x10041040; 0x00041000; 0x00041000; 0x00001040;
  0x00001040; 0x00040040; 0x10000000; 0x10041000].

Definition LHs : list Z := [0x00000000; 0x00000001; 0x00000100; 0x00000101; 0x00010000; 0x00010001;
  0x00010100; 0x00010101; 0x01000000; 0x01000001; 0x01000100; 0x01000101;
  0x01010000; 0x01010001; 0x01010100; 0x01010101].

Definition RHs : list Z := [0x00000000; 0x01000000; 0x00010000; 0x01010000; 0x00000100; 0x01000100;
  0x00010100; 0x01010100; 0x00000001; 0x01000001; 0x00010001; 0x01010001;
  0x00000101; 0x01000101; 0x00010101; 0x01010101].

(** Reading a table; every index below is masked to its size. *)
Definition entry_at (l : list Z) (i : Z) : Z := default 0 (l !! Z.to_nat i).

(** ** 32-bit words *)

Definition shl (x n : Z) : Z := u32 (Z.shiftl x n).

Definition GET_UINT32 (b : list Z) (i : Z) : outcome Z :=
  b0 ← aget b i; b1 ← aget b (i + 1); b2 ← aget b (i + 2); b3 ← aget b (i + 3);
  Ret (Z.lor (Z.lor (Z.lor (shl b0 24) (shl b1 16)) (shl b2 8)) b3).

Definition PUT_UINT32 (n : Z) (b : list Z) (i : Z) : outcome (list Z) :=
  asets b i [u8 (Z.shiftr n 24); u8 (Z.shiftr n 16); u8 (Z.shiftr n 8); u8 n].

(** [T = ((X >> k) ^ Y) & m; Y ^= T; X ^= (T << k);] *)
Definition swap_bits (k m : Z) (xy : Z * Z) : Z * Z :=
  let '(X, Y) := xy in
  let T := Z.land (Z.lxor (Z.shiftr X k) Y) m in
  (Z.lxor X (shl T k), Z.lxor Y T).

Definition swap (xy : Z * Z) : Z * Z := (xy.2, xy.1).

(** [((x << 1) | (x >> 31)) & 0xFFFFFFFF] and its inverse. *)
Definition rotl1 (x : Z) : Z := Z.land (Z.lor (shl x 1) (Z.shiftr x 31)) 0xFFFFFFFF.
Definition rotr1 (x : Z) : Z := Z.land (Z.lor (shl x 31) (Z.shiftr x 1)) 0xFFFFFFFF.

Definition DES_IP (xy : Z * Z) : Z * Z :=
  let xy := swap_bits 4 0x0F0F0F0F xy in
  let xy := swap_bits 16 0x0000FFFF xy in
  let xy := swap (swap_bits 2 0x33333333 (swap xy)) in
  let xy := swap (swap_bits 8 0x00FF00FF (swap xy)) in
  let xy := (xy.1, rotl1 xy.2) in
  let xy := swap_bits 0 0xAAAAAAAA xy in
  (rotl1 xy.1, xy.2).

Definition DES_FP (xy : Z * Z) : Z * Z :=
  let xy := (rotr1 xy.1, xy.2) in
  let xy := swap_bits 0 0xAAAAAAAA xy in
  let xy := (xy.1, rotr1 xy.2) in
  let xy := swap (swap_bits 8 0x00FF00FF (swap xy)) in
  let xy := swap (swap_bits 2 0x33333333 (swap xy)) in
  let xy := swap_bits 16 0x0000FFFF xy in
  swap_bits 4 0x0F0F0F0F xy.

(** [DES_ROUND(X, Y)] with the subkeys [k1] and [k2]: the new [Y]. *)
Definition DES_ROUND (k1 k2 X Y : Z) : Z :=
  let T := Z.lxor k1 X in
  let Y := Z.lxor Y
    (Z.lxor (Z.lxor (Z.lxor (entry_at SB8 (Z.land T 0x3F))
                            (entry_at SB6 (Z.land (Z.shiftr T 8) 0x3F)))
                    (entry_at SB4 (Z.land (Z.shiftr T 16) 0x3F)))
            (entry_at SB2 (Z.land (Z.shiftr T 24) 0x3F))) in
  let T := Z.lxor k2 (Z.lor (shl X 28) (Z.shiftr X 4)) in
  Z.lxor Y
    (Z.lxor (Z.lxor (Z.lxor (entry_at SB7 (Z.land T 0x3F))
                            (entry_at SB5 (Z.land (Z.shiftr T 8) 0x3F)))
                    (entry_at SB3 (Z.land (Z.shiftr T 16) 0x3F)))
            (entry_at SB1 (Z.land (Z.shiftr T 24) 0x3F))).

(** ** Key schedule *)

(** The two subkeys of one turn of the loop of [des_main_ks]. *)
Definition subkeys (X Y : Z) : list Z :=
  [ foldl Z.lor 0
     [ Z.land (shl X 4) 0x24000000; Z.land (shl X 28) 0x10000000;
       Z.land (shl X 14) 0x08000000; Z.land (shl X 18) 0x02080000;
       Z.land (shl X 6) 0x01000000; Z.land (shl X 9) 0x00200000;
       Z.land (Z.shiftr X 1) 0x00100000; Z.land (shl X 10) 0x00040000;
       Z.land (shl X 2) 0x00020000; Z.land (Z.shiftr X 10) 0x00010000;
       Z.land (Z.shiftr Y 13) 0x00002000; Z.land (Z.shiftr Y 4) 0x00001000;
       Z.land (shl Y 6) 0x00000800; Z.land (Z.shiftr Y 1) 0x00000400;
       Z.land (Z.shiftr Y 14) 0x00000200; Z.land Y 0x00000100;
       Z.land (Z.shiftr Y 5) 0x00000020; Z.land (Z.shiftr Y 10) 0x00000010;
       Z.land (Z.shiftr Y 3) 0x00000008; Z.land (Z.shiftr Y 18) 0x00000004;
       Z.land (Z.shiftr Y 26) 0x00000002; Z.land (Z.shiftr Y 24) 0x00000001 ];
    foldl Z.lor 0
     [ Z.land (shl X 15) 0x20000000; Z.land (shl X 17) 0x10000000;
       Z.land (shl X 10) 0x08000000; Z.land (shl X 22) 0x04000000;
       Z.land (Z.shiftr X 2) 0x02000000; Z.land (shl X 1) 0x01000000;
       Z.land (shl X 16) 0x00200000; Z.land (shl X 11) 0x00100000;
       Z.land (shl X 3) 0x00080000; Z.land (Z.shiftr X 6) 0x00040000;
       Z.land (shl X 15) 0x00020000; Z.land (Z.shiftr X 4) 0x00010000;
       Z.land (Z.shiftr Y 2) 0x00002000; Z.land (shl Y 8) 0x00001000;
       Z.land (Z.shiftr Y 14) 0x00000808; Z.land (Z.shiftr Y 9) 0x00000400;
       Z.land Y 0x00000200; Z.land (shl Y 7) 0x00000100;
       Z.land (Z.shiftr Y 7) 0x00000020; Z.land (Z.shiftr Y 3) 0x00000011;
       Z.land (shl Y 2) 0x00000004; Z.land (Z.shiftr Y 21) 0x00000002 ] ].

(** The [for] loop of [des_main_ks] from turn [i] on. *)
Fixpoint ks_loop (n : nat) (i X Y : Z) : list Z :=
  match n with
  | O => []
  | S n' =>
      let rot x k := Z.land (Z.lor (shl x k) (Z.shiftr x (28 - k))) 0x0FFFFFFF in
      let k := if (i <? 2) || (i =? 8) || (i =? 15) then 1 else 2 in
      let X' := rot X k in
      let Y' := rot Y k in
      subkeys X' Y' ++ ks_loop n' (i + 1) X' Y'
  end.

Definition des_main_ks (key : list Z) : outcome (list Z) :=
  X ← GET_UINT32 key 0;
  Y ← GET_UINT32 key 4;
  let T := Z.land (Z.lxor (Z.shiftr Y 4) X) 0x0F0F0F0F in
  let X := Z.lxor X T in let Y := Z.lxor Y (shl T 4) in
  let T := Z.land (Z.lxor Y X) 0x10101010 in
  let X := Z.lxor X T in let Y := Z.lxor Y T in
  let L i := entry_at LHs (Z.land (Z.shiftr X i) 0xF) in
  let R i := entry_at RHs (Z.land (Z.shiftr Y i) 0xF) in
  let X' := foldl Z.lor 0 [shl (L 0) 3; shl (L 8) 2; shl (L 16) 1; L 24;
                           shl (L 5) 7; shl (L 13) 6; shl (L 21) 5; shl (L 29) 4] in
  let Y' := foldl Z.lor 0 [shl (R 1) 3; shl (R 9) 2; shl (R 17) 1; R 25;
                           shl (R 4) 7; shl (R 12) 6; shl (R 20) 5; shl (R 28) 4] in
  Ret (ks_loop 16 0 (Z.land X' 0x0FFFFFFF) (Z.land Y' 0x0FFFFFFF)).

(** ** The block cipher *)

(** The 16 rounds, two per turn: [DES_ROUND( Y, X );  DES_ROUND( X, Y );] *)
Fixpoint des_rounds (SK : list Z) (X Y : Z) : Z * Z :=
  match SK with
  | k1 :: k2 :: k3 :: k4 :: SK' =>
      let X' := DES_ROUND k1 k2 Y X in
      let Y' := DES_ROUND k3 k4 X' Y in
      des_rounds SK' X' Y'
  | _ => (X, Y)
  end.

(** [des_crypt(SK, input + i, output + o)]: the new memory of [output]. *)
Definition des_crypt (SK input : list Z) (i : Z) (output : list Z) (o : Z) : outcome (list Z) :=
  X ← GET_UINT32 input i;
  Y ← GET_UINT32 input (i + 4);
  let '(X, Y) := DES_IP (X, Y) in
  let '(X, Y) := des_rounds SK X Y in
  let '(Y, X) := DES_FP (Y, X) in
  output ← PUT_UINT32 Y output o;
  PUT_UINT32 X output (o + 4).

(** ** Padding *)

Definition PADDING_MODE_ISO7816_4 : Z := 0.
Definition PADDING_MODE_PKCS7 : Z := 1.
Definition PADDING_MODE_COUNT : Z := 2.

Definition padding_add_iso7816_4 (buf : list Z) (offset : Z) : outcome (list Z) :=
  buf ← aset buf offset 0x80;
  asets buf (offset + 1) (replicate (Z.to_nat (7 - offset)) 0).

(** [last] is an index into [buf]. *)
Definition padding_remove_iso7816_4 (buf : list Z) (last : Z) : outcome Z :=
  loop 9 (λ '(i, last, padding),
    if i <? 8 then
      b ← aget buf last;
      if b =? 0 then Ret (inl (i + 1, last - 1, padding + 1))
      else if b =? 0x80 then Ret (inr padding)
      else Ret (inr 0)
    else Ret (inr 0)) (0, last, 1).

Definition padding_add_pkcs7 (buf : list Z) (offset : Z) : outcome (list Z) :=
  asets buf offset (replicate (Z.to_nat (8 - offset)) (u8 (8 - offset))).

Definition padding_remove_pkcs7 (buf : list Z) (last : Z) : outcome Z :=
  padding ← aget buf last;
  loop (S (Z.to_nat padding)) (λ '(i, last),
    if i <? padding then
      b ← aget buf (last - 1);
      if negb (b =? padding) then Ret (inr 0) else Ret (inl (i + 1, last - 1))
    else Ret (inr padding)) (1, last).

(** [check_padding_mode] fails ([false]) on an unknown mode. *)
Definition check_padding_mode (mode : Z) : bool := negb ((mode <? 0) || (PADDING_MODE_COUNT <=? mode)).

(** The tail block: the rest of the text from [i] on, and the padding. *)
Definition add_padding (buf src : list Z) (i offset mode : Z) : outcome (option (list Z)) :=
  if negb (check_padding_mode mode) then Ret None
  else if 8 <=? offset then Ret None
  else
    rest ← mread src i offset;
    buf ← mwrite buf 0 rest;
    buf ← (if mode =? PADDING_MODE_ISO7816_4 then padding_add_iso7816_4 buf offset
           else padding_add_pkcs7 buf offset);
    Ret (Some buf).

Definition remove_padding (buf : list Z) (last mode : Z) : outcome (option Z) :=
  if negb (check_padding_mode mode) then Ret None
  else
    padding ← (if mode =? PADDING_MODE_ISO7816_4 then padding_remove_iso7816_4 buf last
               else padding_remove_pkcs7 buf last);
    Ret (Some padding).

(** ** The Lua functions *)

Definition des_key (key : list Z) : outcome (option (list Z)) :=
  if negb (zlen key =? 8) then Ret None else SK ← des_main_ks key; Ret (Some SK).

(** One turn of the block loops: the [int] counter goes up by 8. *)
Definition crypt_step (SK text : list Z) (limit : Z) (st : Z * list Z)
    : outcome ((Z * list Z) + (Z * list Z)) :=
  let '(i, buffer) := st in
  if i <? limit then
    buffer ← des_crypt SK text i buffer i;
    i' ← cint (i + 8);
    Ret (inl (i', buffer))
  else Ret (inr (i, buffer)).

Definition crypt_blocks (SK text : list Z) (limit : Z) (buffer : list Z) : outcome (Z * list Z) :=
  loop (S (length text)) (crypt_step SK text limit) (0, buffer).

(** The buffers are written before they are read; they start as zeros here. *)
Definition ldesencode (key text : list Z) (padding_mode : Z) : outcome (option (list Z)) :=
  o ← des_key key;
  match o with
  | None => Ret None
  | Some SK =>
      let textsz := zlen text in
      let chunksz := Z.land (textsz + 8) (-8) in
      '(i, buffer) ← crypt_blocks SK text (i32 textsz - 7) (replicate (Z.to_nat chunksz) 0);
      tail ← add_padding (replicate 8 0) text i (i32 (textsz - i)) padding_mode;
      match tail with
      | None => Ret None
      | Some tail => buffer ← des_crypt SK tail 0 buffer i; Ret (Some buffer)
      end
  end.

(** [SK[i] = ESK[30 - i]; SK[i + 1] = ESK[31 - i];] for even [i]. *)
Fixpoint reverse_pairs (ESK : list Z) : list Z :=
  match ESK with
  | k1 :: k2 :: ESK' => reverse_pairs ESK' ++ [k1; k2]
  | _ => []
  end.

Definition ldesdecode (key text : list Z) (padding_mode : Z) : outcome (option (list Z)) :=
  o ← des_key key;
  match o with
  | None => Ret None
  | Some ESK =>
      let SK := reverse_pairs ESK in
      let textsz := zlen text in
      if negb (Z.land textsz 7 =? 0) || (textsz =? 0) then Ret None
      else
        '(_, buffer) ← crypt_blocks SK text textsz (replicate (Z.to_nat textsz) 0);
        p ← remove_padding buffer (textsz - 1) padding_mode;
        match p with
        | None => Ret None
        | Some padding =>
            if (padding <=? 0) || (8 <? padding) then Ret None
            else Ret (Some (take (Z.to_nat (textsz - padding)) buffer))
        end
  end.

(** ** Words *)

Definition w32 (x : Z) : Prop := 0 ≤ x < 2 ^ 32.

Lemma w32_bits x : w32 x ↔ Z.land x (2 ^ 32 - 1) = x.
Proof.
  unfold w32. rewrite land_mask by done. split; [apply Z.mod_small|].
  intros <-. by apply Z.mod_pos_bound.
Qed.

Lemma w32_lxor x y : w32 x → w32 y → w32 (Z.lxor x y).
Proof.
  rewrite !w32_bits. intros Hx Hy. rewrite <-Hx, <-Hy at 2.
  apply Z.bits_inj'. intros n Hn.
  rewrite <-Hx, <-Hy. rewrite !Z.land_spec, !Z.lxor_spec, !Z.land_spec.
  destruct (Z.testbit x n), (Z.testbit y n), (Z.testbit (2 ^ 32 - 1) n); done.
Qed.

Lemma w32_land x m : 0 ≤ m < 2 ^ 32 → w32 (Z.land x m).
Proof.
  intros Hm. apply w32_bits. rewrite <-Z.land_assoc. f_equal.
  change (w32 m) in Hm. by apply w32_bits in Hm.
Qed.

Lemma w32_u32 x : w32 (u32 x).
Proof. by apply Z.mod_pos_bound. Qed.

(** A mask bounds what it selects. *)
Lemma land_le x m : 0 ≤ m → 0 ≤ Z.land x m ≤ m.
Proof.
  intros Hm. split; [apply Z.land_nonneg; by right|].
  pose proof (Z.ldiff_land m x) as _.
  assert (E : m = Z.lor (Z.land x m) (Z.ldiff m x)).
  { apply Z.bits_inj'. intros n Hn. rewrite Z.lor_spec, Z.land_spec, Z.ldiff_spec.
    by destruct (Z.testbit x n), (Z.testbit m n). }
  assert (H0 : Z.land (Z.land x m) (Z.ldiff m x) = 0).
  { apply Z.bits_inj'. intros n Hn. rewrite !Z.land_spec, Z.ldiff_spec, Z.bits_0.
    by destruct (Z.testbit x n), (Z.testbit m n). }
  pose proof (Z.add_nocarry_lor _ _ H0) as Hadd. rewrite <-E in Hadd.
  assert (0 ≤ Z.ldiff m x) by (apply Z.ldiff_nonneg; by left). lia.
Qed.

Lemma shl_small x k : 0 ≤ k → 0 ≤ x → x * 2 ^ k < 2 ^ 32 → shl x k = Z.shiftl x k.
Proof. intros. unfold shl, u32. rewrite Z.shiftl_mul_pow2 by done. apply Z.mod_small. lia. Qed.

(** ** The permutations *)

(** The swaps of bits undo themselves. *)
Lemma swap_bits_involutive k m xy : 0 ≤ k → 0 ≤ m → m * 2 ^ k < 2 ^ 32 →
  swap_bits k m (swap_bits k m xy) = xy.
Proof.
  intros Hk Hm Hmk. destruct xy as [X Y]. unfold swap_bits.
  set (T := Z.land (Z.lxor (Z.shiftr X k) Y) m).
  pose proof (land_le (Z.lxor (Z.shiftr X k) Y) m Hm) as HT. fold T in HT.
  assert (Hs : shl T k = Z.shiftl T k) by (apply shl_small; [done|lia|nia]).
  assert (E : Z.land (Z.lxor (Z.shiftr (Z.lxor X (shl T k)) k) (Z.lxor Y T)) m = T).
  { rewrite Hs, Z.shiftr_lxor, Z.shiftr_shiftl_l, Z.sub_diag by lia. rewrite Z.shiftl_0_r.
    unfold T at 3. f_equal. rewrite (Z.lxor_comm Y T), Z.lxor_assoc, <-(Z.lxor_assoc T T).
    by rewrite Z.lxor_nilpotent, Z.lxor_0_l. }
  rewrite E. by rewrite !Z.lxor_assoc, !Z.lxor_nilpotent, !Z.lxor_0_r.
Qed.

Lemma swap_bits_w32 k m xy : 0 ≤ m < 2 ^ 32 → w32 xy.1 → w32 xy.2 →
  w32 (swap_bits k m xy).1 ∧ w32 (swap_bits k m xy).2.
Proof.
  intros Hm HX HY. destruct xy as [X Y]. cbn. split; apply w32_lxor; try done.
  - apply w32_u32.
  - by apply w32_land.
Qed.

Lemma rotl1_eq x : w32 x → rotl1 x = x / 2 ^ 31 + x mod 2 ^ 31 * 2.
Proof.
  intros Hx. unfold rotl1, shl, u32, w32 in *. change 0xFFFFFFFF with (2 ^ 32 - 1).
  rewrite land_mask, Z.shiftl_mul_pow2, Z.shiftr_div_pow2 by done.
  replace (x * 2 ^ 1 mod 2 ^ 32) with (Z.shiftl (x mod 2 ^ 31) 1)
    by (rewrite Z.shiftl_mul_pow2 by done; zlia).
  rewrite lor_shiftl_l by zlia. apply Z.mod_small. zlia.
Qed.

Lemma rotr1_eq x : w32 x → rotr1 x = x / 2 + x mod 2 * 2 ^ 31.
Proof.
  intros Hx. unfold rotr1, shl, u32, w32 in *. change 0xFFFFFFFF with (2 ^ 32 - 1).
  rewrite land_mask, Z.shiftl_mul_pow2, Z.shiftr_div_pow2 by done.
  replace (x * 2 ^ 31 mod 2 ^ 32) with (Z.shiftl (x mod 2) 31)
    by (rewrite Z.shiftl_mul_pow2 by done; zlia).
  rewrite lor_shiftl_l by zlia. change (2 ^ 1) with 2. apply Z.mod_small. zlia.
Qed.

Lemma rot_inverse x : w32 x → rotr1 (rotl1 x) = x ∧ rotl1 (rotr1 x) = x ∧ w32 (rotl1 x) ∧ w32 (rotr1 x).
Proof.
  intros Hx. assert (Hl : w32 (rotl1 x)) by (rewrite rotl1_eq by done; unfold w32 in *; zlia).
  assert (Hr : w32 (rotr1 x)) by (rewrite rotr1_eq by done; unfold w32 in *; zlia).
  split_and!; [|..]; try done.
  - rewrite rotr1_eq, rotl1_eq by done. unfold w32 in *. zlia.
  - rewrite rotl1_eq, rotr1_eq by done. unfold w32 in *. zlia.
Qed.

Definition w32_pair (xy : Z * Z) : Prop := w32 xy.1 ∧ w32 xy.2.

Lemma DES_FP_IP xy : w32_pair xy → DES_FP (DES_IP xy) = xy ∧ w32_pair (DES_IP xy).
Proof.
  intros Hxy. unfold DES_IP, DES_FP.
  assert (Hsb : ∀ k m p, 0 ≤ m < 2 ^ 32 → w32_pair p → w32_pair (swap_bits k m p))
    by (intros k m p Hm [? ?]; by apply swap_bits_w32).
  assert (Hsw : ∀ p, w32_pair p → w32_pair (swap p)) by (by intros p [? ?]).
  assert (Hss : ∀ p, swap (swap p) = p) by (by intros []).
  set (a := swap_bits 4 _ xy). set (b := swap_bits 16 _ a).
  set (c := swap (swap_bits 2 _ (swap b))). set (d := swap (swap_bits 8 _ (swap c))).
  assert (Ha : w32_pair a) by by apply Hsb. assert (Hb : w32_pair b) by by apply Hsb.
  assert (Hc : w32_pair c) by by apply Hsw, Hsb, Hsw. assert (Hd : w32_pair d) by by apply Hsw, Hsb, Hsw.
  set (e := swap_bits 0 _ (d.1, rotl1 d.2)).
  destruct (rot_inverse d.2 (proj2 Hd)) as (E2 & _ & Hd2 & _).
  assert (He : w32_pair e) by (apply Hsb; [done|split; [apply Hd|done]]).
  destruct (rot_inverse e.1 (proj1 He)) as (E1 & _ & He1 & _).
  split; [|split; [done|apply He]]. cbn [fst snd]. rewrite E1.
  replace (e.1, e.2) with e by by destruct e.
  assert (Ee : swap_bits 0 0xAAAAAAAA e = (d.1, rotl1 d.2)) by by apply swap_bits_involutive.
  rewrite Ee. cbn [fst snd]. rewrite E2. replace (d.1, d.2) with d by by destruct d.
  unfold d. rewrite !Hss, swap_bits_involutive, ?Hss by done.
  unfold c. rewrite !Hss, swap_bits_involutive, ?Hss by done.
  unfold b. rewrite swap_bits_involutive by done. by apply swap_bits_involutive.
Qed.

Lemma DES_IP_FP xy : w32_pair xy → DES_IP (DES_FP xy) = xy ∧ w32_pair (DES_FP xy).
Proof.
  intros Hxy. unfold DES_IP, DES_FP.
  assert (Hsb : ∀ k m p, 0 ≤ m < 2 ^ 32 → w32_pair p → w32_pair (swap_bits k m p))
    by (intros k m p Hm [? ?]; by apply swap_bits_w32).
  assert (Hsw : ∀ p, w32_pair p → w32_pair (swap p)) by (by intros p [? ?]).
  assert (Hss : ∀ p, swap (swap p) = p) by (by intros []).
  destruct (rot_inverse xy.1 (proj1 Hxy)) as (_ & E1 & _ & H1).
  set (a := swap_bits 0 _ (rotr1 xy.1, xy.2)).
  assert (Ha : w32_pair a) by (apply Hsb; [done|split; [done|apply Hxy]]).
  destruct (rot_inverse a.2 (proj2 Ha)) as (_ & E2 & _ & H2).
  set (b := (a.1, rotr1 a.2)). assert (Hb : w32_pair b) by (split; [apply Ha|done]).
  set (c := swap (swap_bits 8 _ (swap b))). set (d := swap (swap_bits 2 _ (swap c))).
  set (e := swap_bits 16 _ d).
  assert (Hc : w32_pair c) by by apply Hsw, Hsb, Hsw. assert (Hd : w32_pair d) by by apply Hsw, Hsb, Hsw.
  assert (He : w32_pair e) by by apply Hsb.
  split; [|by apply Hsb].
  rewrite swap_bits_involutive by done. unfold e. rewrite swap_bits_involutive by done.
  unfold d. rewrite !Hss, swap_bits_involutive, ?Hss by done.
  unfold c. rewrite !Hss, swap_bits_involutive, ?Hss by done.
  cbn [fst snd b]. rewrite E2. replace (a.1, a.2) with a by by destruct a.
  unfold a. rewrite swap_bits_involutive by done. cbn [fst snd]. rewrite E1. by destruct xy.
Qed.

(** ** The rounds *)

Definition round_keys (SK : list Z) : Prop := Forall w32 SK ∧ ∃ n, length SK = (4 * n)%nat.

Lemma DES_ROUND_twice k1 k2 X Y : DES_ROUND k1 k2 X (DES_ROUND k1 k2 X Y) = Y.
Proof.
  unfold DES_ROUND. set (a := Z.lxor (Z.lxor (Z.lxor (entry_at SB8 _) _) _) _).
  set (b := Z.lxor (Z.lxor (Z.lxor (entry_at SB7 _) _) _) _).
  rewrite !Z.lxor_assoc. rewrite (Z.lxor_comm a b) at 1.
  rewrite <-(Z.lxor_assoc b b), Z.lxor_nilpotent, Z.lxor_0_l, Z.lxor_nilpotent, Z.lxor_0_r. done.
Qed.

Lemma entry_w32 l i : Forall w32 l → w32 (entry_at l i).
Proof.
  intros Hl. unfold entry_at. destruct (l !! _) as [x|] eqn:E; [|done].
  by eapply Forall_lookup_1 in Hl.
Qed.

Lemma tables_w32 :
  Forall w32 SB1 ∧ Forall w32 SB2 ∧ Forall w32 SB3 ∧ Forall w32 SB4 ∧
  Forall w32 SB5 ∧ Forall w32 SB6 ∧ Forall w32 SB7 ∧ Forall w32 SB8.
Proof. unfold w32. split_and!; repeat constructor; done. Qed.

Lemma DES_ROUND_w32 k1 k2 X Y : w32 Y → w32 (DES_ROUND k1 k2 X Y).
Proof.
  intros HY. destruct tables_w32 as (?&?&?&?&?&?&?&?). unfold DES_ROUND.
  repeat apply w32_lxor; try done; by apply entry_w32.
Qed.

Lemma four_ind (P : list Z → Prop) :
  (∀ l, (length l < 4)%nat → P l) →
  (∀ a b c d l, P l → P (a :: b :: c :: d :: l)) → ∀ l, P l.
Proof.
  intros Hs Hc l. remember (length l) as n eqn:Hn. revert l Hn.
  induction (lt_wf n) as [n _ IH]. intros l ->.
  destruct l as [|a [|b [|c [|d l]]]]; [apply Hs; cbn; lia..|].
  apply Hc. apply (IH (length l)); [cbn; lia|done].
Qed.

Lemma des_rounds_w32 SK X Y : w32 X → w32 Y → w32_pair (des_rounds SK X Y).
Proof.
  revert X Y. induction SK as [l Hl|a b c d l IH] using four_ind; intros X Y HX HY.
  - destruct l as [|? [|? [|? [|? ?]]]]; cbn in Hl; by (lia || split).
  - cbn. apply IH; by repeat apply DES_ROUND_w32.
Qed.

Lemma des_rounds_app A B n X Y : length A = (4 * n)%nat →
  des_rounds (A ++ B) X Y = des_rounds B (des_rounds A X Y).1 (des_rounds A X Y).2.
Proof.
  revert n X Y. induction A as [l Hl|a b c d l IH] using four_ind; intros n X Y Hn.
  - assert (n = 0)%nat as -> by lia. by destruct l.
  - destruct n as [|n]; [done|]. cbn. apply (IH n). cbn in Hn. lia.
Qed.

(** The reversed subkeys run the rounds backwards, on swapped halves. *)
Lemma des_rounds_reverse SK n X Y : length SK = (4 * n)%nat →
  (∃ m, length (reverse_pairs SK) = (4 * m)%nat) ∧
  des_rounds (reverse_pairs SK) (des_rounds SK X Y).2 (des_rounds SK X Y).1 = (Y, X).
Proof.
  revert n X Y. induction SK as [l Hl|k1 k2 k3 k4 l IH] using four_ind; intros n X Y Hn.
  - assert (n = 0)%nat as -> by lia. destruct l; [|done]. split; [by exists 0%nat|done].
  - destruct n as [|n]; [done|]. cbn [length] in Hn.
    assert (Hrev : reverse_pairs (k1 :: k2 :: k3 :: k4 :: l) = reverse_pairs l ++ [k3; k4; k1; k2])
      by (cbn; by rewrite <-app_assoc).
    rewrite Hrev. cbn [des_rounds].
    destruct (IH n (DES_ROUND k1 k2 Y X) (DES_ROUND k3 k4 (DES_ROUND k1 k2 Y X) Y) ltac:(lia))
      as ([m Hm] & E).
    split; [exists (S m); rewrite length_app, Hm; cbn; lia|].
    rewrite (des_rounds_app _ _ m) by done. rewrite E. cbn. by rewrite !DES_ROUND_twice.
Qed.

(** ** One block *)

(** Four bytes as a word, and back. *)
Definition word (b : list Z) (i : nat) : Z :=
  nth i b 0 * 2 ^ 24 + nth (i + 1) b 0 * 2 ^ 16 + nth (i + 2) b 0 * 2 ^ 8 + nth (i + 3) b 0.
Definition word_bytes (x : Z) : list Z :=
  [u8 (Z.shiftr x 24); u8 (Z.shiftr x 16); u8 (Z.shiftr x 8); u8 x].

(** The cipher on a block of 8 bytes. *)
Definition block (SK b : list Z) : list Z :=
  let XY := DES_IP (word b 0, word b 4) in
  let XY := des_rounds SK XY.1 XY.2 in
  let YX := DES_FP (XY.2, XY.1) in
  word_bytes YX.1 ++ word_bytes YX.2.

Lemma div_byte y b : is_byte b → (y * 256 + b) / 256 = y ∧ (y * 256 + b) mod 256 = b.
Proof.
  intros Hb. unfold is_byte in Hb. rewrite Z.add_comm, Z.div_add, Z.mod_add by lia.
  rewrite Z.div_small, Z.mod_small by lia. lia.
Qed.

Lemma div_256 x : x / 2 ^ 24 = x / 256 / 256 / 256 ∧ x / 2 ^ 16 = x / 256 / 256 ∧ x / 2 ^ 8 = x / 256.
Proof. by rewrite !Z.div_div. Qed.

Lemma word_bytes_word b0 b1 b2 b3 : is_byte b0 → is_byte b1 → is_byte b2 → is_byte b3 →
  word_bytes (word [b0; b1; b2; b3] 0) = [b0; b1; b2; b3] ∧ w32 (word [b0; b1; b2; b3] 0).
Proof.
  intros H0 H1 H2 H3. unfold word_bytes, word, u8, w32. cbn [nth Nat.add].
  set (w := b0 * 2 ^ 24 + b1 * 2 ^ 16 + b2 * 2 ^ 8 + b3).
  assert (Hw : w = ((b0 * 256 + b1) * 256 + b2) * 256 + b3) by (unfold w; lia).
  split; [|unfold is_byte in *; unfold w; lia].
  rewrite !Z.shiftr_div_pow2 by done. destruct (div_256 w) as (-> & -> & ->).
  change (2 ^ 8) with 256. rewrite Hw.
  destruct (div_byte ((b0 * 256 + b1) * 256 + b2) b3 H3) as [-> ->].
  destruct (div_byte (b0 * 256 + b1) b2 H2) as [-> ->].
  destruct (div_byte b0 b1 H1) as [-> ->]. rewrite Z.mod_small by (unfold is_byte in *; lia). done.
Qed.

Lemma word_word_bytes x rest : w32 x → word (word_bytes x ++ rest) 0 = x.
Proof.
  unfold w32, word, word_bytes, u8. cbn [nth Nat.add app]. intros Hx.
  rewrite !Z.shiftr_div_pow2 by done. destruct (div_256 x) as (-> & -> & ->).
  change (2 ^ 8) with 256.
  pose proof (Z.div_mod x 256). pose proof (Z.div_mod (x / 256) 256).
  pose proof (Z.div_mod (x / 256 / 256) 256).
  assert (x / 256 / 256 / 256 mod 256 = x / 256 / 256 / 256); [|lia].
  apply Z.mod_small. rewrite !Z.div_div by done. split; [apply Z.div_pos; lia|].
  apply Z.div_lt_upper_bound; lia.
Qed.

Lemma word_skip x b : word (word_bytes x ++ b) 4 = word b 0.
Proof. reflexivity. Qed.

Lemma zlen_word_bytes x : zlen (word_bytes x) = 4.
Proof. done. Qed.

Lemma word_bytes_ok x : length (word_bytes x) = 4%nat ∧ bytes (word_bytes x).
Proof.
  split; [done|]. repeat constructor; try apply Z.mod_pos_bound; try done.
Qed.

Lemma block_ok SK b : length (block SK b) = 8%nat ∧ bytes (block SK b).
Proof.
  unfold block. set (p := DES_FP _).
  destruct (word_bytes_ok p.1) as [? ?], (word_bytes_ok p.2) as [? ?].
  split; [done|by apply Forall_app].
Qed.

Lemma list8 {A} (b : list A) : length b = 8%nat →
  ∃ a0 a1 a2 a3 a4 a5 a6 a7, b = [a0; a1; a2; a3; a4; a5; a6; a7].
Proof.
  intros H. do 8 (destruct b as [|? b]; [done|]). destruct b; [|done]. by eexists _, _, _, _, _, _, _, _.
Qed.

(** Deciphering a block gives it back. *)
Lemma block_inverse SK n b : length SK = (4 * n)%nat → length b = 8%nat → bytes b →
  block (reverse_pairs SK) (block SK b) = b.
Proof.
  intros Hn Hb Hby. apply list8 in Hb as (a0&a1&a2&a3&a4&a5&a6&a7&->).
  repeat match goal with H : Forall _ (_ :: _) |- _ => apply Forall_cons in H as [? H] end.
  destruct (word_bytes_word a0 a1 a2 a3) as [E0 W0]; [done..|].
  destruct (word_bytes_word a4 a5 a6 a7) as [E4 W4]; [done..|].
  unfold block at 2.
  replace (word [a0; a1; a2; a3; a4; a5; a6; a7] 0) with (word [a0; a1; a2; a3] 0) by reflexivity.
  replace (word [a0; a1; a2; a3; a4; a5; a6; a7] 4) with (word [a4; a5; a6; a7] 0) by reflexivity.
  set (x0 := word [a0; a1; a2; a3] 0) in *. set (x4 := word [a4; a5; a6; a7] 0) in *.
  destruct (DES_FP_IP (x0, x4) (conj W0 W4)) as [Efi Hip].
  set (ip := DES_IP (x0, x4)) in *.
  pose proof (des_rounds_w32 SK ip.1 ip.2 (proj1 Hip) (proj2 Hip)) as Hr.
  destruct (des_rounds_reverse SK n ip.1 ip.2 Hn) as [_ Erev].
  set (r := des_rounds SK ip.1 ip.2) in *.
  destruct (DES_IP_FP (r.2, r.1)) as [Eif Hfp]; [exact (conj (proj2 Hr) (proj1 Hr))|].
  set (fp := DES_FP (r.2, r.1)) in *.
  unfold block. rewrite word_word_bytes by exact (proj1 Hfp).
  rewrite word_skip, <-(app_nil_r (word_bytes fp.2)).
  rewrite word_word_bytes by exact (proj2 Hfp).
  replace (fp.1, fp.2) with fp by by destruct fp.
  rewrite Eif. cbn [fst snd]. rewrite Erev. cbn [fst snd].
  replace (ip.1, ip.2) with ip by by destruct ip. rewrite Efi. cbn [fst snd].
  by rewrite E0, E4.
Qed.

Lemma GET_UINT32_at m i b0 b1 b2 b3 : mem_at m i [b0; b1; b2; b3] →
  is_byte b0 → is_byte b1 → is_byte b2 → is_byte b3 →
  GET_UINT32 m (Z.of_nat i) = Ret (word [b0; b1; b2; b3] 0).
Proof.
  intros Hm H0 H1 H2 H3. unfold GET_UINT32.
  assert (Hg : ∀ k b, [b0; b1; b2; b3] !! k = Some b → aget m (Z.of_nat i + Z.of_nat k) = Ret b).
  { intros k b Hk. apply aget_Ret. split; [lia|]. apply Hm in Hk. rewrite <-Hk. f_equal. lia. }
  pose proof (Hg 0%nat b0 eq_refl) as E0. rewrite Z.add_0_r in E0. rewrite E0. bsimpl.
  pose proof (Hg 1%nat b1 eq_refl) as E1. change (Z.of_nat 1) with 1 in E1. rewrite E1. bsimpl.
  pose proof (Hg 2%nat b2 eq_refl) as E2. change (Z.of_nat 2) with 2 in E2. rewrite E2. bsimpl.
  pose proof (Hg 3%nat b3 eq_refl) as E3. change (Z.of_nat 3) with 3 in E3. rewrite E3. bsimpl.
  f_equal. clear E0 E1 E2 E3 Hg Hm.
  unfold is_byte, word, shl, u32 in *. cbn [nth Nat.add].
  rewrite !Z.shiftl_mul_pow2 by done. rewrite !Z.mod_small by lia.
  rewrite <-!Z.shiftl_mul_pow2 by done.
  rewrite <-!Z.lor_assoc.
  rewrite (lor_shiftl_l b3 b2 8) by lia.
  rewrite (lor_shiftl_l _ b1 16) by lia. rewrite (lor_shiftl_l _ b0 24) by lia.
  rewrite !Z.shiftl_mul_pow2 by done. lia.
Qed.

(** [des_crypt] replaces 8 bytes of the output by the block of 8 bytes of input. *)
Lemma des_crypt_spec SK input i b output o : mem_at input i b → length b = 8%nat → bytes b →
  0 ≤ o → o + 8 ≤ zlen output →
  des_crypt SK input (Z.of_nat i) output o = mwrite output o (block SK b).
Proof.
  intros Hm Hl Hby H0 Ho. apply list8 in Hl as (a0&a1&a2&a3&a4&a5&a6&a7&->).
  repeat match goal with H : Forall _ (_ :: _) |- _ => apply Forall_cons in H as [? H] end.
  unfold des_crypt.
  change [a0; a1; a2; a3; a4; a5; a6; a7] with ([a0; a1; a2; a3] ++ [a4; a5; a6; a7]) in Hm.
  apply mem_at_app in Hm as [Hm1 Hm2]. cbn [length] in Hm2.
  rewrite (GET_UINT32_at input i a0 a1 a2 a3) by done. bsimpl.
  replace (Z.of_nat i + 4) with (Z.of_nat (i + 4)) by lia.
  rewrite (GET_UINT32_at input (i + 4) a4 a5 a6 a7) by done. bsimpl.
  change (word [a0; a1; a2; a3] 0) with (word [a0; a1; a2; a3; a4; a5; a6; a7] 0).
  change (word [a4; a5; a6; a7] 0) with (word [a0; a1; a2; a3; a4; a5; a6; a7] 4).
  unfold block. set (b := [a0; a1; a2; a3; a4; a5; a6; a7]).
  destruct (DES_IP (word b 0, word b 4)) as [X Y]. cbn [fst snd].
  destruct (des_rounds SK X Y) as [X' Y']. cbn [fst snd].
  destruct (DES_FP (Y', X')) as [Y2 X2]. cbn [fst snd].
  unfold PUT_UINT32. fold (word_bytes Y2) (word_bytes X2).
  pose proof (zlen_word_bytes Y2) as L1. pose proof (zlen_word_bytes X2) as L2.
  rewrite asets_in by lia.
  destruct (mwrite_spec output o (word_bytes Y2)) as (m1 & E1 & [Hz1 _] & _); [lia|lia|].
  rewrite E1. bsimpl. rewrite asets_in by lia.
  unfold mwrite in *. rewrite !(proj2 (Z.leb_le _ _)) in E1 by lia. cbn [andb] in E1.
  injection E1 as <-. rewrite zlen_app, L1, L2 in *.
  rewrite !(proj2 (Z.leb_le _ _)) by lia. cbn [andb]. f_equal.
  assert (Ht : length (take (Z.to_nat o) output) = Z.to_nat o)
    by (rewrite length_take; unfold zlen in *; lia).
  replace (Z.to_nat (o + 4)) with (Z.to_nat o + 4)%nat by lia.
  replace (Z.to_nat (o + 4 + 4)) with (Z.to_nat o + 4 + 4)%nat by lia.
  set (A := take (Z.to_nat o) output) in *. set (C := drop (Z.to_nat o + 4) output).
  assert (HAB : length (A ++ word_bytes Y2) = (Z.to_nat o + 4)%nat) by (rewrite length_app, Ht; done).
  assert (E1 : take (Z.to_nat o + 4) (A ++ word_bytes Y2 ++ C) = A ++ word_bytes Y2)
    by (rewrite app_assoc; by apply take_app_length').
  assert (E2 : drop (Z.to_nat o + 4 + 4) (A ++ word_bytes Y2 ++ C) = drop (Z.to_nat (o + 8)) output).
  { rewrite <-drop_drop, app_assoc, drop_app_length' by done. unfold C. rewrite drop_drop.
    f_equal. lia. }
  change (u8 (Z.shiftr Y2 24) :: _) with (word_bytes Y2 ++ C).
  rewrite E1, E2, zlen_app, L1, L2. rewrite (proj2 (Z.leb_le _ _)) by lia.
  by rewrite <-!app_assoc.
Qed.

(** ** Whole texts *)

(** The cipher on the first [n] blocks of a text. *)
Fixpoint crypt_list (SK : list Z) (n : nat) (text : list Z) : list Z :=
  match n with
  | O => []
  | S n' => block SK (take 8 text) ++ crypt_list SK n' (drop 8 text)
  end.

Lemma crypt_list_length SK n text : length (crypt_list SK n text) = (8 * n)%nat.
Proof.
  revert text. induction n as [|n IH]; intros text; cbn [crypt_list]; [done|].
  rewrite length_app, IH. destruct (block_ok SK (take 8 text)) as [-> _]. lia.
Qed.

Lemma crypt_list_bytes SK n text : bytes (crypt_list SK n text).
Proof.
  revert text. induction n as [|n IH]; intros text; cbn [crypt_list]; [done|].
  apply Forall_app. split; [apply block_ok|done].
Qed.

Lemma crypt_list_S SK n text :
  crypt_list SK (S n) text = crypt_list SK n text ++ block SK (take 8 (drop (8 * n) text)).
Proof.
  revert text. induction n as [|n IH]; intros text.
  { cbn [crypt_list app]. rewrite app_nil_r. by rewrite drop_0. }
  change (crypt_list SK (S (S n)) text) with (block SK (take 8 text) ++ crypt_list SK (S n) (drop 8 text)).
  rewrite IH. cbn [crypt_list]. rewrite <-app_assoc. do 4 f_equal. rewrite drop_drop. f_equal. lia.
Qed.

(** Deciphering what was enciphered. *)
Lemma crypt_list_inverse SK k n text rest : length SK = (4 * k)%nat →
  bytes text → (8 * n ≤ length text)%nat →
  crypt_list (reverse_pairs SK) n (crypt_list SK n text ++ rest) = take (8 * n) text.
Proof.
  intros Hk. revert text. induction n as [|n IH]; intros text Hb Hl; [by rewrite take_0|].
  assert (H8 : length (take 8 text) = 8%nat) by (rewrite length_take; lia).
  cbn [crypt_list]. rewrite <-app_assoc. destruct (block_ok SK (take 8 text)) as [Hbl _].
  rewrite take_app_length' by done. rewrite drop_app_length' by done.
  rewrite IH; [|by apply Forall_drop|rewrite length_drop; lia].
  rewrite (block_inverse SK k) by (try done; by apply Forall_take).
  replace (8 * S n)%nat with (8 + 8 * n)%nat by lia. by rewrite take_take_drop.
Qed.

(** Writing behind a prefix. *)
Lemma mwrite_app (A B bs : list Z) : (length bs ≤ length B)%nat →
  mwrite (A ++ B) (zlen A) bs = Ret (A ++ bs ++ drop (length bs) B).
Proof.
  intros Hl. unfold mwrite, zlen. rewrite length_app.
  rewrite !(proj2 (Z.leb_le _ _)) by lia. cbn [andb]. rewrite Nat2Z.id, take_app_length.
  replace (Z.to_nat (Z.of_nat (length A) + Z.of_nat (length bs))) with (length A + length bs)%nat by lia.
  by rewrite <-drop_drop, drop_app_length.
Qed.

Lemma mem_at_slice (m : list Z) a n : (a + n ≤ length m)%nat → mem_at m a (take n (drop a m)).
Proof.
  intros Hl k b Hk. apply lookup_take_Some in Hk as [Hk _]. by rewrite lookup_drop in Hk.
Qed.

(** The block loops: [n] turns, when the limit is in the last block. *)
Lemma crypt_blocks_spec SK text limit n buffer : bytes text →
  (8 * n ≤ length text)%nat → (8 * n ≤ length buffer)%nat → zlen text + 8 ≤ INT_MAX →
  8 * Z.of_nat n - 8 < limit ≤ 8 * Z.of_nat n ∨ (n = 0%nat ∧ limit ≤ 0) →
  crypt_blocks SK text limit buffer =
  Ret (8 * Z.of_nat n, crypt_list SK n text ++ drop (8 * n) buffer).
Proof.
  intros Hb Ht Hbuf Hmax Hlim. unfold crypt_blocks.
  destruct (loop_total
    (λ st, ∃ j, (j ≤ n)%nat ∧ st = (8 * Z.of_nat j, crypt_list SK j text ++ drop (8 * j) buffer))
    (λ st, Z.to_nat (8 * Z.of_nat n - st.1))
    (λ r, r = (8 * Z.of_nat n, crypt_list SK n text ++ drop (8 * n) buffer))
    (crypt_step SK text limit)) with (fuel := S (length text)) (s := (0, buffer)) as (r & -> & ->).
  - intros st (j & Hj & ->). unfold crypt_step.
    destruct (decide (j = n)) as [->|Hne].
    { right. rewrite (proj2 (Z.ltb_ge _ _)) by lia. by eexists. }
    left. rewrite (proj2 (Z.ltb_lt _ _)) by lia.
    assert (Hlj : zlen (crypt_list SK j text) = 8 * Z.of_nat j)
      by (unfold zlen; rewrite crypt_list_length; lia).
    set (blk := take 8 (drop (8 * j) text)).
    assert (Hd := des_crypt_spec SK text (8 * j) blk
      (crypt_list SK j text ++ drop (8 * j) buffer) (8 * Z.of_nat j)).
    replace (Z.of_nat (8 * j)) with (8 * Z.of_nat j) in Hd by lia.
    rewrite Hd; clear Hd.
    + destruct (block_ok SK blk) as [Hbl _].
      assert (Hw := mwrite_app (crypt_list SK j text) (drop (8 * j) buffer) (block SK blk)).
      rewrite Hlj in Hw. rewrite Hw by (rewrite length_drop; lia). bsimpl.
      rewrite cint_in by (unfold INT_MAX, INT_MIN, zlen in *; lia). bsimpl.
      eexists. split; [done|]. cbn [fst]. split; [|lia]. exists (S j). split; [lia|].
      rewrite crypt_list_S, <-app_assoc, Hbl, drop_drop. f_equal; [lia|]. do 3 f_equal. lia.
    + apply mem_at_slice. lia.
    + unfold blk. rewrite length_take, length_drop. lia.
    + by apply Forall_take, Forall_drop.
    + lia.
    + unfold zlen in *. rewrite length_app, crypt_list_length, length_drop. lia.
  - exists 0%nat. split; [lia|]. cbn. by rewrite drop_0.
  - cbn [fst]. lia.
  - done.
Qed.

(** ** Padding *)

Definition padding (mode r : Z) : list Z :=
  if mode =? PADDING_MODE_ISO7816_4 then 0x80 :: replicate (Z.to_nat (7 - r)) 0
  else replicate (Z.to_nat (8 - r)) (8 - r).

Lemma padding_length mode r : 0 ≤ r < 8 → zlen (padding mode r) = 8 - r.
Proof.
  intros Hr. unfold padding, zlen. destruct (_ =? _); cbn [length]; rewrite length_replicate; lia.
Qed.

Lemma padding_bytes mode r : 0 ≤ r < 8 → bytes (padding mode r).
Proof.
  intros Hr. unfold padding, is_byte. destruct (_ =? _).
  - constructor; [lia|]. apply Forall_replicate. lia.
  - apply Forall_replicate. lia.
Qed.

Lemma asets_app (A B bs : list Z) : (length bs ≤ length B)%nat →
  asets (A ++ B) (zlen A) bs = Ret (A ++ bs ++ drop (length bs) B).
Proof.
  intros Hl. rewrite asets_in; [by apply mwrite_app|apply zlen_nonneg|].
  rewrite zlen_app. unfold zlen. lia.
Qed.

Lemma add_padding_spec text i r mode : 0 ≤ i → 0 ≤ r < 8 → i + r = zlen text →
  mode = 0 ∨ mode = 1 →
  add_padding (replicate 8 0) text i r mode =
  Ret (Some (drop (Z.to_nat i) text ++ padding mode r)).
Proof.
  intros Hi Hr Hl Hmode. unfold add_padding.
  assert (Hc : check_padding_mode mode = true) by by destruct Hmode; subst. rewrite Hc. cbn [negb].
  rewrite (proj2 (Z.leb_gt _ _)) by lia.
  rewrite mread_in by lia. bsimpl. rewrite take_ge by (rewrite length_drop; unfold zlen in *; lia).
  set (rest := drop (Z.to_nat i) text).
  assert (Hrest : zlen rest = r) by (unfold rest, zlen in *; rewrite length_drop; lia).
  assert (Hw : mwrite (replicate 8 0) 0 rest = Ret (rest ++ drop (length rest) (replicate 8 0))).
  { apply (mwrite_app [] (replicate 8 0) rest). unfold zlen in Hrest. cbn [replicate length]. lia. }
  rewrite Hw. bsimpl. unfold padding.
  assert (Hd : length (drop (length rest) (replicate 8 0)) = Z.to_nat (8 - r))
    by (rewrite length_drop, length_replicate; unfold zlen in Hrest; lia).
  set (D := drop (length rest) (replicate 8 0)) in *.
  destruct (mode =? PADDING_MODE_ISO7816_4).
  - unfold padding_add_iso7816_4. rewrite <-Hrest.
    destruct D as [|d D]; [cbn in Hd; lia|].
    rewrite aset_in by (rewrite zlen_app, zlen_cons; pose proof (zlen_nonneg D); lia). bsimpl.
    assert (Hins : <[Z.to_nat (zlen rest) := 0x80]> (rest ++ d :: D) = (rest ++ [0x80]) ++ D).
    { unfold zlen. rewrite Nat2Z.id, insert_app_r_alt by lia. rewrite Nat.sub_diag. cbn.
      by rewrite <-app_assoc. }
    rewrite Hins. replace (zlen rest + 1) with (zlen (rest ++ [0x80])) by (rewrite zlen_app; done).
    cbn [length] in Hd.
    rewrite asets_app by (rewrite length_replicate; lia). bsimpl.
    rewrite length_replicate, (drop_ge D), app_nil_r by lia. by rewrite <-app_assoc.
  - unfold padding_add_pkcs7. rewrite <-Hrest.
    rewrite asets_app by (rewrite length_replicate; lia). bsimpl.
    rewrite length_replicate, (drop_ge D), app_nil_r by lia.
    unfold u8. by rewrite Z.mod_small by lia.
Qed.

(** Taking the padding off again. *)
Lemma remove_padding_spec text r mode : 0 ≤ r < 8 → mode = 0 ∨ mode = 1 →
  remove_padding (text ++ padding mode r) (zlen text + (8 - r) - 1) mode = Ret (Some (8 - r)).
Proof.
  intros Hr Hmode. unfold remove_padding.
  assert (Hc : check_padding_mode mode = true) by by destruct Hmode; subst. rewrite Hc. cbn [negb].
  unfold padding. destruct (mode =? PADDING_MODE_ISO7816_4).
  - set (m := text ++ _).
    assert (Hz : ∀ k, 0 ≤ k < 7 - r → aget m (zlen text + (8 - r) - 1 - k) = Ret 0).
    { intros k Hk. apply aget_Ret. split; [unfold zlen; lia|]. unfold m.
      rewrite lookup_app_r by (unfold zlen; lia). apply lookup_cons_Some. right.
      split; [unfold zlen; lia|]. apply lookup_replicate. split; [done|unfold zlen; lia]. }
    assert (H80 : aget m (zlen text) = Ret 0x80).
    { apply aget_Ret. split; [unfold zlen; lia|]. unfold m, zlen. rewrite Nat2Z.id.
      by rewrite lookup_app_r, Nat.sub_diag by lia. }
    unfold padding_remove_iso7816_4. match goal with |- context [loop _ ?b _] => set (body := b) end.
    destruct (loop_total (λ '(i, last, p), 0 ≤ i ≤ 7 - r ∧ last = zlen text + (8 - r) - 1 - i ∧ p = 1 + i)
      (λ '(i, _, _), Z.to_nat (8 - i)) (λ p, p = 8 - r) body) with
      (fuel := 9%nat) (s := (0, zlen text + (8 - r) - 1, 1)) as (p & -> & ->); [|lia|lia|done].
    intros [[i last] p] (Hi & -> & ->). unfold body.
    rewrite (proj2 (Z.ltb_lt i 8)) by lia.
    destruct (decide (i < 7 - r)).
    + rewrite Hz by lia. bsimpl. left. eexists. split; [done|]. cbv beta iota. lia.
    + right. replace (zlen text + (8 - r) - 1 - i) with (zlen text) by lia. rewrite H80. bsimpl.
      eexists. split; [done|]. lia.
  - set (m := text ++ _).
    assert (Hp : ∀ k, 0 ≤ k < 8 - r → aget m (zlen text + (8 - r) - 1 - k) = Ret (8 - r)).
    { intros k Hk. apply aget_Ret. split; [unfold zlen; lia|]. unfold m.
      rewrite lookup_app_r by (unfold zlen; lia). apply lookup_replicate. split; [done|unfold zlen; lia]. }
    unfold padding_remove_pkcs7.
    pose proof (Hp 0 ltac:(lia)) as E0. rewrite Z.sub_0_r in E0. rewrite E0. bsimpl. match goal with |- context [loop _ ?b _] => set (body := b) end.
    destruct (loop_total (λ '(i, last), 1 ≤ i ≤ 8 - r ∧ last = zlen text + (8 - r) - 1 - (i - 1))
      (λ '(i, _), Z.to_nat (8 - r - i)) (λ p, p = 8 - r) body) with
      (fuel := S (Z.to_nat (8 - r))) (s := (1, zlen text + (8 - r) - 1)) as (p & -> & ->); [|lia|lia|done].
    intros [i last] (Hi & ->). unfold body.
    destruct (Z.ltb_spec i (8 - r)).
    + left. replace (zlen text + (8 - r) - 1 - (i - 1) - 1) with (zlen text + (8 - r) - 1 - i) by lia.
      rewrite Hp by lia. bsimpl. rewrite Z.eqb_refl. cbn [negb]. eexists. split; [done|]. cbv beta iota. lia.
    + right. eexists. split; [done|]. lia.
Qed.

(** ** The key schedule *)

Lemma ks_loop_length n i X Y : length (ks_loop n i X Y) = (2 * n)%nat.
Proof.
  revert i X Y. induction n as [|n IH]; intros i X Y; cbn [ks_loop]; [done|].
  rewrite length_app, IH. cbn [length subkeys]. lia.
Qed.

Lemma des_key_ok key : zlen key = 8 → ∃ SK, des_key key = Ret (Some SK) ∧ length SK = 32%nat.
Proof.
  intros Hk. unfold des_key. rewrite Hk. cbn [Z.eqb Pos.eqb negb].
  apply (f_equal Z.to_nat) in Hk. unfold zlen in Hk. rewrite Nat2Z.id in Hk.
  apply list8 in Hk as (a0&a1&a2&a3&a4&a5&a6&a7&->).
  unfold des_main_ks.
  assert (E0 : ∃ X, GET_UINT32 [a0; a1; a2; a3; a4; a5; a6; a7] 0 = Ret X) by by eexists.
  assert (E4 : ∃ Y, GET_UINT32 [a0; a1; a2; a3; a4; a5; a6; a7] 4 = Ret Y) by by eexists.
  destruct E0 as [X ->], E4 as [Y ->]. bsimpl. eexists. split; [done|]. apply ks_loop_length.
Qed.

Lemma land_8 n : Z.land (n + 8) (-8) = 8 * (n / 8 + 1).
Proof.
  change (-8) with (Z.lnot 7). rewrite <-Z.ldiff_land. change 7 with (Z.ones 3).
  rewrite Z.ldiff_ones_r, Z.shiftr_div_pow2, Z.shiftl_mul_pow2 by done.
  change (2 ^ 3) with 8. replace (n + 8) with (n + 1 * 8) by lia. rewrite Z.div_add by done. lia.
Qed.

(** What [desencode] returns: the blocks of the text and the padded tail. *)
Lemma desencode_spec key text mode SK : des_key key = Ret (Some SK) → bytes text →
  zlen text + 8 ≤ INT_MAX → mode = 0 ∨ mode = 1 →
  ldesencode key text mode =
  Ret (Some (crypt_list SK (length text / 8) text ++
    block SK (drop (8 * (length text / 8)) text ++ padding mode (zlen text mod 8)))).
Proof.
  intros HSK Hb Hmax Hmode. unfold ldesencode. rewrite HSK. bsimpl.
  set (n := (length text / 8)%nat). set (r := zlen text mod 8).
  pose proof (Nat.div_mod_eq (length text) 8) as Hdm. fold n in Hdm.
  pose proof (Nat.mod_upper_bound (length text) 8 ltac:(lia)) as Hmb.
  assert (Hzr : zlen text = 8 * Z.of_nat n + r ∧ 0 ≤ r < 8).
  { assert (Hn : Z.of_nat n = zlen text / 8) by (unfold n, zlen; by rewrite Nat2Z.inj_div).
    rewrite Hn. unfold r. zlia. }
  destruct Hzr as [Hz Hr].
  assert (Hi : i32 (zlen text) = zlen text) by (unfold i32, INT_MAX in *; rewrite Z.mod_small by lia; lia).
  assert (Hc : zlen text / 8 = Z.of_nat n) by (rewrite Hz; zlia).
  rewrite Hi, land_8, Hc.
  rewrite (crypt_blocks_spec SK text _ n); [|done|unfold zlen in *; lia| |done|lia].
  2: { rewrite length_replicate. lia. }
  bsimpl. replace (i32 (zlen text - 8 * Z.of_nat n)) with r
    by (unfold i32, INT_MAX in *; rewrite Z.mod_small by lia; lia).
  rewrite add_padding_spec by (done || lia). bsimpl.
  set (tail := drop _ text ++ padding mode r).
  assert (Hlt : length tail = 8%nat).
  { pose proof (padding_length mode r Hr) as Hp. unfold tail, zlen in *.
    rewrite length_app, length_drop. lia. }
  assert (Hbt : bytes tail) by (apply Forall_app; split; [by apply Forall_drop|by apply padding_bytes]).
  set (buf := crypt_list SK n text ++ _).
  assert (Hlb : zlen buf = 8 * Z.of_nat n + 8).
  { unfold buf, zlen. rewrite length_app, crypt_list_length, length_drop, length_replicate. lia. }
  assert (Hd : des_crypt SK tail 0 buf (8 * Z.of_nat n) = mwrite buf (8 * Z.of_nat n) (block SK tail)).
  { apply (des_crypt_spec SK tail 0); [|done|done|lia|lia]. intros k b Hk. done. }
  rewrite Hd. unfold buf.
  assert (Hw := mwrite_app (crypt_list SK n text)
    (drop (8 * n) (replicate (Z.to_nat (8 * (Z.of_nat n + 1))) 0)) (block SK tail)).
  unfold zlen at 1 in Hw. rewrite crypt_list_length in Hw.
  replace (Z.of_nat (8 * n)) with (8 * Z.of_nat n) in Hw by lia.
  destruct (block_ok SK tail) as [Hbl _]. rewrite Hbl in Hw.
  rewrite Hw by (rewrite length_drop, length_replicate; lia). bsimpl.
  rewrite (drop_ge _ 8), app_nil_r by (rewrite length_drop, length_replicate; lia).
  do 4 f_equal. unfold tail. do 2 f_equal. lia.
Qed.

(** What [desdecode] deciphers before it looks at the padding. *)
Lemma desdecode_spec key text mode SK : des_key key = Ret (Some SK) → bytes text →
  zlen text + 8 ≤ INT_MAX → 0 < zlen text → zlen text mod 8 = 0 →
  let buffer := crypt_list (reverse_pairs SK) (length text / 8) text in
  zlen buffer = zlen text ∧
  ldesdecode key text mode =
    (p ← remove_padding buffer (zlen text - 1) mode;
     match p with
     | None => Ret None
     | Some padding =>
         if (padding <=? 0) || (8 <? padding) then Ret None
         else Ret (Some (take (Z.to_nat (zlen text - padding)) buffer))
     end).
Proof.
  intros HSK Hb Hmax Hpos Hmod buffer. unfold ldesdecode. rewrite HSK. bsimpl.
  change 7 with (2 ^ 3 - 1). rewrite land_mask by done. change (2 ^ 3) with 8. rewrite Hmod.
  rewrite (proj2 (Z.eqb_neq (zlen text) 0)) by lia. cbn [Z.eqb negb orb].
  set (n := (length text / 8)%nat).
  assert (Hn : zlen text = 8 * Z.of_nat n).
  { assert (Hn : Z.of_nat n = zlen text / 8) by (unfold n, zlen; by rewrite Nat2Z.inj_div).
    rewrite Hn. zlia. }
  rewrite (crypt_blocks_spec (reverse_pairs SK) text _ n); [|done|unfold zlen in *; lia| |done|lia].
  2: { rewrite length_replicate. lia. }
  bsimpl. rewrite drop_ge, app_nil_r by (rewrite length_replicate; lia).
  split; [|done]. unfold buffer, zlen in *. rewrite crypt_list_length. lia.
Qed.

(** ** Results *)

(** C32: DES round trip. With a key of 8 bytes and either padding, [desencode]
    of any text (of a length an [int] holds) returns the next multiple of 8
    bytes, and [desdecode] with the same key and padding returns the text:
    the reversed subkeys undo the 16 rounds, the final permutation undoes the
    initial one, and the padding taken off is the one that was added. *)
Theorem des_round_trip key text mode :
  zlen key = 8 → bytes text → zlen text + 16 ≤ INT_MAX → mode = 0 ∨ mode = 1 →
  ∃ c, ldesencode key text mode = Ret (Some c) ∧ zlen c = 8 * (zlen text / 8 + 1) ∧ bytes c ∧
    ldesdecode key c mode = Ret (Some text).
Proof.
  intros Hkey Hb Hmax Hmode. destruct (des_key_ok key Hkey) as (SK & HSK & Hlen).
  rewrite (desencode_spec key text mode SK) by (done || lia).
  set (n := (length text / 8)%nat). set (r := zlen text mod 8).
  pose proof (Nat.div_mod_eq (length text) 8) as Hdm. fold n in Hdm.
  pose proof (Nat.mod_upper_bound (length text) 8 ltac:(lia)) as Hmb.
  assert (Hzr : zlen text = 8 * Z.of_nat n + r ∧ 0 ≤ r < 8).
  { assert (Hn : Z.of_nat n = zlen text / 8) by (unfold n, zlen; by rewrite Nat2Z.inj_div).
    rewrite Hn. unfold r. zlia. }
  destruct Hzr as [Hz Hr].
  set (tail := drop (8 * n) text ++ padding mode r).
  assert (Hlt : length tail = 8%nat).
  { pose proof (padding_length mode r Hr) as Hp. unfold tail, zlen in *.
    rewrite length_app, length_drop. lia. }
  assert (Hbt : bytes tail) by (apply Forall_app; split; [by apply Forall_drop|by apply padding_bytes]).
  destruct (block_ok SK tail) as [Hbl Hbb].
  eexists. split; [done|].
  assert (Hlc : zlen (crypt_list SK n text ++ block SK tail) = 8 * (Z.of_nat n + 1)).
  { unfold zlen. rewrite length_app, crypt_list_length, Hbl. lia. }
  split; [rewrite Hlc; zlia|]. split; [apply Forall_app; split; [apply crypt_list_bytes|done]|].
  destruct (desdecode_spec key (crypt_list SK n text ++ block SK tail) mode SK) as [_ ->];
    [done|apply Forall_app; split; [apply crypt_list_bytes|done]|lia|lia|rewrite Hlc; zlia|].
  assert (Hn1 : (length (crypt_list SK n text ++ block SK tail) / 8)%nat = S n).
  { rewrite length_app, crypt_list_length, Hbl. replace (8 * n + 8)%nat with (S n * 8)%nat by lia.
    by apply Nat.div_mul. }
  rewrite Hn1, crypt_list_S.
  rewrite (crypt_list_inverse SK 8) by (done || lia).
  rewrite drop_app_length' by (by rewrite crypt_list_length).
  rewrite (take_ge (block SK tail)) by lia. rewrite (block_inverse SK 8) by done.
  assert (Htext : take (8 * n) text ++ tail = text ++ padding mode r)
    by (unfold tail; by rewrite app_assoc, take_drop).
  rewrite Htext, Hlc. replace (8 * (Z.of_nat n + 1) - 1) with (zlen text + (8 - r) - 1) by lia.
  rewrite remove_padding_spec by (done || lia). bsimpl.
  rewrite (proj2 (Z.leb_gt (8 - r) 0)), (proj2 (Z.ltb_ge 8 (8 - r))) by lia. cbn [orb].
  do 2 f_equal. rewrite take_app_length'; [done|]. unfold zlen in *. lia.
Qed.

(** the PKCS7 check reads in front of the buffer. The last byte says how
    many equal bytes to look at, and it is compared with 8 only afterwards: for
    every key there is a text of one block, the cipher of eight bytes 9, on
    which [desdecode] reads the byte before its buffer. *)
Theorem pkcs7_reads_before_buffer key : zlen key = 8 →
  ∃ c, zlen c = 8 ∧ bytes c ∧ ldesdecode key c PADDING_MODE_PKCS7 = Undef.
Proof.
  intros Hkey. destruct (des_key_ok key Hkey) as (SK & HSK & Hlen).
  set (nines := replicate 8 9).
  assert (Hb9 : bytes nines) by (apply Forall_replicate; unfold is_byte; lia).
  destruct (block_ok SK nines) as [Hbl Hbb].
  exists (block SK nines). split; [unfold zlen; by rewrite Hbl|]. split; [done|].
  assert (Hz : zlen (block SK nines) = 8) by (unfold zlen; by rewrite Hbl).
  destruct (desdecode_spec key (block SK nines) PADDING_MODE_PKCS7 SK) as [_ ->];
    [done|done|unfold INT_MAX; lia|lia|by rewrite Hz|].
  rewrite Hbl, Hz. change (8 / 8)%nat with 1%nat. cbn [crypt_list]. rewrite app_nil_r.
  rewrite take_ge by lia. rewrite (block_inverse SK 8) by done. done.
Qed.

(** ISO 7816-4 looks at 8 bytes only, so it stays in the buffer. *)
Lemma iso7816_total buf : 8 ≤ zlen buf →
  ∃ p, padding_remove_iso7816_4 buf (zlen buf - 1) = Ret p ∧ 0 ≤ p ≤ 8.
Proof.
  intros Hl. unfold padding_remove_iso7816_4.
  match goal with |- context [loop _ ?b _] => set (body := b) end.
  apply (loop_total (λ '(i, last, p), 0 ≤ i ≤ 8 ∧ last = zlen buf - 1 - i ∧ p = 1 + i)
    (λ '(i, _, _), Z.to_nat (8 - i)) (λ p, 0 ≤ p ≤ 8) body); [|lia|lia].
  intros [[i last] p] (Hi & -> & ->). unfold body.
  destruct (Z.ltb_spec i 8); [|right; eexists; split; [done|lia]].
  destruct (aget_in buf (zlen buf - 1 - i)) as (b & -> & _); [lia|]. bsimpl.
  destruct (b =? 0); [left|right; destruct (b =? 0x80)]; eexists; (split; [done|]); cbv beta iota; lia.
Qed.

(** bad input to [desdecode] is an error, not a crash, in the default
    padding mode. A key that is not 8 bytes long, a text that is empty or not
    a multiple of 8 bytes long, and an unknown padding mode give a Lua error;
    on every other text the default mode returns: an error when the
    deciphered bytes do not end in the padding, and otherwise those bytes
    without 1 to 8 of them. *)
Theorem desdecode_errors key text mode :
  bytes text → zlen text + 8 ≤ INT_MAX →
  (zlen key ≠ 8 → ldesdecode key text mode = Ret None) ∧
  (zlen key = 8 → zlen text mod 8 ≠ 0 ∨ zlen text = 0 → ldesdecode key text mode = Ret None) ∧
  (zlen key = 8 → zlen text mod 8 = 0 → 0 < zlen text → mode < 0 ∨ 2 ≤ mode →
     ldesdecode key text mode = Ret None) ∧
  (zlen key = 8 → zlen text mod 8 = 0 → 0 < zlen text →
     ldesdecode key text PADDING_MODE_ISO7816_4 = Ret None ∨
     ∃ out, ldesdecode key text PADDING_MODE_ISO7816_4 = Ret (Some out) ∧ bytes out ∧
       zlen text - 8 ≤ zlen out < zlen text).
Proof.
  intros Hb Hmax. split_and!.
  - intros Hk. unfold ldesdecode, des_key. by rewrite (proj2 (Z.eqb_neq (zlen key) 8) Hk).
  - intros Hk Ht. destruct (des_key_ok key Hk) as (SK & HSK & _). unfold ldesdecode. rewrite HSK. bsimpl.
    change 7 with (2 ^ 3 - 1). rewrite land_mask by done. change (2 ^ 3) with 8.
    destruct Ht as [Ht|Ht].
    + by rewrite (proj2 (Z.eqb_neq (zlen text mod 8) 0) Ht).
    + by rewrite Ht.
  - intros Hk Ht Hp Hm. destruct (des_key_ok key Hk) as (SK & HSK & _).
    destruct (desdecode_spec key text mode SK HSK Hb Hmax Hp Ht) as [_ ->].
    unfold remove_padding, check_padding_mode, PADDING_MODE_COUNT.
    destruct (Z.ltb_spec mode 0), (Z.leb_spec 2 mode); done || lia.
  - intros Hk Ht Hp. destruct (des_key_ok key Hk) as (SK & HSK & _).
    destruct (desdecode_spec key text PADDING_MODE_ISO7816_4 SK HSK Hb Hmax Hp Ht) as [Hl ->].
    set (buf := crypt_list _ _ _) in *.
    assert (8 ≤ zlen text) by zlia.
    change (remove_padding buf (zlen text - 1) PADDING_MODE_ISO7816_4) with
      (p ← padding_remove_iso7816_4 buf (zlen text - 1); Ret (Some p)).
    rewrite <-Hl. destruct (iso7816_total buf) as (p & -> & Hp8); [lia|]. bsimpl.
    destruct (Z.leb_spec p 0), (Z.ltb_spec 8 p); cbn [orb]; try by left.
    right. eexists. split; [done|]. split; [apply Forall_take, crypt_list_bytes|].
    unfold zlen in *. rewrite length_take. lia.
Qed.

(** ** Examples *)

(** The key and the block of the well-known worked example of DES. *)
Definition example_key : list Z := [0x13; 0x34; 0x57; 0x79; 0x9B; 0xBC; 0xDF; 0xF1].
Definition example_text : list Z := [0x01; 0x23; 0x45; 0x67; 0x89; 0xAB; 0xCD; 0xEF].

Lemma des_round_trip_witness :
  ∃ c, ldesencode example_key example_text 0 = Ret (Some c) ∧
    take 8 c = [0x85; 0xE8; 0x13; 0x54; 0x0F; 0x0A; 0xB4; 0x05] ∧
    ldesdecode example_key c 0 = Ret (Some example_text).
Proof.
  destruct (des_round_trip example_key example_text 0) as (c & E & _ & _ & D).
  - done.
  - repeat constructor; done.
  - done.
  - by left.
  - exists c. split_and!; [done| |done]. revert E. vm_compute. by intros [= <-].
Defined.

Lemma pkcs7_reads_before_buffer_witness :
  ∃ c, zlen c = 8 ∧ ldesdecode example_key c 1 = Undef.
Proof.
  destruct (pkcs7_reads_before_buffer example_key) as (c & Hl & _ & Hu); [done|]. by exists c.
Defined.

Lemma desdecode_errors_witness :
  ldesdecode example_key [1; 2; 3] 0 = Ret None ∧ ldesdecode [1; 2] [1; 2; 3] 0 = Ret None.
Proof.
  assert (Hb : bytes [1; 2; 3]) by (repeat constructor; done).
  split.
  - apply (proj1 (proj2 (desdecode_errors example_key [1; 2; 3] 0 Hb ltac:(done)))); [done|by left].
  - by apply (proj1 (desdecode_errors [1; 2] [1; 2; 3] 0 Hb ltac:(done))).
Defined.
