(* ===== verification/Crypt.v ===== *)
(** * Hashes, key exchange and text encodings

    The model of the rest of [lualib-src/lua-crypt.cpp]: [hashkey],
    [randomkey], [hexencode]/[hexdecode], [hmac64], [hmac64_md5],
    [hmac_hash], [dhexchange]/[dhsecret], [base64encode]/[base64decode] and
    [xor_str]. A Lua error is the result [None]. *)
From Stdlib Require Import Zpow_facts.
From S2P Require Import Prelude Des.

Local Open Scope Z_scope.

Definition SMALL_CHUNK : Z := 256.

(** The buffer of a Lua function that needs [n] bytes: [char tmp[SMALL_CHUNK]]
    or a userdata. Its bytes are written before they are pushed. *)
Definition lua_buffer (n : Z) : list Z := replicate (Z.to_nat (Z.max n SMALL_CHUNK)) 0.

(** ** Keys *)

(** [draws] are the results of the eight calls of [random]. *)
Definition lrandomkey (draws : list Z) : list Z :=
  let tmp := (λ r, Z.land r 0xff) <$> take 8 draws in
  let x := foldl Z.lxor 0 tmp in
  if x =? 0 then match tmp with t0 :: tmp' => Z.lor t0 1 :: tmp' | [] => [] end else tmp.

(** [u32] sums of the hash functions, byte after byte. *)
Definition hash_step (h : Z * Z) (c : Z) : Z * Z :=
  let '(djb_hash, js_hash) := h in
  (u32 (djb_hash + (u32 (shl djb_hash 5 + c))),
   Z.lxor js_hash (u32 (u32 (shl js_hash 5 + c) + Z.shiftr js_hash 2))).

Definition Hash (str : list Z) : list Z :=
  let '(djb_hash, js_hash) := foldl hash_step (5381, 1315423911) str in
  le_bytes 4 djb_hash ++ le_bytes 4 js_hash.

Definition lhashkey (key : list Z) : list Z := Hash key.

(** ** Hexadecimal *)

Definition hex_digits : list Z :=
  [48; 49; 50; 51; 52; 53; 54; 55; 56; 57; 97; 98; 99; 100; 101; 102].

Definition hex_step (text : list Z) (i : Z) (buffer : list Z) : outcome (list Z) :=
  b ← aget text i;
  hi ← aget hex_digits (Z.shiftr b 4);
  buffer ← aset buffer (i * 2) hi;
  lo ← aget hex_digits (Z.land b 0xf);
  aset buffer (i * 2 + 1) lo.

Definition ltohex (text : list Z) : outcome (list Z) :=
  let sz := zlen text in
  let buffer := if SMALL_CHUNK / 2 <? sz then replicate (Z.to_nat (sz * 2)) 0
                else replicate (Z.to_nat SMALL_CHUNK) 0 in
  buffer ← for_loop (Z.to_nat sz) 0 (hex_step text) buffer;
  mread buffer 0 (sz * 2).

(** [HEX(v, c)]: [tmp] is a (signed) [char], [v] a [uint8_t]. *)
Definition HEX (c : Z) : Z :=
  let tmp := if c <? 128 then c else c - 256 in
  if (48 <=? tmp) && (tmp <=? 57) then u8 (tmp - 48) else u8 (tmp - 97 + 10).

Definition unhex_step (text : list Z) (k : Z) (buffer : list Z) : outcome (option (list Z)) :=
  c1 ← aget text (k * 2);
  c2 ← aget text (k * 2 + 1);
  let hi := HEX c1 in
  let low := HEX c2 in
  if (16 <? hi) || (16 <? low) then Ret None
  else buffer ← aset buffer k (u8 (Z.lor (Z.shiftl hi 4) low)); Ret (Some buffer).

(** Turn [k] of the loop has [i = 2 * k]. *)
Definition lfromhex (text : list Z) : outcome (option (list Z)) :=
  let sz := zlen text in
  if negb (Z.land sz 1 =? 0) then Ret None
  else
    let buffer := if SMALL_CHUNK * 2 <? sz then replicate (Z.to_nat (sz / 2)) 0
                  else replicate (Z.to_nat SMALL_CHUNK) 0 in
    o ← for_opt (Z.to_nat (sz / 2)) 0 (unhex_step text) buffer;
    match o with
    | None => Ret None
    | Some buffer => out ← mread buffer 0 (sz / 2); Ret (Some out)
    end.

(** ** MD5 *)

Definition k : list Z := [0xd76aa478; 0xe8c7b756; 0x242070db; 0xc1bdceee; 0xf57c0faf; 0x4787c62a;
  0xa8304613; 0xfd469501; 0x698098d8; 0x8b44f7af; 0xffff5bb1; 0x895cd7be;
  0x6b901122; 0xfd987193; 0xa679438e; 0x49b40821; 0xf61e2562; 0xc040b340;
  0x265e5a51; 0xe9b6c7aa; 0xd62f105d; 0x02441453; 0xd8a1e681; 0xe7d3fbc8;
  0x21e1cde6; 0xc33707d6; 0xf4d50d87; 0x455a14ed; 0xa9e3e905; 0xfcefa3f8;
  0x676f02d9; 0x8d2a4c8a; 0xfffa3942; 0x8771f681; 0x6d9d6122; 0xfde5380c;
  0xa4beea44; 0x4bdecfa9; 0xf6bb4b60; 0xbebfbc70; 0x289b7ec6; 0xeaa127fa;
  0xd4ef3085; 0x04881d05; 0xd9d4d039; 0xe6db99e5; 0x1fa27cf8; 0xc4ac5665;
  0xf4292244; 0x432aff97; 0xab9423a7; 0xfc93a039; 0x655b59c3; 0x8f0ccc92;
  0xffeff47d; 0x85845dd1; 0x6fa87e4f; 0xfe2ce6e0; 0xa3014314; 0x4e0811a1;
  0xf7537e82; 0xbd3af235; 0x2ad7d2bb; 0xeb86d391].

Definition r : list Z := [7; 12; 17; 22; 7; 12; 17; 22; 7; 12; 17; 22; 7; 12; 17; 22;
  5; 9; 14; 20; 5; 9; 14; 20; 5; 9; 14; 20; 5; 9; 14; 20;
  4; 11; 16; 23; 4; 11; 16; 23; 4; 11; 16; 23; 4; 11; 16; 23;
  6; 10; 15; 21; 6; 10; 15; 21; 6; 10; 15; 21; 6; 10; 15; 21].

Definition not32 (x : Z) : Z := Z.lxor x 0xFFFFFFFF.

Definition LEFTROTATE (x c : Z) : Z := Z.lor (shl x c) (Z.shiftr x (32 - c)).

(** One of the 64 turns; [w] is the message block. *)
Definition md5_step (w : list Z) (i : Z) (st : Z * Z * Z * Z) : outcome (Z * Z * Z * Z) :=
  let '(a, b, c, d) := st in
  let '(f, g) :=
    if i <? 16 then (Z.lor (Z.land b c) (Z.land (not32 b) d), i)
    else if i <? 32 then (Z.lor (Z.land d b) (Z.land (not32 d) c), (5 * i + 1) mod 16)
    else if i <? 48 then (Z.lxor (Z.lxor b c) d, (3 * i + 5) mod 16)
    else (Z.lxor c (Z.lor b (not32 d)), (7 * i) mod 16) in
  ki ← aget k i;
  wg ← aget w g;
  ri ← aget r i;
  Ret (d, u32 (b + LEFTROTATE (u32 (u32 (u32 (a + f) + ki) + wg)) ri), b, c).

Definition digest_md5 (w : list Z) : outcome (Z * Z * Z * Z) :=
  for_loop 64 0 (md5_step w) (0x67452301, 0xefcdab89, 0x98badcfe, 0x10325476).

(** [hmac]: [x] and [y] are pairs of 32-bit words. *)
Definition hmac (x y : Z * Z) : outcome (Z * Z) :=
  let four := [x.2; x.1; y.2; y.1] in
  '(r0, r1, r2, r3) ← digest_md5 (four ++ four ++ four ++ four);
  Ret (Z.lxor r2 r3, Z.lxor r0 r1).

Definition hmac_md5 (x y : Z * Z) : outcome (Z * Z) :=
  let four := [x.1; x.2; y.1; y.2] in
  '(r0, r1, r2, r3) ← digest_md5 (four ++ four ++ four ++ [0x80; 0; 384; 0]);
  Ret (Z.lxor (u32 (r0 + 0x67452301)) (u32 (r2 + 0x98badcfe)),
       Z.lxor (u32 (r1 + 0xefcdab89)) (u32 (r3 + 0x10325476))).

(** [x[o] | x[o+1]<<8 | x[o+2]<<16 | x[o+3]<<24] *)
Definition read32 (x : list Z) (o : Z) : outcome Z :=
  x0 ← aget x o; x1 ← aget x (o + 1); x2 ← aget x (o + 2); x3 ← aget x (o + 3);
  Ret (Z.lor (Z.lor (Z.lor x0 (shl x1 8)) (shl x2 16)) (shl x3 24)).

(** A string of 8 bytes as two words; [None]: another size is an error. *)
Definition read_words (x : list Z) : outcome (option (Z * Z)) :=
  if negb (zlen x =? 8) then Ret None
  else x0 ← read32 x 0; x1 ← read32 x 4; Ret (Some (x0, x1)).

Definition read64 (x y : list Z) : outcome (option ((Z * Z) * (Z * Z))) :=
  ox ← read_words x;
  match ox with
  | None => Ret None
  | Some xx => oy ← read_words y;
               match oy with None => Ret None | Some yy => Ret (Some (xx, yy)) end
  end.

Definition pushqword (result : Z * Z) : list Z := le_bytes 4 result.1 ++ le_bytes 4 result.2.

Definition lhmac64 (x y : list Z) : outcome (option (list Z)) :=
  o ← read64 x y;
  match o with
  | None => Ret None
  | Some (x, y) => result ← hmac x y; Ret (Some (pushqword result))
  end.

Definition lhmac64_md5 (x y : list Z) : outcome (option (list Z)) :=
  o ← read64 x y;
  match o with
  | None => Ret None
  | Some (x, y) => result ← hmac_md5 x y; Ret (Some (pushqword result))
  end.

Definition lhmac_hash (x text : list Z) : outcome (option (list Z)) :=
  o ← read_words x;
  match o with
  | None => Ret None
  | Some key =>
      let h := Hash text in
      h0 ← read32 h 0; h1 ← read32 h 4;
      result ← hmac (h0, h1) key;
      Ret (Some (pushqword result))
  end.

(** ** Key exchange *)










(** ** Base64 *)

(** ["ABC...Zabc...z012...9+/"] *)
Definition encoding : list Z :=
  ((λ n, 65 + Z.of_nat n) <$> seq 0 26) ++ ((λ n, 97 + Z.of_nat n) <$> seq 0 26) ++
  ((λ n, 48 + Z.of_nat n) <$> seq 0 10) ++ [43; 47].

(** The [for (i=0;i<(int)sz-2;i+=3)] loop. *)
Definition b64_step (text : list Z) (st : Z * Z * list Z)
    : outcome ((Z * Z * list Z) + (Z * Z * list Z)) :=
  let '(i, j, buffer) := st in
  if i <? zlen text - 2 then
    t0 ← aget text i; t1 ← aget text (i + 1); t2 ← aget text (i + 2);
    let v := Z.lor (Z.lor (Z.shiftl t0 16) (Z.shiftl t1 8)) t2 in
    e0 ← aget encoding (Z.shiftr v 18);
    e1 ← aget encoding (Z.land (Z.shiftr v 12) 0x3f);
    e2 ← aget encoding (Z.land (Z.shiftr v 6) 0x3f);
    e3 ← aget encoding (Z.land v 0x3f);
    buffer ← asets buffer j [e0; e1; e2; e3];
    Ret (inl (i + 3, j + 4, buffer))
  else Ret (inr (i, j, buffer)).

Definition lb64encode (text : list Z) : outcome (list Z) :=
  let sz := zlen text in
  let encode_sz := (sz + 2) / 3 * 4 in
  '(i, j, buffer) ← loop (S (length text)) (b64_step text) (0, 0, lua_buffer encode_sz);
  let padding := sz - i in
  buffer ←
    (if padding =? 1 then
       v ← aget text i;
       e0 ← aget encoding (Z.shiftr v 2);
       e1 ← aget encoding (Z.shiftl (Z.land v 3) 4);
       asets buffer j [e0; e1; 61; 61]
     else if padding =? 2 then
       t0 ← aget text i; t1 ← aget text (i + 1);
       let v := Z.lor (Z.shiftl t0 8) t1 in
       e0 ← aget encoding (Z.shiftr v 10);
       e1 ← aget encoding (Z.land (Z.shiftr v 4) 0x3f);
       e2 ← aget encoding (Z.shiftl (Z.land v 0xf) 2);
       asets buffer j [e0; e1; e2; 61]
     else Ret buffer);
  mread buffer 0 encode_sz.

Definition decoding : list Z :=
  [62; -1; -1; -1; 63; 52; 53; 54; 55; 56; 57; 58; 59; 60; 61; -1; -1; -1; -2; -1; -1; -1;
   0; 1; 2; 3; 4; 5; 6; 7; 8; 9; 10; 11; 12; 13; 14; 15; 16; 17; 18; 19; 20; 21; 22; 23; 24; 25;
   -1; -1; -1; -1; -1; -1;
   26; 27; 28; 29; 30; 31; 32; 33; 34; 35; 36; 37; 38; 39; 40; 41; 42; 43; 44; 45; 46; 47; 48;
   49; 50; 51].

Definition b64index (c : Z) : outcome Z :=
  if c <? 43 then Ret (-1)
  else if zlen decoding <=? c - 43 then Ret (-1)
  else aget decoding (c - 43).

(** The inner loop: the codes [c] read so far ([j] is their number), and how
    many of them are padding. *)
Definition quad_step (text : list Z) (st : Z * list Z * Z)
    : outcome ((Z * list Z * Z) + (Z * list Z * Z)) :=
  let '(i, c, padding) := st in
  if zlen c <? 4 then
    cj ← (if zlen text <=? i then Ret (-2) else x ← aget text i; b64index x);
    if cj =? -1 then Ret (inl (i + 1, c, padding))
    else Ret (inl (i + 1, c ++ [cj], if cj =? -2 then padding + 1 else padding))
  else Ret (inr (i, c, padding)).

(** The [switch (padding)]: what a quad adds to the output ([None]: error).
    The shifts of the [unsigned] and [int] codes wrap at 32 bits. *)
Definition quad_bytes (c : list Z) (padding : Z) : outcome (option (list Z)) :=
  c0 ← aget c 0; c1 ← aget c 1; c2 ← aget c 2; c3 ← aget c 3;
  if padding =? 0 then
    let v := u32 (Z.lor (Z.lor (Z.lor (Z.shiftl c0 18) (Z.shiftl c1 12)) (Z.shiftl c2 6)) c3) in
    Ret (Some [u8 (Z.shiftr v 16); Z.land (Z.shiftr v 8) 0xff; Z.land v 0xff])
  else if padding =? 1 then
    if negb (c3 =? -2) || negb (Z.land c2 3 =? 0) then Ret None
    else
      let v := u32 (Z.lor (Z.lor (Z.shiftl c0 10) (Z.shiftl c1 4)) (Z.shiftr c2 2)) in
      Ret (Some [u8 (Z.shiftr v 8); Z.land v 0xff])
  else if padding =? 2 then
    if negb (c3 =? -2) || negb (c2 =? -2) || negb (Z.land c1 0xf =? 0) then Ret None
    else
      let v := u32 (Z.lor (Z.shiftl c0 2) (Z.shiftr c1 4)) in
      Ret (Some [u8 v])
  else Ret None.

Definition unb64_step (text : list Z) (st : Z * Z * list Z)
    : outcome ((Z * Z * list Z) + option (Z * list Z)) :=
  let '(i, output, buffer) := st in
  if i <? zlen text then
    '(i', c, padding) ← loop (S (length text) + 8) (quad_step text) (i, [], 0);
    o ← quad_bytes c padding;
    match o with
    | None => Ret (inr None)
    | Some bs => buffer ← asets buffer output bs; Ret (inl (i', output + zlen bs, buffer))
    end
  else Ret (inr (Some (output, buffer))).

Definition lb64decode (text : list Z) : outcome (option (list Z)) :=
  let sz := zlen text in
  let decode_sz := (sz + 3) / 4 * 3 in
  o ← loop (S (length text)) (unb64_step text) (0, 0, lua_buffer decode_sz);
  match o with
  | None => Ret None
  | Some (output, buffer) => out ← mread buffer 0 output; Ret (Some out)
  end.

(** ** Exclusive or *)

Definition lxor_str (s1 s2 : list Z) : outcome (option (list Z)) :=
  if zlen s2 =? 0 then Ret None
  else
    buffer ← for_loop (length s1) 0
      (λ i buffer, a ← aget s1 i; b ← aget s2 (i mod zlen s2); aset buffer i (Z.lxor a b))
      (replicate (length s1) 0);
    Ret (Some buffer).

(** ** Words and bytes *)



Lemma read_words_size x : zlen x ≠ 8 → read_words x = Ret None.
Proof. intros Hl. unfold read_words. by rewrite (proj2 (Z.eqb_neq _ _) Hl). Qed.

(** ** Powers modulo the prime *)

Lemma land_1 b : Z.land b 1 = b mod 2.
Proof. change 1 with (2 ^ 1 - 1). by rewrite land_mask. Qed.





(** ** Hexadecimal *)

(** The characters of one byte. *)
Definition hex_pair (b : Z) : list Z := [entry_at hex_digits (b / 16); entry_at hex_digits (b mod 16)].

Lemma hex_digit n : 0 ≤ n < 16 →
  aget hex_digits n = Ret (entry_at hex_digits n) ∧ HEX (entry_at hex_digits n) = n ∧
  is_byte (entry_at hex_digits n).
Proof.
  intros Hn. rewrite <-(Z2Nat.id n) by lia. assert (Hk : (Z.to_nat n < 16)%nat) by lia.
  revert Hk. generalize (Z.to_nat n). intros j Hj. unfold is_byte.
  do 16 (destruct j as [|j]; [split_and!; done|]). lia.
Qed.

Lemma asets_two (buffer : list Z) i a b :
  (buffer ← aset buffer i a; aset buffer (i + 1) b) = asets buffer i [a; b].
Proof.
  unfold asets. cbn. destruct (aset buffer i a) as [m| | | |]; try done. bsimpl.
  by destruct (aset m (i + 1) b) as [m'| | | |].
Qed.

(** Writing one chunk of constant size after another. *)
Lemma for_loop_append (body : Z → list Z → outcome (list Z)) (chunk : Z → list Z)
    (n : nat) (w : Z) (buffer : list Z) :
  (∀ i m, 0 ≤ i < Z.of_nat n → body i m = asets m (i * w) (chunk i)) →
  (∀ i, 0 ≤ i < Z.of_nat n → zlen (chunk i) = w) → 0 ≤ w → Z.of_nat n * w ≤ zlen buffer →
  for_loop n 0 body buffer =
  Ret (concat (chunk <$> seqZ 0 (Z.of_nat n)) ++ drop (Z.to_nat (Z.of_nat n * w)) buffer).
Proof.
  intros Hbody Hw H0 Hlen.
  assert (Hc : ∀ j, 0 ≤ j ≤ Z.of_nat n → zlen (concat (chunk <$> seqZ 0 j)) = j * w).
  { intros j [Hj0 Hj]. revert Hj. pattern j. apply Z_of_nat_prop; [|done].
    induction n0 as [|m IH]; intros Hj'; [done|].
    rewrite seqZ_S, fmap_app, concat_app, zlen_app, IH by lia. cbn. rewrite app_nil_r, Hw by lia. lia. }
  destruct (for_loop_inv (λ i m, m = concat (chunk <$> seqZ 0 i) ++ drop (Z.to_nat (i * w)) buffer)
    body n 0 buffer) as (m & -> & ->); [by rewrite drop_0| |by rewrite Z.add_0_l].
  intros j m Hj ->. rewrite Hbody by lia.
  assert (Ha := asets_app (concat (chunk <$> seqZ 0 j)) (drop (Z.to_nat (j * w)) buffer) (chunk j)).
  rewrite Hc in Ha by lia. specialize (Hw j ltac:(lia)). unfold zlen in Hw, Hlen.
  rewrite Ha by (rewrite length_drop; nia). eexists. split; [done|].
  replace (seqZ 0 (j + 1)) with (seqZ 0 j ++ [j]).
  - rewrite fmap_app, concat_app, <-app_assoc. cbn. rewrite app_nil_r, drop_drop. do 3 f_equal. nia.
  - replace (j + 1) with (Z.of_nat (S (Z.to_nat j))) by lia. rewrite seqZ_S, Z2Nat.id by lia. done.
Qed.

Lemma fmap_entry_at {B} (f : Z → B) (text : list Z) :
  (λ i, f (entry_at text i)) <$> seqZ 0 (zlen text) = f <$> text.
Proof.
  apply list_eq. intros j. rewrite !list_lookup_fmap.
  destruct (text !! j) as [b|] eqn:E.
  - pose proof (lookup_lt_Some _ _ _ E). rewrite lookup_seqZ_lt, Z.add_0_l by (unfold zlen; lia).
    cbn [fmap option_fmap option_map]. unfold entry_at. by rewrite Nat2Z.id, E.
  - apply lookup_ge_None in E. by rewrite lookup_seqZ_ge by (unfold zlen; lia).
Qed.

Lemma aget_entry (text : list Z) i : 0 ≤ i < zlen text → aget text i = Ret (entry_at text i).
Proof.
  intros Hi. destruct (aget_in text i Hi) as (b & -> & Hb). unfold entry_at. by rewrite Hb.
Qed.

Lemma entry_byte text i : bytes text → is_byte (entry_at text i).
Proof.
  intros Hb. unfold entry_at. destruct (text !! _) as [b|] eqn:E; [|unfold is_byte; cbn; lia].
  by eapply Forall_lookup_1 in Hb.
Qed.

Lemma ltohex_spec text : bytes text → ltohex text = Ret (concat (hex_pair <$> text)).
Proof.
  intros Hb. unfold ltohex. set (buffer := if _ <? _ then _ else _).
  pose proof (zlen_nonneg text) as H0.
  assert (Hbuf : zlen text * 2 ≤ zlen buffer).
  { unfold buffer, SMALL_CHUNK. change (256 / 2) with 128.
    destruct (Z.ltb_spec 128 (zlen text)); unfold zlen in *; rewrite length_replicate; lia. }
  rewrite (for_loop_append _ (λ i, hex_pair (entry_at text i)) _ 2).
  - rewrite Z2Nat.id, (fmap_entry_at hex_pair) by done. bsimpl.
    assert (Hl : zlen (concat (hex_pair <$> text)) = zlen text * 2).
    { clear. induction text as [|b l IH]; [done|]. cbn [fmap list_fmap concat].
      rewrite zlen_app, IH, zlen_cons. unfold hex_pair. rewrite !zlen_cons, zlen_nil. lia. }
    rewrite <-Hl. rewrite mread_in by (rewrite ?zlen_app; pose proof (zlen_nonneg (concat (hex_pair <$> text)));
      pose proof (zlen_nonneg (drop (Z.to_nat (zlen (concat (hex_pair <$> text)))) buffer)); lia).
    rewrite drop_0, take_app_length'; [done|]. unfold zlen. lia.
  - intros i m Hi. rewrite Z2Nat.id in Hi by done. unfold hex_step. rewrite aget_entry by lia. bsimpl.
    pose proof (entry_byte text i Hb) as Hbi. unfold is_byte in Hbi.
    change 0xf with (2 ^ 4 - 1). rewrite Z.shiftr_div_pow2, land_mask by done. change (2 ^ 4) with 16.
    destruct (hex_digit (entry_at text i / 16)) as (-> & _); [zlia|]. bsimpl.
    destruct (hex_digit (entry_at text i mod 16)) as (-> & _); [apply Z.mod_pos_bound; lia|]. bsimpl.
    apply asets_two.
  - done.
  - lia.
  - rewrite Z2Nat.id by done. lia.
Qed.

(** What [hexdecode] takes for a digit: besides [0]-[9] and [a]-[f], also [g]
    and the ten characters from [W] to the backquote. *)
Definition hex_accepted (c : Z) : Prop := 48 ≤ c ≤ 57 ∨ 87 ≤ c ≤ 103.

Lemma HEX_accepted c : is_byte c → (16 <? HEX c) = false ↔ hex_accepted c.
Proof.
  unfold is_byte, hex_accepted, HEX, u8. intros Hc. rewrite Z.ltb_ge. change (2 ^ 8) with 256.
  destruct (Z.ltb_spec c 128);
    match goal with |- context [(48 <=? ?t) && (?t <=? 57)] =>
      destruct (Z.leb_spec 48 t), (Z.leb_spec t 57) end; cbn [andb]; zlia.
Qed.

(** The bytes of the accepted pairs. *)
Definition unhex (text : list Z) (k : Z) : Z :=
  u8 (Z.lor (Z.shiftl (HEX (entry_at text (k * 2))) 4) (HEX (entry_at text (k * 2 + 1)))).

Lemma unhex_loop text n i m : bytes text → 0 ≤ i → (i + Z.of_nat n) * 2 ≤ zlen text →
  i + Z.of_nat n ≤ zlen m →
  ((∀ k, i * 2 ≤ k < (i + Z.of_nat n) * 2 → hex_accepted (entry_at text k)) →
   for_opt n i (unhex_step text) m =
     (m' ← for_loop n i (λ k m, asets m (k * 1) [unhex text k]) m; Ret (Some m'))) ∧
  (for_opt n i (unhex_step text) m = Ret None ∨
   ∀ k, i * 2 ≤ k < (i + Z.of_nat n) * 2 → hex_accepted (entry_at text k)).
Proof.
  intros Hb. revert i m. induction n as [|n IH]; intros i m H0 Hl Hm.
  { split; [done|]. right. lia. }
  rewrite for_opt_S, for_loop_S. unfold unhex_step at 2 4.
  rewrite !aget_entry by lia. bsimpl.
  pose proof (HEX_accepted _ (entry_byte text (i * 2) Hb)) as A1.
  pose proof (HEX_accepted _ (entry_byte text (i * 2 + 1) Hb)) as A2.
  assert (Hset : ∀ b, asets m (i * 1) [b] = Ret (<[Z.to_nat i := b]> m)).
  { intros b. unfold asets. cbn. rewrite Z.mul_1_r. by rewrite aset_in by lia. }
  rewrite Hset. bsimpl. fold (unhex text i). rewrite aset_in by lia. bsimpl.
  destruct (16 <? HEX (entry_at text (i * 2))) eqn:E1; cbn [orb].
  { split; [|by left]. intros Hall. assert (true = false) by (apply A1, Hall; lia). done. }
  destruct (16 <? HEX (entry_at text (i * 2 + 1))) eqn:E2.
  { split; [|by left]. intros Hall. assert (true = false) by (apply A2, Hall; lia). done. }
  bsimpl. destruct (IH (i + 1) (<[Z.to_nat i := unhex text i]> m)) as [I1 I2];
    [lia|lia|rewrite zlen_insert; lia|].
  split.
  - intros Hall. rewrite I1; [done|]. intros j Hj. apply Hall. lia.
  - destruct I2 as [I2|I2]; [by left|right]. intros j Hj.
    destruct (decide (j = i * 2)) as [->|]; [by apply A1|].
    destruct (decide (j = i * 2 + 1)) as [->|]; [by apply A2|]. apply I2. lia.
Qed.

Lemma lfromhex_spec text : bytes text →
  (zlen text mod 2 = 0 ∧ Forall hex_accepted text →
     lfromhex text = Ret (Some (unhex text <$> seqZ 0 (zlen text / 2)))) ∧
  (¬ (zlen text mod 2 = 0 ∧ Forall hex_accepted text) → lfromhex text = Ret None).
Proof.
  intros Hb. unfold lfromhex. rewrite land_1.
  destruct (Z.eqb_spec (zlen text mod 2) 0) as [He|He]; cbn [negb]; [|naive_solver].
  set (buffer := if _ <? _ then _ else _). set (n := zlen text / 2).
  assert (Hn : zlen text = n * 2) by (unfold n; zlia). pose proof (zlen_nonneg text) as H0.
  assert (Hbuf : n ≤ zlen buffer).
  { unfold buffer, SMALL_CHUNK. destruct (Z.ltb_spec (256 * 2) (zlen text));
      unfold zlen in *; rewrite length_replicate; lia. }
  destruct (unhex_loop text (Z.to_nat n) 0 buffer Hb) as [L1 L2]; [lia..|].
  assert (Hacc : Forall hex_accepted text ↔
    ∀ j, 0 * 2 ≤ j < (0 + Z.of_nat (Z.to_nat n)) * 2 → hex_accepted (entry_at text j)).
  { split.
    - intros Hall j Hj. unfold entry_at.
      destruct (lookup_lt_is_Some_2 text (Z.to_nat j)) as [b Hj']; [unfold zlen in *; lia|].
      rewrite Hj'. by eapply Forall_lookup_1 in Hall.
    - intros Hall. apply Forall_lookup. intros j b Hj. pose proof (lookup_lt_Some _ _ _ Hj).
      specialize (Hall (Z.of_nat j)). unfold entry_at in Hall. rewrite Nat2Z.id, Hj in Hall.
      apply Hall. unfold zlen in *. lia. }
  split.
  - intros [_ Hall]. rewrite L1 by by apply Hacc.
    rewrite (for_loop_append _ (λ j, [unhex text j]) _ 1); [|done|done|done|lia]. bsimpl.
    rewrite Z2Nat.id by lia.
    assert (Hc : ∀ l : list Z, concat ((λ j, [unhex text j]) <$> l) = unhex text <$> l).
    { intros l. induction l as [|x l IH]; [done|]. cbn. by rewrite IH. }
    rewrite Hc. assert (Hz : zlen (unhex text <$> seqZ 0 n) = n).
    { unfold zlen. rewrite length_fmap, length_seqZ. lia. }
    rewrite mread_in by (rewrite ?zlen_app, ?Hz; pose proof (zlen_nonneg (drop (Z.to_nat (n * 1)) buffer)); lia).
    bsimpl. rewrite drop_0, take_app_length'; [done|]. unfold zlen in Hz. lia.
  - intros Hno. destruct L2 as [->|Hall]; [done|]. exfalso. apply Hno. split; [done|by apply Hacc].
Qed.

(** ** Base64 *)

Definition char64 (n : Z) : Z := entry_at encoding n.

Lemma char64_ok n : 0 ≤ n < 64 →
  aget encoding n = Ret (char64 n) ∧ b64index (char64 n) = Ret n.
Proof.
  intros Hn. rewrite <-(Z2Nat.id n) by lia. assert (Hk : (Z.to_nat n < 64)%nat) by lia.
  revert Hk. generalize (Z.to_nat n). intros j Hj.
  do 64 (destruct j as [|j]; [by split|]). lia.
Qed.

(** The text in base64, three bytes at a time. *)
Fixpoint b64 (l : list Z) : list Z :=
  match l with
  | a :: b :: c :: l' =>
      [char64 (a / 4); char64 (a mod 4 * 16 + b / 16); char64 (b mod 16 * 4 + c / 64); char64 (c mod 64)]
      ++ b64 l'
  | [a; b] => [char64 (a / 4); char64 (a mod 4 * 16 + b / 16); char64 (b mod 16 * 4); 61]
  | [a] => [char64 (a / 4); char64 (a mod 4 * 16); 61; 61]
  | [] => []
  end.

Lemma three_ind (Q : list Z → Prop) :
  Q [] → (∀ a, Q [a]) → (∀ a b, Q [a; b]) → (∀ a b c l, Q l → Q (a :: b :: c :: l)) → ∀ l, Q l.
Proof.
  intros H0 H1 H2 H3 l. remember (length l) as n eqn:Hn. revert l Hn.
  induction (lt_wf n) as [n _ IH]. intros l ->.
  destruct l as [|a [|b [|c l]]]; [done..|]. apply H3, (IH (length l)); [cbn; lia|done].
Qed.

Lemma b64_app n A B : length A = (3 * n)%nat → b64 (A ++ B) = b64 A ++ b64 B.
Proof.
  revert n. induction A as [| | |a b c l IH] using three_ind; intros n Hn; cbn [length] in Hn; [done|lia..|].
  cbn [app b64]. destruct n as [|n]; [lia|]. rewrite (IH n) by lia. done.
Qed.

Lemma b64_length l : zlen (b64 l) = (zlen l + 2) / 3 * 4.
Proof.
  induction l as [| | |a b c l IH] using three_ind; [done..|].
  cbn [b64]. rewrite zlen_app, IH, !zlen_cons, zlen_nil.
  replace (1 + (1 + (1 + zlen l)) + 2) with (zlen l + 2 + 1 * 3) by lia. rewrite Z.div_add by lia. lia.
Qed.

(** The bits of three bytes. *)
Lemma join_bytes a b c : is_byte a → is_byte b → is_byte c →
  Z.lor (Z.lor (Z.shiftl a 16) (Z.shiftl b 8)) c = (a * 256 + b) * 256 + c.
Proof.
  unfold is_byte. intros Ha Hb Hc. rewrite Z.lor_comm.
  rewrite (Z.lor_comm (Z.shiftl a 16)), Z.lor_assoc, (lor_shiftl c b 8) by lia.
  rewrite lor_shiftl by lia. lia.
Qed.

Lemma join_two a b : is_byte a → is_byte b → Z.lor (Z.shiftl a 8) b = a * 256 + b.
Proof. unfold is_byte. intros Ha Hb. rewrite Z.lor_comm, lor_shiftl by lia. lia. Qed.

Lemma b64_step_spec text i j buffer a b c : bytes text → 0 ≤ i →
  mem_at text (Z.to_nat i) [a; b; c] → i + 3 ≤ zlen text →
  b64_step text (i, j, buffer) =
  (buffer ← asets buffer j (b64 [a; b; c]); Ret (inl (i + 3, j + 4, buffer))).
Proof.
  intros Hb H0 Hm Hl. unfold b64_step. rewrite (proj2 (Z.ltb_lt _ _)) by lia.
  assert (Hg : ∀ n x, [a; b; c] !! n = Some x → aget text (i + Z.of_nat n) = Ret x ∧ is_byte x).
  { intros n x Hn. apply Hm in Hn. split; [|by eapply Forall_lookup_1 in Hb].
    apply aget_Ret. split; [lia|]. rewrite <-Hn. f_equal. lia. }
  destruct (Hg 0%nat a eq_refl) as [Ea Ba], (Hg 1%nat b eq_refl) as [Eb Bb], (Hg 2%nat c eq_refl) as [Ec Bc].
  rewrite Z.add_0_r in Ea. change (Z.of_nat 1) with 1 in Eb. change (Z.of_nat 2) with 2 in Ec.
  rewrite Ea, Eb, Ec. bsimpl. rewrite join_bytes by done. clear Ea Eb Ec Hg Hm.
  unfold is_byte in *. change 0x3f with (2 ^ 6 - 1).
  rewrite !land_mask, !Z.shiftr_div_pow2 by done.
  assert (E1 : ((a * 256 + b) * 256 + c) / 2 ^ 18 = a / 4) by zlia.
  assert (E2 : ((a * 256 + b) * 256 + c) / 2 ^ 12 mod 2 ^ 6 = a mod 4 * 16 + b / 16) by zlia.
  assert (E3 : ((a * 256 + b) * 256 + c) / 2 ^ 6 mod 2 ^ 6 = b mod 16 * 4 + c / 64) by zlia.
  assert (E4 : ((a * 256 + b) * 256 + c) mod 2 ^ 6 = c mod 64) by zlia.
  rewrite E1, E2, E3, E4.
  rewrite (proj1 (char64_ok (a / 4) ltac:(zlia))). bsimpl.
  rewrite (proj1 (char64_ok (a mod 4 * 16 + b / 16) ltac:(zlia))). bsimpl.
  rewrite (proj1 (char64_ok (b mod 16 * 4 + c / 64) ltac:(zlia))). bsimpl.
  rewrite (proj1 (char64_ok (c mod 64) ltac:(zlia))). done.
Qed.

Lemma lua_buffer_len n : 0 ≤ n → n ≤ zlen (lua_buffer n).
Proof. intros Hn. unfold lua_buffer, zlen. rewrite length_replicate. lia. Qed.

(** Three bytes further. *)
Lemma take_three (text : list Z) n : (3 * n + 3 ≤ length text)%nat →
  ∃ a b c, take (3 * S n) text = take (3 * n) text ++ [a; b; c] ∧ mem_at text (3 * n) [a; b; c].
Proof.
  intros Hl.
  destruct (lookup_lt_is_Some_2 text (3 * n)) as [a Ha]; [lia|].
  destruct (lookup_lt_is_Some_2 text (3 * n + 1)) as [b Hb]; [lia|].
  destruct (lookup_lt_is_Some_2 text (3 * n + 2)) as [c Hc]; [lia|].
  exists a, b, c. split.
  - replace (3 * S n)%nat with (S (S (S (3 * n)))) by lia.
    replace (3 * n + 1)%nat with (S (3 * n)) in Hb by lia.
    replace (3 * n + 2)%nat with (S (S (3 * n))) in Hc by lia.
    by rewrite (take_S_r _ _ c), (take_S_r _ _ b), (take_S_r _ _ a), <-!app_assoc by done.
  - intros j x Hj. destruct j as [|[|[|j]]]; [|..|done]; injection Hj as <-; rewrite <-?Ha, <-?Hb, <-?Hc;
      f_equal; lia.
Qed.

Lemma b64_prefix_length n (text : list Z) : (3 * n ≤ length text)%nat →
  zlen (b64 (take (3 * n) text)) = 4 * Z.of_nat n.
Proof.
  intros Hl. rewrite b64_length. unfold zlen. rewrite length_take.
  rewrite Nat.min_l by lia.
  replace (Z.of_nat (3 * n) + 2) with (2 + Z.of_nat n * 3) by lia. rewrite Z.div_add by lia.
  change (2 / 3) with 0. lia.
Qed.

(** The loop of [base64encode], to the last full triple. *)
Lemma b64_loop text buffer n : bytes text → n = (length text / 3)%nat →
  (zlen text + 2) / 3 * 4 ≤ zlen buffer →
  loop (S (length text)) (b64_step text) (0, 0, buffer) =
  Ret (3 * Z.of_nat n, 4 * Z.of_nat n, b64 (take (3 * n) text) ++ drop (4 * n) buffer).
Proof.
  intros Hb Hn Hbuf.
  assert (Hr : (3 * n ≤ length text < 3 * n + 3)%nat).
  { pose proof (Nat.div_mod_eq (length text) 3). pose proof (Nat.mod_upper_bound (length text) 3). lia. }
  destruct (loop_total
    (λ st, ∃ j, (j ≤ n)%nat ∧ st = (3 * Z.of_nat j, 4 * Z.of_nat j, b64 (take (3 * j) text) ++ drop (4 * j) buffer))
    (λ st, Z.to_nat (3 * Z.of_nat n - st.1.1))
    (λ st, st = (3 * Z.of_nat n, 4 * Z.of_nat n, b64 (take (3 * n) text) ++ drop (4 * n) buffer))
    (b64_step text)) with (fuel := S (length text)) (s := (0, 0, buffer)) as (st & -> & ->); [| | |done].
  - intros st (j & Hj & ->). destruct (decide (j = n)) as [->|Hne].
    { right. unfold b64_step. rewrite (proj2 (Z.ltb_ge _ _)) by (unfold zlen; lia). by eexists. }
    left. destruct (take_three text j) as (a & b & c & Ht & Hm); [lia|].
    replace (3 * j)%nat with (Z.to_nat (3 * Z.of_nat j)) in Hm by lia.
    rewrite (b64_step_spec _ _ _ _ a b c) by (done || unfold zlen; lia).
    assert (Ha := asets_app (b64 (take (3 * j) text)) (drop (4 * j) buffer) (b64 [a; b; c])).
    rewrite b64_prefix_length in Ha by lia. change (length (b64 [a; b; c])) with 4%nat in Ha.
    rewrite Ha by (rewrite length_drop; unfold zlen in Hbuf; zlia). bsimpl.
    eexists. split; [done|]. cbn [fst]. split; [|lia]. exists (S j). split; [lia|].
    rewrite Ht, (b64_app j), <-app_assoc, drop_drop by (rewrite length_take; lia).
    f_equal; [f_equal; lia|]. do 3 f_equal. lia.
  - exists 0%nat. split; [lia|]. by rewrite drop_0.
  - cbn [fst]. lia.
Qed.

Lemma mread_prefix (A B : list Z) n : n = zlen A → mread (A ++ B) 0 n = Ret A.
Proof.
  intros ->. pose proof (zlen_nonneg A). pose proof (zlen_nonneg B).
  rewrite mread_in by (rewrite ?zlen_app; lia). rewrite drop_0, take_app_length'; [done|].
  unfold zlen. lia.
Qed.

Lemma lb64encode_spec text : bytes text → lb64encode text = Ret (b64 text).
Proof.
  intros Hb. unfold lb64encode. pose proof (zlen_nonneg text) as H0.
  set (n := (length text / 3)%nat). set (buffer := lua_buffer _).
  assert (Hbuf : (zlen text + 2) / 3 * 4 ≤ zlen buffer) by (apply lua_buffer_len; zlia).
  rewrite (b64_loop text buffer n Hb eq_refl Hbuf). bsimpl.
  assert (Hr : (3 * n ≤ length text < 3 * n + 3)%nat).
  { pose proof (Nat.div_mod_eq (length text) 3). pose proof (Nat.mod_upper_bound (length text) 3). lia. }
  pose proof (b64_prefix_length n text ltac:(lia)) as Hlp.
  rewrite <-b64_length.
  assert (Htail : ∀ tl B, drop (3 * n) text = tl → b64 (take (3 * n) text) ++ b64 tl ++ B = b64 text ++ B).
  { intros tl B <-. rewrite app_assoc, <-(b64_app n) by (rewrite length_take; lia). by rewrite take_drop. }
  assert (Hw := λ bs, asets_app (b64 (take (3 * n) text)) (drop (4 * n) buffer) bs).
  rewrite Hlp in Hw.
  assert (Hroom : (3 * n < length text → 4 ≤ length (drop (4 * n) buffer))%nat)
    by (intros; rewrite length_drop; unfold zlen in Hbuf; zlia).
  assert (Hlen : Z.of_nat (length text) = zlen text) by done.
  destruct (drop (3 * n) text) as [|a [|b [|c tl]]] eqn:Ed; pose proof (f_equal length Ed) as El;
    rewrite length_drop in El; cbn [length] in El; [| | |lia].
  - replace (zlen text - 3 * Z.of_nat n) with 0 by lia. bsimpl.
    specialize (Htail [] (drop (4 * n) buffer) eq_refl). cbn [b64 app] in Htail. rewrite Htail.
    by apply mread_prefix.
  - replace (zlen text - 3 * Z.of_nat n) with 1 by lia. cbn [Z.eqb Pos.eqb].
    assert (Ea : text !! (3 * n)%nat = Some a) by (by rewrite <-(Nat.add_0_r (3 * n)), <-lookup_drop, Ed).
    assert (Ba : is_byte a) by by eapply Forall_lookup_1 in Hb.
    rewrite (proj2 (aget_Ret _ _ a)) by (split; [lia|rewrite <-Ea; f_equal; lia]). bsimpl.
    unfold is_byte in Ba.
    replace (Z.land a 3) with (a mod 4) by (change 3 with (2 ^ 2 - 1); by rewrite land_mask).
    rewrite Z.shiftr_div_pow2, Z.shiftl_mul_pow2 by done.
    change (2 ^ 2) with 4. change (2 ^ 4) with 16.
    rewrite (proj1 (char64_ok (a / 4) ltac:(zlia))). bsimpl.
    rewrite (proj1 (char64_ok (a mod 4 * 16) ltac:(zlia))). bsimpl.
    change [char64 (a / 4); char64 (a mod 4 * 16); 61; 61] with (b64 [a]).
    rewrite Hw by (apply Hroom; lia). bsimpl. rewrite Htail by done. by apply mread_prefix.
  - replace (zlen text - 3 * Z.of_nat n) with 2 by lia. cbn [Z.eqb Pos.eqb].
    assert (Ea : text !! (3 * n)%nat = Some a) by (by rewrite <-(Nat.add_0_r (3 * n)), <-lookup_drop, Ed).
    assert (Eb : text !! (3 * n + 1)%nat = Some b) by (by rewrite <-lookup_drop, Ed).
    assert (Ba : is_byte a) by (by eapply Forall_lookup_1 in Hb).
    assert (Bb : is_byte b) by (by eapply Forall_lookup_1 in Hb).
    rewrite (proj2 (aget_Ret _ (3 * Z.of_nat n) a)) by (split; [lia|rewrite <-Ea; f_equal; lia]). bsimpl.
    rewrite (proj2 (aget_Ret _ (3 * Z.of_nat n + 1) b)) by (split; [lia|rewrite <-Eb; f_equal; lia]). bsimpl.
    rewrite join_two by done. unfold is_byte in *. change 0x3f with (2 ^ 6 - 1). change 0xf with (2 ^ 4 - 1).
    rewrite !land_mask, !Z.shiftr_div_pow2, Z.shiftl_mul_pow2 by done.
    assert (E1 : (a * 256 + b) / 2 ^ 10 = a / 4) by zlia.
    assert (E2 : (a * 256 + b) / 2 ^ 4 mod 2 ^ 6 = a mod 4 * 16 + b / 16) by zlia.
    assert (E3 : (a * 256 + b) mod 2 ^ 4 * 2 ^ 2 = b mod 16 * 4) by zlia.
    rewrite E1, E2, E3.
    rewrite (proj1 (char64_ok (a / 4) ltac:(zlia))). bsimpl.
    rewrite (proj1 (char64_ok (a mod 4 * 16 + b / 16) ltac:(zlia))). bsimpl.
    rewrite (proj1 (char64_ok (b mod 16 * 4) ltac:(zlia))). bsimpl.
    change [char64 (a / 4); char64 (a mod 4 * 16 + b / 16); char64 (b mod 16 * 4); 61] with (b64 [a; b]).
    rewrite Hw by (apply Hroom; lia). bsimpl. rewrite Htail by done. by apply mread_prefix.
Qed.

(** Reading one quad without foreign characters. *)
Lemma quad_loop text i x0 x1 x2 x3 c0 c1 c2 c3 : 0 ≤ i →
  mem_at text (Z.to_nat i) [x0; x1; x2; x3] → i + 4 ≤ zlen text →
  b64index x0 = Ret c0 → b64index x1 = Ret c1 → b64index x2 = Ret c2 → b64index x3 = Ret c3 →
  c0 ≠ -1 → c1 ≠ -1 → c2 ≠ -1 → c3 ≠ -1 →
  loop (S (length text) + 8) (quad_step text) (i, [], 0) =
  Ret (i + 4, [c0; c1; c2; c3],
       foldl (λ p c, if c =? -2 then p + 1 else p) 0 [c0; c1; c2; c3]).
Proof.
  intros H0 Hm Hl I0 I1 I2 I3 N0 N1 N2 N3.
  assert (Hg : ∀ n x, [x0; x1; x2; x3] !! n = Some x → ∀ z, z = i + Z.of_nat n → aget text z = Ret x).
  { intros n x Hn z ->. apply Hm in Hn. apply aget_Ret. split; [lia|]. rewrite <-Hn. f_equal. lia. }
  assert (Hstep : ∀ n x c cs p, [x0; x1; x2; x3] !! n = Some x → b64index x = Ret c → c ≠ -1 →
    zlen cs < 4 → quad_step text (i + Z.of_nat n, cs, p) =
    Ret (inl (i + Z.of_nat n + 1, cs ++ [c], if c =? -2 then p + 1 else p))).
  { intros n x c cs p Hn Hx Hc Hcs. unfold quad_step. rewrite (proj2 (Z.ltb_lt _ _)) by done.
    pose proof (lookup_lt_Some _ _ _ Hn) as Hn4. cbn in Hn4.
    rewrite (proj2 (Z.leb_gt _ _)) by lia. rewrite (Hg n x Hn) by done. bsimpl. rewrite Hx. bsimpl.
    by rewrite (proj2 (Z.eqb_neq c (-1))). }
  replace (S (length text) + 8)%nat with (S (S (S (S (S (length text + 4)))))) by lia.
  rewrite loop_S. pose proof (λ p, Hstep 0%nat x0 c0 [] p eq_refl I0 N0 eq_refl) as E.
  change (Z.of_nat 0) with 0 in E. rewrite Z.add_0_r in E. rewrite E. bsimpl. clear E.
  rewrite loop_S. pose proof (λ p, Hstep 1%nat x1 c1 [c0] p eq_refl I1 N1 eq_refl) as E.
  change (Z.of_nat 1) with 1 in E. cbn [app]. rewrite E. bsimpl. clear E.
  rewrite loop_S. pose proof (λ p, Hstep 2%nat x2 c2 [c0; c1] p eq_refl I2 N2 eq_refl) as E.
  change (Z.of_nat 2) with 2 in E. replace (i + 1 + 1) with (i + 2) by lia. cbn [app]. rewrite E. bsimpl. clear E.
  rewrite loop_S. pose proof (λ p, Hstep 3%nat x3 c3 [c0; c1; c2] p eq_refl I3 N3 eq_refl) as E.
  change (Z.of_nat 3) with 3 in E. replace (i + 2 + 1) with (i + 3) by lia. cbn [app]. rewrite E. bsimpl. clear E.
  rewrite loop_S. cbn. replace (i + 3 + 1) with (i + 4) by lia. done.
Qed.

(** The codes of a quad, when the number of padding characters is known. *)
Lemma quad_bytes_eq c0 c1 c2 c3 p : quad_bytes [c0; c1; c2; c3] p =
  if p =? 0 then
    let v := u32 (Z.lor (Z.lor (Z.lor (Z.shiftl c0 18) (Z.shiftl c1 12)) (Z.shiftl c2 6)) c3) in
    Ret (Some [u8 (Z.shiftr v 16); Z.land (Z.shiftr v 8) 0xff; Z.land v 0xff])
  else if p =? 1 then
    if negb (c3 =? -2) || negb (Z.land c2 3 =? 0) then Ret None
    else
      let v := u32 (Z.lor (Z.lor (Z.shiftl c0 10) (Z.shiftl c1 4)) (Z.shiftr c2 2)) in
      Ret (Some [u8 (Z.shiftr v 8); Z.land v 0xff])
  else if p =? 2 then
    if negb (c3 =? -2) || negb (c2 =? -2) || negb (Z.land c1 0xf =? 0) then Ret None
    else Ret (Some [u8 (u32 (Z.lor (Z.shiftl c0 2) (Z.shiftr c1 4)))])
  else Ret None.
Proof. reflexivity. Qed.

(** What one quad of the encoder decodes to. *)
Definition chunk3 (l : list Z) : list Z * list Z :=
  match l with a :: b :: c :: l' => ([a; b; c], l') | _ => (l, []) end.

Lemma b64_chunk l : l ≠ [] → let '(h, t) := chunk3 l in
  b64 l = b64 h ++ b64 t ∧ l = h ++ t ∧ length (b64 h) = 4%nat ∧ (t ≠ [] → length h = 3%nat) ∧ h ≠ [].
Proof.
  intros Hl. destruct l as [|a [|b [|c l]]]; [done|..]; cbn; split_and!; try done; by rewrite ?app_nil_r.
Qed.

Lemma not_pad n : 0 ≤ n → n ≠ -1 ∧ (n =? -2) = false.
Proof. intros Hn. rewrite Z.eqb_neq. lia. Qed.

Lemma quad_decodes text i l : bytes l → l ≠ [] → 0 ≤ i →
  mem_at text (Z.to_nat i) (b64 (chunk3 l).1) → i + 4 ≤ zlen text →
  ∃ c p, loop (S (length text) + 8) (quad_step text) (i, [], 0) = Ret (i + 4, c, p) ∧
    quad_bytes c p = Ret (Some (chunk3 l).1).
Proof.
  intros Hb Hl H0 Hm Hlen.
  destruct l as [|a [|b [|c l]]]; [done|..]; cbn [chunk3 fst] in *; cbn [b64 app] in Hm;
    repeat match goal with H : Forall _ (_ :: _) |- _ => apply Forall_cons in H as [? H] end;
    unfold is_byte in *.
  - assert (R1 : 0 ≤ a / 4 < 64) by zlia. assert (R2 : 0 ≤ a mod 4 * 16 < 64) by zlia.
    destruct (char64_ok _ R1) as [_ I1], (char64_ok _ R2) as [_ I2].
    destruct (not_pad (a / 4)) as [N1 M1]; [lia|]. destruct (not_pad (a mod 4 * 16)) as [N2 M2]; [lia|].
    eexists _, _. split; [by eapply quad_loop|]. cbn [foldl]. rewrite M1, M2, quad_bytes_eq.
    change (if -2 =? -2 then _ else _) with 2. cbn [Z.eqb Pos.eqb negb orb].
    change 15 with (2 ^ 4 - 1). rewrite land_mask by done.
    replace (a mod 4 * 16 mod 2 ^ 4) with 0 by (change (2 ^ 4) with 16; symmetry; apply Z.mod_mul; lia).
    cbn [negb Z.eqb orb]. do 3 f_equal. rewrite Z.shiftr_div_pow2 by done.
    rewrite Z.lor_comm, lor_shiftl by zlia. unfold u8, u32. rewrite (Z.mod_small _ (2 ^ 32)) by zlia. zlia.
  - assert (R1 : 0 ≤ a / 4 < 64) by zlia. assert (R2 : 0 ≤ a mod 4 * 16 + b / 16 < 64) by zlia.
    assert (R3 : 0 ≤ b mod 16 * 4 < 64) by zlia.
    destruct (char64_ok _ R1) as [_ I1], (char64_ok _ R2) as [_ I2], (char64_ok _ R3) as [_ I3].
    destruct (not_pad (a / 4)) as [N1 M1]; [lia|]. destruct (not_pad (a mod 4 * 16 + b / 16)) as [N2 M2]; [lia|].
    destruct (not_pad (b mod 16 * 4)) as [N3 M3]; [lia|].
    eexists _, _. split; [by eapply quad_loop|]. cbn [foldl]. rewrite M1, M2, M3, quad_bytes_eq.
    change (if -2 =? -2 then 0 + 1 else 0) with 1. cbn [Z.eqb Pos.eqb negb orb].
    change 3 with (2 ^ 2 - 1). rewrite land_mask by done.
    replace (b mod 16 * 4 mod 2 ^ 2) with 0 by (change (2 ^ 2) with 4; symmetry; apply Z.mod_mul; lia).
    cbn [negb Z.eqb orb].
    assert (E : Z.lor (Z.lor (Z.shiftl (a / 4) 10) (Z.shiftl (a mod 4 * 16 + b / 16) 4))
        (Z.shiftr (b mod 16 * 4) 2) = a * 256 + b).
    { rewrite Z.shiftr_div_pow2 by done. change (2 ^ 2) with 4. rewrite Z.div_mul by lia.
      rewrite <-Z.lor_assoc, (lor_shiftl_l (b mod 16)) by zlia.
      rewrite lor_shiftl_l by zlia. zlia. }
    rewrite E. unfold u8, u32. rewrite (Z.mod_small (a * 256 + b) (2 ^ 32)) by zlia.
    change 255 with (2 ^ 8 - 1). rewrite land_mask, Z.shiftr_div_pow2 by done. change (2 ^ 8) with 256.
    do 2 f_equal. f_equal; [zlia|f_equal; zlia].
  - assert (R1 : 0 ≤ a / 4 < 64) by zlia. assert (R2 : 0 ≤ a mod 4 * 16 + b / 16 < 64) by zlia.
    assert (R3 : 0 ≤ b mod 16 * 4 + c / 64 < 64) by zlia. assert (R4 : 0 ≤ c mod 64 < 64) by zlia.
    destruct (char64_ok _ R1) as [_ I1], (char64_ok _ R2) as [_ I2], (char64_ok _ R3) as [_ I3],
      (char64_ok _ R4) as [_ I4].
    destruct (not_pad (a / 4)) as [N1 M1]; [lia|]. destruct (not_pad (a mod 4 * 16 + b / 16)) as [N2 M2]; [lia|].
    destruct (not_pad (b mod 16 * 4 + c / 64)) as [N3 M3]; [lia|]. destruct (not_pad (c mod 64)) as [N4 M4]; [lia|].
    eexists _, _. split; [by eapply quad_loop|]. cbn [foldl]. rewrite M1, M2, M3, M4, quad_bytes_eq. cbn [Z.eqb].
    assert (E : Z.lor (Z.lor (Z.lor (Z.shiftl (a / 4) 18) (Z.shiftl (a mod 4 * 16 + b / 16) 12))
        (Z.shiftl (b mod 16 * 4 + c / 64) 6)) (c mod 64) = (a * 256 + b) * 256 + c).
    { rewrite <-!Z.lor_assoc, (lor_shiftl_l (c mod 64)) by zlia.
      rewrite (lor_shiftl_l _ (a mod 4 * 16 + b / 16)) by zlia. rewrite lor_shiftl_l by zlia. zlia. }
    rewrite E. unfold u8, u32. rewrite (Z.mod_small _ (2 ^ 32)) by zlia.
    change 255 with (2 ^ 8 - 1). rewrite !land_mask, !Z.shiftr_div_pow2 by done.
    change (2 ^ 8) with 256. change (2 ^ 16) with (256 * 256).
    do 2 f_equal. f_equal; [zlia|f_equal; [zlia|f_equal; zlia]].
Qed.

Lemma lb64decode_spec text : bytes text → lb64decode (b64 text) = Ret (Some text).
Proof.
  intros Hb. unfold lb64decode. pose proof (zlen_nonneg text) as H0.
  set (s := b64 text). set (buffer := lua_buffer _).
  assert (Hls : zlen s = (zlen text + 2) / 3 * 4) by apply b64_length.
  assert (Hbuf : zlen text ≤ zlen buffer).
  { transitivity ((zlen s + 3) / 4 * 3); [rewrite Hls; zlia|apply lua_buffer_len; rewrite Hls; zlia]. }
  destruct (loop_total
    (λ st, ∃ pre post, text = pre ++ post ∧ s = b64 pre ++ b64 post ∧
       (post ≠ [] → ∃ n, length pre = 3 * n)%nat ∧
       st = (zlen (b64 pre), zlen pre, pre ++ drop (length pre) buffer))
    (λ st, Z.to_nat (zlen s - st.1.1))
    (λ o, o = Some (zlen text, text ++ drop (length text) buffer))
    (unb64_step s)) with (fuel := S (length s)) (s := (0, 0, buffer)) as (o & -> & ->).
  - intros st (pre & post & Et & Es & Hn & ->). unfold unb64_step.
    destruct (decide (post = [])) as [->|Hne].
    { right. rewrite app_nil_r in Et, Es. rewrite (proj2 (Z.ltb_ge _ _)) by (rewrite Es; lia).
      eexists. split; [done|]. by rewrite Et. }
    left. pose proof (b64_chunk post Hne) as Hch. destruct (chunk3 post) as [h t] eqn:Ec.
    destruct Hch as (E64 & Ep & Hl4 & Hl3 & Hh). rewrite E64 in Es.
    pose proof (zlen_nonneg (b64 pre)) as Hpre.
    assert (Hz : zlen s = zlen (b64 pre) + 4 + zlen (b64 t)).
    { rewrite Es, !zlen_app. unfold zlen at 2. rewrite Hl4. lia. }
    pose proof (zlen_nonneg (b64 t)).
    rewrite (proj2 (Z.ltb_lt _ _)) by lia.
    assert (Hbp : bytes post) by (rewrite Et in Hb; by apply Forall_app in Hb as [_ ?]).
    destruct (quad_decodes s (zlen (b64 pre)) post) as (c & p & -> & Hq); [done|done|lia| |lia|].
    { rewrite Ec. cbn [fst]. intros k x Hk. rewrite Es. unfold zlen. rewrite Nat2Z.id.
      rewrite lookup_app_r by lia. replace (length (b64 pre) + k - length (b64 pre))%nat with k by lia.
      by apply lookup_app_l_Some. }
    bsimpl. rewrite Hq, Ec. bsimpl. cbn [fst].
    assert (Hroom : (length h ≤ length (drop (length pre) buffer))%nat).
    { rewrite length_drop. pose proof (f_equal length Et) as Hlt. rewrite Ep, !length_app in Hlt.
      unfold zlen in Hbuf. lia. }
    rewrite asets_app by done. bsimpl. eexists. split; [done|]. cbn [fst]. split; [|lia].
    destruct (Hn Hne) as [n Hpn].
    assert (E : b64 (pre ++ h) = b64 pre ++ b64 h) by by apply (b64_app n).
    exists (pre ++ h), t. split_and!.
    + by rewrite <-app_assoc, <-Ep.
    + by rewrite Es, E, app_assoc.
    + intros Ht. exists (S n). rewrite length_app, (Hl3 Ht). lia.
    + rewrite E, !zlen_app, length_app, drop_drop, <-app_assoc.
      assert (Hzh : zlen (b64 h) = 4) by (unfold zlen; by rewrite Hl4). by rewrite Hzh.
  - exists [], text. split_and!; [done|done|by exists 0%nat|]. cbn. by rewrite drop_0.
  - cbn [fst]. unfold zlen. lia.
  - bsimpl. by rewrite mread_prefix.
Qed.

(** ** Results *)


(** base64 round trip. [base64encode] of any bytes returns four
    characters for every three bytes begun, and [base64decode] gives the bytes
    back. Neither leaves its buffer. *)
Theorem base64_round_trip text : bytes text →
  ∃ s, lb64encode text = Ret s ∧ zlen s = (zlen text + 2) / 3 * 4 ∧
    lb64decode s = Ret (Some text).
Proof.
  intros Hb. exists (b64 text). split_and!; [by apply lb64encode_spec|by apply b64_length|].
  by apply lb64decode_spec.
Qed.

(** hexadecimal round trip. [hexencode] of any bytes returns two digits
    per byte and [hexdecode] gives the bytes back. *)
Theorem hex_round_trip text : bytes text →
  ∃ s, ltohex text = Ret s ∧ zlen s = zlen text * 2 ∧ lfromhex s = Ret (Some text).
Proof.
  intros Hb. exists (concat (hex_pair <$> text)). split; [by apply ltohex_spec|].
  assert (Hl : ∀ l, zlen (concat (hex_pair <$> l)) = zlen l * 2).
  { intros l. induction l as [|b l IH]; [done|]. cbn [fmap list_fmap concat].
    rewrite zlen_app, IH, zlen_cons. unfold hex_pair. rewrite !zlen_cons, zlen_nil. lia. }
  split; [apply Hl|].
  assert (Hd : ∀ b, is_byte b → Forall (λ c, is_byte c ∧ hex_accepted c) (hex_pair b)).
  { intros b Hb'. unfold is_byte in Hb'.
    destruct (hex_digit (b / 16)) as (_ & E1 & B1); [zlia|].
    destruct (hex_digit (b mod 16)) as (_ & E2 & B2); [apply Z.mod_pos_bound; lia|].
    apply Forall_cons. split; [|apply Forall_cons; split; [|done]]; (split; [done|]);
      apply HEX_accepted; try done; rewrite ?E1, ?E2; apply Z.ltb_ge; zlia. }
  assert (Hall : Forall (λ c, is_byte c ∧ hex_accepted c) (concat (hex_pair <$> text))).
  { clear Hl. induction Hb as [|b l Hb' _ IH]; [constructor|].
    cbn [fmap list_fmap concat]. apply Forall_app. split; [by apply Hd|done]. }
  apply Forall_and in Hall as [Hbs Hacc].
  destruct (lfromhex_spec _ Hbs) as [Hok _]. rewrite Hok.
  2: { split; [|done]. rewrite Hl. apply Z.mod_mul. lia. }
  do 2 f_equal. rewrite Hl, Z.div_mul by lia.
  trans ((λ j, id (entry_at text j)) <$> seqZ 0 (zlen text));
    [|rewrite (fmap_entry_at id); apply list_fmap_id].
  apply list_fmap_ext. intros k j Hj.
  apply lookup_seqZ in Hj as [-> Hk]. rewrite Z.add_0_l. unfold unhex.
  assert (Hp : ∀ (l : list Z) n b, l !! n = Some b →
    entry_at (concat (hex_pair <$> l)) (Z.of_nat n * 2) = entry_at hex_digits (b / 16) ∧
    entry_at (concat (hex_pair <$> l)) (Z.of_nat n * 2 + 1) = entry_at hex_digits (b mod 16)).
  { clear. intros l. induction l as [|a l IH]; intros n b Hn; [done|]. destruct n as [|n].
    - injection Hn as <-. done.
    - cbn in Hn. destruct (IH n b Hn) as [I1 I2]. rewrite <-I1, <-I2. unfold entry_at. cbn [fmap list_fmap concat].
      unfold hex_pair at 1 3. cbn [app].
      replace (Z.to_nat (Z.of_nat (S n) * 2)) with (S (S (Z.to_nat (Z.of_nat n * 2)))) by lia.
      replace (Z.to_nat (Z.of_nat (S n) * 2 + 1)) with (S (S (Z.to_nat (Z.of_nat n * 2 + 1)))) by lia. done. }
  destruct (lookup_lt_is_Some_2 text k) as [b Hk']; [unfold zlen in Hk; lia|].
  destruct (Hp text k b Hk') as [-> ->].
  assert (Hbb : is_byte b) by by eapply Forall_lookup_1 in Hb. unfold is_byte in Hbb.
  destruct (hex_digit (b / 16)) as (_ & -> & _); [zlia|].
  destruct (hex_digit (b mod 16)) as (_ & -> & _); [apply Z.mod_pos_bound; lia|].
  unfold entry_at. rewrite Nat2Z.id, Hk'. cbn.
  rewrite lor_shiftl_l by zlia. unfold u8. rewrite Z.mod_small by zlia. zlia.
Qed.

(** what [hexdecode] accepts. It always returns; it reports an error
    exactly for a text of odd length or with a character outside [0]-[9] and
    the range from [W] to [g]: besides [a]-[f] it takes [g] for sixteen and
    [W] to the backquote for zero to nine, and it refuses capital [A]-[F]. *)
Theorem hexdecode_accepts text : bytes text →
  ((zlen text mod 2 = 0 ∧ Forall (λ c, 48 ≤ c ≤ 57 ∨ 87 ≤ c ≤ 103) text) ∧
     ∃ out, lfromhex text = Ret (Some out) ∧ zlen out = zlen text / 2) ∨
  (¬ (zlen text mod 2 = 0 ∧ Forall (λ c, 48 ≤ c ≤ 57 ∨ 87 ≤ c ≤ 103) text) ∧
     lfromhex text = Ret None).
Proof.
  intros Hb. destruct (lfromhex_spec text Hb) as [H1 H2]. pose proof (zlen_nonneg text).
  destruct (decide (zlen text mod 2 = 0 ∧ Forall hex_accepted text)) as [Ha|Ha].
  - left. split; [done|]. eexists. split; [by apply H1|].
    unfold zlen at 1. rewrite length_fmap, length_seqZ. zlia.
  - right. split; [done|by apply H2].
Qed.

(** ** Examples *)


Lemma base64_round_trip_witness :
  ∃ s, lb64encode [77; 97; 110; 1] = Ret s ∧ lb64decode s = Ret (Some [77; 97; 110; 1]).
Proof.
  destruct (base64_round_trip [77; 97; 110; 1]) as (s & E & _ & D); [repeat constructor; done|].
  by exists s.
Defined.

Lemma hex_round_trip_witness :
  ∃ s, ltohex [0x4d; 0xff] = Ret s ∧ lfromhex s = Ret (Some [0x4d; 0xff]).
Proof.
  destruct (hex_round_trip [0x4d; 0xff]) as (s & E & _ & D); [repeat constructor; done|]. by exists s.
Defined.

(** ["g0"] decodes to a byte 0. *)
Lemma hexdecode_accepts_witness : ∃ out, lfromhex [103; 48] = Ret (Some out) ∧ zlen out = 1.
Proof.
  destruct (hexdecode_accepts [103; 48]) as [(_ & out & E & L)|(H & _)].
  - repeat constructor; done.
  - by exists out.
  - exfalso. apply H. split; [done|]. repeat constructor; lia.
Defined.
