(* ===== verification/Sha1.v ===== *)
(** * SHA-1

    The model of [lualib-src/lsha1.cpp], the functions [sha1] and [hmac_sha1] that
    Lua gets from [lua-crypt.cpp]: the hash is the one of FIPS 180-4, for texts of
    less than 2^29 bytes, and the keyed hash that of RFC 2104.

    A [uint32_t] is a [Z]; the memory of a context that is not written yet is part of
    the context that [sat_SHA1_Init] is given. *)
From S2P Require Import Prelude.

Local Open Scope Z_scope.

(** ** One block *)

Record SHA1_CTX := MkCtx {
  sha_state : list Z;
  sha_count : Z * Z;
  sha_buffer : list Z
}.

Definition SHA1_DIGEST_SIZE : Z := 20.
Definition BLOCKSIZE : Z := 64.

Definition rol (value bits : Z) : Z := Z.lor (u32 (Z.shiftl value bits)) (Z.shiftr value (32 - bits)).

Definition word_at (l : list Z) (i : Z) : Z := nth (Z.to_nat i) l 0.

(** [blk0(i)] and [blk(i)]: the word that is used, which is also stored into the
    block. *)
Definition blk0 (l : list Z) (i : Z) : Z :=
  Z.lor (Z.land (rol (word_at l i) 24) 0xFF00FF00) (Z.land (rol (word_at l i) 8) 0x00FF00FF).
Definition blk (l : list Z) (i : Z) : Z :=
  rol (Z.lxor (Z.lxor (Z.lxor (word_at l (Z.land (i + 13) 15)) (word_at l (Z.land (i + 8) 15)))
                (word_at l (Z.land (i + 2) 15))) (word_at l (Z.land i 15))) 1.

(** [R0] to [R4] add this to [z]; [k] is the word of the block. *)
Definition R0 (v w x y k : Z) : Z := Z.lxor (Z.land w (Z.lxor x y)) y + k + 0x5A827999 + rol v 5.
Definition R2 (v w x y k : Z) : Z := Z.lxor (Z.lxor w x) y + k + 0x6ED9EBA1 + rol v 5.
Definition R3 (v w x y k : Z) : Z := Z.lor (Z.land (Z.lor w x) y) (Z.land w x) + k + 0x8F1BBCDC + rol v 5.
Definition R4 (v w x y k : Z) : Z := Z.lxor (Z.lxor w x) y + k + 0xCA62C1D6 + rol v 5.

Notation vars := (Z * Z * Z * Z * Z)%type.

(** Round [i] on the variables in the order in which the macro gets them. The macro
    changes [w] and [z], and the next one gets [z] first: [R0(a,b,c,d,e,0)] is
    followed by [R0(e,a,b,c,d,1)]. *)
Definition sha_round (s : list Z * vars) (i : Z) : list Z * vars :=
  let '(l, (v, w, x, y, z)) := s in
  let k := if i <? 16 then blk0 l i else blk l i in
  let l := <[Z.to_nat (Z.land i 15) := k]> l in
  let d := if i <? 20 then R0 v w x y k
           else if i <? 40 then R2 v w x y k
           else if i <? 60 then R3 v w x y k
           else R4 v w x y k in
  (l, (u32 (z + d), v, rol w 30, x, y)).

(** The words of a block of 64 bytes, as a little-endian machine reads them. *)
Definition block_words (block : list Z) : list Z :=
  (λ i, le_value (take 4 (drop (4 * i) block))) <$> seq 0 16.

Definition SHA1_Transform (state block : list Z) : list Z :=
  let '(_, (a, b, c, d, e)) :=
    foldl sha_round (block_words block,
      (word_at state 0, word_at state 1, word_at state 2, word_at state 3, word_at state 4))
      (Z.of_nat <$> seq 0 80) in
  [u32 (word_at state 0 + a); u32 (word_at state 1 + b); u32 (word_at state 2 + c);
   u32 (word_at state 3 + d); u32 (word_at state 4 + e)].

(** ** Texts *)

Definition sat_SHA1_Init (context : SHA1_CTX) : SHA1_CTX :=
  MkCtx [0x67452301; 0xEFCDAB89; 0x98BADCFE; 0x10325476; 0xC3D2E1F0] (0, 0) (sha_buffer context).

(** The number of bits, in two words; [len << 3] is a [size_t]. *)
Definition add_count (count : Z * Z) (len : Z) : Z * Z :=
  let bits := u64 (Z.shiftl len 3) in
  let c0 := u32 (count.1 + bits) in
  let c1 := if c0 <? bits then u32 (count.2 + 1) else count.2 in
  (c0, u32 (c1 + Z.shiftr len 29)).

(** [for (; i + 63 < len; i += 64)]: the state and the place behind it. *)
Definition block_turn (data : list Z) (len : Z) (s : list Z * Z) : outcome (list Z * Z + list Z * Z) :=
  let '(state, i) := s in
  if i + 63 <? len then
    block ← mread data i 64;
    Ret (inl (SHA1_Transform state block, i + 64))
  else Ret (inr (state, i)).

Definition sat_SHA1_Update (context : SHA1_CTX) (data : list Z) (len : Z) : outcome SHA1_CTX :=
  let j := Z.land (Z.shiftr (sha_count context).1 3) 63 in
  let count := add_count (sha_count context) len in
  '(state, buffer, i, j) ← (if 63 <? j + len then
      let i := 64 - j in
      part ← mread data 0 i;
      buffer ← mwrite (sha_buffer context) j part;
      '(state, i) ← loop (Z.to_nat len + 1) (block_turn data len) (SHA1_Transform (sha_state context) buffer, i);
      Ret (state, buffer, i, 0)
    else Ret (sha_state context, sha_buffer context, 0, j));
  rest ← mread data i (len - i);
  buffer ← mwrite buffer j rest;
  Ret (MkCtx state count buffer).

Definition final_turn (context : SHA1_CTX) : outcome (SHA1_CTX + SHA1_CTX) :=
  if negb (Z.land (sha_count context).1 504 =? 448) then
    context ← sat_SHA1_Update context [0] 1;
    Ret (inl context)
  else Ret (inr context).

(** The digest; the context is wiped afterwards. *)
Definition sat_SHA1_Final (context : SHA1_CTX) : outcome (list Z) :=
  let finalcount := (λ i, Z.land (Z.shiftr (if 4 <=? i then (sha_count context).1 else (sha_count context).2)
                       ((3 - Z.land i 3) * 8)) 255) <$> (Z.of_nat <$> seq 0 8) in
  context ← sat_SHA1_Update context [128] 1;
  context ← loop 65 final_turn context;
  context ← sat_SHA1_Update context finalcount 8;
  Ret ((λ i, Z.land (Z.shiftr (word_at (sha_state context) (Z.shiftr i 2)) ((3 - Z.land i 3) * 8)) 255) <$>
       (Z.of_nat <$> seq 0 (Z.to_nat SHA1_DIGEST_SIZE))).

(** ** The functions for Lua *)

(** [ctx] and the like are what the stack holds before. *)
Definition lsha1 (ctx : SHA1_CTX) (buffer : list Z) : outcome (list Z) :=
  ctx ← sat_SHA1_Update (sat_SHA1_Init ctx) buffer (zlen buffer);
  sat_SHA1_Final ctx.

Definition xor_key (key : list Z) (xor_ : Z) : list Z :=
  concat ((λ i, le_bytes 4 (Z.lxor (le_value (take 4 (drop (4 * i) key))) xor_)) <$> seq 0 16).

Definition lhmac_sha1 (ctx ctx1 ctx2 : SHA1_CTX) (key text : list Z) : outcome (list Z) :=
  let zeros := replicate (Z.to_nat BLOCKSIZE) 0 in
  rkey ← (if BLOCKSIZE <? zlen key then
      ctx ← sat_SHA1_Update (sat_SHA1_Init ctx) key (zlen key);
      digest ← sat_SHA1_Final ctx;
      mwrite zeros 0 digest
    else mwrite zeros 0 key);
  let rkey := xor_key rkey 0x5c5c5c5c in
  ctx1 ← sat_SHA1_Update (sat_SHA1_Init ctx1) rkey BLOCKSIZE;
  let rkey := xor_key rkey (Z.lxor 0x5c5c5c5c 0x36363636) in
  ctx2 ← sat_SHA1_Update (sat_SHA1_Init ctx2) rkey BLOCKSIZE;
  ctx2 ← sat_SHA1_Update ctx2 text (zlen text);
  digest2 ← sat_SHA1_Final ctx2;
  ctx1 ← sat_SHA1_Update ctx1 digest2 SHA1_DIGEST_SIZE;
  sat_SHA1_Final ctx1.

(** ** The reference: FIPS 180-4 *)

Definition Ch (x y z : Z) : Z := Z.lxor (Z.land x y) (Z.land (Z.lnot x) z).
Definition Parity (x y z : Z) : Z := Z.lxor (Z.lxor x y) z.
Definition Maj (x y z : Z) : Z := Z.lxor (Z.lxor (Z.land x y) (Z.land x z)) (Z.land y z).

Definition f_t (t : nat) : Z → Z → Z → Z :=
  if decide (t < 20)%nat then Ch else if decide (t < 40)%nat then Parity
  else if decide (t < 60)%nat then Maj else Parity.
Definition K_t (t : nat) : Z :=
  if decide (t < 20)%nat then 0x5A827999 else if decide (t < 40)%nat then 0x6ED9EBA1
  else if decide (t < 60)%nat then 0x8F1BBCDC else 0xCA62C1D6.

Definition be_word (bs : list Z) : Z := foldl (λ x b, 256 * x + b) 0 bs.

(** The message schedule, grown one word at a time. *)
Definition next_word (W : list Z) : Z :=
  let w k := nth (length W - k) W 0 in
  rol (Z.lxor (Z.lxor (Z.lxor (w 3%nat) (w 8%nat)) (w 14%nat)) (w 16%nat)) 1.
Definition schedule (block : list Z) : list Z :=
  Nat.iter 64 (λ W, W ++ [next_word W]) ((λ i, be_word (take 4 (drop (4 * i) block))) <$> seq 0 16).

Definition sha_step (W : list Z) (s : vars) (t : nat) : vars :=
  let '(a, b, c, d, e) := s in
  (u32 (rol a 5 + f_t t b c d + e + K_t t + nth t W 0), a, rol b 30, c, d).

Definition compress (H : list Z) (block : list Z) : list Z :=
  let '(a, b, c, d, e) :=
    foldl (sha_step (schedule block)) (nth 0 H 0, nth 1 H 0, nth 2 H 0, nth 3 H 0, nth 4 H 0) (seq 0 80) in
  [u32 (nth 0 H 0 + a); u32 (nth 1 H 0 + b); u32 (nth 2 H 0 + c); u32 (nth 3 H 0 + d); u32 (nth 4 H 0 + e)].

Definition be_bytes (n : nat) (x : Z) : list Z := rev (le_bytes n x).

(** One bit and zeros up to 8 bytes before the end of a block, and the number of
    bits. *)
Definition sha_padding (msg : list Z) : list Z :=
  128 :: replicate (Z.to_nat ((55 - zlen msg) mod 64)) 0 ++ be_bytes 8 (8 * zlen msg).

(** The hash of the first [n] blocks. *)
Fixpoint hash_blocks (n : nat) (H : list Z) (msg : list Z) : list Z :=
  match n with O => H | S n' => hash_blocks n' (compress H (take 64 msg)) (drop 64 msg) end.

Definition initial : list Z := [0x67452301; 0xEFCDAB89; 0x98BADCFE; 0x10325476; 0xC3D2E1F0].

Definition sha1 (msg : list Z) : list Z :=
  let padded := msg ++ sha_padding msg in
  concat (be_bytes 4 <$> hash_blocks (length padded / 64) initial padded).

Definition hmac_sha1 (key text : list Z) : list Z :=
  let k := if zlen key <=? 64 then key else sha1 key in
  let k := k ++ replicate (64 - length k) 0 in
  sha1 (((λ b, Z.lxor b 0x5c) <$> k) ++ sha1 (((λ b, Z.lxor b 0x36) <$> k) ++ text)).

(** ** Words *)

Ltac bool_bits := apply Z.bits_inj'; intros n Hn;
  repeat first [rewrite Z.lor_spec | rewrite Z.land_spec | rewrite Z.lxor_spec | rewrite Z.lnot_spec by done];
  repeat match goal with |- context [Z.testbit ?x n] => destruct (Z.testbit x n) end; done.

Lemma choose_eq w x y : Z.lxor (Z.land w (Z.lxor x y)) y = Ch w x y.
Proof. unfold Ch. bool_bits. Qed.

Lemma majority_eq w x y : Z.lor (Z.land (Z.lor w x) y) (Z.land w x) = Maj w x y.
Proof. unfold Maj. bool_bits. Qed.

Lemma testbit_cons b v n : is_byte b → 0 ≤ n → Z.testbit (b + 256 * v) n = if n <? 8 then Z.testbit b n else Z.testbit v (n - 8).
Proof.
  unfold is_byte. intros Hb Hn. replace (b + 256 * v) with (b + v * 2 ^ 8) by lia. rewrite <-lor_shiftl by (done || lia).
  rewrite Z.lor_spec. destruct (Z.ltb_spec n 8).
  - by rewrite Z.shiftl_spec_low, orb_false_r by lia.
  - rewrite Z.shiftl_spec by done. replace b with (b mod 2 ^ 8) by (apply Z.mod_small; lia).
    by rewrite Z.mod_pow2_bits_high by lia.
Qed.

Lemma testbit_high b n : is_byte b → 8 ≤ n → Z.testbit b n = false.
Proof.
  unfold is_byte. intros Hb Hn. replace b with (b mod 2 ^ 8) by (apply Z.mod_small; lia).
  by rewrite Z.mod_pow2_bits_high by lia.
Qed.

Lemma rol_bit x k n : 0 ≤ n < 32 → 0 ≤ k ≤ 32 →
  Z.testbit (rol x k) n = Z.testbit x (n - k) || Z.testbit x (n + (32 - k)).
Proof.
  intros Hn Hk. unfold rol, u32. rewrite Z.lor_spec, Z.mod_pow2_bits_low, Z.shiftl_spec, Z.shiftr_spec by lia. done.
Qed.

Lemma rol_high x k n : 0 ≤ x < 2 ^ 32 → 0 ≤ k ≤ 32 → 32 ≤ n → Z.testbit (rol x k) n = false.
Proof.
  intros Hx Hk Hn. unfold rol, u32. rewrite Z.lor_spec, Z.mod_pow2_bits_high, Z.shiftr_spec by lia.
  replace x with (x mod 2 ^ 32) by (by apply Z.mod_small). by rewrite Z.mod_pow2_bits_high by lia.
Qed.

Lemma four_bytes (l : list Z) : length l = 4%nat → ∃ a b c d, l = [a; b; c; d].
Proof. destruct l as [|a [|b [|c [|d [|]]]]]; try done. intros _. by exists a, b, c, d. Qed.

Ltac bit_of := repeat match goal with
  | |- context [Z.testbit _ ?n] => rewrite (Z.testbit_neg_r _ n) by lia
  | |- context [Z.testbit (?b + 256 * ?v) ?n] =>
      rewrite (testbit_cons b v n) by (done || lia);
      first [rewrite (proj2 (Z.ltb_lt n 8)) by lia | rewrite (proj2 (Z.ltb_ge n 8)) by lia]
  end.

(** [blk0] turns a little-endian word into a big-endian one. *)
Lemma swap_bytes l i bs : word_at l i = le_value bs → bytes bs → length bs = 4%nat → blk0 l i = be_word bs.
Proof.
  intros Hw Hb Hl. unfold blk0. rewrite Hw. destruct (four_bytes bs Hl) as (a & b & c & d & ->).
  assert (Hx : 0 ≤ le_value [a; b; c; d] < 2 ^ 32) by by apply (le_value_range [a; b; c; d]).
  repeat (apply Forall_cons in Hb as [? Hb]). apply Z.bits_inj'. intros n Hn.
  rewrite Z.lor_spec, !Z.land_spec. unfold be_word. cbn [foldl].
  replace (256 * (256 * (256 * (256 * 0 + a) + b) + c) + d) with (d + 256 * (c + 256 * (b + 256 * (a + 256 * 0)))) by lia.
  destruct (Z.le_gt_cases 32 n) as [H32|H32].
  { rewrite !rol_high by (done || lia). rewrite !testbit_cons by (done || lia).
    rewrite !(proj2 (Z.ltb_ge _ _)) by lia. by rewrite Z.testbit_0_l. }
  cbn [le_value] in *.
  assert (Hcase : ∃ q r, n = 8 * q + r ∧ (q = 0 ∨ q = 1 ∨ q = 2 ∨ q = 3) ∧ 0 ≤ r < 8).
  { exists (n / 8), (n mod 8). pose proof (Z.div_mod n 8). pose proof (Z.mod_pos_bound n 8). lia. }
  destruct Hcase as (q & r & -> & Hq & Hr). rewrite !rol_bit by lia.
  assert (Hm1 : Z.testbit 4278255360 (8 * q + r) = bool_decide (q = 1 ∨ q = 3)).
  { destruct Hq as [->|[->|[->| ->]]]; assert (Hc : r = 0 ∨ r = 1 ∨ r = 2 ∨ r = 3 ∨ r = 4 ∨ r = 5 ∨ r = 6 ∨ r = 7) by lia;
      destruct Hc as [->|[->|[->|[->|[->|[->|[->| ->]]]]]]]; done. }
  assert (Hm2 : Z.testbit 16711935 (8 * q + r) = bool_decide (q = 0 ∨ q = 2)).
  { destruct Hq as [->|[->|[->| ->]]]; assert (Hc : r = 0 ∨ r = 1 ∨ r = 2 ∨ r = 3 ∨ r = 4 ∨ r = 5 ∨ r = 6 ∨ r = 7) by lia;
      destruct Hc as [->|[->|[->|[->|[->|[->|[->| ->]]]]]]]; done. }
  rewrite Hm1, Hm2. clear Hm1 Hm2. destruct Hq as [->|[->|[->| ->]]]; cbn [bool_decide decide_rel decide]; bit_of;
    repeat match goal with |- context [bool_decide ?P] => let b := eval vm_compute in (bool_decide P) in
      change (bool_decide P) with b end;
    rewrite ?Z.testbit_0_l, ?orb_false_r, ?orb_false_l, ?andb_true_r, ?andb_false_r, ?orb_false_r; cbn [orb]; f_equal; lia.
Qed.

(** ** Rounds *)

Section rounds.
Context (block : list Z).
Hypotheses (Hlen : length block = 64%nat) (Hbytes : bytes block).

Definition grow_schedule (n : nat) : list Z :=
  Nat.iter n (λ W, W ++ [next_word W]) ((λ i, be_word (take 4 (drop (4 * i) block))) <$> seq 0 16).

Lemma grow_0 : grow_schedule 0 = (λ i, be_word (take 4 (drop (4 * i) block))) <$> seq 0 16.
Proof. done. Qed.

Lemma grow_S n : grow_schedule (S n) = grow_schedule n ++ [next_word (grow_schedule n)].
Proof. done. Qed.

Lemma schedule_grow : schedule block = grow_schedule 64.
Proof. unfold schedule, grow_schedule. reflexivity. Qed.

Lemma grow_length n : length (grow_schedule n) = (16 + n)%nat.
Proof.
  induction n as [|n IH]; [done|]. rewrite grow_S, length_app, IH. cbn. lia.
Qed.

Lemma grow_prefix n m t : (n ≤ m)%nat → (t < 16 + n)%nat → nth t (grow_schedule m) 0 = nth t (grow_schedule n) 0.
Proof.
  intros Hle Ht. induction Hle as [|m Hle IH]; [done|]. rewrite <-IH, grow_S, app_nth1; [done|]. rewrite grow_length. lia.
Qed.

(** Unification must not run the schedule. *)
#[local] Opaque schedule grow_schedule.

Definition W (t : nat) : Z := nth t (schedule block) 0.

Lemma W_first t : (t < 16)%nat → W t = be_word (take 4 (drop (4 * t) block)).
Proof.
  intros Ht. unfold W. rewrite schedule_grow. rewrite (grow_prefix 0 64) by lia.
  rewrite grow_0.
  rewrite (nth_indep _ 0 (be_word (take 4 (drop (4 * 0) block)))) by (rewrite length_fmap, length_seq; lia).
  rewrite (map_nth (λ i, be_word (take 4 (drop (4 * i) block)))), seq_nth by lia. done.
Qed.

Lemma W_next t : (16 ≤ t < 80)%nat →
  W t = rol (Z.lxor (Z.lxor (Z.lxor (W (t - 3)) (W (t - 8))) (W (t - 14))) (W (t - 16))) 1.
Proof.
  intros Ht. assert (HW : ∀ k, (0 < k ≤ t)%nat → (16 ≤ t)%nat → W (t - k) = nth (t - k) (grow_schedule (t - 16)) 0).
  { intros k Hk _. unfold W. rewrite schedule_grow. apply grow_prefix; lia. }
  rewrite !HW by lia. unfold W. rewrite schedule_grow. rewrite (grow_prefix (S (t - 16)) 64) by lia.
  rewrite grow_S, app_nth2; rewrite grow_length; [|lia]. replace (t - (16 + (t - 16)))%nat with 0%nat by lia. cbn [nth].
  unfold next_word. rewrite grow_length. by replace (16 + (t - 16))%nat with t by lia.
Qed.

(** What the block of the code holds before round [t]. *)
Record ring_holds (t : nat) (l : list Z) : Prop := {
  rh_length : length l = 16%nat;
  rh_new j : (j < t ≤ j + 16)%nat → nth (j mod 16) l 0 = W j;
  rh_old j : (t ≤ j < 16)%nat → nth j l 0 = le_value (take 4 (drop (4 * j) block))
}.

Lemma land_15 n : Z.to_nat (Z.land (Z.of_nat n) 15) = (n mod 16)%nat.
Proof.
  change 15 with (2 ^ 4 - 1). rewrite land_mask by done. change (2 ^ 4) with (Z.of_nat 16).
  by rewrite <-Nat2Z.inj_mod, Nat2Z.id.
Qed.

Lemma ring_word t k l : ring_holds t l → (16 ≤ t)%nat → (k ≤ 16)%nat → (0 < k)%nat →
  word_at l (Z.land (Z.of_nat t + (16 - Z.of_nat k)) 15) = W (t - k).
Proof.
  intros Hr Ht Hk Hk0. unfold word_at. replace (Z.of_nat t + (16 - Z.of_nat k)) with (Z.of_nat (t - k + 1 * 16)) by lia.
  rewrite land_15, Nat.Div0.mod_add. apply Hr. lia.
Qed.

(** The word that a round uses. *)
Lemma ring_used t l : ring_holds t l → (t < 80)%nat →
  (if Z.of_nat t <? 16 then blk0 l (Z.of_nat t) else blk l (Z.of_nat t)) = W t.
Proof.
  intros Hr Ht. destruct (Z.ltb_spec (Z.of_nat t) 16).
  - rewrite W_first by lia. apply swap_bytes.
    + unfold word_at. rewrite Nat2Z.id. apply Hr. lia.
    + by apply Forall_take, Forall_drop.
    + rewrite length_take, length_drop. lia.
  - rewrite W_next by lia. unfold blk. do 2 f_equal; [f_equal; [f_equal|]|].
    + apply (ring_word t 3); [done|lia..].
    + apply (ring_word t 8); [done|lia..].
    + apply (ring_word t 14); [done|lia..].
    + rewrite <-(ring_word t 16 l) by (done || lia). do 2 f_equal. lia.
Qed.

Lemma ring_step t l : ring_holds t l → (t < 80)%nat → ring_holds (S t) (<[Z.to_nat (Z.land (Z.of_nat t) 15) := W t]> l).
Proof.
  intros [H1 H2 H3] Ht. rewrite land_15. pose proof (Nat.mod_upper_bound t 16 ltac:(done)) as Hm.
  assert (Hnth : ∀ i, nth i (<[(t mod 16)%nat := W t]> l) 0 = if decide (i = (t mod 16)%nat) then W t else nth i l 0).
  { intros i. rewrite !nth_lookup. case_decide as E; [subst; by rewrite list_lookup_insert_eq by lia|].
    by rewrite list_lookup_insert_ne. }
  split; [by rewrite length_insert| |].
  - intros j Hj. rewrite Hnth. case_decide as E.
    + replace j with t; [done|]. pose proof (Nat.div_mod_eq j 16). pose proof (Nat.div_mod_eq t 16). lia.
    + apply H2. assert (j ≠ t) by (intros ->; done). pose proof (Nat.div_mod_eq j 16). pose proof (Nat.div_mod_eq t 16).
      destruct (decide (t = j + 16)%nat) as [->|]; [|lia]. exfalso. apply E.
      replace (j + 16)%nat with (j + 1 * 16)%nat by lia. by rewrite Nat.Div0.mod_add.
  - intros j Hj. rewrite Hnth. case_decide as E; [rewrite Nat.mod_small in E by lia; lia|]. apply H3. lia.
Qed.

Lemma round_step t l v : ring_holds t l → (t < 80)%nat →
  ∃ l', ring_holds (S t) l' ∧ sha_round (l, v) (Z.of_nat t) = (l', sha_step (schedule block) v t).
Proof.
  intros Hr Ht. destruct v as [[[[a b] c] d] e]. unfold sha_round. rewrite (ring_used t l Hr Ht).
  eexists. split; [by apply ring_step|]. f_equal. unfold sha_step. change (nth t (schedule block) 0) with (W t). generalize (W t) as k. intros k.
  assert (E : ∀ x y : Z, x = y → (u32 x, a, rol b 30, c, d) = (u32 y, a, rol b 30, c, d)) by congruence. apply E.
  unfold R0, R2, R3, R4. rewrite choose_eq, majority_eq. unfold f_t, K_t, Parity.
  destruct (Z.ltb_spec (Z.of_nat t) 20), (Z.ltb_spec (Z.of_nat t) 40), (Z.ltb_spec (Z.of_nat t) 60);
    repeat (case_decide; try lia); generalize (rol a 5); intros; ring.
Qed.

Lemma rounds_fold n t l v : ring_holds t l → (t + n ≤ 80)%nat →
  (foldl sha_round (l, v) (Z.of_nat <$> seq t n)).2 = foldl (sha_step (schedule block)) v (seq t n).
Proof.
  revert t l v. induction n as [|n IH]; intros t l v Hr Hn; [done|]. cbn [seq fmap list_fmap foldl].
  destruct (round_step t l v Hr) as (l' & Hr' & E); [lia|]. rewrite E. apply IH; [done|lia].
Qed.

Lemma transform_compress state : SHA1_Transform state block = compress state block.
Proof.
  unfold SHA1_Transform, compress. assert (Hr : ring_holds 0 (block_words block)).
  { split; [done|lia|]. intros j Hj. unfold block_words.
    rewrite (nth_indep _ 0 (le_value (take 4 (drop (4 * 0) block)))) by (rewrite length_fmap, length_seq; lia).
    by rewrite (map_nth (λ i, le_value (take 4 (drop (4 * i) block)))), seq_nth by lia. }
  pose proof (rounds_fold 80 0 (block_words block) (word_at state 0, word_at state 1, word_at state 2, word_at state 3, word_at state 4)
    Hr ltac:(lia)) as E. unfold word_at in *. cbn [Z.to_nat Pos.to_nat Pos.iter_op Nat.add] in *.
  destruct (foldl sha_round _ _) as [l v]. cbn [snd] in E. by rewrite E.
Qed.
End rounds.

(** ** Texts in parts *)

Lemma hash_blocks_S n H msg : hash_blocks (S n) H msg = compress (hash_blocks n H msg) (take 64 (drop (64 * n) msg)).
Proof.
  revert H msg. induction n as [|n IH]; intros H msg; [done|].
  change (hash_blocks (S (S n)) H msg) with (hash_blocks (S n) (compress H (take 64 msg)) (drop 64 msg)).
  rewrite IH, drop_drop. by replace (64 + 64 * n)%nat with (64 * S n)%nat by lia.
Qed.

Lemma hash_blocks_app n H msg more : (64 * n ≤ length msg)%nat → hash_blocks n H (msg ++ more) = hash_blocks n H msg.
Proof.
  revert H msg. induction n as [|n IH]; intros H msg Hn; [done|]. cbn [hash_blocks].
  rewrite take_app_le, drop_app_le by lia. apply IH. rewrite length_drop. lia.
Qed.

(** A context that has been given [msg]. *)
Record hashing (msg : list Z) (c : SHA1_CTX) : Prop := {
  hg_state : sha_state c = hash_blocks (length msg / 64) initial msg;
  hg_count : (sha_count c).1 + (sha_count c).2 * 2 ^ 32 = u64 (8 * zlen msg);
  hg_words : 0 ≤ (sha_count c).1 < 2 ^ 32 ∧ 0 ≤ (sha_count c).2 < 2 ^ 32;
  hg_buffer : length (sha_buffer c) = 64%nat;
  hg_rest : take (length msg mod 64) (sha_buffer c) = drop (64 * (length msg / 64)) msg
}.

Lemma init_hashing c : length (sha_buffer c) = 64%nat → hashing [] (sat_SHA1_Init c).
Proof. intros Hb. by split. Qed.

(** The count of less than 2^29 bytes more. *)
Lemma add_count_spec c0 c1 n len : 0 ≤ c0 < 2 ^ 32 → 0 ≤ c1 < 2 ^ 32 → c0 + c1 * 2 ^ 32 = u64 n → 0 ≤ len < 2 ^ 29 →
  let c := add_count (c0, c1) len in
  c.1 + c.2 * 2 ^ 32 = u64 (n + 8 * len) ∧ 0 ≤ c.1 < 2 ^ 32 ∧ 0 ≤ c.2 < 2 ^ 32.
Proof.
  intros H0 H1 Hn Hl. unfold add_count. cbn [fst snd]. rewrite Z.shiftl_mul_pow2, Z.shiftr_div_pow2 by done.
  rewrite (Z.div_small len) by lia. assert (Hb : u64 (len * 2 ^ 3) = 8 * len).
  { unfold u64. rewrite Z.mod_small; lia. }
  rewrite Hb, Z.add_0_r. assert (E : u64 (n + 8 * len) = u64 (c0 + c1 * 2 ^ 32 + 8 * len)).
  { rewrite Hn. unfold u64. by rewrite Zplus_mod_idemp_l. }
  rewrite E. assert (Hc : u32 (c0 + 8 * len) = if decide (c0 + 8 * len < 2 ^ 32) then c0 + 8 * len else c0 + 8 * len - 2 ^ 32).
  { unfold u32. case_decide; [by rewrite Z.mod_small by lia|]. rewrite <-(Z.mod_add _ (-1)), Z.mod_small by lia. lia. }
  rewrite Hc. case_decide as Hov.
  - rewrite (proj2 (Z.ltb_ge _ _)) by lia. rewrite u32_small by lia. split; [|lia].
    unfold u64. rewrite Z.mod_small; lia.
  - rewrite (proj2 (Z.ltb_lt _ _)) by lia. 
    assert (Ec : u32 (u32 (c1 + 1)) = (c1 + 1) mod 2 ^ 32) by (unfold u32; by rewrite Z.mod_mod). rewrite Ec.
    pose proof (Z.mod_pos_bound (c1 + 1) (2 ^ 32) ltac:(done)). split; [|lia].
    unfold u64. destruct (decide (c1 + 1 < 2 ^ 32)).
    + rewrite !Z.mod_small; lia.
    + replace (c1 + 1) with (2 ^ 32) by lia. rewrite Z_mod_same_full.
      replace c1 with (2 ^ 32 - 1) by lia. rewrite <-(Z.mod_add (c0 + (2 ^ 32 - 1) * 2 ^ 32 + 8 * len) (-1)), Z.mod_small by lia. lia.
Qed.

(** The length of the text modulo the size of a block. *)
Lemma count_place msg c : hashing msg c → Z.land (Z.shiftr (sha_count c).1 3) 63 = zlen msg mod 64.
Proof.
  intros [_ Hn [H0 H1] _ _]. change 63 with (2 ^ 6 - 1). rewrite land_mask by done. rewrite Z.shiftr_div_pow2 by done.
  set (c0 := (sha_count c).1) in *. set (c1 := (sha_count c).2) in *. unfold u64 in Hn.
  assert (E : c0 = (8 * zlen msg) mod 2 ^ 32).
  { replace c0 with ((c0 + c1 * 2 ^ 32) mod 2 ^ 32) by (rewrite Z.mod_add by done; by apply Z.mod_small). rewrite Hn.
    apply Z.mod_mod_divide. by exists (2 ^ 32). }
  rewrite E. pose proof (zlen_nonneg msg). clear -H. zlia.
Qed.

Section update.
Context (msg data : list Z).
Hypotheses (Hmsg : bytes msg) (Hdata : bytes data).
Notation M := (msg ++ data).

(** The block of the text at a place. *)
Lemma block_bytes k : (64 * S k ≤ length M)%nat →
  length (take 64 (drop (64 * k) M)) = 64%nat ∧ bytes (take 64 (drop (64 * k) M)).
Proof.
  intros Hk. split; [rewrite length_take, length_drop; lia|]. apply Forall_take, Forall_drop. by apply Forall_app.
Qed.

Lemma transform_block k : (64 * S k ≤ length M)%nat →
  SHA1_Transform (hash_blocks k initial M) (take 64 (drop (64 * k) M)) = hash_blocks (S k) initial M.
Proof. intros Hk. destruct (block_bytes k Hk). by rewrite transform_compress, hash_blocks_S. Qed.

Lemma blocks_loop fuel k i : Z.of_nat (64 * k) = zlen msg + i → 0 ≤ i ≤ zlen data → zlen data - i < Z.of_nat fuel →
  ∃ k' i', loop fuel (block_turn data (zlen data)) (hash_blocks k initial M, i) = Ret (hash_blocks k' initial M, i') ∧
    Z.of_nat (64 * k') = zlen msg + i' ∧ 0 ≤ i' ≤ zlen data ∧ zlen data < i' + 64.
Proof.
  revert k i. induction fuel as [|fuel IH]; intros k i Hk Hi Hf; [lia|]. rewrite loop_S. unfold block_turn at 2. cbv beta iota zeta.
  destruct (Z.ltb_spec (i + 63) (zlen data)).
  - rewrite mread_in by lia. cbn [mbind outcome_mbind].
    assert (E : take (Z.to_nat 64) (drop (Z.to_nat i) data) = take 64 (drop (64 * k) M)).
    { change (Z.to_nat 64) with 64%nat. f_equal. rewrite drop_app_ge by (unfold zlen in *; lia). f_equal. unfold zlen in *. lia. }
    rewrite E, transform_block by (rewrite length_app; unfold zlen in *; lia). apply IH; lia.
  - exists k, i. split; [done|]. lia.
Qed.

Lemma update_spec c : hashing msg c → zlen data < 2 ^ 29 →
  ∃ c', sat_SHA1_Update c data (zlen data) = Ret c' ∧ hashing M c'.
Proof.
  intros Hc Hlen. pose proof (count_place msg c Hc) as Hj. destruct Hc as [Hst Hn [H0 H1] Hb Hr].
  destruct c as [state [c0 c1] buffer]. cbn [sha_state sha_count sha_buffer fst snd] in *.
  pose proof (zlen_nonneg msg). pose proof (zlen_nonneg data). pose proof (Z.mod_pos_bound (zlen msg) 64 ltac:(done)) as Hjb.
  unfold sat_SHA1_Update. cbn [sha_state sha_count sha_buffer fst snd]. rewrite Hj. set (j := zlen msg mod 64) in *.
  set (k := (length msg / 64)%nat) in *. set (r := (length msg mod 64)%nat) in *.
  assert (Hkr : length msg = (64 * k + r)%nat ∧ Z.of_nat r = j).
  { split; [by apply Nat.div_mod_eq|]. unfold r, j, zlen. by rewrite Nat2Z.inj_mod. }
  destruct Hkr as [Hkr Hrj].
  destruct (add_count_spec c0 c1 (8 * zlen msg) (zlen data) H0 H1 Hn ltac:(lia)) as (C1 & C2 & C3).
  assert (Hend : ∀ k' i' buf p, Z.of_nat (64 * k') + p = zlen msg + i' → 0 ≤ i' ≤ zlen data → 0 ≤ p → p + (zlen data - i') < 64 →
    length buf = 64%nat → take (Z.to_nat p) buf = take (Z.to_nat p) (drop (64 * k') M) → Z.of_nat (64 * k') + p ≤ zlen M →
    ∃ c', (rest ← mread data i' (zlen data - i'); buffer ← mwrite buf p rest;
           Ret (MkCtx (hash_blocks k' initial M) (add_count (c0, c1) (zlen data)) buffer)) = Ret c' ∧ hashing M c').
  { intros k' i' buf p Hp Hi Hp0 Hlt Hbl Hpre _. rewrite (mread_in data i') by lia. cbn [mbind outcome_mbind].
    rewrite (firstn_all2 (drop _ data)) by (rewrite length_drop; unfold zlen in *; lia).
    set (rest := drop (Z.to_nat i') data). assert (Hrl : zlen rest = zlen data - i') by (unfold rest, zlen in *; rewrite length_drop; lia).
    unfold mwrite. rewrite (proj2 (Z.leb_le _ _)) by done. rewrite (proj2 (Z.leb_le _ _)) by (unfold zlen in *; lia).
    cbn [andb mbind outcome_mbind]. eexists. split; [done|].
    assert (HM : length M = (64 * k' + (Z.to_nat p + length rest))%nat) by (rewrite length_app; unfold zlen in *; lia).
    assert (Hq : (length M / 64)%nat = k' ∧ (length M mod 64)%nat = (Z.to_nat p + length rest)%nat).
    { assert (Hsmall : (Z.to_nat p + length rest < 64)%nat) by (unfold zlen in *; lia). rewrite HM. split.
      - rewrite Nat.mul_comm, Nat.add_comm, Nat.div_add, Nat.div_small by lia. done.
      - rewrite Nat.mul_comm, Nat.add_comm, Nat.Div0.mod_add, Nat.mod_small by lia. done. }
    destruct Hq as [Hq1 Hq2]. assert (Htp : length (take (Z.to_nat p) buf) = Z.to_nat p) by (rewrite length_take; unfold zlen in *; lia).
    split; cbn [sha_state sha_count sha_buffer]; rewrite ?Hq1, ?Hq2; [done| |done| |].
    - rewrite C1, zlen_app. f_equal. lia.
    - rewrite !length_app, Htp, length_drop. unfold zlen in *. lia.
    - rewrite app_assoc, take_app_length' by (rewrite length_app; lia). rewrite Hpre.
      rewrite <-(take_drop (Z.to_nat p) (drop (64 * k') M)) at 2. f_equal. rewrite drop_drop. unfold rest.
      rewrite drop_app_ge by (unfold zlen in *; lia). f_equal. unfold zlen in *. lia. }
  destruct (Z.ltb_spec 63 (j + zlen data)).
  - rewrite mread_in by lia. cbn [mbind outcome_mbind]. set (part := take (Z.to_nat (64 - j)) (drop (Z.to_nat 0) data)).
    assert (Hpl : zlen part = 64 - j) by (unfold part, zlen in *; rewrite length_take, length_drop; lia).
    assert (Hw : mwrite buffer j part = Ret (take (Z.to_nat j) buffer ++ part ++ drop (Z.to_nat (j + zlen part)) buffer)).
    { unfold mwrite. rewrite (proj2 (Z.leb_le _ _)) by lia. by rewrite (proj2 (Z.leb_le _ _)) by (unfold zlen in *; lia). }
    rewrite Hw. cbn [mbind outcome_mbind].
    assert (Ebuf : take (Z.to_nat j) buffer ++ part ++ drop (Z.to_nat (j + zlen part)) buffer = take 64 (drop (64 * k) M)).
    { rewrite (drop_ge buffer), app_nil_r by lia. replace (Z.to_nat j) with r by lia. rewrite Hr, drop_app_le by lia.
      rewrite take_app_ge by (rewrite length_drop; lia). f_equal. unfold part. rewrite drop_0. f_equal. rewrite length_drop. lia. }
    rewrite Ebuf, Hst, <-(hash_blocks_app k initial msg data) by lia.
    rewrite transform_block by (rewrite length_app; unfold zlen in *; lia).
    destruct (blocks_loop (Z.to_nat (zlen data) + 1) (S k) (64 - j)) as (k' & i' & Hrun & Hk' & Hi' & Hi2); [unfold zlen in *; lia..|].
    rewrite Hrun. cbn [mbind outcome_mbind]. apply Hend; try done; try lia.
    + rewrite length_take, length_drop, length_app. unfold zlen in *. lia.
    + rewrite zlen_app. lia.
  - cbn [mbind outcome_mbind]. rewrite Hst. rewrite <-(hash_blocks_app k initial msg data) by lia.
    apply Hend; try lia; try done.
    + unfold zlen in *. lia.
    + replace (Z.to_nat j) with r by lia. rewrite Hr, drop_app_le, take_app_le by (rewrite ?length_drop; lia).
      by rewrite firstn_all2 by (rewrite length_drop; lia).
    + rewrite zlen_app. unfold zlen in *. lia.
Qed.
End update.

(** ** The end of a text *)

Lemma land_504 x : Z.land x 504 = 8 * Z.land (Z.shiftr x 3) 63.
Proof.
  replace (8 * Z.land (Z.shiftr x 3) 63) with (Z.shiftl (Z.land (Z.shiftr x 3) 63) 3) by (rewrite Z.shiftl_mul_pow2 by done; lia).
  apply Z.bits_inj'. intros n Hn. change 504 with (Z.shiftl 63 3). rewrite Z.land_spec, !Z.shiftl_spec by done.
  rewrite Z.land_spec. destruct (Z.le_gt_cases 3 n).
  - rewrite Z.shiftr_spec by lia. by replace (n - 3 + 3) with n by lia.
  - rewrite !(Z.testbit_neg_r _ (n - 3)) by lia. by rewrite !andb_false_r.
Qed.

Lemma at_448 msg c : hashing msg c → (Z.land (sha_count c).1 504 =? 448) = (zlen msg mod 64 =? 56).
Proof.
  intros Hc. rewrite land_504, (count_place msg c Hc).
  destruct (Z.eqb_spec (8 * (zlen msg mod 64)) 448), (Z.eqb_spec (zlen msg mod 64) 56); try done; lia.
Qed.

Lemma bytes_replicate n b : is_byte b → bytes (replicate n b).
Proof. intros Hb. by apply Forall_replicate. Qed.

Lemma final_loop n fuel msg c : bytes msg → hashing msg c → (n < fuel)%nat → Z.of_nat n = (56 - zlen msg) mod 64 →
  ∃ c', loop fuel final_turn c = Ret c' ∧ hashing (msg ++ replicate n 0) c'.
Proof.
  revert fuel msg c. induction n as [|n IH]; intros [|fuel] msg c Hb Hc Hf Hn; try lia; rewrite loop_S; unfold final_turn at 2;
    rewrite (at_448 msg c Hc); pose proof (zlen_nonneg msg).
  - assert (E : zlen msg mod 64 = 56) by zlia. rewrite E. cbn. exists c. by rewrite app_nil_r.
  - assert (E : zlen msg mod 64 ≠ 56) by zlia. rewrite (proj2 (Z.eqb_neq _ _) E). cbn [negb].
    destruct (update_spec msg [0] Hb ltac:(by repeat constructor) c Hc ltac:(done)) as (c1 & Hrun & Hc1).
    change (zlen [0]) with 1 in Hrun. rewrite Hrun. cbn [mbind outcome_mbind].
    destruct (IH fuel (msg ++ [0]) c1) as (c2 & Hrun2 & Hc2); [apply Forall_app; split; [done|by repeat constructor]|done|lia| |].
    { rewrite zlen_app. change (zlen [0]) with 1. zlia. }
    exists c2. split; [exact Hrun2|]. by rewrite <-app_assoc in Hc2.
Qed.

(** The number of bits in front of the last block's end. *)
Lemma finalcount_spec msg c : hashing msg c →
  (λ i, Z.land (Z.shiftr (if 4 <=? i then (sha_count c).1 else (sha_count c).2) ((3 - Z.land i 3) * 8)) 255) <$>
    (Z.of_nat <$> seq 0 8) = be_bytes 8 (8 * zlen msg).
Proof.
  intros [_ Hn [H0 H1] _ _]. destruct c as [st [c0 c1] buf]. cbn [sha_count fst snd] in *.
  set (x := 8 * zlen msg) in *. assert (Hx : ∃ q, x = c0 + c1 * 2 ^ 32 + q * 2 ^ 64).
  { exists (x / 2 ^ 64). unfold u64 in Hn. rewrite Hn. pose proof (Z.div_mod x (2 ^ 64) ltac:(done)). lia. }
  destruct Hx as [q Hx]. clearbody x.
  assert (Hlow : ∀ k, 0 ≤ k ≤ 24 → Z.land (Z.shiftr x k) 255 = Z.land (Z.shiftr c0 k) 255).
  { intros k Hk. apply Z.bits_inj'. intros n Hn'. rewrite !Z.land_spec. change 255 with (Z.ones 8).
    destruct (Z.le_gt_cases 8 n); [rewrite Z.ones_spec_high by lia; by rewrite !andb_false_r|].
    rewrite !Z.shiftr_spec by lia. f_equal. replace c0 with (x mod 2 ^ 32).
    - by rewrite Z.mod_pow2_bits_low by lia.
    - rewrite Hx. replace (c0 + c1 * 2 ^ 32 + q * 2 ^ 64) with (c0 + (c1 + q * 2 ^ 32) * 2 ^ 32) by lia.
      rewrite Z.mod_add by done. by apply Z.mod_small. }
  assert (Hhigh : ∀ k, 0 ≤ k ≤ 24 → Z.land (Z.shiftr x (32 + k)) 255 = Z.land (Z.shiftr c1 k) 255).
  { intros k Hk. rewrite <-Z.shiftr_shiftr by lia. apply Z.bits_inj'. intros n Hn'. rewrite !Z.land_spec. change 255 with (Z.ones 8).
    destruct (Z.le_gt_cases 8 n); [rewrite Z.ones_spec_high by lia; by rewrite !andb_false_r|].
    f_equal. rewrite !(Z.shiftr_spec _ k) by lia. replace c1 with (Z.shiftr x 32 mod 2 ^ 32).
    - by rewrite Z.mod_pow2_bits_low by lia.
    - rewrite Hx, Z.shiftr_div_pow2 by done.
      replace (c0 + c1 * 2 ^ 32 + q * 2 ^ 64) with (c0 + (c1 + q * 2 ^ 32) * 2 ^ 32) by lia.
      rewrite Z.div_add, Z.div_small, Z.add_0_l by done. rewrite Z.mod_add by done. by apply Z.mod_small. }
  set (byte := λ w k, Z.land (Z.shiftr w k) 255).
  transitivity [byte c1 24; byte c1 16; byte c1 8; byte c1 0; byte c0 24; byte c0 16; byte c0 8; byte c0 0]; [reflexivity|].
  unfold byte. rewrite <-(Hhigh 0), <-(Hhigh 8), <-(Hhigh 16), <-(Hhigh 24) by lia.
  rewrite <-(Hlow 0), <-(Hlow 8), <-(Hlow 16), <-(Hlow 24) by lia. reflexivity.
Qed.

Lemma compress_length H block : length (compress H block) = 5%nat.
Proof. unfold compress. by destruct (foldl _ _ _) as [[[[a b] c] d] e]. Qed.

Lemma hash_length n H msg : length H = 5%nat → length (hash_blocks n H msg) = 5%nat.
Proof. revert H msg. induction n as [|n IH]; intros H msg HH; [done|]. cbn [hash_blocks]. apply IH, compress_length. Qed.

Lemma digest_bytes (l : list Z) : length l = 5%nat →
  (λ i, Z.land (Z.shiftr (word_at l (Z.shiftr i 2)) ((3 - Z.land i 3) * 8)) 255) <$>
    (Z.of_nat <$> seq 0 (Z.to_nat SHA1_DIGEST_SIZE)) = concat (be_bytes 4 <$> l).
Proof. destruct l as [|a [|b [|c [|d [|e [|]]]]]]; try done. Qed.

Lemma bytes_be n x : bytes (be_bytes n x).
Proof.
  unfold be_bytes, le_bytes. apply Forall_rev, Forall_fmap, Forall_forall. intros i _. cbn.
  change 255 with (2 ^ 8 - 1). rewrite land_mask by done. by apply Z.mod_pos_bound.
Qed.

Lemma zlen_be n x : zlen (be_bytes n x) = Z.of_nat n.
Proof. unfold be_bytes, zlen. rewrite length_rev. apply zlen_le_bytes. Qed.

Lemma final_spec msg c : bytes msg → hashing msg c → sat_SHA1_Final c = Ret (sha1 msg).
Proof.
  intros Hb Hc. unfold sat_SHA1_Final. rewrite (finalcount_spec msg c Hc). pose proof (zlen_nonneg msg).
  destruct (update_spec msg [128] Hb ltac:(by repeat constructor) c Hc ltac:(done)) as (c1 & E1 & Hc1).
  change (zlen [128]) with 1 in E1. rewrite E1. cbn [mbind outcome_mbind].
  assert (Hb1 : bytes (msg ++ [128])) by (apply Forall_app; split; [done|by repeat constructor]).
  set (n := Z.to_nat ((55 - zlen msg) mod 64)). pose proof (Z.mod_pos_bound (55 - zlen msg) 64 ltac:(done)).
  destruct (final_loop n 65 (msg ++ [128]) c1 Hb1 Hc1) as (c2 & E2 & Hc2); [lia| |].
  { rewrite zlen_app. change (zlen [128]) with 1. subst n. rewrite Z2Nat.id by lia. f_equal. lia. }
  rewrite E2. cbn [mbind outcome_mbind].
  assert (Hb2 : bytes ((msg ++ [128]) ++ replicate n 0)) by (apply Forall_app; split; [done|by apply bytes_replicate]).
  destruct (update_spec _ (be_bytes 8 (8 * zlen msg)) Hb2 (bytes_be _ _) c2 Hc2) as (c3 & E3 & Hc3); [by rewrite zlen_be|].
  rewrite zlen_be in E3. change (Z.of_nat 8) with 8 in E3. rewrite E3. cbn [mbind outcome_mbind].
  assert (EM : ((msg ++ [128]) ++ replicate n 0) ++ be_bytes 8 (8 * zlen msg) = msg ++ sha_padding msg).
  { unfold sha_padding. fold n. by rewrite <-!app_assoc. }
  rewrite EM in Hc3. rewrite (hg_state _ _ Hc3). rewrite digest_bytes by by apply hash_length. done.
Qed.

Lemma sha1_bytes msg : bytes (sha1 msg) ∧ zlen (sha1 msg) = 20.
Proof.
  unfold sha1. pose proof (hash_length (length (msg ++ sha_padding msg) / 64) initial (msg ++ sha_padding msg) eq_refl) as Hl.
  destruct (hash_blocks _ _ _) as [|a [|b [|c [|d [|e [|]]]]]]; try done. cbn [fmap list_fmap concat].
  rewrite !Forall_app, !zlen_app, !zlen_be. split_and!; try apply bytes_be; done.
Qed.

Lemma sha1_run msg c : length (sha_buffer c) = 64%nat → bytes msg → zlen msg < 2 ^ 29 →
  (c ← sat_SHA1_Update (sat_SHA1_Init c) msg (zlen msg); sat_SHA1_Final c) = Ret (sha1 msg).
Proof.
  intros Hc Hb Hlen.
  destruct (update_spec [] msg ltac:(constructor) Hb _ (init_hashing c Hc) Hlen) as (c1 & -> & Hc1).
  cbn [mbind outcome_mbind]. by apply final_spec.
Qed.

(** C33: [sha1] of Lua is the hash of FIPS 180-4, for every text of less than 2^29
    bytes, and returns whatever the stack held before. *)
Theorem sha1_correct ctx buffer : length (sha_buffer ctx) = 64%nat → bytes buffer → zlen buffer < 2 ^ 29 →
  lsha1 ctx buffer = Ret (sha1 buffer).
Proof. apply sha1_run. Qed.

(** ** The keyed hash *)

Lemma lxor_byte a b : is_byte a → is_byte b → is_byte (Z.lxor a b).
Proof.
  unfold is_byte. intros Ha Hb. assert (H0 : 0 ≤ Z.lxor a b) by (apply Z.lxor_nonneg; lia). split; [done|].
  destruct (Z.eq_dec (Z.lxor a b) 0) as [->|Hne]; [lia|]. change 256 with (2 ^ 8). apply Z.log2_lt_pow2; [lia|].
  eapply Z.le_lt_trans; [apply Z.log2_lxor; lia|]. apply Z.max_lub_lt.
  - destruct (Z.eq_dec a 0) as [->|]; [done|apply Z.log2_lt_pow2; lia].
  - destruct (Z.eq_dec b 0) as [->|]; [done|apply Z.log2_lt_pow2; lia].
Qed.

Lemma lxor_cons a b x y : is_byte a → is_byte b →
  Z.lxor (a + 256 * x) (b + 256 * y) = Z.lxor a b + 256 * Z.lxor x y.
Proof.
  intros Ha Hb. pose proof (lxor_byte a b Ha Hb). apply Z.bits_inj'. intros n Hn. rewrite Z.lxor_spec, !testbit_cons by done.
  destruct (n <? 8); by rewrite Z.lxor_spec.
Qed.

Lemma xor_word bs v : bytes bs → is_byte v →
  le_bytes (length bs) (Z.lxor (le_value bs) (le_value (replicate (length bs) v))) = (λ b, Z.lxor b v) <$> bs.
Proof.
  intros Hb Hv. assert (E : Z.lxor (le_value bs) (le_value (replicate (length bs) v)) = le_value ((λ b, Z.lxor b v) <$> bs)).
  { induction Hb as [|b bs Hb _ IH]; [done|]. cbn [length replicate le_value fmap list_fmap]. rewrite lxor_cons by done. by rewrite IH. }
  rewrite E. rewrite <-(length_fmap (λ b, Z.lxor b v) bs). apply le_value_bytes, Forall_fmap.
  eapply Forall_impl; [exact Hb|]. intros b Hb'. by apply lxor_byte.
Qed.

Lemma concat_fours {A} (l : list A) k n : (4 * (k + n) ≤ length l)%nat →
  concat ((λ i, take 4 (drop (4 * i) l)) <$> seq k n) = take (4 * n) (drop (4 * k) l).
Proof.
  revert k. induction n as [|n IH]; intros k Hn; [done|]. cbn [seq fmap list_fmap concat]. rewrite IH by lia.
  replace (4 * S k)%nat with (4 * k + 4)%nat by lia. rewrite <-drop_drop.
  replace (4 * S n)%nat with (4 + 4 * n)%nat by lia.
  rewrite <-(take_drop 4 (take (4 + 4 * n) (drop (4 * k) l))). rewrite take_take, skipn_firstn_comm. repeat f_equal; lia.
Qed.

Lemma xor_key_spec key v : bytes key → length key = 64%nat → is_byte v →
  xor_key key (le_value (replicate 4 v)) = (λ b, Z.lxor b v) <$> key.
Proof.
  intros Hb Hl Hv. unfold xor_key.
  assert (E : concat ((λ i, take 4 (drop (4 * i) key)) <$> seq 0 16) = key) by (rewrite concat_fours by lia; by apply firstn_all2; lia).
  transitivity ((λ b, Z.lxor b v) <$> concat ((λ i, take 4 (drop (4 * i) key)) <$> seq 0 16)); [|by rewrite E].
  rewrite (concat_map (λ b, Z.lxor b v)). f_equal. fold (fmap (M := list) (fmap (M := list) (λ b, Z.lxor b v)) ((λ i, take 4 (drop (4 * i) key)) <$> seq 0 16)).
  rewrite <-list_fmap_compose. apply list_fmap_ext. intros i x Hx. apply lookup_seq in Hx as [-> Hx]. cbn [compose].
  assert (Hc : length (take 4 (drop (4 * (0 + i)) key)) = 4%nat) by (rewrite length_take, length_drop; lia).
  rewrite <-Hc at 1 4. apply xor_word; [by apply Forall_take, Forall_drop|done].
Qed.

(** [hmac_sha1] of Lua is the keyed hash of RFC 2104 over SHA-1, for keys and
    texts of less than 2^29 bytes; longer keys than a block are hashed first. *)
Theorem hmac_sha1_correct ctx ctx1 ctx2 key text :
  length (sha_buffer ctx) = 64%nat → length (sha_buffer ctx1) = 64%nat → length (sha_buffer ctx2) = 64%nat →
  bytes key → bytes text → zlen key < 2 ^ 29 → zlen text < 2 ^ 29 →
  lhmac_sha1 ctx ctx1 ctx2 key text = Ret (hmac_sha1 key text).
Proof.
  intros H0 H1 H2 Hk Ht Lk Lt. unfold lhmac_sha1, hmac_sha1. pose proof (zlen_nonneg key).
  set (k := if zlen key <=? 64 then key else sha1 key). set (k0 := k ++ replicate (64 - length k) 0).
  assert (Hk0 : bytes k ∧ zlen k ≤ 64).
  { subst k. destruct (Z.leb_spec (zlen key) 64); [done|]. destruct (sha1_bytes key) as [? ->]. done. }
  destruct Hk0 as [Hkb Hkl].
  assert (Hpad : mwrite (replicate (Z.to_nat BLOCKSIZE) 0) 0 k = Ret k0).
  { unfold mwrite. rewrite (proj2 (Z.leb_le _ _)) by done. rewrite (proj2 (Z.leb_le _ _)).
    - cbn [andb]. rewrite take_0, drop_replicate. unfold k0. cbn [app].
      replace (Z.to_nat BLOCKSIZE - Z.to_nat (0 + zlen k))%nat with (64 - length k)%nat; [done|]. unfold BLOCKSIZE, zlen in *. lia.
    - unfold zlen at 2. rewrite length_replicate. unfold BLOCKSIZE. lia. }
  match goal with |- ?x ≫= _ = _ => assert (Ex : x = Ret k0) end.
  { subst k. unfold BLOCKSIZE at 1. destruct (Z.ltb_spec 64 (zlen key)), (Z.leb_spec (zlen key) 64); try lia; [|exact Hpad].
    pose proof (sha1_run key ctx H0 Hk Lk) as Hrun. destruct (sat_SHA1_Update _ _ _) as [c| | | |]; try done.
    cbn [mbind outcome_mbind] in *. rewrite Hrun. cbn [mbind outcome_mbind]. exact Hpad. }
  rewrite Ex. cbn [mbind outcome_mbind].
  assert (Hb0 : bytes k0 ∧ length k0 = 64%nat).
  { unfold k0. split; [apply Forall_app; split; [done|by apply bytes_replicate]|].
    rewrite length_app, length_replicate. unfold zlen in *. lia. }
  destruct Hb0 as [Hb0 Hl0]. change 0x5c5c5c5c with (le_value (replicate 4 0x5c)).
  rewrite (xor_key_spec k0) by done. set (kout := (λ b, Z.lxor b 92) <$> k0).
  assert (Hxb : ∀ v l, is_byte v → bytes l → bytes ((λ b, Z.lxor b v) <$> l)).
  { intros v l Hv Hl. apply Forall_fmap. eapply Forall_impl; [exact Hl|]. intros b Hb. by apply lxor_byte. }
  assert (Hout : bytes kout ∧ length kout = 64%nat) by (split; [by apply Hxb|by unfold kout; rewrite length_fmap]).
  destruct Hout as [Hob Hol]. change (Z.lxor (le_value (replicate 4 92)) 0x36363636) with (le_value (replicate 4 0x6a)).
  rewrite (xor_key_spec kout) by done.
  assert (Ein : (λ b, Z.lxor b 106) <$> kout = (λ b, Z.lxor b 54) <$> k0).
  { unfold kout. rewrite <-list_fmap_compose. apply list_fmap_ext. intros i b _. cbn [compose]. by rewrite Z.lxor_assoc. }
  rewrite Ein. set (kin := (λ b, Z.lxor b 54) <$> k0).
  assert (Hin : bytes kin ∧ length kin = 64%nat) by (split; [by apply Hxb|by unfold kin; rewrite length_fmap]).
  destruct Hin as [Hib Hil]. assert (Hz : ∀ l : list Z, length l = 64%nat → BLOCKSIZE = zlen l) by (intros l Hl; unfold zlen; by rewrite Hl).
  rewrite (Hz kout Hol) at 1. rewrite (Hz kin Hil).
  destruct (update_spec [] kout ltac:(constructor) Hob _ (init_hashing ctx1 H1)) as (c1 & -> & Hc1); [unfold zlen; by rewrite Hol|].
  cbn [mbind outcome_mbind].
  destruct (update_spec [] kin ltac:(constructor) Hib _ (init_hashing ctx2 H2)) as (c2 & -> & Hc2); [unfold zlen; by rewrite Hil|].
  cbn [mbind outcome_mbind app] in *.
  destruct (update_spec kin text Hib Ht c2 Hc2 Lt) as (c3 & -> & Hc3). cbn [mbind outcome_mbind].
  assert (Hkt : bytes (kin ++ text)) by by apply Forall_app.
  rewrite (final_spec _ c3 Hkt Hc3). cbn [mbind outcome_mbind].
  destruct (sha1_bytes (kin ++ text)) as [Hdb Hdl]. unfold SHA1_DIGEST_SIZE. rewrite <-Hdl at 1.
  destruct (update_spec kout _ Hob Hdb c1 Hc1) as (c4 & -> & Hc4); [by rewrite Hdl|]. cbn [mbind outcome_mbind].
  apply final_spec; [by apply Forall_app|exact Hc4].
Qed.

(** ** Where the promise ends *)

(** The carry into the second word of the count compares 32 bits with the 64 of
    [len << 3]: a part of 2^29 bytes or more always carries, so the count, which is
    hashed with the text, is too large by 2^32. *)
Theorem long_text_miscounted c0 c1 n len :
  0 ≤ c0 < 2 ^ 32 → 0 ≤ c1 → 2 ^ 29 ≤ len → c0 + c1 * 2 ^ 32 = 8 * n → 0 ≤ c1 + len / 2 ^ 29 < 2 ^ 32 - 2 → c0 + 8 * len mod 2 ^ 32 < 2 ^ 32 →
  (add_count (c0, c1) len).1 + (add_count (c0, c1) len).2 * 2 ^ 32 = 8 * (n + len) + 2 ^ 32.
Proof.
  intros H0 H1 Hl Hn Hc Hno. unfold add_count. cbn [fst snd]. rewrite Z.shiftl_mul_pow2, Z.shiftr_div_pow2 by done.
  assert (Hd : len = 2 ^ 29 * (len / 2 ^ 29) + len mod 2 ^ 29) by by apply Z.div_mod.
  pose proof (Z.mod_pos_bound len (2 ^ 29) ltac:(done)). set (q := len / 2 ^ 29) in *. set (r := len mod 2 ^ 29) in *.
  assert (Hb : u64 (len * 2 ^ 3) = 8 * len) by (unfold u64; rewrite Z.mod_small; lia). rewrite Hb.
  assert (Hr : (8 * len) mod 2 ^ 32 = 8 * r).
  { replace (8 * len) with (8 * r + q * 2 ^ 32) by lia. rewrite Z.mod_add by done. apply Z.mod_small. lia. }
  rewrite Hr in Hno. assert (Hs : u32 (c0 + 8 * len) = c0 + 8 * r).
  { unfold u32. replace (c0 + 8 * len) with (c0 + 8 * r + q * 2 ^ 32) by lia. rewrite Z.mod_add by done. apply Z.mod_small. lia. }
  rewrite Hs, (proj2 (Z.ltb_lt _ _)) by lia. rewrite (u32_small (c1 + 1)) by lia. rewrite u32_small by lia. lia.
Qed.

Lemma sha1_correct_witness :
  lsha1 (MkCtx [] (7, 7) (replicate 64 9)) (codes "abc") =
    Ret [169; 153; 62; 54; 71; 6; 129; 106; 186; 62; 37; 113; 120; 80; 194; 108; 156; 208; 216; 157].
Proof.
  rewrite (sha1_correct (MkCtx [] (7, 7) (replicate 64 9)) (codes "abc")); [vm_compute; reflexivity|done| |done].
  vm_compute. repeat constructor; done.
Defined.
