(* ===== verification/Lua.v ===== *)
(** * Functions called from Lua

    The modules under [lualib-src/] are C functions that Lua calls. This file has
    what their models share: the monad of functions that return or raise an error
    of Lua, and its loops. *)
From S2P Require Import Prelude.

Local Open Scope Z_scope.

(** A function called from Lua returns or raises an error, which leaves all
    functions up to the call from Lua. *)
Notation luaM A := (outcome (string + A)) (only parsing).
Definition lret {A} (a : A) : luaM A := Ret (inr a).
Definition luaL_error {A} (msg : string) : luaM A := Ret (inl msg).
Definition lbind {A B} (m : luaM A) (f : A → luaM B) : luaM B :=
  r ← m; match r with inl e => Ret (inl e) | inr a => f a end.
Definition lift {A} (m : outcome A) : luaM A := a ← m; lret a.
Notation "x ⇐ m ; k" := (lbind m (λ x, k)) (at level 20, m at level 100, k at level 200,
  format "x  ⇐  m ;  '/' k").
Notation "' x ⇐ m ; k" := (lbind m (λ x, k)) (at level 20, x pattern, m at level 100,
  k at level 200, format "' x  ⇐  m ;  '/' k").

(** [for] over a list that raises the first error. *)
Fixpoint lfold {A S} (body : A → S → luaM S) (l : list A) (s : S) : luaM S :=
  match l with
  | [] => lret s
  | x :: l' => s' ⇐ body x s; lfold body l' s'
  end.

(** [while]; the body gives the next state or the result. *)
Fixpoint lloop {S R} (fuel : nat) (body : S → luaM (S + R)) (s : S) : luaM R :=
  match fuel with
  | O => NoFuel
  | Datatypes.S fuel' =>
      r ⇐ body s; match r with inl s' => lloop fuel' body s' | inr a => lret a end
  end.

(** ** Lemmas *)

Lemma lift_Ret {A} (a : A) : lift (Ret a) = lret a.
Proof. done. Qed.
Lemma lbind_lret {A B} (a : A) (f : A → luaM B) : lbind (lret a) f = f a.
Proof. done. Qed.

(** Steps through the binds whose first part has returned. *)
Ltac lsimpl := repeat (first [rewrite lift_Ret | rewrite lbind_lret]; cbv beta iota).

Lemma lbind_assoc {A B C} (m : luaM A) (f : A → luaM B) (g : B → luaM C) :
  lbind (lbind m f) g = lbind m (λ x, lbind (f x) g).
Proof. by destruct m as [[e|a]| | | |]. Qed.

Lemma lfold_filter {A S} (P : A → bool) (body : A → S → luaM S) l s :
  lfold (λ x s, if P x then lret s else body x s) l s =
  lfold body (filter (λ x, P x = false) l) s.
Proof.
  revert s. induction l as [|x l IH]; intros s; [done|]. cbn [lfold]. rewrite filter_cons.
  destruct (P x) eqn:Hx.
  - rewrite decide_False by done. cbn. apply IH.
  - rewrite decide_True by done. cbn [lfold]. unfold lbind. destruct (body x s) as [[e|s']| | | |]; try done.
    cbn. apply IH.
Qed.

(** [m] returns or raises a Lua error; a result has the property [P]. *)
Definition safe {A} (P : A → Prop) (m : luaM A) : Prop :=
  ∃ r, m = Ret r ∧ ∀ a, r = inr a → P a.

Lemma safe_lret {A} (P : A → Prop) a : P a → safe P (lret a).
Proof. intros Ha. exists (inr a). split; [done|]. by intros a' [= <-]. Qed.

Lemma safe_error {A} (P : A → Prop) msg : safe P (luaL_error msg).
Proof. exists (inl msg). by split. Qed.

Lemma safe_bind {A B} (P : A → Prop) (Q : B → Prop) m f :
  safe P m → (∀ a, P a → safe Q (f a)) → safe Q (lbind m f).
Proof.
  intros (r & -> & Hr) Hf. destruct r as [e|a]; [by apply safe_error|]. exact (Hf a (Hr a eq_refl)).
Qed.

(** ... and what it returned. *)
Lemma safe_eq {A} (P : A → Prop) m : safe P m → safe (λ a, P a ∧ m = lret a) m.
Proof. intros (r & -> & Hr). exists r. split; [done|]. intros a ->. split; [by apply Hr|done]. Qed.

Lemma safe_loop {S R} (I : S → Prop) (meas : S → nat) (P : R → Prop) (body : S → luaM (S + R)) :
  (∀ s, I s → safe (λ r, match r with inl s' => I s' ∧ (meas s' < meas s)%nat | inr a => P a end) (body s)) →
  ∀ fuel s, I s → (meas s < fuel)%nat → safe P (lloop fuel body s).
Proof.
  intros Hb fuel. induction fuel as [|fuel IH]; intros s Hs Hm; [lia|]. cbn [lloop].
  eapply safe_bind; [by apply Hb|]. intros [s'|a] Ha; [|by apply safe_lret].
  destruct Ha as [Hs' Hlt]. apply IH; [done|lia].
Qed.
