(* ===== verification/Seri.v ===== *)
(** * Serialization of Lua values

    The model of [lualib-src/lua-seri.cpp]: [luaseri_pack] writes Lua values
    into a chain of blocks and copies them into one buffer, [luaseri_unpack]
    reads them back. Messages between services are such buffers.

    The Lua side is what the Lua API shows of it. A value is an [lvalue]; tables
    are references, so [heap] says what they hold: the elements [1] to
    [lua_rawlen], the pairs in the order of [lua_next], and, when there is a
    [__pairs] metamethod, the pairs it yields and whether it ends without an
    error. What unpacking pushes is a [tree]: for a table the values it sets by
    index and the pairs it sets, in order. The release of memory ([wb_free]) and
    the checks of the size of the Lua stack are left out; [fits] says which table
    sizes Lua has the memory for. *)
From S2P Require Import Prelude Lua.

Local Open Scope Z_scope.

Definition TYPE_NIL : Z := 0.
Definition TYPE_BOOLEAN : Z := 1.
Definition TYPE_NUMBER : Z := 2.
Definition TYPE_NUMBER_ZERO : Z := 0.
Definition TYPE_NUMBER_BYTE : Z := 1.
Definition TYPE_NUMBER_WORD : Z := 2.
Definition TYPE_NUMBER_DWORD : Z := 4.
Definition TYPE_NUMBER_QWORD : Z := 6.
Definition TYPE_NUMBER_REAL : Z := 8.
Definition TYPE_USERDATA : Z := 3.
Definition TYPE_SHORT_STRING : Z := 4.
Definition TYPE_LONG_STRING : Z := 5.
Definition TYPE_TABLE : Z := 6.
Definition MAX_COOKIE : Z := 32.
Definition BLOCK_SIZE : Z := 128.
Definition MAX_DEPTH : Z := 32.

Definition COMBINE_TYPE (t v : Z) : Z := u8 (Z.lor t (Z.shiftl v 3)).

(** ** Lua *)

(** Floating-point numbers are the 64 bits of a [double]; [VOther] is a value
    of a type that is not packed: a function, a thread, a full userdata. *)
Inductive lvalue :=
| VNil
| VBoolean (b : bool)
| VInteger (v : Z)
| VReal (bits : Z)
| VString (s : list Z)
| VPointer (p : Z)
| VTable (t : positive)
| VOther (type : Z).

Record ltable := MkTable {
  t_array : list lvalue;
  t_next : list (lvalue * lvalue);
  t_pairs : option (list (lvalue * lvalue) * bool)
}.

Local Unset Elimination Schemes.
Inductive tree :=
| TNil
| TBoolean (b : bool)
| TInteger (v : Z)
| TReal (bits : Z)
| TString (s : list Z)
| TPointer (p : Z)
| TTable (array : list tree) (sets : list (tree * tree)).
Local Set Elimination Schemes.

Definition is_nan (bits : Z) : bool :=
  (Z.land (Z.shiftr bits 52) 2047 =? 2047) && negb (Z.land bits (2 ^ 52 - 1) =? 0).

(** ** The blocks that are written *)

(** The chain from [head] to [current] is [done ++ [current]]. *)
Record write_block := MkWrite {
  done_blocks : list (list Z);
  current : list Z;
  wb_len : Z;
  wb_ptr : Z
}.

Record read_block := MkRead { rb_len : Z; rb_ptr : Z }.

Section seri.
(** The bytes of a new block before they are written. *)
Context (fresh_block : list Z).
Context (heap : gmap positive ltable).

Definition wb_init : write_block := MkWrite [] fresh_block 0 0.

Definition next_block (b : write_block) : write_block :=
  MkWrite (done_blocks b ++ [current b]) fresh_block (wb_len b) 0.

Definition push_turn (st : write_block * list Z)
    : outcome ((write_block * list Z) + write_block) :=
  let '(b, buf) := st in
  let sz := zlen buf in
  if wb_ptr b <=? BLOCK_SIZE - sz then
    cur ← mwrite (current b) (wb_ptr b) buf;
    len ← cint (wb_len b + sz);
    Ret (inr (MkWrite (done_blocks b) cur len (wb_ptr b + sz)))
  else
    let copy := BLOCK_SIZE - wb_ptr b in
    part ← mread buf 0 copy;
    cur ← mwrite (current b) (wb_ptr b) part;
    len ← cint (wb_len b + copy);
    Ret (inl (next_block (MkWrite (done_blocks b) cur len (wb_ptr b)), drop (Z.to_nat copy) buf)).

(** At most one block per byte, and the first. *)
Definition wb_push (b : write_block) (buf : list Z) : outcome write_block :=
  loop (2 + length buf) push_turn (if wb_ptr b =? BLOCK_SIZE then next_block b else b, buf).

Definition wb_nil (b : write_block) : outcome write_block := wb_push b [TYPE_NIL].
Definition wb_boolean (b : write_block) (boolean : bool) : outcome write_block :=
  wb_push b [COMBINE_TYPE TYPE_BOOLEAN (if boolean then 1 else 0)].

(** A type byte and a word of [n] bytes. *)
Definition push_word (b : write_block) (type : Z) (n : nat) (v : Z) : outcome write_block :=
  b ← wb_push b [type]; wb_push b (le_bytes n v).

Definition wb_integer (b : write_block) (v : Z) : outcome write_block :=
  let n := COMBINE_TYPE TYPE_NUMBER in
  if v =? 0 then wb_push b [n TYPE_NUMBER_ZERO]
  else if negb (v =? i32 v) then push_word b (n TYPE_NUMBER_QWORD) 8 (u64 v)
  else if v <? 0 then push_word b (n TYPE_NUMBER_DWORD) 4 (u32 v)
  else if v <? 0x100 then push_word b (n TYPE_NUMBER_BYTE) 1 (u8 v)
  else if v <? 0x10000 then push_word b (n TYPE_NUMBER_WORD) 2 (u16 v)
  else push_word b (n TYPE_NUMBER_DWORD) 4 (u32 v).

Definition wb_real (b : write_block) (bits : Z) : outcome write_block :=
  push_word b (COMBINE_TYPE TYPE_NUMBER TYPE_NUMBER_REAL) 8 bits.
Definition wb_pointer (b : write_block) (p : Z) : outcome write_block :=
  push_word b TYPE_USERDATA 8 p.

(** [len] is the length as an [int]. *)
Definition wb_string (b : write_block) (str : list Z) (len : Z) : outcome write_block :=
  if len <? MAX_COOKIE then
    b ← wb_push b [COMBINE_TYPE TYPE_SHORT_STRING len];
    if 0 <? len then s ← mread str 0 len; wb_push b s else Ret b
  else
    b ← (if len <? 0x10000
         then push_word b (COMBINE_TYPE TYPE_LONG_STRING 2) 2 (u16 len)
         else push_word b (COMBINE_TYPE TYPE_LONG_STRING 4) 4 (u32 len));
    s ← mread str 0 len;
    wb_push b s.

(** ** Packing *)

Notation packer := (lvalue → write_block → luaM write_block) (only parsing).

Definition wb_table_array (pack_one : packer) (b : write_block) (tbl : ltable)
    : luaM (Z * write_block) :=
  let array_size := i32 (zlen (t_array tbl)) in
  b ⇐ lift (if MAX_COOKIE - 1 <=? array_size
            then b ← wb_push b [COMBINE_TYPE TYPE_TABLE (MAX_COOKIE - 1)]; wb_integer b array_size
            else wb_push b [COMBINE_TYPE TYPE_TABLE array_size]);
  b ⇐ lfold pack_one (take (Z.to_nat array_size) (t_array tbl)) b;
  lret (array_size, b).

Definition in_array (array_size : Z) (key : lvalue) : bool :=
  match key with VInteger x => (0 <? x) && (x <=? array_size) | _ => false end.

Definition pack_pair (pack_one : packer) (p : lvalue * lvalue) (b : write_block)
    : luaM write_block :=
  b ⇐ pack_one p.1 b; pack_one p.2 b.

Definition wb_table_hash (pack_one : packer) (b : write_block) (tbl : ltable) (array_size : Z)
    : luaM write_block :=
  b ⇐ lfold (λ p b, if in_array array_size p.1 then lret b else pack_pair pack_one p b)
            (t_next tbl) b;
  lift (wb_nil b).

(** The result says whether a call of the metamethod failed. *)
Definition wb_table_metapairs (pack_one : packer) (b : write_block)
    (pairs : list (lvalue * lvalue)) (ends : bool) : luaM (bool * write_block) :=
  b ⇐ lift (wb_push b [COMBINE_TYPE TYPE_TABLE 0]);
  b ⇐ lfold (pack_pair pack_one) pairs b;
  if ends then b ⇐ lift (wb_nil b); lret (false, b) else lret (true, b).

Definition wb_table (pack_one : packer) (b : write_block) (tbl : ltable)
    : luaM (bool * write_block) :=
  match t_pairs tbl with
  | Some (pairs, ends) => wb_table_metapairs pack_one b pairs ends
  | None =>
      '(array_size, b) ⇐ wb_table_array pack_one b tbl;
      b ⇐ wb_table_hash pack_one b tbl array_size;
      lret (false, b)
  end.

(** [depth] of the code is [MAX_DEPTH + 1 - room]: at [0] the depth is greater
    than [MAX_DEPTH]. *)
Fixpoint pack_one (room : nat) (v : lvalue) (b : write_block) : luaM write_block :=
  match room with
  | O => luaL_error "serialize can't pack too depth table"
  | S room' =>
      match v with
      | VNil => lift (wb_nil b)
      | VInteger x => lift (wb_integer b x)
      | VReal n => lift (wb_real b n)
      | VBoolean x => lift (wb_boolean b x)
      | VString s => lift (wb_string b s (i32 (zlen s)))
      | VPointer p => lift (wb_pointer b p)
      | VTable t =>
          match heap !! t with
          | None => Undef
          | Some tbl =>
              '(failed, b) ⇐ wb_table (pack_one room') b tbl;
              if (failed : bool) then luaL_error "error of __pairs" else lret b
          end
      | VOther _ => luaL_error "Unsupport type %s to serialize"
      end
  end.

Definition pack_from (b : write_block) (args : list lvalue) : luaM write_block :=
  lfold (pack_one (Z.to_nat (MAX_DEPTH + 1))) args b.

(** The blocks in one buffer. *)
Fixpoint seri (blocks : list (list Z)) (len : Z) : outcome (list Z) :=
  if 0 <? len then
    match blocks with
    | [] => Undef
    | b :: blocks' =>
        if BLOCK_SIZE <=? len then
          x ← mread b 0 BLOCK_SIZE;
          rest ← seri blocks' (len - BLOCK_SIZE);
          Ret (x ++ rest)
        else mread b 0 len
    end
  else Ret [].

Definition luaseri_pack (args : list lvalue) : luaM (list Z) :=
  b ⇐ pack_from wb_init args;
  lift (seri (done_blocks b ++ [current b]) (wb_len b)).
End seri.

(** ** Unpacking *)

Section unpack.
Context (fits : Z → bool).
Context (buffer : list Z).

Definition rball_init (size : Z) : read_block := MkRead size 0.

(** The offset of the bytes read, or [NULL]. *)
Definition rb_read (rb : read_block) (sz : Z) : outcome (option (Z * read_block)) :=
  if rb_len rb <? sz then Ret None
  else
    ptr ← cint (rb_ptr rb + sz);
    len ← cint (rb_len rb - sz);
    Ret (Some (rb_ptr rb, MkRead len ptr)).

Definition invalid_stream {A} : luaM A := luaL_error "Invalid serialize stream %d (line:%d)".

(** [n] bytes that must be there, as a number. *)
Definition read_word (rb : read_block) (n : nat) : luaM (Z * read_block) :=
  o ⇐ lift (rb_read rb (Z.of_nat n));
  match o with
  | None => invalid_stream
  | Some (p, rb) => bs ⇐ lift (mread buffer p (Z.of_nat n)); lret (le_value bs, rb)
  end.

Definition get_integer (rb : read_block) (cookie : Z) : luaM (Z * read_block) :=
  if cookie =? TYPE_NUMBER_ZERO then lret (0, rb)
  else if cookie =? TYPE_NUMBER_BYTE then read_word rb 1
  else if cookie =? TYPE_NUMBER_WORD then read_word rb 2
  else if cookie =? TYPE_NUMBER_DWORD then '(n, rb) ⇐ read_word rb 4; lret (i32 n, rb)
  else if cookie =? TYPE_NUMBER_QWORD then '(n, rb) ⇐ read_word rb 8; lret (i64 n, rb)
  else invalid_stream.

Definition get_real (rb : read_block) : luaM (Z * read_block) := read_word rb 8.
Definition get_pointer (rb : read_block) : luaM (Z * read_block) := read_word rb 8.

(** [len] is an [int], but [lua_pushlstring] takes it as a [size_t]. *)
Definition get_buffer (rb : read_block) (len : Z) : luaM (list Z * read_block) :=
  o ⇐ lift (rb_read rb len);
  match o with
  | None => invalid_stream
  | Some (p, rb) =>
      if len <? 0 then luaL_error "memory allocation error: block too big"
      else s ⇐ lift (mread buffer p len); lret (s, rb)
  end.

Definition lua_createtable (n : Z) : luaM unit :=
  if (0 <? n) && negb (fits n) then luaL_error "not enough memory" else lret tt.

(** The key of [lua_rawset]: [nil] has been excluded. *)
Definition lua_rawset (k : tree) : luaM unit :=
  match k with
  | TReal bits => if is_nan bits then luaL_error "table index is NaN" else lret tt
  | _ => lret tt
  end.

Notation reader := (read_block → luaM (tree * read_block)) (only parsing).

Definition array_turn (unpack_one : reader) (array_size : Z) (s : Z * list tree * read_block)
    : luaM ((Z * list tree * read_block) + (list tree * read_block)) :=
  let '(i, array, rb) := s in
  if i <=? array_size then
    '(v, rb) ⇐ unpack_one rb; lret (inl (i + 1, array ++ [v], rb))
  else lret (inr (array, rb)).

Definition sets_turn (unpack_one : reader) (s : list (tree * tree) * read_block)
    : luaM ((list (tree * tree) * read_block) + (list (tree * tree) * read_block)) :=
  let '(sets, rb) := s in
  '(k, rb) ⇐ unpack_one rb;
  match k with
  | TNil => lret (inr (sets, rb))
  | _ =>
      '(v, rb) ⇐ unpack_one rb;
      _ ⇐ lua_rawset k;
      lret (inl (sets ++ [(k, v)], rb))
  end.

(** The size of the array part: in the type byte, or behind it. *)
Definition table_size (rb : read_block) (array_size : Z) : luaM (Z * read_block) :=
  if array_size =? MAX_COOKIE - 1 then
    '(type, rb) ⇐ read_word rb 1;
    let cookie := Z.shiftr type 3 in
    if negb (Z.land type 7 =? TYPE_NUMBER) || (cookie =? TYPE_NUMBER_REAL) then invalid_stream
    else '(n, rb) ⇐ get_integer rb cookie; lret (i32 n, rb)
  else lret (array_size, rb).

Definition unpack_table (fuel : nat) (unpack_one : reader) (rb : read_block) (array_size : Z)
    : luaM (tree * read_block) :=
  '(array_size, rb) ⇐ table_size rb array_size;
  _ ⇐ lua_createtable array_size;
  '(array, rb) ⇐ lloop fuel (array_turn unpack_one array_size) (1, [], rb);
  '(sets, rb) ⇐ lloop fuel (sets_turn unpack_one) ([], rb);
  lret (TTable array sets, rb).

Definition push_value (fuel : nat) (unpack_one : reader) (rb : read_block) (type cookie : Z)
    : luaM (tree * read_block) :=
  if type =? TYPE_NIL then lret (TNil, rb)
  else if type =? TYPE_BOOLEAN then lret (TBoolean (negb (cookie =? 0)), rb)
  else if type =? TYPE_NUMBER then
    if cookie =? TYPE_NUMBER_REAL then '(n, rb) ⇐ get_real rb; lret (TReal n, rb)
    else '(n, rb) ⇐ get_integer rb cookie; lret (TInteger n, rb)
  else if type =? TYPE_USERDATA then '(p, rb) ⇐ get_pointer rb; lret (TPointer p, rb)
  else if type =? TYPE_SHORT_STRING then '(s, rb) ⇐ get_buffer rb cookie; lret (TString s, rb)
  else if type =? TYPE_LONG_STRING then
    if cookie =? 2 then
      '(n, rb) ⇐ read_word rb 2; '(s, rb) ⇐ get_buffer rb n; lret (TString s, rb)
    else if negb (cookie =? 4) then invalid_stream
    else '(n, rb) ⇐ read_word rb 4; '(s, rb) ⇐ get_buffer rb (i32 n); lret (TString s, rb)
  else if type =? TYPE_TABLE then unpack_table fuel unpack_one rb cookie
  else invalid_stream.

(** [fuel] bounds the nesting of tables and the loops of each. *)
Fixpoint unpack_one (fuel : nat) (rb : read_block) : luaM (tree * read_block) :=
  match fuel with
  | O => NoFuel
  | S fuel' =>
      '(type, rb) ⇐ read_word rb 1;
      push_value fuel' (unpack_one fuel') rb (Z.land type 7) (Z.shiftr type 3)
  end.

Definition values_turn (fuel : nat) (s : list tree * read_block)
    : luaM ((list tree * read_block) + list tree) :=
  let '(values, rb) := s in
  o ⇐ lift (rb_read rb 1);
  match o with
  | None => lret (inr values)
  | Some (p, rb) =>
      bs ⇐ lift (mread buffer p 1);
      let type := le_value bs in
      '(v, rb) ⇐ push_value fuel (unpack_one fuel) rb (Z.land type 7) (Z.shiftr type 3);
      lret (inl (values ++ [v], rb))
  end.

(** The bytes are a Lua string, or a buffer with its length. *)
Definition luaseri_unpack (fuel : nat) : luaM (list tree) :=
  let len := i32 (zlen buffer) in
  if len =? 0 then lret [] else lloop fuel (values_turn fuel) ([], rball_init len).
End unpack.

(** ** The reference format *)

(** What is packed for a value: the tree that unpacking gives back, [None] when
    the value is too deep or has a part that is not packed. *)
Definition pair_of (tree_of : lvalue → option tree) (p : lvalue * lvalue) : option (tree * tree) :=
  k ← tree_of p.1; v ← tree_of p.2; Some (k, v).

Fixpoint tree_of (heap : gmap positive ltable) (room : nat) (v : lvalue) : option tree :=
  match room with
  | O => None
  | S room' =>
      match v with
      | VNil => Some TNil
      | VBoolean b => Some (TBoolean b)
      | VInteger x => Some (TInteger x)
      | VReal n => Some (TReal n)
      | VString s => Some (TString s)
      | VPointer p => Some (TPointer p)
      | VTable t =>
          tbl ← heap !! t;
          match t_pairs tbl with
          | Some (pairs, true) =>
              sets ← mapM (pair_of (tree_of heap room')) pairs; Some (TTable [] sets)
          | Some (pairs, false) => None
          | None =>
              array ← mapM (tree_of heap room') (t_array tbl);
              sets ← mapM (pair_of (tree_of heap room'))
                       (filter (λ p, in_array (zlen (t_array tbl)) p.1 = false) (t_next tbl));
              Some (TTable array sets)
          end
      | VOther _ => None
      end
  end.

Definition enc_integer (v : Z) : list Z :=
  if v =? 0 then [2]
  else if negb (v =? i32 v) then 50 :: le_bytes 8 (u64 v)
  else if v <? 0 then 34 :: le_bytes 4 (u32 v)
  else if v <? 0x100 then 10 :: le_bytes 1 v
  else if v <? 0x10000 then 18 :: le_bytes 2 v
  else 34 :: le_bytes 4 v.

Definition enc_string (s : list Z) : list Z :=
  (if zlen s <? 32 then [4 + 8 * zlen s]
   else if zlen s <? 0x10000 then 21 :: le_bytes 2 (zlen s)
   else 37 :: le_bytes 4 (zlen s)) ++ s.

Definition enc_size (n : Z) : list Z :=
  if 31 <=? n then 254 :: enc_integer n else [6 + 8 * n].

Fixpoint enc (t : tree) : list Z :=
  match t with
  | TNil => [0]
  | TBoolean b => [if b then 9 else 1]
  | TInteger v => enc_integer v
  | TReal bits => 66 :: le_bytes 8 bits
  | TString s => enc_string s
  | TPointer p => 3 :: le_bytes 8 p
  | TTable array sets =>
      enc_size (zlen array) ++ concat (map enc array) ++
      concat (map (λ p, match p with (k, v) => enc k ++ enc v end) sets) ++ [0]
  end.

Definition enc_pair (p : tree * tree) : list Z := enc p.1 ++ enc p.2.

(** ** Writing *)

Section writing.
Context (fresh_block : list Z) (Hfresh : zlen fresh_block = BLOCK_SIZE).

(** The bytes that have been written. *)
Definition written (b : write_block) : list Z :=
  concat (done_blocks b) ++ take (Z.to_nat (wb_ptr b)) (current b).

Record wb_ok (b : write_block) : Prop := {
  wo_done : Forall (λ x, zlen x = BLOCK_SIZE) (done_blocks b);
  wo_current : zlen (current b) = BLOCK_SIZE;
  wo_ptr : 0 ≤ wb_ptr b ≤ BLOCK_SIZE;
  wo_len : wb_len b = zlen (written b);
  wo_int : wb_len b ≤ INT_MAX
}.

(** [m] appends the bytes [bs] to [b]; it fails when there are more than an
    [int] can count. *)
Definition appends (bs : list Z) (b : write_block) (m : outcome write_block) : Prop :=
  if decide (wb_len b + zlen bs ≤ INT_MAX)
  then ∃ b', m = Ret b' ∧ wb_ok b' ∧ written b' = written b ++ bs
  else m = Undef.

Lemma wb_init_ok : wb_ok (wb_init fresh_block) ∧ written (wb_init fresh_block) = [].
Proof. split; [|done]. split; cbn; [constructor|done|unfold BLOCK_SIZE; lia|done|done]. Qed.

Lemma written_full b :
  zlen (current b) = BLOCK_SIZE → wb_ptr b = BLOCK_SIZE →
  written (next_block fresh_block b) = written b.
Proof.
  intros Hc Hp. unfold written, next_block. cbn [done_blocks current wb_ptr].
  rewrite concat_app, take_0, app_nil_r, Hp. cbn [concat]. rewrite app_nil_r. f_equal.
  rewrite take_ge; [done|]. unfold zlen in Hc. lia.
Qed.

Lemma next_block_ok b :
  wb_ok b → wb_ptr b = BLOCK_SIZE →
  wb_ok (next_block fresh_block b) ∧ written (next_block fresh_block b) = written b.
Proof.
  intros [Hd Hc Hp Hl Hi] He. pose proof (written_full b Hc He) as Hw. split; [|done].
  split; cbn; [apply Forall_app; split; [done|by constructor]|done|unfold BLOCK_SIZE; lia| |done].
  change (zlen _) with (zlen (written (next_block fresh_block b))). by rewrite Hw.
Qed.

(** Writing into the current block. *)
Lemma write_current b bs :
  wb_ok b → wb_ptr b + zlen bs ≤ BLOCK_SIZE → wb_len b + zlen bs ≤ INT_MAX →
  ∃ cur, mwrite (current b) (wb_ptr b) bs = Ret cur ∧
    let b' := MkWrite (done_blocks b) cur (wb_len b + zlen bs) (wb_ptr b + zlen bs) in
    wb_ok b' ∧ written b' = written b ++ bs.
Proof.
  intros [Hd Hc Hp Hl Hi] Hs Hm. pose proof (zlen_nonneg bs).
  set (cur := take (Z.to_nat (wb_ptr b)) (current b) ++ bs ++
    drop (Z.to_nat (wb_ptr b + zlen bs)) (current b)).
  exists cur. unfold mwrite. rewrite (proj2 (Z.leb_le 0 (wb_ptr b))) by lia.
  rewrite (proj2 (Z.leb_le _ _)) by lia. cbn [andb]. split; [done|]. cbn zeta.
  assert (Htake : take (Z.to_nat (wb_ptr b + zlen bs)) cur = take (Z.to_nat (wb_ptr b)) (current b) ++ bs).
  { unfold cur. rewrite app_assoc. apply take_app_length'. rewrite length_app, length_take.
    unfold zlen in *. lia. }
  assert (Hw : written (MkWrite (done_blocks b) cur (wb_len b + zlen bs) (wb_ptr b + zlen bs)) =
    written b ++ bs).
  { unfold written. cbn [done_blocks current wb_ptr]. by rewrite Htake, app_assoc. }
  split; [|done]. split; cbn; [done| |lia| |done].
  - unfold cur. rewrite !zlen_app. unfold zlen in *. rewrite length_take, length_drop. lia.
  - transitivity (zlen (written b ++ bs)); [rewrite zlen_app; lia|by rewrite <-Hw].
Qed.

Lemma write_too_long b (bs : list Z) :
  wb_ok b → INT_MAX < wb_len b + zlen bs → cint (wb_len b + zlen bs) = Undef.
Proof.
  intros [_ _ _ _ _] Hm. unfold cint. rewrite (proj2 (Z.leb_gt (_ + _) _)) by lia.
  by rewrite andb_false_r.
Qed.

Lemma push_loop fuel b (buf : list Z) :
  wb_ok b → (length buf + (if decide (wb_ptr b = BLOCK_SIZE) then 1 else 0) < fuel)%nat →
  appends buf b (loop fuel (push_turn fresh_block) (b, buf)).
Proof.
  revert b buf. induction fuel as [|fuel IH]; intros b buf Hb Hf; [lia|].
  rewrite loop_S. unfold push_turn at 2. cbv beta iota zeta. pose proof (zlen_nonneg buf).
  pose proof (wo_ptr b Hb) as Hp. unfold appends.
  destruct (Z.leb_spec (wb_ptr b) (BLOCK_SIZE - zlen buf)) as [Hfit|Hfit].
  - assert (Hcur : ∃ cur, mwrite (current b) (wb_ptr b) buf = Ret cur).
    { unfold mwrite. rewrite (proj2 (Z.leb_le 0 (wb_ptr b))) by lia.
      rewrite (proj2 (Z.leb_le (wb_ptr b + zlen buf) _)); [by eexists|].
      pose proof (wo_current b Hb). lia. }
    destruct (decide (wb_len b + zlen buf ≤ INT_MAX)) as [Hm|Hm].
    + destruct (write_current b buf Hb) as (cur & Hcur1 & Hok & Hw); [lia|lia|]. rewrite Hcur1. bsimpl.
      rewrite cint_in; [|pose proof (wo_len b Hb); pose proof (zlen_nonneg (written b)); unfold INT_MIN; lia].
      bsimpl. by eexists.
    + destruct Hcur as (cur & ->). bsimpl. by rewrite write_too_long by (done || lia).
  - set (copy := BLOCK_SIZE - wb_ptr b).
    assert (Hcopy : 0 ≤ copy < zlen buf) by (unfold copy; lia).
    rewrite mread_in by lia. bsimpl. rewrite drop_0.
    set (part := take (Z.to_nat copy) buf).
    assert (Hpart : zlen part = copy) by (unfold part, zlen in *; rewrite length_take; lia).
    set (rest := drop (Z.to_nat copy) buf).
    assert (Hbuf : buf = part ++ rest) by (symmetry; apply take_drop).
    assert (Hrest : zlen rest = zlen buf - copy) by (rewrite Hbuf at 1; rewrite zlen_app; lia).
    destruct (decide (wb_len b + copy ≤ INT_MAX)) as [Hc|Hc].
    + destruct (write_current b part Hb) as (cur & -> & Hok & Hw); [lia|lia|]. bsimpl.
      rewrite Hpart in *. rewrite cint_in;
        [|pose proof (wo_len b Hb); pose proof (zlen_nonneg (written b)); unfold INT_MIN; lia].
      bsimpl. set (b1 := MkWrite (done_blocks b) cur (wb_len b + copy) (wb_ptr b + copy)) in *.
      destruct (next_block_ok b1 Hok) as [Hok2 Hw2]; [unfold b1, copy; cbn; lia|].
      change (next_block fresh_block _) with (next_block fresh_block b1).
      assert (Happ : appends rest (next_block fresh_block b1)
        (loop fuel (push_turn fresh_block) (next_block fresh_block b1, rest))).
      { apply IH; [done|]. rewrite decide_False by (cbn; unfold BLOCK_SIZE; lia).
        unfold zlen in *. destruct (decide (wb_ptr b = BLOCK_SIZE)); lia. }
      unfold appends in Happ. change (wb_len (next_block fresh_block b1)) with (wb_len b + copy) in Happ.
      rewrite Hrest in Happ.
      destruct (decide (wb_len b + copy + (zlen buf - copy) ≤ INT_MAX)) as [Hm|Hm].
      2:{ rewrite decide_False by lia. done. }
      rewrite decide_True by lia.
      destruct Happ as (b' & -> & Hok' & Hw'). exists b'. split_and!; [done|done|].
      rewrite Hw', Hw2, Hw, <-app_assoc, <-Hbuf. done.
    + rewrite decide_False by lia.
      assert (Hcur : ∃ cur, mwrite (current b) (wb_ptr b) part = Ret cur).
      { unfold mwrite. rewrite (proj2 (Z.leb_le 0 (wb_ptr b))) by lia.
        rewrite (proj2 (Z.leb_le (wb_ptr b + zlen part) _)); [by eexists|].
        pose proof (wo_current b Hb). lia. }
      destruct Hcur as (cur & ->). bsimpl. rewrite <-Hpart. by rewrite write_too_long by (done || lia).
Qed.

Lemma wb_push_spec b buf : wb_ok b → appends buf b (wb_push fresh_block b buf).
Proof.
  intros Hb. unfold wb_push. destruct (Z.eqb_spec (wb_ptr b) BLOCK_SIZE) as [He|He].
  - destruct (next_block_ok b Hb He) as [Hok Hw].
    pose proof (push_loop (2 + length buf) (next_block fresh_block b) buf Hok) as Hp.
    rewrite decide_False in Hp by (cbn; unfold BLOCK_SIZE; lia). specialize (Hp ltac:(lia)).
    unfold appends in *. rewrite Hw in Hp. exact Hp.
  - apply push_loop; [done|]. rewrite decide_False by done. lia.
Qed.
End writing.

(** What the Lua API can show of a value, in a heap of tables. *)
Definition value_ok (heap : gmap positive ltable) (v : lvalue) : Prop :=
  match v with
  | VInteger x => - 2 ^ 63 ≤ x < 2 ^ 63
  | VReal n | VPointer n => 0 ≤ n < 2 ^ 64
  | VString s => bytes s ∧ zlen s ≤ INT_MAX
  | VTable t => is_Some (heap !! t)
  | _ => True
  end.

(** A key of a table is not [nil] and not NaN. *)
Definition key_ok (v : lvalue) : Prop :=
  match v with VNil => False | VReal n => is_nan n = false | _ => True end.

Definition pair_ok (heap : gmap positive ltable) (p : lvalue * lvalue) : Prop :=
  value_ok heap p.1 ∧ value_ok heap p.2 ∧ key_ok p.1.

Record table_ok (heap : gmap positive ltable) (tbl : ltable) : Prop := {
  tbo_size : zlen (t_array tbl) ≤ INT_MAX;
  tbo_array : Forall (value_ok heap) (t_array tbl);
  tbo_next : Forall (pair_ok heap) (t_next tbl);
  tbo_pairs : ∀ l e, t_pairs tbl = Some (l, e) → Forall (pair_ok heap) l
}.

Definition heap_ok (heap : gmap positive ltable) : Prop :=
  ∀ t tbl, heap !! t = Some tbl → table_ok heap tbl.

Section packing.
Context (fresh_block : list Z) (Hfresh : zlen fresh_block = BLOCK_SIZE).

Lemma combine_eq t v : 0 ≤ t < 8 → 0 ≤ v < 32 → COMBINE_TYPE t v = t + 8 * v.
Proof.
  intros Ht Hv. unfold COMBINE_TYPE, u8. rewrite lor_shiftl by (cbn; lia).
  rewrite Z.mod_small; lia.
Qed.

Lemma appends_bind bs1 bs2 b m f :
  appends bs1 b m → wb_ok b → (∀ b', wb_ok b' → appends bs2 b' (f b')) →
  appends (bs1 ++ bs2) b (m ≫= f).
Proof.
  intros Hm Hb Hf. unfold appends in *. rewrite zlen_app. pose proof (zlen_nonneg bs2).
  destruct (decide (wb_len b + zlen bs1 ≤ INT_MAX)) as [H1|H1].
  - destruct Hm as (b' & -> & Hok & Hw). bsimpl. specialize (Hf b' Hok).
    assert (Hl : wb_len b' = wb_len b + zlen bs1).
    { rewrite (wo_len b' Hok), Hw, zlen_app, (wo_len b Hb). done. }
    rewrite Hl, <-Z.add_assoc in Hf. destruct (decide _) as [H2|H2]; [|done].
    destruct Hf as (b2 & -> & Hok2 & Hw2). exists b2. split_and!; [done|done|].
    by rewrite Hw2, Hw, app_assoc.
  - subst m. rewrite decide_False by lia. done.
Qed.

Lemma appends_nil b : wb_ok b → appends [] b (Ret b).
Proof.
  intros Hb. unfold appends. pose proof (wo_int b Hb). rewrite decide_True by (rewrite zlen_nil; lia).
  exists b. by rewrite app_nil_r.
Qed.

Lemma push_word_spec b type n v :
  wb_ok b → appends (type :: le_bytes n v) b (push_word fresh_block b type n v).
Proof.
  intros Hb. unfold push_word. apply (appends_bind [type]); [by apply wb_push_spec|done|].
  intros b' Hb'. by apply wb_push_spec.
Qed.

Lemma wb_integer_spec b v :
  wb_ok b → appends (enc_integer v) b (wb_integer fresh_block b v).
Proof.
  intros Hb. unfold wb_integer, enc_integer.
  destruct (Z.eqb_spec v 0); [by apply wb_push_spec|].
  destruct (Z.eqb_spec v (i32 v)) as [He|]; cbn [negb]; [|by apply push_word_spec].
  assert (Hv : - 2 ^ 31 ≤ v < 2 ^ 31) by (unfold i32 in He; pose proof (Z.mod_pos_bound (v + 2 ^ 31) (2 ^ 32)); lia).
  destruct (Z.ltb_spec v 0); [by apply push_word_spec|].
  destruct (Z.ltb_spec v 0x100); [|destruct (Z.ltb_spec v 0x10000)].
  - replace v with (u8 v) at 1 by (unfold u8; rewrite Z.mod_small; lia). by apply push_word_spec.
  - replace v with (u16 v) at 1 by (unfold u16; rewrite Z.mod_small; lia). by apply push_word_spec.
  - replace v with (u32 v) at 1 by (unfold u32; rewrite Z.mod_small; lia). by apply push_word_spec.
Qed.

Lemma wb_string_spec b s :
  wb_ok b → zlen s ≤ INT_MAX → appends (enc_string s) b (wb_string fresh_block b s (zlen s)).
Proof.
  intros Hb Hs. unfold wb_string, enc_string. change MAX_COOKIE with 32. pose proof (zlen_nonneg s).
  destruct (Z.ltb_spec (zlen s) 32).
  - rewrite combine_eq by (unfold TYPE_SHORT_STRING; lia).
    apply appends_bind; [by apply wb_push_spec|done|]. intros b' Hb'.
    destruct (Z.ltb_spec 0 (zlen s)).
    + rewrite mread_all. bsimpl. by apply wb_push_spec.
    + destruct s; [by apply appends_nil|]. rewrite zlen_cons in *. pose proof (zlen_nonneg s). lia.
  - apply appends_bind.
    + destruct (Z.ltb_spec (zlen s) 0x10000).
      * replace (zlen s) with (u16 (zlen s)) at 1 by (unfold u16; rewrite Z.mod_small; lia).
        by apply push_word_spec.
      * unfold INT_MAX in Hs.
        replace (zlen s) with (u32 (zlen s)) at 1 by (unfold u32; rewrite Z.mod_small; lia).
        by apply push_word_spec.
    + done.
    + intros b' Hb'. rewrite mread_all. bsimpl. by apply wb_push_spec.
Qed.

(** *** Packing, with the errors of Lua *)

Definition packs (o : option (list Z)) (b : write_block) (m : luaM write_block) : Prop :=
  match o with
  | Some bs =>
      if decide (wb_len b + zlen bs ≤ INT_MAX)
      then ∃ b', m = lret b' ∧ wb_ok b' ∧ written b' = written b ++ bs
      else m = Undef
  | None => (∃ e, m = luaL_error e) ∨ m = Undef
  end.

Definition join (o1 o2 : option (list Z)) : option (list Z) :=
  x ← o1; y ← o2; Some (x ++ y).

Lemma packs_lift bs b m : appends bs b m → packs (Some bs) b (lift m).
Proof.
  unfold appends, packs. destruct (decide _); [|by intros ->].
  intros (b' & -> & ? & ?). by exists b'.
Qed.

Lemma packs_bind o1 o2 b m f :
  packs o1 b m → wb_ok b → (∀ b', wb_ok b' → packs o2 b' (f b')) →
  packs (join o1 o2) b (lbind m f).
Proof.
  intros Hm Hb Hf. destruct o1 as [bs1|]; cbn in Hm |- *.
  2:{ destruct Hm as [[e ->]| ->]; [left; by exists e|by right]. }
  destruct (decide (wb_len b + zlen bs1 ≤ INT_MAX)) as [H1|H1].
  - destruct Hm as (b' & -> & Hok & Hw). specialize (Hf b' Hok).
    change (lbind (lret b') f) with (f b'). destruct o2 as [bs2|]; cbn in Hf |- *; [|done].
    assert (Hl : wb_len b' = wb_len b + zlen bs1).
    { rewrite (wo_len b' Hok), Hw, zlen_app, (wo_len b Hb). done. }
    rewrite Hl, <-Z.add_assoc, <-zlen_app in Hf. destruct (decide _) as [H2|H2]; [|done].
    destruct Hf as (b2 & -> & Hok2 & Hw2). exists b2. split_and!; [done|done|].
    by rewrite Hw2, Hw, app_assoc.
  - subst m. destruct o2 as [bs2|]; cbn; [|by right]. pose proof (zlen_nonneg bs2).
    rewrite zlen_app, decide_False by lia. done.
Qed.

Lemma packs_ret b : wb_ok b → packs (Some []) b (lret b).
Proof. intros Hb. exact (packs_lift [] b (Ret b) (appends_nil b Hb)). Qed.

Lemma packs_fold {A} (g : A → option (list Z)) (body : A → write_block → luaM write_block) (l : list A) b :
  wb_ok b → (∀ x b', x ∈ l → wb_ok b' → packs (g x) b' (body x b')) →
  packs (@concat Z <$> mapM g l) b (lfold body l b).
Proof.
  revert b. induction l as [|x l IH]; intros b Hb Hg; [by apply packs_ret|].
  cbn [lfold]. replace (@concat Z <$> mapM g (x :: l)) with (join (g x) (@concat Z <$> mapM g l)).
  - apply packs_bind; [apply Hg; [left|done]|done|]. intros b' Hb'. apply IH; [done|].
    intros y b'' Hy. apply Hg. by right.
  - cbn. destruct (g x); [|done]. by destruct (mapM g l).
Qed.

Lemma mapM_enc {A B} (h : B → list Z) (g : A → option B) l :
  mapM (λ x, h <$> g x) l = map h <$> mapM g l.
Proof.
  induction l as [|x l IH]; [done|]. cbn. destruct (g x); [|done]. cbn. rewrite IH.
  by destruct (mapM g l).
Qed.

End packing.

Section pack.
Context (fresh_block : list Z) (Hfresh : zlen fresh_block = BLOCK_SIZE).
Context (heap : gmap positive ltable) (Hheap : heap_ok heap).

Lemma enc_table array sets :
  enc (TTable array sets) =
  enc_size (zlen array) ++ concat (map enc array) ++ concat (map enc_pair sets) ++ [0].
Proof.
  cbn [enc]. do 3 f_equal. f_equal. apply map_ext. by intros [k v].
Qed.

Lemma join_assoc o1 o2 o3 : join (join o1 o2) o3 = join o1 (join o2 o3).
Proof. destruct o1, o2, o3; cbn; try done. by rewrite app_assoc. Qed.

Lemma join_none o : join o None = None.
Proof. by destruct o. Qed.

(** The packing of a value agrees with the reference. *)
Definition packs_value (room : nat) : Prop := ∀ v b,
  value_ok heap v → wb_ok b → packs (enc <$> tree_of heap room v) b (pack_one fresh_block heap room v b).

Lemma pack_pair_spec room p b :
  packs_value room → pair_ok heap p → wb_ok b →
  packs (enc_pair <$> pair_of (tree_of heap room) p) b (pack_pair (pack_one fresh_block heap room) p b).
Proof.
  intros Hv (Hk & Hval & _) Hb. unfold pack_pair.
  replace (enc_pair <$> pair_of (tree_of heap room) p) with
    (join (enc <$> tree_of heap room p.1) (enc <$> tree_of heap room p.2)).
  - apply packs_bind; [by apply Hv|done|]. intros b' Hb'. by apply Hv.
  - unfold pair_of. destruct (tree_of heap room p.1); [|done]. cbn.
    by destruct (tree_of heap room p.2).
Qed.

Lemma pack_pairs_spec room l b :
  packs_value room → Forall (pair_ok heap) l → wb_ok b →
  packs ((λ s, concat (map enc_pair s)) <$> mapM (pair_of (tree_of heap room)) l) b
    (lfold (pack_pair (pack_one fresh_block heap room)) l b).
Proof.
  intros Hv Hl Hb. replace (_ <$> _) with
    (@concat Z <$> mapM (λ p, enc_pair <$> pair_of (tree_of heap room) p) l).
  - apply packs_fold; [done|]. intros p b' Hp Hb'. apply pack_pair_spec; [done| |done].
    rewrite Forall_forall in Hl. by apply Hl.
  - rewrite mapM_enc. by destruct (mapM _ l).
Qed.

Lemma table_header_spec b n :
  wb_ok b → 0 ≤ n ≤ INT_MAX →
  appends (enc_size n) b
    (if MAX_COOKIE - 1 <=? n
     then b ← wb_push fresh_block b [COMBINE_TYPE TYPE_TABLE (MAX_COOKIE - 1)];
          wb_integer fresh_block b n
     else wb_push fresh_block b [COMBINE_TYPE TYPE_TABLE n]).
Proof.
  intros Hb Hn. unfold enc_size. change (MAX_COOKIE - 1) with 31. destruct (Z.leb_spec 31 n).
  - apply (appends_bind [254]); [by apply wb_push_spec|done|].
    intros b' Hb'. by apply wb_integer_spec.
  - rewrite combine_eq by (unfold TYPE_TABLE; lia). by apply wb_push_spec.
Qed.

Lemma pack_table_spec room tbl b :
  packs_value room → table_ok heap tbl → t_pairs tbl = None → wb_ok b →
  packs (array ← mapM (tree_of heap room) (t_array tbl);
         sets ← mapM (pair_of (tree_of heap room))
                  (filter (λ p, in_array (zlen (t_array tbl)) p.1 = false) (t_next tbl));
         Some (enc (TTable array sets))) b
    ('(failed, b) ⇐ wb_table fresh_block (pack_one fresh_block heap room) b tbl;
     if (failed : bool) then luaL_error "error of __pairs" else lret b).
Proof.
  intros Hv [Hsz Harr Hnext _] Hnone Hb. unfold wb_table. rewrite Hnone.
  unfold wb_table_array, wb_table_hash. rewrite i32_small by (pose proof (zlen_nonneg (t_array tbl)); lia).
  rewrite (take_ge (t_array tbl)) by (unfold zlen; lia).
  set (n := zlen (t_array tbl)) in *. rewrite ?lbind_assoc.
  set (arrs := mapM (tree_of heap room) (t_array tbl)).
  set (l := filter _ (t_next tbl)).
  set (sets := mapM (pair_of (tree_of heap room)) l).
  replace (mbind _ arrs) with (join (Some (enc_size n)) (join ((λ a, concat (map enc a)) <$> arrs)
    (join ((λ s, concat (map enc_pair s)) <$> sets) (join (Some [0]) (Some []))))).
  - apply packs_bind; [|done|].
    { apply packs_lift, table_header_spec; [done|]. split; [apply zlen_nonneg|done]. }
    intros b1 Hb1. rewrite ?lbind_assoc. apply packs_bind; [|done|].
    { replace (_ <$> arrs) with (@concat Z <$> mapM (λ v, enc <$> tree_of heap room v) (t_array tbl)).
      - apply packs_fold; [done|]. intros v b' Hin Hb'. apply Hv; [|done].
        rewrite Forall_forall in Harr. by apply Harr.
      - rewrite mapM_enc. fold arrs. by destruct arrs. }
    intros b2 Hb2. change (lbind (lret (n, b2)) ?f) with (f (n, b2)). cbv beta iota.
    rewrite lfold_filter. rewrite ?lbind_assoc. apply packs_bind; [|done|].
    { apply pack_pairs_spec; [done| |done]. unfold l. apply Forall_forall.
      intros p [_ Hp]%list_elem_of_filter. rewrite Forall_forall in Hnext. by apply Hnext. }
    intros b3 Hb3. rewrite ?lbind_assoc. apply packs_bind; [|done|].
    { apply packs_lift. by apply wb_push_spec. }
    intros b4 Hb4. by apply packs_ret.
  - destruct arrs as [a|] eqn:Ha; [|done]. destruct sets as [s|] eqn:Hs; [|done].
    cbn -[enc_size enc]. f_equal. rewrite enc_table.
    assert (Hlen : zlen a = n) by (unfold n, zlen; f_equal; symmetry; exact (length_mapM _ _ _ Ha)).
    by rewrite Hlen.
Qed.

Lemma pack_metapairs_spec room tbl l ends b :
  packs_value room → table_ok heap tbl → t_pairs tbl = Some (l, ends) → wb_ok b →
  packs (if ends : bool then sets ← mapM (pair_of (tree_of heap room)) l; Some (enc (TTable [] sets))
         else None) b
    ('(failed, b) ⇐ wb_table fresh_block (pack_one fresh_block heap room) b tbl;
     if (failed : bool) then luaL_error "error of __pairs" else lret b).
Proof.
  intros Hv Htbl Hsome Hb. unfold wb_table. rewrite Hsome. unfold wb_table_metapairs.
  rewrite ?lbind_assoc. set (sets := mapM (pair_of (tree_of heap room)) l).
  assert (Hl : Forall (pair_ok heap) l) by exact (tbo_pairs heap tbl Htbl l ends Hsome).
  replace (if ends then _ else _) with (join (Some [6]) (join ((λ s, concat (map enc_pair s)) <$> sets)
    (if ends then join (Some [0]) (Some []) else None))).
  - apply packs_bind; [by apply packs_lift, wb_push_spec|done|]. intros b1 Hb1.
    rewrite ?lbind_assoc. apply packs_bind; [by apply pack_pairs_spec|done|]. intros b2 Hb2.
    destruct ends; [|by left; eexists].
    rewrite ?lbind_assoc. apply packs_bind; [by apply packs_lift, wb_push_spec|done|].
    intros b3 Hb3. by apply packs_ret.
  - destruct ends; [|by rewrite !join_none]. destruct sets as [s|]; [|done].
    cbn -[enc]. by rewrite enc_table.
Qed.

Lemma pack_one_spec room : packs_value room.
Proof.
  induction room as [|room IH]; intros v b Hv Hb; [by left; eexists|].
  destruct v; cbn [tree_of pack_one]; cbn -[packs enc wb_table] in Hv |- *.
  - by apply packs_lift, wb_push_spec.
  - apply packs_lift. unfold wb_boolean. destruct b0; by apply wb_push_spec.
  - by apply packs_lift, wb_integer_spec.
  - by apply packs_lift, push_word_spec.
  - apply packs_lift. rewrite i32_small by (pose proof (zlen_nonneg s); lia).
    apply wb_string_spec; [done|done|apply Hv].
  - by apply packs_lift, push_word_spec.
  - destruct Hv as [tbl Ht]. rewrite Ht. pose proof (Hheap t tbl Ht) as Htbl.
    cbn [mbind option_bind]. destruct (t_pairs tbl) as [[l ends]|] eqn:Hp.
    + pose proof (pack_metapairs_spec room tbl l ends b IH Htbl Hp Hb) as H.
      destruct ends; [|exact H]. by destruct (mapM _ l).
    + pose proof (pack_table_spec room tbl b IH Htbl Hp Hb) as H.
      destruct (mapM (tree_of heap room) (t_array tbl)); [|exact H].
      cbn [mbind option_bind] in H |- *. by destruct (mapM _ (filter _ _)).
  - by left; eexists.
Qed.
End pack.

Section buffers.
Context (fresh_block : list Z) (Hfresh : zlen fresh_block = BLOCK_SIZE).
Context (heap : gmap positive ltable) (Hheap : heap_ok heap).

Lemma seri_blocks ds cur p :
  Forall (λ x, zlen x = BLOCK_SIZE) ds → zlen cur = BLOCK_SIZE → 0 ≤ p ≤ BLOCK_SIZE →
  seri (ds ++ [cur]) (BLOCK_SIZE * zlen ds + p) = Ret (concat ds ++ take (Z.to_nat p) cur).
Proof.
  intros Hds Hcur Hp. unfold BLOCK_SIZE in *. induction Hds as [|d ds Hd _ IH].
  - cbn [app seri concat]. change (128 * zlen []) with 0. rewrite Z.add_0_l.
    destruct (Z.ltb_spec 0 p); [|by replace p with 0 by lia].
    change BLOCK_SIZE with 128. destruct (Z.leb_spec 128 p).
    + replace p with 128 by lia. rewrite mread_in by lia. bsimpl. change (128 - 128) with 0. cbn [seri].
      change (0 <? 0) with false. bsimpl. by rewrite drop_0, app_nil_r.
    + rewrite mread_in by lia. by rewrite drop_0.
  - cbn [app seri concat]. rewrite zlen_cons. pose proof (zlen_nonneg ds).
    rewrite (proj2 (Z.ltb_lt _ _)), (proj2 (Z.leb_le _ _)) by (unfold BLOCK_SIZE; lia).
    change BLOCK_SIZE with 128. rewrite <-Hd at 1. rewrite mread_all. bsimpl.
    replace (128 * (1 + zlen ds) + p - 128) with (128 * zlen ds + p) by lia. rewrite IH. bsimpl.
    by rewrite app_assoc.
Qed.

Lemma concat_blocks ds :
  Forall (λ x : list Z, zlen x = BLOCK_SIZE) ds → zlen (concat ds) = BLOCK_SIZE * zlen ds.
Proof.
  induction 1 as [|d ds Hd _ IH]; [done|]. cbn [concat]. rewrite zlen_app, zlen_cons, IH. lia.
Qed.

Lemma seri_spec b : wb_ok b → seri (done_blocks b ++ [current b]) (wb_len b) = Ret (written b).
Proof.
  intros [Hd Hc Hp Hl _]. rewrite Hl. unfold written at 1. rewrite zlen_app, concat_blocks by done.
  replace (zlen (take _ _)) with (wb_ptr b); [by apply seri_blocks|].
  unfold zlen in *. rewrite length_take. lia.
Qed.

(** Packing the arguments gives the reference format of their trees, unless
    there are more bytes than an [int] counts. *)
Lemma luaseri_pack_spec args :
  Forall (value_ok heap) args →
  match mapM (tree_of heap 33) args with
  | Some ts =>
      luaseri_pack fresh_block heap args =
        if decide (zlen (concat (map enc ts)) ≤ INT_MAX) then lret (concat (map enc ts)) else Undef
  | None => (∃ e, luaseri_pack fresh_block heap args = luaL_error e) ∨
            luaseri_pack fresh_block heap args = Undef
  end.
Proof.
  intros Hargs. destruct (wb_init_ok fresh_block Hfresh) as [Hok Hw].
  assert (Hp : packs (@concat Z <$> mapM (λ v, enc <$> tree_of heap 33 v) args) (wb_init fresh_block)
    (pack_from fresh_block heap (wb_init fresh_block) args)).
  { unfold pack_from. change (Z.to_nat (MAX_DEPTH + 1)) with 33%nat. apply packs_fold; [done|].
    intros v b Hin Hb. apply pack_one_spec; [done|done| |done].
    rewrite Forall_forall in Hargs. by apply Hargs. }
  rewrite mapM_enc in Hp. unfold luaseri_pack. destruct (mapM (tree_of heap 33) args) as [ts|].
  - cbn -[enc zlen INT_MAX] in Hp. cbn [wb_init wb_len] in Hp. rewrite Z.add_0_l in Hp.
    destruct (decide _) as [Hm|Hm].
    + destruct Hp as (b & -> & Hb & Hwb). lsimpl. rewrite seri_spec by done. lsimpl. by rewrite Hwb.
    + by rewrite Hp.
  - destruct Hp as [[e ->]| ->]; [left; by exists e|by right].
Qed.
End buffers.

(** ** Reading what was written *)

Definition key_okb (k : tree) : bool :=
  match k with TNil => false | TReal n => negb (is_nan n) | _ => true end.

Fixpoint tree_ok (t : tree) : bool :=
  match t with
  | TInteger v => (- 2 ^ 63 <=? v) && (v <? 2 ^ 63)
  | TReal n | TPointer n => (0 <=? n) && (n <? 2 ^ 64)
  | TString s => zlen s <=? INT_MAX
  | TTable array sets =>
      (zlen array <=? INT_MAX) && forallb tree_ok array &&
      forallb (λ p, match p with (k, v) => key_okb k && tree_ok k && tree_ok v end) sets
  | _ => true
  end.

Lemma enc_length t : (1 ≤ length (enc t))%nat.
Proof.
  destruct t; cbn [enc]; try (cbn; lia).
  - unfold enc_integer. repeat case_match; cbn; lia.
  - unfold enc_string. rewrite length_app. repeat case_match; cbn; lia.
  - rewrite !length_app. cbn. lia.
Qed.

Lemma concat_enc_length ts : (length ts ≤ length (concat (map enc ts)))%nat.
Proof.
  induction ts as [|t ts IH]; [done|]. cbn [map concat length]. rewrite length_app.
  pose proof (enc_length t). lia.
Qed.

Lemma type_byte t c : 0 ≤ t < 8 → 0 ≤ c < 32 →
  Z.land (t + 8 * c) 7 = t ∧ Z.shiftr (t + 8 * c) 3 = c.
Proof.
  intros Ht Hc. change 7 with (2 ^ 3 - 1). rewrite land_mask, Z.shiftr_div_pow2 by lia.
  change (2 ^ 3) with 8. split; zlia.
Qed.

Section reading.
Context (fits : Z → bool) (buffer : list Z) (Hbuf : zlen buffer ≤ INT_MAX).
Context (Hfits : ∀ n, n ≤ zlen buffer → fits n = true).

Definition rb_at (o : nat) : read_block := MkRead (zlen buffer - Z.of_nat o) (Z.of_nat o).

Lemma mem_at_le bs o : mem_at buffer o bs → bs ≠ [] → (o + length bs ≤ length buffer)%nat.
Proof.
  intros Hm Hne. destruct (lookup_lt_is_Some_2 bs (length bs - 1)) as [x Hx].
  { destruct bs; [done|]. cbn. lia. }
  apply Hm, lookup_lt_Some in Hx. lia.
Qed.

Lemma rb_read_at o n :
  (o + n ≤ length buffer)%nat →
  rb_read (rb_at o) (Z.of_nat n) = Ret (Some (Z.of_nat o, rb_at (o + n))).
Proof.
  intros Hn. unfold rb_read, rb_at. cbn [rb_len rb_ptr]. unfold zlen, INT_MAX in *.
  rewrite (proj2 (Z.ltb_ge _ _)) by lia.
  rewrite !cint_in by (unfold INT_MIN, INT_MAX; lia). bsimpl. do 4 f_equal; lia.
Qed.

Lemma mread_nat o bs : mem_at buffer o bs → bs ≠ [] →
  mread buffer (Z.of_nat o) (Z.of_nat (length bs)) = Ret bs.
Proof.
  intros Hm Hne. pose proof (mem_at_le bs o Hm Hne). apply (mread_at buffer (Z.of_nat o) bs).
  - lia.
  - unfold zlen. lia.
  - by rewrite Nat2Z.id.
Qed.

Lemma read_word_at o n bs :
  mem_at buffer o bs → length bs = n → n ≠ 0%nat →
  read_word buffer (rb_at o) n = lret (le_value bs, rb_at (o + n)).
Proof.
  intros Hm <- Hn. assert (Hne : bs ≠ []) by (by destruct bs).
  unfold read_word. rewrite rb_read_at by (by apply mem_at_le). lsimpl. rewrite mread_nat by done. by lsimpl.
Qed.

Lemma read_le o n v :
  mem_at buffer o (le_bytes n v) → (n ≠ 0)%nat → 0 ≤ v < 2 ^ (8 * Z.of_nat n) →
  read_word buffer (rb_at o) n = lret (v, rb_at (o + n)).
Proof.
  intros Hm Hn Hv. destruct (le_bytes_value n v Hv) as (Hle & Hl & _).
  rewrite (read_word_at o n (le_bytes n v)) by done. by rewrite Hle.
Qed.

Lemma read_byte o b bs :
  mem_at buffer o (b :: bs) → read_word buffer (rb_at o) 1 = lret (b, rb_at (S o)).
Proof.
  intros Hm. rewrite (read_word_at o 1 [b]); [|by apply (mem_at_app buffer o [b] bs) in Hm as [? _]|done|done].
  cbn [le_value]. rewrite Z.mul_0_r, Z.add_0_r. by rewrite Nat.add_1_r.
Qed.
End reading.

Section decoding.
Context (fits : Z → bool) (buffer : list Z) (Hbuf : zlen buffer ≤ INT_MAX).
Context (Hfits : ∀ n, n ≤ zlen buffer → fits n = true).
Notation rb_at := (rb_at buffer).

Lemma read_type o t c bs :
  mem_at buffer o ((t + 8 * c) :: bs) → 0 ≤ t < 8 → 0 ≤ c < 32 →
  read_word buffer (rb_at o) 1 = lret (t + 8 * c, rb_at (S o)) ∧
  Z.land (t + 8 * c) 7 = t ∧ Z.shiftr (t + 8 * c) 3 = c ∧ mem_at buffer (S o) bs.
Proof.
  intros Hm Ht Hc. split; [by eapply read_byte|]. destruct (type_byte t c Ht Hc) as [-> ->].
  split_and!; [done|done|]. apply (mem_at_app buffer o [t + 8 * c] bs) in Hm as [_ Hm].
  cbn [length] in Hm. by rewrite Nat.add_1_r in Hm.
Qed.

(** An integer: its type byte, and the word that [get_integer] reads. *)
Lemma integer_word v :
  - 2 ^ 63 ≤ v < 2 ^ 63 → ∃ c bs, enc_integer v = (2 + 8 * c) :: bs ∧ 0 ≤ c < 8 ∧
    ∀ o, mem_at buffer o bs → get_integer buffer (rb_at o) c = lret (v, rb_at (o + length bs)).
Proof.
  intros Hv. unfold enc_integer, get_integer.
  destruct (Z.eqb_spec v 0) as [->|].
  { exists 0, []. split; [done|split; [lia|]]. intros o _. cbn [length]. by rewrite Nat.add_0_r. }
  destruct (Z.eqb_spec v (i32 v)) as [He|]; cbn [negb].
  2:{ exists 6, (le_bytes 8 (u64 v)). split; [done|split; [lia|]]. intros o Hm.
      assert (Hu : 0 ≤ u64 v < 2 ^ (8 * Z.of_nat 8)) by (apply Z.mod_pos_bound; lia).
      cbn [Z.eqb TYPE_NUMBER_ZERO TYPE_NUMBER_BYTE TYPE_NUMBER_WORD TYPE_NUMBER_DWORD TYPE_NUMBER_QWORD Pos.eqb].
      rewrite (read_le buffer Hbuf o 8 (u64 v) Hm) by done. lsimpl.
      do 3 f_equal. unfold i64, u64. rewrite Zplus_mod_idemp_l, Z.mod_small; lia. }
  assert (Hr : - 2 ^ 31 ≤ v < 2 ^ 31)
    by (unfold i32 in He; pose proof (Z.mod_pos_bound (v + 2 ^ 31) (2 ^ 32)); lia).
  assert (Hd : ∀ u o, u = u32 v → mem_at buffer o (le_bytes 4 u) →
    get_integer buffer (rb_at o) 4 = lret (v, rb_at (o + 4))).
  { intros u o -> Hm. assert (Hu : 0 ≤ u32 v < 2 ^ (8 * Z.of_nat 4)) by (apply Z.mod_pos_bound; lia).
    unfold get_integer.
    cbn [Z.eqb TYPE_NUMBER_ZERO TYPE_NUMBER_BYTE TYPE_NUMBER_WORD TYPE_NUMBER_DWORD Pos.eqb].
    rewrite (read_le buffer Hbuf o 4 (u32 v) Hm) by done. lsimpl.
    do 3 f_equal. unfold i32, u32. rewrite Zplus_mod_idemp_l, Z.mod_small; lia. }
  destruct (Z.ltb_spec v 0).
  { exists 4, (le_bytes 4 (u32 v)). split; [done|split; [lia|]]. intros o Hm. by eapply Hd. }
  destruct (Z.ltb_spec v 0x100); [|destruct (Z.ltb_spec v 0x10000)].
  - exists 1, (le_bytes 1 v). split; [done|split; [lia|]]. intros o Hm.
    exact (read_le buffer Hbuf o 1 v Hm ltac:(done) ltac:(cbn; lia)).
  - exists 2, (le_bytes 2 v). split; [done|split; [lia|]]. intros o Hm.
    exact (read_le buffer Hbuf o 2 v Hm ltac:(done) ltac:(cbn; lia)).
  - exists 4, (le_bytes 4 v). split; [done|split; [lia|]]. intros o Hm. eapply Hd; [|done].
    unfold u32. rewrite Z.mod_small; lia.
Qed.

Lemma get_buffer_at o s :
  (o + length s ≤ length buffer)%nat → mem_at buffer o s →
  get_buffer buffer (rb_at o) (zlen s) = lret (s, rb_at (o + length s)).
Proof.
  intros Hle Hm. unfold get_buffer. unfold zlen at 1. rewrite rb_read_at by done. lsimpl.
  pose proof (zlen_nonneg s). rewrite (proj2 (Z.ltb_ge _ _)) by lia.
  rewrite (mread_at buffer (Z.of_nat o) s); [by lsimpl|lia|unfold zlen; lia|by rewrite Nat2Z.id].
Qed.

Lemma array_loop unpack n fuel ts o i acc :
  n = i - 1 + zlen ts → 1 ≤ i → (length ts < fuel)%nat → mem_at buffer o (concat (map enc ts)) →
  (∀ t o', t ∈ ts → mem_at buffer o' (enc t) → unpack (rb_at o') = lret (t, rb_at (o' + length (enc t)))) →
  lloop fuel (array_turn unpack n) (i, acc, rb_at o) =
    lret (acc ++ ts, rb_at (o + length (concat (map enc ts)))).
Proof.
  revert fuel o i acc. induction ts as [|t ts IH]; intros fuel o i acc Hn Hi Hf Hm Hu.
  - destruct fuel as [|fuel]; [cbn in Hf; lia|]. cbn [lloop array_turn map concat length].
    rewrite (proj2 (Z.leb_gt _ _)) by (rewrite Hn, zlen_nil; lia). lsimpl.
    by rewrite app_nil_r, Nat.add_0_r.
  - destruct fuel as [|fuel]; [lia|]. rewrite zlen_cons in Hn. pose proof (zlen_nonneg ts).
    cbn [lloop array_turn map concat] in Hm |- *. rewrite (proj2 (Z.leb_le _ _)) by lia.
    apply mem_at_app in Hm as [Hm1 Hm2]. rewrite (Hu t o) by (done || left). lsimpl.
    rewrite (IH fuel (o + length (enc t))%nat (i + 1) (acc ++ [t])).
    + rewrite <-app_assoc, length_app, Nat.add_assoc. done.
    + lia.
    + lia.
    + cbn in Hf. lia.
    + done.
    + intros t' o' Hin. apply Hu. by right.
Qed.

Lemma rawset_ok k : key_okb k = true → lua_rawset k = lret tt.
Proof. destruct k; cbn; try done. by destruct (is_nan bits). Qed.

Lemma sets_loop unpack fuel sets o acc :
  (length sets < fuel)%nat → mem_at buffer o (concat (map enc_pair sets) ++ [0]) →
  (∀ p, p ∈ sets → key_okb p.1 = true) →
  unpack (rb_at (o + length (concat (map enc_pair sets)))) =
    lret (TNil, rb_at (S (o + length (concat (map enc_pair sets))))) →
  (∀ t o', (∃ p, p ∈ sets ∧ (t = p.1 ∨ t = p.2)) → mem_at buffer o' (enc t) →
     unpack (rb_at o') = lret (t, rb_at (o' + length (enc t)))) →
  lloop fuel (sets_turn unpack) (acc, rb_at o) =
    lret (acc ++ sets, rb_at (S (o + length (concat (map enc_pair sets))))).
Proof.
  revert fuel o acc. induction sets as [|[k v] sets IH]; intros fuel o acc Hf Hm Hk Hend Hu.
  - destruct fuel as [|fuel]; [cbn in Hf; lia|]. cbn [lloop sets_turn map concat length] in Hend |- *.
    rewrite Nat.add_0_r in Hend |- *. rewrite Hend. lsimpl. by rewrite app_nil_r.
  - destruct fuel as [|fuel]; [lia|]. cbn [lloop sets_turn map concat] in Hm, Hend |- *.
    unfold enc_pair at 1 in Hm. cbn [fst snd] in Hm. rewrite <-!app_assoc in Hm.
    apply mem_at_app in Hm as [Hm1 Hm]. apply mem_at_app in Hm as [Hm2 Hm3].
    rewrite (Hu k o) by (done || (exists (k, v); split; [left|by left])). lsimpl.
    assert (Hkk : key_okb k = true) by (apply (Hk (k, v)); left).
    rewrite length_app, Nat.add_assoc in Hend |- *.
    assert (Hlen : (o + length (enc_pair (k, v)) = o + length (enc k) + length (enc v))%nat)
      by (unfold enc_pair; rewrite length_app; cbn; lia).
    rewrite Hlen in Hend |- *.
    assert (Hnext : lloop fuel (sets_turn unpack) (acc ++ [(k, v)], rb_at (o + length (enc k) + length (enc v)))
      = lret (acc ++ (k, v) :: sets, rb_at (S (o + length (enc k) + length (enc v) +
          length (concat (map enc_pair sets)))))).
    { rewrite (IH fuel (o + length (enc k) + length (enc v))%nat (acc ++ [(k, v)])).
      - by rewrite <-app_assoc.
      - cbn in Hf. lia.
      - done.
      - intros p Hp. apply Hk. by right.
      - done.
      - intros t o' (p & Hp & Ht). apply Hu. exists p. split; [by right|done]. }
    pose proof (Hu v (o + length (enc k))%nat) as Hv.
    destruct k; try done; rewrite Hv by (done || (eexists; split; [left|by right])); lsimpl;
      rewrite rawset_ok by done; lsimpl; exact Hnext.
Qed.
End decoding.

(** Decides the comparisons of numbers that are known. *)
Ltac known :=
  repeat match goal with
  | |- context [?a =? ?b] =>
      let r := eval vm_compute in (a =? b) in
      match r with true => idtac | false => idtac end;
      change (a =? b) with r; cbv beta iota; cbn [negb orb andb]
  end.

Section unpacking.
Context (fits : Z → bool) (buffer : list Z) (Hbuf : zlen buffer ≤ INT_MAX).
Context (Hfits : ∀ n, n ≤ zlen buffer → fits n = true).
Notation rb_at := (rb_at buffer).

(** What [unpack_one] with this fuel gives back. *)
Definition unpacks (fuel : nat) : Prop := ∀ t o,
  tree_ok t = true → mem_at buffer o (enc t) → (length (enc t) < fuel)%nat →
  unpack_one fits buffer fuel (rb_at o) = lret (t, rb_at (o + length (enc t))).

(** The value behind a type byte. *)
Definition pushes (fuel : nat) (t : tree) : Prop := ∃ type c bs,
  enc t = (type + 8 * c) :: bs ∧ 0 ≤ type < 8 ∧ 0 ≤ c < 32 ∧
  ∀ o, (o + length bs ≤ length buffer)%nat → mem_at buffer o bs →
    push_value fits buffer fuel (unpack_one fits buffer fuel) (rb_at o) type c =
      lret (t, rb_at (o + length bs)).

Lemma push_string fuel s : tree_ok (TString s) = true → pushes fuel (TString s).
Proof.
  intros Hs%Z.leb_le. pose proof (zlen_nonneg s).
  unfold pushes. cbn [enc]. unfold enc_string. destruct (Z.ltb_spec (zlen s) 32) as [Hl|Hl].
  { exists 4, (zlen s), s. split; [done|]. split; [lia|]. split; [lia|]. intros o Hle Hm.
    unfold push_value. known. rewrite get_buffer_at by done. by lsimpl. }
  assert (Hlong : ∀ n c, (n ≠ 0)%nat → 0 ≤ zlen s < 2 ^ (8 * Z.of_nat n) → ∀ o,
    (o + length (le_bytes n (zlen s) ++ s) ≤ length buffer)%nat →
    mem_at buffer o (le_bytes n (zlen s) ++ s) →
    ('(m, rb) ⇐ read_word buffer (rb_at o) n;
     '(x, rb) ⇐ get_buffer buffer rb (c m); lret (TString x, rb)) =
    ('(x, rb) ⇐ get_buffer buffer (rb_at (o + n)) (c (zlen s)); lret (TString x, rb)) ∧
    length (le_bytes n (zlen s)) = n ∧
    get_buffer buffer (rb_at (o + n)) (zlen s) = lret (s, rb_at (o + n + length s))).
  { intros n c Hn Hr o Hle [Hm1 Hm2]%mem_at_app. destruct (le_bytes_value n (zlen s) Hr) as (_ & Hlen & _).
    rewrite length_app in Hle. rewrite Hlen in *. split_and!; [|done|].
    - rewrite (read_le buffer Hbuf o n (zlen s)) by done. by lsimpl.
    - apply get_buffer_at; [done|lia|done]. }
  destruct (Z.ltb_spec (zlen s) 0x10000).
  - exists 5, 2, (le_bytes 2 (zlen s) ++ s). split; [done|]. split; [lia|]. split; [lia|].
    intros o Hle Hm. unfold push_value. known.
    destruct (Hlong 2%nat (λ m, m) ltac:(done) ltac:(cbn; lia) o Hle Hm) as (-> & Hlen & ->).
    lsimpl. do 3 f_equal. rewrite length_app, Hlen. lia.
  - exists 5, 4, (le_bytes 4 (zlen s) ++ s). split; [done|]. split; [lia|]. split; [lia|].
    intros o Hle Hm. unfold push_value. known. unfold INT_MAX in Hs.
    destruct (Hlong 4%nat i32 ltac:(done) ltac:(cbn; lia) o Hle Hm) as (-> & Hlen & Hget).
    rewrite i32_small by (unfold INT_MAX; lia). rewrite Hget.
    lsimpl. do 3 f_equal. rewrite length_app, Hlen. lia.
Qed.

Lemma read_table_size n bs o :
  0 ≤ n ≤ INT_MAX → ∃ c rest, enc_size n = (6 + 8 * c) :: rest ∧ 0 ≤ c < 32 ∧
  (mem_at buffer o (rest ++ bs) →
   table_size buffer (rb_at o) c = lret (n, rb_at (o + length rest)) ∧
   mem_at buffer (o + length rest) bs).
Proof.
  intros Hn. unfold enc_size, table_size. change (MAX_COOKIE - 1) with 31.
  destruct (Z.leb_spec 31 n) as [Hl|Hl].
  - destruct (integer_word buffer Hbuf n) as (c & w & He & Hc & Hget); [unfold INT_MAX in Hn; lia|].
    exists 31, (enc_integer n). split; [done|]. split; [lia|]. intros [Hm Hm2]%mem_at_app.
    split; [|done]. rewrite He in Hm |- *. known.
    destruct (read_type buffer Hbuf o 2 c w Hm) as (-> & Ht & Hs & Hw); [lia|lia|]. lsimpl.
    rewrite Ht, Hs. known. unfold TYPE_NUMBER_REAL. rewrite (proj2 (Z.eqb_neq c 8)) by lia.
    rewrite (Hget (S o) Hw). lsimpl. rewrite i32_small by done. do 3 f_equal. cbn [length]. lia.
  - exists n, []. split; [done|]. split; [lia|]. intros Hm. cbn [app length] in Hm |- *.
    rewrite Nat.add_0_r. split; [|done]. by rewrite (proj2 (Z.eqb_neq n 31)) by lia.
Qed.

Lemma forallb_elem {A} (f : A → bool) l x : forallb f l = true → x ∈ l → f x = true.
Proof. intros Hl Hx. rewrite forallb_forall in Hl. by apply Hl, list_elem_of_In. Qed.

Lemma enc_part_length {A} (f : A → list Z) l x :
  x ∈ l → (length (f x) ≤ length (concat (map f l)))%nat.
Proof.
  induction 1 as [x l|x y l Hx IH]; cbn [map concat]; rewrite length_app; lia.
Qed.

Lemma push_table fuel array sets :
  unpacks fuel → tree_ok (TTable array sets) = true →
  (length (enc (TTable array sets)) ≤ fuel)%nat → pushes fuel (TTable array sets).
Proof.
  intros Hu Hok Hf. cbn [tree_ok] in Hok. apply andb_true_iff in Hok as [Hok Hsets].
  apply andb_true_iff in Hok as [Hn%Z.leb_le Harr]. pose proof (zlen_nonneg array) as Hn0.
  rewrite enc_table in Hf. unfold pushes. rewrite enc_table.
  set (ebs := concat (map enc array) ++ concat (map enc_pair sets) ++ [0]) in *.
  assert (Hsz : ∀ o, ∃ c rest, enc_size (zlen array) = (6 + 8 * c) :: rest ∧ 0 ≤ c < 32 ∧
    (mem_at buffer o (rest ++ ebs) →
     table_size buffer (rb_at o) c = lret (zlen array, rb_at (o + length rest)) ∧
     mem_at buffer (o + length rest) ebs)) by (intros o; by apply read_table_size).
  destruct (Hsz 0%nat) as (c & rest & He & Hc & _). exists 6, c, (rest ++ ebs).
  split; [by rewrite He|]. split; [lia|]. split; [lia|]. intros o Hle Hm.
  destruct (Hsz o) as (c' & rest' & He' & _ & Hsz'). rewrite He in He'.
  injection He' as Hcc <-. assert (c' = c) as -> by lia. destruct (Hsz' Hm) as [Hts Hmb].
  unfold push_value. known. unfold unpack_table. rewrite Hts. lsimpl.
  rewrite He in Hf. rewrite length_app in Hle. cbn [app length] in Hf. rewrite length_app in Hf.
  assert (Hebs : length ebs = (length (concat (map enc array)) + length (concat (map enc_pair sets)) + 1)%nat)
    by (unfold ebs; rewrite !length_app; cbn; lia).
  pose proof (concat_enc_length array) as Hal.
  assert (Hcreate : lua_createtable fits (zlen array) = lret tt).
  { unfold lua_createtable. rewrite Hfits; [by rewrite andb_false_r|]. unfold zlen. lia. }
  rewrite Hcreate. lsimpl. unfold ebs in Hmb. apply mem_at_app in Hmb as [Hma Hmb].
  rewrite (array_loop buffer (unpack_one fits buffer fuel) (zlen array) fuel array
    (o + length rest) 1 []); [|lia|lia|lia|done|].
  2:{ intros t o' Hin Hmt. apply Hu; [by eapply forallb_elem|done|].
      pose proof (enc_part_length enc array t Hin). lia. }
  lsimpl. set (o2 := (o + length rest + length (concat (map enc array)))%nat) in *.
  assert (Hpart : ∀ p, p ∈ sets → key_okb p.1 = true ∧ tree_ok p.1 = true ∧ tree_ok p.2 = true ∧
    (length (enc p.1) + length (enc p.2) ≤ length (concat (map enc_pair sets)))%nat).
  { intros [k v] Hp. pose proof (forallb_elem _ _ _ Hsets Hp) as H. cbn in H.
    apply andb_true_iff in H as [H ?]. apply andb_true_iff in H as [? ?]. split_and!; try done.
    pose proof (enc_part_length enc_pair sets (k, v) Hp) as Hl. unfold enc_pair at 1 in Hl.
    by rewrite length_app in Hl. }
  assert (Hsl : (length sets ≤ length (concat (map enc_pair sets)))%nat).
  { clear. induction sets as [|[k v] sets IH]; [done|]. cbn [map concat length]. rewrite length_app.
    unfold enc_pair at 1. rewrite length_app. pose proof (enc_length k). cbn [fst snd]. lia. }
  rewrite (sets_loop buffer (unpack_one fits buffer fuel) fuel sets o2 []); [| |done| | |].
  - lsimpl. do 3 f_equal. unfold o2. rewrite length_app, Hebs. lia.
  - lia.
  - intros p Hp. by apply Hpart.
  - apply mem_at_app in Hmb as [_ Hm0].
    pose proof (Hu TNil (o2 + length (concat (map enc_pair sets)))%nat eq_refl Hm0 ltac:(cbn; lia)) as H.
    cbn [enc length] in H. by rewrite Nat.add_1_r in H.
  - intros t o' (p & Hp & Ht) Hmt. destruct (Hpart p Hp) as (_ & H1 & H2 & Hl).
    destruct Ht as [-> | ->]; apply Hu; try done; lia.
Qed.
End unpacking.

Section round_trip.
Context (fits : Z → bool) (buffer : list Z) (Hbuf : zlen buffer ≤ INT_MAX).
Context (Hfits : ∀ n, n ≤ zlen buffer → fits n = true).
Notation rb_at := (rb_at buffer).

Lemma push_scalar fuel t n v w :
  enc t = (w + 8 * n) :: le_bytes 8 v → 0 ≤ w < 8 → 0 ≤ n < 32 → 0 ≤ v < 2 ^ 64 →
  (∀ o, push_value fits buffer fuel (unpack_one fits buffer fuel) (rb_at o) w n =
     ('(x, rb) ⇐ read_word buffer (rb_at o) 8; lret (if w =? 2 then TReal x else TPointer x, rb))) →
  t = (if w =? 2 then TReal v else TPointer v) → pushes fits buffer fuel t.
Proof.
  intros He Hw Hn Hv Hp ->. exists w, n, (le_bytes 8 v). split; [done|]. split; [done|]. split; [done|].
  intros o _ Hm. rewrite Hp, (read_le buffer Hbuf o 8 v Hm) by done. lsimpl.
  destruct (le_bytes_value 8 v Hv) as (_ & -> & _). done.
Qed.

Lemma push_spec fuel t :
  unpacks fits buffer fuel → tree_ok t = true → (length (enc t) ≤ fuel)%nat →
  pushes fits buffer fuel t.
Proof.
  intros Hu Hok Hf. destruct t.
  - exists 0, 0, []. split; [done|]. split; [lia|]. split; [lia|]. intros o _ _.
    unfold push_value. known. cbn [length]. by rewrite Nat.add_0_r.
  - exists 1, (if b then 1 else 0), []. split; [by destruct b|]. split; [lia|].
    split; [destruct b; lia|]. intros o _ _. unfold push_value. known. cbn [length].
    rewrite Nat.add_0_r. by destruct b.
  - cbn in Hok. apply andb_true_iff in Hok as [H1%Z.leb_le H2%Z.ltb_lt].
    destruct (integer_word buffer Hbuf v) as (c & bs & He & Hc & Hget); [lia|].
    exists 2, c, bs. split; [exact He|]. split; [lia|]. split; [lia|]. intros o _ Hm.
    unfold push_value. known. unfold TYPE_NUMBER_REAL. rewrite (proj2 (Z.eqb_neq c 8)) by lia.
    rewrite (Hget o Hm). by lsimpl.
  - cbn in Hok. apply andb_true_iff in Hok as [H1%Z.leb_le H2%Z.ltb_lt].
    by apply (push_scalar fuel (TReal bits) 8 bits 2).
  - by apply push_string.
  - cbn in Hok. apply andb_true_iff in Hok as [H1%Z.leb_le H2%Z.ltb_lt].
    by apply (push_scalar fuel (TPointer p) 0 p 3).
  - by apply push_table.
Qed.

Lemma unpack_spec fuel : unpacks fits buffer fuel.
Proof.
  induction fuel as [|fuel IH]; intros t o Hok Hm Hf; [lia|].
  pose proof (mem_at_le buffer (enc t) o Hm) as Hle.
  destruct (push_spec fuel t IH Hok) as (type & c & bs & He & Ht & Hc & Hp); [lia|].
  rewrite He in *. destruct (read_type buffer Hbuf o type c bs Hm Ht Hc) as (Hr & H1 & H2 & Hmb).
  cbn [unpack_one length] in Hle |- *. rewrite Hr. lsimpl. rewrite H1, H2, Hp.
  - do 3 f_equal. lia.
  - specialize (Hle ltac:(done)). lia.
  - done.
Qed.

Lemma values_loop fuel n ts o acc :
  forallb tree_ok ts = true → mem_at buffer o (concat (map enc ts)) →
  (o + length (concat (map enc ts)) = length buffer)%nat →
  (length (concat (map enc ts)) ≤ n)%nat → (length ts < fuel)%nat →
  lloop fuel (values_turn fits buffer n) (acc, rb_at o) = lret (acc ++ ts).
Proof.
  revert fuel o acc. induction ts as [|t ts IH]; intros fuel o acc Hok Hm Hle Hn Hf.
  - destruct fuel as [|fuel]; [cbn in Hf; lia|]. cbn [lloop values_turn map concat length] in Hle |- *.
    unfold rb_read, rb_at. cbn [rb_len]. rewrite (proj2 (Z.ltb_lt _ _)) by (unfold zlen; lia). lsimpl.
    by rewrite app_nil_r.
  - destruct fuel as [|fuel]; [lia|]. cbn [forallb] in Hok. apply andb_true_iff in Hok as [Hok1 Hok2].
    cbn [map concat length] in Hm, Hle, Hn, Hf. rewrite length_app in Hle, Hn.
    apply mem_at_app in Hm as [Hm1 Hm2].
    destruct (push_spec n t (unpack_spec n) Hok1) as (type & c & bs & He & Ht & Hc & Hp); [lia|].
    rewrite He in Hm1, Hm2, Hle, Hn. cbn [length] in Hle, Hn, Hm2.
    destruct (read_type buffer Hbuf o type c bs Hm1 Ht Hc) as (Hr & H1 & H2 & Hmb).
    cbn [lloop values_turn]. change 1 with (Z.of_nat 1) at 1. rewrite rb_read_at by (done || lia). lsimpl.
    assert (Hb : mread buffer (Z.of_nat o) 1 = Ret [type + 8 * c]).
    { apply (mread_nat buffer o [type + 8 * c]); [|done].
      by apply (mem_at_app buffer o [type + 8 * c] bs) in Hm1 as [? _]. }
    rewrite Hb. lsimpl. cbn [le_value]. rewrite Z.mul_0_r, Z.add_0_r, H1, H2.
    rewrite Nat.add_1_r, Hp by (done || lia). lsimpl.
    replace (S o + length bs)%nat with (o + S (length bs))%nat by lia.
    rewrite (IH fuel (o + S (length bs))%nat (acc ++ [t])); [by rewrite <-app_assoc|done|done|lia|lia|lia].
Qed.

Lemma luaseri_unpack_spec fuel ts :
  forallb tree_ok ts = true → buffer = concat (map enc ts) → (length buffer < fuel)%nat →
  luaseri_unpack fits buffer fuel = lret ts.
Proof.
  intros Hok He Hf. unfold luaseri_unpack. rewrite i32_small by (split; [apply zlen_nonneg|done]).
  pose proof (concat_enc_length ts) as Hl. rewrite <-He in Hl.
  destruct (Z.eqb_spec (zlen buffer) 0) as [Hz|Hz].
  - destruct ts; [done|]. unfold zlen in Hz. cbn in Hl. lia.
  - change (rball_init (zlen buffer)) with (MkRead (zlen buffer) 0).
    replace (MkRead (zlen buffer) 0) with (rb_at 0) by (unfold rb_at; cbn; f_equal; lia).
    apply (values_loop fuel fuel ts 0 []); rewrite <-?He; [done| |done|lia|lia].
    by intros k b Hk.
Qed.
End round_trip.

(** *** The trees of values *)

Section trees.
Context (heap : gmap positive ltable) (Hheap : heap_ok heap).

Lemma key_tree_ok room k t : tree_of heap room k = Some t → key_ok k → key_okb t = true.
Proof.
  destruct room as [|room]; [done|]. destruct k; cbn; try done.
  - by intros [= <-].
  - by intros [= <-].
  - intros [= <-]. cbn. by intros ->.
  - by intros [= <-].
  - by intros [= <-].
  - intros (tbl & _ & H)%bind_Some _. destruct (t_pairs tbl) as [[l []]|]; try done.
    + by apply bind_Some in H as (s & _ & [= <-]).
    + apply bind_Some in H as (a & _ & H). by apply bind_Some in H as (s & _ & [= <-]).
Qed.

Lemma Forall_filter_ok {A} (P Q : A → Prop) `{!∀ x, Decision (Q x)} l :
  Forall P l → Forall P (filter Q l).
Proof.
  rewrite !Forall_forall. intros Hl x [_ Hx]%list_elem_of_filter. by apply Hl.
Qed.

Lemma mapM_forallb {A B} (P : A → Prop) (f : B → bool) (g : A → option B) l ts :
  (∀ x t, P x → g x = Some t → f t = true) → Forall P l → mapM g l = Some ts → forallb f ts = true.
Proof.
  intros Hf Hl Hm. apply mapM_Some in Hm. revert Hl.
  induction Hm as [|x t l ts Hx _ IH]; [done|]. intros [H1 H2]%Forall_cons. cbn.
  by rewrite (Hf x t), IH.
Qed.

Lemma tree_of_ok room v t : value_ok heap v → tree_of heap room v = Some t → tree_ok t = true.
Proof.
  revert v t. induction room as [|room IH]; intros v t Hv Ht; [done|].
  assert (Hpairs : ∀ l s, Forall (pair_ok heap) l → mapM (pair_of (tree_of heap room)) l = Some s →
    forallb (λ p, match p with (k, v) => key_okb k && tree_ok k && tree_ok v end) s = true).
  { intros l s. apply mapM_forallb. intros p [k w] (H1 & H2 & H3) Hp. unfold pair_of in Hp.
    apply bind_Some in Hp as (k' & Hk & Hp). apply bind_Some in Hp as (w' & Hw & [= -> ->]).
    by rewrite (key_tree_ok room p.1 k Hk H3), (IH p.1 k H1 Hk), (IH p.2 w H2 Hw). }
  destruct v; cbn [tree_of] in Ht; try done.
  - by injection Ht as <-.
  - by injection Ht as <-.
  - injection Ht as <-. cbn in Hv |- *. by rewrite (proj2 (Z.leb_le _ _)), (proj2 (Z.ltb_lt _ _)) by lia.
  - injection Ht as <-. cbn in Hv |- *. by rewrite (proj2 (Z.leb_le _ _)), (proj2 (Z.ltb_lt _ _)) by lia.
  - injection Ht as <-. cbn in Hv |- *. apply Z.leb_le, Hv.
  - injection Ht as <-. cbn in Hv |- *. by rewrite (proj2 (Z.leb_le _ _)), (proj2 (Z.ltb_lt _ _)) by lia.
  - apply bind_Some in Ht as (tbl & Htbl & Ht). destruct (Hheap _ _ Htbl) as [Hsz Harr Hnext Hp].
    destruct (t_pairs tbl) as [[l []]|] eqn:Hpe; try done.
    + apply bind_Some in Ht as (s & Hs & [= <-]). cbn [tree_ok forallb].
      rewrite (Hpairs l s (Hp l true eq_refl) Hs). done.
    + apply bind_Some in Ht as (a & Ha & Ht). apply bind_Some in Ht as (s & Hs & [= <-]).
      cbn [tree_ok]. assert (Hlen : zlen a = zlen (t_array tbl))
        by (unfold zlen; f_equal; symmetry; exact (length_mapM _ _ _ Ha)).
      rewrite Hlen, (proj2 (Z.leb_le _ _)) by done.
      rewrite (mapM_forallb (value_ok heap) tree_ok _ _ a IH Harr Ha).
      by rewrite (Hpairs _ s (Forall_filter_ok _ _ _ Hnext) Hs).
Qed.
End trees.

(** ** Reading any bytes *)

(** The offsets at which [luaseri_unpack] finds a value: the first byte, what is behind
    another value, and the first value in a table, behind its size. *)
Inductive value_at (fits : Z → bool) (buffer : list Z) : nat → Prop :=
| va_first : value_at fits buffer 0
| va_next o fuel t o' :
    value_at fits buffer o → unpack_one fits buffer fuel (rb_at buffer o) = lret (t, rb_at buffer o') →
    value_at fits buffer o'
| va_inside o type n o' :
    value_at fits buffer o → buffer !! o = Some type → Z.land type 7 = TYPE_TABLE →
    table_size buffer (rb_at buffer (S o)) (Z.shiftr type 3) = lret (n, rb_at buffer o') →
    value_at fits buffer o'.

(** No long string (its type byte is [TYPE_LONG_STRING] with the cookie 4) has a length
    that is negative as an [int]. *)
Definition no_negative (fits : Z → bool) (buffer : list Z) : Prop :=
  ∀ o bs, value_at fits buffer o → mem_at buffer o ((TYPE_LONG_STRING + 8 * 4) :: bs) → length bs = 4%nat →
    le_value bs < 2 ^ 31.

Section safety.
Context (fits : Z → bool) (buffer : list Z) (Hbuf : zlen buffer ≤ INT_MAX).
Context (Hbytes : bytes buffer) (Hneg : no_negative fits buffer).
Notation rb_at := (rb_at buffer).
Notation value_at := (value_at fits buffer).

(** The reader stands behind offset [o] (or at it, when [k] is 0). *)
Definition ahead {A} (o k : nat) (r : A * read_block) : Prop :=
  ∃ o', r.2 = rb_at o' ∧ (o + k ≤ o' ≤ length buffer)%nat.

Lemma mread_slice o n : (o + n ≤ length buffer)%nat →
  ∃ bs, mread buffer (Z.of_nat o) (Z.of_nat n) = Ret bs ∧ mem_at buffer o bs ∧ length bs = n ∧ bytes bs.
Proof.
  intros Hn. set (bs := take n (drop o buffer)). assert (Hl : length bs = n)
    by (unfold bs; rewrite length_take, length_drop; lia).
  exists bs. rewrite mread_in by (unfold zlen; lia). rewrite !Nat2Z.id. split_and!; [done| |done|].
  - intros k b Hk. unfold bs in Hk. apply lookup_take_Some in Hk as [Hk _]. by rewrite lookup_drop in Hk.
  - unfold bs. by apply Forall_take, Forall_drop.
Qed.

Lemma rb_read_past o n : (o ≤ length buffer)%nat → (length buffer < o + n)%nat →
  rb_read (rb_at o) (Z.of_nat n) = Ret None.
Proof.
  intros Ho Hn. unfold rb_read, rb_at. cbn [rb_len]. by rewrite (proj2 (Z.ltb_lt _ _)) by (unfold zlen; lia).
Qed.

Lemma read_word_safe o n : (o ≤ length buffer)%nat →
  safe (λ r, ahead o n r ∧ 0 ≤ r.1 < 2 ^ (8 * Z.of_nat n) ∧
      ∃ bs, mem_at buffer o bs ∧ length bs = n ∧ le_value bs = r.1 ∧ r.2 = rb_at (o + n))
    (read_word buffer (rb_at o) n).
Proof.
  intros Ho. unfold read_word. destruct (decide (o + n ≤ length buffer)%nat) as [Hn|Hn].
  - rewrite rb_read_at by done. lsimpl. destruct (mread_slice o n Hn) as (bs & -> & Hm & Hl & Hb). lsimpl.
    apply safe_lret. split; [|split].
    + exists (o + n)%nat. split; [done|lia].
    + cbn [fst]. rewrite <-Hl. exact (le_value_range bs Hb).
    + by exists bs.
  - rewrite rb_read_past by lia. lsimpl. apply safe_error.
Qed.

Lemma ahead_weaken {A B} o k o' k' (r : A * read_block) (x : B) :
  ahead o' k' r → (o + k ≤ o' + k')%nat → ahead o k (x, r.2).
Proof. intros (p & Hp & Hle) Ho. exists p. split; [done|lia]. Qed.

Lemma get_integer_safe o c : (o ≤ length buffer)%nat →
  safe (ahead o 0) (get_integer buffer (rb_at o) c).
Proof.
  intros Ho. unfold get_integer.
  assert (Hw : ∀ n (f : Z → Z), safe (ahead o 0) ('(m, rb) ⇐ read_word buffer (rb_at o) n; lret (f m, rb))).
  { intros n f. eapply safe_bind; [by apply read_word_safe|]. intros [m rb] (Ha & _).
    apply safe_lret. apply (ahead_weaken o 0 o n (m, rb) (f m) Ha). lia. }
  assert (Hw' : ∀ n, safe (ahead o 0) (read_word buffer (rb_at o) n)).
  { intros n. destruct (read_word_safe o n Ho) as (r & -> & Hr). exists r. split; [done|].
    intros [m rb] Hm. destruct (Hr _ Hm) as [Ha _]. apply (ahead_weaken o 0 o n (m, rb) m Ha). lia. }
  repeat case_match; [|apply Hw'|apply Hw'|apply (Hw 4%nat i32)|apply (Hw 8%nat i64)|apply safe_error].
  apply safe_lret. exists o. split; [done|lia].
Qed.

Lemma get_buffer_safe o len : (o ≤ length buffer)%nat → 0 ≤ len →
  safe (ahead o 0) (get_buffer buffer (rb_at o) len).
Proof.
  intros Ho Hl. unfold get_buffer. rewrite <-(Z2Nat.id len) by done.
  destruct (decide (o + Z.to_nat len ≤ length buffer)%nat) as [Hn|Hn].
  - rewrite rb_read_at by done. lsimpl. rewrite (proj2 (Z.ltb_ge _ _)) by lia.
    destruct (mread_slice o (Z.to_nat len) Hn) as (bs & -> & _). lsimpl. apply safe_lret.
    exists (o + Z.to_nat len)%nat. split; [done|lia].
  - rewrite rb_read_past by lia. lsimpl. apply safe_error.
Qed.

Lemma table_size_safe o c : (o ≤ length buffer)%nat → safe (ahead o 0) (table_size buffer (rb_at o) c).
Proof.
  intros Ho. unfold table_size. case_match.
  - eapply safe_bind; [by apply (read_word_safe o 1)|]. intros [type rb] ((o1 & Hrb & H1) & _).
    cbn [snd] in Hrb. subst rb. cbv zeta. case_match; [apply safe_error|].
    eapply safe_bind; [apply (get_integer_safe o1); lia|]. intros [n rb] Ha. apply safe_lret.
    apply (ahead_weaken o 0 o1 0 (n, rb) (i32 n) Ha). lia.
  - apply safe_lret. exists o. split; [done|lia].
Qed.

(** ... and a value follows there. *)
Definition at_value {A} (o k : nat) (r : A * read_block) : Prop :=
  ∃ o', r.2 = rb_at o' ∧ (o + k ≤ o' ≤ length buffer)%nat ∧ value_at o'.

Notation reads unpack o := (∀ o', (o ≤ o')%nat → (o' ≤ length buffer)%nat → value_at o' →
  safe (at_value o' 1) (unpack (rb_at o'))) (only parsing).

Lemma unpack_table_safe fuel unpack o type :
  (S o ≤ length buffer)%nat → (length buffer - S o < fuel)%nat → reads unpack (S o) →
  value_at o → buffer !! o = Some type → Z.land type 7 = TYPE_TABLE →
  safe (ahead (S o) 0) (unpack_table fits buffer fuel unpack (rb_at (S o)) (Z.shiftr type 3)).
Proof.
  intros Ho Hf Hu Hv Hb Ht. unfold unpack_table.
  eapply safe_bind; [by apply safe_eq, table_size_safe|].
  intros [n rb] [(o1 & Hrb & H1) Hsize]. cbn [snd] in Hrb. subst rb.
  assert (Hv1 : value_at o1) by (by eapply va_inside). clear Hb Ht Hsize Hv.
  apply (safe_bind (λ _, True)); [unfold lua_createtable; case_match; [apply safe_error|by apply safe_lret]|].
  intros _ _. eapply safe_bind.
  { apply (safe_loop (λ s : Z * list tree * read_block, at_value o1 0 (s.1, s.2))
      (λ s : Z * list tree * read_block, Z.to_nat (rb_len s.2)) (at_value o1 0)).
    - intros [[i acc] rb] (o2 & Hrb & H2 & Hv2). cbn [snd fst] in Hrb. subst rb. unfold array_turn.
      case_match; [|apply safe_lret; by exists o2].
      eapply safe_bind; [apply (Hu o2); [lia|lia|done]|]. intros [v rb] (o3 & Hrb & H3 & Hv3). cbn [snd] in Hrb. subst rb.
      apply safe_lret. split; [exists o3; split_and!; [done|lia..|done]|]. unfold rb_at. cbn [snd rb_len].
      unfold zlen. lia.
    - exists o1. split_and!; [done|lia..|done].
    - unfold rb_at. cbn [snd rb_len]. unfold zlen. lia. }
  intros [array rb] (o2 & Hrb & H2 & Hv2). cbn [snd] in Hrb. subst rb. eapply safe_bind.
  { apply (safe_loop (λ s : list (tree * tree) * read_block, at_value o2 0 s)
      (λ s : list (tree * tree) * read_block, Z.to_nat (rb_len s.2)) (ahead o2 0)).
    - intros [sets rb] (o3 & Hrb & H3 & Hv3). cbn [snd] in Hrb. subst rb. unfold sets_turn.
      eapply safe_bind; [apply (Hu o3); [lia|lia|done]|]. intros [k rb] (o4 & Hrb & H4 & Hv4). cbn [snd] in Hrb. subst rb.
      assert (Hkey : safe (λ r, match r with
          | inl s' => at_value o2 0 s' ∧ (Z.to_nat (rb_len s'.2) < Z.to_nat (rb_len (sets, rb_at o3).2))%nat
          | inr a => ahead o2 0 a end)
        ('(v, rb) ⇐ unpack (rb_at o4); _ ⇐ lua_rawset k; lret (inl (sets ++ [(k, v)], rb) :
           (list (tree * tree) * read_block) + (list (tree * tree) * read_block)))).
      { eapply safe_bind; [apply (Hu o4); [lia|lia|done]|]. intros [v rb] (o5 & Hrb & H5 & Hv5). cbn [snd] in Hrb. subst rb.
        apply (safe_bind (λ _, True)).
        - unfold lua_rawset. repeat case_match; (apply safe_error || by apply safe_lret).
        - intros _ _. apply safe_lret. split; [exists o5; split_and!; [done|lia..|done]|].
          unfold rb_at. cbn [snd rb_len]. unfold zlen. lia. }
      destruct k; try exact Hkey. apply safe_lret. exists o4. split; [done|lia].
    - exists o2. split_and!; [done|lia..|done].
    - unfold rb_at. cbn [snd rb_len]. unfold zlen. lia. }
  intros [sets rb] (o3 & Hrb & H3). cbn [snd] in Hrb. subst rb. apply safe_lret.
  exists o3. split; [done|lia].
Qed.

Lemma push_value_safe fuel unpack o0 byte :
  let o := S o0 in
  (o ≤ length buffer)%nat → (length buffer - o < fuel)%nat → reads unpack o →
  value_at o0 → buffer !! o0 = Some byte →
  safe (ahead o 0) (push_value fits buffer fuel unpack (rb_at o) (Z.land byte 7) (Z.shiftr byte 3)).
Proof.
  intros o Ho Hf Hu Hv Hbyte. assert (Hb0 : 0 ≤ byte) by (eapply Forall_lookup_1 in Hbytes; [|exact Hbyte]; apply Hbytes).
  assert (Hc : 0 ≤ Z.shiftr byte 3) by (by apply Z.shiftr_nonneg).
  assert (Hsplit : byte = Z.land byte 7 + 8 * Z.shiftr byte 3).
  { rewrite Z.shiftr_div_pow2 by lia. change 7 with (Z.ones 3). rewrite Z.land_ones by lia.
    pose proof (Z.div_mod byte (2 ^ 3)). lia. }
  remember (Z.land byte 7) as type eqn:Et. remember (Z.shiftr byte 3) as c eqn:Ec.
  unfold push_value, get_real, get_pointer.
  assert (Hnow : ∀ t : tree, safe (ahead o 0) (lret (t, rb_at o))).
  { intros t. apply safe_lret. exists o. split; [done|lia]. }
  assert (Hword : ∀ (f : Z → tree),
    safe (ahead o 0) ('(n, rb) ⇐ read_word buffer (rb_at o) 8; lret (f n, rb))).
  { intros f. eapply safe_bind; [by apply read_word_safe|]. intros [n rb] (Ha & _). apply safe_lret.
    apply (ahead_weaken o 0 o 8 (n, rb) (f n) Ha). lia. }
  assert (Hbufs : ∀ o1 len, (o ≤ o1)%nat → (o1 ≤ length buffer)%nat → 0 ≤ len →
    safe (ahead o 0) ('(s, rb) ⇐ get_buffer buffer (rb_at o1) len; lret (TString s, rb))).
  { intros o1 len H1 H2 H3. eapply safe_bind; [by apply get_buffer_safe|]. intros [s rb] Ha.
    apply safe_lret. apply (ahead_weaken o 0 o1 0 (s, rb) (TString s) Ha). lia. }
  assert (Hlong : ∀ n (f : Z → Z), (∀ m bs, mem_at buffer o bs → length bs = n → le_value bs = m →
      0 ≤ m < 2 ^ (8 * Z.of_nat n) → 0 ≤ f m) →
    safe (ahead o 0) ('(m, rb) ⇐ read_word buffer (rb_at o) n;
                      '(s, rb) ⇐ get_buffer buffer rb (f m); lret (TString s, rb))).
  { intros n f Hf'. eapply safe_bind; [by apply read_word_safe|]. intros [m rb] ((o1 & Hrb & H1) & Hm & bs & M1 & M2 & M3 & _).
    cbn [snd] in Hrb. subst rb. apply Hbufs; [lia|lia|]. by apply (Hf' m bs). }
  case_match; [apply Hnow|]. case_match; [apply Hnow|]. case_match.
  { case_match; [apply (Hword TReal)|]. eapply safe_bind; [by apply get_integer_safe|]. intros [n rb] Ha.
    apply safe_lret. apply (ahead_weaken o 0 o 0 (n, rb) (TInteger n) Ha). lia. }
  case_match; [apply (Hword TPointer)|]. case_match; [by apply Hbufs|]. case_match.
  { case_match; [apply (Hlong 2%nat (λ m, m)); lia|]. case_match; [apply safe_error|].
    apply (Hlong 4%nat i32). intros m bs M1 M2 <- Hm. rewrite i32_small; [lia|].
    assert (le_value bs < 2 ^ 31); [|unfold INT_MAX; lia]. apply (Hneg o0); [done| |done].
    replace (TYPE_LONG_STRING + 8 * 4) with byte by lia.
    intros [|k] b Hk; cbn in Hk; [injection Hk as <-; by rewrite Nat.add_0_r|].
    rewrite Nat.add_succ_r. by apply M1. }
  case_match; [|apply safe_error]. subst. apply unpack_table_safe; try done. lia.
Qed.

Lemma byte_at o bs : mem_at buffer o bs → length bs = 1%nat → buffer !! o = Some (le_value bs).
Proof.
  intros Hm Hl. destruct bs as [|b [|]]; try done. cbn [le_value]. rewrite Z.mul_0_r, Z.add_0_r, <-(Nat.add_0_r o).
  by apply Hm.
Qed.

Lemma unpack_one_safe fuel o : (o ≤ length buffer)%nat → (length buffer - o < fuel)%nat → value_at o →
  safe (at_value o 1) (unpack_one fits buffer fuel (rb_at o)).
Proof.
  revert o. induction fuel as [|fuel IH]; intros o Ho Hf Hv; [lia|].
  assert (Hs : safe (ahead o 1) (unpack_one fits buffer (S fuel) (rb_at o))).
  { cbn [unpack_one]. eapply safe_bind; [by apply (read_word_safe o 1)|].
    intros [type rb] ((o1 & Hrb & H1) & Ht & bs & M1 & M2 & M3 & M4).
    cbn [snd fst] in Hrb, Ht, M3, M4. subst rb. assert (o1 = S o) as -> by (unfold Seri.rb_at in M4; injection M4; lia).
    assert (Hp : safe (ahead (S o) 0) (push_value fits buffer fuel (unpack_one fits buffer fuel) (rb_at (S o))
      (Z.land type 7) (Z.shiftr type 3))).
    { apply push_value_safe; [lia|lia| |done|subst type; by apply byte_at].
      intros o' H2 H3 Hv'. apply IH; [lia|lia|done]. }
    destruct Hp as (r & -> & Hr). exists r. split; [done|]. intros [t rb] ->.
    apply (ahead_weaken o 1 (S o) 0 (t, rb) t (Hr _ eq_refl)). lia. }
  apply safe_eq in Hs as (r & Hr & Hall). exists r. split; [done|]. intros [t rb] ->.
  destruct (Hall _ eq_refl) as [(o' & Hrb & Ho') He]. cbn [snd] in Hrb. subst rb.
  exists o'. split_and!; [done|lia..|]. by eapply va_next.
Qed.
End safety.

(** ** Properties *)

(** C36: Unpacking gives back what was packed. When [luaseri_pack] returns a
    buffer, [luaseri_unpack] of it pushes exactly the values that were packed:
    for each table the elements 1 to its length by index, then its other pairs
    in the order of [lua_next] (or the pairs of [__pairs]), through all levels
    and wherever the values fall on the blocks. Packing succeeds whenever no
    value is too deep (32 levels) or of a type that is not packed and the bytes
    can be counted by an [int]; otherwise it raises an error of Lua (or the
    count overflows before). *)
Theorem seri_round_trip fresh_block heap args :
  zlen fresh_block = BLOCK_SIZE → heap_ok heap → Forall (value_ok heap) args →
  (∀ bs, luaseri_pack fresh_block heap args = lret bs →
     ∃ ts, mapM (tree_of heap 33) args = Some ts ∧
       ∀ fits fuel, (∀ n, n ≤ zlen bs → fits n = true) → (length bs < fuel)%nat →
         luaseri_unpack fits bs fuel = lret ts) ∧
  (∀ ts, mapM (tree_of heap 33) args = Some ts → zlen (concat (map enc ts)) ≤ INT_MAX →
     ∃ bs, luaseri_pack fresh_block heap args = lret bs) ∧
  (mapM (tree_of heap 33) args = None →
     (∃ e, luaseri_pack fresh_block heap args = luaL_error e) ∨
     luaseri_pack fresh_block heap args = Undef).
Proof.
  intros Hfresh Hheap Hargs. pose proof (luaseri_pack_spec fresh_block Hfresh heap Hheap args Hargs) as Hp.
  destruct (mapM (tree_of heap 33) args) as [ts|] eqn:Hts.
  - destruct (decide (zlen (concat (map enc ts)) ≤ INT_MAX)) as [Hm|Hm].
    + split_and!; [|intros ts' [= <-] _; by eexists|done].
      intros bs Hbs. rewrite Hp in Hbs. injection Hbs as <-. exists ts. split; [done|].
      intros fits fuel Hfits Hf. apply luaseri_unpack_spec; try done.
      apply (mapM_forallb (value_ok heap) tree_ok (tree_of heap 33) args ts); [|done|done].
      intros v t. by apply tree_of_ok.
    + split_and!; [by rewrite Hp|by intros ts' [= <-]|done].
  - split_and!; [|done|done]. intros bs Hbs. rewrite Hbs in Hp. by destruct Hp as [[e ?]|?].
Qed.

(** C38: Unpacking is safe on bytes that no packer wrote: for every buffer whose size is
    an [int] and in which no long string that the reader comes to has a length of 2^31 or
    more (see [unpack_length_overflows]), [luaseri_unpack] ends, reads inside the buffer
    only, and returns values or raises an error of Lua. The C stack, on which tables
    nest, is not bounded in the model. *)
Theorem unpack_safe fits buffer fuel :
  bytes buffer → zlen buffer ≤ INT_MAX → no_negative fits buffer → (length buffer < fuel)%nat →
  (∃ ts, luaseri_unpack fits buffer fuel = lret ts) ∨
  (∃ e, luaseri_unpack fits buffer fuel = luaL_error e).
Proof.
  intros Hb Hlen Hneg Hf. unfold luaseri_unpack. rewrite i32_small by (split; [apply zlen_nonneg|done]).
  destruct (zlen buffer =? 0); [left; by exists []|].
  assert (Hs : safe (λ _, True) (lloop fuel (values_turn fits buffer fuel) ([], rball_init (zlen buffer)))).
  { apply (safe_loop (λ s : list tree * read_block, at_value fits buffer 0 0 s)
      (λ s : list tree * read_block, Z.to_nat (rb_len s.2))).
    - intros [values rb] (o & Hrb & Ho & Hv). cbn [snd] in Hrb. subst rb. unfold values_turn.
      change 1 with (Z.of_nat 1) at 1. destruct (decide (o + 1 ≤ length buffer)%nat) as [Hn|Hn].
      + rewrite rb_read_at by done. lsimpl. destruct (mread_slice buffer Hb o 1 Hn) as (bs & Hr & Hm & Hl & Hbs).
        assert (Hone : unpack_one fits buffer (S fuel) (rb_at buffer o) =
          push_value fits buffer fuel (unpack_one fits buffer fuel) (rb_at buffer (o + 1))
            (Z.land (le_value bs) 7) (Z.shiftr (le_value bs) 3)).
        { cbn [unpack_one]. unfold read_word. rewrite rb_read_at by done. lsimpl. by rewrite Hr. }
        change (Z.of_nat 1) with 1 in Hr. rewrite Hr. lsimpl. rewrite <-Hone.
        eapply safe_bind; [apply unpack_one_safe; [done|done|done|lia|lia|done]|].
        intros [v rb] (o' & Hrb & Ho' & Hv'). cbn [snd] in Hrb. subst rb. apply safe_lret.
          split; [exists o'; split_and!; [done|lia..|done]|]. unfold rb_at. cbn [snd rb_len]. unfold zlen. lia.
      + rewrite rb_read_past by lia. lsimpl. by apply safe_lret.
    - exists 0%nat. split_and!; [unfold rb_at, rball_init; cbn; f_equal; lia|lia..|constructor].
    - unfold rball_init. cbn [snd rb_len]. unfold zlen. lia. }
  destruct Hs as ([e|ts] & -> & _); [right; by exists e|left; by exists ts].
Qed.

(** A length word of 2^31: the count of the bytes that are left overflows. *)
Lemma unpack_length_overflows :
  luaseri_unpack (λ _, true) [37; 0; 0; 0; 128] 6 = Undef.
Proof. vm_compute. reflexivity. Qed.

(** ** Witnesses *)

Definition example_heap : gmap positive ltable :=
  {[ 1%positive := MkTable [VInteger 500; VString [104; 105]]
       [(VInteger 1, VInteger 500); (VInteger 2, VString [104; 105]); (VString [120], VTable 2)] None;
     2%positive := MkTable [] [] (Some ([(VBoolean true, VReal 5)], true)) ]}.

Lemma example_heap_ok : heap_ok example_heap.
Proof.
  intros t tbl Ht. unfold example_heap in Ht.
  apply lookup_insert_Some in Ht as [[<- <-]|[_ [<- <-]%lookup_singleton_Some]]; split; cbn; try done.
  all: repeat constructor; cbn; unfold is_byte; try lia; try done; try by eexists.
  - intros l e [= <- <-]. repeat constructor; cbn; lia.
Qed.

Lemma seri_round_trip_witness : ∃ bs,
  luaseri_pack (replicate 128 0) example_heap [VTable 1; VNil] = lret bs ∧
  luaseri_unpack (λ _, true) bs 30 =
    lret [TTable [TInteger 500; TString [104; 105]] [(TString [120], TTable [] [(TBoolean true, TReal 5)])];
          TNil].
Proof.
  destruct (seri_round_trip (replicate 128 0) example_heap [VTable 1; VNil]) as [Hback _].
  - reflexivity.
  - exact example_heap_ok.
  - repeat constructor. by eexists.
  - eexists. split; [vm_compute; reflexivity|].
    destruct (Hback _ ltac:(vm_compute; reflexivity)) as (ts & Hts & Hun).
    rewrite Hun; [|done|cbn; lia]. vm_compute in Hts. by injection Hts as <-.
Defined.

(** The number -1, and a table that is cut off. *)
Lemma unpack_safe_witness : ∃ e,
  luaseri_unpack (λ _, true) [34; 255; 255; 255; 255; 14; 9] 8 = luaL_error e.
Proof.
  destruct (unpack_safe (λ _, true) [34; 255; 255; 255; 255; 14; 9] 8) as [[ts H]|H].
  - repeat constructor; unfold is_byte; lia.
  - vm_compute. discriminate.
  - intros o bs _ Hm Hl. specialize (Hm 0%nat _ eq_refl). rewrite Nat.add_0_r in Hm.
    by do 7 (destruct o as [|o]; [done|]).
  - cbn. lia.
  - vm_compute in H. discriminate.
  - exact H.
Defined.
