(* ===== verification/Cluster.v ===== *)
(** * Messages between the nodes of a cluster

    The model of [lualib-src/lua-cluster.cpp]: requests and responses are packed
    into packages with a length of two bytes in front, long ones into several;
    the receiver unpacks the packages (without the length) and puts the parts
    together with [append] and [concat].

    A message is a block of memory with its size; a buffer on the C stack holds
    any bytes before it is written. The values a function pushes for Lua are a
    list of [rvalue]. The release of messages ([free]) is left out. *)
From S2P Require Import Prelude Netpack Lua.

Local Open Scope Z_scope.

Definition TEMP_LENGTH : Z := 0x8200.
Definition MULTI_PART : Z := 0x8000.

(** The address of a request: what [lua_type], [lua_tointeger] and
    [lua_tolstring] say of the first argument. *)
Inductive address :=
| ANumber (v : Z)
| AString (name : list Z)
| AOther (type : Z).

(** Values for Lua; [RBuffer] is a pointer to new memory with its bytes. *)
Inductive rvalue :=
| RNil
| RBoolean (b : bool)
| RInteger (v : Z)
| RString (s : list Z)
| RBuffer (s : list Z).

Definition fill_uint32 (buf : list Z) (off n : Z) : outcome (list Z) := asets buf off (le_bytes 4 n).

Definition fill_header (buf : list Z) (sz : Z) : outcome (list Z) :=
  _ ← assert_true (sz <? 0x10000);
  asets buf 0 [Z.land (Z.shiftr sz 8) 0xff; Z.land sz 0xff].

(** The parts of a message of [sz] bytes. *)
Definition part_count (sz : Z) : Z := (sz - 1) / MULTI_PART + 1.

Section cluster.
(** The bytes of a buffer [uint8_t buf[TEMP_LENGTH]] before it is written. *)
Context (temp : list Z).

(** [memcpy(buf + off, msg, n)]. *)
Definition copy_in (buf : list Z) (off : Z) (msg : list Z) (src n : Z) : outcome (list Z) :=
  bs ← mread msg src n; mwrite buf off bs.

(** ** Requests *)

(** The string and the number of parts that follow. *)
Definition packreq_number (session : Z) (addr : Z) (msg : list Z) (sz : Z) (is_push : bool)
    : outcome (list Z * Z) :=
  let addr := u32 addr in
  if sz <? MULTI_PART then
    buf ← fill_header temp (sz + 9);
    buf ← aset buf 2 0;
    buf ← fill_uint32 buf 3 addr;
    buf ← fill_uint32 buf 7 (if is_push then 0 else u32 session);
    buf ← copy_in buf 11 msg 0 sz;
    str ← mread buf 0 (sz + 11);
    Ret (str, 0)
  else
    buf ← fill_header temp 13;
    buf ← aset buf 2 (if is_push then 0x41 else 1);
    buf ← fill_uint32 buf 3 addr;
    buf ← fill_uint32 buf 7 (u32 session);
    buf ← fill_uint32 buf 11 sz;
    str ← mread buf 0 15;
    Ret (str, part_count sz).

Definition packreq_string (session : Z) (name : list Z) (msg : list Z) (sz : Z) (is_push : bool)
    : luaM (list Z * Z) :=
  let namelen := zlen name in
  if (namelen <? 1) || (255 <? namelen) then luaL_error "name is too long %s"
  else lift
   (if sz <? MULTI_PART then
      buf ← fill_header temp (sz + 6 + namelen);
      buf ← aset buf 2 0x80;
      buf ← aset buf 3 (u8 namelen);
      buf ← copy_in buf 4 name 0 namelen;
      buf ← fill_uint32 buf (4 + namelen) (if is_push then 0 else u32 session);
      buf ← copy_in buf (8 + namelen) msg 0 sz;
      str ← mread buf 0 (sz + 8 + namelen);
      Ret (str, 0)
    else
      buf ← fill_header temp (10 + namelen);
      buf ← aset buf 2 (if is_push then 0xc1 else 0x81);
      buf ← aset buf 3 (u8 namelen);
      buf ← copy_in buf 4 name 0 namelen;
      buf ← fill_uint32 buf (4 + namelen) (u32 session);
      buf ← fill_uint32 buf (8 + namelen) sz;
      str ← mread buf 0 (12 + namelen);
      Ret (str, part_count sz)).

(** One part; [buf] is the same buffer in every turn. *)
Definition multi_turn (session : Z) (msg : list Z) (i : Z)
    (st : list Z * Z * Z * list (list Z)) : outcome (list Z * Z * Z * list (list Z)) :=
  let '(buf, sz, ptr, parts) := st in
  let s := if MULTI_PART <? sz then MULTI_PART else sz in
  buf ← aset buf 2 (if MULTI_PART <? sz then 2 else 3);
  buf ← fill_header buf (s + 5);
  buf ← fill_uint32 buf 3 (u32 session);
  buf ← copy_in buf 7 msg ptr s;
  str ← mread buf 0 (s + 7);
  Ret (buf, sz - s, ptr + s, parts ++ [str]).

Definition packreq_multi (session : Z) (msg : list Z) (sz : Z) : outcome (list (list Z)) :=
  '(_, _, _, parts) ← for_loop (Z.to_nat (part_count sz)) 0 (multi_turn session msg) (temp, sz, 0, []);
  Ret parts.

(** The request, the next session, and the parts when there are any. [msg] is
    [None] for a null pointer; [sz] and [session] are Lua integers. *)
Definition packrequest (is_push : bool) (addr : address) (session : Z) (msg : option (list Z)) (sz : Z)
    : luaM (list Z * Z * option (list (list Z))) :=
  match msg with
  | None => luaL_error "Invalid request message"
  | Some msg =>
      let sz := u32 sz in
      let session := i32 session in
      if session <=? 0 then luaL_error "Invalid request session %d"
      else
        '(str, multipak) ⇐ match addr with
                           | ANumber a => lift (packreq_number session a msg sz is_push)
                           | AString name => packreq_string session name msg sz is_push
                           | AOther _ => luaL_error "name is not a string, it's a %s"
                           end;
        let new_session := if INT_MAX <? u32 (session + 1) then 1 else u32 (session + 1) in
        if negb (multipak =? 0) then
          parts ⇐ lift (packreq_multi session msg sz);
          lret (str, new_session, Some parts)
        else lret (str, new_session, None)
  end.

Definition lpackrequest := packrequest false.
Definition lpackpush := packrequest true.

Definition lpacktrace (tag : list Z) : luaM (list Z) :=
  let sz := zlen tag in
  if 0x8000 <? sz then luaL_error "trace tag is too long : %d"
  else lift
   (buf ← aset temp 2 4;
    buf ← fill_header buf (sz + 1);
    buf ← copy_in buf 3 tag 0 sz;
    mread buf 0 (sz + 3)).

(** The bytes, each shifted to its place. *)
Definition unpack_uint32 (buf : list Z) (off : Z) : outcome Z :=
  bs ← mread buf off 4; Ret (le_value bs).

Definition return_buffer (buf : list Z) (off sz : Z) : outcome (list rvalue) :=
  bs ← mread buf off sz; Ret [RBuffer bs; RInteger sz].

Definition invalid_message {A} : luaM A := luaL_error "Invalid cluster message (size=%d)".

(** A session of 0 says that no response is asked for. *)
Definition push_marks (session : Z) : list rvalue :=
  if session =? 0 then [RNil; RBoolean true] else [].

Definition unpackreq_number (buf : list Z) (sz : Z) : luaM (list rvalue) :=
  if sz <? 9 then invalid_message
  else lift
   (addr ← unpack_uint32 buf 1;
    session ← unpack_uint32 buf 5;
    m ← return_buffer buf 9 (sz - 9);
    Ret ([RInteger addr; RInteger session] ++ m ++ push_marks session)).

Definition unpackmreq_number (buf : list Z) (sz : Z) (is_push : bool) : luaM (list rvalue) :=
  if negb (sz =? 13) then luaL_error "Invalid cluster message size %d (multi req must be 13)"
  else lift
   (addr ← unpack_uint32 buf 1;
    session ← unpack_uint32 buf 5;
    size ← unpack_uint32 buf 9;
    Ret [RInteger addr; RInteger session; RNil; RInteger size; RBoolean true; RBoolean is_push]).

Definition unpackmreq_part (buf : list Z) (sz : Z) : luaM (list rvalue) :=
  if sz <? 5 then luaL_error "Invalid cluster multi part message"
  else lift
   (b0 ← aget buf 0;
    session ← unpack_uint32 buf 1;
    m ← return_buffer buf 5 (sz - 5);
    Ret ([RBoolean false; RInteger session] ++ m ++ [RBoolean (b0 =? 2)])).

Definition unpacktrace (buf : list Z) (sz : Z) : luaM (list rvalue) :=
  lift (s ← mread buf 1 (sz - 1); Ret [RString s]).

Definition unpackreq_string (buf : list Z) (sz : Z) : luaM (list rvalue) :=
  if sz <? 2 then invalid_message
  else
    namesz ⇐ lift (aget buf 1);
    if sz <? namesz + 6 then invalid_message
    else lift
     (name ← mread buf 2 namesz;
      session ← unpack_uint32 buf (namesz + 2);
      m ← return_buffer buf (2 + namesz + 4) (sz - namesz - 6);
      Ret ([RString name; RInteger session] ++ m ++ push_marks session)).

Definition unpackmreq_string (buf : list Z) (sz : Z) (is_push : bool) : luaM (list rvalue) :=
  if sz <? 2 then invalid_message
  else
    namesz ⇐ lift (aget buf 1);
    if sz <? namesz + 10 then invalid_message
    else lift
     (name ← mread buf 2 namesz;
      session ← unpack_uint32 buf (namesz + 2);
      size ← unpack_uint32 buf (namesz + 6);
      Ret [RString name; RInteger session; RNil; RInteger size; RBoolean true; RBoolean is_push]).

(** The bytes are a Lua string, or memory with its size. *)
Definition lunpackrequest (msg : list Z) (sz : Z) : luaM (list rvalue) :=
  let sz := i32 sz in
  if sz =? 0 then luaL_error "Invalid req package. size == 0"
  else
    b0 ⇐ lift (aget msg 0);
    if b0 =? 0 then unpackreq_number msg sz
    else if b0 =? 1 then unpackmreq_number msg sz false
    else if b0 =? 0x41 then unpackmreq_number msg sz true
    else if (b0 =? 2) || (b0 =? 3) then unpackmreq_part msg sz
    else if b0 =? 4 then unpacktrace msg sz
    else if b0 =? 0x80 then unpackreq_string msg sz
    else if b0 =? 0x81 then unpackmreq_string msg sz false
    else if b0 =? 0xc1 then unpackmreq_string msg sz true
    else luaL_error "Invalid req package type %d".

(** ** Responses *)

Definition response_turn (session : Z) (msg : list Z) (i : Z)
    (st : list Z * Z * Z * list (list Z)) : outcome (list Z * Z * Z * list (list Z)) :=
  let '(buf, sz, ptr, parts) := st in
  let s := if MULTI_PART <? sz then MULTI_PART else sz in
  buf ← aset buf 6 (if MULTI_PART <? sz then 3 else 4);
  buf ← fill_header buf (s + 5);
  buf ← fill_uint32 buf 2 session;
  buf ← copy_in buf 7 msg ptr s;
  str ← mread buf 0 (s + 7);
  Ret (buf, sz - s, ptr + s, parts ++ [str]).

(** A string, or a table of strings. *)
Definition lpackresponse (session : Z) (ok : bool) (msg : list Z) (sz : Z)
    : outcome (list Z + list (list Z)) :=
  let session := u32 session in
  let sz := u64 sz in
  if ok && (MULTI_PART <? sz) then
    buf ← fill_header temp 9;
    buf ← fill_uint32 buf 2 session;
    buf ← aset buf 6 2;
    buf ← fill_uint32 buf 7 (u32 sz);
    str ← mread buf 0 11;
    '(_, _, _, parts) ← for_loop (Z.to_nat (i32 (part_count sz))) 0 (response_turn session msg)
                          (buf, sz, 0, [str]);
    Ret (inr parts)
  else
    let sz := if MULTI_PART <? sz then MULTI_PART else sz in
    buf ← fill_header temp (sz + 5);
    buf ← fill_uint32 buf 2 session;
    buf ← aset buf 6 (if ok then 1 else 0);
    buf ← copy_in buf 7 msg 0 sz;
    str ← mread buf 0 (sz + 7);
    Ret (inl str).

(** The bytes are a Lua string. *)
Definition lunpackresponse (buf : list Z) : outcome (list rvalue) :=
  let sz := zlen buf in
  if sz <? 5 then Ret []
  else
    session ← unpack_uint32 buf 0;
    type ← aget buf 4;
    rest ← mread buf 5 (sz - 5);
    if type =? 0 then Ret [RInteger session; RBoolean false; RString rest]
    else if (type =? 1) || (type =? 4) then Ret [RInteger session; RBoolean true; RString rest]
    else if type =? 2 then
      if negb (sz =? 9) then Ret []
      else
        size ← unpack_uint32 buf 5;
        Ret [RInteger session; RBoolean true; RInteger size; RBoolean true]
    else if type =? 3 then
      Ret [RInteger session; RBoolean true; RString rest; RBoolean true]
    else Ret [].
End cluster.

(** ** Putting the parts together *)

(** [table] holds the values at 1 to its length. [buffer] is the second
    argument: [nil], or a pointer with its memory (null is [None]). *)
Definition lappend (table : list rvalue) (buffer : option (option (list Z))) (sz : Z)
    : luaM (list rvalue) :=
  match buffer with
  | None => lret (table ++ [RInteger sz])
  | Some None => luaL_error "Need lightuserdata"
  | Some (Some buffer) => s ⇐ lift (mread buffer 0 (i32 sz)); lret (table ++ [RString s])
  end.

(** [malloc] of a negative size, as a [size_t], gives no memory. *)
Definition concat_turn (table : list rvalue) (sz : Z) (st : list Z * Z * Z)
    : outcome ((list Z * Z * Z) + option (list Z)) :=
  let '(buff, idx, offset) := st in
  match table !! Z.to_nat (idx - 1) with
  | Some (RString str) =>
      let s := zlen str in
      if u64 sz <? u64 (s + offset) then Ret (inr None)
      else
        buff ← mwrite buff offset str;
        Ret (inl (buff, idx + 1, i32 (offset + s)))
  | _ => Ret (inr (if negb (offset =? sz) then None else Some buff))
  end.

(** Nothing, or a buffer and its size; [junk] is what new memory holds. *)
Definition lconcat (junk : Z) (table : list rvalue) : outcome (list rvalue) :=
  match table !! 0%nat with
  | Some (RInteger v) =>
      let sz := i32 v in
      r ← loop (S (length table)) (concat_turn table sz) (replicate (Z.to_nat sz) junk, 2, 0);
      match r with
      | Some buff => Ret [RBuffer buff; RInteger sz]
      | None => Ret []
      end
  | _ => Ret []
  end.

Definition lisname (name : option (list Z)) : list rvalue :=
  match name with
  | Some (64 :: _) => [RBoolean true]
  | _ => []
  end.

(** ** What is expected of the two ends

    The agent of the receiving node ([service/clusteragent.lua],
    [dispatch_request]) unpacks the packages of a request one by one, appends the
    parts to a table while the padding mark is set, and joins them after the
    last. *)
Definition part_buffer (v : rvalue) : option (option (list Z)) :=
  match v with RNil => None | RBuffer s => Some (Some s) | _ => Some None end.

Fixpoint collect_parts (table : list rvalue) (bodies : list (list Z))
    : luaM (option (list rvalue)) :=
  match bodies with
  | [] => lret None
  | body :: bodies =>
      vs ⇐ lunpackrequest body (zlen body);
      match vs with
      | [_; _; m; RInteger sz; RBoolean padding] =>
          table ⇐ lappend table (part_buffer m) sz;
          if padding then collect_parts table bodies else lret (Some table)
      | _ => lret None
      end
  end.

Definition receive_parts (junk : Z) (sz : Z) (bodies : list (list Z)) : luaM (option (list Z)) :=
  table ⇐ lappend [] None sz;
  t ⇐ collect_parts table bodies;
  match t with
  | None => lret None
  | Some table =>
      vs ⇐ lift (lconcat junk table);
      lret (match vs with [RBuffer m; RInteger _] => Some m | _ => None end)
  end.

(** The address, the session, whether it is a push, and the message. *)
Definition receive_request (junk : Z) (bodies : list (list Z))
    : luaM (option (rvalue * Z * bool * list Z)) :=
  match bodies with
  | [] => lret None
  | body :: bodies =>
      vs ⇐ lunpackrequest body (zlen body);
      match vs with
      | [addr; RInteger session; RBuffer m; RInteger _] => lret (Some (addr, session, false, m))
      | [addr; RInteger session; RBuffer m; RInteger _; RNil; RBoolean is_push] =>
          lret (Some (addr, session, is_push, m))
      | [addr; RInteger session; RNil; RInteger sz; RBoolean true; RBoolean is_push] =>
          m ⇐ receive_parts junk sz bodies;
          lret ((λ m, (addr, session, is_push, m)) <$> m)
      | _ => lret None
      end
  end.

Definition address_ok (addr : address) : Prop :=
  match addr with
  | ANumber _ => True
  | AString name => 1 ≤ zlen name ≤ 255
  | AOther _ => False
  end.

Definition address_value (addr : address) : rvalue :=
  match addr with
  | ANumber a => RInteger (u32 a)
  | AString name => RString name
  | AOther _ => RNil
  end.

(** ** Filling a buffer from its start *)

(** The buffer begins with [bs]. *)
Definition filled (buf : list Z) (bs : list Z) : Prop :=
  zlen buf = TEMP_LENGTH ∧ mem_at buf 0 bs.

Lemma filled_nil buf : zlen buf = TEMP_LENGTH → filled buf [].
Proof. intros H. split; [done|]. by intros k b Hk. Qed.

Lemma filled_next buf buf' bs bs' :
  filled buf bs → same_outside buf buf' (zlen bs) (zlen bs + zlen bs') →
  mem_at buf' (Z.to_nat (zlen bs)) bs' → filled buf' (bs ++ bs').
Proof.
  intros [Hl Hat] Ho Hat'. pose proof (so_zlen _ _ _ _ Ho). split; [congruence|].
  apply mem_at_app. replace (0 + length bs)%nat with (Z.to_nat (zlen bs)) by (unfold zlen; lia).
  split; [|done]. eapply mem_at_frame; [exact Ho|left; cbn; lia|done].
Qed.

(** The next bytes: a copy, a word, a byte, or a byte that is there already. *)
Lemma fill_write buf bs bs' off :
  filled buf bs → off = zlen bs → zlen bs + zlen bs' ≤ TEMP_LENGTH →
  ∃ buf', mwrite buf off bs' = Ret buf' ∧ filled buf' (bs ++ bs').
Proof.
  intros Hf -> Hl. pose proof (zlen_nonneg bs).
  destruct (mwrite_spec buf (zlen bs) bs') as (buf' & Hw & Ho & Hat); [done|by destruct Hf as [-> _]|].
  exists buf'. split; [done|]. by eapply filled_next.
Qed.

Lemma fill_asets buf bs bs' off :
  filled buf bs → off = zlen bs → zlen bs + zlen bs' ≤ TEMP_LENGTH →
  ∃ buf', asets buf off bs' = Ret buf' ∧ filled buf' (bs ++ bs') ∧
    same_outside buf buf' (zlen bs) (zlen bs + zlen bs').
Proof.
  intros Hf -> Hl. pose proof (zlen_nonneg bs).
  destruct (asets_spec buf (zlen bs) bs') as (buf' & Hw & Ho & Hat); [done|by destruct Hf as [-> _]|].
  exists buf'. split_and!; [done|by eapply filled_next|done].
Qed.

Lemma fill_aset buf bs b off :
  filled buf bs → off = zlen bs → zlen bs < TEMP_LENGTH →
  ∃ buf', aset buf off b = Ret buf' ∧ filled buf' (bs ++ [b]).
Proof.
  intros Hf -> Hl. pose proof (zlen_nonneg bs).
  destruct (aset_spec buf (zlen bs) b) as (buf' & Hw & Ho & Hat); [destruct Hf; lia|].
  exists buf'. split; [done|]. by eapply filled_next.
Qed.

Lemma fill_keep buf bs b :
  filled buf bs → mem_at buf (Z.to_nat (zlen bs)) [b] → filled buf (bs ++ [b]).
Proof. intros Hf Hat. eapply filled_next; [exact Hf|apply same_outside_refl|done]. Qed.

Definition header_of (n : Z) : list Z := [n / 256; n mod 256].

Lemma header_bytes n : 0 ≤ n < 0x10000 →
  [Z.land (Z.shiftr n 8) 0xff; Z.land n 0xff] = header_of n.
Proof.
  intros Hn. unfold header_of. change 0xff with (2 ^ 8 - 1). rewrite !land_mask by done.
  rewrite Z.shiftr_div_pow2 by done. change (2 ^ 8) with 256. f_equal.
  rewrite Z.mod_small; [done|]. zlia.
Qed.

Lemma fill_header_next buf n : zlen buf = TEMP_LENGTH → 0 ≤ n < 0x10000 →
  ∃ buf', fill_header buf n = Ret buf' ∧ filled buf' (header_of n) ∧ same_outside buf buf' 0 2.
Proof.
  intros Hl Hn. unfold fill_header. rewrite (proj2 (Z.ltb_lt _ _)) by lia. bsimpl.
  rewrite header_bytes by done.
  destruct (asets_spec buf 0 (header_of n)) as (buf' & -> & Ho & Hat); [done|rewrite Hl; done|].
  exists buf'. split_and!; [done| |done]. split; [by rewrite (so_zlen _ _ _ _ Ho)|done].
Qed.

Lemma filled_read buf bs n : filled buf bs → n = zlen bs → n ≤ TEMP_LENGTH → mread buf 0 n = Ret bs.
Proof. intros [Hl Hat] -> Hn. apply mread_at; [done|rewrite Hl; lia|done]. Qed.

Lemma fill_copy buf bs piece off msg src n :
  filled buf bs → mread msg src n = Ret piece → off = zlen bs →
  zlen bs + zlen piece ≤ TEMP_LENGTH →
  ∃ buf', copy_in buf off msg src n = Ret buf' ∧ filled buf' (bs ++ piece).
Proof. intros Hf Hr -> Hl. unfold copy_in. rewrite Hr. bsimpl. by apply fill_write. Qed.

Lemma fill_word buf bs v off :
  filled buf bs → off = zlen bs → zlen bs + 4 ≤ TEMP_LENGTH →
  ∃ buf', fill_uint32 buf off v = Ret buf' ∧ filled buf' (bs ++ le_bytes 4 v) ∧
    same_outside buf buf' (zlen bs) (zlen bs + 4).
Proof. intros Hf Ho Hl. exact (fill_asets buf bs (le_bytes 4 v) off Hf Ho Hl). Qed.

Lemma zlen_header n : zlen (header_of n) = 2.
Proof. done. Qed.

Create Rewrite HintDb fill.
#[export] Hint Rewrite @zlen_app @zlen_cons @zlen_nil zlen_le_bytes zlen_header : fill.

(** Lengths of what has been written so far. *)
Ltac flia := autorewrite with fill in *; unfold TEMP_LENGTH, MULTI_PART in *; lia.

Ltac fill_header_step :=
  match goal with |- context [fill_header ?b ?n] =>
    let buf := fresh "buf" in let Hf := fresh "Hf" in let Ho := fresh "Ho" in
    destruct (fill_header_next b n) as (buf & -> & Hf & Ho); [assumption || flia|flia|bsimpl] end.

Ltac fill_step :=
  match goal with
  | Hf : filled ?b ?bs |- context [fill_uint32 ?b ?off ?v] =>
      let buf := fresh "buf" in let Hf' := fresh "Hf" in let Ho := fresh "Ho" in
      destruct (fill_word b bs v off Hf) as (buf & -> & Hf' & Ho); [flia|flia|bsimpl]
  | Hf : filled ?b ?bs |- context [aset ?b ?off ?v] =>
      let buf := fresh "buf" in let Hf' := fresh "Hf" in
      destruct (fill_aset b bs v off Hf) as (buf & -> & Hf'); [flia|flia|bsimpl]
  | Hf : filled ?b ?bs |- context [copy_in ?b ?off ?m 0 (zlen ?m)] =>
      let buf := fresh "buf" in let Hf' := fresh "Hf" in
      destruct (fill_copy b bs m off m 0 (zlen m) Hf (mread_all m)) as (buf & -> & Hf');
        [flia|flia|bsimpl]
  | Hf : filled ?b ?bs, Hr : mread ?m ?src ?n = Ret ?p |- context [copy_in ?b ?off ?m ?src ?n] =>
      let buf := fresh "buf" in let Hf' := fresh "Hf" in
      destruct (fill_copy b bs p off m src n Hf Hr) as (buf & -> & Hf'); [flia|flia|bsimpl]
  | Hf : filled ?b ?bs |- context [mread ?b 0 ?n] =>
      rewrite (filled_read b bs n Hf) by flia; bsimpl
  end.

(** What has been written is a package. *)
Lemma frame_eq n p str : str = header_of n ++ p → n = zlen p → str = frame p.
Proof. by intros -> ->. Qed.

Ltac frame_done := eapply frame_eq; [by rewrite <-!app_assoc|flia].

Section packing.
Context (temp : list Z) (Htemp : zlen temp = TEMP_LENGTH).

Definition number_body (a session : Z) (msg : list Z) : list Z :=
  0 :: le_bytes 4 (u32 a) ++ le_bytes 4 session ++ msg.

Lemma packreq_number_small session a msg is_push :
  zlen msg < MULTI_PART →
  packreq_number temp session a msg (zlen msg) is_push =
  Ret (frame (number_body a (if is_push then 0 else u32 session) msg), 0).
Proof using Htemp.
  intros Hl. pose proof (zlen_nonneg msg). unfold packreq_number, number_body.
  rewrite (proj2 (Z.ltb_lt _ _)) by done.
  fill_header_step. do 5 fill_step. do 2 f_equal. frame_done.
Qed.

Lemma packreq_number_big session a msg is_push :
  MULTI_PART ≤ zlen msg →
  packreq_number temp session a msg (zlen msg) is_push =
  Ret (frame ((if is_push then 0x41 else 1) ::
    le_bytes 4 (u32 a) ++ le_bytes 4 (u32 session) ++ le_bytes 4 (zlen msg)), part_count (zlen msg)).
Proof using Htemp.
  intros Hl. unfold packreq_number. rewrite (proj2 (Z.ltb_ge _ _)) by done.
  fill_header_step. by do 5 fill_step.
Qed.

Definition string_body (name : list Z) (session : Z) (msg : list Z) : list Z :=
  0x80 :: zlen name :: name ++ le_bytes 4 session ++ msg.

Lemma packreq_string_small session name msg is_push :
  1 ≤ zlen name ≤ 255 → zlen msg < MULTI_PART →
  packreq_string temp session name msg (zlen msg) is_push =
  lret (frame (string_body name (if is_push then 0 else u32 session) msg), 0).
Proof using Htemp.
  intros Hn Hl. pose proof (zlen_nonneg msg). unfold packreq_string, string_body.
  rewrite (proj2 (Z.ltb_ge (zlen name) 1)), (proj2 (Z.ltb_ge 255 _)), (proj2 (Z.ltb_lt _ MULTI_PART)) by lia.
  cbn [orb]. fill_header_step. do 6 fill_step. unfold u8. rewrite lift_Ret, Z.mod_small by lia.
  unfold lret. do 3 f_equal. frame_done.
Qed.

Lemma packreq_string_big session name msg is_push :
  1 ≤ zlen name ≤ 255 → MULTI_PART ≤ zlen msg →
  packreq_string temp session name msg (zlen msg) is_push =
  lret (frame ((if is_push then 0xc1 else 0x81) ::
    zlen name :: name ++ le_bytes 4 (u32 session) ++ le_bytes 4 (zlen msg)), part_count (zlen msg)).
Proof using Htemp.
  intros Hn Hl. unfold packreq_string.
  rewrite (proj2 (Z.ltb_ge (zlen name) 1)), (proj2 (Z.ltb_ge 255 _)), (proj2 (Z.ltb_ge _ MULTI_PART)) by lia.
  cbn [orb]. fill_header_step. do 6 fill_step. unfold u8. rewrite lift_Ret, Z.mod_small by lia.
  unfold lret. do 3 f_equal. frame_done.
Qed.
End packing.

(** ** The parts of a long message *)

Section parts.
Context (body : bool → list Z → list Z).

(** The bodies of [n] parts; the mark says whether there are more. *)
Fixpoint parts_of (n : nat) (msg : list Z) : list (list Z) :=
  match n with
  | O => []
  | S n' => body (negb (Nat.eqb n' 0)) (take (Z.to_nat MULTI_PART) msg)
              :: parts_of n' (drop (Z.to_nat MULTI_PART) msg)
  end.

Lemma parts_of_S n msg : parts_of (S n) msg =
  body (negb (Nat.eqb n 0)) (take (Z.to_nat MULTI_PART) msg)
    :: parts_of n (drop (Z.to_nat MULTI_PART) msg).
Proof using. done. Qed.

Context (turn : Z → list Z * Z * Z * list (list Z) → outcome (list Z * Z * Z * list (list Z))).
Context (msg : list Z).
Hypothesis turn_spec : ∀ i buf sz ptr acc piece,
  let s := if MULTI_PART <? sz then MULTI_PART else sz in
  zlen buf = TEMP_LENGTH → 0 ≤ sz → mread msg ptr s = Ret piece → zlen piece = s →
  ∃ buf', zlen buf' = TEMP_LENGTH ∧
    turn i (buf, sz, ptr, acc) = Ret (buf', sz - s, ptr + s, acc ++ [frame (body (MULTI_PART <? sz) piece)]).

Lemma parts_loop n i buf ptr acc :
  zlen buf = TEMP_LENGTH → 0 ≤ ptr ≤ zlen msg →
  (Z.of_nat n - 1) * MULTI_PART < zlen msg - ptr ≤ Z.of_nat n * MULTI_PART →
  ∃ buf', for_loop n i turn (buf, zlen msg - ptr, ptr, acc) =
    Ret (buf', 0, zlen msg, acc ++ (frame <$> parts_of n (drop (Z.to_nat ptr) msg))).
Proof using turn_spec.
  revert i buf ptr acc. induction n as [|n IH]; intros i buf ptr acc Hb Hp Hn.
  { exists buf. cbn. rewrite app_nil_r. do 3 f_equal; [f_equal|]; lia. }
  rewrite for_loop_S. set (sz := zlen msg - ptr) in *.
  set (s := if MULTI_PART <? sz then MULTI_PART else sz).
  assert (Hs : 0 ≤ s ∧ ptr + s ≤ zlen msg ∧ s ≤ MULTI_PART).
  { unfold s, MULTI_PART in *. destruct (Z.ltb_spec 0x8000 sz); lia. }
  set (piece := take (Z.to_nat s) (drop (Z.to_nat ptr) msg)).
  assert (Hr : mread msg ptr s = Ret piece) by (apply mread_in; lia).
  assert (Hl : zlen piece = s).
  { unfold piece, zlen in *. rewrite length_take, length_drop. lia. }
  destruct (turn_spec i buf sz ptr acc piece Hb ltac:(unfold sz; lia) Hr Hl) as (buf1 & Hb1 & ->).
  bsimpl. fold s. replace (sz - s) with (zlen msg - (ptr + s)) by (unfold sz; lia).
  destruct (IH (i + 1) buf1 (ptr + s) (acc ++ [frame (body (MULTI_PART <? sz) piece)]))
    as (buf2 & ->); [done|lia| |].
  { unfold s, MULTI_PART in *. destruct (Z.ltb_spec 0x8000 sz); nia. }
  assert (Hmore : (MULTI_PART <? sz) = negb (Nat.eqb n 0)).
  { unfold MULTI_PART in *. destruct (Z.ltb_spec 0x8000 sz), n; cbn; done || lia. }
  exists buf2. rewrite <-app_assoc. cbn [parts_of fmap list_fmap app]. rewrite Hmore.
  unfold piece, s. destruct (Z.ltb_spec MULTI_PART sz).
  - rewrite drop_drop. by rewrite Z2Nat.inj_add by (unfold MULTI_PART in *; lia).
  - destruct n; [|unfold MULTI_PART in *; lia]. cbn [parts_of fmap list_fmap].
    rewrite !take_ge by (unfold MULTI_PART, zlen in *; rewrite ?length_drop; lia). done.
Qed.
End parts.

Definition request_part (session : Z) (more : bool) (piece : list Z) : list Z :=
  (if more then 2 else 3) :: le_bytes 4 session ++ piece.

(** Two parts of the buffer that a turn writes before what stands in front. *)
Lemma keep_byte buf buf' bs a b c :
  filled buf' bs → same_outside buf buf' a b → b ≤ zlen bs →
  mem_at buf (Z.to_nat (zlen bs)) [c] → filled buf' (bs ++ [c]).
Proof.
  intros Hf Ho Hb Hat. pose proof (zlen_nonneg bs).
  apply fill_keep; [done|]. eapply mem_at_frame; [exact Ho|right; lia|done].
Qed.

Lemma multi_turn_spec session msg i buf sz ptr acc piece :
  let s := if MULTI_PART <? sz then MULTI_PART else sz in
  zlen buf = TEMP_LENGTH → 0 ≤ sz → mread msg ptr s = Ret piece → zlen piece = s →
  ∃ buf', zlen buf' = TEMP_LENGTH ∧
    multi_turn session msg i (buf, sz, ptr, acc) =
    Ret (buf', sz - s, ptr + s, acc ++ [frame (request_part (u32 session) (MULTI_PART <? sz) piece)]).
Proof.
  intros s Hb Hsz Hr Hl. unfold multi_turn. fold s.
  assert (Hs : 0 ≤ s ≤ MULTI_PART) by (unfold s, MULTI_PART; destruct (Z.ltb_spec 0x8000 sz); lia).
  clearbody s. destruct (aset_spec buf 2 (if MULTI_PART <? sz then 2 else 3)) as (b1 & -> & Ho1 & Hat);
    [by rewrite Hb|]. bsimpl.
  pose proof (so_zlen _ _ _ _ Ho1) as Hb1. rewrite Hb in Hb1.
  fill_header_step. pose proof (keep_byte _ _ _ _ _ _ Hf Ho ltac:(flia) Hat) as Hf1.
  clear Hf. do 3 fill_step.
  eexists. split; [by destruct Hf0|]. do 4 f_equal. unfold request_part. frame_done.
Qed.

Definition response_part (session : Z) (more : bool) (piece : list Z) : list Z :=
  le_bytes 4 session ++ (if more then 3 else 4) :: piece.

Lemma response_turn_spec session msg i buf sz ptr acc piece :
  let s := if MULTI_PART <? sz then MULTI_PART else sz in
  zlen buf = TEMP_LENGTH → 0 ≤ sz → mread msg ptr s = Ret piece → zlen piece = s →
  ∃ buf', zlen buf' = TEMP_LENGTH ∧
    response_turn session msg i (buf, sz, ptr, acc) =
    Ret (buf', sz - s, ptr + s, acc ++ [frame (response_part session (MULTI_PART <? sz) piece)]).
Proof.
  intros s Hb Hsz Hr Hl. unfold response_turn. fold s.
  assert (Hs : 0 ≤ s ≤ MULTI_PART) by (unfold s, MULTI_PART; destruct (Z.ltb_spec 0x8000 sz); lia).
  clearbody s. destruct (aset_spec buf 6 (if MULTI_PART <? sz then 3 else 4)) as (b1 & -> & Ho1 & Hat);
    [by rewrite Hb|]. bsimpl.
  pose proof (so_zlen _ _ _ _ Ho1) as Hb1. rewrite Hb in Hb1.
  fill_header_step. fill_step.
  assert (Hat' : mem_at buf0 (Z.to_nat 6) [if MULTI_PART <? sz then 3 else 4]).
  { eapply mem_at_frame; [exact Ho|right; lia|exact Hat]. }
  pose proof (keep_byte _ _ _ _ _ _ Hf0 Ho0 ltac:(flia) Hat') as Hf1.
  clear Hf Hf0. do 2 fill_step.
  eexists. split; [by destruct Hf|]. do 4 f_equal. unfold response_part. frame_done.
Qed.

Section packing.
Context (temp : list Z) (Htemp : zlen temp = TEMP_LENGTH).

Lemma parts_fit n : 0 < n →
  (Z.of_nat (Z.to_nat (part_count n)) - 1) * MULTI_PART < n ≤ Z.of_nat (Z.to_nat (part_count n)) * MULTI_PART.
Proof using. intros Hn. unfold part_count, MULTI_PART. zlia. Qed.

Definition request_parts (session : Z) (msg : list Z) : list (list Z) :=
  parts_of (request_part (u32 session)) (Z.to_nat (part_count (zlen msg))) msg.

Lemma packreq_multi_spec session msg : 0 < zlen msg →
  packreq_multi temp session msg (zlen msg) = Ret (frame <$> request_parts session msg).
Proof using Htemp.
  intros Hl. unfold packreq_multi.
  destruct (parts_loop _ _ msg (multi_turn_spec session msg) (Z.to_nat (part_count (zlen msg))) 0 temp 0 [])
    as (buf & Hloop); [done|lia|rewrite Z.sub_0_r; by apply parts_fit|].
  rewrite Z.sub_0_r in Hloop. rewrite Hloop. done.
Qed.

(** The body of the first package of a request. *)
Definition request_body (is_push : bool) (addr : address) (session : Z) (msg : list Z) : list Z :=
  if zlen msg <? MULTI_PART then
    let session := if is_push then 0 else u32 session in
    match addr with
    | ANumber a => number_body a session msg
    | AString name => string_body name session msg
    | AOther _ => []
    end
  else
    match addr with
    | ANumber a => (if is_push then 0x41 else 1) :: le_bytes 4 (u32 a)
    | AString name => (if is_push then 0xc1 else 0x81) :: zlen name :: name
    | AOther _ => []
    end ++ le_bytes 4 (u32 session) ++ le_bytes 4 (zlen msg).

Definition next_session (session : Z) : Z := if session =? INT_MAX then 1 else session + 1.

Lemma packrequest_spec is_push addr session msg :
  address_ok addr → 1 ≤ session ≤ INT_MAX → zlen msg ≤ INT_MAX →
  packrequest temp is_push addr session (Some msg) (zlen msg) =
  lret (frame (request_body is_push addr session msg), next_session session,
        if zlen msg <? MULTI_PART then None else Some (frame <$> request_parts session msg)).
Proof using Htemp.
  intros Ha Hs Hl. pose proof (zlen_nonneg msg). unfold packrequest, request_body, INT_MAX in *.
  rewrite (u32_small (zlen msg)), (i32_small session) by (unfold INT_MAX; lia).
  rewrite (proj2 (Z.leb_gt _ _)) by lia.
  rewrite (u32_small (session + 1)) by lia.
  assert (Hn : (if INT_MAX <? session + 1 then 1 else session + 1) = next_session session).
  { unfold next_session, INT_MAX. destruct (Z.ltb_spec 2147483647 (session + 1)), (Z.eqb_spec session 2147483647); lia. }
  unfold INT_MAX in Hn. rewrite Hn.
  destruct (Z.ltb_spec (zlen msg) MULTI_PART) as [Hsz|Hsz].
  - destruct addr as [a|name|]; [|cbn in Ha|done].
    + rewrite packreq_number_small by done. done.
    + rewrite packreq_string_small by done. done.
  - assert (Hp : negb (part_count (zlen msg) =? 0) = true).
    { unfold part_count, MULTI_PART in *. destruct (Z.eqb_spec ((zlen msg - 1) / 32768 + 1) 0); [zlia|done]. }
    destruct addr as [a|name|]; [|cbn in Ha|done].
    + rewrite packreq_number_big by done. lsimpl. rewrite Hp, packreq_multi_spec by (unfold MULTI_PART in *; lia).
      done.
    + rewrite packreq_string_big by done. lsimpl. rewrite Hp, packreq_multi_spec by (unfold MULTI_PART in *; lia).
      done.
Qed.
End packing.

(** ** Unpacking *)

(** [mem] has [bs] at [off]. *)
Definition reads (mem : list Z) (off : Z) (bs : list Z) : Prop :=
  0 ≤ off ∧ off + zlen bs ≤ zlen mem ∧ mem_at mem (Z.to_nat off) bs.

Lemma reads_self mem : reads mem 0 mem.
Proof. split_and!; [done|lia|]. by intros k b Hk. Qed.

Lemma reads_app mem off a b : reads mem off (a ++ b) → reads mem off a ∧ reads mem (off + zlen a) b.
Proof.
  intros (H0 & Hl & Hat). rewrite zlen_app in Hl. pose proof (zlen_nonneg a). pose proof (zlen_nonneg b).
  apply mem_at_appz in Hat as [Ha Hb]; [|done]. split; (split_and!; [lia|lia|done]).
Qed.

Lemma reads_cons mem off x b : reads mem off (x :: b) → reads mem off [x] ∧ reads mem (off + 1) b.
Proof. intros H. by apply (reads_app _ _ [x]). Qed.

Lemma mread_reads mem off bs o n :
  reads mem off bs → o = off → n = zlen bs → mread mem o n = Ret bs.
Proof. intros (H0 & Hl & Hat) -> ->. by apply mread_at. Qed.

Lemma aget_reads mem off x o : reads mem off [x] → o = off → aget mem o = Ret x.
Proof.
  intros (H0 & _ & Hat) ->. apply aget_Ret. split; [done|]. specialize (Hat 0%nat x eq_refl).
  by rewrite Nat.add_0_r in Hat.
Qed.

Lemma unpack_uint32_reads mem off v o :
  reads mem off (le_bytes 4 v) → o = off → 0 ≤ v < 2 ^ 32 → unpack_uint32 mem o = Ret v.
Proof.
  intros H Ho Hv. unfold unpack_uint32. rewrite (mread_reads _ _ _ o 4 H Ho) by done. bsimpl.
  by destruct (le_bytes_value 4 v Hv) as [-> _].
Qed.

(** Splits what is known of a whole body into its fields. *)
Ltac split_reads :=
  repeat match goal with
  | H : reads _ _ (_ ++ _) |- _ => apply reads_app in H as [? H]
  | H : reads _ _ (_ :: ?b) |- _ =>
      lazymatch b with [] => fail | _ => apply reads_cons in H as [? H] end
  end; autorewrite with fill in *.

(** Reads one field. *)
Ltac read_step :=
  match goal with
  | H : reads ?m ?o (le_bytes 4 ?v) |- context [unpack_uint32 ?m ?o'] =>
      rewrite (unpack_uint32_reads m o v o' H) by (done || lia); bsimpl
  | H : reads ?m ?o ?bs |- context [mread ?m ?o' ?n] =>
      rewrite (mread_reads m o bs o' n H) by flia; bsimpl
  | H : reads ?m ?o [?x] |- context [aget ?m ?o'] =>
      rewrite (aget_reads m o x o' H) by lia; bsimpl
  end.

#[local] Hint Resolve u32_bound : core.

Ltac unpack_start :=
  split_reads; unfold lunpackrequest; rewrite i32_small, (proj2 (Z.eqb_neq _ 0)) by lia;
  read_step; lsimpl; cbn [Z.eqb Pos.eqb orb].

Section unpacking.
Context (session : Z) (Hsession : 0 ≤ session < 2 ^ 32).

Lemma unpack_number body a m :
  reads body 0 (0 :: le_bytes 4 (u32 a) ++ le_bytes 4 session ++ m) → zlen body = 9 + zlen m →
  zlen body ≤ INT_MAX →
  lunpackrequest body (zlen body) =
  lret ([RInteger (u32 a); RInteger session; RBuffer m; RInteger (zlen m)] ++ push_marks session).
Proof using Hsession.
  intros Hr Hl Hi. pose proof (zlen_nonneg m). unpack_start. unfold unpackreq_number.
  rewrite (proj2 (Z.ltb_ge _ _)) by lia.
  do 2 read_step. unfold return_buffer. read_step. rewrite lift_Ret. cbn [app].
  by replace (zlen body - 9) with (zlen m) by lia.
Qed.

Lemma unpack_number_big body a size (is_push : bool) :
  reads body 0 ((if is_push then 0x41 else 1) ::
    le_bytes 4 (u32 a) ++ le_bytes 4 session ++ le_bytes 4 size) → zlen body = 13 →
  0 ≤ size < 2 ^ 32 →
  lunpackrequest body (zlen body) =
  lret [RInteger (u32 a); RInteger session; RNil; RInteger size; RBoolean true; RBoolean is_push].
Proof using Hsession.
  intros Hr Hl Hs. assert (zlen body ≤ INT_MAX) by (unfold INT_MAX; lia).
  destruct is_push; unpack_start; unfold unpackmreq_number;
    (rewrite (proj2 (Z.eqb_eq _ 13)) by lia); cbn [negb]; do 3 read_step; done.
Qed.

Lemma unpack_string body name m :
  reads body 0 (0x80 :: zlen name :: name ++ le_bytes 4 session ++ m) →
  zlen body = 6 + zlen name + zlen m → zlen body ≤ INT_MAX →
  lunpackrequest body (zlen body) =
  lret ([RString name; RInteger session; RBuffer m; RInteger (zlen m)] ++ push_marks session).
Proof using Hsession.
  intros Hr Hl Hi. pose proof (zlen_nonneg m). pose proof (zlen_nonneg name).
  unpack_start. unfold unpackreq_string. rewrite (proj2 (Z.ltb_ge _ _)) by lia.
  read_step. lsimpl. rewrite (proj2 (Z.ltb_ge _ _)) by lia.
  do 2 read_step. unfold return_buffer. read_step. rewrite lift_Ret. cbn [app].
  by replace (zlen body - zlen name - 6) with (zlen m) by lia.
Qed.

Lemma unpack_string_big body name size (is_push : bool) :
  reads body 0 ((if is_push then 0xc1 else 0x81) ::
    zlen name :: name ++ le_bytes 4 session ++ le_bytes 4 size) →
  zlen body = 10 + zlen name → zlen body ≤ INT_MAX → 0 ≤ size < 2 ^ 32 →
  lunpackrequest body (zlen body) =
  lret [RString name; RInteger session; RNil; RInteger size; RBoolean true; RBoolean is_push].
Proof using Hsession.
  intros Hr Hl Hi Hs. pose proof (zlen_nonneg name).
  destruct is_push; unpack_start; unfold unpackmreq_string;
    (rewrite (proj2 (Z.ltb_ge _ _)) by lia); read_step; lsimpl;
    (rewrite (proj2 (Z.ltb_ge _ _)) by lia); do 3 read_step; done.
Qed.

Lemma unpack_part body more m :
  reads body 0 (request_part session more m) → zlen body = 5 + zlen m → zlen body ≤ INT_MAX →
  lunpackrequest body (zlen body) =
  lret [RBoolean false; RInteger session; RBuffer m; RInteger (zlen m); RBoolean more].
Proof using Hsession.
  intros Hr Hl Hi. pose proof (zlen_nonneg m). unfold request_part in Hr.
  destruct more; unpack_start; unfold unpackmreq_part;
    (rewrite (proj2 (Z.ltb_ge _ _)) by lia); do 2 read_step; unfold return_buffer; read_step;
    rewrite lift_Ret; replace (zlen body - 5) with (zlen m) by lia; done.
Qed.
End unpacking.

(** ** Joining the parts *)

Definition pieces_of : nat → list Z → list (list Z) := parts_of (λ _ piece, piece).

Lemma concat_pieces n msg : zlen msg ≤ Z.of_nat n * MULTI_PART → concat (pieces_of n msg) = msg.
Proof.
  revert msg. induction n as [|n IH]; intros msg Hl.
  { destruct msg; [done|]. rewrite zlen_cons in Hl. pose proof (zlen_nonneg msg). lia. }
  cbn. fold (pieces_of n). rewrite IH; [apply take_drop|].
  unfold zlen, MULTI_PART in *. rewrite length_drop. lia.
Qed.

Lemma mwrite_next {A} (a b c : list A) :
  zlen c ≤ zlen b → mwrite (a ++ b) (zlen a) c = Ret ((a ++ c) ++ drop (length c) b).
Proof.
  intros Hl. unfold mwrite. rewrite zlen_app.
  rewrite !(proj2 (Z.leb_le _ _)) by (unfold zlen in *; lia). cbn [andb].
  f_equal. unfold zlen. rewrite Nat2Z.id, take_app_length, <-app_assoc. do 2 f_equal.
  rewrite <-Nat2Z.inj_add, Nat2Z.id, drop_app_add. done.
Qed.

Lemma lookup_of_drop {A} (l : list A) n k : drop n l = k → l !! n = k !! 0%nat.
Proof. intros <-. rewrite lookup_drop. f_equal. lia. Qed.

Lemma concat_loop table sz fuel ps d r idx :
  0 ≤ sz ≤ INT_MAX → 1 ≤ idx → drop (Z.to_nat (idx - 1)) table = RString <$> ps →
  zlen (d ++ r) = sz → zlen d + zlen (concat ps) = sz → (length ps < fuel)%nat →
  loop fuel (concat_turn table sz) (d ++ r, idx, zlen d) = Ret (Some (d ++ concat ps)).
Proof.
  revert fuel d r idx. induction ps as [|p ps IH]; intros [|fuel] d r idx Hsz Hidx Hps Hr Hd Hf;
    cbn [length] in Hf; try lia; rewrite loop_S; unfold concat_turn at 2; cbv beta iota;
    (erewrite (lookup_of_drop table) by exact Hps); cbn [fmap list_fmap lookup list_lookup].
  - cbn [concat] in *. rewrite zlen_nil in Hd. rewrite (proj2 (Z.eqb_eq (zlen d) sz)) by lia. bsimpl. cbn [negb].
    rewrite zlen_app in Hr. destruct r; [done|]. rewrite zlen_cons in Hr. pose proof (zlen_nonneg r). lia.
  - cbn [concat] in *. rewrite zlen_app in *. pose proof (zlen_nonneg p). pose proof (zlen_nonneg d).
    pose proof (zlen_nonneg (concat ps)).
    unfold u64. rewrite !Z.mod_small by (unfold INT_MAX in *; lia).
    rewrite (proj2 (Z.ltb_ge _ _)) by lia. rewrite mwrite_next by lia. bsimpl.
    rewrite i32_small by lia. rewrite <-zlen_app.
    rewrite IH; [by rewrite <-app_assoc|done|lia| | | |lia].
    + replace (Z.to_nat (idx + 1 - 1)) with (Z.to_nat (idx - 1) + 1)%nat by lia.
      by rewrite <-drop_drop, Hps.
    + rewrite !zlen_app. unfold zlen in *. rewrite length_drop. lia.
    + rewrite zlen_app. lia.
Qed.

Lemma lconcat_spec junk ps : zlen (concat ps) ≤ INT_MAX →
  lconcat junk (RInteger (zlen (concat ps)) :: (RString <$> ps)) =
  Ret [RBuffer (concat ps); RInteger (zlen (concat ps))].
Proof.
  intros Hl. pose proof (zlen_nonneg (concat ps)). unfold lconcat. cbn [lookup list_lookup].
  rewrite i32_small by lia.
  set (sz := zlen (concat ps)) in *. set (table := RInteger sz :: (RString <$> ps)).
  pose proof (concat_loop table sz (S (length table)) ps [] (replicate (Z.to_nat sz) junk) 2) as Hloop.
  cbn [app] in Hloop. change (zlen []) with 0 in Hloop. rewrite Hloop; [done|lia|lia|done| |done|].
  - unfold zlen. rewrite length_replicate. lia.
  - cbn. rewrite length_fmap. lia.
Qed.

Lemma collect_spec session n msg table :
  0 ≤ session < 2 ^ 32 → n ≠ 0%nat →
  collect_parts table (parts_of (request_part session) n msg) =
  lret (Some (table ++ (RString <$> pieces_of n msg))).
Proof.
  intros Hs. revert msg table. induction n as [|n IH]; intros msg table Hn; [done|].
  cbn [parts_of collect_parts]. set (piece := take (Z.to_nat MULTI_PART) msg).
  assert (Hp : zlen piece ≤ MULTI_PART).
  { unfold piece, zlen. rewrite length_take. unfold MULTI_PART. lia. }
  set (body := request_part session (negb (Nat.eqb n 0)) piece).
  assert (Hb : zlen body = 5 + zlen piece) by (unfold body, request_part; flia).
  rewrite (unpack_part session Hs body (negb (Nat.eqb n 0)) piece);
    [|apply reads_self|done|unfold MULTI_PART, INT_MAX in *; lia].
  lsimpl. cbn [part_buffer]. unfold lappend. pose proof (zlen_nonneg piece).
  rewrite i32_small, mread_all by (unfold MULTI_PART, INT_MAX in *; lia). lsimpl.
  destruct n as [|n]; [done|]. cbn [Nat.eqb negb]. rewrite IH by done.
  cbn [pieces_of parts_of fmap list_fmap]. by rewrite <-app_assoc.
Qed.

Lemma part_body_length session more piece :
  zlen piece ≤ MULTI_PART → zlen (request_part session more piece) < 0x10000.
Proof. intros Hl. unfold request_part. flia. Qed.

Lemma parts_short (body : bool → list Z → list Z) n msg :
  (∀ more piece, zlen piece ≤ MULTI_PART → zlen (body more piece) < 0x10000) →
  Forall (λ p, zlen p < 0x10000) (parts_of body n msg).
Proof.
  intros Hb. revert msg. induction n as [|n IH]; intros msg; constructor; [|apply IH].
  apply Hb. unfold zlen, MULTI_PART. rewrite length_take. lia.
Qed.

(** The length of the first body, by the form of the address. *)
Lemma request_body_length is_push addr session msg : address_ok addr →
  zlen (request_body is_push addr session msg) =
  (if zlen msg <? MULTI_PART then 9 + zlen msg else 13) +
  match addr with AString name => zlen name - 3 | _ => 0 end.
Proof.
  intros Ha. unfold request_body. destruct (zlen msg <? MULTI_PART), addr as [a|name|]; try done;
    unfold number_body, string_body; flia.
Qed.

Section receiving.
Context (junk : Z) (is_push : bool) (addr : address) (session : Z) (msg : list Z).
Hypothesis Haddr : address_ok addr.
Hypothesis Hsession : 1 ≤ session ≤ INT_MAX.
Hypothesis Hmsg : zlen msg ≤ INT_MAX.

Lemma receive_small : zlen msg < MULTI_PART →
  receive_request junk [request_body is_push addr session msg] =
  lret (Some (address_value addr, if is_push then 0 else session, is_push, msg)).
Proof using Haddr Hsession.
  intros Hl. pose proof (request_body_length is_push addr session msg Haddr) as Hz. revert Hz.
  unfold request_body. rewrite (proj2 (Z.ltb_lt _ _)) by done. rewrite u32_small by (unfold INT_MAX in *; lia).
  set (s := if is_push then 0 else session).
  assert (Hs : 0 ≤ s < 2 ^ 32) by (unfold s, INT_MAX in *; destruct is_push; lia).
  assert (Hp : push_marks s = if is_push then [RNil; RBoolean true] else []).
  { unfold push_marks, s. destruct is_push; [done|]. by rewrite (proj2 (Z.eqb_neq _ _)) by lia. }
  pose proof (zlen_nonneg msg). intros Hz. unfold receive_request, MULTI_PART, INT_MAX in *.
  destruct addr as [a|name|]; cbn in Haddr; [| |done].
  - rewrite (unpack_number s Hs _ a msg); [|apply reads_self|lia|unfold INT_MAX; lia].
    rewrite Hp. lsimpl. by destruct is_push.
  - rewrite (unpack_string s Hs _ name msg); [|apply reads_self|lia|unfold INT_MAX; lia].
    rewrite Hp. lsimpl. by destruct is_push.
Qed.

Lemma receive_big : MULTI_PART ≤ zlen msg →
  receive_request junk (request_body is_push addr session msg :: request_parts session msg) =
  lret (Some (address_value addr, session, is_push, msg)).
Proof using Haddr Hsession Hmsg.
  intros Hl. pose proof (request_body_length is_push addr session msg Haddr) as Hz. revert Hz.
  unfold request_parts, request_body. rewrite (proj2 (Z.ltb_ge _ _)) by done.
  assert (Hs : 0 ≤ session < 2 ^ 32) by (unfold INT_MAX in *; lia). rewrite u32_small by done.
  set (n := Z.to_nat (part_count (zlen msg))). intros Hz. unfold receive_request.
  assert (Hn : zlen msg ≤ Z.of_nat n * MULTI_PART).
  { pose proof (parts_fit (zlen msg)). unfold n, MULTI_PART in *. lia. }
  assert (Hend : receive_parts junk (zlen msg) (parts_of (request_part session) n msg) = lret (Some msg)).
  { unfold receive_parts, lappend. lsimpl. cbn [app].
    rewrite collect_spec by (done || (destruct n; [unfold MULTI_PART in *; lia|done])). lsimpl. cbn [app].
    pose proof (lconcat_spec junk (pieces_of n msg)) as Hc. rewrite concat_pieces in Hc by done.
    rewrite Hc by done. done. }
  destruct addr as [a|name|]; cbn in Haddr; [| |done].
  - rewrite (unpack_number_big session Hs _ a (zlen msg) is_push); [|apply reads_self|lia|unfold MULTI_PART, INT_MAX in *; lia].
    lsimpl. rewrite Hend. done.
  - rewrite (unpack_string_big session Hs _ name (zlen msg) is_push);
      [|apply reads_self|lia|unfold MULTI_PART, INT_MAX in *; lia|unfold MULTI_PART, INT_MAX in *; lia].
    lsimpl. rewrite Hend. done.
Qed.
End receiving.

(** C39: A request or push with a message of less than 2^31 bytes, to a number or to
    a name of 1 to 255 bytes, is packed into packages that fit the two-byte
    length, one when the message is shorter than 32K and a first package with a
    table of parts when not, and the next session stays in the positive [int]s.
    Unpacking the packages at the other end, appending the parts to a table and
    joining them, gives the address, the session (0 for a push in one package),
    whether it is a push, and the message. *)
Theorem cluster_request_arrives temp junk is_push addr session msg :
  zlen temp = TEMP_LENGTH → address_ok addr → 1 ≤ session ≤ INT_MAX → zlen msg ≤ INT_MAX →
  ∃ first parts,
    packrequest temp is_push addr session (Some msg) (zlen msg) =
      lret (frame first, if session =? INT_MAX then 1 else session + 1,
            if zlen msg <? MULTI_PART then None else Some (frame <$> parts)) ∧
    Forall (λ p, zlen p < 0x10000) (first :: parts) ∧
    receive_request junk (first :: parts) =
      lret (Some (address_value addr,
                  if is_push && (zlen msg <? MULTI_PART) then 0 else session, is_push, msg)).
Proof.
  intros Ht Ha Hs Hl. exists (request_body is_push addr session msg).
  rewrite packrequest_spec by done.
  assert (Hf : zlen (request_body is_push addr session msg) < 0x10000).
  { rewrite request_body_length by done. unfold MULTI_PART.
    destruct (Z.ltb_spec (zlen msg) 0x8000), addr; cbn in Ha; lia. }
  destruct (Z.ltb_spec (zlen msg) MULTI_PART).
  - exists []. rewrite receive_small, andb_true_r by done. split_and!; [done| |done].
    by repeat constructor.
  - exists (request_parts session msg). rewrite receive_big, andb_false_r by done. split_and!; [done| |done].
    constructor; [done|]. apply parts_short. intros. by apply part_body_length.
Qed.

Lemma cluster_request_arrives_witness :
  ∃ first parts,
    packrequest (replicate (Z.to_nat TEMP_LENGTH) 7) true (AString [64; 97]) INT_MAX
      (Some (replicate (Z.to_nat 40000) 1)) 40000 = lret (frame first, 1, Some (frame <$> parts)) ∧
    Forall (λ p, zlen p < 0x10000) (first :: parts) ∧
    receive_request 5 (first :: parts) =
      lret (Some (RString [64; 97], INT_MAX, true, replicate (Z.to_nat 40000) 1)).
Proof.
  assert (Hz : zlen (replicate (Z.to_nat 40000) 1) = 40000) by (vm_compute; reflexivity).
  destruct (cluster_request_arrives (replicate (Z.to_nat TEMP_LENGTH) 7) 5 true (AString [64; 97])
    INT_MAX (replicate (Z.to_nat 40000) 1)) as (first & parts & H1 & H2 & H3).
  - vm_compute. reflexivity.
  - vm_compute. split; discriminate.
  - vm_compute. split; discriminate.
  - rewrite Hz. vm_compute. discriminate.
  - exists first, parts. rewrite Hz in H1, H3. split; [exact H1|]. split; [exact H2|exact H3].
Defined.

(** ** Responses *)

Section response.
Context (temp : list Z) (Htemp : zlen temp = TEMP_LENGTH) (session : Z) (msg : list Z).

Lemma lpackresponse_small (ok : bool) : ok = false ∨ zlen msg ≤ MULTI_PART → zlen msg ≤ INT_MAX →
  lpackresponse temp session ok msg (zlen msg) =
  Ret (inl (frame (le_bytes 4 (u32 session) ++ (if ok then 1 else 0) :: take (Z.to_nat MULTI_PART) msg))).
Proof using Htemp.
  intros Hok Hi. pose proof (zlen_nonneg msg). unfold lpackresponse, u64.
  rewrite Z.mod_small by (unfold INT_MAX in *; lia).
  assert (Hc : ok && (MULTI_PART <? zlen msg) = false).
  { destruct Hok as [->|Hl]; [done|]. rewrite (proj2 (Z.ltb_ge _ _)) by done. apply andb_false_r. }
  rewrite Hc. set (s := if MULTI_PART <? zlen msg then MULTI_PART else zlen msg).
  set (piece := take (Z.to_nat MULTI_PART) msg).
  assert (Hp : zlen piece = s ∧ s ≤ MULTI_PART).
  { unfold piece, s, zlen, MULTI_PART in *. rewrite length_take. destruct (Z.ltb_spec 0x8000 (Z.of_nat (length msg))); lia. }
  assert (Hr : mread msg 0 s = Ret piece).
  { rewrite mread_in; [|done|unfold s, MULTI_PART; destruct (Z.ltb_spec 0x8000 (zlen msg)); lia
                      |unfold s; destruct (Z.ltb_spec MULTI_PART (zlen msg)); lia].
    f_equal. unfold s, piece. change (Z.to_nat 0) with 0%nat. rewrite drop_0. destruct (Z.ltb_spec MULTI_PART (zlen msg)); [done|].
    by rewrite !take_ge by (unfold zlen, MULTI_PART in *; lia). }
  pose proof (zlen_nonneg piece). clearbody s piece. destruct Hp as [Hp Hs].
  fill_header_step. do 4 fill_step. do 2 f_equal. frame_done.
Qed.

Lemma lpackresponse_big : MULTI_PART < zlen msg → zlen msg ≤ INT_MAX →
  lpackresponse temp session true msg (zlen msg) =
  Ret (inr (frame <$> ((le_bytes 4 (u32 session) ++ 2 :: le_bytes 4 (zlen msg)) ::
    parts_of (response_part (u32 session)) (Z.to_nat (part_count (zlen msg))) msg))).
Proof using Htemp.
  intros Hl Hi. unfold lpackresponse, u64. rewrite Z.mod_small by (unfold INT_MAX, MULTI_PART in *; lia).
  rewrite (proj2 (Z.ltb_lt _ _)) by done. cbn [andb].
  rewrite (u32_small (zlen msg)) by (unfold MULTI_PART, INT_MAX in *; lia).
  rewrite (i32_small (part_count (zlen msg))) by (unfold part_count, MULTI_PART, INT_MAX in *; zlia).
  fill_header_step. do 4 fill_step.
  edestruct (parts_loop _ _ msg (response_turn_spec (u32 session) msg) (Z.to_nat (part_count (zlen msg))) 0)
    as (b & Hloop); [by destruct Hf2| |rewrite Z.sub_0_r; apply parts_fit; unfold MULTI_PART in *; lia|].
  { unfold MULTI_PART in *; lia. }
  rewrite Z.sub_0_r in Hloop. by rewrite Hloop.
Qed.
End response.

(** The sender ([lualib/fengnet/socketchannel.lua], [dispatch_by_session], and
    [service/clustersender.lua]) unpacks the packages of a response and collects
    the data while the padding mark is set; what has been collected is joined.
    The session, whether it is an answer or an error, and the data. *)
Fixpoint receive_response (junk : Z) (result : list rvalue) (bodies : list (list Z))
    : outcome (option (Z * bool * list Z)) :=
  match bodies with
  | [] => Ret None
  | body :: bodies =>
      vs ← lunpackresponse body;
      match vs with
      | [RInteger session; RBoolean true; data; RBoolean true] =>
          receive_response junk (result ++ [data]) bodies
      | [RInteger session; RBoolean ok; RString data] =>
          if ok && negb (match result with [] => true | _ => false end) then
            vs ← lconcat junk (result ++ [RString data]);
            Ret (match vs with [RBuffer m; RInteger _] => Some (session, true, m) | _ => None end)
          else Ret (Some (session, ok, data))
      | _ => Ret None
      end
  end.

Section unpacking_response.
Context (session : Z) (Hsession : 0 ≤ session < 2 ^ 32).

Ltac response_start :=
  split_reads; unfold lunpackresponse; (rewrite (proj2 (Z.ltb_ge _ 5)) by lia);
  do 3 read_step; cbn [Z.eqb Pos.eqb orb].

Lemma unpack_response_data body type m : type ∈ [0; 1; 3; 4] →
  reads body 0 (le_bytes 4 session ++ type :: m) → zlen body = 5 + zlen m →
  lunpackresponse body =
  Ret ([RInteger session; RBoolean (negb (type =? 0)); RString m] ++
       if type =? 3 then [RBoolean true] else []).
Proof using Hsession.
  intros Ht Hr Hl. pose proof (zlen_nonneg m).
  repeat (apply elem_of_cons in Ht as [->|Ht]; [by response_start|]). by apply elem_of_nil in Ht.
Qed.

Lemma unpack_response_begin body size :
  reads body 0 (le_bytes 4 session ++ 2 :: le_bytes 4 size) → zlen body = 9 → 0 ≤ size < 2 ^ 32 →
  lunpackresponse body = Ret [RInteger session; RBoolean true; RInteger size; RBoolean true].
Proof using Hsession.
  intros Hr Hl Hs. response_start. rewrite (proj2 (Z.eqb_eq _ 9)) by lia. cbn [negb]. by read_step.
Qed.

Lemma receive_part_response junk more piece bodies result :
  result ≠ [] →
  receive_response junk result (response_part session more piece :: bodies) =
  if more then receive_response junk (result ++ [RString piece]) bodies
  else
    vs ← lconcat junk (result ++ [RString piece]);
    Ret (match vs with [RBuffer m; RInteger _] => Some (session, true, m) | _ => None end).
Proof using Hsession.
  intros Hres. cbn [receive_response].
  rewrite (unpack_response_data _ (if more then 3 else 4) piece);
    [|destruct more; set_solver|apply reads_self|unfold response_part; flia].
  bsimpl. destruct more; [done|]. by destruct result.
Qed.

Lemma receive_parts_response junk n msg result : n ≠ 0%nat → result ≠ [] →
  receive_response junk result (parts_of (response_part session) n msg) =
  (vs ← lconcat junk (result ++ (RString <$> pieces_of n msg));
   Ret (match vs with [RBuffer m; RInteger _] => Some (session, true, m) | _ => None end)).
Proof using Hsession.
  revert msg result. induction n as [|n IH]; intros msg result Hn Hres; [done|].
  unfold pieces_of. rewrite !parts_of_S, receive_part_response by done.
  destruct n as [|n]; [done|]. cbn [Nat.eqb negb]. rewrite IH; [|done|by destruct result].
  rewrite fmap_cons, <-app_assoc. done.
Qed.
End unpacking_response.

(** A response with less than 2^31 bytes is packed into packages that fit the
    two-byte length. Unpacking them at the other end gives the session and
    whether the call succeeded, with the whole message when it did, joined from
    its parts, and with the first 32K bytes of the error message when not. *)
Theorem cluster_response_arrives temp junk session ok msg :
  zlen temp = TEMP_LENGTH → zlen msg ≤ INT_MAX →
  ∃ first parts,
    lpackresponse temp session ok msg (zlen msg) =
      Ret (if ok && (MULTI_PART <? zlen msg) then inr (frame <$> first :: parts)
           else inl (frame first)) ∧
    Forall (λ p, zlen p < 0x10000) (first :: parts) ∧
    receive_response junk [] (first :: parts) =
      Ret (Some (u32 session, ok, if ok then msg else take (Z.to_nat MULTI_PART) msg)).
Proof.
  intros Ht Hi. pose proof (zlen_nonneg msg).
  destruct (ok && (MULTI_PART <? zlen msg)) eqn:Hc.
  - apply andb_true_iff in Hc as [-> Hl%Z.ltb_lt]. rewrite lpackresponse_big by done.
    do 2 eexists. split_and!; [done| |].
    + constructor; [done|]. apply parts_short. intros more piece Hp. unfold response_part. flia.
    + cbn [receive_response].
      rewrite (unpack_response_begin _ (u32_bound session) _ (zlen msg));
        [|apply reads_self|done|unfold MULTI_PART, INT_MAX in *; lia].
      bsimpl. cbn [app]. set (n := Z.to_nat (part_count (zlen msg))).
      assert (Hn : zlen msg ≤ Z.of_nat n * MULTI_PART).
      { pose proof (parts_fit (zlen msg)). unfold n, MULTI_PART in *. lia. }
      rewrite receive_parts_response; [|apply u32_bound| |done].
      * pose proof (lconcat_spec junk (pieces_of n msg)) as Hcat. rewrite concat_pieces in Hcat by done.
        cbn [app]. by rewrite Hcat.
      * destruct n; [unfold MULTI_PART in *; lia|done].
  - assert (Hok : ok = false ∨ zlen msg ≤ MULTI_PART).
    { destruct ok; [right|by left]. by apply Z.ltb_ge in Hc. }
    rewrite lpackresponse_small by done. set (m := take (Z.to_nat MULTI_PART) msg).
    assert (Hm : zlen m ≤ MULTI_PART) by (unfold m, zlen, MULTI_PART; rewrite length_take; lia).
    do 2 eexists. split_and!; [done| |].
    + constructor; [flia|constructor].
    + cbn [receive_response].
      rewrite (unpack_response_data _ (u32_bound session) _ (if ok then 1 else 0) m);
        [|destruct ok; set_solver|apply reads_self|flia].
      destruct ok; bsimpl; cbn [Z.eqb Pos.eqb negb app andb]; [|done].
      unfold m. destruct Hok as [|Hl]; [done|]. rewrite take_ge by (unfold MULTI_PART, zlen in *; lia). done.
Qed.

Lemma cluster_response_arrives_witness :
  ∃ first parts,
    lpackresponse (replicate (Z.to_nat TEMP_LENGTH) 7) 9 true (replicate (Z.to_nat 40000) 1) 40000 =
      Ret (inr (frame <$> first :: parts)) ∧
    Forall (λ p, zlen p < 0x10000) (first :: parts) ∧
    receive_response 5 [] (first :: parts) = Ret (Some (9, true, replicate (Z.to_nat 40000) 1)).
Proof.
  assert (Hz : zlen (replicate (Z.to_nat 40000) 1) = 40000) by (vm_compute; reflexivity).
  destruct (cluster_response_arrives (replicate (Z.to_nat TEMP_LENGTH) 7) 5 9 true
    (replicate (Z.to_nat 40000) 1)) as (first & parts & H1 & H2 & H3).
  - vm_compute. reflexivity.
  - rewrite Hz. vm_compute. discriminate.
  - exists first, parts. rewrite Hz in H1. split; [exact H1|]. split; [exact H2|exact H3].
Defined.

(** ** Any bytes *)

Section any_bytes.
Context (msg : list Z) (Hbytes : bytes msg) (Hsize : zlen msg ≤ INT_MAX).

Lemma mread_ok off n : 0 ≤ off → 0 ≤ n → off + n ≤ zlen msg → ∃ bs, mread msg off n = Ret bs.
Proof using. intros. eexists. by apply mread_in. Qed.

Lemma uint32_ok off : 0 ≤ off → off + 4 ≤ zlen msg → ∃ v, unpack_uint32 msg off = Ret v.
Proof using.
  intros H0 Hl. unfold unpack_uint32. destruct (mread_ok off 4) as [bs ->]; [lia..|]. eauto.
Qed.

Lemma byte_ok off : 0 ≤ off < zlen msg → ∃ b, aget msg off = Ret b ∧ is_byte b.
Proof using Hbytes.
  intros H. destruct (aget_in msg off H) as (b & Hg & Hb). exists b. split; [done|].
  by eapply Forall_lookup_1.
Qed.

Lemma safe_lift_ret {A} (m : outcome A) : (∃ a, m = Ret a) → safe (λ _, True) (lift m).
Proof using. intros [a ->]. rewrite lift_Ret. by apply safe_lret. Qed.

(** Decides a comparison and takes the next read. *)
Ltac any_step :=
  match goal with
  | |- context [if ?a <? ?b then _ else _] => destruct (Z.ltb_spec a b)
  | |- context [if negb (?a =? ?b) then _ else _] => destruct (Z.eqb_spec a b); cbn [negb]
  | |- safe _ (luaL_error _) => apply safe_error
  | |- safe _ invalid_message => apply safe_error
  | |- context [unpack_uint32 msg ?o] => destruct (uint32_ok o) as [? ->]; [lia|lia|bsimpl]
  | |- context [return_buffer msg ?o ?n] => unfold return_buffer
  | |- context [mread msg ?o ?n] => destruct (mread_ok o n) as [? ->]; [lia|lia|lia|bsimpl]
  | |- context [aget msg ?o] => destruct (byte_ok o) as (? & -> & ?); [lia|bsimpl]
  end.

Lemma lunpackrequest_safe : safe (λ _, True) (lunpackrequest msg (zlen msg)).
Proof using All.
  pose proof (zlen_nonneg msg). unfold lunpackrequest. rewrite i32_small by lia.
  destruct (Z.eqb_spec (zlen msg) 0); [apply safe_error|]. any_step. lsimpl.
  repeat match goal with |- safe _ (if ?c then _ else _) => destruct c end.
  all: unfold unpackreq_number, unpackmreq_number, unpackmreq_part, unpacktrace, unpackreq_string,
    unpackmreq_string; repeat any_step; rewrite ?lift_Ret; try (by apply safe_lret);
    lsimpl; unfold is_byte in *; repeat any_step; by apply safe_lret.
Qed.

Lemma lunpackresponse_safe : ∃ vs, lunpackresponse msg = Ret vs.
Proof using All.
  unfold lunpackresponse. any_step; [eauto|].
  destruct (uint32_ok 0) as [? ->]; [lia|lia|bsimpl]. destruct (byte_ok 4) as (? & -> & ?); [lia|bsimpl].
  repeat first [any_step | match goal with |- context [if ?c then _ else _] => destruct c end]; eauto.
Qed.
End any_bytes.

(** Unpacking any bytes as a request or as a response, a package of at most
    2^31 - 1 bytes, ends inside the package: [unpackrequest] gives values or
    raises an error of Lua, [unpackresponse] gives values or nothing. *)
Theorem cluster_unpack_safe msg : bytes msg → zlen msg ≤ INT_MAX →
  safe (λ _, True) (lunpackrequest msg (zlen msg)) ∧ ∃ vs, lunpackresponse msg = Ret vs.
Proof. intros Hb Hl. split; [by apply lunpackrequest_safe|by apply lunpackresponse_safe]. Qed.

Lemma cluster_unpack_safe_witness :
  safe (λ _, True) (lunpackrequest [0x81; 200; 1] 3) ∧ ∃ vs, lunpackresponse [0x81; 200; 1] = Ret vs.
Proof.
  apply (cluster_unpack_safe [0x81; 200; 1]).
  - by apply (bool_decide_unpack _).
  - vm_compute. discriminate.
Defined.

(** Strings of Lua are shorter than 2^63 bytes. *)
Definition strings_ok (table : list rvalue) : Prop := ∀ p, RString p ∈ table → zlen p < 2 ^ 63.

(** The buffer of [concat] keeps its size; the result is [sz] bytes or nothing. *)
Lemma concat_loop_safe table sz fuel buff idx offset :
  strings_ok table → 0 ≤ sz ≤ INT_MAX → zlen buff = sz → 0 ≤ offset ≤ sz → 1 ≤ idx →
  (length (drop (Z.to_nat (idx - 1)) table) < fuel)%nat →
  ∃ r, loop fuel (concat_turn table sz) (buff, idx, offset) = Ret r ∧
    ∀ bs, r = Some bs → zlen bs = sz.
Proof.
  intros Hok Hsz. revert buff idx offset.
  induction fuel as [|fuel IH]; intros buff idx offset Hb Ho Hi Hf; [lia|].
  rewrite loop_S. unfold concat_turn at 2. cbv beta iota.
  assert (Hend : ∃ r, Ret (if negb (offset =? sz) then None else Some buff) = Ret r ∧
    ∀ bs, r = Some bs → zlen bs = sz).
  { eexists. split; [done|]. intros bs. by destruct (offset =? sz); intros [= <-]. }
  destruct (table !! Z.to_nat (idx - 1)) as [[| | |p|]|] eqn:Hlk; bsimpl; try exact Hend.
  pose proof (zlen_nonneg p). pose proof (Hok p ltac:(by eapply list_elem_of_lookup_2)).
  unfold u64. rewrite !Z.mod_small by (unfold INT_MAX in *; lia).
  destruct (Z.ltb_spec sz (zlen p + offset)) as [|Hle]; bsimpl; [by eexists|].
  destruct (mwrite_spec buff offset p) as (buff' & -> & Hs & _); [lia|lia|]. bsimpl.
  rewrite i32_small by lia. apply IH; [by rewrite (so_zlen _ _ _ _ Hs)|lia|lia|].
  rewrite length_drop in *. apply lookup_lt_Some in Hlk. lia.
Qed.

(** [concat] of a table whose first value is a size gives, when the size is not
    negative as an [int], nothing or a buffer of just that size, and stays inside
    the buffer for any other values in the table. A size from 2^31 on, which a
    first package can ask for, becomes a negative [int]; the check of the room
    compares it as a [size_t] and passes, and the first part is copied into
    memory that there is not. *)
Theorem concat_checks_size junk v table : strings_ok table →
  (0 ≤ i32 v →
     lconcat junk (RInteger v :: table) = Ret [] ∨
     ∃ bs, lconcat junk (RInteger v :: table) = Ret [RBuffer bs; RInteger (zlen bs)] ∧ zlen bs = i32 v) ∧
  (∀ x p, i32 v < 0 → table !! 0%nat = Some (RString (x :: p)) → zlen (x :: p) ≤ INT_MAX →
     lconcat junk (RInteger v :: table) = Undef).
Proof.
  intros Hok. unfold lconcat. cbn [lookup list_lookup]. set (sz := i32 v).
  assert (Hsz : INT_MIN ≤ sz ≤ INT_MAX) by (unfold sz, i32, INT_MIN, INT_MAX; zlia).
  split.
  - intros H0. destruct (concat_loop_safe (RInteger v :: table) sz (S (length (RInteger v :: table)))
      (replicate (Z.to_nat sz) junk) 2 0) as (r & -> & Hr); [|lia| |lia|lia|rewrite length_drop; cbn; lia|].
    + intros p [|Hp]%elem_of_cons; [done|by apply Hok].
    + unfold zlen. rewrite length_replicate. lia.
    + destruct r as [bs|]; [right|by left]. exists bs. by rewrite (Hr bs).
  - intros x p Hneg Hp Hl. cbn [length]. rewrite loop_S. unfold concat_turn at 2. cbv beta iota.
    change ((RInteger v :: table) !! Z.to_nat (2 - 1)) with (table !! 0%nat). rewrite Hp.
    pose proof (zlen_nonneg p). rewrite zlen_cons in *. unfold u64, INT_MAX, INT_MIN in *.
    rewrite (proj2 (Z.ltb_ge _ _)) by zlia.
    replace (Z.to_nat sz) with 0%nat by lia. unfold mwrite. change (zlen (replicate 0 junk)) with 0.
    rewrite (proj2 (Z.leb_gt (0 + zlen (x :: p)) 0)) by (rewrite zlen_cons; lia). done.
Qed.

Lemma concat_checks_size_witness :
  strings_ok [RString [1; 2]] ∧ lconcat 0 [RInteger (2 ^ 31); RString [1; 2]] = Undef ∧
  (lconcat 0 [RInteger 2; RString [1; 2]] = Ret [] ∨
   ∃ bs, lconcat 0 [RInteger 2; RString [1; 2]] = Ret [RBuffer bs; RInteger (zlen bs)] ∧ zlen bs = 2).
Proof.
  assert (Hok : strings_ok [RString [1; 2]]).
  { intros p [[= ->]|[]%elem_of_nil]%elem_of_cons. vm_compute. reflexivity. }
  split; [exact Hok|]. split.
  - destruct (concat_checks_size 0 (2 ^ 31) [RString [1; 2]] Hok) as [_ H].
    apply (H 1 [2]); [vm_compute; reflexivity|reflexivity|vm_compute; discriminate].
  - destruct (concat_checks_size 0 2 [RString [1; 2]] Hok) as [H _].
    apply H. vm_compute. discriminate.
Defined.
