(* ===== verification/Bson.v ===== *)
(** * BSON

    The model of [lualib-src/lua-bson.cpp]: documents of MongoDB are made from tables
    of Lua ([lencode], [lencode_order]) and read back ([ldecode]); numbers of a fixed size can be
    replaced in place ([lmakeindex], [lreplace]).

    A table is what the Lua API shows of it: what [__len] and [__pairs] give, when
    there are such metamethods, the elements that [lua_geti] gives from 1 on, the length
    and the pairs in the order of [lua_next]. A string that starts with a zero and the code
    of a type stands for a value that Lua has no type for, like a date. What decoding
    pushes is a [tree]. A pointer is an index into the block of bytes it points to; the bytes
    of memory that was not written are [junk]. *)
From S2P Require Import Prelude Text Lua.

Local Open Scope Z_scope.

(** ** Data *)

Definition DEFAULT_CAP : Z := 64.
Definition MAX_DEPTH : Z := 128.

Definition BSON_REAL : Z := 1.
Definition BSON_STRING : Z := 2.
Definition BSON_DOCUMENT : Z := 3.
Definition BSON_ARRAY : Z := 4.
Definition BSON_BINARY : Z := 5.
Definition BSON_OBJECTID : Z := 7.
Definition BSON_BOOLEAN : Z := 8.
Definition BSON_DATE : Z := 9.
Definition BSON_NULL : Z := 10.
Definition BSON_REGEX : Z := 11.
Definition BSON_DBPOINTER : Z := 12.
Definition BSON_JSCODE : Z := 13.
Definition BSON_SYMBOL : Z := 14.
Definition BSON_CODEWS : Z := 15.
Definition BSON_INT32 : Z := 16.
Definition BSON_TIMESTAMP : Z := 17.
Definition BSON_INT64 : Z := 18.
Definition BSON_MINKEY : Z := 255.
Definition BSON_MAXKEY : Z := 127.

Definition BSON_TYPE_SHIFT : Z := 5.

(** A number of Lua that is no integer is the 64 bits of a [double]; a userdata is its
    bytes. *)
Inductive lvalue :=
| VNil
| VBoolean (b : bool)
| VInteger (v : Z)
| VReal (bits : Z)
| VString (s : list Z)
| VUserdata (bs : list Z)
| VTable (t : positive)
| VOther.

#[export] Instance lvalue_eq_dec : EqDecision lvalue.
Proof. solve_decision. Defined.

Record ltable := MkTable {
  t_len : option lvalue;
  t_pairs : option (list (lvalue * lvalue));
  t_elements : list lvalue;
  t_rawlen : Z;
  t_next : list (lvalue * lvalue)
}.

(** The bytes at [ptr] are a list of length [cap]. *)
Record bson := MkBson { size : Z; cap : Z; ptr : list Z }.

Definition i8 (z : Z) : Z := (z + 128) mod 256 - 128.

Section encode.
Context (junk : Z → Z).

Definition fresh_bytes (n : Z) : list Z := (λ i, junk (Z.of_nat i)) <$> seq 0 (Z.to_nat n).

Definition bson_create : bson := MkBson 0 DEFAULT_CAP (fresh_bytes DEFAULT_CAP).

(** ** Writing *)

Definition reserve_turn (need cap : Z) : outcome (Z + Z) :=
  cap ← cint (cap * 2);
  if cap <=? need then Ret (inl cap) else Ret (inr cap).

(** The buffer in the struct, of [DEFAULT_CAP] bytes, is copied as far as it is used. *)
Definition bson_reserve (b : bson) (sz : Z) : outcome bson :=
  need ← cint (size b + sz);
  if need <=? cap b then Ret b
  else
    cap' ← loop 32 (reserve_turn need) (cap b);
    old ← (if cap b =? DEFAULT_CAP then mread (ptr b) 0 (size b) else Ret (ptr b));
    p ← mwrite (fresh_bytes cap') 0 old;
    Ret (MkBson (size b) cap' p).

(** [b->ptr[b->size++]] for each byte. *)
Definition store (b : bson) (bs : list Z) : outcome bson :=
  p ← asets (ptr b) (size b) bs;
  sz ← cint (size b + zlen bs);
  Ret (MkBson sz (cap b) p).

(** [memcpy] to the end, with [sz] more bytes in use. *)
Definition copy_in (b : bson) (src : list Z) (sz : Z) : outcome bson :=
  bs ← mread src 0 sz;
  p ← mwrite (ptr b) (size b) bs;
  Ret (MkBson (i32 (size b + sz)) (cap b) p).

Definition write_byte (b : bson) (v : Z) : outcome bson := b ← bson_reserve b 1; store b [u8 v].
Definition write_int32 (b : bson) (v : Z) : outcome bson := b ← bson_reserve b 4; store b (le_bytes 4 (u32 v)).
Definition write_length (b : bson) (v off : Z) : outcome bson :=
  p ← asets (ptr b) off (le_bytes 4 (u32 v));
  Ret (MkBson (size b) (cap b) p).
Definition write_int64 (b : bson) (v : Z) : outcome bson := b ← bson_reserve b 8; store b (le_bytes 8 (u64 v)).
(** [v] is the bits of the [double]. *)
Definition write_double (b : bson) (v : Z) : outcome bson := b ← bson_reserve b 8; store b (le_bytes 8 v).

Definition MAXUNICODE : Z := 0x10FFFF.
Definition limits : list Z := [0xFF; 0x7F; 0x7FF; 0xFFFF].

(** The loop over the bytes that follow the first; [None] stands for the result 0. [s] is the
    memory that is read, [d] the memory that is written, from [off] on. *)
Definition utf8_turn (s : list Z) (off limit : Z) (st : Z * Z * Z * list Z)
    : outcome (Z * Z * Z * list Z + option (Z * Z * Z * list Z)) :=
  let '(c, res, count, d) := st in
  if Z.land c 0x40 =? 0 then Ret (inr (Some (c, res, count, d)))
  else
    let count := count + 1 in
    x ← aget s count;
    let cc := i8 x in
    if (limit <=? count) || negb (Z.land cc 0xC0 =? 0x80) then Ret (inr None)
    else
      d ← aset d (off + count) x;
      Ret (inl (u32 (Z.shiftl c 1), Z.lor (u32 (Z.shiftl res 6)) (Z.land cc 0x3F), count, d)).

(** The number of bytes, 0 when they are no character, and the memory. A byte has 8 bits
    to shift. *)
Definition utf8_copy (s d : list Z) (off limit : Z) : outcome (Z * list Z) :=
  x ← aget s 0;
  let c := u32 (i8 x) in
  if limit <? 1 then Ret (0, d)
  else
    d ← aset d off x;
    if c <? 0x80 then Ret (1, d)
    else
      r ← loop 9 (utf8_turn s off limit) (c, 0, 0, d);
      match r with
      | None => Ret (0, d)
      | Some (c, res, count, d) =>
          if 32 <=? count * 5 then Undef
          else
            let res := Z.lor res (u32 (Z.shiftl (Z.land c 0x7F) (count * 5))) in
            if (3 <? count) || (MAXUNICODE <? res) then Ret (0, d)
            else
              limit ← aget limits count;
              Ret (if res <=? limit then 0 else count + 1, d)
      end.

(** [src] is left, [dst] an index of the buffer. *)
Definition string_turn (st : list Z * Z * Z * list Z) : luaM (list Z * Z * Z * list Z + list Z) :=
  let '(src, dst, n, p) := st in
  if n =? 0 then lret (inr p)
  else
    '(c, p) ⇐ lift (utf8_copy src p dst n);
    if c =? 0 then luaL_error "Invalid utf8 string"
    else lret (inl (drop (Z.to_nat c) src, dst + c, n - c, p)).

(** [key] is the memory from the pointer on, [sz] a [size_t]. *)
Definition write_string (b : bson) (key : list Z) (sz : Z) : luaM bson :=
  b ⇐ lift (bson_reserve b (i32 (sz + 1)));
  p ⇐ lloop (2 + length key) string_turn (key, size b, sz, ptr b);
  p ⇐ lift (aset p (size b + sz) 0);
  lret (MkBson (i32 (size b + sz + 1)) (cap b) p).

(** The place of a length, and the buffer. *)
Definition reserve_length (b : bson) : outcome (Z * bson) :=
  let sz := size b in
  b ← bson_reserve b 4;
  size' ← cint (size b + 4);
  Ret (sz, MkBson size' (cap b) (ptr b)).

(** A string of Lua ends with a zero that is not counted. *)
Definition lua_chars (s : list Z) : list Z := s ++ [0].

(** [key] is a string and what follows it in memory. *)
Notation key_t := (list Z * list Z)%type (only parsing).
Definition append_key (b : bson) (type : Z) (key : key_t) : luaM bson :=
  b ⇐ lift (write_byte b type);
  write_string b (key.1 ++ key.2) (zlen key.1).

Definition is_32bit (v : Z) : bool := (INT_MIN <=? v) && (v <=? INT_MAX).

Definition append_integer (b : bson) (key : key_t) (i : Z) : luaM bson :=
  if is_32bit i then b ⇐ append_key b BSON_INT32 key; lift (write_int32 b i)
  else b ⇐ append_key b BSON_INT64 key; lift (write_int64 b i).

Definition append_real (b : bson) (key : key_t) (d : Z) : luaM bson :=
  b ⇐ append_key b BSON_REAL key; lift (write_double b d).

(** [buffer] starts with the subtype. *)
Definition write_binary (b : bson) (buffer : list Z) (sz : Z) : outcome bson :=
  '(length, b) ← reserve_length b;
  b ← bson_reserve b (i32 sz);
  b ← copy_in b buffer sz;
  write_length b (i32 (sz - 1)) length.

(** How many bytes before the end of [str] come behind the last zero in it. [len] is a [size_t]. *)
Definition regex_turn (str : list Z) (len i : Z) : outcome (Z + Z) :=
  if i <? len then
    x ← aget str (u64 (len - i - 1));
    if x =? 0 then Ret (inr i) else Ret (inl (i + 1))
  else Ret (inr i).

Definition append_regex (b : bson) (str : list Z) (len : Z) : luaM bson :=
  i ⇐ lift (loop (2 + length str) (regex_turn str len) 0);
  b ⇐ write_string b str (u64 (len - i - 1));
  write_string b (drop (Z.to_nat (len - i)) str) i.

(** The value of a string of [len] bytes whose first byte is zero; [str] is the memory behind the
    type [subt]. *)
Definition object_value (b : bson) (subt : Z) (str : list Z) (len : Z) : luaM bson :=
  let raw := b ⇐ lift (bson_reserve b (i32 (len - 2))); lift (copy_in b str (len - 2)) in
  if subt =? BSON_BINARY then lift (write_binary b str (len - 2))
  else if subt =? BSON_OBJECTID then
    if negb (len =? 2 + 12) then luaL_error "Invalid object id %s" else raw
  else if (subt =? BSON_JSCODE) || (subt =? BSON_DBPOINTER) || (subt =? BSON_SYMBOL) || (subt =? BSON_CODEWS) then raw
  else if subt =? BSON_DATE then
    if negb (len =? 2 + 4) then luaL_error "Invalid date"
    else lift (ts ← mread str 0 4; write_int64 b (le_value ts * 1000))
  else if subt =? BSON_TIMESTAMP then
    if negb (len =? 2 + 8) then luaL_error "Invalid timestamp"
    else lift (inc ← mread str 0 4; ts ← mread str 4 4;
               b ← write_int32 b (i32 (le_value inc)); write_int32 b (i32 (le_value ts)))
  else if subt =? BSON_REGEX then append_regex b str (u64 (len - 3))
  else if (subt =? BSON_MINKEY) || (subt =? BSON_MAXKEY) || (subt =? BSON_NULL) then lret b
  else if subt =? BSON_INT64 then
    if negb (len =? 2 + 8) then luaL_error "Invalid int64"
    else lift (v ← mread str 0 8; write_int64 b (i64 (le_value v)))
  else luaL_error "Invalid subtype %d".

(** [s] has two bytes at least. *)
Definition append_object (b : bson) (key : key_t) (s : list Z) : luaM bson :=
  subt ⇐ lift (aget s 1);
  b ⇐ append_key b subt key;
  object_value b subt (drop 2 (lua_chars s)) (zlen s).

Definition append_string (b : bson) (key : key_t) (str : list Z) : luaM bson :=
  b ⇐ append_key b BSON_STRING key;
  '(off, b) ⇐ lift (reserve_length b);
  b ⇐ write_string b (lua_chars str) (zlen str);
  lift (write_length b (i32 (zlen str + 1)) off).

(** A document: its size is its first four bytes. *)
Definition append_userdata (b : bson) (key : key_t) (doc : list Z) : luaM bson :=
  b ⇐ append_key b BSON_DOCUMENT key;
  n ⇐ lift (mread doc 0 4);
  let sz := i32 (le_value n) in
  b ⇐ lift (bson_reserve b sz);
  lift (copy_in b doc sz).

Definition bson_numstr (i : Z) : key_t := (decimal (u32 i), [0]).

(** ** Tables *)

Section tables.
(** [append] appends a value that is in a table. *)
Context (append : bson → key_t → lvalue → luaM bson).

(** After the last of [elements] comes nil. *)
Fixpoint pack_elements (b : bson) (elements : list lvalue) (i len : Z) : luaM bson :=
  if len <? i then lret b
  else
    match elements with
    | [] => append b (bson_numstr (i - 1)) VNil
    | v :: elements => b ⇐ append b (bson_numstr (i - 1)) v; pack_elements b elements (i + 1) len
    end.

(** [fill] between a length and the end of a document. *)
Definition pack_document (b : bson) (fill : bson → luaM bson) : luaM bson :=
  '(length, b) ⇐ lift (reserve_length b);
  b ⇐ fill b;
  b ⇐ lift (write_byte b 0);
  lift (write_length b (i32 (size b - length)) length).

Definition pack_array (b : bson) (tbl : ltable) (len : Z) : luaM bson :=
  pack_document b (λ b, pack_elements b (t_elements tbl) 1 len).

Definition pack_dict_data (kv : lvalue * lvalue) (b : bson) : luaM bson :=
  match kv.1 with
  | VInteger _ | VReal _ => luaL_error "Bson dictionary's key can't be number"
  | VString key => append b (key, [0]) kv.2
  | _ => luaL_error "Invalid key type : %s"
  end.

Definition pack_simple_dict (b : bson) (tbl : ltable) : luaM bson :=
  pack_document b (lfold pack_dict_data (t_next tbl)).

Definition pack_meta_dict (b : bson) (pairs : list (lvalue * lvalue)) : luaM bson :=
  pack_document b (lfold pack_dict_data pairs).

Definition is_rawarray (tbl : ltable) : bool :=
  match t_next tbl with
  | [] => false
  | (k, _) :: _ =>
      let firstkey := match k with VInteger i => i | _ => 0 end in
      if firstkey <=? 1 then 0 <? firstkey else firstkey <=? t_rawlen tbl
  end.

Definition append_table (b : bson) (key : key_t) (tbl : ltable) : luaM bson :=
  match t_len tbl with
  | Some len =>
      match len with
      | VInteger len => b ⇐ append_key b BSON_ARRAY key; pack_array b tbl (u64 len)
      | _ => luaL_error "__len should return integer"
      end
  | None =>
      match t_pairs tbl with
      | Some pairs => b ⇐ append_key b BSON_DOCUMENT key; pack_meta_dict b pairs
      | None =>
          if is_rawarray tbl then b ⇐ append_key b BSON_ARRAY key; pack_array b tbl (t_rawlen tbl)
          else b ⇐ append_key b BSON_DOCUMENT key; pack_simple_dict b tbl
      end
  end.
End tables.

Context (heap : gmap positive ltable).

(** The [depth] of the code is [MAX_DEPTH - room]. *)
Fixpoint append_one (room : nat) (b : bson) (key : key_t) (v : lvalue) : luaM bson :=
  match v with
  | VInteger i => append_integer b key i
  | VReal d => append_real b key d
  | VUserdata doc => append_userdata b key doc
  | VString s =>
      if (1 <? zlen s) && bool_decide (head s = Some 0) then append_object b key s else append_string b key s
  | VTable t =>
      match room with
      | O => luaL_error "Too depth while encoding bson"
      | S room =>
          match heap !! t with
          | Some tbl => append_table (append_one room) b key tbl
          | None => Undef
          end
      end
  | VBoolean x => b ⇐ append_key b BSON_BOOLEAN key; lift (write_byte b (if x then 1 else 0))
  | VNil => luaL_error "Bson array has a hole (nil), Use bson.null instead"
  | VOther => luaL_error "Invalid value type : %s"
  end.

Notation append_top := (append_one (Z.to_nat MAX_DEPTH)).

(** The text that [lua_tolstring] makes of a number that is no integer. *)
Context (number_text : Z → list Z).
Definition lua_tolstring (v : lvalue) : option (list Z) :=
  match v with
  | VString s => Some s
  | VInteger i => Some (decimal i)
  | VReal d => Some (number_text d)
  | _ => None
  end.

Fixpoint ordered_pairs (b : bson) (args : list lvalue) : luaM bson :=
  match args with
  | k :: v :: args =>
      match lua_tolstring k with
      | None => luaL_error "Argument %d need a string"
      | Some key => b ⇐ append_top b (key, [0]) v; ordered_pairs b args
      end
  | _ => lret b
  end.

(** The first argument is the first key. *)
Definition pack_ordered_dict (b : bson) (args : list lvalue) : luaM bson :=
  pack_document b (λ b, ordered_pairs b args).

(** The new userdata has the bytes that are in use. *)
Definition new_userdata (b : bson) : luaM (list Z) := lift (mread (ptr b) 0 (size b)).

Definition encode_bson (b : bson) (tbl : ltable) : luaM (list Z) :=
  b ⇐ match t_pairs tbl with
      | Some pairs => pack_meta_dict append_top b pairs
      | None => pack_simple_dict append_top b tbl
      end;
  new_userdata b.

Definition lencode (v : lvalue) : luaM (list Z) :=
  match v with
  | VTable t => match heap !! t with Some tbl => encode_bson bson_create tbl | None => Undef end
  | _ => luaL_error "table expected"
  end.

Definition encode_bson_byorder (b : bson) (args : list lvalue) : luaM (list Z) :=
  b ⇐ pack_ordered_dict b args; new_userdata b.

Definition lencode_order (args : list lvalue) : luaM (list Z) :=
  if negb (Nat.even (length args)) then luaL_error "Invalid ordered dict"
  else encode_bson_byorder bson_create args.
End encode.

(** ** Reading *)

Record bson_reader := MkReader { r_ptr : Z; r_size : Z }.

Inductive tkey := KInteger (i : Z) | KString (s : list Z).

(** What decoding makes; a table is the pairs that are set, in their order. *)
Local Unset Elimination Schemes.
Inductive tree :=
| TBoolean (b : bool)
| TInteger (v : Z)
| TReal (bits : Z)
| TString (s : list Z)
| TTable (sets : list (tkey * tree)).
Local Set Elimination Schemes.

Section decode.
(** The bytes that the pointers go into. *)
Context (data : list Z).

Definition get_length (off : Z) : outcome Z := bs ← mread data off 4; Ret (i32 (le_value bs)).

Definition check_reader (br : bson_reader) (sz : Z) : luaM unit :=
  if r_size br <? sz then luaL_error "Invalid bson block (%d:%d)" else lret tt.

(** The next [sz] bytes; the pointer to them and the reader behind them. *)
Definition read_bytes (br : bson_reader) (sz : Z) : luaM (Z * bson_reader) :=
  _ ⇐ check_reader br sz;
  size' ⇐ lift (cint (r_size br - sz));
  lret (r_ptr br, MkReader (r_ptr br + sz) size').

Definition read_byte (br : bson_reader) : luaM (Z * bson_reader) :=
  _ ⇐ check_reader br 1;
  r ⇐ lift (aget data (r_ptr br));
  lret (r, MkReader (r_ptr br + 1) (r_size br - 1)).

(** A word of [n] bytes. *)
Definition read_word (n : Z) (br : bson_reader) : luaM (Z * bson_reader) :=
  _ ⇐ check_reader br n;
  bs ⇐ lift (mread data (r_ptr br) n);
  lret (le_value bs, MkReader (r_ptr br + n) (r_size br - n)).

Definition read_int32 (br : bson_reader) : luaM (Z * bson_reader) := '(v, br) ⇐ read_word 4 br; lret (i32 v, br).
Definition read_int64 (br : bson_reader) : luaM (Z * bson_reader) := '(v, br) ⇐ read_word 8 br; lret (i64 v, br).
Definition read_double (br : bson_reader) : luaM (Z * bson_reader) := read_word 8 br.

Definition cstring_turn (br : bson_reader) (i : Z) : luaM (Z + Z) :=
  if i =? r_size br then luaL_error "Invalid bson block : cstring"
  else
    x ⇐ lift (aget data (r_ptr br + i));
    if x =? 0 then lret (inr i) else lret (inl (i + 1)).

(** The string, without the zero at its end. *)
Definition read_cstring (br : bson_reader) : luaM (list Z * bson_reader) :=
  i ⇐ lloop (2 + length data) (cstring_turn br) 0;
  s ⇐ lift (mread data (r_ptr br) i);
  lret (s, MkReader (r_ptr br + (i + 1)) (r_size br - (i + 1))).

(** [luaL_addlstring] of a [size_t]: no memory for a negative [int]. *)
Definition lua_lstring (off len : Z) : luaM (list Z) :=
  if len <? 0 then luaL_error "not enough memory" else lift (mread data off len).

Definition make_object (type off len : Z) : luaM tree :=
  s ⇐ lua_lstring off len; lret (TString (0 :: type :: s)).

(** The fields of [read]: a type byte, a key, and a value. *)
Definition unpack_key (array : bool) (key : list Z) : tkey :=
  if array then KInteger (i32 (strtol10 key + 1)) else KString key.

(** [read] gives the value of a type and the reader behind it. *)
Definition unpack_field (read : Z → bson_reader → luaM (tree * bson_reader)) (array : bool)
    (st : bson_reader * list (tkey * tree)) : luaM (bson_reader * list (tkey * tree) + list (tkey * tree)) :=
  let '(t, sets) := st in
  if r_size t =? 0 then lret (inr sets)
  else
    '(bt, t) ⇐ read_byte t;
    '(key, t) ⇐ read_cstring t;
    '(v, t) ⇐ read bt t;
    lret (inl (t, sets ++ [(unpack_key array key, v)])).

(** A value that is no document. *)
Definition unpack_simple (bt : Z) (t : bson_reader) : luaM (tree * bson_reader) :=
  let raw extra off_extra :=
    let p := r_ptr t in
    '(sz, t) ⇐ read_int32 t;
    n ⇐ lift (cint (sz + extra));
    '(_, t) ⇐ read_bytes t n;
    len ⇐ lift (cint (sz + off_extra));
    v ⇐ make_object bt p len; lret (v, t) in
  if bt =? BSON_REAL then '(d, t) ⇐ read_double t; lret (TReal d, t)
  else if bt =? BSON_BOOLEAN then '(x, t) ⇐ read_byte t; lret (TBoolean (negb (x =? 0)), t)
  else if bt =? BSON_STRING then
    '(sz, t) ⇐ read_int32 t;
    if sz <=? 0 then luaL_error "Invalid bson string , length = %d"
    else '(p, t) ⇐ read_bytes t sz; s ⇐ lua_lstring p (sz - 1); lret (TString s, t)
  else if bt =? BSON_BINARY then
    '(sz, t) ⇐ read_int32 t;
    '(subtype, t) ⇐ read_byte t;
    '(p, t) ⇐ read_bytes t sz;
    s ⇐ lua_lstring p sz;
    lret (TString (0 :: BSON_BINARY :: subtype :: s), t)
  else if bt =? BSON_OBJECTID then
    '(p, t) ⇐ read_bytes t 12; v ⇐ make_object BSON_OBJECTID p 12; lret (v, t)
  else if bt =? BSON_DATE then
    '(date, t) ⇐ read_int64 t;
    lret (TString (0 :: BSON_DATE :: le_bytes 4 (u32 (Z.quot date 1000))), t)
  else if (bt =? BSON_MINKEY) || (bt =? BSON_MAXKEY) || (bt =? BSON_NULL) then lret (TString [0; bt], t)
  else if bt =? BSON_REGEX then
    '(r1, t) ⇐ read_cstring t;
    '(r2, t) ⇐ read_cstring t;
    lret (TString (0 :: BSON_REGEX :: r1 ++ 0 :: r2 ++ [0]), t)
  else if bt =? BSON_INT32 then '(i, t) ⇐ read_int32 t; lret (TInteger i, t)
  else if bt =? BSON_TIMESTAMP then
    '(inc, t) ⇐ read_int32 t;
    '(ts, t) ⇐ read_int32 t;
    lret (TString (0 :: BSON_TIMESTAMP :: le_bytes 4 (u32 inc) ++ le_bytes 4 (u32 ts)), t)
  else if bt =? BSON_INT64 then '(i, t) ⇐ read_int64 t; lret (TInteger i, t)
  else if bt =? BSON_DBPOINTER then raw 12 16
  else if (bt =? BSON_JSCODE) || (bt =? BSON_SYMBOL) then raw 0 4
  else if bt =? BSON_CODEWS then raw (-4) 0
  else luaL_error "Invalid bson type : %d".

(** The stack of Lua has room for [levels] tables in each other. *)
Fixpoint unpack_dict (levels : nat) (br : bson_reader) (array : bool) : luaM (tree * bson_reader) :=
  match levels with
  | O => luaL_error "stack overflow"
  | S levels =>
      '(sz, br) ⇐ read_int32 br;
      n ⇐ lift (cint (sz - 5));
      '(bytes, br) ⇐ read_bytes br n;
      '(end_, br) ⇐ read_byte br;
      if negb (end_ =? 0) then luaL_error "Invalid document end"
      else
        let read bt t :=
          if bt =? BSON_DOCUMENT then unpack_dict levels t false
          else if bt =? BSON_ARRAY then unpack_dict levels t true
          else unpack_simple bt t in
        sets ⇐ lloop (2 + length data) (unpack_field read array) (MkReader bytes n, []);
        lret (TTable sets, br)
  end.

(** The document at the start of [data]; its length is believed. *)
Definition ldecode (levels : nat) : luaM tree :=
  len ⇐ lift (get_length 0);
  '(t, _) ⇐ unpack_dict levels (MkReader 0 len) false;
  lret t.

(** ** Replacing numbers in place *)

(** The size of a value that can be replaced, or the reader behind another one. *)
Definition field_size (bt : Z) (br : bson_reader) : luaM (Z * bson_reader) :=
  let skip extra := '(sz, br) ⇐ read_int32 br; n ⇐ lift (cint (sz + extra)); '(_, br) ⇐ read_bytes br n; lret (0, br) in
  if (bt =? BSON_INT64) || (bt =? BSON_TIMESTAMP) || (bt =? BSON_DATE) || (bt =? BSON_REAL) then lret (8, br)
  else if bt =? BSON_BOOLEAN then lret (1, br)
  else if (bt =? BSON_JSCODE) || (bt =? BSON_SYMBOL) || (bt =? BSON_STRING) then skip 0
  else if (bt =? BSON_CODEWS) || (bt =? BSON_ARRAY) || (bt =? BSON_DOCUMENT) then skip (-4)
  else if bt =? BSON_BINARY then skip 1
  else if bt =? BSON_OBJECTID then lret (12, br)
  else if (bt =? BSON_MINKEY) || (bt =? BSON_MAXKEY) || (bt =? BSON_NULL) then lret (0, br)
  else if bt =? BSON_REGEX then
    '(_, br) ⇐ read_cstring br; '(_, br) ⇐ read_cstring br; lret (0, br)
  else if bt =? BSON_INT32 then lret (4, br)
  else if bt =? BSON_DBPOINTER then skip 12
  else luaL_error "Invalid bson type : %d".

(** [<<] of an [int] that is not negative. *)
Definition shl_int (a n : Z) : outcome Z :=
  if (a <? 0) || (2 ^ 32 <=? Z.shiftl a n) then Undef else Ret (i32 (Z.shiftl a n)).

Definition index_turn (st : bson_reader * list (list Z * Z)) : luaM (bson_reader * list (list Z * Z) + list (list Z * Z)) :=
  let '(br, index) := st in
  if r_size br =? 0 then lret (inr index)
  else
    '(bt, br) ⇐ read_byte br;
    '(key, br) ⇐ read_cstring br;
    '(n, br) ⇐ field_size bt br;
    if 0 <? n then
      place ⇐ lift (shl_int (r_ptr br) BSON_TYPE_SHIFT);
      '(_, br) ⇐ read_bytes br n;
      lret (inl (br, index ++ [(key, Z.lor bt place)]))
    else lret (inl (br, index)).

(** The table that is kept with the userdata, as the pairs that are set. *)
Definition lmakeindex : luaM (list (list Z * Z)) :=
  len ⇐ lift (get_length 0);
  n ⇐ lift (cint (len - 5));
  lloop (2 + length data) index_turn (MkReader 4 n, []).
End decode.

Section replace.
Context (junk : Z → Z).
(** [luaL_checknumber]: the bits of a number, if the value is one. *)
Context (checknumber : lvalue → option Z).

Definition replace_object (type : Z) (v : lvalue) (bs : bson) : luaM bson :=
  match v with
  | VString data =>
      let len := zlen data in
      if (len <? 6) || negb (bool_decide (take 2 data = [0; type])) then luaL_error "Type mismatch, need bson type %d"
      else if type =? BSON_OBJECTID then
        if negb (len =? 2 + 12) then luaL_error "Invalid object id"
        else lift (x ← mread data 2 12; p ← mwrite (ptr bs) 0 x; Ret (MkBson (size bs) (cap bs) p))
      else if type =? BSON_DATE then
        if negb (len =? 2 + 4) then luaL_error "Invalid date"
        else lift (ts ← mread data 2 4; write_int64 junk bs (le_value ts * 1000))
      else
        if negb (len =? 2 + 8) then luaL_error "Invalid timestamp"
        else lift (inc ← mread data 2 4; ts ← mread data 6 4;
                   b ← write_int32 junk bs (i32 (le_value inc)); write_int32 junk b (i32 (le_value ts)))
  | _ => luaL_error "string expected"
  end.

(** [index] is the table of the userdata, [start] its bytes. The last of the pairs for a key holds. *)
Definition lreplace (index : option (list (list Z * Z))) (start : list Z) (key : list Z) (v : lvalue) : luaM (list Z) :=
  match index with
  | None => luaL_error "call makeindex first"
  | Some index =>
      match (list_find (λ kv, kv.1 = key) (reverse index)) with
      | None => luaL_error "Can't replace key : %s"
      | Some (_, (_, id)) =>
          let type := Z.land id (2 ^ BSON_TYPE_SHIFT - 1) in
          let offset := Z.shiftr id BSON_TYPE_SHIFT in
          if offset <? 0 then Undef
          else
            let b := MkBson 0 16 (drop (Z.to_nat offset) start) in
            b ⇐ (if type =? BSON_REAL then
                   match checknumber v with Some d => lift (write_double junk b d) | None => luaL_error "number expected" end
                 else if type =? BSON_BOOLEAN then
                   lift (write_byte junk b (match v with VNil | VBoolean false => 0 | _ => 1 end))
                 else if (type =? BSON_OBJECTID) || (type =? BSON_DATE) || (type =? BSON_TIMESTAMP) then replace_object type v b
                 else if type =? BSON_INT32 then
                   match v with VInteger i => lift (write_int32 junk b (i32 i)) | _ => luaL_error "%f must be a 32bit integer " end
                 else if type =? BSON_INT64 then
                   match v with VInteger i => lift (write_int64 junk b i) | _ => luaL_error "%f must be a 64bit integer " end
                 else luaL_error "Can't replace type %d");
            lret (take (Z.to_nat offset) start ++ ptr b)
      end
  end.
End replace.

(** ** Objects *)

Definition ldate (d : Z) : list Z := 0 :: BSON_DATE :: le_bytes 4 (u32 d).
Definition lint64 (d : Z) : list Z := 0 :: BSON_INT64 :: le_bytes 8 (u64 d).

(** With the counter [inc] and what it is after. *)
Definition ltimestamp (inc d : Z) (i : option Z) : Z * list Z :=
  let '(inc', x) := match i with None => (u32 (inc + 1), inc) | Some i => (inc, u32 i) end in
  (inc', 0 :: BSON_TIMESTAMP :: le_bytes 4 x ++ le_bytes 4 (u32 d)).

Definition lregex (re options : list Z) : list Z := 0 :: BSON_REGEX :: re ++ 0 :: options ++ [0].
Definition lbinary (s : list Z) : list Z := 0 :: BSON_BINARY :: 0 :: s.

(** What is pushed: the name of a type, and the parts of the value. *)
Inductive part := PString (s : list Z) | PInteger (i : Z) | PValue (v : lvalue).

Definition hex : list Z := codes "0123456789abcdef".

Definition lsubtype (subtype : Z) (buf : list Z) : luaM (string * list part) :=
  let sz := zlen buf in
  if subtype =? BSON_BINARY then
    x ⇐ lift (aget (buf ++ [0]) 0);
    s ⇐ lua_lstring buf 1 (sz - 1);
    lret ("binary"%string, [PString s; PInteger x])
  else if subtype =? BSON_OBJECTID then
    if negb (sz =? 12) then luaL_error "Invalid object id"
    else
      oid ⇐ lift (for_loop 12 0 (λ i oid, x ← aget buf i; h ← aget hex (Z.shiftr x 4); l ← aget hex (Z.land x 0xf); Ret (oid ++ [h; l])) []);
      lret ("objectid"%string, [PString oid])
  else if subtype =? BSON_DATE then
    if negb (sz =? 4) then luaL_error "Invalid date" else lret ("date"%string, [PInteger (i32 (le_value buf))])
  else if subtype =? BSON_TIMESTAMP then
    if negb (sz =? 8) then luaL_error "Invalid timestamp"
    else lret ("timestamp"%string, [PInteger (le_value (drop 4 buf)); PInteger (le_value (take 4 buf))])
  else if subtype =? BSON_REGEX then
    let sz := u64 (sz - 1) in
    i ⇐ lift (loop (2 + length buf) (regex_turn (buf ++ [0]) sz) 0);
    if i =? sz then luaL_error "Invalid regex"
    else
      s ⇐ lift (mread buf 0 (sz - i - 1));
      t ⇐ lift (mread buf (sz - i) i);
      lret ("regex"%string, [PString s; PString t])
  else if subtype =? BSON_MINKEY then lret ("minkey"%string, [])
  else if subtype =? BSON_MAXKEY then lret ("maxkey"%string, [])
  else if subtype =? BSON_NULL then lret ("nil"%string, [])
  else if (subtype =? BSON_JSCODE) || (subtype =? BSON_DBPOINTER) || (subtype =? BSON_SYMBOL) || (subtype =? BSON_CODEWS) then
    lret ("unsupported"%string, [PString buf])
  else if subtype =? BSON_INT64 then
    if negb (sz =? 8) then luaL_error "Invalid int64" else lret ("int64"%string, [PInteger (i64 (le_value buf))])
  else luaL_error "Invalid subtype %d".

Definition ltype (v : lvalue) : luaM (string * list part) :=
  match v with
  | VInteger _ | VReal _ => lret ("number"%string, [PValue v])
  | VBoolean _ => lret ("boolean"%string, [PValue v])
  | VTable _ => lret ("table"%string, [PValue v])
  | VNil => lret ("nil"%string, [])
  | VString s =>
      match s with
      | 0 :: subt :: buf => lsubtype subt buf
      | _ => lret ("string"%string, [PValue v])
      end
  | _ => luaL_error "Invalid type %s"
  end.

Definition hextoint (c : Z) : Z :=
  if (48 <=? c) && (c <=? 57) then c - 48
  else if (97 <=? c) && (c <=? 122) then c - 97 + 10
  else if (65 <=? c) && (c <=? 90) then c - 65 + 10
  else 0.

(** The id of [str], or a new one of the time [ti], the counter and the header of the process. *)
Definition lobjectid (oid_header : list Z) (ti counter : Z) (str : option (list Z)) : luaM (Z * list Z) :=
  match str with
  | Some str =>
      if negb (zlen str =? 24) then luaL_error "Invalid objectid %s"
      else
        oid ⇐ lift (for_loop 12 0 (λ i oid, a ← aget str (i * 2); b ← aget str (i * 2 + 1);
                                      Ret (oid ++ [u8 (Z.lor (Z.shiftl (hextoint a) 4) (hextoint b))])) []);
        lret (counter, 0 :: BSON_OBJECTID :: oid)
  | None =>
      let byte x n := Z.land (Z.shiftr x n) 0xff in
      lret (u64 (counter + 1), 0 :: BSON_OBJECTID :: [byte ti 24; byte ti 16; byte ti 8; byte ti 0] ++
                               oid_header ++ [byte (u32 counter) 16; byte (u32 counter) 8; byte (u32 counter) 0])
  end.

(** A hash of the name of the host. The characters of the name are [char]s. *)
Fixpoint host_hash (hostname : list Z) (h : Z) : Z :=
  match hostname with
  | [] => h
  | c :: hostname => host_hash hostname (Z.lxor h (u32 (u32 (Z.shiftl h 5) + Z.shiftr h 2 + i8 c)))
  end.

(** Of a counter that is 0: the header and the counter. [hostname] is what [gethostname] gives,
    [entropy] the time and the address that go into the counter. *)
Definition init_oid_header (hostname : option (list Z)) (pid entropy : Z) : list Z * Z :=
  let h := match hostname with Some s => Z.lxor (host_hash s 0) (zlen s) | None => 0 end in
  let byte x n := Z.land (Z.shiftr x n) 0xff in
  let c := Z.lxor h entropy in
  ([byte h 0; byte h 8; byte h 16; byte pid 0; byte pid 8], if c =? 0 then 1 else c).

(** ** What is written *)

Section writing.
Context (junk : Z → Z).

(** The sizes up to here are computed without overflow. *)
Definition LIMIT : Z := 2 ^ 29.

(** [b] has the bytes [bs]. *)
Record holds (b : bson) (bs : list Z) : Prop := {
  h_size : size b = zlen bs;
  h_cap : cap b = zlen (ptr b);
  h_bytes : mem_at (ptr b) 0 bs;
  h_room : zlen bs ≤ cap b;
  h_range : 64 ≤ cap b ≤ 2 ^ 30
}.

Lemma zlen_fresh n : 0 ≤ n → zlen (fresh_bytes junk n) = n.
Proof. intros Hn. unfold zlen, fresh_bytes. rewrite length_fmap, length_seq. lia. Qed.

Lemma holds_create : holds (bson_create junk) [].
Proof. split; cbn [size cap ptr bson_create]; [done| |by intros k x|done|done]. by rewrite zlen_fresh. Qed.

Lemma reserve_loop need : need ≤ LIMIT → ∀ fuel cap, need < cap * 2 ^ Z.of_nat fuel → 64 ≤ cap ≤ need →
  ∃ cap', loop fuel (reserve_turn need) cap = Ret cap' ∧ need < cap' ≤ 2 ^ 30.
Proof.
  unfold LIMIT. intros Hneed fuel. induction fuel as [|fuel IH]; intros cap Hf Hc.
  { change (2 ^ Z.of_nat 0) with 1 in Hf. lia. }
  rewrite loop_S. unfold reserve_turn. rewrite cint_in by (unfold INT_MIN, INT_MAX; lia). bsimpl.
  destruct (cap * 2 <=? need) eqn:E; [apply Z.leb_le in E|apply Z.leb_gt in E]; bsimpl.
  - apply IH; [|lia]. rewrite Nat2Z.inj_succ, Z.pow_succ_r in Hf by lia. lia.
  - eexists. split; [done|]. lia.
Qed.

Lemma reserve_ok b bs sz : holds b bs → 0 ≤ sz → zlen bs + sz ≤ LIMIT →
  ∃ b', bson_reserve junk b sz = Ret b' ∧ holds b' bs ∧ zlen bs + sz ≤ cap b'.
Proof.
  intros Hb Hsz Hl. pose proof Hb as [H1 H2 H3 H4 H5]. pose proof (zlen_nonneg bs). unfold LIMIT in *. unfold bson_reserve.
  rewrite H1, cint_in by (unfold INT_MIN, INT_MAX; lia). bsimpl. destruct (zlen bs + sz <=? cap b) eqn:E; [apply Z.leb_le in E|apply Z.leb_gt in E].
  { by exists b. }
  destruct (reserve_loop (zlen bs + sz) ltac:(unfold LIMIT; lia) 32 (cap b)) as (cap' & -> & Hc); [change (2 ^ Z.of_nat 32) with (2 ^ 32); lia|lia|]. bsimpl.
  assert (∃ old, (if cap b =? DEFAULT_CAP then mread (ptr b) 0 (zlen bs) else Ret (ptr b)) = Ret old ∧ mem_at old 0 bs ∧ zlen old ≤ cap') as (old & -> & Hold & Hlen).
  { destruct (cap b =? DEFAULT_CAP).
    - exists bs. rewrite mread_at; [|done|lia|exact H3]. split; [done|]. split; [by intros k x|lia].
    - exists (ptr b). split; [done|]. split; [done|lia]. }
  bsimpl. destruct (mwrite_in (fresh_bytes junk cap') 0 old) as (p & -> & Hp1 & Hp2 & _); [done|rewrite zlen_fresh by lia; lia|].
  bsimpl. eexists. split; [done|]. split; [|cbn [cap]; lia]. split; cbn [size cap ptr]; [done| | |lia|lia].
  - by rewrite Hp1, zlen_fresh by lia.
  - intros k x Hk. apply (Hp2 k x). by apply (Hold k x).
Qed.

Lemma mem_at_prefix {A} (mem mem' : list A) bs x : mem_at mem 0 bs → mem_at mem' (length bs) x →
  (∀ k, (k < length bs)%nat → mem' !! k = mem !! k) → mem_at mem' 0 (bs ++ x).
Proof.
  intros H1 H2 H3. apply mem_at_app. split; [|done]. intros k y Hk. cbn. rewrite H3 by (by eapply lookup_lt_Some). by apply H1.
Qed.

Lemma store_ok b bs x : holds b bs → zlen bs + zlen x ≤ cap b → ∃ b', store b x = Ret b' ∧ holds b' (bs ++ x).
Proof.
  intros [H1 H2 H3 H4 H5] Hl. pose proof (zlen_nonneg bs). pose proof (zlen_nonneg x). unfold store. rewrite H1.
  destruct (asets_spec (ptr b) (zlen bs) x) as (p & -> & [Hp1 Hp3] & Hp2); [done|lia|]. bsimpl.
  rewrite cint_in by (unfold INT_MIN, INT_MAX; lia). bsimpl. eexists. split; [done|].
  split; cbn [size cap ptr]; [by rewrite zlen_app|congruence| |rewrite zlen_app; lia|lia].
  apply (mem_at_prefix (ptr b)); [done| |].
  - unfold zlen in Hp2. by rewrite Nat2Z.id in Hp2.
  - intros k Hk. apply Hp3. unfold zlen. lia.
Qed.

Lemma copy_in_ok b bs x src : holds b bs → zlen bs + zlen x ≤ cap b → mem_at src 0 x → zlen x ≤ zlen src →
  ∃ b', copy_in b src (zlen x) = Ret b' ∧ holds b' (bs ++ x).
Proof.
  intros [H1 H2 H3 H4 H5] Hl Hx Hsrc. pose proof (zlen_nonneg bs). pose proof (zlen_nonneg x). unfold copy_in. rewrite H1.
  rewrite mread_at by (done || lia). bsimpl.
  destruct (mwrite_in (ptr b) (zlen bs) x) as (p & -> & Hp1 & Hp2 & Hp3); [done|lia|]. bsimpl. rewrite i32_small by (unfold INT_MAX; lia).
  eexists. split; [done|]. split; cbn [size cap ptr]; [by rewrite zlen_app|congruence| |rewrite zlen_app; lia|lia].
  apply (mem_at_prefix (ptr b)); [done| |].
  - unfold zlen in Hp2. by rewrite Nat2Z.id in Hp2.
  - intros k Hk. apply Hp3. unfold zlen. lia.
Qed.

Lemma write_length_ok b pre j post v : holds b (pre ++ j ++ post) → zlen j = 4 →
  ∃ b', write_length b v (zlen pre) = Ret b' ∧ holds b' (pre ++ le_bytes 4 (u32 v) ++ post).
Proof.
  intros [H1 H2 H3 H4 H5] Hj. pose proof (zlen_nonneg pre). pose proof (zlen_nonneg post). pose proof (zlen_le_bytes 4 (u32 v)) as Hb. change (Z.of_nat 4) with 4 in Hb. unfold write_length.
  rewrite !zlen_app in *. destruct (asets_spec (ptr b) (zlen pre) (le_bytes 4 (u32 v))) as (p & -> & [Hp1 Hp3] & Hp2); [done|lia|]. bsimpl.
  eexists. split; [done|]. split; cbn [size cap ptr]; [rewrite !zlen_app; lia|congruence| |rewrite !zlen_app; lia|lia].
  change (mem_at (ptr b) (Z.to_nat 0) (pre ++ j ++ post)) in H3. change (mem_at p (Z.to_nat 0) (pre ++ le_bytes 4 (u32 v) ++ post)). apply mem_at_appz in H3 as [M1 M2]; [|done]. apply mem_at_appz in M2 as [M2 M3]; [|lia].
  apply mem_at_appz; [done|]. split; [|apply mem_at_appz; [lia|split; [exact Hp2|]]].
  - apply (mem_at_same (ptr b)); [|done]. intros k Hk. apply Hp3. unfold zlen. lia.
  - rewrite Hb, <-Hj. apply (mem_at_same (ptr b)); [|done]. intros k Hk. apply Hp3. unfold zlen in *. lia.
Qed.

(** [f] writes [x] at the end. *)
Definition appends (x : list Z) (f : bson → luaM bson) : Prop :=
  ∀ b bs, holds b bs → zlen bs + zlen x ≤ LIMIT → ∃ b', f b = lret b' ∧ holds b' (bs ++ x).

Lemma appends_then x y f g : appends x f → appends y g → appends (x ++ y) (λ b, b ⇐ f b; g b).
Proof.
  intros Hf Hg b bs Hb Hl. rewrite zlen_app in Hl. pose proof (zlen_nonneg y).
  destruct (Hf b bs Hb) as (b1 & -> & H1); [lia|]. rewrite lbind_lret.
  destruct (Hg b1 (bs ++ x) H1) as (b2 & -> & H2); [rewrite zlen_app; lia|]. exists b2. by rewrite app_assoc.
Qed.

Lemma appends_none : appends [] lret.
Proof. intros b bs Hb _. exists b. by rewrite app_nil_r. Qed.

Lemma appends_ext x f g : (∀ b, f b = g b) → appends x g → appends x f.
Proof. intros Hfg Hg b bs Hb Hl. rewrite Hfg. by apply Hg. Qed.

(** Reserving before storing. *)
Lemma appends_store x n : zlen x = n → appends x (λ b, lift (b ← bson_reserve junk b n; store b x)).
Proof.
  intros <- b bs Hb Hl. pose proof (zlen_nonneg x). destruct (reserve_ok b bs (zlen x) Hb) as (b1 & -> & H1 & H2); [lia|lia|]. bsimpl.
  destruct (store_ok b1 bs x H1 H2) as (b2 & -> & H3). exists b2. by rewrite lift_Ret.
Qed.

Lemma appends_byte v : is_byte v → appends [v] (λ b, lift (write_byte junk b v)).
Proof.
  intros Hv. eapply appends_ext; [|by apply (appends_store [v] 1)]. intros b. unfold write_byte, u8. unfold is_byte in Hv.
  by rewrite Z.mod_small by (change (2 ^ 8) with 256; lia).
Qed.
Lemma appends_int32 v : appends (le_bytes 4 (u32 v)) (λ b, lift (write_int32 junk b v)).
Proof. apply appends_store. by rewrite zlen_le_bytes. Qed.
Lemma appends_int64 v : appends (le_bytes 8 (u64 v)) (λ b, lift (write_int64 junk b v)).
Proof. apply appends_store. by rewrite zlen_le_bytes. Qed.
Lemma appends_double v : appends (le_bytes 8 v) (λ b, lift (write_double junk b v)).
Proof. apply appends_store. by rewrite zlen_le_bytes. Qed.

(** Reserving before copying. *)
Lemma appends_copy x src n : zlen x = n → mem_at src 0 x → n ≤ zlen src →
  appends x (λ b, b ⇐ lift (bson_reserve junk b (i32 n)); lift (copy_in b src n)).
Proof.
  intros <- Hx Hsrc b bs Hb Hl. pose proof (zlen_nonneg x). pose proof (zlen_nonneg bs). unfold LIMIT in Hl.
  rewrite i32_small by (unfold INT_MAX; lia). destruct (reserve_ok b bs (zlen x) Hb) as (b1 & -> & H1 & H2); [lia|unfold LIMIT; lia|].
  rewrite lift_Ret, lbind_lret. destruct (copy_in_ok b1 bs x src H1 H2 Hx Hsrc) as (b2 & -> & H3). exists b2. by rewrite lift_Ret.
Qed.

(** A length in front of what [f] writes. *)
Lemma appends_length x (f : bson → luaM bson) (g : Z → bson → Z) n :
  appends x f → (∀ b pre j, holds b (pre ++ j ++ x) → zlen j = 4 → zlen pre + 4 + zlen x ≤ LIMIT → u32 (g (zlen pre) b) = u32 n) →
  appends (le_bytes 4 (u32 n) ++ x) (λ b, '(len, b) ⇐ lift (reserve_length junk b); b ⇐ f b; lift (write_length b (g len b) len)).
Proof.
  intros Hf Hg b bs Hb Hl. rewrite zlen_app, zlen_le_bytes in Hl. change (Z.of_nat 4) with 4 in Hl.
  pose proof (zlen_nonneg x). pose proof (zlen_nonneg bs). unfold reserve_length. rewrite (h_size _ _ Hb).
  destruct (reserve_ok b bs 4 Hb) as (b1 & -> & H1 & H2); [lia|lia|]. bsimpl. rewrite (h_size _ _ H1). unfold LIMIT in *.
  rewrite cint_in by (unfold INT_MIN, INT_MAX; lia). bsimpl. rewrite lift_Ret, lbind_lret. cbv beta iota.
  assert (∃ j, zlen j = 4 ∧ holds (MkBson (zlen bs + 4) (cap b1) (ptr b1)) (bs ++ j)) as (j & Hj & H3).
  { destruct H1 as [G1 G2 G3 G4 G5]. exists (take 4 (drop (length bs) (ptr b1))).
    assert (Hj : zlen (take 4 (drop (length bs) (ptr b1))) = 4) by (unfold zlen in *; rewrite length_take, length_drop; lia).
    split; [done|]. split; cbn [size cap ptr]; [rewrite zlen_app; lia|done| |rewrite zlen_app; lia|done].
    apply (mem_at_prefix (ptr b1)); [done| |done]. intros k y Hk. apply lookup_take_Some in Hk as [Hk _]. by rewrite lookup_drop in Hk. }
  destruct (Hf _ _ H3) as (b2 & -> & H4); [rewrite zlen_app; unfold LIMIT; lia|]. rewrite lbind_lret. rewrite <-app_assoc in H4.
  destruct (write_length_ok b2 bs j x (g (zlen bs) b2) H4 Hj) as (b3 & -> & H5). exists b3. rewrite lift_Ret. split; [done|].
  rewrite (Hg b2 bs j H4 Hj) in H5 by (unfold LIMIT; lia). done.
Qed.

(** ** UTF-8 *)

Definition cont (c : Z) : bool := (0x80 <=? c) && (c <? 0xC0).
Definition within (lo hi b : Z) : bool := (lo <=? b) && (b <=? hi).

(** Sequences of characters: no overlong forms, nothing above 0x10FFFF. *)
Fixpoint utf8_valid (s : list Z) : bool :=
  match s with
  | [] => true
  | b :: s =>
      if within 0 0x7F b then utf8_valid s
      else
        match s with
        | [] => false
        | c1 :: s =>
            if within 0xC2 0xDF b then cont c1 && utf8_valid s
            else
              match s with
              | [] => false
              | c2 :: s =>
                  if within 0xE0 0xEF b
                  then cont c1 && cont c2 && (negb (b =? 0xE0) || (0xA0 <=? c1)) && utf8_valid s
                  else
                    match s with
                    | [] => false
                    | c3 :: s =>
                        within 0xF0 0xF4 b && cont c1 && cont c2 && cont c3 &&
                        (negb (b =? 0xF0) || (0x90 <=? c1)) && (negb (b =? 0xF4) || (c1 <=? 0x8F)) && utf8_valid s
                    end
              end
        end
  end.

Lemma by_bytes (P : Z → bool) lo hi : forallb P (seqZ lo (hi - lo + 1)) = true → ∀ b, lo ≤ b ≤ hi → P b = true.
Proof. intros H b Hb. rewrite forallb_forall in H. apply H, list_elem_of_In, elem_of_seqZ. lia. Qed.

Lemma within_spec lo hi b : within lo hi b = true ↔ lo ≤ b ≤ hi.
Proof. unfold within. rewrite andb_true_iff, !Z.leb_le. done. Qed.

Lemma cont_facts c : cont c = true → (Z.land (i8 c) 0xC0 =? 0x80) = true ∧ Z.land (i8 c) 0x3F = c - 0x80 ∧ 0 ≤ c - 0x80 < 64.
Proof.
  unfold cont. rewrite andb_true_iff, Z.leb_le, Z.ltb_lt. intros Hc.
  assert (H := by_bytes (λ c, (Z.land (i8 c) 0xC0 =? 0x80) && (Z.land (i8 c) 0x3F =? c - 0x80)) 0x80 0xBF ltac:(by vm_compute) c ltac:(lia)).
  apply andb_true_iff in H as [H1 H2%Z.eqb_eq]. split_and!; [done..|lia|lia].
Qed.

(** The first byte, shifted [n] times. *)
Fixpoint shifted (n : nat) (c : Z) : Z := match n with O => c | S n => u32 (Z.shiftl (shifted n c) 1) end.

Lemma lead_facts n lo hi b : lo ≤ b ≤ hi →
  forallb (λ b, forallb (λ k, negb (Z.land (shifted k (u32 (i8 b))) 0x40 =? 0)) (seq 0 n) &&
    (Z.land (shifted n (u32 (i8 b))) 0x40 =? 0) && (Z.land (shifted n (u32 (i8 b))) 0x7F =? 2 ^ Z.of_nat n * (b mod 2 ^ (6 - Z.of_nat n))) &&
    negb (u32 (i8 b) <? 0x80)) (seqZ lo (hi - lo + 1)) = true →
  (∀ k, (k < n)%nat → (Z.land (shifted k (u32 (i8 b))) 0x40 =? 0) = false) ∧ (Z.land (shifted n (u32 (i8 b))) 0x40 =? 0) = true ∧
  Z.land (shifted n (u32 (i8 b))) 0x7F = 2 ^ Z.of_nat n * (b mod 2 ^ (6 - Z.of_nat n)) ∧ (u32 (i8 b) <? 0x80) = false.
Proof.
  intros Hb Hall. pose proof (by_bytes _ _ _ Hall b Hb) as H. cbv beta in H. rewrite !andb_true_iff in H. destruct H as [[[H1 H2] H3%Z.eqb_eq] H4%negb_true_iff].
  split_and!; [|done..]. intros k Hk. rewrite forallb_forall in H1. apply negb_true_iff, H1, list_elem_of_In, elem_of_seq. lia.
Qed.

Lemma utf8_turn_eq s off limit c res count d : utf8_turn s off limit (c, res, count, d) =
  if Z.land c 0x40 =? 0 then Ret (inr (Some (c, res, count, d)))
  else
    x ← aget s (count + 1);
    if (limit <=? count + 1) || negb (Z.land (i8 x) 0xC0 =? 0x80) then Ret (inr None)
    else d ← aset d (off + (count + 1)) x; Ret (inl (u32 (Z.shiftl c 1), Z.lor (u32 (Z.shiftl res 6)) (Z.land (i8 x) 0x3F), count + 1, d)).
Proof. done. Qed.

(** The loop over [n] bytes that follow the first. *)
Lemma utf8_loop b cs rest off limit n : ∀ done_ todo res d fuel, done_ ++ todo = cs → length cs = n → zlen cs < limit →
  Forall (λ c, cont c = true) cs → 0 ≤ off → off + 1 + zlen cs ≤ zlen d → 0 ≤ res → res < 2 ^ (6 * zlen done_) → (n ≤ 3)%nat →
  (∀ k, (k < n)%nat → (Z.land (shifted k (u32 (i8 b))) 0x40 =? 0) = false) → (Z.land (shifted n (u32 (i8 b))) 0x40 =? 0) = true →
  (length todo < fuel)%nat →
  ∃ d', asets d (off + 1 + zlen done_) todo = Ret d' ∧
    loop fuel (utf8_turn (b :: cs ++ rest) off limit) (shifted (length done_) (u32 (i8 b)), res, zlen done_, d) =
      Ret (Some (shifted n (u32 (i8 b)), fold_left (λ r c, r * 64 + (c - 0x80)) todo res, Z.of_nat n, d')).
Proof.
  intros done_ todo. revert done_. induction todo as [|c todo IH]; intros done_ res d fuel Hcs Hn Hlim Hcont Hoff Hd Hres0 Hres Hn3 Hlead Hend Hf;
    (destruct fuel as [|fuel]; [cbn in Hf; lia|]); rewrite loop_S, utf8_turn_eq.
  - rewrite app_nil_r in Hcs. subst done_. rewrite Hn, Hend. bsimpl. exists d. split; [done|]. unfold zlen. by rewrite Hn.
  - assert (Hlen : (length done_ + S (length todo) = n)%nat) by (rewrite <-Hn, <-Hcs, length_app; done). rewrite Hlead by lia.
    assert (Hnth : aget (b :: cs ++ rest) (zlen done_ + 1) = Ret c).
    { apply aget_Ret. pose proof (zlen_nonneg done_). split; [lia|]. replace (Z.to_nat (zlen done_ + 1)) with (S (length done_)) by (unfold zlen; lia).
      cbn. rewrite <-Hcs, <-app_assoc. by apply list_lookup_middle. }
    rewrite Hnth. bsimpl. assert (Hc : cont c = true) by (rewrite Forall_forall in Hcont; apply Hcont; rewrite <-Hcs; apply elem_of_app; right; by left).
    destruct (cont_facts c Hc) as (C1 & C2 & C3). rewrite C1, C2. unfold zlen in Hlim. rewrite (proj2 (Z.leb_gt limit (zlen done_ + 1))) by (unfold zlen; lia). cbn [orb negb].
    assert (Hd' : off + (zlen done_ + 1) < zlen d) by (unfold zlen in *; lia). pose proof (zlen_nonneg done_).
    rewrite aset_in by lia. bsimpl.
    assert (Hbound : 2 ^ (6 * zlen done_) ≤ 2 ^ 12) by (apply Z.pow_le_mono_r; unfold zlen; lia).
    assert (Hres' : Z.lor (u32 (Z.shiftl res 6)) (c - 0x80) = res * 64 + (c - 0x80)).
    { rewrite u32_small by (rewrite Z.shiftl_mul_pow2 by lia; change (2 ^ 6) with 64; change (2 ^ 12) with 4096 in Hbound; lia).
      rewrite lor_shiftl_l by lia. change (2 ^ 6) with 64. lia. }
    rewrite Hres'. replace (length done_) with (length done_) by done.
    destruct (IH (done_ ++ [c]) (res * 64 + (c - 128)) (<[Z.to_nat (off + (zlen done_ + 1)):=c]> d) fuel) as (d' & Hd1 & Hloop); try done.
    + by rewrite <-app_assoc.
    + by rewrite zlen_insert.
    + lia.
    + rewrite zlen_app, zlen_cons, zlen_nil. replace (6 * (zlen done_ + (1 + 0))) with (6 * zlen done_ + 6) by lia. rewrite Z.pow_add_r by lia. change (2 ^ 6) with 64. lia.
    + cbn in Hf. lia.
    + exists d'. rewrite length_app, zlen_app, zlen_cons, zlen_nil in Hloop. cbn [length] in Hloop. rewrite Nat.add_1_r in Hloop. cbn [shifted] in Hloop.
      rewrite Z.add_0_r in Hloop. split; [|exact Hloop].
      rewrite zlen_app, zlen_cons, zlen_nil in Hd1. unfold asets; fold @asets. replace (off + 1 + zlen done_) with (off + (zlen done_ + 1)) by lia. rewrite aset_in by lia.
      by replace (off + (zlen done_ + 1) + 1) with (off + 1 + (zlen done_ + (1 + 0))) by lia.
Qed.

Definition code_point (n : nat) (b : Z) (cs : list Z) : Z :=
  fold_left (λ r c, r * 64 + (c - 0x80)) cs 0 + (b mod 2 ^ (6 - Z.of_nat n)) * 2 ^ (6 * Z.of_nat n).

Lemma fold_range cs : Forall (λ c, cont c = true) cs → ∀ r, 0 ≤ r →
  0 ≤ fold_left (λ r c, r * 64 + (c - 0x80)) cs r < (r + 1) * 2 ^ (6 * zlen cs).
Proof.
  induction 1 as [|c cs Hc _ IH]; intros r Hr; cbn [fold_left]; [change (2 ^ (6 * zlen [])) with 1; lia|].
  destruct (cont_facts c Hc) as (_ & _ & Hc3). rewrite zlen_cons. pose proof (zlen_nonneg cs).
  replace (6 * (1 + zlen cs)) with (6 + 6 * zlen cs) by lia. rewrite Z.pow_add_r by lia. change (2 ^ 6) with 64.
  specialize (IH (r * 64 + (c - 128)) ltac:(lia)). pose proof (Z.pow_pos_nonneg 2 (6 * zlen cs)). nia.
Qed.

Lemma utf8_copy_multi lo hi n b cs rest d off limit : lo ≤ b ≤ hi → (1 ≤ n ≤ 3)%nat →
  forallb (λ b, forallb (λ k, negb (Z.land (shifted k (u32 (i8 b))) 0x40 =? 0)) (seq 0 n) &&
    (Z.land (shifted n (u32 (i8 b))) 0x40 =? 0) && (Z.land (shifted n (u32 (i8 b))) 0x7F =? 2 ^ Z.of_nat n * (b mod 2 ^ (6 - Z.of_nat n))) &&
    negb (u32 (i8 b) <? 0x80)) (seqZ lo (hi - lo + 1)) = true →
  length cs = n → Forall (λ c, cont c = true) cs → zlen cs < limit → 0 ≤ off → off + 1 + zlen cs ≤ zlen d →
  nth n limits 0 < code_point n b cs ≤ MAXUNICODE →
  ∃ d', asets d off (b :: cs) = Ret d' ∧ utf8_copy (b :: cs ++ rest) d off limit = Ret (1 + zlen cs, d').
Proof.
  intros Hb Hn Hall Hlen Hcont Hlim Hoff Hd Hcp. destruct (lead_facts n lo hi b Hb Hall) as (F1 & F2 & F3 & F4).
  pose proof (zlen_nonneg cs). assert (Hz : zlen cs = Z.of_nat n) by (unfold zlen; by rewrite Hlen).
  destruct (utf8_loop b cs rest off limit n [] cs 0 (<[Z.to_nat off := b]> d) 9) as (d' & Hd' & Hloop); try done; rewrite ?zlen_insert; try lia.
  exists d'. rewrite zlen_nil, Z.add_0_r in Hd'. split; [by unfold asets; fold @asets; rewrite aset_in by lia|].
  unfold utf8_copy. change (aget (b :: cs ++ rest) 0) with (Ret b). bsimpl. rewrite (proj2 (Z.ltb_ge limit 1)) by lia. rewrite aset_in by lia. bsimpl.
  rewrite F4. change (zlen []) with 0 in Hloop. cbn [length shifted] in Hloop. rewrite Hloop. bsimpl. rewrite (proj2 (Z.leb_gt 32 (Z.of_nat n * 5))) by lia.
  rewrite F3. destruct (fold_range cs Hcont 0 ltac:(lia)) as [R1 R2]. rewrite Z.mul_1_l, Hz in R2.
  assert (Hx : 0 ≤ b mod 2 ^ (6 - Z.of_nat n) < 2 ^ (6 - Z.of_nat n)) by (apply Z.mod_pos_bound, Z.pow_pos_nonneg; lia).
  assert (Hs : u32 (Z.shiftl (2 ^ Z.of_nat n * (b mod 2 ^ (6 - Z.of_nat n))) (Z.of_nat n * 5)) = Z.shiftl (b mod 2 ^ (6 - Z.of_nat n)) (6 * Z.of_nat n)).
  { rewrite !Z.shiftl_mul_pow2 by lia. replace (6 * Z.of_nat n) with (Z.of_nat n + Z.of_nat n * 5) by lia. rewrite Z.pow_add_r by lia. rewrite u32_small; [lia|].
    assert (Hcase : n = 1%nat ∨ n = 2%nat ∨ n = 3%nat) by lia. destruct Hcase as [->|[->| ->]]; cbn in Hx |- *; lia. }
  rewrite Hs, lor_shiftl by lia. fold (code_point n b cs). rewrite (proj2 (Z.ltb_ge 3 (Z.of_nat n))), (proj2 (Z.ltb_ge MAXUNICODE _)) by lia. cbn [orb].
  assert (Hl : aget limits (Z.of_nat n) = Ret (nth n limits 0)).
  { assert (Hcase : n = 1%nat ∨ n = 2%nat ∨ n = 3%nat) by lia. by destruct Hcase as [->|[->| ->]]. }
  rewrite Hl. bsimpl. rewrite (proj2 (Z.leb_gt _ _)) by lia. do 2 f_equal. lia.
Qed.

(** The first character of a valid sequence. *)
Lemma utf8_copy_valid s : utf8_valid s = true → s ≠ [] → ∃ ch s', s = ch ++ s' ∧ ch ≠ [] ∧ utf8_valid s' = true ∧
  ∀ rest d off limit, zlen ch ≤ limit → 0 ≤ off → off + zlen ch ≤ zlen d →
    ∃ d', asets d off ch = Ret d' ∧ utf8_copy (ch ++ rest) d off limit = Ret (zlen ch, d').
Proof.
  destruct s as [|b s]; [done|]. cbn [utf8_valid]. intros Hv _.
  destruct (within 0 0x7F b) eqn:E1; [apply within_spec in E1|].
  { exists [b], s. split_and!; try done. intros rest d off limit Hl H0 Hd. change (zlen [b]) with 1 in *.
    assert (Hf := by_bytes (λ b, (u32 (i8 b) <? 0x80)) 0 127 ltac:(by vm_compute) b E1). cbv beta in Hf.
    exists (<[Z.to_nat off := b]> d). split; [unfold asets; by rewrite aset_in by lia|]. unfold utf8_copy. change (aget ([b] ++ rest) 0) with (Ret b). bsimpl.
    rewrite (proj2 (Z.ltb_ge limit 1)) by lia. rewrite aset_in by lia. bsimpl. by rewrite Hf. }
  destruct s as [|c1 s]; [done|]. destruct (within 0xC2 0xDF b) eqn:E2; [apply within_spec in E2|].
  { apply andb_true_iff in Hv as [Hc Hv]. exists [b; c1], s. split_and!; try done. intros rest d off limit Hl H0 Hd.
    rewrite !zlen_cons, zlen_nil in *. destruct (cont_facts c1 Hc) as (_ & _ & Hr).
    apply (utf8_copy_multi 0xC2 0xDF 1 b [c1] rest); try done; rewrite ?zlen_cons, ?zlen_nil; try lia; [by repeat constructor|].
    unfold code_point, MAXUNICODE, limits. cbn [nth fold_left]. change (2 ^ (6 - Z.of_nat 1)) with 32. change (2 ^ (6 * Z.of_nat 1)) with 64. zlia. }
  destruct s as [|c2 s]; [done|]. destruct (within 0xE0 0xEF b) eqn:E3; [apply within_spec in E3|].
  { rewrite !andb_true_iff in Hv. destruct Hv as [[[Hc1 Hc2] Ho] Hv]. exists [b; c1; c2], s. split_and!; try done. intros rest d off limit Hl H0 Hd.
    rewrite !zlen_cons, zlen_nil in *. destruct (cont_facts c1 Hc1) as (_ & _ & Hr1), (cont_facts c2 Hc2) as (_ & _ & Hr2).
    assert (Ho' : b ≠ 224 ∨ 160 ≤ c1) by (apply orb_true_iff in Ho as [Ho|Ho]; [left; by apply Z.eqb_neq, negb_true_iff|right; by apply Z.leb_le]).
    apply (utf8_copy_multi 0xE0 0xEF 2 b [c1; c2] rest); try done; rewrite ?zlen_cons, ?zlen_nil; try lia; [by repeat constructor|].
    unfold code_point, MAXUNICODE, limits. cbn [nth fold_left]. change (2 ^ (6 - Z.of_nat 2)) with 16. change (2 ^ (6 * Z.of_nat 2)) with 4096. zlia. }
  destruct s as [|c3 s]; [done|]. rewrite !andb_true_iff in Hv. destruct Hv as [[[[[[E4%within_spec Hc1] Hc2] Hc3] Ho] Hm] Hv].
  exists [b; c1; c2; c3], s. split_and!; try done. intros rest d off limit Hl H0 Hd. rewrite !zlen_cons, zlen_nil in *.
  destruct (cont_facts c1 Hc1) as (_ & _ & Hr1), (cont_facts c2 Hc2) as (_ & _ & Hr2), (cont_facts c3 Hc3) as (_ & _ & Hr3).
  assert (Ho' : b ≠ 240 ∨ 144 ≤ c1) by (apply orb_true_iff in Ho as [Ho|Ho]; [left; by apply Z.eqb_neq, negb_true_iff|right; by apply Z.leb_le]).
  assert (Hm' : b ≠ 244 ∨ c1 ≤ 143) by (apply orb_true_iff in Hm as [Hm|Hm]; [left; by apply Z.eqb_neq, negb_true_iff|right; by apply Z.leb_le]).
  apply (utf8_copy_multi 0xF0 0xF4 3 b [c1; c2; c3] rest); try done; rewrite ?zlen_cons, ?zlen_nil; try lia; [by repeat constructor|].
  unfold code_point, MAXUNICODE, limits. cbn [nth fold_left]. change (2 ^ (6 - Z.of_nat 3)) with 8. change (2 ^ (6 * Z.of_nat 3)) with 262144. zlia.
Qed.

Lemma string_loop fuel : ∀ s tail off p, utf8_valid s = true → 0 ≤ off → off + zlen s ≤ zlen p → (length s < fuel)%nat →
  ∃ p', lloop fuel string_turn (s ++ tail, off, zlen s, p) = lret p' ∧ same_outside p p' off (off + zlen s) ∧ mem_at p' (Z.to_nat off) s.
Proof.
  induction fuel as [|fuel IH]; intros s tail off p Hv Hoff Hl Hf; [lia|]. cbn [lloop string_turn].
  destruct (decide (s = [])) as [->|Hne].
  { rewrite zlen_nil. exists p. split; [done|]. split; [done|]. by intros k x. }
  assert (zlen s ≠ 0) by (unfold zlen; destruct s; [done|cbn; lia]). rewrite (proj2 (Z.eqb_neq _ _)) by done.
  destruct (utf8_copy_valid s Hv Hne) as (ch & s' & -> & Hch & Hv' & Hcopy). rewrite zlen_app in *. pose proof (zlen_nonneg s').
  rewrite <-app_assoc. destruct (Hcopy (s' ++ tail) p off (zlen ch + zlen s')) as (p1 & Hp1 & ->); [lia|lia|lia|]. rewrite lift_Ret, lbind_lret. cbv beta iota.
  destruct (asets_spec p off ch) as (p1' & Hp1' & Ho1 & Hm1); [lia|lia|]. rewrite Hp1 in Hp1'. injection Hp1' as <-.
  assert (Hn : zlen ch ≠ 0) by (unfold zlen; destruct ch; [done|cbn; lia]). rewrite (proj2 (Z.eqb_neq _ _)) by done. rewrite lbind_lret.
  replace (Z.to_nat (zlen ch)) with (length ch) by (unfold zlen; lia). rewrite drop_app_length. replace (zlen ch + zlen s' - zlen ch) with (zlen s') by lia.
  pose proof (zlen_nonneg ch). destruct (IH s' tail (off + zlen ch) p1) as (p2 & -> & Ho2 & Hm2); [done|lia|rewrite (so_zlen _ _ _ _ Ho1); lia| |].
  { rewrite length_app in Hf. unfold zlen in Hn. lia. }
  exists p2. split; [done|]. split.
  - eapply same_outside_trans; [exact Ho1|exact Ho2|lia..].
  - apply mem_at_appz; [done|]. split; [|done]. eapply mem_at_frame; [exact Ho2|left; lia|done].
Qed.

Lemma appends_string s tail : utf8_valid s = true → appends (s ++ [0]) (λ b, write_string junk b (s ++ tail) (zlen s)).
Proof.
  intros Hv b bs Hb Hl. rewrite zlen_app in Hl. change (zlen [0]) with 1 in Hl. pose proof (zlen_nonneg s). pose proof (zlen_nonneg bs). unfold LIMIT in Hl.
  unfold write_string. rewrite i32_small by (unfold INT_MAX; lia).
  destruct (reserve_ok b bs (zlen s + 1) Hb) as (b1 & -> & H1 & H2); [lia|unfold LIMIT; lia|]. rewrite lift_Ret, lbind_lret.
  destruct H1 as [G1 G2 G3 G4 G5]. rewrite G1.
  destruct (string_loop (2 + length (s ++ tail)) s tail (zlen bs) (ptr b1)) as (p & -> & [O1 O2] & Hm); [done|lia|lia|rewrite length_app; lia|].
  rewrite lbind_lret. destruct (aset_spec p (zlen bs + zlen s) 0) as (p' & -> & [P1 P2] & Hm'); [lia|]. rewrite lift_Ret, lbind_lret.
  rewrite i32_small by (unfold INT_MAX; lia). eexists. split; [done|].
  split; cbn [size cap ptr]; [rewrite !zlen_app; change (zlen [0]) with 1; lia|congruence| |rewrite !zlen_app; change (zlen [0]) with 1; lia|lia].
  apply (mem_at_prefix (ptr b1)); [done| |].
  - replace (length bs) with (Z.to_nat (zlen bs)) by (unfold zlen; lia). apply mem_at_appz; [done|]. split; [|done].
    eapply mem_at_frame; [split; [exact P1|exact P2]|left; unfold zlen; lia|done].
  - intros k Hk. rewrite P2 by (unfold zlen in *; lia). apply O2. unfold zlen. lia.
Qed.

Lemma appends_key type key tail : is_byte type → utf8_valid key = true →
  appends (type :: key ++ [0]) (λ b, append_key junk b type (key, tail)).
Proof. intros Ht Hk. apply (appends_then [type] (key ++ [0])); [by apply appends_byte|by apply appends_string]. Qed.
End writing.

(** ** The format *)

Notation image_t := (Z * list Z * tree)%type (only parsing).

(** A string without a zero inside. *)
Definition no_zero (s : list Z) : bool := forallb (λ c, negb (c =? 0)) s.
Definition key_ok (s : list Z) : bool := utf8_valid s && no_zero s.

(** The two strings of a regular expression. *)
Definition regex_ok (body : list Z) : bool :=
  let a := c_str body in
  match drop (length a) body with
  | c :: r => (c =? 0) && bool_decide (drop (length (c_str r)) r = [0]) && utf8_valid a && utf8_valid (c_str r)
  | [] => false
  end.

(** The length in an object of a type that Lua does not look into. *)
Definition raw_ok (subt : Z) (body : list Z) : bool :=
  let n := i32 (le_value (take 4 body)) in
  (4 <=? zlen body) && (0 <=? n) &&
  (if subt =? BSON_DBPOINTER then zlen body =? n + 16 else if subt =? BSON_CODEWS then zlen body =? n else zlen body =? n + 4).

(** Type, bytes and meaning of a string that stands for another value. *)
Definition object_image (s : list Z) (subt : Z) (body : list Z) : option image_t :=
  let n := zlen body in
  if subt =? BSON_BINARY then
    match body with [] => None | _ :: d => Some (subt, le_bytes 4 (u32 (zlen d)) ++ body, TString s) end
  else if subt =? BSON_OBJECTID then if n =? 12 then Some (subt, body, TString s) else None
  else if (subt =? BSON_JSCODE) || (subt =? BSON_DBPOINTER) || (subt =? BSON_SYMBOL) || (subt =? BSON_CODEWS) then
    if raw_ok subt body then Some (subt, body, TString s) else None
  else if subt =? BSON_DATE then
    if (n =? 4) && bool_decide (bytes body) then Some (subt, le_bytes 8 (u64 (le_value body * 1000)), TString s) else None
  else if subt =? BSON_TIMESTAMP then if (n =? 8) && bool_decide (bytes body) then Some (subt, body, TString s) else None
  else if subt =? BSON_REGEX then if regex_ok body then Some (subt, body, TString s) else None
  else if (subt =? BSON_MINKEY) || (subt =? BSON_MAXKEY) || (subt =? BSON_NULL) then Some (subt, [], TString [0; subt])
  else if subt =? BSON_INT64 then
    if (n =? 8) && bool_decide (bytes body) then Some (subt, body, TInteger (i64 (le_value body))) else None
  else None.

Definition string_image (s : list Z) : option image_t :=
  match s with
  | c :: subt :: body =>
      if c =? 0 then object_image s subt body
      else if utf8_valid s then Some (BSON_STRING, le_bytes 4 (u32 (zlen s + 1)) ++ s ++ [0], TString s) else None
  | _ => if utf8_valid s then Some (BSON_STRING, le_bytes 4 (u32 (zlen s + 1)) ++ s ++ [0], TString s) else None
  end.

(** A field: the key in the document and in the table, and the value. *)
Record field := MkField { f_key : list Z; f_tkey : tkey; f_value : image_t }.

Definition field_bytes (f : field) : list Z := (f_value f).1.1 :: f_key f ++ [0] ++ (f_value f).1.2.
Definition fields_bytes (fs : list field) : list Z := concat (field_bytes <$> fs).
Definition document_bytes (fs : list field) : list Z :=
  let body := fields_bytes fs in le_bytes 4 (u32 (zlen body + 5)) ++ body ++ [0].
Definition fields_tree (fs : list field) : tree := TTable ((λ f, (f_tkey f, (f_value f).2)) <$> fs).

Section image.
Context (img : lvalue → option image_t).

Definition pair_field (kv : lvalue * lvalue) : option field :=
  match kv.1 with
  | VString key => if key_ok key then MkField key (KString key) <$> img kv.2 else None
  | _ => None
  end.

(** The elements from [i] on; the key of an element is its index from 0. *)
Fixpoint element_fields (i : Z) (elements : list lvalue) : option (list field) :=
  match elements with
  | [] => Some []
  | v :: elements => x ← img v; fs ← element_fields (i + 1) elements; Some (MkField (decimal (i - 1)) (KInteger i) x :: fs)
  end.

Definition array_fields (elements : list lvalue) (len : Z) : option (list field) :=
  if (0 <=? len) && (len <=? zlen elements) && (len <? 2 ^ 31) then element_fields 1 (take (Z.to_nat len) elements) else None.

(** The keys of the table are exactly the numbers from 1 to its length, in any order. *)
Definition sequence (tbl : ltable) : bool :=
  bool_decide (t_elements tbl ≠ []) && (t_rawlen tbl =? zlen (t_elements tbl)) &&
  bool_decide (t_next tbl ≡ₚ imap (λ i v, (VInteger (Z.of_nat i + 1), v)) (t_elements tbl)).

(** The fields of a table, and whether it is an array. A table without the metamethods
    [__len] and [__pairs] is a sequence, or all its keys are strings; BSON has nothing
    for any other. *)
Definition table_fields (tbl : ltable) : option (bool * list field) :=
  match t_len tbl with
  | Some (VInteger len) => pair true <$> array_fields (t_elements tbl) len
  | Some _ => None
  | None =>
      match t_pairs tbl with
      | Some pairs => pair false <$> mapM pair_field pairs
      | None => if sequence tbl then pair true <$> array_fields (t_elements tbl) (zlen (t_elements tbl))
                else pair false <$> mapM pair_field (t_next tbl)
      end
  end.
End image.

(** What becomes of a value: the type and the bytes in a document, and what reading them
    gives. [room] is more than the levels of tables in it. *)
Fixpoint image (heap : gmap positive ltable) (room : nat) (v : lvalue) : option image_t :=
  match v with
  | VBoolean b => Some (BSON_BOOLEAN, [if b then 1 else 0], TBoolean b)
  | VInteger i =>
      if is_32bit i then Some (BSON_INT32, le_bytes 4 (u32 i), TInteger i)
      else if i64 i =? i then Some (BSON_INT64, le_bytes 8 (u64 i), TInteger i) else None
  | VReal d => if (0 <=? d) && (d <? 2 ^ 64) then Some (BSON_REAL, le_bytes 8 d, TReal d) else None
  | VString s => string_image s
  | VTable t =>
      match room with
      | O => None
      | S room =>
          tbl ← heap !! t;
          '(array, fs) ← table_fields (image heap room) tbl;
          Some (if array : bool then BSON_ARRAY else BSON_DOCUMENT, document_bytes fs, fields_tree fs)
      end
  | _ => None
  end.

(** The fields of a document made from a table, which is no array. *)
Definition document_fields (heap : gmap positive ltable) (tbl : ltable) : option (list field) :=
  mapM (pair_field (image heap (Z.to_nat MAX_DEPTH))) (default (t_next tbl) (t_pairs tbl)).

(** ** Encoding writes the format *)

(** The digits of a number. *)
Lemma pretty_digits (x : N) : ∀ acc, digits 10 0 false (codes (pretty_N_go x acc)) = digits 10 (Z.of_N x) (negb (x =? 0)%N) (codes acc) ∧
  (forallb (λ c, within 48 57 c) (codes acc) = true → forallb (λ c, within 48 57 c) (codes (pretty_N_go x acc)) = true).
Proof.
  induction x as [x IH] using (well_founded_induction N.lt_wf_0); intros acc.
  destruct (decide (x = 0%N)) as [->|Hx]; [by rewrite pretty_N_go_0|]. rewrite pretty_N_go_step by lia.
  destruct (IH (x `div` 10)%N ltac:(apply N.div_lt; lia) (String (pretty_N_char (x `mod` 10)) acc)) as [H1 H2].
  set (d := (x `mod` 10)%N) in *. assert (Hd : (d < 10)%N) by (apply N.mod_lt; lia).
  assert (Hc : codes (String (pretty_N_char d) acc) = (48 + Z.of_N d) :: codes acc).
  { unfold codes. cbn [String.list_ascii_of_string fmap list_fmap]. f_equal.
    assert (d = 0 ∨ d = 1 ∨ d = 2 ∨ d = 3 ∨ d = 4 ∨ d = 5 ∨ d = 6 ∨ d = 7 ∨ d = 8 ∨ d = 9)%N as Hcases by lia.
    by destruct Hcases as [->|[->|[->|[->|[->|[->|[->|[->|[->| ->]]]]]]]]]. }
  rewrite Hc in H1, H2. split.
  - rewrite H1. cbn [digits]. unfold digit_of. rewrite (proj2 (Z.leb_le 48 _)), (proj2 (Z.leb_le _ 57)) by lia. cbn [andb].
    rewrite (proj2 (Z.ltb_lt _ 10)) by lia. assert (Hn : (x =? 0)%N = false) by by apply N.eqb_neq. rewrite Hn. f_equal.
    pose proof (N.div_mod x 10 ltac:(lia)). unfold d. lia.
  - intros Ha. apply H2. cbn [forallb]. rewrite Ha, andb_true_r. apply within_spec. lia.
Qed.

Lemma decimal_digits i : 0 ≤ i → digits 10 0 false (decimal i) = (i, true) ∧ forallb (λ c, within 48 57 c) (decimal i) = true ∧ decimal i ≠ [].
Proof.
  intros Hi. unfold decimal. destruct (decide (i = 0)) as [->|Hne]; [done|].
  assert (E : pretty i = pretty_N_go (Z.to_N i) "").
  { destruct i as [|p|p]; [done| |lia]. change (pretty (Z.pos p)) with (pretty (N.pos p)). unfold pretty, pretty_N. cbn [Z.to_N]. by rewrite decide_False by done. }
  rewrite E. destruct (pretty_digits (Z.to_N i) "") as [H1 H2]. assert (Hz : (Z.to_N i =? 0)%N = false) by (apply N.eqb_neq; lia).
  rewrite Hz, Z2N.id in H1 by lia. split_and!; [exact H1|by apply H2|]. intros Hnil. rewrite Hnil in H1. discriminate H1.
Qed.

Lemma digits_key s : forallb (λ c, within 48 57 c) s = true → key_ok s = true.
Proof.
  induction s as [|c s IH]; [done|]. cbn [forallb]. intros [Hc%within_spec Hs]%andb_true_iff. apply IH in Hs. unfold key_ok in *. apply andb_true_iff in Hs as [H1 H2].
  unfold no_zero. cbn [utf8_valid forallb]. unfold within at 1. rewrite (proj2 (Z.leb_le 0 c)), (proj2 (Z.leb_le c 127)) by lia. cbn [andb].
  rewrite H1. cbn [andb]. rewrite (proj2 (Z.eqb_neq c 0)) by lia. cbn [negb andb]. exact H2.
Qed.

Lemma decimal_strtol i : 0 ≤ i < INT_MAX → strtol10 (decimal i) = i.
Proof.
  intros Hi. destruct (decimal_digits i ltac:(lia)) as (H1 & H2 & H3). assert (Hc : c_str (decimal i) = decimal i).
  { clear H1 H3. induction (decimal i) as [|c s IH]; [done|]. cbn in H2 |- *. apply andb_true_iff in H2 as [Hc%within_spec Hs]. rewrite (proj2 (Z.eqb_neq c 0)) by lia. by rewrite IH. }
  unfold strtol10. rewrite Hc. destruct (decimal i) as [|c s] eqn:E; [done|]. cbn [forallb] in H2. apply andb_true_iff in H2 as [Hc1%within_spec _].
  cbn [skip_spaces]. unfold is_space. rewrite (proj2 (Z.eqb_neq c 32)), (proj2 (Z.leb_gt c 13)), andb_false_r by lia. cbn [orb sign_of].
  rewrite (proj2 (Z.eqb_neq c 45)), (proj2 (Z.eqb_neq c 43)) by lia. rewrite H1. cbn [fst]. unfold INT_MAX in Hi.
  rewrite Z.min_r, Z.max_r by lia. apply i32_small. unfold INT_MAX. lia.
Qed.

Lemma lift_bind {A B} (m : outcome A) (k : A → outcome B) : lift (a ← m; k a) = a ⇐ lift m; lift (k a).
Proof. by destruct m. Qed.

Lemma u32_of_i32 z : u32 (i32 z) = u32 z.
Proof. unfold u32, i32. rewrite Zminus_mod, Zmod_mod, <-Zminus_mod. f_equal. lia. Qed.
Lemma u64_i64 z : u64 (i64 z) = u64 z.
Proof. unfold u64, i64. rewrite Zminus_mod, Zmod_mod, <-Zminus_mod. f_equal. lia. Qed.

Lemma le_value_back l n : bytes l → zlen l = Z.of_nat n → 0 ≤ le_value l < 2 ^ (8 * Z.of_nat n) ∧ le_bytes n (le_value l) = l.
Proof.
  intros Hb Hl. pose proof (le_value_range l Hb) as Hr. rewrite Hl in Hr. split; [done|].
  assert (n = length l) as -> by (unfold zlen in Hl; lia). by apply le_value_bytes.
Qed.

(** The code looks at the first key alone: that is enough for a sequence and for a table
    whose keys are strings. *)
Lemma sequence_is_rawarray tbl : sequence tbl = true → is_rawarray tbl = true ∧ t_rawlen tbl = zlen (t_elements tbl).
Proof.
  unfold sequence, is_rawarray. rewrite !andb_true_iff, !bool_decide_eq_true, Z.eqb_eq. intros [[Hne Hl] Hp]. split; [|done].
  destruct (t_next tbl) as [|[k v] kvs]; [apply Permutation_nil_l in Hp; by destruct (t_elements tbl)|].
  assert (Hk : (k, v) ∈ imap (λ i v, (VInteger (Z.of_nat i + 1), v)) (t_elements tbl)) by (rewrite <-Hp; left).
  apply elem_of_lookup_imap_1 in Hk as (i & x & [= -> ->] & Hi%lookup_lt_Some). unfold zlen in Hl.
  destruct (Z.leb_spec (Z.of_nat i + 1) 1); [apply Z.ltb_lt|apply Z.leb_le]; lia.
Qed.

Lemma record_no_rawarray img tbl fs : mapM (pair_field img) (t_next tbl) = Some fs → is_rawarray tbl = false.
Proof.
  unfold is_rawarray. destruct (t_next tbl) as [|[k v] kvs]; [done|]. cbn [mapM].
  intros (f & Hf & _)%bind_Some. unfold pair_field in Hf. cbn [fst] in Hf. by destruct k.
Qed.

Section encoding.
Context (junk : Z → Z).

Lemma appends_document x (fill : bson → luaM bson) : appends x fill →
  appends (le_bytes 4 (u32 (zlen x + 5)) ++ x ++ [0]) (λ b, pack_document junk b fill).
Proof.
  intros Hx. eapply appends_ext; [|apply (appends_length junk (x ++ [0]) (λ b, b ⇐ fill b; lift (write_byte junk b 0)) (λ l b, i32 (size b - l)) (zlen x + 5))].
  - intros b. unfold pack_document. destruct (lift (reserve_length junk b)) as [[e|[l b1]]| | | |]; try done. cbn. by rewrite lbind_assoc.
  - apply appends_then; [done|by apply appends_byte].
  - intros b pre j Hb Hj Hl. rewrite (h_size _ _ Hb), !zlen_app, Hj, u32_of_i32. change (zlen [0]) with 1. f_equal. lia.
Qed.

Lemma appends_fold {A} (f : A → bson → luaM bson) (g : A → list Z) l : (∀ a, a ∈ l → appends (g a) (f a)) →
  appends (concat (g <$> l)) (lfold f l).
Proof.
  induction l as [|a l IH]; intros H; [by apply appends_none|]. cbn [fmap list_fmap concat lfold].
  apply appends_then; [apply H; by left|]. apply IH. intros a' Ha. apply H. by right.
Qed.

Lemma appends_copied body tail : appends body (λ b, b ⇐ lift (bson_reserve junk b (i32 (zlen body))); lift (copy_in b (body ++ tail) (zlen body))).
Proof.
  apply appends_copy; [done| |rewrite zlen_app; pose proof (zlen_nonneg tail); lia].
  intros k x Hk. cbn. by apply lookup_app_l_Some.
Qed.

Lemma appends_binary st d tail : appends (le_bytes 4 (u32 (zlen d)) ++ st :: d) (λ b, lift (write_binary junk b (st :: d ++ tail) (zlen (st :: d)))).
Proof.
  eapply appends_ext; [|apply (appends_length junk (st :: d) (λ b, b ⇐ lift (bson_reserve junk b (i32 (zlen (st :: d)))); lift (copy_in b (st :: d ++ tail) (zlen (st :: d))))
    (λ _ _, i32 (zlen (st :: d) - 1)) (zlen d))].
  - intros b. unfold write_binary. rewrite lift_bind. destruct (reserve_length junk b) as [[l b1]| | | |]; try done. rewrite !lift_Ret, !lbind_lret. cbv beta iota.
    rewrite lift_bind, lbind_assoc. destruct (bson_reserve junk b1 _) as [b2| | | |]; try done. rewrite !lift_Ret, !lbind_lret, lift_bind. done.
  - apply (appends_copied (st :: d) tail).
  - intros b pre j _ _ _. rewrite u32_of_i32, zlen_cons. f_equal. lia.
Qed.

Lemma mread_front (l tail : list Z) n : zlen l = n → mread (l ++ tail) 0 n = Ret l.
Proof.
  intros <-. apply mread_at; [done|rewrite zlen_app; pose proof (zlen_nonneg tail); lia|]. intros k x Hk. by apply lookup_app_l_Some.
Qed.

Lemma c_str_no_zero s : no_zero (c_str s) = true.
Proof. induction s as [|c s IH]; [done|]. cbn [c_str]. destruct (c =? 0) eqn:E; [done|]. cbn. by rewrite E. Qed.

Lemma regex_split body : regex_ok body = true → ∃ a b, body = a ++ 0 :: b ++ [0] ∧ no_zero a = true ∧ no_zero b = true ∧
  utf8_valid a = true ∧ utf8_valid b = true.
Proof.
  unfold regex_ok. assert (Hpre : ∀ s, s = c_str s ++ drop (length (c_str s)) s).
  { induction s as [|c s IH]; [done|]. cbn [c_str]. destruct (c =? 0); [done|]. cbn. by rewrite <-IH. }
  destruct (drop (length (c_str body)) body) as [|c r] eqn:E; [done|]. rewrite !andb_true_iff.
  intros [[[H1%Z.eqb_eq H2%bool_decide_eq_true] H3] H4]. subst c. exists (c_str body), (c_str r). split_and!; try apply c_str_no_zero; try done.
  rewrite (Hpre body) at 1. rewrite E. do 2 f_equal. rewrite (Hpre r) at 1. by rewrite H2.
Qed.

Lemma regex_turn_eq str len i : regex_turn str len i =
  if i <? len then x ← aget str (u64 (len - i - 1)); if x =? 0 then Ret (inr i) else Ret (inl (i + 1)) else Ret (inr i).
Proof. done. Qed.

Lemma regex_loop (a b tail : list Z) : no_zero b = true → zlen (a ++ 0 :: b) < 2 ^ 63 → ∀ fuel i, 0 ≤ i ≤ zlen b → zlen b - i < Z.of_nat fuel →
  loop fuel (regex_turn (a ++ 0 :: b ++ tail) (zlen (a ++ 0 :: b))) i = Ret (zlen b).
Proof.
  intros Hz Hl fuel. rewrite zlen_app, zlen_cons in *. pose proof (zlen_nonneg a). induction fuel as [|fuel IH]; intros i Hi Hf; [lia|]. rewrite loop_S, regex_turn_eq.
  rewrite (proj2 (Z.ltb_lt _ _)) by lia. unfold u64. rewrite Z.mod_small by lia.
  destruct (decide (i = zlen b)) as [->|Hne].
  - assert (E : aget (a ++ 0 :: b ++ tail) (zlen a + (1 + zlen b) - zlen b - 1) = Ret 0).
    { apply aget_Ret. split; [lia|]. replace (Z.to_nat _) with (length a) by (unfold zlen; lia). by apply list_lookup_middle. }
    rewrite E. done.
  - destruct (lookup_lt_is_Some_2 b (Z.to_nat (zlen b - i - 1))) as [x Hx]; [unfold zlen in *; lia|].
    assert (E : aget (a ++ 0 :: b ++ tail) (zlen a + (1 + zlen b) - i - 1) = Ret x).
    { apply aget_Ret. split; [lia|]. rewrite lookup_app_r by (unfold zlen in *; lia).
      replace (Z.to_nat _ - length a)%nat with (S (Z.to_nat (zlen b - i - 1))) by (unfold zlen in *; lia). cbn. by apply lookup_app_l_Some. }
    rewrite E. bsimpl. unfold no_zero in Hz. rewrite forallb_forall in Hz.
    assert (Hx0 : (x =? 0) = false) by (apply negb_true_iff, Hz, list_elem_of_In; by eapply list_elem_of_lookup_2). rewrite Hx0. bsimpl. apply IH; lia.
Qed.

Lemma appends_regex a b : no_zero b = true → utf8_valid a = true → utf8_valid b = true →
  appends (a ++ 0 :: b ++ [0]) (λ bs, append_regex junk bs (a ++ 0 :: b ++ [0; 0]) (zlen (a ++ 0 :: b))).
Proof.
  intros Hz Ha Hb bs x Hx Hl. pose proof (zlen_nonneg a). pose proof (zlen_nonneg b). pose proof (zlen_nonneg x). unfold LIMIT in Hl.
  rewrite zlen_app, zlen_cons, zlen_app in Hl. change (zlen [0]) with 1 in Hl. unfold append_regex.
  rewrite (regex_loop a b [0; 0]); [|done|rewrite zlen_app, zlen_cons; lia|lia|rewrite length_app; cbn [length]; rewrite length_app; unfold zlen; lia].
  rewrite lift_Ret, lbind_lret. rewrite zlen_app, zlen_cons. unfold u64. rewrite Z.mod_small by lia. replace (zlen a + (1 + zlen b) - zlen b - 1) with (zlen a) by lia.
  replace (Z.to_nat (zlen a + (1 + zlen b) - zlen b)) with (length a + 1)%nat by (unfold zlen; lia).
  rewrite <-drop_drop, drop_app_length. cbn [drop]. replace (b ++ [0; 0]) with (b ++ [0] ++ [0]) by done.
  replace (a ++ 0 :: b ++ [0]) with ((a ++ [0]) ++ (b ++ [0])) by by rewrite <-app_assoc.
  apply (appends_then (a ++ [0]) (b ++ [0]) (λ bs, write_string junk bs (a ++ 0 :: b ++ [0] ++ [0]) (zlen a)) (λ bs, write_string junk bs (b ++ [0] ++ [0]) (zlen b)));
    [by apply appends_string|by apply appends_string|done|]. rewrite !zlen_app. change (zlen [0]) with 1. unfold LIMIT. lia.
Qed.
Lemma appends_field bt key tail bs f : is_byte bt → utf8_valid key = true → appends bs f →
  appends (bt :: key ++ [0] ++ bs) (λ b, b ⇐ append_key junk b bt (key, tail); f b).
Proof.
  intros Hb Hk Hf. replace (bt :: key ++ [0] ++ bs) with ((bt :: key ++ [0]) ++ bs) by (cbn; by rewrite <-app_assoc).
  apply appends_then; [by apply appends_key|done].
Qed.

Lemma appends_timestamp body : bytes body → zlen body = 8 →
  appends body (λ b, lift (inc ← mread (body ++ [0]) 0 4; ts ← mread (body ++ [0]) 4 4;
                           b ← write_int32 junk b (i32 (le_value inc)); write_int32 junk b (i32 (le_value ts)))).
Proof.
  intros Hb Hl. set (x := take 4 body). set (y := drop 4 body). assert (E : body = x ++ y) by (symmetry; apply take_drop).
  assert (Hx : zlen x = 4) by (unfold x, zlen in *; rewrite length_take; lia). assert (Hy : zlen y = 4) by (unfold y, zlen in *; rewrite length_drop; lia).
  assert (Hbx : bytes x) by (by apply Forall_take). assert (Hby : bytes y) by (by apply Forall_drop).
  destruct (le_value_back x 4 Hbx Hx) as [Rx Bx], (le_value_back y 4 Hby Hy) as [Ry By]. change (2 ^ (8 * Z.of_nat 4)) with (2 ^ 32) in Rx, Ry.
  clearbody x y. subst body.
  assert (Happ : appends (x ++ y) (λ b, b ⇐ lift (write_int32 junk b (i32 (le_value x))); lift (write_int32 junk b (i32 (le_value y))))).
  { apply (appends_then x y (λ b, lift (write_int32 junk b (i32 (le_value x)))) (λ b, lift (write_int32 junk b (i32 (le_value y))))).
    - rewrite <-Bx at 1. rewrite <-(u32_small (le_value x)) at 1 by done. rewrite <-u32_of_i32. apply appends_int32.
    - rewrite <-By at 1. rewrite <-(u32_small (le_value y)) at 1 by done. rewrite <-u32_of_i32. apply appends_int32. }
  eapply appends_ext; [|exact Happ]. intros b. rewrite <-app_assoc, mread_front by done. bsimpl.
  replace (mread (x ++ y ++ [0]) 4 4) with (Ret y).
  2: { symmetry. rewrite <-Hy at 2. apply mread_at; [done|rewrite !zlen_app; change (zlen [0]) with 1; lia|]. intros k z Hk.
       replace (Z.to_nat 4) with (length x) by (unfold zlen in Hx; lia). rewrite lookup_app_r by lia. rewrite Nat.add_comm, Nat.add_sub. by apply lookup_app_l_Some. }
  bsimpl. by rewrite lift_bind.
Qed.

Lemma some_inj3 {A B C} (a a' : A) (b b' : B) (c c' : C) : Some (a, b, c) = Some (a', b', c') → a = a' ∧ b = b' ∧ c = c'.
Proof. by intros [= -> -> ->]. Qed.

Lemma appends_object_value s subt body bt bs tr : object_image s subt body = Some (bt, bs, tr) →
  subt = bt ∧ is_byte subt ∧ appends bs (λ b, object_value junk b subt (body ++ [0]) (2 + zlen body)).
Proof.
  intros Himg. pose proof (zlen_nonneg body) as Hn. unfold object_image in Himg. unfold object_value. replace (2 + zlen body - 2) with (zlen body) by lia. cbv zeta in Himg |- *.
  assert (Hraw : appends body (λ b, b ⇐ lift (bson_reserve junk b (i32 (zlen body))); lift (copy_in b (body ++ [0]) (zlen body)))) by apply appends_copied.
  destruct (subt =? BSON_BINARY) eqn:E1; [|destruct (subt =? BSON_OBJECTID) eqn:E2; [|destruct ((subt =? BSON_JSCODE) || _ || _ || _) eqn:E3;
    [|destruct (subt =? BSON_DATE) eqn:E4; [|destruct (subt =? BSON_TIMESTAMP) eqn:E5; [|destruct (subt =? BSON_REGEX) eqn:E6;
    [|destruct ((subt =? BSON_MINKEY) || _ || _) eqn:E7; [|destruct (subt =? BSON_INT64) eqn:E8; [|done]]]]]]]].
  - apply Z.eqb_eq in E1. destruct body as [|st d]; [done|]. apply some_inj3 in Himg as (<- & <- & _). split_and!; [done|by rewrite E1|]. apply (appends_binary st d [0]).
  - destruct (zlen body =? 12) eqn:En; [|done]. apply some_inj3 in Himg as (<- & <- & _). apply Z.eqb_eq in E2, En. split_and!; [done|by rewrite E2|].
    rewrite (proj2 (Z.eqb_eq (2 + zlen body) _)) by lia. exact Hraw.
  - destruct (raw_ok subt body); [|done]. apply some_inj3 in Himg as (<- & <- & _).
    assert (is_byte subt) by (rewrite !orb_true_iff, !Z.eqb_eq in E3; destruct E3 as [[[-> | ->]| ->]| ->]; done). done.
  - destruct (zlen body =? 4) eqn:En; [|done]. cbn [andb] in Himg. case_bool_decide as Hb; [|done]. apply some_inj3 in Himg as (<- & <- & _). apply Z.eqb_eq in E4, En.
    split_and!; [done|by rewrite E4|]. rewrite (proj2 (Z.eqb_eq (2 + zlen body) _)) by lia. cbn [negb].
    eapply appends_ext; [|apply appends_int64]. intros b. by rewrite mread_front.
  - destruct (zlen body =? 8) eqn:En; [|done]. cbn [andb] in Himg. case_bool_decide as Hb; [|done]. apply some_inj3 in Himg as (<- & <- & _). apply Z.eqb_eq in E5, En.
    split_and!; [done|by rewrite E5|]. rewrite (proj2 (Z.eqb_eq (2 + zlen body) _)) by lia. cbn [negb]. by apply appends_timestamp.
  - destruct (regex_ok body) eqn:Er; [|done]. apply some_inj3 in Himg as (<- & <- & _). apply Z.eqb_eq in E6.
    split_and!; [done|by rewrite E6|]. intros b0 bs0 Hb0 Hl0. pose proof (zlen_nonneg bs0). unfold LIMIT in Hl0. assert (Hlen : zlen body < 2 ^ 62) by lia.
    revert b0 bs0 Hb0 Hl0 H. cut (appends body (λ b, append_regex junk b (body ++ [0]) (u64 (2 + zlen body - 3)))); [intros Happ b0 bs0 Hb0 Hl0 _; by apply Happ|].
    destruct (regex_split body Er) as (x & y & -> & _ & Hy & Hvx & Hvy).
    replace (u64 _) with (zlen (x ++ 0 :: y)). 2: { unfold u64. rewrite !zlen_app, !zlen_cons, !zlen_app in *. change (zlen [0]) with 1 in *. pose proof (zlen_nonneg x). pose proof (zlen_nonneg y). rewrite Z.mod_small; lia. }
    replace ((x ++ 0 :: y ++ [0]) ++ [0]) with (x ++ 0 :: y ++ [0; 0]) by (rewrite <-app_assoc; cbn; by rewrite <-app_assoc). by apply appends_regex.
  - apply some_inj3 in Himg as (<- & <- & _). assert (is_byte subt) by (rewrite !orb_true_iff, !Z.eqb_eq in E7; destruct E7 as [[-> | ->]| ->]; done).
    split_and!; [done|done|]. apply appends_none.
  - destruct (zlen body =? 8) eqn:En; [|done]. cbn [andb] in Himg. case_bool_decide as Hb; [|done]. apply some_inj3 in Himg as (<- & <- & _). apply Z.eqb_eq in E8, En.
    split_and!; [done|by rewrite E8|]. rewrite (proj2 (Z.eqb_eq (2 + zlen body) _)) by lia. cbn [negb].
    destruct (le_value_back body 8 Hb En) as [Rb Bb]. change (2 ^ (8 * Z.of_nat 8)) with (2 ^ 64) in Rb.
    eapply appends_ext; [intros b; rewrite mread_front by done; reflexivity|]. rewrite <-Bb at 1.
    replace (le_value body) with (u64 (i64 (le_value body))) at 1 by (rewrite u64_i64; unfold u64; by rewrite Z.mod_small). apply appends_int64.
Qed.

Lemma appends_object s subt body bt bs tr key tail : s = 0 :: subt :: body → object_image s subt body = Some (bt, bs, tr) → utf8_valid key = true →
  appends (bt :: key ++ [0] ++ bs) (λ b, append_object junk b (key, tail) s).
Proof.
  intros -> Himg Hk. destruct (appends_object_value _ _ _ _ _ _ Himg) as (<- & Hb & Happ).
  eapply appends_ext; [|by apply (appends_field subt key tail bs (λ b, object_value junk b subt (body ++ [0]) (2 + zlen body)))].
  intros b. unfold append_object. change (aget (0 :: subt :: body) 1) with (Ret subt). rewrite lift_Ret, lbind_lret.
  change (drop 2 (lua_chars (0 :: subt :: body))) with (body ++ [0]). rewrite !zlen_cons. by replace (1 + (1 + zlen body)) with (2 + zlen body) by lia.
Qed.
Lemma appends_plain s key tail : utf8_valid s = true → utf8_valid key = true →
  appends (BSON_STRING :: key ++ [0] ++ le_bytes 4 (u32 (zlen s + 1)) ++ s ++ [0]) (λ b, append_string junk b (key, tail) s).
Proof.
  intros Hs Hk. apply (appends_field BSON_STRING key tail (le_bytes 4 (u32 (zlen s + 1)) ++ s ++ [0])
    (λ b, '(off, b) ⇐ lift (reserve_length junk b); b ⇐ write_string junk b (lua_chars s) (zlen s); lift (write_length b (i32 (zlen s + 1)) off))); [done|done|].
  apply (appends_length junk (s ++ [0]) (λ b, write_string junk b (lua_chars s) (zlen s)) (λ _ _, i32 (zlen s + 1)) (zlen s + 1)).
  - by apply appends_string.
  - intros _ pre j _ _ _. apply u32_of_i32.
Qed.

Lemma appends_integer i key tail bt bs tr heap room : image heap room (VInteger i) = Some (bt, bs, tr) → utf8_valid key = true →
  appends (bt :: key ++ [0] ++ bs) (λ b, append_integer junk b (key, tail) i).
Proof.
  intros Himg Hk. unfold append_integer. assert (Himg' : (if is_32bit i then Some (BSON_INT32, le_bytes 4 (u32 i), TInteger i)
    else if i64 i =? i then Some (BSON_INT64, le_bytes 8 (u64 i), TInteger i) else None) = Some (bt, bs, tr)) by by destruct room.
  destruct (is_32bit i).
  - apply some_inj3 in Himg' as (<- & <- & _). apply (appends_field BSON_INT32 key tail _ (λ b, lift (write_int32 junk b i))); [done|done|apply appends_int32].
  - destruct (i64 i =? i); [|done]. apply some_inj3 in Himg' as (<- & <- & _). apply (appends_field BSON_INT64 key tail _ (λ b, lift (write_int64 junk b i))); [done|done|apply appends_int64].
Qed.

Section level.
Context (append : bson → list Z * list Z → lvalue → luaM bson) (img : lvalue → option image_t).
Context (Happend : ∀ v bt bs tr key tail, img v = Some (bt, bs, tr) → utf8_valid key = true →
  appends (bt :: key ++ [0] ++ bs) (λ b, append b (key, tail) v)).

Lemma appends_pairs pairs fs : mapM (pair_field img) pairs = Some fs → appends (fields_bytes fs) (lfold (pack_dict_data append) pairs).
Proof.
  intros H%mapM_Some_1. induction H as [|[k v] f pairs fs Hf _ IH]; [by apply appends_none|]. cbn [lfold].
  change (fields_bytes (f :: fs)) with (field_bytes f ++ fields_bytes fs).
  apply (appends_then (field_bytes f) (fields_bytes fs) (pack_dict_data append (k, v)) (lfold (pack_dict_data append) pairs)); [|done].
  unfold pair_field in Hf. cbn [fst snd] in Hf. unfold pack_dict_data. cbn [fst snd]. destruct k as [| | | |key| | |]; try done.
  destruct (key_ok key) eqn:Ek; [|done]. apply fmap_Some in Hf as ([[bt bs] tr] & Hv & ->). apply andb_true_iff in Ek as [Ek _].
  by apply Happend with (tr := tr).
Qed.

Lemma appends_elements elements : ∀ i len fs, 1 ≤ i → len = i - 1 + zlen (take (Z.to_nat (len - i + 1)) elements) → len < 2 ^ 31 →
  element_fields img i (take (Z.to_nat (len - i + 1)) elements) = Some fs →
  appends (fields_bytes fs) (λ b, pack_elements append b elements i len).
Proof.
  induction elements as [|v elements IH]; intros i len fs Hi Hlen Hmax Hfs; cbn [pack_elements].
  - rewrite take_nil in Hlen, Hfs. rewrite zlen_nil in Hlen. injection Hfs as <-. rewrite (proj2 (Z.ltb_lt len i)) by lia. apply appends_none.
  - destruct (len <? i) eqn:E; [apply Z.ltb_lt in E|apply Z.ltb_ge in E].
    + replace (Z.to_nat (len - i + 1)) with 0%nat in Hfs by lia. injection Hfs as <-. apply appends_none.
    + replace (Z.to_nat (len - i + 1)) with (S (Z.to_nat (len - (i + 1) + 1))) in Hlen, Hfs by lia. cbn [take element_fields] in Hlen, Hfs. rewrite zlen_cons in Hlen.
      apply bind_Some in Hfs as ([[bt bs] tr] & Hv & Hfs). apply bind_Some in Hfs as (fs' & Hfs & [= <-]).
      change (fields_bytes (MkField (decimal (i - 1)) (KInteger i) (bt, bs, tr) :: fs')) with ((bt :: decimal (i - 1) ++ [0] ++ bs) ++ fields_bytes fs').
      apply (appends_then _ _ (λ b, append b (bson_numstr (i - 1)) v) (λ b, pack_elements append b elements (i + 1) len)).
      * unfold bson_numstr. rewrite u32_small by lia. apply (Happend v bt bs tr (decimal (i - 1)) [0]); [done|].
        destruct (decimal_digits (i - 1) ltac:(lia)) as (_ & Hd & _). apply digits_key in Hd. by apply andb_true_iff in Hd as [? _].
      * by apply IH; [lia|lia|done|].
Qed.

Lemma appends_table tbl array fs key tail : table_fields img tbl = Some (array, fs) → utf8_valid key = true →
  appends ((if array : bool then BSON_ARRAY else BSON_DOCUMENT) :: key ++ [0] ++ document_bytes fs) (λ b, append_table junk append b (key, tail) tbl).
Proof.
  intros Hfs Hk. unfold table_fields in Hfs.
  assert (Hpairs : ∀ pairs, pair false <$> mapM (pair_field img) pairs = Some (array, fs) →
    appends ((if array then BSON_ARRAY else BSON_DOCUMENT) :: key ++ [0] ++ document_bytes fs)
      (λ b, b ⇐ append_key junk b BSON_DOCUMENT (key, tail); pack_document junk b (lfold (pack_dict_data append) pairs))).
  { intros pairs (fs' & Hfs' & [= -> <-])%fmap_Some. apply (appends_field BSON_DOCUMENT key tail (document_bytes fs) (λ b, pack_document junk b (lfold (pack_dict_data append) pairs))); [done|done|].
    apply appends_document. by apply appends_pairs. }
  assert (Hlist : ∀ len, pair true <$> array_fields img (t_elements tbl) len = Some (array, fs) →
    0 ≤ len < 2 ^ 31 ∧ appends ((if array then BSON_ARRAY else BSON_DOCUMENT) :: key ++ [0] ++ document_bytes fs)
      (λ b, b ⇐ append_key junk b BSON_ARRAY (key, tail); pack_array junk append b tbl len)).
  { intros len (fs' & Hfs' & [= -> <-])%fmap_Some. unfold array_fields in Hfs'.
    destruct ((0 <=? len) && (len <=? zlen (t_elements tbl)) && (len <? 2 ^ 31)) eqn:E; [|done]. rewrite !andb_true_iff, !Z.leb_le, Z.ltb_lt in E. split; [lia|].
    apply (appends_field BSON_ARRAY key tail (document_bytes fs) (λ b, pack_array junk append b tbl len)); [done|done|].
    apply appends_document. apply appends_elements; replace (len - 1 + 1) with len by lia; [lia| |lia|done].
    unfold zlen in *. rewrite length_take. lia. }
  unfold append_table. destruct (t_len tbl) as [[| |len| | | | |]|]; try done.
  - destruct (Hlist len Hfs) as [Hr Happ]. unfold u64. rewrite Z.mod_small by lia. exact Happ.
  - destruct (t_pairs tbl) as [pairs|]; [by apply Hpairs|]. destruct (sequence tbl) eqn:Es.
    + apply sequence_is_rawarray in Es as [-> Hlen]. rewrite Hlen. by apply Hlist.
    + pose proof Hfs as (fs' & Hraw & _)%fmap_Some. rewrite (record_no_rawarray _ _ _ Hraw). by apply Hpairs.
Qed.
End level.

Lemma appends_one heap room : ∀ v bt bs tr key tail, image heap room v = Some (bt, bs, tr) → utf8_valid key = true →
  appends (bt :: key ++ [0] ++ bs) (λ b, append_one junk heap room b (key, tail) v).
Proof.
  induction room as [|room IH]; intros v bt bs tr key tail Himg Hk; destruct v as [|x|i|d|s|doc|t|]; try done.
  1, 5: cbn in Himg |- *; apply some_inj3 in Himg as (<- & <- & _);
    apply (appends_field BSON_BOOLEAN key tail [if x then 1 else 0] (λ b, lift (write_byte junk b (if x then 1 else 0)))); [done|done|]; by apply appends_byte; destruct x.
  1, 4: by eapply appends_integer.
  1, 3: cbn in Himg |- *; destruct ((0 <=? d) && (d <? 2 ^ 64)); [|done]; apply some_inj3 in Himg as (<- & <- & _);
    apply (appends_field BSON_REAL key tail (le_bytes 8 d) (λ b, lift (write_double junk b d))); [done|done|]; apply appends_double.
  3: { cbn [image append_one] in Himg |- *. destruct (heap !! t) as [tbl|]; [|done]. cbn in Himg. destruct (table_fields (image heap room) tbl) as [[array fs]|] eqn:Hfs; [|done].
       cbn in Himg. apply some_inj3 in Himg as (<- & <- & _). by apply (appends_table (append_one junk heap room) (image heap room) IH). }
  all: cbn [image append_one] in Himg |- *; unfold string_image in Himg; destruct s as [|c [|subt body]].
  1, 4: by destruct (utf8_valid []) eqn:E; [|done]; apply some_inj3 in Himg as (<- & <- & _); apply appends_plain.
  1, 3: destruct (utf8_valid [c]) eqn:E; [|done]; apply some_inj3 in Himg as (<- & <- & _); by apply appends_plain.
  all: rewrite !zlen_cons; pose proof (zlen_nonneg body); rewrite (proj2 (Z.ltb_lt 1 _)) by lia; cbn [andb head];
    destruct (c =? 0) eqn:Ec; [apply Z.eqb_eq in Ec; subst c; rewrite bool_decide_true by done; by eapply appends_object|];
    apply Z.eqb_neq in Ec; rewrite bool_decide_false by congruence; destruct (utf8_valid (c :: subt :: body)) eqn:E; [|done];
    apply some_inj3 in Himg as (<- & <- & _); by apply appends_plain.
Qed.

Lemma holds_userdata b bs : holds b bs → new_userdata b = lret bs.
Proof.
  intros [H1 H2 H3 H4 H5]. unfold new_userdata. by rewrite H1, mread_at; [|done|lia|].
Qed.

Lemma lencode_spec heap t tbl fs : heap !! t = Some tbl → document_fields heap tbl = Some fs → zlen (document_bytes fs) ≤ LIMIT →
  lencode junk heap (VTable t) = lret (document_bytes fs).
Proof.
  intros Ht Hfs Hl. unfold lencode. rewrite Ht. unfold encode_bson.
  assert (Happ : appends (document_bytes fs) (λ b, pack_document junk b (lfold (pack_dict_data (append_one junk heap (Z.to_nat MAX_DEPTH))) (default (t_next tbl) (t_pairs tbl))))).
  { apply appends_document. eapply appends_pairs; [|exact Hfs]. apply appends_one. }
  destruct (Happ (bson_create junk) [] (holds_create junk)) as (b & Hb & Hh); [exact Hl|].
  assert (E : match t_pairs tbl with Some pairs => pack_meta_dict junk (append_one junk heap (Z.to_nat MAX_DEPTH)) (bson_create junk) pairs
              | None => pack_simple_dict junk (append_one junk heap (Z.to_nat MAX_DEPTH)) (bson_create junk) tbl end = lret b).
  { rewrite <-Hb. by destruct (t_pairs tbl). }
  rewrite E, lbind_lret. by apply holds_userdata.
Qed.
End encoding.

(** ** Decoding reads the format *)

Section decoding.
Context (data : list Z).

(** The bytes [bs] are at [off]. *)
Definition placed (off : Z) (bs : list Z) : Prop := 0 ≤ off ∧ off + zlen bs ≤ zlen data ∧ mem_at data (Z.to_nat off) bs.

Lemma placed_app off x y : placed off (x ++ y) ↔ placed off x ∧ placed (off + zlen x) y.
Proof.
  unfold placed. rewrite zlen_app. pose proof (zlen_nonneg x). pose proof (zlen_nonneg y). split.
  - intros (H1 & H2 & H3). apply mem_at_appz in H3 as [H3 H4]; [|done]. split_and!; done || lia.
  - intros [(H1 & H2 & H3) (H4 & H5 & H6)]. split_and!; [done|lia|]. by apply mem_at_appz.
Qed.

Lemma placed_mread off bs : placed off bs → mread data off (zlen bs) = Ret bs.
Proof. intros (H1 & H2 & H3). by apply mread_at. Qed.

Lemma placed_aget off x i bs : placed off bs → 0 ≤ i → bs !! Z.to_nat i = Some x → aget data (off + i) = Ret x.
Proof.
  intros (H1 & H2 & H3) Hi Hx. apply aget_Ret. split; [lia|]. rewrite Z2Nat.inj_add by lia. by apply H3.
Qed.

(** [f] reads [bs] as [a]. *)
Definition takes {A} (f : bson_reader → luaM (A * bson_reader)) (bs : list Z) (a : A) : Prop :=
  ∀ off sz, placed off bs → zlen bs ≤ sz ≤ INT_MAX → f (MkReader off sz) = lret (a, MkReader (off + zlen bs) (sz - zlen bs)).

Lemma takes_bind {A B} f (g : A → bson_reader → luaM (B * bson_reader)) x y a b : takes f x a → takes (g a) y b →
  takes (λ t, '(a, t) ⇐ f t; g a t) (x ++ y) b.
Proof.
  intros Hf Hg off sz [Hx Hy]%placed_app Hsz. rewrite zlen_app in Hsz. pose proof (zlen_nonneg x). pose proof (zlen_nonneg y).
  rewrite Hf by (done || lia). rewrite lbind_lret. cbv beta iota. rewrite Hg by (done || lia). rewrite zlen_app. do 3 f_equal; lia.
Qed.

Lemma takes_map {A B} (f : bson_reader → luaM (A * bson_reader)) (h : A → B) x a : takes f x a → takes (λ t, '(a, t) ⇐ f t; lret (h a, t)) x (h a).
Proof. intros Hf off sz Hx Hsz. by rewrite Hf. Qed.

Lemma takes_ext {A} f g bs (a : A) : (∀ t, f t = g t) → takes g bs a → takes f bs a.
Proof. intros H Hg off sz Hx Hsz. rewrite H. by apply Hg. Qed.

Lemma takes_word n bs : zlen bs = n → takes (read_word data n) bs (le_value bs).
Proof.
  intros <- off sz Hp Hsz. unfold read_word, check_reader. cbn [r_size r_ptr]. rewrite (proj2 (Z.ltb_ge sz _)) by lia. rewrite lbind_lret.
  by rewrite placed_mread, lift_Ret, lbind_lret.
Qed.

Lemma takes_int32 v : INT_MIN ≤ v ≤ INT_MAX → takes (read_int32 data) (le_bytes 4 (u32 v)) v.
Proof.
  intros Hv. destruct (le_bytes_value 4 (u32 v)) as (E & _ & _); [apply u32_bound|].
  replace v with (i32 (le_value (le_bytes 4 (u32 v)))) at 2.
  - apply (takes_map (read_word data 4) i32). apply takes_word. by rewrite zlen_le_bytes.
  - rewrite E. unfold i32, u32, INT_MIN, INT_MAX in *. rewrite Zplus_mod_idemp_l, Z.mod_small; lia.
Qed.

Lemma takes_int64 v : i64 v = v → takes (read_int64 data) (le_bytes 8 (u64 v)) v.
Proof.
  intros Hv. destruct (le_bytes_value 8 (u64 v)) as (E & _ & _); [apply Z.mod_pos_bound; lia|].
  replace v with (i64 (le_value (le_bytes 8 (u64 v)))) at 2.
  - apply (takes_map (read_word data 8) i64). apply takes_word. by rewrite zlen_le_bytes.
  - rewrite E. rewrite <-Hv at 2. unfold i64, u64. by rewrite Zplus_mod_idemp_l.
Qed.

Lemma takes_byte x : takes (read_byte data) [x] x.
Proof.
  intros off sz Hp Hsz. change (zlen [x]) with 1 in *. unfold read_byte, check_reader. cbn [r_size r_ptr]. rewrite (proj2 (Z.ltb_ge sz 1)) by lia. rewrite lbind_lret.
  pose proof (placed_aget off x 0 [x] Hp ltac:(lia) eq_refl) as E. rewrite Z.add_0_r in E. by rewrite E, lift_Ret, lbind_lret.
Qed.

Lemma takes_cstring s : no_zero s = true → takes (read_cstring data) (s ++ [0]) s.
Proof.
  intros Hz off sz Hp Hsz. rewrite zlen_app in Hsz. change (zlen [0]) with 1 in Hsz. unfold no_zero in Hz. rewrite forallb_forall in Hz.
  assert (Hloop : ∀ fuel i, 0 ≤ i ≤ zlen s → zlen s - i < Z.of_nat fuel → lloop fuel (cstring_turn data (MkReader off sz)) i = lret (zlen s)).
  { induction fuel as [|fuel IH]; intros i Hi Hf; [lia|]. cbn [lloop].
    assert (E : cstring_turn data (MkReader off sz) i = x ⇐ lift (aget data (off + i)); if x =? 0 then lret (inr i) else lret (inl (i + 1))).
    { unfold cstring_turn. cbn [r_size r_ptr]. by rewrite (proj2 (Z.eqb_neq i sz)) by lia. }
    rewrite E. clear E.
    destruct (decide (i = zlen s)) as [->|Hne].
    - rewrite (placed_aget off 0 (zlen s) (s ++ [0]) Hp); [|lia|replace (Z.to_nat (zlen s)) with (length s) by (unfold zlen; lia); by apply list_lookup_middle]. done.
    - destruct (lookup_lt_is_Some_2 s (Z.to_nat i)) as [x Hx]; [unfold zlen in *; lia|].
      rewrite (placed_aget off x i (s ++ [0]) Hp); [|lia|by apply lookup_app_l_Some]. rewrite lift_Ret, lbind_lret.
      assert (Hx0 : (x =? 0) = false) by (apply negb_true_iff, Hz, list_elem_of_In; by eapply list_elem_of_lookup_2). rewrite Hx0, lbind_lret. apply IH; lia. }
  pose proof Hp as (H1 & H2 & _). rewrite zlen_app in H2. change (zlen [0]) with 1 in H2. pose proof (zlen_nonneg s).
  unfold read_cstring. rewrite Hloop; [|lia|unfold zlen in *; lia]. rewrite lbind_lret. apply placed_app in Hp as [Hp _]. cbn [r_ptr r_size].
  rewrite placed_mread, lift_Ret, lbind_lret by done. rewrite zlen_app. done.
Qed.

Lemma read_bytes_eq off sz n : 0 ≤ n ≤ sz → sz ≤ INT_MAX → read_bytes (MkReader off sz) n = lret (off, MkReader (off + n) (sz - n)).
Proof.
  intros H1 H2. unfold read_bytes, check_reader. cbn [r_size r_ptr]. rewrite (proj2 (Z.ltb_ge sz n)) by lia. rewrite lbind_lret.
  rewrite cint_in by (unfold INT_MIN, INT_MAX in *; lia). by rewrite lift_Ret, lbind_lret.
Qed.

Lemma lstring_eq off bs : placed off bs → lua_lstring data off (zlen bs) = lret bs.
Proof.
  intros Hp. unfold lua_lstring. pose proof (zlen_nonneg bs). rewrite (proj2 (Z.ltb_ge _ 0)) by lia. by rewrite placed_mread.
Qed.

(** Bytes that become a string as they are. *)
Lemma takes_string {A} bs (h : list Z → A) :
  takes (λ t, '(p, t) ⇐ read_bytes t (zlen bs); s ⇐ lua_lstring data p (zlen bs); lret (h s, t)) bs (h bs).
Proof.
  intros off sz Hp Hsz. rewrite read_bytes_eq by (pose proof (zlen_nonneg bs); lia). rewrite lbind_lret. cbv beta iota. by rewrite lstring_eq.
Qed.

Lemma takes_pure {A} (a : A) : takes (λ t, lret (a, t)) [] a.
Proof. intros off sz _ _. change (zlen []) with 0. by rewrite Z.add_0_r, Z.sub_0_r. Qed.

(** A body that starts with its length, less [extra]. *)
Lemma takes_raw bt body extra extra' : 4 ≤ zlen body → zlen body = i32 (le_value (take 4 body)) + extra' → extra' = extra + 4 →
  0 ≤ i32 (le_value (take 4 body)) →
  takes (λ t, '(sz, t') ⇐ read_int32 data t;
    n ⇐ lift (cint (sz + extra));
    '(_, t') ⇐ read_bytes t' n;
    len ⇐ lift (cint (sz + extra'));
    v ⇐ make_object data bt (r_ptr t) len; lret (v, t')) body (TString (0 :: bt :: body)).
Proof.
  intros H4 Hlen Hextra Hn off sz Hp Hsz. set (n := i32 (le_value (take 4 body))) in *. cbn [r_ptr].
  assert (Hhd : zlen (take 4 body) = 4) by (unfold zlen in *; rewrite length_take; lia).
  assert (Hp4 : placed off (take 4 body)) by (rewrite <-(take_drop 4 body) in Hp; by apply placed_app in Hp as [? _]).
  unfold read_int32. rewrite (takes_word 4 (take 4 body) Hhd off sz Hp4) by lia. rewrite lbind_lret. cbv beta iota. rewrite lbind_lret. cbv beta iota. fold n. rewrite Hhd.
  rewrite cint_in by (unfold INT_MIN, INT_MAX in *; lia). rewrite lift_Ret, lbind_lret. rewrite read_bytes_eq by lia. rewrite lbind_lret. cbv beta iota.
  rewrite cint_in by (unfold INT_MIN, INT_MAX in *; lia). rewrite lift_Ret, lbind_lret. unfold make_object. rewrite <-Hlen, lstring_eq by done. rewrite !lbind_lret.
  do 3 f_equal; lia.
Qed.

Lemma date_back body : bytes body → zlen body = 4 →
  i64 (le_value body * 1000) = le_value body * 1000 ∧ le_bytes 4 (u32 (Z.quot (le_value body * 1000) 1000)) = body.
Proof.
  intros Hb Hl. destruct (le_value_back body 4 Hb Hl) as [Hr Hbk]. change (2 ^ (8 * Z.of_nat 4)) with (2 ^ 32) in Hr.
  split; [unfold i64; rewrite Z.mod_small; lia|]. rewrite Z.quot_mul by lia. by rewrite u32_small.
Qed.

Lemma takes_timestamp body : bytes body → zlen body = 8 →
  takes (λ t, '(inc, t) ⇐ read_int32 data t; '(ts, t) ⇐ read_int32 data t;
              lret (TString (0 :: BSON_TIMESTAMP :: le_bytes 4 (u32 inc) ++ le_bytes 4 (u32 ts)), t)) body (TString (0 :: BSON_TIMESTAMP :: body)).
Proof.
  intros Hb Hl. set (x := take 4 body). set (y := drop 4 body). assert (E : body = x ++ y) by (symmetry; apply take_drop).
  assert (Hx : zlen x = 4) by (unfold x, zlen in *; rewrite length_take; lia). assert (Hy : zlen y = 4) by (unfold y, zlen in *; rewrite length_drop; lia).
  assert (Hbx : bytes x) by (by apply Forall_take). assert (Hby : bytes y) by (by apply Forall_drop). clearbody x y. subst body.
  destruct (le_value_back x 4 Hbx Hx) as [Rx Bx], (le_value_back y 4 Hby Hy) as [Ry By]. change (2 ^ (8 * Z.of_nat 4)) with (2 ^ 32) in Rx, Ry.
  assert (T : ∀ z, zlen z = 4 → takes (read_int32 data) z (i32 (le_value z))) by (intros z Hz; apply (takes_map (read_word data 4) i32); by apply takes_word).
  replace (TString (0 :: BSON_TIMESTAMP :: x ++ y)) with (TString (0 :: BSON_TIMESTAMP :: le_bytes 4 (u32 (i32 (le_value x))) ++ le_bytes 4 (u32 (i32 (le_value y)))))
    by (rewrite !u32_of_i32, !u32_small, Bx, By by done; done).
  eapply (takes_bind (read_int32 data) _ x y (i32 (le_value x))); [by apply T|].
  apply (takes_map (read_int32 data) (λ ts, TString (0 :: BSON_TIMESTAMP :: le_bytes 4 (u32 (i32 (le_value x))) ++ le_bytes 4 (u32 ts))) y (i32 (le_value y))). by apply T.
Qed.

Lemma takes_plain s : zlen s + 1 ≤ INT_MAX → takes (unpack_simple data BSON_STRING) (le_bytes 4 (u32 (zlen s + 1)) ++ s ++ [0]) (TString s).
Proof.
  intros Hl. pose proof (zlen_nonneg s). eapply takes_ext; [intros t; unfold unpack_simple; cbn [Z.eqb BSON_STRING BSON_REAL BSON_BOOLEAN Pos.eqb orb]; reflexivity|].
  eapply (takes_bind (read_int32 data) _ _ _ (zlen s + 1)); [apply takes_int32; unfold INT_MIN; lia|]. cbv beta. rewrite (proj2 (Z.leb_gt (zlen s + 1) 0)) by lia.
  intros off sz Hp Hsz. rewrite zlen_app in *. change (zlen [0]) with 1 in *. rewrite read_bytes_eq by lia. rewrite lbind_lret. cbv beta iota.
  apply placed_app in Hp as [Hp _]. replace (zlen s + 1 - 1) with (zlen s) by lia. by rewrite lstring_eq.
Qed.

Lemma takes_bounded {A} f bs (a : A) : (zlen bs ≤ INT_MAX → takes f bs a) → takes f bs a.
Proof. intros H off sz Hp Hsz. apply H; [lia|done|done]. Qed.

Ltac leaf := eapply takes_ext; [intros t; unfold unpack_simple;
  cbn [Z.eqb Pos.eqb orb BSON_REAL BSON_BOOLEAN BSON_STRING BSON_BINARY BSON_OBJECTID BSON_DATE BSON_MINKEY BSON_MAXKEY BSON_NULL BSON_REGEX BSON_INT32
    BSON_TIMESTAMP BSON_INT64 BSON_DBPOINTER BSON_JSCODE BSON_SYMBOL BSON_CODEWS]; reflexivity|].

Definition leaf_type (bt : Z) : Prop := bt ≠ BSON_DOCUMENT ∧ bt ≠ BSON_ARRAY.

Lemma takes_object s subt body bt bs tr : s = 0 :: subt :: body → object_image s subt body = Some (bt, bs, tr) →
  leaf_type bt ∧ takes (unpack_simple data bt) bs tr.
Proof.
  intros Hs Himg. cut (leaf_type bt ∧ (zlen bs ≤ INT_MAX → takes (unpack_simple data bt) bs tr)); [intros [? ?]; split; [done|by apply takes_bounded]|].
  pose proof (zlen_nonneg body). unfold object_image in Himg.
  destruct (subt =? BSON_BINARY) eqn:E1; [|destruct (subt =? BSON_OBJECTID) eqn:E2; [|destruct ((subt =? BSON_JSCODE) || _ || _ || _) eqn:E3;
    [|destruct (subt =? BSON_DATE) eqn:E4; [|destruct (subt =? BSON_TIMESTAMP) eqn:E5; [|destruct (subt =? BSON_REGEX) eqn:E6;
    [|destruct ((subt =? BSON_MINKEY) || _ || _) eqn:E7; [|destruct (subt =? BSON_INT64) eqn:E8; [|done]]]]]]]].
  - apply Z.eqb_eq in E1. destruct body as [|st d]; [done|]. apply some_inj3 in Himg as (<- & <- & <-). subst s subt. split; [done|]. intros Hl.
    rewrite zlen_app, zlen_cons, zlen_le_bytes in Hl. pose proof (zlen_nonneg d). leaf.
    eapply (takes_bind (read_int32 data) _ _ (st :: d) (zlen d)); [apply takes_int32; unfold INT_MIN; lia|].
    eapply (takes_bind (read_byte data) _ [st] d st); [apply takes_byte|]. apply (takes_string d (λ s, TString (0 :: BSON_BINARY :: st :: s))).
  - destruct (zlen body =? 12) eqn:En; [|done]. apply some_inj3 in Himg as (<- & <- & <-). apply Z.eqb_eq in E2, En. subst s subt. split; [done|]. intros _. leaf.
    pose proof (takes_string body (λ s, TString (0 :: BSON_OBJECTID :: s))) as T. rewrite En in T. eapply takes_ext; [|exact T].
    intros t. cbv beta. destruct (read_bytes t 12) as [[e|[p t']]| | | |]; [done| |done..]. change (@Ret (string + (Z * bson_reader)) (inr (p, t'))) with (lret (p, t')). rewrite !lbind_lret. cbv beta iota. unfold make_object. by destruct (lua_lstring data p 12) as [[]| | | |].
  - destruct (raw_ok subt body) eqn:Er; [|done]. apply some_inj3 in Himg as (<- & <- & <-). subst s. unfold raw_ok in Er. rewrite !andb_true_iff, !Z.leb_le in Er. destruct Er as [[R1 R2] R3].
    rewrite !orb_true_iff, !Z.eqb_eq in E3. destruct E3 as [[[-> | ->]| ->]| ->]; (split; [done|]; intros _; leaf); apply Z.eqb_eq in R3.
    + apply (takes_raw BSON_JSCODE body 0 4); done || lia.
    + apply (takes_raw BSON_DBPOINTER body 12 16); done || lia.
    + apply (takes_raw BSON_SYMBOL body 0 4); done || lia.
    + apply (takes_raw BSON_CODEWS body (-4) 0); done || lia.
  - destruct (zlen body =? 4) eqn:En; [|done]. cbn [andb] in Himg. case_bool_decide as Hb; [|done]. apply some_inj3 in Himg as (<- & <- & <-). apply Z.eqb_eq in E4, En. subst s subt.
    split; [done|]. intros _. leaf. destruct (date_back body Hb En) as [D1 D2]. rewrite <-D2 at 2.
    apply (takes_map (read_int64 data) (λ date, TString (0 :: BSON_DATE :: le_bytes 4 (u32 (Z.quot date 1000)))) _ (le_value body * 1000)). by apply takes_int64.
  - destruct (zlen body =? 8) eqn:En; [|done]. cbn [andb] in Himg. case_bool_decide as Hb; [|done]. apply some_inj3 in Himg as (<- & <- & <-). apply Z.eqb_eq in E5, En. subst s subt.
    split; [done|]. intros _. leaf. by apply takes_timestamp.
  - destruct (regex_ok body) eqn:Er; [|done]. apply some_inj3 in Himg as (<- & <- & <-). apply Z.eqb_eq in E6. subst s subt. split; [done|]. intros _. leaf.
    destruct (regex_split body Er) as (x & y & -> & Hx & Hy & _ & _). replace (x ++ 0 :: y ++ [0]) with ((x ++ [0]) ++ y ++ [0]) at 1 by (by rewrite <-app_assoc).
    eapply (takes_bind (read_cstring data) _ (x ++ [0]) (y ++ [0]) x); [by apply takes_cstring|].
    apply (takes_map (read_cstring data) (λ r2, TString (0 :: BSON_REGEX :: x ++ 0 :: r2 ++ [0])) (y ++ [0]) y). by apply takes_cstring.
  - apply some_inj3 in Himg as (<- & <- & <-). rewrite !orb_true_iff, !Z.eqb_eq in E7. subst s.
    destruct E7 as [[-> | ->]| ->]; (split; [done|]; intros _; leaf; apply takes_pure).
  - destruct (zlen body =? 8) eqn:En; [|done]. cbn [andb] in Himg. case_bool_decide as Hb; [|done]. apply some_inj3 in Himg as (<- & <- & <-). apply Z.eqb_eq in E8, En. subst s subt.
    split; [done|]. intros _. leaf. apply (takes_map (read_int64 data) TInteger body (i64 (le_value body))).
    apply (takes_map (read_word data 8) i64). by apply takes_word.
Qed.

Lemma takes_leaf heap v bt bs tr room : image heap room v = Some (bt, bs, tr) → (∀ t, v ≠ VTable t) →
  leaf_type bt ∧ takes (unpack_simple data bt) bs tr.
Proof.
  intros Himg Hv. assert (Hplain : ∀ s, (if utf8_valid s then Some (BSON_STRING, le_bytes 4 (u32 (zlen s + 1)) ++ s ++ [0], TString s) else None) = Some (bt, bs, tr) →
    leaf_type bt ∧ takes (unpack_simple data bt) bs tr).
  { intros s Hs. destruct (utf8_valid s); [|done]. apply some_inj3 in Hs as (<- & <- & <-). split; [done|]. apply takes_bounded. rewrite !zlen_app, zlen_le_bytes.
    change (zlen [0]) with 1. intros Hl. apply takes_plain. lia. }
  destruct v as [|x|i|d|s|doc|t|]; try (by destruct room); [| | | |by destruct (Hv t)].
  - replace (image heap room (VBoolean x)) with (Some (BSON_BOOLEAN, [if x then 1 else 0], TBoolean x)) in Himg by by destruct room.
    apply some_inj3 in Himg as (<- & <- & <-). split; [done|]. leaf.
    replace (TBoolean x) with (TBoolean (negb ((if x then 1 else 0) =? 0))) by by destruct x. apply (takes_map (read_byte data) (λ x, TBoolean (negb (x =? 0))) _ _ (takes_byte _)).
  - replace (image heap room (VInteger i)) with (if is_32bit i then Some (BSON_INT32, le_bytes 4 (u32 i), TInteger i)
      else if i64 i =? i then Some (BSON_INT64, le_bytes 8 (u64 i), TInteger i) else None) in Himg by by destruct room.
    unfold is_32bit in Himg. destruct ((INT_MIN <=? i) && (i <=? INT_MAX)) eqn:E; [|destruct (i64 i =? i) eqn:E2; [|done]]; apply some_inj3 in Himg as (<- & <- & <-); (split; [done|]); leaf.
    + apply andb_true_iff in E as [E1%Z.leb_le E2%Z.leb_le]. apply (takes_map (read_int32 data) TInteger). by apply takes_int32.
    + apply Z.eqb_eq in E2. apply (takes_map (read_int64 data) TInteger). by apply takes_int64.
  - replace (image heap room (VReal d)) with (if (0 <=? d) && (d <? 2 ^ 64) then Some (BSON_REAL, le_bytes 8 d, TReal d) else None) in Himg by by destruct room.
    destruct ((0 <=? d) && (d <? 2 ^ 64)) eqn:E; [|done]. apply some_inj3 in Himg as (<- & <- & <-). apply andb_true_iff in E as [E1%Z.leb_le E2%Z.ltb_lt]. split; [done|]. leaf.
    destruct (le_bytes_value 8 d) as (Ed & _ & _); [change (8 * Z.of_nat 8) with 64; lia|]. rewrite <-Ed at 2.
    apply (takes_map (read_double data) TReal). apply takes_word. by rewrite zlen_le_bytes.
  - replace (image heap room (VString s)) with (string_image s) in Himg by by destruct room. unfold string_image in Himg. destruct s as [|c [|subt body]]; [by apply (Hplain [])|by apply (Hplain [c])|].
    destruct (c =? 0) eqn:Ec; [|by apply (Hplain (c :: subt :: body))]. apply Z.eqb_eq in Ec. subst c. by eapply takes_object.
Qed.

(** A field with a value that [read] takes. *)
Definition field_ok (read : Z → bson_reader → luaM (tree * bson_reader)) (array : bool) (f : field) : Prop :=
  no_zero (f_key f) = true ∧ unpack_key array (f_key f) = f_tkey f ∧ takes (read (f_value f).1.1) (f_value f).1.2 (f_value f).2.

Lemma takes_field read array f sets : field_ok read array f →
  ∀ off sz, placed off (field_bytes f) → zlen (field_bytes f) ≤ sz ≤ INT_MAX →
    unpack_field data read array (MkReader off sz, sets) =
      lret (inl (MkReader (off + zlen (field_bytes f)) (sz - zlen (field_bytes f)), sets ++ [(f_tkey f, (f_value f).2)])).
Proof.
  intros (Hk & Htk & Hv) off sz Hp Hsz. unfold field_bytes in *. destruct f as [key tk [[bt bs] tr]]. cbn [f_key f_tkey f_value fst snd] in *.
  replace (bt :: key ++ [0] ++ bs) with ([bt] ++ (key ++ [0]) ++ bs) in * by (cbn; by rewrite <-app_assoc).
  apply placed_app in Hp as [Hp1 [Hp2 Hp3]%placed_app]. rewrite !zlen_app in Hsz |- *. rewrite zlen_app in Hp3. change (zlen [bt]) with 1 in *. change (zlen [0]) with 1 in *.
  pose proof (zlen_nonneg key). pose proof (zlen_nonneg bs). unfold unpack_field. cbn [r_size]. rewrite (proj2 (Z.eqb_neq sz 0)) by lia.
  rewrite (takes_byte bt off sz Hp1) by (change (zlen [bt]) with 1; lia). rewrite lbind_lret. cbv beta iota. change (zlen [bt]) with 1.
  rewrite (takes_cstring key Hk (off + 1) (sz - 1) Hp2) by (rewrite zlen_app; change (zlen [0]) with 1; lia). rewrite lbind_lret. cbv beta iota. rewrite zlen_app. change (zlen [0]) with 1.
  rewrite (Hv (off + 1 + (zlen key + 1)) _ Hp3) by lia. rewrite lbind_lret. cbv beta iota. rewrite Htk. do 4 f_equal; lia.
Qed.

Lemma takes_fields read array fs : Forall (field_ok read array) fs → ∀ fuel off sets, (length fs < fuel)%nat → placed off (fields_bytes fs) → zlen (fields_bytes fs) ≤ INT_MAX →
  lloop fuel (unpack_field data read array) (MkReader off (zlen (fields_bytes fs)), sets) = lret (sets ++ ((λ f, (f_tkey f, (f_value f).2)) <$> fs)).
Proof.
  induction 1 as [|f fs Hf _ IH]; intros [|fuel] off sets Hfuel Hp Hl; cbn [length] in Hfuel; try lia; cbn [lloop].
  - unfold unpack_field at 2. cbn. by rewrite app_nil_r.
  - change (fields_bytes (f :: fs)) with (field_bytes f ++ fields_bytes fs) in *. apply placed_app in Hp as [Hp1 Hp2]. rewrite zlen_app in *.
    pose proof (zlen_nonneg (field_bytes f)). pose proof (zlen_nonneg (fields_bytes fs)).
    rewrite (takes_field read array f sets Hf) by (done || lia). rewrite lbind_lret. cbv beta iota. replace (zlen (field_bytes f) + zlen (fields_bytes fs) - zlen (field_bytes f)) with (zlen (fields_bytes fs)) by lia.
    rewrite IH by (done || lia). by rewrite <-app_assoc.
Qed.

Lemma length_fields fs : (2 * length fs ≤ length (fields_bytes fs))%nat.
Proof.
  induction fs as [|f fs IH]; [done|]. change (fields_bytes (f :: fs)) with (field_bytes f ++ fields_bytes fs). rewrite length_app. unfold field_bytes. cbn [length]. rewrite !length_app. cbn [length]. lia.
Qed.

(** What [unpack_dict] uses for the values in a table. *)
Definition read_value (levels : nat) (bt : Z) (t : bson_reader) : luaM (tree * bson_reader) :=
  if bt =? BSON_DOCUMENT then unpack_dict data levels t false
  else if bt =? BSON_ARRAY then unpack_dict data levels t true
  else unpack_simple data bt t.

Lemma takes_document levels array fs : Forall (field_ok (read_value levels) array) fs →
  takes (λ t, unpack_dict data (S levels) t array) (document_bytes fs) (fields_tree fs).
Proof.
  intros Hfs. apply takes_bounded. unfold document_bytes. rewrite !zlen_app, zlen_le_bytes. change (zlen [0]) with 1. change (Z.of_nat 4) with 4. intros Hl off sz Hp Hsz.
  rewrite !zlen_app, zlen_le_bytes in *. change (zlen [0]) with 1 in *. change (Z.of_nat 4) with 4 in *. pose proof (zlen_nonneg (fields_bytes fs)). set (n := zlen (fields_bytes fs)) in *.
  apply placed_app in Hp as [Hp1 [Hp2 Hp3]%placed_app]. rewrite zlen_le_bytes in *. change (Z.of_nat 4) with 4 in *. cbn [unpack_dict].
  rewrite (takes_int32 (n + 5) ltac:(unfold INT_MIN; lia) off sz Hp1) by (rewrite zlen_le_bytes; change (Z.of_nat 4) with 4; lia). rewrite lbind_lret. cbv beta iota.
  rewrite zlen_le_bytes. change (Z.of_nat 4) with 4. replace (n + 5 - 5) with n by lia. rewrite cint_in by (unfold INT_MIN; lia). rewrite lift_Ret, lbind_lret.
  rewrite read_bytes_eq by lia. rewrite lbind_lret. cbv beta iota. fold n in Hp3.
  rewrite (takes_byte 0 (off + 4 + n) (sz - 4 - n) Hp3) by (change (zlen [0]) with 1; lia). rewrite lbind_lret. cbv beta iota. cbn [Z.eqb negb]. cbv zeta. fold (read_value levels).
  change (λ bt t, if bt =? BSON_DOCUMENT then unpack_dict data levels t false else if bt =? BSON_ARRAY then unpack_dict data levels t true else unpack_simple data bt t) with (read_value levels).
  unfold n. rewrite (takes_fields (read_value levels) array fs Hfs); [|pose proof (length_fields fs); destruct Hp2 as (Hp0 & Hp2 & _); unfold n, zlen in *; lia|done|unfold n in Hl; lia].
  rewrite lbind_lret. cbn [app]. change (zlen [0]) with 1. unfold fields_tree. do 3 f_equal; lia.
Qed.

Section level.
Context (read : Z → bson_reader → luaM (tree * bson_reader)) (img : lvalue → option image_t).
Context (Hread : ∀ v bt bs tr, img v = Some (bt, bs, tr) → takes (read bt) bs tr).

Lemma pairs_ok pairs fs : mapM (pair_field img) pairs = Some fs → Forall (field_ok read false) fs.
Proof.
  intros H%mapM_Some_1. induction H as [|[k v] f pairs fs Hf _ IH]; constructor; [|done].
  unfold pair_field in Hf. cbn [fst snd] in Hf. destruct k as [| | | |key| | |]; try done. destruct (key_ok key) eqn:Ek; [|done].
  apply fmap_Some in Hf as ([[bt bs] tr] & Hv & ->). apply andb_true_iff in Ek as [_ Ek]. split_and!; [done|done|]. by apply (Hread v).
Qed.

Lemma elements_ok elements : ∀ i fs, 1 ≤ i → i - 1 + zlen elements < 2 ^ 31 → element_fields img i elements = Some fs → Forall (field_ok read true) fs.
Proof.
  induction elements as [|v elements IH]; intros i fs Hi Hl Hfs; cbn [element_fields] in Hfs; [by injection Hfs as <-|].
  rewrite zlen_cons in Hl. pose proof (zlen_nonneg elements).
  apply bind_Some in Hfs as ([[bt bs] tr] & Hv & Hfs). apply bind_Some in Hfs as (fs' & Hfs & [= <-]). constructor; [|apply (IH (i + 1)); [lia|lia|done]].
  destruct (decimal_digits (i - 1) ltac:(lia)) as (_ & Hd & _). apply digits_key in Hd. apply andb_true_iff in Hd as [_ Hd]. split_and!; [done| |by apply (Hread v)].
  cbn [f_key f_tkey unpack_key]. f_equal. rewrite decimal_strtol by (unfold INT_MAX; lia). rewrite Z.sub_add. apply i32_small. unfold INT_MAX. lia.
Qed.

Lemma table_ok tbl array fs : table_fields img tbl = Some (array, fs) → Forall (field_ok read array) fs.
Proof.
  assert (Hlist : ∀ len, pair true <$> array_fields img (t_elements tbl) len = Some (array, fs) → Forall (field_ok read array) fs).
  { intros len (fs' & Hfs' & [= -> <-])%fmap_Some. unfold array_fields in Hfs'.
    destruct ((0 <=? len) && (len <=? zlen (t_elements tbl)) && (len <? 2 ^ 31)) eqn:E; [|done]. rewrite !andb_true_iff, !Z.leb_le, Z.ltb_lt in E.
    eapply elements_ok; [|..|exact Hfs']; [lia|]. unfold zlen in *. rewrite length_take. lia. }
  assert (Hpairs : ∀ pairs, pair false <$> mapM (pair_field img) pairs = Some (array, fs) → Forall (field_ok read array) fs).
  { intros pairs (fs' & Hfs' & [= -> <-])%fmap_Some. by eapply pairs_ok. }
  unfold table_fields. destruct (t_len tbl) as [[| |len| | | | |]|]; try done; [apply Hlist|].
  destruct (t_pairs tbl) as [pairs|]; [apply Hpairs|]. destruct (sequence tbl); [apply Hlist|apply Hpairs].
Qed.
End level.

Lemma takes_value heap room : ∀ levels v bt bs tr, (room ≤ levels)%nat → image heap room v = Some (bt, bs, tr) → takes (read_value levels bt) bs tr.
Proof.
  induction room as [|room IH]; intros levels v bt bs tr Hle Himg.
  - assert (Hv : ∀ t, v ≠ VTable t) by (intros t ->; done). destruct (takes_leaf heap v bt bs tr 0 Himg Hv) as [[Hd Ha] Htakes].
    unfold read_value. by rewrite (proj2 (Z.eqb_neq bt BSON_DOCUMENT)), (proj2 (Z.eqb_neq bt BSON_ARRAY)) by done.
  - assert ((∃ t, v = VTable t) ∨ ¬ ∃ t, v = VTable t) as [[t ->]|Hno] by (destruct v as [| | | | | |t|]; [..|left; by exists t|]; right; by intros [? ?]).
    + cbn [image] in Himg. destruct (heap !! t) as [tbl|]; [|done]. cbn in Himg. destruct (table_fields (image heap room) tbl) as [[array fs]|] eqn:Hfs; [|done].
      cbn in Himg. apply some_inj3 in Himg as (<- & <- & <-). destruct levels as [|levels]; [lia|].
      assert (Hok : Forall (field_ok (read_value levels) array) fs) by (eapply table_ok; [|exact Hfs]; intros v bt bs tr; apply IH; lia).
      unfold read_value. by destruct array; apply takes_document.
    + assert (Hv : ∀ t, v ≠ VTable t) by (intros t ->; apply Hno; by eexists). destruct (takes_leaf heap v bt bs tr (S room) Himg Hv) as [[Hd Ha] Htakes].
      unfold read_value. by rewrite (proj2 (Z.eqb_neq bt BSON_DOCUMENT)), (proj2 (Z.eqb_neq bt BSON_ARRAY)) by done.
Qed.
End decoding.

Lemma placed_all bs : placed bs 0 bs.
Proof. split_and!; [done|lia|]. by intros k x Hk. Qed.

Lemma ldecode_spec heap tbl fs levels : document_fields heap tbl = Some fs → zlen (document_bytes fs) ≤ INT_MAX → (Z.to_nat MAX_DEPTH < levels)%nat →
  ldecode (document_bytes fs) levels = lret (fields_tree fs).
Proof.
  intros Hfs Hl Hlev. unfold ldecode, get_length. pose proof (placed_all (document_bytes fs)) as Hp. pose proof Hp as Hp1. unfold document_bytes in Hp1 at 2. apply placed_app in Hp1 as [Hp1 _].
  pose proof Hl as Hl'. unfold document_bytes in Hl'. rewrite !zlen_app, zlen_le_bytes in Hl'. change (zlen [0]) with 1 in Hl'. change (Z.of_nat 4) with 4 in Hl'. pose proof (zlen_nonneg (fields_bytes fs)).
  pose proof (placed_mread _ _ _ Hp1) as E. rewrite zlen_le_bytes in E. change (Z.of_nat 4) with 4 in E. rewrite E. bsimpl. rewrite lift_Ret, lbind_lret.
  destruct (le_bytes_value 4 (u32 (zlen (fields_bytes fs) + 5))) as (-> & _ & _); [apply u32_bound|].
  unfold i32, u32. rewrite Zplus_mod_idemp_l, Z.mod_small by (unfold INT_MAX in Hl'; lia). replace (zlen (fields_bytes fs) + 5 + 2 ^ 31 - 2 ^ 31) with (zlen (document_bytes fs)).
  2: { unfold document_bytes. rewrite !zlen_app, zlen_le_bytes. change (zlen [0]) with 1. change (Z.of_nat 4) with 4. lia. }
  destruct levels as [|levels]; [lia|]. rewrite (takes_document (document_bytes fs) levels false fs); [done| |exact Hp|lia].
  eapply pairs_ok; [|exact Hfs]. intros v bt bs tr. apply takes_value. lia.
Qed.

(** ** Properties *)

(** C37: Decoding gives back what was encoded, for the tables that BSON can say: on every level
    the keys are strings of UTF-8 without a zero byte, or the table is one in a table and its keys
    are exactly the numbers from 1 to its length ([sequence]); each value is one that BSON has.
    (A table with [__len] is the array of that length, one with [__pairs] has the pairs this gives.)
    [lencode] writes the bytes of the format, with the tables in tables as documents or arrays and
    the strings that stand for dates, ids and the like as these, and [ldecode] of the bytes gives
    the same keys and values, on all levels, in the order of [lua_next] (or of [__pairs]), arrays by
    index. What becomes of a table with both numbers and strings as keys is in
    [mixed_table_loses_keys], of a key with a zero byte in [zero_in_key_unreadable]. *)
Theorem bson_round_trip junk heap t tbl fs levels : heap !! t = Some tbl → document_fields heap tbl = Some fs →
  zlen (document_bytes fs) ≤ LIMIT → (Z.to_nat MAX_DEPTH < levels)%nat →
  lencode junk heap (VTable t) = lret (document_bytes fs) ∧ ldecode (document_bytes fs) levels = lret (fields_tree fs).
Proof.
  intros Ht Hfs Hl Hlev. split; [by eapply lencode_spec|]. eapply ldecode_spec; [exact Hfs| |done]. unfold LIMIT, INT_MAX in *. lia.
Qed.

(** The fields of a document whose keys and values are arguments. *)
Fixpoint ordered_fields (heap : gmap positive ltable) (number_text : Z → list Z) (args : list lvalue) : option (list field) :=
  match args with
  | k :: v :: args =>
      key ← lua_tolstring number_text k;
      f ← pair_field (image heap (Z.to_nat MAX_DEPTH)) (VString key, v);
      fs ← ordered_fields heap number_text args; Some (f :: fs)
  | _ => Some []
  end.

Lemma pairwise_ind (P : list lvalue → Prop) : P [] → (∀ k v args, P args → P (k :: v :: args)) → ∀ args, Nat.even (length args) = true → P args.
Proof.
  intros H0 H2 args. induction args as [args IH] using (induction_ltof1 _ length). intros He. destruct args as [|k [|v args]]; [done|done|].
  apply H2, IH; [unfold ltof; cbn; lia|exact He].
Qed.

(** Keys and values that are given as arguments keep their order. *)
Theorem bson_order_round_trip junk heap number_text args fs levels : Nat.even (length args) = true →
  ordered_fields heap number_text args = Some fs → zlen (document_bytes fs) ≤ LIMIT → (Z.to_nat MAX_DEPTH < levels)%nat →
  lencode_order junk heap number_text args = lret (document_bytes fs) ∧ ldecode (document_bytes fs) levels = lret (fields_tree fs).
Proof.
  intros He Hfs Hl Hlev.
  assert (H : appends (fields_bytes fs) (λ b, ordered_pairs junk heap number_text b args) ∧
    ∃ pairs, mapM (pair_field (image heap (Z.to_nat MAX_DEPTH))) pairs = Some fs).
  { clear Hl. revert fs Hfs. revert args He. refine (pairwise_ind _ _ _); [|intros k v args IH]; intros fs Hfs.
    - injection Hfs as <-. split; [apply appends_none|]. by exists [].
    - cbn [ordered_fields] in Hfs. apply bind_Some in Hfs as (key & Hkey & Hfs). apply bind_Some in Hfs as (f & Hf & Hfs). apply bind_Some in Hfs as (fs' & Hfs & [= <-]).
      destruct (IH fs' Hfs) as [IH1 (pairs & IH2)]. split.
      + change (fields_bytes (f :: fs')) with (field_bytes f ++ fields_bytes fs'). cbn [ordered_pairs]. rewrite Hkey.
        apply (appends_then _ _ (λ b, append_one junk heap (Z.to_nat MAX_DEPTH) b (key, [0]) v) (λ b, ordered_pairs junk heap number_text b args)); [|done].
        pose proof (appends_pairs (append_one junk heap (Z.to_nat MAX_DEPTH)) (image heap (Z.to_nat MAX_DEPTH)) (appends_one junk heap _) [(VString key, v)] [f]) as Happ.
        cbn [mapM] in Happ. rewrite Hf in Happ. specialize (Happ eq_refl). unfold fields_bytes in Happ. cbn [fmap list_fmap concat] in Happ. rewrite app_nil_r in Happ.
        eapply appends_ext; [|exact Happ]. intros b. cbn [lfold pack_dict_data fst snd]. by destruct (append_one _ _ _ _ _ _) as [[]| | | |].
      + exists ((VString key, v) :: pairs). cbn [mapM]. rewrite Hf. cbn. by rewrite IH2. }
  destruct H as [Happ (pairs & Hpairs)]. split.
  - unfold lencode_order. rewrite He. cbn [negb]. unfold encode_bson_byorder, pack_ordered_dict.
    destruct (appends_document junk (fields_bytes fs) (λ b, ordered_pairs junk heap number_text b args) Happ (bson_create junk) [] (holds_create junk)) as (b & -> & Hh); [exact Hl|].
    rewrite lbind_lret. by apply holds_userdata.
  - apply (ldecode_spec heap (MkTable None (Some pairs) [] 0 []) fs levels Hpairs); [|done]. unfold LIMIT, INT_MAX in *. lia.
Qed.

(** *** Keys that BSON has not *)

(** The code takes a table for an array when its first key is a number: the other keys
    of [{1, 2, x = 3}] are dropped without an error. *)
Lemma mixed_table_loses_keys : ∃ bs,
  lencode (λ _, 0) (<[2%positive := MkTable None None [VInteger 1; VInteger 2] 2
                        [(VInteger 1, VInteger 1); (VInteger 2, VInteger 2); (VString [120], VInteger 3)]]>
                     {[1%positive := MkTable None None [] 0 [(VString [97], VTable 2)]]}) (VTable 1) = lret bs ∧
  ldecode bs 200 = lret (TTable [(KString [97], TTable [(KInteger 1, TInteger 1); (KInteger 2, TInteger 2)])]).
Proof.
  exists [27; 0; 0; 0; 4; 97; 0; 19; 0; 0; 0; 16; 48; 0; 1; 0; 0; 0; 16; 49; 0; 2; 0; 0; 0; 0; 0].
  split; vm_compute; reflexivity.
Qed.

(** A zero in a key ends it for the reader, which takes the rest of the key for the value:
    the document that is made of the key [a], zero, [b] is not read back. *)
Lemma zero_in_key_unreadable : ∃ bs,
  lencode (λ _, 0) {[1%positive := MkTable None None [] 0 [(VString [97; 0; 98], VInteger 5)]]} (VTable 1) = lret bs ∧
  ldecode bs 200 = luaL_error "Invalid bson type : %d".
Proof. exists [14; 0; 0; 0; 16; 97; 0; 98; 0; 5; 0; 0; 0; 0]. split; vm_compute; reflexivity. Qed.

(** *** Lengths and strings that are believed *)

(** A document in a document that announces a negative length is read before its bytes. *)
Lemma negative_length_reads_before levels : ldecode [11; 0; 0; 0; 3; 0; 24; 252; 255; 255; 0] (2 + levels) = Undef.
Proof. reflexivity. Qed.

Definition one_field (v : lvalue) : gmap positive ltable := {[1%positive := MkTable None None [] 0 [(VString [97], v)]]}.

(** The byte 255 and seven that follow a first byte shift a number by more than its bits. *)
Lemma long_character_undefined : lencode (λ _, 0) (one_field (VString (255 :: replicate 7 128))) (VTable 1) = Undef.
Proof. vm_compute. reflexivity. Qed.

(** A regular expression without a zero between its parts is read behind its end. *)
Lemma single_regex_undefined : lencode (λ _, 0) (one_field (VString [0; BSON_REGEX; 97; 0])) (VTable 1) = Undef.
Proof. vm_compute. reflexivity. Qed.

(** *** Witness *)

Definition example_heap : gmap positive ltable :=
  <[1%positive := MkTable None None [] 0 [(VString [97], VInteger 5); (VString [195; 169], VTable 2); (VString [98], VString (ldate 1000)); (VString [100], VString [104; 105])]]>
    {[2%positive := MkTable None None [VReal 77; VInteger 5000000000; VBoolean true] 3 [(VInteger 3, VBoolean true); (VInteger 1, VReal 77); (VInteger 2, VInteger 5000000000)]]}.

Definition example_tree : tree :=
  TTable [(KString [97], TInteger 5);
          (KString [195; 169], TTable [(KInteger 1, TReal 77); (KInteger 2, TInteger 5000000000); (KInteger 3, TBoolean true)]);
          (KString [98], TString (ldate 1000)); (KString [100], TString [104; 105])].

Definition example_fields : list field := default [] (tbl ← example_heap !! 1%positive; document_fields example_heap tbl).

Lemma bson_round_trip_witness : ∃ bs, lencode (λ _, 170) example_heap (VTable 1) = lret bs ∧ ldecode bs 200 = lret example_tree.
Proof.
  destruct (bson_round_trip (λ _, 170) example_heap 1 _ example_fields 200 eq_refl) as [H1 H2].
  - vm_compute. reflexivity.
  - vm_compute. discriminate.
  - vm_compute. lia.
  - exists (document_bytes example_fields). split; [exact H1|]. rewrite H2. vm_compute. reflexivity.
Defined.
