(* ===== verification/SprotoPack.v ===== *)
(** * The 0-packing of sproto

    [pack_seg], [write_ff], [sproto_pack] and [sproto_unpack] of
    [lualib-src/sproto/sproto.c]: runs of zero bytes are squeezed out of a
    message. Buffers are lists of bytes with offsets; [bufsz] may be smaller
    than what the result needs. A block has as many bytes as the size that goes with it
    says, so the size of a source is an [int] when it is at most [INT_MAX]. *)
From S2P Require Import Prelude.

Local Open Scope Z_scope.

(** ** Operations *)

(** One turn of the loop of [pack_seg]: [mem], [buffer], [sz], [header], [notzero]. *)
Definition pack_seg_byte (src : list Z) (i : Z) (s : list Z * Z * Z * Z * Z)
    : outcome (list Z * Z * Z * Z * Z) :=
  let '(mem, buffer, sz, header, notzero) := s in
  c ← aget src i;
  if c =? 0 then Ret (mem, buffer, sz, header, notzero) else
  if 0 <? sz then
    mem' ← aset mem buffer c;
    Ret (mem', buffer + 1, sz - 1, Z.lor header (Z.shiftl 1 i), notzero + 1)
  else Ret (mem, buffer, sz, Z.lor header (Z.shiftl 1 i), notzero + 1).

(** [src] is the segment [pack_seg] reads, [buffer] its offset in [mem]. *)
Definition pack_seg (src mem : list Z) (buffer sz n : Z) : outcome (Z * list Z) :=
  let obuffer := if sz - 1 <? 0 then None else Some buffer in
  '(mem1, _, _, header, notzero) ←
    for_loop 8 0 (pack_seg_byte src) (mem, buffer + 1, sz - 1, 0, 0);
  let notzero' := if ((notzero =? 7) || (notzero =? 6)) && (0 <? n) then 8 else notzero in
  if notzero' =? 8 then Ret (if 0 <? n then 8 else 10, mem1) else
  mem2 ← match obuffer with Some o => aset mem1 o header | None => Ret mem1 end;
  Ret (notzero' + 1, mem2).

(** Where [ff_srcstart] points: nowhere yet, into the source, or to the
    zero-padded copy [tmp] of its last bytes. *)
Inductive src_ptr := PNull | PSrc (off : Z) | PTmp.

(** [des] is an offset in [mem]. A comparison of [tmp] with [src_end] is
    undefined. *)
Definition write_ff (srcv : list Z) (src : src_ptr) (mem : list Z) (des n : Z)
    : outcome (list Z) :=
  match src with
  | PSrc off =>
      mem1 ← aset mem des 255;
      mem2 ← aset mem1 (des + 1) (u8 (n - 1));
      let src_end := zlen srcv in
      if off + n * 8 <=? src_end then
        bs ← mread srcv off (n * 8);
        mwrite mem2 (des + 2) bs
      else
        let sz := src_end - off in
        bs ← mread srcv off sz;
        mem3 ← mwrite mem2 (des + 2) bs;
        mwrite mem3 (des + 2 + sz) (replicate (Z.to_nat (n * 8 - sz)) 0)
  | _ => Undef
  end.

(** The variables of the loop of [sproto_pack]. *)
Record pack_state := MkPack {
  pk_mem : list Z;
  pk_ff_srcstart : src_ptr;
  pk_ff_desstart : Z;
  pk_ff_n : Z;
  pk_size : Z;
  pk_buffer : Z;
  pk_bufsz : Z
}.

(** The turn with [i = 8 * j]. The sizes are [int]s: when one of them overflows, the turn
    is undefined. *)
Definition pack_turn (srcv : list Z) (j : Z) (s : pack_state) : outcome pack_state :=
  let srcsz := zlen srcv in
  let i := 8 * j in
  next_i ← cint (i + 8);
  let padding := next_i - srcsz in
  '(seg, src) ←
    (if 0 <? padding then
       tmp ← mread srcv i (8 - padding);
       Ret (tmp ++ replicate (Z.to_nat padding) 0, PTmp)
     else seg ← mread srcv i 8; Ret (seg, PSrc i));
  '(n, mem) ← pack_seg seg (pk_mem s) (pk_buffer s) (pk_bufsz s) (pk_ff_n s);
  bufsz ← cint (pk_bufsz s - n);
  size ← cint (pk_size s + n);
  let next := λ mem srcstart desstart ff_n,
    MkPack mem srcstart desstart ff_n size (pk_buffer s + n) bufsz in
  let flush := λ ff_n,
    if 0 <=? bufsz then write_ff srcv (pk_ff_srcstart s) mem (pk_ff_desstart s) ff_n
    else Ret mem in
  if n =? 10 then Ret (next mem src (pk_buffer s) 1) else
  if (n =? 8) && (0 <? pk_ff_n s) then
    let ff_n := pk_ff_n s + 1 in
    if ff_n =? 256 then
      mem' ← flush 256;
      Ret (next mem' (pk_ff_srcstart s) (pk_ff_desstart s) 0)
    else Ret (next mem (pk_ff_srcstart s) (pk_ff_desstart s) ff_n)
  else if 0 <? pk_ff_n s then
    mem' ← flush (pk_ff_n s);
    Ret (next mem' (pk_ff_srcstart s) (pk_ff_desstart s) 0)
  else Ret (next mem (pk_ff_srcstart s) (pk_ff_desstart s) (pk_ff_n s)).

(** Returns the size the packed message has (or would have), and the buffer. *)
Definition sproto_pack (srcv mem : list Z) (bufsz : Z) : outcome (Z * list Z) :=
  s ← for_loop (Z.to_nat ((zlen srcv + 7) / 8)) 0 (pack_turn srcv)
        (MkPack mem PNull 0 0 0 0 bufsz);
  mem' ← (if (0 <=? pk_bufsz s) && (0 <? pk_ff_n s)
          then write_ff srcv (pk_ff_srcstart s) (pk_mem s) (pk_ff_desstart s) (pk_ff_n s)
          else Ret (pk_mem s));
  Ret (pk_size s, mem').

(** The variables of the loop of [sproto_unpack]; [un_src] is an offset. *)
Record unpack_state := MkUnpack {
  un_mem : list Z;
  un_src : Z;
  un_srcsz : Z;
  un_buffer : Z;
  un_bufsz : Z;
  un_size : Z
}.

(** One bit of the header; [inl] is [return -1], with the buffer as it is then. *)
Definition unpack_bit (srcv : list Z) (header i : Z) (o : list Z + unpack_state)
    : outcome (list Z + unpack_state) :=
  match o with
  | inl mem => Ret (inl mem)
  | inr (MkUnpack mem src srcsz buffer bufsz size) =>
      if negb (Z.land (Z.shiftr header i) 1 =? 0) then
        if srcsz <=? 0 then Ret (inl mem) else
        if 0 <? bufsz then
          c ← aget srcv src;
          mem' ← aset mem buffer c;
          size' ← cint (size + 1);
          Ret (inr (MkUnpack mem' (src + 1) (srcsz - 1) (buffer + 1) (bufsz - 1) size'))
        else
          size' ← cint (size + 1);
          Ret (inr (MkUnpack mem (src + 1) (srcsz - 1) buffer bufsz size'))
      else if 0 <? bufsz then
        mem' ← aset mem buffer 0;
        size' ← cint (size + 1);
        Ret (inr (MkUnpack mem' src srcsz (buffer + 1) (bufsz - 1) size'))
      else
        size' ← cint (size + 1);
        Ret (inr (MkUnpack mem src srcsz buffer bufsz size'))
  end.

(** One turn of [while (srcsz > 0)]; the result is the value returned, -1 on error. *)
Definition unpack_turn (srcv : list Z) (s : unpack_state)
    : outcome (unpack_state + (Z * list Z)) :=
  let '(MkUnpack mem src0 srcsz0 buffer bufsz size) := s in
  if srcsz0 <=? 0 then Ret (inr (size, mem)) else
  header ← aget srcv src0;
  let srcsz := srcsz0 - 1 in
  let src := src0 + 1 in
  if header =? 255 then
    if srcsz <=? 0 then Ret (inr (-1, mem)) else
    c ← aget srcv src;
    let n := (c + 1) * 8 in
    if srcsz <? n + 1 then Ret (inr (-1, mem)) else
    let srcsz' := srcsz - (n + 1) in
    let src' := src + 1 in
    mem' ← (if n <=? bufsz then bs ← mread srcv src' n; mwrite mem buffer bs else Ret mem);
    bufsz' ← cint (bufsz - n);
    size' ← cint (size + n);
    Ret (inl (MkUnpack mem' (src' + n) srcsz' (buffer + n) bufsz' size'))
  else
    o ← for_loop 8 0 (unpack_bit srcv header)
          (inr (MkUnpack mem src srcsz buffer bufsz size));
    match o with
    | inl mem' => Ret (inr (-1, mem'))
    | inr s' => Ret (inl s')
    end.

Definition sproto_unpack (fuel : nat) (srcv mem : list Z) (bufsz : Z) : outcome (Z * list Z) :=
  loop fuel (unpack_turn srcv) (MkUnpack mem 0 (zlen srcv) 0 bufsz 0).

(** ** The Lua functions [pack] and [unpack] *)

Definition ENCODE_BUFFERSIZE : Z := 2050.
Definition ENCODE_MAXSIZE : Z := 16777216.

(** The upvalues of [lpack] and [lunpack]: a userdata and its size. *)
Record lbuffer := MkBuffer { lb_output : list Z; lb_osz : Z }.

(** The size [expand_buffer] asks for; [None] is its [luaL_error]. *)
Definition expand_turn (nsz osz : Z) : outcome (Z + option Z) :=
  osz' ← cint (osz * 2);
  if osz' <? nsz then Ret (inl osz') else
  Ret (inr (if ENCODE_MAXSIZE <? osz' then None else Some osz')).

Section lua.
(** What [lua_newuserdata] leaves in a block of [n] bytes. *)
Variable newuserdata : Z → list Z.

Definition expand_buffer (osz nsz : Z) : outcome (option lbuffer) :=
  o ← loop 32 (expand_turn nsz) osz;
  Ret (osz' ← o; Some (MkBuffer (newuserdata osz') osz')).

(** The worst case of the packing, [maxsz] in [lpack]. *)
Definition pack_maxsz (sz : Z) : Z := (sz + 2047) / 2048 * 2 + sz + 2.

(** The string [lpack] pushes ([None]: a Lua error), and its upvalues. *)
Definition lpack (b : lbuffer) (src : list Z) : outcome (option (list Z) * lbuffer) :=
  let maxsz := pack_maxsz (zlen src) in
  ob ← (if lb_osz b <? maxsz then expand_buffer (lb_osz b) maxsz else Ret (Some b));
  match ob with
  | None => Ret (None, b)
  | Some b' =>
      '(n, output) ← sproto_pack src (lb_output b') maxsz;
      let b'' := MkBuffer output (lb_osz b') in
      if maxsz <? n then Ret (None, b'') else
      str ← mread output 0 n;
      Ret (Some str, b'')
  end.

Definition lunpack (fuel : nat) (b : lbuffer) (src : list Z)
    : outcome (option (list Z) * lbuffer) :=
  '(r, output) ← sproto_unpack fuel src (lb_output b) (lb_osz b);
  let b' := MkBuffer output (lb_osz b) in
  if r <? 0 then Ret (None, b') else
  if lb_osz b <? r then
    ob ← expand_buffer (lb_osz b) r;
    match ob with
    | None => Ret (None, b')
    | Some b2 =>
        '(r2, output2) ← sproto_unpack fuel src (lb_output b2) r;
        let b2' := MkBuffer output2 (lb_osz b2) in
        if r2 <? 0 then Ret (None, b2') else
        str ← mread output2 0 r2;
        Ret (Some str, b2')
    end
  else
    str ← mread output 0 r;
    Ret (Some str, b').
End lua.

(** ** The segments of a message *)

(** The header byte: a bit per byte of the segment that is not zero. *)
Fixpoint hdr (s : list Z) : Z :=
  match s with
  | [] => 0
  | c :: s' => (if c =? 0 then 0 else 1) + 2 * hdr s'
  end.

Definition nonzero (s : list Z) : list Z := filter (λ c, c ≠ 0) s.

(** A segment outside a run of [0xff]. *)
Definition seg_out (s : list Z) : list Z := hdr s :: nonzero s.

(** Whether [pack_seg] copies the segment into a run ([n] is the run's length). *)
Definition in_run (s : list Z) (n : Z) : bool :=
  (length (nonzero s) =? 8)%nat || ((6 <=? length (nonzero s))%nat && (0 <? n)).

Definition seg_cost (s : list Z) (n : Z) : Z :=
  if in_run s n then (if 0 <? n then 8 else 10) else 1 + zlen (nonzero s).

Lemma hdr_bound s : 0 ≤ hdr s < 2 ^ zlen s.
Proof.
  induction s as [|c s IH]; simpl; [done|]. autorewrite with zlen.
  rewrite Z.pow_add_r by (unfold zlen; lia). destruct (c =? 0); lia.
Qed.

Lemma hdr_snoc s c : hdr (s ++ [c]) = hdr s + (if c =? 0 then 0 else 1) * 2 ^ zlen s.
Proof.
  induction s as [|a s IH]; simpl.
  - by destruct (c =? 0).
  - rewrite IH, zlen_cons, Z.pow_add_r by (unfold zlen; lia). lia.
Qed.

Lemma nonzero_snoc s c : nonzero (s ++ [c]) = nonzero s ++ if c =? 0 then [] else [c].
Proof.
  unfold nonzero. rewrite filter_app. f_equal. destruct (Z.eqb_spec c 0) as [->|Hc].
  - done.
  - by rewrite filter_cons_True.
Qed.

Lemma nonzero_length s : (length (nonzero s) ≤ length s)%nat.
Proof. apply length_filter. Qed.

Lemma hdr_all_ones s : hdr s = 2 ^ zlen s - 1 → nonzero s = s.
Proof.
  induction s as [|c s IH]; simpl; [done|]. rewrite zlen_cons, Z.pow_add_r by (unfold zlen; lia).
  pose proof (hdr_bound s). destruct (Z.eqb_spec c 0); intros Hh; [lia|].
  unfold nonzero. rewrite filter_cons_True by done. f_equal. apply IH. lia.
Qed.

Lemma hdr_not_ff s : length s = 8%nat → (length (nonzero s) < 8)%nat → hdr s ≠ 255.
Proof.
  intros Hl Hn Hh. assert (Hs : nonzero s = s).
  { apply hdr_all_ones. unfold zlen. by rewrite Hl. }
  rewrite Hs in Hn. lia.
Qed.

(** *** [pack_seg] *)

(** The state after [i] bytes of the segment. *)
Definition pack_seg_inv (src mem : list Z) (buffer sz : Z) (i : Z)
    (s : list Z * Z * Z * Z * Z) : Prop :=
  let '(mem1, b, z, h, c) := s in
  let done_ := nonzero (take (Z.to_nat i) src) in
  let w := Z.min (zlen done_) (Z.max 0 (sz - 1)) in
  zlen mem1 = zlen mem ∧
  (∀ k, (k ≤ Z.to_nat buffer)%nat → mem1 !! k = mem !! k) ∧
  h = hdr (take (Z.to_nat i) src) ∧ c = zlen done_ ∧ b = buffer + 1 + w ∧ z = sz - 1 - w ∧
  mem_at mem1 (Z.to_nat (buffer + 1)) (take (Z.to_nat w) done_).

Lemma pack_seg_byte_inv src mem buffer sz i s :
  length src = 8%nat → 0 ≤ buffer → (0 < sz → buffer + sz ≤ zlen mem) → 0 ≤ i < 8 →
  pack_seg_inv src mem buffer sz i s →
  ∃ s', pack_seg_byte src i s = Ret s' ∧ pack_seg_inv src mem buffer sz (i + 1) s'.
Proof.
  intros Hsrc Hb Hsz Hi. destruct s as [[[[mem1 b] z] h] c].
  intros (Hlen & Hsame & -> & -> & -> & -> & Hat).
  destruct (aget_in src i) as (x & Hget & Hx); [unfold zlen; lia|].
  unfold pack_seg_byte. rewrite Hget. simpl.
  assert (Htake : take (Z.to_nat (i + 1)) src = take (Z.to_nat i) src ++ [x]).
  { replace (Z.to_nat (i + 1)) with (S (Z.to_nat i)) by lia. by apply take_S_r. }
  assert (Hzl : zlen (take (Z.to_nat i) src) = i) by (unfold zlen; rewrite length_take; lia).
  pose proof (hdr_bound (take (Z.to_nat i) src)) as Hh. rewrite Hzl in Hh.
  unfold pack_seg_inv. rewrite Htake, nonzero_snoc, hdr_snoc, Hzl.
  set (d := nonzero (take (Z.to_nat i) src)) in *. pose proof (zlen_nonneg d).
  destruct (Z.eqb_spec x 0) as [->|Hne]; simpl.
  { eexists. split; [done|]. rewrite app_nil_r. split_and!; try done. lia. }
  rewrite lor_shiftl by lia.
  destruct (Z.ltb_spec 0 (sz - 1 - Z.min (zlen d) (Z.max 0 (sz - 1)))).
  - rewrite aset_in by lia. simpl. eexists. split; [done|].
    assert (Hw : Z.min (zlen d) (Z.max 0 (sz - 1)) = zlen d) by lia.
    assert (Hw' : Z.min (zlen (d ++ [x])) (Z.max 0 (sz - 1)) = zlen d + 1).
    { autorewrite with zlen. lia. }
    rewrite Hw in *. rewrite Hw', zlen_insert. autorewrite with zlen.
    split_and!; try done; try lia.
    + intros k Hk. rewrite list_lookup_insert_ne by lia. auto.
    + rewrite take_ge by (rewrite length_app; simpl; unfold zlen; lia).
      rewrite take_ge in Hat by (unfold zlen; lia). apply mem_at_app. split.
      * eapply mem_at_same; [|exact Hat]. intros k Hk.
        apply list_lookup_insert_ne. unfold zlen. lia.
      * intros k y Hk. destruct k as [|k]; [|done]. injection Hk as <-.
        replace (_ + _ + 0)%nat with (Z.to_nat (buffer + 1 + zlen d)) by (unfold zlen; lia).
        apply list_lookup_insert_eq. unfold zlen in *. lia.
  - eexists. split; [done|].
    assert (Hw' : Z.min (zlen (d ++ [x])) (Z.max 0 (sz - 1)) = Z.min (zlen d) (Z.max 0 (sz - 1))).
    { autorewrite with zlen. lia. }
    rewrite Hw'. autorewrite with zlen. split_and!; try done; try lia.
    rewrite take_app_le by (unfold zlen; lia). done.
Qed.

Lemma pack_seg_spec src mem buffer sz n :
  length src = 8%nat → 0 ≤ buffer → (0 < sz → buffer + sz ≤ zlen mem) →
  ∃ mem', pack_seg src mem buffer sz n = Ret (seg_cost src n, mem') ∧
    zlen mem' = zlen mem ∧
    (∀ k, (k < Z.to_nat buffer)%nat → mem' !! k = mem !! k) ∧
    (in_run src n = false → seg_cost src n ≤ sz → mem_at mem' (Z.to_nat buffer) (seg_out src)).
Proof.
  intros Hsrc Hb Hsz. unfold pack_seg.
  destruct (for_loop_inv (pack_seg_inv src mem buffer sz) (pack_seg_byte src) 8 0
              (mem, buffer + 1, sz - 1, 0, 0)) as (s & -> & Hs).
  { unfold pack_seg_inv. change (nonzero (take (Z.to_nat 0) src)) with (@nil Z).
    change (zlen (@nil Z)) with 0. split_and!; try done; try lia. by rewrite take_nil. }
  { intros j s Hj. by apply pack_seg_byte_inv. }
  destruct s as [[[[mem1 b] z] h] c]. destruct Hs as (Hlen & Hsame & -> & -> & _ & _ & Hat).
  replace (take (Z.to_nat (0 + Z.of_nat 8)) src) with src in *
    by (symmetry; apply take_ge; rewrite Hsrc; simpl; lia).
  simpl. pose proof (nonzero_length src) as Hnl. unfold seg_cost, in_run.
  set (nz := length (nonzero src)) in *. assert (Hz : zlen (nonzero src) = Z.of_nat nz) by done.
  rewrite !Hz. rewrite Hz in Hat.
  assert (Hfull : ((if ((Z.of_nat nz =? 7) || (Z.of_nat nz =? 6)) && (0 <? n) then 8
                    else Z.of_nat nz) =? 8) =
                  ((nz =? 8)%nat || ((6 <=? nz)%nat && (0 <? n)))).
  { destruct (0 <? n), (Z.eqb_spec (Z.of_nat nz) 7), (Z.eqb_spec (Z.of_nat nz) 6),
      (Nat.eqb_spec nz 8), (Nat.leb_spec 6 nz), (Z.eqb_spec (Z.of_nat nz) 8);
      simpl; done || lia. }
  rewrite Hfull. destruct ((nz =? 8)%nat || _) eqn:Hin; simpl.
  { eexists. split; [done|]. split_and!; [done| |done]. intros k Hk. apply Hsame. lia. }
  replace (if _ && _ then 8 else Z.of_nat nz) with (Z.of_nat nz).
  2:{ destruct (0 <? n), (Z.eqb_spec (Z.of_nat nz) 7), (Z.eqb_spec (Z.of_nat nz) 6),
        (Nat.eqb_spec nz 8), (Nat.leb_spec 6 nz); simpl in *; try done; lia. }
  destruct (Z.ltb_spec (sz - 1) 0); simpl.
  { eexists. split; [rewrite (Z.add_comm 1); done|]. split_and!; [done| |lia].
    intros k Hk. apply Hsame. lia. }
  rewrite aset_in by lia. simpl.
  eexists. split; [rewrite (Z.add_comm 1); done|]. rewrite zlen_insert. split_and!; [done| |].
  - intros k Hk. rewrite list_lookup_insert_ne by lia. apply Hsame. lia.
  - intros _ Hcost. intros [|k] y Hk; simpl in Hk.
    + injection Hk as <-. rewrite Nat.add_0_r. apply list_lookup_insert_eq.
      unfold zlen in *. lia.
    + rewrite list_lookup_insert_ne by lia.
      replace (Z.to_nat buffer + S k)%nat with (Z.to_nat (buffer + 1) + k)%nat by lia.
      apply Hat. rewrite take_ge; [done|]. fold nz. lia.
Qed.

(** ** The reference packing *)

Fixpoint chunks (n : nat) (l : list Z) : list (list Z) :=
  match n with
  | O => []
  | S n' => take 8 l :: chunks n' (drop 8 l)
  end.

Definition nsegs (s : list Z) : nat := Z.to_nat ((zlen s + 7) / 8).

(** The message, padded with zeros to a multiple of 8 bytes. *)
Definition padded (s : list Z) : list Z :=
  s ++ replicate (8 * nsegs s - length s) 0.

Definition segs (s : list Z) : list (list Z) := chunks (nsegs s) (padded s).

(** A run: the [0xff] tag, the number of segments less one, the segments. *)
Definition flush (run : list (list Z)) : list Z :=
  match run with
  | [] => []
  | _ => 255 :: (zlen run - 1) :: concat run
  end.

(** The packing of the segments [ss], behind the open run [run]. *)
Fixpoint pack_ref (ss : list (list Z)) (run : list (list Z)) : list Z :=
  match ss with
  | [] => flush run
  | s :: ss' =>
      if in_run s (zlen run) then
        if (length (run ++ [s]) =? 256)%nat then flush (run ++ [s]) ++ pack_ref ss' []
        else pack_ref ss' (run ++ [s])
      else flush run ++ seg_out s ++ pack_ref ss' []
  end.

(** What [sproto_pack] is meant to produce for the message [s]. *)
Definition packed (s : list Z) : list Z := pack_ref (segs s) [].

(** The unpacking of a stream; every turn consumes at least one byte. *)
Fixpoint unpack_bits (n : nat) (h : Z) (l : list Z) : option (list Z * list Z) :=
  match n with
  | O => Some ([], l)
  | S n' =>
      if Z.odd h then
        match l with
        | [] => None
        | c :: l' => '(out, r) ← unpack_bits n' (h / 2) l'; Some (c :: out, r)
        end
      else '(out, r) ← unpack_bits n' (h / 2) l; Some (0 :: out, r)
  end.

Fixpoint unpack_ref (fuel : nat) (l : list Z) : option (list Z) :=
  match fuel with
  | O => None
  | S fuel' =>
      match l with
      | [] => Some []
      | h :: l' =>
          if h =? 255 then
            match l' with
            | [] => None
            | c :: l2 =>
                let n := Z.to_nat ((c + 1) * 8) in
                if (length l2 <? n)%nat then None
                else out ← unpack_ref fuel' (drop n l2); Some (take n l2 ++ out)
            end
          else '(seg, r) ← unpack_bits 8 h l'; out ← unpack_ref fuel' r; Some (seg ++ out)
      end
  end.

(** *** Chunks *)

Lemma nsegs_bound s : zlen s ≤ 8 * Z.of_nat (nsegs s) < zlen s + 8.
Proof. unfold nsegs. pose proof (zlen_nonneg s). zlia. Qed.

Lemma padded_length s : length (padded s) = (8 * nsegs s)%nat.
Proof.
  unfold padded. rewrite length_app, length_replicate. pose proof (nsegs_bound s).
  unfold zlen in *. lia.
Qed.

Lemma chunks_length n l : length (chunks n l) = n.
Proof. revert l. induction n; simpl; auto. Qed.

Lemma chunks_lookup n l j :
  (j < n)%nat → chunks n l !! j = Some (take 8 (drop (8 * j) l)).
Proof.
  revert l j. induction n as [|n IH]; intros l [|j] Hj; try lia; simpl; [done|].
  rewrite IH by lia. rewrite drop_drop. do 3 f_equal. lia.
Qed.

Lemma concat_chunks n l : concat (chunks n l) = take (8 * n) l.
Proof.
  revert l. induction n as [|n IH]; intros l.
  { by rewrite Nat.mul_0_r, take_0. }
  simpl chunks. simpl concat. rewrite IH.
  replace (8 * S n)%nat with (8 + 8 * n)%nat by lia. by rewrite take_take_drop.
Qed.

Lemma concat_segs s : concat (segs s) = padded s.
Proof. unfold segs. rewrite concat_chunks. apply take_ge. by rewrite padded_length. Qed.

Lemma segs_length s : length (segs s) = nsegs s.
Proof. apply chunks_length. Qed.

Lemma segs_lookup s j :
  (j < nsegs s)%nat → segs s !! j = Some (take 8 (drop (8 * j) (padded s))).
Proof. apply chunks_lookup. Qed.

Lemma segs_seg_length s seg : seg ∈ segs s → length seg = 8%nat.
Proof.
  intros (j & Hj)%list_elem_of_lookup. pose proof (lookup_lt_Some _ _ _ Hj) as Hlt.
  rewrite segs_length in Hlt. rewrite segs_lookup in Hj by done. injection Hj as <-.
  rewrite length_take, length_drop, padded_length. lia.
Qed.

(** The bytes of [r] segments from the [k]-th on. *)
Lemma concat_segs_range s k r :
  (k + r ≤ nsegs s)%nat →
  concat (take r (drop k (segs s))) = take (8 * r) (drop (8 * k) (padded s)).
Proof.
  revert k. induction r as [|r IH]; intros k Hr.
  { by rewrite Nat.mul_0_r, !take_0. }
  rewrite (drop_S (segs s) (take 8 (drop (8 * k) (padded s))) k)
    by (apply segs_lookup; lia).
  simpl take at 1. simpl concat. rewrite IH by lia.
  replace (8 * S r)%nat with (8 + 8 * r)%nat by lia.
  replace (8 * S k)%nat with (8 * k + 8)%nat by lia.
  rewrite <-(take_take_drop (drop (8 * k) (padded s))), drop_drop. done.
Qed.

(** *** [sproto_pack] computes the reference packing *)

(** The longest source that is packed without an overflow, whatever its bytes: the
    worst case of its packing just fits into an [int]. *)
Definition SOURCE_MAX : Z := 0x7fe00000.

Lemma source_max_fits sz : 0 ≤ sz ≤ SOURCE_MAX → pack_maxsz sz ≤ INT_MAX ∧ sz + 7 ≤ INT_MAX.
Proof. unfold SOURCE_MAX, pack_maxsz, INT_MAX. intros H. split; [zlia|lia]. Qed.

Definition run_cost (run : list (list Z)) : Z :=
  match run with [] => 0 | _ => 2 + 8 * zlen run end.

Lemma concat_length8 (run : list (list Z)) : (∀ s, s ∈ run → length s = 8%nat) →
  zlen (concat run) = 8 * zlen run.
Proof.
  induction run as [|s run IH]; intros H; simpl; [done|].
  rewrite zlen_app, zlen_cons, IH by set_solver. unfold zlen at 1. rewrite H by set_solver. lia.
Qed.

Lemma flush_length run : (∀ s, s ∈ run → length s = 8%nat) → zlen (flush run) = run_cost run.
Proof.
  intros H. destruct run as [|s run]; [done|]. unfold flush, run_cost.
  rewrite !zlen_cons, concat_length8 by done. rewrite zlen_cons. lia.
Qed.

Lemma padded_mread s j :
  (j < nsegs s)%nat →
  take 8 (drop (8 * j) (padded s)) =
    take 8 (drop (8 * j) s) ++ replicate (8 * j + 8 - length s) 0.
Proof.
  intros Hj. unfold padded. pose proof (nsegs_bound s). unfold zlen in *.
  rewrite drop_app_le by lia. rewrite take_app, length_drop. f_equal.
  rewrite take_replicate. f_equal. lia.
Qed.

(** The segment of turn [j], and where [src] points to. *)
Lemma pack_turn_read s j :
  (j < nsegs s)%nat →
  (let padding := 8 * Z.of_nat j + 8 - zlen s in
   if 0 <? padding then
     tmp ← mread s (8 * Z.of_nat j) (8 - padding);
     Ret (tmp ++ replicate (Z.to_nat padding) 0, PTmp)
   else seg ← mread s (8 * Z.of_nat j) 8; Ret (seg, PSrc (8 * Z.of_nat j))) =
  Ret (take 8 (drop (8 * j) (padded s)),
       if zlen s <? 8 * Z.of_nat j + 8 then PTmp else PSrc (8 * Z.of_nat j)).
Proof.
  intros Hj. rewrite padded_mread by done. pose proof (nsegs_bound s). cbv zeta.
  destruct (Z.ltb_spec 0 (8 * Z.of_nat j + 8 - zlen s)), (Z.ltb_spec (zlen s) (8 * Z.of_nat j + 8));
    try lia.
  - rewrite mread_in by lia. bsimpl. do 3 f_equal; [|unfold zlen; f_equal; lia].
    replace (Z.to_nat (8 * Z.of_nat j)) with (8 * j)%nat by lia.
    rewrite !take_ge; rewrite ?length_drop; unfold zlen in *; done || lia.
  - rewrite mread_in by lia. bsimpl. unfold zlen in *.
    replace (8 * j + 8 - length s)%nat with 0%nat by lia. cbn [replicate].
    replace (Z.to_nat (8 * Z.of_nat j)) with (8 * j)%nat by lia. by rewrite app_nil_r.
Qed.

Lemma write_ff_spec s mem des k r run :
  run = take r (drop k (segs s)) → (k + r ≤ nsegs s)%nat → (0 < r ≤ 256)%nat →
  0 ≤ des → des + run_cost run ≤ zlen mem →
  ∃ mem', write_ff s (PSrc (8 * Z.of_nat k)) mem des (zlen run) = Ret mem' ∧
    zlen mem' = zlen mem ∧
    (∀ i, (i < Z.to_nat des)%nat ∨ (Z.to_nat (des + run_cost run) ≤ i)%nat →
       mem' !! i = mem !! i) ∧
    mem_at mem' (Z.to_nat des) (flush run).
Proof.
  intros Hrun Hkr Hr Hdes Hcost.
  assert (Hlen : zlen run = Z.of_nat r).
  { unfold zlen. rewrite Hrun, length_take, length_drop, segs_length. lia. }
  assert (Hflush : flush run = 255 :: (zlen run - 1) :: concat run).
  { destruct run; [unfold zlen in Hlen; simpl in Hlen; lia|done]. }
  assert (Hrc : run_cost run = 2 + 8 * Z.of_nat r).
  { destruct run; [unfold zlen in Hlen; simpl in Hlen; lia|]. unfold run_cost. by rewrite Hlen. }
  assert (Hconcat : concat run = take (8 * r) (drop (8 * k) (padded s))).
  { rewrite Hrun. by apply concat_segs_range. }
  assert (Hcl : zlen (concat run) = 8 * Z.of_nat r).
  { rewrite Hconcat. unfold zlen. rewrite length_take, length_drop, padded_length. lia. }
  unfold write_ff. rewrite Hlen, Hrc in *. rewrite aset_in by lia. simpl.
  rewrite aset_in by (rewrite zlen_insert; lia). simpl. unfold u8.
  rewrite Z.mod_small by lia.
  set (mem2 := <[Z.to_nat (des + 1):=_]> _).
  assert (Hm2 : zlen mem2 = zlen mem) by (unfold mem2; by rewrite !zlen_insert).
  assert (Hout : ∀ mem', (∀ i, (i < Z.to_nat (des + 2))%nat ∨
      (Z.to_nat (des + (2 + 8 * Z.of_nat r)) ≤ i)%nat → mem' !! i = mem2 !! i) →
    mem_at mem' (Z.to_nat (des + 2)) (concat run) → zlen mem' = zlen mem2 →
    zlen mem' = zlen mem ∧
    (∀ i, (i < Z.to_nat des)%nat ∨ (Z.to_nat (des + (2 + 8 * Z.of_nat r)) ≤ i)%nat →
       mem' !! i = mem !! i) ∧
    mem_at mem' (Z.to_nat des) (flush run)).
  { intros mem' Hsame Hat Hl. split_and!; [congruence| |].
    - intros i Hi. rewrite Hsame by lia. unfold mem2.
      rewrite !list_lookup_insert_ne by lia. done.
    - rewrite Hflush. unfold zlen in *. intros [|[|i]] b Hb; simpl in Hb.
      + injection Hb as <-. rewrite Hsame by lia. unfold mem2.
        rewrite list_lookup_insert_ne by lia. rewrite Nat.add_0_r.
        apply list_lookup_insert_eq. lia.
      + injection Hb as <-. rewrite Hsame by lia. unfold mem2.
        replace (Z.to_nat des + 1)%nat with (Z.to_nat (des + 1)) by lia.
        apply list_lookup_insert_eq. rewrite length_insert. lia.
      + replace (Z.to_nat des + S (S i))%nat with (Z.to_nat (des + 2) + i)%nat by lia.
        by apply Hat. }
  pose proof (nsegs_bound s) as Hns. pose proof (zlen_nonneg s).
  destruct (Z.leb_spec (8 * Z.of_nat k + Z.of_nat r * 8) (zlen s)).
  - rewrite mread_in by lia. simpl.
    replace (take _ _) with (concat run).
    2:{ rewrite Hconcat. unfold padded, zlen in *.
        rewrite drop_app_le by lia. rewrite take_app_le by (rewrite length_drop; lia).
        f_equal; [lia|]. f_equal. lia. }
    destruct (mwrite_in mem2 (des + 2) (concat run)) as (mem' & Hw & Hl & Hat & Hsame); [lia..|].
    exists mem'. split; [done|]. apply Hout; [|done|done].
    intros i Hi. apply Hsame. lia.
  - rewrite mread_in by lia. simpl.
    set (low := take _ _).
    assert (Hlow : zlen low = zlen s - 8 * Z.of_nat k).
    { unfold low, zlen in *. rewrite length_take, length_drop. lia. }
    assert (Hc2 : concat run =
      low ++ replicate (Z.to_nat (Z.of_nat r * 8 - (zlen s - 8 * Z.of_nat k))) 0).
    { rewrite Hconcat. unfold low, padded, zlen in *.
      rewrite drop_app_le by lia. rewrite take_app, length_drop, take_replicate.
      f_equal.
      - rewrite !take_ge; [f_equal; lia| |]; rewrite length_drop; lia.
      - f_equal. lia. }
    destruct (mwrite_in mem2 (des + 2) low) as (mem3 & Hw & Hl & Hat & Hsame); [lia..|].
    rewrite Hw. simpl.
    destruct (mwrite_in mem3 (des + 2 + (zlen s - 8 * Z.of_nat k))
      (replicate (Z.to_nat (Z.of_nat r * 8 - (zlen s - 8 * Z.of_nat k))) 0))
      as (mem' & Hw' & Hl' & Hat' & Hsame'); [lia| |].
    { unfold zlen in *. rewrite length_replicate. lia. }
    exists mem'. split; [done|]. apply Hout; [| |congruence].
    + intros i Hi. rewrite Hsame', Hsame; [done| |];
        unfold zlen in *; rewrite ?length_replicate; lia.
    + rewrite Hc2. apply mem_at_app. split.
      * eapply mem_at_same; [|exact Hat]. intros i Hi. apply Hsame'. unfold zlen in *. lia.
      * replace (Z.to_nat (des + 2) + length low)%nat
          with (Z.to_nat (des + 2 + (zlen s - 8 * Z.of_nat k))); [done|].
        unfold zlen in *. lia.
Qed.

(** The loop of [sproto_pack] after [j] segments: [out] is final, the last
    [r] segments are an open run, and the buffer holds [out] if it fits. *)
Definition pack_inv (s : list Z) (bufsz0 L : Z) (j : nat) (st : pack_state) : Prop :=
  ∃ out r, let run := take r (drop (j - r) (segs s)) in
    (r ≤ j ∧ r ≤ 255 ∧ j ≤ nsegs s)%nat ∧
    packed s = out ++ pack_ref (drop j (segs s)) run ∧
    pk_ff_n st = Z.of_nat r ∧
    ((0 < r)%nat → pk_ff_srcstart st = PSrc (8 * Z.of_nat (j - r)) ∧
                   pk_ff_desstart st = zlen out) ∧
    pk_size st = zlen out + run_cost run ∧ pk_buffer st = pk_size st ∧
    pk_bufsz st = bufsz0 - pk_size st ∧
    zlen (pk_mem st) = L ∧ (zlen out ≤ bufsz0 → mem_at (pk_mem st) 0 out).

Lemma run_zlen s j r :
  (r ≤ j ≤ nsegs s)%nat → zlen (take r (drop (j - r) (segs s))) = Z.of_nat r.
Proof. intros H. unfold zlen. rewrite length_take, length_drop, segs_length. lia. Qed.

Lemma run_cost_zlen run : run_cost run = if decide (zlen run = 0) then 0 else 2 + 8 * zlen run.
Proof. destruct run; [done|]. rewrite decide_False; [done|]. rewrite zlen_cons. pose proof (zlen_nonneg run). lia. Qed.

Lemma run_segs_length s j r seg :
  seg ∈ take r (drop (j - r) (segs s)) → length seg = 8%nat.
Proof.
  intros (i & Hi)%list_elem_of_lookup. apply segs_seg_length with s.
  apply lookup_take_Some in Hi as [Hi _]. rewrite lookup_drop in Hi.
  by eapply list_elem_of_lookup_2.
Qed.

(** Taking one more segment into the run. *)
Lemma run_snoc s j r seg :
  (r ≤ j)%nat → segs s !! j = Some seg →
  take (S r) (drop (S j - S r) (segs s)) = take r (drop (j - r) (segs s)) ++ [seg].
Proof.
  intros Hr Hseg. replace (S j - S r)%nat with (j - r)%nat by lia.
  apply take_S_r. rewrite lookup_drop. by replace (j - r + r)%nat with j by lia.
Qed.

Lemma seg_out_zlen seg : zlen (seg_out seg) = 1 + zlen (nonzero seg).
Proof. apply zlen_cons. Qed.

(** A segment of the padded tail is not all non-zero. *)
Lemma full_seg_src s j seg :
  (j < nsegs s)%nat → seg = take 8 (drop (8 * j) (padded s)) →
  length (nonzero seg) = 8%nat → (zlen s <? 8 * Z.of_nat j + 8) = false.
Proof.
  intros Hj -> Hn. destruct (Z.ltb_spec (zlen s) (8 * Z.of_nat j + 8)) as [Hlt|]; [|done].
  rewrite padded_mread in Hn by done. exfalso. unfold zlen in *.
  unfold nonzero in Hn. rewrite filter_app in Hn.
  replace (8 * j + 8 - length s)%nat with (S (8 * j + 7 - length s)) in Hn by lia.
  assert (Hz : ∀ n, filter (λ c, c ≠ 0) (replicate n 0) = []).
  { induction n; [done|]. simpl replicate. by rewrite filter_cons_False by (intros ?; done). }
  rewrite Hz, app_nil_r in Hn.
  pose proof (length_filter (λ c, c ≠ 0) (take 8 (drop (8 * j) s))) as Hle.
  rewrite length_take, length_drop in Hle. lia.
Qed.

(** [write_ff] behind the final part [out]. *)
Lemma write_ff_out s mem out k r run :
  run = take r (drop k (segs s)) → (k + r ≤ nsegs s)%nat → (0 < r ≤ 256)%nat →
  zlen out + run_cost run ≤ zlen mem → mem_at mem 0 out →
  ∃ mem', write_ff s (PSrc (8 * Z.of_nat k)) mem (zlen out) (Z.of_nat r) = Ret mem' ∧
    zlen mem' = zlen mem ∧ mem_at mem' 0 (out ++ flush run) ∧
    (∀ i, (Z.to_nat (zlen out + run_cost run) ≤ i)%nat → mem' !! i = mem !! i).
Proof.
  intros Hrun Hk Hr Hc Hat.
  assert (Hl : zlen run = Z.of_nat r).
  { unfold zlen. rewrite Hrun, length_take, length_drop, segs_length. lia. }
  destruct (write_ff_spec s mem (zlen out) k r run) as (mem' & Hw & Hlen & Hsame & Hf);
    [done..|apply zlen_nonneg|done|].
  rewrite Hl in Hw. exists mem'. split_and!; [done|done| |by auto].
  apply mem_at_app. split.
  - eapply mem_at_same; [|exact Hat]. intros i Hi. apply Hsame. unfold zlen. lia.
  - replace (0 + length out)%nat with (Z.to_nat (zlen out)) by (unfold zlen; lia). done.
Qed.

(** What an open run has cost so far is part of the packing. *)
Lemma pack_ref_cost ss run : (∀ x, x ∈ ss → length x = 8%nat) → (∀ x, x ∈ run → length x = 8%nat) →
  run_cost run ≤ zlen (pack_ref ss run).
Proof.
  revert run. induction ss as [|s ss IH]; intros run Hss Hr; cbn [pack_ref]; [by rewrite flush_length|].
  assert (Hs : length s = 8%nat) by (apply Hss; left).
  assert (Hr' : ∀ x, x ∈ run ++ [s] → length x = 8%nat).
  { intros x [Hx|Hx]%elem_of_app; [by apply Hr|by apply list_elem_of_singleton in Hx as ->]. }
  assert (Hle : run_cost run ≤ run_cost (run ++ [s])).
  { rewrite !run_cost_zlen, zlen_app. change (zlen [s]) with 1. pose proof (zlen_nonneg run).
    repeat destruct (decide _); lia. }
  destruct (in_run s (zlen run)); [destruct (_ =? _)%nat|]; rewrite ?zlen_app, ?flush_length by done.
  - pose proof (zlen_nonneg (pack_ref ss [])). lia.
  - etrans; [exact Hle|]. apply IH; [|done]. intros x Hx. apply Hss. by right.
  - pose proof (zlen_nonneg (seg_out s)). pose proof (zlen_nonneg (pack_ref ss [])). lia.
Qed.

(** So is what the next segment costs. *)
Lemma pack_ref_step_cost seg ss run : (∀ x, x ∈ seg :: ss → length x = 8%nat) → (∀ x, x ∈ run → length x = 8%nat) →
  run_cost run + seg_cost seg (zlen run) ≤ zlen (pack_ref (seg :: ss) run).
Proof.
  intros Hss Hr. assert (Hs : length seg = 8%nat) by (apply Hss; left).
  assert (Hss' : ∀ x, x ∈ ss → length x = 8%nat) by (intros x Hx; apply Hss; by right).
  assert (Hr' : ∀ x, x ∈ run ++ [seg] → length x = 8%nat).
  { intros x [Hx|Hx]%elem_of_app; [by apply Hr|by apply list_elem_of_singleton in Hx as ->]. }
  cbn [pack_ref]. unfold seg_cost. destruct (in_run seg (zlen run)) eqn:Hin.
  - assert (Hc : run_cost run + (if 0 <? zlen run then 8 else 10) = run_cost (run ++ [seg])).
    { rewrite !run_cost_zlen, zlen_app. change (zlen [seg]) with 1. pose proof (zlen_nonneg run).
      destruct (Z.ltb_spec 0 (zlen run)); repeat destruct (decide _); lia. }
    rewrite Hc. destruct (_ =? _)%nat.
    + rewrite zlen_app, flush_length by done. pose proof (zlen_nonneg (pack_ref ss [])). lia.
    + by apply pack_ref_cost.
  - rewrite !zlen_app, flush_length, seg_out_zlen by done. pose proof (zlen_nonneg (pack_ref ss [])). lia.
Qed.

Lemma pack_turn_inv s bufsz0 L j st :
  zlen s ≤ SOURCE_MAX → zlen (packed s) ≤ INT_MAX → 0 ≤ bufsz0 ≤ INT_MAX →
  bufsz0 ≤ L → (j < nsegs s)%nat → pack_inv s bufsz0 L j st →
  ∃ st', pack_turn s (Z.of_nat j) st = Ret st' ∧ pack_inv s bufsz0 L (S j) st'.
Proof.
  intros Hsrc Hmax Hb0 HL Hj (out & r & Hr & Hpacked & Hn & Hstart & Hsize & Hbuf & Hbsz & Hlen & Hat).
  set (run := take r (drop (j - r) (segs s))) in *.
  assert (Hrun : zlen run = Z.of_nat r) by (apply run_zlen; lia).
  pose proof (segs_lookup s j Hj) as Hseg.
  set (seg := take 8 (drop (8 * j) (padded s))) in *.
  assert (Hs8 : length seg = 8%nat).
  { apply segs_seg_length with s. by eapply list_elem_of_lookup_2. }
  rewrite (drop_S _ _ _ Hseg) in Hpacked.
  assert (Hfits : zlen out + run_cost run + seg_cost seg (Z.of_nat r) ≤ INT_MAX).
  { rewrite <-Hrun. etrans; [|exact Hmax]. rewrite Hpacked, zlen_app.
    pose proof (pack_ref_step_cost seg (drop (S j) (segs s)) run) as Hc. enough (run_cost run + seg_cost seg (zlen run) ≤ zlen (pack_ref (seg :: drop (S j) (segs s)) run)) by lia.
    apply Hc; [|apply run_segs_length]. rewrite <-(drop_S _ _ _ Hseg). intros x Hx.
    apply (segs_seg_length s). by eapply subseteq_drop. }
  assert (Hpos : 0 ≤ seg_cost seg (Z.of_nat r)).
  { unfold seg_cost. pose proof (zlen_nonneg (nonzero seg)). repeat destruct (_ : bool); lia. }
  cbn [pack_ref] in Hpacked. rewrite Hrun in Hpacked.
  unfold pack_turn. cbv zeta. pose proof (nsegs_bound s) as Hns.
  rewrite (cint_in (8 * Z.of_nat j + 8)) by (unfold SOURCE_MAX, INT_MIN, INT_MAX in *; lia). bsimpl. pose proof (pack_turn_read s j Hj) as Hread. cbv zeta in Hread.
  rewrite Hread. bsimpl. fold seg. clear Hread.
  pose proof (zlen_nonneg out) as Hout0. pose proof (run_cost_zlen run) as Hcost.
  destruct (pack_seg_spec seg (pk_mem st) (pk_buffer st) (pk_bufsz st) (pk_ff_n st))
    as (mem & -> & Hml & Hbelow & Hwrote); [done| | |].
  { rewrite Hbuf, Hsize, Hcost. destruct (decide _); lia. }
  { rewrite Hbuf, Hbsz. lia. }
  bsimpl. rewrite Hn in *.
  rewrite !cint_in by (rewrite ?Hbsz, ?Hsize; pose proof (zlen_nonneg out); unfold INT_MIN in *;
    unfold INT_MAX in *; rewrite run_cost_zlen in *; destruct (decide _); lia). bsimpl.
  assert (Hout : zlen out ≤ bufsz0 → mem_at mem 0 out).
  { intros Hle. eapply mem_at_same; [|exact (Hat Hle)]. intros k Hk. apply Hbelow.
    rewrite Hbuf, Hsize, Hcost. unfold zlen in *. destruct (decide _); lia. }
  unfold seg_cost in *. rewrite Hbsz in *. rewrite Hbuf in *. rewrite Hsize in *.
  assert (Hnz : 0 ≤ zlen (nonzero seg) ≤ 8).
  { pose proof (nonzero_length seg). unfold zlen. lia. }
  destruct (in_run seg (Z.of_nat r)) eqn:Hin.
  - destruct (Z.ltb_spec 0 (Z.of_nat r)) as [Hr0|Hr0]; cbn [Z.eqb Pos.eqb andb].
    + destruct (Hstart ltac:(lia)) as [Hp Hd]. rewrite Hp, Hd.
      rewrite decide_False in Hcost by lia.
      assert (Hrl : length run = r) by (unfold zlen in Hrun; lia).
      rewrite length_app, Hrl in Hpacked. cbn [length] in Hpacked.
      pose proof (run_snoc s j r seg ltac:(lia) Hseg) as Hsnoc. fold run in Hsnoc.
      assert (Hrc : run_cost (run ++ [seg]) = 2 + 8 * (Z.of_nat r + 1)).
      { rewrite run_cost_zlen, zlen_app, Hrun, decide_False; change (zlen [seg]) with 1; lia. }
      destruct (Z.eqb_spec (Z.of_nat r + 1) 256) as [H256|H256].
      * rewrite (proj2 (Nat.eqb_eq (r + 1) 256)) in Hpacked by lia.
        assert (Hmem : ∃ mem', (if 0 <=? bufsz0 - (zlen out + run_cost run) - 8
            then write_ff s (PSrc (8 * Z.of_nat (j - r))) mem (zlen out) 256 else Ret mem)
              = Ret mem' ∧ zlen mem' = L ∧
            (zlen out + run_cost (run ++ [seg]) ≤ bufsz0 → mem_at mem' 0 (out ++ flush (run ++ [seg])))).
        { destruct (Z.leb_spec 0 (bufsz0 - (zlen out + run_cost run) - 8)).
          - destruct (write_ff_out s mem out (j - r) (S r) (run ++ [seg]))
              as (mem' & Hw & Hl' & Ha & _); [|lia|lia|lia|auto with lia|].
            { rewrite <-Hsnoc. f_equal. }
            replace (Z.of_nat (S r)) with 256 in Hw by lia.
            exists mem'. split_and!; [done|lia|done].
          - exists mem. split_and!; [done|lia|]. intros; lia. }
        destruct Hmem as (mem' & -> & Hl' & Ha). bsimpl. eexists. split; [done|].
        exists (out ++ flush (run ++ [seg])), 0%nat. cbn [pk_ff_n pk_ff_srcstart pk_ff_desstart
          pk_size pk_buffer pk_bufsz pk_mem].
        rewrite zlen_app, flush_length.
        2:{ intros x. rewrite <-Hsnoc. apply run_segs_length. }
        rewrite take_0. cbn [run_cost]. rewrite <-app_assoc.
        split_and!; done || lia || auto.
      * rewrite (proj2 (Nat.eqb_neq (r + 1) 256)) in Hpacked by lia.
        eexists. split; [done|]. exists out, (S r).
        cbn [pk_ff_n pk_ff_srcstart pk_ff_desstart pk_size pk_buffer pk_bufsz pk_mem].
        rewrite Hsnoc. rewrite Hrc. replace (S j - S r)%nat with (j - r)%nat by lia.
        split_and!; try done; try lia; auto.
    + assert (r = 0%nat) as -> by lia. cbn [Z.eqb Pos.eqb].
      rewrite decide_True in Hcost by lia.
      assert (Hrn : run = []) by (unfold run; by rewrite take_0).
      rewrite Hrn in Hpacked. cbn in Hpacked.
      unfold in_run in Hin. rewrite andb_false_r, orb_false_r in Hin.
      apply Nat.eqb_eq in Hin. rewrite (full_seg_src s j seg) by done.
      eexists. split; [done|]. exists out, 1%nat.
      cbn [pk_ff_n pk_ff_srcstart pk_ff_desstart pk_size pk_buffer pk_bufsz pk_mem].
      rewrite (run_snoc s j 0 seg) by (done || lia). rewrite take_0. cbn [app].
      replace (run_cost [seg]) with 10 by done.
      replace (S j - 1)%nat with j by lia.
      split_and!; try done; try lia; auto. intros _. split; [done|lia].
  - assert (Hq : (1 + zlen (nonzero seg) =? 10) = false) by (apply Z.eqb_neq; lia).
    rewrite Hq. replace ((1 + zlen (nonzero seg) =? 8) && (0 <? Z.of_nat r)) with false.
    2:{ unfold in_run in Hin. unfold zlen. symmetry.
        destruct (0 <? Z.of_nat r); [|by rewrite andb_false_r].
        rewrite andb_true_r in *. apply orb_false_iff in Hin as [H1 H2].
        apply Nat.leb_gt in H2. apply Z.eqb_neq. lia. }
    assert (Hmem : ∃ mem', (if 0 <? Z.of_nat r then
          if 0 <=? bufsz0 - (zlen out + run_cost run) - (1 + zlen (nonzero seg))
          then write_ff s (pk_ff_srcstart st) mem (pk_ff_desstart st) (Z.of_nat r) else Ret mem
          else Ret mem) = Ret mem' ∧ zlen mem' = L ∧
        (zlen out + run_cost run + 1 + zlen (nonzero seg) ≤ bufsz0 →
         mem_at mem' 0 (out ++ flush run ++ seg_out seg))).
    { assert (Hsegat : zlen out + run_cost run + 1 + zlen (nonzero seg) ≤ bufsz0 →
        mem_at mem (Z.to_nat (zlen out + run_cost run)) (seg_out seg)).
      { intros. apply Hwrote; [done|lia]. }
      destruct (Z.ltb_spec 0 (Z.of_nat r)).
      - rewrite decide_False in Hcost by lia. destruct (Hstart ltac:(lia)) as [-> ->].
        destruct (Z.leb_spec 0 (bufsz0 - (zlen out + run_cost run) - (1 + zlen (nonzero seg)))).
        + destruct (write_ff_out s mem out (j - r) r run)
            as (mem' & Hw & Hl' & Ha & Hs); [done|lia|lia|lia|auto with lia|].
          exists mem'. split_and!; [done|lia|]. intros Hfit. rewrite app_assoc.
          apply mem_at_app. split; [done|].
          rewrite length_app. replace (0 + (length out + length (flush run)))%nat
            with (Z.to_nat (zlen out + run_cost run)).
          2:{ rewrite <-flush_length; [unfold zlen; lia|]. intros x. apply run_segs_length. }
          eapply mem_at_same; [|exact (Hsegat Hfit)]. intros i Hi. apply Hs. lia.
        + exists mem. split_and!; [done|lia|]. intros; lia.
      - exists mem. split_and!; [done|lia|]. intros Hfit. rewrite decide_True in Hcost by lia.
        assert (Hrn : run = []) by (unfold run; replace r with 0%nat by lia; by rewrite take_0).
        rewrite Hrn. cbn [flush app]. apply mem_at_app. split; [auto with lia|].
        replace (0 + length out)%nat with (Z.to_nat (zlen out + run_cost run)); [auto|].
        unfold zlen in *. lia. }
    destruct Hmem as (mem' & Hm & Hl' & Ha).
    assert (Hgoal : pack_inv s bufsz0 L (S j)
      (MkPack mem' (pk_ff_srcstart st) (pk_ff_desstart st) 0
         (zlen out + run_cost run + (1 + zlen (nonzero seg)))
         (zlen out + run_cost run + (1 + zlen (nonzero seg)))
         (bufsz0 - (zlen out + run_cost run) - (1 + zlen (nonzero seg))))).
    { exists (out ++ flush run ++ seg_out seg), 0%nat.
      cbn [pk_ff_n pk_ff_srcstart pk_ff_desstart pk_size pk_buffer pk_bufsz pk_mem].
      rewrite !zlen_app, flush_length, seg_out_zlen by (intros x; apply run_segs_length).
      rewrite take_0. cbn [run_cost]. rewrite <-!app_assoc.
      split_and!; try done; try lia. intros. apply Ha. lia. }
    destruct (Z.ltb_spec 0 (Z.of_nat r)).
    + rewrite Hm. bsimpl. eexists. by split.
    + injection Hm as ->. bsimpl. eexists. split; [done|].
      by replace (Z.of_nat r) with 0 by lia.
Qed.

(** *** The size of the packing *)

Lemma seg_out_bound seg n : length seg = 8%nat → in_run seg n = false → zlen (seg_out seg) ≤ 8.
Proof.
  intros Hs Hin. rewrite seg_out_zlen. apply orb_false_iff in Hin as [H1 _].
  apply Nat.eqb_neq in H1. pose proof (nonzero_length seg). unfold zlen. lia.
Qed.

Lemma seg_out_bound_run seg n :
  length seg = 8%nat → in_run seg n = false → 0 < n → zlen (seg_out seg) ≤ 6.
Proof.
  intros Hs Hin Hn. rewrite seg_out_zlen. apply orb_false_iff in Hin as [_ H1].
  rewrite (proj2 (Z.ltb_lt _ _) Hn), andb_true_r in H1. apply Nat.leb_gt in H1.
  unfold zlen. lia.
Qed.

Lemma in_run_nonzero seg n :
  in_run seg n = true → length (nonzero seg) = 8%nat ∨ (0 < n ∧ (6 ≤ length (nonzero seg))%nat).
Proof.
  intros [H|[H1 H2]%andb_true_iff]%orb_true_iff; [left; by apply Nat.eqb_eq|right].
  split; [by apply Z.ltb_lt|by apply Nat.leb_le].
Qed.

(** The tag of a run is paid once per 256 segments, or by the segment that
    closes it; the last segment holds [q] bytes of the message. *)
Lemma pack_ref_bound init last q run :
  (∀ x, x ∈ init → length x = 8%nat) → length last = 8%nat →
  (∀ x, x ∈ run → length x = 8%nat) → zlen run ≤ 255 →
  zlen (nonzero last) ≤ q →
  zlen (pack_ref (init ++ [last]) run) ≤
    8 * (zlen init + zlen run) + q + 2 + 2 * ((zlen init + 1 + zlen run + 255) / 256).
Proof.
  revert run. induction init as [|s init IH]; intros run Hi Hl Hr Hr255 Hq;
    cbn [app pack_ref].
  - pose proof (run_cost_zlen run) as Hc. pose proof (zlen_nonneg run).
    pose proof (in_run_nonzero last (zlen run)) as Hnz. change (zlen []) with 0.
    assert (Hsn : zlen (run ++ [last]) = zlen run + 1) by (rewrite zlen_app; done).
    assert (Hfl : zlen (flush (run ++ [last])) = 2 + 8 * (zlen run + 1)).
    { rewrite flush_length, run_cost_zlen, Hsn; [by rewrite decide_False by lia|].
      intros x [Hx| ->%list_elem_of_singleton]%elem_of_app; auto. }
    destruct (in_run last (zlen run)) eqn:Hin.
    + destruct Hnz as [Hnz|[? Hnz]]; [done| |]; unfold zlen in Hq;
        destruct (_ =? 256)%nat; rewrite ?zlen_app, Hfl; change (zlen (flush [])) with 0; zlia.
    + rewrite !zlen_app, flush_length, seg_out_zlen by done. change (zlen (flush [])) with 0.
      destruct (decide _); zlia.
  - assert (Hs : length s = 8%nat) by set_solver. rewrite zlen_cons.
    pose proof (zlen_nonneg run). pose proof (run_cost_zlen run) as Hc.
    assert (Hsn : zlen (run ++ [s]) = zlen run + 1) by (rewrite zlen_app; done).
    destruct (in_run s (zlen run)) eqn:Hin.
    + destruct (Nat.eqb_spec (length (run ++ [s])) 256) as [Hx|Hx].
      * rewrite zlen_app, flush_length, run_cost_zlen by set_solver.
        rewrite Hsn. rewrite decide_False by lia.
        etrans; [apply Z.add_le_mono_l, IH; [set_solver|done|set_solver|done|done]|].
        unfold zlen in *. cbn [length]. zlia.
      * etrans; [apply IH; [set_solver|done|set_solver|unfold zlen in *; lia|done]|].
        rewrite Hsn. zlia.
    + rewrite !zlen_app, flush_length by done.
      pose proof (IH [] ltac:(set_solver) Hl ltac:(set_solver) ltac:(done) Hq) as Hrest.
      change (zlen []) with 0 in Hrest.
      destruct (decide (zlen run = 0)).
      * pose proof (seg_out_bound s _ Hs Hin). zlia.
      * pose proof (seg_out_bound_run s _ Hs Hin ltac:(lia)). zlia.
Qed.

(** The number of non-zero bytes does not grow with the padding. *)
Lemma nonzero_padding l n : nonzero (l ++ replicate n 0) = nonzero l.
Proof.
  unfold nonzero. rewrite filter_app. rewrite <-(app_nil_r (filter _ l)) at 2. f_equal.
  induction n; [done|]. simpl replicate. by rewrite filter_cons_False by (intros ?; done).
Qed.

Lemma packed_bound s : zlen (packed s) ≤ (zlen s + 2047) / 2048 * 2 + zlen s + 2.
Proof.
  unfold packed. pose proof (nsegs_bound s) as Hn. pose proof (zlen_nonneg s).
  destruct (nsegs s) as [|n] eqn:Hns.
  { unfold segs. rewrite Hns. simpl. change (zlen []) with 0. zlia. }
  pose proof (segs_lookup s n ltac:(lia)) as Hlast.
  rewrite <-(take_drop_middle _ _ _ Hlast), (drop_ge (segs s)) by (rewrite segs_length; lia).
  assert (Hi : zlen (take n (segs s)) = Z.of_nat n).
  { unfold zlen. rewrite length_take, segs_length. lia. }
  etrans; [apply (pack_ref_bound _ _ (zlen s - 8 * Z.of_nat n))|].
  - intros x Hx. apply (segs_seg_length s). apply list_elem_of_lookup in Hx as [i Hx].
    apply lookup_take_Some in Hx as [Hx _]. by eapply list_elem_of_lookup_2.
  - apply (segs_seg_length s). by eapply list_elem_of_lookup_2.
  - set_solver.
  - done.
  - rewrite padded_mread, nonzero_padding by lia. unfold zlen in *.
    pose proof (nonzero_length (take 8 (drop (8 * n) s))) as Hle.
    rewrite length_take, length_drop in Hle. lia.
  - rewrite Hi. change (zlen []) with 0. zlia.
Qed.

Lemma sproto_pack_run s mem bufsz :
  zlen s ≤ SOURCE_MAX → 0 ≤ bufsz ≤ INT_MAX → bufsz ≤ zlen mem →
  ∃ mem', sproto_pack s mem bufsz = Ret (zlen (packed s), mem') ∧ zlen mem' = zlen mem ∧
    (zlen (packed s) ≤ bufsz → mem_at mem' 0 (packed s)).
Proof.
  intros Hs Hb0 Hb. unfold sproto_pack.
  assert (Hmax : zlen (packed s) ≤ INT_MAX).
  { etrans; [apply packed_bound|]. apply source_max_fits. split; [apply zlen_nonneg|done]. }
  destruct (for_loop_inv (λ j st, pack_inv s bufsz (zlen mem) (Z.to_nat j) st) (pack_turn s)
    (nsegs s) 0 (MkPack mem PNull 0 0 0 0 bufsz)) as (st & Hrun & Hinv).
  { exists [], 0%nat. cbn. rewrite !take_0. split_and!; try done; try lia. }
  { intros j st Hj Hinv.
    destruct (pack_turn_inv s bufsz (zlen mem) (Z.to_nat j) st) as (st' & Ht & Hi);
      [done|done|done|done|lia|done|]. rewrite Z2Nat.id in Ht by lia. exists st'. split; [done|].
    by replace (Z.to_nat (j + 1)) with (S (Z.to_nat j)) by lia. }
  unfold nsegs in Hrun. rewrite Hrun. bsimpl. rewrite Z.add_0_l, Nat2Z.id in Hinv.
  destruct Hinv as (out & r & Hr & Hpacked & Hn & Hstart & Hsize & Hbuf & Hbsz & Hlen & Hat).
  rewrite drop_ge in Hpacked by (rewrite segs_length; lia). cbn [pack_ref] in Hpacked.
  set (run := take r (drop (nsegs s - r) (segs s))) in *.
  assert (Hrz : zlen run = Z.of_nat r) by (apply run_zlen; lia).
  pose proof (run_cost_zlen run) as Hcost. rewrite Hrz in Hcost.
  assert (Hpl : zlen (packed s) = zlen out + run_cost run).
  { rewrite Hpacked, zlen_app, flush_length; [done|]. intros x. apply run_segs_length. }
  rewrite Hn, Hbsz, Hsize, Hpl.
  destruct (Z.leb_spec 0 (bufsz - (zlen out + run_cost run))), (Z.ltb_spec 0 (Z.of_nat r));
    cbn [andb].
  2-4: bsimpl; eexists; split_and!; [done|done|]; intros Hfit; try lia;
       rewrite decide_True in Hcost by lia; rewrite Hpacked;
       replace run with (@nil (list Z)) by (unfold run; replace r with 0%nat by lia; by rewrite take_0);
       cbn [flush]; rewrite app_nil_r; apply Hat; lia.
  rewrite decide_False in Hcost by lia. destruct (Hstart ltac:(lia)) as [-> ->].
  destruct (write_ff_out s (pk_mem st) out (nsegs s - r) r run) as (mem' & Hw & Hl & Ha & _);
    [done|lia|lia|lia|apply Hat; lia|].
  rewrite Hw. bsimpl. exists mem'. split_and!; [done|lia|]. by rewrite Hpacked.
Qed.

(** *** [sproto_unpack] computes the reference unpacking *)

(** The loop of [sproto_unpack] when [out] has been produced and [l] is left. *)
Definition unpack_inv (srcv : list Z) (bufsz0 L : Z) (out l : list Z) (st : unpack_state) : Prop :=
  0 ≤ un_src st ∧ l = drop (Z.to_nat (un_src st)) srcv ∧ un_srcsz st = zlen l ∧
  un_size st = zlen out ∧ zlen (un_mem st) = L ∧
  ((- zlen out ≤ un_bufsz st ≤ 0 ∧ bufsz0 < zlen out) ∨
   (un_bufsz st = bufsz0 - zlen out ∧ 0 ≤ un_bufsz st ∧ un_buffer st = zlen out ∧
    mem_at (un_mem st) 0 out)).

Lemma mem_at_snoc (mem : list Z) out c :
  zlen out < zlen mem → mem_at mem 0 out → mem_at (<[Z.to_nat (zlen out) := c]> mem) 0 (out ++ [c]).
Proof.
  unfold zlen. intros Hl H. apply mem_at_app. split.
  - eapply mem_at_same; [|exact H]. intros k Hk. apply list_lookup_insert_ne. lia.
  - intros [|k] b Hk; [|done]. injection Hk as <-.
    replace (0 + length out + 0)%nat with (Z.to_nat (Z.of_nat (length out))) by lia.
    apply list_lookup_insert_eq. lia.
Qed.

Lemma aget_drop (l : list Z) off c l' :
  0 ≤ off → c :: l' = drop (Z.to_nat off) l →
  aget l off = Ret c ∧ l' = drop (Z.to_nat (off + 1)) l.
Proof.
  intros Ho H. split.
  - apply aget_Ret. split; [done|]. rewrite <-(Nat.add_0_r (Z.to_nat off)), <-lookup_drop.
    by rewrite <-H.
  - replace (Z.to_nat (off + 1)) with (Z.to_nat off + 1)%nat by lia.
    by rewrite <-drop_drop, <-H.
Qed.

(** One more byte [c] of output, written if there is room. *)
Lemma unpack_put srcv bufsz0 L out l mem src srcsz buffer bufsz size c :
  bufsz0 ≤ L → unpack_inv srcv bufsz0 L out l (MkUnpack mem src srcsz buffer bufsz size) →
  (if 0 <? bufsz then ∃ mem', aset mem buffer c = Ret mem' ∧ ∀ src' srcsz' l',
     0 ≤ src' → l' = drop (Z.to_nat src') srcv → srcsz' = zlen l' →
     unpack_inv srcv bufsz0 L (out ++ [c]) l'
       (MkUnpack mem' src' srcsz' (buffer + 1) (bufsz - 1) (size + 1))
   else ∀ src' srcsz' l', 0 ≤ src' → l' = drop (Z.to_nat src') srcv → srcsz' = zlen l' →
     unpack_inv srcv bufsz0 L (out ++ [c]) l'
       (MkUnpack mem src' srcsz' buffer bufsz (size + 1))).
Proof.
  intros HL (H0 & Hl & Hsz & Hsize & Hmem & Hfit). cbn in *. pose proof (zlen_nonneg out).
  destruct (Z.ltb_spec 0 bufsz).
  - destruct Hfit as [[? ?]|(Hb & _ & Hbuf & Hat)]; [lia|]. subst buffer.
    rewrite aset_in by lia. eexists. split; [done|]. intros src' srcsz' l' ???.
    split_and!; cbn; try done.
    + rewrite zlen_app. change (zlen [c]) with 1. lia.
    + by rewrite zlen_insert.
    + right. rewrite zlen_app. change (zlen [c]) with 1. split_and!; try lia.
      apply mem_at_snoc; [lia|done].
  - intros src' srcsz' l' ???. split_and!; cbn; try done.
    + rewrite zlen_app. change (zlen [c]) with 1. lia.
    + left. rewrite zlen_app. change (zlen [c]) with 1.
      destruct Hfit as [[? ?]|(Hb & ? & ? & ?)]; lia.
Qed.

Lemma unpack_bits_inl srcv header n i mem :
  for_loop n i (unpack_bit srcv header) (inl mem) = Ret (inl mem).
Proof. revert i. induction n as [|n IH]; intros i; [done|]. cbn. apply IH. Qed.

Lemma unpack_bits_spec srcv bufsz0 L header n :
  bufsz0 ≤ L → ∀ i out l st, 0 ≤ i → zlen out + Z.of_nat n ≤ INT_MAX → unpack_inv srcv bufsz0 L out l st →
  match unpack_bits n (Z.shiftr header i) l with
  | None => ∃ mem, for_loop n i (unpack_bit srcv header) (inr st) = Ret (inl mem) ∧ zlen mem = L
  | Some (o, r) => length o = n ∧
      ∃ st', for_loop n i (unpack_bit srcv header) (inr st) = Ret (inr st') ∧
        unpack_inv srcv bufsz0 L (out ++ o) r st'
  end.
Proof.
  intros HL. induction n as [|n IH]; intros i out l st Hi Hmax Hinv.
  { cbn. split; [done|]. exists st. split; [done|]. by rewrite app_nil_r. }
  destruct st as [mem src srcsz buffer bufsz size].
  cbn [unpack_bits]. rewrite for_loop_S. cbn [unpack_bit].
  replace (negb (Z.land (Z.shiftr header i) 1 =? 0)) with (Z.odd (Z.shiftr header i)).
  2:{ change 1 with (2 ^ 1 - 1). rewrite land_mask by lia.
      change (2 ^ 1) with 2. rewrite Zmod_odd. by destruct (Z.odd _). }
  assert (Hs : Z.shiftr header i / 2 = Z.shiftr header (i + 1)).
  { rewrite <-Z.div2_div, Z.div2_spec, Z.shiftr_shiftr; [done|lia]. }
  rewrite Hs. pose proof Hinv as Hinv'.
  destruct Hinv' as (H0 & Hl & Hsz & Hsize & Hmem & _). cbn in H0, Hl, Hsz, Hsize, Hmem.
  pose proof (zlen_nonneg out). rewrite !cint_in by (unfold INT_MIN, INT_MAX in *; lia). bsimpl.
  destruct (Z.odd (Z.shiftr header i)).
  - destruct l as [|c l].
    + change (zlen []) with 0 in Hsz. subst srcsz. cbn [Z.leb Z.compare].
      exists mem. split; [apply unpack_bits_inl|done].
    + destruct (aget_drop _ _ _ _ H0 Hl) as [Hget Hl'].
      pose proof (unpack_put _ _ _ _ _ _ _ _ _ _ _ c HL Hinv) as Hput.
      rewrite zlen_cons in Hsz. pose proof (zlen_nonneg l).
      destruct (Z.leb_spec srcsz 0); [lia|].
      assert (Hput' : ∃ st', (if 0 <? bufsz then
          c ← aget srcv src; mem' ← aset mem buffer c;
          Ret (@inr (list Z) _ (MkUnpack mem' (src + 1) (srcsz - 1) (buffer + 1) (bufsz - 1) (size + 1)))
        else Ret (inr (MkUnpack mem (src + 1) (srcsz - 1) buffer bufsz (size + 1)))) = Ret (inr st') ∧
        unpack_inv srcv bufsz0 L (out ++ [c]) l st').
      { destruct (Z.ltb_spec 0 bufsz).
        - destruct Hput as (mem' & Hw & Hput). rewrite Hget. bsimpl. rewrite Hw. bsimpl.
          eexists. split; [done|]. apply Hput; done || lia.
        - eexists. split; [done|]. apply Hput; done || lia. }
      destruct Hput' as (st' & -> & Hinv').
      specialize (IH (i + 1) (out ++ [c]) _ _ ltac:(lia) ltac:(rewrite zlen_app; change (zlen [c]) with 1; lia) Hinv').
      destruct (unpack_bits n _ l) as [[o r]|]; [|done]. cbn.
      destruct IH as [Ho IH]. split; [by rewrite <-Ho|]. by rewrite <-app_assoc in IH.
  - pose proof (unpack_put _ _ _ _ _ _ _ _ _ _ _ 0 HL Hinv) as Hput.
    assert (Hput' : ∃ st', (if 0 <? bufsz then
        mem' ← aset mem buffer 0;
        Ret (@inr (list Z) _ (MkUnpack mem' src srcsz (buffer + 1) (bufsz - 1) (size + 1)))
      else Ret (inr (MkUnpack mem src srcsz buffer bufsz (size + 1)))) = Ret (inr st') ∧
      unpack_inv srcv bufsz0 L (out ++ [0]) l st').
    { destruct (Z.ltb_spec 0 bufsz).
      - destruct Hput as (mem' & Hw & Hput). rewrite Hw. bsimpl.
        eexists. split; [done|]. by apply Hput.
      - eexists. split; [done|]. by apply Hput. }
    destruct Hput' as (st' & -> & Hinv').
    specialize (IH (i + 1) (out ++ [0]) _ _ ltac:(lia) ltac:(rewrite zlen_app; change (zlen [0]) with 1; lia) Hinv').
    destruct (unpack_bits n _ l) as [[o r]|]; [|done]. cbn.
    destruct IH as [Ho IH]. split; [by rewrite <-Ho|]. by rewrite <-app_assoc in IH.
Qed.

(** A run copied as it is. *)
Lemma unpack_run srcv bufsz0 L out l mem src srcsz buffer bufsz size n src' srcsz' :
  bufsz0 ≤ L → unpack_inv srcv bufsz0 L out l (MkUnpack mem src srcsz buffer bufsz size) →
  0 < n → 0 ≤ src' → src' + n ≤ zlen srcv → srcsz' = zlen srcv - (src' + n) →
  ∃ mem', (if n <=? bufsz then bs ← mread srcv src' n; mwrite mem buffer bs else Ret mem)
            = Ret mem' ∧
    unpack_inv srcv bufsz0 L (out ++ take (Z.to_nat n) (drop (Z.to_nat src') srcv))
      (drop (Z.to_nat (src' + n)) srcv)
      (MkUnpack mem' (src' + n) srcsz' (buffer + n) (bufsz - n) (size + n)).
Proof.
  intros HL (H0 & Hl & Hsz & Hsize & Hmem & Hfit) Hn Hs Hend ->. cbn in *.
  set (run := take _ _).
  assert (Hrl : zlen run = n).
  { unfold run, zlen in *. rewrite length_take, length_drop. lia. }
  assert (Hsl : zlen srcv - (src' + n) = zlen (drop (Z.to_nat (src' + n)) srcv)).
  { unfold zlen in *. rewrite length_drop. lia. }
  pose proof (zlen_nonneg out).
  destruct (Z.leb_spec n bufsz).
  - destruct Hfit as [[? ?]|(Hb & _ & Hbuf & Hat)]; [lia|]. subst buffer.
    rewrite mread_in by lia. bsimpl. fold run.
    destruct (mwrite_in mem (zlen out) run) as (mem' & Hw & Hl' & Hrun & Hsame); [lia..|].
    exists mem'. split; [done|]. split_and!; cbn; try done; try lia.
    + rewrite zlen_app. lia.
    + right. rewrite zlen_app. split_and!; try lia. apply mem_at_app. split.
      * eapply mem_at_same; [|exact Hat]. intros k Hk. apply Hsame. unfold zlen. lia.
      * replace (0 + length out)%nat with (Z.to_nat (zlen out)) by (unfold zlen; lia). done.
  - exists mem. split; [done|]. split_and!; cbn; try done; try lia.
    + rewrite zlen_app. lia.
    + left. rewrite zlen_app. destruct Hfit as [[? ?]|(? & ? & ? & ?)]; lia.
Qed.

Lemma unpack_bits_length n h l o r :
  unpack_bits n h l = Some (o, r) → (length r ≤ length l)%nat.
Proof.
  revert h l o r. induction n as [|n IH]; intros h l o r; cbn.
  { by intros [= <- <-]. }
  destruct (Z.odd h).
  - destruct l as [|c l]; [done|].
    destruct (unpack_bits n (h / 2) l) as [[o' r']|] eqn:E; [|done]. cbn.
    intros [= <- <-]. apply IH in E. cbn. lia.
  - destruct (unpack_bits n (h / 2) l) as [[o' r']|] eqn:E; [|done]. cbn.
    intros [= <- <-]. by apply IH in E.
Qed.

Lemma unpack_loop srcv bufsz0 L fuel :
  bytes srcv → 8 * zlen srcv ≤ INT_MAX → bufsz0 ≤ INT_MAX → bufsz0 ≤ L →
  ∀ out l st, unpack_inv srcv bufsz0 L out l st → zlen out ≤ 8 * (zlen srcv - zlen l) →
  (length l < fuel)%nat →
  ∃ mem', zlen mem' = L ∧
  match unpack_ref fuel l with
  | None => loop fuel (unpack_turn srcv) st = Ret (-1, mem')
  | Some o => loop fuel (unpack_turn srcv) st = Ret (zlen out + zlen o, mem') ∧
      (zlen out + zlen o ≤ bufsz0 → mem_at mem' 0 (out ++ o))
  end.
Proof.
  intros Hby Hmax Hb0 HL. induction fuel as [|fuel IH]; intros out l st Hinv Hgrow Hf; [lia|].
  destruct st as [mem src srcsz buffer bufsz size]. rewrite loop_S. cbn [unpack_turn unpack_ref].
  pose proof Hinv as (H0 & Hl & Hsz & Hsize & Hmem & Hfit). cbn in H0, Hl, Hsz, Hsize, Hmem.
  destruct l as [|h l'].
  { change (zlen []) with 0 in *. subst srcsz. cbn [Z.leb Z.compare]. bsimpl.
    exists mem. rewrite Z.add_0_r, app_nil_r, Hsize. split_and!; try done.
    intros Hle. cbn in Hfit. destruct Hfit as [[? ?]|(? & ? & ? & ?)]; [lia|done]. }
  rewrite zlen_cons in Hsz. pose proof (zlen_nonneg l'). cbn [length] in Hf.
  destruct (Z.leb_spec srcsz 0); [lia|]. destruct (aget_drop _ _ _ _ H0 Hl) as [-> Hl'].
  bsimpl. destruct (Z.eqb_spec h 255) as [->|Hh].
  - destruct l' as [|c l2].
    { change (zlen []) with 0 in *. destruct (Z.leb_spec (srcsz - 1) 0); [|lia]. by exists mem. }
    rewrite zlen_cons in Hsz. pose proof (zlen_nonneg l2). cbn [length] in Hf.
    destruct (Z.leb_spec (srcsz - 1) 0); [lia|].
    assert (Hc : 0 ≤ c < 256).
    { assert (Hin : c ∈ srcv).
      { apply (subseteq_drop (Z.to_nat (src + 1)) srcv). rewrite <-Hl'. set_solver. }
      rewrite Forall_forall in Hby. by apply Hby. }
    destruct (aget_drop srcv (src + 1) _ _ ltac:(lia) Hl') as [-> Hl2]. bsimpl. unfold zlen in Hsz.
    destruct (Nat.ltb_spec (length l2) (Z.to_nat ((c + 1) * 8))).
    { destruct (Z.ltb_spec (srcsz - 1) ((c + 1) * 8 + 1)); [|lia]. bsimpl. by exists mem. }
    destruct (Z.ltb_spec (srcsz - 1) ((c + 1) * 8 + 1)); [lia|].
    assert (Hlen : src + 1 + 1 + Z.of_nat (length l2) = zlen srcv).
    { pose proof (f_equal length Hl2) as Hx. rewrite length_drop in Hx.
      pose proof (f_equal length Hl) as Hy. rewrite length_drop in Hy.
      cbn [length] in Hy. unfold zlen. lia. }
    destruct (unpack_run srcv bufsz0 L out (255 :: c :: l2) mem src srcsz buffer bufsz size
      ((c + 1) * 8) (src + 1 + 1) (srcsz - 1 - ((c + 1) * 8 + 1)))
      as (mem' & -> & Hinv'); [done|done|lia|lia|lia|lia|].
    bsimpl. rewrite (Z2Nat.inj_add (src + 1 + 1)), <-drop_drop, <-Hl2 in Hinv' by lia.
    pose proof (zlen_nonneg out). rewrite !zlen_cons in Hgrow. unfold zlen at 3 in Hgrow. cbn in Hfit.
    rewrite !cint_in by (unfold INT_MIN in *; unfold INT_MAX in *; lia). bsimpl.
    destruct (IH _ _ _ Hinv') as (mem2 & Hm2 & IH').
    { rewrite zlen_app. unfold zlen at 2 4. rewrite length_take, !length_drop. lia. }
    { rewrite length_drop. lia. }
    exists mem2. split; [done|]. destruct (unpack_ref fuel _) as [o|]; [|done]. cbn.
    rewrite !zlen_app, <-app_assoc in *. by rewrite Z.add_assoc.
  - pose proof (unpack_bits_spec srcv bufsz0 L h 8 HL 0 out l'
      (MkUnpack mem (src + 1) (srcsz - 1) buffer bufsz size) ltac:(lia)) as Hbits.
    rewrite Z.shiftr_0_r in Hbits.
    rename Hbits into Hbits'. rewrite zlen_cons in Hgrow. pose proof (zlen_nonneg out).
    ospecialize (Hbits' _ _). { unfold INT_MAX in *. lia. } { split_and!; cbn; try done; lia. }
    destruct (unpack_bits 8 h l') as [[seg r]|] eqn:E.
    + destruct Hbits' as [Hs8 (st' & -> & Hinv')]. bsimpl.
      apply unpack_bits_length in E.
      destruct (IH _ _ _ Hinv') as (mem2 & Hm2 & IH'); [rewrite zlen_app; unfold zlen in *; lia|lia|].
      exists mem2. split; [done|]. cbn. destruct (unpack_ref fuel r) as [o|]; [|done]. cbn.
      rewrite !zlen_app, <-app_assoc in *. by rewrite Z.add_assoc.
    + destruct Hbits' as (mem' & -> & Hm'). bsimpl. by exists mem'.
Qed.

(** ** Unpacking what was packed *)

Lemma unpack_bits_seg seg r :
  unpack_bits (length seg) (hdr seg) (nonzero seg ++ r) = Some (seg, r).
Proof.
  induction seg as [|c seg IH]; [done|]. cbn [length hdr unpack_bits].
  unfold nonzero. destruct (Z.eqb_spec c 0) as [->|Hc].
  - rewrite filter_cons_False by (intros ?; done). rewrite Z.add_0_l, Z.odd_mul. cbn.
    rewrite Z.mul_comm, Z.div_mul by lia. unfold nonzero in IH. by rewrite IH.
  - rewrite filter_cons_True by done. rewrite Z.odd_add_mul_2. cbn.
    replace ((1 + 2 * hdr seg) / 2) with (hdr seg) by zlia. unfold nonzero in IH. by rewrite IH.
Qed.

Lemma unpack_flush fuel run rest :
  (∀ x, x ∈ run → length x = 8%nat) → zlen run ≤ 256 →
  (length (flush run ++ rest) < S fuel)%nat → run ≠ [] →
  unpack_ref (S fuel) (flush run ++ rest) = out ← unpack_ref fuel rest; Some (concat run ++ out).
Proof.
  intros H8 H256 Hf Hne. pose proof (concat_length8 run H8) as Hc.
  assert (Hfl : flush run = 255 :: (zlen run - 1) :: concat run) by by destruct run.
  rewrite Hfl. cbn [app unpack_ref Z.eqb Pos.eqb]. cbv zeta.
  replace (Z.to_nat ((zlen run - 1 + 1) * 8)) with (length (concat run)) by (unfold zlen in *; lia).
  rewrite (proj2 (Nat.ltb_ge _ _)) by (rewrite length_app; lia).
  by rewrite drop_app_length, take_app_length.
Qed.

Lemma unpack_pack_ref ss : ∀ run fuel,
  (∀ x, x ∈ ss → length x = 8%nat) → (∀ x, x ∈ run → length x = 8%nat) → zlen run ≤ 255 →
  (length (pack_ref ss run) < fuel)%nat →
  unpack_ref fuel (pack_ref ss run) = Some (concat run ++ concat ss).
Proof.
  induction ss as [|s ss IH]; intros run fuel Hss Hrun H255 Hf; cbn [pack_ref] in *.
  - destruct fuel as [|fuel]; [lia|]. destruct (decide (run = [])) as [->|Hne]; [done|].
    rewrite <-(app_nil_r (flush run)) in *. rewrite unpack_flush by (done || lia).
    destruct fuel; [|done]. rewrite app_nil_r in Hf.
    destruct run; [done|]. cbn in Hf. lia.
  - assert (Hs : length s = 8%nat) by set_solver.
    destruct (in_run s (zlen run)) eqn:Hin.
    + assert (Hrs : ∀ x, x ∈ run ++ [s] → length x = 8%nat) by set_solver.
      destruct (Nat.eqb_spec (length (run ++ [s])) 256) as [H256|H256].
      * destruct fuel as [|fuel]; [lia|].
        rewrite unpack_flush; [|done|unfold zlen; lia|done|by destruct run].
        rewrite length_app in Hf.
        rewrite IH; [|set_solver|set_solver|done|destruct run; cbn in *; lia]. cbn.
        f_equal. rewrite concat_app. cbn. by rewrite app_nil_r, app_assoc.
      * rewrite IH; [|set_solver|done| |done].
        { rewrite concat_app. cbn. by rewrite app_nil_r, <-app_assoc. }
        unfold zlen in *. rewrite length_app in *. cbn [length] in *. lia.
    + pose proof (orb_false_elim _ _ Hin) as [H8 _]. apply Nat.eqb_neq in H8.
      pose proof (nonzero_length s) as Hnl.
      assert (Hout : ∀ f, (length (seg_out s ++ pack_ref ss []) < f)%nat →
        unpack_ref f (seg_out s ++ pack_ref ss []) = Some (s ++ concat ss)).
      { intros [|f] Hlt; [lia|]. cbn [seg_out app unpack_ref].
        rewrite (proj2 (Z.eqb_neq _ _)) by (apply hdr_not_ff; lia).
        rewrite <-Hs, unpack_bits_seg. cbn. rewrite length_app in Hlt. cbn in Hlt.
        rewrite IH; [done|set_solver|set_solver|done|lia]. }
      destruct (decide (run = [])) as [->|Hne].
      * cbn [flush app] in *. by apply Hout.
      * destruct fuel as [|fuel]; [lia|]. rewrite length_app in Hf.
        rewrite unpack_flush; [|done|lia|by rewrite length_app; lia|done].
        rewrite Hout; [done|]. destruct run; [done|]. cbn in *. lia.
Qed.

Lemma unpack_packed s fuel :
  (length (packed s) < fuel)%nat → unpack_ref fuel (packed s) = Some (padded s).
Proof.
  intros H. unfold packed.
  rewrite unpack_pack_ref; [by rewrite concat_segs|apply segs_seg_length|set_solver|done|done].
Qed.

(** The bytes of the packing are bytes. *)
Lemma pack_ref_bytes ss : ∀ run,
  (∀ x, x ∈ ss → length x = 8%nat ∧ bytes x) → (∀ x, x ∈ run → length x = 8%nat ∧ bytes x) →
  zlen run ≤ 255 → bytes (pack_ref ss run).
Proof.
  assert (Hflush : ∀ run, (∀ x, x ∈ run → length x = 8%nat ∧ bytes x) → zlen run ≤ 256 →
    bytes (flush run)).
  { intros run Hr Hl. destruct run as [|x run]; [constructor|].
    constructor; [done|]. constructor.
    - rewrite zlen_cons in *. pose proof (zlen_nonneg run). unfold is_byte. lia.
    - apply Forall_concat. apply Forall_forall. naive_solver. }
  induction ss as [|s ss IH]; intros run Hss Hrun H255; cbn [pack_ref]; [apply Hflush; [done|lia]|].
  assert (Hs : length s = 8%nat ∧ bytes s) by set_solver.
  assert (Hrs : ∀ x, x ∈ run ++ [s] → length x = 8%nat ∧ bytes x) by set_solver.
  destruct (in_run s (zlen run)).
  - destruct (Nat.eqb_spec (length (run ++ [s])) 256) as [H256|H256].
    + apply Forall_app. split; [apply Hflush; [done|unfold zlen; lia]|].
      apply IH; [set_solver|set_solver|done].
    + apply IH; [set_solver|done|]. unfold zlen in *. rewrite length_app in *. cbn [length] in *. lia.
  - apply Forall_app. split; [apply Hflush; [done|lia]|]. constructor.
    + pose proof (hdr_bound s) as Hh. unfold zlen in Hh. rewrite (proj1 Hs) in Hh. unfold is_byte. lia.
    + apply Forall_app. split; [|apply IH; [set_solver|set_solver|done]].
      unfold nonzero. apply Forall_forall. intros x [_ Hx]%list_elem_of_filter.
      destruct Hs as [_ Hs]. rewrite Forall_forall in Hs. by apply Hs.
Qed.

Lemma packed_bytes s : bytes s → bytes (packed s).
Proof.
  intros Hs. apply pack_ref_bytes; [|set_solver|done]. intros x Hx.
  split; [by apply (segs_seg_length s)|].
  apply list_elem_of_lookup in Hx as [i Hi].
  pose proof (lookup_lt_Some _ _ _ Hi) as Hlt. rewrite segs_length in Hlt.
  rewrite segs_lookup in Hi by done. injection Hi as <-.
  apply Forall_take, Forall_drop. unfold padded. apply Forall_app. split; [done|].
  by apply Forall_replicate.
Qed.

(** ** Properties *)

(** C31: [sproto_pack] never reads or writes outside its buffers, whatever
    room it is given, and no [int] overflows for a source of up to 2^31 - 2^21 bytes;
    the size it returns does not depend on the room, is at
    most what [lpack] allocates, and when it fits the buffer starts with
    the reference packing of the message. *)
Theorem pack_bounds s mem bufsz :
  zlen s ≤ SOURCE_MAX → 0 ≤ bufsz ≤ INT_MAX → bufsz ≤ zlen mem →
  ∃ mem', sproto_pack s mem bufsz = Ret (zlen (packed s), mem') ∧ zlen mem' = zlen mem ∧
    zlen (packed s) ≤ pack_maxsz (zlen s) ∧
    (zlen (packed s) ≤ bufsz → take (length (packed s)) mem' = packed s).
Proof.
  intros Hs Hb0 Hb. destruct (sproto_pack_run s mem bufsz Hs Hb0 Hb) as (mem' & Hp & Hl & Hat).
  exists mem'. split_and!; [done|done|apply packed_bound|].
  intros Hle. apply mem_at_take. auto.
Qed.

(** The message of the example of sproto's README. *)
Definition readme_msg : list Z := [8;0;0;0;3;0;2;0; 25;0;0;0;170;1;0;0].

Lemma pack_bounds_witness :
  (zlen readme_msg ≤ SOURCE_MAX ∧ 0 ≤ 20 ≤ INT_MAX ∧ 20 ≤ zlen (replicate 20 7)) ∧
  ∃ mem', sproto_pack readme_msg (replicate 20 7) 20 = Ret (zlen (packed readme_msg), mem') ∧
    zlen mem' = zlen (replicate 20 7) ∧
    zlen (packed readme_msg) ≤ pack_maxsz (zlen readme_msg) ∧
    (zlen (packed readme_msg) ≤ 20 → take (length (packed readme_msg)) mem' = packed readme_msg).
Proof. split; [by vm_compute|]. apply pack_bounds; by vm_compute. Defined.

Example readme_pack : packed readme_msg = [81;8;3;2;49;25;170;1].
Proof. reflexivity. Qed.

(** [sproto_unpack] is total on every byte string of less than 2^28 bytes (what a longer
    one says may be more than an [int] counts): it stays inside its
    buffers for any room, returns -1 exactly for the strings the reference
    rejects and otherwise the size of the reference's output, and writes that
    output when there is room for it. *)
Theorem unpack_total srcv mem bufsz fuel :
  bytes srcv → 8 * zlen srcv ≤ INT_MAX → 0 ≤ bufsz ≤ INT_MAX → bufsz ≤ zlen mem → (length srcv < fuel)%nat →
  ∃ mem', zlen mem' = zlen mem ∧
  match unpack_ref (S (length srcv)) srcv with
  | None => sproto_unpack fuel srcv mem bufsz = Ret (-1, mem')
  | Some out => sproto_unpack fuel srcv mem bufsz = Ret (zlen out, mem') ∧
      (zlen out ≤ bufsz → take (length out) mem' = out)
  end.
Proof.
  intros Hby Hmax Hb0 Hb Hf. unfold sproto_unpack.
  assert (Hinv : unpack_inv srcv bufsz (zlen mem) [] srcv (MkUnpack mem 0 (zlen srcv) 0 bufsz 0)).
  { split_and!; try done. cbn. change (zlen []) with 0.
    destruct (Z.leb_spec 0 bufsz); [right|left]; split_and!; done || lia. }
  destruct (unpack_loop srcv bufsz (zlen mem) (S (length srcv)) Hby Hmax ltac:(lia) Hb _ _ _ Hinv)
    as (mem' & Hl & H); [change (zlen []) with 0; lia|lia|].
  exists mem'. split; [done|]. destruct (unpack_ref _ _) as [o|].
  - destruct H as [H Hat]. split; [by eapply loop_mono|]. intros Hle. by apply mem_at_take, Hat.
  - by eapply loop_mono.
Qed.

Lemma unpack_total_witness :
  (bytes [81;8;3;2;49;25;170;1] ∧ 8 * zlen [81;8;3;2;49;25;170;1] ≤ INT_MAX ∧ 0 ≤ 0 ≤ INT_MAX ∧ 0 ≤ zlen [9] ∧ (8 < 9)%nat) ∧
  ∃ mem', zlen mem' = zlen [9] ∧
  match unpack_ref 9 [81;8;3;2;49;25;170;1] with
  | None => sproto_unpack 9 [81;8;3;2;49;25;170;1] [9] 0 = Ret (-1, mem')
  | Some out => sproto_unpack 9 [81;8;3;2;49;25;170;1] [9] 0 = Ret (zlen out, mem') ∧
      (zlen out ≤ 0 → take (length out) mem' = out)
  end.
Proof.
  assert (bytes [81;8;3;2;49;25;170;1]) by (repeat constructor; done).
  split; [split_and!; (done || lia)|].
  apply (unpack_total [81;8;3;2;49;25;170;1] [9] 0 9); (done || cbn; lia).
Defined.

Section lua_proofs.
Context (newuserdata : Z → list Z) (newuserdata_zlen : ∀ n, 0 ≤ n → zlen (newuserdata n) = n).

Definition lbuffer_wf (b : lbuffer) : Prop := 1 ≤ lb_osz b ≤ INT_MAX ∧ zlen (lb_output b) = lb_osz b.

Lemma expand_buffer_grows osz nsz :
  1 ≤ osz < nsz → nsz * 2 ≤ ENCODE_MAXSIZE →
  ∃ b, expand_buffer newuserdata osz nsz = Ret (Some b) ∧ lbuffer_wf b ∧ nsz ≤ lb_osz b.
Proof.
  intros Ho Hn. unfold ENCODE_MAXSIZE in Hn. unfold expand_buffer.
  assert (Hloop : ∀ k o, 1 ≤ o < nsz → nsz < o * 2 ^ Z.of_nat k →
    ∃ r, loop k (expand_turn nsz) o = Ret (Some r) ∧ nsz ≤ r ≤ ENCODE_MAXSIZE).
  { induction k as [|k IH]; intros o H1 Hk; [cbn in Hk; lia|].
    assert (Hbody : expand_turn nsz o = if o * 2 <? nsz then Ret (inl (o * 2)) else
      Ret (inr (if ENCODE_MAXSIZE <? o * 2 then None else Some (o * 2)))).
    { unfold expand_turn. by rewrite cint_in by (unfold INT_MIN, INT_MAX; lia). }
    rewrite loop_S, Hbody.
    destruct (Z.ltb_spec (o * 2) nsz); bsimpl.
    - apply IH; [lia|]. rewrite Nat2Z.inj_succ, Z.pow_succ_r in Hk; lia.
    - rewrite (proj2 (Z.ltb_ge _ _)) by (unfold ENCODE_MAXSIZE; lia). eexists. split; [done|unfold ENCODE_MAXSIZE; lia]. }
  destruct (Hloop 32%nat osz) as (r & -> & Hr); [done|change (2 ^ Z.of_nat 32) with 4294967296; lia|].
  eexists. split; [done|]. unfold lbuffer_wf. cbn.
  unfold ENCODE_MAXSIZE, INT_MAX in *. rewrite newuserdata_zlen by lia. lia.
Qed.

Lemma mread_take {A} (mem : list A) bs :
  zlen bs ≤ zlen mem → mem_at mem 0 bs → mread mem 0 (zlen bs) = Ret bs.
Proof.
  intros Hl Hat. rewrite mread_in by (pose proof (zlen_nonneg bs); lia). rewrite drop_0.
  apply mem_at_take in Hat. unfold zlen. by rewrite Nat2Z.id, Hat.
Qed.

Lemma lpack_packed b s :
  lbuffer_wf b → pack_maxsz (zlen s) * 2 ≤ ENCODE_MAXSIZE →
  ∃ b', lpack newuserdata b s = Ret (Some (packed s), b') ∧ lbuffer_wf b'.
Proof.
  intros [Hb Hz] Hmax. unfold lpack.
  assert (Hob : ∃ b1, (if lb_osz b <? pack_maxsz (zlen s)
      then expand_buffer newuserdata (lb_osz b) (pack_maxsz (zlen s)) else Ret (Some b)) = Ret (Some b1) ∧
    lbuffer_wf b1 ∧ pack_maxsz (zlen s) ≤ lb_osz b1).
  { destruct (Z.ltb_spec (lb_osz b) (pack_maxsz (zlen s))).
    - apply expand_buffer_grows; lia.
    - by exists b. }
  destruct Hob as (b1 & -> & [Hb1 Hz1] & Hle). bsimpl.
  destruct (sproto_pack_run s (lb_output b1) (pack_maxsz (zlen s)))
    as (mem' & -> & Hl & Hat); [| |lia|].
  { unfold pack_maxsz, ENCODE_MAXSIZE, SOURCE_MAX in *. pose proof (zlen_nonneg s). zlia. }
  { pose proof (zlen_nonneg s). split; [unfold pack_maxsz; zlia|lia]. }
  bsimpl.
  pose proof (packed_bound s) as Hpb. change (zlen (packed s) ≤ pack_maxsz (zlen s)) in Hpb.
  rewrite (proj2 (Z.ltb_ge _ _)) by done. rewrite mread_take by (lia || auto). bsimpl.
  eexists. split; [done|]. unfold lbuffer_wf. cbn. lia.
Qed.

(** [lunpack] runs [sproto_unpack] a second time when the first buffer is too small. *)
Lemma lunpack_ref fuel b src out :
  lbuffer_wf b → bytes src → 8 * zlen src ≤ INT_MAX → (length src < fuel)%nat → zlen out * 2 ≤ ENCODE_MAXSIZE →
  unpack_ref fuel src = Some out →
  ∃ b', lunpack newuserdata fuel b src = Ret (Some out, b') ∧ lbuffer_wf b'.
Proof.
  intros [Hb Hz] Hby Hsrc Hf Hmax Href. unfold lunpack.
  assert (Hrun : ∀ mem bufsz, 0 ≤ bufsz ≤ zlen mem → bufsz ≤ INT_MAX → ∃ mem', zlen mem' = zlen mem ∧
    sproto_unpack fuel src mem bufsz = Ret (zlen out, mem') ∧
    (zlen out ≤ bufsz → mem_at mem' 0 out)).
  { intros mem bufsz Hsz Hi. unfold sproto_unpack.
    assert (Hinv : unpack_inv src bufsz (zlen mem) [] src (MkUnpack mem 0 (zlen src) 0 bufsz 0)).
    { split_and!; try done. cbn. change (zlen []) with 0. right. split_and!; done || lia. }
    destruct (unpack_loop src bufsz (zlen mem) fuel Hby Hsrc Hi ltac:(lia) _ _ _ Hinv ltac:(change (zlen []) with 0; lia) Hf) as (mem' & Hl & H).
    rewrite Href in H. by exists mem'. }
  pose proof (zlen_nonneg out).
  destruct (Hrun (lb_output b) (lb_osz b)) as (mem' & Hl & -> & Hat); [lia|lia|]. bsimpl.
  rewrite (proj2 (Z.ltb_ge (zlen out) 0)) by done.
  destruct (Z.ltb_spec (lb_osz b) (zlen out)).
  - destruct (expand_buffer_grows (lb_osz b) (zlen out)) as (b2 & -> & [Hb2 Hz2] & Hle); [lia..|].
    bsimpl. destruct (Hrun (lb_output b2) (zlen out)) as (mem2 & Hl2 & -> & Hat2); [lia|lia|]. bsimpl.
    rewrite (proj2 (Z.ltb_ge (zlen out) 0)) by done.
    rewrite mread_take by (lia || auto with lia). bsimpl. eexists. split; [done|].
    unfold lbuffer_wf. cbn. lia.
  - rewrite mread_take by (lia || auto). bsimpl. eexists. split; [done|].
    unfold lbuffer_wf. cbn. lia.
Qed.
End lua_proofs.

(** C30: The Lua functions [pack] and [unpack] are inverse up to padding:
    whatever their buffers' sizes, [lunpack] gives back the message of
    [lpack], zero-padded to a multiple of 8 bytes, growing the buffer and
    unpacking a second time when it has to. *)
Theorem lpack_lunpack newuserdata b1 b2 s fuel :
  (∀ n, 0 ≤ n → zlen (newuserdata n) = n) → lbuffer_wf b1 → lbuffer_wf b2 →
  bytes s → (zlen s + 4096) * 4 ≤ ENCODE_MAXSIZE → (length s * 2 + 16 < fuel)%nat →
  ∃ str b1' b2',
    lpack newuserdata b1 s = Ret (Some str, b1') ∧
    lunpack newuserdata fuel b2 str = Ret (Some (padded s), b2').
Proof.
  intros Hnew Hb1 Hb2 Hs Hmax Hf. pose proof (zlen_nonneg s). pose proof (packed_bound s) as Hpb.
  destruct (lpack_packed newuserdata Hnew b1 s Hb1) as (b1' & Hp & _).
  { unfold pack_maxsz. zlia. }
  assert (Hfuel : (length (packed s) < fuel)%nat) by (unfold zlen in *; zlia).
  destruct (lunpack_ref newuserdata Hnew fuel b2 (packed s) (padded s) Hb2 (packed_bytes s Hs))
    as (b2' & Hu & _); [|done| |by apply unpack_packed|].
  { unfold ENCODE_MAXSIZE, INT_MAX in *. zlia. }
  { pose proof (nsegs_bound s). unfold zlen at 1. rewrite padded_length. lia. }
  by exists (packed s), b1', b2'.
Qed.

Lemma lpack_lunpack_witness :
  ((∀ n, 0 ≤ n → zlen (replicate (Z.to_nat n) 7) = n) ∧
   lbuffer_wf (MkBuffer [0; 0] 2) ∧ lbuffer_wf (MkBuffer [0] 1) ∧
   bytes readme_msg ∧ (zlen readme_msg + 4096) * 4 ≤ ENCODE_MAXSIZE ∧
   (length readme_msg * 2 + 16 < 50)%nat) ∧
  ∃ str b1' b2',
    lpack (λ n, replicate (Z.to_nat n) 7) (MkBuffer [0; 0] 2) readme_msg = Ret (Some str, b1') ∧
    lunpack (λ n, replicate (Z.to_nat n) 7) 50 (MkBuffer [0] 1) str
      = Ret (Some (padded readme_msg), b2').
Proof.
  assert (Hs : bytes readme_msg) by (unfold readme_msg; repeat constructor; done).
  assert (Hn : ∀ n, 0 ≤ n → zlen (replicate (Z.to_nat n) 7) = n).
  { intros n Hn. unfold zlen. rewrite length_replicate. lia. }
  assert (Hf : (length readme_msg * 2 + 16 < 50)%nat) by (cbn; lia).
  split; [split_and!; done|]. by apply lpack_lunpack.
Defined.
