(* ===== verification/SprotoSchema.v ===== *)
(** * The type descriptions of sproto

    [lualib-src/sproto/sproto.c] up to the queries: reading little-endian
    words, validating structures and arrays of a bundle, importing types and
    protocols, and looking tags up. A [const uint8_t *] into the bundle is an
    offset into [data]; a [struct sproto_type *] is the index of the type in
    [s->type]; [NULL] is [None]. The memory the pool hands out is the value
    that is stored in it (the pool itself is modelled in [SprotoPool]). *)
From S2P Require Import Prelude.

Local Open Scope Z_scope.

Definition SIZEOF_LENGTH : Z := 4.
Definition SIZEOF_HEADER : Z := 2.
Definition SIZEOF_FIELD : Z := 2.
Definition SIZEOF_INT64 : Z := 8.
Definition SIZEOF_INT32 : Z := 4.

Definition SPROTO_TINTEGER : Z := 0.
Definition SPROTO_TBOOLEAN : Z := 1.
Definition SPROTO_TSTRING : Z := 2.
Definition SPROTO_TDOUBLE : Z := 3.
Definition SPROTO_TSTRUCT : Z := 4.
Definition SPROTO_TARRAY : Z := 128.
Definition SPROTO_REQUEST : Z := 0.
Definition SPROTO_RESPONSE : Z := 1.

Record field := MkField {
  f_tag : Z;
  f_type : Z;
  f_name : option (list Z);
  f_st : option Z;
  f_key : Z;
  f_map : Z;
  f_extra : Z
}.

Record sproto_type := MkType {
  t_name : option (list Z);
  t_n : Z;
  t_base : Z;
  t_maxn : Z;
  t_f : list field
}.

Record protocol := MkProtocol {
  p_name : option (list Z);
  p_tag : Z;
  p_confirm : Z;
  p_request : option Z;
  p_response : option Z
}.

Record sproto := MkSproto {
  type_n : Z;
  protocol_n : Z;
  s_type : list sproto_type;
  s_proto : list protocol
}.

(** ** Words *)

Definition toword (data : list Z) (p : Z) : outcome Z :=
  b0 ← aget data p; b1 ← aget data (p + 1);
  Ret (Z.lor b0 (Z.shiftl b1 8)).

(** [p[3]<<24] is an [int] that the conversion to [uint32_t] wraps. *)
Definition todword (data : list Z) (p : Z) : outcome Z :=
  b0 ← aget data p; b1 ← aget data (p + 1); b2 ← aget data (p + 2); b3 ← aget data (p + 3);
  Ret (u32 (Z.lor (Z.lor (Z.lor b0 (Z.shiftl b1 8)) (Z.shiftl b2 16)) (Z.shiftl b3 24))).

(** ** Validation *)

(** [stream], [length], [n]; the additions are those of [uint32_t]. *)
Definition count_turn (data : list Z) (s : Z * Z * Z) : outcome (Z * Z * Z + Z) :=
  let '(stream, length, n) := s in
  if length <=? 0 then Ret (inr n) else
  if length <? SIZEOF_LENGTH then Ret (inr (-1)) else
  w ← todword data stream;
  let nsz := u32 (w + SIZEOF_LENGTH) in
  if length <? nsz then Ret (inr (-1)) else
  n' ← cint (n + 1);
  Ret (inl (stream + nsz, length - nsz, n')).

Definition count_array (fuel : nat) (data : list Z) (stream : Z) : outcome Z :=
  length ← todword data stream;
  loop fuel (count_turn data) (stream + SIZEOF_LENGTH, length, 0).

(** [stream], [sz] of the data part. *)
Definition struct_field_turn (data : list Z) (field i : Z) (s : Z * Z)
    : outcome (option (Z * Z)) :=
  let '(stream, sz) := s in
  value ← toword data (field + i * SIZEOF_FIELD);
  if negb (value =? 0) then Ret (Some (stream, sz)) else
  if sz <? SIZEOF_LENGTH then Ret None else
  dsz ← todword data stream;
  let w := u32 (SIZEOF_LENGTH + dsz) in
  if sz <? w then Ret None else
  Ret (Some (stream + w, sz - w)).

Definition struct_field (data : list Z) (stream sz : Z) : outcome Z :=
  if sz <? SIZEOF_LENGTH then Ret (-1) else
  fn ← toword data stream;
  let header := SIZEOF_HEADER + SIZEOF_FIELD * fn in
  if sz <? header then Ret (-1) else
  o ← for_opt (Z.to_nat fn) 0 (struct_field_turn data (stream + SIZEOF_HEADER))
        (stream + header, sz - header);
  match o with None => Ret (-1) | Some _ => Ret fn end.

(** ** Import *)

Definition import_string (data : list Z) (stream : Z) : outcome (list Z) :=
  sz ← todword data stream;
  mread data (stream + SIZEOF_LENGTH) sz.

(** The multiplications are those of [int]; [fuel] bounds the depth. *)
Fixpoint calc_pow (fuel : nat) (base n : Z) : outcome Z :=
  match fuel with
  | O => NoFuel
  | S fuel' =>
      if n =? 0 then Ret 1 else
      b2 ← cint (base * base);
      r ← calc_pow fuel' b2 (n / 2);
      if Z.odd n then cint (r * base) else Ret r
  end.

(** The variables of the loop of [import_field]. *)
Record field_state := MkFieldState { fs_f : field; fs_tag : Z; fs_array : Z }.

Definition field_set (f : field) (tag value : Z) (types : Z) : outcome (option field) :=
  let '(MkField ftag ftype name st key map extra) := f in
  if tag =? 1 then
    if SPROTO_TSTRUCT <=? value then Ret None
    else Ret (Some (MkField ftag value name st key map extra))
  else if tag =? 2 then
    if ftype =? SPROTO_TINTEGER then
      e ← calc_pow 32 10 value;
      Ret (Some (MkField ftag ftype name st key map e))
    else if ftype =? SPROTO_TSTRING then Ret (Some (MkField ftag ftype name st key map value))
    else if types <=? value then Ret None
    else if 0 <=? ftype then Ret None
    else Ret (Some (MkField ftag SPROTO_TSTRUCT name (Some value) key map extra))
  else if tag =? 3 then Ret (Some (MkField value ftype name st key map extra))
  else if tag =? 4 then Ret (Some f)
  else if tag =? 5 then Ret (Some (MkField ftag ftype name st value map extra))
  else if tag =? 6 then
    Ret (Some (if value =? 0 then f else MkField ftag ftype name st key 1 extra))
  else Ret None.

Definition import_field_turn (types : Z) (data : list Z) (stream fn i : Z) (s : field_state)
    : outcome (option field_state) :=
  let '(MkFieldState f tag0 array) := s in
  let tag := tag0 + 1 in
  value0 ← toword data (stream + SIZEOF_FIELD * i);
  if Z.odd value0 then Ret (Some (MkFieldState f (tag + value0 / 2) array)) else
  if tag =? 0 then
    if negb (value0 =? 0) then Ret None else
    name ← import_string data (stream + fn * SIZEOF_FIELD);
    Ret (Some (MkFieldState (MkField (f_tag f) (f_type f) (Some name) (f_st f) (f_key f)
                               (f_map f) (f_extra f)) tag array))
  else if value0 =? 0 then Ret None
  else
    let value := value0 / 2 - 1 in
    o ← field_set f tag value types;
    Ret (f' ← o;
         Some (MkFieldState f' tag
                 (if (tag =? 4) && negb (value =? 0) then SPROTO_TARRAY else array))).

(** [types] is [s->type_n]; the result is the field and where the next one is. *)
Definition import_field (types : Z) (data : list Z) (stream0 : Z) : outcome (option (field * Z)) :=
  sz ← todword data stream0;
  let stream := stream0 + SIZEOF_LENGTH in
  let result := stream + sz in
  fn ← struct_field data stream sz;
  if fn <? 0 then Ret None else
  o ← for_opt (Z.to_nat fn) 0 (import_field_turn types data (stream + SIZEOF_HEADER) fn)
        (MkFieldState (MkField (-1) (-1) None None (-1) (-1) 0) (-1) 0);
  Ret (s ← o;
       let f := fs_f s in
       if (f_tag f <? 0) || (f_type f <? 0) || bool_decide (f_name f = None) then None else
       Some (MkField (f_tag f) (Z.lor (f_type f) (fs_array s)) (f_name f) (f_st f) (f_key f)
               (f_map f) (f_extra f), result)).

(** The loop over the fields of a type: the fields so far, [stream], [maxn], [last]. *)
Definition import_type_turn (types : Z) (data : list Z) (i : Z) (s : list field * Z * Z * Z)
    : outcome (option (list field * Z * Z * Z)) :=
  let '(fs, stream, maxn, last) := s in
  o ← import_field types data stream;
  match o with
  | None => Ret None
  | Some (f, stream') =>
      let tag := f_tag f in
      if tag <=? last then Ret None else
      Ret (Some (fs ++ [f], stream', if last + 1 <? tag then maxn + 1 else maxn, tag))
  end.

Definition zero_words_turn (data : list Z) (stream i : Z) (u : unit) : outcome (option unit) :=
  v ← toword data (stream + SIZEOF_HEADER + i * SIZEOF_FIELD);
  Ret (if v =? 0 then Some tt else None).

Definition import_type (fuel : nat) (types : Z) (data : list Z) (stream0 : Z)
    : outcome (option (sproto_type * Z)) :=
  sz ← todword data stream0;
  let stream := stream0 + SIZEOF_LENGTH in
  let result := stream + sz in
  fn ← struct_field data stream sz;
  if (fn <=? 0) || (2 <? fn) then Ret None else
  ok ← for_opt (Z.to_nat fn) 0 (zero_words_turn data stream) tt;
  match ok with
  | None => Ret None
  | Some _ =>
      let stream1 := stream + SIZEOF_HEADER + fn * SIZEOF_FIELD in
      name ← import_string data stream1;
      if fn =? 1 then Ret (Some (MkType (Some name) 0 0 0 [], result)) else
      w ← todword data stream1;
      let stream2 := stream1 + u32 (w + SIZEOF_LENGTH) in
      n ← count_array fuel data stream2;
      if n <? 0 then Ret None else
      o ← for_opt (Z.to_nat n) 0 (import_type_turn types data)
            ([], stream2 + SIZEOF_LENGTH, n, -1);
      match o with
      | None => Ret None
      | Some (fs, _, maxn, _) =>
          f0 ← aget fs 0;
          fl ← aget fs (n - 1);
          let base := f_tag f0 in
          let n' := f_tag fl - base + 1 in
          Ret (Some (MkType (Some name) n (if n' =? n then base else -1) maxn fs, result))
      end
  end.

(** [switch (i)]: the cases are on the number of the word, not on [tag]. *)
Definition import_protocol_turn (types : Z) (data : list Z) (stream fn i : Z) (p : protocol)
    : outcome (option protocol) :=
  let '(MkProtocol name tag confirm request response) := p in
  value0 ← toword data (stream + SIZEOF_FIELD * i);
  if Z.odd value0 then Ret (Some p) else
  let value := value0 / 2 - 1 in
  if i =? 0 then
    if negb (value =? -1) then Ret None else
    name' ← import_string data (stream + SIZEOF_FIELD * fn);
    Ret (Some (MkProtocol (Some name') tag confirm request response))
  else if i =? 1 then
    Ret (if value <? 0 then None else Some (MkProtocol name value confirm request response))
  else if i =? 2 then
    Ret (if (value <? 0) || (types <=? value) then None
         else Some (MkProtocol name tag confirm (Some value) response))
  else if i =? 3 then
    Ret (if (value <? 0) || (types <=? value) then None
         else Some (MkProtocol name tag confirm request (Some value)))
  else if i =? 4 then Ret (Some (MkProtocol name tag value request response))
  else Ret None.

Definition import_protocol (types : Z) (data : list Z) (stream0 : Z)
    : outcome (option (protocol * Z)) :=
  sz ← todword data stream0;
  let stream := stream0 + SIZEOF_LENGTH in
  let result := stream + sz in
  fn ← struct_field data stream sz;
  o ← for_opt (Z.to_nat fn) 0 (import_protocol_turn types data (stream + SIZEOF_HEADER) fn)
        (MkProtocol None (-1) 0 None None);
  Ret (p ← o;
       if bool_decide (p_name p = None) || (p_tag p <? 0) then None else Some (p, result)).

(** The loop over the two arrays of a bundle: [content], [typedata], [protocoldata]
    and the two counts. *)
Definition bundle_turn (fuel : nat) (data : list Z) (stream i : Z) (s : Z * Z * Z * Z * Z)
    : outcome (option (Z * Z * Z * Z * Z)) :=
  let '(content, typedata, protocoldata, tn, pn) := s in
  value ← toword data (stream + i * SIZEOF_FIELD);
  if negb (value =? 0) then Ret None else
  n ← count_array fuel data content;
  if n <? 0 then Ret None else
  w ← todword data content;
  let content' := content + u32 (w + SIZEOF_LENGTH) in
  Ret (Some (if i =? 0 then (content', content + SIZEOF_LENGTH, protocoldata, n, pn)
             else (content', typedata, content + SIZEOF_LENGTH, tn, n))).

Definition import_types_turn (fuel : nat) (types : Z) (data : list Z) (i : Z)
    (s : list sproto_type * Z) : outcome (option (list sproto_type * Z)) :=
  o ← import_type fuel types data (s.2);
  Ret ('(t, typedata) ← o; Some (s.1 ++ [t], typedata)).

Definition import_protocols_turn (types : Z) (data : list Z) (i : Z)
    (s : list protocol * Z) : outcome (option (list protocol * Z)) :=
  o ← import_protocol types data (s.2);
  Ret ('(p, protocoldata) ← o; Some (s.1 ++ [p], protocoldata)).

Definition create_from_bundle (fuel : nat) (data : list Z) (sz : Z) : outcome (option sproto) :=
  fn ← struct_field data 0 sz;
  if (fn <? 0) || (2 <? fn) then Ret None else
  let stream := SIZEOF_HEADER in
  o ← for_opt (Z.to_nat fn) 0 (bundle_turn fuel data stream)
        (stream + fn * SIZEOF_FIELD, 0, 0, 0, 0);
  match o with
  | None => Ret None
  | Some (_, typedata, protocoldata, tn, pn) =>
      ots ← for_opt (Z.to_nat tn) 0 (import_types_turn fuel tn data) ([], typedata);
      match ots with
      | None => Ret None
      | Some (ts, _) =>
          ops ← for_opt (Z.to_nat pn) 0 (import_protocols_turn tn data) ([], protocoldata);
          Ret ('(ps, _) ← ops; Some (MkSproto tn pn ts ps))
      end
  end.

Definition sproto_create (fuel : nat) (proto : list Z) : outcome (option sproto) :=
  create_from_bundle fuel proto (zlen proto).

(** ** Queries *)

(** A C string ends at its first zero byte. *)
Fixpoint cstr (l : list Z) : list Z :=
  match l with
  | [] => []
  | c :: l' => if c =? 0 then [] else c :: cstr l'
  end.

(** [strcmp(name, n) == 0]; following a null pointer is undefined. *)
Definition strcmp_eq (name : list Z) (n : option (list Z)) : outcome bool :=
  match n with
  | None => Undef
  | Some n' => Ret (bool_decide (cstr name = cstr n'))
  end.

Fixpoint prototag_loop (name : list Z) (ps : list protocol) : outcome Z :=
  match ps with
  | [] => Ret (-1)
  | p :: ps' =>
      e ← strcmp_eq name (p_name p);
      if e : bool then Ret (p_tag p) else prototag_loop name ps'
  end.

Definition sproto_prototag (sp : sproto) (name : list Z) : outcome Z :=
  prototag_loop name (s_proto sp).

(** Binary search in [n] elements ordered by [tag]: [begin], [end]; the
    result is the index of the element. *)
Definition search_turn (tag_of : Z → outcome Z) (tag : Z) (s : Z * Z)
    : outcome (Z * Z + option Z) :=
  let '(begin, end_) := s in
  if end_ <=? begin then Ret (inr None) else
  let mid := (begin + end_) / 2 in
  t ← tag_of mid;
  if t =? tag then Ret (inr (Some mid)) else
  if t <? tag then Ret (inl (mid + 1, end_)) else Ret (inl (begin, mid)).

Definition query_proto (sp : sproto) (tag : Z) : outcome (option Z) :=
  loop (S (Z.to_nat (protocol_n sp)))
    (search_turn (λ mid, p ← aget (s_proto sp) mid; Ret (p_tag p)) tag) (0, protocol_n sp).

Definition sproto_protoquery (sp : sproto) (proto what : Z) : outcome (option Z) :=
  if (what <? 0) || (1 <? what) then Ret None else
  o ← query_proto sp proto;
  match o with
  | None => Ret None
  | Some i => p ← aget (s_proto sp) i;
              Ret (if what =? SPROTO_REQUEST then p_request p else p_response p)
  end.

Definition sproto_protoresponse (sp : sproto) (proto : Z) : outcome bool :=
  o ← query_proto sp proto;
  match o with
  | None => Ret false
  | Some i => p ← aget (s_proto sp) i;
              Ret (negb (bool_decide (p_response p = None)) || negb (p_confirm p =? 0))
  end.

Definition sproto_protoname (sp : sproto) (proto : Z) : outcome (option (list Z)) :=
  o ← query_proto sp proto;
  match o with
  | None => Ret None
  | Some i => p ← aget (s_proto sp) i; Ret (p_name p)
  end.

Fixpoint type_loop (type_name : list Z) (i : Z) (ts : list sproto_type) : outcome (option Z) :=
  match ts with
  | [] => Ret None
  | t :: ts' =>
      e ← strcmp_eq type_name (t_name t);
      if e : bool then Ret (Some i) else type_loop type_name (i + 1) ts'
  end.

(** [sproto_type] of sproto.c (the name of the structure is taken). *)
Definition sproto_type_find (sp : sproto) (type_name : list Z) : outcome (option Z) :=
  type_loop type_name 0 (s_type sp).

Definition findtag (st : sproto_type) (tag : Z) : outcome (option field) :=
  if 0 <=? t_base st then
    let tag' := tag - t_base st in
    if (tag' <? 0) || (t_n st <=? tag') then Ret None else
    f ← aget (t_f st) tag'; Ret (Some f)
  else
    o ← loop (S (Z.to_nat (t_n st)))
          (search_turn (λ mid, f ← aget (t_f st) mid; Ret (f_tag f)) tag) (0, t_n st);
    match o with
    | None => Ret None
    | Some i => f ← aget (t_f st) i; Ret (Some f)
    end.

(** ** Reading words *)

Section words.
Context (data : list Z) (Hbytes : bytes data).

Lemma aget_byte p : 0 ≤ p < zlen data → ∃ b, aget data p = Ret b ∧ is_byte b.
Proof.
  intros Hp. destruct (aget_in data p Hp) as (b & Hb & Hl). exists b. split; [done|].
  by eapply Forall_lookup_1.
Qed.

Lemma toword_range p w : toword data p = Ret w → 0 ≤ w < 2 ^ 16 ∧ 0 ≤ p ∧ p + 2 ≤ zlen data.
Proof.
  unfold toword. intros (b0 & H0 & (b1 & H1 & [= <-])%bind_Ret_inv)%bind_Ret_inv.
  apply aget_Ret in H0 as [Hp H0]. apply aget_Ret in H1 as [_ H1].
  pose proof (lookup_lt_Some _ _ _ H1). unfold zlen.
  rewrite Forall_lookup in Hbytes. apply Hbytes in H0, H1. unfold is_byte in *.
  rewrite lor_shiftl by lia. lia.
Qed.

Lemma toword_in p : 0 ≤ p → p + 2 ≤ zlen data → ∃ w, toword data p = Ret w ∧ 0 ≤ w < 2 ^ 16.
Proof.
  intros H1 H2. destruct (aget_byte p) as (b0 & E0 & _); [lia|].
  destruct (aget_byte (p + 1)) as (b1 & E1 & _); [lia|].
  assert (H : toword data p = Ret (Z.lor b0 (Z.shiftl b1 8))) by (unfold toword; by rewrite E0, E1).
  eexists. split; [exact H|]. by apply toword_range in H as [? _].
Qed.

Lemma todword_range p w : todword data p = Ret w → 0 ≤ w < 2 ^ 32 ∧ 0 ≤ p ∧ p + 4 ≤ zlen data.
Proof.
  unfold todword.
  intros (b0 & H0 & (b1 & H1 & (b2 & H2 & (b3 & H3 & [= <-])%bind_Ret_inv)%bind_Ret_inv)%bind_Ret_inv)%bind_Ret_inv.
  apply aget_Ret in H0 as [Hp _]. apply aget_Ret in H3 as [_ H3].
  pose proof (lookup_lt_Some _ _ _ H3). unfold zlen, u32.
  split; [apply Z.mod_pos_bound; lia|lia].
Qed.

Lemma todword_in p : 0 ≤ p → p + 4 ≤ zlen data → ∃ w, todword data p = Ret w ∧ 0 ≤ w < 2 ^ 32.
Proof.
  intros H1 H2. destruct (aget_byte p) as (b0 & E0 & _); [lia|].
  destruct (aget_byte (p + 1)) as (b1 & E1 & _); [lia|].
  destruct (aget_byte (p + 2)) as (b2 & E2 & _); [lia|].
  destruct (aget_byte (p + 3)) as (b3 & E3 & _); [lia|].
  unfold todword. rewrite E0, E1, E2, E3. bsimpl. eexists. split; [done|].
  unfold u32. apply Z.mod_pos_bound. lia.
Qed.
End words.

(** ** Binary search *)

Definition ascending (l : list Z) : Prop :=
  ∀ i j x y, (i < j)%nat → l !! i = Some x → l !! j = Some y → x < y.

Lemma ascending_gap l i j x y :
  ascending l → (i ≤ j)%nat → l !! i = Some x → l !! j = Some y →
  Z.of_nat (j - i) ≤ y - x.
Proof.
  intros Ha Hij Hx. revert y. induction Hij as [|j Hij IH]; intros y Hy.
  { rewrite Hx in Hy. injection Hy as ->. lia. }
  destruct (lookup_lt_is_Some_2 l j) as [z Hz].
  { apply lookup_lt_Some in Hy. lia. }
  specialize (IH z Hz). pose proof (Ha j (S j) z y ltac:(lia) Hz Hy). lia.
Qed.

Lemma search_spec (keys : list Z) (tag_of : Z → outcome Z) tag :
  ascending keys → (∀ i, 0 ≤ i < zlen keys → tag_of i = aget keys i) →
  ∃ o, loop (S (Z.to_nat (zlen keys))) (search_turn tag_of tag) (0, zlen keys) = Ret o ∧
    match o with
    | Some i => 0 ≤ i < zlen keys ∧ keys !! Z.to_nat i = Some tag
    | None => tag ∉ keys
    end.
Proof.
  intros Ha Hof. pose proof (zlen_nonneg keys) as H0.
  apply (loop_total (λ '(b, e), 0 ≤ b ∧ e ≤ zlen keys ∧
      (∀ i x, (Z.of_nat i < b ∨ e ≤ Z.of_nat i) → keys !! i = Some x → x ≠ tag))
    (λ '(b, e), Z.to_nat (e - b))); [|split_and!|lia].
  2-3: lia.
  - intros [b e] (Hb & He & Hout). unfold search_turn.
    destruct (Z.leb_spec e b) as [Hle|Hlt].
    + right. eexists. split; [done|]. intros (i & Hi)%list_elem_of_lookup.
      eapply Hout; [|done|done]. lia.
    + set (mid := (b + e) / 2). assert (Hmid : b ≤ mid < e) by (unfold mid; zlia).
      rewrite Hof by lia. destruct (aget_in keys mid) as (t & -> & Ht); [lia|]. bsimpl.
      destruct (Z.eqb_spec t tag) as [->|Hne].
      { right. eexists. split; [done|]. split; [lia|done]. }
      left. destruct (Z.ltb_spec t tag).
      * eexists. split; [done|]. split_and!; try lia. intros i x Hi Hx.
        destruct (decide (Z.of_nat i < b ∨ e ≤ Z.of_nat i)); [by eapply Hout|].
        destruct (decide (i = Z.to_nat mid)) as [->|]; [congruence|].
        pose proof (Ha i (Z.to_nat mid) x t ltac:(lia) Hx Ht). lia.
      * eexists. split; [done|]. split_and!; try lia. intros i x Hi Hx.
        destruct (decide (Z.of_nat i < b ∨ e ≤ Z.of_nat i)); [by eapply Hout|].
        destruct (decide (i = Z.to_nat mid)) as [->|]; [congruence|].
        pose proof (Ha (Z.to_nat mid) i t x ltac:(lia) Ht Hx). lia.
  - intros i x [?|Hi] Hx; [lia|]. apply lookup_lt_Some in Hx. unfold zlen in *. lia.
Qed.

(** ** Well-formed types *)

(** The skip markers the tags [tags] need after the tag [last]. *)
Fixpoint gaps (last : Z) (tags : list Z) : Z :=
  match tags with
  | [] => 0
  | t :: ts => (if last + 1 <? t then 1 else 0) + gaps t ts
  end.

Lemma gaps_nonneg l ts : 0 ≤ gaps l ts.
Proof.
  revert l. induction ts as [|t ts IH]; intros l; cbn [gaps]; [lia|].
  specialize (IH t). destruct (l + 1 <? t); lia.
Qed.

(** The type of an imported field: a builtin, or a struct with its type. *)
Definition field_type_ok (types : Z) (f : field) : Prop :=
  (f_st f = None ∧ ∃ k, 0 ≤ k < SPROTO_TSTRUCT ∧ (f_type f = k ∨ f_type f = k + SPROTO_TARRAY)) ∨
  (∃ v, f_st f = Some v ∧ 0 ≤ v < types ∧
     (f_type f = SPROTO_TSTRUCT ∨ f_type f = SPROTO_TSTRUCT + SPROTO_TARRAY)).

Record type_wf (types : Z) (t : sproto_type) : Prop := {
  wf_n : t_n t = zlen (t_f t);
  wf_asc : ascending (f_tag <$> t_f t);
  wf_tags : ∀ f, f ∈ t_f t → 0 ≤ f_tag f < 2 ^ 15;
  wf_maxn : t_maxn t = t_n t + gaps (-1) (f_tag <$> t_f t);
  wf_base : 0 ≤ t_base t →
    ∀ i f, t_f t !! i = Some f → f_tag f = t_base t + Z.of_nat i;
  wf_field : ∀ f, f ∈ t_f t → field_type_ok types f
}.

Lemma findtag_spec types t tag :
  type_wf types t →
  ∃ o, findtag t tag = Ret o ∧
    match o with
    | Some f => f ∈ t_f t ∧ f_tag f = tag
    | None => ∀ f, f ∈ t_f t → f_tag f ≠ tag
    end.
Proof.
  intros Hwf. unfold findtag. rewrite (wf_n _ _ Hwf).
  destruct (Z.leb_spec 0 (t_base t)) as [Hb|Hb].
  - pose proof (wf_base _ _ Hwf Hb) as Hbase.
    destruct (Z.ltb_spec (tag - t_base t) 0), (Z.leb_spec (zlen (t_f t)) (tag - t_base t)); cbn [orb].
    1-3: eexists; split; [done|]; intros f (i & Hi)%list_elem_of_lookup;
      pose proof (lookup_lt_Some _ _ _ Hi); rewrite (Hbase _ _ Hi); unfold zlen in *; lia.
    destruct (aget_in (t_f t) (tag - t_base t)) as (f & -> & Hf); [lia|]. bsimpl.
    eexists. split; [done|]. split; [by eapply list_elem_of_lookup_2|].
    rewrite (Hbase _ _ Hf). lia.
  - destruct (search_spec (f_tag <$> t_f t) (λ mid, f ← aget (t_f t) mid; Ret (f_tag f)) tag)
      as (o & Ho & Hres).
    { apply (wf_asc _ _ Hwf). }
    { intros i Hi. unfold aget. destruct (0 <=? i); [|done]. rewrite list_lookup_fmap.
      by destruct (t_f t !! Z.to_nat i). }
    unfold zlen in Ho, Hres. rewrite length_fmap in Ho, Hres. unfold zlen. rewrite Ho. bsimpl.
    destruct o as [i|].
    + destruct Hres as [Hi Hk]. rewrite list_lookup_fmap in Hk.
      apply fmap_Some in Hk as (f & Hf & ->).
      rewrite (proj2 (aget_Ret (t_f t) i f)) by (split; [lia|done]). bsimpl.
      eexists. split; [done|]. split; [by eapply list_elem_of_lookup_2|done].
    + eexists. split; [done|]. intros f Hf <-. apply Hres. by apply list_elem_of_fmap_2.
Qed.

(** ** Imported types are well-formed *)

Section import.
Context (data : list Z) (Hbytes : bytes data).

(** The field under construction in [import_field]. *)
Definition field_inv (types : Z) (s : field_state) : Prop :=
  let f := fs_f s in
  (fs_array s = 0 ∨ fs_array s = SPROTO_TARRAY) ∧ -1 ≤ fs_tag s ∧
  (f_tag f = -1 ∨ 0 ≤ f_tag f < 2 ^ 15) ∧
  ((f_st f = None ∧ -1 ≤ f_type f < SPROTO_TSTRUCT) ∨
   (∃ v, f_st f = Some v ∧ 0 ≤ v < types ∧ f_type f = SPROTO_TSTRUCT ∧ 2 ≤ fs_tag s)).

Lemma import_field_turn_inv types stream fn i s s' :
  field_inv types s → import_field_turn types data stream fn i s = Ret (Some s') →
  field_inv types s'.
Proof.
  destruct s as [[ft fty fna fs fk fm fe] tag0 array].
  intros (Harr & Htag & Hft & Hst) H. cbn in Harr, Htag, Hft, Hst.
  unfold import_field_turn in H. apply bind_Ret_inv in H as (v0 & Hv0 & H).
  apply toword_range in Hv0 as [Hv0 _]; [|done].
  assert (Hd : 0 ≤ v0 / 2 < 2 ^ 15) by zlia.
  destruct (Z.odd v0) eqn:Hodd.
  { injection H as <-. split_and!; cbn; try done; try lia.
    destruct Hst as [?|(v & ? & ? & ? & ?)]; [by left|right]. exists v. split_and!; done || lia. }
  destruct (Z.eqb_spec (tag0 + 1) 0) as [Ht0|Ht0].
  { destruct (negb _); [done|]. apply bind_Ret_inv in H as (name & _ & [= <-]).
    split_and!; cbn; try done; try lia.
    destruct Hst as [?|(v & ? & ? & ? & ?)]; [by left|right]. exists v. split_and!; done || lia. }
  destruct (Z.eqb_spec v0 0) as [|Hv]; [done|].
  assert (Hval : 0 ≤ v0 / 2 - 1 < 2 ^ 15).
  { apply Z.odd_spec in Hodd || (assert (Z.even v0 = true) as [k Hk]%Z.even_spec
      by (rewrite <-Z.negb_odd, Hodd; done); zlia). }
  set (value := v0 / 2 - 1) in *. apply bind_Ret_inv in H as (o & Ho & H).
  destruct o as [f'|]; [|done]. injection H as <-.
  assert (Harr' : (if (tag0 + 1 =? 4) && negb (value =? 0) then SPROTO_TARRAY else array) = 0 ∨
    (if (tag0 + 1 =? 4) && negb (value =? 0) then SPROTO_TARRAY else array) = SPROTO_TARRAY).
  { destruct (_ && _); auto. }
  unfold field_inv; cbn [fs_f fs_tag fs_array]. unfold field_set in Ho.
  destruct (Z.eqb_spec (tag0 + 1) 1).
  { unfold SPROTO_TSTRUCT in *. destruct (Z.leb_spec 4 value); [done|]. injection Ho as <-. cbn.
    destruct Hst as [[-> ?]|(v & ? & ? & ? & ?)]; [|lia]. split_and!; try done; try lia.
    left. split; [done|lia]. }
  destruct (Z.eqb_spec (tag0 + 1) 2).
  { destruct Hst as [[-> Hty]|(v & ? & ? & ? & ?)]; [|lia].
    destruct (fty =? SPROTO_TINTEGER).
    { apply bind_Ret_inv in Ho as (e2 & _ & [= <-]). cbn. split_and!; try done; try lia. by left. }
    destruct (fty =? SPROTO_TSTRING).
    { injection Ho as <-. cbn. split_and!; try done; try lia. by left. }
    destruct (Z.leb_spec types value); [done|]. destruct (0 <=? fty); [done|].
    injection Ho as <-. cbn. split_and!; try done; try lia.
    right. exists value. split_and!; done || lia. }
  assert (Hst' : (fs = None ∧ -1 ≤ fty < SPROTO_TSTRUCT) ∨
    (∃ v, fs = Some v ∧ 0 ≤ v < types ∧ fty = SPROTO_TSTRUCT ∧ 2 ≤ tag0 + 1)).
  { destruct Hst as [?|(v & ? & ? & ? & ?)]; [by left|right]. exists v. split_and!; done || lia. }
  destruct (Z.eqb_spec (tag0 + 1) 3).
  { injection Ho as <-. cbn. split_and!; try done; try lia. }
  destruct (tag0 + 1 =? 4); [injection Ho as <-; cbn; split_and!; done || lia|].
  destruct (tag0 + 1 =? 5); [injection Ho as <-; cbn; split_and!; done || lia|].
  destruct (tag0 + 1 =? 6); [|done].
  injection Ho as <-. destruct (value =? 0); cbn; split_and!; done || lia.
Qed.

Lemma import_field_ok types stream f r :
  import_field types data stream = Ret (Some (f, r)) →
  0 ≤ f_tag f < 2 ^ 15 ∧ field_type_ok types f ∧ f_name f ≠ None.
Proof.
  unfold import_field. intros (sz & _ & (fn & _ & H)%bind_Ret_inv)%bind_Ret_inv.
  destruct (fn <? 0); [done|]. apply bind_Ret_inv in H as (o & Ho & H).
  destruct o as [s|]; [|done].
  assert (Hinv : field_inv types s).
  { eapply (for_opt_partial (λ _, field_inv types)); [| |exact Ho].
    - intros j s1 s2 _. apply import_field_turn_inv.
    - unfold field_inv, SPROTO_TSTRUCT; cbn. split_and!; try lia; left; split; [done|lia]. }
  injection H as H. cbn in H. destruct Hinv as (Harr & _ & Htag & Hst).
  destruct (_ || _ || _) eqn:Hcond in H; [done|]. injection H as <- _.
  apply orb_false_iff in Hcond as [[H1 H2]%orb_false_iff H3].
  apply Z.ltb_ge in H1, H2. apply bool_decide_eq_false in H3. cbn.
  split_and!; [lia..| |done]. unfold field_type_ok; cbn. unfold SPROTO_TSTRUCT, SPROTO_TARRAY in *.
  assert (Hlor : ∀ k, 0 ≤ k < 5 → Z.lor k (fs_array s) = k ∨ Z.lor k (fs_array s) = k + 128).
  { intros k Hk. assert (k = 0 ∨ k = 1 ∨ k = 2 ∨ k = 3 ∨ k = 4) as Hk' by lia.
    destruct Harr as [->| ->], Hk' as [->|[->|[->|[->| ->]]]]; cbn; auto. }
  destruct Hst as [[-> Hty]|(v & -> & Hv & Hty & _)].
  - left. split; [done|]. exists (f_type (fs_f s)). split; [lia|]. apply Hlor. lia.
  - right. exists v. split_and!; [done|lia|lia|]. rewrite Hty. apply Hlor. lia.
Qed.

Lemma ascending_snoc l x : ascending l → (∀ y, y ∈ l → y < x) → ascending (l ++ [x]).
Proof.
  intros Ha Hx i j y z Hij Hi Hj. apply lookup_app_Some in Hj as [Hj|[Hl Hj]].
  - apply (Ha i j); [done| |done]. rewrite lookup_app_l in Hi; [done|].
    apply lookup_lt_Some in Hj. lia.
  - apply list_lookup_singleton_Some in Hj as [Hj0 <-]. apply Hx.
    rewrite lookup_app_l in Hi by lia. by eapply list_elem_of_lookup_2.
Qed.

Lemma last_cons_default (a d : Z) ts : List.last (a :: ts) d = List.last ts a.
Proof. revert a. induction ts as [|b ts IH]; intros a; [done|]. cbn in *. destruct ts; auto. Qed.

Lemma gaps_snoc l0 ts t :
  gaps l0 (ts ++ [t]) = gaps l0 ts + (if List.last ts l0 + 1 <? t then 1 else 0).
Proof.
  revert l0. induction ts as [|a ts IH]; intros l0; [cbn; lia|].
  rewrite last_cons_default. cbn [app gaps]. rewrite IH. lia.
Qed.

(** The loop over the fields of a type. *)
Definition fields_inv (types n : Z) (i : Z) (s : list field * Z * Z * Z) : Prop :=
  let '(fs, _, maxn, last) := s in
  zlen fs = i ∧ ascending (f_tag <$> fs) ∧ last = List.last (f_tag <$> fs) (-1) ∧
  (∀ f, f ∈ fs → 0 ≤ f_tag f < 2 ^ 15 ∧ f_tag f ≤ last ∧ field_type_ok types f) ∧
  maxn = n + gaps (-1) (f_tag <$> fs).

Lemma import_type_turn_inv types n i s s' :
  fields_inv types n i s → import_type_turn types data i s = Ret (Some s') →
  fields_inv types n (i + 1) s'.
Proof.
  destruct s as [[[fs stream] maxn] last]. intros (Hl & Ha & Hlast & Hf & Hm) H.
  unfold import_type_turn in H. apply bind_Ret_inv in H as (o & Ho & H).
  destruct o as [[f stream']|]; [|done]. apply import_field_ok in Ho as (Htag & Hty & _).
  destruct (Z.leb_spec (f_tag f) last) as [|Hgt]; [done|]. injection H as <-.
  unfold fields_inv. rewrite fmap_app, zlen_app. cbn [fmap list_fmap].
  change (zlen [f]) with 1. split_and!; [lia| | | |].
  - apply ascending_snoc; [done|]. intros y (g & -> & Hg)%list_elem_of_fmap.
    apply Hf in Hg. lia.
  - by rewrite last_last.
  - intros g [Hg| ->%list_elem_of_singleton]%elem_of_app; [|split_and!; done || lia].
    apply Hf in Hg as (? & ? & ?). split_and!; done || lia.
  - rewrite gaps_snoc, <-Hlast, Hm. destruct (last + 1 <? f_tag f); lia.
Qed.

Lemma import_type_ok fuel types stream t r :
  import_type fuel types data stream = Ret (Some (t, r)) → type_wf types t ∧ t_name t ≠ None.
Proof.
  unfold import_type. intros (sz & _ & (fn & _ & H)%bind_Ret_inv)%bind_Ret_inv.
  destruct (_ || _); [done|]. apply bind_Ret_inv in H as (ok & _ & H). destruct ok; [|done].
  apply bind_Ret_inv in H as (name & _ & H). destruct (fn =? 1).
  { injection H as <- _. split; [|done].
    split; cbn; try done; try set_solver; try lia; intros i j x y _ Hx; by rewrite lookup_nil in Hx. }
  apply bind_Ret_inv in H as (w & _ & (n & _ & H)%bind_Ret_inv).
  destruct (Z.ltb_spec n 0); [done|]. apply bind_Ret_inv in H as (o & Ho & H).
  destruct o as [[[[fs stream'] maxn] last]|]; [|done].
  apply (for_opt_partial (fields_inv types n)) in Ho; [|intros; by eapply import_type_turn_inv|].
  2:{ unfold fields_inv. cbn. split_and!; try done; try set_solver; lia. }
  destruct Ho as (Hl & Ha & _ & Hf & Hm). rewrite Z2Nat.id in Hl by done.
  apply bind_Ret_inv in H as (f0 & Hf0 & (fl & Hfl & [= <- _])%bind_Ret_inv).
  split; [|done]. apply aget_Ret in Hf0 as [_ Hf0]. apply aget_Ret in Hfl as [Hn1 Hfl].
  split; cbn [t_n t_f t_maxn t_base]; try done.
  - intros f Hin. by apply Hf.
  - intros Hb i f Hi. destruct (Z.eqb_spec (f_tag fl - f_tag f0 + 1) n) as [He|]; [|lia].
    pose proof (lookup_lt_Some _ _ _ Hi) as Hlt. unfold zlen in Hl.
    assert (Hfm : ∀ k g, fs !! k = Some g → (f_tag <$> fs) !! k = Some (f_tag g)).
    { intros k g Hk. by rewrite list_lookup_fmap, Hk. }
    pose proof (ascending_gap _ 0 i _ _ Ha ltac:(lia) (Hfm _ _ Hf0) (Hfm _ _ Hi)).
    pose proof (ascending_gap _ i (Z.to_nat (n - 1)) _ _ Ha ltac:(lia) (Hfm _ _ Hi) (Hfm _ _ Hfl)).
    lia.
  - intros f Hin. by apply Hf.
Qed.

Definition protocol_ok (types : Z) (p : protocol) : Prop :=
  (∀ v, p_request p = Some v → 0 ≤ v < types) ∧ (∀ v, p_response p = Some v → 0 ≤ v < types).

Lemma import_protocol_turn_ok types stream fn i p p' :
  protocol_ok types p → import_protocol_turn types data stream fn i p = Ret (Some p') →
  protocol_ok types p'.
Proof.
  destruct p as [name tag confirm rq rs]. intros [Hq Hs] H. cbn in Hq, Hs.
  unfold import_protocol_turn in H. apply bind_Ret_inv in H as (v & _ & H).
  destruct (Z.odd v); [by injection H as <-|].
  destruct (i =? 0).
  { destruct (negb _); [done|]. apply bind_Ret_inv in H as (name' & _ & [= <-]). done. }
  destruct (i =? 1); [destruct (_ <? 0); [done|]; by injection H as <-|].
  destruct (i =? 2).
  { destruct (Z.ltb_spec (v / 2 - 1) 0), (Z.leb_spec types (v / 2 - 1)); try done.
    injection H as <-. split; cbn; [intros ? [= <-]; lia|done]. }
  destruct (i =? 3).
  { destruct (Z.ltb_spec (v / 2 - 1) 0), (Z.leb_spec types (v / 2 - 1)); try done.
    injection H as <-. split; cbn; [done|intros ? [= <-]; lia]. }
  destruct (i =? 4); [by injection H as <-|done].
Qed.

Lemma import_protocol_ok types stream p r :
  import_protocol types data stream = Ret (Some (p, r)) →
  protocol_ok types p ∧ p_name p ≠ None ∧ 0 ≤ p_tag p.
Proof.
  unfold import_protocol. intros (sz & _ & (fn & _ & (o & Ho & H)%bind_Ret_inv)%bind_Ret_inv)%bind_Ret_inv.
  destruct o as [p'|]; [|done]. injection H as H. cbn in H.
  destruct (_ || _) eqn:Hcond; [done|]. injection H as <- _.
  apply orb_false_iff in Hcond as [H1 H2]. apply bool_decide_eq_false in H1. apply Z.ltb_ge in H2.
  split; [|done]. eapply (for_opt_partial (λ _, protocol_ok types)); [| |exact Ho].
  - intros j s1 s2 _. apply import_protocol_turn_ok.
  - by split.
Qed.

Record sproto_wf (sp : sproto) : Prop := {
  swf_types : type_n sp = zlen (s_type sp);
  swf_protos : protocol_n sp = zlen (s_proto sp);
  swf_type : ∀ t, t ∈ s_type sp → type_wf (type_n sp) t ∧ t_name t ≠ None;
  swf_proto : ∀ p, p ∈ s_proto sp →
    protocol_ok (type_n sp) p ∧ p_name p ≠ None ∧ 0 ≤ p_tag p
}.

Lemma count_turn_result s r :
  count_turn data s = Ret (inr r) → r = s.2 ∨ r = -1.
Proof.
  destruct s as [[stream l] n]. unfold count_turn. destruct (l <=? 0).
  { intros [= <-]. by left. }
  destruct (l <? SIZEOF_LENGTH); [intros [= <-]; by right|].
  intros (w & _ & H)%bind_Ret_inv. destruct (l <? _); [injection H as <-; by right|].
  by apply bind_Ret_inv in H as (n' & _ & H).
Qed.

Lemma create_from_bundle_wf fuel sz sp :
  create_from_bundle fuel data sz = Ret (Some sp) → sproto_wf sp.
Proof.
  unfold create_from_bundle. intros (fn & _ & H)%bind_Ret_inv. destruct (_ || _); [done|].
  apply bind_Ret_inv in H as (o & Ho & H).
  destruct o as [[[[[content td] pd] tn] pn]|]; [|done].
  assert (Hn : 0 ≤ tn ∧ 0 ≤ pn).
  { eapply (for_opt_partial (λ _ s, 0 ≤ s.1.2 ∧ 0 ≤ s.2)) in Ho; [done| |done].
    intros j [[[[c1 t1] p1] n1] m1] [[[[c2 t2] p2] n2] m2] _ [H1 H2] Hb. cbn in *.
    apply bind_Ret_inv in Hb as (v & _ & Hb). destruct (negb _); [done|].
    apply bind_Ret_inv in Hb as (n & _ & Hb). destruct (Z.ltb_spec n 0); [done|].
    apply bind_Ret_inv in Hb as (w & _ & Hb). destruct (j =? 0); injection Hb as <- <- <- <- <-; lia. }
  apply bind_Ret_inv in H as (ots & Hts & H). destruct ots as [[ts ?]|]; [|done].
  apply bind_Ret_inv in H as (ops & Hps & H). destruct ops as [[ps ?]|]; [|done].
  injection H as <-.
  apply (for_opt_partial (λ i (s : list sproto_type * Z), zlen s.1 = i ∧
    ∀ t, t ∈ s.1 → type_wf tn t ∧ t_name t ≠ None)) in Hts as [Hl1 Ht].
  2:{ intros j [l1 c1] s2 _ [Hl Hall] Hb. unfold import_types_turn in Hb.
      apply bind_Ret_inv in Hb as (o & Ho' & Hb). destruct o as [[t c2]|]; [|done].
      injection Hb as <-. apply import_type_ok in Ho'. cbn in *. split.
      - rewrite zlen_app. change (zlen [t]) with 1. lia.
      - intros t' [?| ->%list_elem_of_singleton]%elem_of_app; auto. }
  2:{ split; [done|set_solver]. }
  apply (for_opt_partial (λ i (s : list protocol * Z), zlen s.1 = i ∧
    ∀ p, p ∈ s.1 → protocol_ok tn p ∧ p_name p ≠ None ∧ 0 ≤ p_tag p)) in Hps as [Hl2 Hp].
  2:{ intros j [l1 c1] s2 _ [Hl Hall] Hb. unfold import_protocols_turn in Hb.
      apply bind_Ret_inv in Hb as (o & Ho' & Hb). destruct o as [[p c2]|]; [|done].
      injection Hb as <-. apply import_protocol_ok in Ho'. cbn in *. split.
      - rewrite zlen_app. change (zlen [p]) with 1. lia.
      - intros p' [?| ->%list_elem_of_singleton]%elem_of_app; auto. }
  2:{ split; [done|set_solver]. }
  cbn in *. split; cbn; done || lia.
Qed.
End import.

(** ** Termination of the import *)

Lemma bind_fuel {A B} (m : outcome A) (f : A → outcome B) :
  m ≠ NoFuel → (∀ a, m = Ret a → f a ≠ NoFuel) → m ≫= f ≠ NoFuel.
Proof. intros Hm Hf. destruct m; cbn; auto. Qed.

Lemma for_opt_fuel {S} (body : Z → S → outcome (option S)) n i s :
  (∀ j s1, body j s1 ≠ NoFuel) → for_opt n i body s ≠ NoFuel.
Proof.
  intros Hb. revert i s. induction n as [|n IH]; intros i s; [done|].
  rewrite for_opt_S. apply bind_fuel; [apply Hb|]. intros [s'|] _; [apply IH|done].
Qed.

Lemma cint_fuel z : cint z ≠ NoFuel.
Proof. unfold cint. by destruct (_ && _). Qed.
Lemma aget_fuel {A} (l : list A) i : aget l i ≠ NoFuel.
Proof. unfold aget. destruct (0 <=? i); [|done]. by destruct (l !! _). Qed.
Lemma mread_fuel {A} (l : list A) i n : mread l i n ≠ NoFuel.
Proof. unfold mread. by destruct (_ && _). Qed.
Lemma toword_fuel data p : toword data p ≠ NoFuel.
Proof. repeat (apply bind_fuel; [apply aget_fuel|intros ? _]). done. Qed.
Lemma todword_fuel data p : todword data p ≠ NoFuel.
Proof. repeat (apply bind_fuel; [apply aget_fuel|intros ? _]). done. Qed.

Create HintDb fuel.
#[export] Hint Resolve cint_fuel aget_fuel mread_fuel toword_fuel todword_fuel : fuel.
#[export] Hint Extern 1 (Ret _ ≠ NoFuel) => discriminate : fuel.

(** Walks through the binds and the tests of a definition without loops. *)
Ltac no_fuel :=
  repeat first
    [ discriminate
    | solve [auto with fuel]
    | apply bind_fuel; [solve [auto with fuel]|intros ? ?]
    | case_match ].

Lemma struct_field_fuel data stream sz : struct_field data stream sz ≠ NoFuel.
Proof.
  unfold struct_field. case_match; [done|]. apply bind_fuel; [auto with fuel|intros fn _].
  cbv zeta. case_match; [done|]. apply bind_fuel; [|intros [] _; done].
  apply for_opt_fuel. intros j [st sz']. unfold struct_field_turn. no_fuel.
Qed.
#[export] Hint Resolve struct_field_fuel : fuel.

Lemma import_string_fuel data stream : import_string data stream ≠ NoFuel.
Proof. unfold import_string. no_fuel. Qed.
#[export] Hint Resolve import_string_fuel : fuel.

Lemma calc_pow_fuel fuel base n :
  0 ≤ n < 2 ^ Z.of_nat fuel → calc_pow (S fuel) base n ≠ NoFuel.
Proof.
  revert base n. induction fuel as [|fuel IH]; intros base n Hn; cbn [calc_pow];
    destruct (Z.eqb_spec n 0); try done; [cbn in Hn; lia|].
  apply bind_fuel; [auto with fuel|intros b2 _].
  rewrite Nat2Z.inj_succ, Z.pow_succ_r in Hn by lia.
  apply bind_fuel; [apply IH; zlia|intros r _]. no_fuel.
Qed.

Section termination.
Context (data : list Z) (Hbytes : bytes data).

(** Every turn of [count_array] counts an element in an [int]. *)
Lemma count_array_fuel fuel stream :
  INT_MAX + 1 < Z.of_nat fuel → count_array fuel data stream ≠ NoFuel.
Proof.
  intros Hf. unfold count_array. apply bind_fuel; [auto with fuel|intros len _].
  assert (Hgo : ∀ fuel st len n, 0 ≤ n → INT_MAX + 1 < Z.of_nat fuel + n → n ≤ INT_MAX →
    loop fuel (count_turn data) (st, len, n) ≠ NoFuel).
  { clear. induction fuel as [|fuel IH]; intros st len n Hn Hm Hle; [lia|].
    rewrite loop_S. apply bind_fuel; [unfold count_turn; no_fuel|].
    intros [[[st' l'] n']|r] Hturn; [|done]. unfold count_turn in Hturn.
    destruct (len <=? 0); [done|]. destruct (len <? SIZEOF_LENGTH); [done|].
    apply bind_Ret_inv in Hturn as (w & _ & Hturn). destruct (len <? _); [done|].
    apply bind_Ret_inv in Hturn as (n2 & Hn2 & [= <- <- <-]). apply cint_Ret in Hn2 as [-> Hn2].
    apply IH; lia. }
  apply Hgo; unfold INT_MAX in *; lia.
Qed.

Lemma import_field_fuel types stream : import_field types data stream ≠ NoFuel.
Proof.
  unfold import_field. apply bind_fuel; [auto with fuel|intros sz _].
  apply bind_fuel; [auto with fuel|intros fn _]. case_match; [done|].
  apply bind_fuel; [|intros o _; no_fuel]. apply for_opt_fuel.
  intros j [f tag array]. unfold import_field_turn. apply bind_fuel; [auto with fuel|intros v Hv].
  apply toword_range in Hv as [Hv _]; [|done].
  case_match; [done|]. case_match; [no_fuel|]. destruct (Z.eqb_spec v 0); [done|].
  cbv zeta. apply bind_fuel; [|intros; no_fuel]. unfold field_set. destruct f.
  case_match; [no_fuel|]. case_match; [|intros; no_fuel]. case_match; [|no_fuel].
  apply bind_fuel; [|intros; no_fuel]. destruct (Z.eqb_spec v 1) as [->|]; [done|].
  apply (calc_pow_fuel 31). zlia.
Qed.

Lemma import_type_fuel fuel types stream :
  INT_MAX + 1 < Z.of_nat fuel → import_type fuel types data stream ≠ NoFuel.
Proof.
  intros Hf. unfold import_type. apply bind_fuel; [auto with fuel|intros sz _].
  apply bind_fuel; [auto with fuel|intros fn _]. case_match; [done|].
  apply bind_fuel; [|intros [[]|] _; [|done]].
  { apply for_opt_fuel. intros j u. unfold zero_words_turn. no_fuel. }
  apply bind_fuel; [auto with fuel|intros name _]. case_match; [done|].
  apply bind_fuel; [auto with fuel|intros w _].
  apply bind_fuel; [by apply count_array_fuel|intros n _]. case_match; [done|].
  apply bind_fuel; [|intros o _; no_fuel]. apply for_opt_fuel.
  intros j [[[fs st] maxn] last]. unfold import_type_turn.
  apply bind_fuel; [apply import_field_fuel|intros; no_fuel].
Qed.

Lemma import_protocol_fuel types stream : import_protocol types data stream ≠ NoFuel.
Proof.
  unfold import_protocol. apply bind_fuel; [auto with fuel|intros sz _].
  apply bind_fuel; [auto with fuel|intros fn _]. apply bind_fuel; [|intros; no_fuel].
  apply for_opt_fuel. intros j []. unfold import_protocol_turn. no_fuel.
Qed.

Lemma create_fuel fuel sz :
  INT_MAX + 1 < Z.of_nat fuel → create_from_bundle fuel data sz ≠ NoFuel.
Proof.
  intros Hf. unfold create_from_bundle. apply bind_fuel; [auto with fuel|intros fn _].
  case_match; [done|]. cbv zeta. apply bind_fuel.
  { apply for_opt_fuel. intros j [[[[c t] p] tn] pn]. unfold bundle_turn.
    apply bind_fuel; [auto with fuel|intros v _]. case_match; [done|].
    apply bind_fuel; [by apply count_array_fuel|intros n _]. no_fuel. }
  intros [[[[[c t] p] tn] pn]|] _; [|done]. apply bind_fuel.
  { apply for_opt_fuel. intros j s1. unfold import_types_turn.
    apply bind_fuel; [by apply import_type_fuel|intros; no_fuel]. }
  intros [[ts t']|] _; [|done]. apply bind_fuel; [|intros; no_fuel].
  apply for_opt_fuel. intros j s1. unfold import_protocols_turn.
  apply bind_fuel; [apply import_protocol_fuel|intros; no_fuel].
Qed.
End termination.

(** ** Properties *)

(** A bundle with a type [P { n 0 : string, a 1 : integer, c 3 : *P }] and the
    protocols [f 1 { request P }] and [g 3]. *)
Definition bundle : list Z :=
  [2; 0; 0; 0; 0; 0; 78; 0; 0; 0; 74; 0; 0; 0; 2; 0; 0; 0; 0; 0; 1; 0; 0; 0; 80; 59; 0; 0;
   0; 15; 0; 0; 0; 4; 0; 0; 0; 6; 0; 1; 0; 2; 0; 1; 0; 0; 0; 110; 15; 0; 0; 0; 4; 0; 0;
   0; 2; 0; 1; 0; 4; 0; 1; 0; 0; 0; 97; 17; 0; 0; 0; 5; 0; 0; 0; 1; 0; 2; 0; 8; 0; 4; 0;
   1; 0; 0; 0; 99; 32; 0; 0; 0; 13; 0; 0; 0; 3; 0; 0; 0; 4; 0; 2; 0; 1; 0; 0; 0; 102;
   11; 0; 0; 0; 2; 0; 0; 0; 8; 0; 1; 0; 0; 0; 103].

Definition bundle_sproto : sproto :=
  MkSproto 1 2
    [MkType (Some [80]) 3 (-1) 4
       [MkField 0 2 (Some [110]) None (-1) (-1) 0;
        MkField 1 0 (Some [97]) None (-1) (-1) 0;
        MkField 3 132 (Some [99]) (Some 0) (-1) (-1) 0]]
    [MkProtocol (Some [102]) 1 0 (Some 0) None; MkProtocol (Some [103]) 3 0 None None].

Lemma bundle_create : sproto_create 125 bundle = Ret (Some bundle_sproto).
Proof. vm_compute. reflexivity. Qed.

Lemma bundle_bytes : bytes bundle.
Proof. apply (bool_decide_unpack _). vm_compute. exact I. Qed.

(** C35: Whatever bundle [sproto_create] accepts, the result is well-formed:
    the tags of a type are strictly ascending, [maxn] counts its fields and
    the skip markers their tags need, [base] is only set when the tags are
    contiguous, and every reference to a type is to one of the bundle. *)
Theorem create_wf fuel proto sp :
  bytes proto → sproto_create fuel proto = Ret (Some sp) → sproto_wf sp.
Proof. intros Hb. by apply create_from_bundle_wf. Qed.

Lemma create_wf_witness :
  (bytes bundle ∧ sproto_create 125 bundle = Ret (Some bundle_sproto)) ∧ sproto_wf bundle_sproto.
Proof.
  split; [split; [apply bundle_bytes|apply bundle_create]|].
  apply (create_wf 125 bundle); [apply bundle_bytes|apply bundle_create].
Defined.

(** [sproto_create] does not run for ever, whatever the bytes are: the loop of
    [count_array] ends at the latest when the [int] it counts with overflows (see
    [count_array_stuck] for an input on which it goes that far). *)
Theorem create_terminates fuel proto :
  bytes proto → INT_MAX + 1 < Z.of_nat fuel → sproto_create fuel proto ≠ NoFuel.
Proof. intros Hb Hf. by apply create_fuel. Qed.

(** With a length word that overflows, [count_array] does not move: it counts
    the same element until [n] overflows. *)
Lemma count_array_stuck fuel :
  Z.of_nat fuel ≤ INT_MAX → count_array fuel [4; 0; 0; 0; 252; 255; 255; 255] 0 = NoFuel.
Proof.
  set (data := [4; 0; 0; 0; 252; 255; 255; 255]). intros Hf.
  assert (Hw : todword data 0 = Ret 4) by reflexivity.
  unfold count_array. rewrite Hw. bsimpl. rewrite Z.add_0_l.
  assert (Hgo : ∀ k n, 0 ≤ n → n + Z.of_nat k ≤ INT_MAX →
    loop k (count_turn data) (SIZEOF_LENGTH, 4, n) = NoFuel).
  { induction k as [|k IH]; intros n Hn Hk; [done|].
    assert (Hturn : count_turn data (SIZEOF_LENGTH, 4, n) =
      n' ← cint (n + 1); Ret (inl (SIZEOF_LENGTH, 4, n'))) by reflexivity.
    rewrite loop_S, Hturn, cint_in by (unfold INT_MIN; lia). bsimpl. apply IH; lia. }
  apply Hgo; lia.
Qed.

(** On a well-formed type [findtag] finds the field with the tag, if there
    is one: by subtraction when the tags are contiguous, by binary search
    otherwise. *)
Theorem findtag_correct types t tag :
  type_wf types t →
  ∃ o, findtag t tag = Ret o ∧
    match o with
    | Some f => f ∈ t_f t ∧ f_tag f = tag
    | None => ∀ f, f ∈ t_f t → f_tag f ≠ tag
    end.
Proof. apply findtag_spec. Qed.

Lemma bundle_type_wf t : t ∈ s_type bundle_sproto → type_wf 1 t.
Proof. apply (create_from_bundle_wf bundle bundle_bytes 125 (zlen bundle) _ bundle_create). Qed.

Lemma findtag_correct_witness :
  ∃ t, (type_wf 1 t ∧ findtag t 3 ≠ Ret None) ∧
  ∃ o, findtag t 3 = Ret o ∧
    match o with
    | Some f => f ∈ t_f t ∧ f_tag f = 3
    | None => ∀ f, f ∈ t_f t → f_tag f ≠ 3
    end.
Proof.
  exists (MkType (Some [80]) 3 (-1) 4
       [MkField 0 2 (Some [110]) None (-1) (-1) 0;
        MkField 1 0 (Some [97]) None (-1) (-1) 0;
        MkField 3 132 (Some [99]) (Some 0) (-1) (-1) 0]).
  assert (Hwf : type_wf 1 (MkType (Some [80]) 3 (-1) 4
       [MkField 0 2 (Some [110]) None (-1) (-1) 0;
        MkField 1 0 (Some [97]) None (-1) (-1) 0;
        MkField 3 132 (Some [99]) (Some 0) (-1) (-1) 0]))
    by (apply bundle_type_wf; unfold bundle_sproto; cbn; set_solver).
  split; [split; [exact Hwf|vm_compute; discriminate]|].
  apply (findtag_correct 1). exact Hwf.
Defined.

Lemma query_proto_spec sp tag :
  protocol_n sp = zlen (s_proto sp) → ascending (p_tag <$> s_proto sp) →
  ∃ o, query_proto sp tag = Ret o ∧
    match o with
    | Some i => 0 ≤ i ∧ ∃ p, s_proto sp !! Z.to_nat i = Some p ∧ p_tag p = tag
    | None => ∀ p, p ∈ s_proto sp → p_tag p ≠ tag
    end.
Proof.
  intros Hn Ha. unfold query_proto. rewrite Hn.
  destruct (search_spec (p_tag <$> s_proto sp) (λ mid, p ← aget (s_proto sp) mid; Ret (p_tag p)) tag)
    as (o & Ho & Hres); [done| |].
  { intros i Hi. unfold aget. destruct (0 <=? i); [|done]. rewrite list_lookup_fmap.
    by destruct (s_proto sp !! Z.to_nat i). }
  unfold zlen in *. rewrite length_fmap in Ho, Hres. exists o. split; [done|].
  destruct o as [i|].
  - destruct Hres as [Hi Hk]. split; [lia|]. rewrite list_lookup_fmap in Hk.
    apply fmap_Some in Hk as (p & Hp & ->). by exists p.
  - intros p Hp <-. apply Hres. by apply list_elem_of_fmap_2.
Qed.

(** When the protocols are in the order of their tags (as the parser
    writes them), [sproto_protoquery] returns the request or the response
    type of the protocol with the tag, and nothing for an unknown one. *)
Theorem protoquery_correct sp tag what :
  sproto_wf sp → ascending (p_tag <$> s_proto sp) → what = SPROTO_REQUEST ∨ what = SPROTO_RESPONSE →
  (∀ p, p ∈ s_proto sp → p_tag p = tag →
     sproto_protoquery sp tag what =
       Ret (if what =? SPROTO_REQUEST then p_request p else p_response p)) ∧
  ((∀ p, p ∈ s_proto sp → p_tag p ≠ tag) → sproto_protoquery sp tag what = Ret None).
Proof.
  intros Hwf Ha Hwhat.
  destruct (query_proto_spec sp tag (swf_protos _ Hwf) Ha) as (o & Ho & Hres).
  assert (Hq : sproto_protoquery sp tag what = match o with
    | None => Ret None
    | Some i => p ← aget (s_proto sp) i;
                Ret (if what =? SPROTO_REQUEST then p_request p else p_response p)
    end).
  { unfold sproto_protoquery. rewrite Ho. by destruct Hwhat as [-> | ->]. }
  rewrite Hq. split.
  - intros p Hp Htag. destruct o as [i|]; [|by destruct (Hres p Hp)].
    destruct Hres as (Hi & p' & Hp' & Htag').
    rewrite (proj2 (aget_Ret _ i p')) by done. bsimpl.
    replace p' with p; [done|]. apply list_elem_of_lookup in Hp as [j Hj].
    destruct (decide (j = Z.to_nat i)) as [->|Hne]; [congruence|]. exfalso.
    assert (Hj' : (p_tag <$> s_proto sp) !! j = Some tag) by (rewrite list_lookup_fmap, Hj; cbn; by f_equal).
    assert (Hi' : (p_tag <$> s_proto sp) !! Z.to_nat i = Some tag)
      by (rewrite list_lookup_fmap, Hp'; cbn; by f_equal).
    destruct (decide (j < Z.to_nat i)%nat).
    + pose proof (Ha _ _ _ _ ltac:(done) Hj' Hi'). lia.
    + pose proof (Ha (Z.to_nat i) j _ _ ltac:(lia) Hi' Hj'). lia.
  - intros Hnone. destruct o as [i|]; [|done]. exfalso.
    destruct Hres as (Hi & p & Hp & Htag). apply (Hnone p); [|done]. by eapply list_elem_of_lookup_2.
Qed.

Lemma protoquery_correct_witness :
  (sproto_wf bundle_sproto ∧ ascending (p_tag <$> s_proto bundle_sproto)) ∧
  (∀ p, p ∈ s_proto bundle_sproto → p_tag p = 1 →
     sproto_protoquery bundle_sproto 1 SPROTO_REQUEST = Ret (p_request p)) ∧
  ((∀ p, p ∈ s_proto bundle_sproto → p_tag p ≠ 1) →
     sproto_protoquery bundle_sproto 1 SPROTO_REQUEST = Ret None).
Proof.
  assert (Hwf : sproto_wf bundle_sproto)
    by exact (create_from_bundle_wf bundle bundle_bytes 125 (zlen bundle) _ bundle_create).
  assert (Ha : ascending (p_tag <$> s_proto bundle_sproto)).
  { intros i j x y Hij Hi Hj. destruct i as [|[|i]], j as [|[|j]]; cbn in *; simplify_eq; lia. }
  split; [done|]. apply (protoquery_correct bundle_sproto 1 SPROTO_REQUEST); [done|done|by left].
Defined.
