(* ===== verification/SprotoWire.v ===== *)
(** * Encoding and decoding of sproto messages

    [sproto_encode], [sproto_decode] and their helpers of
    [lualib-src/sproto/sproto.c]. The encoder writes into [mem], a block of
    bytes; every pointer into it is an offset. The callbacks are parameters:
    an encoding callback answers with the value it stores at [args->value]
    (and returns its size, or an error code), a decoding callback is given
    the value, or the bytes from [args->value] on. *)
From S2P Require Import Prelude SprotoSchema.

Local Open Scope Z_scope.

Definition SPROTO_CB_ERROR : Z := -1.
Definition SPROTO_CB_NIL : Z := -2.
Definition SPROTO_CB_NOARRAY : Z := -3.

(** [struct sproto_arg], less [ud] and [value]. *)
Record sproto_arg := MkArg {
  a_tagname : option (list Z);
  a_tagid : Z;
  a_type : Z;
  a_subtype : option Z;
  a_length : Z;
  a_index : Z;
  a_mainindex : Z;
  a_extra : Z;
  a_ktagname : option (list Z);
  a_vtagname : option (list Z)
}.

Definition arg_set (a : sproto_arg) (length index : Z) : sproto_arg :=
  MkArg (a_tagname a) (a_tagid a) (a_type a) (a_subtype a) length index
    (a_mainindex a) (a_extra a) (a_ktagname a) (a_vtagname a).

(** What an encoding callback does: return a code, store an integer of 4 or 8
    bytes, or store bytes. *)
Inductive answer :=
| ANil | ANoArray | AError
| AInt32 (v : Z) | AInt64 (v : Z)
| ABytes (bs : list Z).

Definition ret (a : answer) : Z :=
  match a with
  | ANil => SPROTO_CB_NIL
  | ANoArray => SPROTO_CB_NOARRAY
  | AError => SPROTO_CB_ERROR
  | AInt32 _ => SIZEOF_INT32
  | AInt64 _ => SIZEOF_INT64
  | ABytes bs => zlen bs
  end.

(** The members of the union the callback has stored to. *)
Definition union_u32 (a : answer) : outcome Z :=
  match a with AInt32 v => Ret v | _ => Undef end.
Definition union_u64 (a : answer) : outcome Z :=
  match a with AInt64 v => Ret v | _ => Undef end.

(** The bytes stored at [args->value], a pointer into the buffer. *)
Definition store_bytes (a : answer) (mem : list Z) (off : Z) : outcome (list Z) :=
  match a with
  | ABytes bs => mwrite mem off bs
  | AInt32 _ | AInt64 _ => Undef
  | _ => Ret mem
  end.

(** ** Writing integers *)

Definition le16 (v : Z) : list Z := [Z.land v 255; Z.land (Z.shiftr v 8) 255].
Definition le32 (v : Z) : list Z :=
  [Z.land v 255; Z.land (Z.shiftr v 8) 255; Z.land (Z.shiftr v 16) 255;
   Z.land (Z.shiftr v 24) 255].
Definition le64 (v : Z) : list Z :=
  le32 v ++ [Z.land (Z.shiftr v 32) 255; Z.land (Z.shiftr v 40) 255;
             Z.land (Z.shiftr v 48) 255; Z.land (Z.shiftr v 56) 255].

Definition fill_size (mem : list Z) (data sz : Z) : outcome (Z * list Z) :=
  mem' ← asets mem data (le32 sz);
  Ret (sz + SIZEOF_LENGTH, mem').

Definition encode_integer (v : Z) (mem : list Z) (data size : Z) : outcome (Z * list Z) :=
  if size <? SIZEOF_LENGTH + 4 then Ret (-1, mem) else
  mem' ← asets mem (data + 4) (le32 v);
  fill_size mem' data 4.

Definition encode_uint64 (v : Z) (mem : list Z) (data size : Z) : outcome (Z * list Z) :=
  if size <? SIZEOF_LENGTH + 8 then Ret (-1, mem) else
  mem' ← asets mem (data + 4) (le64 v);
  fill_size mem' data 8.

Definition uint32_to_uint64 (negative : bool) (mem : list Z) (buffer : Z) : outcome (list Z) :=
  asets mem (buffer + 4) (if negative then [255; 255; 255; 255] else [0; 0; 0; 0]).

(** ** The encoder *)

Section encode.
Context {UD : Type} (types : list sproto_type) (cb : UD → sproto_arg → UD * answer).

(** The results are the value returned (a size, -1 on error), [ud] and the buffer. *)
Definition encode_object (ud : UD) (args : sproto_arg) (mem : list Z) (data size : Z)
    : outcome (Z * UD * list Z) :=
  if size <? SIZEOF_LENGTH then Ret (-1, ud, mem) else
  let '(ud', a) := cb ud (arg_set args (size - SIZEOF_LENGTH) (a_index args)) in
  mem1 ← store_bytes a mem (data + SIZEOF_LENGTH);
  let sz := ret a in
  if sz <? 0 then Ret (if sz =? SPROTO_CB_NIL then 0 else -1, ud', mem1) else
  _ ← assert_true (sz <=? size - SIZEOF_LENGTH);
  '(r, mem2) ← fill_size mem1 data sz;
  Ret (r, ud', mem2).

(** The variables of the loop of [encode_integer_array]. *)
Record ints_state := MkInts {
  is_ud : UD; is_mem : list Z; is_buffer : Z; is_size : Z; is_index : Z; is_intlen : Z
}.

Definition rearrange_turn (header : Z) (i : Z) (mem : list Z) : outcome (list Z) :=
  bs ← mread mem (header + 1 + i * SIZEOF_INT32) SIZEOF_INT32;
  mem1 ← mwrite mem (header + 1 + i * SIZEOF_INT64) bs;
  b ← aget mem1 (header + 1 + i * SIZEOF_INT64 + 3);
  uint32_to_uint64 (negb (Z.land b 128 =? 0)) mem1 (header + 1 + i * SIZEOF_INT64).

(** The result: the state at the [break] and [noarray], or [None] for [NULL]. *)
Definition ints_turn (args : sproto_arg) (header : Z) (s : ints_state)
    : outcome (ints_state + UD * list Z * option (Z * Z * bool)) :=
  let '(MkInts ud mem buffer size index intlen) := s in
  let '(ud', a) := cb ud (arg_set args 8 index) in
  let sz := ret a in
  if sz <=? 0 then
    if sz =? SPROTO_CB_NIL then Ret (inr (ud', mem, Some (buffer, intlen, false))) else
    if sz =? SPROTO_CB_NOARRAY then Ret (inr (ud', mem, Some (buffer, intlen, true))) else
    Ret (inr (ud', mem, None))
  else if size <? SIZEOF_INT64 then Ret (inr (ud', mem, None))
  else if sz =? SIZEOF_INT32 then
    v ← union_u32 a;
    mem1 ← asets mem buffer (le32 v);
    mem2 ← (if intlen =? SIZEOF_INT64
            then uint32_to_uint64 (negb (Z.land v 2147483648 =? 0)) mem1 buffer else Ret mem1);
    Ret (inl (MkInts ud' mem2 (buffer + intlen) (size - intlen) (index + 1) intlen))
  else if negb (sz =? SIZEOF_INT64) then Ret (inr (ud', mem, None))
  else
    v ← union_u64 a;
    if intlen =? SIZEOF_INT32 then
      let size' := size - (index - 1) * SIZEOF_INT32 in
      if size' <? SIZEOF_INT64 then Ret (inr (ud', mem, None)) else
      let buffer' := buffer + (index - 1) * SIZEOF_INT32 in
      mem1 ← for_loop (Z.to_nat (index - 1)) 0
               (λ k, rearrange_turn header (index - 2 - k)) mem;
      mem2 ← asets mem1 buffer' (le64 v);
      Ret (inl (MkInts ud' mem2 (buffer' + SIZEOF_INT64) (size' - SIZEOF_INT64) (index + 1)
                  SIZEOF_INT64))
    else
      mem2 ← asets mem buffer (le64 v);
      Ret (inl (MkInts ud' mem2 (buffer + intlen) (size - intlen) (index + 1) intlen)).

(** Returns the end of the data ([None]: [NULL]) and [noarray]. *)
Definition encode_integer_array (fuel : nat) (ud : UD) (args : sproto_arg) (mem : list Z)
    (buffer size : Z) : outcome (UD * list Z * option (Z * bool)) :=
  let header := buffer in
  if size <? 1 then Ret (ud, mem, None) else
  '(ud', mem', o) ← loop fuel (ints_turn args header)
                      (MkInts ud mem (buffer + 1) (size - 1) 1 SIZEOF_INT32);
  match o with
  | None => Ret (ud', mem', None)
  | Some (buffer', intlen, noarray) =>
      if buffer' =? header + 1 then Ret (ud', mem', Some (header, noarray)) else
      mem2 ← aset mem' header intlen;
      Ret (ud', mem2, Some (buffer', noarray))
  end.

(** [ud], [mem], [buffer], [size], [index]. *)
Definition objs_turn (args : sproto_arg) (s : UD * list Z * Z * Z * Z)
    : outcome (UD * list Z * Z * Z * Z + UD * list Z * option (Z * bool)) :=
  let '(ud, mem, buffer, size0, index) := s in
  if size0 <? SIZEOF_LENGTH then Ret (inr (ud, mem, None)) else
  let size := size0 - SIZEOF_LENGTH in
  let '(ud', a) := cb ud (arg_set args size index) in
  mem1 ← store_bytes a mem (buffer + SIZEOF_LENGTH);
  let sz := ret a in
  if sz <? 0 then
    if sz =? SPROTO_CB_NIL then Ret (inr (ud', mem1, Some (buffer, false))) else
    if sz =? SPROTO_CB_NOARRAY then Ret (inr (ud', mem1, Some (buffer, true))) else
    Ret (inr (ud', mem1, None))
  else
    '(_, mem2) ← fill_size mem1 buffer sz;
    Ret (inl (ud', mem2, buffer + SIZEOF_LENGTH + sz, size - sz, index + 1)).

Definition encode_array_object (fuel : nat) (ud : UD) (args : sproto_arg) (mem : list Z)
    (buffer size : Z) : outcome (UD * list Z * option (Z * bool)) :=
  loop fuel (objs_turn args) (ud, mem, buffer, size, 1).

(** The result: the end of the data, or a value [encode_array] returns. *)
Definition bools_turn (args : sproto_arg) (s : UD * list Z * Z * Z * Z)
    : outcome (UD * list Z * Z * Z * Z + UD * list Z * (Z + Z)) :=
  let '(ud, mem, buffer, size, index) := s in
  let '(ud', a) := cb ud (arg_set args 4 index) in
  let sz := ret a in
  if sz <? 0 then
    if sz =? SPROTO_CB_NIL then Ret (inr (ud', mem, inl buffer)) else
    if sz =? SPROTO_CB_NOARRAY then Ret (inr (ud', mem, inr 0)) else
    Ret (inr (ud', mem, inr (-1)))
  else if size <? 1 then Ret (inr (ud', mem, inr (-1)))
  else
    v ← union_u32 a;
    mem' ← aset mem buffer (if v =? 0 then 0 else 1);
    Ret (inl (ud', mem', buffer + 1, size - 1, index + 1)).

Definition encode_array (fuel : nat) (ud : UD) (args : sproto_arg) (mem : list Z) (data size0 : Z)
    : outcome (Z * UD * list Z) :=
  if size0 <? SIZEOF_LENGTH then Ret (-1, ud, mem) else
  let size := size0 - SIZEOF_LENGTH in
  let buffer := data + SIZEOF_LENGTH in
  '(ud', mem', o) ←
    (if (a_type args =? SPROTO_TDOUBLE) || (a_type args =? SPROTO_TINTEGER) then
       '(ud', mem', o) ← encode_integer_array fuel ud args mem buffer size;
       Ret (ud', mem', match o with
                       | None => inr (-1)
                       | Some (b, noarray) => if noarray : bool then inr 0 else inl b
                       end)
     else if a_type args =? SPROTO_TBOOLEAN then
       loop fuel (bools_turn args) (ud, mem, buffer, size, 1)
     else
       '(ud', mem', o) ← encode_array_object fuel ud args mem buffer size;
       Ret (ud', mem', match o with
                       | None => inr (-1)
                       | Some (b, noarray) => if noarray : bool then inr 0 else inl b
                       end));
  match o with
  | inr r => Ret (r, ud', mem')
  | inl b =>
      '(r, mem2) ← fill_size mem' data (b - (data + SIZEOF_LENGTH));
      Ret (r, ud', mem2)
  end.

(** [f->st->f[0].name] and [f->st->f[1].name] of a map. *)
Definition map_names (f : field) : outcome (option (list Z) * option (list Z)) :=
  if 0 <? f_map f then
    match f_st f with
    | None => Undef
    | Some v =>
        st ← aget types v;
        f0 ← aget (t_f st) 0; f1 ← aget (t_f st) 1;
        Ret (f_name f0, f_name f1)
    end
  else Ret (None, None).

(** The variables of the loop of [sproto_encode]. *)
Record enc_state := MkEnc {
  en_ud : UD; en_mem : list Z; en_data : Z; en_size : Z; en_index : Z; en_lasttag : Z
}.

(** One field: [sz] and [value], or a value [sproto_encode] returns at once
    ([inr]), or nothing to encode ([inl None]: [continue]). *)
Definition encode_field (fuel : nat) (f : field) (ud : UD) (mem : list Z) (data size : Z)
    : outcome (UD * list Z * (option (Z * Z) + Z)) :=
  let type := f_type f in
  let base k v t := MkArg (f_name f) (f_tag f) t (f_st f) 0 0 (f_key f) (f_extra f) k v in
  if negb (Z.land type SPROTO_TARRAY =? 0) then
    '(k, v) ← map_names f;
    '(sz, ud', mem') ← encode_array fuel ud (base k v (Z.land type (Z.lnot SPROTO_TARRAY)))
                         mem data size;
    Ret (ud', mem', inl (Some (sz, 0)))
  else if (type =? SPROTO_TDOUBLE) || (type =? SPROTO_TINTEGER) || (type =? SPROTO_TBOOLEAN) then
    let '(ud', a) := cb ud (arg_set (base None None type) 8 0) in
    let sz := ret a in
    if sz <? 0 then
      if sz =? SPROTO_CB_NIL then Ret (ud', mem, inl None) else
      if sz =? SPROTO_CB_NOARRAY then Ret (ud', mem, inr 0) else Ret (ud', mem, inr (-1))
    else if sz =? SIZEOF_INT32 then
      v ← union_u32 a;
      if v <? 32767 then Ret (ud', mem, inl (Some (2, (v + 1) * 2)))
      else '(sz', mem') ← encode_integer v mem data size; Ret (ud', mem', inl (Some (sz', 0)))
    else if sz =? SIZEOF_INT64 then
      v ← union_u64 a;
      '(sz', mem') ← encode_uint64 v mem data size; Ret (ud', mem', inl (Some (sz', 0)))
    else Ret (ud', mem, inr (-1))
  else if (type =? SPROTO_TSTRUCT) || (type =? SPROTO_TSTRING) then
    '(sz, ud', mem') ← encode_object ud (base None None type) mem data size;
    Ret (ud', mem', inl (Some (sz, 0)))
  else Ret (ud, mem, inl (Some (-1, 0))).

(** One turn of the loop of [sproto_encode]; [inr] is a value it returns. *)
Definition encode_turn (fuel : nat) (f : field) (s : enc_state)
    : outcome (enc_state + UD * list Z * Z) :=
  let '(MkEnc ud mem data size index lasttag) := s in
  '(ud', mem', o) ← encode_field fuel f ud mem data size;
  match o with
  | inr r => Ret (inr (ud', mem', r))
  | inl None => Ret (inl (MkEnc ud' mem' data size index lasttag))
  | inl (Some (sz, value)) =>
      if sz <? 0 then Ret (inr (ud', mem', -1)) else
      if sz =? 0 then Ret (inl (MkEnc ud' mem' data size index lasttag)) else
      let data' := if value =? 0 then data + sz else data in
      let size' := if value =? 0 then size - sz else size in
      let record := SIZEOF_HEADER + SIZEOF_FIELD * index in
      let tag := f_tag f - lasttag - 1 in
      let write rec idx m :=
        m' ← asets m rec (le16 value);
        Ret (inl (MkEnc ud' m' data' size' (idx + 1) (f_tag f))) in
      if 0 <? tag then
        let tag' := (tag - 1) * 2 + 1 in
        if 65535 <? tag' then Ret (inr (ud', mem', -1)) else
        mem2 ← asets mem' record (le16 tag');
        write (record + SIZEOF_FIELD) (index + 1) mem2
      else write record index mem'
  end.

Fixpoint encode_fields (fuel : nat) (fs : list field) (s : enc_state)
    : outcome (enc_state + UD * list Z * Z) :=
  match fs with
  | [] => Ret (inl s)
  | f :: fs' =>
      o ← encode_turn fuel f s;
      match o with inl s' => encode_fields fuel fs' s' | inr r => Ret (inr r) end
  end.

(** [header] is offset 0; [memmove] is a read and a write. *)
Definition sproto_encode (fuel : nat) (st : sproto_type) (mem : list Z) (size : Z) (ud : UD)
    : outcome (Z * UD * list Z) :=
  let header_sz := SIZEOF_HEADER + t_maxn st * SIZEOF_FIELD in
  if size <? header_sz then Ret (-1, ud, mem) else
  o ← encode_fields fuel (t_f st) (MkEnc ud mem header_sz (size - header_sz) 0 (-1));
  match o with
  | inr (ud', mem', r) => Ret (r, ud', mem')
  | inl (MkEnc ud' mem1 data _ index _) =>
      mem2 ← asets mem1 0 (le16 index);
      let datasz := data - header_sz in
      mem3 ← (if negb (index =? t_maxn st) then
                bs ← mread mem2 header_sz datasz;
                mwrite mem2 (SIZEOF_HEADER + index * SIZEOF_FIELD) bs
              else Ret mem2);
      Ret (SIZEOF_HEADER + index * SIZEOF_FIELD + datasz, ud', mem3)
  end.
End encode.
Arguments MkInts {UD}. Arguments MkEnc {UD}.

(** ** The decoder *)

(** [args->value]: a 64-bit integer, bytes, or the null pointer. *)
Inductive dvalue :=
| DInt (v : Z)
| DBytes (bs : list Z)
| DNull.

Definition expand64 (v : Z) : Z :=
  if negb (Z.land v 2147483648 =? 0) then Z.lor v (Z.shiftl 4294967295 32) else v.

Section decode.
Context {UD : Type} (types : list sproto_type)
  (cb : UD → sproto_arg → dvalue → UD * Z) (data : list Z).

(** The callback is given the bytes [args->value .. args->value + args->length). *)
Definition call_bytes (ud : UD) (args : sproto_arg) (stream length index : Z) : outcome (UD * Z) :=
  bs ← mread data stream length;
  Ret (cb ud (arg_set args length index) (DBytes bs)).

(** [ud], [stream], [sz], [index]; [hsz] is compared as [uint32_t]. *)
Definition objects_turn (args : sproto_arg) (s : UD * Z * Z * Z)
    : outcome (UD * Z * Z * Z + UD * Z) :=
  let '(ud, stream0, sz0, index) := s in
  if sz0 <=? 0 then Ret (inr (ud, 0)) else
  if sz0 <? SIZEOF_LENGTH then Ret (inr (ud, -1)) else
  hsz ← todword data stream0;
  let stream := stream0 + SIZEOF_LENGTH in
  let sz := sz0 - SIZEOF_LENGTH in
  if u32 sz <? hsz then Ret (inr (ud, -1)) else
  '(ud', r) ← call_bytes ud args stream (i32 hsz) index;
  if negb (r =? 0) then Ret (inr (ud', -1)) else
  Ret (inl (ud', stream + hsz, i32 (sz - hsz), index + 1)).

Definition decode_array_object (fuel : nat) (ud : UD) (args : sproto_arg) (stream sz : Z)
    : outcome (UD * Z) :=
  loop fuel (objects_turn args) (ud, stream, sz, 1).

Definition decode_empty_array (ud : UD) (args : sproto_arg) : outcome (UD * Z) :=
  Ret (cb ud (arg_set args 0 (-1)) DNull).

(** The element [i] of an integer array of [len] bytes per integer. *)
Definition int_elem (args : sproto_arg) (stream len i : Z) (ud : UD) : outcome UD :=
  v ← (if len =? SIZEOF_INT32 then
         w ← todword data (stream + i * SIZEOF_INT32); Ret (expand64 w)
       else
         low ← todword data (stream + i * SIZEOF_INT64);
         hi ← todword data (stream + i * SIZEOF_INT64 + SIZEOF_INT32);
         Ret (Z.lor low (Z.shiftl hi 32)));
  Ret (cb ud (arg_set args 8 (i + 1)) (DInt v)).1.

Definition bool_elem (args : sproto_arg) (stream i : Z) (ud : UD) : outcome UD :=
  v ← aget data (stream + i);
  Ret (cb ud (arg_set args 8 (i + 1)) (DInt v)).1.

Definition decode_array (fuel : nat) (ud : UD) (args : sproto_arg) (stream0 : Z) : outcome (UD * Z) :=
  sz ← todword data stream0;
  if sz =? 0 then decode_empty_array ud args else
  let stream := stream0 + SIZEOF_LENGTH in
  if (a_type args =? SPROTO_TDOUBLE) || (a_type args =? SPROTO_TINTEGER) then
    let sz' := sz - 1 in
    if sz' =? 0 then decode_empty_array ud args else
    len ← aget data stream;
    if (len =? SIZEOF_INT32) || (len =? SIZEOF_INT64) then
      if negb (sz' mod len =? 0) then Ret (ud, -1) else
      ud' ← for_loop (Z.to_nat (sz' / len)) 0 (int_elem args (stream + 1) len) ud;
      Ret (ud', 0)
    else Ret (ud, -1)
  else if a_type args =? SPROTO_TBOOLEAN then
    ud' ← for_loop (Z.to_nat sz) 0 (bool_elem args stream) ud;
    Ret (ud', 0)
  else if (a_type args =? SPROTO_TSTRING) || (a_type args =? SPROTO_TSTRUCT) then
    decode_array_object fuel ud args stream (i32 sz)
  else Ret (ud, -1).

(** The value of a field whose data is at [currentdata]; -1 on error. *)
Definition decode_data (fuel : nat) (ud : UD) (f : field) (currentdata : Z) : outcome (UD * Z) :=
  let base k v t := MkArg (f_name f) (f_tag f) t (f_st f) 0 0 (f_key f) (f_extra f) k v in
  if negb (Z.land (f_type f) SPROTO_TARRAY =? 0) then
    '(k, v) ← map_names types f;
    '(ud', r) ← decode_array fuel ud (base k v (Z.land (f_type f) (Z.lnot SPROTO_TARRAY)))
                  currentdata;
    Ret (ud', if r =? 0 then 0 else -1)
  else
    let args := base None None (f_type f) in
    if (f_type f =? SPROTO_TDOUBLE) || (f_type f =? SPROTO_TINTEGER) then
      sz ← todword data currentdata;
      if sz =? SIZEOF_INT32 then
        w ← todword data (currentdata + SIZEOF_LENGTH);
        Ret ((cb ud (arg_set args 8 0) (DInt (expand64 w))).1, 0)
      else if negb (sz =? SIZEOF_INT64) then Ret (ud, -1)
      else
        low ← todword data (currentdata + SIZEOF_LENGTH);
        hi ← todword data (currentdata + SIZEOF_LENGTH + SIZEOF_INT32);
        Ret ((cb ud (arg_set args 8 0) (DInt (Z.lor low (Z.shiftl hi 32)))).1, 0)
    else if (f_type f =? SPROTO_TSTRING) || (f_type f =? SPROTO_TSTRUCT) then
      sz ← todword data currentdata;
      '(ud', r) ← call_bytes ud args (currentdata + SIZEOF_LENGTH) (i32 sz) 0;
      Ret (ud', if r =? 0 then 0 else -1)
    else Ret (ud, -1).

(** [ud], [datastream], [size], [tag]; [None] is [return -1]. The bounds check
    is one of [uint32_t]. *)
Definition decode_turn (fuel : nat) (st : sproto_type) (stream i : Z) (s : UD * Z * Z * Z)
    : outcome (option (UD * Z * Z * Z)) :=
  let '(ud, datastream, size, tag0) := s in
  value0 ← toword data (stream + i * SIZEOF_FIELD);
  let tag := tag0 + 1 in
  if Z.odd value0 then Ret (Some (ud, datastream, size, tag + value0 / 2)) else
  let value := value0 / 2 - 1 in
  o ← (if value <? 0 then
         if size <? SIZEOF_LENGTH then Ret None else
         sz ← todword data datastream;
         let w := u32 (sz + SIZEOF_LENGTH) in
         if u32 size <? w then Ret None else
         Ret (Some (datastream + w, i32 (size - w)))
       else Ret (Some (datastream, size)));
  match o with
  | None => Ret None
  | Some (datastream', size') =>
      oft ← findtag st tag;
      match oft with
      | None => Ret (Some (ud, datastream', size', tag))
      | Some f =>
          if value <? 0 then
            '(ud', r) ← decode_data fuel ud f datastream;
            if negb (r =? 0) then Ret None else Ret (Some (ud', datastream', size', tag))
          else if negb (f_type f =? SPROTO_TINTEGER) && negb (f_type f =? SPROTO_TBOOLEAN) then
            Ret None
          else
            let args := MkArg (f_name f) (f_tag f) (f_type f) (f_st f) 8 0 (f_key f) (f_extra f)
                          None None in
            Ret (Some ((cb ud args (DInt value)).1, datastream', size', tag))
      end
  end.

(** Returns the number of bytes consumed, or -1; the state of the callback is
    that after the last call ([ud] for an error is the one before the turn
    that fails). *)
Definition sproto_decode (fuel : nat) (st : sproto_type) (size0 : Z) (ud : UD)
    : outcome (option (UD * Z)) :=
  if size0 <? SIZEOF_HEADER then Ret None else
  fn ← toword data 0;
  let stream := SIZEOF_HEADER in
  let size := size0 - SIZEOF_HEADER in
  if size <? fn * SIZEOF_FIELD then Ret None else
  o ← for_opt (Z.to_nat fn) 0 (decode_turn fuel st stream)
        (ud, stream + fn * SIZEOF_FIELD, size - fn * SIZEOF_FIELD, -1);
  Ret ('(ud', _, size', _) ← o; Some (ud', size0 - size')).
End decode.

(** ** The encoder on lists

    What the encoder computes, without the buffer: the room left is a number,
    the output a list. *)

(** The elements of an integer array: whether the callback stored 8 bytes. *)
Local Notation item := (bool * Z)%type.

Definition intlen_of (its : list item) : Z :=
  if existsb fst its then SIZEOF_INT64 else SIZEOF_INT32.

Definition sign_ext (v : Z) : list Z :=
  if negb (Z.land v 2147483648 =? 0) then [255; 255; 255; 255] else [0; 0; 0; 0].

Definition item_bytes (w64 : bool) (it : item) : list Z :=
  if w64 then if it.1 then le64 it.2 else le32 it.2 ++ sign_ext it.2 else le32 it.2.

Definition ints_bytes (its : list item) : list Z :=
  concat (item_bytes (existsb fst its) <$> its).

Definition ints_payload (its : list item) : list Z :=
  match its with [] => [] | _ => intlen_of its :: ints_bytes its end.

Definition objs_bytes (bss : list (list Z)) : list Z :=
  concat ((λ bs, le32 (zlen bs) ++ bs) <$> bss).

(** A field: an error, nothing, [return 0], a value in the header, or data. *)
Inductive fres := FErr | FSkip | FRet0 | FVal (v : Z) | FData (bs : list Z).

(** The end of an array. *)
Inductive ares := AFail | ANone | AItems (bs : list Z).

Section reference.
Context {UD : Type} (types : list sproto_type) (cb : UD → sproto_arg → UD * answer).

Definition ref_ints_turn (args : sproto_arg) (size0 : Z) (s : UD * list item)
    : outcome (UD * list item + UD * ares) :=
  let '(ud, its) := s in
  let '(ud', a) := cb ud (arg_set args 8 (zlen its + 1)) in
  let size := size0 - zlen (ints_bytes its) in
  if ret a <=? 0 then
    Ret (inr (ud', if ret a =? SPROTO_CB_NIL then AItems (ints_payload its)
                   else if ret a =? SPROTO_CB_NOARRAY then ANone else AFail))
  else if size <? SIZEOF_INT64 then Ret (inr (ud', AFail))
  else if ret a =? SIZEOF_INT32 then
    v ← union_u32 a; Ret (inl (ud', its ++ [(false, v)]))
  else if negb (ret a =? SIZEOF_INT64) then Ret (inr (ud', AFail))
  else
    v ← union_u64 a;
    if (intlen_of its =? SIZEOF_INT32) && (size - zlen its * 4 <? SIZEOF_INT64)
    then Ret (inr (ud', AFail)) else Ret (inl (ud', its ++ [(true, v)])).

Definition ref_objs_turn (args : sproto_arg) (size0 : Z) (s : UD * list (list Z))
    : outcome (UD * list (list Z) + UD * ares) :=
  let '(ud, bss) := s in
  let size1 := size0 - zlen (objs_bytes bss) in
  if size1 <? SIZEOF_LENGTH then Ret (inr (ud, AFail)) else
  let '(ud', a) := cb ud (arg_set args (size1 - SIZEOF_LENGTH) (zlen bss + 1)) in
  match a with
  | ANil => Ret (inr (ud', AItems (objs_bytes bss)))
  | ANoArray => Ret (inr (ud', ANone))
  | AError => Ret (inr (ud', AFail))
  | ABytes bs => if zlen bs <=? size1 - SIZEOF_LENGTH then Ret (inl (ud', bss ++ [bs])) else Undef
  | _ => Undef
  end.

Definition ref_bools_turn (args : sproto_arg) (size0 : Z) (s : UD * list Z)
    : outcome (UD * list Z + UD * ares) :=
  let '(ud, vs) := s in
  let '(ud', a) := cb ud (arg_set args 4 (zlen vs + 1)) in
  if ret a <? 0 then
    Ret (inr (ud', if ret a =? SPROTO_CB_NIL then AItems vs
                   else if ret a =? SPROTO_CB_NOARRAY then ANone else AFail))
  else if size0 - zlen vs <? 1 then Ret (inr (ud', AFail))
  else v ← union_u32 a; Ret (inl (ud', vs ++ [if v =? 0 then 0 else 1])).

Definition ref_array (fuel : nat) (ud : UD) (args : sproto_arg) (size0 : Z)
    : outcome (UD * fres) :=
  if size0 <? SIZEOF_LENGTH then Ret (ud, FErr) else
  let size := size0 - SIZEOF_LENGTH in
  '(ud', r) ←
    (if (a_type args =? SPROTO_TDOUBLE) || (a_type args =? SPROTO_TINTEGER) then
       if size <? 1 then Ret (ud, AFail)
       else loop fuel (ref_ints_turn args (size - 1)) (ud, [])
     else if a_type args =? SPROTO_TBOOLEAN then loop fuel (ref_bools_turn args size) (ud, [])
     else loop fuel (ref_objs_turn args size) (ud, []));
  Ret (ud', match r with
            | AFail => FErr
            | ANone => FSkip
            | AItems bs => FData (le32 (zlen bs) ++ bs)
            end).

Definition ref_object (ud : UD) (args : sproto_arg) (size : Z) : outcome (UD * fres) :=
  if size <? SIZEOF_LENGTH then Ret (ud, FErr) else
  let '(ud', a) := cb ud (arg_set args (size - SIZEOF_LENGTH) (a_index args)) in
  match a with
  | ANil => Ret (ud', FSkip)
  | ANoArray | AError => Ret (ud', FErr)
  | ABytes bs => if zlen bs <=? size - SIZEOF_LENGTH then Ret (ud', FData (le32 (zlen bs) ++ bs))
                 else Undef
  | _ => Undef
  end.

Definition ref_field (fuel : nat) (f : field) (ud : UD) (size : Z) : outcome (UD * fres) :=
  let type := f_type f in
  let base k v t := MkArg (f_name f) (f_tag f) t (f_st f) 0 0 (f_key f) (f_extra f) k v in
  if negb (Z.land type SPROTO_TARRAY =? 0) then
    '(k, v) ← map_names types f;
    ref_array fuel ud (base k v (Z.land type (Z.lnot SPROTO_TARRAY))) size
  else if (type =? SPROTO_TDOUBLE) || (type =? SPROTO_TINTEGER) || (type =? SPROTO_TBOOLEAN) then
    let '(ud', a) := cb ud (arg_set (base None None type) 8 0) in
    match a with
    | ANil => Ret (ud', FSkip)
    | ANoArray => Ret (ud', FRet0)
    | AError => Ret (ud', FErr)
    | AInt32 v =>
        Ret (ud', if v <? 32767 then FVal ((v + 1) * 2) else
                  if size <? 8 then FErr else FData (le32 4 ++ le32 v))
    | AInt64 v => Ret (ud', if size <? 12 then FErr else FData (le32 8 ++ le64 v))
    | ABytes _ => Undef
    end
  else if (type =? SPROTO_TSTRUCT) || (type =? SPROTO_TSTRING) then
    ref_object ud (base None None type) size
  else Ret (ud, FErr).

(** The words of the header after the first, the data, the tag of the last
    field that was encoded. *)
Record ref_state := MkRef {
  r_ud : UD; r_recs : list Z; r_data : list Z; r_lasttag : Z
}.

(** The words a field with the value [v] adds to the header. *)
Definition tag_words (lasttag tag v : Z) : list Z :=
  (if 0 <? tag - lasttag - 1 then [(tag - lasttag - 1 - 1) * 2 + 1] else []) ++ [v].

Definition ref_turn (fuel : nat) (size0 : Z) (f : field) (s : ref_state)
    : outcome (ref_state + UD * Z) :=
  let '(MkRef ud recs datas lasttag) := s in
  '(ud', r) ← ref_field fuel f ud (size0 - zlen datas);
  match r with
  | FErr => Ret (inr (ud', -1))
  | FRet0 => Ret (inr (ud', 0))
  | FSkip => Ret (inl (MkRef ud' recs datas lasttag))
  | FVal v => Ret (inl (MkRef ud' (recs ++ tag_words lasttag (f_tag f) v) datas (f_tag f)))
  | FData bs => Ret (inl (MkRef ud' (recs ++ tag_words lasttag (f_tag f) 0) (datas ++ bs) (f_tag f)))
  end.

Fixpoint ref_fields (fuel : nat) (size0 : Z) (fs : list field) (s : ref_state)
    : outcome (ref_state + UD * Z) :=
  match fs with
  | [] => Ret (inl s)
  | f :: fs' =>
      o ← ref_turn fuel size0 f s;
      match o with inl s' => ref_fields fuel size0 fs' s' | inr r => Ret (inr r) end
  end.

(** A message on the wire. *)
Definition wire (recs datas : list Z) : list Z :=
  le16 (zlen recs) ++ concat (le16 <$> recs) ++ datas.

(** The value returned and the message. *)
Definition ref_encode (fuel : nat) (st : sproto_type) (size : Z) (ud : UD)
    : outcome (UD * (Z + list Z)) :=
  let header_sz := SIZEOF_HEADER + t_maxn st * SIZEOF_FIELD in
  if size <? header_sz then Ret (ud, inl (-1)) else
  o ← ref_fields fuel (size - header_sz) (t_f st) (MkRef ud [] [] (-1));
  match o with
  | inr (ud', r) => Ret (ud', inl r)
  | inl s => Ret (r_ud s, inr (wire (r_recs s) (r_data s)))
  end.

(** The contract of a callback: integers for the builtin types, bytes for
    strings and structures, never more than [args->length] of them. *)
Definition answer_ok (args : sproto_arg) (a : answer) : Prop :=
  match a with
  | ANil | ANoArray | AError => True
  | AInt32 v => 0 ≤ v < 2 ^ 32 ∧ a_type args ≠ SPROTO_TSTRING ∧ a_type args ≠ SPROTO_TSTRUCT
  | AInt64 v => 0 ≤ v < 2 ^ 64 ∧ a_type args ≠ SPROTO_TSTRING ∧ a_type args ≠ SPROTO_TSTRUCT ∧
                (a_type args = SPROTO_TBOOLEAN → a_length args = 8)
  | ABytes bs => (a_type args = SPROTO_TSTRING ∨ a_type args = SPROTO_TSTRUCT) ∧
                 bytes bs ∧ zlen bs ≤ a_length args
  end.

Definition cb_ok : Prop := ∀ ud args, answer_ok args (cb ud args).2.
End reference.
Arguments MkRef {UD}.

#[global] Arguments ints_bytes : simpl never.
#[global] Arguments objs_bytes : simpl never.
#[global] Arguments intlen_of : simpl never.
#[global] Arguments sign_ext : simpl never.
#[global] Arguments item_bytes : simpl never.
#[global] Arguments le16 : simpl never.
#[global] Arguments le32 : simpl never.
#[global] Arguments le64 : simpl never.

(** ** The encoder refines its reference *)

Lemma le32_zlen v : zlen (le32 v) = 4. Proof. done. Qed.
Lemma le64_zlen v : zlen (le64 v) = 8. Proof. done. Qed.
Lemma le16_zlen v : zlen (le16 v) = 2. Proof. done. Qed.
Lemma sign_ext_zlen v : zlen (sign_ext v) = 4.
Proof. unfold sign_ext. by destruct (negb _). Qed.
#[export] Hint Rewrite le32_zlen le64_zlen le16_zlen sign_ext_zlen : zlen.

Lemma item_bytes_zlen w it : zlen (item_bytes w it) = if w then 8 else 4.
Proof. unfold item_bytes. destruct w, it as [[] v]; cbn; autorewrite with zlen; done. Qed.

Lemma concat_item_zlen w (its : list item) :
  zlen (concat (item_bytes w <$> its)) = (if w then 8 else 4) * zlen its.
Proof.
  induction its as [|it its IH]; [cbn; change (zlen []) with 0; by destruct w|].
  cbn. rewrite zlen_app, zlen_cons, item_bytes_zlen, IH. destruct w; lia.
Qed.

Lemma ints_bytes_zlen its : zlen (ints_bytes its) = intlen_of its * zlen its.
Proof.
  unfold ints_bytes, intlen_of. rewrite concat_item_zlen.
  by destruct (existsb fst its).
Qed.

Lemma ints_bytes_snoc its it :
  existsb fst its = existsb fst (its ++ [it]) →
  ints_bytes (its ++ [it]) = ints_bytes its ++ item_bytes (existsb fst its) it.
Proof.
  intros H. unfold ints_bytes. rewrite <-H, fmap_app, concat_app. cbn. by rewrite app_nil_r.
Qed.

Lemma sign_ext_byte v :
  (Z.land (Z.land (Z.shiftr v 24) 255) 128 =? 0) = (Z.land v 2147483648 =? 0).
Proof.
  assert (H1 : ∀ a n, 0 ≤ n → (Z.land a (2 ^ n) =? 0) = negb (Z.testbit a n)).
  { intros a n Hn. destruct (Z.testbit a n) eqn:E.
    - apply Z.eqb_neq. intros H. apply (f_equal (λ x, Z.testbit x n)) in H.
      rewrite Z.land_spec, E, Z.pow2_bits_true, Z.bits_0 in H by done. done.
    - apply Z.eqb_eq, Z.bits_inj'. intros k Hk. rewrite Z.land_spec, Z.bits_0.
      destruct (decide (k = n)) as [->|]; [by rewrite E|].
      rewrite Z.pow2_bits_false by done. by rewrite andb_false_r. }
  rewrite (H1 _ 7), (H1 _ 31) by lia. f_equal.
  rewrite Z.land_spec, Z.shiftr_spec by lia. change 255 with (Z.ones 8).
  rewrite Z.ones_spec_low by lia. by rewrite andb_true_r.
Qed.

Definition item_len (w64 : bool) : Z := if w64 then 8 else 4.

Lemma item_bytes_len w it : zlen (item_bytes w it) = item_len w.
Proof. apply item_bytes_zlen. Qed.

Lemma mem_at_blocks w (its : list item) (mem : list Z) off :
  0 ≤ off →
  mem_at mem (Z.to_nat off) (concat (item_bytes w <$> its)) ↔
  ∀ j it, its !! j = Some it → mem_at mem (Z.to_nat (off + item_len w * Z.of_nat j)) (item_bytes w it).
Proof.
  revert off. induction its as [|it its IH]; intros off Hoff.
  { split; [intros _ j it' Hj; by rewrite lookup_nil in Hj|intros _ k b Hk; cbn in Hk; by rewrite lookup_nil in Hk]. }
  cbn [fmap list_fmap concat]. rewrite mem_at_appz, item_bytes_len by done.
  assert (Hlen : 0 ≤ item_len w) by (unfold item_len; destruct w; lia).
  rewrite IH by lia. split.
  - intros [H1 H2] [|j] it' Hj; cbn in Hj.
    + injection Hj as <-. by rewrite Z.mul_0_r, Z.add_0_r.
    + apply H2 in Hj. eapply (eq_rect _ (λ x, mem_at mem (Z.to_nat x) _)); [exact Hj|]. lia.
  - intros H. split.
    + specialize (H 0%nat it eq_refl). by rewrite Z.mul_0_r, Z.add_0_r in H.
    + intros j it' Hj. specialize (H (S j) it' Hj).
      eapply (eq_rect _ (λ x, mem_at mem (Z.to_nat x) _)); [exact H|]. lia.
Qed.

Lemma aget_at (mem : list Z) off bs k b :
  0 ≤ off → mem_at mem (Z.to_nat off) bs → bs !! k = Some b → aget mem (off + Z.of_nat k) = Ret b.
Proof.
  intros H0 Hat Hk. apply aget_Ret. split; [lia|].
  replace (Z.to_nat (off + Z.of_nat k)) with (Z.to_nat off + k)%nat by lia. by apply Hat.
Qed.

(** One element is widened in place. *)
Lemma rearrange_turn_spec mem header i v :
  0 ≤ header → 0 ≤ i → header + 1 + 8 * i + 8 ≤ zlen mem →
  mem_at mem (Z.to_nat (header + 1 + 4 * i)) (le32 v) →
  ∃ mem', rearrange_turn header i mem = Ret mem' ∧
    same_outside mem mem' (header + 1 + 8 * i) (header + 1 + 8 * i + 8) ∧
    mem_at mem' (Z.to_nat (header + 1 + 8 * i)) (le32 v ++ sign_ext v).
Proof.
  intros Hh Hi Hlen Hat. unfold rearrange_turn, SIZEOF_INT32, SIZEOF_INT64.
  replace (i * 4) with (4 * i) by lia. replace (i * 8) with (8 * i) by lia.
  pose proof (mread_at mem (header + 1 + 4 * i) (le32 v)) as Hr.
  rewrite le32_zlen in Hr. rewrite Hr by (done || lia). bsimpl.
  destruct (mwrite_spec mem (header + 1 + 8 * i) (le32 v)) as (m1 & -> & Hs1 & Hat1);
    [lia|rewrite le32_zlen; lia|]. bsimpl.
  pose proof (aget_at m1 (header + 1 + 8 * i) (le32 v) 3 (Z.land (Z.shiftr v 24) 255)
    ltac:(lia) Hat1 eq_refl) as Hb. change (Z.of_nat 3) with 3 in Hb. rewrite Hb. bsimpl. rewrite sign_ext_byte. unfold uint32_to_uint64. fold (sign_ext v).
  rewrite le32_zlen in Hs1. pose proof Hs1 as [Hl1 _].
  destruct (asets_spec m1 (header + 1 + 8 * i + 4) (sign_ext v)) as (m2 & -> & Hs2 & Hat2);
    [lia|rewrite sign_ext_zlen; lia|].
  rewrite sign_ext_zlen in Hs2. exists m2. split; [done|]. split.
  - eapply same_outside_trans; [exact Hs1|exact Hs2|lia..].
  - apply mem_at_appz; [lia|]. rewrite le32_zlen. split; [|done].
    eapply mem_at_frame; [exact Hs2| |done]. rewrite le32_zlen. lia.
Qed.

Lemma rearrange_spec (its : list item) mem header :
  0 ≤ header → header + 1 + 8 * zlen its ≤ zlen mem → existsb fst its = false →
  mem_at mem (Z.to_nat (header + 1)) (ints_bytes its) →
  ∃ mem', for_loop (Z.to_nat (zlen its)) 0 (λ k, rearrange_turn header (zlen its - 1 - k)) mem = Ret mem' ∧
    same_outside mem mem' (header + 1) (header + 1 + 8 * zlen its) ∧
    mem_at mem' (Z.to_nat (header + 1)) (concat (item_bytes true <$> its)).
Proof.
  intros Hh Hlen Hno Hat. unfold ints_bytes in Hat. rewrite Hno in Hat.
  rewrite mem_at_blocks in Hat by lia.
  assert (Hfst : ∀ j it, its !! j = Some it → it.1 = false).
  { intros j it Hj. destruct it.1 eqn:E; [|done].
    assert (Hx : existsb fst its = true) by (apply existsb_exists; exists it; split;
      [apply list_elem_of_In; by eapply list_elem_of_lookup_2|done]). congruence. }
  destruct (for_loop_inv (λ k m, same_outside mem m (header + 1) (header + 1 + 8 * zlen its) ∧
      ∀ j it, its !! j = Some it →
        mem_at m (Z.to_nat (header + 1 + item_len (bool_decide (zlen its - k ≤ Z.of_nat j)) * Z.of_nat j))
          (item_bytes (bool_decide (zlen its - k ≤ Z.of_nat j)) it))
    (λ k, rearrange_turn header (zlen its - 1 - k)) (Z.to_nat (zlen its)) 0 mem)
    as (mem' & Hrun & Hs & Hall).
  - split; [apply same_outside_refl|]. intros j it Hj. pose proof (lookup_lt_Some _ _ _ Hj).
    rewrite bool_decide_eq_false_2 by (unfold zlen; lia). by apply Hat.
  - intros k m Hk [Hs Hall]. pose proof Hs as [Hl _].
    set (i := zlen its - 1 - k). assert (Hi : 0 ≤ i < zlen its) by (unfold i; lia).
    destruct (lookup_lt_is_Some_2 its (Z.to_nat i)) as [[w v] Hit]; [unfold zlen in Hi; lia|].
    pose proof (Hfst _ _ Hit) as Hw. cbn in Hw. subst w.
    pose proof (Hall _ _ Hit) as Hati. rewrite bool_decide_eq_false_2 in Hati by lia.
    cbn [item_len] in Hati. rewrite Z2Nat.id in Hati by lia.
    destruct (rearrange_turn_spec m header i v) as (m' & Ht & Hs' & Hat'); [lia|lia|lia|exact Hati|].
    exists m'. split; [exact Ht|]. split.
    { eapply same_outside_trans; [exact Hs|exact Hs'|lia..]. }
    intros j it Hj. pose proof (lookup_lt_Some _ _ _ Hj).
    destruct (decide (j = Z.to_nat i)) as [->|Hne].
    + rewrite Hit in Hj. injection Hj as <-. rewrite bool_decide_eq_true_2 by lia.
      cbn [item_len]. rewrite Z2Nat.id by lia. exact Hat'.
    + specialize (Hall j it Hj). pose proof (item_bytes_len (bool_decide (zlen its - k ≤ Z.of_nat j)) it).
      assert (Hbd : bool_decide (zlen its - (k + 1) ≤ Z.of_nat j) = bool_decide (zlen its - k ≤ Z.of_nat j)).
      { apply bool_decide_ext. lia. }
      rewrite Hbd. eapply mem_at_frame; [exact Hs'| |exact Hall].
      rewrite Z2Nat.id by (unfold item_len; destruct (bool_decide _); lia).
      destruct (bool_decide_reflect (zlen its - k ≤ Z.of_nat j)); cbn [item_len] in *; lia.
  - exists mem'. split; [done|]. split; [done|]. apply mem_at_blocks; [lia|].
    intros j it Hj. specialize (Hall j it Hj). rewrite bool_decide_eq_true_2 in Hall by lia. done.
Qed.

(** The tags of the fields still to come, behind the tag [l]. *)
Fixpoint chain (l : Z) (ts : list Z) : Prop :=
  match ts with [] => True | t :: ts' => l < t ∧ chain t ts' end.

Lemma ascending_chain l ts : ascending ts → (∀ t, t ∈ ts → l < t) → chain l ts.
Proof.
  revert l. induction ts as [|t ts IH]; intros l Ha Hl; [done|]. split; [set_solver|].
  apply IH.
  - intros i j x y Hij Hi Hj. apply (Ha (S i) (S j) x y); done || lia.
  - intros t' (j & Hj)%list_elem_of_lookup. apply (Ha 0%nat (S j) t t'); done || lia.
Qed.

Section refinement.
Context {UD : Type} (types : list sproto_type) (cb : UD → sproto_arg → UD * answer)
  (Hcb : cb_ok cb).

(** The loop of [encode_integer_array] when [its] have been encoded. *)
Definition ints_rel (mem0 : list Z) (header size0 : Z) (s : ints_state) (r : UD * list item) : Prop :=
  let its := r.2 in
  is_ud s = r.1 ∧ is_intlen s = intlen_of its ∧ is_index s = zlen its + 1 ∧
  is_buffer s = header + 1 + zlen (ints_bytes its) ∧
  is_size s = size0 - zlen (ints_bytes its) ∧ 0 ≤ is_size s ∧
  same_outside mem0 (is_mem s) (header + 1) (header + 1 + size0) ∧
  mem_at (is_mem s) (Z.to_nat (header + 1)) (ints_bytes its).

Definition ints_out (mem0 : list Z) (header size0 : Z)
    (o : UD * list Z * option (Z * Z * bool)) (r : UD * ares) : Prop :=
  let '(ud, mem, res) := o in
  ud = r.1 ∧ same_outside mem0 mem (header + 1) (header + 1 + size0) ∧
  match res, r.2 with
  | None, AFail => True
  | Some (_, _, true), ANone => True
  | Some (b, l, false), AItems bs =>
      ∃ its, bs = ints_payload its ∧ l = intlen_of its ∧
        b = header + 1 + zlen (ints_bytes its) ∧ zlen (ints_bytes its) ≤ size0 ∧
        mem_at mem (Z.to_nat (header + 1)) (ints_bytes its)
  | _, _ => False
  end.

Lemma intlen_snoc (its : list item) it :
  intlen_of (its ++ [it]) = if it.1 then SIZEOF_INT64 else intlen_of its.
Proof. unfold intlen_of. rewrite existsb_app. cbn. destruct it.1, (existsb fst its); done. Qed.

Lemma intlen_cases (its : list item) :
  (existsb fst its = true ∧ intlen_of its = 8) ∨ (existsb fst its = false ∧ intlen_of its = 4).
Proof. unfold intlen_of. destruct (existsb fst its); auto. Qed.

(** Appending the bytes of one more element. *)
Lemma ints_append mem0 mem header size0 its it mem' :
  0 ≤ header → header + 1 + size0 ≤ zlen mem0 →
  same_outside mem0 mem (header + 1) (header + 1 + size0) →
  mem_at mem (Z.to_nat (header + 1)) (ints_bytes its) →
  existsb fst its = existsb fst (its ++ [it]) →
  zlen (ints_bytes its) + intlen_of its ≤ size0 →
  same_outside mem mem' (header + 1 + zlen (ints_bytes its))
    (header + 1 + zlen (ints_bytes its) + intlen_of its) →
  mem_at mem' (Z.to_nat (header + 1 + zlen (ints_bytes its))) (item_bytes (existsb fst its) it) →
  same_outside mem0 mem' (header + 1) (header + 1 + size0) ∧
  mem_at mem' (Z.to_nat (header + 1)) (ints_bytes (its ++ [it])).
Proof.
  intros Hh Hlen Hs Hat Hex Hroom Hs' Hat'. pose proof (zlen_nonneg (ints_bytes its)). split.
  - eapply same_outside_trans; [exact Hs|exact Hs'|lia..].
  - rewrite ints_bytes_snoc by done. apply mem_at_appz; [lia|]. split; [|done].
    eapply mem_at_frame; [exact Hs'| |done]. lia.
Qed.

Lemma ints_turn_rel mem0 header size0 args s r :
  0 ≤ header → header + 1 + size0 ≤ zlen mem0 →
  a_type args ≠ SPROTO_TSTRING → a_type args ≠ SPROTO_TSTRUCT →
  ints_rel mem0 header size0 s r →
  orel (turn_rel (ints_rel mem0 header size0) (ints_out mem0 header size0))
    (ints_turn cb args header s) (ref_ints_turn cb args size0 r).
Proof.
  intros Hh Hlen Hty1 Hty2. destruct s as [ud mem buffer size index intlen], r as [ud2 its].
  intros (Hud & Hil & Hix & Hbuf & Hsz & Hsz0 & Hs & Hat). cbn in *. subst.
  unfold ints_turn, ref_ints_turn.
  pose proof (Hcb ud2 (arg_set args 8 (zlen its + 1))) as Hans.
  destruct (cb ud2 _) as [ud' a]. cbn in Hans. pose proof (ints_bytes_zlen its) as Hbz.
  pose proof (zlen_nonneg its). pose proof (zlen_nonneg (ints_bytes its)).
  pose proof Hs as [Hml _]. destruct a as [| | |v|v|bs]; cbn [ret].
  - (* nil *)
    cbn. constructor. cbn. split_and!; try done. exists its. split_and!; done || lia.
  - cbn. by constructor.
  - cbn. by constructor.
  - (* a 32-bit integer *)
    cbn [Z.leb SIZEOF_INT32 Z.compare]. destruct (Z.ltb_spec (size0 - zlen (ints_bytes its)) SIZEOF_INT64);
      [by constructor|].
    cbn [Z.eqb SIZEOF_INT32 Pos.eqb union_u32]. bsimpl. unfold SIZEOF_INT64 in *.
    destruct (asets_spec mem (header + 1 + zlen (ints_bytes its)) (le32 v)) as (m1 & -> & Hs1 & Hat1);
      [lia|rewrite le32_zlen; lia|]. bsimpl. rewrite le32_zlen in Hs1.
    destruct (intlen_cases its) as [[He Hi]|[He Hi]]; rewrite Hi; cbn [Z.eqb Pos.eqb].
    + unfold uint32_to_uint64. fold (sign_ext v). pose proof Hs1 as [Hl1 _].
      destruct (asets_spec m1 (header + 1 + zlen (ints_bytes its) + 4) (sign_ext v))
        as (m2 & -> & Hs2 & Hat2); [lia|rewrite sign_ext_zlen; lia|].
      rewrite sign_ext_zlen in Hs2. bsimpl. constructor. cbn.
      assert (Hex : existsb fst its = existsb fst (its ++ [(false, v)])).
      { rewrite existsb_app, He. done. }
      destruct (ints_append mem0 mem header size0 its (false, v) m2) as [Hg1 Hg2];
        [done|lia|done|done|done|lia| | |].
      { rewrite Hi. eapply same_outside_trans; [exact Hs1|exact Hs2|lia..]. }
      { rewrite He. cbn. apply mem_at_appz; [lia|]. rewrite le32_zlen. split; [|done].
        eapply mem_at_frame; [exact Hs2| |done]. rewrite le32_zlen. lia. }
      unfold ints_rel. cbn. rewrite intlen_snoc, !ints_bytes_zlen, intlen_snoc, !zlen_app.
      cbn [fst]. change (zlen [(false, v)]) with 1. unfold SIZEOF_INT64. split_and!; done || lia.
    + bsimpl. constructor. cbn.
      assert (Hex : existsb fst its = existsb fst (its ++ [(false, v)])).
      { rewrite existsb_app, He. done. }
      destruct (ints_append mem0 mem header size0 its (false, v) m1) as [Hg1 Hg2];
        [done|lia|done|done|done|lia| | |].
      { by rewrite Hi. }
      { by rewrite He. }
      unfold ints_rel. cbn. rewrite intlen_snoc, !ints_bytes_zlen, intlen_snoc, !zlen_app.
      cbn [fst]. change (zlen [(false, v)]) with 1. unfold SIZEOF_INT64. split_and!; done || lia.
  - (* a 64-bit integer *)
    cbn [Z.leb SIZEOF_INT64 Z.compare]. unfold SIZEOF_INT64, SIZEOF_INT32 in *.
    destruct (Z.ltb_spec (size0 - zlen (ints_bytes its)) 8); [by constructor|].
    cbn [Z.eqb Pos.eqb negb union_u64]. bsimpl.
    destruct (intlen_cases its) as [[He Hi]|[He Hi]]; rewrite Hi; cbn [Z.eqb Pos.eqb andb].
    + destruct (asets_spec mem (header + 1 + zlen (ints_bytes its)) (le64 v)) as (m1 & -> & Hs1 & Hat1);
        [lia|rewrite le64_zlen; lia|]. bsimpl. rewrite le64_zlen in Hs1. constructor. cbn.
      assert (Hex : existsb fst its = existsb fst (its ++ [(true, v)])).
      { rewrite existsb_app, He. done. }
      destruct (ints_append mem0 mem header size0 its (true, v) m1) as [Hg1 Hg2];
        [done|lia|done|done|done|lia| | |].
      { by rewrite Hi. }
      { by rewrite He. }
      unfold ints_rel. cbn. rewrite intlen_snoc, !ints_bytes_zlen, intlen_snoc, !zlen_app.
      cbn [fst]. change (zlen [(true, v)]) with 1. unfold SIZEOF_INT64. split_and!; done || lia.
    + replace (zlen its + 1 - 1) with (zlen its) by lia. rewrite Hi in Hbz.
      destruct (Z.ltb_spec (size0 - zlen (ints_bytes its) - zlen its * 4) 8); [by constructor|].
      destruct (rearrange_spec its mem header) as (m1 & Hr & Hs1 & Hat1); [done|lia|done|done|].
      replace (λ k : Z, rearrange_turn header (zlen its + 1 - 2 - k))
        with (λ k : Z, rearrange_turn header (zlen its - 1 - k)).
      2:{ assert (Hx : zlen its + 1 - 2 = zlen its - 1) by lia. by rewrite Hx. }
      rewrite Hr. bsimpl. pose proof Hs1 as [Hl1 _].
      destruct (asets_spec m1 (header + 1 + zlen (ints_bytes its) + zlen its * 4) (le64 v))
        as (m2 & -> & Hs2 & Hat2); [lia|rewrite le64_zlen; lia|].
      rewrite le64_zlen in Hs2. bsimpl. constructor. cbn.
      assert (Hib : ints_bytes (its ++ [(true, v)]) = concat (item_bytes true <$> its) ++ le64 v).
      { unfold ints_bytes. rewrite existsb_app, He. cbn. rewrite fmap_app, concat_app. cbn.
        by rewrite app_nil_r. }
      unfold ints_rel. cbn. rewrite intlen_snoc, Hib, !zlen_app, !concat_item_zlen, le64_zlen.
      cbn [fst]. change (zlen [(true, v)]) with 1. unfold SIZEOF_INT64. split_and!; try done; try lia.
      * apply (same_outside_trans _ m1 _ (header + 1) (header + 1 + size0)
          (header + 1 + zlen (ints_bytes its) + zlen its * 4)
          (header + 1 + zlen (ints_bytes its) + zlen its * 4 + 8)); [|exact Hs2|lia..].
        eapply same_outside_trans; [exact Hs|exact Hs1|lia..].
      * apply mem_at_appz; [lia|]. rewrite concat_item_zlen. split.
        -- eapply mem_at_frame; [exact Hs2| |done]. rewrite concat_item_zlen. lia.
        -- eapply (eq_rect _ (λ x, mem_at m2 (Z.to_nat x) _)); [exact Hat2|]. lia.
  - destruct Hans as [[?|?] _]; done.
Qed.

(** The end of an array that was encoded from [buffer] on. *)
Definition arr_out (mem0 : list Z) (buffer size : Z) (o : UD * list Z * (Z + Z)) (r : UD * ares)
    : Prop :=
  let '(ud, mem, res) := o in
  ud = r.1 ∧ same_outside mem0 mem buffer (buffer + size) ∧
  match res, r.2 with
  | inr z, AFail => z = -1
  | inr z, ANone => z = 0
  | inl b, AItems bs =>
      b = buffer + zlen bs ∧ zlen bs ≤ size ∧ mem_at mem (Z.to_nat buffer) bs
  | _, _ => False
  end.

Definition arr_res (o : option (Z * bool)) : Z + Z :=
  match o with
  | None => inr (-1)
  | Some (b, noarray) => if noarray then inr 0 else inl b
  end.

Lemma integer_array_rel fuel ud args mem buffer size :
  0 ≤ buffer → 0 ≤ size → buffer + size ≤ zlen mem →
  a_type args ≠ SPROTO_TSTRING → a_type args ≠ SPROTO_TSTRUCT →
  orel (arr_out mem buffer size)
    ('(ud', mem', o) ← encode_integer_array cb fuel ud args mem buffer size;
     Ret (ud', mem', arr_res o))
    (if size <? 1 then Ret (ud, AFail)
     else loop fuel (ref_ints_turn cb args (size - 1)) (ud, [])).
Proof.
  intros Hb Hs Hlen Ht1 Ht2. unfold encode_integer_array.
  destruct (Z.ltb_spec size 1).
  { bsimpl. constructor. split_and!; [done|apply same_outside_refl|done]. }
  assert (Hloop := loop_sim (ints_rel mem buffer (size - 1)) (ints_out mem buffer (size - 1))
    (ints_turn cb args buffer) (ref_ints_turn cb args (size - 1))).
  ospecialize (Hloop _).
  { intros s1 s2. apply ints_turn_rel; done || lia. }
  specialize (Hloop fuel (MkInts ud mem (buffer + 1) (size - 1) 1 SIZEOF_INT32) (ud, [])).
  ospecialize (Hloop _).
  { unfold ints_rel. cbn. change (zlen (ints_bytes [])) with 0. change (zlen []) with 0.
    split_and!; done || lia. }
  destruct Hloop as [[[ud' mem'] o] [ud2 r] (Hud & Hso & Hres)|]; [|constructor].
  cbn in Hud, Hres. subst ud2. bsimpl.
  destruct o as [[[b l] [|]]|], r as [| |bs]; try done.
  - bsimpl. pose proof Hso as [Hl _]. destruct (b =? buffer + 1).
    + bsimpl. constructor. cbn. split_and!; [done| |done].
      eapply same_outside_mono; [exact Hso|lia..].
    + destruct (aset_spec mem' buffer l) as (m2 & -> & Hs2 & _); [lia|]. bsimpl. constructor.
      cbn. split_and!; [done| |done]. eapply same_outside_trans; [exact Hso|exact Hs2|lia..].
  - destruct Hres as (its & -> & -> & -> & Hfit & Hat).
    pose proof Hso as [Hl _]. bsimpl. pose proof (ints_bytes_zlen its) as Hbz.
    pose proof (zlen_nonneg its). pose proof (zlen_nonneg (ints_bytes its)).
    destruct its as [|it its'].
    + change (zlen (ints_bytes [])) with 0. rewrite Z.add_0_r, Z.eqb_refl. bsimpl. constructor.
      cbn. change (zlen []) with 0. split_and!; try done; try lia.
      eapply same_outside_mono; [exact Hso|lia..].
    + set (its := it :: its') in *. assert (0 < zlen its) by (unfold its; rewrite zlen_cons; pose proof (zlen_nonneg its'); lia).
      rewrite (proj2 (Z.eqb_neq _ _)) by (destruct (intlen_cases its) as [[_ Hi]|[_ Hi]]; rewrite Hi in Hbz; lia).
      destruct (aset_spec mem' buffer (intlen_of its)) as (m2 & -> & Hs2 & Hat2); [lia|].
      bsimpl. constructor. cbn [arr_out arr_res fst snd].
      assert (Hp : ints_payload its = intlen_of its :: ints_bytes its) by done.
      rewrite Hp, zlen_cons. split_and!; try done; try lia.
      * eapply same_outside_trans; [exact Hso|exact Hs2|lia..].
      * change (intlen_of its :: ints_bytes its) with ([intlen_of its] ++ ints_bytes its).
        apply mem_at_appz; [lia|]. split; [done|]. change (zlen [intlen_of its]) with 1.
        eapply mem_at_frame; [exact Hs2| |done]. lia.
  - constructor. cbn. split_and!; [done| |done]. eapply same_outside_mono; [exact Hso|lia..].
Qed.

(** The loop of [encode_array_object] when [bss] have been encoded. *)
Definition objs_rel (mem0 : list Z) (buffer0 size0 : Z) (s : UD * list Z * Z * Z * Z)
    (r : UD * list (list Z)) : Prop :=
  let '(ud, mem, buffer, size, index) := s in
  let bss := r.2 in
  ud = r.1 ∧ buffer = buffer0 + zlen (objs_bytes bss) ∧ size = size0 - zlen (objs_bytes bss) ∧
  0 ≤ size ∧ index = zlen bss + 1 ∧
  same_outside mem0 mem buffer0 (buffer0 + size0) ∧ mem_at mem (Z.to_nat buffer0) (objs_bytes bss).

Lemma objs_bytes_snoc bss bs :
  objs_bytes (bss ++ [bs]) = objs_bytes bss ++ le32 (zlen bs) ++ bs.
Proof. unfold objs_bytes. rewrite fmap_app, concat_app. cbn. by rewrite app_nil_r. Qed.

(** The callback's bytes behind their length, in the room left. *)
Lemma length_prefixed mem0 mem off size bs :
  0 ≤ off → SIZEOF_LENGTH + zlen bs ≤ size → off + size ≤ zlen mem →
  same_outside mem0 mem off (off + size) →
  ∃ m1 m2, mwrite mem (off + SIZEOF_LENGTH) bs = Ret m1 ∧
    fill_size m1 off (zlen bs) = Ret (zlen bs + SIZEOF_LENGTH, m2) ∧
    same_outside mem0 m2 off (off + size) ∧ mem_at m2 (Z.to_nat off) (le32 (zlen bs) ++ bs) ∧
    same_outside mem m2 off (off + size).
Proof.
  unfold SIZEOF_LENGTH. intros Ho Hroom Hlen Hs. pose proof (zlen_nonneg bs).
  destruct (mwrite_spec mem (off + 4) bs) as (m1 & Hw & Hs1 & Hat1); [lia..|].
  pose proof Hs1 as [Hl1 _]. unfold fill_size.
  destruct (asets_spec m1 off (le32 (zlen bs))) as (m2 & Hf & Hs2 & Hat2);
    [lia|rewrite le32_zlen; lia|]. rewrite le32_zlen in Hs2.
  exists m1, m2. rewrite Hf. bsimpl.
  assert (Hs12 : same_outside mem m2 off (off + size))
    by (eapply same_outside_trans; [exact Hs1|exact Hs2|lia..]).
  split_and!; try done.
  - eapply same_outside_trans; [exact Hs|exact Hs12|lia..].
  - apply mem_at_appz; [lia|]. split; [done|]. rewrite le32_zlen.
    eapply mem_at_frame; [exact Hs2| |done]. lia.
Qed.

Lemma objs_turn_rel mem0 buffer0 size0 args s r :
  0 ≤ buffer0 → buffer0 + size0 ≤ zlen mem0 →
  a_type args = SPROTO_TSTRING ∨ a_type args = SPROTO_TSTRUCT →
  objs_rel mem0 buffer0 size0 s r →
  orel (turn_rel (objs_rel mem0 buffer0 size0)
          (λ o r, arr_out mem0 buffer0 size0 (o.1, arr_res o.2) r))
    (objs_turn cb args s) (ref_objs_turn cb args size0 r).
Proof.
  intros Hb Hlen Hty. destruct s as [[[[ud mem] buffer] size] index], r as [ud2 bss].
  intros (Hud & Hbuf & Hsz & Hsz0 & Hix & Hs & Hat). cbn in Hud, Hbuf, Hsz, Hix, Hat. subst.
  unfold objs_turn, ref_objs_turn. pose proof (zlen_nonneg (objs_bytes bss)).
  unfold SIZEOF_LENGTH in *. destruct (Z.ltb_spec (size0 - zlen (objs_bytes bss)) 4).
  { by constructor. }
  pose proof (Hcb ud2 (arg_set args (size0 - zlen (objs_bytes bss) - 4) (zlen bss + 1))) as Hans.
  destruct (cb ud2 _) as [ud' a]. cbn in Hans.
  destruct a as [| | |v|v|bs]; cbn [ret store_bytes]; bsimpl.
  1-3: unfold SPROTO_CB_NIL, SPROTO_CB_NOARRAY, SPROTO_CB_ERROR;
    cbn [Z.ltb Z.eqb Z.compare Pos.eqb]; constructor; cbn; split_and!; done || lia.
  1-2: cbn in Hans; naive_solver.
  destruct Hans as (_ & Hbs & Hfit). cbn in Hfit. pose proof (zlen_nonneg bs).
  destruct (Z.leb_spec (zlen bs) (size0 - zlen (objs_bytes bss) - 4)); [|lia].
  pose proof Hs as [Hml _].
  destruct (length_prefixed mem mem (buffer0 + zlen (objs_bytes bss)) (size0 - zlen (objs_bytes bss)) bs)
    as (m1 & m2 & Hw & Hf & Hs2 & Hat2 & _); [lia|unfold SIZEOF_LENGTH; lia|lia|apply same_outside_refl|].
  unfold SIZEOF_LENGTH in Hw, Hf. rewrite Hw. bsimpl.
  rewrite (proj2 (Z.ltb_ge (zlen bs) 0)) by lia. rewrite Hf. bsimpl. constructor.
  cbn. rewrite objs_bytes_snoc, !zlen_app, le32_zlen. change (zlen [bs]) with 1.
  split_and!; try done; try lia.
  - eapply same_outside_trans; [exact Hs|exact Hs2|lia..].
  - apply mem_at_appz; [lia|]. split; [|done]. eapply mem_at_frame; [exact Hs2| |done]. lia.
Qed.

Definition bools_rel (mem0 : list Z) (buffer0 size0 : Z) (s : UD * list Z * Z * Z * Z)
    (r : UD * list Z) : Prop :=
  let '(ud, mem, buffer, size, index) := s in
  let vs := r.2 in
  ud = r.1 ∧ buffer = buffer0 + zlen vs ∧ size = size0 - zlen vs ∧
  0 ≤ size ∧ index = zlen vs + 1 ∧
  same_outside mem0 mem buffer0 (buffer0 + size0) ∧ mem_at mem (Z.to_nat buffer0) vs.

Lemma bools_turn_rel mem0 buffer0 size0 args s r :
  0 ≤ buffer0 → buffer0 + size0 ≤ zlen mem0 → a_type args = SPROTO_TBOOLEAN →
  bools_rel mem0 buffer0 size0 s r →
  orel (turn_rel (bools_rel mem0 buffer0 size0) (arr_out mem0 buffer0 size0))
    (bools_turn cb args s) (ref_bools_turn cb args size0 r).
Proof.
  intros Hb Hlen Hty. destruct s as [[[[ud mem] buffer] size] index], r as [ud2 vs].
  intros (Hud & Hbuf & Hsz & Hsz0 & Hix & Hs & Hat). cbn in Hud, Hbuf, Hsz, Hix, Hat. subst.
  unfold bools_turn, ref_bools_turn. pose proof (zlen_nonneg vs).
  pose proof (Hcb ud2 (arg_set args 4 (zlen vs + 1))) as Hans.
  destruct (cb ud2 _) as [ud' a]. cbn in Hans.
  destruct a as [| | |v|v|bs]; cbn [ret].
  1-3: unfold SPROTO_CB_NIL, SPROTO_CB_NOARRAY, SPROTO_CB_ERROR;
    cbn [Z.ltb Z.eqb Z.compare Pos.eqb]; constructor; cbn; split_and!; done || lia.
  - cbn [Z.ltb SIZEOF_INT32 Z.compare]. destruct (Z.ltb_spec (size0 - zlen vs) 1).
    { by constructor. }
    cbn [union_u32]. bsimpl. pose proof Hs as [Hml _].
    destruct (aset_spec mem (buffer0 + zlen vs) (if v =? 0 then 0 else 1)) as (m2 & -> & Hs2 & Hat2);
      [lia|]. bsimpl. constructor. cbn. rewrite !zlen_app.
    set (c := if v =? 0 then 0 else 1) in *. change (zlen [c]) with 1.
    split_and!; try done; try lia.
    + eapply same_outside_trans; [exact Hs|exact Hs2|lia..].
    + apply mem_at_appz; [lia|]. split; [|done]. eapply mem_at_frame; [exact Hs2| |done]. lia.
  - destruct Hans as (_ & _ & _ & Hx). specialize (Hx Hty). done.
  - destruct Hans as ([Hx|Hx] & _); cbn in Hx; rewrite Hx in Hty; done.
Qed.

(** The size a helper returns, and what it has written. *)
Definition sz_out (mem0 : list Z) (data size : Z) (o : Z * UD * list Z) (r : UD * fres) : Prop :=
  let '(sz, ud, mem) := o in
  ud = r.1 ∧ same_outside mem0 mem data (data + size) ∧
  match r.2 with
  | FErr => sz < 0
  | FSkip => sz = 0
  | FData bs => sz = zlen bs ∧ 0 < sz ≤ size ∧ mem_at mem (Z.to_nat data) bs
  | _ => False
  end.

Lemma encode_array_rel fuel ud args mem data size :
  0 ≤ data → data + size ≤ zlen mem →
  (∃ k, 0 ≤ k ≤ SPROTO_TSTRUCT ∧ a_type args = k) →
  orel (sz_out mem data size)
    (encode_array cb fuel ud args mem data size) (ref_array cb fuel ud args size).
Proof.
  intros Hd Hlen (k & Hk & Hty). unfold encode_array, ref_array.
  unfold SIZEOF_LENGTH, SPROTO_TSTRUCT in *. destruct (Z.ltb_spec size 4).
  { constructor. split_and!; [done|apply same_outside_refl|done]. }
  eapply (orel_bind (arr_out mem (data + 4) (size - 4))).
  - unfold SPROTO_TDOUBLE, SPROTO_TINTEGER, SPROTO_TBOOLEAN. rewrite Hty.
    destruct (Z.eqb_spec k 3); [|destruct (Z.eqb_spec k 0)]; cbn [orb].
    1-2: apply (integer_array_rel fuel ud args mem (data + 4) (size - 4)); try lia;
      rewrite Hty; unfold SPROTO_TSTRING, SPROTO_TSTRUCT; lia.
    destruct (Z.eqb_spec k 1).
    + apply (loop_sim (bools_rel mem (data + 4) (size - 4))).
      * intros s1 s2. apply bools_turn_rel; [lia..|]. unfold SPROTO_TBOOLEAN. lia.
      * cbn. change (zlen []) with 0. split_and!; done || lia.
    + assert (Hl := loop_sim (objs_rel mem (data + 4) (size - 4))
        (λ o r, arr_out mem (data + 4) (size - 4) (o.1, arr_res o.2) r)
        (objs_turn cb args) (ref_objs_turn cb args (size - 4))).
      ospecialize (Hl _).
      { intros s1 s2. apply objs_turn_rel; [lia..|]. unfold SPROTO_TSTRING, SPROTO_TSTRUCT. lia. }
      specialize (Hl fuel (ud, mem, data + 4, size - 4, 1) (ud, [])). ospecialize (Hl _).
      { cbn. change (zlen (objs_bytes [])) with 0. change (zlen []) with 0.
        split_and!; done || lia. }
      unfold encode_array_object.
      destruct Hl as [[[ud' mem'] o] r Hres|]; [|constructor]. bsimpl. by constructor.
  - intros [[ud' mem'] res] [ud2 r] (Hud & Hs & Hres). cbn in Hud, Hres. subst ud2. bsimpl.
    assert (Hs' : same_outside mem mem' data (data + size))
      by (eapply same_outside_mono; [exact Hs|lia..]).
    destruct res as [b|z], r as [| |bs]; try done.
    + destruct Hres as (-> & Hfit & Hat). unfold fill_size. pose proof Hs as [Hl _].
      replace (data + 4 + zlen bs - (data + 4)) with (zlen bs) by lia. pose proof (zlen_nonneg bs).
      destruct (asets_spec mem' data (le32 (zlen bs))) as (m2 & -> & Hs2 & Hat2);
        [lia|rewrite le32_zlen; lia|]. rewrite le32_zlen in Hs2. bsimpl. constructor.
      cbn. rewrite zlen_app, le32_zlen. unfold SIZEOF_LENGTH. split_and!; try done; try lia.
      * eapply same_outside_trans; [exact Hs'|exact Hs2|lia..].
      * apply mem_at_appz; [lia|]. split; [done|]. rewrite le32_zlen.
        eapply mem_at_frame; [exact Hs2| |done]. lia.
    + subst z. by constructor.
    + subst z. by constructor.
Qed.

Lemma encode_object_rel ud args mem data size :
  0 ≤ data → data + size ≤ zlen mem →
  a_type args = SPROTO_TSTRING ∨ a_type args = SPROTO_TSTRUCT →
  orel (sz_out mem data size)
    (encode_object cb ud args mem data size) (ref_object cb ud args size).
Proof.
  intros Hd Hlen Hty. unfold encode_object, ref_object. unfold SIZEOF_LENGTH.
  destruct (Z.ltb_spec size 4).
  { constructor. split_and!; [done|apply same_outside_refl|done]. }
  pose proof (Hcb ud (arg_set args (size - 4) (a_index args))) as Hans.
  destruct (cb ud _) as [ud' a]. cbn in Hans.
  destruct a as [| | |v|v|bs]; cbn [ret store_bytes]; bsimpl.
  1-3: unfold SPROTO_CB_NIL, SPROTO_CB_NOARRAY, SPROTO_CB_ERROR;
    cbn [Z.ltb Z.eqb Z.compare Pos.eqb]; constructor; cbn; split_and!; done || lia.
  1-2: cbn in Hans; naive_solver.
  destruct Hans as (_ & Hbs & Hfit). cbn in Hfit. pose proof (zlen_nonneg bs).
  destruct (length_prefixed mem mem data size bs) as (m1 & m2 & Hw & Hf & Hs2 & Hat2 & _);
    [lia|unfold SIZEOF_LENGTH; lia|lia|apply same_outside_refl|].
  unfold SIZEOF_LENGTH in Hw. rewrite Hw. bsimpl.
  rewrite (proj2 (Z.ltb_ge (zlen bs) 0)), (proj2 (Z.leb_le (zlen bs) (size - 4))) by lia.
  cbn [assert_true]. bsimpl. rewrite Hf. bsimpl. constructor. cbn.
  rewrite zlen_app, le32_zlen. unfold SIZEOF_LENGTH. split_and!; done || lia.
Qed.

(** What [encode_field] reports for a field of the reference. *)
Definition field_out (mem0 : list Z) (data size : Z) (o : UD * list Z * (option (Z * Z) + Z))
    (r : UD * fres) : Prop :=
  let '(ud, mem, res) := o in
  ud = r.1 ∧ same_outside mem0 mem data (data + size) ∧
  match res, r.2 with
  | inl None, FSkip => True
  | inl (Some (sz, value)), FErr => sz < 0
  | inl (Some (sz, value)), FSkip => sz = 0
  | inl (Some (sz, value)), FVal v => sz = 2 ∧ value = v ∧ 0 < v < 65536
  | inl (Some (sz, value)), FData bs =>
      value = 0 ∧ sz = zlen bs ∧ 0 < sz ≤ size ∧ mem_at mem (Z.to_nat data) bs
  | inr z, FErr => z = -1
  | inr z, FRet0 => z = 0
  | _, _ => False
  end.

Lemma sz_field mem data size sz ud mem' r :
  sz_out mem data size (sz, ud, mem') r → field_out mem data size (ud, mem', inl (Some (sz, 0))) r.
Proof. destruct r as [ud2 []]; cbn; naive_solver. Qed.

(** A map field refers to a type with two fields. *)
Definition map_ok (f : field) : Prop := ∃ kv, map_names types f = Ret kv.

Lemma array_type t k :
  0 ≤ k < 5 → t = k ∨ t = k + SPROTO_TARRAY →
  (t = k ∧ (Z.land t SPROTO_TARRAY =? 0) = true) ∨
  ((Z.land t SPROTO_TARRAY =? 0) = false ∧ Z.land t (Z.lnot SPROTO_TARRAY) = k).
Proof.
  intros Hk. assert (k = 0 ∨ k = 1 ∨ k = 2 ∨ k = 3 ∨ k = 4) as Hk' by lia.
  unfold SPROTO_TARRAY. destruct Hk' as [->|[->|[->|[->| ->]]]]; intros [->| ->]; vm_compute; auto.
Qed.

(** The base type of an imported field. *)
Lemma field_type_base n f :
  field_type_ok n f → ∃ k, 0 ≤ k < 5 ∧ (f_type f = k ∨ f_type f = k + SPROTO_TARRAY).
Proof.
  intros [(_ & k & Hk & Hty)|(v & _ & _ & Hty)].
  - exists k. unfold SPROTO_TSTRUCT in Hk. split; [lia|done].
  - by exists SPROTO_TSTRUCT.
Qed.

Lemma encode_field_rel n fuel f ud mem data size :
  0 ≤ data → data + size ≤ zlen mem → field_type_ok n f → map_ok f →
  orel (field_out mem data size)
    (encode_field types cb fuel f ud mem data size) (ref_field types cb fuel f ud size).
Proof.
  intros Hd Hlen Hft ([mk mv] & Hmap). destruct (field_type_base _ _ Hft) as (k & Hk & Hty).
  unfold encode_field, ref_field.
  destruct (array_type (f_type f) k Hk Hty) as [[Htk ->]|[-> Htk]]; cbn [negb].
  - unfold SPROTO_TDOUBLE, SPROTO_TINTEGER, SPROTO_TBOOLEAN, SPROTO_TSTRUCT, SPROTO_TSTRING.
    rewrite Htk. destruct ((k =? 3) || (k =? 0) || (k =? 1)) eqn:Hint.
    + pose proof (Hcb ud (arg_set (MkArg (f_name f) (f_tag f) k (f_st f) 0 0 (f_key f) (f_extra f)
        None None) 8 0)) as Hans.
      destruct (cb ud _) as [ud' a]. cbn in Hans.
      destruct a as [| | |v|v|bs]; cbn [ret].
      1-3: unfold SPROTO_CB_NIL, SPROTO_CB_NOARRAY, SPROTO_CB_ERROR;
        cbn [Z.ltb Z.eqb Z.compare Pos.eqb]; constructor; cbn; split_and!; done || lia.
      * cbn [Z.ltb Z.eqb Z.compare Pos.eqb SIZEOF_INT32 union_u32]. bsimpl.
        destruct (Z.ltb_spec v 32767).
        { destruct Hans as [Hv _]. constructor. cbn. split_and!; try done; lia. }
        unfold encode_integer, SIZEOF_LENGTH. change (4 + 4) with 8.
        destruct (Z.ltb_spec size 8).
        { bsimpl. constructor. cbn. split_and!; done. }
        destruct (asets_spec mem (data + 4) (le32 v)) as (m1 & -> & Hs1 & Hat1);
          [lia|rewrite le32_zlen; lia|]. rewrite le32_zlen in Hs1. bsimpl.
        unfold fill_size. pose proof Hs1 as [Hl1 _].
        destruct (asets_spec m1 data (le32 4)) as (m2 & -> & Hs2 & Hat2);
          [lia|rewrite le32_zlen; lia|]. rewrite le32_zlen in Hs2. bsimpl. constructor. cbn.
        rewrite zlen_app, !le32_zlen. split_and!; try done; try lia.
        -- eapply same_outside_trans; [exact Hs1|exact Hs2|lia..].
        -- apply mem_at_appz; [lia|]. split; [done|]. rewrite le32_zlen.
           eapply mem_at_frame; [exact Hs2| |done]. lia.
      * cbn [Z.ltb Z.eqb Z.compare Pos.eqb SIZEOF_INT32 SIZEOF_INT64 union_u64]. bsimpl.
        unfold encode_uint64, SIZEOF_LENGTH. change (4 + 8) with 12.
        destruct (Z.ltb_spec size 12).
        { bsimpl. constructor. cbn. split_and!; done. }
        destruct (asets_spec mem (data + 4) (le64 v)) as (m1 & -> & Hs1 & Hat1);
          [lia|rewrite le64_zlen; lia|]. rewrite le64_zlen in Hs1. bsimpl.
        unfold fill_size. pose proof Hs1 as [Hl1 _].
        destruct (asets_spec m1 data (le32 8)) as (m2 & -> & Hs2 & Hat2);
          [lia|rewrite le32_zlen; lia|]. rewrite le32_zlen in Hs2. bsimpl. constructor. cbn.
        rewrite zlen_app, le32_zlen, le64_zlen. split_and!; try done; try lia.
        -- eapply same_outside_trans; [exact Hs1|exact Hs2|lia..].
        -- apply mem_at_appz; [lia|]. split; [done|]. rewrite le32_zlen.
           eapply mem_at_frame; [exact Hs2| |done]. lia.
      * destruct Hans as ([Hx|Hx] & _); cbn in Hx; rewrite Hx in Hint; done.
    + assert (Hk24 : k = 4 ∨ k = 2).
      { destruct (Z.eqb_spec k 3), (Z.eqb_spec k 0), (Z.eqb_spec k 1); cbn in Hint; done || lia. }
      assert (Hobj : (k =? 4) || (k =? 2) = true) by (destruct Hk24 as [->| ->]; done).
      rewrite Hobj.
      assert (Ho := encode_object_rel ud (MkArg (f_name f) (f_tag f) k (f_st f) 0 0 (f_key f) (f_extra f)
        None None) mem data size Hd Hlen). ospecialize (Ho _).
      { cbn. unfold SPROTO_TSTRING, SPROTO_TSTRUCT. lia. }
      destruct Ho as [[[sz ud'] mem'] r Hr|]; [|constructor]. bsimpl. constructor. by apply sz_field.
  - rewrite Hmap, Htk. bsimpl.
    assert (Ho := encode_array_rel fuel ud (MkArg (f_name f) (f_tag f) k (f_st f) 0 0 (f_key f)
      (f_extra f) mk mv) mem data size Hd Hlen). ospecialize (Ho _).
    { exists k. split; [unfold SPROTO_TSTRUCT; lia|done]. }
    destruct Ho as [[[sz ud'] mem'] r Hr|]; [|constructor]. bsimpl. constructor. by apply sz_field.
Qed.

(** The words of the header fit its [maxn] entries: a word per field, and a
    skip marker only where a tag or a field is left out. *)
Definition recs_inv (tags : list Z) (recs : list Z) (lasttag : Z) : Prop :=
  let cur := List.last tags (-1) in
  -1 ≤ lasttag ≤ cur ∧
  zlen recs + (if lasttag <? cur then 1 else 0) ≤ zlen tags + gaps (-1) tags ∧
  Forall (λ w, 0 ≤ w < 65536) recs.

Lemma recs_inv_skip tags recs lasttag tag :
  recs_inv tags recs lasttag → List.last tags (-1) < tag → recs_inv (tags ++ [tag]) recs lasttag.
Proof.
  intros (Hl & Hn & Hf) Ht. unfold recs_inv. rewrite last_last, gaps_snoc, zlen_app.
  change (zlen [tag]) with 1. split_and!; try lia; [|done].
  destruct (lasttag <? tag), (lasttag <? _), (_ + 1 <? tag); lia.
Qed.

Lemma recs_inv_field tags recs lasttag tag v :
  recs_inv tags recs lasttag → List.last tags (-1) < tag < 2 ^ 15 → 0 ≤ v < 65536 →
  recs_inv (tags ++ [tag]) (recs ++ tag_words lasttag tag v) tag.
Proof.
  intros (Hl & Hn & Hf) Ht Hv. unfold recs_inv. rewrite last_last, gaps_snoc, !zlen_app, Z.ltb_irrefl.
  change (zlen [tag]) with 1. split_and!; try lia.
  - unfold tag_words. rewrite zlen_app. change (zlen [v]) with 1.
    destruct (Z.ltb_spec 0 (tag - lasttag - 1));
      [change (zlen [(tag - lasttag - 1 - 1) * 2 + 1]) with 1|change (zlen []) with 0];
      destruct (Z.ltb_spec lasttag (List.last tags (-1)));
      destruct (Z.ltb_spec (List.last tags (-1) + 1) tag); lia.
  - apply Forall_app. split; [done|]. unfold tag_words. apply Forall_app. split; [|by constructor].
    destruct (Z.ltb_spec 0 (tag - lasttag - 1)); constructor; [lia|constructor].
Qed.

(** The loop of [sproto_encode] after the fields with the tags [tags]. *)
Definition enc_rel (mem0 : list Z) (maxn size : Z) (tags : list Z) (s : @enc_state UD) (r : @ref_state UD)
    : Prop :=
  let header_sz := SIZEOF_HEADER + maxn * SIZEOF_FIELD in
  en_ud s = r_ud r ∧ en_lasttag s = r_lasttag r ∧ en_index s = zlen (r_recs r) ∧
  en_data s = header_sz + zlen (r_data r) ∧ en_size s = size - header_sz - zlen (r_data r) ∧
  0 ≤ en_size s ∧ same_outside mem0 (en_mem s) 0 size ∧
  mem_at (en_mem s) 2 (concat (le16 <$> r_recs r)) ∧
  mem_at (en_mem s) (Z.to_nat header_sz) (r_data r) ∧
  recs_inv tags (r_recs r) (r_lasttag r).

Definition early_out (mem0 : list Z) (size : Z) (o : UD * list Z * Z) (r : UD * Z) : Prop :=
  let '(ud, mem, z) := o in
  ud = r.1 ∧ z = r.2 ∧ (z = -1 ∨ z = 0) ∧ same_outside mem0 mem 0 size.

Lemma le16_concat_zlen ws : zlen (concat (le16 <$> ws)) = 2 * zlen ws.
Proof.
  induction ws as [|w ws IH]; [done|]. cbn [fmap list_fmap concat].
  rewrite zlen_app, zlen_cons, le16_zlen, IH. lia.
Qed.

Lemma tag_words_zlen lasttag tag v : 1 ≤ zlen (tag_words lasttag tag v) ≤ 2.
Proof. unfold tag_words. destruct (0 <? _); cbn; rewrite !zlen_cons; change (zlen (@nil Z)) with 0; lia. Qed.

(** The writes of one header entry: a skip marker, if needed, and the value. *)
Lemma write_words mem lasttag tag v index :
  0 ≤ index → 2 + 2 * index + 2 * zlen (tag_words lasttag tag v) ≤ zlen mem →
  tag - lasttag ≤ 2 ^ 15 →
  ∃ mem', (if 0 <? tag - lasttag - 1 then
      if 65535 <? (tag - lasttag - 1 - 1) * 2 + 1 then Ret None else
      m ← asets mem (SIZEOF_HEADER + SIZEOF_FIELD * index) (le16 ((tag - lasttag - 1 - 1) * 2 + 1));
      m' ← asets m (SIZEOF_HEADER + SIZEOF_FIELD * index + SIZEOF_FIELD) (le16 v);
      Ret (Some (m', index + 1 + 1))
    else
      m' ← asets mem (SIZEOF_HEADER + SIZEOF_FIELD * index) (le16 v);
      Ret (Some (m', index + 1))) = Ret (Some (mem', index + zlen (tag_words lasttag tag v))) ∧
    same_outside mem mem' (2 + 2 * index) (2 + 2 * index + 2 * zlen (tag_words lasttag tag v)) ∧
    mem_at mem' (Z.to_nat (2 + 2 * index)) (concat (le16 <$> tag_words lasttag tag v)).
Proof.
  intros Hi Hroom Htag. unfold tag_words in *. unfold SIZEOF_HEADER, SIZEOF_FIELD.
  destruct (Z.ltb_spec 0 (tag - lasttag - 1)).
  - set (t := (tag - lasttag - 1 - 1) * 2 + 1) in *. rewrite zlen_app in *.
    change (zlen [t]) with 1 in *. change (zlen [v]) with 1 in *.
    destruct (Z.ltb_spec 65535 t); [lia|].
    destruct (asets_spec mem (2 + 2 * index) (le16 t)) as (m1 & -> & Hs1 & Hat1);
      [lia|rewrite le16_zlen; lia|]. bsimpl. pose proof Hs1 as [Hl1 _]. rewrite le16_zlen in Hs1.
    destruct (asets_spec m1 (2 + 2 * index + 2) (le16 v)) as (m2 & -> & Hs2 & Hat2);
      [lia|rewrite le16_zlen; lia|]. rewrite le16_zlen in Hs2. bsimpl.
    exists m2. split_and!; [do 3 f_equal; lia| |].
    + eapply same_outside_trans; [exact Hs1|exact Hs2|lia..].
    + cbn [app fmap list_fmap concat]. rewrite app_nil_r. apply mem_at_appz; [lia|].
      rewrite le16_zlen. split; [|done]. eapply mem_at_frame; [exact Hs2| |done].
      rewrite le16_zlen. lia.
  - change (zlen ([] ++ [v])) with 1 in *.
    destruct (asets_spec mem (2 + 2 * index) (le16 v)) as (m1 & -> & Hs1 & Hat1);
      [lia|rewrite le16_zlen; lia|]. bsimpl. rewrite le16_zlen in Hs1. exists m1.
    split_and!; [done|eapply same_outside_mono; [exact Hs1|lia..]|].
    cbn [app fmap list_fmap concat]. by rewrite app_nil_r.
Qed.

Lemma encode_turn_rel n mem0 maxn size fuel f tags s r :
  0 ≤ maxn → size ≤ zlen mem0 → field_type_ok n f → map_ok f →
  List.last tags (-1) < f_tag f < 2 ^ 15 →
  zlen (tags ++ [f_tag f]) + gaps (-1) (tags ++ [f_tag f]) ≤ maxn →
  enc_rel mem0 maxn size tags s r →
  orel (turn_rel (enc_rel mem0 maxn size (tags ++ [f_tag f])) (early_out mem0 size))
    (encode_turn types cb fuel f s)
    (ref_turn types cb fuel (size - (SIZEOF_HEADER + maxn * SIZEOF_FIELD)) f r).
Proof.
  intros Hmax Hsize Hft Hmap Htag Hbound. destruct s as [ud mem data sz index lasttag].
  destruct r as [ud2 recs datas lasttag2].
  intros (Hud & Hlt & Hix & Hdata & Hsz & Hsz0 & Hs & Hrecs & Hdatas & Hinv).
  cbn in Hud, Hlt, Hix, Hdata, Hsz, Hsz0, Hs, Hrecs, Hdatas, Hinv. subst.
  unfold encode_turn, ref_turn. set (H := SIZEOF_HEADER + maxn * SIZEOF_FIELD) in *.
  assert (HH : H = 2 + 2 * maxn) by (unfold H, SIZEOF_HEADER, SIZEOF_FIELD; lia).
  pose proof (zlen_nonneg datas). pose proof (zlen_nonneg recs). pose proof Hs as [Hl _].
  eapply orel_bind; [apply (encode_field_rel n); [lia|lia|done|done]|].
  intros [[ud' mem'] res] [ud3 r] (Hud & Hso & Hres). cbn in Hud, Hres. subst ud3.
  assert (Hs' : same_outside mem0 mem' 0 size)
    by (eapply same_outside_trans; [exact Hs|exact Hso|lia..]).
  destruct Hinv as (Hlast & Hroom & Hwords).
  assert (Hinv : recs_inv tags recs lasttag2) by done.
  assert (Hrecs' : mem_at mem' 2 (concat (le16 <$> recs))).
  { eapply mem_at_frame; [exact Hso| |done]. rewrite le16_concat_zlen.
    rewrite gaps_snoc, zlen_app in Hbound. change (zlen [f_tag f]) with 1 in Hbound.
    destruct (lasttag2 <? _), (_ <? f_tag f); lia. }
  assert (Hdatas' : mem_at mem' (Z.to_nat H) datas).
  { eapply mem_at_frame; [exact Hso| |done]. lia. }
  assert (Hskip : enc_rel mem0 maxn size (tags ++ [f_tag f])
    (MkEnc ud' mem' (H + zlen datas) (size - H - zlen datas) (zlen recs) lasttag2)
    (MkRef ud' recs datas lasttag2)).
  { unfold enc_rel. cbn. split_and!; try done; try lia. apply recs_inv_skip; [done|lia]. }
  (* a field with the value [v] and the data [bs] behind the old ones *)
  assert (Hfield : ∀ v bs, 0 ≤ v < 65536 → zlen datas + zlen bs ≤ size - H →
    mem_at mem' (Z.to_nat (H + zlen datas)) bs →
    ∃ m', (if 0 <? f_tag f - lasttag2 - 1 then
        if 65535 <? (f_tag f - lasttag2 - 1 - 1) * 2 + 1 then Ret None else
        m ← asets mem' (SIZEOF_HEADER + SIZEOF_FIELD * zlen recs) (le16 ((f_tag f - lasttag2 - 1 - 1) * 2 + 1));
        m' ← asets m (SIZEOF_HEADER + SIZEOF_FIELD * zlen recs + SIZEOF_FIELD) (le16 v);
        Ret (Some (m', zlen recs + 1 + 1))
      else
        m' ← asets mem' (SIZEOF_HEADER + SIZEOF_FIELD * zlen recs) (le16 v);
        Ret (Some (m', zlen recs + 1))) = Ret (Some (m', zlen recs + zlen (tag_words lasttag2 (f_tag f) v))) ∧
      enc_rel mem0 maxn size (tags ++ [f_tag f])
        (MkEnc ud' m' (H + zlen datas + zlen bs) (size - H - zlen datas - zlen bs)
           (zlen recs + zlen (tag_words lasttag2 (f_tag f) v)) (f_tag f))
        (MkRef ud' (recs ++ tag_words lasttag2 (f_tag f) v) (datas ++ bs) (f_tag f))).
  { intros v bs Hv Hfit Hat. pose proof (recs_inv_field _ _ _ _ v Hinv Htag Hv) as Hinv'.
    pose proof Hinv' as (_ & Hroom' & _). rewrite !zlen_app, last_last, Z.ltb_irrefl in Hroom'. rewrite zlen_app in Hbound.
    pose proof Hs' as [Hl' _]. pose proof (tag_words_zlen lasttag2 (f_tag f) v).
    destruct (write_words mem' lasttag2 (f_tag f) v (zlen recs)) as (m' & Hw & Hso' & Hat');
      [lia|lia|lia|].
    exists m'. split; [exact Hw|]. unfold enc_rel. cbn. fold H. rewrite !zlen_app.
    pose proof (zlen_nonneg bs). split_and!; try done; try lia.
    - eapply same_outside_trans; [exact Hs'|exact Hso'|lia..].
    - rewrite fmap_app, concat_app. change 2%nat with (Z.to_nat 2). apply mem_at_appz; [lia|].
      rewrite le16_concat_zlen. split; [|done].
      eapply mem_at_frame; [exact Hso'| |done]. rewrite le16_concat_zlen. lia.
    - apply mem_at_appz; [lia|]. split; (eapply mem_at_frame; [exact Hso'| |done]); lia. }
  destruct res as [[[sz value]|]|z], r as [| | |v|bs]; try done.
  - destruct (Z.ltb_spec sz 0); [|lia]. by constructor; cbn; split_and!; try done; left.
  - subst sz. cbn [Z.ltb Z.eqb Z.compare]. by constructor.
  - destruct Hres as (-> & -> & Hv).
    destruct (Hfield v []) as (m' & Hw & Hrel);
      [lia|change (zlen []) with 0; lia|intros k b Hk; by rewrite lookup_nil in Hk|].
    cbn [Z.ltb Z.eqb Z.compare]. rewrite (proj2 (Z.eqb_neq v 0)) by lia.
    change (zlen []) with 0 in Hrel. rewrite !Z.add_0_r, Z.sub_0_r, app_nil_r in Hrel.
    destruct (0 <? _).
    + destruct (65535 <? _); [done|]. destruct (asets mem' _ _) as [m1| | | |] eqn:E1; try done.
      bsimpl. cbn in Hw. destruct (asets m1 _ _) as [m2| | | |] eqn:E2; try done. cbn in Hw.
      injection Hw as -> Hi. bsimpl. constructor. cbn. by rewrite <-Hi in Hrel.
    + destruct (asets mem' _ _) as [m1| | | |] eqn:E1; try done. cbn in Hw.
      injection Hw as -> Hi. bsimpl. constructor. cbn. by rewrite <-Hi in Hrel.
  - destruct Hres as (-> & -> & Hpos & Hat).
    destruct (Hfield 0 bs) as (m' & Hw & Hrel); [lia|lia|done|].
    destruct (Z.ltb_spec (zlen bs) 0); [lia|]. rewrite (proj2 (Z.eqb_neq (zlen bs) 0)) by lia.
    cbn [Z.eqb]. destruct (0 <? _).
    + destruct (65535 <? _); [done|]. destruct (asets mem' _ _) as [m1| | | |] eqn:E1; try done.
      bsimpl. cbn in Hw. destruct (asets m1 _ _) as [m2| | | |] eqn:E2; try done. cbn in Hw.
      injection Hw as -> Hi. bsimpl. constructor. cbn. by rewrite <-Hi in Hrel.
    + destruct (asets mem' _ _) as [m1| | | |] eqn:E1; try done. cbn in Hw.
      injection Hw as -> Hi. bsimpl. constructor. cbn. by rewrite <-Hi in Hrel.
  - by constructor.
  - subst z. constructor. cbn. split_and!; try done. by left.
  - subst z. constructor. cbn. split_and!; try done. by right.
Qed.

Lemma encode_fields_rel n mem0 maxn size fuel fs : ∀ tags s r,
  0 ≤ maxn → size ≤ zlen mem0 →
  (∀ f, f ∈ fs → field_type_ok n f ∧ map_ok f ∧ f_tag f < 2 ^ 15) →
  chain (List.last tags (-1)) (f_tag <$> fs) →
  zlen tags + gaps (-1) tags + zlen fs + gaps (List.last tags (-1)) (f_tag <$> fs) ≤ maxn →
  enc_rel mem0 maxn size tags s r →
  orel (turn_rel (enc_rel mem0 maxn size (tags ++ (f_tag <$> fs))) (early_out mem0 size))
    (encode_fields types cb fuel fs s)
    (ref_fields types cb fuel (size - (SIZEOF_HEADER + maxn * SIZEOF_FIELD)) fs r).
Proof.
  induction fs as [|f fs IH]; intros tags s r Hmax Hsize Hfs Hchain Hbound Hrel.
  { cbn. constructor. cbn. by rewrite app_nil_r. }
  cbn [encode_fields ref_fields]. cbn in Hchain. destruct Hchain as [Hlt Hchain].
  destruct (Hfs f) as (Hft & Hmap & Htag); [set_solver|].
  change (f_tag <$> f :: fs) with (f_tag f :: (f_tag <$> fs)) in *. cbn [gaps] in Hbound.
  rewrite zlen_cons in Hbound. pose proof (zlen_nonneg fs).
  pose proof (gaps_nonneg (f_tag f) (f_tag <$> fs)).
  eapply orel_bind.
  - apply (encode_turn_rel n); try done. rewrite gaps_snoc, zlen_app.
    change (zlen [f_tag f]) with 1. lia.
  - intros o1 o2 Ho. destruct o1 as [s1|[[ud mem] z]], o2 as [s2|[ud2 z2]]; cbn in Ho; try done.
    + specialize (IH (tags ++ [f_tag f]) s1 s2). rewrite last_last, <-app_assoc in IH.
      apply IH; try done.
      * intros g Hg'. apply Hfs. set_solver.
      * rewrite gaps_snoc, zlen_app. change (zlen [f_tag f]) with 1. lia.
    + by constructor.
Qed.

(** The value [sproto_encode] returns, and the message in the buffer. *)
Definition encode_out (mem0 : list Z) (size : Z) (o : Z * UD * list Z) (r : UD * (Z + list Z)) : Prop :=
  let '(z, ud, mem) := o in
  ud = r.1 ∧ same_outside mem0 mem 0 (Z.max 0 size) ∧
  match r.2 with
  | inl e => z = e ∧ (e = -1 ∨ e = 0)
  | inr w => z = zlen w ∧ 2 ≤ z ≤ size ∧ mem_at mem 0 w
  end.

(** What the encoder asks of a type. *)
Definition encodable (n : Z) (st : sproto_type) : Prop :=
  type_wf n st ∧ ∀ f, f ∈ t_f st → map_ok f.

Lemma wire_zlen recs datas : zlen (wire recs datas) = 2 + 2 * zlen recs + zlen datas.
Proof. unfold wire. rewrite !zlen_app, le16_zlen, le16_concat_zlen. lia. Qed.

Lemma sproto_encode_rel n fuel st mem size ud :
  encodable n st → size ≤ zlen mem →
  orel (encode_out mem size)
    (sproto_encode types cb fuel st mem size ud) (ref_encode types cb fuel st size ud).
Proof.
  intros [Hwf Hmaps] Hsize. unfold sproto_encode, ref_encode.
  destruct (Z.ltb_spec size (SIZEOF_HEADER + t_maxn st * SIZEOF_FIELD)) as [|Hroom].
  { constructor. cbn. split_and!; [done|apply same_outside_refl|done|by left]. }
  pose proof (wf_maxn _ _ Hwf) as Hmaxn. rewrite (wf_n _ _ Hwf) in Hmaxn.
  pose proof (gaps_nonneg (-1) (f_tag <$> t_f st)) as Hg0. pose proof (zlen_nonneg (t_f st)) as Hn0.
  set (H := SIZEOF_HEADER + t_maxn st * SIZEOF_FIELD) in *.
  assert (HH : H = 2 + 2 * t_maxn st) by (unfold H, SIZEOF_HEADER, SIZEOF_FIELD; lia).
  eapply orel_bind.
  - apply (encode_fields_rel n mem (t_maxn st) size fuel (t_f st) []); [lia|done| | | |].
    + intros f Hf. split_and!; [by apply (wf_field _ _ Hwf)|by apply Hmaps|].
      by apply (wf_tags _ _ Hwf).
    + apply ascending_chain; [apply (wf_asc _ _ Hwf)|].
      intros t (f & -> & Hf)%list_elem_of_fmap. pose proof (wf_tags _ _ Hwf f Hf). cbn. lia.
    + cbn. change (zlen []) with 0. lia.
    + unfold enc_rel. cbn. fold H. change (zlen []) with 0. split_and!; done || lia.
  - intros o1 o2 Ho. destruct o1 as [s1|[[ud' mem'] z]], o2 as [s2|[ud2 z2]]; cbn in Ho; try done.
    2:{ destruct Ho as (-> & -> & Hz & Hs). constructor. cbn. split_and!; try done.
        eapply same_outside_mono; [exact Hs|lia..]. }
    destruct s1 as [ud' mem1 data sz index lasttag], s2 as [ud2 recs datas lasttag2].
    destruct Ho as (Hud & Hlt & Hix & Hdata & Hsz & Hsz0 & Hs & Hrecs & Hdatas & Hinv).
    cbn in Hud, Hlt, Hix, Hdata, Hsz, Hsz0, Hs, Hrecs, Hdatas, Hinv. subst. fold H in Hsz0, Hdatas |- *.
    destruct Hinv as (_ & Hcount & _). pose proof Hs as [Hl _].
    pose proof (zlen_nonneg recs). pose proof (zlen_nonneg datas).
    assert (Hidx : zlen recs ≤ t_maxn st).
    { unfold zlen in Hcount at 2. rewrite length_fmap in Hcount. fold (zlen (t_f st)) in Hcount.
      destruct (lasttag2 <? _); lia. }
    destruct (asets_spec mem1 0 (le16 (zlen recs))) as (m2 & -> & Hs2 & Hat2);
      [lia|rewrite le16_zlen; lia|]. rewrite le16_zlen in Hs2. bsimpl. pose proof Hs2 as [Hl2 _].
    assert (Hs02 : same_outside mem m2 0 size) by (eapply same_outside_trans; [exact Hs|exact Hs2|lia..]).
    assert (Hrecs2 : mem_at m2 2 (concat (le16 <$> recs))).
    { eapply mem_at_frame; [exact Hs2| |done]. lia. }
    assert (Hdatas2 : mem_at m2 (Z.to_nat H) datas).
    { eapply mem_at_frame; [exact Hs2| |done]. lia. }
    replace (H + zlen datas - H) with (zlen datas) by lia.
    assert (Hfinal : ∃ m3, (if negb (zlen recs =? t_maxn st) then
        bs ← mread m2 H (zlen datas); mwrite m2 (SIZEOF_HEADER + zlen recs * SIZEOF_FIELD) bs
      else Ret m2) = Ret m3 ∧ same_outside mem m3 0 size ∧ mem_at m3 0 (wire recs datas)).
    { unfold SIZEOF_HEADER, SIZEOF_FIELD. destruct (Z.eqb_spec (zlen recs) (t_maxn st)) as [He|Hne]; cbn [negb].
      - exists m2. split_and!; [done|done|]. unfold wire. change 0%nat with (Z.to_nat 0).
        apply mem_at_appz; [lia|]. split; [done|]. rewrite le16_zlen.
        apply mem_at_appz; [lia|]. split; [done|]. rewrite le16_concat_zlen.
        eapply (eq_rect _ (λ x, mem_at m2 (Z.to_nat x) _)); [exact Hdatas2|]. lia.
      - rewrite mread_at by (done || lia). bsimpl.
        destruct (mwrite_spec m2 (2 + zlen recs * 2) datas) as (m3 & -> & Hs3 & Hat3); [lia..|].
        exists m3. split_and!; [done|eapply same_outside_trans; [exact Hs02|exact Hs3|lia..]|].
        unfold wire. change 0%nat with (Z.to_nat 0).
        apply mem_at_appz; [lia|]. rewrite le16_zlen. split.
        { eapply mem_at_frame; [exact Hs3| |done]. rewrite le16_zlen. lia. }
        apply mem_at_appz; [lia|]. rewrite le16_concat_zlen. split.
        { eapply mem_at_frame; [exact Hs3| |done]. rewrite le16_concat_zlen. lia. }
        eapply (eq_rect _ (λ x, mem_at m3 (Z.to_nat x) _)); [exact Hat3|]. lia. }
    destruct Hfinal as (m3 & -> & Hs3 & Hat3). bsimpl. constructor. cbn.
    rewrite wire_zlen. unfold SIZEOF_HEADER, SIZEOF_FIELD. split_and!; try done; try lia.
    eapply same_outside_mono; [exact Hs3|lia..].
Qed.

(** ** The encoder returns *)

Lemma ints_grow (its : list item) it : zlen (ints_bytes its) < zlen (ints_bytes (its ++ [it])).
Proof.
  rewrite !ints_bytes_zlen, intlen_snoc, zlen_app. change (zlen [it]) with 1.
  pose proof (zlen_nonneg its). unfold SIZEOF_INT64.
  destruct (intlen_cases its) as [[_ ->]|[_ ->]], it.1; lia.
Qed.

Lemma ref_array_total fuel ud args size :
  (∃ k, 0 ≤ k ≤ SPROTO_TSTRUCT ∧ a_type args = k) → (Z.to_nat size < fuel)%nat →
  ∃ o, ref_array cb fuel ud args size = Ret o.
Proof.
  intros (k & Hk & Hty) Hf. unfold ref_array. unfold SIZEOF_LENGTH, SPROTO_TSTRUCT in *.
  destruct (Z.ltb_spec size 4); [by eexists|].
  assert (Hloop : ∃ o, (if (a_type args =? SPROTO_TDOUBLE) || (a_type args =? SPROTO_TINTEGER) then
       if size - 4 <? 1 then Ret (ud, AFail)
       else loop fuel (ref_ints_turn cb args (size - 4 - 1)) (ud, [])
     else if a_type args =? SPROTO_TBOOLEAN then loop fuel (ref_bools_turn cb args (size - 4)) (ud, [])
     else loop fuel (ref_objs_turn cb args (size - 4)) (ud, [])) = Ret o).
  { unfold SPROTO_TDOUBLE, SPROTO_TINTEGER, SPROTO_TBOOLEAN.
    destruct ((a_type args =? 3) || (a_type args =? 0)) eqn:Hint;
      [|destruct (a_type args =? 1) eqn:Hbool].
    - destruct (size - 4 <? 1); [by eexists|].
      destruct (loop_total (λ _ : UD * list item, True)
        (λ s, Z.to_nat (size - 4 - 1 - zlen (ints_bytes s.2))) (λ _ : UD * ares, True)
        (ref_ints_turn cb args (size - 4 - 1))) with (fuel := fuel) (s := (ud, @nil item))
        as (o & Ho & _); [|done|cbn; change (zlen (ints_bytes [])) with 0; lia|by exists o].
      intros [ud1 its] _. unfold ref_ints_turn.
      pose proof (Hcb ud1 (arg_set args 8 (zlen its + 1))) as Hans.
      destruct (cb ud1 _) as [ud' a]. cbn in Hans. pose proof (ints_grow its) as Hgrow.
      pose proof (zlen_nonneg (ints_bytes its)).
      destruct (Z.leb_spec (ret a) 0); [right; by eexists|].
      unfold SIZEOF_INT64, SIZEOF_INT32.
      destruct (Z.ltb_spec (size - 4 - 1 - zlen (ints_bytes its)) 8); [right; by eexists|].
      destruct a as [| | |v|v|bs]; try done; cbn [ret SIZEOF_INT32 SIZEOF_INT64 Z.eqb Pos.eqb negb union_u32 union_u64]; bsimpl.
      + left. eexists. split_and!; [done|done|]. cbn. specialize (Hgrow (false, v)). lia.
      + destruct (_ && _); [right; by eexists|]. left. eexists. split_and!; [done|done|].
        cbn. specialize (Hgrow (true, v)). lia.
      + destruct Hans as ([Hx|Hx] & _); cbn in Hx; rewrite Hx in Hint; done.
    - destruct (loop_total (λ _ : UD * list Z, True)
        (λ s, Z.to_nat (size - 4 - zlen s.2)) (λ _ : UD * ares, True)
        (ref_bools_turn cb args (size - 4))) with (fuel := fuel) (s := (ud, @nil Z))
        as (o & Ho & _); [|done|cbn; change (zlen []) with 0; lia|by exists o].
      intros [ud1 vs] _. unfold ref_bools_turn.
      pose proof (Hcb ud1 (arg_set args 4 (zlen vs + 1))) as Hans.
      destruct (cb ud1 _) as [ud' a]. cbn in Hans. pose proof (zlen_nonneg vs).
      apply Z.eqb_eq in Hbool. destruct a as [| | |v|v|bs]; try (right; by eexists).
      + cbn [ret SIZEOF_INT32 Z.ltb Z.compare].
        destruct (Z.ltb_spec (size - 4 - zlen vs) 1); [right; by eexists|].
        left. eexists. split_and!; [done|done|]. cbn. rewrite zlen_app.
        set (c := if v =? 0 then 0 else 1). change (zlen [c]) with 1. lia.
      + destruct Hans as (_ & _ & _ & Hx). by specialize (Hx Hbool).
      + destruct Hans as ([Hx|Hx] & _); cbn in Hx; rewrite Hx in Hbool; done.
    - destruct (loop_total (λ _ : UD * list (list Z), True)
        (λ s, Z.to_nat (size - 4 - zlen (objs_bytes s.2))) (λ _ : UD * ares, True)
        (ref_objs_turn cb args (size - 4))) with (fuel := fuel) (s := (ud, @nil (list Z)))
        as (o & Ho & _); [|done|cbn; change (zlen (objs_bytes [])) with 0; lia|by exists o].
      intros [ud1 bss] _. unfold ref_objs_turn, SIZEOF_LENGTH.
      destruct (Z.ltb_spec (size - 4 - zlen (objs_bytes bss)) 4); [right; by eexists|].
      pose proof (Hcb ud1 (arg_set args (size - 4 - zlen (objs_bytes bss) - 4) (zlen bss + 1))) as Hans.
      destruct (cb ud1 _) as [ud' a]. cbn in Hans.
      assert (Hobj : a_type args = 2 ∨ a_type args = 4).
      { apply orb_false_iff in Hint as [H1%Z.eqb_neq H2%Z.eqb_neq]. apply Z.eqb_neq in Hbool. lia. }
      unfold SPROTO_TSTRING, SPROTO_TSTRUCT in Hans.
      destruct a as [| | |v|v|bs]; try (right; by eexists); try (exfalso; cbn in Hans; naive_solver).
      destruct Hans as (_ & _ & Hfit). cbn in Hfit. rewrite (proj2 (Z.leb_le _ _)) by done.
      left. eexists. split_and!; [done|done|]. cbn. rewrite objs_bytes_snoc, !zlen_app, le32_zlen.
      pose proof (zlen_nonneg bs). lia. }
  destruct Hloop as [[ud' r] ->]. bsimpl. by eexists.
Qed.

Lemma ref_field_total n fuel f ud size :
  field_type_ok n f → map_ok f → (Z.to_nat size < fuel)%nat →
  ∃ o, ref_field types cb fuel f ud size = Ret o.
Proof.
  intros Hft ([mk mv] & Hmap) Hf. destruct (field_type_base _ _ Hft) as (k & Hk & Hty).
  unfold ref_field. destruct (array_type (f_type f) k Hk Hty) as [[Htk ->]|[-> Htk]]; cbn [negb].
  2:{ rewrite Hmap, Htk. bsimpl. apply ref_array_total; [|done].
      exists k. split; [unfold SPROTO_TSTRUCT; lia|done]. }
  unfold SPROTO_TDOUBLE, SPROTO_TINTEGER, SPROTO_TBOOLEAN, SPROTO_TSTRUCT, SPROTO_TSTRING.
  rewrite Htk. destruct ((k =? 3) || (k =? 0) || (k =? 1)) eqn:Hint.
  - pose proof (Hcb ud (arg_set (MkArg (f_name f) (f_tag f) k (f_st f) 0 0 (f_key f) (f_extra f)
        None None) 8 0)) as Hans.
    destruct (cb ud _) as [ud' a]. cbn in Hans. destruct a; try by eexists.
    destruct Hans as ([Hx|Hx] & _); cbn in Hx; rewrite Hx in Hint; done.
  - assert (Hk24 : k = 4 ∨ k = 2).
    { destruct (Z.eqb_spec k 3), (Z.eqb_spec k 0), (Z.eqb_spec k 1); cbn in Hint; done || lia. }
    assert (Hobj : (k =? 4) || (k =? 2) = true) by (destruct Hk24 as [->| ->]; done).
    rewrite Hobj. unfold ref_object, SIZEOF_LENGTH. destruct (size <? 4); [by eexists|].
    pose proof (Hcb ud (arg_set (MkArg (f_name f) (f_tag f) k (f_st f) 0 0 (f_key f) (f_extra f)
        None None) (size - 4) 0)) as Hans.
    cbn [a_index]. destruct (cb ud _) as [ud' a]. cbn in Hans.
    unfold SPROTO_TSTRING, SPROTO_TSTRUCT in Hans.
    destruct a; try by eexists.
    1-2: exfalso; naive_solver.
    destruct Hans as (_ & _ & Hfit). cbn in Hfit. rewrite (proj2 (Z.leb_le _ _)) by done. by eexists.
Qed.

Lemma ref_fields_total n fuel size0 fs s :
  (∀ f, f ∈ fs → field_type_ok n f ∧ map_ok f) → (Z.to_nat size0 < fuel)%nat →
  ∃ o, ref_fields types cb fuel size0 fs s = Ret o.
Proof.
  intros Hfs Hf. revert s. induction fs as [|f fs IH]; intros s; [by eexists|].
  destruct s as [ud recs datas lasttag]. cbn [ref_fields ref_turn].
  destruct (Hfs f) as [Hft Hmap]; [set_solver|]. pose proof (zlen_nonneg datas).
  destruct (ref_field_total n fuel f ud (size0 - zlen datas) Hft Hmap) as [[ud' r] ->]; [lia|].
  bsimpl. destruct r; bsimpl; try by eexists.
  all: apply IH; intros g Hg; apply Hfs; set_solver.
Qed.

Lemma sproto_encode_total n fuel st mem size ud :
  encodable n st → size ≤ zlen mem → (Z.to_nat size < fuel)%nat →
  ∃ o r, sproto_encode types cb fuel st mem size ud = Ret o ∧
    ref_encode types cb fuel st size ud = Ret r ∧ encode_out mem size o r.
Proof.
  intros Hst Hsize Hf. assert (Href : ∃ r, ref_encode types cb fuel st size ud = Ret r).
  { unfold ref_encode. destruct (size <? _); [by eexists|]. destruct Hst as [Hwf Hmaps].
    pose proof (wf_maxn _ _ Hwf) as Hmaxn. rewrite (wf_n _ _ Hwf) in Hmaxn.
    pose proof (gaps_nonneg (-1) (f_tag <$> t_f st)). pose proof (zlen_nonneg (t_f st)).
    destruct (ref_fields_total n fuel (size - (SIZEOF_HEADER + t_maxn st * SIZEOF_FIELD)) (t_f st)
      (MkRef ud [] [] (-1))) as [o ->].
    - intros f Hin. split; [by apply (wf_field _ _ Hwf)|by apply Hmaps].
    - unfold SIZEOF_HEADER, SIZEOF_FIELD. lia.
    - bsimpl. destruct o as [s|[ud2 z]]; by eexists. }
  destruct Href as [r Hr]. pose proof (sproto_encode_rel n fuel st mem size ud Hst Hsize) as Hrel.
  rewrite Hr in Hrel. inversion Hrel as [o r' Hout Ho Hr'|]. subst. exists o, r. done.
Qed.
End refinement.

(** ** Messages, and what decoding them reports *)

(** The value of a field: an integer, bytes (a string or an encoded
    structure), or an array of one of them or of booleans. *)
Inductive fval :=
| VInt (it : item)
| VBytes (bs : list Z)
| VInts (its : list item)
| VBools (vs : list Z)
| VObjs (bss : list (list Z)).

(** A message: the value of a tag. *)
Definition msg := Z → option fval.

Definition answer_int (it : item) : answer := if it.1 then AInt64 it.2 else AInt32 it.2.

#[export] Instance answer_ok_dec a x : Decision (answer_ok a x).
Proof. destruct x; cbn; apply _. Defined.

(** An answer the contract of the encoder allows, or an error. *)
Definition checked (a : sproto_arg) (x : answer) : answer :=
  if bool_decide (answer_ok a x) then x else AError.

(** The callback that encodes a message; the elements of an array are asked
    for with the indices 1, 2, ... *)
Definition cb_of (m : msg) (u : unit) (a : sproto_arg) : unit * answer :=
  (u, checked a
        match m (a_tagid a) with
        | None => if a_index a =? 0 then ANil else ANoArray
        | Some (VInt it) => answer_int it
        | Some (VBytes bs) => ABytes bs
        | Some (VInts its) => from_option answer_int ANil (its !! Z.to_nat (a_index a - 1))
        | Some (VBools vs) => from_option AInt32 ANil (vs !! Z.to_nat (a_index a - 1))
        | Some (VObjs bss) => from_option ABytes ANil (bss !! Z.to_nat (a_index a - 1))
        end).

Lemma cb_of_ok m : cb_ok (cb_of m).
Proof.
  intros u a. unfold cb_of, checked; cbn. by destruct (bool_decide_reflect (answer_ok a
    match m (a_tagid a) with
    | None => if a_index a =? 0 then ANil else ANoArray
    | Some (VInt it) => answer_int it
    | Some (VBytes bs) => ABytes bs
    | Some (VInts its) => from_option answer_int ANil (its !! Z.to_nat (a_index a - 1))
    | Some (VBools vs) => from_option AInt32 ANil (vs !! Z.to_nat (a_index a - 1))
    | Some (VObjs bss) => from_option ABytes ANil (bss !! Z.to_nat (a_index a - 1))
    end)).
Qed.

Definition item_ok (it : item) : Prop := 0 ≤ it.2 < 2 ^ if it.1 then 64 else 32.

(** A value fits its field. *)
Definition val_ok (f : field) (v : fval) : Prop :=
  match v with
  | VInt it => item_ok it ∧
      (f_type f = SPROTO_TINTEGER ∨ (f_type f = SPROTO_TDOUBLE ∧ it.1 = true) ∨
       (f_type f = SPROTO_TBOOLEAN ∧ it.1 = false ∧ it.2 < 32767))
  | VBytes bs => bytes bs ∧ (f_type f = SPROTO_TSTRING ∨ f_type f = SPROTO_TSTRUCT)
  | VInts its => Forall item_ok its ∧
      (f_type f = SPROTO_TINTEGER + SPROTO_TARRAY ∨ f_type f = SPROTO_TDOUBLE + SPROTO_TARRAY)
  | VBools vs => Forall (λ v, v = 0 ∨ v = 1) vs ∧ f_type f = SPROTO_TBOOLEAN + SPROTO_TARRAY
  | VObjs bss => Forall bytes bss ∧
      (f_type f = SPROTO_TSTRING + SPROTO_TARRAY ∨ f_type f = SPROTO_TSTRUCT + SPROTO_TARRAY)
  end.

Definition msg_ok (st : sproto_type) (m : msg) : Prop :=
  ∀ f v, f ∈ t_f st → m (f_tag f) = Some v → val_ok f v.

(** The 64-bit integer an element decodes to. *)
Definition ival (it : item) : Z := if it.1 then it.2 else expand64 it.2.

Section events.
Context (types : list sproto_type).

Definition field_arg (f : field) : sproto_arg :=
  let t := Z.land (f_type f) (Z.lnot SPROTO_TARRAY) in
  match map_names types f with
  | Ret (k, v) =>
      if negb (Z.land (f_type f) SPROTO_TARRAY =? 0)
      then MkArg (f_name f) (f_tag f) t (f_st f) 0 0 (f_key f) (f_extra f) k v
      else MkArg (f_name f) (f_tag f) t (f_st f) 0 0 (f_key f) (f_extra f) None None
  | _ => MkArg (f_name f) (f_tag f) t (f_st f) 0 0 (f_key f) (f_extra f) None None
  end.

(** The calls an array makes: one per element, or one for an empty array. *)
Definition array_events {A} (f : field) (g : nat → A → sproto_arg * dvalue) (l : list A)
    : list (sproto_arg * dvalue) :=
  match l with
  | [] => [(arg_set (field_arg f) 0 (-1), DNull)]
  | _ => imap g l
  end.

Definition field_events (f : field) (v : fval) : list (sproto_arg * dvalue) :=
  let a := field_arg f in
  match v with
  | VInt it => [(arg_set a 8 0, DInt (ival it))]
  | VBytes bs => [(arg_set a (zlen bs) 0, DBytes bs)]
  | VInts its => array_events f (λ i it, (arg_set a 8 (Z.of_nat i + 1), DInt (ival it))) its
  | VBools vs => array_events f (λ i v, (arg_set a 8 (Z.of_nat i + 1), DInt v)) vs
  | VObjs bss => array_events f (λ i bs, (arg_set a (zlen bs) (Z.of_nat i + 1), DBytes bs)) bss
  end.

(** What the decoder reports for a message. *)
Definition events (st : sproto_type) (m : msg) : list (sproto_arg * dvalue) :=
  concat ((λ f, from_option (field_events f) [] (m (f_tag f))) <$> t_f st).
End events.

(** A decoding callback that logs its calls. *)
Definition log_cb (log : list (sproto_arg * dvalue)) (a : sproto_arg) (v : dvalue)
    : list (sproto_arg * dvalue) * Z := (log ++ [(a, v)], 0).

(** ** Reading back what was written *)

Lemma byte_of v k : 0 ≤ k → Z.land (Z.shiftr v k) 255 = (v / 2 ^ k) mod 256.
Proof.
  intros Hk. change 255 with (2 ^ 8 - 1). rewrite land_mask by lia. by rewrite Z.shiftr_div_pow2.
Qed.

Lemma byte_of_0 v : Z.land v 255 = v mod 256.
Proof. change 255 with (2 ^ 8 - 1). by rewrite land_mask by lia. Qed.

Lemma toword_at data off v :
  0 ≤ off → 0 ≤ v < 2 ^ 16 → mem_at data (Z.to_nat off) (le16 v) → toword data off = Ret v.
Proof.
  intros H0 Hv Hat. unfold toword.
  pose proof (aget_at data off (le16 v) 0 _ H0 Hat eq_refl) as E0. rewrite Z.add_0_r in E0.
  pose proof (aget_at data off (le16 v) 1 _ H0 Hat eq_refl) as E1. change (Z.of_nat 1) with 1 in E1.
  rewrite E0, E1. bsimpl. f_equal. rewrite byte_of_0, byte_of by lia.
  rewrite lor_shiftl by (try lia; apply Z.mod_pos_bound; lia).
  change (2 ^ 8) with 256. rewrite (Z.mod_small (v / 256)) by zlia. zlia.
Qed.

Lemma todword_at data off v :
  0 ≤ off → 0 ≤ v < 2 ^ 32 → mem_at data (Z.to_nat off) (le32 v) → todword data off = Ret v.
Proof.
  intros H0 Hv Hat. unfold todword.
  pose proof (aget_at data off (le32 v) 0 _ H0 Hat eq_refl) as E0. rewrite Z.add_0_r in E0.
  pose proof (aget_at data off (le32 v) 1 _ H0 Hat eq_refl) as E1. change (Z.of_nat 1) with 1 in E1.
  pose proof (aget_at data off (le32 v) 2 _ H0 Hat eq_refl) as E2. change (Z.of_nat 2) with 2 in E2.
  pose proof (aget_at data off (le32 v) 3 _ H0 Hat eq_refl) as E3. change (Z.of_nat 3) with 3 in E3.
  rewrite E0, E1, E2, E3. bsimpl. f_equal. rewrite byte_of_0, !byte_of by lia.
  pose proof (Z.mod_pos_bound v 256). pose proof (Z.mod_pos_bound (v / 2 ^ 8) 256).
  pose proof (Z.mod_pos_bound (v / 2 ^ 16) 256). pose proof (Z.mod_pos_bound (v / 2 ^ 24) 256).
  rewrite (lor_shiftl _ _ 8), (lor_shiftl _ _ 16), (lor_shiftl _ _ 24) by lia.
  unfold u32. rewrite Z.mod_small by lia.
  assert (E : v / 2 ^ 16 = v / 2 ^ 8 / 256) by (rewrite Z.div_div by lia; done).
  assert (E' : v / 2 ^ 24 = v / 2 ^ 16 / 256) by (rewrite Z.div_div by lia; done).
  assert (E'' : v / 2 ^ 24 / 256 = 0) by (rewrite Z.div_div by lia; apply Z.div_small; lia).
  pose proof (Z.div_mod v 256). pose proof (Z.div_mod (v / 2 ^ 8) 256).
  pose proof (Z.div_mod (v / 2 ^ 16) 256). pose proof (Z.div_mod (v / 2 ^ 24) 256).
  change (2 ^ 8) with 256 in *. lia.
Qed.

Lemma expand64_high v :
  0 ≤ v < 2 ^ 32 →
  expand64 v = v + (if Z.land v 2147483648 =? 0 then 0 else 4294967295) * 2 ^ 32.
Proof.
  intros Hv. unfold expand64. destruct (_ =? 0); cbn [negb]; [lia|].
  by rewrite lor_shiftl by lia.
Qed.

(** The low and the high half of an element of an array of 64-bit integers. *)
Lemma le64_split v : le64 v = le32 v ++ le32 (v / 2 ^ 32).
Proof.
  unfold le64. f_equal. unfold le32. rewrite (byte_of_0 (v / 2 ^ 32)), !byte_of by lia.
  rewrite !Z.div_div, <-!Z.pow_add_r by lia. done.
Qed.

Lemma sign_ext_le32 v :
  sign_ext v = le32 (if Z.land v 2147483648 =? 0 then 0 else 4294967295).
Proof. unfold sign_ext. by destruct (_ =? 0). Qed.

Lemma item_halves data off it :
  0 ≤ off → item_ok it → mem_at data (Z.to_nat off) (item_bytes true it) →
  (low ← todword data off; hi ← todword data (off + SIZEOF_INT32);
   Ret (Z.lor low (Z.shiftl hi 32))) = Ret (ival it).
Proof.
  intros H0 Hit Hat. destruct it as [[|] v]; unfold item_ok, item_bytes, ival in *; cbn in *.
  - rewrite le64_split in Hat. apply mem_at_appz in Hat as [Hlo Hhi]; [|done].
    rewrite le32_zlen in Hhi.
    assert (Hlo' : mem_at data (Z.to_nat off) (le32 (v mod 2 ^ 32))).
    { replace (le32 (v mod 2 ^ 32)) with (le32 v); [done|]. unfold le32.
      rewrite !byte_of_0, !Z.shiftr_div_pow2 by lia. f_equal; [zlia|]. f_equal; [zlia|]. f_equal; [zlia|].
      f_equal. zlia. }
    rewrite (todword_at _ _ _ H0 (Z.mod_pos_bound v (2 ^ 32) ltac:(lia)) Hlo'). bsimpl.
    rewrite (todword_at data (off + SIZEOF_INT32) (v / 2 ^ 32)); [|unfold SIZEOF_INT32; lia|zlia|done].
    bsimpl. f_equal. rewrite lor_shiftl by (try apply Z.mod_pos_bound; lia). zlia.
  - apply mem_at_appz in Hat as [Hlo Hhi]; [|done]. rewrite le32_zlen in Hhi.
    rewrite (todword_at _ _ _ H0 Hit Hlo). bsimpl. rewrite sign_ext_le32 in Hhi.
    rewrite (todword_at data (off + SIZEOF_INT32)
      (if Z.land v 2147483648 =? 0 then 0 else 4294967295));
      [|unfold SIZEOF_INT32; lia|destruct (_ =? 0); lia|done].
    bsimpl. f_equal. rewrite lor_shiftl by lia. by rewrite expand64_high.
Qed.

(** The wire form of a value: in the header, or in the data. *)
Definition field_enc (v : fval) : fres :=
  let blob p := FData (le32 (zlen p) ++ p) in
  match v with
  | VInt (false, v) => if v <? 32767 then FVal ((v + 1) * 2) else FData (le32 4 ++ le32 v)
  | VInt (true, v) => FData (le32 8 ++ le64 v)
  | VBytes bs => blob bs
  | VInts its => blob (ints_payload its)
  | VBools vs => blob vs
  | VObjs bss => blob (objs_bytes bss)
  end.

Lemma field_enc_cases v : (∃ w, field_enc v = FVal w) ∨ (∃ bs, field_enc v = FData bs).
Proof.
  destruct v as [[[|] v]|p|its|vs|bss]; cbn; try (right; by eexists).
  destruct (v <? 32767); [left|right]; by eexists.
Qed.

Section decode_proofs.
Context (types : list sproto_type) (data : list Z) (Hsize : zlen data < 2 ^ 31).

Lemma field_arg_scalar f k :
  0 ≤ k < 5 → f_type f = k →
  field_arg types f = MkArg (f_name f) (f_tag f) k (f_st f) 0 0 (f_key f) (f_extra f) None None.
Proof.
  intros Hk Hty. unfold field_arg. rewrite Hty.
  assert (k = 0 ∨ k = 1 ∨ k = 2 ∨ k = 3 ∨ k = 4) as Hk' by lia.
  destruct Hk' as [->|[->|[->|[->| ->]]]]; destruct (map_names types f) as [[] | | | |]; done.
Qed.

Lemma field_arg_array f k mk mv :
  0 ≤ k < 5 → f_type f = k + SPROTO_TARRAY → map_names types f = Ret (mk, mv) →
  field_arg types f = MkArg (f_name f) (f_tag f) k (f_st f) 0 0 (f_key f) (f_extra f) mk mv ∧
  (Z.land (f_type f) SPROTO_TARRAY =? 0) = false ∧ Z.land (f_type f) (Z.lnot SPROTO_TARRAY) = k.
Proof.
  intros Hk Hty Hmap. unfold field_arg. rewrite Hty, Hmap.
  assert (k = 0 ∨ k = 1 ∨ k = 2 ∨ k = 3 ∨ k = 4) as Hk' by lia.
  destruct Hk' as [->|[->|[->|[->| ->]]]]; done.
Qed.

Lemma mread_log args off bs log :
  0 ≤ off → off + zlen bs ≤ zlen data → mem_at data (Z.to_nat off) bs →
  call_bytes log_cb data log args off (i32 (zlen bs)) (a_index args) =
    Ret (log ++ [(arg_set args (zlen bs) (a_index args), DBytes bs)], 0).
Proof.
  intros H0 H1 Hat. pose proof (zlen_nonneg bs).
  assert (Hi : i32 (zlen bs) = zlen bs) by (unfold i32; rewrite Z.mod_small by lia; lia).
  unfold call_bytes. rewrite Hi, mread_at by done. done.
Qed.

Lemma decode_objs args bss : ∀ fuel i off log,
  0 ≤ off → off + zlen (objs_bytes bss) ≤ zlen data → 
  mem_at data (Z.to_nat off) (objs_bytes bss) → (length bss < fuel)%nat →
  loop fuel (objects_turn log_cb data args) (log, off, zlen (objs_bytes bss), Z.of_nat i + 1) =
    Ret (log ++ imap (λ j bs, (arg_set args (zlen bs) (Z.of_nat (i + j) + 1), DBytes bs)) bss, 0).
Proof.
  induction bss as [|bs bss IH]; intros fuel i off log H0 H1 Hat Hf;
    (destruct fuel as [|fuel]; [lia|]); rewrite loop_S.
  { cbn. by rewrite app_nil_r. }
  assert (Hob : objs_bytes (bs :: bss) = le32 (zlen bs) ++ bs ++ objs_bytes bss).
  { unfold objs_bytes. cbn. by rewrite <-app_assoc. }
  rewrite Hob in *. rewrite !zlen_app, le32_zlen in *.
  apply mem_at_appz in Hat as [Hat1 Hat]; [|lia]. rewrite le32_zlen in Hat.
  apply mem_at_appz in Hat as [Hat2 Hat]; [|lia].
  pose proof (zlen_nonneg bs). pose proof (zlen_nonneg (objs_bytes bss)).
  unfold objects_turn, SIZEOF_LENGTH.
  destruct (Z.leb_spec (4 + (zlen bs + zlen (objs_bytes bss))) 0); [lia|].
  destruct (Z.ltb_spec (4 + (zlen bs + zlen (objs_bytes bss))) 4); [lia|].
  rewrite (todword_at data off (zlen bs)) by (done || lia). bsimpl.
  assert (Hu : u32 (4 + (zlen bs + zlen (objs_bytes bss)) - 4) = zlen bs + zlen (objs_bytes bss))
    by (unfold u32; rewrite Z.mod_small; lia).
  rewrite Hu. destruct (Z.ltb_spec (zlen bs + zlen (objs_bytes bss)) (zlen bs)); [lia|].
  assert (Hcall := mread_log (arg_set args 0 (Z.of_nat i + 1)) (off + 4) bs log ltac:(lia) ltac:(lia) Hat2).
  cbn [a_index arg_set] in Hcall. unfold call_bytes in Hcall |- *.
  destruct (mread data (off + 4) (i32 (zlen bs))) as [bs'| | | |]; try done. cbn in Hcall |- *.
  injection Hcall as Hb. apply app_inv_head in Hb. injection Hb as Hb1 Hb2. subst bs'.
  assert (Hi : i32 (zlen bs) = zlen bs) by (unfold i32; rewrite Z.mod_small by lia; lia).
  rewrite Hi.
  assert (Hi2 : i32 (4 + (zlen bs + zlen (objs_bytes bss)) - 4 - zlen bs) = zlen (objs_bytes bss)).
  { unfold i32. rewrite Z.mod_small by lia. lia. }
  rewrite Hi2. replace (Z.of_nat i + 1 + 1) with (Z.of_nat (S i) + 1) by lia.
  fold (objects_turn log_cb data args). rewrite IH; [|lia|lia|exact Hat|cbn in Hf; lia].
  rewrite <-app_assoc. cbn. rewrite Nat.add_0_r. do 4 f_equal.
  apply imap_ext. intros j b _. cbn. do 3 f_equal. lia.
Qed.

Lemma block_at its w off j it :
  0 ≤ off → mem_at data (Z.to_nat off) (concat (item_bytes w <$> its)) → its !! j = Some it →
  mem_at data (Z.to_nat (off + item_len w * Z.of_nat j)) (item_bytes w it).
Proof. intros H0 Hat. by apply mem_at_blocks. Qed.

Lemma decode_ints args its off log :
  0 ≤ off → Forall item_ok its → mem_at data (Z.to_nat off) (ints_bytes its) →
  for_loop (length its) 0 (int_elem log_cb data args off (intlen_of its)) log =
    Ret (log ++ imap (λ i it, (arg_set args 8 (Z.of_nat i + 1), DInt (ival it))) its).
Proof.
  intros H0 Hok Hat. apply for_loop_imap. intros j it log' Hj. rewrite Z.add_0_l.
  pose proof (proj1 (Forall_lookup _ _) Hok _ _ Hj) as Hit.
  apply (block_at its _ _ _ _ H0 Hat) in Hj as Hblk.
  unfold int_elem. destruct (intlen_cases its) as [[He Hi]|[He Hi]]; rewrite Hi, He in *;
    cbn [Z.eqb Pos.eqb SIZEOF_INT32 item_len] in *.
  - assert (Hh := item_halves data (off + 8 * Z.of_nat j) it ltac:(lia) Hit Hblk).
    unfold SIZEOF_INT64, SIZEOF_INT32 in *. rewrite (Z.mul_comm (Z.of_nat j)).
    change (4 =? 4) with true. change (8 =? 4) with false. cbn [Z.eqb Pos.eqb]. rewrite Hh. done.
  - assert (Hw : it.1 = false).
    { destruct it.1 eqn:E; [|done]. assert (Hx : existsb fst its = true); [|congruence].
      apply existsb_exists. exists it. split; [|done].
      apply list_elem_of_In. by eapply list_elem_of_lookup_2. }
    destruct it as [w v]. cbn in Hw. subst w. unfold item_ok, item_bytes, ival in *. cbn in Hit, Hblk |- *.
    unfold SIZEOF_INT32. rewrite (Z.mul_comm (Z.of_nat j)).
    rewrite (todword_at data _ v) by (done || lia). done.
Qed.

Lemma decode_bools args vs off log :
  0 ≤ off → mem_at data (Z.to_nat off) vs →
  for_loop (length vs) 0 (bool_elem log_cb data args off) log =
    Ret (log ++ imap (λ i v, (arg_set args 8 (Z.of_nat i + 1), DInt v)) vs).
Proof.
  intros H0 Hat. apply for_loop_imap. intros j v log' Hj. rewrite Z.add_0_l. unfold bool_elem.
  by rewrite (aget_at data off vs j v H0 Hat Hj).
Qed.

Lemma ints_payload_zlen its :
  its ≠ [] → zlen (ints_payload its) = 1 + intlen_of its * zlen its ∧
  ints_payload its = [intlen_of its] ++ ints_bytes its.
Proof.
  intros Hne. destruct its as [|it its]; [done|]. split; [|done].
  cbn [ints_payload]. by rewrite zlen_cons, ints_bytes_zlen.
Qed.

Lemma FData_inj a b : FData a = FData b → b = a.
Proof. congruence. Qed.

(** The decoding of a field whose data the encoder wrote. *)
Lemma decode_data_ok n fuel f v off bs log :
  field_type_ok n f → map_ok types f → val_ok f v → field_enc v = FData bs →
  0 ≤ off → off + zlen bs ≤ zlen data → mem_at data (Z.to_nat off) bs → (Z.to_nat (zlen bs) < fuel)%nat →
  decode_data types log_cb data fuel log f off = Ret (log ++ field_events types f v, 0).
Proof.
  intros Hft ([mk mv] & Hmap) Hval Henc H0 H1 Hat Hf. unfold decode_data.
  destruct v as [it|bs0|its|vs|bss]; cbn in Hval; cbn [field_enc] in Henc.
  - (* an integer *)
    destruct Hval as [Hit Hty].
    assert (Hk : ∃ k, 0 ≤ k < 5 ∧ f_type f = k ∧ (k = 0 ∨ k = 3 ∨ k = 1)).
    { unfold SPROTO_TINTEGER, SPROTO_TDOUBLE, SPROTO_TBOOLEAN in Hty.
      destruct Hty as [?|[[? _]|[? _]]]; eexists; (split; [|split; [done|]]); lia. }
    destruct Hk as (k & Hk & Htk & Hk').
    cbn [field_events]. rewrite (field_arg_scalar f k Hk Htk). rewrite Htk.
    destruct it as [[|] v]; cbn in Henc, Hit.
    + apply FData_inj in Henc as ->. rewrite zlen_app, le32_zlen, le64_zlen in H1.
      apply mem_at_appz in Hat as [Hat1 Hat2]; [|done]. rewrite le32_zlen in Hat2.
      unfold SPROTO_TINTEGER, SPROTO_TDOUBLE, SPROTO_TBOOLEAN in Hty.
      assert (Hkk : k = 0 ∨ k = 3) by (destruct Hty as [?|[[? _]|[_ [? _]]]]; [lia|lia|done]).
      assert (Hland : (Z.land k SPROTO_TARRAY =? 0) = true) by (destruct Hkk as [-> | ->]; done).
      assert (Hk3 : (k =? SPROTO_TDOUBLE) || (k =? SPROTO_TINTEGER) = true)
        by (destruct Hkk as [-> | ->]; done).
      rewrite Hland, Hk3. cbn [negb]. unfold SIZEOF_LENGTH.
      rewrite (todword_at data off 8) by (done || lia). bsimpl.
      cbn [Z.eqb Pos.eqb SIZEOF_INT32 SIZEOF_INT64 negb].
      pose proof (item_halves data (off + 4) (true, v) ltac:(lia) Hit Hat2) as Hh.
      unfold SIZEOF_INT32 in *.
      destruct (todword data (off + 4)) as [lo| | | |]; try done. cbn in Hh |- *.
      destruct (todword data (off + 4 + 4)) as [hi| | | |]; try done. cbn in Hh |- *.
      by injection Hh as ->.
    + destruct (Z.ltb_spec v 32767); [done|]. apply FData_inj in Henc as ->.
      rewrite zlen_app, !le32_zlen in H1.
      apply mem_at_appz in Hat as [Hat1 Hat2]; [|done]. rewrite le32_zlen in Hat2.
      unfold SPROTO_TINTEGER, SPROTO_TDOUBLE, SPROTO_TBOOLEAN in Hty. cbn in Hty.
      assert (Hkk : k = 0) by (destruct Hty as [?|[[_ ?]|(_ & _ & ?)]]; [lia|done|lia]).
      assert (Hland : (Z.land k SPROTO_TARRAY =? 0) = true) by (rewrite Hkk; done).
      assert (Hk3 : (k =? SPROTO_TDOUBLE) || (k =? SPROTO_TINTEGER) = true) by (rewrite Hkk; done).
      rewrite Hland, Hk3. cbn [negb]. unfold SIZEOF_LENGTH.
      rewrite (todword_at data off 4) by (done || lia). bsimpl. cbn [Z.eqb Pos.eqb SIZEOF_INT32].
      rewrite (todword_at data (off + 4) v) by (done || lia). bsimpl. done.
  - (* bytes *)
    destruct Hval as [_ Hty]. apply FData_inj in Henc as ->. rewrite zlen_app, le32_zlen in H1.
    apply mem_at_appz in Hat as [Hat1 Hat2]; [|done]. rewrite le32_zlen in Hat2.
    pose proof (zlen_nonneg bs0).
    assert (Hk : ∃ k, 0 ≤ k < 5 ∧ f_type f = k ∧ (k = 2 ∨ k = 4)).
    { unfold SPROTO_TSTRING, SPROTO_TSTRUCT in Hty. destruct Hty; eexists; (split; [|split; [done|]]); lia. }
    destruct Hk as (k & Hk & Htk & Hk'). cbn [field_events]. rewrite (field_arg_scalar f k Hk Htk), Htk.
    assert (Hcall := mread_log (MkArg (f_name f) (f_tag f) k (f_st f) 0 0 (f_key f) (f_extra f) None None)
      (off + 4) bs0 log ltac:(lia) ltac:(lia) Hat2). cbn [a_index] in Hcall.
    assert (Hland : (Z.land k SPROTO_TARRAY =? 0) = true) by (destruct Hk' as [-> | ->]; done).
    assert (Hk3 : (k =? SPROTO_TDOUBLE) || (k =? SPROTO_TINTEGER) = false)
      by (destruct Hk' as [-> | ->]; done).
    assert (Hk24 : (k =? SPROTO_TSTRING) || (k =? SPROTO_TSTRUCT) = true)
      by (destruct Hk' as [-> | ->]; done).
    rewrite Hland, Hk3, Hk24. cbn [negb]. unfold SIZEOF_LENGTH.
    rewrite (todword_at data off (zlen bs0)) by (done || lia). bsimpl. by rewrite Hcall.
  - (* integers *)
    destruct Hval as [Hok Hty]. apply FData_inj in Henc as ->. rewrite zlen_app, le32_zlen in H1, Hf.
    apply mem_at_appz in Hat as [Hat1 Hat2]; [|done]. rewrite le32_zlen in Hat2.
    assert (Hk : ∃ k, 0 ≤ k < 5 ∧ f_type f = k + SPROTO_TARRAY ∧ (k = 0 ∨ k = 3)).
    { unfold SPROTO_TINTEGER, SPROTO_TDOUBLE in Hty. destruct Hty; eexists; (split; [|split; [done|]]); lia. }
    destruct Hk as (k & Hk & Htk & Hk'). destruct (field_arg_array f k mk mv Hk Htk Hmap) as (Harg & -> & ->).
    cbn [negb]. rewrite Hmap. bsimpl. unfold decode_array. pose proof (zlen_nonneg (ints_payload its)).
    rewrite (todword_at data off (zlen (ints_payload its))) by (done || lia). bsimpl.
    cbn [field_events]. unfold array_events. rewrite Harg. cbn [a_type].
    destruct its as [|it its']; [done|]. set (its := it :: its') in *.
    destruct (ints_payload_zlen its ltac:(done)) as [Hpl Hpe].
    assert (Hn : 0 < zlen its) by (unfold its; rewrite zlen_cons; pose proof (zlen_nonneg its'); lia).
    assert (Hil : intlen_of its = 4 ∨ intlen_of its = 8) by (destruct (intlen_cases its) as [[_ ?]|[_ ?]]; auto).
    rewrite Hpe in Hat2. apply mem_at_appz in Hat2 as [Hat2 Hat3]; [|lia].
    change (zlen [intlen_of its]) with 1 in Hat3.
    rewrite (proj2 (Z.eqb_neq (zlen (ints_payload its)) 0)) by lia.
    unfold SPROTO_TDOUBLE, SPROTO_TINTEGER, SIZEOF_LENGTH, SIZEOF_INT32, SIZEOF_INT64.
    assert (Hkk : (k =? 3) || (k =? 0) = true) by (destruct Hk' as [-> | ->]; done). rewrite Hkk.
    assert (Hpz : zlen (ints_payload its) - 1 = intlen_of its * zlen its) by lia.
    rewrite Hpz. rewrite (proj2 (Z.eqb_neq (intlen_of its * zlen its) 0)) by (destruct Hil as [-> | ->]; lia).
    assert (Hlen : aget data (off + 4) = Ret (intlen_of its)).
    { pose proof (aget_at data (off + 4) [intlen_of its] 0 _ ltac:(lia) Hat2 eq_refl) as E.
      by rewrite Z.add_0_r in E. }
    rewrite Hlen. bsimpl.
    assert (Hil' : (intlen_of its =? 4) || (intlen_of its =? 8) = true) by (destruct Hil as [-> | ->]; done).
    rewrite Hil'. rewrite (Z.mul_comm (intlen_of its)), Z_mod_mult. cbn [Z.eqb negb].
    rewrite Z.div_mul by lia. unfold zlen at 1. rewrite Nat2Z.id.
    rewrite decode_ints by (done || lia). bsimpl. done.
  - (* booleans *)
    destruct Hval as [Hok Hty]. apply FData_inj in Henc as ->. rewrite zlen_app, le32_zlen in H1, Hf.
    apply mem_at_appz in Hat as [Hat1 Hat2]; [|done]. rewrite le32_zlen in Hat2.
    assert (Hk : 0 ≤ 1 < 5) by lia.
    destruct (field_arg_array f 1 mk mv Hk Hty Hmap) as (Harg & -> & ->).
    cbn [negb]. rewrite Hmap. bsimpl. unfold decode_array. pose proof (zlen_nonneg vs).
    rewrite (todword_at data off (zlen vs)) by (done || lia). bsimpl.
    cbn [field_events]. unfold array_events. rewrite Harg. cbn [a_type].
    destruct vs as [|v vs']; [done|]. set (vs := v :: vs') in *.
    rewrite (proj2 (Z.eqb_neq (zlen vs) 0)) by (unfold vs; rewrite zlen_cons; pose proof (zlen_nonneg vs'); lia).
    cbn [Z.eqb SPROTO_TDOUBLE SPROTO_TINTEGER SPROTO_TBOOLEAN orb Pos.eqb].
    unfold zlen at 1. rewrite Nat2Z.id. unfold SIZEOF_LENGTH. rewrite decode_bools by (done || lia). done.
  - (* strings or structures *)
    destruct Hval as [Hok Hty]. apply FData_inj in Henc as ->. rewrite zlen_app, le32_zlen in H1, Hf.
    apply mem_at_appz in Hat as [Hat1 Hat2]; [|done]. rewrite le32_zlen in Hat2.
    assert (Hk : ∃ k, 0 ≤ k < 5 ∧ f_type f = k + SPROTO_TARRAY ∧ (k = 2 ∨ k = 4)).
    { unfold SPROTO_TSTRING, SPROTO_TSTRUCT in Hty. destruct Hty; eexists; (split; [|split; [done|]]); lia. }
    destruct Hk as (k & Hk & Htk & Hk'). destruct (field_arg_array f k mk mv Hk Htk Hmap) as (Harg & -> & ->).
    cbn [negb]. rewrite Hmap. bsimpl. unfold decode_array. pose proof (zlen_nonneg (objs_bytes bss)).
    rewrite (todword_at data off (zlen (objs_bytes bss))) by (done || lia). bsimpl.
    cbn [field_events]. unfold array_events. rewrite Harg. cbn [a_type].
    destruct bss as [|bs1 bss']; [done|]. set (bss := bs1 :: bss') in *.
    assert (Hpos : zlen bss * 4 ≤ zlen (objs_bytes bss)).
    { clear. generalize bss as l. induction l as [|b l IH]; [done|].
      unfold objs_bytes in *. cbn. rewrite !zlen_app, le32_zlen, zlen_cons. pose proof (zlen_nonneg b). lia. }
    assert (0 < zlen bss) by (unfold bss; rewrite zlen_cons; pose proof (zlen_nonneg bss'); lia).
    rewrite (proj2 (Z.eqb_neq (zlen (objs_bytes bss)) 0)) by lia.
    assert (Hk3 : (k =? SPROTO_TDOUBLE) || (k =? SPROTO_TINTEGER) = false) by (destruct Hk' as [-> | ->]; done).
    assert (Hk1 : (k =? SPROTO_TBOOLEAN) = false) by (destruct Hk' as [-> | ->]; done).
    assert (Hk24 : (k =? SPROTO_TSTRING) || (k =? SPROTO_TSTRUCT) = true) by (destruct Hk' as [-> | ->]; done).
    rewrite Hk3, Hk1, Hk24. unfold decode_array_object, SIZEOF_LENGTH.
    assert (Hi : i32 (zlen (objs_bytes bss)) = zlen (objs_bytes bss)) by (unfold i32; rewrite Z.mod_small by lia; lia).
    rewrite Hi. change 1 with (Z.of_nat 0 + 1) at 1.
    rewrite (decode_objs _ bss fuel 0) by (done || (unfold zlen in *; lia)). done.
Qed.
End decode_proofs.

(** *** The encoder on a message *)

Section encode_msg.
Context (types : list sproto_type) (m : msg).

(** A callback's answer that is not an error is the one of the message. *)
Lemma checked_cases a x : checked a x = x ∨ checked a x = AError.
Proof. unfold checked. destruct (bool_decide _); auto. Qed.

Lemma take_lookup_snoc {A} (l : list A) k x :
  l !! k = Some x → take k l ++ [x] = take (S k) l ∧ length (take k l) = k.
Proof.
  intros Hx. split; [by rewrite (take_S_r _ _ _ Hx)|].
  rewrite length_take. apply lookup_lt_Some in Hx. lia.
Qed.

Lemma array_state {A} (l vs : list A) : ∃ k, take (length vs) l = take k l.
Proof. by eexists. Qed.

Lemma ref_ints_msg fuel args size its r :
  m (a_tagid args) = Some (VInts its) →
  loop fuel (ref_ints_turn (cb_of m) args size) (tt, []) = Ret r →
  r.2 = AFail ∨ r.2 = AItems (ints_payload its).
Proof.
  intros Hm. apply (loop_partial (λ s, s.2 = take (length s.2) its)
    (λ r, r.2 = AFail ∨ r.2 = AItems (ints_payload its))); [| |done].
  - intros [u got] [u' got'] Hgot Hturn. cbn in Hgot. unfold ref_ints_turn, cb_of in Hturn.
    cbn [a_tagid a_index arg_set] in Hturn. rewrite Hm in Hturn.
    assert (Hi : Z.to_nat (zlen got + 1 - 1) = length got) by (unfold zlen; lia).
    rewrite Hi in Hturn. revert Hturn.
    destruct (checked_cases (arg_set args 8 (zlen got + 1))
      (from_option answer_int ANil (its !! length got))) as [-> | ->]; [|done].
    destruct (its !! length got) as [[w v]|] eqn:Hx; [|done]. cbn [from_option].
    apply take_lookup_snoc in Hx as [Htake Hlen].
    destruct w; cbn.
    + destruct (_ <? _); [done|]. destruct (_ && _); [done|]. intros [= <- <-].
      cbn. rewrite length_app. cbn. rewrite Nat.add_1_r, <-Htake. by rewrite <-Hgot.
    + destruct (_ <? _); [done|]. intros [= <- <-].
      cbn. rewrite length_app. cbn. rewrite Nat.add_1_r, <-Htake. by rewrite <-Hgot.
  - intros [u got] [u' res] Hgot Hturn. cbn in Hgot. unfold ref_ints_turn, cb_of in Hturn.
    cbn [a_tagid a_index arg_set] in Hturn. rewrite Hm in Hturn.
    assert (Hi : Z.to_nat (zlen got + 1 - 1) = length got) by (unfold zlen; lia).
    rewrite Hi in Hturn. revert Hturn.
    destruct (checked_cases (arg_set args 8 (zlen got + 1))
      (from_option answer_int ANil (its !! length got))) as [-> | ->];
      [|intros [= <- <-]; by left].
    destruct (its !! length got) as [[w v]|] eqn:Hx; cbn [from_option].
    + destruct w; cbn; repeat case_match; try done; intros [= <- <-]; by left.
    + intros [= <- <-]. right. cbn. f_equal. f_equal. rewrite Hgot.
      apply take_ge. by apply lookup_ge_None.
Qed.

Lemma ref_bools_msg fuel args size vs r :
  m (a_tagid args) = Some (VBools vs) → Forall (λ v, v = 0 ∨ v = 1) vs →
  loop fuel (ref_bools_turn (cb_of m) args size) (tt, []) = Ret r →
  r.2 = AFail ∨ r.2 = AItems vs.
Proof.
  intros Hm Hvs. apply (loop_partial (λ s, s.2 = take (length s.2) vs)
    (λ r, r.2 = AFail ∨ r.2 = AItems vs)); [| |done].
  - intros [u got] [u' got'] Hgot Hturn. cbn in Hgot. unfold ref_bools_turn, cb_of in Hturn.
    cbn [a_tagid a_index arg_set] in Hturn. rewrite Hm in Hturn.
    assert (Hi : Z.to_nat (zlen got + 1 - 1) = length got) by (unfold zlen; lia).
    rewrite Hi in Hturn. revert Hturn.
    destruct (checked_cases (arg_set args 4 (zlen got + 1))
      (from_option AInt32 ANil (vs !! length got))) as [-> | ->]; [|done].
    destruct (vs !! length got) as [v|] eqn:Hx; [|done]. cbn.
    assert (Hv : (if v =? 0 then 0 else 1) = v).
    { rewrite Forall_lookup in Hvs. by destruct (Hvs _ _ Hx) as [-> | ->]. }
    apply take_lookup_snoc in Hx as [Htake Hlen].
    destruct (_ <? _); [done|]. intros [= <- <-]. rewrite Hv.
    cbn. rewrite length_app. cbn. rewrite Nat.add_1_r, <-Htake. by rewrite <-Hgot.
  - intros [u got] [u' res] Hgot Hturn. cbn in Hgot. unfold ref_bools_turn, cb_of in Hturn.
    cbn [a_tagid a_index arg_set] in Hturn. rewrite Hm in Hturn.
    assert (Hi : Z.to_nat (zlen got + 1 - 1) = length got) by (unfold zlen; lia).
    rewrite Hi in Hturn. revert Hturn.
    destruct (checked_cases (arg_set args 4 (zlen got + 1))
      (from_option AInt32 ANil (vs !! length got))) as [-> | ->];
      [|intros [= <- <-]; by left].
    destruct (vs !! length got) as [v|] eqn:Hx; cbn [from_option].
    + cbn. destruct (_ <? _); [|done]. intros [= <- <-]. by left.
    + intros [= <- <-]. right. cbn. f_equal. rewrite Hgot.
      apply take_ge. by apply lookup_ge_None.
Qed.

Lemma ref_objs_msg fuel args size bss r :
  m (a_tagid args) = Some (VObjs bss) →
  loop fuel (ref_objs_turn (cb_of m) args size) (tt, []) = Ret r →
  r.2 = AFail ∨ r.2 = AItems (objs_bytes bss).
Proof.
  intros Hm. apply (loop_partial (λ s, s.2 = take (length s.2) bss)
    (λ r, r.2 = AFail ∨ r.2 = AItems (objs_bytes bss))); [| |done].
  - intros [u got] [u' got'] Hgot Hturn. cbn in Hgot. unfold ref_objs_turn, cb_of in Hturn.
    destruct (_ <? _); [done|]. set (sz := _ - _ - _) in Hturn.
    cbn [a_tagid a_index arg_set] in Hturn. rewrite Hm in Hturn.
    assert (Hi : Z.to_nat (zlen got + 1 - 1) = length got) by (unfold zlen; lia).
    rewrite Hi in Hturn. revert Hturn.
    destruct (checked_cases (arg_set args sz (zlen got + 1))
      (from_option ABytes ANil (bss !! length got))) as [-> | ->]; [|done].
    destruct (bss !! length got) as [v|] eqn:Hx; [|done]. cbn.
    apply take_lookup_snoc in Hx as [Htake Hlen].
    destruct (_ <=? _); [|done]. intros [= <- <-].
    cbn. rewrite length_app. cbn. rewrite Nat.add_1_r, <-Htake. by rewrite <-Hgot.
  - intros [u got] [u' res] Hgot Hturn. cbn in Hgot. unfold ref_objs_turn, cb_of in Hturn.
    destruct (_ <? _); [injection Hturn as <- <-; by left|]. set (sz := _ - _ - _) in Hturn.
    cbn [a_tagid a_index arg_set] in Hturn. rewrite Hm in Hturn.
    assert (Hi : Z.to_nat (zlen got + 1 - 1) = length got) by (unfold zlen; lia).
    rewrite Hi in Hturn. revert Hturn.
    destruct (checked_cases (arg_set args sz (zlen got + 1))
      (from_option ABytes ANil (bss !! length got))) as [-> | ->];
      [|intros [= <- <-]; by left].
    destruct (bss !! length got) as [v|] eqn:Hx; cbn [from_option].
    + cbn. by destruct (_ <=? _).
    + intros [= <- <-]. right. cbn. f_equal. f_equal. rewrite Hgot.
      apply take_ge. by apply lookup_ge_None.
Qed.

Lemma checked_none a : checked a (if a_index a =? 0 then ANil else ANoArray) =
  if a_index a =? 0 then ANil else ANoArray.
Proof. unfold checked. rewrite bool_decide_eq_true_2; [done|]. by destruct (_ =? 0). Qed.

Lemma ref_array_none fuel args size r :
  m (a_tagid args) = None →
  ref_array (cb_of m) fuel tt args size = Ret (tt, r) → r = FErr ∨ r = FSkip.
Proof.
  intros Hm. unfold ref_array. destruct (size <? SIZEOF_LENGTH); [intros [= <-]; by left|].
  intros ([[] res] & Hr & [= <-])%bind_Ret_inv.
  assert (Hcb : ∀ len, cb_of m tt (arg_set args len (zlen (@nil Z) + 1)) = (tt, ANoArray)).
  { intros len. unfold cb_of. cbn [a_tagid arg_set]. rewrite Hm.
    by rewrite (checked_none (arg_set args len _)). }
  destruct (_ || _).
  { destruct (_ <? 1); [injection Hr as <-; by left|]. destruct fuel; [done|].
    rewrite loop_S in Hr. unfold ref_ints_turn in Hr. change (zlen []) with (zlen (@nil Z)) in Hr.
    rewrite Hcb in Hr. injection Hr as <-. by right. }
  destruct (_ =? _).
  { destruct fuel; [done|]. rewrite loop_S in Hr. unfold ref_bools_turn in Hr.
    rewrite Hcb in Hr. injection Hr as <-. by right. }
  destruct fuel; [done|]. rewrite loop_S in Hr. unfold ref_objs_turn in Hr.
  change (zlen (@nil (list Z))) with (zlen (@nil Z)) in Hr.
  destruct (_ <? _); [injection Hr as <-; by left|].
  rewrite Hcb in Hr. injection Hr as <-. by right.
Qed.

Lemma ref_field_msg n fuel f size r :
  field_type_ok n f → map_ok types f → (∀ v, m (f_tag f) = Some v → val_ok f v) →
  ref_field types (cb_of m) fuel f tt size = Ret (tt, r) →
  r = FErr ∨ match m (f_tag f) with None => r = FSkip | Some v => r = field_enc v end.
Proof.
  intros Hft ([mk mv] & Hmap) Hval. unfold ref_field.
  destruct (field_type_base _ _ Hft) as (k & Hk & Hty).
  destruct (m (f_tag f)) as [v|] eqn:Hm.
  2:{ destruct (array_type (f_type f) k Hk Hty) as [[Htk ->]|[-> Htk]]; cbn [negb].
      2:{ rewrite Hmap. bsimpl. intros Hr. by eapply ref_array_none in Hr. }
      assert (Hcb : ∀ len a, a_tagid a = f_tag f → cb_of m tt (arg_set a len 0) = (tt, ANil)).
      { intros len a Ha. unfold cb_of. cbn [a_tagid arg_set]. rewrite Ha, Hm.
        by rewrite (checked_none (arg_set a len 0)). }
      destruct (_ || _ || _).
      { rewrite Hcb by done. intros [= <-]. by right. }
      destruct (_ || _); [|intros [= <-]; by left].
      unfold ref_object. destruct (_ <? _); [intros [= <-]; by left|].
      cbn [a_index]. rewrite Hcb by done. intros [= <-]. by right. }
  specialize (Hval v eq_refl). destruct v as [[w v]|bs|its|vs|bss]; cbn in Hval.
  - destruct Hval as [Hit Hty'].
    assert (Hland : (Z.land (f_type f) SPROTO_TARRAY =? 0) = true)
      by (destruct Hty' as [->|[[-> _]|[-> _]]]; done).
    assert (Hint : (f_type f =? SPROTO_TDOUBLE) || (f_type f =? SPROTO_TINTEGER) ||
      (f_type f =? SPROTO_TBOOLEAN) = true) by (destruct Hty' as [->|[[-> _]|[-> _]]]; done).
    rewrite Hland, Hint. cbn [negb]. unfold cb_of. cbn [a_tagid arg_set]. rewrite Hm.
    destruct (checked_cases (arg_set (MkArg (f_name f) (f_tag f) (f_type f) (f_st f) 0 0 (f_key f)
      (f_extra f) None None) 8 0) (answer_int (w, v))) as [-> | ->]; [|intros [= <-]; by left].
    destruct w; cbn.
    + intros [= <-]. destruct (_ <? _); auto.
    + intros [= <-]. destruct (v <? 32767); [by right|]. destruct (size <? 8); auto.
  - destruct Hval as [Hb Hty'].
    assert (Hland : (Z.land (f_type f) SPROTO_TARRAY =? 0) = true) by (destruct Hty' as [-> | ->]; done).
    assert (Hint : (f_type f =? SPROTO_TDOUBLE) || (f_type f =? SPROTO_TINTEGER) ||
      (f_type f =? SPROTO_TBOOLEAN) = false) by (destruct Hty' as [-> | ->]; done).
    assert (Hobj : (f_type f =? SPROTO_TSTRUCT) || (f_type f =? SPROTO_TSTRING) = true)
      by (destruct Hty' as [-> | ->]; done).
    rewrite Hland, Hint, Hobj. cbn [negb]. unfold ref_object.
    destruct (_ <? _); [intros [= <-]; by left|]. unfold cb_of. cbn [a_tagid arg_set a_index].
    rewrite Hm. set (a := arg_set _ _ _).
    destruct (checked_cases a (ABytes bs)) as [-> | ->]; [|intros [= <-]; by left].
    destruct (_ <=? _); [|done]. intros [= <-]. by right.
  - destruct Hval as [Hb Hty'].
    assert (Hland : (Z.land (f_type f) SPROTO_TARRAY =? 0) = false) by (destruct Hty' as [-> | ->]; done).
    rewrite Hland, Hmap. cbn [negb]. bsimpl. set (a := MkArg _ _ _ _ _ _ _ _ _ _).
    assert (Hkk : (a_type a =? SPROTO_TDOUBLE) || (a_type a =? SPROTO_TINTEGER) = true).
    { subst a. cbn [a_type]. destruct Hty' as [-> | ->]; done. }
    unfold ref_array. destruct (_ <? _); [intros [= <-]; by left|].
    rewrite Hkk. intros ([[] res] & Hr & [= <-])%bind_Ret_inv.
    destruct (_ <? 1); [injection Hr as <-; by left|].
    destruct (ref_ints_msg fuel a _ its _ Hm Hr) as [E|E]; cbn in E; subst; auto.
  - destruct Hval as [Hb Hty'].
    assert (Hland : (Z.land (f_type f) SPROTO_TARRAY =? 0) = false) by (rewrite Hty'; done).
    rewrite Hland, Hmap. cbn [negb]. bsimpl. set (a := MkArg _ _ _ _ _ _ _ _ _ _).
    assert (Hkt : a_type a = SPROTO_TBOOLEAN) by (subst a; cbn [a_type]; rewrite Hty'; done).
    unfold ref_array. destruct (_ <? _); [intros [= <-]; by left|].
    rewrite Hkt. intros ([[] res] & Hr & [= <-])%bind_Ret_inv.
    destruct (ref_bools_msg fuel a _ vs _ Hm Hb Hr) as [E|E]; cbn in E; subst; auto.
  - destruct Hval as [Hb Hty'].
    assert (Hland : (Z.land (f_type f) SPROTO_TARRAY =? 0) = false) by (destruct Hty' as [-> | ->]; done).
    rewrite Hland, Hmap. cbn [negb]. bsimpl. set (a := MkArg _ _ _ _ _ _ _ _ _ _).
    assert (Hkt : a_type a = SPROTO_TSTRING ∨ a_type a = SPROTO_TSTRUCT).
    { subst a. cbn [a_type]. destruct Hty' as [-> | ->]; vm_compute; auto. }
    assert (Hk1 : (a_type a =? SPROTO_TDOUBLE) || (a_type a =? SPROTO_TINTEGER) = false)
      by (destruct Hkt as [-> | ->]; done).
    assert (Hk2 : (a_type a =? SPROTO_TBOOLEAN) = false) by (destruct Hkt as [-> | ->]; done).
    unfold ref_array. destruct (_ <? _); [intros [= <-]; by left|].
    rewrite Hk1, Hk2. intros ([[] res] & Hr & [= <-])%bind_Ret_inv.
    destruct (ref_objs_msg fuel a _ bss _ Hm Hr) as [E|E]; cbn in E; subst; auto.
Qed.
End encode_msg.

(** ** Decoding what was encoded *)

Lemma chain_weaken l l' ts : l' ≤ l → chain l ts → chain l' ts.
Proof. destruct ts; cbn; [done|]. intros ? [? ?]. split; [lia|done]. Qed.

Lemma findtag_field n st f :
  type_wf n st → f ∈ t_f st → findtag st (f_tag f) = Ret (Some f).
Proof.
  intros Hwf Hf. destruct (findtag_spec n st (f_tag f) Hwf) as (o & -> & Ho).
  destruct o as [g|]; [|by destruct (Ho f Hf)]. destruct Ho as [Hg Htag]. do 2 f_equal.
  apply list_elem_of_lookup in Hf as [i Hi], Hg as [j Hj].
  assert (Hfm : ∀ k h, t_f st !! k = Some h → (f_tag <$> t_f st) !! k = Some (f_tag h)).
  { intros k h Hk. by rewrite list_lookup_fmap, Hk. }
  destruct (Nat.lt_trichotomy i j) as [Hij|[->|Hij]]; [|congruence|].
  - pose proof (wf_asc _ _ Hwf i j _ _ Hij (Hfm _ _ Hi) (Hfm _ _ Hj)). lia.
  - pose proof (wf_asc _ _ Hwf j i _ _ Hij (Hfm _ _ Hj) (Hfm _ _ Hi)). lia.
Qed.

Section roundtrip.
Context (types : list sproto_type) (n : Z) (st : sproto_type) (m : msg)
  (Hst : encodable types n st) (Hm : msg_ok st m)
  (data : list Z) (Hsize : zlen data < 2 ^ 31) (fuel : nat).

(** A skip marker moves the tag. *)
Lemma decode_skip i log ds sz last tag :
  0 < tag - last - 1 → toword data (SIZEOF_HEADER + i * SIZEOF_FIELD) = Ret ((tag - last - 1 - 1) * 2 + 1) →
  decode_turn types log_cb data fuel st SIZEOF_HEADER i (log, ds, sz, last) =
    Ret (Some (log, ds, sz, tag - 1)).
Proof.
  intros Ht Hw. unfold decode_turn. rewrite Hw. bsimpl.
  replace (Z.odd ((tag - last - 1 - 1) * 2 + 1)) with true.
  2:{ rewrite (Z.add_comm _ 1), (Z.mul_comm _ 2), Z.odd_add_mul_2. done. }
  do 3 f_equal. zlia.
Qed.

(** A value in the header. *)
Lemma decode_inline i log ds sz f it w :
  f ∈ t_f st → val_ok f (VInt it) → field_enc (VInt it) = FVal w →
  toword data (SIZEOF_HEADER + i * SIZEOF_FIELD) = Ret w →
  decode_turn types log_cb data fuel st SIZEOF_HEADER i (log, ds, sz, f_tag f - 1) =
    Ret (Some (log ++ field_events types f (VInt it), ds, sz, f_tag f)).
Proof.
  intros Hf [Hit Hty] Henc Hw. destruct it as [[|] v]; cbn in Henc; [done|].
  destruct (Z.ltb_spec v 32767); [|done]. injection Henc as <-. cbn in Hit, Hty.
  unfold item_ok in Hit. cbn in Hit. unfold decode_turn. rewrite Hw. bsimpl.
  rewrite Z.odd_mul, andb_false_r.
  replace ((v + 1) * 2 / 2 - 1) with v by zlia. destruct (Z.ltb_spec v 0); [lia|]. bsimpl.
  replace (f_tag f - 1 + 1) with (f_tag f) by lia.
  rewrite (findtag_field n) by (done || apply Hst). bsimpl.
  assert (Hk : ∃ k, 0 ≤ k < 5 ∧ f_type f = k ∧
    negb (k =? SPROTO_TINTEGER) && negb (k =? SPROTO_TBOOLEAN) = false).
  { destruct Hty as [->|[[_ ?]|[-> _]]]; [|done|]; eexists; (split; [|split; [done|done]]);
      unfold SPROTO_TINTEGER, SPROTO_TBOOLEAN; lia. }
  destruct Hk as (k & Hk & Htk & Hn). rewrite Htk, Hn. cbn [field_events].
  rewrite (field_arg_scalar types f k Hk Htk). cbn [log_cb fst snd arg_set ival a_tagname a_tagid a_type a_subtype a_mainindex a_extra a_ktagname a_vtagname].
  replace (expand64 v) with v; [done|].
  rewrite expand64_high by lia. replace (Z.land v 2147483648) with 0; [cbn; lia|].
  symmetry. apply Z.bits_inj'. intros b Hb. rewrite Z.land_spec, Z.bits_0.
  change 2147483648 with (2 ^ 31). destruct (decide (b = 31)) as [->|].
  - replace (Z.testbit v 31) with false; [done|]. symmetry. rewrite Z.testbit_false, Z.div_small by lia. done.
  - rewrite (Z.pow2_bits_false 31) by lia. apply andb_false_r.
Qed.

(** A value in the data. *)
Lemma decode_outline i log ds sz f v bs :
  f ∈ t_f st → val_ok f v → field_enc v = FData bs →
  toword data (SIZEOF_HEADER + i * SIZEOF_FIELD) = Ret 0 →
  0 ≤ ds → ds + zlen bs ≤ zlen data → mem_at data (Z.to_nat ds) bs →
  zlen bs ≤ sz < 2 ^ 31 → (Z.to_nat (zlen bs) < fuel)%nat →
  decode_turn types log_cb data fuel st SIZEOF_HEADER i (log, ds, sz, f_tag f - 1) =
    Ret (Some (log ++ field_events types f v, ds + zlen bs, sz - zlen bs, f_tag f)).
Proof.
  intros Hf Hv Henc Hw H0 H1 Hat Hsz Hfuel. unfold decode_turn. rewrite Hw. bsimpl.
  change (Z.odd 0) with false. change (0 / 2 - 1) with (-1). cbn [Z.ltb Z.compare].
  replace (f_tag f - 1 + 1) with (f_tag f) by lia.
  (* the length word of the data *)
  assert (Hlen : ∃ p, bs = le32 (zlen p) ++ p ∧ 0 ≤ zlen p < 2 ^ 32).
  { assert (Hx : ∀ p, bs = le32 (zlen p) ++ p → ∃ p, bs = le32 (zlen p) ++ p ∧ 0 ≤ zlen p < 2 ^ 32).
    { intros p ->. exists p. split; [done|]. rewrite zlen_app, le32_zlen in H1.
      pose proof (zlen_nonneg p). lia. }
    destruct v as [[[|] v]|p|its|vs|bss]; cbn in Henc.
    - apply (Hx (le64 v)). by apply FData_inj in Henc.
    - destruct (v <? 32767); [done|]. apply (Hx (le32 v)). by apply FData_inj in Henc.
    - eapply Hx. by apply FData_inj in Henc.
    - eapply Hx. by apply FData_inj in Henc.
    - eapply Hx. by apply FData_inj in Henc.
    - eapply Hx. by apply FData_inj in Henc. }
  destruct Hlen as (p & Hp & Hpl). pose proof Hat as Hat'. rewrite Hp in Hat'.
  apply mem_at_appz in Hat' as [Hat1 _]; [|done].
  assert (Hbl : zlen bs = 4 + zlen p) by (rewrite Hp, zlen_app, le32_zlen; done).
  unfold SIZEOF_LENGTH. destruct (Z.ltb_spec sz 4); [lia|].
  rewrite (todword_at data ds (zlen p)) by (done || lia). bsimpl.
  assert (Hu1 : u32 (zlen p + 4) = zlen bs) by (unfold u32; rewrite Z.mod_small; lia).
  assert (Hu2 : u32 sz = sz) by (unfold u32; rewrite Z.mod_small; lia).
  assert (Hu3 : i32 (sz - zlen bs) = sz - zlen bs) by (unfold i32; rewrite Z.mod_small by lia; lia).
  rewrite Hu1, Hu2, Hu3. destruct (Z.ltb_spec sz (zlen bs)); [lia|]. bsimpl.
  rewrite (findtag_field n) by (done || apply Hst). bsimpl.
  rewrite (decode_data_ok types data Hsize n fuel f v ds bs) by
    (done || apply (wf_field _ _ (proj1 Hst)), Hf || apply Hst, Hf).
  done.
Qed.

(** The words and the data of one field, whatever tag it comes behind. *)
Lemma decode_field i log ds sz last f v w bs :
  f ∈ t_f st → val_ok f v → last < f_tag f < 2 ^ 15 → -1 ≤ last →
  (field_enc v = FVal w ∧ bs = []) ∨ (field_enc v = FData bs ∧ w = 0) →
  (∀ j x, tag_words last (f_tag f) w !! j = Some x →
     toword data (SIZEOF_HEADER + (i + Z.of_nat j) * SIZEOF_FIELD) = Ret x) →
  0 ≤ ds → ds + zlen bs ≤ zlen data → mem_at data (Z.to_nat ds) bs →
  zlen bs ≤ sz < 2 ^ 31 → (Z.to_nat (zlen bs) < fuel)%nat →
  for_opt (length (tag_words last (f_tag f) w)) i (decode_turn types log_cb data fuel st SIZEOF_HEADER)
    (log, ds, sz, last) =
  Ret (Some (log ++ field_events types f v, ds + zlen bs, sz - zlen bs, f_tag f)).
Proof.
  intros Hf Hv Hlast Hl1 Henc Hwords H0 H1 Hat Hsz Hfuel.
  assert (Hvalue : ∀ i', toword data (SIZEOF_HEADER + i' * SIZEOF_FIELD) = Ret w →
    decode_turn types log_cb data fuel st SIZEOF_HEADER i' (log, ds, sz, f_tag f - 1) =
    Ret (Some (log ++ field_events types f v, ds + zlen bs, sz - zlen bs, f_tag f))).
  { intros i' Hw. destruct Henc as [[Henc ->]|[Henc ->]].
    - destruct v as [it|p|its|vs|bss]; try done. change (zlen []) with 0.
      rewrite Z.add_0_r, Z.sub_0_r. by eapply decode_inline.
    - by apply decode_outline. }
  unfold tag_words in *. destruct (Z.ltb_spec 0 (f_tag f - last - 1)).
  - cbn [app length]. rewrite for_opt_S.
    pose proof (Hwords 0%nat _ eq_refl) as Hw0. rewrite Z.add_0_r in Hw0.
    rewrite (decode_skip i log ds sz last (f_tag f)) by done. bsimpl.
    pose proof (Hwords 1%nat _ eq_refl) as Hw1. change (Z.of_nat 1) with 1 in Hw1.
    rewrite for_opt_S, Hvalue by done. done.
  - cbn [app length]. pose proof (Hwords 0%nat _ eq_refl) as Hw0. rewrite Z.add_0_r in Hw0.
    replace last with (f_tag f - 1) by lia. rewrite for_opt_S, Hvalue by done. done.
Qed.

Lemma lookup_app_l2 {A} (l k : list A) j x : l !! j = Some x → (l ++ k) !! j = Some x.
Proof. intros H. by apply lookup_app_l_Some. Qed.

Lemma decode_fields efuel size0 fs : ∀ s s' log ds0 rest,
  (∀ f, f ∈ fs → f ∈ t_f st) → chain (r_lasttag s) (f_tag <$> fs) → -1 ≤ r_lasttag s →
  ref_fields types (cb_of m) efuel size0 fs s = Ret (inl s') →
  ∃ ws ds, r_recs s' = r_recs s ++ ws ∧ r_data s' = r_data s ++ ds ∧
    ((∀ j x, ws !! j = Some x →
        toword data (SIZEOF_HEADER + (zlen (r_recs s) + Z.of_nat j) * SIZEOF_FIELD) = Ret x) →
     0 ≤ ds0 → ds0 + zlen ds ≤ zlen data → mem_at data (Z.to_nat ds0) ds →
     0 ≤ rest → zlen ds + rest < 2 ^ 31 → (Z.to_nat (zlen ds) < fuel)%nat →
     for_opt (length ws) (zlen (r_recs s)) (decode_turn types log_cb data fuel st SIZEOF_HEADER)
       (log, ds0, zlen ds + rest, r_lasttag s) =
     Ret (Some (log ++ concat ((λ f, from_option (field_events types f) [] (m (f_tag f))) <$> fs),
                ds0 + zlen ds, rest, r_lasttag s'))).
Proof.
  destruct Hst as [Hwf Hmaps].
  induction fs as [|f fs IH]; intros s s' log ds0 rest Hfs Hchain Hl1 Hrun.
  { cbn in Hrun. injection Hrun as <-. exists [], []. rewrite !app_nil_r.
    split_and!; [done|done|]. intros. change (zlen (@nil Z)) with 0.
    rewrite Z.add_0_l, Z.add_0_r. cbn. by rewrite ?app_nil_r. }
  cbn [ref_fields] in Hrun. apply bind_Ret_inv in Hrun as (o & Hturn & Hrun).
  destruct o as [s1|]; [|done]. cbn in Hchain. destruct Hchain as [Hlt Hchain].
  assert (Hf : f ∈ t_f st) by (apply Hfs; set_solver).
  destruct s as [[] recs datas last]. cbn in Hlt, Hl1, Hturn |- *.
  apply bind_Ret_inv in Hturn as ([[] r] & Hr & Hturn).
  apply (ref_field_msg types m n) in Hr; [|by apply (wf_field _ _ Hwf)|by apply Hmaps|by intros v; apply Hm].
  pose proof (wf_tags _ _ Hwf f Hf) as Htag.
  destruct (m (f_tag f)) as [v|] eqn:Hmv.
  2:{ destruct Hr as [-> | ->]; [done|]. injection Hturn as <-.
      destruct (IH (MkRef tt recs datas last) s' log ds0 rest (λ g Hg, Hfs g (list_elem_of_further _ _ _ Hg))
        (chain_weaken (f_tag f) last _ ltac:(lia) Hchain) Hl1 Hrun) as (ws & ds & Hws & Hds & Hdec).
      exists ws, ds. cbn in *. done. }
  assert (Hv : val_ok f v) by by apply Hm.
  assert (Henc : ∃ w bs, ((field_enc v = FVal w ∧ bs = []) ∨ (field_enc v = FData bs ∧ w = 0)) ∧
    s1 = MkRef tt (recs ++ tag_words last (f_tag f) w) (datas ++ bs) (f_tag f)).
  { destruct Hr as [-> | ->]; [done|].
    destruct (field_enc v) as [| | |w|bs] eqn:E; try done.
    - destruct (field_enc_cases v) as [[? E']|[? E']]; congruence.
    - injection Hturn as <-. exists w, []. rewrite app_nil_r. auto.
    - injection Hturn as <-. exists 0, bs. auto. }
  destruct Henc as (w & bs & Henc & ->).
  destruct (IH (MkRef tt (recs ++ tag_words last (f_tag f) w) (datas ++ bs) (f_tag f)) s' (log ++ field_events types f v) (ds0 + zlen bs) rest
    (λ g Hg, Hfs g (list_elem_of_further _ _ _ Hg)) Hchain ltac:(cbn; lia) Hrun)
    as (ws & ds & Hws & Hds & Hdec). cbn in Hws, Hds, Hdec.
  exists (tag_words last (f_tag f) w ++ ws), (bs ++ ds). rewrite !app_assoc.
  split_and!; [done|done|]. intros Hwords H0 H1 Hat Hrest Hsmall Hfuel.
  rewrite zlen_app in *. pose proof (zlen_nonneg bs). pose proof (zlen_nonneg ds).
  apply mem_at_appz in Hat as [Hat1 Hat2]; [|done].
  rewrite length_app, for_opt_app.
  rewrite (decode_field (zlen recs) log ds0 (zlen bs + zlen ds + rest) last f v w bs); try done || lia.
  2:{ intros j x Hj. apply Hwords. by apply lookup_app_l2. }
  bsimpl. replace (zlen bs + zlen ds + rest - zlen bs) with (zlen ds + rest) by lia.
  change (Z.of_nat (length (tag_words last (f_tag f) w))) with (zlen (tag_words last (f_tag f) w)).
  rewrite Hdec; try done || lia.
  - cbn. by rewrite Z.add_assoc.
  - intros j x Hj. unfold zlen at 2.
    replace (zlen recs + Z.of_nat (length (tag_words last (f_tag f) w)) + Z.of_nat j)
      with (zlen recs + Z.of_nat (length (tag_words last (f_tag f) w) + j)) by lia.
    apply Hwords. rewrite lookup_app_r by lia. rewrite <-Hj. f_equal. lia.
Qed.
End roundtrip.

(** *** A buffer that is large enough *)

(** The bytes of data of a value. *)
Definition data_of (o : option fval) : list Z :=
  match o with
  | Some v => match field_enc v with FData bs => bs | _ => [] end
  | None => []
  end.

Section room.
Context (types : list sproto_type) (m : msg).

Lemma checked_ok a x : answer_ok a x → checked a x = x.
Proof. intros H. unfold checked. by rewrite bool_decide_eq_true_2. Qed.

Lemma ints_bytes_prefix_len (its : list item) k :
  zlen (ints_bytes (take k its)) ≤ zlen (ints_bytes its).
Proof.
  rewrite !ints_bytes_zlen. assert (Hl : zlen (take k its) ≤ zlen its).
  { unfold zlen. rewrite length_take. lia. }
  assert (Hi : intlen_of (take k its) ≤ intlen_of its).
  { unfold intlen_of. rewrite <-(take_drop k its) at 2. rewrite existsb_app.
    unfold SIZEOF_INT64, SIZEOF_INT32. destruct (existsb fst (take k its)); cbn; [lia|].
    destruct (existsb fst (drop k its)); lia. }
  pose proof (zlen_nonneg (take k its)).
  destruct (intlen_cases (take k its)) as [[_ E1]|[_ E1]],
    (intlen_cases its) as [[_ E2]|[_ E2]]; rewrite E1, E2 in *; lia.
Qed.

Lemma ref_ints_room fuel args size its :
  m (a_tagid args) = Some (VInts its) → Forall item_ok its →
  a_type args = SPROTO_TINTEGER ∨ a_type args = SPROTO_TDOUBLE →
  zlen (ints_bytes its) + 4 ≤ size → (Z.to_nat size < fuel)%nat →
  ∃ r, loop fuel (ref_ints_turn (cb_of m) args size) (tt, []) = Ret r ∧ r.2 ≠ AFail.
Proof.
  intros Hm Hok Hty Hroom Hf.
  apply (loop_total (λ s : unit * list item, s.2 = take (length s.2) its)
    (λ s, Z.to_nat (size - zlen (ints_bytes s.2))) (λ r : unit * ares, r.2 ≠ AFail));
    [|done|cbn; change (zlen (ints_bytes [])) with 0; lia].
  intros [[] got] Hgot. cbn in Hgot. unfold ref_ints_turn, cb_of.
  cbn [a_tagid a_index arg_set]. rewrite Hm.
  assert (Hi : Z.to_nat (zlen got + 1 - 1) = length got) by (unfold zlen; lia).
  rewrite Hi. destruct (its !! length got) as [it|] eqn:Hx; cbn [from_option].
  2:{ right. eexists. split; [done|]. done. }
  pose proof (proj1 (Forall_lookup _ _) Hok _ _ Hx) as Hit.
  pose proof (take_lookup_snoc its _ _ Hx) as [Htake Hlen]. rewrite <-Hgot in Htake, Hlen.
  pose proof (ints_bytes_prefix_len its (S (length got))) as Hpre. rewrite <-Htake in Hpre.
  pose proof (ints_grow got it) as Hgrow. pose proof (zlen_nonneg (ints_bytes got)).
  rewrite checked_ok.
  2:{ destruct it as [[|] v]; unfold item_ok in Hit; cbn in Hit |- *;
        unfold SPROTO_TINTEGER, SPROTO_TDOUBLE, SPROTO_TSTRING, SPROTO_TSTRUCT, SPROTO_TBOOLEAN in *;
        split_and!; lia. }
  rewrite !ints_bytes_zlen, intlen_snoc, zlen_app in Hpre, Hgrow. change (zlen [it]) with 1 in *.
  rewrite (ints_bytes_zlen got) in *. pose proof (zlen_nonneg got).
  assert (Hsnoc : got ++ [it] = take (length (got ++ [it])) its).
  { rewrite Htake, length_take. f_equal. apply lookup_lt_Some in Hx. lia. }
  assert (Hdec : (Z.to_nat (size - zlen (ints_bytes (got ++ [it]))) <
    Z.to_nat (size - intlen_of got * zlen got))%nat).
  { rewrite ints_bytes_zlen, intlen_snoc, zlen_app. change (zlen [it]) with 1.
    rewrite ints_bytes_zlen in Hroom. lia. }
  rewrite ints_bytes_zlen in Hroom. unfold SIZEOF_INT64, SIZEOF_INT32 in *.
  left. destruct it as [[|] v]; cbn in Hpre, Hdec |- *.
  - destruct (Z.ltb_spec (size - intlen_of got * zlen got) 8).
    { destruct (intlen_cases got) as [[_ E]|[_ E]]; rewrite E in *; lia. }
    assert (Hc : (intlen_of got =? 4) && (size - intlen_of got * zlen got - zlen got * 4 <? 8) = false).
    { destruct (intlen_cases got) as [[_ E]|[_ E]]; rewrite E in *; [done|]. cbn.
      apply Z.ltb_ge. lia. }
    rewrite Hc. eexists. split_and!; [done|done|]. cbn. rewrite ?(ints_bytes_zlen got). exact Hdec.
  - destruct (Z.ltb_spec (size - intlen_of got * zlen got) 8).
    { destruct (intlen_cases got) as [[_ E]|[_ E]]; rewrite E in *; lia. }
    eexists. split_and!; [done|done|]. cbn. rewrite ?(ints_bytes_zlen got). exact Hdec.
Qed.

Lemma take_snoc_self {A} (got l : list A) x :
  got = take (length got) l → l !! length got = Some x →
  got ++ [x] = take (length (got ++ [x])) l ∧ (length got < length l)%nat.
Proof.
  intros Hgot Hx. pose proof (take_lookup_snoc l _ _ Hx) as [Htake Hlen].
  rewrite <-Hgot in Htake. split; [|by apply lookup_lt_Some in Hx].
  rewrite Htake, length_take. f_equal. apply lookup_lt_Some in Hx. lia.
Qed.

Lemma ref_bools_room fuel args size vs :
  m (a_tagid args) = Some (VBools vs) → Forall (λ v, v = 0 ∨ v = 1) vs →
  a_type args = SPROTO_TBOOLEAN → zlen vs ≤ size → (Z.to_nat size < fuel)%nat →
  ∃ r, loop fuel (ref_bools_turn (cb_of m) args size) (tt, []) = Ret r ∧ r.2 ≠ AFail.
Proof.
  intros Hm Hok Hty Hroom Hf.
  apply (loop_total (λ s : unit * list Z, s.2 = take (length s.2) vs)
    (λ s, Z.to_nat (size - zlen s.2)) (λ r : unit * ares, r.2 ≠ AFail));
    [|done|cbn; change (zlen []) with 0; lia].
  intros [[] got] Hgot. cbn in Hgot. unfold ref_bools_turn, cb_of.
  cbn [a_tagid a_index arg_set]. rewrite Hm.
  assert (Hi : Z.to_nat (zlen got + 1 - 1) = length got) by (unfold zlen; lia).
  rewrite Hi. destruct (vs !! length got) as [v|] eqn:Hx; cbn [from_option].
  2:{ right. eexists. split; [done|]. done. }
  pose proof (proj1 (Forall_lookup _ _) Hok _ _ Hx) as Hv.
  destruct (take_snoc_self _ _ _ Hgot Hx) as [Hsnoc Hlt].
  rewrite checked_ok.
  2:{ cbn. unfold SPROTO_TBOOLEAN, SPROTO_TSTRING, SPROTO_TSTRUCT in *. split_and!; lia. }
  left. cbn [ret SIZEOF_INT32 Z.ltb Z.compare union_u32]. unfold zlen in *.
  destruct (Z.ltb_spec (size - Z.of_nat (length got)) 1); [lia|]. bsimpl.
  replace (if v =? 0 then 0 else 1) with v by (by destruct Hv as [-> | ->]).
  eexists. split_and!; [done|done|]. cbn. rewrite length_app. cbn. lia.
Qed.

Lemma objs_prefix_len bss k : zlen (objs_bytes (take k bss)) ≤ zlen (objs_bytes bss).
Proof.
  rewrite <-(take_drop k bss) at 2. unfold objs_bytes. rewrite fmap_app, concat_app, zlen_app.
  pose proof (zlen_nonneg (concat ((λ bs, le32 (zlen bs) ++ bs) <$> drop k bss))). lia.
Qed.

Lemma ref_objs_room fuel args size bss :
  m (a_tagid args) = Some (VObjs bss) → Forall bytes bss →
  a_type args = SPROTO_TSTRING ∨ a_type args = SPROTO_TSTRUCT →
  zlen (objs_bytes bss) + 4 ≤ size → (Z.to_nat size < fuel)%nat →
  ∃ r, loop fuel (ref_objs_turn (cb_of m) args size) (tt, []) = Ret r ∧ r.2 ≠ AFail.
Proof.
  intros Hm Hok Hty Hroom Hf.
  apply (loop_total (λ s : unit * list (list Z), s.2 = take (length s.2) bss)
    (λ s, Z.to_nat (size - zlen (objs_bytes s.2))) (λ r : unit * ares, r.2 ≠ AFail));
    [|done|cbn; change (zlen (objs_bytes [])) with 0; lia].
  intros [[] got] Hgot. cbn in Hgot. unfold ref_objs_turn, cb_of, SIZEOF_LENGTH.
  pose proof (objs_prefix_len bss (length got)) as Hpre0. rewrite <-Hgot in Hpre0.
  destruct (Z.ltb_spec (size - zlen (objs_bytes got)) 4); [lia|].
  cbn [a_tagid a_index arg_set]. rewrite Hm.
  assert (Hi : Z.to_nat (zlen got + 1 - 1) = length got) by (unfold zlen; lia).
  rewrite Hi. destruct (bss !! length got) as [bs|] eqn:Hx; cbn [from_option].
  2:{ right. eexists. split; [done|]. done. }
  pose proof (proj1 (Forall_lookup _ _) Hok _ _ Hx) as Hb.
  destruct (take_snoc_self _ _ _ Hgot Hx) as [Hsnoc Hlt].
  pose proof (objs_prefix_len bss (length (got ++ [bs]))) as Hpre. rewrite <-Hsnoc in Hpre.
  rewrite objs_bytes_snoc, !zlen_app, le32_zlen in Hpre. pose proof (zlen_nonneg bs).
  rewrite checked_ok by (cbn; split_and!; [done|done|lia]).
  left. rewrite (proj2 (Z.leb_le _ _)) by lia.
  eexists. split_and!; [done|done|]. cbn. rewrite objs_bytes_snoc, !zlen_app, le32_zlen. lia.
Qed.

Lemma ref_array_none_room fuel args size :
  m (a_tagid args) = None → 8 ≤ size → (0 < fuel)%nat →
  ref_array (cb_of m) fuel tt args size = Ret (tt, FSkip).
Proof.
  intros Hm Hs Hf. destruct fuel as [|fuel]; [lia|].
  assert (Hno : ∀ len, cb_of m tt (arg_set args len 1) = (tt, ANoArray)).
  { intros len. unfold cb_of. cbn [a_tagid arg_set]. rewrite Hm.
    by rewrite (checked_none (arg_set args len 1)). }
  unfold ref_array, SIZEOF_LENGTH. destruct (Z.ltb_spec size 4); [lia|].
  destruct (_ || _); [|destruct (_ =? _)].
  - destruct (Z.ltb_spec (size - 4) 1); [lia|].
    assert (E : ref_ints_turn (cb_of m) args (size - 4 - 1) (tt, []) = Ret (inr (tt, ANone))).
    { unfold ref_ints_turn. change (zlen (@nil item) + 1) with 1. by rewrite Hno. }
    by rewrite loop_S, E.
  - assert (E : ref_bools_turn (cb_of m) args (size - 4) (tt, []) = Ret (inr (tt, ANone))).
    { unfold ref_bools_turn. change (zlen (@nil Z) + 1) with 1. by rewrite Hno. }
    by rewrite loop_S, E.
  - assert (E : ref_objs_turn (cb_of m) args (size - 4) (tt, []) = Ret (inr (tt, ANone))).
    { unfold ref_objs_turn, SIZEOF_LENGTH. change (zlen (objs_bytes [])) with 0.
      change (zlen (@nil (list Z)) + 1) with 1.
      destruct (Z.ltb_spec (size - 4 - 0) 4); [lia|]. by rewrite Hno. }
    by rewrite loop_S, E.
Qed.

(** No field fails while 8 bytes more than its data are left. *)
Lemma ref_field_room n fuel f size :
  field_type_ok n f → map_ok types f → (∀ v, m (f_tag f) = Some v → val_ok f v) →
  (Z.to_nat size < fuel)%nat → zlen (data_of (m (f_tag f))) + 8 ≤ size →
  ∃ r, ref_field types (cb_of m) fuel f tt size = Ret (tt, r) ∧ r ≠ FErr ∧ r ≠ FRet0 ∧
    match r with FData bs => bs = data_of (m (f_tag f)) | _ => data_of (m (f_tag f)) = [] end.
Proof.
  intros Hft Hmap Hval Hf Hroom.
  destruct (ref_field_total types (cb_of m) (cb_of_ok m) n fuel f tt size Hft Hmap Hf) as [[[] r] Hr].
  exists r. split; [done|]. pose proof (ref_field_msg types m n fuel f size r Hft Hmap Hval Hr) as Hcase.
  assert (Hne : r ≠ FErr).
  { clear Hcase. intros ->. destruct Hmap as [[mk mv] Hmap]. unfold ref_field in Hr.
    destruct (field_type_base _ _ Hft) as (k & Hk & Hty). pose proof (zlen_nonneg (data_of (m (f_tag f)))).
    destruct (m (f_tag f)) as [v|] eqn:Hm.
    2:{ assert (Hnil : ∀ a len, a_tagid a = f_tag f → cb_of m tt (arg_set a len 0) = (tt, ANil)).
        { intros a len Ha. unfold cb_of. cbn [a_tagid arg_set]. rewrite Ha, Hm.
          by rewrite (checked_none (arg_set a len 0)). }
        cbn in Hroom. change (zlen []) with 0 in Hroom.
        unfold SPROTO_TDOUBLE, SPROTO_TINTEGER, SPROTO_TBOOLEAN, SPROTO_TSTRUCT, SPROTO_TSTRING in Hr.
        destruct (array_type (f_type f) k Hk Hty) as [[Htk Hland]|[Hland Htk]]; rewrite Hland in Hr;
          cbn [negb] in Hr.
        - rewrite Htk in Hr. destruct (_ || _ || _) eqn:E1; [by rewrite Hnil in Hr|].
          destruct ((k =? 4) || (k =? 2)) eqn:E2.
          + unfold ref_object, SIZEOF_LENGTH in Hr. destruct (Z.ltb_spec size 4); [lia|].
            cbn [a_index] in Hr. by rewrite Hnil in Hr.
          + destruct (Z.eqb_spec k 3), (Z.eqb_spec k 0), (Z.eqb_spec k 1),
              (Z.eqb_spec k 4), (Z.eqb_spec k 2); cbn in E1, E2; done || lia.
        - rewrite Hmap in Hr. bsimpl. cbn [mbind outcome_mbind] in Hr.
          rewrite ref_array_none_room in Hr by (done || lia). done. }
    specialize (Hval v eq_refl). destruct v as [[w v]|bs|its|vs|bss]; cbn in Hval.
    - destruct Hval as [Hit Hty'].
      assert (Hland : (Z.land (f_type f) SPROTO_TARRAY =? 0) = true)
        by (destruct Hty' as [->|[[-> _]|[-> _]]]; done).
      assert (Hint : (f_type f =? SPROTO_TDOUBLE) || (f_type f =? SPROTO_TINTEGER) ||
        (f_type f =? SPROTO_TBOOLEAN) = true) by (destruct Hty' as [->|[[-> _]|[-> _]]]; done).
      rewrite Hland, Hint in Hr. cbn [negb] in Hr. unfold cb_of in Hr. cbn [a_tagid arg_set] in Hr.
      rewrite Hm in Hr. rewrite checked_ok in Hr.
      2:{ unfold item_ok in Hit. destruct w; cbn in Hit |- *;
          unfold SPROTO_TINTEGER, SPROTO_TDOUBLE, SPROTO_TSTRING, SPROTO_TSTRUCT, SPROTO_TBOOLEAN in *;
          split_and!; lia. }
      unfold data_of in Hroom. cbn [field_enc] in Hroom. destruct w; cbn in Hr.
      + rewrite zlen_app, le32_zlen, le64_zlen in Hroom.
        destruct (Z.ltb_spec size 12); [lia|done].
      + destruct (v <? 32767); [done|]. rewrite zlen_app, !le32_zlen in Hroom.
        destruct (Z.ltb_spec size 8); [lia|done].
    - destruct Hval as [Hb Hty'].
      assert (Hland : (Z.land (f_type f) SPROTO_TARRAY =? 0) = true) by (destruct Hty' as [-> | ->]; done).
      assert (Hint : (f_type f =? SPROTO_TDOUBLE) || (f_type f =? SPROTO_TINTEGER) ||
        (f_type f =? SPROTO_TBOOLEAN) = false) by (destruct Hty' as [-> | ->]; done).
      assert (Hobj : (f_type f =? SPROTO_TSTRUCT) || (f_type f =? SPROTO_TSTRING) = true)
        by (destruct Hty' as [-> | ->]; done).
      unfold data_of in Hroom. cbn [field_enc] in Hroom. rewrite zlen_app, le32_zlen in Hroom.
      rewrite Hland, Hint, Hobj in Hr. cbn [negb] in Hr. unfold ref_object, SIZEOF_LENGTH in Hr.
      pose proof (zlen_nonneg bs). destruct (Z.ltb_spec size 4); [lia|]. unfold cb_of in Hr.
      cbn [a_tagid arg_set a_index] in Hr. rewrite Hm, checked_ok in Hr by (cbn; split_and!; [done|done|lia]).
      by destruct (_ <=? _).
    - destruct Hval as [Hb Hty']. unfold data_of in Hroom. cbn [field_enc] in Hroom.
      rewrite zlen_app, le32_zlen in Hroom. pose proof (zlen_nonneg (ints_payload its)).
      assert (Hland : (Z.land (f_type f) SPROTO_TARRAY =? 0) = false) by (destruct Hty' as [-> | ->]; done).
      rewrite Hland, Hmap in Hr. cbn [negb mbind outcome_mbind] in Hr. revert Hr.
      set (a := MkArg _ _ _ _ _ _ _ _ _ _). intros Hr.
      assert (Hkt : a_type a = SPROTO_TINTEGER ∨ a_type a = SPROTO_TDOUBLE).
      { subst a. cbn [a_type]. destruct Hty' as [-> | ->]; vm_compute; auto. }
      assert (Hkk : (a_type a =? SPROTO_TDOUBLE) || (a_type a =? SPROTO_TINTEGER) = true)
        by (destruct Hkt as [-> | ->]; done).
      unfold ref_array, SIZEOF_LENGTH in Hr. destruct (Z.ltb_spec size 4); [lia|].
      rewrite Hkk in Hr. destruct (Z.ltb_spec (size - 4) 1); [lia|].
      assert (Hpl : zlen (ints_bytes its) ≤ zlen (ints_payload its)).
      { destruct its; [done|]. destruct (ints_payload_zlen (p :: its)) as [_ ->]; [done|].
        rewrite zlen_app. change (zlen [_]) with 1. lia. }
      destruct (ref_ints_room fuel a (size - 4 - 1) its) as ([[] res] & Hl & Hne);
        [done|done|done| |lia|].
      { destruct its; [change (zlen (ints_bytes [])) with 0; lia|].
        destruct (ints_payload_zlen (p :: its)) as [E1 _]; [done|]. rewrite ints_bytes_zlen. lia. }
      rewrite Hl in Hr. cbn in Hr, Hne. by destruct res.
    - destruct Hval as [Hb Hty']. unfold data_of in Hroom. cbn [field_enc] in Hroom.
      rewrite zlen_app, le32_zlen in Hroom. pose proof (zlen_nonneg vs).
      assert (Hland : (Z.land (f_type f) SPROTO_TARRAY =? 0) = false) by (rewrite Hty'; done).
      rewrite Hland, Hmap in Hr. cbn [negb mbind outcome_mbind] in Hr. revert Hr.
      set (a := MkArg _ _ _ _ _ _ _ _ _ _). intros Hr.
      assert (Hkt : a_type a = SPROTO_TBOOLEAN) by (subst a; cbn [a_type]; rewrite Hty'; done).
      unfold ref_array, SIZEOF_LENGTH in Hr. destruct (Z.ltb_spec size 4); [lia|].
      destruct (ref_bools_room fuel a (size - 4) vs) as ([[] res] & Hl & Hne); [done|done|done|lia|lia|].
      rewrite Hkt in Hr. cbn [Z.eqb Pos.eqb orb SPROTO_TBOOLEAN SPROTO_TDOUBLE SPROTO_TINTEGER] in Hr.
      rewrite Hl in Hr. cbn in Hr, Hne. by destruct res.
    - destruct Hval as [Hb Hty']. unfold data_of in Hroom. cbn [field_enc] in Hroom.
      rewrite zlen_app, le32_zlen in Hroom. pose proof (zlen_nonneg (objs_bytes bss)).
      assert (Hland : (Z.land (f_type f) SPROTO_TARRAY =? 0) = false) by (destruct Hty' as [-> | ->]; done).
      rewrite Hland, Hmap in Hr. cbn [negb mbind outcome_mbind] in Hr. revert Hr.
      set (a := MkArg _ _ _ _ _ _ _ _ _ _). intros Hr.
      assert (Hkt : a_type a = SPROTO_TSTRING ∨ a_type a = SPROTO_TSTRUCT).
      { subst a. cbn [a_type]. destruct Hty' as [-> | ->]; vm_compute; auto. }
      assert (Hk1 : (a_type a =? SPROTO_TDOUBLE) || (a_type a =? SPROTO_TINTEGER) = false)
        by (destruct Hkt as [-> | ->]; done).
      assert (Hk2 : (a_type a =? SPROTO_TBOOLEAN) = false) by (destruct Hkt as [-> | ->]; done).
      unfold ref_array, SIZEOF_LENGTH in Hr. destruct (Z.ltb_spec size 4); [lia|].
      destruct (ref_objs_room fuel a (size - 4) bss) as ([[] res] & Hl & Hne); [done|done|done|lia|lia|].
      rewrite Hk1, Hk2, Hl in Hr. cbn in Hr, Hne. by destruct res. }
  destruct Hcase as [?|Hcase]; [done|]. split; [done|].
  destruct (m (f_tag f)) as [v|]; subst r; [|done].
  unfold data_of. by destruct v as [[[|] v']|p|its|vs|bss]; cbn; try case_match.
Qed.
End room.

Section final.
Context (types : list sproto_type) (n : Z) (st : sproto_type) (m : msg)
  (Hst : encodable types n st) (Hm : msg_ok st m).

Definition total_data (fs : list field) : Z := zlen (concat ((λ f, data_of (m (f_tag f))) <$> fs)).

Lemma field_facts f :
  f ∈ t_f st → field_type_ok n f ∧ map_ok types f ∧ (∀ v, m (f_tag f) = Some v → val_ok f v) ∧
    0 ≤ f_tag f < 2 ^ 15.
Proof.
  destruct Hst as [Hwf Hmaps]. intros Hf. split_and!; [by apply (wf_field _ _ Hwf)|by apply Hmaps| | |].
  - intros v. by apply Hm.
  - by apply (wf_tags _ _ Hwf).
  - by apply (wf_tags _ _ Hwf).
Qed.

Lemma ref_fields_room fuel size0 fs s :
  (∀ f, f ∈ fs → f ∈ t_f st) → (Z.to_nat size0 < fuel)%nat →
  zlen (r_data s) + total_data fs + 8 ≤ size0 →
  ∃ s', ref_fields types (cb_of m) fuel size0 fs s = Ret (inl s').
Proof.
  intros Hfs Hf. revert s. induction fs as [|f fs IH]; intros s Hroom; [by eexists|].
  destruct s as [[] recs datas last]. cbn [ref_fields ref_turn].
  destruct (field_facts f) as (Hft & Hmap & Hval & _); [apply Hfs; set_solver|].
  cbn in Hroom. unfold total_data in *. cbn in Hroom. rewrite zlen_app in Hroom.
  pose proof (zlen_nonneg datas).
  pose proof (zlen_nonneg (concat ((λ f0, data_of (m (f_tag f0))) <$> fs))).
  destruct (ref_field_room types m n fuel f (size0 - zlen datas)) as (r & -> & H1 & H2 & H3);
    [done|done|done|lia|lia|]. bsimpl.
  assert (Hrest : ∀ s1, zlen (r_data s1) = zlen datas + zlen (data_of (m (f_tag f))) →
    ∃ s', ref_fields types (cb_of m) fuel size0 fs s1 = Ret (inl s')).
  { intros s1 Hs1. apply IH; [intros g Hg; apply Hfs; set_solver|]. lia. }
  destruct r as [| | |v|bs]; try done; bsimpl; apply Hrest; cbn.
  - rewrite H3. change (zlen []) with 0. lia.
  - rewrite H3. change (zlen []) with 0. lia.
  - rewrite zlen_app, H3. done.
Qed.

(** The encoder of a message fails only for want of room. *)
Lemma ref_fields_err fuel size0 fs s u z :
  (∀ f, f ∈ fs → f ∈ t_f st) →
  ref_fields types (cb_of m) fuel size0 fs s = Ret (inr (u, z)) → z = -1.
Proof.
  intros Hfs. revert s. induction fs as [|f fs IH]; intros s Hrun; [done|].
  cbn [ref_fields] in Hrun. apply bind_Ret_inv in Hrun as (o & Hturn & Hrun).
  destruct s as [[] recs datas last]. cbn [ref_turn] in Hturn.
  apply bind_Ret_inv in Hturn as ([[] r] & Hr & Hturn).
  destruct (field_facts f) as (Hft & Hmap & Hval & _); [apply Hfs; set_solver|].
  apply (ref_field_msg types m n) in Hr; [|done|done|done].
  assert (Hne : r ≠ FRet0).
  { intros ->. destruct Hr as [?|Hr]; [done|]. destruct (m (f_tag f)) as [v|]; [|done].
    destruct (field_enc_cases v) as [[? E]|[? E]]; congruence. }
  destruct o as [s1|[u1 z1]].
  - eapply IH; [|exact Hrun]. intros g Hg; apply Hfs; set_solver.
  - injection Hrun as <- <-. destruct r; try done; by injection Hturn as <-.
Qed.

Lemma ref_fields_recs fuel size0 fs tags s s' :
  (∀ f, f ∈ fs → f ∈ t_f st) → chain (List.last tags (-1)) (f_tag <$> fs) →
  recs_inv tags (r_recs s) (r_lasttag s) →
  ref_fields types (cb_of m) fuel size0 fs s = Ret (inl s') →
  recs_inv (tags ++ (f_tag <$> fs)) (r_recs s') (r_lasttag s').
Proof.
  intros Hfs. revert tags s. induction fs as [|f fs IH]; intros tags s Hchain Hinv Hrun.
  { cbn in Hrun. injection Hrun as <-. by rewrite app_nil_r. }
  cbn [ref_fields] in Hrun. apply bind_Ret_inv in Hrun as (o & Hturn & Hrun).
  destruct s as [[] recs datas last]. cbn [ref_turn] in Hturn.
  apply bind_Ret_inv in Hturn as ([[] r] & Hr & Hturn).
  destruct (field_facts f) as (Hft & Hmap & Hval & Htag); [apply Hfs; set_solver|].
  apply (ref_field_msg types m n) in Hr; [|done|done|done].
  destruct o as [s1|]; [|done]. cbn in Hchain, Hinv. destruct Hchain as [Hlt Hchain].
  change (f_tag <$> f :: fs) with ([f_tag f] ++ (f_tag <$> fs)). rewrite app_assoc.
  apply (IH (λ g Hg, Hfs g (list_elem_of_further _ _ _ Hg)) (tags ++ [f_tag f]) s1);
    [by rewrite last_last| |done].
  destruct r as [| | |v|bs]; try done; injection Hturn as <-; cbn.
  - by apply recs_inv_skip.
  - apply recs_inv_field; [done|lia|]. destruct Hr as [?|Hr]; [done|].
    destruct (m (f_tag f)) as [[[[|] v']|p|its|vs|bss]|] eqn:E; try done.
    cbn in Hr. destruct (Z.ltb_spec v' 32767); [|done]. injection Hr as ->.
    destruct (Hval _ eq_refl) as [Hit _]. unfold item_ok in Hit. cbn in Hit. lia.
  - apply recs_inv_field; [done|lia|lia].
Qed.

(** A type has at most 2^15 entries in its header. *)
Lemma chain_gaps l ts : chain l ts → zlen ts + gaps l ts ≤ List.last ts l - l.
Proof.
  revert l. induction ts as [|t ts IH]; intros l; [cbn; change (zlen []) with 0; lia|].
  intros [Hlt Hc]. specialize (IH t Hc). rewrite last_cons_default, zlen_cons. cbn [gaps].
  destruct (Z.ltb_spec (l + 1) t); lia.
Qed.

Lemma last_tag_bound ts : (∀ t, t ∈ ts → t < 2 ^ 15) → List.last ts (-1) < 2 ^ 15.
Proof.
  intros H. destruct ts as [|t ts] using rev_ind; [done|]. rewrite last_last. apply H. set_solver.
Qed.

Lemma wire_decode fuel efuel size0 s :
  ref_fields types (cb_of m) efuel size0 (t_f st) (MkRef tt [] [] (-1)) = Ret (inl s) →
  zlen (wire (r_recs s) (r_data s)) < 2 ^ 31 →
  (Z.to_nat (zlen (wire (r_recs s) (r_data s))) < fuel)%nat →
  sproto_decode types log_cb (wire (r_recs s) (r_data s)) fuel st
    (zlen (wire (r_recs s) (r_data s))) [] =
  Ret (Some (events types st m, zlen (wire (r_recs s) (r_data s)))).
Proof.
  intros Hrun Hsmall Hfuel. set (W := wire (r_recs s) (r_data s)) in *.
  pose proof (wire_zlen (r_recs s) (r_data s)) as HW. fold W in HW.
  pose proof (zlen_nonneg (r_recs s)). pose proof (zlen_nonneg (r_data s)).
  assert (Hchain : chain (-1) (f_tag <$> t_f st)).
  { apply ascending_chain; [apply (wf_asc _ _ (proj1 Hst))|].
    intros t (f & -> & Hf)%list_elem_of_fmap. pose proof (field_facts f Hf). lia. }
  assert (Hinv : recs_inv (f_tag <$> t_f st) (r_recs s) (r_lasttag s)).
  { apply (ref_fields_recs efuel size0 (t_f st) [] (MkRef tt [] [] (-1))); [done|done| |done].
    split_and!; cbn; try lia; constructor. }
  destruct Hinv as (_ & Hcount & Hwords). pose proof (chain_gaps _ _ Hchain) as Hg.
  assert (Hlast : List.last (f_tag <$> t_f st) (-1) < 2 ^ 15).
  { apply last_tag_bound. intros t (f & -> & Hf)%list_elem_of_fmap. apply (field_facts f Hf). }
  assert (Hrecs : zlen (r_recs s) < 2 ^ 16) by (destruct (_ <? _); lia).
  assert (HatW : mem_at W 0 W) by (intros k b Hk; done).
  unfold W in HatW at 2. unfold wire in HatW. change 0%nat with (Z.to_nat 0) in HatW.
  apply mem_at_appz in HatW as [Hat0 HatW]; [|lia]. rewrite le16_zlen in HatW.
  apply mem_at_appz in HatW as [Hatw Hatd]; [|lia]. rewrite le16_concat_zlen in Hatd.
  unfold sproto_decode, SIZEOF_HEADER, SIZEOF_FIELD.
  destruct (Z.ltb_spec (zlen W) 2); [lia|].
  rewrite (toword_at W 0 (zlen (r_recs s))) by (done || lia). bsimpl.
  destruct (Z.ltb_spec (zlen W - 2) (zlen (r_recs s) * 2)); [lia|].
  destruct (decode_fields types n st m Hst Hm W ltac:(lia) fuel efuel size0 (t_f st)
    (MkRef tt [] [] (-1)) s [] (2 + zlen (r_recs s) * 2) 0)
    as (ws & ds & Hws & Hds & Hdec); [done|done|cbn; lia|exact Hrun|].
  cbn in Hws, Hds. subst ws ds. change (zlen (r_recs (MkRef tt [] [] (-1)))) with 0 in Hdec.
  unfold SIZEOF_HEADER, SIZEOF_FIELD in Hdec.
  replace (Z.to_nat (zlen (r_recs s))) with (length (r_recs s)) by (unfold zlen; lia).
  replace (zlen W - 2 - zlen (r_recs s) * 2) with (zlen (r_data s) + 0) by lia.
  cbn [r_lasttag] in Hdec. rewrite Hdec; try lia.
  - bsimpl. cbn. rewrite Z.sub_0_r. done.
  - intros j w Hj. rewrite Z.add_0_l. apply toword_at; [lia| |].
    { rewrite Forall_lookup in Hwords. specialize (Hwords _ _ Hj). lia. }
    assert (Hsplit : concat (le16 <$> r_recs s) = concat (le16 <$> take j (r_recs s)) ++ le16 w ++
      concat (le16 <$> drop (S j) (r_recs s))).
    { rewrite <-(take_drop_middle _ _ _ Hj) at 1. by rewrite fmap_app, concat_app. }
    rewrite Hsplit in Hatw. apply mem_at_app in Hatw as [_ Hatw]. apply mem_at_app in Hatw as [Hatw _].
    assert (Hlen : length (concat (le16 <$> take j (r_recs s))) = (2 * j)%nat).
    { pose proof (le16_concat_zlen (take j (r_recs s))) as E. unfold zlen in E.
      rewrite length_take in E. apply lookup_lt_Some in Hj. lia. }
    rewrite Hlen in Hatw. intros k b Hk.
    specialize (Hatw k b Hk). rewrite <-Hatw. f_equal. lia.
  - eapply (eq_rect _ (λ x, mem_at W (Z.to_nat x) _)); [exact Hatd|]. lia.
Qed.
End final.

(** ** Decoding arbitrary bytes *)

(** The length words of a message: a field word of 0 (the [n] words from number [i] on)
    has data, at [p], which begins with its length. None of these lengths overflows when
    [SIZEOF_LENGTH] is added to it. *)
Fixpoint lengths_fit (n : nat) (data : list Z) (i p : Z) : bool :=
  match n with
  | O => true
  | S n' =>
      match toword data (SIZEOF_HEADER + i * SIZEOF_FIELD) with
      | Ret 0 =>
          match todword data p with
          | Ret w => (w + SIZEOF_LENGTH <? 2 ^ 32) && lengths_fit n' data (i + 1) (p + SIZEOF_LENGTH + w)
          | _ => true
          end
      | _ => lengths_fit n' data (i + 1) p
      end
  end.

Definition length_words_fit (data : list Z) : bool :=
  match toword data 0 with
  | Ret fn => lengths_fit (Z.to_nat fn) data 0 (SIZEOF_HEADER + fn * SIZEOF_FIELD)
  | _ => true
  end.

Section decode_safe.
Context {UD : Type} (types : list sproto_type) (cb : UD → sproto_arg → dvalue → UD * Z)
  (data : list Z) (Hbytes : bytes data) (Hlw : length_words_fit data = true) (Hsize : zlen data < 2 ^ 31)
  (fuel : nat) (Hfuel : (length data < fuel)%nat).

Lemma call_bytes_total ud args off len i :
  0 ≤ off → 0 ≤ len → off + len ≤ zlen data →
  ∃ o, call_bytes cb data ud args off (i32 len) i = Ret o.
Proof.
  intros H0 H1 H2. unfold call_bytes.
  assert (Hi : i32 len = len) by (unfold i32; rewrite Z.mod_small by lia; lia).
  rewrite Hi, mread_in by lia. by eexists.
Qed.

Lemma decode_objects_total ud args off sz :
  0 ≤ off → 0 ≤ sz → off + sz ≤ zlen data →
  ∃ o, decode_array_object cb data fuel ud args off sz = Ret o.
Proof.
  intros H0 H1 H2. unfold decode_array_object.
  destruct (loop_total (λ '(_, st, z, _), 0 ≤ st ∧ 0 ≤ z ∧ st + z ≤ zlen data)
    (λ '(_, _, z, _), Z.to_nat z) (λ _ : UD * Z, True) (objects_turn cb data args))
    with (fuel := fuel) (s := (ud, off, sz, 1)) as (o & Ho & _);
    [|done|unfold zlen in *; lia|by exists o].
  intros [[[ud1 st] z] i] (Hst & Hz & Hend). unfold objects_turn, SIZEOF_LENGTH.
  destruct (Z.leb_spec z 0); [right; by eexists|]. destruct (Z.ltb_spec z 4); [right; by eexists|].
  destruct (todword_in data Hbytes st) as (w & -> & Hw); [lia..|]. bsimpl.
  assert (Hu : u32 (z - 4) = z - 4) by (unfold u32; rewrite Z.mod_small; lia). rewrite Hu.
  destruct (Z.ltb_spec (z - 4) w); [right; by eexists|].
  destruct (call_bytes_total ud1 args (st + 4) w i) as [[ud' r] ->]; [lia..|]. bsimpl.
  destruct (negb (r =? 0)); [right; by eexists|]. left. eexists. split; [done|].
  assert (Hi : i32 (z - 4 - w) = z - 4 - w) by (unfold i32; rewrite Z.mod_small by lia; lia).
  rewrite Hi. split; lia.
Qed.

(** The data of a field lies in the message. *)
Lemma decode_array_total ud args off w :
  0 ≤ off → todword data off = Ret w → off + 4 + w ≤ zlen data →
  ∃ o, decode_array cb data fuel ud args off = Ret o.
Proof.
  intros H0 Hw Hend. pose proof (todword_range _ _ _ Hw) as (Hw0 & _). unfold decode_array, SIZEOF_LENGTH.
  rewrite Hw. bsimpl. destruct (Z.eqb_spec w 0); [by eexists|].
  destruct (_ || _).
  - destruct (Z.eqb_spec (w - 1) 0); [by eexists|].
    destruct (aget_byte data Hbytes (off + 4)) as (len & -> & _); [lia|]. bsimpl.
    unfold SIZEOF_INT32, SIZEOF_INT64.
    destruct (Z.eqb_spec len 4) as [->|]; [|destruct (Z.eqb_spec len 8) as [->|]]; cbn [orb];
      try by eexists.
    + destruct (negb _); [by eexists|].
      destruct (for_loop_inv (λ _ _, True) (int_elem cb data args (off + 4 + 1) 4)
        (Z.to_nat ((w - 1) / 4)) 0 ud I) as (ud' & -> & _); [|by eexists].
      intros j ud1 Hj _. unfold int_elem, SIZEOF_INT32. cbn [Z.eqb Pos.eqb].
      destruct (todword_in data Hbytes (off + 4 + 1 + j * 4)) as (x & -> & _); [lia|zlia|].
      bsimpl. by eexists.
    + destruct (negb _); [by eexists|].
      destruct (for_loop_inv (λ _ _, True) (int_elem cb data args (off + 4 + 1) 8)
        (Z.to_nat ((w - 1) / 8)) 0 ud I) as (ud' & -> & _); [|by eexists].
      intros j ud1 Hj _. unfold int_elem, SIZEOF_INT32, SIZEOF_INT64. cbn [Z.eqb Pos.eqb].
      destruct (todword_in data Hbytes (off + 4 + 1 + j * 8)) as (x & -> & _); [lia|zlia|].
      destruct (todword_in data Hbytes (off + 4 + 1 + j * 8 + 4)) as (y & -> & _); [lia|zlia|].
      bsimpl. by eexists.
  - destruct (_ =? _).
    + destruct (for_loop_inv (λ _ _, True) (bool_elem cb data args (off + 4))
        (Z.to_nat w) 0 ud I) as (ud' & -> & _); [|by eexists].
      intros j ud1 Hj _. unfold bool_elem.
      destruct (aget_byte data Hbytes (off + 4 + j)) as (x & -> & _); [lia|]. by eexists.
    + destruct (_ || _); [|by eexists].
      assert (Hi : i32 w = w) by (unfold i32; rewrite Z.mod_small by lia; lia).
      rewrite Hi. apply decode_objects_total; lia.
Qed.

Lemma decode_data_total ud f off w :
  map_ok types f → 0 ≤ off → todword data off = Ret w → off + 4 + w ≤ zlen data →
  ∃ o, decode_data types cb data fuel ud f off = Ret o.
Proof.
  intros ([k v] & Hmap) H0 Hw Hend. pose proof (todword_range _ _ _ Hw) as (Hw0 & _).
  unfold decode_data, SIZEOF_LENGTH, SIZEOF_INT32, SIZEOF_INT64. destruct (negb _).
  - rewrite Hmap. bsimpl. set (a := MkArg _ _ _ _ _ _ _ _ _ _).
    destruct (decode_array_total ud a off w) as [[ud' r] ->]; [done..|]. bsimpl. by eexists.
  - destruct (_ || _).
    + rewrite Hw. bsimpl. destruct (Z.eqb_spec w 4); [|destruct (Z.eqb_spec w 8)]; cbn [negb];
        [| |by eexists].
      * destruct (todword_in data Hbytes (off + 4)) as (x & -> & _); [lia..|]. bsimpl. by eexists.
      * destruct (todword_in data Hbytes (off + 4)) as (x & -> & _); [lia..|].
        destruct (todword_in data Hbytes (off + 4 + 4)) as (y & -> & _); [lia..|].
        bsimpl. by eexists.
    + destruct (_ || _); [|by eexists]. rewrite Hw. bsimpl. set (a := MkArg _ _ _ _ _ _ _ _ _ _).
      destruct (call_bytes_total ud a (off + 4) w 0) as [[ud' r] ->]; [lia..|]. bsimpl. by eexists.
Qed.

Lemma decode_total n st ud :
  encodable types n st →
  ∃ o, sproto_decode types cb data fuel st (zlen data) ud = Ret o ∧
    from_option (λ p : UD * Z, 2 ≤ p.2 ≤ zlen data) True o.
Proof.
  intros [Hwf Hmaps]. unfold sproto_decode, SIZEOF_HEADER, SIZEOF_FIELD.
  destruct (Z.ltb_spec (zlen data) 2); [by exists None|].
  destruct (toword_in data Hbytes 0) as (fn & Hfn0 & Hfn); [lia..|].
  unfold length_words_fit, SIZEOF_HEADER, SIZEOF_FIELD in Hlw. rewrite Hfn0 in *. bsimpl.
  destruct (Z.ltb_spec (zlen data - 2) (fn * 2)); [by exists None|].
  destruct (for_opt_inv (λ i '(_, ds, size, _), 2 + fn * 2 ≤ ds ∧ 0 ≤ size ∧ ds + size = zlen data ∧
      lengths_fit (Z.to_nat (fn - i)) data i ds = true)
    (decode_turn types cb data fuel st 2) (Z.to_nat fn) 0
    (ud, 2 + fn * 2, zlen data - 2 - fn * 2, -1)) as (o & -> & Ho).
  - rewrite Z.sub_0_r. split_and!; [lia..|exact Hlw].
  - intros i [[[ud1 ds] size] tag0] Hi (Hds & Hsz & Hend & Hfit). unfold decode_turn, SIZEOF_FIELD.
    destruct (toword_in data Hbytes (2 + i * 2)) as (v0 & Hv & Hv0); [lia|lia|].
    replace (Z.to_nat (fn - i)) with (S (Z.to_nat (fn - (i + 1)))) in Hfit by lia.
    cbn [lengths_fit] in Hfit. unfold SIZEOF_HEADER, SIZEOF_FIELD, SIZEOF_LENGTH in Hfit. rewrite Hv in *. bsimpl.
    assert (Hskip : v0 ≠ 0 → lengths_fit (Z.to_nat (fn - (i + 1))) data (i + 1) ds = true) by (by destruct v0).
    destruct (Z.odd v0) eqn:Hodd.
    { eexists; split; [done|]. cbn. split_and!; [lia..|]. apply Hskip. by intros ->. }
    destruct (findtag_spec _ _ (tag0 + 1) Hwf) as (oft & Hft & Hftag).
    destruct (Z.ltb_spec (v0 / 2 - 1) 0) as [Hneg|Hpos].
    + unfold SIZEOF_LENGTH. destruct (Z.ltb_spec size 4); [by exists None|].
      destruct (todword_in data Hbytes ds) as (w & Hw & Hwr); [lia..|]. rewrite Hw. bsimpl.
      assert (v0 = 0) as -> by (pose proof (Zmod_odd v0) as Hm; rewrite Hodd in Hm; pose proof (Z.div_mod v0 2); lia).
      rewrite Hw in Hfit. apply andb_true_iff in Hfit as [Hww Hfit]. apply Z.ltb_lt in Hww.
      replace (ds + 4 + w) with (ds + (w + 4)) in Hfit by lia.
      assert (Hu1 : u32 (w + 4) = w + 4) by (unfold u32; rewrite Z.mod_small; lia).
      assert (Hu2 : u32 size = size) by (unfold u32; rewrite Z.mod_small; lia).
      rewrite Hu1, Hu2. destruct (Z.ltb_spec size (w + 4)); [by exists None|]. bsimpl.
      assert (Hi3 : i32 (size - (w + 4)) = size - (w + 4)) by (unfold i32; rewrite Z.mod_small by lia; lia).
      rewrite Hi3, Hft. bsimpl. destruct oft as [f|]; [|eexists; split; [done|cbn; split_and!; lia || done]].
      destruct (decode_data_total ud1 f ds w) as [[ud' r] ->]; [apply Hmaps, Hftag|lia|done|lia|]. bsimpl.
      destruct (negb (r =? 0)); [by exists None|]. eexists. split; [done|cbn; split_and!; lia || done].
    + assert (v0 ≠ 0) by (by intros ->). specialize (Hskip ltac:(done)).
      bsimpl. rewrite Hft. bsimpl. destruct oft as [f|]; [|eexists; split; [done|cbn; split_and!; lia || done]].
      destruct (_ && _); [by exists None|]. eexists. split; [done|cbn; split_and!; lia || done].
  - bsimpl. destruct o as [[[[ud' ds] size] tag]|]; [|by exists None].
    eexists. split; [done|]. cbn in Ho |- *. lia.
Qed.
End decode_safe.

(** ** Properties *)

(** The type [P] of the example bundle, and a message of it: a string, a
    negative integer and an array with an empty structure. *)
Definition P_type : sproto_type :=
  MkType (Some [80]) 3 (-1) 4
    [MkField 0 2 (Some [110]) None (-1) (-1) 0;
     MkField 1 0 (Some [97]) None (-1) (-1) 0;
     MkField 3 132 (Some [99]) (Some 0) (-1) (-1) 0].

Definition P_msg : msg := λ tag,
  if tag =? 0 then Some (VBytes [104; 105])
  else if tag =? 1 then Some (VInt (true, 18446744073709551611))
  else if tag =? 3 then Some (VObjs [[0; 0]]) else None.

Lemma P_encodable : encodable [P_type] 1 P_type.
Proof.
  split.
  - apply bundle_type_wf. unfold bundle_sproto, P_type; cbn. set_solver.
  - intros f Hf. unfold map_ok. exists (None, None).
    cbn in Hf. set_unfold in Hf. destruct Hf as [->|[->|[->|[]]]]; done.
Qed.

Lemma P_msg_ok : msg_ok P_type P_msg.
Proof.
  intros f v Hf Hv. cbn in Hf. set_unfold in Hf.
  destruct Hf as [->|[->|[->|[]]]]; cbn in Hv; injection Hv as <-; cbn; unfold item_ok, is_byte; cbn.
  - split; [repeat constructor; done|by left].
  - split; [done|by left].
  - split; [repeat constructor; done|by right].
Qed.

(** C8: Whatever the callback answers (within its contract) and however small
    the buffer is, [sproto_encode] returns: it never writes outside the
    buffer, in particular its header never grows into the data, no assertion
    fires, and a size it returns is that of the message in the buffer. *)
Theorem encode_safe {UD} types (cb : UD → sproto_arg → UD * answer) n fuel st mem size ud :
  cb_ok cb → encodable types n st → size ≤ zlen mem → (Z.to_nat size < fuel)%nat →
  ∃ r ud' mem', sproto_encode types cb fuel st mem size ud = Ret (r, ud', mem') ∧
    zlen mem' = zlen mem ∧ drop (Z.to_nat size) mem' = drop (Z.to_nat size) mem ∧
    (r = -1 ∨ r = 0 ∨ (2 ≤ r ≤ size ∧
       ∃ recs datas, take (Z.to_nat r) mem' = wire recs datas ∧ zlen (wire recs datas) = r)).
Proof.
  intros Hcb Hst Hs Hf.
  destruct (sproto_encode_total types cb Hcb n fuel st mem size ud Hst Hs Hf)
    as ([[r ud'] mem'] & [ud2 res] & He & Hr & Hud & Hso & Hres).
  exists r, ud', mem'. split; [done|]. pose proof Hso as [Hl Hsame]. split_and!; [done| |].
  { apply list_eq. intros k. rewrite !lookup_drop. apply Hsame. lia. }
  cbn in Hres. destruct res as [e|w]; [naive_solver|]. right. right.
  destruct Hres as (-> & Hsz & Hat). split; [done|]. apply mem_at_take in Hat.
  unfold ref_encode in Hr. destruct (size <? _); [done|].
  apply bind_Ret_inv in Hr as ([s|[? ?]] & _ & Hr); [|done]. injection Hr as _ <-.
  exists (r_recs s), (r_data s). unfold zlen at 1. rewrite Nat2Z.id. done.
Qed.

Lemma encode_safe_witness :
  (cb_ok (cb_of P_msg) ∧ encodable [P_type] 1 P_type ∧ 60 ≤ zlen (replicate 60 7) ∧
   (Z.to_nat 60 < 200)%nat) ∧
  ∃ r ud' mem', sproto_encode [P_type] (cb_of P_msg) 200 P_type (replicate 60 7) 60 tt
      = Ret (r, ud', mem') ∧
    zlen mem' = zlen (replicate 60 7) ∧
    drop (Z.to_nat 60) mem' = drop (Z.to_nat 60) (replicate 60 7) ∧
    (r = -1 ∨ r = 0 ∨ (2 ≤ r ≤ 60 ∧
       ∃ recs datas, take (Z.to_nat r) mem' = wire recs datas ∧ zlen (wire recs datas) = r)).
Proof.
  pose proof (cb_of_ok P_msg). pose proof P_encodable.
  assert (60 ≤ zlen (replicate 60 7)) by (vm_compute; discriminate).
  assert (Z.to_nat 60 < 200)%nat by lia.
  split; [split_and!; done|]. by apply (encode_safe [P_type] (cb_of P_msg) 1).
Defined.

(** C6: [sproto_decode] undoes [sproto_encode]: for every well-typed message,
    the bytes the encoder returns decode to exactly the calls [events] lists
    (every present field, in the order of the tags, with its index, length
    and 64-bit value or bytes), all bytes are consumed, and the encoder only
    fails when the buffer has no room. *)
Theorem encode_decode types n st m mem size fuel :
  encodable types n st → msg_ok st m → size ≤ zlen mem → size < 2 ^ 31 → (Z.to_nat size < fuel)%nat →
  ∃ r mem', sproto_encode types (cb_of m) fuel st mem size tt = Ret (r, tt, mem') ∧
    (r = -1 ∨ (2 ≤ r ≤ size ∧
       sproto_decode types log_cb (take (Z.to_nat r) mem') fuel st r [] =
         Ret (Some (events types st m, r)))) ∧
    (SIZEOF_HEADER + t_maxn st * SIZEOF_FIELD + total_data m (t_f st) + 8 ≤ size → r ≠ -1).
Proof.
  intros Hst Hm Hs Hsmall Hf.
  destruct (sproto_encode_total types (cb_of m) (cb_of_ok m) n fuel st mem size tt Hst Hs Hf)
    as ([[r []] mem'] & [[] res] & He & Hr & _ & Hso & Hres).
  exists r, mem'. split; [done|]. cbn in Hres. unfold ref_encode in Hr.
  destruct (Z.ltb_spec size (SIZEOF_HEADER + t_maxn st * SIZEOF_FIELD)).
  { injection Hr as <-. destruct Hres as [-> _]. split; [by left|].
    pose proof (zlen_nonneg (concat ((λ f, data_of (m (f_tag f))) <$> t_f st))).
    unfold total_data. lia. }
  apply bind_Ret_inv in Hr as (o & Hrun & Hr). destruct o as [s|[u z]].
  - injection Hr as _ <-. destruct Hres as (-> & Hsz & Hat). apply mem_at_take in Hat.
    split; [|lia]. right. split; [done|]. unfold zlen at 1. rewrite Nat2Z.id, Hat.
    apply (wire_decode types n st m Hst Hm fuel fuel _ s Hrun); lia.
  - injection Hr as _ <-. destruct Hres as [-> _].
    pose proof (ref_fields_err types n st m Hst Hm _ _ _ _ _ _ (λ f H, H) Hrun) as ->.
    split; [by left|]. intros Hroom _.
    destruct (ref_fields_room types n st m Hst Hm fuel (size - (SIZEOF_HEADER + t_maxn st * SIZEOF_FIELD))
      (t_f st) (MkRef tt [] [] (-1)) (λ f H, H)) as [s' Hs']; [|cbn; change (zlen []) with 0; lia|congruence].
    pose proof (wf_maxn _ _ (proj1 Hst)). rewrite (wf_n _ _ (proj1 Hst)) in *.
    pose proof (gaps_nonneg (-1) (f_tag <$> t_f st)). pose proof (zlen_nonneg (t_f st)).
    unfold SIZEOF_HEADER, SIZEOF_FIELD in *. lia.
Qed.

Lemma encode_decode_witness :
  (encodable [P_type] 1 P_type ∧ msg_ok P_type P_msg ∧ 60 ≤ zlen (replicate 60 7) ∧
   60 < 2 ^ 31 ∧ (Z.to_nat 60 < 200)%nat) ∧
  ∃ r mem', sproto_encode [P_type] (cb_of P_msg) 200 P_type (replicate 60 7) 60 tt
      = Ret (r, tt, mem') ∧
    (r = -1 ∨ (2 ≤ r ≤ 60 ∧
       sproto_decode [P_type] log_cb (take (Z.to_nat r) mem') 200 P_type r [] =
         Ret (Some (events [P_type] P_type P_msg, r)))) ∧
    (SIZEOF_HEADER + t_maxn P_type * SIZEOF_FIELD + total_data P_msg (t_f P_type) + 8 ≤ 60 → r ≠ -1).
Proof.
  pose proof P_encodable. pose proof P_msg_ok.
  assert (60 ≤ zlen (replicate 60 7)) by (vm_compute; discriminate).
  assert (Z.to_nat 60 < 200)%nat by lia.
  split; [split_and!; done|]. by apply (encode_decode [P_type] 1).
Defined.

Example P_encoding :
  match sproto_encode [P_type] (cb_of P_msg) 200 P_type (replicate 60 7) 60 tt with
  | Ret (r, _, mem) => r = 38 ∧ take 38 mem =
      [4;0; 0;0; 0;0; 1;0; 0;0; 2;0;0;0;104;105; 8;0;0;0;251;255;255;255;255;255;255;255;
       6;0;0;0;2;0;0;0;0;0]
  | _ => False
  end.
Proof. vm_compute. by split. Qed.

(** C7: [sproto_decode] is safe on every byte string of less than 2^31 bytes
    none of whose length words ([length_words_fit]: the words in front of the data of
    its fields) overflows when 4 is added to it (see [decode_wrap_unsafe]): whatever the
    callback does, no read is outside the string, every piece handed to the callback lies
    in it, and it returns an error or the number of bytes it consumed. The schema is a
    well-formed type, as [create_wf] has them. *)
Theorem decode_safe {UD} types (cb : UD → sproto_arg → dvalue → UD * Z) n st data fuel ud :
  encodable types n st → bytes data → length_words_fit data = true → zlen data < 2 ^ 31 → (length data < fuel)%nat →
  ∃ o, sproto_decode types cb data fuel st (zlen data) ud = Ret o ∧
    from_option (λ p : UD * Z, 2 ≤ p.2 ≤ zlen data) True o.
Proof. intros Hst Hb Hn Hs Hf. by apply (decode_total types cb data Hb Hn Hs fuel Hf n). Qed.

(** The string [hi] and the number -1, which has the bytes of a large length word. *)
Definition P_bytes : list Z := [2; 0; 0; 0; 0; 0; 2; 0; 0; 0; 104; 105; 4; 0; 0; 0; 255; 255; 255; 255].

Lemma decode_safe_witness :
  (encodable [P_type] 1 P_type ∧ bytes P_bytes ∧ length_words_fit P_bytes = true ∧ zlen P_bytes < 2 ^ 31 ∧
   (length P_bytes < 21)%nat) ∧
  ∃ o, sproto_decode [P_type] log_cb P_bytes 21 P_type (zlen P_bytes) [] = Ret o ∧
    from_option (λ p : list (sproto_arg * dvalue) * Z, 2 ≤ p.2 ≤ zlen P_bytes) True o.
Proof.
  pose proof P_encodable.
  assert (bytes P_bytes) by (apply (bool_decide_unpack _); vm_compute; exact I).
  assert (length_words_fit P_bytes = true) by (vm_compute; reflexivity).
  assert (length P_bytes < 21)%nat by (cbn; lia).
  split; [split_and!; done|]. by apply (decode_safe [P_type] log_cb 1).
Defined.

(** The bounds check [size < sz + SIZEOF_LENGTH] is one of [uint32_t]: a length
    word of 2^32 - 4 passes it, and the string field is given a negative
    length, outside the message. *)
Lemma decode_wrap_unsafe :
  sproto_decode [P_type] log_cb [1; 0; 0; 0; 252; 255; 255; 255] 11 P_type 8 [] = Undef.
Proof. vm_compute. reflexivity. Qed.
