(* ===== verification/StateM.v ===== *)
(** * Programs with a state

    The monad of C functions that work on a state and call each other, with an
    outcome of their own ([Prelude.outcome]), and its program logic: [wp m Q s]
    says that [m], started in the state [s], returns a value and a state that
    satisfy [Q]; [pwp m Q s] says so only if [m] returns. *)
From S2P Require Import Prelude.

Local Open Scope Z_scope.

Definition stateM (S A : Type) : Type := S → outcome (A * S).

#[export] Instance stateM_mret S : MRet (stateM S) := λ A a s, Ret (a, s).
#[export] Instance stateM_mbind S : MBind (stateM S) := λ A B f m s,
  '(a, s') ← m s; f a s'.

Section operations.
Context {S : Type}.

Definition get : stateM S S := λ s, Ret (s, s).
Definition gets {A} (f : S → A) : stateM S A := λ s, Ret (f s, s).
Definition modify (f : S → S) : stateM S unit := λ s, Ret (tt, f s).
(** What does not touch the state: an assertion, an access to an array. *)
Definition liftO {A} (m : outcome A) : stateM S A := λ s, a ← m; Ret (a, s).

(** [while] and [for(;;)], as [Prelude.loop]. *)
Fixpoint loopM {I R : Type} (fuel : nat) (body : I → stateM S (I + R)) (i : I) : stateM S R :=
  match fuel with
  | O => λ _, NoFuel
  | Datatypes.S fuel' =>
      r ← body i; match r with inl i' => loopM fuel' body i' | inr r => mret r end
  end.
End operations.

(** ** The logic *)

Section wp.
Context {S : Type}.

Definition wp {A} (m : stateM S A) (Q : A → S → Prop) (s : S) : Prop :=
  ∃ a s', m s = Ret (a, s') ∧ Q a s'.
Definition pwp {A} (m : stateM S A) (Q : A → S → Prop) (s : S) : Prop :=
  ∀ a s', m s = Ret (a, s') → Q a s'.

Lemma wp_ret {A} (a : A) (Q : A → S → Prop) s : Q a s → wp (mret a) Q s.
Proof. intros H. by exists a, s. Qed.

Lemma wp_bind {A B} (m : stateM S A) (f : A → stateM S B) Q s :
  wp m (λ a s', wp (f a) Q s') s → wp (m ≫= f) Q s.
Proof.
  intros (a & s' & Hm & b & s'' & Hf & HQ). exists b, s''. split; [|done].
  unfold mbind, stateM_mbind. rewrite Hm. done.
Qed.

(** A program is undefined when its first part is, or when what follows it is. *)
Lemma undef_bind {A B} (m : stateM S A) (f : A → stateM S B) s :
  wp m (λ a s', f a s' = Undef) s → (m ≫= f) s = Undef.
Proof. intros (a & s' & Hm & Hf). unfold mbind, stateM_mbind. by rewrite Hm. Qed.
Lemma undef_first {A B} (m : stateM S A) (f : A → stateM S B) s : m s = Undef → (m ≫= f) s = Undef.
Proof. intros Hm. unfold mbind, stateM_mbind. by rewrite Hm. Qed.

(** The program returns as [Q] says, or is undefined; the latter only if [B]. *)
Definition wpu {A} (B : Prop) (m : stateM S A) (Q : A → S → Prop) (s : S) : Prop :=
  wp m Q s ∨ (B ∧ m s = Undef).

Lemma wpu_wp {A} B (m : stateM S A) Q s : wp m Q s → wpu B m Q s.
Proof. by left. Qed.
Lemma wp_wpu {A} (B : Prop) (m : stateM S A) Q s : ¬ B → wpu B m Q s → wp m Q s.
Proof. by intros HB [H|[? _]]. Qed.
Lemma wpu_pwp {A} (B : Prop) (m : stateM S A) Q s : wpu B m Q s → pwp m Q s.
Proof. intros [(a & s' & Hm & HQ)|[_ Hm]] a' s'' Hm'; congruence. Qed.
Lemma wpu_weaken {A} (B B' : Prop) (m : stateM S A) Q s : (B → B') → wpu B m Q s → wpu B' m Q s.
Proof. intros HB [H|[? ?]]; [by left|right; auto]. Qed.
Lemma wpu_bind {A B'} (B : Prop) (m : stateM S A) (f : A → stateM S B') Q s :
  wpu B m (λ a s', wpu B (f a) Q s') s → wpu B (m ≫= f) Q s.
Proof.
  intros [(a & s' & Hm & [Hf|[HB Hf]])|[HB Hm]].
  - left. apply wp_bind. by exists a, s'.
  - right. split; [done|]. apply undef_bind. by exists a, s'.
  - right. split; [done|]. by apply undef_first.
Qed.

Lemma wp_mono {A} (m : stateM S A) (Q Q' : A → S → Prop) s :
  wp m Q s → (∀ a s', Q a s' → Q' a s') → wp m Q' s.
Proof. intros (a & s' & Hm & HQ) Himp. exists a, s'. auto. Qed.

Lemma wp_get (Q : S → S → Prop) s : Q s s → wp get Q s.
Proof. intros H. by exists s, s. Qed.
Lemma wp_gets {A} (f : S → A) (Q : A → S → Prop) s : Q (f s) s → wp (gets f) Q s.
Proof. intros H. by exists (f s), s. Qed.
Lemma wp_modify (f : S → S) (Q : unit → S → Prop) s : Q tt (f s) → wp (modify f) Q s.
Proof. intros H. by exists tt, (f s). Qed.

Lemma wp_lift {A} (m : outcome A) (a : A) (Q : A → S → Prop) s :
  m = Ret a → Q a s → wp (liftO m) Q s.
Proof. intros -> H. by exists a, s. Qed.

Lemma wp_assert (b : bool) (Q : unit → S → Prop) s : b = true → Q tt s → wp (liftO (assert_true b)) Q s.
Proof. intros ->. by apply wp_lift. Qed.

(** A loop with an invariant and a measure that goes down in every turn. *)
Lemma wp_loop {I R} (Inv : I → S → Prop) (meas : I → S → nat) (Q : R → S → Prop)
    (body : I → stateM S (I + R)) :
  (∀ i s, Inv i s → wp (body i) (λ r s', match r with
     | inl i' => Inv i' s' ∧ (meas i' s' < meas i s)%nat
     | inr r => Q r s' end) s) →
  ∀ fuel i s, Inv i s → (meas i s < fuel)%nat → wp (loopM fuel body i) Q s.
Proof.
  intros Hb fuel. induction fuel as [|fuel IH]; intros i s Hi Hm; [lia|]. cbn [loopM].
  apply wp_bind. eapply wp_mono; [by apply Hb|]. intros [i'|r] s' Hr; [|by apply wp_ret].
  destruct Hr as [Hi' Hlt]. apply IH; [done|lia].
Qed.

Lemma pwp_ret {A} (a : A) (Q : A → S → Prop) s : Q a s → pwp (mret a) Q s.
Proof. by intros H ? ? [= <- <-]. Qed.

Lemma pwp_bind {A B} (m : stateM S A) (f : A → stateM S B) Q s :
  pwp m (λ a s', pwp (f a) Q s') s → pwp (m ≫= f) Q s.
Proof.
  intros H b s'' Hb. unfold mbind, stateM_mbind in Hb.
  apply bind_Ret_inv in Hb as ([a s'] & Hm & Hf). by eapply H.
Qed.

Lemma pwp_mono {A} (m : stateM S A) (Q Q' : A → S → Prop) s :
  pwp m Q s → (∀ a s', Q a s' → Q' a s') → pwp m Q' s.
Proof. intros H Himp a s' Hm. auto. Qed.

Lemma pwp_get (Q : S → S → Prop) s : Q s s → pwp get Q s.
Proof. by intros H ? ? [= <- <-]. Qed.
Lemma pwp_gets {A} (f : S → A) (Q : A → S → Prop) s : Q (f s) s → pwp (gets f) Q s.
Proof. by intros H ? ? [= <- <-]. Qed.
Lemma pwp_modify (f : S → S) (Q : unit → S → Prop) s : Q tt (f s) → pwp (modify f) Q s.
Proof. by intros H ? ? [= <- <-]. Qed.
Lemma pwp_lift {A} (m : outcome A) (Q : A → S → Prop) s :
  (∀ a, m = Ret a → Q a s) → pwp (liftO m) Q s.
Proof.
  intros H a s' Hm. unfold liftO in Hm. apply bind_Ret_inv in Hm as (a' & Hm & [= <- <-]). auto.
Qed.

Lemma pwp_loop {I R} (Inv : I → S → Prop) (Q : R → S → Prop) (body : I → stateM S (I + R)) :
  (∀ i s, Inv i s → pwp (body i) (λ r s', match r with inl i' => Inv i' s' | inr r => Q r s' end) s) →
  ∀ fuel i s, Inv i s → pwp (loopM fuel body i) Q s.
Proof.
  intros Hb fuel. induction fuel as [|fuel IH]; intros i s Hi; [by intros ? ? ?|]. cbn [loopM].
  apply pwp_bind. eapply pwp_mono; [by apply Hb|]. intros [i'|r] s' Hr; [|by apply pwp_ret].
  by apply IH.
Qed.

Lemma wp_pwp {A} (m : stateM S A) (Q : A → S → Prop) s : wp m Q s → pwp m Q s.
Proof. intros (a & s' & Hm & HQ) a' s'' Hm'. congruence. Qed.

(** What holds of every result and what holds of this one. *)
Lemma wp_and {A} (m : stateM S A) (Q Q' : A → S → Prop) s :
  wp m Q s → pwp m Q' s → wp m (λ a s', Q a s' ∧ Q' a s') s.
Proof. intros (a & s' & Hm & HQ) H. exists a, s'. auto. Qed.
End wp.

(** The two cases of a program that begins with [if]. *)
Ltac wp_case H :=
  lazymatch goal with
  | |- wp (if ?b then _ else _) _ _ => destruct b eqn:H
  | |- wpu _ (if ?b then _ else _) _ _ => destruct b eqn:H
  end.

(** A first part that cannot be undefined. *)
Ltac wpu_step := apply wpu_bind, wpu_wp.
