(* ===== verification/Memory.v ===== *)
(** * Memory blocks

    The memory of the parts that pass pointers around: a heap of blocks of bytes by
    address, inside a larger state. Reading or freeing a block that is not there,
    and reading or writing outside a block, is [Undef]. *)
From S2P Require Import Prelude StateM.

Local Open Scope Z_scope.

(** The address of a block. *)
Notation addr := positive (only parsing).

Class HasHeap (S : Type) := {
  heap : S → gmap addr (list Z);
  with_heap : gmap addr (list Z) → S → S
}.

Section memory.
Context {S : Type} `{!HasHeap S}.

(** The bytes from [off] on in a block. *)
Definition hread (p : addr) (off sz : Z) : stateM S (list Z) :=
  b ← gets (λ n, heap n !! p);
  match b with Some bs => liftO (mread bs off sz) | None => liftO Undef end.

Definition hwrite (p : addr) (off : Z) (bs : list Z) : stateM S unit :=
  b ← gets (λ n, heap n !! p);
  match b with
  | Some old => bs' ← liftO (mwrite old off bs); modify (λ n, with_heap (<[p := bs']> (heap n)) n)
  | None => liftO Undef
  end.

(** [free], and [delete] of a block. *)
Definition hfree (p : addr) : stateM S unit :=
  b ← gets (λ n, heap n !! p);
  match b with
  | Some _ => modify (λ n, with_heap (delete p (heap n)) n)
  | None => liftO Undef
  end.

(** A block that is not in use, with these bytes. *)
Definition hmalloc (bs : list Z) : stateM S addr :=
  p ← gets (λ n, fresh (dom (heap n)));
  modify (λ n, with_heap (<[p := bs]> (heap n)) n);;
  mret p.

Lemma wp_hread p off sz bs Q (st : S) :
  heap st !! p = Some bs → 0 ≤ off → 0 ≤ sz → off + sz ≤ zlen bs →
  Q (take (Z.to_nat sz) (drop (Z.to_nat off) bs)) st → wp (hread p off sz) Q st.
Proof.
  intros Hp H1 H2 H3 HQ. unfold hread. apply wp_bind, wp_gets. rewrite Hp.
  eapply wp_lift; [by apply mread_in|done].
Qed.

Lemma wp_hread_all p bs Q (st : S) :
  heap st !! p = Some bs → Q bs st → wp (hread p 0 (zlen bs)) Q st.
Proof.
  intros Hp HQ. pose proof (zlen_nonneg bs). eapply wp_hread; [done|lia..|].
  unfold zlen. by rewrite drop_0, Nat2Z.id, firstn_all.
Qed.

Lemma wp_hwrite p off bs old Q (st : S) :
  heap st !! p = Some old → 0 ≤ off → off + zlen bs ≤ zlen old →
  (∀ new, mwrite old off bs = Ret new → Q tt (with_heap (<[p := new]> (heap st)) st)) →
  wp (hwrite p off bs) Q st.
Proof.
  intros Hp H1 H2 HQ. unfold hwrite. apply wp_bind, wp_gets. rewrite Hp.
  destruct (mwrite_spec old off bs) as (new & Hw & _); [done|done|].
  apply wp_bind. eapply wp_lift; [exact Hw|]. by apply wp_modify, HQ.
Qed.

Lemma wp_hfree p Q (st : S) :
  is_Some (heap st !! p) → Q tt (with_heap (delete p (heap st)) st) → wp (hfree p) Q st.
Proof.
  intros [bs Hp] HQ. unfold hfree. apply wp_bind, wp_gets. rewrite Hp. by apply wp_modify.
Qed.

Lemma wp_hmalloc bs Q (st : S) :
  (∀ p, heap st !! p = None → Q p (with_heap (<[p := bs]> (heap st)) st)) → wp (hmalloc bs) Q st.
Proof.
  intros HQ. unfold hmalloc. apply wp_bind, wp_gets, wp_bind, wp_modify, wp_ret. apply HQ.
  apply not_elem_of_dom, is_fresh.
Qed.
End memory.
