(* ===== verification/Stm.v ===== *)
(** * Shared messages (stm)

    The model of [lualib-src/lua-stm.cpp]: a service shares a message with others,
    and replaces it; each reader keeps the copy that it has read last. Objects and
    copies are counted, and freed with the last reference.

    A pointer to an object or a copy is a key of a finite map, and following one that
    has been freed is [Undef]; messages are blocks of [Memory]. Each function runs
    under the lock of its object, so the lock is not in the state. A box of Lua is the
    value it holds; [lread] returns what it gives to its function. *)
From S2P Require Import Prelude StateM Memory.

Local Open Scope Z_scope.

Record stm_copy := MkCopy { copy_reference : Z; copy_sz : Z; copy_msg : addr }.
Record stm_object := MkObject { obj_reference : Z; obj_copy : option positive }.

Record stm := MkStm {
  objects : gmap positive stm_object;
  copies : gmap positive stm_copy;
  blocks : gmap addr (list Z)
}.

#[export] Instance stm_heap : HasHeap stm := {|
  heap := blocks;
  with_heap := λ m st, MkStm (objects st) (copies st) m
|}.

Notation M := (stateM stm).

Definition set_objects (m : gmap positive stm_object) (st : stm) : stm := MkStm m (copies st) (blocks st).
Definition set_copies (m : gmap positive stm_copy) (st : stm) : stm := MkStm (objects st) m (blocks st).

Definition get_object (o : positive) : M stm_object :=
  x ← gets (λ st, objects st !! o); match x with Some x => mret x | None => liftO Undef end.
Definition put_object (o : positive) (x : stm_object) : M unit :=
  modify (λ st, set_objects (<[o := x]> (objects st)) st).
Definition delete_object (o : positive) : M unit := modify (λ st, set_objects (delete o (objects st)) st).
Definition get_copy (c : positive) : M stm_copy :=
  x ← gets (λ st, copies st !! c); match x with Some x => mret x | None => liftO Undef end.
Definition put_copy (c : positive) (x : stm_copy) : M unit :=
  modify (λ st, set_copies (<[c := x]> (copies st)) st).
Definition delete_copy (c : positive) : M unit := modify (λ st, set_copies (delete c (copies st)) st).

(** ** Objects and copies *)

(** [sz] goes through an [int32_t]. *)
Definition stm_newcopy (msg : addr) (sz : Z) : M positive :=
  c ← gets (λ st, fresh (dom (copies st)));
  put_copy c (MkCopy 1 (u32 (i32 sz)) msg);;
  mret c.

Definition stm_new (msg : addr) (sz : Z) : M positive :=
  o ← gets (λ st, fresh (dom (objects st)));
  copy ← stm_newcopy msg sz;
  put_object o (MkObject 1 (Some copy));;
  mret o.

Definition stm_releasecopy (copy : option positive) : M unit :=
  match copy with
  | None => mret tt
  | Some c =>
      x ← get_copy c;
      put_copy c (MkCopy (copy_reference x - 1) (copy_sz x) (copy_msg x));;
      if copy_reference x <=? 1 then hfree (copy_msg x);; delete_copy c else mret tt
  end.

Definition stm_release (obj : positive) : M unit :=
  x ← get_object obj;
  liftO (assert_true (bool_decide (is_Some (obj_copy x))));;
  stm_releasecopy (obj_copy x);;
  put_object obj (MkObject (obj_reference x - 1) None);;
  if 1 <? obj_reference x then mret tt else delete_object obj.

Definition stm_releasereader (obj : positive) : M unit :=
  x ← get_object obj;
  put_object obj (MkObject (obj_reference x - 1) (obj_copy x));;
  if obj_reference x =? 1 then
    liftO (assert_true (bool_decide (obj_copy x = None)));;
    delete_object obj
  else mret tt.

Definition stm_grab (obj : positive) : M unit :=
  x ← get_object obj;
  put_object obj (MkObject (obj_reference x + 1) (obj_copy x));;
  liftO (assert_true (0 <? obj_reference x)).

(** The copy that a reader gets; it is the object that is counted once more. *)
Definition stm_copy_ (obj : positive) : M (option positive) :=
  x ← get_object obj;
  match obj_copy x with
  | None => mret None
  | Some ret =>
      put_object obj (MkObject (obj_reference x + 1) (obj_copy x));;
      liftO (assert_true (0 <? obj_reference x));;
      mret (Some ret)
  end.

Definition stm_update (obj msg : positive) (sz : Z) : M unit :=
  copy ← stm_newcopy msg sz;
  x ← get_object obj;
  put_object obj (MkObject (obj_reference x) (Some copy));;
  stm_releasecopy (obj_copy x).

(** ** For Lua *)

(** A message is a string, which is copied, or memory with its size. *)
Inductive stm_message :=
| Text (s : list Z)
| Pointer (p : addr) (sz : Z).

Definition take_message (m : stm_message) : M (addr * Z) :=
  match m with
  | Text s => msg ← hmalloc s; mret (msg, zlen s)
  | Pointer p sz => mret (p, u64 sz)
  end.

Record boxreader := MkReader { reader_obj : positive; lastcopy : option positive }.

Definition lcopy (box : positive) : M positive := stm_grab box;; mret box.

Definition lnewwriter (m : stm_message) : M positive :=
  '(msg, sz) ← take_message m; stm_new msg sz.

Definition ldeletewriter (box : positive) : M unit := stm_release box.

Definition lupdate (box : positive) (m : stm_message) : M unit :=
  '(msg, sz) ← take_message m; stm_update box msg sz.

Definition lnewreader (obj : positive) : M boxreader := mret (MkReader obj None).

Definition ldeletereader (box : boxreader) : M unit :=
  stm_releasereader (reader_obj box);;
  stm_releasecopy (lastcopy box).

(** The box afterwards, and the message when there is a new one. *)
Definition lread (box : boxreader) : M (boxreader * option (list Z)) :=
  copy ← stm_copy_ (reader_obj box);
  if bool_decide (copy = lastcopy box) then stm_releasecopy copy;; mret (box, None)
  else
    stm_releasecopy (lastcopy box);;
    let box := MkReader (reader_obj box) copy in
    match copy with
    | Some c => x ← get_copy c; bs ← hread (copy_msg x) 0 (copy_sz x); mret (box, Some bs)
    | None => mret (box, None)
    end.

(** ** Rules *)

Section rules.
Implicit Types (st : stm).

Lemma wp_get_object o x (Q : stm_object → stm → Prop) st : objects st !! o = Some x → Q x st → wp (get_object o) Q st.
Proof. intros Ho HQ. unfold get_object. apply wp_bind, wp_gets. rewrite Ho. by apply wp_ret. Qed.

Lemma wp_get_copy c x (Q : stm_copy → stm → Prop) st : copies st !! c = Some x → Q x st → wp (get_copy c) Q st.
Proof. intros Hc HQ. unfold get_copy. apply wp_bind, wp_gets. rewrite Hc. by apply wp_ret. Qed.

(** A copy that has one reference. *)
Definition last_reference (c : positive) (p : addr) (bs : list Z) (st : stm) : Prop :=
  copies st !! c = Some (MkCopy 1 (zlen bs) p) ∧ blocks st !! p = Some bs.

Definition without_copy (c : positive) (p : addr) (st : stm) : stm :=
  MkStm (objects st) (delete c (copies st)) (delete p (blocks st)).

Lemma wp_releasecopy c p bs (Q : unit → stm → Prop) st :
  last_reference c p bs st → Q tt (without_copy c p st) → wp (stm_releasecopy (Some c)) Q st.
Proof.
  intros [Hc Hp] HQ. unfold stm_releasecopy. apply wp_bind. eapply wp_get_copy; [exact Hc|]. apply wp_bind, wp_modify.
  cbn [copy_reference copy_msg Z.leb Z.compare Pos.compare Pos.compare_cont]. apply wp_bind, wp_hfree; [by exists bs|]. apply wp_modify.
  unfold without_copy in HQ. unfold set_copies, delete_copy. cbn. rewrite delete_insert_eq. exact HQ.
Qed.

(** The state with one copy more. *)
Definition with_copy (c : positive) (p : addr) (bs : list Z) (st : stm) : stm :=
  MkStm (objects st) (<[c := MkCopy 1 (zlen bs) p]> (copies st)) (<[p := bs]> (blocks st)).

Lemma u32_i32 z : u32 (i32 z) = u32 z.
Proof.
  unfold u32, i32. rewrite Zminus_mod_idemp_l. f_equal. lia.
Qed.

Lemma wp_new_text {B} s (f : addr * Z → M B) (Q : B → stm → Prop) st :
  (∀ p, blocks st !! p = None → wp (f (p, zlen s)) Q (MkStm (objects st) (copies st) (<[p := s]> (blocks st)))) →
  wp (x ← take_message (Text s); f x) Q st.
Proof. intros H. apply wp_bind. unfold take_message. apply wp_bind, wp_hmalloc. intros p Hp. apply wp_ret. by apply H. Qed.

(** [st] with an object that has one more copy, of [n] references. *)
Definition sharing (o : positive) (n : Z) (c : positive) (p : addr) (bs : list Z) (st : stm) : stm :=
  MkStm (<[o := MkObject n (Some c)]> (objects st)) (<[c := MkCopy 1 (zlen bs) p]> (copies st)) (<[p := bs]> (blocks st)).

Record apart (o c p : positive) (st : stm) : Prop := {
  ap_object : objects st !! o = None;
  ap_copy : copies st !! c = None;
  ap_block : blocks st !! p = None
}.

Lemma wp_lnewwriter s (Q : positive → stm → Prop) st : zlen s < 2 ^ 32 →
  (∀ o c p, apart o c p st → Q o (sharing o 1 c p s st)) → wp (lnewwriter (Text s)) Q st.
Proof.
  intros Hs HQ. unfold lnewwriter. apply wp_new_text. intros p Hp. unfold stm_new, stm_newcopy.
  pose proof (zlen_nonneg s). rewrite u32_i32, u32_small by lia.
  apply wp_bind, wp_gets, wp_bind, wp_bind, wp_gets, wp_bind, wp_modify, wp_ret, wp_bind, wp_modify, wp_ret.
  apply HQ. split; [apply not_elem_of_dom, is_fresh|apply not_elem_of_dom, is_fresh|done].
Qed.

Lemma wp_lupdate o n c p bs s (Q : unit → stm → Prop) st : zlen s < 2 ^ 32 → apart o c p st →
  (∀ c' p', apart o c' p' st → c' ≠ c → Q tt (sharing o n c' p' s st)) →
  wp (lupdate o (Text s)) Q (sharing o n c p bs st).
Proof.
  intros Hs [Ao Ac Ap] HQ. unfold lupdate. apply wp_new_text. intros p' Hp'. unfold stm_update, stm_newcopy.
  pose proof (zlen_nonneg s). rewrite u32_i32, u32_small by lia.
  apply wp_bind, wp_bind, wp_gets, wp_bind, wp_modify, wp_ret. cbn [copies objects blocks sharing set_copies] in *.
  match goal with |- context [fresh ?X] => set (c' := fresh X) end.
  assert (Hc' : <[c := MkCopy 1 (zlen bs) p]> (copies st) !! c' = None) by apply not_elem_of_dom, is_fresh.
  apply lookup_insert_None in Hc' as [Hc' Hne], Hp' as [Hp' Hnp].
  apply wp_bind. eapply wp_get_object; [apply lookup_insert_eq|]. cbn [obj_reference obj_copy].
  apply wp_bind, wp_modify. eapply (wp_releasecopy c p bs).
  { split; cbn; rewrite lookup_insert_ne by done; apply lookup_insert_eq. }
  unfold without_copy, set_objects. cbn.
  rewrite insert_insert_eq, (delete_insert_ne _ c c'), (delete_insert_ne _ p p'), !delete_insert_id by done. apply HQ; [by split|done].
Qed.

Lemma wp_lcopy o n c p bs (Q : positive → stm → Prop) st : 0 < n →
  Q o (sharing o (n + 1) c p bs st) → wp (lcopy o) Q (sharing o n c p bs st).
Proof.
  intros Hn HQ. unfold lcopy, stm_grab. apply wp_bind, wp_bind. eapply wp_get_object; [apply lookup_insert_eq|]. cbn [obj_reference obj_copy].
  apply wp_bind, wp_modify. unfold sharing, set_objects. cbn. rewrite insert_insert_eq. apply wp_assert; [by apply Z.ltb_lt|]. by apply wp_ret.
Qed.

(** The first read of a reader. *)
Lemma wp_first_read o n c p bs (Q : boxreader * option (list Z) → stm → Prop) st : 0 < n →
  Q (MkReader o (Some c), Some bs) (sharing o (n + 1) c p bs st) → wp (lread (MkReader o None)) Q (sharing o n c p bs st).
Proof.
  intros Hn HQ. unfold lread, stm_copy_. cbn [reader_obj lastcopy].
  apply wp_bind, wp_bind. eapply wp_get_object; [apply lookup_insert_eq|]. cbn [obj_reference obj_copy].
  apply wp_bind, wp_modify. unfold sharing, set_objects. cbn. rewrite insert_insert_eq.
  apply wp_bind, wp_assert; [by apply Z.ltb_lt|]. apply wp_ret. cbn. apply wp_bind, wp_ret, wp_bind.
  eapply wp_get_copy; [apply lookup_insert_eq|]. apply wp_bind. eapply wp_hread_all; [apply lookup_insert_eq|]. by apply wp_ret.
Qed.
End rules.

(** ** What works *)

(** A writer that is given one message after another. *)
Fixpoint write_all (w : positive) (ms : list (list Z)) : M unit :=
  match ms with [] => mret tt | m :: ms => lupdate w (Text m);; write_all w ms end.

Definition fits_word (m : list Z) : Prop := zlen m < 2 ^ 32.

Lemma wp_write_all o n c p bs ms (Q : unit → stm → Prop) st : Forall fits_word ms → apart o c p st →
  (∀ c' p', apart o c' p' st → Q tt (sharing o n c' p' (default bs (last ms)) st)) →
  wp (write_all o ms) Q (sharing o n c p bs st).
Proof.
  intros Hms. revert c p bs. induction Hms as [|m ms Hm _ IH]; intros c p bs Ha HQ; cbn [write_all].
  - by apply wp_ret, HQ.
  - apply wp_bind. eapply wp_lupdate; [done|exact Ha|]. intros c' p' Ha' _. apply IH; [done|]. intros c2 p2 Ha2.
    specialize (HQ c2 p2 Ha2). destruct ms as [|m' ms]; [done|]. rewrite last_cons_cons in HQ. destruct (last (m' :: ms)) eqn:E; [done|].
    by apply last_None in E.
Qed.

(** The first read of a new reader gives the message that was written last, however
    many were written before. *)
Theorem reader_gets_latest m ms st : fits_word m → Forall fits_word ms →
  ∃ r st', (w ← lnewwriter (Text m); write_all w ms;; o ← lcopy w; box ← lnewreader o; lread box) st =
    Ret ((r, Some (default m (last ms))), st').
Proof.
  intros Hm Hms. cut (wp (w ← lnewwriter (Text m); write_all w ms;; o ← lcopy w; box ← lnewreader o; lread box)
    (λ x _, x.2 = Some (default m (last ms))) st).
  { intros ([r x] & st' & Hrun & HQ). cbn in HQ. subst x. by exists r, st'. }
  apply wp_bind. eapply wp_lnewwriter; [done|]. intros o c p Ha. apply wp_bind. eapply wp_write_all; [done|exact Ha|].
  intros c' p' _. apply wp_bind. eapply wp_lcopy; [done|]. apply wp_bind, wp_ret. by eapply wp_first_read.
Qed.

(** Without a read nothing is left behind. *)
Theorem unread_object_freed m ms st : fits_word m → Forall fits_word ms →
  (w ← lnewwriter (Text m); write_all w ms;; o ← lcopy w; box ← lnewreader o; ldeletewriter w;; ldeletereader box) st = Ret (tt, st).
Proof.
  intros Hm Hms. cut (wp (w ← lnewwriter (Text m); write_all w ms;; o ← lcopy w; box ← lnewreader o; ldeletewriter w;; ldeletereader box)
    (λ _ st', st' = st) st).
  { intros ([] & st' & Hrun & ->). exact Hrun. }
  apply wp_bind. eapply wp_lnewwriter; [done|]. intros o c p Ha. apply wp_bind. eapply wp_write_all; [done|exact Ha|].
  intros c' p' [Ao Ac Ap]. apply wp_bind. eapply wp_lcopy; [done|]. apply wp_bind, wp_ret, wp_bind. unfold ldeletewriter, stm_release.
  apply wp_bind. eapply wp_get_object; [apply lookup_insert_eq|]. cbn [obj_reference obj_copy].
  apply wp_bind, wp_assert; [done|]. apply wp_bind. eapply wp_releasecopy; [by split; apply lookup_insert_eq|].
  unfold without_copy, sharing. cbn. rewrite !delete_insert_id by done. apply wp_bind, wp_modify, wp_ret.
  unfold ldeletereader, stm_releasereader. cbn [reader_obj lastcopy]. apply wp_bind, wp_bind.
  eapply wp_get_object; [apply lookup_insert_eq|]. cbn. apply wp_bind, wp_modify, wp_bind. eapply wp_lift; [done|].
  apply wp_modify, wp_ret. unfold set_objects. cbn. rewrite !insert_insert_eq, delete_insert_id by done. by destruct st.
Qed.

(** ** What does not *)

(** [stm_copy] counts the object where it means the copy, so the copy that a reader
    keeps is not its own. The second read without an update frees it, and the third
    reads freed memory; an update frees it too, and the next read frees it again. *)
Theorem second_read_frees o n c p bs m st : 0 < n → fits_word m → apart o c p st →
  let box := MkReader o (Some c) in
  lread (MkReader o None) (sharing o n c p bs st) = Ret ((box, Some bs), sharing o (n + 1) c p bs st) ∧
  (∃ st2, lread box (sharing o (n + 1) c p bs st) = Ret ((box, None), st2) ∧ copies st2 !! c = None ∧ lread box st2 = Undef) ∧
  (∃ st2, lupdate o (Text m) (sharing o (n + 1) c p bs st) = Ret (tt, st2) ∧ lread box st2 = Undef).
Proof.
  intros Hn Hm [Ao Ac Ap] box.
  assert (H1 : wp (lread (MkReader o None)) (λ x st', x = (box, Some bs) ∧ st' = sharing o (n + 1) c p bs st) (sharing o n c p bs st)).
  { by apply wp_first_read. }
  destruct H1 as (x & st1 & Hrun & -> & ->). split; [exact Hrun|]. split.
  - assert (H2 : wp (lread box) (λ x st', x = (box, None) ∧
      st' = MkStm (<[o := MkObject (n + 1 + 1) (Some c)]> (objects st)) (copies st) (blocks st)) (sharing o (n + 1) c p bs st)).
    { unfold lread, stm_copy_. cbn [reader_obj lastcopy box]. apply wp_bind, wp_bind.
      eapply wp_get_object; [apply lookup_insert_eq|]. cbn [obj_reference obj_copy]. apply wp_bind, wp_modify, wp_bind, wp_assert.
      { apply Z.ltb_lt. lia. }
      apply wp_ret. rewrite bool_decide_true by done. apply wp_bind. eapply (wp_releasecopy c p bs).
      { split; apply lookup_insert_eq. }
      apply wp_ret. split; [done|]. unfold without_copy, set_objects, sharing. cbn.
      by rewrite insert_insert_eq, !delete_insert_id by done. }
    destruct H2 as (x & st2 & Hrun2 & -> & ->). eexists. split; [exact Hrun2|]. cbn. split; [done|].
    unfold lread, stm_copy_, get_object, gets, liftO, put_object, modify, mbind, stateM_mbind. cbn. rewrite lookup_insert_eq. cbn.
    rewrite (proj2 (Z.ltb_lt _ _)) by lia. cbn. rewrite bool_decide_true by done.
    unfold stm_releasecopy, get_copy, gets, mbind, stateM_mbind. cbn. by rewrite Ac.
  - assert (H2 : wp (lupdate o (Text m)) (λ _ st', ∃ c' p', c' ≠ c ∧ st' = sharing o (n + 1) c' p' m st) (sharing o (n + 1) c p bs st)).
    { eapply wp_lupdate; [done|by split|]. intros c' p' _ Hne. by exists c', p'. }
    destruct H2 as ([] & st2 & Hrun2 & c' & p' & Hne & ->). eexists. split; [exact Hrun2|].
    unfold lread, stm_copy_, get_object, gets, liftO, put_object, modify, mbind, stateM_mbind. cbn. rewrite lookup_insert_eq. cbn.
    rewrite (proj2 (Z.ltb_lt _ _)) by lia. cbn. rewrite bool_decide_false by congruence.
    unfold stm_releasecopy, get_copy, gets, mbind, stateM_mbind. cbn. by rewrite lookup_insert_ne, Ac by done.
Qed.

(** ** Concrete runs *)

Definition no_objects : stm := MkStm ∅ ∅ ∅.

Lemma reader_gets_latest_witness :
  ∃ r st', (w ← lnewwriter (Text [1]); write_all w [[2]; [3; 4]];; o ← lcopy w; box ← lnewreader o; lread box) no_objects =
    Ret ((r, Some [3; 4]), st').
Proof. apply (reader_gets_latest [1] [[2]; [3; 4]] no_objects); [done|by repeat constructor]. Defined.

Lemma second_read_frees_witness :
  lread (MkReader 1 None) (sharing 1 2 1 1 [7] no_objects) = Ret ((MkReader 1 (Some 1%positive), Some [7]), sharing 1 3 1 1 [7] no_objects) ∧
  ∃ st2, lupdate 1 (Text [8]) (sharing 1 3 1 1 [7] no_objects) = Ret (tt, st2) ∧ lread (MkReader 1 (Some 1%positive)) st2 = Undef.
Proof.
  destruct (second_read_frees 1 2 1 1 [7] [8] no_objects) as (H1 & _ & H2); [done|done|by split|].
  split; [exact H1|exact H2].
Defined.
