(* ===== verification/Multicast.v ===== *)
(** * Messages to many services

    The model of [lualib-src/lua-multicast.cpp]: a message for many services of a node
    is one counted package ([mc_package]); the sender packs it, the multicast service
    binds the number of receivers to it, and each receiver closes it. For another
    node the package is taken apart again.

    A [struct mc_package *] is a key of [packages], a [struct mc_package **] one of
    [pointers]; following one that has been freed is [Undef]. A function gives its
    result, or the error of Lua that it raises. *)
From S2P Require Import Prelude StateM Memory.

Local Open Scope Z_scope.

Record mc_package := MkPackage { reference : Z; size : Z; data : addr }.

Record mc := MkMc {
  packages : gmap positive mc_package;
  pointers : gmap positive positive;
  blocks : gmap addr (list Z)
}.

#[export] Instance mc_heap : HasHeap mc := {|
  heap := blocks;
  with_heap := λ m st, MkMc (packages st) (pointers st) m
|}.

Notation M := (stateM mc).

Definition set_packages (m : gmap positive mc_package) (st : mc) : mc := MkMc m (pointers st) (blocks st).
Definition set_pointers (m : gmap positive positive) (st : mc) : mc := MkMc (packages st) m (blocks st).

Definition get_package (p : positive) : M mc_package :=
  x ← gets (λ st, packages st !! p); match x with Some x => mret x | None => liftO Undef end.
Definition put_package (p : positive) (x : mc_package) : M unit :=
  modify (λ st, set_packages (<[p := x]> (packages st)) st).
Definition delete_package (p : positive) : M unit := modify (λ st, set_packages (delete p (packages st)) st).
(** [*ptr]. *)
Definition get_pointer (ptr : positive) : M positive :=
  x ← gets (λ st, pointers st !! ptr); match x with Some p => mret p | None => liftO Undef end.
Definition delete_pointer (ptr : positive) : M unit := modify (λ st, set_pointers (delete ptr (pointers st)) st).

(** A result, and an error of Lua. *)
Definition result (A : Type) : Type := string + A.
Definition lua_ret {A} (a : A) : M (result A) := mret (inr a).
Definition lua_error {A} (msg : string) : M (result A) := mret (inl msg).

(** The size of a pointer to a package. *)
Definition SIZEOF_POINTER : Z := 8.

(** ** The functions *)

Definition pack (data : addr) (size : Z) : M (result (positive * Z)) :=
  p ← gets (λ st, fresh (dom (packages st)));
  put_package p (MkPackage 0 (u32 size) data);;
  ret ← gets (λ st, fresh (dom (pointers st)));
  modify (λ st, set_pointers (<[ret := p]> (pointers st)) st);;
  lua_ret (ret, SIZEOF_POINTER).

Definition mc_packlocal (data : addr) (size : Z) : M (result (positive * Z)) :=
  let size := u64 size in
  if negb (size =? u32 size) then lua_error "Size should be 32bit integer"
  else pack data size.

Definition mc_packremote (data : addr) (size : Z) : M (result (positive * Z)) :=
  let size := u64 size in
  if negb (size =? u32 size) then lua_error "Size should be 32bit integer"
  else
    bs ← hread data 0 size;
    msg ← hmalloc bs;
    pack msg size.

(** The package, and the data with its size. *)
Definition mc_unpacklocal (ptr : positive) (sz : Z) : M (result (positive * addr * Z)) :=
  if negb (i32 sz =? SIZEOF_POINTER) then lua_error "Invalid multicast package size %d"
  else
    p ← get_pointer ptr;
    x ← get_package p;
    lua_ret (p, data x, size x).

Definition mc_bindrefer (ptr : positive) (ref : Z) : M (result positive) :=
  p ← get_pointer ptr;
  x ← get_package p;
  if negb (reference x =? 0) then lua_error "Can't bind a multicast package more than once"
  else
    put_package p (MkPackage (i32 ref) (size x) (data x));;
    delete_pointer ptr;;
    lua_ret p.

(** [fetch_sub] gives the count before it: the last reference has 1. *)
Definition mc_closelocal (p : positive) : M (result unit) :=
  x ← get_package p;
  let ref := reference x in
  put_package p (MkPackage (i32 (ref - 1)) (size x) (data x));;
  if ref <=? 0 then
    hfree (data x);;
    delete_package p;;
    if ref <? 0 then lua_error "Invalid multicast package reference %d" else lua_ret tt
  else lua_ret tt.

Definition mc_remote (ptr : positive) : M (addr * Z) :=
  p ← get_pointer ptr;
  x ← get_package p;
  delete_package p;;
  delete_pointer ptr;;
  mret (data x, size x).

(** The highest bit is removed. *)
Definition mc_nextid (id : Z) : Z := Z.land (u32 (u32 id + 256)) 0x7fffffff.

(** ** A message and its receivers *)

(** The next function, with the result of the last. *)
Definition then_ {A B} (m : M (result A)) (f : A → M (result B)) : M (result B) :=
  r ← m; match r with inl e => lua_error e | inr a => f a end.

Fixpoint close_times (n : nat) (p : positive) : M (result unit) :=
  match n with
  | O => lua_ret tt
  | S n' => then_ (mc_closelocal p) (λ _, close_times n' p)
  end.

(** What [multicastd.lua] and the receivers do with a message for [n] services. *)
Definition publish (data : addr) (size : Z) (n : nat) : M (result positive) :=
  then_ (mc_packlocal data size) (λ '(ptr, _),
  then_ (mc_bindrefer ptr (Z.of_nat n)) (λ p,
  then_ (close_times n p) (λ _, lua_ret p))).

Definition with_package (p : positive) (x : mc_package) (st : mc) : mc := set_packages (<[p := x]> (packages st)) st.

Lemma close_run p ref sz d st : 0 < ref ≤ INT_MAX → packages st !! p = None →
  mc_closelocal p (with_package p (MkPackage ref sz d) st) = Ret (inr tt, with_package p (MkPackage (ref - 1) sz d) st).
Proof.
  intros Hr Hp. unfold mc_closelocal, get_package, put_package, gets, modify, mbind, stateM_mbind. cbn.
  rewrite lookup_insert_eq. cbn. rewrite (proj2 (Z.leb_gt _ _)) by lia. cbn. unfold lua_ret, mret, stateM_mret, with_package, set_packages. cbn.
  rewrite insert_insert_eq, i32_small; [done|]. unfold INT_MAX in *. lia.
Qed.

Lemma close_times_run n p ref sz d st : Z.of_nat n ≤ ref ≤ INT_MAX → packages st !! p = None →
  close_times n p (with_package p (MkPackage ref sz d) st) =
    Ret (inr tt, with_package p (MkPackage (ref - Z.of_nat n) sz d) st).
Proof.
  revert ref. induction n as [|n IH]; intros ref Hr Hp; cbn [close_times].
  - by rewrite Z.sub_0_r.
  - unfold then_, mbind, stateM_mbind. rewrite close_run by (lia || done). cbn [mbind outcome_mbind].
    rewrite IH by (lia || done). do 4 f_equal. lia.
Qed.

(** A package is not freed when all its receivers have closed it: the count is 0
    then, and the data and the package stay. One receiver more would free them, and
    every later close is undefined. *)
Theorem multicast_package_stays st d bs n :
  blocks st !! d = Some bs → zlen bs < 2 ^ 32 → (1 ≤ n)%nat → Z.of_nat n ≤ INT_MAX →
  ∃ p, packages st !! p = None ∧
    let st' := with_package p (MkPackage 0 (zlen bs) d) st in
    publish d (zlen bs) n st = Ret (inr p, st') ∧
    mc_closelocal p st' = Ret (inr tt, MkMc (packages st) (pointers st) (delete d (blocks st))) ∧
    mc_closelocal p (MkMc (packages st) (pointers st) (delete d (blocks st))) = Undef.
Proof.
  intros Hd Hsz Hn Hmax. pose proof (zlen_nonneg bs).
  set (p := fresh (dom (packages st))). assert (Hp : packages st !! p = None) by (apply not_elem_of_dom, is_fresh).
  set (ptr := fresh (dom (pointers st))). assert (Hptr : pointers st !! ptr = None) by (apply not_elem_of_dom, is_fresh).
  exists p. split; [done|]. cbn zeta.
  assert (Hpack : mc_packlocal d (zlen bs) st =
    Ret (inr (ptr, SIZEOF_POINTER), with_package p (MkPackage 0 (zlen bs) d) (set_pointers (<[ptr := p]> (pointers st)) st))).
  { unfold mc_packlocal. unfold u64. rewrite Z.mod_small by lia. rewrite u32_small, Z.eqb_refl by lia. cbn [negb].
    unfold pack. by rewrite u32_small by lia. }
  assert (Hbind : mc_bindrefer ptr (Z.of_nat n) (with_package p (MkPackage 0 (zlen bs) d) (set_pointers (<[ptr := p]> (pointers st)) st)) =
    Ret (inr p, with_package p (MkPackage (Z.of_nat n) (zlen bs) d) st)).
  { unfold mc_bindrefer, get_pointer, get_package, put_package, delete_pointer, gets, modify, mbind, stateM_mbind. cbn.
    rewrite lookup_insert_eq. cbn. rewrite lookup_insert_eq. cbn. unfold lua_ret, mret, stateM_mret, with_package, set_packages, set_pointers. cbn.
    rewrite insert_insert_eq, delete_insert_id by done. rewrite i32_small by (unfold INT_MAX in *; lia). done. }
  split_and!.
  - unfold publish, then_ at 1, mbind at 1, stateM_mbind at 1. rewrite Hpack. cbn [mbind outcome_mbind].
    unfold then_ at 1, mbind at 1, stateM_mbind at 1. rewrite Hbind. cbn [mbind outcome_mbind].
    unfold then_ at 1, mbind at 1, stateM_mbind at 1. rewrite close_times_run by (lia || done). cbn [mbind outcome_mbind].
    by rewrite Z.sub_diag.
  - unfold mc_closelocal, get_package, put_package, delete_package, hfree, gets, modify, mbind, stateM_mbind. cbn.
    rewrite lookup_insert_eq. cbn. rewrite Hd. cbn. unfold lua_ret, mret, stateM_mret, set_packages. cbn.
    by rewrite insert_insert_eq, delete_insert_id.
  - unfold mc_closelocal, get_package, gets, mbind, stateM_mbind. cbn. by rewrite Hp.
Qed.

(** A package for another node is taken apart: the data comes back, and nothing is left. *)
Theorem packremote_remote st d bs :
  blocks st !! d = Some bs → zlen bs < 2 ^ 32 →
  ∃ msg, blocks st !! msg = None ∧
    then_ (mc_packremote d (zlen bs)) (λ '(ptr, _), r ← mc_remote ptr; lua_ret r) st =
      Ret (inr (msg, zlen bs), MkMc (packages st) (pointers st) (<[msg := bs]> (blocks st))).
Proof.
  intros Hd Hsz. pose proof (zlen_nonneg bs). set (msg := fresh (dom (blocks st))).
  assert (Hmsg : blocks st !! msg = None) by (apply not_elem_of_dom, is_fresh). exists msg. split; [done|].
  set (p := fresh (dom (packages st))). assert (Hp : packages st !! p = None) by (apply not_elem_of_dom, is_fresh).
  set (ptr := fresh (dom (pointers st))). assert (Hptr : pointers st !! ptr = None) by (apply not_elem_of_dom, is_fresh).
  assert (Hread : hread d 0 (zlen bs) st = Ret (bs, st)).
  { unfold hread, gets, liftO, mbind, stateM_mbind. cbn [mbind outcome_mbind heap mc_heap]. rewrite Hd. rewrite mread_in by lia. cbn.
    unfold zlen. by rewrite drop_0, Nat2Z.id, firstn_all. }
  unfold then_ at 1, mc_packremote. unfold u64. rewrite Z.mod_small by lia. rewrite u32_small, Z.eqb_refl by lia. cbn [negb].
  unfold mbind, stateM_mbind. rewrite Hread. cbn [mbind outcome_mbind].
  unfold hmalloc, pack, mc_remote, get_pointer, get_package, put_package, delete_package, delete_pointer, gets, modify, mbind, stateM_mbind.
  cbn [mbind outcome_mbind mret stateM_mret lua_ret heap with_heap mc_heap packages pointers blocks set_packages set_pointers].
  fold msg p ptr. rewrite lookup_insert_eq. cbn [mbind outcome_mbind mret stateM_mret packages pointers blocks set_packages set_pointers].
  rewrite lookup_insert_eq. cbn [mbind outcome_mbind mret stateM_mret packages pointers blocks set_packages set_pointers data size].
  rewrite !delete_insert_id by done. by rewrite u32_small by lia.
Qed.

(** ** A concrete run *)

Definition one_message : mc := MkMc ∅ ∅ {[1%positive := [104; 105]]}.

Lemma multicast_package_stays_witness : ∃ p,
  publish 1 2 3 one_message = Ret (inr p, with_package p (MkPackage 0 2 1) one_message).
Proof.
  destruct (multicast_package_stays one_message 1 [104; 105] 3) as (p & _ & Hrun & _); [reflexivity|reflexivity|lia|reflexivity || (vm_compute; discriminate)|].
  exists p. exact Hrun.
Defined.
