(* ===== verification/LuaSocket.v ===== *)
(** * Socket buffers of Lua services

    The model of the buffers of [lualib-src/lua-socket.cpp]: a service in Lua keeps what
    it gets from a socket in a [socket_buffer], a chain of the blocks that came, and
    reads strings from it, by their size or up to a separator. The nodes of the chains
    come from a pool, a Lua table of growing chunks; the model lets many buffers share
    one pool.

    The state [driver] has the buffers and nodes by address, and the blocks that
    belong to the service. The address of a node is its chunk with its index there.
    A function gives its result, or the error of Lua that it raises. The other
    functions of the file hand arguments of Lua on to the server's sockets
    ([FengnetSocket]). *)
From S2P Require Import Prelude StateM Memory.

Local Open Scope Z_scope.

(** ** Data *)

Definition LARGE_PAGE_NODE : Z := 12.

Notation nodeptr := (positive * Z)%type (only parsing).

Record buffer_node := MkNode { n_msg : option addr; n_sz : Z; n_next : option nodeptr }.

Record socket_buffer := MkBuffer {
  sb_size : Z;
  sb_offset : Z;
  sb_head : option nodeptr;
  sb_tail : option nodeptr
}.

(** The table of the pool: [d_free] is its first entry, [nil] or a light userdata that
    may be null; [d_chunks] are the others, with their sizes. *)
Record driver := MkDriver {
  d_buffers : gmap positive socket_buffer;
  d_nodes : gmap nodeptr buffer_node;
  d_free : option (option nodeptr);
  d_chunks : list (positive * Z);
  d_blocks : gmap addr (list Z)
}.

#[export] Instance driver_heap : HasHeap driver := {|
  heap := d_blocks;
  with_heap := λ m st, MkDriver (d_buffers st) (d_nodes st) (d_free st) (d_chunks st) m
|}.

Notation D := (stateM driver).

Definition set_buffers m st : driver := MkDriver m (d_nodes st) (d_free st) (d_chunks st) (d_blocks st).
Definition set_nodes m st : driver := MkDriver (d_buffers st) m (d_free st) (d_chunks st) (d_blocks st).
Definition set_free p st : driver := MkDriver (d_buffers st) (d_nodes st) p (d_chunks st) (d_blocks st).
Definition set_chunks l st : driver := MkDriver (d_buffers st) (d_nodes st) (d_free st) l (d_blocks st).

(** Following a pointer. *)
Definition the_buffer (b : positive) : D socket_buffer :=
  x ← gets (λ st, d_buffers st !! b); match x with Some x => mret x | None => liftO Undef end.
Definition put_buffer (b : positive) (x : socket_buffer) : D unit :=
  modify (λ st, set_buffers (<[b := x]> (d_buffers st)) st).
Definition the_node (n : option nodeptr) : D buffer_node :=
  match n with
  | Some n => x ← gets (λ st, d_nodes st !! n); match x with Some x => mret x | None => liftO Undef end
  | None => liftO Undef
  end.
Definition put_node (n : nodeptr) (x : buffer_node) : D unit :=
  modify (λ st, set_nodes (<[n := x]> (d_nodes st)) st).
(** [sz] bytes from [node->msg + off] on. *)
Definition read_msg (x : buffer_node) (off sz : Z) : D (list Z) :=
  match n_msg x with Some a => hread a off sz | None => liftO Undef end.
Definition free_msg (m : option addr) : D unit :=
  match m with Some a => hfree a | None => mret tt end.

Definition set_size (s : Z) (x : socket_buffer) : socket_buffer := MkBuffer s (sb_offset x) (sb_head x) (sb_tail x).
Definition set_offset (o : Z) (x : socket_buffer) : socket_buffer := MkBuffer (sb_size x) o (sb_head x) (sb_tail x).

(** A result, and an error of Lua. *)
Definition result (A : Type) : Type := string + A.
Definition lua_ret {A} (a : A) : D (result A) := mret (inr a).
Definition lua_error {A} (msg : string) : D (result A) := mret (inl msg).

(** [lua_pushlstring] of bytes of a node: a negative size is a [size_t] that is too big. *)
Definition lua_pushlstring (x : buffer_node) (off sz : Z) : D (result (list Z)) :=
  if sz <? 0 then lua_error "memory allocation error: block too big"
  else bs ← read_msg x off sz; lua_ret bs.

(** ** The pool *)

(** Entries [i] to [i + n - 1] of the chunk [c]; the last has no next. *)
Fixpoint chunk_nodes (c : positive) (i : Z) (n : nat) : gmap nodeptr buffer_node :=
  match n with
  | O => ∅
  | S n' => <[(c, i) := MkNode None 0 (match n' with O => None | _ => Some (c, i + 1) end)]> (chunk_nodes c (i + 1) n')
  end.

Definition lnewpool (sz : Z) : D positive :=
  c ← gets (λ st, fresh (set_map fst (dom (d_nodes st)) : gset positive));
  modify (λ st, set_nodes (chunk_nodes c 0 (Z.to_nat sz) ∪ d_nodes st) st);;
  mret c.

(** The length of the table: its entries have no gaps. *)
Definition pool_rawlen (st : driver) : Z :=
  match d_free st with Some _ => 1 + zlen (d_chunks st) | None => 0 end.

(** A new chunk, behind the others. The warning about many chunks is left out. *)
Definition grow_pool : D nodeptr :=
  tsz ← gets pool_rawlen;
  let tsz := if tsz =? 0 then tsz + 1 else tsz in
  let size := if tsz <=? LARGE_PAGE_NODE - 3 then Z.shiftl 8 tsz else Z.shiftl 8 (LARGE_PAGE_NODE - 3) in
  c ← lnewpool size;
  modify (λ st, set_chunks (d_chunks st ++ [(c, size)]) st);;
  mret (c, 0).

(** The messages of the nodes of a chunk, when it is collected. *)
Fixpoint lfreepool (c : positive) (i : Z) (n : nat) : D unit :=
  match n with
  | O => mret tt
  | S n' =>
      x ← the_node (Some (c, i));
      free_msg (n_msg x);;
      put_node (c, i) (MkNode None (n_sz x) (n_next x));;
      lfreepool c (i + 1) n'
  end.

(** ** The buffers *)

Definition lnewbuffer : D positive :=
  b ← gets (λ st, fresh (dom (d_buffers st)));
  put_buffer b (MkBuffer 0 0 None None);;
  mret b.

Definition take_free_node : D nodeptr :=
  first ← gets d_free;
  match first with
  | Some (Some n) => mret n
  | _ => grow_pool
  end.

Definition lpushbuffer (sb : option positive) (msg : option addr) (sz : Z) : D (result Z) :=
  match sb, msg with
  | None, _ => lua_error "need buffer object at param 1"
  | _, None => lua_error "need message block at param 3"
  | Some b, Some msg =>
      let sz := i32 sz in
      free_node ← take_free_node;
      x ← the_node (Some free_node);
      modify (set_free (Some (n_next x)));;
      put_node free_node (MkNode (Some msg) sz None);;
      x ← the_buffer b;
      (match sb_head x with
       | None =>
           liftO (assert_true (bool_decide (sb_tail x = None)));;
           put_buffer b (MkBuffer (sb_size x) (sb_offset x) (Some free_node) (Some free_node))
       | Some _ =>
           t ← the_node (sb_tail x);
           (match sb_tail x with
            | Some tail => put_node tail (MkNode (n_msg t) (n_sz t) (Some free_node))
            | None => liftO Undef
            end);;
           put_buffer b (MkBuffer (sb_size x) (sb_offset x) (sb_head x) (Some free_node))
       end);;
      x ← the_buffer b;
      size ← liftO (cint (sb_size x + sz));
      put_buffer b (set_size size x);;
      lua_ret size
  end.

Definition return_free_node (b : positive) : D unit :=
  x ← the_buffer b;
  free_node ← the_node (sb_head x);
  put_buffer b (MkBuffer (sb_size x) 0 (n_next free_node) (match n_next free_node with None => None | Some _ => sb_tail x end));;
  first ← gets d_free;
  free_msg (n_msg free_node);;
  match sb_head x with
  | Some n =>
      put_node n (MkNode None 0 (default None first));;
      modify (set_free (Some (Some n)))
  | None => liftO Undef
  end.

(** One turn of the loop of [pop_lstring]: [sz] bytes are left to pop, and [bs] is in
    the buffer of Lua. *)
Definition pop_turn (b : positive) (skip : Z) (s : Z * list Z) : D (Z * list Z + list Z) :=
  let '(sz, bs) := s in
  x ← the_buffer b;
  current ← the_node (sb_head x);
  let bytes := n_sz current - sb_offset x in
  if sz <=? bytes then
    more ← (if skip <? sz then read_msg current (sb_offset x) (sz - skip) else mret []) : D (list Z);
    put_buffer b (set_offset (sb_offset x + sz) x);;
    (if bytes =? sz then return_free_node b else mret tt);;
    mret (inr (bs ++ more))
  else
    let real_sz := sz - skip in
    more ← (if 0 <? real_sz then read_msg current (sb_offset x) (if real_sz <? bytes then real_sz else bytes)
            else mret []) : D (list Z);
    return_free_node b;;
    let sz := sz - bytes in
    if sz =? 0 then mret (inr (bs ++ more))
    else
      x ← the_buffer b;
      liftO (assert_true (bool_decide (is_Some (sb_head x))));;
      mret (inl (sz, bs ++ more)).

Definition pop_lstring (fuel : nat) (b : positive) (sz skip : Z) : D (result (list Z)) :=
  x ← the_buffer b;
  current ← the_node (sb_head x);
  if sz <? n_sz current - sb_offset x then
    r ← lua_pushlstring current (sb_offset x) (sz - skip);
    match r with
    | inl e => lua_error e
    | inr bs => put_buffer b (set_offset (sb_offset x + sz) x);; lua_ret bs
    end
  else if sz =? n_sz current - sb_offset x then
    r ← lua_pushlstring current (sb_offset x) (sz - skip);
    match r with
    | inl e => lua_error e
    | inr bs => return_free_node b;; lua_ret bs
    end
  else bs ← loopM fuel (pop_turn b skip) (sz, []); lua_ret bs.

(** A string or [nil], and the size. *)
Definition lpopbuffer (fuel : nat) (sb : option positive) (sz : Z) : D (result (option (list Z) * Z)) :=
  match sb with
  | None => lua_error "Need buffer object at param 1"
  | Some b =>
      let sz := i32 sz in
      x ← the_buffer b;
      r ← (if (sb_size x <? sz) || (sz =? 0) then lua_ret None
           else
             r ← pop_lstring fuel b sz 0;
             match r with
             | inl e => lua_error e
             | inr bs =>
                 x ← the_buffer b;
                 size ← liftO (cint (sb_size x - sz));
                 put_buffer b (set_size size x);;
                 lua_ret (Some bs)
             end) : D (result (option (list Z)));
      match r with
      | inl e => lua_error e
      | inr bs => x ← the_buffer b; lua_ret (bs, sb_size x)
      end
  end.

Definition clear_turn (b : positive) (_ : unit) : D (unit + unit) :=
  x ← the_buffer b;
  match sb_head x with
  | Some _ => return_free_node b;; mret (inl tt)
  | None => mret (inr tt)
  end.

(** [isnil]: the parameter is [nil]. *)
Definition lclearbuffer (fuel : nat) (sb : option positive) (isnil : bool) : D (result unit) :=
  match sb with
  | None => if isnil then lua_ret tt else lua_error "Need buffer object at param 1"
  | Some b =>
      loopM fuel (clear_turn b) tt;;
      x ← the_buffer b;
      put_buffer b (set_size 0 x);;
      lua_ret tt
  end.

Definition readall_turn (b : positive) (bs : list Z) : D (list Z + list Z) :=
  x ← the_buffer b;
  match sb_head x with
  | Some _ =>
      current ← the_node (sb_head x);
      more ← read_msg current (sb_offset x) (n_sz current - sb_offset x);
      return_free_node b;;
      mret (inl (bs ++ more))
  | None => mret (inr bs)
  end.

Definition lreadall (fuel : nat) (sb : option positive) : D (result (list Z)) :=
  match sb with
  | None => lua_error "Need buffer object at param 1"
  | Some b =>
      bs ← loopM fuel (readall_turn b) [];
      x ← the_buffer b;
      put_buffer b (set_size 0 x);;
      lua_ret bs
  end.

Definition ldrop (msg : option addr) : D unit := free_msg msg.

(** [sep] is what is left of the separator. *)
Definition check_turn (s : option nodeptr * Z * list Z) : D (option nodeptr * Z * list Z + bool) :=
  let '(node, from, sep) := s in
  x ← the_node node;
  let sz := n_sz x - from in
  if zlen sep <=? sz then
    bs ← read_msg x from (zlen sep);
    mret (inr (bool_decide (bs = sep)))
  else
    same ← (if 0 <? sz then
              bs ← read_msg x from sz;
              mret (bool_decide (bs = take (Z.to_nat sz) sep))
            else mret true) : D bool;
    if negb same then mret (inr false)
    else if sz <? 0 then liftO Undef
    else mret (inl (n_next x, 0, drop (Z.to_nat sz) sep)).

Definition check_sep (fuel : nat) (node : option nodeptr) (from : Z) (sep : list Z) : D bool :=
  loopM fuel check_turn (node, from, sep).

(** Nothing, [true], or a string. *)
Inductive line := NoLine | HasLine | Line (bs : list Z).

Definition readline_turn (fuel : nat) (b : positive) (check : bool) (sep : list Z)
    (s : Z * option nodeptr * Z * Z) : D (Z * option nodeptr * Z * Z + result line) :=
  let '(i, current, from, bytes) := s in
  let seplen := zlen sep in
  x ← the_buffer b;
  last ← liftO (cint (sb_size x - i32 seplen));
  if negb (i <=? last) then mret (inr (inr NoLine))
  else
    found ← check_sep fuel current from sep;
    if found : bool then
      if check then mret (inr (inr HasLine))
      else
        r ← pop_lstring fuel b (i32 (i + seplen)) (i32 seplen);
        match r with
        | inl e => mret (inr (inl e))
        | inr bs =>
            x ← the_buffer b;
            put_buffer b (set_size (i32 (sb_size x - (i + seplen))) x);;
            mret (inr (inr (Line bs)))
        end
    else
      let from := from + 1 in
      let bytes := bytes - 1 in
      if bytes =? 0 then
        x ← the_node current;
        match n_next x with
        | None => mret (inr (inr NoLine))
        | Some _ => y ← the_node (n_next x); mret (inl (i + 1, n_next x, 0, n_sz y))
        end
      else mret (inl (i + 1, current, from, bytes)).

Definition lreadline (fuel : nat) (sb : option positive) (check : bool) (sep : list Z) : D (result line) :=
  match sb with
  | None => lua_error "Need buffer object at param 1"
  | Some b =>
      x ← the_buffer b;
      match sb_head x with
      | None => lua_ret NoLine
      | Some _ =>
          current ← the_node (sb_head x);
          loopM fuel (readline_turn fuel b check sep) (0, sb_head x, sb_offset x, n_sz current - sb_offset x)
      end
  end.

(** ** Strings *)

(** The number that one to four bytes stand for, the highest first. *)
Definition lheader (s : list Z) : string + Z :=
  if (4 <? zlen s) || (zlen s <? 1) then inl "Invalid read %s"%string
  else inr (fold_left (λ sz c, Z.lor (u64 (Z.shiftl sz 8)) c) s 0).

Definition lstr2p (str : list Z) : D (addr * Z) :=
  ptr ← hmalloc str;
  mret (ptr, i32 (zlen str)).

(** ** Chains of nodes *)

(** A node that is in use, with its block and the bytes of it. *)
Definition cell : Type := nodeptr * addr * list Z.
Definition c_node (c : cell) : nodeptr := c.1.1.
Definition c_addr (c : cell) : addr := c.1.2.
Definition c_bytes (c : cell) : list Z := c.2.
Arguments c_node : simpl never.
Arguments c_addr : simpl never.
Arguments c_bytes : simpl never.
Definition first_of (l : list cell) : option nodeptr := c_node <$> head l.
Definition bytes_of (l : list cell) : list Z := concat (c_bytes <$> l).

Fixpoint chain (st : driver) (l : list cell) : Prop :=
  match l with
  | [] => True
  | c :: l' =>
      d_nodes st !! c_node c = Some (MkNode (Some (c_addr c)) (zlen (c_bytes c)) (first_of l')) ∧
      d_blocks st !! c_addr c = Some (c_bytes c) ∧ c_bytes c ≠ [] ∧ chain st l'
  end.

Fixpoint free_chain (nodes : gmap nodeptr buffer_node) (fl : list nodeptr) : Prop :=
  match fl with
  | [] => True
  | n :: fl' => nodes !! n = Some (MkNode None 0 (head fl')) ∧ free_chain nodes fl'
  end.

(** Every node is in one place, and every block has one owner: one of the cells [all],
    or someone else. *)
Record tidy (st : driver) (all : list cell) (fl : list nodeptr) (others : list addr) : Prop := {
  t_free : free_chain (d_nodes st) fl;
  t_nodes : NoDup ((c_node <$> all) ++ fl);
  t_all : ∀ n, is_Some (d_nodes st !! n) ↔ n ∈ (c_node <$> all) ++ fl;
  t_addrs : NoDup ((c_addr <$> all) ++ others);
  t_blocks : ∀ a, is_Some (d_blocks st !! a) ↔ a ∈ (c_addr <$> all) ++ others
}.

(** The state [st] while a function works on the buffer [b]: what belongs to the others,
    [rest], is as it was in [st0]. *)
Record view (st0 : driver) (b : positive) (rest : list cell) (others : list addr)
    (st : driver) (x : socket_buffer) (l : list cell) (fl : list nodeptr) : Prop := {
  v_buffers : d_buffers st = <[b := x]> (d_buffers st0);
  v_head : sb_head x = first_of l;
  v_tail : sb_tail x = c_node <$> last l;
  v_chain : chain st l;
  v_tidy : tidy st (l ++ rest) fl others;
  v_first : default None (d_free st) = head fl;
  v_rest : ∀ c, c ∈ rest → d_nodes st !! c_node c = d_nodes st0 !! c_node c;
  v_kept : ∀ a, a ∈ (c_addr <$> rest) ++ others → d_blocks st !! a = d_blocks st0 !! a
}.

(** [s] is what the buffer has not given out. *)
Definition shows (x : socket_buffer) (l : list cell) (s : list Z) : Prop :=
  0 ≤ sb_offset x ∧ match l with [] => sb_offset x = 0 | c :: _ => sb_offset x < zlen (c_bytes c) end ∧
  s = drop (Z.to_nat (sb_offset x)) (bytes_of l).

Lemma chain_unchanged st st' l :
  (∀ c, c ∈ l → d_nodes st' !! c_node c = d_nodes st !! c_node c ∧ d_blocks st' !! c_addr c = d_blocks st !! c_addr c) →
  chain st l → chain st' l.
Proof.
  induction l as [|c l IH]; intros Hf; [done|]. cbn. intros (H1 & H2 & H3 & H4).
  destruct (Hf c) as [-> ->]; [by left|]. split_and!; [done..|]. apply IH; [|done]. intros c' Hc'. apply Hf. by right.
Qed.

Lemma free_frame nodes nodes' fl :
  (∀ n, n ∈ fl → nodes' !! n = nodes !! n) → free_chain nodes fl → free_chain nodes' fl.
Proof.
  induction fl as [|n fl IH]; intros Hf; [done|]. cbn. intros [H1 H2].
  rewrite Hf by left. split; [done|]. apply IH; [|done]. intros n' Hn'. apply Hf. by right.
Qed.

Lemma tidy_perm st all all' fl others : all ≡ₚ all' → tidy st all fl others → tidy st all' fl others.
Proof.
  intros Hp [H1 H2 H3 H4 H5]. split; [done| | | |].
  - by rewrite <-Hp.
  - intros n. rewrite <-Hp. auto.
  - by rewrite <-Hp.
  - intros a. rewrite <-Hp. auto.
Qed.

#[export] Instance tidy_proper st : Proper ((≡ₚ) ==> (=) ==> (=) ==> iff) (tidy st).
Proof. intros l l' Hp ? fl -> ? others ->. split; by apply tidy_perm. Qed.

Lemma chain_first st c l : chain st (c :: l) →
  d_nodes st !! c_node c = Some (MkNode (Some (c_addr c)) (zlen (c_bytes c)) (first_of l)) ∧
  d_blocks st !! c_addr c = Some (c_bytes c) ∧ 0 < zlen (c_bytes c) ∧ chain st l.
Proof.
  intros (H1 & H2 & H3 & H4). split_and!; [done..| |done]. unfold zlen. destruct (c_bytes c); [done|cbn; lia].
Qed.

(** ** One node back to the pool *)

Lemma wp_the_buffer b x (Q : socket_buffer → driver → Prop) st :
  d_buffers st !! b = Some x → Q x st → wp (the_buffer b) Q st.
Proof. intros Hx HQ. unfold the_buffer. apply wp_bind, wp_gets. rewrite Hx. by apply wp_ret. Qed.

Lemma wp_the_node n x (Q : buffer_node → driver → Prop) st :
  d_nodes st !! n = Some x → Q x st → wp (the_node (Some n)) Q st.
Proof. intros Hx HQ. unfold the_node. apply wp_bind, wp_gets. rewrite Hx. by apply wp_ret. Qed.

Lemma wp_read_msg x a off sz bs (Q : list Z → driver → Prop) st :
  n_msg x = Some a → d_blocks st !! a = Some bs → 0 ≤ off → 0 ≤ sz → off + sz ≤ zlen bs →
  Q (take (Z.to_nat sz) (drop (Z.to_nat off) bs)) st → wp (read_msg x off sz) Q st.
Proof. intros Hm Hb H1 H2 H3 HQ. unfold read_msg. rewrite Hm. by eapply wp_hread. Qed.

Section view.
Context (st0 : driver) (b : positive) (rest : list cell) (others : list addr).
Notation view := (view st0 b rest others).

Lemma view_buffer st x l fl : view st x l fl → d_buffers st !! b = Some x.
Proof. intros Hv. rewrite (v_buffers _ _ _ _ _ _ _ _ Hv). apply lookup_insert_eq. Qed.

Lemma view_put st x l fl x' : view st x l fl → sb_head x' = sb_head x → sb_tail x' = sb_tail x →
  view (set_buffers (<[b := x']> (d_buffers st)) st) x' l fl.
Proof.
  intros [H1 H2 H3 H4 [] H6 H7 H8] Hh Ht.
  split; cbn; [by rewrite H1, insert_insert_eq|by rewrite Hh|by rewrite Ht| |by split|done..].
  eapply chain_unchanged, H4. by intros.
Qed.

Lemma wp_return_free_node st x c l fl (Q : unit → driver → Prop) :
  view st x (c :: l) fl →
  (∀ st' x', view st' x' l (c_node c :: fl) → sb_offset x' = 0 → sb_size x' = sb_size x → Q tt st') →
  wp (return_free_node b) Q st.
Proof.
  intros Hv HQ. pose proof (view_buffer _ _ _ _ Hv) as Hb. destruct Hv as [H1 H2 H3 H4 [T1 T2 T3 T4 T5] H6 H7 H8].
  destruct (chain_first _ _ _ H4) as (Hn & Ha & _ & Hl).
  unfold return_free_node. apply wp_bind. eapply wp_the_buffer; [done|]. rewrite H2. cbn [first_of head fmap option_fmap option_map].
  apply wp_bind. eapply wp_the_node; [done|]. cbn [n_next n_msg]. apply wp_bind, wp_modify, wp_bind, wp_gets, wp_bind.
  cbn [free_msg]. eapply wp_hfree; [by exists (c_bytes c)|]. apply wp_bind, wp_modify, wp_modify.
  cbn [fmap list_fmap app] in T2, T4. apply NoDup_cons in T2 as [T2c T2], T4 as [T4c T4].
  apply (HQ _ (MkBuffer (sb_size x) 0 (first_of l) (c_node <$> last l))); [|done..]. split; cbn; try done.
  - rewrite H1, insert_insert_eq. do 2 f_equal. rewrite H3. by destruct l.
  - eapply chain_unchanged, Hl. intros c' Hc'. cbn. split; [apply lookup_insert_ne|apply lookup_delete_ne].
    + intros E. apply T2c, elem_of_app. left. apply list_elem_of_fmap. exists c'. rewrite elem_of_app. by auto.
    + intros E. apply T4c, elem_of_app. left. apply list_elem_of_fmap. exists c'. rewrite elem_of_app. by auto.
  - assert (Hperm : (c_node <$> l ++ rest) ++ c_node c :: fl ≡ₚ c_node c :: (c_node <$> l ++ rest) ++ fl)
      by (symmetry; apply Permutation_middle).
    split; cbn.
    + rewrite lookup_insert_eq, H6. split; [done|]. eapply free_frame, T1. intros n' Hn'. apply lookup_insert_ne.
      intros <-. apply T2c, elem_of_app. by right.
    + rewrite Hperm. by apply NoDup_cons.
    + intros n. rewrite lookup_insert_is_Some', Hperm, T3. cbn. rewrite !elem_of_cons. split; [|by auto]. by intros [->|[|]]; auto.
    + done.
    + intros a. rewrite lookup_delete_is_Some, T5. cbn. rewrite elem_of_cons. split; [|by set_solver].
      intros [Hne [->|Hs]]; done.
  - intros c' Hc'. rewrite lookup_insert_ne; [by apply H7|]. intros E. apply T2c, elem_of_app. left. apply list_elem_of_fmap. exists c'. rewrite elem_of_app. by auto.
  - intros a Ha'. rewrite lookup_delete_ne; [by apply H8|]. intros <-. apply T4c. rewrite fmap_app, <-app_assoc. apply elem_of_app. by right.
Qed.
End view.

(** ** Reading from a buffer *)

Lemma shows_cons x c l s : shows x (c :: l) s →
  let t := drop (Z.to_nat (sb_offset x)) (c_bytes c) in
  s = t ++ bytes_of l ∧ zlen t = zlen (c_bytes c) - sb_offset x ∧ 0 < zlen t ∧ 0 ≤ sb_offset x.
Proof.
  intros (H1 & H2 & ->) t. unfold bytes_of. cbn [fmap list_fmap concat]. rewrite drop_app_le by (unfold zlen in H2; lia).
  assert (zlen t = zlen (c_bytes c) - sb_offset x) by (unfold t, zlen in *; rewrite length_drop; lia).
  split_and!; [done|done|lia|done].
Qed.

Lemma shows_next st x l : chain st l → sb_offset x = 0 → shows x l (bytes_of l).
Proof.
  intros Hc Hx. unfold shows. rewrite Hx. split; [done|]. split; [|by rewrite drop_0].
  destruct l as [|c l]; [done|]. apply (chain_first _ _ _ Hc).
Qed.

Lemma zlen_split {A} (l1 l2 : list A) n : Z.of_nat n = zlen l1 → take n (l1 ++ l2) = l1 ∧ drop n (l1 ++ l2) = l2.
Proof. intros Hn. assert (n = length l1) as -> by (unfold zlen in Hn; lia). split; [apply take_app_length|apply drop_app_length]. Qed.

Section pop.
Context (st0 : driver) (b : positive) (rest : list cell) (others : list addr) (fuel : nat).
Notation view := (view st0 b rest others).

(** The buffer shows [s], and says nothing of its size yet. *)
Definition left_with (size : Z) (s : list Z) (st : driver) : Prop :=
  ∃ x l fl, view st x l fl ∧ shows x l s ∧ sb_size x = size.

(** The first [sz - skip] bytes of the first node. *)
Lemma wp_read_first st x c l fl s sz (Q : list Z → driver → Prop) :
  view st x (c :: l) fl → shows x (c :: l) s → 0 ≤ sz ≤ zlen (c_bytes c) - sb_offset x →
  Q (take (Z.to_nat sz) s) st →
  wp (read_msg (MkNode (Some (c_addr c)) (zlen (c_bytes c)) (first_of l)) (sb_offset x) sz) Q st.
Proof.
  intros Hv Hs Hsz HQ. destruct (chain_first _ _ _ (v_chain _ _ _ _ _ _ _ _ Hv)) as (_ & Ha & _).
  destruct (shows_cons _ _ _ _ Hs) as (E & Hl & _ & H0).
  eapply wp_read_msg; [done|exact Ha|lia..|]. rewrite E in HQ. rewrite take_app_le in HQ by (unfold zlen in Hl, Hsz; lia). done.
Qed.

Lemma wp_push_first st x c l fl s sz (Q : result (list Z) → driver → Prop) :
  view st x (c :: l) fl → shows x (c :: l) s → 0 ≤ sz ≤ zlen (c_bytes c) - sb_offset x →
  Q (inr (take (Z.to_nat sz) s)) st →
  wp (lua_pushlstring (MkNode (Some (c_addr c)) (zlen (c_bytes c)) (first_of l)) (sb_offset x) sz) Q st.
Proof.
  intros Hv Hs Hsz HQ. unfold lua_pushlstring. rewrite (proj2 (Z.ltb_ge _ _)) by lia. apply wp_bind.
  eapply wp_read_first; [done..|]. by apply wp_ret.
Qed.

Lemma wp_first_node st x c l fl (Q : buffer_node → driver → Prop) :
  view st x (c :: l) fl → Q (MkNode (Some (c_addr c)) (zlen (c_bytes c)) (first_of l)) st → wp (the_node (sb_head x)) Q st.
Proof.
  intros Hv HQ. rewrite (v_head _ _ _ _ _ _ _ _ Hv). cbn. eapply wp_the_node; [|done].
  apply (chain_first _ _ _ (v_chain _ _ _ _ _ _ _ _ Hv)).
Qed.

(** Fewer bytes than the first node has: the offset moves. *)
Lemma left_inside st x c l fl s sz :
  view st x (c :: l) fl → shows x (c :: l) s → 0 ≤ sz < zlen (c_bytes c) - sb_offset x →
  left_with (sb_size x) (drop (Z.to_nat sz) s) (set_buffers (<[b := set_offset (sb_offset x + sz) x]> (d_buffers st)) st).
Proof.
  intros Hv Hs Hsz. exists (set_offset (sb_offset x + sz) x), (c :: l), fl. split; [by eapply view_put|]. split; [|done].
  destruct Hs as (H1 & H2 & ->). unfold shows. cbn [sb_offset set_offset]. split; [lia|]. split; [lia|].
  rewrite drop_drop. f_equal. lia.
Qed.

(** All bytes of the first node: it goes back. *)
Lemma wp_return_first st x c l fl s (Q : unit → driver → Prop) :
  view st x (c :: l) fl → shows x (c :: l) s →
  (∀ st' x' fl', view st' x' l fl' → shows x' l (drop (Z.to_nat (zlen (c_bytes c) - sb_offset x)) s) →
     sb_size x' = sb_size x → Q tt st') →
  wp (return_free_node b) Q st.
Proof.
  intros Hv Hs HQ. eapply wp_return_free_node; [exact Hv|]. intros st' x' Hv' Ho Hsz. eapply HQ; [exact Hv'| |done].
  destruct (shows_cons _ _ _ _ Hs) as (-> & Hl & Hpos & _).
  destruct (zlen_split (drop (Z.to_nat (sb_offset x)) (c_bytes c)) (bytes_of l) (Z.to_nat (zlen (c_bytes c) - sb_offset x)))
    as [_ ->]; [lia|].
  eapply shows_next; [exact (v_chain _ _ _ _ _ _ _ _ Hv')|done].
Qed.

(** The loop, from a node on: [sz] bytes are missing. *)
Lemma wp_pop_loop l fu : (length l < fu)%nat → ∀ st x fl s sz skip bs size (Q : list Z → driver → Prop),
  view st x l fl → shows x l s → sb_size x = size → l ≠ [] → 0 ≤ skip → 0 < sz ≤ zlen s →
  (∀ st', left_with size (drop (Z.to_nat sz) s) st' → Q (bs ++ take (Z.to_nat (sz - skip)) s) st') →
  wp (loopM fu (pop_turn b skip) (sz, bs)) Q st.
Proof.
  revert fu. induction l as [|c l IH]; intros fu Hfu st x fl s sz skip bs size Q Hv Hs Hsize Hl Hskip Hsz HQ; [done|].
  destruct fu as [|fu]; [cbn in Hfu; lia|]. cbn [length] in Hfu.
  destruct (shows_cons _ _ _ _ Hs) as (Es & Hlen & Hpos & Hoff).
  set (t := drop (Z.to_nat (sb_offset x)) (c_bytes c)) in *.
  cbn [loopM]. apply wp_bind. unfold pop_turn. apply wp_bind. eapply wp_the_buffer; [by eapply view_buffer|].
  apply wp_bind. eapply wp_first_node; [exact Hv|]. cbn [n_sz]. cbv zeta. rewrite <-Hlen.
  wp_case E1; [apply Z.leb_le in E1|apply Z.leb_gt in E1].
  - assert (Hrest : wp (put_buffer b (set_offset (sb_offset x + sz) x);;
        (if zlen t =? sz then return_free_node b else mret tt);;
        mret (inr (bs ++ take (Z.to_nat (sz - skip)) s))) (λ r st', wp (match r with inl i' => loopM fu (pop_turn b skip) i' | inr r => mret r end) Q st') st).
    { apply wp_bind, wp_modify, wp_bind. wp_case E3; [apply Z.eqb_eq in E3|apply Z.eqb_neq in E3].
      - eapply wp_return_free_node; [by eapply view_put|]. intros st' x' Hv' Ho Hsz'. apply wp_ret, wp_ret, HQ.
        exists x', l, (c_node c :: fl). split; [done|]. split; [|by rewrite Hsz'].
        rewrite Es. destruct (zlen_split t (bytes_of l) (Z.to_nat sz)) as [_ ->]; [lia|].
        eapply shows_next; [exact (v_chain _ _ _ _ _ _ _ _ Hv')|done].
      - apply wp_ret, wp_ret, wp_ret, HQ. rewrite <-Hsize. eapply left_inside; [done..|lia]. }
    apply wp_bind. wp_case E2; [apply Z.ltb_lt in E2|apply Z.ltb_ge in E2].
    + eapply wp_read_first; [done..|lia|done].
    + apply wp_ret. replace (Z.to_nat (sz - skip)) with 0%nat in Hrest by lia. done.
  - set (real_sz := sz - skip).
    assert (Hrest : wp (return_free_node b;;
        (let sz := sz - zlen t in
         if sz =? 0 then mret (inr (bs ++ take (Z.to_nat real_sz) t))
         else x ← the_buffer b; liftO (assert_true (bool_decide (is_Some (sb_head x))));;
              mret (inl (sz, bs ++ take (Z.to_nat real_sz) t))))
        (λ r st', wp (match r with inl i' => loopM fu (pop_turn b skip) i' | inr r => mret r end) Q st') st).
    { apply wp_bind. eapply wp_return_first; [done..|]. rewrite <-Hlen. intros st' x' fl' Hv' Hs' Hsize'. cbv zeta.
      rewrite (proj2 (Z.eqb_neq _ _)) by lia. apply wp_bind. eapply wp_the_buffer; [by eapply view_buffer|].
      assert (Hdrop : drop (Z.to_nat (zlen t)) s = bytes_of l) by (rewrite Es; apply zlen_split; lia).
      rewrite Hdrop in Hs'. pose proof Hsz as Hsz2. rewrite Es, zlen_app in Hsz2.
      assert (Hl' : l ≠ []) by (intros ->; change (zlen (bytes_of [])) with 0 in Hsz2; lia).
      apply wp_bind, wp_assert.
      { rewrite (v_head _ _ _ _ _ _ _ _ Hv'). destruct l; [done|]. by apply bool_decide_eq_true_2. }
      apply wp_ret. eapply (IH fu ltac:(lia) st' x' fl' (bytes_of l) (sz - zlen t) skip _ size); [done..|congruence|done|done|lia|].
      intros st'' Hst. rewrite <-app_assoc. rewrite Es in HQ. rewrite take_app, drop_app in HQ. unfold real_sz.
      replace (Z.to_nat sz - length t)%nat with (Z.to_nat (sz - zlen t)) in HQ by (unfold zlen; lia).
      replace (Z.to_nat (sz - skip) - length t)%nat with (Z.to_nat (sz - zlen t - skip)) in HQ by (unfold zlen; lia).
      rewrite (drop_ge t) in HQ by (unfold zlen in E1; lia). by apply HQ. }
    apply wp_bind. wp_case E2; [apply Z.ltb_lt in E2|apply Z.ltb_ge in E2].
    + eapply wp_read_first; [done..|destruct (Z.ltb_spec real_sz (zlen t)); lia|].
      replace (take (Z.to_nat (if real_sz <? zlen t then real_sz else zlen t)) s) with (take (Z.to_nat real_sz) t); [done|].
      rewrite Es. destruct (Z.ltb_spec real_sz (zlen t)).
      * rewrite take_app_le by (unfold zlen in *; lia). done.
      * destruct (zlen_split t (bytes_of l) (Z.to_nat (zlen t))) as [-> _]; [lia|]. apply take_ge. unfold zlen in *; lia.
    + apply wp_ret. replace (take (Z.to_nat real_sz) t) with ([] : list Z) in Hrest; [done|].
      by replace (Z.to_nat real_sz) with 0%nat by lia.
Qed.

Lemma wp_pop_lstring st x l fl s sz skip (Q : result (list Z) → driver → Prop) :
  view st x l fl → shows x l s → l ≠ [] → 0 ≤ skip ≤ sz → sz ≤ zlen s → (length l < fuel)%nat →
  (∀ st', left_with (sb_size x) (drop (Z.to_nat sz) s) st' → Q (inr (take (Z.to_nat (sz - skip)) s)) st') →
  wp (pop_lstring fuel b sz skip) Q st.
Proof.
  intros Hv Hs Hl Hskip Hsz Hfuel HQ. destruct l as [|c l]; [done|].
  destruct (shows_cons _ _ _ _ Hs) as (Es & Hlen & Hpos & Hoff).
  unfold pop_lstring. apply wp_bind. eapply wp_the_buffer; [by eapply view_buffer|].
  apply wp_bind. eapply wp_first_node; [exact Hv|]. cbn [n_sz].
  wp_case E1; [apply Z.ltb_lt in E1|apply Z.ltb_ge in E1].
  { apply wp_bind. eapply wp_push_first; [done..|lia|]. apply wp_bind, wp_modify, wp_ret, HQ. eapply left_inside; [done..|lia]. }
  wp_case E2; [apply Z.eqb_eq in E2|apply Z.eqb_neq in E2].
  { apply wp_bind. eapply wp_push_first; [done..|lia|]. apply wp_bind. eapply wp_return_first; [done..|].
    intros st' x' fl' Hv' Hs' Hsize. apply wp_ret, HQ. exists x', l, fl'. split; [done|]. split; [by rewrite E2|done]. }
  apply wp_bind. eapply wp_pop_loop; [done..|lia|lia|]. intros st' Hst'. by apply wp_ret, HQ.
Qed.
End pop.

(** ** Looking for a separator *)

(** The place where [sep] is for the first time. *)
Fixpoint find_sep (sep s : list Z) : option nat :=
  if decide (sep `prefix_of` s) then Some O
  else match s with [] => None | _ :: s' => S <$> find_sep sep s' end.

Lemma prefix_take (sep t : list Z) : sep `prefix_of` t ↔ take (length sep) t = sep.
Proof.
  split; [intros [k ->]; apply take_app_length|]. intros E. exists (drop (length sep) t). rewrite <-E at 1. by rewrite take_drop.
Qed.

Lemma find_sep_found sep s : sep `prefix_of` s → find_sep sep s = Some O.
Proof. intros H. destruct s; cbn; by rewrite decide_True. Qed.

Lemma find_sep_next sep c s : ¬ sep `prefix_of` c :: s → find_sep sep (c :: s) = S <$> find_sep sep s.
Proof. intros H. cbn. by rewrite decide_False. Qed.

Lemma find_sep_short sep s : zlen s < zlen sep → find_sep sep s = None.
Proof.
  unfold zlen. induction s as [|c s IH]; intros H; cbn; rewrite decide_False; try done;
    try (by rewrite IH by (cbn in H; lia)); intros Hp%prefix_length; cbn in *; lia.
Qed.

Lemma wp_check_sep st l fu : (length l < fu)%nat → ∀ from sep (Q : bool → driver → Prop),
  chain st l → match l with [] => False | c :: _ => 0 ≤ from < zlen (c_bytes c) end →
  zlen sep ≤ zlen (drop (Z.to_nat from) (bytes_of l)) →
  Q (bool_decide (sep `prefix_of` drop (Z.to_nat from) (bytes_of l))) st →
  wp (check_sep fu (first_of l) from sep) Q st.
Proof.
  revert fu. induction l as [|c l IH]; intros fu Hfu from sep Q Hc Hfrom Hsep HQ; [done|].
  destruct fu as [|fu]; [cbn in Hfu; lia|]. cbn [length] in Hfu.
  destruct (chain_first _ _ _ Hc) as (Hn & Ha & Hpos & Hcl).
  unfold bytes_of in Hsep, HQ. cbn [fmap list_fmap concat] in Hsep, HQ. fold (bytes_of l) in Hsep, HQ.
  rewrite drop_app_le in Hsep, HQ by (unfold zlen in Hfrom; lia). set (u := drop (Z.to_nat from) (c_bytes c)) in *.
  assert (Hu : zlen u = zlen (c_bytes c) - from) by (unfold u, zlen in *; rewrite length_drop; lia).
  pose proof (zlen_nonneg sep) as H0.
  unfold check_sep. cbn [loopM]. apply wp_bind. unfold check_turn. apply wp_bind. eapply wp_the_node; [done|]. cbn [n_sz n_next]. cbv zeta.
  rewrite <-Hu. wp_case E1; [apply Z.leb_le in E1|apply Z.leb_gt in E1].
  - apply wp_bind. eapply wp_read_msg; [done|exact Ha|lia..|]. apply wp_ret, wp_ret. fold u.
    replace (bool_decide (take (Z.to_nat (zlen sep)) u = sep)) with (bool_decide (sep `prefix_of` u ++ bytes_of l)); [done|].
    apply bool_decide_ext. rewrite prefix_take. unfold zlen in *. by rewrite Nat2Z.id, take_app_le by lia.
  - apply wp_bind. rewrite (proj2 (Z.ltb_lt _ _)) by lia. apply wp_bind. eapply wp_read_msg; [done|exact Ha|lia..|]. fold u.
    rewrite (take_ge u) by (unfold zlen; lia). apply wp_ret.
    assert (Hsplit : sep `prefix_of` u ++ bytes_of l ↔ u = take (Z.to_nat (zlen u)) sep ∧ drop (Z.to_nat (zlen u)) sep `prefix_of` bytes_of l).
    { rewrite !prefix_take. unfold zlen in *. rewrite Nat2Z.id, length_drop, take_app, take_ge by lia. split.
      - intros E. split; [by rewrite <-E, take_app_length|]. rewrite <-E at 2. by rewrite drop_app_length.
      - intros [E1' E2']. rewrite E2'. rewrite E1' at 1. apply take_drop. }
    wp_case E2; [apply negb_true_iff, bool_decide_eq_false in E2|apply negb_false_iff, bool_decide_eq_true in E2].
    + apply wp_ret, wp_ret. rewrite bool_decide_eq_false_2 in HQ; [done|]. intros [? _]%Hsplit. done.
    + rewrite (proj2 (Z.ltb_ge _ _)) by lia. apply wp_ret. rewrite zlen_app in Hsep.
      assert (Hdl : zlen (drop (Z.to_nat (zlen u)) sep) = zlen sep - zlen u) by (unfold zlen in *; rewrite length_drop; lia).
      apply (IH fu ltac:(lia) 0); [done| |rewrite drop_0; lia|].
      * destruct l as [|c' l]; [change (zlen (bytes_of [])) with 0 in Hsep; lia|]. destruct (chain_first _ _ _ Hcl) as (_ & _ & ? & _). lia.
      * rewrite drop_0. erewrite bool_decide_ext; [exact HQ|]. tauto.
Qed.

Lemma shows_length st x l s : chain st l → shows x l s → (length l ≤ length s)%nat.
Proof.
  intros Hc Hs. destruct l as [|c l]; [cbn; lia|]. destruct (shows_cons _ _ _ _ Hs) as (-> & _ & Hpos & _).
  rewrite length_app. destruct (chain_first _ _ _ Hc) as (_ & _ & _ & Hcl). unfold zlen in Hpos.
  assert (length l ≤ length (bytes_of l))%nat; [|cbn; lia]. clear -Hcl.
  induction l as [|c l IH]; [cbn; lia|]. destruct (chain_first _ _ _ Hcl) as (_ & _ & Hpos & Hcl'). specialize (IH Hcl').
  unfold bytes_of in *. cbn [fmap list_fmap concat length]. rewrite length_app. unfold zlen in Hpos. lia.
Qed.

Section readline.
Context (st0 : driver) (b : positive) (rest : list cell) (others : list addr) (fuel : nat).
Notation view := (view st0 b rest others).

(** What [lreadline] gives for the bytes [s] of a buffer, and what it leaves. *)
Definition line_of (check : bool) (sep s : list Z) : line * list Z :=
  match find_sep sep s with
  | Some k => if check then (HasLine, s) else (Line (take k s), drop (k + length sep) s)
  | None => (NoLine, s)
  end.

Lemma wp_readline_loop st x l fl s (check : bool) sep n : (length l < fuel)%nat → ∀ fu i l' from (Q : result line → driver → Prop),
  view st x l fl → shows x l s → l ≠ [] → sb_size x = zlen s → zlen s ≤ INT_MAX → zlen sep ≤ INT_MAX →
  n = Z.to_nat (zlen s - i) → (n < fu)%nat → 0 ≤ i →
  (length l' ≤ length l)%nat → chain st l' → match l' with [] => False | c :: _ => 0 ≤ from < zlen (c_bytes c) end →
  drop (Z.to_nat from) (bytes_of l') = drop (Z.to_nat i) s →
  (∀ st', match find_sep sep (drop (Z.to_nat i) s) with
     | Some k =>
         if check then st' = st
         else left_with st0 b rest others (zlen (drop (Z.to_nat i + k + length sep) s)) (drop (Z.to_nat i + k + length sep) s) st'
     | None => st' = st
     end → Q (inr match find_sep sep (drop (Z.to_nat i) s) with
              | Some k => if check then HasLine else Line (take (Z.to_nat i + k) s)
              | None => NoLine end) st') →
  wp (loopM fu (readline_turn fuel b check sep)
        (i, first_of l', from, match l' with [] => 0 | c :: _ => zlen (c_bytes c) - from end)) Q st.
Proof.
  intros Hfuel. induction n as [n IH] using lt_wf_ind.
  intros fu i l' from Q Hv Hs Hl Hsize Hmax Hsepmax Hn Hfu Hi Hlen Hc Hfrom Hdrop HQ.
  destruct fu as [|fu]; [lia|]. pose proof (zlen_nonneg sep) as H0. pose proof (zlen_nonneg s) as H1.
  assert (Hrem : zlen (drop (Z.to_nat i) s) = Z.max 0 (zlen s - i)) by (unfold zlen; rewrite length_drop; lia).
  assert (Hi2 : i < zlen s).
  { destruct l' as [|c l']; [done|]. apply (f_equal (zlen (A := Z))) in Hdrop. rewrite Hrem in Hdrop. unfold bytes_of in Hdrop.
    cbn [fmap list_fmap concat] in Hdrop. unfold zlen in Hdrop, Hfrom. rewrite length_drop, length_app in Hdrop. unfold zlen. lia. }
  cbn [loopM]. apply wp_bind. unfold readline_turn at 1. cbv zeta. apply wp_bind. eapply wp_the_buffer; [by eapply view_buffer|].
  rewrite (i32_small (zlen sep)) by (unfold INT_MAX in *; lia). rewrite Hsize.
  apply wp_bind. eapply wp_lift; [apply cint_in; unfold INT_MAX, INT_MIN in *; lia|].
  wp_case E1; [apply negb_true_iff, Z.leb_gt in E1|apply negb_false_iff, Z.leb_le in E1].
  { apply wp_ret, wp_ret. rewrite find_sep_short in HQ by lia. by apply HQ. }
  destruct l' as [|c l']; [done|].
  apply wp_bind. eapply wp_check_sep; [lia|done|done|rewrite Hdrop; lia|]. rewrite Hdrop.
  wp_case E2; [apply bool_decide_eq_true in E2|apply bool_decide_eq_false in E2].
  - rewrite find_sep_found in HQ by done. destruct check.
    + apply wp_ret, wp_ret. by apply HQ.
    + rewrite !i32_small by (unfold INT_MAX in *; lia). apply wp_bind.
      eapply wp_pop_lstring; [done..|lia|lia|done|]. intros st' (x' & l1 & fl' & Hv' & Hs' & Hsz').
      apply wp_bind. eapply wp_the_buffer; [by eapply view_buffer|]. apply wp_bind, wp_modify, wp_ret, wp_ret.
      replace (i + zlen sep - zlen sep) with i by lia.
      specialize (HQ (set_buffers (<[b := set_size (i32 (sb_size x' - (i + zlen sep))) x']> (d_buffers st')) st')).
      rewrite !Nat.add_0_r in HQ. apply HQ. eexists _, l1, fl'. split; [by eapply view_put|].
      replace (Z.to_nat (i + zlen sep)) with (Z.to_nat i + length sep)%nat in Hs' by (unfold zlen; lia).
      split; [done|]. cbn [sb_size set_size]. rewrite Hsz', Hsize. rewrite i32_small by (unfold INT_MAX in *; lia).
      unfold zlen in *. rewrite length_drop. lia.
  - assert (Hne : sep ≠ []) by (intros ->; by apply E2, prefix_nil).
    assert (Hsepl : 0 < zlen sep) by (unfold zlen; destruct sep; cbn; [done|lia]).
    destruct (drop (Z.to_nat i) s) as [|d s'] eqn:Ed; [change (zlen []) with 0 in Hrem; lia|].
    assert (Ed' : drop (Z.to_nat (i + 1)) s = s').
    { replace (Z.to_nat (i + 1)) with (Z.to_nat i + 1)%nat by lia. by rewrite <-drop_drop, Ed. }
    rewrite (find_sep_next _ _ _ E2) in HQ.
    assert (HQ' : ∀ st', match find_sep sep (drop (Z.to_nat (i + 1)) s) with
     | Some k => if check then st' = st
         else left_with st0 b rest others (zlen (drop (Z.to_nat (i + 1) + k + length sep) s)) (drop (Z.to_nat (i + 1) + k + length sep) s) st'
     | None => st' = st
     end → Q (inr match find_sep sep (drop (Z.to_nat (i + 1)) s) with
              | Some k => if check then HasLine else Line (take (Z.to_nat (i + 1) + k) s)
              | None => NoLine end) st').
    { intros st'. specialize (HQ st'). rewrite Ed'. destruct (find_sep sep s') as [k|]; cbn in HQ; [|done].
      by replace (Z.to_nat (i + 1) + k)%nat with (Z.to_nat i + S k)%nat by lia. }
    assert (Hd1 : drop (Z.to_nat (from + 1)) (bytes_of (c :: l')) = drop (Z.to_nat (i + 1)) s).
    { replace (Z.to_nat (from + 1)) with (Z.to_nat from + 1)%nat by lia. rewrite <-drop_drop, Hdrop, Ed'. done. }
    wp_case E3; [apply Z.eqb_eq in E3|apply Z.eqb_neq in E3].
    + apply wp_bind. cbn [first_of head fmap option_fmap option_map]. destruct (chain_first _ _ _ Hc) as (Hnode & _ & _ & Hcl).
      eapply wp_the_node; [done|]. cbn [n_next].
      assert (Hd2 : bytes_of l' = drop (Z.to_nat (i + 1)) s).
      { rewrite <-Hd1. unfold bytes_of. cbn [fmap list_fmap concat]. rewrite drop_app, drop_ge by (unfold zlen in *; lia). cbn [app].
        replace (Z.to_nat (from + 1) - length (c_bytes c))%nat with 0%nat by (unfold zlen in *; lia). by rewrite drop_0. }
      destruct l' as [|c' l'].
      * cbn [first_of head fmap option_fmap option_map]. apply wp_ret, wp_ret. rewrite find_sep_short in HQ'; [by apply HQ'|].
        rewrite <-Hd2. change (zlen (bytes_of [])) with 0. lia.
      * cbn [first_of head fmap option_fmap option_map]. destruct (chain_first _ _ _ Hcl) as (Hnode' & _ & Hpos & _).
        apply wp_bind. eapply wp_the_node; [done|]. apply wp_ret. cbn [n_sz].
        replace (zlen (c_bytes c')) with (zlen (c_bytes c') - 0) by lia.
        apply (IH (Z.to_nat (zlen s - (i + 1))) ltac:(lia) fu (i + 1) (c' :: l') 0 Q); try done; cbn [length] in *; lia.
    + apply wp_ret. replace (zlen (c_bytes c) - from - 1) with (zlen (c_bytes c) - (from + 1)) by lia.
      apply (IH (Z.to_nat (zlen s - (i + 1))) ltac:(lia) fu (i + 1) (c :: l') (from + 1) Q); try done; lia.
Qed.
End readline.

(** ** A node from the pool *)

Fixpoint chunk_list (c : positive) (i : Z) (n : nat) : list nodeptr :=
  match n with O => [] | S n' => (c, i) :: chunk_list c (i + 1) n' end.

Lemma chunk_list_in c i n p : p ∈ chunk_list c i n → p.1 = c ∧ i ≤ p.2.
Proof.
  revert i. induction n as [|n IH]; intros i; [by intros ?%not_elem_of_nil|].
  cbn. rewrite elem_of_cons. intros [->|[H1 H2]%IH]; cbn; [lia|]. split; [done|lia].
Qed.

Lemma chunk_list_NoDup c i n : NoDup (chunk_list c i n).
Proof.
  revert i. induction n as [|n IH]; intros i; cbn; [constructor|]. constructor; [|apply IH].
  intros [_ H]%chunk_list_in. cbn in H. lia.
Qed.

Lemma chunk_nodes_dom c i n p : is_Some (chunk_nodes c i n !! p) ↔ p ∈ chunk_list c i n.
Proof.
  revert i. induction n as [|n IH]; intros i; cbn.
  - rewrite lookup_empty. split; [by intros []|by intros ?%not_elem_of_nil].
  - rewrite lookup_insert_is_Some, IH, elem_of_cons. split; [intros [->|[_ H]]; auto|].
    intros [->|H]; [by left|]. destruct (decide ((c, i) = p)); auto.
Qed.

Lemma chunk_free c i n M : free_chain (chunk_nodes c i n ∪ M) (chunk_list c i n).
Proof.
  revert i. induction n as [|n IH]; intros i; [done|]. cbn [chunk_nodes chunk_list free_chain]. rewrite <-insert_union_l, lookup_insert_eq.
  split; [by destruct n|]. eapply free_frame, IH. intros p Hp. apply lookup_insert_ne.
  intros <-. apply chunk_list_in in Hp. cbn in Hp. lia.
Qed.

(** A node that is free: one of the pool, or the first of a new chunk. *)
Lemma wp_take_free_node st all fl others (Q : nodeptr → driver → Prop) :
  tidy st all fl others → default None (d_free st) = head fl →
  (∀ n fl' st', tidy st' all (n :: fl') others → d_buffers st' = d_buffers st → d_blocks st' = d_blocks st →
     (∀ m, is_Some (d_nodes st !! m) → d_nodes st' !! m = d_nodes st !! m) → Q n st') →
  wp take_free_node Q st.
Proof.
  intros Ht Hfirst HQ. unfold take_free_node. apply wp_bind, wp_gets.
  destruct fl as [|n fl].
  - assert (Hgrow : wp grow_pool Q st).
    { unfold grow_pool. apply wp_bind, wp_gets. cbv zeta. set (tsz := if pool_rawlen st =? 0 then _ else _).
      set (size := if tsz <=? LARGE_PAGE_NODE - 3 then _ else _). apply wp_bind. unfold lnewpool.
      apply wp_bind, wp_gets, wp_bind, wp_modify, wp_ret, wp_bind, wp_modify, wp_ret. set (c := fresh _).
      assert (Hc : ∀ p, p.1 = c → d_nodes st !! p = None).
      { intros [c' k] E. apply not_elem_of_dom. intros Hin. cbn in E. subst c'.
        apply (is_fresh (set_map fst (dom (d_nodes st)) : gset positive)). apply elem_of_map. by exists (c, k). }
      assert (Hsize : 0 < size).
      { unfold size. assert (0 < tsz).
        { unfold tsz, pool_rawlen. pose proof (zlen_nonneg (d_chunks st)). destruct (d_free st); [|done]. case_match; lia. }
        case_match; rewrite Z.shiftl_mul_pow2 by (unfold LARGE_PAGE_NODE; lia); [|done]. pose proof (Z.pow_pos_nonneg 2 tsz ltac:(lia) ltac:(lia)). lia. }
      destruct (Z.to_nat size) as [|k] eqn:Ek; [lia|]. destruct Ht as [T1 T2 T3 T4 T5].
      apply (HQ _ (chunk_list c 1 k)); cbn [d_buffers d_blocks d_nodes set_chunks set_nodes]; [|done..|].
      - change ((c, 0) :: chunk_list c 1 k) with (chunk_list c 0 (S k)). rewrite app_nil_r in T2.
        split; cbn [d_buffers d_blocks d_nodes set_chunks set_nodes]; [apply chunk_free| | |done..].
        + apply NoDup_app. split_and!; [done| |apply chunk_list_NoDup]. intros n Hn [Hin _]%chunk_list_in.
          rewrite <-(app_nil_r (c_node <$> all)), <-T3 in Hn. destruct Hn as [y Hy]. by rewrite Hc in Hy.
        + intros n. rewrite lookup_union_is_Some, chunk_nodes_dom, T3, !elem_of_app, elem_of_nil. tauto.
      - intros m Hm. apply lookup_union_r. destruct (chunk_nodes c 0 (S k) !! m) eqn:E; [|done].
        assert (m ∈ chunk_list c 0 (S k)) as [H _]%chunk_list_in by (by apply chunk_nodes_dom).
        rewrite Hc in Hm by done. by destruct Hm. }
    cbn in Hfirst. destruct (d_free st) as [[n|]|]; [done|exact Hgrow|exact Hgrow].
  - cbn in Hfirst. destruct (d_free st) as [[n'|]|]; [|done|done]. cbn in Hfirst. injection Hfirst as ->.
    apply wp_ret. by eapply HQ.
Qed.

(** ** A block at the end of a buffer *)

Lemma chain_snoc st st' l t c :
  chain st (l ++ [t]) →
  (∀ c', c' ∈ l → d_nodes st' !! c_node c' = d_nodes st !! c_node c') →
  (∀ c', c' ∈ l ++ [t] → d_blocks st' !! c_addr c' = d_blocks st !! c_addr c') →
  d_nodes st' !! c_node t = Some (MkNode (Some (c_addr t)) (zlen (c_bytes t)) (Some (c_node c))) →
  chain st' [c] → chain st' ((l ++ [t]) ++ [c]).
Proof.
  intros H Hn Hb Ht Hc. induction l as [|d l IH]; cbn [app] in *.
  - destruct (chain_first _ _ _ H) as (_ & H2 & _ & _). cbn. split; [exact Ht|]. split; [by rewrite Hb by left|].
    split; [apply H|exact Hc].
  - destruct H as (H1 & H2 & H3 & H4). cbn [chain]. split_and!.
    + rewrite Hn by left. rewrite H1. do 2 f_equal. by destruct l.
    + by rewrite Hb by left.
    + done.
    + apply IH; [done| |]; intros c' Hc'; [apply Hn|apply Hb]; by right.
Qed.

Lemma chain_last st l t : chain st (l ++ [t]) →
  d_nodes st !! c_node t = Some (MkNode (Some (c_addr t)) (zlen (c_bytes t)) None).
Proof. induction l as [|c l IH]; cbn [app]; intros H; [by apply chain_first in H as [H _]|]. apply IH, H. Qed.

Section push.
Context (st0 : driver) (b : positive) (rest : list cell).

(** The cell [c] of a free node has been put behind the others. *)
Lemma view_snoc st st1 x l fl fl' others n a bs nodes o size :
  view st0 b rest (a :: others) st x l fl → tidy st1 (l ++ rest) (n :: fl') (a :: others) →
  d_buffers st1 = d_buffers st → d_blocks st1 = d_blocks st →
  (∀ m, is_Some (d_nodes st !! m) → d_nodes st1 !! m = d_nodes st !! m) →
  d_blocks st !! a = Some bs → bs ≠ [] →
  let c := (n, a, bs) : cell in
  let y := MkBuffer size o (first_of (l ++ [c])) (Some n) in
  (∀ m, m ≠ n → (∀ t, last l = Some t → m ≠ c_node t) → nodes !! m = d_nodes st1 !! m) →
  nodes !! n = Some (MkNode (Some a) (zlen bs) None) →
  (∀ t, last l = Some t → nodes !! c_node t = Some (MkNode (Some (c_addr t)) (zlen (c_bytes t)) (Some n))) →
  view st0 b rest others (set_buffers (<[b := y]> (d_buffers st1)) (set_nodes nodes (set_free (Some (head fl')) st1)))
    y (l ++ [c]) fl'.
Proof.
  intros [H1 H2 H3 H4 H5 H6 H7 H8] [T1 T2 T3 T4 T5] Hb1 Hbl1 Hn1 Ha Hne c y Hother Hnew Hlast.
  assert (Hnl : ∀ c, c ∈ l ++ rest → c_node c ≠ n).
  { intros c' Hc E. apply NoDup_app in T2 as (_ & T2 & _). apply (T2 (c_node c')); [by apply list_elem_of_fmap_2|]. rewrite E. by left. }
  rewrite Hbl1 in T5.
  assert (Hperm : (c_node <$> (l ++ [c]) ++ rest) ++ fl' ≡ₚ (c_node <$> l ++ rest) ++ n :: fl').
  { rewrite !fmap_app, <-!app_assoc. cbn [fmap list_fmap app]. apply Permutation_app_head.
    change (c_node c) with n. rewrite <-Permutation_middle. done. }
  assert (Hperma : (c_addr <$> (l ++ [c]) ++ rest) ++ others ≡ₚ (c_addr <$> l ++ rest) ++ a :: others).
  { rewrite !fmap_app, <-!app_assoc. cbn [fmap list_fmap app]. apply Permutation_app_head.
    change (c_addr c) with a. rewrite <-Permutation_middle. done. }
  assert (Hlt : ∀ t, last l = Some t → t ∈ l) by (intros t Et; by apply last_Some_elem_of).
  assert (Hapart : ∀ m, m ∈ (c_node <$> rest) ++ fl' → m ≠ n ∧ ∀ t, last l = Some t → m ≠ c_node t).
  { intros m Hm. rewrite <-Hperm in T2. rewrite !fmap_app, <-!app_assoc in T2. apply NoDup_app in T2 as (_ & D1 & D2).
    cbn [fmap list_fmap app] in D1, D2. change (c_node c) with n in D1, D2. apply NoDup_cons in D2 as [D2 _]. split; [by intros ->|].
    intros t Et ->. apply (D1 (c_node t)); [by apply list_elem_of_fmap_2, Hlt|by right]. }
  split; cbn [d_buffers d_nodes d_free d_blocks set_buffers set_nodes set_free sb_head sb_tail]; [| | | | | | |].
  - by rewrite Hb1, H1, insert_insert_eq.
  - done.
  - by rewrite last_snoc.
  - assert (Hc : chain (set_buffers (<[b := y]> (d_buffers st1))
                            (set_nodes nodes (set_free (Some (head fl')) st1))) [c]).
    { cbn. rewrite Hbl1. done. }
    destruct l as [|t l' _] using rev_ind; [done|]. rewrite last_snoc in Hlast, Hapart.
    eapply chain_snoc; [exact H4| | |by apply Hlast|done].
    + intros c' Hc'. cbn. assert (Hin : c_node c' ∈ (c_node <$> (l' ++ [t]) ++ rest) ++ fl)
        by (rewrite <-app_assoc, fmap_app, <-app_assoc; apply elem_of_app; left; by apply list_elem_of_fmap_2).
      rewrite Hother; [apply Hn1; by apply H5| |].
      * apply Hnl. rewrite <-app_assoc. apply elem_of_app. by left.
      * rewrite last_snoc. intros ? [= <-] E. rewrite <-app_assoc, fmap_app, <-app_assoc in T2.
        apply NoDup_app in T2 as (_ & T2 & _). apply (T2 (c_node c')); [by apply list_elem_of_fmap_2|]. rewrite E. by left.
    + intros c' _. cbn. by rewrite Hbl1.
  - split; cbn [d_buffers d_nodes d_free d_blocks set_buffers set_nodes set_free].
    + eapply free_frame, T1. intros m Hm. destruct (Hapart m) as [E1 E2]; [apply elem_of_app; by right|]. by apply Hother.
    + by rewrite Hperm.
    + intros m. rewrite Hperm, <-T3. destruct (decide (m = n)) as [->|E1].
      { rewrite Hnew, T3. split; [intros _|by eexists]. apply elem_of_app. right. by left. }
      destruct (last l) as [t|] eqn:El; [destruct (decide (m = c_node t)) as [->|E2]|].
      * rewrite Hlast, T3 by done. split; [intros _|by eexists]. apply elem_of_app. left. apply list_elem_of_fmap_2, elem_of_app. left. by apply Hlt.
      * rewrite Hother; [done..|]. by intros ? [= <-].
      * by rewrite Hother.
    + by rewrite Hperma.
    + intros a'. rewrite Hbl1, T5, Hperma. done.
  - done.
  - intros c' Hc'. destruct (Hapart (c_node c')) as [E1 E2]; [apply elem_of_app; left; by apply list_elem_of_fmap_2|].
    rewrite Hother, Hn1; [by apply H7| |done..]. apply H5, elem_of_app. left. apply list_elem_of_fmap_2, elem_of_app. by right.
  - intros a' Ha'. rewrite Hbl1. apply H8. rewrite !elem_of_app, elem_of_cons in *. tauto.
Qed.

Lemma shows_snoc x l s y c : shows x l s → c_bytes c ≠ [] → sb_offset y = sb_offset x → shows y (l ++ [c]) (s ++ c_bytes c).
Proof.
  intros (S1 & S2 & ->) Hne Hy. unfold shows. rewrite Hy. split; [done|]. unfold bytes_of in *. rewrite fmap_app, concat_app. cbn.
  rewrite app_nil_r. split.
  - destruct l as [|c' l]; [|done]. cbn. rewrite S2. unfold zlen. destruct (c_bytes c); [done|cbn; lia].
  - rewrite drop_app_le; [done|]. destruct l as [|c' l]; [cbn; lia|]. cbn. rewrite length_app. unfold zlen in S2. lia.
Qed.

Lemma wp_push st x l fl others s a bs (Q : result Z → driver → Prop) :
  view st0 b rest (a :: others) st x l fl → shows x l s → sb_size x = zlen s →
  d_blocks st !! a = Some bs → bs ≠ [] → zlen s + zlen bs ≤ INT_MAX →
  (∀ st', left_with st0 b rest others (zlen (s ++ bs)) (s ++ bs) st' → d_blocks st' = d_blocks st → Q (inr (zlen (s ++ bs))) st') →
  wp (lpushbuffer (Some b) (Some a) (zlen bs)) Q st.
Proof.
  intros Hv Hs Hsize Ha Hne Hmax HQ. pose proof Hv as [H1 H2 H3 H4 H5 H6 H7 H8]. pose proof (zlen_nonneg s). pose proof (zlen_nonneg bs).
  unfold lpushbuffer. cbv zeta. rewrite i32_small by (unfold INT_MAX in *; lia).
  apply wp_bind. eapply wp_take_free_node; [exact H5|exact H6|]. intros n fl' st1 Ht1 Hb1 Hbl1 Hn1.
  pose proof Ht1 as [T1 T2 _ _ _].
  apply wp_bind. eapply wp_the_node; [apply T1|]. cbn [n_next]. apply wp_bind, wp_modify, wp_bind, wp_modify, wp_bind.
  assert (Hx : d_buffers st1 !! b = Some x) by (rewrite Hb1, H1; apply lookup_insert_eq).
  eapply wp_the_buffer; [exact Hx|]. rewrite H2.
  assert (Hnl : ∀ c, c ∈ l ++ rest → c_node c ≠ n).
  { intros c Hc E. apply NoDup_app in T2 as (_ & T2 & _). apply (T2 (c_node c)); [by apply list_elem_of_fmap_2|]. rewrite E. by left. }
  set (c := (n, a, bs) : cell).
  assert (Hdone : ∀ nodes y, sb_size y = sb_size x → sb_offset y = sb_offset x → sb_head y = first_of (l ++ [c]) → sb_tail y = Some n →
     (∀ m, m ≠ n → (∀ t, last l = Some t → m ≠ c_node t) → nodes !! m = d_nodes st1 !! m) →
     nodes !! n = Some (MkNode (Some a) (zlen bs) None) →
     (∀ t, last l = Some t → nodes !! c_node t = Some (MkNode (Some (c_addr t)) (zlen (c_bytes t)) (Some n))) →
     wp (put_buffer b y) (λ _, wp (x ← the_buffer b; size ← liftO (cint (sb_size x + zlen bs)); put_buffer b (set_size size x);; lua_ret size) Q)
       (set_nodes nodes (set_free (Some (head fl')) st1))).
  { intros nodes y Y1 Y2 Y3 Y4 N1 N2 N3. apply wp_modify, wp_bind.
    eapply wp_the_buffer; [apply lookup_insert_eq|]. apply wp_bind. rewrite Y1, Hsize.
    eapply wp_lift; [apply cint_in; unfold INT_MAX, INT_MIN in *; lia|]. apply wp_bind, wp_modify, wp_ret.
    rewrite zlen_app in HQ. cbn. rewrite insert_insert_eq. destruct y as [y1 y2 y3 y4]. cbn in Y1, Y2, Y3, Y4. subst y1 y2 y3 y4.
    apply HQ; [|cbn; congruence]. eexists _, _, _. split; [by eapply view_snoc|]. by split; [apply shows_snoc with x|]. }
  destruct (last l) as [t|] eqn:El.
  - apply last_Some in El as [l' ->].
    assert (Ht : d_nodes st1 !! c_node t = Some (MkNode (Some (c_addr t)) (zlen (c_bytes t)) None)).
    { rewrite Hn1; [by eapply chain_last|]. rewrite (chain_last _ _ _ H4). by eexists. }
    assert (Hnt : c_node t ≠ n) by (apply Hnl; rewrite <-app_assoc; apply elem_of_app; right; by left).
    assert (Hhead : first_of (l' ++ [t]) = first_of ((l' ++ [t]) ++ [c]) ∧ is_Some (first_of (l' ++ [t]))) by (by destruct l').
    destruct Hhead as [Hhead [h Hh]]. rewrite Hh. rewrite H3. cbn [fmap option_fmap option_map]. apply wp_bind, wp_bind.
    eapply wp_the_node; [cbn; rewrite lookup_insert_ne by done; exact Ht|]. apply wp_bind, wp_modify.
    eapply (Hdone (<[c_node t := MkNode (Some (c_addr t)) (zlen (c_bytes t)) (Some n)]> (<[n := MkNode (Some a) (zlen bs) None]> (d_nodes st1))));
      [done..|cbn; congruence|done| | |].
    + intros m M1 M2. rewrite !lookup_insert_ne; [done|done|]. intros <-. by apply (M2 t).
    + by rewrite lookup_insert_ne, lookup_insert_eq.
    + intros ? [= <-]. apply lookup_insert_eq.
  - apply last_None in El. subst l. cbn [first_of head fmap option_fmap option_map].
    rewrite H3. cbn [last fmap option_fmap option_map]. apply wp_bind, wp_bind, wp_assert; [done|].
    eapply (Hdone (<[n := MkNode (Some a) (zlen bs) None]> (d_nodes st1))); [done..| | |done].
    + intros m M1 _. by apply lookup_insert_ne.
    + apply lookup_insert_eq.
Qed.
End push.

(** ** All buffers of a service *)

(** What the buffers of a service show. *)
Notation streams := (gmap positive (list Z)) (only parsing).

Definition cells_of (cs : gmap positive (list cell)) : list cell := concat (snd <$> map_to_list cs).

Definition linked (st : driver) (x : socket_buffer) (l : list cell) : Prop :=
  sb_head x = first_of l ∧ sb_tail x = c_node <$> last l ∧ chain st l.

(** Each buffer is a chain of blocks and shows a list of bytes; no node is lost, and every
    block is in one chain or belongs to [others]. *)
Definition ok (st : driver) (m : streams) (others : list addr) : Prop :=
  ∃ cs fl, tidy st (cells_of cs) fl others ∧ default None (d_free st) = head fl ∧
    ∀ b, match d_buffers st !! b, cs !! b, m !! b with
         | Some x, Some l, Some s => linked st x l ∧ shows x l s ∧ sb_size x = zlen s ∧ zlen s ≤ INT_MAX
         | None, None, None => True
         | _, _, _ => False
         end.

Lemma cells_of_insert cs b l : cells_of (<[b := l]> cs) ≡ₚ l ++ cells_of (delete b cs).
Proof.
  rewrite <-insert_delete_eq. unfold cells_of. rewrite map_to_list_insert by apply lookup_delete_eq. done.
Qed.

Lemma cells_of_lookup cs b l : cs !! b = Some l → cells_of cs ≡ₚ l ++ cells_of (delete b cs).
Proof. intros H. rewrite <-(insert_id cs b l) at 1 by done. apply cells_of_insert. Qed.

Lemma cells_of_other cs b b' l c : cs !! b' = Some l → b' ≠ b → c ∈ l → c ∈ cells_of (delete b cs).
Proof.
  intros H Hne Hc. rewrite (cells_of_lookup _ b' l) by (by rewrite lookup_delete_ne). apply elem_of_app. by left.
Qed.

Lemma linked_frame st st' x l :
  (∀ c, c ∈ l → d_nodes st' !! c_node c = d_nodes st !! c_node c ∧ d_blocks st' !! c_addr c = d_blocks st !! c_addr c) →
  linked st x l → linked st' x l.
Proof. intros Hf (H1 & H2 & H3). split_and!; [done..|]. by eapply chain_unchanged. Qed.

(** One buffer of many, and all of them again when a function has worked on it. *)
Lemma focus st m others b s : ok st m others → m !! b = Some s →
  ∃ rest x l fl, view st b rest others st x l fl ∧ shows x l s ∧ sb_size x = zlen s ∧ zlen s ≤ INT_MAX ∧
    ∀ others' st' s', left_with st b rest others' (zlen s') s' st' → zlen s' ≤ INT_MAX →
      ok st' (<[b := s']> m) others' ∧ ∀ a, a ∈ others' → d_blocks st' !! a = d_blocks st !! a.
Proof.
  intros (cs & fl & Ht & Hf & Hb) Hs. pose proof (Hb b) as Hbb. rewrite Hs in Hbb.
  destruct (d_buffers st !! b) as [x|] eqn:Hx; [|by destruct (cs !! b)]. destruct (cs !! b) as [l|] eqn:Hl; [|done].
  destruct Hbb as ((L1 & L2 & L3) & Hsh & Hsz & Hmax). exists (cells_of (delete b cs)), x, l, fl. split_and!; [|done..|].
  - split; try done; [by rewrite insert_id|]. by rewrite <-(cells_of_lookup cs b l).
  - intros others' st' s' (x' & l' & fl' & Hv & Hsh' & Hsz') Hmax'. destruct Hv as [H1 H2 H3 H4 H5 H6 H7 H8].
    split; [|intros a Ha; apply H8, elem_of_app; by right].
    exists (<[b := l']> cs), fl'. split; [by rewrite cells_of_insert|]. split; [done|].
    intros b'. rewrite H1. destruct (decide (b = b')) as [<-|Hne]; [rewrite !lookup_insert_eq; by split; [split; [|split]|]|].
    rewrite !lookup_insert_ne by done. specialize (Hb b').
    destruct (d_buffers st !! b') as [x2|], (cs !! b') as [l2|] eqn:Hl2, (m !! b') as [s2|]; try done.
    destruct Hb as (Hli & ?). split; [|done]. eapply linked_frame, Hli. intros c Hc.
    pose proof (cells_of_other cs b b' l2 c Hl2 (not_eq_sym Hne) Hc) as Hin. split; [by apply H7|].
    apply H8, elem_of_app. left. by apply list_elem_of_fmap_2.
Qed.

(** A block that comes in belongs to [others] first. *)
Lemma ok_new_block st m others a bs : ok st m others → d_blocks st !! a = None →
  ok (with_heap (<[a := bs]> (heap st)) st) m (a :: others).
Proof.
  intros (cs & fl & [T1 T2 T3 T4 T5] & Hf & Hb) Ha.
  assert (Hno : a ∉ (c_addr <$> cells_of cs) ++ others).
  { intros Hin%T5. rewrite Ha in Hin. by destruct Hin. }
  assert (Hperm : (c_addr <$> cells_of cs) ++ a :: others ≡ₚ a :: (c_addr <$> cells_of cs) ++ others)
    by (symmetry; apply Permutation_middle).
  exists cs, fl. split; [|split; [done|]].
  - split; cbn; [done..| |].
    + rewrite Hperm. by apply NoDup_cons.
    + intros a'. rewrite Hperm, lookup_insert_is_Some', T5, elem_of_cons. split; intros [->|?]; auto.
  - intros b. specialize (Hb b). cbn. destruct (d_buffers st !! b) as [x|], (cs !! b) as [l|] eqn:Hl, (m !! b) as [s|]; try done.
    destruct Hb as (Hli & ?). split; [|done]. eapply linked_frame, Hli. intros c Hc. cbn. split; [done|].
    apply lookup_insert_ne. intros ->. apply Hno, elem_of_app. left. apply list_elem_of_fmap_2.
    rewrite (cells_of_lookup cs b l Hl). apply elem_of_app. by left.
Qed.

Lemma ok_fresh_driver st m others b : ok st m others → m !! b = None →
  ok (set_buffers (<[b := MkBuffer 0 0 None None]> (d_buffers st)) st) (<[b := []]> m) others.
Proof.
  intros (cs & fl & Ht & Hf & Hb) Hm. pose proof (Hb b) as Hbb. rewrite Hm in Hbb.
  assert (Hcs : cs !! b = None) by (by destruct (d_buffers st !! b), (cs !! b)).
  exists (<[b := []]> cs), fl. split; [|split; [done|]].
  - rewrite cells_of_insert, delete_id by done. by destruct Ht.
  - intros b'. cbn. destruct (decide (b = b')) as [<-|Hne]; [rewrite !lookup_insert_eq; by repeat split|]. rewrite !lookup_insert_ne by done.
    specialize (Hb b'). destruct (d_buffers st !! b') as [x|], (cs !! b') as [l|], (m !! b') as [s|]; try done.
    destruct Hb as (Hli & ?). split; [|done]. by eapply linked_frame, Hli.
Qed.

Lemma ok_dom st m others : ok st m others → dom (d_buffers st) = dom m.
Proof.
  intros (cs & fl & _ & _ & Hb). apply set_eq. intros b. rewrite !elem_of_dom. specialize (Hb b).
  destruct (d_buffers st !! b), (cs !! b), (m !! b); try done; split; intros; by eexists || (by destruct H).
Qed.

(** ** Reading all *)

Section drain.
Context (st0 : driver) (b : positive) (rest : list cell) (others : list addr).
Notation view := (view st0 b rest others).

Lemma wp_clear_loop l fu : (length l < fu)%nat → ∀ st x fl s (Q : unit → driver → Prop),
  view st x l fl → shows x l s → (∀ st' x' fl', view st' x' [] fl' → shows x' [] [] → Q tt st') →
  wp (loopM fu (clear_turn b) tt) Q st.
Proof.
  revert fu. induction l as [|c l IH]; intros fu Hfu st x fl s Q Hv Hs HQ; (destruct fu as [|fu]; [cbn in Hfu; lia|]);
    cbn [loopM]; apply wp_bind; unfold clear_turn at 1; apply wp_bind; (eapply wp_the_buffer; [by eapply view_buffer|]);
    rewrite (v_head _ _ _ _ _ _ _ _ Hv); cbn [first_of head fmap option_fmap option_map].
  - apply wp_ret, wp_ret. eapply HQ; [done|]. destruct Hs as (H1 & H2 & _). unfold shows. by rewrite H2.
  - apply wp_bind. eapply wp_return_first; [done..|]. intros st' x' fl' Hv' Hs' _. apply wp_ret.
    cbn [length] in Hfu. eapply (IH fu); [lia|done..].
Qed.

Lemma wp_readall_loop l fu : (length l < fu)%nat → ∀ st x fl s bs (Q : list Z → driver → Prop),
  view st x l fl → shows x l s → (∀ st' x' fl', view st' x' [] fl' → shows x' [] [] → Q (bs ++ s) st') →
  wp (loopM fu (readall_turn b) bs) Q st.
Proof.
  revert fu. induction l as [|c l IH]; intros fu Hfu st x fl s bs Q Hv Hs HQ; (destruct fu as [|fu]; [cbn in Hfu; lia|]);
    cbn [loopM]; apply wp_bind; unfold readall_turn at 1; apply wp_bind; (eapply wp_the_buffer; [by eapply view_buffer|]);
    pose proof (v_head _ _ _ _ _ _ _ _ Hv) as Hhead; cbn [first_of head fmap option_fmap option_map] in Hhead.
  - rewrite Hhead. apply wp_ret, wp_ret. destruct Hs as (H1 & H2 & ->). rewrite H2 in HQ. cbn in HQ. rewrite app_nil_r in HQ.
    eapply HQ; [done|]. unfold shows. by rewrite H2.
  - destruct (shows_cons _ _ _ _ Hs) as (Es & Hlen & Hpos & Hoff). rewrite Hhead at 1. apply wp_bind. eapply wp_first_node; [exact Hv|].
    apply wp_bind. eapply wp_read_first; [done..|cbn; lia|]. cbn [n_sz].
    apply wp_bind. eapply wp_return_first; [done..|]. intros st' x' fl' Hv' Hs' _. apply wp_ret.
    cbn [length] in Hfu. eapply (IH fu); [lia|done..|]. intros st'' x'' fl'' Hv'' Hs''.
    rewrite <-app_assoc, take_drop. by eapply HQ.
Qed.
End drain.

(** ** The operations on lists of bytes *)

Inductive op :=
  | Open
  | Arrive (b : positive) (bs : list Z)
  | Pop (b : positive) (sz : Z)
  | ReadAll (b : positive)
  | Clear (b : positive)
  | ReadLine (b : positive) (check : bool) (sep : list Z).

Inductive reply := ROpen (b : positive) | RCount (n : Z) | RText (bs : option (list Z)) (n : Z) | RAll (bs : list Z)
  | RDone | RLine (l : line) | RError (msg : string).

Definition answer {A} (f : A → reply) (r : result A) : D reply := mret match r with inl e => RError e | inr a => f a end.

(** With [Arrive], a message from the socket thread brings a block. *)
Definition run_op (fuel : nat) (o : op) : D reply :=
  match o with
  | Open => b ← lnewbuffer; mret (ROpen b)
  | Arrive b bs => a ← hmalloc bs; r ← lpushbuffer (Some b) (Some a) (zlen bs); answer RCount r
  | Pop b sz => r ← lpopbuffer fuel (Some b) sz; answer (λ '(bs, n), RText bs n) r
  | ReadAll b => r ← lreadall fuel (Some b); answer RAll r
  | Clear b => r ← lclearbuffer fuel (Some b) false; answer (λ _, RDone) r
  | ReadLine b check sep => r ← lreadline fuel (Some b) check sep; answer RLine r
  end.

Definition spec_op (o : op) (m : streams) : reply * streams :=
  let shown b := default [] (m !! b) in
  match o with
  | Open => let b := fresh (dom m) in (ROpen b, <[b := []]> m)
  | Arrive b bs => (RCount (zlen (shown b ++ bs)), <[b := shown b ++ bs]> m)
  | Pop b sz =>
      if (zlen (shown b) <? sz) || (sz =? 0) then (RText None (zlen (shown b)), m)
      else (RText (Some (take (Z.to_nat sz) (shown b))) (zlen (shown b) - sz), <[b := drop (Z.to_nat sz) (shown b)]> m)
  | ReadAll b => (RAll (shown b), <[b := []]> m)
  | Clear b => (RDone, <[b := []]> m)
  | ReadLine b check sep =>
      if decide (shown b = []) then (RLine NoLine, m)
      else let '(l, s) := line_of check sep (shown b) in (RLine l, <[b := s]> m)
  end.

(** The buffer exists and stays small enough, and the fuel is more than its bytes. *)
Definition op_allowed (fuel : nat) (o : op) (m : streams) : Prop :=
  match o with
  | Open => True
  | Arrive b bs => ∃ s, m !! b = Some s ∧ bs ≠ [] ∧ zlen s + zlen bs ≤ INT_MAX
  | Pop b sz => ∃ s, m !! b = Some s ∧ 0 ≤ sz ≤ INT_MAX ∧ (length s + 1 < fuel)%nat
  | ReadAll b | Clear b => ∃ s, m !! b = Some s ∧ (length s + 1 < fuel)%nat
  | ReadLine b _ sep => ∃ s, m !! b = Some s ∧ zlen sep ≤ INT_MAX ∧ (length s + 1 < fuel)%nat
  end.

Definition step_good (m : streams) (others : list addr) (o : op) (st : driver) (r : reply) (st' : driver) : Prop :=
  r = (spec_op o m).1 ∧ ok st' (spec_op o m).2 others ∧ ∀ a, a ∈ others → d_blocks st' !! a = d_blocks st !! a.

Section steps.
Context (fuel : nat) (m : streams) (others : list addr).
Notation good := (step_good m others).

Lemma step_open st : ok st m others → wp (run_op fuel Open) (good Open st) st.
Proof.
  intros Hok. cbn [run_op]. unfold lnewbuffer. apply wp_bind, wp_bind, wp_gets, wp_bind, wp_modify, wp_ret, wp_ret.
  rewrite (ok_dom _ _ _ Hok). split; [done|]. split; [|done]. apply ok_fresh_driver; [done|]. apply not_elem_of_dom, is_fresh.
Qed.

Lemma step_arrive st b bs : ok st m others → op_allowed fuel (Arrive b bs) m → wp (run_op fuel (Arrive b bs)) (good (Arrive b bs) st) st.
Proof.
  intros Hok (s & Hs & Hne & Hmax). cbn [run_op]. apply wp_bind, wp_hmalloc. intros a Ha.
  pose proof (ok_new_block st m others a bs Hok Ha) as Hok1. set (st1 := with_heap _ st) in *.
  destruct (focus st1 m (a :: others) b s Hok1 Hs) as (rest & x & l & fl & Hv & Hsh & Hsz & _ & Hback).
  apply wp_bind. eapply wp_push; [exact Hv|done|done| |done|done|].
  { apply lookup_insert_eq. }
  intros st' Hst' Hbl. apply wp_ret. unfold step_good, spec_op. rewrite Hs. cbn [default from_option id fst snd].
  destruct (Hback others st' (s ++ bs) Hst') as [H1 H2]; [by rewrite zlen_app|]. split; [done|]. split; [done|].
  intros a' Ha'. rewrite H2 by done. apply lookup_insert_ne. intros ->.
  destruct Hok1 as (cs & fl1 & [_ _ _ T4 _] & _). apply NoDup_app in T4 as (_ & _ & T4). by apply NoDup_cons in T4 as [T4 _].
Qed.

Lemma step_pop st b sz : ok st m others → op_allowed fuel (Pop b sz) m → wp (run_op fuel (Pop b sz)) (good (Pop b sz) st) st.
Proof.
  intros Hok (s & Hs & Hszr & Hfuel). cbn [run_op].
  destruct (focus st m others b s Hok Hs) as (rest & x & l & fl & Hv & Hsh & Hsz & Hmax & Hback).
  apply wp_bind. unfold lpopbuffer. cbv zeta. rewrite i32_small by (unfold INT_MAX in *; lia).
  apply wp_bind. eapply wp_the_buffer; [by eapply view_buffer|]. rewrite Hsz. unfold step_good, spec_op. rewrite Hs. cbn [default from_option id].
  destruct ((zlen s <? sz) || (sz =? 0)) eqn:E.
  - apply wp_bind, wp_ret, wp_bind. eapply wp_the_buffer; [by eapply view_buffer|]. apply wp_ret, wp_ret. rewrite Hsz. by split.
  - apply orb_false_iff in E as [E1%Z.ltb_ge E2%Z.eqb_neq]. apply wp_bind, wp_bind.
    pose proof (shows_length _ _ _ _ (v_chain _ _ _ _ _ _ _ _ Hv) Hsh).
    eapply wp_pop_lstring; [done..| |lia|lia|lia|].
    { intros ->. destruct Hsh as (_ & _ & ->). change (zlen (drop _ (bytes_of []))) with (zlen (drop (Z.to_nat (sb_offset x)) ([] : list Z))) in E1.
      rewrite drop_nil in E1. change (zlen []) with 0 in E1. lia. }
    intros st' (x' & l' & fl' & Hv' & Hsh' & Hsz'). apply wp_bind. eapply wp_the_buffer; [by eapply view_buffer|].
    apply wp_bind. eapply wp_lift; [apply cint_in; unfold INT_MAX, INT_MIN in *; lia|]. apply wp_bind, wp_modify, wp_ret.
    apply wp_bind. eapply wp_the_buffer; [apply lookup_insert_eq|]. apply wp_ret, wp_ret. cbn [sb_size set_size fst snd].
    rewrite Hsz', Hsz, Z.sub_0_r. split; [done|]. apply Hback; [|unfold zlen in *; rewrite length_drop; lia].
    eexists _, l', fl'. split; [by eapply view_put|]. split; [exact Hsh'|]. cbn. unfold zlen in *. rewrite length_drop. lia.
Qed.

Lemma step_read_all st b : ok st m others → op_allowed fuel (ReadAll b) m → wp (run_op fuel (ReadAll b)) (good (ReadAll b) st) st.
Proof.
  intros Hok (s & Hs & Hfuel). cbn [run_op].
  destruct (focus st m others b s Hok Hs) as (rest & x & l & fl & Hv & Hsh & Hsz & Hmax & Hback).
  pose proof (shows_length _ _ _ _ (v_chain _ _ _ _ _ _ _ _ Hv) Hsh).
  apply wp_bind. unfold lreadall. apply wp_bind. eapply wp_readall_loop; [|done..|]; [lia|]. intros st' x' fl' Hv' Hsh'.
  apply wp_bind. eapply wp_the_buffer; [by eapply view_buffer|]. apply wp_bind, wp_modify, wp_ret, wp_ret.
  unfold step_good, spec_op. rewrite Hs. split; [done|]. apply Hback; [|done].
  eexists _, [], fl'. split; [by eapply view_put|]. by split.
Qed.

Lemma step_clear st b : ok st m others → op_allowed fuel (Clear b) m → wp (run_op fuel (Clear b)) (good (Clear b) st) st.
Proof.
  intros Hok (s & Hs & Hfuel). cbn [run_op].
  destruct (focus st m others b s Hok Hs) as (rest & x & l & fl & Hv & Hsh & Hsz & Hmax & Hback).
  pose proof (shows_length _ _ _ _ (v_chain _ _ _ _ _ _ _ _ Hv) Hsh).
  apply wp_bind. unfold lclearbuffer. apply wp_bind. eapply wp_clear_loop; [|done..|]; [lia|]. intros st' x' fl' Hv' Hsh'.
  apply wp_bind. eapply wp_the_buffer; [by eapply view_buffer|]. apply wp_bind, wp_modify, wp_ret, wp_ret.
  unfold step_good, spec_op. split; [done|]. apply Hback; [|done].
  eexists _, [], fl'. split; [by eapply view_put|]. by split.
Qed.

Lemma step_readline st b check sep : ok st m others → op_allowed fuel (ReadLine b check sep) m →
  wp (run_op fuel (ReadLine b check sep)) (good (ReadLine b check sep) st) st.
Proof.
  intros Hok (s & Hs & Hsep & Hfuel). cbn [run_op].
  destruct (focus st m others b s Hok Hs) as (rest & x & l & fl & Hv & Hsh & Hsz & Hmax & Hback).
  pose proof (shows_length _ _ _ _ (v_chain _ _ _ _ _ _ _ _ Hv) Hsh) as Hlen.
  pose proof (v_head _ _ _ _ _ _ _ _ Hv) as Hhead. unfold step_good, spec_op. rewrite Hs. cbn [default from_option id].
  apply wp_bind. unfold lreadline. apply wp_bind. eapply wp_the_buffer; [by eapply view_buffer|].
  destruct l as [|c l].
  - rewrite Hhead. apply wp_ret, wp_ret. destruct Hsh as (_ & _ & ->). change (bytes_of []) with ([] : list Z). rewrite drop_nil, decide_True by done. by split.
  - rewrite Hhead at 1. cbn [first_of head fmap option_fmap option_map]. apply wp_bind. eapply wp_first_node; [exact Hv|]. cbn [n_sz].
    destruct (shows_cons _ _ _ _ Hsh) as (Es & Hl1 & Hpos & Hoff).
    rewrite decide_False by (rewrite Es; intros [E _]%app_eq_nil; rewrite E in Hpos; by change (zlen []) with 0 in Hpos).
    rewrite Hhead.
    apply (wp_readline_loop st b rest others fuel st x (c :: l) fl s check sep (Z.to_nat (zlen s - 0))
             ltac:(lia) fuel 0 (c :: l) (sb_offset x)); try done; try (unfold zlen; lia).
    + apply v_chain in Hv. done.
    + lia.
    + rewrite drop_0. by destruct Hsh as (_ & _ & ->).
    + intros st' Hst'. change (Z.to_nat 0) with 0%nat in Hst'. rewrite drop_0 in *. cbn [Nat.add] in Hst' |- *. apply wp_ret. unfold line_of.
      change (Z.to_nat 0) with 0%nat. cbn [Nat.add].
      destruct (find_sep sep s) as [k|]; [destruct check|]; cbn [fst snd]; (split; [done|]).
      * subst st'. rewrite insert_id by done. by split.
      * apply Hback; [done|]. unfold zlen in *. rewrite length_drop. lia.
      * subst st'. rewrite insert_id by done. by split.
Qed.

(** An operation does on the nodes and blocks what it does on lists of bytes. *)
Lemma step_op o st : ok st m others → op_allowed fuel o m → wp (run_op fuel o) (good o st) st.
Proof.
  destruct o; intros; [by apply step_open|by apply step_arrive|by apply step_pop|by apply step_read_all|by apply step_clear|by apply step_readline].
Qed.
End steps.

(** ** Runs *)

Fixpoint run_ops (fuel : nat) (ops : list op) : D (list reply) :=
  match ops with
  | [] => mret []
  | o :: ops' => r ← run_op fuel o; rs ← run_ops fuel ops'; mret (r :: rs)
  end.

Fixpoint spec_ops (ops : list op) (m : streams) : list reply * streams :=
  match ops with
  | [] => ([], m)
  | o :: ops' => let '(r, m') := spec_op o m in let '(rs, m'') := spec_ops ops' m' in (r :: rs, m'')
  end.

Fixpoint ops_allowed (fuel : nat) (ops : list op) (m : streams) : Prop :=
  match ops with
  | [] => True
  | o :: ops' => op_allowed fuel o m ∧ ops_allowed fuel ops' (spec_op o m).2
  end.

(** C28: the buffers of a service are lists of bytes: in any run of opening, arriving data, and
    reading by size, up to a separator, or all, each operation gives what it would give on
    lists to which the data is appended as it comes, for any cuts of the data into blocks
    and with one pool of nodes for all buffers. Afterwards every node is in use once or
    free, and every block of memory belongs to one buffer or to someone else, whose blocks
    have not changed. *)
Theorem buffers_are_streams fuel ops st m others :
  ok st m others → ops_allowed fuel ops m →
  ∃ st', run_ops fuel ops st = Ret ((spec_ops ops m).1, st') ∧ ok st' (spec_ops ops m).2 others ∧
    ∀ a, a ∈ others → d_blocks st' !! a = d_blocks st !! a.
Proof.
  revert st m. induction ops as [|o ops IH]; intros st m Hok Hall; [by exists st|]. destruct Hall as [Ho Hall].
  destruct (step_op fuel m others o st Hok Ho) as (r & st1 & Hrun & Hr & Hok1 & Hkept).
  destruct (IH st1 _ Hok1 Hall) as (st' & Hrun' & Hok' & Hkept'). exists st'.
  cbn [run_ops spec_ops]. unfold mbind, stateM_mbind. rewrite Hrun. cbn [mbind outcome_mbind]. rewrite Hrun'. cbn [mbind outcome_mbind].
  destruct (spec_op o m) as [r0 m0]. cbn [fst snd] in *. subst r0. destruct (spec_ops ops m0) as [rs m1]. cbn [fst snd] in *.
  split; [done|]. split; [done|]. intros a Ha. by rewrite Hkept', Hkept.
Qed.

(** The blocks of data that has been read are freed: empty buffers own nothing. *)
Theorem read_data_is_freed st m others : ok st m others → (∀ b s, m !! b = Some s → s = []) →
  ∀ a, is_Some (d_blocks st !! a) ↔ a ∈ others.
Proof.
  intros (cs & fl & Ht & _ & Hb) Hm a. assert (Hcs : cells_of cs = []).
  { unfold cells_of. apply concat_nil_Forall, Forall_fmap, Forall_forall. intros [b l] Hin%elem_of_map_to_list. cbn.
    specialize (Hb b). rewrite Hin in Hb. destruct (d_buffers st !! b) as [x|], (m !! b) as [s|] eqn:Hs; try done.
    destruct Hb as (_ & Hsh & _). rewrite (Hm b s Hs) in Hsh. destruct l as [|c l]; [done|].
    destruct (shows_cons _ _ _ _ Hsh) as (E & _ & Hpos & _). symmetry in E. apply app_eq_nil in E as [E _]. by rewrite E in Hpos. }
  destruct Ht as [_ _ _ _ T5]. rewrite T5, Hcs. done.
Qed.

(** A negative size is not refused: with an empty buffer, the null head is followed. *)
Theorem negative_size_undefined fuel st b x sz :
  d_buffers st !! b = Some x → sb_head x = None → 0 ≤ sb_size x → - 2 ^ 31 ≤ sz < 0 →
  lpopbuffer fuel (Some b) sz st = Undef.
Proof.
  intros Hx Hh H0 Hsz. unfold lpopbuffer, the_buffer, gets, mbind, stateM_mbind. cbv zeta. cbn [mbind outcome_mbind].
  rewrite Hx. cbn [mret stateM_mret mbind outcome_mbind]. replace (i32 sz) with sz by (unfold i32; rewrite Z.mod_small; lia).
  rewrite (proj2 (Z.ltb_ge _ _)), (proj2 (Z.eqb_neq _ _)) by lia. cbn [orb].
  unfold pop_lstring, the_buffer, gets, mbind, stateM_mbind. cbn [mbind outcome_mbind]. rewrite Hx. cbn [mret stateM_mret mbind outcome_mbind].
  by rewrite Hh.
Qed.

(** ** Numbers in headers *)

(** A header of one to four bytes is the number that they are the digits of, base 256. *)
Theorem header_is_number s : 1 ≤ zlen s ≤ 4 → Forall (λ c, 0 ≤ c < 256) s →
  lheader s = inr (fold_left (λ z c, z * 256 + c) s 0).
Proof.
  intros Hs Hb. unfold lheader. rewrite (proj2 (Z.ltb_ge _ _)), (proj2 (Z.ltb_ge _ _)) by lia. cbn [orb]. f_equal.
  assert (Hlen : zlen s ≤ 7) by lia. clear Hs. revert Hlen.
  assert (H : ∀ k z, 0 ≤ z < 256 ^ k → 0 ≤ k → k + zlen s ≤ 7 →
    fold_left (λ sz c, Z.lor (u64 (Z.shiftl sz 8)) c) s z = fold_left (λ z c, z * 256 + c) s z).
  { induction Hb as [|c s Hc Hb IH]; intros k z Hz Hk Hl; [done|]. cbn [fold_left]. rewrite zlen_cons in Hl.
    pose proof (zlen_nonneg s).
    assert (Hpow : 256 ^ k ≤ 256 ^ 6) by (apply Z.pow_le_mono_r; lia).
    assert (E : Z.lor (u64 (Z.shiftl z 8)) c = z * 256 + c).
    { unfold u64. rewrite Z.mod_small by (rewrite Z.shiftl_mul_pow2; lia). rewrite lor_shiftl_l by lia. lia. }
    rewrite E. apply (IH (k + 1)); [|lia..]. rewrite Z.pow_add_r by lia. lia. }
  intros Hlen. apply (H 0); lia.
Qed.

(** ** A concrete run *)

Definition no_buffers : driver := MkDriver ∅ ∅ None [] ∅.

Lemma no_buffers_ok : ok no_buffers ∅ [].
Proof.
  exists ∅, []. split_and!; [|done|by intros b]. replace (cells_of ∅) with ([] : list cell) by (unfold cells_of; by rewrite map_to_list_empty).
  split; cbn; [done|constructor| |constructor|]; intros n; rewrite lookup_empty; (split; [by intros []|by intros ?%not_elem_of_nil]).
Qed.

(** Two lines come in three blocks. *)
Definition two_lines : list op :=
  [Open; Arrive 1 [104; 105; 13]; Arrive 1 [10; 120]; ReadLine 1 false [13; 10]; Pop 1 2; Arrive 1 [121; 10];
   ReadLine 1 true [10]; Pop 1 2; ReadAll 1].

Lemma buffers_are_streams_witness : ∃ st',
  run_ops 10 two_lines no_buffers =
    Ret ([ROpen 1; RCount 3; RCount 5; RLine (Line [104; 105]); RText None 1; RCount 3; RLine HasLine; RText (Some [120; 121]) 1; RAll [10]], st') ∧
  d_blocks st' = ∅.
Proof.
  destruct (buffers_are_streams 10 two_lines no_buffers ∅ []) as (st' & Hrun & Hok & _); [exact no_buffers_ok| |].
  - cbn [ops_allowed two_lines]. repeat (split; [try exact I; eexists; (split; [vm_compute; reflexivity|]);
      repeat split; first [discriminate|vm_compute; discriminate|cbn; lia]|]). exact I.
  - exists st'. split; [rewrite Hrun; reflexivity|]. apply map_eq. intros a. rewrite lookup_empty. apply eq_None_not_Some.
    rewrite (read_data_is_freed _ _ _ Hok); [by apply not_elem_of_nil|].
    intros b s Hs. change (({[1%positive := []]} : streams) !! b = Some s) in Hs. by apply lookup_singleton_Some in Hs as [_ <-].
Defined.
