(* ===== verification/ShareData.v ===== *)
(** * Shared configuration data

    The model of [lualib-src/lua-sharedata.cpp]: a table of Lua is copied into C
    structs ([lnewconf]), a [struct table] with an array and a hash each, which all
    services of the process then read ([lindexconf], [lnextkey]).

    The state [shared] has the [struct table]s by address, the Lua state of each
    copy, which holds its strings and its [struct state], and the boxes ([struct ctrl])
    of the services. The Lua table that is copied is an [ltable] of [Seri]: the
    elements up to its length, and the pairs in the order of [lua_next]. Of [ctx],
    [L] and [tbl] are arguments, and [string_index] is in the Lua state. A function
    gives its result or the error of Lua that it raises; no memory runs out. *)
From S2P Require Import Prelude StateM Seri.

Local Open Scope Z_scope.

(** ** Data *)

Definition KEYTYPE_INTEGER : Z := 0.
Definition KEYTYPE_STRING : Z := 1.

Definition VALUETYPE_NIL : Z := 0.
Definition VALUETYPE_REAL : Z := 1.
Definition VALUETYPE_STRING : Z := 2.
Definition VALUETYPE_BOOLEAN : Z := 3.
Definition VALUETYPE_TABLE : Z := 4.
Definition VALUETYPE_INTEGER : Z := 5.

(** [union value] by the member that was written; [UNone] is memory that was not. *)
Inductive value := UNone | UNumber (n : Z) | UInteger (d : Z) | UTable (tbl : positive) | UString (i : Z) | UBoolean (b : bool).

Record node := MkNode {
  nd_v : value;
  nd_key : Z;
  nd_next : Z;
  nd_keyhash : Z;
  nd_keytype : Z;
  nd_valuetype : Z;
  nd_nocolliding : bool
}.

(** [sizearray] and [sizehash] are the lengths of the lists. *)
Record table := MkTable {
  tb_arraytype : list Z;
  tb_array : list value;
  tb_hash : list node;
  tb_L : positive
}.

Record state := MkState { s_dirty : bool; s_ref : Z; s_root : positive }.

(** A Lua state: the table of strings and the counter of a copy that is being made, the
    strings on its stack, and the [struct state] at its bottom. *)
Record lua_State := MkLua {
  l_map : gmap (list Z) Z;
  l_string_index : Z;
  l_stack : gmap Z (list Z);
  l_state : option state
}.

Record ctrl := MkCtrl { c_root : option positive; c_update : option positive; c_value : option lvalue }.

Record shared := MkShared {
  sh_tables : gmap positive table;
  sh_states : gmap positive lua_State;
  sh_ctrls : gmap positive ctrl
}.

(** ** Steps that may raise an error *)

Notation M A := (stateM shared (string + A)) (only parsing).
Definition ret {A} (a : A) : M A := mret (inr a).
Definition luaL_error {A} (msg : string) : M A := mret (inl msg).
Definition try_bind {A B} (m : M A) (f : A → M B) : M B :=
  r ← m; match r with inl e => mret (inl e) | inr a => f a end.
Notation "x ⇐ m ; k" := (try_bind m (λ x, k)) (at level 20, m at level 100, k at level 200,
  format "x  ⇐  m ;  '/' k").
Notation "' x ⇐ m ; k" := (try_bind m (λ x, k)) (at level 20, x pattern, m at level 100,
  k at level 200, format "' x  ⇐  m ;  '/' k").
Definition undef {A} : M A := liftO Undef.
Definition lifts {A} (m : outcome A) : M A := a ← liftO m; ret a.

Definition set_tables m s : shared := MkShared m (sh_states s) (sh_ctrls s).
Definition set_states m s : shared := MkShared (sh_tables s) m (sh_ctrls s).
Definition set_ctrls m s : shared := MkShared (sh_tables s) (sh_states s) m.

(** Following a pointer. *)
Definition the_table (p : positive) : M table :=
  x ← gets (λ s, sh_tables s !! p); match x with Some x => ret x | None => undef end.
Definition put_table (p : positive) (x : table) : M unit :=
  modify (λ s, set_tables (<[p := x]> (sh_tables s)) s);; ret tt.
Definition the_lua (L : positive) : M lua_State :=
  x ← gets (λ s, sh_states s !! L); match x with Some x => ret x | None => undef end.
Definition put_lua (L : positive) (x : lua_State) : M unit :=
  modify (λ s, set_states (<[L := x]> (sh_states s)) s);; ret tt.
Definition the_ctrl (c : positive) : M ctrl :=
  x ← gets (λ s, sh_ctrls s !! c); match x with Some x => ret x | None => undef end.
Definition put_ctrl (c : positive) (x : ctrl) : M unit :=
  modify (λ s, set_ctrls (<[c := x]> (sh_ctrls s)) s);; ret tt.

Definition zlookup {A} (l : list A) (i : Z) : M A := lifts (aget l i).
Definition put_node (p : positive) (i : Z) (n : node) : M unit :=
  x ⇐ the_table p;
  h ⇐ lifts (aset (tb_hash x) i n);
  put_table p (MkTable (tb_arraytype x) (tb_array x) h (tb_L x)).
(** [n] with its value. *)
Definition set_value (v : value) (vt : Z) (n : node) : node :=
  MkNode v (nd_key n) (nd_next n) (nd_keyhash n) (nd_keytype n) vt (nd_nocolliding n).

Definition put_value (p : positive) (i : Z) (v : value) (vt : Z) : M unit :=
  x ⇐ the_table p;
  n ⇐ zlookup (tb_hash x) i;
  put_node p i (set_value v vt n).

Definition sizearray (x : table) : Z := zlen (tb_array x).
Definition sizehash (x : table) : Z := zlen (tb_hash x).

(** [%] of unsigned numbers. *)
Definition umod (a b : Z) : outcome Z := if b =? 0 then Undef else Ret (a mod b).

(** ** Strings *)

Fixpoint calchash_loop (fuel : nat) (str : list Z) (step l1 h : Z) : Z :=
  match fuel with
  | O => h
  | S fuel =>
      if l1 <? step then h
      else calchash_loop fuel str step (l1 - step)
             (Z.lxor h (u32 (u32 (Z.shiftl h 5) + Z.shiftr h 2 + nth (Z.to_nat (l1 - 1)) str 0)))
  end.

Definition calchash (str : list Z) : Z :=
  let l := zlen str in
  let step := Z.shiftr l 5 + 1 in
  calchash_loop (length str) str step l (u32 l).

Definition stringindex (L : positive) (str : list Z) : M Z :=
  x ⇐ the_lua L;
  match l_map x !! str with
  | Some index => ret index
  | None =>
      index ⇐ lifts (cint (l_string_index x + 1));
      put_lua L (MkLua (<[str := index]> (l_map x)) index (l_stack x) (l_state x));; ret index
  end.

Section conv.
(** The tables of Lua, the nodes that [malloc] gives, and how many C calls of Lua may be
    nested. *)
Context (heap : gmap positive ltable) (garbage : node) (max_calls : nat).

Definition lua_table (t : positive) : M ltable :=
  match heap !! t with Some x => ret x | None => undef end.

(** ** Copying a table *)

Fixpoint countsize (pairs : list (lvalue * lvalue)) (sizearray n : Z) : M Z :=
  match pairs with
  | [] => ret n
  | (k, _) :: pairs =>
      match k with
      | VInteger nkey => countsize pairs sizearray (if (0 <? nkey) && (nkey <=? sizearray) then n else n + 1)
      | VReal _ => luaL_error "Invalid key %f"
      | VString _ | VTable _ => countsize pairs sizearray (n + 1)
      | _ => luaL_error "Invalid key type %s"
      end
  end.

(** The tagged value of a Lua value. [conv] copies a table into a [struct table]. *)
Definition setvalue (conv : positive → positive → M unit) (L : positive) (v : lvalue) : M (value * Z) :=
  match v with
  | VNil => ret (UNone, VALUETYPE_NIL)
  | VInteger d => ret (UInteger d, VALUETYPE_INTEGER)
  | VReal n => ret (UNumber n, VALUETYPE_REAL)
  | VString str => i ⇐ stringindex L str; ret (UString i, VALUETYPE_STRING)
  | VBoolean b => ret (UBoolean b, VALUETYPE_BOOLEAN)
  | VTable t =>
      tbl ← gets (λ s, fresh (dom (sh_tables s)));
      _ ⇐ put_table tbl (MkTable [] [] [] L);
      _ ⇐ conv tbl t;
      ret (UTable tbl, VALUETYPE_TABLE)
  | _ => luaL_error "Unsupport value type %s"
  end.

Definition setarray (conv : positive → positive → M unit) (L tbl : positive) (v : lvalue) (key : Z) : M unit :=
  '(u, vt) ⇐ setvalue conv L v;
  x ⇐ the_table tbl;
  types ⇐ lifts (aset (tb_arraytype x) (key - 1) vt);
  arr ⇐ lifts (aset (tb_array x) (key - 1) u);
  put_table tbl (MkTable types arr (tb_hash x) (tb_L x)).

(** An index of the array, or key, hash and type for the hash. A key that is neither a
    number nor a string reads as the empty string. *)
Definition ishashkey (L tbl : positive) (k : lvalue) : M (Z + Z * Z * Z) :=
  x ⇐ the_table tbl;
  match k with
  | VInteger i =>
      let key := i32 i in
      if (0 <? key) && (key <=? sizearray x) then ret (inl key)
      else ret (inr (key, u32 key, KEYTYPE_INTEGER))
  | _ =>
      let s := match k with VString s => s | _ => [] end in
      i ⇐ stringindex L s;
      ret (inr (i, calchash s, KEYTYPE_STRING))
  end.

Fixpoint fillnocolliding (conv : positive → positive → M unit) (L tbl : positive) (pairs : list (lvalue * lvalue)) : M unit :=
  match pairs with
  | [] => ret tt
  | (k, v) :: pairs =>
      r ⇐ ishashkey L tbl k;
      _ ⇐ (match r with
           | inl key => setarray conv L tbl v key
           | inr (key, keyhash, keytype) =>
               x ⇐ the_table tbl;
               slot ⇐ lifts (umod keyhash (sizehash x));
               n ⇐ zlookup (tb_hash x) slot;
               if nd_valuetype n =? VALUETYPE_NIL then
                 let n := MkNode (nd_v n) key (-1) keyhash keytype (nd_valuetype n) true in
                 _ ⇐ put_node tbl slot n;
                 '(u, vt) ⇐ setvalue conv L v;
                 put_value tbl slot u vt
               else ret tt
           end);
      fillnocolliding conv L tbl pairs
  end.

(** The slot [i] goes behind [main] in the chain of [main]. *)
Definition link_node (tbl : positive) (main i : Z) : M unit :=
  x ⇐ the_table tbl;
  n ⇐ zlookup (tb_hash x) i;
  mainpos ⇐ zlookup (tb_hash x) main;
  _ ⇐ put_node tbl i (MkNode (nd_v n) (nd_key n) (nd_next mainpos) (nd_keyhash n) (nd_keytype n) (nd_valuetype n) (nd_nocolliding n));
  x ⇐ the_table tbl;
  mainpos ⇐ zlookup (tb_hash x) main;
  put_node tbl main (MkNode (nd_v mainpos) (nd_key mainpos) i (nd_keyhash mainpos) (nd_keytype mainpos) (nd_valuetype mainpos) false).

(** The first slot from [i] on that is free. *)
Fixpoint free_slot (hash : list node) (i : Z) (fuel : nat) : option Z :=
  match fuel with
  | O => None
  | S fuel =>
      match hash !! Z.to_nat i with
      | Some n => if nd_valuetype n =? VALUETYPE_NIL then Some i else free_slot hash (i + 1) fuel
      | None => None
      end
  end.

Fixpoint fillcolliding (conv : positive → positive → M unit) (L tbl : positive) (pairs : list (lvalue * lvalue))
    (emptyslot : Z) : M unit :=
  match pairs with
  | [] => ret tt
  | (k, v) :: pairs =>
      r ⇐ ishashkey L tbl k;
      match r with
      | inl _ => fillcolliding conv L tbl pairs emptyslot
      | inr (key, keyhash, keytype) =>
          x ⇐ the_table tbl;
          main ⇐ lifts (umod keyhash (sizehash x));
          mainpos ⇐ zlookup (tb_hash x) main;
          if (nd_keytype mainpos =? keytype) && (nd_key mainpos =? key) then fillcolliding conv L tbl pairs emptyslot
          else
            match free_slot (tb_hash x) emptyslot (length (tb_hash x)) with
            | None => liftO AssertFail
            | Some i =>
                _ ⇐ link_node tbl main i;
                x ⇐ the_table tbl;
                n ⇐ zlookup (tb_hash x) i;
                let n := MkNode (nd_v n) key (nd_next n) keyhash keytype (nd_valuetype n) false in
                _ ⇐ put_node tbl i n;
                '(u, vt) ⇐ setvalue conv L v;
                _ ⇐ put_value tbl i u vt;
                fillcolliding conv L tbl pairs (i + 1)
            end
      end
  end.

(** The elements of a table without other keys. *)
Fixpoint fillarray (conv : positive → positive → M unit) (L tbl : positive) (elements : list lvalue) (i : Z) : M unit :=
  match elements with
  | [] => ret tt
  | v :: elements => _ ⇐ setarray conv L tbl v i; fillarray conv L tbl elements (i + 1)
  end.

(** A node of a new hash. *)
Definition new_node : node :=
  MkNode (nd_v garbage) (nd_key garbage) (nd_next garbage) (nd_keyhash garbage) (nd_keytype garbage) VALUETYPE_NIL false.

(** [calls] more C calls may be nested in this one. *)
Fixpoint convtable (calls : nat) (L tbl t : positive) : M unit :=
  match calls with
  | O => luaL_error "C stack overflow"
  | S calls =>
      lt ⇐ lua_table t;
      let sizearray := zlen (t_array lt) in
      _ ⇐ put_table tbl (MkTable (replicate (length (t_array lt)) VALUETYPE_NIL) (replicate (length (t_array lt)) (nd_v garbage)) [] L);
      sizehash ⇐ countsize (t_next lt) sizearray 0;
      if 0 <? sizehash then
        x ⇐ the_table tbl;
        _ ⇐ put_table tbl (MkTable (tb_arraytype x) (tb_array x) (replicate (Z.to_nat sizehash) new_node) L);
        _ ⇐ fillnocolliding (convtable calls L) L tbl (t_next lt);
        fillcolliding (convtable calls L) L tbl (t_next lt) 0
      else fillarray (convtable calls L) L tbl (t_array lt) 1
  end.

(** ** Making and deleting a copy *)

(** A table with all tables in it: [fuel] is more than their levels. *)
Fixpoint delete_tbl (fuel : nat) (tbl : positive) : M unit :=
  match fuel with
  | O => liftO NoFuel
  | S fuel =>
      x ⇐ the_table tbl;
      let go := fix go (l : list (Z * value)) : M unit :=
        match l with
        | [] => ret tt
        | (vt, v) :: l =>
            _ ⇐ (if vt =? VALUETYPE_TABLE then match v with UTable q => delete_tbl fuel q | _ => undef end else ret tt);
            go l
        end in
      _ ⇐ go (zip (tb_arraytype x) (tb_array x));
      _ ⇐ go ((λ n, (nd_valuetype n, nd_v n)) <$> tb_hash x);
      modify (λ s, set_tables (delete tbl (sh_tables s)) s);; ret tt
  end.

Definition lua_close (L : positive) : M unit := modify (λ s, set_states (delete L (sh_states s)) s);; ret tt.

(** The strings go to the stack, at their indices. *)
Definition convert_stringmap (L tbl : positive) : M unit :=
  x ⇐ the_lua L;
  put_lua L (MkLua ∅ (l_string_index x) (list_to_map (prod_swap <$> map_to_list (l_map x))) (Some (MkState false 0 tbl))).

(** The stack of Lua has room for [max_strings] strings. *)
Definition pconv (max_strings : Z) (L tbl t : positive) : M unit :=
  _ ⇐ convtable max_calls L tbl t;
  x ⇐ the_lua L;
  if max_strings <? l_string_index x then luaL_error "stack overflow" else ret tt.

Definition lnewconf (max_strings : Z) (t : positive) : M positive :=
  L ← gets (λ s, fresh (dom (sh_states s)));
  _ ⇐ put_lua L (MkLua ∅ 1 ∅ None);
  tbl ← gets (λ s, fresh (dom (sh_tables s)));
  _ ⇐ put_table tbl (MkTable [] [] [] L);
  r ← pconv max_strings L tbl t;
  match r with
  | inr _ => _ ⇐ convert_stringmap L tbl; ret tbl
  | inl e => _ ⇐ lua_close L; _ ⇐ delete_tbl (S max_calls) tbl; luaL_error e
  end.
End conv.

(** A light userdata that may be null. *)
Definition get_table (tbl : option positive) : M positive :=
  match tbl with Some tbl => ret tbl | None => luaL_error "Need a conf object" end.

Definition ldeleteconf (fuel : nat) (tbl : option positive) : M unit :=
  tbl ⇐ get_table tbl;
  x ⇐ the_table tbl;
  _ ⇐ lua_close (tb_L x);
  delete_tbl fuel tbl.

(** ** Reading *)

(** What is pushed on the stack of Lua: a table is a light userdata. *)
Inductive pushed := PNil | PNumber (n : Z) | PInteger (d : Z) | PString (s : list Z) | PBoolean (b : bool) | PTable (tbl : positive).

Definition pushvalue (strs : gmap Z (list Z)) (vt : Z) (v : value) : outcome pushed :=
  if vt =? VALUETYPE_REAL then match v with UNumber n => Ret (PNumber n) | _ => Undef end
  else if vt =? VALUETYPE_INTEGER then match v with UInteger d => Ret (PInteger d) | _ => Undef end
  else if vt =? VALUETYPE_STRING then
    match v with UString i => match strs !! i with Some s => Ret (PString s) | None => Undef end | _ => Undef end
  else if vt =? VALUETYPE_BOOLEAN then match v with UBoolean b => Ret (PBoolean b) | _ => Undef end
  else if vt =? VALUETYPE_TABLE then match v with UTable p => Ret (PTable p) | _ => Undef end
  else Ret PNil.

Definition node_matches (strs : gmap Z (list Z)) (keyhash key keytype : Z) (str : list Z) (n : node) : bool :=
  (keyhash =? nd_keyhash n) &&
  (if nd_keytype n =? KEYTYPE_INTEGER then (keytype =? KEYTYPE_INTEGER) && (nd_key n =? key)
   else (keytype =? KEYTYPE_STRING) && bool_decide (str = default [] (strs !! nd_key n))).

Definition lookup_turn (hash : list node) (strs : gmap Z (list Z)) (keyhash key keytype : Z) (str : list Z) (i : Z)
    : outcome (Z + option Z) :=
  n ← aget hash i;
  if node_matches strs keyhash key keytype str n then Ret (inr (Some i))
  else if nd_next n <? 0 then Ret (inr None)
  else Ret (inl (nd_next n)).

(** The slot of a key. A chain is not longer than the hash. *)
Definition lookup_key (hash : list node) (strs : gmap Z (list Z)) (keyhash key keytype : Z) (str : list Z) : outcome (option Z) :=
  if zlen hash =? 0 then Ret None
  else
    i ← umod keyhash (zlen hash);
    n ← aget hash i;
    if negb (keyhash =? nd_keyhash n) && nd_nocolliding n then Ret None
    else loop (S (length hash)) (lookup_turn hash strs keyhash key keytype str) i.

(** Hash and type of a key that is not in the array. *)
Definition hash_of (k : lvalue) : M (Z * Z * Z * list Z) :=
  match k with
  | VInteger i => ret (i32 i, u32 (i32 i), KEYTYPE_INTEGER, [])
  | VString str => ret (0, calchash str, KEYTYPE_STRING, str)
  | _ => luaL_error "string expected"
  end.

Definition lindexconf (tbl : option positive) (k : lvalue) : M (option pushed) :=
  tbl ⇐ get_table tbl;
  x ⇐ the_table tbl;
  l ⇐ the_lua (tb_L x);
  let in_hash :=
    '(key, keyhash, keytype, str) ⇐ hash_of k;
    n ⇐ lifts (lookup_key (tb_hash x) (l_stack l) keyhash key keytype str);
    match n with
    | Some i => n ⇐ zlookup (tb_hash x) i; v ⇐ lifts (pushvalue (l_stack l) (nd_valuetype n) (nd_v n)); ret (Some v)
    | None => ret None
    end in
  match k with
  | VReal _ => luaL_error "Invalid key %f"
  | VInteger i =>
      let key := i32 i in
      if (0 <? key) && (key <=? sizearray x) then
        vt ⇐ zlookup (tb_arraytype x) (key - 1);
        u ⇐ zlookup (tb_array x) (key - 1);
        v ⇐ lifts (pushvalue (l_stack l) vt u); ret (Some v)
      else in_hash
  | _ => in_hash
  end.

Definition pushkey (strs : gmap Z (list Z)) (n : node) : outcome pushed :=
  if nd_keytype n =? KEYTYPE_INTEGER then Ret (PInteger (nd_key n))
  else match strs !! nd_key n with Some s => Ret (PString s) | None => Undef end.

Definition pushfirsthash (x : table) (strs : gmap Z (list Z)) : M (option pushed) :=
  if negb (sizehash x =? 0) then n ⇐ zlookup (tb_hash x) 0; v ⇐ lifts (pushkey strs n); ret (Some v)
  else ret None.

(** The first element from [i] on that is not nil. *)
Fixpoint next_element (types : list Z) (i : Z) : option Z :=
  match types with
  | [] => None
  | vt :: types => if negb (vt =? VALUETYPE_NIL) then Some (i + 1) else next_element types (i + 1)
  end.

Definition lnextkey (tbl : option positive) (k : lvalue) : M (option pushed) :=
  tbl ⇐ get_table tbl;
  x ⇐ the_table tbl;
  l ⇐ the_lua (tb_L x);
  let from i :=
    match next_element (drop (Z.to_nat i) (tb_arraytype x)) i with
    | Some i => ret (Some (PInteger i))
    | None => pushfirsthash x (l_stack l)
    end in
  let in_hash :=
    '(key, keyhash, keytype, str) ⇐ hash_of k;
    n ⇐ lifts (lookup_key (tb_hash x) (l_stack l) keyhash key keytype str);
    match n with
    | Some i =>
        if i + 1 =? sizehash x then ret None
        else n ⇐ zlookup (tb_hash x) (i + 1); v ⇐ lifts (pushkey (l_stack l) n); ret (Some v)
    | None => ret None
    end in
  match k with
  | VNil => from 0
  | VReal _ => ret None
  | VInteger i =>
      let key := i32 i in
      if (0 <? key) && (key <=? sizearray x) then from key else in_hash
  | _ => in_hash
  end.

Definition llen (tbl : option positive) : M Z := tbl ⇐ get_table tbl; x ⇐ the_table tbl; ret (sizearray x).
Definition lhashlen (tbl : option positive) : M Z := tbl ⇐ get_table tbl; x ⇐ the_table tbl; ret (sizehash x).

(** ** Boxes and references *)

(** The [struct state] of a copy, at the bottom of its Lua state. *)
Definition the_state (tbl : positive) : M (positive * lua_State * state) :=
  x ⇐ the_table tbl;
  l ⇐ the_lua (tb_L x);
  match l_state l with Some s => ret (tb_L x, l, s) | None => undef end.
Definition put_state (tbl : positive) (s : state) : M unit :=
  '(L, l, _) ⇐ the_state tbl;
  put_lua L (MkLua (l_map l) (l_string_index l) (l_stack l) (Some s)).

Definition add_ref (tbl : positive) (d : Z) : M Z :=
  '(_, _, s) ⇐ the_state tbl;
  _ ⇐ put_state tbl (MkState (s_dirty s) (i32 (s_ref s + d)) (s_root s));
  ret (i32 (s_ref s + d)).

Definition releaseobj (c : positive) : M unit :=
  x ⇐ the_ctrl c;
  match c_root x with
  | Some tbl => _ ⇐ add_ref tbl (-1); put_ctrl c (MkCtrl None None (c_value x))
  | None => undef
  end.

Definition lboxconf (tbl : option positive) : M positive :=
  tbl ⇐ get_table tbl;
  _ ⇐ add_ref tbl 1;
  c ← gets (λ s, fresh (dom (sh_ctrls s)));
  _ ⇐ put_ctrl c (MkCtrl (Some tbl) None None);
  ret c.

Definition lmarkdirty (tbl : option positive) : M unit :=
  tbl ⇐ get_table tbl;
  '(_, _, s) ⇐ the_state tbl;
  put_state tbl (MkState true (s_ref s) (s_root s)).

Definition lisdirty (tbl : option positive) : M bool :=
  tbl ⇐ get_table tbl; '(_, _, s) ⇐ the_state tbl; ret (s_dirty s).

Definition lgetref (tbl : option positive) : M Z :=
  tbl ⇐ get_table tbl; '(_, _, s) ⇐ the_state tbl; ret (s_ref s).

Definition lincref (tbl : option positive) : M Z := tbl ⇐ get_table tbl; add_ref tbl 1.
Definition ldecref (tbl : option positive) : M Z := tbl ⇐ get_table tbl; add_ref tbl (-1).

Definition lneedupdate (c : positive) : M (option (positive * option lvalue)) :=
  x ⇐ the_ctrl c;
  match c_update x with Some n => ret (Some (n, c_value x)) | None => ret None end.

(** [v] is the table that the service uses with the new copy. *)
Definition lupdate (c : positive) (n : option positive) (v : lvalue) : M unit :=
  x ⇐ the_ctrl c;
  if bool_decide (c_root x = n) then luaL_error "You should update a new object"
  else put_ctrl c (MkCtrl (c_root x) n (Some v)).

(** ** Runs without an error *)

(** [m] returns a value without an error of Lua. *)
Definition does {A} (m : M A) (Q : A → shared → Prop) (s : shared) : Prop :=
  ∃ a s', m s = Ret (inr a, s') ∧ Q a s'.

Lemma does_ret {A} (a : A) (Q : A → shared → Prop) s : Q a s → does (ret a) Q s.
Proof. intros H. by exists a, s. Qed.

Lemma does_bind {A B} (m : M A) (f : A → M B) Q s : does m (λ a s', does (f a) Q s') s → does (try_bind m f) Q s.
Proof.
  intros (a & s' & Hm & b & s'' & Hf & HQ). exists b, s''. split; [|done].
  unfold try_bind, mbind, stateM_mbind. rewrite Hm. done.
Qed.

Lemma does_mono {A} (m : M A) (Q Q' : A → shared → Prop) s : does m Q s → (∀ a s', Q a s' → Q' a s') → does m Q' s.
Proof. intros (a & s' & Hm & HQ) H. exists a, s'. auto. Qed.

Lemma does_lifts {A} (m : outcome A) a (Q : A → shared → Prop) s : m = Ret a → Q a s → does (lifts m) Q s.
Proof. intros -> HQ. by exists a, s. Qed.

Lemma does_gets {A B} (f : shared → A) (g : A → M B) Q s : does (g (f s)) Q s → does (a ← gets f; g a) Q s.
Proof. done. Qed.

Lemma does_table p x (Q : table → shared → Prop) s : sh_tables s !! p = Some x → Q x s → does (the_table p) Q s.
Proof. intros H HQ. exists x, s. split; [|done]. unfold the_table, gets, mbind, stateM_mbind. cbn. by rewrite H. Qed.

Lemma does_put_table p x (Q : unit → shared → Prop) s :
  Q tt (set_tables (<[p := x]> (sh_tables s)) s) → does (put_table p x) Q s.
Proof. intros HQ. by eexists _, _. Qed.

Lemma does_lua L x (Q : lua_State → shared → Prop) s : sh_states s !! L = Some x → Q x s → does (the_lua L) Q s.
Proof. intros H HQ. exists x, s. split; [|done]. unfold the_lua, gets, mbind, stateM_mbind. cbn. by rewrite H. Qed.

Lemma does_put_lua L x (Q : unit → shared → Prop) s :
  Q tt (set_states (<[L := x]> (sh_states s)) s) → does (put_lua L x) Q s.
Proof. intros HQ. by eexists _, _. Qed.

Definition with_hash (h : list node) (x : table) : table := MkTable (tb_arraytype x) (tb_array x) h (tb_L x).

Lemma does_put_node p i n x (Q : unit → shared → Prop) s :
  sh_tables s !! p = Some x → 0 ≤ i < zlen (tb_hash x) →
  Q tt (set_tables (<[p := with_hash (<[Z.to_nat i := n]> (tb_hash x)) x]> (sh_tables s)) s) → does (put_node p i n) Q s.
Proof.
  intros Hx Hi HQ. unfold put_node. apply does_bind. eapply does_table; [done|]. apply does_bind.
  eapply does_lifts; [by apply aset_in|]. by apply does_put_table.
Qed.

Lemma does_zlookup {A} (l : list A) i a (Q : A → shared → Prop) s :
  0 ≤ i → l !! Z.to_nat i = Some a → Q a s → does (zlookup l i) Q s.
Proof.
  intros Hi Ha HQ. eapply does_lifts; [|done].
  destruct (aget_in l i) as (x & -> & Hx); [pose proof (lookup_lt_Some _ _ _ Ha); unfold zlen; lia|]. congruence.
Qed.

(** ** Strings of a copy *)

Section strings.
(** The strings of all tables. *)
Context (S_ : gset (list Z)) (L : positive).

(** [sm] numbers the strings that have come, from 2 on. *)
Record numbered (sm : gmap (list Z) Z) : Prop := {
  nb_dom : dom sm ⊆ S_;
  nb_range : ∀ str i, sm !! str = Some i → 2 ≤ i ≤ 1 + Z.of_nat (size sm);
  nb_inj : ∀ str str' i, sm !! str = Some i → sm !! str' = Some i → str = str'
}.

Definition strings_at (s : shared) (sm : gmap (list Z) Z) : Prop :=
  ∃ l, sh_states s !! L = Some l ∧ l_map l = sm ∧ l_string_index l = 1 + Z.of_nat (size sm) ∧ numbered sm.

(** New tables and strings may have come since [s]. *)
Definition grown (s s' : shared) (sm sm' : gmap (list Z) Z) : Prop :=
  sh_tables s ⊆ sh_tables s' ∧ sm ⊆ sm' ∧ strings_at s' sm'.

Lemma does_stringindex str s sm (Q : Z → shared → Prop) :
  strings_at s sm → str ∈ S_ → 1 + Z.of_nat (size S_) ≤ INT_MAX →
  (∀ i s' sm', sh_tables s' = sh_tables s → sm ⊆ sm' → strings_at s' sm' → sm' !! str = Some i → Q i s') →
  does (stringindex L str) Q s.
Proof.
  intros (l & Hl & Hm & Hidx & [N1 N2 N3]) Hstr Hmax HQ. unfold stringindex. apply does_bind. eapply does_lua; [done|]. rewrite Hm.
  destruct (sm !! str) as [i|] eqn:Hi.
  - apply does_ret. eapply (HQ i s sm); [done..| |done]. by exists l.
  - assert (Hsize : (size sm + 1 ≤ size S_)%nat).
    { rewrite <-size_dom. transitivity (size (dom sm ∪ {[str]})); [|apply subseteq_size; set_solver].
      rewrite size_union, size_singleton; [lia|]. apply disjoint_singleton_r, not_elem_of_dom. done. }
    apply does_bind. eapply does_lifts; [apply cint_in; unfold INT_MIN, INT_MAX in *; lia|].
    exists (l_string_index l + 1). eexists. split; [reflexivity|].
    apply (HQ _ _ (<[str := l_string_index l + 1]> sm)); [done|by apply insert_subseteq| |apply lookup_insert_eq].
    eexists. split; [apply lookup_insert_eq|]. cbn. rewrite map_size_insert_None by done. split; [done|]. split; [lia|].
    split.
    + rewrite dom_insert. set_solver.
    + intros str' i. rewrite map_size_insert_None by done. destruct (decide (str = str')) as [<-|Hne].
      * rewrite lookup_insert_eq. intros [= <-]. lia.
      * rewrite lookup_insert_ne by done. intros H%N2. lia.
    + intros s1 s2 i. destruct (decide (str = s1)) as [<-|E1], (decide (str = s2)) as [<-|E2]; rewrite ?lookup_insert_eq, ?lookup_insert_ne by done.
      * done.
      * intros [= <-] H%N2. lia.
      * intros H%N2 [= <-]. lia.
      * apply N3.
Qed.
End strings.

(** ** What a copy shows of a table *)

Lemma i32_id i : INT_MIN ≤ i ≤ INT_MAX → i32 i = i.
Proof. unfold INT_MIN, INT_MAX, i32. intros. rewrite Z.mod_small; lia. Qed.

Section rep.
Context (heap : gmap positive ltable) (garbage : node) (S_ : gset (list Z)) (L : positive).
Context (Hfit : 1 + Z.of_nat (size S_) ≤ INT_MAX).
Implicit Types (sm : gmap (list Z) Z) (tabs : gmap positive table).

Definition key_ok (k : lvalue) : Prop :=
  match k with VInteger i => INT_MIN ≤ i ≤ INT_MAX | VString str => str ∈ S_ | _ => False end.

(** An index of the array of [len] elements. *)
Definition array_key (len : Z) (k : lvalue) : bool :=
  match k with VInteger i => (0 <? i) && (i <=? len) | _ => false end.

(** Tables as Lua has them, with keys that are integers of the size of an [int] or strings,
    and values that can be copied. *)
Record table_ok (lt : ltable) : Prop := {
  tk_keys : Forall (λ kv, key_ok kv.1) (t_next lt);
  tk_nodup : NoDup (t_next lt).*1;
  tk_nil : ∀ k, (k, VNil) ∉ t_next lt;
  tk_array : ∀ i v, 0 < i ≤ zlen (t_array lt) →
    (VInteger i, v) ∈ t_next lt ↔ t_array lt !! Z.to_nat (i - 1) = Some v ∧ v ≠ VNil;
  tk_len : zlen (t_array lt) ≤ INT_MAX
}.

(** A table of less than [n] levels. *)
Fixpoint nested (n : nat) (t : positive) : Prop :=
  match n with
  | O => False
  | S n => ∃ lt, heap !! t = Some lt ∧ table_ok lt ∧
      ∀ k v, (k, v) ∈ t_next lt →
        match v with
        | VInteger _ | VReal _ | VBoolean _ => True
        | VString str => str ∈ S_
        | VTable t => nested n t
        | _ => False
        end
  end.

Definition value_ok (n : nat) (v : lvalue) : Prop :=
  match v with
  | VNil | VInteger _ | VReal _ | VBoolean _ => True
  | VString str => str ∈ S_
  | VTable t => nested n t
  | _ => False
  end.

(** Key, hash and type of a key. *)
Definition enc sm (k : lvalue) : option (Z * Z * Z) :=
  match k with
  | VInteger i => Some (i, u32 i, KEYTYPE_INTEGER)
  | VString str => (λ i, (i, calchash str, KEYTYPE_STRING)) <$> sm !! str
  | _ => None
  end.

Definition vrep sm (R : positive → positive → Prop) (v : lvalue) (u : value) (vt : Z) : Prop :=
  match v with
  | VNil => vt = VALUETYPE_NIL
  | VInteger d => u = UInteger d ∧ vt = VALUETYPE_INTEGER
  | VReal n => u = UNumber n ∧ vt = VALUETYPE_REAL
  | VBoolean b => u = UBoolean b ∧ vt = VALUETYPE_BOOLEAN
  | VString str => ∃ i, sm !! str = Some i ∧ u = UString i ∧ vt = VALUETYPE_STRING
  | VTable t => ∃ q, u = UTable q ∧ vt = VALUETYPE_TABLE ∧ R q t
  | _ => False
  end.

Definition array_rep sm R (x : table) (lt : ltable) : Prop :=
  zlen (tb_array x) = zlen (t_array lt) ∧ length (tb_arraytype x) = length (t_array lt) ∧
  ∀ i v, t_array lt !! i = Some v → ∃ u vt, tb_array x !! i = Some u ∧ tb_arraytype x !! i = Some vt ∧ vrep sm R v u vt.

(** The pairs that go to the hash. *)
Definition hash_pairs (lt : ltable) : list (lvalue * lvalue) :=
  filter (λ kv, array_key (zlen (t_array lt)) kv.1 = false) (t_next lt).

Definition key_at (n : node) (e : Z * Z * Z) : Prop := (nd_key n, nd_keyhash n, nd_keytype n) = e.

(** The slots from [i] to the end of its chain. *)
Inductive walk (hash : list node) : Z → list Z → Prop :=
  | walk_end i n : 0 ≤ i → hash !! Z.to_nat i = Some n → nd_next n < 0 → walk hash i [i]
  | walk_next i n l : 0 ≤ i → hash !! Z.to_nat i = Some n → 0 ≤ nd_next n → walk hash (nd_next n) l → walk hash i (i :: l).

Definition main_of (hash : list node) (keyhash : Z) : Z := keyhash mod zlen hash.

(** Every slot has a pair, and every pair a slot on the chain of its key. *)
Record hash_rep sm (R : positive → positive → Prop) (hash : list node) (pairs : list (lvalue * lvalue)) : Prop := {
  hr_pairs : ∀ k v, (k, v) ∈ pairs → ∃ i n e, hash !! Z.to_nat i = Some n ∧ enc sm k = Some e ∧ key_at n e ∧
    vrep sm R v (nd_v n) (nd_valuetype n) ∧ ∃ l, walk hash (main_of hash (nd_keyhash n)) l ∧ i ∈ l;
  hr_slots : ∀ i n, hash !! i = Some n → ∃ k v e, (k, v) ∈ pairs ∧ enc sm k = Some e ∧ key_at n e ∧
    vrep sm R v (nd_v n) (nd_valuetype n);
  hr_length : zlen hash = zlen pairs;
  hr_walk : ∀ i, 0 ≤ i < zlen hash → ∃ l, walk hash i l ∧ zlen l ≤ zlen hash;
  hr_alone : ∀ i n, hash !! i = Some n → nd_nocolliding n = true → nd_next n < 0
}.

Fixpoint trep (n : nat) tabs sm (q t : positive) : Prop :=
  match n with
  | O => False
  | S n => ∃ x lt, tabs !! q = Some x ∧ heap !! t = Some lt ∧ tb_L x = L ∧ table_ok lt ∧
      array_rep sm (trep n tabs sm) x lt ∧ hash_rep sm (trep n tabs sm) (tb_hash x) (hash_pairs lt)
  end.

Lemma enc_mono sm sm' k e : sm ⊆ sm' → enc sm k = Some e → enc sm' k = Some e.
Proof.
  intros Hsm. destruct k; try done. cbn. intros (i & Hi & ->)%fmap_Some. erewrite lookup_weaken by done. done.
Qed.

Lemma enc_inj sm k k' key h h' kt : numbered S_ sm → enc sm k = Some (key, h, kt) → enc sm k' = Some (key, h', kt) → k = k'.
Proof.
  intros Hn. destruct k as [| |i| |str| | |]; try done; destruct k' as [| |i'| |str'| | |]; try done; cbn.
  - by intros [= -> _ _] [= ->].
  - intros [= _ _ <-] (j & _ & [=])%fmap_Some.
  - intros (j & _ & [= _ _ ->])%fmap_Some [=].
  - intros (j & Hj & [= -> _ _])%fmap_Some (j' & Hj' & [= <- _])%fmap_Some. f_equal. by eapply (nb_inj _ _ Hn).
Qed.

Lemma vrep_mono sm sm' (R R' : positive → positive → Prop) v u vt : sm ⊆ sm' → (∀ q t, R q t → R' q t) →
  vrep sm R v u vt → vrep sm' R' v u vt.
Proof.
  intros Hsm HR. destruct v; try done; cbn.
  - intros (i & Hi & H). exists i. split; [by eapply lookup_weaken|done].
  - intros (q & ? & ? & ?). exists q. auto.
Qed.

Lemma array_rep_mono sm sm' (R R' : positive → positive → Prop) x lt : sm ⊆ sm' → (∀ q t, R q t → R' q t) →
  array_rep sm R x lt → array_rep sm' R' x lt.
Proof.
  intros Hsm HR (H1 & H0 & H2). split_and!; [done..|]. intros i v Hv. destruct (H2 i v Hv) as (u & vt & ? & ? & ?).
  exists u, vt. split_and!; [done..|by eapply vrep_mono].
Qed.

Lemma hash_rep_mono sm sm' (R R' : positive → positive → Prop) hash pairs : sm ⊆ sm' → (∀ q t, R q t → R' q t) →
  hash_rep sm R hash pairs → hash_rep sm' R' hash pairs.
Proof.
  intros Hsm HR [H1 H2 H3 H4 H5]. split; try done.
  - intros k v Hkv. destruct (H1 k v Hkv) as (i & n & e & ? & ? & ? & ? & ?). exists i, n, e.
    split_and!; [done|by eapply enc_mono|done|by eapply vrep_mono|done].
  - intros i n Hn. destruct (H2 i n Hn) as (k & v & e & ? & ? & ? & ?). exists k, v, e. split_and!; [done|by eapply enc_mono|done|by eapply vrep_mono].
Qed.

Lemma trep_mono n tabs tabs' sm sm' q t : tabs ⊆ tabs' → sm ⊆ sm' → trep n tabs sm q t → trep n tabs' sm' q t.
Proof.
  intros Ht Hsm. revert q t. induction n as [|n IH]; intros q t; [done|]. cbn. intros (x & lt & Hq & ? & ? & ? & Ha & Hh).
  exists x, lt. split_and!; [by eapply lookup_weaken|done..| |]; [by eapply array_rep_mono, Ha|by eapply hash_rep_mono, Hh].
Qed.

(** ** Keys and values *)

Notation strings_at := (strings_at S_ L).
Notation grown := (grown S_ L).

Lemma does_ishashkey tbl x k s sm (Q : Z + Z * Z * Z → shared → Prop) :
  strings_at s sm → sh_tables s !! tbl = Some x → key_ok k → sizearray x ≤ INT_MAX →
  (∀ i, k = VInteger i → 0 < i ≤ sizearray x → Q (inl i) s) →
  (array_key (sizearray x) k = false → ∀ s' sm' key h kt, sh_tables s' = sh_tables s → sm ⊆ sm' → strings_at s' sm' →
     enc sm' k = Some (key, h, kt) → Q (inr (key, h, kt)) s') →
  does (ishashkey L tbl k) Q s.
Proof.
  intros Hs Hx Hk Hlen HQ1 HQ2. unfold ishashkey. apply does_bind. eapply does_table; [done|].
  destruct k as [| |i| |str| | |]; try done; cbn in Hk, HQ2.
  - rewrite i32_id by done. destruct ((0 <? i) && (i <=? sizearray x)) eqn:E.
    + apply andb_true_iff in E as [E1%Z.ltb_lt E2%Z.leb_le]. apply does_ret. by apply HQ1.
    + apply does_ret. by eapply HQ2.
  - apply does_bind. eapply does_stringindex; [exact Hs|done|done|]. intros i s' sm' Ht Hsm Hs' Hi. apply does_ret.
    eapply HQ2; try done. cbn. by rewrite Hi.
Qed.

(** What [convtable] does with a table of less than [n] levels. *)
Definition conv_spec (n : nat) (conv : positive → positive → M unit) : Prop :=
  ∀ s sm q t x, strings_at s sm → sh_tables s !! q = Some x → nested n t →
    does (conv q t) (λ _ s', ∃ sm', sm ⊆ sm' ∧ strings_at s' sm' ∧ delete q (sh_tables s) ⊆ sh_tables s' ∧ is_Some (sh_tables s' !! q) ∧
      trep n (sh_tables s' ∖ delete q (sh_tables s)) sm' q t) s.

Lemma does_setvalue n conv v s sm (Q : value * Z → shared → Prop) :
  conv_spec n conv → strings_at s sm → value_ok n v →
  (∀ u vt s' sm', grown s s' sm sm' → vrep sm' (trep n (sh_tables s' ∖ sh_tables s) sm') v u vt →
     (v ≠ VNil → vt ≠ VALUETYPE_NIL) → Q (u, vt) s') →
  does (setvalue conv L v) Q s.
Proof.
  intros Hconv Hs Hv HQ. assert (Hg : grown s s sm sm) by by split.
  destruct v as [|b|d|r|str| |t|]; try done; cbn in Hv; unfold setvalue.
  - apply does_ret. by apply (HQ _ _ s sm).
  - apply does_ret. by apply (HQ _ _ s sm).
  - apply does_ret. by apply (HQ _ _ s sm).
  - apply does_ret. by apply (HQ _ _ s sm).
  - apply does_bind. eapply does_stringindex; [exact Hs|done|done|]. intros i s' sm' Ht Hsm Hs' Hi. apply does_ret.
    apply (HQ _ _ s' sm'); [by split; [rewrite Ht|]| |done]. by exists i.
  - apply does_gets. set (tbl := fresh (dom (sh_tables s))).
    assert (Hfresh : sh_tables s !! tbl = None) by (apply not_elem_of_dom, is_fresh).
    apply does_bind, does_put_table, does_bind. set (s1 := set_tables _ s).
    eapply does_mono; [apply (Hconv s1 sm tbl t (MkTable [] [] [] L)); [done|apply lookup_insert_eq|done]|].
    intros _ s' (sm' & Hsm & Hs' & Hsub & Htbl & Hrep). cbn [s1 sh_tables set_tables] in Hsub, Hrep. rewrite delete_insert_id in Hsub, Hrep by done.
    apply does_ret. apply (HQ _ _ s' sm'); [by split| |done]. by exists tbl.
Qed.
End rep.

(** ** A table while it is filled *)

Section work.
Context (heap : gmap positive ltable) (S_ : gset (list Z)) (L : positive).
Context (Hfit : 1 + Z.of_nat (size S_) ≤ INT_MAX).
Context (n : nat) (conv : positive → positive → M unit) (tbl : positive) (s0 : shared).
Context (Hconv : conv_spec heap S_ L n conv) (Htbl : is_Some (sh_tables s0 !! tbl)).
Implicit Types (s : shared) (sm : gmap (list Z) Z).
Notation strings_at := (strings_at S_ L).

(** The strings [sm] and the table [x]; all other tables of [s0] are as they were. *)
Definition work s sm (x : table) : Prop :=
  strings_at s sm ∧ sh_tables s !! tbl = Some x ∧ delete tbl (sh_tables s0) ⊆ sh_tables s.

(** The tables made since [s0]. *)
Definition made s sm : positive → positive → Prop := trep heap S_ L n (sh_tables s ∖ sh_tables s0) sm.

Definition more s s' sm sm' : Prop := sm ⊆ sm' ∧ ∀ q t, made s sm q t → made s' sm' q t.

Lemma more_refl s sm : more s s sm sm.
Proof. by split. Qed.

Lemma more_trans s1 s2 s3 sm1 sm2 sm3 : more s1 s2 sm1 sm2 → more s2 s3 sm2 sm3 → more s1 s3 sm1 sm3.
Proof. intros [H1 H2] [H3 H4]. split; [by etransitivity|auto]. Qed.

Lemma difference_mono (m1 m2 m : gmap positive table) : (∀ q x, q ∉ dom m → m1 !! q = Some x → m2 !! q = Some x) → m1 ∖ m ⊆ m2 ∖ m.
Proof.
  intros H. apply map_subseteq_spec. intros q x [Hq Hm]%lookup_difference_Some. apply lookup_difference_Some. split; [|done].
  apply H; [by apply not_elem_of_dom|done].
Qed.

Lemma work_put s sm x x' : work s sm x →
  let s' := set_tables (<[tbl := x']> (sh_tables s)) s in work s' sm x' ∧ more s s' sm sm.
Proof.
  intros (H1 & H2 & H3) s'. split.
  - split; [done|]. cbn. split; [apply lookup_insert_eq|]. apply map_subseteq_spec. intros q y Hq.
    destruct (decide (tbl = q)) as [<-|Hne]; [by rewrite lookup_delete_eq in Hq|]. rewrite lookup_insert_ne by done.
    by eapply lookup_weaken.
  - split; [done|]. intros q t. apply trep_mono; [|done]. apply difference_mono. intros q' y Hq' Hy. cbn.
    rewrite lookup_insert_ne; [done|]. intros <-. apply Hq'. by apply elem_of_dom.
Qed.

Lemma does_put x' s sm x (Q : unit → shared → Prop) : work s sm x →
  (∀ s', work s' sm x' → more s s' sm sm → Q tt s') → does (put_table tbl x') Q s.
Proof. intros Hw HQ. apply does_put_table. by apply HQ; eapply (work_put s sm x x'). Qed.

Lemma does_node i nd s sm x (Q : unit → shared → Prop) : work s sm x → 0 ≤ i < zlen (tb_hash x) →
  (∀ s', work s' sm (with_hash (<[Z.to_nat i := nd]> (tb_hash x)) x) → more s s' sm sm → Q tt s') → does (put_node tbl i nd) Q s.
Proof.
  intros Hw Hi HQ. eapply does_put_node; [apply Hw|done|]. apply HQ; by eapply (work_put s sm x).
Qed.

Lemma does_value v s sm x (Q : value * Z → shared → Prop) : work s sm x → value_ok heap S_ n v →
  (∀ u vt s' sm', work s' sm' x → more s s' sm sm' → vrep sm' (made s' sm') v u vt → (v ≠ VNil → vt ≠ VALUETYPE_NIL) → Q (u, vt) s') →
  does (setvalue conv L v) Q s.
Proof.
  intros (H1 & H2 & H3) Hv HQ. eapply does_setvalue; [done..|]. intros u vt s' sm' (G1 & G2 & G3) Hrep Hnil.
  apply (HQ u vt s' sm'); [|split; [done|]| |done].
  - split_and!; [done|by eapply lookup_weaken|by etransitivity].
  - intros q t. apply trep_mono; [|done]. apply difference_mono. intros q' y _ Hy. by eapply lookup_weaken.
  - eapply (vrep_mono sm' sm'); [done| |exact Hrep]. intros q t. apply trep_mono; [|done].
    apply map_subseteq_spec. intros q' y [Hq Hs]%lookup_difference_Some. apply lookup_difference_Some. split; [done|].
    destruct (sh_tables s0 !! q') as [z|] eqn:E; [|done]. destruct (decide (tbl = q')) as [<-|Hne]; [congruence|].
    rewrite <-(lookup_delete_ne (sh_tables s0) tbl q' Hne) in E. by rewrite (lookup_weaken _ _ _ _ E H3) in Hs.
Qed.

Lemma does_key k s sm x (Q : Z + Z * Z * Z → shared → Prop) : work s sm x → key_ok S_ k → sizearray x ≤ INT_MAX →
  (∀ i, k = VInteger i → 0 < i ≤ sizearray x → Q (inl i) s) →
  (array_key (sizearray x) k = false → ∀ s' sm' key h kt, work s' sm' x → more s s' sm sm' → enc sm' k = Some (key, h, kt) → Q (inr (key, h, kt)) s') →
  does (ishashkey L tbl k) Q s.
Proof.
  intros (H1 & H2 & H3) Hk Hlen HQ1 HQ2. eapply does_ishashkey; [done..|]. intros Ha s' sm' key h kt Ht Hsm Hs' He.
  eapply HQ2; [done| |split; [done|]|done].
  - split; [done|]. by rewrite Ht.
  - intros q t. unfold made. rewrite Ht. by apply trep_mono.
Qed.

(** The elements [done_] of the array have been copied. *)
Definition array_state sm R (x : table) (lt : ltable) (done_ : gset nat) : Prop :=
  zlen (tb_array x) = zlen (t_array lt) ∧ length (tb_arraytype x) = length (t_array lt) ∧
  ∀ i v, t_array lt !! i = Some v → ∃ u vt, tb_array x !! i = Some u ∧ tb_arraytype x !! i = Some vt ∧
    if bool_decide (i ∈ done_) then vrep sm R v u vt else vt = VALUETYPE_NIL.

Lemma array_state_mono s s' sm sm' x x' lt done_ : more s s' sm sm' → tb_array x' = tb_array x → tb_arraytype x' = tb_arraytype x →
  array_state sm (made s sm) x lt done_ → array_state sm' (made s' sm') x' lt done_.
Proof.
  intros [Hsm HR] Ha Ht (H1 & H2 & H3). unfold array_state. rewrite Ha, Ht. split_and!; [done..|]. intros i v Hv.
  destruct (H3 i v Hv) as (u & vt & ? & ? & H). exists u, vt. split_and!; [done..|]. case_bool_decide; [|done]. by eapply vrep_mono.
Qed.

Lemma does_setarray v key s sm x lt done_ (Q : unit → shared → Prop) :
  work s sm x → array_state sm (made s sm) x lt done_ → 0 < key ≤ zlen (t_array lt) → t_array lt !! Z.to_nat (key - 1) = Some v →
  value_ok heap S_ n v →
  (∀ s' sm' x', work s' sm' x' → more s s' sm sm' → tb_hash x' = tb_hash x → tb_L x' = tb_L x →
     array_state sm' (made s' sm') x' lt ({[Z.to_nat (key - 1)]} ∪ done_) → Q tt s') →
  does (setarray conv L tbl v key) Q s.
Proof.
  intros Hw Ha Hkey Hv Hok HQ. unfold setarray. apply does_bind. eapply does_value; [done..|]. intros u vt s1 sm1 Hw1 Hmore Hrep _.
  apply does_bind. eapply does_table; [apply Hw1|]. destruct Ha as (A1 & A2 & A3).
  apply does_bind. eapply does_lifts; [apply aset_in; unfold zlen in *; lia|].
  apply does_bind. eapply does_lifts; [apply aset_in; unfold zlen in *; lia|].
  eapply does_put; [exact Hw1|]. intros s2 Hw2 Hmore2. pose proof (more_trans _ _ _ _ _ _ Hmore Hmore2) as Hm.
  eapply (HQ s2 sm1 _ Hw2 Hm); [done..|]. split; [cbn; by rewrite zlen_insert|]. split; [cbn; by rewrite length_insert|].
  cbn. intros i v' Hv'. destruct (decide (i = Z.to_nat (key - 1))) as [->|Hne].
  - rewrite bool_decide_true by set_solver. rewrite Hv in Hv'. injection Hv' as <-. exists u, vt.
    split_and!; [apply list_lookup_insert_eq; unfold zlen in *; lia..|].
    eapply (vrep_mono sm1 sm1); [done|apply Hmore2|exact Hrep].
  - destruct (A3 i v' Hv') as (u' & vt' & E1 & E2 & E3). exists u', vt'. rewrite !list_lookup_insert_ne by done.
    split_and!; [done..|]. rewrite (bool_decide_ext _ (i ∈ done_)) by set_solver. case_bool_decide; [|done]. by eapply vrep_mono; [apply Hm|apply Hm|].
Qed.
End work.

(** ** A hash while it is filled *)

Lemma walk_frame hash hash' i l : walk hash i l → (∀ j, j ∈ l → hash' !! Z.to_nat j = hash !! Z.to_nat j) → walk hash' i l.
Proof.
  induction 1 as [i n Hi Hn Hnx|i n l Hi Hn Hnx Hw IH]; intros Hf.
  - eapply walk_end; [done| |done]. by rewrite Hf by left.
  - eapply walk_next; [done|by rewrite Hf by left|done|]. apply IH. intros j Hj. apply Hf. by right.
Qed.

Lemma walk_in hash i l j : walk hash i l → j ∈ l → 0 ≤ j < zlen hash.
Proof.
  induction 1 as [i n Hi Hn Hnx|i n l Hi Hn Hnx Hw IH]; rewrite ?elem_of_cons, ?elem_of_nil.
  - intros [->|[]]. apply lookup_lt_Some in Hn. unfold zlen. lia.
  - intros [->|?]; [|by apply IH]. apply lookup_lt_Some in Hn. unfold zlen. lia.
Qed.

Lemma walk_head hash i l : walk hash i l → ∃ l', l = i :: l'.
Proof. destruct 1; by eexists. Qed.

Lemma walk_suffix hash i l j : walk hash i l → j ∈ l → ∃ l', walk hash j l' ∧ l' `suffix_of` l.
Proof.
  induction 1 as [i n Hi Hn Hnx|i n l Hi Hn Hnx Hw IH]; rewrite ?elem_of_cons, ?elem_of_nil.
  - intros [->|[]]. exists [i]. split; [by eapply walk_end|done].
  - intros [->|Hj]; [exists (i :: l); split; [by eapply walk_next|done]|]. destruct (IH Hj) as (l' & Hl' & Hs).
    exists l'. split; [done|]. by apply suffix_cons_r.
Qed.

(** The pairs [E] are in their slots, chained by their main slots. *)
Record built sm (R : positive → positive → Prop) (hash : list node) (pairs : list (lvalue * lvalue))
    (E : list (Z * (lvalue * lvalue))) (chains : list (list Z)) : Prop := {
  b_nodes : ∀ i k v, (i, (k, v)) ∈ E → ∃ nd e, hash !! Z.to_nat i = Some nd ∧ enc sm k = Some e ∧ key_at nd e ∧
    vrep sm R v (nd_v nd) (nd_valuetype nd) ∧ nd_valuetype nd ≠ VALUETYPE_NIL;
  b_slots : E.*1 ≡ₚ mjoin chains;
  b_nodup : NoDup E.*1;
  b_free : ∀ i nd, hash !! i = Some nd → Z.of_nat i ∉ E.*1 → nd_valuetype nd = VALUETYPE_NIL;
  b_pairs : NoDup E.*2;
  b_sub : E.*2 ⊆ pairs;
  b_chain : ∀ c, c ∈ chains → ∃ m, walk hash m c ∧
    ∀ i nd, i ∈ c → hash !! Z.to_nat i = Some nd → main_of hash (nd_keyhash nd) = m;
  b_alone : ∀ i nd, i ∈ E.*1 → hash !! Z.to_nat i = Some nd → nd_nocolliding nd = true → nd_next nd < 0
}.

Lemma built_mono sm sm' (R R' : positive → positive → Prop) hash pairs E chains : sm ⊆ sm' → (∀ q t, R q t → R' q t) →
  built sm R hash pairs E chains → built sm' R' hash pairs E chains.
Proof.
  intros Hsm HR [H1 H2 H3 H4 H5 H6 H7 H8]. split; try done. intros i k v Hi. destruct (H1 i k v Hi) as (nd & e & ? & ? & ? & ? & ?).
  exists nd, e. split_and!; [done|by eapply enc_mono|done|by eapply vrep_mono|done].
Qed.

Lemma built_in sm R hash pairs E chains i : built sm R hash pairs E chains → i ∈ E.*1 → 0 ≤ i < zlen hash.
Proof.
  intros Hb Hi. rewrite (b_slots _ _ _ _ _ _ Hb) in Hi. apply list_elem_of_join in Hi as (c & Hi & Hc).
  destruct (b_chain _ _ _ _ _ _ Hb c Hc) as (m & Hw & _). by eapply walk_in.
Qed.

(** A slot of its own: the main slot of the key was free. *)
Lemma built_main sm R hash pairs E chains i k v e nd : built sm R hash pairs E chains →
  0 ≤ i < zlen hash → i ∉ E.*1 → enc sm k = Some e → key_at nd e → main_of hash (nd_keyhash nd) = i → nd_next nd < 0 →
  vrep sm R v (nd_v nd) (nd_valuetype nd) → nd_valuetype nd ≠ VALUETYPE_NIL → (k, v) ∈ pairs → (k, v) ∉ E.*2 →
  built sm R (<[Z.to_nat i := nd]> hash) pairs ((i, (k, v)) :: E) ([i] :: chains).
Proof.
  intros Hb Hi Hfree He Hk Hmain Hnext Hv Hvt Hin Hnew. pose proof Hb as [H1 H2 H3 H4 H5 H6 H7 H8].
  assert (Hi' : (Z.to_nat i < length hash)%nat) by (unfold zlen in Hi; lia).
  assert (Hother : ∀ j, j ∈ E.*1 → <[Z.to_nat i := nd]> hash !! Z.to_nat j = hash !! Z.to_nat j).
  { intros j Hj. apply list_lookup_insert_ne. intros E1. pose proof (built_in _ _ _ _ _ _ j Hb Hj). assert (i = j) as -> by lia. done. }
  assert (Hsize : zlen (<[Z.to_nat i := nd]> hash) = zlen hash) by apply zlen_insert.
  assert (Hm : ∀ h, main_of (<[Z.to_nat i := nd]> hash) h = main_of hash h) by (intros h; unfold main_of; by rewrite Hsize).
  split.
  - intros j k' v'. rewrite elem_of_cons. intros [[= -> -> ->]|Hj].
    + exists nd, e. split_and!; [by apply list_lookup_insert_eq|done..].
    + rewrite Hother by (apply list_elem_of_fmap; by eexists (_, _)). by apply H1.
  - cbn. by rewrite H2.
  - cbn. by constructor.
  - intros j nd' Hj Hno. cbn in Hno. apply not_elem_of_cons in Hno as [N1 N2].
    rewrite list_lookup_insert_ne in Hj by lia. by eapply H4.
  - cbn. by constructor.
  - cbn. intros kv. rewrite elem_of_cons. intros [->|?]; [done|by apply H6].
  - intros c. rewrite elem_of_cons. intros [->|Hc].
    + exists i. split; [eapply walk_end; [lia|by apply list_lookup_insert_eq|done]|].
      intros j nd'. rewrite elem_of_cons, elem_of_nil. intros [->|[]]. rewrite list_lookup_insert_eq by done. intros [= <-]. by rewrite Hm.
    + destruct (H7 c Hc) as (m & Hw & Hmm). exists m.
      assert (Hcin : ∀ j, j ∈ c → j ∈ E.*1) by (intros j Hj; rewrite H2; apply list_elem_of_join; by exists c).
      split; [eapply walk_frame; [done|auto]|]. intros j nd' Hj. rewrite Hother, Hm by auto. by apply Hmm.
  - intros j nd'. cbn. rewrite elem_of_cons. intros [->|Hj].
    + rewrite list_lookup_insert_eq by done. intros [= <-] _. done.
    + rewrite Hother by done. by apply H8.
Qed.

(** A free slot, put into the chain of the main slot of the key. *)
Lemma built_link sm R hash pairs E chains j m k v e nd mp : built sm R hash pairs E chains →
  0 ≤ j < zlen hash → j ∉ E.*1 → m ∈ E.*1 → hash !! Z.to_nat m = Some mp → main_of hash (nd_keyhash mp) = m →
  enc sm k = Some e → key_at nd e → main_of hash (nd_keyhash nd) = m → nd_next nd = nd_next mp → nd_nocolliding nd = false →
  vrep sm R v (nd_v nd) (nd_valuetype nd) → nd_valuetype nd ≠ VALUETYPE_NIL → (k, v) ∈ pairs → (k, v) ∉ E.*2 →
  let mp' := MkNode (nd_v mp) (nd_key mp) j (nd_keyhash mp) (nd_keytype mp) (nd_valuetype mp) false in
  ∃ chains', built sm R (<[Z.to_nat j := nd]> (<[Z.to_nat m := mp']> hash)) pairs ((j, (k, v)) :: E) chains'.
Proof.
  intros Hb Hj Hfree Hm Hmp Hmain He Hk Hmain' Hnext Hnc Hv Hvt Hin Hnew mp'. pose proof Hb as [H1 H2 H3 H4 H5 H6 H7 H8].
  set (hash' := <[Z.to_nat j := nd]> _). pose proof (built_in _ _ _ _ _ _ m Hb Hm) as Hmr.
  assert (Hjm : j ≠ m) by (intros ->; done).
  assert (Hj' : hash' !! Z.to_nat j = Some nd) by (apply list_lookup_insert_eq; rewrite length_insert; unfold zlen in Hj; lia).
  assert (Hm' : hash' !! Z.to_nat m = Some mp').
  { unfold hash'. rewrite list_lookup_insert_ne by lia. apply list_lookup_insert_eq. unfold zlen in Hmr. lia. }
  assert (Hother : ∀ i, 0 ≤ i → i ≠ j → i ≠ m → hash' !! Z.to_nat i = hash !! Z.to_nat i).
  { intros i H0 E1 E2. unfold hash'. by rewrite !list_lookup_insert_ne by lia. }
  assert (Hmo : ∀ h, main_of hash' h = main_of hash h) by (intros h; unfold main_of, hash'; by rewrite !zlen_insert).
  assert (Hin0 : ∀ i, i ∈ E.*1 → 0 ≤ i) by (intros i Hi; pose proof (built_in _ _ _ _ _ _ i Hb Hi); lia).
  assert (Hc : ∃ rest others, chains ≡ₚ (m :: rest) :: others ∧ walk hash m (m :: rest)).
  { rewrite H2 in Hm. apply list_elem_of_join in Hm as (c & Hmc & Hc). destruct (H7 c Hc) as (m0 & Hw & Hmm).
    pose proof (Hmm m mp Hmc Hmp) as E0. rewrite Hmain in E0. subst m0. destruct (walk_head _ _ _ Hw) as (rest & ->).
    apply elem_of_Permutation in Hc as (others & Hc). by exists rest, others. }
  destruct Hc as (rest & others & Hperm & Hw). rewrite Hperm in H2. cbn [mjoin list_join] in H2.
  assert (Hnd : NoDup ((m :: rest) ++ mjoin others)) by (by rewrite <-H2).
  assert (Hrest : ∀ i, i ∈ rest ++ mjoin others → i ≠ m ∧ i ≠ j ∧ 0 ≤ i).
  { intros i Hi. cbn in Hnd. apply NoDup_cons in Hnd as [N1 _]. assert (i ∈ E.*1) by (rewrite H2; by right).
    split_and!; [by intros ->|by intros ->|auto]. }
  exists ((m :: j :: rest) :: others). split.
  - intros i k' v'. rewrite elem_of_cons. intros [[= -> -> ->]|Hi]; [by exists nd, e|].
    destruct (H1 i k' v' Hi) as (nd' & e' & G1 & G2 & G3 & G4 & G5). assert (Hi' : i ∈ E.*1) by (apply list_elem_of_fmap; by eexists (_, _)).
    destruct (decide (i = m)) as [->|Hne].
    + rewrite Hmp in G1. injection G1 as <-. exists mp', e'. by split_and!.
    + exists nd', e'. split; [|done]. rewrite Hother; [done|auto|by intros ->|done].
  - cbn. rewrite H2. cbn. by apply perm_swap.
  - cbn. by constructor.
  - intros i nd' Hi Hno. cbn in Hno. apply not_elem_of_cons in Hno as [N1 N2].
    assert (Z.of_nat i ≠ m) by (by intros <-). rewrite <-(Nat2Z.id i), Hother in Hi by (done || lia). rewrite Nat2Z.id in Hi. by eapply H4.
  - cbn. by constructor.
  - cbn. intros kv. rewrite elem_of_cons. intros [->|?]; [done|by apply H6].
  - intros c. rewrite elem_of_cons. intros [->|Hc].
    + exists m. split.
      * eapply walk_next; [lia|exact Hm'|cbn; lia|]. cbn. inversion Hw as [? n0 ? Hn0 Hx|? n0 l0 ? Hn0 Hx Hw']; subst; rewrite Hmp in Hn0; injection Hn0 as <-.
        { eapply walk_end; [lia|exact Hj'|lia]. }
        eapply walk_next; [lia|exact Hj'|lia|]. rewrite Hnext. eapply walk_frame; [exact Hw'|].
        intros i Hi. destruct (Hrest i) as (? & ? & ?); [apply elem_of_app; by left|]. by apply Hother.
      * intros i nd'. rewrite !elem_of_cons, Hmo. intros [->|[->|Hi]].
        { rewrite Hm'. intros [= <-]. exact Hmain. }
        { rewrite Hj'. by intros [= <-]. }
        destruct (Hrest i) as (? & ? & ?); [apply elem_of_app; by left|]. rewrite Hother by done. intros Hn.
        assert (Hcc : (m :: rest) ∈ chains) by (rewrite Hperm; by left). destruct (H7 _ Hcc) as (m0 & Hw0 & Hmm).
        pose proof (Hmm m mp ltac:(by left) Hmp) as E0. rewrite Hmain in E0. subst m0. apply (Hmm i nd'); [by right|done].
    + assert (Hcc : c ∈ chains) by (rewrite Hperm; by right). destruct (H7 _ Hcc) as (m0 & Hw0 & Hmm). exists m0.
      assert (Hsame : ∀ i, i ∈ c → hash' !! Z.to_nat i = hash !! Z.to_nat i).
      { intros i Hi. destruct (Hrest i) as (? & ? & ?); [apply elem_of_app; right; apply list_elem_of_join; by exists c|]. by apply Hother. }
      split; [by eapply walk_frame|]. intros i nd' Hi. rewrite Hsame, Hmo by done. by apply Hmm.
  - intros i nd'. cbn. rewrite elem_of_cons. intros [->|Hi].
    + rewrite Hj'. intros [= <-]. by rewrite Hnc.
    + destruct (decide (i = m)) as [->|Hne]; [rewrite Hm'; by intros [= <-]|]. rewrite Hother; [by apply H8|auto|by intros ->|done].
Qed.

Lemma built_nil sm R N nd pairs : nd_valuetype nd = VALUETYPE_NIL → built sm R (replicate N nd) pairs [] [].
Proof.
  intros Hnd. split; try (by intros; set_solver); try constructor.
  by intros i nd' [-> _]%lookup_replicate.
Qed.

(** A slot is taken when its node has a value. *)
Lemma built_taken sm R hash pairs E chains i nd : built sm R hash pairs E chains →
  hash !! i = Some nd → Z.of_nat i ∈ E.*1 ↔ nd_valuetype nd ≠ VALUETYPE_NIL.
Proof.
  intros Hb Hi. split.
  - intros ([i' [k v]] & Ei & Hin)%list_elem_of_fmap. cbn in Ei. destruct (b_nodes _ _ _ _ _ _ Hb _ _ _ Hin) as (nd' & e & Hn & _ & _ & _ & Hvt).
    rewrite <-Ei, Nat2Z.id in Hn. congruence.
  - intros Hvt. destruct (decide (Z.of_nat i ∈ E.*1)) as [|Hno]; [done|]. by pose proof (b_free _ _ _ _ _ _ Hb i nd Hi Hno).
Qed.

Lemma full_slots N (l : list Z) : NoDup l → (∀ i, i ∈ l → 0 ≤ i < N) → zlen l = N → ∀ i, 0 ≤ i < N → i ∈ l.
Proof.
  intros Hnd Hr Hlen i Hi. apply list_elem_of_In.
  apply (List.NoDup_length_incl (l := l) (l' := seqZ 0 N)); [by apply NoDup_ListNoDup|rewrite length_seqZ; unfold zlen in Hlen; lia| |].
  - intros j Hj. apply list_elem_of_In, elem_of_seqZ. apply list_elem_of_In, Hr in Hj. lia.
  - apply list_elem_of_In, elem_of_seqZ. lia.
Qed.

(** A hash with all pairs. *)
Lemma built_done sm R hash pairs E chains : built sm R hash pairs E chains → NoDup pairs → zlen hash = zlen pairs →
  (∀ kv, kv ∈ pairs → kv ∈ E.*2) → hash_rep sm R hash pairs.
Proof.
  intros Hb Hnd Hlen Hall. pose proof Hb as [H1 H2 H3 H4 H5 H6 H7 H8].
  assert (Hperm : E.*2 ≡ₚ pairs) by (apply NoDup_Permutation; [done..|]; intros kv; split; [apply H6|apply Hall]).
  assert (HE : zlen E.*1 = zlen hash).
  { rewrite Hlen. unfold zlen. by rewrite length_fmap, <-(Permutation_length Hperm), length_fmap. }
  assert (Hfull : ∀ i, 0 ≤ i < zlen hash → i ∈ E.*1) by (apply full_slots; [done| |done]; intros i; by eapply built_in).
  assert (Hchain : ∀ i, i ∈ E.*1 → ∃ m c, i ∈ c ∧ c ∈ chains ∧ walk hash m c ∧
      ∀ nd, hash !! Z.to_nat i = Some nd → main_of hash (nd_keyhash nd) = m).
  { intros i Hi. rewrite H2 in Hi. apply list_elem_of_join in Hi as (c & Hi & Hc). destruct (H7 c Hc) as (m & Hw & Hm).
    exists m, c. split_and!; [done..|]. intros nd. by apply Hm. }
  split; [| |done| |].
  - intros k v Hkv. apply Hall, list_elem_of_fmap in Hkv as ([i kv] & E1 & Hin). cbn in E1. subst kv.
    destruct (H1 i k v Hin) as (nd & e & G1 & G2 & G3 & G4 & G5). exists i, nd, e. split_and!; [done..|].
    destruct (Hchain i) as (m & c & Hic & _ & Hw & Hm); [apply list_elem_of_fmap; by eexists (_, _)|]. rewrite (Hm nd G1). by exists c.
  - intros i nd Hi. assert (Hi' : Z.of_nat i ∈ E.*1) by (apply Hfull; apply lookup_lt_Some in Hi; unfold zlen; lia).
    apply list_elem_of_fmap in Hi' as ([i' [k v]] & E1 & Hin). cbn in E1. destruct (H1 i' k v Hin) as (nd' & e & G1 & G2 & G3 & G4 & _).
    rewrite <-E1, Nat2Z.id in G1. rewrite Hi in G1. injection G1 as <-. exists k, v, e. split_and!; [|done..].
    apply H6, list_elem_of_fmap. by eexists (_, _).
  - intros i Hi. destruct (Hchain i (Hfull i Hi)) as (m & c & Hic & Hc & Hw & _). destruct (walk_suffix _ _ _ _ Hw Hic) as (l & Hl & Hs).
    exists l. split; [done|]. rewrite <-HE. unfold zlen. rewrite H2. apply suffix_length in Hs.
    apply elem_of_Permutation in Hc as (others & Hp). rewrite Hp. cbn. rewrite length_app. lia.
  - intros i nd Hi. assert (Hi' : Z.of_nat i ∈ E.*1) by (apply Hfull; apply lookup_lt_Some in Hi; unfold zlen; lia).
    apply (H8 _ nd Hi'). by rewrite Nat2Z.id.
Qed.

(** ** Looking for a free slot *)

Lemma free_slot_spec hash fuel : ∀ i, 0 ≤ i → zlen hash - i ≤ Z.of_nat fuel →
  (∃ j nd, i ≤ j ∧ hash !! Z.to_nat j = Some nd ∧ nd_valuetype nd = VALUETYPE_NIL) →
  ∃ r nd, free_slot hash i fuel = Some r ∧ i ≤ r ∧ hash !! Z.to_nat r = Some nd ∧ nd_valuetype nd = VALUETYPE_NIL ∧
    ∀ j nd', i ≤ j < r → hash !! Z.to_nat j = Some nd' → nd_valuetype nd' ≠ VALUETYPE_NIL.
Proof.
  induction fuel as [|fuel IH]; intros i Hi Hfuel (j & nd & Hj & Hn & Hv).
  - apply lookup_lt_Some in Hn. unfold zlen in Hfuel. lia.
  - cbn. pose proof (lookup_lt_Some _ _ _ Hn) as Hlt. destruct (lookup_lt_is_Some_2 hash (Z.to_nat i)) as [ni Hni]; [lia|]. rewrite Hni.
    destruct (nd_valuetype ni =? VALUETYPE_NIL) eqn:E; [apply Z.eqb_eq in E|apply Z.eqb_neq in E].
    + exists i, ni. split_and!; [done|lia|done..|]. intros; lia.
    + destruct (IH (i + 1)) as (r & nr & R1 & R2 & R3 & R4 & R5); [lia|lia| |].
      { exists j, nd. split_and!; [|done..]. assert (i ≠ j) by (intros ->; congruence). lia. }
      exists r, nr. split_and!; [done|lia|done..|]. intros j' nd' Hj' Hn'. destruct (decide (j' = i)) as [->|]; [congruence|].
      apply (R5 j'); [lia|done].
Qed.

(** ** Filling the hash *)

Definition khash (k : lvalue) : Z :=
  match k with VInteger i => u32 i | VString str => calchash str | _ => 0 end.

Lemma enc_khash sm k key h kt : enc sm k = Some (key, h, kt) → h = khash k.
Proof. destruct k; try done; cbn; [by intros [= _ <- _]|]. by intros (i & _ & [= _ -> _])%fmap_Some. Qed.

Section fill.
Context (heap : gmap positive ltable) (S_ : gset (list Z)) (L : positive).
Context (Hfit : 1 + Z.of_nat (size S_) ≤ INT_MAX).
Context (n : nat) (conv : positive → positive → M unit) (tbl : positive) (s0 : shared).
Context (Hconv : conv_spec heap S_ L n conv) (Htbl : is_Some (sh_tables s0 !! tbl)).
Context (lt : ltable) (Hlt : table_ok S_ lt) (Hvals : ∀ k v, (k, v) ∈ t_next lt → value_ok heap S_ n v).
Notation work := (work S_ L tbl s0).
Notation made := (made heap S_ L n s0).
Notation more := (more heap S_ L n s0).
Notation len := (zlen (t_array lt)).
Notation N := (zlen (hash_pairs lt)).

Definition main (k : lvalue) : Z := khash k mod N.

Lemma hash_pairs_in k v : (k, v) ∈ hash_pairs lt ↔ array_key len k = false ∧ (k, v) ∈ t_next lt.
Proof. unfold hash_pairs. by rewrite list_elem_of_filter. Qed.

Lemma pair_key k v : (k, v) ∈ t_next lt → key_ok S_ k ∧ v ≠ VNil.
Proof.
  intros Hin. split; [|intros ->; by eapply tk_nil]. pose proof (tk_keys _ _ Hlt) as Hk. rewrite Forall_forall in Hk. apply (Hk _ Hin).
Qed.

Lemma pair_unique k v v' : (k, v) ∈ t_next lt → (k, v') ∈ t_next lt → v = v'.
Proof.
  intros [i Hi]%list_elem_of_lookup [j Hj]%list_elem_of_lookup. pose proof (tk_nodup _ _ Hlt) as Hnd.
  assert (i = j) as ->; [|congruence]. eapply NoDup_lookup; [exact Hnd|rewrite list_lookup_fmap, Hi|rewrite list_lookup_fmap, Hj]; done.
Qed.

Lemma pairs_nodup : NoDup (t_next lt).
Proof. apply (NoDup_fmap_1 fst), (tk_nodup _ _ Hlt). Qed.

Lemma main_range k v : (k, v) ∈ hash_pairs lt → 0 ≤ main k < N ∧ N ≠ 0.
Proof.
  intros Hin. assert (0 < N) by (unfold zlen; destruct (hash_pairs lt); [by apply not_elem_of_nil in Hin|cbn; lia]).
  split; [apply Z.mod_pos_bound; lia|lia].
Qed.

Lemma does_put_value i u vt nd s sm x (Q : unit → shared → Prop) : work s sm x → 0 ≤ i → tb_hash x !! Z.to_nat i = Some nd →
  (∀ s', work s' sm (with_hash (<[Z.to_nat i := set_value u vt nd]> (tb_hash x)) x) → more s s' sm sm → Q tt s') →
  does (put_value tbl i u vt) Q s.
Proof.
  intros Hw Hi Hnd HQ. unfold put_value. apply does_bind. eapply does_table; [apply Hw|].
  apply does_bind. eapply does_zlookup; [done..|]. eapply does_node; [done..| |done].
  apply lookup_lt_Some in Hnd. unfold zlen. lia.
Qed.

(** Array and hash after the pairs [pre] in the first pass. *)
Record pass1 s sm x (pre : list (lvalue * lvalue)) (E : list (Z * (lvalue * lvalue))) (ch : list (list Z)) : Prop := {
  p1_work : work s sm x;
  p1_L : tb_L x = L;
  p1_size : zlen (tb_hash x) = N;
  p1_array : ∃ dn, array_state sm (made s sm) x lt dn ∧
    ∀ i v, (VInteger i, v) ∈ pre → 0 < i ≤ len → Z.to_nat (i - 1) ∈ dn;
  p1_built : built sm (made s sm) (tb_hash x) (hash_pairs lt) E ch;
  p1_pre : E.*2 ⊆ pre;
  p1_main : ∀ i k v, (i, (k, v)) ∈ E → i = main k;
  p1_occ : ∀ k v, (k, v) ∈ pre → (k, v) ∈ hash_pairs lt → main k ∈ E.*1
}.

Lemma does_fillnocolliding todo : ∀ pre s sm x E ch (Q : unit → shared → Prop), pre ++ todo = t_next lt → pass1 s sm x pre E ch →
  (∀ s' sm' x' E' ch', pass1 s' sm' x' (t_next lt) E' ch' → sm ⊆ sm' → Q tt s') →
  does (fillnocolliding conv L tbl todo) Q s.
Proof.
  induction todo as [|[k v] todo IH]; intros pre s sm x E ch Q Hsplit Hp HQ.
  { apply does_ret. rewrite app_nil_r in Hsplit. subst pre. by eapply HQ. }
  cbn [fillnocolliding]. assert (Hin : (k, v) ∈ t_next lt) by (rewrite <-Hsplit; apply elem_of_app; right; by left).
  destruct (pair_key _ _ Hin) as [Hk Hvn]. pose proof (Hvals _ _ Hin) as Hv. destruct Hp as [P1 P2 P3 (dn & P4a & P4b) P5 P6 P7 P8].
  assert (Hlen : sizearray x = len) by apply P4a. assert (Hsplit' : (pre ++ [(k, v)]) ++ todo = t_next lt) by by rewrite <-app_assoc.
  assert (Hnew : (k, v) ∉ pre).
  { pose proof pairs_nodup as Hnd. rewrite <-Hsplit in Hnd. apply NoDup_app in Hnd as (_ & Hnd & _). intros H. apply (Hnd _ H). by left. }
  apply does_bind. eapply does_key; [exact Hfit|done..|rewrite Hlen; apply (tk_len _ _ Hlt)| |].
  - intros i -> Hi. rewrite Hlen in Hi. apply does_bind.
    eapply does_setarray; [done..|by apply (tk_array _ _ Hlt)|done|]. intros s1 sm1 x1 W1 [M1 M2] Hh HL Ha.
    apply (IH (pre ++ [(VInteger i, v)]) s1 sm1 x1 E ch); [done| |intros s' sm' x' E' ch' Hp' Hsub; eapply HQ; [done|by etransitivity]].
    assert (Hno : (VInteger i, v) ∉ hash_pairs lt).
    { rewrite hash_pairs_in. cbn. rewrite (proj2 (Z.ltb_lt _ _)), (proj2 (Z.leb_le _ _)) by lia. by intros [? _]. }
    split; [done|by rewrite HL|by rewrite Hh| | |intros kv Hkv; apply elem_of_app; left; by apply P6|done|].
    + eexists. split; [exact Ha|]. intros i' v'. rewrite elem_of_app, list_elem_of_singleton. intros [Hi'|[= -> ->]] Hr; [|by set_solver].
      apply elem_of_union. right. by eapply P4b.
    + rewrite Hh. by eapply built_mono.
    + intros k' v'. rewrite elem_of_app, list_elem_of_singleton. intros [Hk'|[= -> ->]] Hhp; [by eapply P8|done].
  - intros Hak s1 sm1 key h kt W1 M1 He. rewrite Hlen in Hak. pose proof (enc_khash _ _ _ _ _ He) as ->.
    assert (Hhp : (k, v) ∈ hash_pairs lt) by by apply hash_pairs_in. destruct (main_range _ _ Hhp) as [Hmr HN].
    pose proof (built_mono _ _ _ _ _ _ _ _ (proj1 M1) (proj2 M1) P5) as B1.
    assert (Hstep : ∀ s2 sm2 x2 E2 ch2, pass1 s2 sm2 x2 (pre ++ [(k, v)]) E2 ch2 → sm1 ⊆ sm2 → does (fillnocolliding conv L tbl todo) Q s2).
    { intros s2 sm2 x2 E2 ch2 Hp2 Hsub. eapply IH; [exact Hsplit'|exact Hp2|]. intros s' sm' x' E' ch' Hp' Hsub'. eapply HQ; [done|].
      transitivity sm2; [|done]. transitivity sm1; [apply M1|done]. }
    apply does_bind, does_bind. eapply does_table; [apply W1|]. apply does_bind. eapply does_lifts.
    { unfold umod, sizehash. rewrite P3, (proj2 (Z.eqb_neq _ _)) by done. reflexivity. }
    fold (main k). destruct (lookup_lt_is_Some_2 (tb_hash x) (Z.to_nat (main k))) as [nd Hnd]; [unfold zlen in *; lia|].
    apply does_bind. eapply does_zlookup; [lia|exact Hnd|].
    assert (Harr : ∀ s2 sm2 x2, more s s2 sm sm2 → tb_array x2 = tb_array x → tb_arraytype x2 = tb_arraytype x →
      ∃ dn, array_state sm2 (made s2 sm2) x2 lt dn ∧ ∀ i v', (VInteger i, v') ∈ pre ++ [(k, v)] → 0 < i ≤ len → Z.to_nat (i - 1) ∈ dn).
    { intros s2 sm2 x2 Hm E1 E2. exists dn. split; [by eapply array_state_mono|]. intros i v'. rewrite elem_of_app, list_elem_of_singleton.
      intros [Hi|[= <- <-]] Hr; [by eapply P4b|]. cbn in Hak. rewrite (proj2 (Z.ltb_lt _ _)), (proj2 (Z.leb_le _ _)) in Hak by lia. done. }
    assert (Hpre : ∀ E2 : list (Z * (lvalue * lvalue)), E2.*2 ⊆ (k, v) :: pre → E2.*2 ⊆ pre ++ [(k, v)]).
    { intros E2 H kv Hkv%H. rewrite elem_of_cons in Hkv. rewrite elem_of_app, list_elem_of_singleton. tauto. }
    destruct (nd_valuetype nd =? VALUETYPE_NIL) eqn:Evt; [apply Z.eqb_eq in Evt|apply Z.eqb_neq in Evt].
    + set (part := MkNode (nd_v nd) key (-1) (khash k) kt (nd_valuetype nd) true).
      assert (Hsize : 0 ≤ main k < zlen (tb_hash x)) by lia.
      apply does_bind. eapply does_node; [done|exact W1|done|]. intros s2 W2 M2.
      apply does_bind. eapply does_value; [done..|]. intros u vt s3 sm3 W3 M3 Hrep Hvt.
      eapply does_put_value; [exact W3|lia|apply list_lookup_insert_eq; unfold zlen in Hsize; lia|]. intros s4 W4 M4. cbn [tb_hash with_hash] in W4.
      rewrite list_insert_insert_eq in W4. assert (M14 : more s1 s4 sm1 sm3) by (eapply more_trans; [done|]; by eapply more_trans).
      pose proof (built_mono _ _ _ _ _ _ _ _ (proj1 M14) (proj2 M14) B1) as B4.
      assert (Hfree : main k ∉ E.*1).
      { pose proof (built_taken _ _ _ _ _ _ _ _ B4 Hnd) as Ht. rewrite Z2Nat.id in Ht by lia. intros H%Ht. done. }
      eapply (Hstep s4 sm3 _ ((main k, (k, v)) :: E)); [|apply M14]. split; [exact W4|done|cbn; by rewrite zlen_insert| | | | |].
      * apply Harr; [|done..]. eapply more_trans; [exact M1|exact M14].
      * eapply built_main; [exact B4|done..|eapply enc_mono; [apply M14|exact He]|done| |done| |by apply Hvt|done|].
        -- cbn. unfold main_of, main. by rewrite P3.
        -- eapply (vrep_mono sm3 sm3); [done|apply M4|exact Hrep].
        -- intros H%P6. done.
      * apply Hpre. cbn. intros kv. rewrite !elem_of_cons. intros [->|H]; [by left|right; by apply P6].
      * intros i k' v'. rewrite elem_of_cons. intros [[= -> -> ->]|Hi]; [done|by eapply P7].
      * intros k' v'. cbn. rewrite elem_of_app, list_elem_of_singleton, elem_of_cons.
        intros [Hi|[= -> ->]] Hh; [right; by eapply P8|by left].
    + apply does_ret. eapply (Hstep s1 sm1 x E); [|done]. split; [exact W1|done|done|by apply Harr|exact B1| |done|].
      * apply Hpre. intros kv H%P6. by right.
      * intros k' v'. rewrite elem_of_app, list_elem_of_singleton. intros [Hi|[= -> ->]] Hh; [by eapply P8|].
        pose proof (built_taken _ _ _ _ _ _ _ _ P5 Hnd) as Ht. rewrite Z2Nat.id in Ht by lia. by apply Ht.
Qed.

(** The hash in the second pass, with the pairs [todo] left and no free slot before [empty]. *)
Record pass2 s sm x (todo : list (lvalue * lvalue)) (empty : Z) (E : list (Z * (lvalue * lvalue))) (ch : list (list Z)) : Prop := {
  p2_work : work s sm x;
  p2_L : tb_L x = L;
  p2_size : zlen (tb_hash x) = N;
  p2_array : array_rep sm (made s sm) x lt;
  p2_built : built sm (made s sm) (tb_hash x) (hash_pairs lt) E ch;
  p2_occ : ∀ k v, (k, v) ∈ hash_pairs lt → ∃ mp, tb_hash x !! Z.to_nat (main k) = Some mp ∧ main k ∈ E.*1 ∧
    main_of (tb_hash x) (nd_keyhash mp) = main k;
  p2_todo : ∀ i k v, (k, v) ∈ todo → (i, (k, v)) ∈ E → i = main k;
  p2_all : ∀ kv, kv ∈ hash_pairs lt → kv ∈ todo ∨ kv ∈ E.*2;
  p2_empty : 0 ≤ empty ∧ ∀ i, 0 ≤ i < empty → i ∈ E.*1
}.

Lemma array_rep_same s s' sm sm' x x' : more s s' sm sm' → tb_array x' = tb_array x → tb_arraytype x' = tb_arraytype x →
  array_rep sm (made s sm) x lt → array_rep sm' (made s' sm') x' lt.
Proof.
  intros [M1 M2] E1 E2 (H1 & H0 & H2). unfold array_rep. rewrite E1, E2. split_and!; [done..|]. intros i v Hv.
  destruct (H2 i v Hv) as (u & vt & ? & ? & ?). exists u, vt. split_and!; [done..|by eapply vrep_mono].
Qed.

Lemma pass2_start s sm x E ch : pass1 s sm x (t_next lt) E ch → pass2 s sm x (t_next lt) 0 E ch.
Proof.
  intros [P1 P2 P3 (dn & (A1 & A2 & A3) & A4) P5 P6 P7 P8]. split; try done.
  - split_and!; [done..|]. intros i v Hv. destruct (A3 i v Hv) as (u & vt & ? & ? & H). exists u, vt. split_and!; [done..|].
    case_bool_decide as Hd; [done|]. assert (v = VNil ∨ v ≠ VNil) as [->|Hne] by (destruct v; [by left|by right..]); [done|]. exfalso. apply Hd.
    pose proof (lookup_lt_Some _ _ _ Hv) as Hlt'. assert (Ei : Z.to_nat (Z.of_nat i + 1 - 1) = i) by lia. rewrite <-Ei.
    apply (A4 _ v); [|unfold zlen; lia]. apply (tk_array _ _ Hlt); [unfold zlen; lia|]. by rewrite Ei.
  - intros k v Hin. pose proof (P8 k v (proj2 (proj1 (hash_pairs_in k v) Hin)) Hin) as Hm.
    apply list_elem_of_fmap in Hm as ([i [k' v']] & E1 & Hi). cbn in E1. subst i. pose proof (P7 _ _ _ Hi) as Hk'.
    destruct (b_nodes _ _ _ _ _ _ P5 _ _ _ Hi) as (nd & [[key h] kt] & Hnd & He & Hat & _). exists nd. split; [done|].
    split; [apply list_elem_of_fmap; by exists (main k, (k', v'))|]. unfold main_of. rewrite P3, Hk'. unfold main. f_equal.
    rewrite <-(enc_khash _ _ _ _ _ He). by injection Hat as _ -> _.
  - intros i k v _. apply P7.
  - intros [k v] Hin. left. by apply hash_pairs_in in Hin as [_ ?].
  - split; [done|]. intros i Hi. lia.
Qed.

(** The key is not in the hash yet: there is a free slot. *)
Lemma some_free s sm x todo empty E ch kv : pass2 s sm x todo empty E ch → kv ∈ hash_pairs lt → kv ∉ E.*2 →
  ∃ j nd, empty ≤ j ∧ j ∉ E.*1 ∧ tb_hash x !! Z.to_nat j = Some nd ∧ nd_valuetype nd = VALUETYPE_NIL.
Proof.
  intros [P1 P2 P3 P4 P5 P6 P7 P8 [P9 P10]] Hin Hno. pose proof P5 as [B1 B2 B3 B4 B5 B6 B7 B8].
  assert (Hlen : zlen E.*1 < N).
  { assert (Hs : (kv :: (E.*2)) ⊆+ hash_pairs lt).
    { apply NoDup_submseteq; [by constructor|]. intros y. rewrite elem_of_cons. intros [->|Hy]; [done|by apply B6]. }
    apply submseteq_length in Hs. rewrite length_cons in Hs. unfold zlen. rewrite !length_fmap in *. lia. }
  destruct (decide (Forall (λ i, i ∈ E.*1) (seqZ 0 N))) as [Hall|Hex].
  - exfalso. rewrite Forall_forall in Hall. assert (Hs : seqZ 0 N ⊆+ E.*1) by (apply NoDup_submseteq; [apply NoDup_seqZ|exact Hall]).
    apply submseteq_length in Hs. rewrite length_seqZ in Hs. unfold zlen in Hlen, Hs. lia.
  - apply not_Forall_Exists, Exists_exists in Hex as (j & Hj & Hjn); [|apply _]. apply elem_of_seqZ in Hj.
    destruct (lookup_lt_is_Some_2 (tb_hash x) (Z.to_nat j)) as [nd Hnd]; [unfold zlen in *; lia|].
    exists j, nd. split_and!; [|done..|].
    + destruct (decide (j < empty)); [|lia]. exfalso. apply Hjn, P10. lia.
    + eapply B4; [done|]. rewrite Z2Nat.id by lia. done.
Qed.

Lemma does_link_node j m nj mp s sm x (Q : unit → shared → Prop) : work s sm x → 0 ≤ j → 0 ≤ m → j ≠ m →
  tb_hash x !! Z.to_nat j = Some nj → tb_hash x !! Z.to_nat m = Some mp →
  (∀ s', more s s' sm sm → work s' sm (with_hash
     (<[Z.to_nat m := MkNode (nd_v mp) (nd_key mp) j (nd_keyhash mp) (nd_keytype mp) (nd_valuetype mp) false]>
       (<[Z.to_nat j := MkNode (nd_v nj) (nd_key nj) (nd_next mp) (nd_keyhash nj) (nd_keytype nj) (nd_valuetype nj) (nd_nocolliding nj)]> (tb_hash x))) x) →
     Q tt s') →
  does (link_node tbl m j) Q s.
Proof.
  intros Hw Hj Hm Hne Hnj Hmp HQ. pose proof (lookup_lt_Some _ _ _ Hnj). pose proof (lookup_lt_Some _ _ _ Hmp).
  unfold link_node. apply does_bind. eapply does_table; [apply Hw|]. apply does_bind. eapply does_zlookup; [done..|].
  apply does_bind. eapply does_zlookup; [done..|]. apply does_bind. eapply does_node; [done|exact Hw|unfold zlen; lia|]. intros s1 W1 M1.
  apply does_bind. eapply does_table; [apply W1|]. apply does_bind. cbn [tb_hash with_hash].
  eapply does_zlookup; [done|rewrite list_lookup_insert_ne by lia; exact Hmp|].
  eapply does_node; [done|exact W1|cbn [tb_hash with_hash]; rewrite zlen_insert; unfold zlen; lia|]. intros s2 W2 M2.
  apply HQ; [by eapply more_trans|exact W2].
Qed.

(** The pair [(k, v)] has been put into the first free slot and linked to its main slot. *)
Lemma pass2_link s1 s5 sm1 sm4 x k v todo empty E ch j nj mp nd key kt : pass2 s1 sm1 x ((k, v) :: todo) empty E ch →
  (k, v) ∈ hash_pairs lt → (k, v) ∉ E.*2 → (k, v) ∉ todo → tb_hash x !! Z.to_nat (main k) = Some mp → empty ≤ j → j ∉ E.*1 →
  tb_hash x !! Z.to_nat j = Some nj →
  (∀ i n', empty ≤ i < j → tb_hash x !! Z.to_nat i = Some n' → nd_valuetype n' ≠ VALUETYPE_NIL) →
  enc sm4 k = Some (key, khash k, kt) → key_at nd (key, khash k, kt) → nd_next nd = nd_next mp → nd_nocolliding nd = false →
  vrep sm4 (made s5 sm4) v (nd_v nd) (nd_valuetype nd) → nd_valuetype nd ≠ VALUETYPE_NIL → more s1 s5 sm1 sm4 →
  let x' := with_hash (<[Z.to_nat j := nd]> (<[Z.to_nat (main k) :=
    MkNode (nd_v mp) (nd_key mp) j (nd_keyhash mp) (nd_keytype mp) (nd_valuetype mp) false]> (tb_hash x))) x in
  work s5 sm4 x' → ∃ ch', pass2 s5 sm4 x' todo (j + 1) ((j, (k, v)) :: E) ch'.
Proof.
  intros [P1 P2 P3 P4 P5 P6 P7 P8 [P9 P10]] Hhp Hno Hnew Hmp F2 HjE F3 F5 He Hat Hnext Hnc Hrep Hvt M15 x' W5.
  subst x'. set (mp' := MkNode (nd_v mp) (nd_key mp) j (nd_keyhash mp) (nd_keytype mp) (nd_valuetype mp) false) in *.
  destruct (main_range _ _ Hhp) as [Hmr HN]. pose proof (lookup_lt_Some _ _ _ F3) as Hjl.
  destruct (P6 k v Hhp) as (mp0 & Hmp0 & HmE & Hmm). rewrite Hmp in Hmp0. injection Hmp0 as <-.
  assert (Hjm : j ≠ main k) by (intros ->; done).
  pose proof (built_mono _ _ _ _ _ _ _ _ (proj1 M15) (proj2 M15) P5) as B5.
  assert (Hmain : ∀ h, main_of (tb_hash x) h = h mod N) by (intros h; unfold main_of; by rewrite P3).
  assert (Hkh : nd_keyhash nd = khash k) by by injection Hat.
  destruct (built_link _ _ _ _ _ _ j (main k) k v (key, khash k, kt) nd mp B5) as (ch' & B6); try done.
  { unfold zlen. lia. }
  { by rewrite Hkh, Hmain. }
  fold mp' in B6. exists ch'.
  split; [exact W5|done|cbn; by rewrite !zlen_insert|by eapply array_rep_same|exact B6| | | |].
  - intros k2 v2 Hk2. destruct (P6 k2 v2 Hk2) as (mp2 & G1 & G2 & G3). cbn [tb_hash with_hash].
    assert (main k2 ≠ j) by (intros E2; rewrite E2 in G2; done). destruct (main_range _ _ Hk2) as [Hr2 _].
    rewrite list_lookup_insert_ne by lia. unfold main_of. rewrite !zlen_insert. fold (main_of (tb_hash x)).
    destruct (decide (main k2 = main k)) as [E2|E2].
    { exists mp'. rewrite E2, list_lookup_insert_eq by (unfold zlen in *; lia). split; [done|]. split; [by right|]. exact Hmm. }
    exists mp2. rewrite list_lookup_insert_ne by lia. split; [done|]. split; [by right|done].
  - intros i k2 v2 Hk2. rewrite elem_of_cons. intros [[= -> -> ->]|Hi2]; [done|]. apply (P7 i k2 v2); [by right|done].
  - intros kv Hkv. cbn. rewrite elem_of_cons. destruct (P8 kv Hkv) as [Ht|]; [|by auto]. apply elem_of_cons in Ht as [->|]; auto.
  - split; [lia|]. intros i Hir. cbn. rewrite elem_of_cons. destruct (decide (i = j)) as [->|Hne2]; [by left|]. right.
    destruct (decide (i < empty)); [apply P10; lia|]. destruct (lookup_lt_is_Some_2 (tb_hash x) (Z.to_nat i)) as [ni Hni]; [lia|].
    pose proof (built_taken _ _ _ _ _ _ _ _ P5 Hni) as Ht. rewrite Z2Nat.id in Ht by lia. apply Ht. apply (F5 i ni); [lia|done].
Qed.

Lemma does_fillcolliding todo : ∀ s sm x empty E ch (Q : unit → shared → Prop),
  (∃ pre, pre ++ todo = t_next lt) → pass2 s sm x todo empty E ch →
  (∀ s' sm' x' e' E' ch', pass2 s' sm' x' [] e' E' ch' → sm ⊆ sm' → Q tt s') →
  does (fillcolliding conv L tbl todo empty) Q s.
Proof.
  induction todo as [|[k v] todo IH]; intros s sm x empty E ch Q [pre Hsplit] Hp HQ.
  { apply does_ret. by eapply HQ. }
  cbn [fillcolliding]. assert (Hin : (k, v) ∈ t_next lt) by (rewrite <-Hsplit; apply elem_of_app; right; by left).
  destruct (pair_key _ _ Hin) as [Hk Hvn]. pose proof (Hvals _ _ Hin) as Hv. pose proof Hp as [P1 P2 P3 P4 P5 P6 P7 P8 [P9 P10]].
  assert (Hlen : sizearray x = len) by apply P4. assert (Hsplit' : ∃ pre, pre ++ todo = t_next lt) by (exists (pre ++ [(k, v)]); by rewrite <-app_assoc).
  assert (Hnew : (k, v) ∉ todo).
  { pose proof pairs_nodup as Hnd. rewrite <-Hsplit in Hnd. apply NoDup_app in Hnd as (_ & _ & Hnd). by apply NoDup_cons in Hnd as [? _]. }
  apply does_bind. eapply does_key; [exact Hfit|done..|rewrite Hlen; apply (tk_len _ _ Hlt)| |].
  - intros i -> Hi. rewrite Hlen in Hi. apply (IH s sm x empty E ch); [done| |done]. split; try done.
    + intros i' k' v' Hk'. apply P7. by right.
    + intros kv Hkv. destruct (P8 kv Hkv) as [Ht|]; [|by right]. left. apply elem_of_cons in Ht as [->|]; [|done].
      rewrite hash_pairs_in in Hkv. cbn in Hkv. rewrite (proj2 (Z.ltb_lt _ _)), (proj2 (Z.leb_le _ _)) in Hkv by lia. by destruct Hkv.
  - intros Hak s1 sm1 key h kt W1 M1 He. rewrite Hlen in Hak. pose proof (enc_khash _ _ _ _ _ He) as ->.
    assert (Hhp : (k, v) ∈ hash_pairs lt) by by apply hash_pairs_in. destruct (main_range _ _ Hhp) as [Hmr HN].
    pose proof (built_mono _ _ _ _ _ _ _ _ (proj1 M1) (proj2 M1) P5) as B1.
    assert (Hstep : ∀ s2 sm2 x2 e2 E2 ch2, pass2 s2 sm2 x2 todo e2 E2 ch2 → sm1 ⊆ sm2 → does (fillcolliding conv L tbl todo e2) Q s2).
    { intros s2 sm2 x2 e2 E2 ch2 Hp2 Hsub. eapply IH; [exact Hsplit'|exact Hp2|]. intros s' sm' x' e' E' ch' Hp' Hsub'. eapply HQ; [done|].
      transitivity sm2; [|done]. transitivity sm1; [apply M1|done]. }
    apply does_bind. eapply does_table; [apply W1|]. apply does_bind. eapply does_lifts.
    { unfold umod, sizehash. rewrite P3, (proj2 (Z.eqb_neq _ _)) by done. reflexivity. }
    fold (main k). destruct (P6 k v Hhp) as (mp & Hmp & HmE & Hmm). apply does_bind. eapply does_zlookup; [lia|exact Hmp|].
    (* The node at the main slot. *)
    pose proof HmE as HmE'. apply list_elem_of_fmap in HmE' as ([i [k' v']] & E1 & Hi). cbn in E1. subst i.
    destruct (b_nodes _ _ _ _ _ _ B1 _ _ _ Hi) as (nd & [[key' h'] kt'] & Hnd & He' & Hat & _). rewrite Hmp in Hnd. injection Hnd as <-.
    injection Hat as Hat1 Hat2 Hat3.
    destruct ((nd_keytype mp =? kt) && (nd_key mp =? key)) eqn:Esame.
    + apply andb_true_iff in Esame as [S1%Z.eqb_eq S2%Z.eqb_eq]. rewrite <-Hat1, <-Hat3, S1, S2 in He'.
      assert (k' = k) as -> by (destruct W1 as ((l & _ & _ & _ & Hnum) & _); eapply enc_inj; [exact Hnum|exact He'|exact He]).
      assert (v' = v) as ->.
      { eapply (pair_unique k); [|exact Hin]. apply hash_pairs_in. apply (b_sub _ _ _ _ _ _ B1). apply list_elem_of_fmap. by exists (main k, (k, v')). }
      eapply (Hstep s1 sm1 x empty E ch); [|done]. split; [exact W1|done|done|by eapply array_rep_same|exact B1|done| | |done].
      * intros i' k2 v2 Hk2. apply P7. by right.
      * intros kv Hkv. destruct (P8 kv Hkv) as [Ht|]; [|by right]. apply elem_of_cons in Ht as [->|]; [|by left].
        right. apply list_elem_of_fmap. by exists (main k, (k, v)).
    + assert (Hno : (k, v) ∉ E.*2).
      { intros Hin2. apply list_elem_of_fmap in Hin2 as ([i kv] & E2 & Hi2). cbn in E2. subst kv.
        pose proof (P7 i k v ltac:(by left) Hi2) as ->. destruct (b_nodes _ _ _ _ _ _ B1 _ _ _ Hi2) as (nd & e & Hnd & He2 & Hat' & _).
        rewrite Hmp in Hnd. injection Hnd as <-. rewrite He in He2. injection He2 as <-. injection Hat' as K1 _ K3.
        by rewrite K1, K3, !Z.eqb_refl in Esame. }
      assert (Hp1 : pass2 s1 sm1 x ((k, v) :: todo) empty E ch) by (split; [exact W1|done|done|by eapply array_rep_same|exact B1|done..]).
      destruct (some_free _ _ _ _ _ _ _ _ Hp1 Hhp Hno) as (j0 & nd0 & J1 & J2 & J3 & J4).
      destruct (free_slot_spec (tb_hash x) (length (tb_hash x)) empty P9 ltac:(unfold zlen; lia)) as (j & nj & F1 & F2 & F3 & F4 & F5).
      { by exists j0, nd0. }
      rewrite F1. assert (HjE : j ∉ E.*1).
      { pose proof (built_taken _ _ _ _ _ _ _ _ B1 F3) as Ht. rewrite Z2Nat.id in Ht by lia. intros H%Ht. done. }
      assert (Hjm : j ≠ main k) by (intros ->; done). pose proof (lookup_lt_Some _ _ _ F3) as Hjl.
      set (mp' := MkNode (nd_v mp) (nd_key mp) j (nd_keyhash mp) (nd_keytype mp) (nd_valuetype mp) false).
      apply does_bind. eapply does_link_node; [exact W1|lia|lia|done|exact F3|exact Hmp|]. fold mp'. intros s2 M2 W2.
      apply does_bind. eapply does_table; [apply W2|]. cbn [tb_hash with_hash] in W2 |- *. apply does_bind.
      eapply does_zlookup; [lia|rewrite list_lookup_insert_ne by lia; by apply list_lookup_insert_eq|]. cbn [nd_v nd_next nd_valuetype].
      apply does_bind. eapply does_node; [done|exact W2|cbn [tb_hash with_hash]; rewrite !zlen_insert; unfold zlen; lia|].
      intros s3 W3 M3. cbn [tb_hash with_hash] in W3. apply does_bind. eapply does_value; [done..|]. intros u vt s4 sm4 W4 M4 Hrep Hvt.
      apply does_bind. eapply does_put_value; [exact W4|lia|cbn [tb_hash with_hash]; apply list_lookup_insert_eq; rewrite !length_insert; lia|].
      intros s5 W5 M5. cbn [tb_hash with_hash] in W5. rewrite list_insert_insert_eq in W5. cbn [set_value] in W5.
      set (nd := MkNode u key (nd_next mp) (khash k) kt vt false).
      assert (Ehash : ∀ d, <[Z.to_nat j := d]> (<[Z.to_nat (main k) := mp']>
          (<[Z.to_nat j := MkNode (nd_v nj) (nd_key nj) (nd_next mp) (nd_keyhash nj) (nd_keytype nj) (nd_valuetype nj) (nd_nocolliding nj)]> (tb_hash x))) =
          <[Z.to_nat j := d]> (<[Z.to_nat (main k) := mp']> (tb_hash x))).
      { intros d. rewrite (list_insert_insert_ne _ (Z.to_nat (main k)) (Z.to_nat j)) by lia. apply list_insert_insert_eq. }
      rewrite Ehash in W5.
      assert (M15 : more s1 s5 sm1 sm4).
      { eapply more_trans; [exact M2|]. eapply more_trans; [exact M3|]. by eapply more_trans. }
      destruct (pass2_link s1 s5 sm1 sm4 x k v todo empty E ch j nj mp nd key kt Hp1) as (ch' & Hp5); try done; try lia.
      { by eapply enc_mono; [apply M15|]. }
      { eapply (vrep_mono sm4 sm4); [done|apply M5|exact Hrep]. }
      { by apply Hvt. }
      eapply Hstep; [exact Hp5|apply M15].
Qed.
End fill.

(** ** Whole tables *)

Section convtable.
Context (heap : gmap positive ltable) (garbage : node) (S_ : gset (list Z)) (L : positive).
Context (Hfit : 1 + Z.of_nat (size S_) ≤ INT_MAX).

Lemma pass2_done n tbl s0 lt s sm x e E ch : table_ok S_ lt → pass2 heap S_ L n tbl s0 lt s sm x [] e E ch →
  hash_rep sm (made heap S_ L n s0 s sm) (tb_hash x) (hash_pairs lt).
Proof.
  intros Hlt [P1 P2 P3 P4 P5 P6 P7 P8 P9]. eapply built_done; [exact P5| |exact P3|].
  - apply NoDup_filter. by eapply pairs_nodup.
  - intros kv Hkv. destruct (P8 kv Hkv) as [?%not_elem_of_nil|]; done.
Qed.

Lemma does_countsize pairs len n (Q : Z → shared → Prop) s : Forall (λ kv, key_ok S_ kv.1) pairs →
  Q (n + zlen (filter (λ kv : lvalue * lvalue, array_key len kv.1 = false) pairs)) s → does (countsize pairs len n) Q s.
Proof.
  intros Hk. revert n Q. induction Hk as [|[k v] pairs Hk _ IH]; intros n Q HQ.
  - rewrite Z.add_0_r in HQ. by apply does_ret.
  - rewrite filter_cons in HQ. cbn [fst] in Hk, HQ. destruct k as [| |i| |str| | |]; try done; cbn [countsize array_key] in *.
    + destruct ((0 <? i) && (i <=? len)).
      * rewrite decide_False in HQ by done. by apply IH.
      * rewrite decide_True in HQ by done. apply IH. rewrite zlen_cons, Z.add_assoc in HQ. done.
    + rewrite decide_True in HQ by done. apply IH. rewrite zlen_cons, Z.add_assoc in HQ. done.
Qed.

Lemma does_fillarray n conv tbl s0 lt : conv_spec heap S_ L n conv → is_Some (sh_tables s0 !! tbl) → table_ok S_ lt →
  (∀ k v, (k, v) ∈ t_next lt → value_ok heap S_ n v) →
  ∀ elements pre s sm x dn (Q : unit → shared → Prop), pre ++ elements = t_array lt → work S_ L tbl s0 s sm x → tb_L x = L → tb_hash x = [] →
  array_state sm (made heap S_ L n s0 s sm) x lt dn → (∀ i, (i < length pre)%nat → i ∈ dn) →
  (∀ s' sm' x', work S_ L tbl s0 s' sm' x' → sm ⊆ sm' → tb_L x' = L → tb_hash x' = [] →
     array_rep sm' (made heap S_ L n s0 s' sm') x' lt → Q tt s') →
  does (fillarray conv L tbl elements (Z.of_nat (length pre) + 1)) Q s.
Proof.
  intros Hconv Htbl Hlt Hvals elements. induction elements as [|v elements IH]; intros pre s sm x dn Q Hsplit Hw HL Hh Ha Hdn HQ.
  - apply does_ret. eapply (HQ s sm x); try done. destruct Ha as (A1 & A2 & A3). split_and!; [done..|]. intros i v Hv.
    destruct (A3 i v Hv) as (u & vt & ? & ? & H). exists u, vt. rewrite bool_decide_true in H; [done|]. apply Hdn.
    rewrite app_nil_r in Hsplit. subst pre. by apply lookup_lt_Some in Hv.
  - assert (Hi : t_array lt !! length pre = Some v) by (rewrite <-Hsplit; apply list_lookup_middle; done).
    pose proof (lookup_lt_Some _ _ _ Hi) as Hlt'.
    cbn [fillarray]. apply does_bind. eapply does_setarray; [done..|unfold zlen; lia| | |].
    + replace (Z.to_nat (Z.of_nat (length pre) + 1 - 1)) with (length pre) by lia. exact Hi.
    + assert (v = VNil ∨ v ≠ VNil) as [->|Hne] by (destruct v; [by left|by right..]); [done|].
      apply (Hvals (VInteger (Z.of_nat (length pre) + 1))), (tk_array _ _ Hlt); [unfold zlen; lia|].
      replace (Z.to_nat (Z.of_nat (length pre) + 1 - 1)) with (length pre) by lia. done.
    + intros s1 sm1 x1 W1 [M1 M2] Hh1 HL1 Ha1.
      replace (Z.of_nat (length pre) + 1 + 1) with (Z.of_nat (length (pre ++ [v])) + 1) by (rewrite length_app; cbn; lia).
      apply (IH _ s1 sm1 x1 ({[Z.to_nat (Z.of_nat (length pre) + 1 - 1)]} ∪ dn)); [by rewrite <-app_assoc|done|congruence|congruence|done| |].
      * intros i. rewrite length_app. cbn. intros Hi'. destruct (decide (i = length pre)) as [->|]; [set_solver by lia|].
        apply elem_of_union. right. apply Hdn. lia.
      * intros s' sm' x' ? ? ? ? ?. eapply HQ; [done|by etransitivity|done..].
Qed.

Lemma convtable_spec n : conv_spec heap S_ L n (convtable heap garbage n L).
Proof.
  induction n as [|n IH]; intros s sm q t x0 Hs Hq Hn; [done|].
  destruct Hn as (lt & Ht & Hlt & Hvals0).
  assert (Hvals : ∀ k v, (k, v) ∈ t_next lt → value_ok heap S_ n v).
  { intros k v Hin. pose proof (Hvals0 k v Hin). by destruct v. }
  cbn [convtable]. apply does_bind. unfold lua_table. rewrite Ht. apply does_ret. cbv zeta.
  assert (W0 : work S_ L q s s sm x0) by (split_and!; [done..|apply delete_subseteq]).
  assert (Hqs : is_Some (sh_tables s !! q)) by by eexists.
  apply does_bind. eapply (does_put heap S_ L n); [done|exact W0|]. intros s1 W1 M1. set (x1 := MkTable _ _ [] L) in *.
  assert (Ha1 : array_state sm (made heap S_ L n s s1 sm) x1 lt ∅).
  { split; [unfold zlen; cbn; by rewrite length_replicate|]. split; [cbn; by rewrite length_replicate|].
    intros i v Hv. apply lookup_lt_Some in Hv. exists (nd_v garbage), VALUETYPE_NIL. cbn. rewrite !lookup_replicate_2 by done. by split. }
  assert (Hfinal : ∀ s' sm' x', work S_ L q s s' sm' x' → sm ⊆ sm' → tb_L x' = L → array_rep sm' (made heap S_ L n s s' sm') x' lt →
    hash_rep sm' (made heap S_ L n s s' sm') (tb_hash x') (hash_pairs lt) →
    ∃ sm'', sm ⊆ sm'' ∧ strings_at S_ L s' sm'' ∧ delete q (sh_tables s) ⊆ sh_tables s' ∧ is_Some (sh_tables s' !! q) ∧
      trep heap S_ L (S n) (sh_tables s' ∖ delete q (sh_tables s)) sm'' q t).
  { intros s' sm' x' (W1' & W2' & W3') Hsm HL Ha Hh. exists sm'. split_and!; [done..|by eexists|].
    exists x', lt. split_and!; [apply lookup_difference_Some; split; [done|apply lookup_delete_eq]|done..| |].
    - eapply (array_rep_mono sm' sm'); [done| |exact Ha]. intros q' t'. apply trep_mono; [|done]. apply map_subseteq_spec.
      intros q2 y [Y1 Y2]%lookup_difference_Some. apply lookup_difference_Some. split; [done|]. rewrite lookup_delete_None. auto.
    - eapply (hash_rep_mono sm' sm'); [done| |exact Hh]. intros q' t'. apply trep_mono; [|done]. apply map_subseteq_spec.
      intros q2 y [Y1 Y2]%lookup_difference_Some. apply lookup_difference_Some. split; [done|]. rewrite lookup_delete_None. auto. }
  apply does_bind. eapply does_countsize; [apply Hlt|]. rewrite Z.add_0_l. fold (hash_pairs lt).
  destruct (0 <? zlen (hash_pairs lt)) eqn:E; [apply Z.ltb_lt in E|apply Z.ltb_ge in E].
  - apply does_bind. eapply does_table; [apply W1|]. apply does_bind. eapply (does_put heap S_ L n); [done|exact W1|]. intros s2 W2 M2.
    cbn [tb_arraytype tb_array x1] in W2. set (x2 := MkTable _ _ (replicate _ _) L) in *.
    assert (P1 : pass1 heap S_ L n q s lt s2 sm x2 [] [] []).
    { split; [exact W2|done|unfold x2; cbn [tb_hash]; unfold zlen at 1; rewrite length_replicate; lia| | |done|by intros i k v ?%not_elem_of_nil|by intros k v ?%not_elem_of_nil].
      - exists ∅. split; [by eapply array_state_mono|]. by intros i v ?%not_elem_of_nil.
      - by apply built_nil. }
    apply does_bind. eapply does_fillnocolliding; [done..| |exact P1|]; [done|]. intros s3 sm3 x3 E3 ch3 P3 Hsm3.
    eapply does_fillcolliding; [done..|by exists []|by eapply pass2_start|]. intros s4 sm4 x4 e4 E4 ch4 P4 Hsm4.
    eapply Hfinal; [apply P4|by etransitivity|apply P4|apply P4|by eapply pass2_done].
  - assert (Hnil : hash_pairs lt = []) by (unfold zlen in E; destruct (hash_pairs lt); [done|cbn in E; lia]).
    change 1 with (Z.of_nat (length (@nil lvalue)) + 1). eapply does_fillarray; [done..|exact W1|done|done|exact Ha1|by intros i ?%Nat.nlt_0_r|].
    intros s' sm' x' W' Hsm HL Hh Ha. eapply Hfinal; [done..|]. rewrite Hh, Hnil. split.
    + by intros k v ?%not_elem_of_nil.
    + done.
    + done.
    + intros i Hi. change (zlen []) with 0 in Hi. lia.
    + done.
Qed.
End convtable.

(** ** Reading a copy *)

(** The stack of Lua that [convert_stringmap] leaves. *)
Definition stack_of (sm : gmap (list Z) Z) : gmap Z (list Z) := list_to_map (prod_swap <$> map_to_list sm).

Lemma stack_lookup S_ sm i str : numbered S_ sm → stack_of sm !! i = Some str ↔ sm !! str = Some i.
Proof.
  intros Hn. unfold stack_of. split.
  - intros H%elem_of_list_to_map_2. apply list_elem_of_fmap in H as ([str' i'] & [= -> ->] & H). by apply elem_of_map_to_list.
  - intros H. apply elem_of_list_to_map_1.
    + rewrite <-list_fmap_compose. apply NoDup_fmap_2_strong; [|apply NoDup_map_to_list].
      intros [s1 i1] [s2 i2] H1%elem_of_map_to_list H2%elem_of_map_to_list. cbn. intros ->. f_equal. by eapply (nb_inj _ _ Hn).
    + apply list_elem_of_fmap. exists (str, i). split; [done|]. by apply elem_of_map_to_list.
Qed.

(** A key of [lindexconf]. *)
Definition readable (k : lvalue) : Prop :=
  match k with VInteger i => INT_MIN ≤ i ≤ INT_MAX | VString _ => True | _ => False end.

(** Key, type and string of [hash_of]. *)
Definition key_of (k : lvalue) : Z * Z * list Z :=
  match k with VInteger i => (i, KEYTYPE_INTEGER, []) | VString str => (0, KEYTYPE_STRING, str) | _ => (0, KEYTYPE_STRING, []) end.

Lemma hash_of_readable k s : readable k → hash_of k s = Ret (inr ((key_of k).1.1, khash k, (key_of k).1.2, (key_of k).2), s).
Proof. destruct k; try done. cbn. intros Hi. unfold hash_of. rewrite !i32_id by exact Hi. done. Qed.

Section lookup.
Context (S_ : gset (list Z)) (sm : gmap (list Z) Z) (Hn : numbered S_ sm).
Context (R : positive → positive → Prop) (hash : list node) (pairs : list (lvalue * lvalue)) (Hrep : hash_rep sm R hash pairs).
Context (k : lvalue) (Hk : readable k).
Notation matches := (node_matches (stack_of sm) (khash k) (key_of k).1.1 (key_of k).1.2 (key_of k).2).
Notation turn := (lookup_turn hash (stack_of sm) (khash k) (key_of k).1.1 (key_of k).1.2 (key_of k).2).

Lemma matches_key n k' e : enc sm k' = Some e → key_at n e → matches n = true ↔ k' = k.
Proof.
  intros He Hat. unfold node_matches. unfold key_at in Hat. subst e.
  destruct k' as [| |i'| |str'| | |]; try done; cbn in He.
  - injection He as E1 E2 E3. rewrite <-E1, <-E2, <-E3. destruct k as [| |i| |str| | |]; try done; cbn.
    + rewrite andb_true_iff, !Z.eqb_eq. split; [by intros [_ ->]|by intros [= ->]].
    + rewrite andb_false_r. done.
  - apply fmap_Some in He as (j & Hj & He). injection He as E1 E2 E3. rewrite E1, E2, E3. cbn.
    destruct k as [| |i| |str| | |]; try done; cbn; [by rewrite andb_false_r|].
    rewrite (proj2 (stack_lookup S_ sm j str' Hn) Hj). cbn. rewrite andb_true_iff, Z.eqb_eq, bool_decide_eq_true.
    split; [by intros [_ ->]|by intros [= ->]].
Qed.

Lemma loop_walk i l : walk hash i l → ∀ fuel, (length l ≤ fuel)%nat →
  ∃ r, loop fuel turn i = Ret r ∧
    match r with
    | Some j => j ∈ l ∧ ∃ n, hash !! Z.to_nat j = Some n ∧ matches n = true
    | None => ∀ j n, j ∈ l → hash !! Z.to_nat j = Some n → matches n = false
    end.
Proof.
  assert (Hturn : ∀ i n, 0 ≤ i → hash !! Z.to_nat i = Some n →
    turn i = if matches n then Ret (inr (Some i)) else if nd_next n <? 0 then Ret (inr None) else Ret (inl (nd_next n))).
  { intros i0 n H0 Hi. unfold lookup_turn. destruct (aget_in hash i0) as (y & -> & Hy); [apply lookup_lt_Some in Hi; unfold zlen; lia|].
    by assert (y = n) as -> by congruence. }
  induction 1 as [i n Hi Hni Hnx|i n l Hi Hni Hnx Hw IH]; intros [|fuel] Hf; cbn [length] in Hf; try lia; rewrite loop_S, (Hturn _ _ Hi Hni);
    destruct (matches n) eqn:Em; cbn [mbind outcome_mbind].
  - exists (Some i). split; [done|]. split; [by left|by exists n].
  - rewrite (proj2 (Z.ltb_lt _ _)) by done. exists None. split; [done|]. intros j n' ->%list_elem_of_singleton Hj. congruence.
  - exists (Some i). split; [done|]. split; [by left|by exists n].
  - rewrite (proj2 (Z.ltb_ge (nd_next n) 0) Hnx). cbn [mbind outcome_mbind]. destruct (IH fuel ltac:(lia)) as (r & -> & Hr). exists r. split; [done|].
    destruct r as [j|]; [destruct Hr; split; [by right|done]|]. intros j n' [->|Hj]%elem_of_cons Hj'; [congruence|by eapply Hr].
Qed.

Lemma walk_unique i l l' : walk hash i l → walk hash i l' → l = l'.
Proof.
  intros Hw. revert l'. induction Hw as [i n Hi Hni Hnx|i n l Hi Hni Hnx Hw IH]; intros l' Hw'; inversion Hw'; subst; simplify_eq; try lia; [done|].
  f_equal. by apply IH.
Qed.

Lemma lookup_key_spec : ∃ r,
  lookup_key hash (stack_of sm) (khash k) (key_of k).1.1 (key_of k).1.2 (key_of k).2 = Ret r ∧
  match r with
  | Some i => ∃ v n, (k, v) ∈ pairs ∧ 0 ≤ i ∧ hash !! Z.to_nat i = Some n ∧ vrep sm R v (nd_v n) (nd_valuetype n) ∧
      ∃ e, enc sm k = Some e ∧ key_at n e
  | None => ∀ v, (k, v) ∉ pairs
  end.
Proof.
  pose proof Hrep as [H1 H2 H3 H4 H5]. unfold lookup_key. destruct (zlen hash =? 0) eqn:E0; [apply Z.eqb_eq in E0|apply Z.eqb_neq in E0].
  { exists None. split; [done|]. intros v Hv. rewrite H3 in E0. unfold zlen in E0. destruct pairs; [by apply not_elem_of_nil in Hv|done]. }
  pose proof (zlen_nonneg hash). unfold umod. rewrite (proj2 (Z.eqb_neq _ _)) by done. cbn [mbind outcome_mbind]. fold (main_of hash (khash k)).
  assert (Hr : 0 ≤ main_of hash (khash k) < zlen hash) by (apply Z.mod_pos_bound; lia). set (i := main_of hash (khash k)) in *.
  destruct (aget_in hash i Hr) as (n & -> & Hni). cbn [mbind outcome_mbind]. destruct (H4 i Hr) as (l & Hw & Hlen).
  (* A pair of this key is on the walk. *)
  assert (Hpair : ∀ v, (k, v) ∈ pairs → ∃ j nj, j ∈ l ∧ hash !! Z.to_nat j = Some nj ∧ matches nj = true ∧ nd_keyhash nj = khash k).
  { intros v Hv. destruct (H1 k v Hv) as (j & nj & [[key h] kt] & G1 & G2 & G3 & _ & l' & Hw' & Hj).
    pose proof (enc_khash _ _ _ _ _ G2) as ->. assert (Hh : nd_keyhash nj = khash k) by by injection G3.
    rewrite Hh in Hw'. fold i in Hw'. rewrite <-(walk_unique _ _ _ Hw Hw') in Hj. exists j, nj. split_and!; [done..| |done].
    by apply (matches_key _ _ _ G2 G3). }
  destruct (negb (khash k =? nd_keyhash n) && nd_nocolliding n) eqn:Ee.
  - exists None. split; [done|]. intros v Hv. apply andb_true_iff in Ee as [Ee1%negb_true_iff%Z.eqb_neq Ee2].
    pose proof (H5 _ _ Hni Ee2) as Hnx. destruct (Hpair v Hv) as (j & nj & J1 & J2 & _ & J4).
    inversion Hw as [? n0 ? Hn0 Hx|? n0 l0 ? Hn0 Hx Hw']; subst; rewrite Hni in Hn0; injection Hn0 as <-; [|lia].
    apply list_elem_of_singleton in J1. subst j. rewrite Hni in J2. injection J2 as <-. congruence.
  - destruct (loop_walk i l Hw (S (length hash))) as (r & -> & Hres); [unfold zlen in Hlen; lia|]. exists r. split; [done|].
    destruct r as [j|].
    + destruct Hres as (Hj & nj & Hnj & Hm). pose proof (walk_in _ _ _ _ Hw Hj).
      destruct (H2 _ _ Hnj) as (k' & v & e & K1 & K2 & K3 & K4). apply (matches_key _ _ _ K2 K3) in Hm. subst k'.
      exists v, nj. split_and!; [done|lia|done..|by exists e].
    + intros v Hv. destruct (Hpair v Hv) as (j & nj & J1 & J2 & J3 & _). rewrite (Hres j nj J1 J2) in J3. done.
Qed.
End lookup.

(** What a reader gets for the value [v]. *)
Definition shows (R : positive → positive → Prop) (v : lvalue) (r : option pushed) : Prop :=
  match v with
  | VNil => r = None ∨ r = Some PNil
  | VInteger d => r = Some (PInteger d)
  | VReal n => r = Some (PNumber n)
  | VBoolean b => r = Some (PBoolean b)
  | VString str => r = Some (PString str)
  | VTable t => ∃ q, r = Some (PTable q) ∧ R q t
  | _ => False
  end.

(** The value of a key. *)
Definition lua_get (lt : ltable) (k v : lvalue) : Prop :=
  (k, v) ∈ t_next lt ∨ v = VNil ∧ ∀ v', (k, v') ∉ t_next lt.

Lemma pushvalue_shows S_ sm (R : positive → positive → Prop) v u vt : numbered S_ sm → vrep sm R v u vt →
  ∃ r, pushvalue (stack_of sm) vt u = Ret r ∧ shows R v (Some r).
Proof.
  intros Hn. destruct v as [|b|d|x|str| |t|]; try done; cbn.
  - intros ->. exists PNil. auto.
  - intros [-> ->]. by exists (PBoolean b).
  - intros [-> ->]. by exists (PInteger d).
  - intros [-> ->]. by exists (PNumber x).
  - intros (i & Hi & -> & ->). exists (PString str). split; [|done]. unfold pushvalue. cbn. by rewrite (proj2 (stack_lookup S_ sm i str Hn) Hi).
  - intros (q & -> & -> & HR). exists (PTable q). split; [done|]. by exists q.
Qed.

Lemma shows_mono (R R' : positive → positive → Prop) v r : (∀ q t, R q t → R' q t) → shows R v r → shows R' v r.
Proof. intros HR. destruct v; try done. intros (q & ? & ?). exists q. auto. Qed.

(** The state [s] has the strings [sm] on the stack of [L]. *)
Definition stacked (L : positive) (s : shared) (sm : gmap (list Z) Z) : Prop := ∃ l, sh_states s !! L = Some l ∧ l_stack l = stack_of sm.

Lemma trep_read heap S_ L sm s n q t : numbered S_ sm → stacked L s sm → trep heap S_ L (S n) (sh_tables s) sm q t →
  ∃ lt, heap !! t = Some lt ∧ ∀ k, readable k → ∃ v r,
    lua_get lt k v ∧ lindexconf (Some q) k s = Ret (inr r, s) ∧ shows (trep heap S_ L n (sh_tables s) sm) v r.
Proof.
  intros Hn (l & Hl & Hst) (x & lt & Hq & Ht & HL & Hlt & (Ha1 & _ & Ha2) & Hh). exists lt. split; [done|]. intros k Hk.
  pose proof (tk_len _ _ Hlt) as Hlen.
  (* The hash. *)
  assert (Hhash : array_key (sizearray x) k = false → ∃ v r, lua_get lt k v ∧ shows (trep heap S_ L n (sh_tables s) sm) v r ∧
    does ('(key, keyhash, keytype, str) ⇐ hash_of k;
          n ⇐ lifts (lookup_key (tb_hash x) (l_stack l) keyhash key keytype str);
          match n with
          | Some i => n ⇐ zlookup (tb_hash x) i; v ⇐ lifts (pushvalue (l_stack l) (nd_valuetype n) (nd_v n)); ret (Some v)
          | None => ret None
          end) (λ r' s', r' = r ∧ s' = s) s).
  { intros Hak. assert (Hin : ∀ v, (k, v) ∈ t_next lt ↔ (k, v) ∈ hash_pairs lt).
    { intros v. unfold hash_pairs. rewrite list_elem_of_filter. unfold sizearray in Hak. rewrite Ha1 in Hak. cbn. tauto. }
    destruct (lookup_key_spec S_ sm Hn _ _ _ Hh k Hk) as (o & Ho & Hres).
    destruct o as [i|].
    - destruct Hres as (v & nd & Hv & Hi & Hnd & Hrep & _). destruct (pushvalue_shows _ _ _ _ _ _ Hn Hrep) as (r & Hr & Hsh).
      exists v, (Some r). split; [left; by apply Hin|]. split; [done|].
      apply does_bind. eexists _, s. split; [by apply hash_of_readable|]. cbv beta iota. apply does_bind. rewrite Hst.
      eapply does_lifts; [exact Ho|]. apply does_bind. eapply does_zlookup; [done..|]. apply does_bind. eapply does_lifts; [exact Hr|]. by apply does_ret.
    - exists VNil, None. split; [right; split; [done|]; intros v; rewrite Hin; apply Hres|]. split; [by left|].
      apply does_bind. eexists _, s. split; [by apply hash_of_readable|]. cbv beta iota. apply does_bind. rewrite Hst.
      eapply does_lifts; [exact Ho|]. by apply does_ret. }
  assert (Hpre : ∀ v r, lua_get lt k v ∧ shows (trep heap S_ L n (sh_tables s) sm) v r ∧ does (lindexconf (Some q) k) (λ r' s', r' = r ∧ s' = s) s →
    ∃ v r, lua_get lt k v ∧ lindexconf (Some q) k s = Ret (inr r, s) ∧ shows (trep heap S_ L n (sh_tables s) sm) v r).
  { intros v r (H1 & H2 & a & s' & H3 & -> & ->). by exists v, r. }
  destruct (array_key (sizearray x) k) eqn:Hak.
  - destruct k as [| |i| | | | |]; try done. cbn in Hak, Hk. apply andb_true_iff in Hak as [Hi1%Z.ltb_lt Hi2%Z.leb_le].
    unfold sizearray in Hi2. rewrite Ha1 in Hi2.
    destruct (lookup_lt_is_Some_2 (t_array lt) (Z.to_nat (i - 1))) as [v Hv]; [unfold zlen in Hi2; lia|].
    destruct (Ha2 _ _ Hv) as (u & vt & Hu & Hvt & Hrep). destruct (pushvalue_shows _ _ _ _ _ _ Hn Hrep) as (r & Hr & Hsh).
    apply (Hpre v (Some r)). split_and!; [|done|].
    + assert (v = VNil ∨ v ≠ VNil) as [->|Hne] by (destruct v; [by left|by right..]).
      * right. split; [done|]. intros v' [Hv' Hne]%(tk_array _ _ Hlt); [congruence|lia].
      * left. by apply (tk_array _ _ Hlt).
    + unfold lindexconf, get_table. apply does_bind, does_ret, does_bind. eapply does_table; [done|]. apply does_bind. rewrite HL.
      eapply does_lua; [done|]. rewrite i32_id by done. unfold sizearray. rewrite Ha1, (proj2 (Z.ltb_lt _ _)), (proj2 (Z.leb_le _ _)) by lia. cbn [andb].
      apply does_bind. eapply does_zlookup; [lia|done|]. apply does_bind. eapply does_zlookup; [lia|done|]. apply does_bind. rewrite Hst.
      eapply does_lifts; [exact Hr|]. by apply does_ret.
  - destruct (Hhash eq_refl) as (v & r & H1 & H2 & H3). apply (Hpre v r). split_and!; [done..|].
    unfold lindexconf, get_table. apply does_bind, does_ret, does_bind. eapply does_table; [done|]. apply does_bind. rewrite HL.
    eapply does_lua; [done|]. cbv zeta. destruct k as [| |i| |str| | |]; [done|done| |done|exact H3|done|done|done].
    cbn in Hak, Hk. cbv beta iota. rewrite (i32_id _ Hk), Hak. exact H3.
Qed.

(** ** Walking a copy *)

(** The loop of [pairs] over a copy: the keys that [lnextkey] gives, from [k] on. *)
Fixpoint keys_after (fuel : nat) (tbl : option positive) (k : lvalue) : M (list lvalue) :=
  match fuel with
  | O => liftO NoFuel
  | S fuel =>
      r ⇐ lnextkey tbl k;
      match r with
      | Some (PInteger i) => ks ⇐ keys_after fuel tbl (VInteger i); ret (VInteger i :: ks)
      | Some (PString str) => ks ⇐ keys_after fuel tbl (VString str); ret (VString str :: ks)
      | Some _ => undef
      | None => ret []
      end
  end.

Definition key_pushed (k : lvalue) : option pushed :=
  match k with VInteger i => Some (PInteger i) | VString str => Some (PString str) | _ => None end.

(** The indices of elements that are not nil. *)
Fixpoint array_keys (types : list Z) (i : Z) : list Z :=
  match types with
  | [] => []
  | vt :: types => if negb (vt =? VALUETYPE_NIL) then (i + 1) :: array_keys types (i + 1) else array_keys types (i + 1)
  end.

Lemma next_element_spec types i :
  match next_element types i with
  | Some j => i < j ≤ i + zlen types ∧ array_keys types i = j :: array_keys (drop (Z.to_nat (j - i)) types) j
  | None => array_keys types i = []
  end.
Proof.
  revert i. induction types as [|vt types IH]; intros i; [done|]. cbn [next_element array_keys]. rewrite zlen_cons. pose proof (zlen_nonneg types).
  destruct (negb (vt =? VALUETYPE_NIL)).
  - split; [lia|]. replace (Z.to_nat (i + 1 - i)) with 1%nat by lia. done.
  - specialize (IH (i + 1)). destruct (next_element types (i + 1)) as [j|]; [|done]. destruct IH as [Hj ->]. split; [lia|].
    replace (Z.to_nat (j - i)) with (S (Z.to_nat (j - (i + 1)))) by lia. done.
Qed.

Lemma array_keys_in types i j : j ∈ array_keys types i ↔ ∃ vt, i < j ∧ types !! Z.to_nat (j - i - 1) = Some vt ∧ vt ≠ VALUETYPE_NIL.
Proof.
  revert i. induction types as [|vt types IH]; intros i; cbn [array_keys].
  { rewrite elem_of_nil. split; [done|]. intros (vt & _ & H & _). by rewrite lookup_nil in H. }
  assert (H1 : (∃ vt', i + 1 < j ∧ types !! Z.to_nat (j - (i + 1) - 1) = Some vt' ∧ vt' ≠ VALUETYPE_NIL) ↔
     j ≠ i + 1 ∧ ∃ vt', i < j ∧ (vt :: types) !! Z.to_nat (j - i - 1) = Some vt' ∧ vt' ≠ VALUETYPE_NIL).
  { split.
    - intros (vt' & Hj & H & Hne). split; [lia|]. exists vt'. split; [lia|].
      replace (Z.to_nat (j - i - 1)) with (S (Z.to_nat (j - (i + 1) - 1))) by lia. done.
    - intros (Hj & vt' & Hij & H & Hne). exists vt'. split; [lia|].
      replace (Z.to_nat (j - i - 1)) with (S (Z.to_nat (j - (i + 1) - 1))) in H by lia. done. }
  destruct (vt =? VALUETYPE_NIL) eqn:E; cbn [negb]; rewrite ?elem_of_cons, IH, H1.
  - apply Z.eqb_eq in E. split; [by intros [_ ?]|]. intros (vt' & Hij & H & Hne). split; [|by exists vt'].
    intros ->. replace (Z.to_nat (i + 1 - i - 1)) with 0%nat in H by lia. cbn in H. congruence.
  - apply Z.eqb_neq in E. split.
    + intros [->|[_ ?]]; [|done]. exists vt. split; [lia|]. by replace (Z.to_nat (i + 1 - i - 1)) with 0%nat by lia.
    + intros H. destruct (decide (j = i + 1)) as [->|]; [by left|by right].
Qed.

Lemma array_keys_sorted types i : NoDup (array_keys types i) ∧ Forall (λ j, i < j) (array_keys types i).
Proof.
  revert i. induction types as [|vt types IH]; intros i; cbn [array_keys]; [by split; constructor|].
  destruct (IH (i + 1)) as [H1 H2]. assert (H3 : Forall (λ j, i < j) (array_keys types (i + 1))) by (eapply Forall_impl; [exact H2|]; cbn; lia).
  destruct (negb _); [|done]. split; constructor; [|done|lia|done]. intros Hin. rewrite Forall_forall in H2. apply H2 in Hin. lia.
Qed.

Lemma list_choice {A B} (P : A → B → Prop) l : (∀ x, x ∈ l → ∃ y, P x y) → ∃ l', Forall2 P l l'.
Proof.
  induction l as [|x l IH]; intros H; [by exists []|].
  destruct (H x) as [y Hy]; [by left|]. destruct IH as [l' Hl]; [intros z Hz; apply H; by right|]. exists (y :: l'). by constructor.
Qed.

Section slots.
Context (S_ : gset (list Z)) (sm : gmap (list Z) Z) (Hn : numbered S_ sm).
Context (R : positive → positive → Prop) (hash : list node) (pairs : list (lvalue * lvalue)) (Hrep : hash_rep sm R hash pairs).
Context (Hnodup : NoDup pairs.*1) (Hkeys : Forall (λ kv, key_ok S_ kv.1) pairs).

Definition slot_key (n : node) (k : lvalue) : Prop := ∃ e, enc sm k = Some e ∧ key_at n e.

Lemma slot_key_unique n k k' : slot_key n k → slot_key n k' → k = k'.
Proof. intros ([[key h] kt] & He & Hat) ([[key' h'] kt'] & He' & Hat'). unfold key_at in *. rewrite Hat in Hat'. injection Hat' as <- <- <-. by eapply enc_inj. Qed.

Lemma slot_keys : ∃ ks, Forall2 slot_key hash ks ∧ ks ≡ₚ pairs.*1.
Proof.
  pose proof Hrep as [H1 H2 H3 H4 H5]. destruct (list_choice slot_key hash) as [ks Hks].
  { intros n (i & Hi)%list_elem_of_lookup. destruct (H2 i n Hi) as (k & v & e & _ & ? & ? & _). by exists k, e. }
  exists ks. split; [done|]. symmetry. apply submseteq_length_Permutation.
  - apply NoDup_submseteq; [done|]. intros k Hk. apply list_elem_of_fmap in Hk as ([k' v] & -> & Hkv). cbn.
    destruct (H1 k' v Hkv) as (i & n & e & Hni & He & Hat & _). destruct (Forall2_lookup_l _ _ _ _ _ Hks Hni) as (k2 & Hk2 & Hsk).
    assert (k' = k2) as -> by (eapply slot_key_unique; [by exists e|done]). by eapply list_elem_of_lookup_2.
  - rewrite length_fmap, <-(Forall2_length _ _ _ Hks). unfold zlen in H3. lia.
Qed.

Lemma key_readable k v : (k, v) ∈ pairs → readable k.
Proof. intros Hk. pose proof (proj1 (Forall_forall _ _) Hkeys _ Hk) as H. by destruct k. Qed.

Lemma lookup_own ks i k : Forall2 slot_key hash ks → ks ≡ₚ pairs.*1 → ks !! i = Some k →
  readable k ∧ lookup_key hash (stack_of sm) (khash k) (key_of k).1.1 (key_of k).1.2 (key_of k).2 = Ret (Some (Z.of_nat i)).
Proof.
  intros Hks Hperm Hi. assert (Hin : k ∈ pairs.*1) by (rewrite <-Hperm; by eapply list_elem_of_lookup_2).
  apply list_elem_of_fmap in Hin as ([k' v] & -> & Hkv). cbn [fst] in *. pose proof (key_readable _ _ Hkv) as Hr. split; [done|].
  destruct (lookup_key_spec S_ sm Hn R hash pairs Hrep k' Hr) as ([j|] & -> & Hj); [|by apply Hj in Hkv].
  destruct Hj as (v' & n & _ & Hj & Hnj & _ & e & He & Hat). do 2 f_equal.
  destruct (Forall2_lookup_l _ _ _ _ _ Hks Hnj) as (k2 & Hk2 & Hsk). assert (k' = k2) as -> by (eapply slot_key_unique; [by exists e|done]).
  assert (Hnd : NoDup ks) by (by rewrite Hperm). pose proof (NoDup_lookup _ _ _ _ Hnd Hi Hk2). lia.
Qed.

Lemma pushkey_own n k : slot_key n k → pushkey (stack_of sm) n = match key_pushed k with Some r => Ret r | None => Undef end ∧ key_pushed k ≠ None.
Proof.
  intros (e & He & Hat). unfold key_at in Hat. subst e. destruct k as [| |i| |str| | |]; try done; cbn in He.
  - injection He as E1 E2 E3. unfold pushkey. rewrite <-E3, <-E1. done.
  - apply fmap_Some in He as (j & Hj & [= E1 E2 E3]). unfold pushkey. rewrite E3, E1. cbn. by rewrite (proj2 (stack_lookup S_ sm j str Hn) Hj).
Qed.
End slots.

Section walking.
Context (S_ : gset (list Z)) (L q : positive) (s : shared) (sm : gmap (list Z) Z) (l : lua_State) (x : table) (ks : list lvalue).
Context (Hn : numbered S_ sm) (Hl : sh_states s !! L = Some l) (Hst : l_stack l = stack_of sm).
Context (Hq : sh_tables s !! q = Some x) (HL : tb_L x = L) (Hlen : sizearray x ≤ INT_MAX).
Context (Hks : Forall2 (slot_key sm) (tb_hash x) ks).
Context (Hown : ∀ i k, ks !! i = Some k → readable k ∧ array_key (sizearray x) k = false ∧
  lookup_key (tb_hash x) (stack_of sm) (khash k) (key_of k).1.1 (key_of k).1.2 (key_of k).2 = Ret (Some (Z.of_nat i))).
Notation gives m r := (does m (λ r' s', r' = r ∧ s' = s) s).

Lemma gives_start {A} (f : table → lua_State → M A) r : gives (f x l) r →
  gives (tbl ⇐ get_table (Some q); x ⇐ the_table tbl; l ⇐ the_lua (tb_L x); f x l) r.
Proof.
  intros H. apply does_bind, does_ret, does_bind. eapply does_table; [exact Hq|]. apply does_bind. rewrite HL. by eapply does_lua.
Qed.

Lemma keys_cons k k' fuel rest : gives (lnextkey (Some q) k) (key_pushed k') → key_pushed k' ≠ None → gives (keys_after fuel (Some q) k') rest →
  gives (keys_after (S fuel) (Some q) k) (k' :: rest).
Proof.
  intros H Hk' Hrest. cbn [keys_after]. apply does_bind. eapply does_mono; [exact H|]. cbv beta. intros r s' [-> ->].
  destruct k'; try done; cbn [key_pushed]; apply does_bind; (eapply does_mono; [exact Hrest|]); cbv beta; intros r s' [-> ->]; by apply does_ret.
Qed.

Lemma keys_nil k fuel : gives (lnextkey (Some q) k) None → gives (keys_after (S fuel) (Some q) k) [].
Proof. intros H. cbn [keys_after]. apply does_bind. eapply does_mono; [exact H|]. cbv beta. intros r s' [-> ->]. by apply does_ret. Qed.

Lemma does_pushkey i k : ks !! i = Some k → key_pushed k ≠ None ∧
  gives (n ⇐ zlookup (tb_hash x) (Z.of_nat i); v ⇐ lifts (pushkey (l_stack l) n); ret (Some v)) (key_pushed k).
Proof.
  intros Hi. destruct (Forall2_lookup_r _ _ _ _ _ Hks Hi) as (n & Hni & Hsk). destruct (pushkey_own S_ sm Hn n k Hsk) as [Hp Hne].
  split; [done|]. apply does_bind. eapply does_zlookup; [lia|by rewrite Nat2Z.id|]. apply does_bind. rewrite Hst.
  destruct (key_pushed k) as [r|]; [|done]. eapply does_lifts; [exact Hp|]. by apply does_ret.
Qed.

Lemma nextkey_hash i k : ks !! i = Some k → gives (lnextkey (Some q) k) (ks !! S i ≫= key_pushed).
Proof.
  intros Hi. destruct (Hown i k Hi) as (Hr & Hak & Hlk). apply gives_start.
  assert (H : gives ('(key, keyhash, keytype, str) ⇐ hash_of k;
    n ⇐ lifts (lookup_key (tb_hash x) (l_stack l) keyhash key keytype str);
    match n with
    | Some i =>
        if i + 1 =? sizehash x then ret None
        else n ⇐ zlookup (tb_hash x) (i + 1); v ⇐ lifts (pushkey (l_stack l) n); ret (Some v)
    | None => ret None
    end) (ks !! S i ≫= key_pushed)).
  { apply does_bind. eexists _, s. split; [by apply hash_of_readable|]. cbv beta iota. apply does_bind. rewrite Hst at 1.
    eapply does_lifts; [exact Hlk|]. unfold sizehash, zlen. rewrite (Forall2_length _ _ _ Hks). pose proof (lookup_lt_Some _ _ _ Hi).
    destruct (Z.of_nat i + 1 =? Z.of_nat (length ks)) eqn:E; [apply Z.eqb_eq in E|apply Z.eqb_neq in E].
    - rewrite lookup_ge_None_2 by lia. by apply does_ret.
    - destruct (lookup_lt_is_Some_2 ks (S i)) as [k' Hk']; [lia|]. rewrite Hk'. replace (Z.of_nat i + 1) with (Z.of_nat (S i)) by lia.
      cbn [mbind option_bind]. by apply does_pushkey. }
  cbv zeta. destruct k as [| |i'| |str| | |]; [done|done| |done|exact H|done|done|done].
  cbn in Hak, Hr. cbv beta iota. rewrite (i32_id _ Hr), Hak. exact H.
Qed.

Lemma keys_hash m : ∀ i k, ks !! i = Some k → (length ks ≤ i + m)%nat → gives (keys_after m (Some q) k) (drop (S i) ks).
Proof.
  induction m as [|m IH]; intros i k Hi Hm; [apply lookup_lt_Some in Hi; lia|]. pose proof (nextkey_hash i k Hi) as Hnext.
  destruct (ks !! S i) as [k'|] eqn:Hk'.
  - rewrite (drop_S _ _ _ Hk'). destruct (does_pushkey _ _ Hk') as [Hne _]. cbn in Hnext. apply keys_cons; [exact Hnext|done|]. apply IH; [done|lia].
  - rewrite drop_ge by (apply lookup_ge_None_1 in Hk'; lia). by apply keys_nil.
Qed.

(** From the element [i] on, or from the start. *)
Lemma nextkey_array i k : 0 ≤ i ≤ sizearray x → (i = 0 ∧ k = VNil ∨ 0 < i ∧ k = VInteger i) →
  gives (lnextkey (Some q) k)
    (match next_element (drop (Z.to_nat i) (tb_arraytype x)) i with Some j => Some (PInteger j) | None => ks !! 0%nat ≫= key_pushed end).
Proof.
  intros Hi Hk. apply gives_start. cbv zeta.
  assert (H : gives (match next_element (drop (Z.to_nat i) (tb_arraytype x)) i with
      | Some i => ret (Some (PInteger i)) | None => pushfirsthash x (l_stack l) end)
    (match next_element (drop (Z.to_nat i) (tb_arraytype x)) i with Some j => Some (PInteger j) | None => ks !! 0%nat ≫= key_pushed end)).
  { destruct (next_element _ i) as [j|]; [by apply does_ret|]. unfold pushfirsthash, sizehash, zlen. rewrite (Forall2_length _ _ _ Hks).
    destruct (ks !! 0%nat) as [k0|] eqn:Hk0.
    - pose proof (lookup_lt_Some _ _ _ Hk0). rewrite (proj2 (Z.eqb_neq _ _)) by lia. by apply (does_pushkey 0).
    - apply lookup_ge_None_1 in Hk0. rewrite (proj2 (Z.eqb_eq _ _)) by lia. by apply does_ret. }
  destruct Hk as [[-> ->]|[Hi0 ->]]; [exact H|]. rewrite i32_id by (unfold INT_MIN; lia).
  rewrite (proj2 (Z.ltb_lt _ _)), (proj2 (Z.leb_le _ _)) by lia. exact H.
Qed.

Lemma keys_array js : ∀ i k fuel, array_keys (drop (Z.to_nat i) (tb_arraytype x)) i = js → zlen (tb_arraytype x) = sizearray x →
  0 ≤ i ≤ sizearray x → (i = 0 ∧ k = VNil ∨ 0 < i ∧ k = VInteger i) → (length js + length ks < fuel)%nat →
  gives (keys_after fuel (Some q) k) ((VInteger <$> js) ++ ks).
Proof.
  induction js as [|j js IH]; intros i k [|fuel] Hjs Htypes Hi Hk Hfuel; cbn [length] in Hfuel; try lia;
    pose proof (nextkey_array i k Hi Hk) as Hnext; pose proof (next_element_spec (drop (Z.to_nat i) (tb_arraytype x)) i) as Hspec;
    rewrite Hjs in Hspec; destruct (next_element _ i) as [j'|]; try (by destruct Hspec); try discriminate Hspec.
  - destruct (ks !! 0%nat) as [k0|] eqn:Hk0.
    + destruct (does_pushkey _ _ Hk0) as [Hne _]. cbn [fmap list_fmap app]. rewrite <-(drop_0 ks), (drop_S _ _ _ Hk0).
      apply keys_cons; [exact Hnext|done|]. apply keys_hash; [done|lia].
    + apply lookup_ge_None_1 in Hk0. rewrite (nil_length_inv ks) by lia. by apply keys_nil.
  - destruct Hspec as [Hj [= <- Hjs']]. rewrite fmap_cons. cbn [app]. apply keys_cons; [exact Hnext|done|].
    assert (Hj' : i < j ≤ sizearray x) by (revert Hj; unfold zlen in *; rewrite length_drop; lia).
    apply (IH j); [|done|lia|by right; split; [lia|]|lia]. rewrite Hjs', drop_drop. do 2 f_equal. lia.
Qed.
End walking.

(** The keys of a table. *)
Definition keys_of (lt : ltable) : list lvalue := (t_next lt).*1.

Lemma vrep_not_nil sm (R : positive → positive → Prop) v u vt : vrep sm R v u vt → v ≠ VNil → vt ≠ VALUETYPE_NIL.
Proof.
  destruct v; try done; cbn; [by intros [_ ->]..| |].
  - by intros (i & _ & _ & ->).
  - by intros (q & _ & -> & _).
Qed.

Lemma array_keys_of S_ sm (R : positive → positive → Prop) x lt : table_ok S_ lt → array_rep sm R x lt →
  ∀ k, k ∈ VInteger <$> array_keys (tb_arraytype x) 0 ↔ array_key (zlen (t_array lt)) k = true ∧ k ∈ keys_of lt.
Proof.
  intros Hlt (_ & Ha0 & Ha) k. rewrite list_elem_of_fmap. unfold keys_of.
  assert (Hin : ∀ j, j ∈ array_keys (tb_arraytype x) 0 ↔ 0 < j ≤ zlen (t_array lt) ∧ VInteger j ∈ (t_next lt).*1).
  { intros j. rewrite array_keys_in. split.
    - intros (vt & Hj & Hvt & Hne). assert (Hr : 0 < j ≤ zlen (t_array lt)) by (pose proof (lookup_lt_Some _ _ _ Hvt); unfold zlen; lia).
      split; [done|]. destruct (lookup_lt_is_Some_2 (t_array lt) (Z.to_nat (j - 1))) as [v Hv]; [unfold zlen in Hr; lia|].
      destruct (Ha _ _ Hv) as (u & vt' & _ & Hvt' & Hrep). replace (Z.to_nat (j - 0 - 1)) with (Z.to_nat (j - 1)) in Hvt by lia.
      apply list_elem_of_fmap. exists (VInteger j, v). split; [done|]. apply (tk_array _ _ Hlt); [done|]. split; [done|].
      intros ->. cbn in Hrep. congruence.
    - intros [Hr Hk]. apply list_elem_of_fmap in Hk as ([k' v] & [= <-] & Hkv). apply (tk_array _ _ Hlt) in Hkv as [Hv Hne]; [|done].
      destruct (Ha _ _ Hv) as (u & vt & _ & Hvt & Hrep). exists vt. split; [lia|]. replace (j - 0 - 1) with (j - 1) by lia. split; [done|].
      by eapply vrep_not_nil. }
  split.
  - intros (j & -> & [Hj Hk]%Hin). split; [|done]. cbn. by rewrite (proj2 (Z.ltb_lt _ _)), (proj2 (Z.leb_le _ _)) by lia.
  - intros [Hak Hk]. destruct k as [| |j| | | | |]; try done. cbn in Hak. apply andb_true_iff in Hak as [H1%Z.ltb_lt H2%Z.leb_le].
    exists j. split; [done|]. by apply Hin.
Qed.

Lemma NoDup_fst_filter {A B} (P : A * B → Prop) `{!∀ x, Decision (P x)} (l : list (A * B)) : NoDup l.*1 → NoDup (filter P l).*1.
Proof.
  induction l as [|[a b] l IH]; [done|]. intros [Ha Hnd]%NoDup_cons. rewrite filter_cons. destruct (decide (P (a, b))); [|by apply IH].
  apply NoDup_cons. split; [|by apply IH]. cbn. intros (y & Ey & [_ Hy]%list_elem_of_filter)%list_elem_of_fmap. apply Ha.
  apply list_elem_of_fmap. by exists y.
Qed.

Lemma trep_keys heap S_ L sm s n q t : numbered S_ sm → stacked L s sm → trep heap S_ L (S n) (sh_tables s) sm q t →
  ∃ lt fuel ks, heap !! t = Some lt ∧ keys_after fuel (Some q) VNil s = Ret (inr ks, s) ∧ ks ≡ₚ keys_of lt.
Proof.
  intros Hn (l & Hl & Hst) (x & lt & Hq & Ht & HL & Hlt & Ha & Hh).
  assert (Hnd : NoDup (hash_pairs lt).*1) by (apply NoDup_fst_filter, (tk_nodup _ _ Hlt)).
  assert (Hok : Forall (λ kv, key_ok S_ kv.1) (hash_pairs lt)) by (apply Forall_forall; intros kv [_ Hkv]%list_elem_of_filter; by apply (proj1 (Forall_forall _ _) (tk_keys _ _ Hlt))).
  destruct (slot_keys S_ sm Hn _ _ _ Hh Hnd) as (ks & Hks & Hperm). pose proof Ha as (Ha1 & Ha0 & _).
  assert (Hsize : sizearray x = zlen (t_array lt)) by done.
  destruct (keys_array S_ L q s sm l x ks Hn Hl Hst Hq HL) with (js := array_keys (tb_arraytype x) 0) (i := 0) (k := VNil)
    (fuel := S (length (array_keys (tb_arraytype x) 0) + length ks)) as (ks' & s' & Hrun & -> & ->).
  - rewrite Hsize. apply (tk_len _ _ Hlt).
  - done.
  - intros i k Hi. destruct (lookup_own S_ sm Hn _ _ _ Hh Hnd Hok ks i k Hks Hperm Hi) as [Hr Hlk]. split_and!; [done| |done].
    assert (Hk : k ∈ (hash_pairs lt).*1) by (rewrite <-Hperm; by eapply list_elem_of_lookup_2).
    apply list_elem_of_fmap in Hk as ([k' v] & -> & Hkv). unfold hash_pairs in Hkv. apply list_elem_of_filter in Hkv as [Hkv _]. by rewrite Hsize.
  - done.
  - unfold zlen. rewrite Ha0. unfold sizearray in Hsize. unfold sizearray. rewrite Hsize. done.
  - unfold sizearray. pose proof (zlen_nonneg (tb_array x)). lia.
  - by left.
  - lia.
  - exists lt. do 2 eexists. split; [done|]. split; [exact Hrun|]. apply NoDup_Permutation.
    + apply NoDup_app. split_and!; [|intros k [Hk _]%(array_keys_of _ _ _ _ _ Hlt Ha)|by rewrite Hperm].
      * apply NoDup_fmap_2; [by intros ?? [= ->]|]. apply array_keys_sorted.
      * rewrite Hperm. intros ([k' v] & -> & Hkv)%list_elem_of_fmap. unfold hash_pairs in Hkv. apply list_elem_of_filter in Hkv as [Hkv _]. cbn in *. congruence.
    + apply (tk_nodup _ _ Hlt).
    + intros k. rewrite elem_of_app, (array_keys_of _ _ _ _ _ Hlt Ha), Hperm. unfold keys_of, hash_pairs. rewrite !list_elem_of_fmap.
      split.
      * intros [[_ H]|([k' v] & -> & [_ Hkv]%list_elem_of_filter)]; [done|]. by exists (k', v).
      * intros ([k' v] & -> & Hkv). cbn [fst]. destruct (array_key (zlen (t_array lt)) k') eqn:E.
        -- left. split; [done|]. by exists (k', v).
        -- right. exists (k', v). split; [done|]. by apply list_elem_of_filter.
Qed.

(** [n] levels of the table [t] are read at [q] as they are in Lua: each key, and the walk
    over the keys. *)
Fixpoint reads (heap : gmap positive ltable) (n : nat) (s : shared) (q t : positive) : Prop :=
  match n with
  | O => True
  | S n => ∃ lt, heap !! t = Some lt ∧
      (∃ fuel ks, keys_after fuel (Some q) VNil s = Ret (inr ks, s) ∧ ks ≡ₚ keys_of lt) ∧
      ∀ k, readable k → ∃ v r,
        lua_get lt k v ∧ lindexconf (Some q) k s = Ret (inr r, s) ∧ shows (reads heap n s) v r
  end.

Lemma trep_reads heap S_ L sm s m : ∀ n q t, numbered S_ sm → stacked L s sm → trep heap S_ L n (sh_tables s) sm q t → reads heap m s q t.
Proof.
  induction m as [|m IH]; intros n q t Hn Hs Hrep; [done|]. destruct n as [|n]; [done|].
  destruct (trep_read _ _ _ _ _ _ _ _ Hn Hs Hrep) as (lt & Ht & Hk). exists lt. split; [done|].
  destruct (trep_keys _ _ _ _ _ _ _ _ Hn Hs Hrep) as (lt' & fuel & ks & Ht' & Hks). rewrite Ht in Ht'. injection Ht' as <-.
  split; [by exists fuel, ks|]. intros k Hr.
  destruct (Hk k Hr) as (v & r & H1 & H2 & H3). exists v, r. split_and!; [done..|]. eapply shows_mono; [|exact H3].
  intros q' t' Hrep'. by eapply IH.
Qed.

Lemma does_catch {A B} (m : M A) (f : A → M B) (g : string → M B) Q s :
  does m (λ a s', does (f a) Q s') s → does (r ← m; match r with inr a => f a | inl e => g e end) Q s.
Proof.
  intros (a & s' & Hm & b & s'' & Hf & HQ). exists b, s''. split; [|done].
  unfold mbind, stateM_mbind. by rewrite Hm.
Qed.

Lemma does_convert L tbl s l (Q : unit → shared → Prop) : sh_states s !! L = Some l →
  (∀ s', sh_tables s' = sh_tables s → stacked L s' (l_map l) → Q tt s') → does (convert_stringmap L tbl) Q s.
Proof.
  intros Hl HQ. apply does_bind. eapply does_lua; [exact Hl|]. apply does_put_lua, HQ; [done|].
  eexists. split; [apply lookup_insert_eq|]. done.
Qed.

Section lnewconf.
Context (heap : gmap positive ltable) (garbage : node) (max_calls : nat) (max_strings : Z).
Context (S_ : gset (list Z)) (Hfit : 1 + Z.of_nat (size S_) ≤ INT_MAX) (Hroom : 1 + Z.of_nat (size S_) ≤ max_strings).

(** C29: A configuration reads like the table it is made of, for the tables that a configuration
    is meant to be ([nested]): on every level the keys are strings and integers of 32 bits,
    the values are of the types that can be copied, and the tables are nested less deep than Lua
    lets C calls be. For an integer key of more than 32 bits and for a key of another type it is
    false of the code, see [wide_key_overwrites] and [table_key_is_empty_string]. [lnewconf]
    copies such a table (its strings are [S_]), and on the copy [lindexconf] gives for each string and each [int] what the table has there, for tables in it too,
    through array, hash and the chains of colliding keys; [nil] for the keys it has not. The
    keys that [lnextkey] gives one after the other are those of the table, each once. The copies
    made before are kept. *)
Theorem conf_reads_like_table t s : nested heap S_ max_calls t →
  ∃ p s', lnewconf heap garbage max_calls max_strings t s = Ret (inr p, s') ∧ sh_tables s ⊆ sh_tables s' ∧
    ∀ n, reads heap n s' p t.
Proof.
  intros Hnest. assert (H : does (lnewconf heap garbage max_calls max_strings t) (λ p s', sh_tables s ⊆ sh_tables s' ∧ ∀ n, reads heap n s' p t) s).
  2: { destruct H as (p & s' & ? & ? & ?). by exists p, s'. }
  unfold lnewconf. apply does_gets. set (L := fresh (dom (sh_states s))). apply does_bind, does_put_lua, does_gets.
  set (s1 := set_states _ s). set (p := fresh (dom (sh_tables s1))).
  assert (Hp : sh_tables s !! p = None) by (apply not_elem_of_dom, (is_fresh (dom (sh_tables s1)))).
  apply does_bind, does_put_table, does_catch. set (s2 := set_tables _ s1).
  assert (Hs2 : strings_at S_ L s2 ∅).
  { eexists. split; [apply lookup_insert_eq|]. cbn. rewrite map_size_empty. split_and!; [done..|]. by split; intros; rewrite ?dom_empty_L. }
  unfold pconv. apply does_bind. eapply does_mono; [eapply (convtable_spec heap garbage S_ L Hfit max_calls s2 ∅ p t); [done|apply lookup_insert_eq|done]|].
  intros _ s3 (sm & _ & (l & Hl & Hm & Hidx & Hn) & Hsub & _ & Hrep). apply does_bind. eapply does_lua; [exact Hl|].
  assert (Hsize : (size sm ≤ size S_)%nat) by (rewrite <-size_dom; apply subseteq_size, Hn).
  rewrite Hidx, (proj2 (Z.ltb_ge _ _)) by lia. apply does_ret, does_bind. eapply does_convert; [exact Hl|]. intros s4 Htab Hst. rewrite Hm in Hst.
  apply does_ret. cbn [s2 s1 sh_tables set_tables set_states] in Hsub, Hrep. rewrite delete_insert_id in Hsub, Hrep by done.
  rewrite Htab. split; [done|]. intros n. eapply trep_reads; [exact Hn|exact Hst|]. rewrite Htab.
  eapply trep_mono; [|reflexivity|exact Hrep]. apply map_subseteq_spec. by intros q y [? _]%lookup_difference_Some.
Qed.
End lnewconf.

(** A table with elements, colliding keys and a table in it. *)
Definition demo_heap : gmap positive ltable :=
  <[1%positive := Seri.MkTable [VInteger 10; VTable 2]
      [(VInteger 1, VInteger 10); (VInteger 2, VTable 2); (VString [97], VString [120]); (VInteger 7, VBoolean true); (VInteger 10, VReal 3)] None]>
    {[2%positive := Seri.MkTable [] [(VString [97], VInteger 5)] None]}.
Definition demo_strings : gset (list Z) := {[[97]; [120]]}.
Definition demo_node : node := MkNode UNone 0 0 0 0 0 true.

Lemma demo_nested : nested demo_heap demo_strings 2 1.
Proof.
  assert (H2 : nested demo_heap demo_strings 1 2).
  { eexists. split; [reflexivity|]. split.
    - split; cbn.
      + repeat constructor; cbn; set_solver.
      + repeat constructor; set_solver.
      + set_solver.
      + intros i v. change (zlen []) with 0. lia.
      + done.
    - intros k v. cbn. rewrite list_elem_of_singleton. by intros [= -> ->]. }
  eexists. split; [reflexivity|]. split.
  - split; cbn [t_next t_array].
    + repeat constructor; cbn; unfold INT_MIN, INT_MAX; try lia; set_solver.
    + repeat constructor; set_solver.
    + intros k. set_solver.
    + intros i v Hi. change (0 < i ≤ 2) in Hi. assert (i = 1 ∨ i = 2) as [->| ->] by lia.
      * change (Z.to_nat (1 - 1)) with 0%nat. set_solver.
      * change (Z.to_nat (2 - 1)) with 1%nat. set_solver.
    + done.
  - intros k v. cbn [t_next]. rewrite !elem_of_cons. intros [[= -> ->]|[[= -> ->]|[[= -> ->]|[[= -> ->]|[[= -> ->]|[]%not_elem_of_nil]]]]]; done.
Qed.

Lemma conf_reads_like_table_witness : nested demo_heap demo_strings 2 1 ∧
  ∃ p s', lnewconf demo_heap demo_node 2 8000 1 (MkShared ∅ ∅ ∅) = Ret (inr p, s') ∧ ∅ ⊆ sh_tables s' ∧ ∀ n, reads demo_heap n s' p 1.
Proof.
  split; [exact demo_nested|].
  apply (conf_reads_like_table demo_heap demo_node 2 8000 demo_strings); [by vm_compute|by vm_compute|exact demo_nested].
Defined.

(** An integer key that is no [int] is cut to 32 bits when it is copied: the key 2^32 + 1
    writes the element 1, and its slot of the hash stays empty. *)
Definition wide_heap : gmap positive ltable :=
  {[1%positive := Seri.MkTable [VInteger 10] [(VInteger 1, VInteger 10); (VInteger 4294967297, VInteger 99)] None]}.

Lemma wide_key_overwrites : ∃ p s,
  lnewconf wide_heap demo_node 2 8000 1 (MkShared ∅ ∅ ∅) = Ret (inr p, s) ∧
  lindexconf (Some p) (VInteger 1) s = Ret (inr (Some (PInteger 99)), s) ∧
  lhashlen (Some p) s = Ret (inr 1, s).
Proof. eexists _, _. split; [vm_compute; reflexivity|]. split; vm_compute; reflexivity. Qed.

(** A key that is a table passes [countsize] and is copied as the empty string. *)
Definition table_key_heap : gmap positive ltable :=
  {[1%positive := Seri.MkTable [] [(VTable 1, VInteger 5)] None]}.

Lemma table_key_is_empty_string : ∃ p s,
  lnewconf table_key_heap demo_node 2 8000 1 (MkShared ∅ ∅ ∅) = Ret (inr p, s) ∧
  lindexconf (Some p) (VString []) s = Ret (inr (Some (PInteger 5)), s).
Proof. eexists _, _. split; [vm_compute; reflexivity|]. vm_compute. reflexivity. Qed.
