(* ===== verification/Command.v ===== *)
(** * Commands of services

    The model of [fengnet_command] in [fengnet-src/fengnet.cpp]: a service asks for
    an operation by its name, with a text, and gets a text back. The commands work
    on everything a process has: the state [center] is the node ([Server]), the
    timer wheel ([Timer]), [G_NODE.monitor_exit], and the table of the environment
    ([fengnet_env.cpp], the global variables of a Lua state).

    A [const char *] is [option cstring], [None] for a null pointer. The result is
    in [context->result], which nobody reads later, or in the table of names. *)
From S2P Require Import Prelude Text MessageQueue Scheduler Handle Timer Server StateM.

Local Open Scope Z_scope.

(** ** Text *)

Definition hex_digit (d : Z) : Z := if d <? 10 then 48 + d else 87 + d.

(** ["%x"] of a [uint32_t], which has 8 digits at most. *)
Fixpoint show_hex (fuel : nat) (x : Z) : cstring :=
  match fuel with
  | O => []
  | S fuel => (if x <? 16 then [] else show_hex fuel (x / 16)) ++ [hex_digit (x mod 16)]
  end.

(** [":%x"]. *)
Definition handle_text (h : Z) : cstring := 58 :: show_hex 8 h.

(** [hex] of [id_to_hex]. *)
Definition hex : list Z := codes "0123456789ABCDEF".

Definition id_to_hex (id : Z) : cstring :=
  58 :: ((λ i, nth (Z.to_nat (Z.land (Z.shiftr id ((7 - i) * 4)) 0xf)) hex 0) <$> [0; 1; 2; 3; 4; 5; 6; 7]).

(** The characters before the first that [stop]s, and those behind it. *)
Fixpoint split_at (stop : Z → bool) (s : cstring) : cstring * option cstring :=
  match s with
  | [] => ([], None)
  | c :: s' => if stop c then ([], Some s') else let '(w, r) := split_at stop s' in (c :: w, r)
  end.

(** [strsep(&s, delim)]: the token and the new [s]. *)
Definition strsep (s : option cstring) (delim : list Z) : option cstring * option cstring :=
  match s with
  | None => (None, None)
  | Some s => let '(w, r) := split_at (λ c, bool_decide (c ∈ delim)) s in (Some w, r)
  end.

(** [strchr(s, ' ')]. *)
Fixpoint strchr_space (s : cstring) : option cstring :=
  match s with
  | [] => None
  | c :: s' => if c =? 32 then Some s else strchr_space s'
  end.

(** [strtol(s, nullptr, 0)] into an [int]: the digits tell the base. *)
Definition strtol0 (s : cstring) : Z :=
  let '(neg, s') := sign_of (skip_spaces s) in
  let v :=
    match s' with
    | c0 :: s1 =>
        if c0 =? 48 then
          match s1 with
          | c1 :: c2 :: r =>
              if ((c1 =? 120) || (c1 =? 88)) && (digit_of c2 <? 16) then fst (digits 16 0 false (c2 :: r))
              else fst (digits 8 0 false s')
          | _ => fst (digits 8 0 false s')
          end
        else fst (digits 10 0 false s')
    | [] => 0
    end in
  i32 (Z.max (- 2 ^ 63) (Z.min (2 ^ 63 - 1) (if neg then - v else v))).

(** ** The state *)

Definition PTYPE_CLIENT : Z := 3.

(** [g_env]: the strings among the globals of [L], which is null at first. *)
Record center (E : Type) := MkCenter {
  g_node : node E;
  g_timer : timer;
  g_monitor_exit : Z;
  g_env : option (gmap cstring cstring)
}.
Arguments MkCenter {E} g_node g_timer g_monitor_exit g_env.
Arguments g_node {E} c.
Arguments g_timer {E} c.
Arguments g_monitor_exit {E} c.
Arguments g_env {E} c.

(** The signal handler of a module, [fopen] for a log file, [fclose], and ["%lf"] of
    so many microseconds as seconds. *)
Class CommandOutside (E : Type) := {
  module_signal : node E → Z → Z → Z → outcome (node E);
  fopen : E → cstring → Z * E;
  fclose : E → Z → E;
  print_seconds : Z → cstring
}.

Definition set_logfile (x : fengnet_context) (f : Z) : fengnet_context :=
  MkContext (c_instance x) (c_mod x) (c_cb_ud x) (c_cb x) (c_queue x) f (c_cpu_cost x)
    (c_cpu_start x) (c_handle x) (c_session_id x) (c_ref x) (c_message_count x) (c_init x) (c_endless x)
    (c_profile x) (c_calling x).

Section commands.
Context {E : Type} `{!Outside E} `{!CommandOutside E} (fuel : nat).
Implicit Types (g : center E) (n : node E) (context : positive) (param : option cstring).
Notation C := (stateM (center E)).

Definition with_node n g : center E := MkCenter n (g_timer g) (g_monitor_exit g) (g_env g).
Definition with_timer (T : timer) g : center E := MkCenter (g_node g) T (g_monitor_exit g) (g_env g).
Definition with_monitor (h : Z) g : center E := MkCenter (g_node g) (g_timer g) h (g_env g).
Definition with_env (e : option (gmap cstring cstring)) g : center E :=
  MkCenter (g_node g) (g_timer g) (g_monitor_exit g) e.

Definition on_node {A} (m : node E → outcome (A * node E)) : C A :=
  λ g, '(a, n) ← m (g_node g); Ret (a, with_node n g).

(** The fields of the context, which must be alive. *)
Definition the_context context : C fengnet_context := on_node (λ n, x ← get_context n.2 context; Ret (x, n)).
Definition put_the_context context (x : fengnet_context) : C unit :=
  on_node (λ n, Ret (tt, on_world n (put_context n.2 context x))).

Definition error context (line : log_line) : C unit :=
  on_node (λ n, n' ← fengnet_error n (Some context) line; Ret (tt, n')).
Definition findname (nm : cstring) : C Z := on_node (λ n, h ← fengnet_handle_findname n.1 nm; Ret (h, n)).
Definition namehandle (h : Z) (nm : cstring) : C (option cstring) :=
  on_node (λ n, '(r, s) ← fengnet_handle_namehandle n.1 h nm; Ret (r, (s, n.2))).
Definition let_go context : C unit := on_node (λ n, '(_, n') ← fengnet_context_release n context; Ret (tt, n')).

Definition set_timeout (handle ti session : Z) : C unit :=
  λ g, '(_, T, n) ← fengnet_timeout (g_timer g) (g_node g) handle ti session;
       Ret (tt, with_timer T (with_node n g)).

(** The characters of a parameter that is not checked for null. *)
Definition chars param : C cstring := match param with Some s => mret s | None => liftO Undef end.

(** ** The environment *)

Definition fengnet_env_init : C unit := modify (with_env (Some ∅)).

Definition fengnet_getenv (key : cstring) : C (option cstring) :=
  L ← gets g_env;
  match L with Some vars => mret (vars !! key) | None => liftO Undef end.

(** The second value of a variable is an error of the program. *)
Definition fengnet_setenv (key value : cstring) : C unit :=
  L ← gets g_env;
  match L with
  | Some vars =>
      liftO (assert_true (bool_decide (vars !! key = None)));;
      modify (with_env (Some (<[key := value]> vars)))
  | None => liftO Undef
  end.

(** ** Log files of services *)

(** ["%08x"]: the digits of [id_to_hex] in lower case. *)
Definition show_hex8 (h : Z) : cstring :=
  (λ i, hex_digit (Z.land (Z.shiftr h ((7 - i) * 4)) 0xf)) <$> [0; 1; 2; 3; 4; 5; 6; 7].

(** The lines that are written into the file are left out. *)
Definition fengnet_log_open context (handle : Z) : C Z :=
  logpath ← fengnet_getenv (codes "logpath");
  match logpath with
  | None => mret 0
  | Some logpath =>
      let tmp := logpath ++ codes "/" ++ show_hex8 handle ++ codes ".log" in
      f ← on_node (λ n, let '(f, e) := fopen (env n.2) tmp in Ret (f, on_world n (set_env n.2 e)));
      error context (if negb (f =? 0) then "Open log file %s"%string else "Open log file %s fail"%string, tmp);;
      mret f
  end.

Definition fengnet_log_close context (f handle : Z) : C unit :=
  error context ("Close log file :%08x"%string, [handle]);;
  on_node (λ n, Ret (tt, on_world n (set_env n.2 (log_close (env n.2) f)))).

(** ** What the commands share *)

Definition handle_exit context (handle : Z) : C unit :=
  handle ← (if handle =? 0 then
              x ← the_context context;
              error context ("KILL self"%string, []);; mret (c_handle x)
            else error context ("KILL :%0x"%string, [handle]);; mret handle) : C Z;
  monitor ← gets g_monitor_exit;
  (if negb (monitor =? 0) then
     on_node (λ n, fengnet_send n (Some context) handle monitor PTYPE_CLIENT 0 0 0);; mret tt
   else mret tt);;
  on_node (λ n, '(_, s, w) ← fengnet_handle_retire n.1 n.2 handle; Ret (tt, (s, w))).

Definition tohandle context (param : cstring) : C Z :=
  match param with
  | 58 :: s => mret (strtoul16 s)
  | 46 :: s => findname s
  | _ => error context ("Can't convert %s to handle"%string, param);; mret 0
  end.

(** The service of a handle with a reference, for the commands on other services. *)
Definition grab (handle : Z) : C (option positive) := on_node (λ n, handle_grab n handle).

(** ** The commands *)

Definition cmd_timeout context param : C (option cstring) :=
  param ← chars param;
  let ti := strtol10 param in
  session ← on_node (λ n, '(s, w) ← fengnet_context_newsession n.2 context; Ret (s, on_world n w));
  x ← the_context context;
  set_timeout (c_handle x) ti session;;
  mret (Some (decimal session)).

Definition cmd_reg context param : C (option cstring) :=
  x ← the_context context;
  match param with
  | None | Some [] => mret (Some (handle_text (c_handle x)))
  | Some (46 :: s) => namehandle (c_handle x) s
  | Some s => error context ("Can't register global name %s in C"%string, s);; mret None
  end.

Definition cmd_query param : C (option cstring) :=
  param ← chars param;
  match param with
  | 46 :: s =>
      handle ← findname s;
      mret (if negb (handle =? 0) then Some (handle_text handle) else None)
  | _ => mret None
  end.

(** [sscanf(param, "%s %s", name, handle)]: an array without a word in it is not
    initialized. *)
Definition cmd_name context param : C (option cstring) :=
  param ← chars param;
  match scan_word param with
  | None => liftO Undef
  | Some (name, rest) =>
      match scan_word rest with
      | None => liftO Undef
      | Some (58 :: s, _) =>
          let handle_id := strtoul16 s in
          if handle_id =? 0 then mret None
          else
            match name with
            | 46 :: nm => namehandle handle_id nm
            | _ => error context ("Can't set global name %s in C"%string, name);; mret None
            end
      | Some _ => mret None
      end
  end.

Definition cmd_exit context : C (option cstring) := handle_exit context 0;; mret None.

Definition cmd_kill context param : C (option cstring) :=
  param ← chars param;
  handle ← tohandle context param;
  (if negb (handle =? 0) then handle_exit context handle else mret tt);;
  mret None.

Definition cmd_launch param : C (option cstring) :=
  param ← chars param;
  let '(mod_, args) := strsep (Some param) [32; 9; 13; 10] in
  let '(args, _) := strsep args [13; 10] in
  instance ← on_node (λ n, fengnet_context_new fuel n (default [] mod_) args);
  match instance with
  | None => mret None
  | Some c => x ← the_context c; mret (Some (id_to_hex (c_handle x)))
  end.

Definition cmd_getenv param : C (option cstring) := param ← chars param; fengnet_getenv param.

Definition cmd_setenv param : C (option cstring) :=
  param ← chars param;
  match split_at (λ c, c =? 32) param with
  | (key, Some value) => fengnet_setenv key value;; mret None
  | (_, None) => mret None
  end.

Definition cmd_starttime : C (option cstring) :=
  sec ← gets (λ g, starttime (g_timer g)); mret (Some (decimal sec)).

Definition cmd_abort : C (option cstring) :=
  on_node (λ n, '(s, w) ← fengnet_handle_retireall fuel n.1 n.2; Ret (tt, (s, w)));; mret None.

Definition cmd_monitor context param : C (option cstring) :=
  match param with
  | None | Some [] =>
      m ← gets g_monitor_exit;
      mret (if negb (m =? 0) then Some (handle_text m) else None)
  | Some s =>
      handle ← tohandle context s;
      modify (with_monitor handle);;
      mret None
  end.

Definition cmd_stat context param : C (option cstring) :=
  param ← chars param;
  x ← the_context context;
  if strcmp param (codes "mqlen") =? 0 then
    len ← on_node (λ n, len ← fengnet_mq_length (queues n.2) (c_queue x); Ret (len, n));
    mret (Some (decimal len))
  else if strcmp param (codes "endless") =? 0 then
    if c_endless x then
      put_the_context context (set_flags x (c_init x) false);; mret (Some (codes "1"))
    else mret (Some (codes "0"))
  else if strcmp param (codes "cpu") =? 0 then mret (Some (print_seconds (c_cpu_cost x)))
  else if strcmp param (codes "time") =? 0 then
    if c_profile x then
      now ← on_node (λ n, let '(t, e) := thread_time (env n.2) in Ret (t, on_world n (set_env n.2 e)));
      mret (Some (print_seconds (u64 (now - c_cpu_start x))))
    else mret (Some (codes "0"))
  else if strcmp param (codes "message") =? 0 then mret (Some (decimal (c_message_count x)))
  else mret (Some []).

(** The compare-and-swap takes [f] when the service has no log file by then. *)
Definition cmd_logon context param : C (option cstring) :=
  param ← chars param;
  handle ← tohandle context param;
  if handle =? 0 then mret None
  else
    ctx ← grab handle;
    match ctx with
    | None => mret None
    | Some ctx =>
        x ← the_context ctx;
        (if c_logfile x =? 0 then
           f ← fengnet_log_open context handle;
           if negb (f =? 0) then
             x ← the_context ctx;
             if c_logfile x =? 0 then put_the_context ctx (set_logfile x f)
             else on_node (λ n, Ret (tt, on_world n (set_env n.2 (fclose (env n.2) f))))
           else mret tt
         else mret tt);;
        let_go ctx;;
        mret None
    end.

(** The file is closed when the compare-and-swap fails. *)
Definition cmd_logoff context param : C (option cstring) :=
  param ← chars param;
  handle ← tohandle context param;
  if handle =? 0 then mret None
  else
    ctx ← grab handle;
    match ctx with
    | None => mret None
    | Some ctx =>
        x ← the_context ctx;
        let f := c_logfile x in
        (if negb (f =? 0) then
           x ← the_context ctx;
           if c_logfile x =? f then put_the_context ctx (set_logfile x 0)
           else fengnet_log_close context f handle
         else mret tt);;
        let_go ctx;;
        mret None
    end.

Definition cmd_signal context param : C (option cstring) :=
  param ← chars param;
  handle ← tohandle context param;
  if handle =? 0 then mret None
  else
    ctx ← grab handle;
    match ctx with
    | None => mret None
    | Some ctx =>
        let sig := match strchr_space param with Some s => strtol0 s | None => 0 end in
        x ← the_context ctx;
        on_node (λ n, n' ← module_signal n (c_mod x) (c_instance x) sig; Ret (tt, n'));;
        let_go ctx;;
        mret None
    end.

(** ** The table of the commands *)

Definition cmd_funcs : list (cstring * (positive → option cstring → C (option cstring))) :=
  [ (codes "TIMEOUT", cmd_timeout);
    (codes "REG", cmd_reg);
    (codes "QUERY", λ _, cmd_query);
    (codes "NAME", cmd_name);
    (codes "EXIT", λ context _, cmd_exit context);
    (codes "KILL", cmd_kill);
    (codes "LAUNCH", λ _, cmd_launch);
    (codes "GETENV", λ _, cmd_getenv);
    (codes "SETENV", λ _, cmd_setenv);
    (codes "STARTTIME", λ _ _, cmd_starttime);
    (codes "ABORT", λ _ _, cmd_abort);
    (codes "MONITOR", cmd_monitor);
    (codes "STAT", cmd_stat);
    (codes "LOGON", cmd_logon);
    (codes "LOGOFF", cmd_logoff);
    (codes "SIGNAL", cmd_signal) ].

Fixpoint run_command (funcs : list (cstring * (positive → option cstring → C (option cstring))))
    context (cmd : cstring) param : C (option cstring) :=
  match funcs with
  | [] => mret None
  | (name, func) :: funcs' =>
      if strcmp cmd name =? 0 then func context param else run_command funcs' context cmd param
  end.

Definition fengnet_command context (cmd : cstring) param : C (option cstring) :=
  run_command cmd_funcs context cmd param.
End commands.

(** ** Handles as text *)

Definition hex_char (c : Z) : Prop := 48 ≤ c ≤ 57 ∨ 65 ≤ c ≤ 70 ∨ 97 ≤ c ≤ 102.

Lemma digit_hex c : hex_char c → 0 ≤ digit_of c < 16.
Proof.
  unfold hex_char, digit_of. intros H. destruct ((48 <=? c) && (c <=? 57)) eqn:E1; [lia|].
  destruct ((97 <=? c) && (c <=? 122)) eqn:E2; [lia|]. destruct ((65 <=? c) && (c <=? 90)) eqn:E3; lia.
Qed.

Lemma hex_not_space c : hex_char c → is_space c = false.
Proof. unfold hex_char, is_space. lia. Qed.

Lemma c_str_hex s : Forall hex_char s → c_str s = s.
Proof.
  induction 1 as [|c s Hc _ IH]; cbn; [done|]. rewrite IH. destruct (Z.eqb_spec c 0); [unfold hex_char in Hc; lia|done].
Qed.

Lemma strtoul16_hex s v :
  Forall hex_char s → s ≠ [] → digits 16 0 false s = (v, true) → 0 ≤ v < 2 ^ 32 → strtoul16 s = v.
Proof.
  intros Hs Hne Hv Hr. unfold strtoul16. rewrite c_str_hex by done. destruct s as [|c s]; [done|].
  apply Forall_cons in Hs as [Hc Hs]. cbn [skip_spaces]. rewrite hex_not_space by done. cbn [sign_of].
  assert (c ≠ 45 ∧ c ≠ 43) as [H1 H2] by (unfold hex_char in Hc; lia).
  rewrite (proj2 (Z.eqb_neq _ _) H1), (proj2 (Z.eqb_neq _ _) H2).
  assert (Hsel : match c :: s with
     | c0 :: c1 :: c2 :: l => if (c0 =? 48) && ((c1 =? 120) || (c1 =? 88)) && (digit_of c2 <? 16) then c2 :: l else c :: s
     | _ => c :: s end = c :: s).
  { destruct Hs as [|c1 s' Hc1 Hs]; [done|]. destruct s' as [|c2 l]; [done|].
    assert (c1 ≠ 120 ∧ c1 ≠ 88) as [H3 H4] by (unfold hex_char in Hc1; lia).
    rewrite (proj2 (Z.eqb_neq _ _) H3), (proj2 (Z.eqb_neq _ _) H4). by destruct (c =? 48). }
  cbn zeta. rewrite Hsel, Hv. cbn [fst]. rewrite (proj2 (Z.leb_gt _ _)) by lia. by rewrite u32_small by lia.
Qed.

Lemma hex_digit_char d : 0 ≤ d < 16 → hex_char (hex_digit d) ∧ digit_of (hex_digit d) = d.
Proof.
  intros Hd. unfold hex_char, hex_digit, digit_of. destruct (Z.ltb_spec d 10).
  - split; [lia|]. rewrite (proj2 (Z.leb_le _ _)), (proj2 (Z.leb_le (48 + d) _)) by lia. cbn. lia.
  - split; [lia|]. rewrite (proj2 (Z.leb_gt (87 + d) 57)) by lia. rewrite andb_false_r.
    rewrite (proj2 (Z.leb_le 97 _)), (proj2 (Z.leb_le (87 + d) _)) by lia. cbn. lia.
Qed.

Lemma show_hex_chars f x : 0 ≤ x → Forall hex_char (show_hex f x).
Proof.
  revert x. induction f as [|f IH]; intros x Hx; cbn [show_hex]; [constructor|].
  apply Forall_app. split.
  - destruct (x <? 16); [constructor|]. apply IH, Z.div_pos; lia.
  - constructor; [|constructor]. apply hex_digit_char, Z.mod_pos_bound. lia.
Qed.

Lemma show_hex_digits f x b s : 0 ≤ x < 16 ^ Z.of_nat f → (0 < f)%nat →
  digits 16 0 b (show_hex f x ++ s) = digits 16 x true s.
Proof.
  revert x b s. induction f as [|f IH]; intros x b s Hx Hf; [lia|]. cbn [show_hex].
  destruct (hex_digit_char (x mod 16)) as [_ Hd]; [apply Z.mod_pos_bound; lia|].
  pose proof (Z.mod_pos_bound x 16). destruct (Z.ltb_spec x 16).
  - cbn [app digits]. rewrite Hd, (proj2 (Z.ltb_lt _ _)) by lia. by rewrite Z.mod_small by lia.
  - rewrite <-app_assoc. cbn [app]. rewrite Nat2Z.inj_succ, Z.pow_succ_r in Hx by lia.
    assert (0 < f)%nat by (destruct f; [cbn in Hx; lia|lia]).
    rewrite IH by (try split; try apply Z.div_pos; try apply Z.div_lt_upper_bound; lia).
    cbn [digits]. rewrite Hd, (proj2 (Z.ltb_lt _ _)) by lia. f_equal.
    pose proof (Z.div_mod x 16). lia.
Qed.

Lemma show_hex_nonempty f x : (0 < f)%nat → show_hex f x ≠ [].
Proof. destruct f; [lia|]. cbn. intros _ []%app_eq_nil. done. Qed.

Lemma strtoul16_show h : 0 ≤ h < 2 ^ 32 → strtoul16 (show_hex 8 h) = h.
Proof.
  intros Hh. apply strtoul16_hex; [apply show_hex_chars; lia|apply show_hex_nonempty; lia| |done].
  rewrite <-(app_nil_r (show_hex 8 h)). rewrite show_hex_digits; [done|change (16 ^ Z.of_nat 8) with (2 ^ 32); lia|lia].
Qed.

Lemma hex_entry d : 0 ≤ d < 16 → hex_char (nth (Z.to_nat d) hex 0) ∧ digit_of (nth (Z.to_nat d) hex 0) = d.
Proof.
  intros Hd. assert (Hall : Forall (λ k, let c := nth k hex 0 in
    ((48 <=? c) && (c <=? 57) || (65 <=? c) && (c <=? 70)) && (digit_of c =? Z.of_nat k) = true) (seq 0 16)).
  { by repeat constructor. }
  rewrite Forall_forall in Hall. specialize (Hall (Z.to_nat d)). rewrite Z2Nat.id in Hall by lia.
  apply andb_prop in Hall as [H1 H2%Z.eqb_eq]; [|apply elem_of_seq; lia]. split; [|done]. unfold hex_char. lia.
Qed.

Lemma strtoul16_id h : 0 ≤ h < 2 ^ 32 → strtoul16 (drop 1 (id_to_hex h)) = h.
Proof.
  intros Hh. unfold id_to_hex. cbn [drop].
  assert (Hc : ∀ i, 0 ≤ i ≤ 7 →
    hex_char (nth (Z.to_nat (Z.land (Z.shiftr h ((7 - i) * 4)) 0xf)) hex 0) ∧
    digit_of (nth (Z.to_nat (Z.land (Z.shiftr h ((7 - i) * 4)) 0xf)) hex 0) = h / 2 ^ ((7 - i) * 4) mod 16).
  { intros i Hi. change 0xf with (2 ^ 4 - 1). rewrite land_mask by lia. rewrite Z.shiftr_div_pow2 by lia.
    apply hex_entry, Z.mod_pos_bound. lia. }
  apply strtoul16_hex; [|done| |done].
  - apply Forall_fmap. repeat (apply Forall_cons; split; [apply Hc; lia|]). apply Forall_nil_2.
  - assert (Hstep : ∀ i acc b s, 0 ≤ i ≤ 7 →
      digits 16 acc b (nth (Z.to_nat (Z.land (Z.shiftr h ((7 - i) * 4)) 0xf)) hex 0 :: s) =
      digits 16 (acc * 16 + h / 2 ^ ((7 - i) * 4) mod 16) true s).
    { intros i acc b s Hi. destruct (Hc i Hi) as [_ E1]. cbn [digits]. rewrite E1.
      pose proof (Z.mod_pos_bound (h / 2 ^ ((7 - i) * 4)) 16). by rewrite (proj2 (Z.ltb_lt _ _)) by lia. }
    clear Hc. change (drop 0 ?l) with l. cbn [fmap list_fmap].
    rewrite (Hstep 0), (Hstep 1), (Hstep 2), (Hstep 3), (Hstep 4), (Hstep 5), (Hstep 6), (Hstep 7) by lia.
    cbn [digits]. f_equal. clear Hstep.
    assert (Hup : ∀ i j, j = i + 1 → j ≤ 7 →
      h / 2 ^ ((7 - i) * 4) * 16 + h / 2 ^ ((7 - j) * 4) mod 16 = h / 2 ^ ((7 - j) * 4)).
    { intros i j -> Hi. replace ((7 - i) * 4) with ((7 - (i + 1)) * 4 + 4) by lia.
      rewrite Z.pow_add_r, <-Z.div_div by lia. change (2 ^ 4) with 16. pose proof (Z.div_mod (h / 2 ^ ((7 - (i + 1)) * 4)) 16). lia. }
    assert (Htop : h / 2 ^ ((7 - 0) * 4) mod 16 = h / 2 ^ ((7 - 0) * 4)).
    { change (2 ^ ((7 - 0) * 4)) with 268435456. apply Z.mod_small. split; [apply Z.div_pos; lia|apply Z.div_lt_upper_bound; lia]. }
    rewrite Htop, Z.mul_0_l, Z.add_0_l, (Hup 0 1), (Hup 1 2), (Hup 2 3), (Hup 3 4), (Hup 4 5), (Hup 5 6), (Hup 6 7) by lia.
    apply Z.div_1_r.
Qed.

(** ** Names *)

Lemma word_stop w r : Forall (λ c, is_space c = false) w →
  (r = [] ∨ ∃ c r', r = c :: r' ∧ is_space c = true) → word (w ++ r) = (w, r).
Proof.
  intros Hw Hr. induction Hw as [|c w Hc _ IH]; cbn.
  - destruct Hr as [->|(c & r' & -> & Hc)]; cbn; [done|]. by rewrite Hc.
  - by rewrite Hc, IH.
Qed.

Lemma scan_word_stop w r : Forall (λ c, is_space c = false) w → w ≠ [] →
  (r = [] ∨ ∃ c r', r = c :: r' ∧ is_space c = true) → scan_word (w ++ r) = Some (w, r).
Proof.
  intros Hw Hne Hr. unfold scan_word. assert (skip_spaces (w ++ r) = w ++ r) as ->.
  { destruct w as [|c w]; [done|]. cbn. apply Forall_cons in Hw as [-> _]. done. }
  rewrite word_stop by done. by destruct w.
Qed.

Lemma handle_text_word h : 0 ≤ h → Forall (λ c, is_space c = false) (handle_text h).
Proof.
  intros Hh. constructor; [done|]. eapply Forall_impl; [by apply show_hex_chars|]. apply hex_not_space.
Qed.

Section names.
Context {E : Type} {Out : Outside E} {Cmd : CommandOutside E} (fuel : nat).
Implicit Types (g : center E) (context : positive).

Lemma findname_run g m nm : names_rel (g_node g).1 m → cstr_ok nm →
  findname nm g = Ret (default 0 (m !! nm), g).
Proof.
  intros Hm Hnm. unfold findname, on_node. rewrite (findname_spec _ m) by done. cbn. by destruct g as [[s w] T mo e].
Qed.

(** The two texts for a handle are read as this handle. *)
Lemma tohandle_text context g h : 0 ≤ h < 2 ^ 32 →
  tohandle context (handle_text h) g = Ret (h, g) ∧ tohandle context (id_to_hex h) g = Ret (h, g).
Proof.
  intros Hh. split.
  - unfold tohandle, handle_text. by rewrite strtoul16_show.
  - change (tohandle context (id_to_hex h)) with (mret (M := stateM (center E)) (strtoul16 (drop 1 (id_to_hex h)))).
    by rewrite strtoul16_id.
Qed.

(** C27: a name that is given to a service with NAME is found with QUERY, and the text that
    QUERY and the other commands answer with is read by the commands as the handle of the
    service, as is the name itself and the text of LAUNCH. A name that is taken stays with
    its service. *)
Theorem named_service_found context g m nm h :
  names_rel (g_node g).1 m → name_count (g_node g).1 < MAX_SLOT_SIZE / 2 →
  cstr_ok nm → Forall (λ c, is_space c = false) nm → 0 < h < 2 ^ 32 →
  let text := (46 :: nm) ++ 32 :: handle_text h in
  (is_Some (m !! nm) → fengnet_command fuel context (codes "NAME") (Some text) g = Ret (None, g)) ∧
  (m !! nm = None → ∃ s',
     let g' := with_node (s', (g_node g).2) g in
     fengnet_command fuel context (codes "NAME") (Some text) g = Ret (Some nm, g') ∧
     names_rel s' (<[nm := h]> m) ∧
     ∀ c, fengnet_command fuel c (codes "QUERY") (Some (46 :: nm)) g' = Ret (Some (handle_text h), g') ∧
       tohandle c (46 :: nm) g' = Ret (h, g') ∧ tohandle c (handle_text h) g' = Ret (h, g') ∧
       tohandle c (id_to_hex h) g' = Ret (h, g')).
Proof.
  intros Hm Hcount Hnm Hsp Hh text.
  assert (Hname : fengnet_command fuel context (codes "NAME") (Some text) g = namehandle h nm g).
  { change (fengnet_command fuel context (codes "NAME") (Some text)) with (cmd_name context (Some text)).
    unfold cmd_name, chars, text. unfold mbind at 1, stateM_mbind at 1. cbn [mret stateM_mret mbind outcome_mbind].
    rewrite scan_word_stop; [|by constructor|done|by right; eexists _, _].
    change (scan_word (32 :: handle_text h)) with (scan_word (handle_text h)).
    rewrite <-(app_nil_r (handle_text h)), scan_word_stop; [|apply handle_text_word; lia|done|by left].
    cbn [handle_text]. rewrite strtoul16_show by lia. rewrite (proj2 (Z.eqb_neq _ _)) by lia. done. }
  rewrite Hname. pose proof (namehandle_spec (g_node g).1 m nm h Hm Hnm Hcount) as Hspec.
  unfold namehandle, on_node. split.
  - intros [h0 Hh0]. rewrite Hh0 in Hspec. rewrite Hspec. cbn. by destruct g as [[s w] T mo e].
  - intros Hno. rewrite Hno in Hspec. destruct Hspec as (s' & -> & Hm' & _). exists s'. cbn zeta.
    split; [done|]. split; [done|]. intros c.
    assert (Hfind : findname nm (with_node (s', (g_node g).2) g) = Ret (h, with_node (s', (g_node g).2) g)).
    { rewrite (findname_run _ (<[nm := h]> m)) by done. by rewrite lookup_insert_eq. }
    split_and!; [|done|apply tohandle_text; lia..].
    change (fengnet_command fuel c (codes "QUERY") (Some (46 :: nm))) with (cmd_query (E := E) (Some (46 :: nm))).
    unfold cmd_query, chars. unfold mbind at 1, stateM_mbind at 1. cbn [mret stateM_mret mbind outcome_mbind].
    unfold mbind, stateM_mbind. rewrite Hfind. cbn [mbind outcome_mbind]. rewrite (proj2 (Z.eqb_neq _ _)) by lia. done.
Qed.
End names.

(** ** Lines for the logger *)

(** A push leaves the other queues as they are, except for the links of the global one. *)
Lemma push_others st hd l x q m st' y p :
  sched_inv (MkSched st hd) l → heap st !! x = Some q → release q = 0 → ring_room q →
  fengnet_mq_push st x m = Ret st' → y ≠ x → heap st !! y = Some p → ∃ nx, heap st' !! y = Some (set_next p nx).
Proof.
  intros Hinv Hx Hr Hroom Hpush Hne Hy. pose proof (si_queues _ _ Hinv x q Hx) as (Hwf & Hn & Hok).
  pose proof (si_global _ _ Hinv) as Hgo. simpl in *. rewrite Hr in Hok.
  destruct (ring_push_spec q m Hwf Hroom) as (q' & Hq' & _ & (_ & _ & Hig & Hnx & _) & _).
  unfold fengnet_mq_push, load in Hpush. rewrite Hx in Hpush. simpl in Hpush. rewrite Hq' in Hpush. simpl in Hpush. rewrite Hig in Hpush.
  destruct (Z.eqb_spec (in_global q) 0) as [Hz|Hnz].
  - destruct Hok as [[? _]|(_ & _ & Hxl & _)]; [unfold MQ_IN_GLOBAL in *; lia|].
    set (q2 := set_in_global q' MQ_IN_GLOBAL) in *.
    destruct (fengnet_globalmq_push_spec (store st x q2) l x q2) as (st2 & Hpush2 & _ & Hre);
      [|apply lookup_insert_eq|simpl; rewrite Hnx; auto|done|].
    { destruct Hgo. constructor; simpl; try done. by apply linked_insert_outside. }
    rewrite Hpush2 in Hpush. injection Hpush as <-. apply (relinked_lookup _ _ _ _ _ Hre). simpl. by rewrite lookup_insert_ne.
  - injection Hpush as <-. exists (next p). simpl. rewrite lookup_insert_ne by done. rewrite Hy. by destruct p.
Qed.

Section calls.
Context {E : Type} {Out : Outside E}.
Implicit Types (n : node E) (c : positive).

(** A handle is that of a service, or of none. *)
Lemma find_service n hd l h : server_ok n hd l →
  (∃ c i x, registered (fst n) c i ∧ contexts n.2 !! c = Some x ∧ c_handle x = h) ∨
  ∀ c i x, registered (fst n) c i → contexts n.2 !! c = Some x → c_handle x ≠ h.
Proof.
  intros [[Hs Hl] _ _]. destruct (slot_at (fst n) h Hs) as (o & _ & Ho). pose proof (size_bounds (fst n) Hs).
  assert (Hout : ∀ c i x, registered (fst n) c i → contexts n.2 !! c = Some x → c_handle x = h → o = Some c).
  { intros c i x Hr Hx Hh. destruct (Hl c i Hr) as (h' & Hh' & Hi). cbn in Hh'. unfold fengnet_context_handle, get_context in Hh'.
    rewrite Hx in Hh'. injection Hh' as <-. destruct Hr as [_ Hr]. rewrite Hh in Hi. rewrite Hi, Hr in Ho. congruence. }
  destruct o as [c|]; cycle 1.
  { right. intros c i x Hr Hx Hh. by specialize (Hout c i x Hr Hx Hh). }
  assert (Hr : registered (fst n) c (h mod slot_size (fst n))) by (split; [apply Z.mod_pos_bound; lia|done]).
  destruct (Hl c _ Hr) as (h' & Hh' & _). cbn in Hh'. unfold fengnet_context_handle, get_context in Hh'.
  destruct (contexts n.2 !! c) as [x|] eqn:Hx; [|done]. injection Hh' as Hh'.
  destruct (decide (c_handle x = h)) as [Heq|Hne]; [left; by exists c, (h mod slot_size (fst n)), x|]. right. intros c' i x' Hr' Hx' Hh.
  specialize (Hout c' i x' Hr' Hx' Hh). injection Hout as ->. congruence.
Qed.

(** The push behind a message to a service. *)
Lemma context_push_mq n hd l c x i msg st' :
  server_ok n hd l → registered (fst n) c i → contexts n.2 !! c = Some x →
  fengnet_context_push n (c_handle x) msg = Ret (0, on_world n (set_queues n.2 st')) →
  fengnet_mq_push (queues n.2) (c_queue x) msg = Ret st'.
Proof.
  intros Hn Hreg Hx Hp. destruct (so_context _ _ _ Hn c x Hx) as (Href & _). unfold fengnet_context_push in Hp.
  rewrite (handle_grab_hit n hd l c x i Hn Hreg Hx) in Hp. cbn [mbind outcome_mbind] in Hp. cbn [on_world snd] in Hp.
  unfold get_context in Hp at 1. cbn [contexts put_context set_contexts queues] in Hp. rewrite lookup_insert_eq in Hp. cbn [mbind outcome_mbind] in Hp.
  cbn [c_queue set_ref] in Hp. destruct (fengnet_mq_push _ _ _) as [st2| | | |]; try done. cbn [mbind outcome_mbind] in Hp.
  rewrite (release_not_last _ c (set_ref x (c_ref x + 1))) in Hp by (cbn; rewrite ?lookup_insert_eq; done || lia).
  cbn [mbind outcome_mbind] in Hp. injection Hp. intros. congruence.
Qed.

(** The handle of the logger as [fengnet_error] finds it. *)
Definition logger_handle n (m : gmap cstring Z) : Z :=
  if logger n.2 =? 0 then default 0 (m !! logger_name) else logger n.2.

(** If there is a logger, it can take a line, and is not [other]. *)
Definition can_log n (m : gmap cstring Z) (other : positive) : Prop :=
  ∀ c i x q, registered (fst n) c i → contexts n.2 !! c = Some x → c_handle x = logger_handle n m →
    heap (queues n.2) !! c_queue x = Some q → ring_room q ∧ c_queue x ≠ other.

(** What a line for the logger changes in the server. *)
Record logged n n' : Prop := {
  lg_table : fst n' = fst n;
  lg_contexts : contexts n'.2 = contexts n.2;
  lg_total : total n'.2 = total n.2;
  lg_harbor : HARBOR n'.2 = HARBOR n.2
}.

Lemma error_spec n hd l c x m line other qo :
  server_ok n hd l → names_rel (fst n) m → contexts n.2 !! c = Some x → can_log n m other →
  heap (queues n.2) !! other = Some qo →
  ∃ n' l' nx, fengnet_error n (Some c) line = Ret n' ∧ server_ok n' hd l' ∧ logged n n' ∧
    heap (queues n'.2) !! other = Some (set_next qo nx) ∧
    ∀ y q, heap (queues n.2) !! y = Some q → ∃ q', heap (queues n'.2) !! y = Some q' ∧ release q' = release q.
Proof.
  intros Hn Hm Hx Hlog Ho. unfold fengnet_error.
  assert (Hl : (if logger n.2 =? 0 then fengnet_handle_findname (fst n) logger_name else Ret (logger n.2)) = Ret (logger_handle n m)).
  { unfold logger_handle. destruct (_ =? 0); [|done]. apply findname_spec; [done|]. repeat constructor; lia. }
  rewrite Hl. bsimpl. set (h := logger_handle n m) in *.
  assert (Hn1 : ∀ v e, server_ok (on_world n (set_env (set_logger n.2 v) e)) hd l).
  { intros v e. apply (server_ok_env (on_world n (set_logger n.2 v))). destruct Hn as [Ht Hs Hc].
    split; cbn; [by eapply table_ok_handles|done|done]. }
  assert (Hid : set_next qo (next qo) = qo) by by destruct qo.
  destruct (h =? 0).
  { eexists _, l, (next qo). split; [done|]. rewrite Hid. split_and!; try done; [|eauto].
    specialize (Hn1 h (env n.2)). by destruct n as [s []]. }
  cbn [env on_world snd set_logger]. destruct (data_text (env n.2) line) as [[data len] e].
  unfold fengnet_context_handle, get_context. cbn [contexts set_env set_logger on_world snd]. rewrite Hx. bsimpl.
  set (n1 := on_world (on_world n _) _). assert (Hok1 : server_ok n1 hd l) by apply Hn1.
  destruct (find_service n1 hd l h Hok1) as [(cl & i & y & Hreg & Hy & Hh)|Hno].
  - destruct (so_context _ _ _ Hok1 cl y Hy) as (_ & q & Hq & Hrel).
    destruct (Hlog cl i y q Hreg Hy Hh Hq) as [Hroom Hne]. rewrite <-Hh.
    destruct (context_push_spec n1 hd l cl y i q (MkMsg (c_handle x) 0 data (message_size PTYPE_TEXT len)) Hok1 Hreg Hy Hq Hroom)
      as (st' & l' & Hp & _ & Hok'). rewrite Hp. bsimpl.
    pose proof (context_push_mq n1 hd l cl y i _ st' Hok1 Hreg Hy Hp) as Hmq.
    destruct (push_others _ hd l (c_queue y) q _ st' other qo (so_sched _ _ _ Hok1) Hq Hrel Hroom Hmq) as (nx & Hnx); [done|done|].
    eexists _, l', nx. split_and!; [reflexivity|exact Hok'|done|exact Hnx|].
    destruct (mq_push_spec _ _ _ _ q (MkMsg (c_handle x) 0 data (message_size PTYPE_TEXT len)) (so_sched _ _ _ Hok1) Hq Hrel Hroom)
      as (st2 & Hmq2 & _ & _ & Hsame). rewrite Hmq in Hmq2. injection Hmq2 as <-. intros z p Hz.
    destruct (Hsame z p Hz) as (p' & ? & ? & _). by exists p'.
  - unfold fengnet_context_push. rewrite (handle_grab_miss n1 hd l h Hok1 Hno). bsimpl.
    eexists _, l, (next qo). split; [reflexivity|]. rewrite Hid. split_and!; [done|done|done|]. intros z p Hz. by exists p.
Qed.
End calls.

(** ** The end of a service *)

Section ending.
Context {E : Type} {Out : Outside E} {Cmd : CommandOutside E} (fuel : nat).
Implicit Types (g : center E) (n : node E) (context : positive).

(** A message without data to a service of the own node, from a given source. *)
Lemma send_nothing n hd l c0 x0 source c i x q :
  server_ok n hd l → contexts n.2 !! c0 = Some x0 → source ≠ 0 →
  registered (fst n) c i → contexts n.2 !! c = Some x → c_handle x ≠ 0 → is_local n.2 (c_handle x) →
  heap (queues n.2) !! c_queue x = Some q → ring_room q →
  ∃ st' l', fengnet_send n (Some c0) source (c_handle x) PTYPE_CLIENT 0 0 0 = Ret (0, on_world n (set_queues n.2 st')) ∧
    contents <$> heap st' = <[c_queue x := contents q ++ [MkMsg source 0 0 (PTYPE_CLIENT * 2 ^ 56)]]> (contents <$> heap (queues n.2)) ∧
    server_ok (on_world n (set_queues n.2 st')) hd l'.
Proof.
  intros Hn Hx0 Hs Hreg Hx Hh Hloc Hq Hroom.
  destruct (context_push_spec n hd l c x i q (MkMsg source 0 0 (PTYPE_CLIENT * 2 ^ 56)) Hn Hreg Hx Hq Hroom)
    as (st' & l' & Hp & Hc & Hok). exists st', l'. split_and!; [|done|done].
  rewrite (send_local n c0 x0) by (done || by intros).
  assert (Hsame : on_world n (sending n.2 c0 x0 PTYPE_CLIENT 0 0) = n).
  { unfold sending, sent_data, sender_after. change (has_tag PTYPE_CLIENT PTYPE_TAG_ALLOCSESSION) with false.
    change (negb (has_tag PTYPE_CLIENT PTYPE_TAG_DONTCOPY) && negb (0 =? 0)) with false. cbn [snd].
    rewrite put_context_id by done. by destruct n as [s []]. }
  rewrite Hsame. unfold sent_source. rewrite (proj2 (Z.eqb_neq _ _) Hs). change (sent_session x0 PTYPE_CLIENT 0) with 0.
  change (sent_data n.2 PTYPE_CLIENT 0 0) with (0, env n.2). change (sent_size PTYPE_CLIENT 0) with (PTYPE_CLIENT * 2 ^ 56).
  cbn [fst]. rewrite Hp. bsimpl. done.
Qed.

(** A service [c] that is to end, and the one that is told of it. *)
Record ending n (hd : gset positive) (l : list positive) (m : gmap cstring Z) (monitor : Z)
    (c : positive) (i : Z) (x : fengnet_context) (cm : positive) (im : Z) (xm : fengnet_context) (qm : message_queue) : Prop := {
  en_ok : server_ok n hd l;
  en_names : names_rel (fst n) m;
  en_service : registered (fst n) c i;
  en_context : contexts n.2 !! c = Some x;
  en_handle : 0 < c_handle x < 2 ^ 32;
  en_queues c' x' : contexts n.2 !! c' = Some x' → c' ≠ c → c_queue x' ≠ c_queue x;
  en_monitor : registered (fst n) cm im;
  en_told : contexts n.2 !! cm = Some xm ∧ c_handle xm = monitor ∧ monitor ≠ 0;
  en_local : is_local n.2 monitor;
  en_queue : heap (queues n.2) !! c_queue xm = Some qm;
  en_room : ring_room qm;
  en_log : can_log n m (c_queue xm)
}.

(** How the service ended. *)
Record ended n n' (l' : list positive) (hd : gset positive) (m : gmap cstring Z) (c : positive) (x : fengnet_context)
    (xm : fengnet_context) (qm : message_queue) : Prop := {
  ed_ok : server_ok n' hd l';
  ed_names : names_rel (fst n') (filter (λ p, p.2 ≠ c_handle x) m);
  ed_others c' j : registered (fst n') c' j ↔ registered (fst n) c' j ∧ c' ≠ c;
  ed_told : MessageQueue.contents <$> (heap (queues n'.2) !! c_queue xm) =
    Some (contents qm ++ [MkMsg (c_handle x) 0 0 (PTYPE_CLIENT * 2 ^ 56)]);
  ed_kept : c_ref x ≠ 1 → contexts n'.2 = <[c := set_ref x (c_ref x - 1)]> (contexts n.2);
  ed_gone : c_ref x = 1 → contexts n'.2 = delete c (contexts n.2) ∧ total n'.2 = total n.2 - 1 ∧
    ∃ q', heap (queues n'.2) !! c_queue x = Some q' ∧ release q' = 1
}.

Lemma handle_exit_spec g hd l m c0 x0 h c i x cm im xm qm (released : E → Z → Z → E) :
  ending (g_node g) hd l m (g_monitor_exit g) c i x cm im xm qm → contexts (g_node g).2 !! c0 = Some x0 →
  (∀ n m i, instance_release n m i = Ret (on_world n (set_env n.2 (released (env n.2) m i)))) →
  (h = c_handle x ∨ h = 0 ∧ c0 = c) →
  ∃ n' l', handle_exit c0 h g = Ret (tt, with_node n' g) ∧ ended (g_node g) n' l' hd m c x xm qm.
Proof.
  intros [Hn Hm Hreg Hx Hh Hdist Hregm (Hxm & Hhm & Hne) Hloc Hqm Hroom Hlog] Hx0 Hrel Hcase.
  set (n := g_node g) in *.
  destruct (error_spec n hd l c0 x0 m (if h =? 0 then ("KILL self"%string, []) else ("KILL :%0x"%string, [h])) (c_queue xm) qm)
    as (n1 & l1 & nx & Herr & Hn1 & [Ht1 Hc1 Htot1 Hhb1] & Hq1 & Hsame1); [done..|].
  destruct (send_nothing n1 hd l1 c0 x0 (c_handle x) cm im xm (set_next qm nx)) as (st' & l2 & Hsend & Hcont & Hn2);
    [done|by rewrite Hc1|lia|by rewrite Ht1|by rewrite Hc1|lia|unfold is_local in *; by rewrite Hhb1, Hhm|done|done|].
  set (n2 := on_world n1 (set_queues n1.2 st')) in *.
  assert (Hx2 : contexts n2.2 !! c = Some x) by (by cbn; rewrite Hc1).
  destruct (so_context _ _ _ Hn2 c x Hx2) as (_ & q & Hq & _).
  destruct (retire_ends_service n2 hd l2 c i x m q released) as (s' & w' & l' & Hret & Hok & Hnames & Hothers & Hkept & Hgone);
    [done|by cbn; rewrite Ht1|by cbn; rewrite Ht1|done|done|by cbn; rewrite Hc1|done|].
  exists (s', w'), l'. split.
  - assert (Hhead : (if h =? 0 then
                       x ← the_context c0; error c0 ("KILL self"%string, []);; mret (c_handle x)
                     else error c0 ("KILL :%0x"%string, [h]);; mret h) g = Ret (c_handle x, with_node n1 g)).
    { destruct Hcase as [->|[-> ->]].
      - rewrite (proj2 (Z.eqb_neq _ _)) in * by lia. unfold error, on_node, mbind, stateM_mbind. fold n. by rewrite Herr.
      - change (0 =? 0) with true in *. cbv iota in *. unfold the_context, error, on_node, mbind, stateM_mbind. fold n.
        rewrite (get_context_Ret n.2 c x Hx). cbn [mbind outcome_mbind g_node with_node]. fold n. by rewrite Herr. }
    unfold handle_exit. unfold mbind at 1, stateM_mbind at 1. rewrite Hhead. cbn [mbind outcome_mbind].
    unfold gets, on_node, mbind, stateM_mbind. cbn [mbind outcome_mbind g_monitor_exit g_node with_node].
    rewrite (proj2 (Z.eqb_neq _ _) Hne). cbn [negb]. rewrite <-Hhm. change (g_node (with_node n1 g)) with n1. rewrite Hsend. cbn [mbind outcome_mbind mret stateM_mret].
    change (g_node (with_node _ _)) with n2.
    rewrite Hret. done.
  - assert (Hcont' : contents <$> heap (queues w') = contents <$> heap st').
    { destruct (decide (c_ref x = 1)) as [H1|H1]; [apply (Hgone H1)|by rewrite (Hkept H1)]. }
    split; cbn [fst snd].
    + done.
    + done.
    + intros c' j. rewrite Hothers. cbn. by rewrite Ht1.
    + rewrite <-lookup_fmap, Hcont', Hcont, lookup_insert_eq. by destruct qm.
    + intros H1. rewrite (Hkept H1). cbn. by rewrite Hc1.
    + intros H1. destruct (Hgone H1) as (Hc & Ht & _ & _ & Hq' & _). rewrite Hc, Ht. cbn. by rewrite Hc1, Htot1.
Qed.

(** C23: KILL and EXIT end a service: the monitor of the process gets one message from it, of
    type [PTYPE_CLIENT] and without data, behind those that wait; its handle and its names are
    forgotten, no others; the reference of the table is given up, and with the last one the
    service is deleted and its queue marked for release. *)
Theorem kill_ends_service g hd l m c0 x0 cmd param c i x cm im xm qm (released : E → Z → Z → E) :
  ending (g_node g) hd l m (g_monitor_exit g) c i x cm im xm qm → contexts (g_node g).2 !! c0 = Some x0 →
  (∀ n m i, instance_release n m i = Ret (on_world n (set_env n.2 (released (env n.2) m i)))) →
  (cmd = codes "KILL" ∧ param = Some (handle_text (c_handle x)) ∨ cmd = codes "EXIT" ∧ c0 = c) →
  ∃ n' l', fengnet_command fuel c0 cmd param g = Ret (None, with_node n' g) ∧ ended (g_node g) n' l' hd m c x xm qm.
Proof.
  intros Hen Hx0 Hrel Hcase. pose proof (en_handle _ _ _ _ _ _ _ _ _ _ _ _ Hen) as Hh.
  destruct Hcase as [[-> ->]|[-> ->]].
  - destruct (handle_exit_spec g hd l m c0 x0 (c_handle x) c i x cm im xm qm released) as (n' & l' & Hrun & Hend);
      [done..|by left|]. exists n', l'. split; [|done].
    change (fengnet_command fuel c0 (codes "KILL") ?p) with (cmd_kill c0 p). unfold cmd_kill, chars.
    destruct (tohandle_text c0 g (c_handle x)) as [Hto _]; [lia|].
    unfold mbind, stateM_mbind. cbn [mret stateM_mret mbind outcome_mbind]. rewrite Hto. cbn [mbind outcome_mbind].
    rewrite (proj2 (Z.eqb_neq _ _)) by lia. cbn [negb]. by rewrite Hrun.
  - destruct (handle_exit_spec g hd l m c x0 0 c i x cm im xm qm released) as (n' & l' & Hrun & Hend);
      [done..|by right|]. exists n', l'. split; [|done].
    change (fengnet_command fuel c (codes "EXIT") param) with (cmd_exit c). unfold cmd_exit, mbind, stateM_mbind. by rewrite Hrun.
Qed.
End ending.

(** ** Timers and log files *)

Section others.
Context {E : Type} {Out : Outside E} {Cmd : CommandOutside E} (fuel : nat).
Implicit Types (g : center E) (n : node E) (context : positive).

(** TIMEOUT answers with a new session of the service, and a timer is set for it that
    expires after as many ticks as the text says. *)
Theorem timeout_sets_timer g c x param :
  contexts (g_node g).2 !! c = Some x → 0 ≤ c_session_id x < INT_MAX → timer_wf (g_timer g) → lock (g_timer g) = false →
  0 < strtol10 param ≤ INT_MAX →
  ∃ T' e, fengnet_command fuel c (codes "TIMEOUT") (Some param) g =
      Ret (Some (decimal (c_session_id x + 1)),
           with_timer T' (with_node (on_world (g_node g) (put_context (g_node g).2 c (set_session_id x (c_session_id x + 1)))) g)) ∧
    timer_wf T' ∧ pending T' ≡ₚ e :: pending (g_timer g) ∧
    ticks_to (time (g_timer g)) (expire e) = strtol10 param ∧
    wake e = (c_handle x, MkMsg 0 (c_session_id x + 1) 0 (2 ^ 56)).
Proof.
  intros Hx Hs Hwf Hk Hn. set (n := g_node g) in *. set (x' := set_session_id x (c_session_id x + 1)).
  assert (Hses : fengnet_context_newsession n.2 c = Ret (c_session_id x + 1, put_context n.2 c x')).
  { unfold fengnet_context_newsession. rewrite (get_context_Ret n.2 c x Hx). bsimpl. unfold INT_MAX in Hs.
    rewrite cint_in by (unfold INT_MIN, INT_MAX; lia). bsimpl. by rewrite (proj2 (Z.leb_gt _ _)) by lia. }
  destruct (fengnet_timeout_schedules (g_timer g) (on_world n (put_context n.2 c x')) (c_handle x) (strtol10 param) (c_session_id x + 1))
    as [_ Hpos]; [done|done|unfold INT_MIN; lia|]. destruct Hpos as (T' & e & Hto & Hwf' & _ & _ & Hp & Ht & Hw); [lia|].
  exists T', e. split; [|done].
  change (fengnet_command fuel c (codes "TIMEOUT") ?p) with (cmd_timeout c p). unfold cmd_timeout, chars.
  unfold the_context, set_timeout, on_node, mbind, stateM_mbind. cbn [mret stateM_mret mbind outcome_mbind]. fold n.
  rewrite Hses. cbn [mbind outcome_mbind g_node with_node on_world snd].
  unfold get_context. cbn [contexts put_context set_contexts]. rewrite lookup_insert_eq. cbn [mbind outcome_mbind g_node with_node g_timer].
  change (c_handle x') with (c_handle x). rewrite Hto. done.
Qed.

(** LOGOFF forgets the log file of a service but does not close it: nothing outside of
    the context changes. *)
Theorem logoff_keeps_file_open g hd l c0 c i x :
  server_ok (g_node g) hd l → registered (g_node g).1 c i → contexts (g_node g).2 !! c = Some x →
  0 < c_handle x < 2 ^ 32 → c_logfile x ≠ 0 →
  fengnet_command fuel c0 (codes "LOGOFF") (Some (handle_text (c_handle x))) g =
    Ret (None, with_node (on_world (g_node g) (put_context (g_node g).2 c (set_logfile x 0))) g).
Proof.
  intros Hn Hreg Hx Hh Hf. set (n := g_node g) in *. destruct (so_context _ _ _ Hn c x Hx) as (Href & _).
  change (fengnet_command fuel c0 (codes "LOGOFF") ?p) with (cmd_logoff c0 p). unfold cmd_logoff, chars.
  destruct (tohandle_text c0 g (c_handle x)) as [Hto _]; [lia|].
  unfold mbind, stateM_mbind. cbn [mret stateM_mret mbind outcome_mbind]. rewrite Hto. cbn [mbind outcome_mbind].
  rewrite (proj2 (Z.eqb_neq _ _)) by lia. unfold grab, on_node. fold n.
  rewrite (handle_grab_hit n hd l c x i Hn Hreg Hx). cbn [mbind outcome_mbind g_node with_node].
  unfold the_context, put_the_context, let_go, on_node, get_context.
  cbn [on_world snd contexts put_context set_contexts mbind outcome_mbind g_node with_node]. rewrite !lookup_insert_eq.
  cbn [mbind outcome_mbind]. change (c_logfile (set_ref x _)) with (c_logfile x).
  rewrite (proj2 (Z.eqb_neq _ _) Hf). cbn [negb mbind outcome_mbind g_node with_node].
  cbn [on_world snd contexts put_context set_contexts]. rewrite lookup_insert_eq. cbn [mbind outcome_mbind].
  change (c_logfile (set_ref x _)) with (c_logfile x). rewrite Z.eqb_refl. cbn [mbind outcome_mbind].
  set (x1 := set_logfile (set_ref x (c_ref x + 1)) 0).
  set (n1 := on_world n (put_context n.2 c x1)).
  assert (Hlast : fengnet_context_release n1 c = Ret (Some c, on_world n (put_context n.2 c (set_logfile x 0)))).
  { rewrite (release_not_last n1 c x1); [|cbn; by rewrite lookup_insert_eq|cbn; lia]. do 2 f_equal.
    unfold on_world, n1, put_context, set_contexts. cbn. rewrite insert_insert_eq. do 3 f_equal.
    unfold x1. destruct x. cbn. unfold set_logfile, set_ref. cbn. f_equal. lia. }
  assert (Hworld : ∀ w w', on_world (on_world n w) w' = on_world n w') by done.
  assert (Hgnode : ∀ k g, g_node (with_node k g) = k) by done.
  assert (Hwith : ∀ k k' g, with_node k (with_node k' g) = with_node k g) by done.
  rewrite !Hgnode, !Hworld. cbn [on_world snd]. rewrite put_put_context. fold x1.
  fold n1. rewrite Hlast. cbn [mbind outcome_mbind]. by rewrite !Hwith.
Qed.
End others.

(** ** The environment *)

Lemma split_at_space key value : 32 ∉ key → split_at (λ c, c =? 32) (key ++ 32 :: value) = (key, Some value).
Proof.
  induction key as [|c key IH]; [done|]. intros [Hc Hk]%not_elem_of_cons. cbn [app split_at].
  rewrite (proj2 (Z.eqb_neq c 32)) by done. by rewrite IH.
Qed.

(** SETENV gives a variable its only value, which GETENV answers; a second value ends the
    process. *)
Theorem environment_keeps_values {E} {Out : Outside E} {Cmd : CommandOutside E} fuel c (g : center E) vars key value :
  g_env g = Some vars → 32 ∉ key →
  let set g v := fengnet_command fuel c (codes "SETENV") (Some (key ++ 32 :: v)) g in
  (vars !! key = None →
     let g' := with_env (Some (<[key := value]> vars)) g in
     set g value = Ret (None, g') ∧ fengnet_command fuel c (codes "GETENV") (Some key) g' = Ret (Some value, g')) ∧
  (is_Some (vars !! key) → set g value = AssertFail).
Proof.
  intros Hg Hkey set. assert (Hset : set g value = (fengnet_setenv key value;; mret None) g).
  { unfold set. change (fengnet_command fuel c (codes "SETENV") ?p) with (cmd_setenv (E := E) p). unfold cmd_setenv, chars.
    unfold mbind at 1, stateM_mbind at 1. cbn [mret stateM_mret mbind outcome_mbind]. by rewrite split_at_space. }
  rewrite Hset. unfold fengnet_setenv, gets, modify, mbind, stateM_mbind. cbn [mbind outcome_mbind]. rewrite Hg. split.
  - intros Hno. rewrite bool_decide_true by done. split; [done|].
    change (fengnet_command fuel c (codes "GETENV") ?p) with (cmd_getenv (E := E) p). unfold cmd_getenv, chars, fengnet_getenv.
    unfold gets, mbind, stateM_mbind. cbn. by rewrite lookup_insert_eq.
  - intros [v Hv]. rewrite bool_decide_false by congruence. done.
Qed.

(** ** Concrete runs *)

#[export] Instance example_commands : CommandOutside (list call) := {
  module_signal n _ _ _ := Ret n;
  fopen e _ := (5, e);
  fclose e _ := e;
  print_seconds _ := []
}.

(** The node of [Server], whose first service is told when others end. *)
Definition example_center : center (list call) :=
  MkCenter example_node (fengnet_timer_init (1700000000, 0) (5, 0)) 0x1000001 (Some ∅).

Lemma named_service_found_witness : ∃ s',
  let g' := with_node (s', example_world) example_center in
  fengnet_command 1 1 (codes "NAME") (Some (codes ".gate :1000002")) example_center = Ret (Some (codes "gate"), g') ∧
  fengnet_command 1 2 (codes "QUERY") (Some (codes ".gate")) g' = Ret (Some (codes ":1000002"), g').
Proof.
  destruct (named_service_found 1 1 example_center example_names (codes "gate") 0x1000002) as [_ H].
  - exact example_names_rel.
  - vm_compute. reflexivity.
  - repeat constructor.
  - repeat constructor.
  - lia.
  - destruct H as (s' & Hrun & _ & Hq); [vm_compute; reflexivity|]. exists s'. split; [exact Hrun|].
    exact (proj1 (Hq 2%positive)).
Defined.

Lemma example_ending : ending example_node {[1%positive]} [] example_names 0x1000001
  2 2 (example_context 0x1000002 2) 1 1 (example_context 0x1000001 1) example_queue1.
Proof.
  split.
  - exact example_server_ok.
  - exact example_names_rel.
  - split; [lia|reflexivity].
  - reflexivity.
  - cbn. lia.
  - intros c' x' Hx' Hne. cbn in Hx'.
    apply lookup_insert_Some in Hx' as [[<- <-]|[_ [<- <-]%lookup_singleton_Some]]; done.
  - split; [lia|reflexivity].
  - done.
  - split; [done|]. left. reflexivity.
  - reflexivity.
  - left. vm_compute. reflexivity.
  - intros c i x q _ Hx Hh. exfalso. change (logger_handle _ _) with 0 in Hh. cbn in Hx.
    apply lookup_insert_Some in Hx as [[<- <-]|[_ [<- <-]%lookup_singleton_Some]]; done.
Qed.

Lemma kill_ends_service_witness : ∃ n',
  fengnet_command 1 1 (codes "KILL") (Some (codes ":1000002")) example_center = Ret (None, with_node n' example_center) ∧
  contexts n'.2 = delete 2%positive (contexts example_world) ∧
  contents <$> (heap (queues n'.2) !! 1%positive) =
    Some (contents example_queue1 ++ [MkMsg 0x1000002 0 0 (3 * 2 ^ 56)]).
Proof.
  destruct (kill_ends_service 1 example_center {[1%positive]} [] example_names 1 (example_context 0x1000001 1)
    (codes "KILL") (Some (handle_text 0x1000002)) 2 2 (example_context 0x1000002 2) 1 1 (example_context 0x1000001 1)
    example_queue1 (λ e _ _, e)) as (n' & l' & Hrun & Hend).
  - exact example_ending.
  - reflexivity.
  - intros n m i. cbn. by destruct n as [? []].
  - left. done.
  - exists n'. split; [exact Hrun|]. split; [exact (proj1 (ed_gone _ _ _ _ _ _ _ _ _ Hend eq_refl))|].
    exact (ed_told _ _ _ _ _ _ _ _ _ Hend).
Defined.

(** The second service writes a log. *)
Definition logging_node : node (list call) :=
  on_world example_node (put_context example_world 2 (set_logfile (example_context 0x1000002 2) 5)).

Lemma logoff_keeps_file_open_witness :
  let g := with_node logging_node example_center in
  fengnet_command 1 1 (codes "LOGOFF") (Some (codes ":1000002")) g =
    Ret (None, with_node (on_world logging_node (put_context logging_node.2 2 (example_context 0x1000002 2))) g).
Proof.
  apply (logoff_keeps_file_open 1 (with_node logging_node example_center) {[1%positive]} [] 1 2 2
    (set_logfile (example_context 0x1000002 2) 5)).
  - exact (server_ok_put example_node {[1%positive]} [] 2 (example_context 0x1000002 2)
      (set_logfile (example_context 0x1000002 2) 5) example_server_ok eq_refl eq_refl eq_refl ltac:(cbn; lia)).
  - split; [lia|reflexivity].
  - reflexivity.
  - cbn. lia.
  - discriminate.
Defined.
