(* ===== verification/SocketState.v ===== *)
(** * The state of the socket server

    The data of [fengnet-src/socket_server.h] and [socket_buffer.h], what the
    server has of the outside, and the operations on this state that the model of
    [socket_server.cpp] ([Socket]) is written with.

    Outside are the kernel, the pipe from the workers to the socket thread, and
    the memory of the messages to send. A call of the kernel is a [syscall]; the
    class [Kernel] gives its answer for any history of earlier calls, and the
    state keeps the history. The pipe is a list of requests, as the socket thread
    reads them. Memory is a heap of blocks by address; reading or freeing a block
    that is not there is [Undef].

    A list of write buffers with its [head] and [tail] is a list; a pointer to a
    socket is its index in [slot]. Log lines are left out. *)
From S2P Require Import Prelude StateM Memory.

Local Open Scope Z_scope.

(** ** Constants *)

Definition SOCKET_DATA : Z := 0.
Definition SOCKET_CLOSE : Z := 1.
Definition SOCKET_OPEN : Z := 2.
Definition SOCKET_ACCEPT : Z := 3.
Definition SOCKET_ERR : Z := 4.
Definition SOCKET_EXIT : Z := 5.
Definition SOCKET_UDP : Z := 6.
Definition SOCKET_WARNING : Z := 7.
Definition SOCKET_RST : Z := 8.
Definition SOCKET_MORE : Z := 9.

Definition MAX_INFO : Z := 128.
Definition MAX_SOCKET_P : Z := 16.
Definition MAX_EVENT : Z := 64.
Definition MIN_READ_BUFFER : Z := 64.
Definition SOCKET_TYPE_INVALID : Z := 0.
Definition SOCKET_TYPE_RESERVE : Z := 1.
Definition SOCKET_TYPE_PLISTEN : Z := 2.
Definition SOCKET_TYPE_LISTEN : Z := 3.
Definition SOCKET_TYPE_CONNECTING : Z := 4.
Definition SOCKET_TYPE_CONNECTED : Z := 5.
Definition SOCKET_TYPE_HALFCLOSE_READ : Z := 6.
Definition SOCKET_TYPE_HALFCLOSE_WRITE : Z := 7.
Definition SOCKET_TYPE_PACCEPT : Z := 8.
Definition SOCKET_TYPE_BIND : Z := 9.

Definition MAX_SOCKET : Z := Z.shiftl 1 MAX_SOCKET_P.
Definition PRIORITY_HIGH : Z := 0.
Definition PRIORITY_LOW : Z := 1.

Definition HASH_ID (id : Z) : Z := u32 id mod MAX_SOCKET.
Definition ID_TAG16 (id : Z) : Z := Z.land (Z.shiftr id MAX_SOCKET_P) 0xffff.

Definition PROTOCOL_TCP : Z := 0.
Definition PROTOCOL_UDP : Z := 1.
Definition PROTOCOL_UDPv6 : Z := 2.
Definition PROTOCOL_UNKNOWN : Z := 255.

Definition UDP_ADDRESS_SIZE : Z := 19.
Definition MAX_UDP_PACKAGE : Z := 65535.
Definition WARNING_SIZE : Z := 1024 * 1024.
Definition USEROBJECT : Z := 2 ^ 64 - 1.

(** Of the system's headers. *)
Definition EINTR : Z := 4.
Definition EAGAIN : Z := 11.
Definition ENFILE : Z := 23.
Definition EMFILE : Z := 24.
Definition EINPROGRESS : Z := 115.
Definition AF_INET : Z := 2.
Definition AF_INET6 : Z := 10.
Definition IPPROTO_TCP : Z := 6.
Definition IPPROTO_UDP : Z := 17.
Definition SOCK_STREAM : Z := 1.
Definition SOCK_DGRAM : Z := 2.
Definition SHUT_RD : Z := 0.
Definition SHUT_WR : Z := 1.
Definition SOL_SOCKET : Z := 1.
Definition SO_REUSEADDR : Z := 2.
Definition SO_KEEPALIVE : Z := 9.
Definition TCP_NODELAY : Z := 1.

(** ** Data *)

(** [struct write_buffer]: the rest to write is [wb_sz] bytes from [wb_ptr] on in
    the block [wb_buffer]. [wb_room] is the memory behind the struct, where a
    [write_buffer_udp] has its address. *)
Record write_buffer := MkWb {
  wb_buffer : addr;
  wb_ptr : Z;
  wb_sz : Z;
  wb_userobject : bool;
  wb_room : list Z
}.

Record socket_stat := MkStat { rtime : Z; wtime : Z; st_read : Z; st_write : Z }.

(** The union [p] of a socket: reading the other member is a type error. *)
Inductive sock_p :=
| PSize (size : Z)
| PAddress (udp_address : list Z).

(** [struct socket]; [s_sending] and the other atomics are plain fields. *)
Record socket := MkSocket {
  s_opaque : Z;
  s_high : list write_buffer;
  s_low : list write_buffer;
  s_wb_size : Z;
  s_stat : socket_stat;
  s_sending : Z;
  s_fd : Z;
  s_id : Z;
  s_type : Z;
  s_protocol : Z;
  s_reading : bool;
  s_writing : bool;
  s_closing : bool;
  s_udpconnecting : Z;
  s_warn_size : Z;
  s_p : sock_p;
  s_dw_lock : bool;
  s_dw_offset : Z;
  s_dw_buffer : option addr;
  s_dw_size : Z
}.

Definition set_opaque (v : Z) (s0 : socket) : socket :=
  MkSocket v (s_high s0) (s_low s0) (s_wb_size s0) (s_stat s0) (s_sending s0) (s_fd s0)
    (s_id s0) (s_type s0) (s_protocol s0) (s_reading s0) (s_writing s0) (s_closing s0)
    (s_udpconnecting s0) (s_warn_size s0) (s_p s0) (s_dw_lock s0) (s_dw_offset s0)
    (s_dw_buffer s0) (s_dw_size s0).
Definition set_high (v : list write_buffer) (s0 : socket) : socket :=
  MkSocket (s_opaque s0) v (s_low s0) (s_wb_size s0) (s_stat s0) (s_sending s0) (s_fd s0)
    (s_id s0) (s_type s0) (s_protocol s0) (s_reading s0) (s_writing s0) (s_closing s0)
    (s_udpconnecting s0) (s_warn_size s0) (s_p s0) (s_dw_lock s0) (s_dw_offset s0)
    (s_dw_buffer s0) (s_dw_size s0).
Definition set_low (v : list write_buffer) (s0 : socket) : socket :=
  MkSocket (s_opaque s0) (s_high s0) v (s_wb_size s0) (s_stat s0) (s_sending s0) (s_fd s0)
    (s_id s0) (s_type s0) (s_protocol s0) (s_reading s0) (s_writing s0) (s_closing s0)
    (s_udpconnecting s0) (s_warn_size s0) (s_p s0) (s_dw_lock s0) (s_dw_offset s0)
    (s_dw_buffer s0) (s_dw_size s0).
Definition set_wb_size (v : Z) (s0 : socket) : socket :=
  MkSocket (s_opaque s0) (s_high s0) (s_low s0) v (s_stat s0) (s_sending s0) (s_fd s0)
    (s_id s0) (s_type s0) (s_protocol s0) (s_reading s0) (s_writing s0) (s_closing s0)
    (s_udpconnecting s0) (s_warn_size s0) (s_p s0) (s_dw_lock s0) (s_dw_offset s0)
    (s_dw_buffer s0) (s_dw_size s0).
Definition set_stat (v : socket_stat) (s0 : socket) : socket :=
  MkSocket (s_opaque s0) (s_high s0) (s_low s0) (s_wb_size s0) v (s_sending s0) (s_fd s0)
    (s_id s0) (s_type s0) (s_protocol s0) (s_reading s0) (s_writing s0) (s_closing s0)
    (s_udpconnecting s0) (s_warn_size s0) (s_p s0) (s_dw_lock s0) (s_dw_offset s0)
    (s_dw_buffer s0) (s_dw_size s0).
Definition set_sending (v : Z) (s0 : socket) : socket :=
  MkSocket (s_opaque s0) (s_high s0) (s_low s0) (s_wb_size s0) (s_stat s0) v (s_fd s0)
    (s_id s0) (s_type s0) (s_protocol s0) (s_reading s0) (s_writing s0) (s_closing s0)
    (s_udpconnecting s0) (s_warn_size s0) (s_p s0) (s_dw_lock s0) (s_dw_offset s0)
    (s_dw_buffer s0) (s_dw_size s0).
Definition set_fd (v : Z) (s0 : socket) : socket :=
  MkSocket (s_opaque s0) (s_high s0) (s_low s0) (s_wb_size s0) (s_stat s0) (s_sending s0) v
    (s_id s0) (s_type s0) (s_protocol s0) (s_reading s0) (s_writing s0) (s_closing s0)
    (s_udpconnecting s0) (s_warn_size s0) (s_p s0) (s_dw_lock s0) (s_dw_offset s0)
    (s_dw_buffer s0) (s_dw_size s0).
Definition set_id (v : Z) (s0 : socket) : socket :=
  MkSocket (s_opaque s0) (s_high s0) (s_low s0) (s_wb_size s0) (s_stat s0) (s_sending s0)
    (s_fd s0) v (s_type s0) (s_protocol s0) (s_reading s0) (s_writing s0) (s_closing s0)
    (s_udpconnecting s0) (s_warn_size s0) (s_p s0) (s_dw_lock s0) (s_dw_offset s0)
    (s_dw_buffer s0) (s_dw_size s0).
Definition set_type (v : Z) (s0 : socket) : socket :=
  MkSocket (s_opaque s0) (s_high s0) (s_low s0) (s_wb_size s0) (s_stat s0) (s_sending s0)
    (s_fd s0) (s_id s0) v (s_protocol s0) (s_reading s0) (s_writing s0) (s_closing s0)
    (s_udpconnecting s0) (s_warn_size s0) (s_p s0) (s_dw_lock s0) (s_dw_offset s0)
    (s_dw_buffer s0) (s_dw_size s0).
Definition set_protocol (v : Z) (s0 : socket) : socket :=
  MkSocket (s_opaque s0) (s_high s0) (s_low s0) (s_wb_size s0) (s_stat s0) (s_sending s0)
    (s_fd s0) (s_id s0) (s_type s0) v (s_reading s0) (s_writing s0) (s_closing s0)
    (s_udpconnecting s0) (s_warn_size s0) (s_p s0) (s_dw_lock s0) (s_dw_offset s0)
    (s_dw_buffer s0) (s_dw_size s0).
Definition set_reading (v : bool) (s0 : socket) : socket :=
  MkSocket (s_opaque s0) (s_high s0) (s_low s0) (s_wb_size s0) (s_stat s0) (s_sending s0)
    (s_fd s0) (s_id s0) (s_type s0) (s_protocol s0) v (s_writing s0) (s_closing s0)
    (s_udpconnecting s0) (s_warn_size s0) (s_p s0) (s_dw_lock s0) (s_dw_offset s0)
    (s_dw_buffer s0) (s_dw_size s0).
Definition set_writing (v : bool) (s0 : socket) : socket :=
  MkSocket (s_opaque s0) (s_high s0) (s_low s0) (s_wb_size s0) (s_stat s0) (s_sending s0)
    (s_fd s0) (s_id s0) (s_type s0) (s_protocol s0) (s_reading s0) v (s_closing s0)
    (s_udpconnecting s0) (s_warn_size s0) (s_p s0) (s_dw_lock s0) (s_dw_offset s0)
    (s_dw_buffer s0) (s_dw_size s0).
Definition set_closing (v : bool) (s0 : socket) : socket :=
  MkSocket (s_opaque s0) (s_high s0) (s_low s0) (s_wb_size s0) (s_stat s0) (s_sending s0)
    (s_fd s0) (s_id s0) (s_type s0) (s_protocol s0) (s_reading s0) (s_writing s0) v
    (s_udpconnecting s0) (s_warn_size s0) (s_p s0) (s_dw_lock s0) (s_dw_offset s0)
    (s_dw_buffer s0) (s_dw_size s0).
Definition set_udpconnecting (v : Z) (s0 : socket) : socket :=
  MkSocket (s_opaque s0) (s_high s0) (s_low s0) (s_wb_size s0) (s_stat s0) (s_sending s0)
    (s_fd s0) (s_id s0) (s_type s0) (s_protocol s0) (s_reading s0) (s_writing s0)
    (s_closing s0) v (s_warn_size s0) (s_p s0) (s_dw_lock s0) (s_dw_offset s0)
    (s_dw_buffer s0) (s_dw_size s0).
Definition set_warn_size (v : Z) (s0 : socket) : socket :=
  MkSocket (s_opaque s0) (s_high s0) (s_low s0) (s_wb_size s0) (s_stat s0) (s_sending s0)
    (s_fd s0) (s_id s0) (s_type s0) (s_protocol s0) (s_reading s0) (s_writing s0)
    (s_closing s0) (s_udpconnecting s0) v (s_p s0) (s_dw_lock s0) (s_dw_offset s0)
    (s_dw_buffer s0) (s_dw_size s0).
Definition set_p (v : sock_p) (s0 : socket) : socket :=
  MkSocket (s_opaque s0) (s_high s0) (s_low s0) (s_wb_size s0) (s_stat s0) (s_sending s0)
    (s_fd s0) (s_id s0) (s_type s0) (s_protocol s0) (s_reading s0) (s_writing s0)
    (s_closing s0) (s_udpconnecting s0) (s_warn_size s0) v (s_dw_lock s0) (s_dw_offset s0)
    (s_dw_buffer s0) (s_dw_size s0).
Definition set_dw_lock (v : bool) (s0 : socket) : socket :=
  MkSocket (s_opaque s0) (s_high s0) (s_low s0) (s_wb_size s0) (s_stat s0) (s_sending s0)
    (s_fd s0) (s_id s0) (s_type s0) (s_protocol s0) (s_reading s0) (s_writing s0)
    (s_closing s0) (s_udpconnecting s0) (s_warn_size s0) (s_p s0) v (s_dw_offset s0)
    (s_dw_buffer s0) (s_dw_size s0).
Definition set_dw_offset (v : Z) (s0 : socket) : socket :=
  MkSocket (s_opaque s0) (s_high s0) (s_low s0) (s_wb_size s0) (s_stat s0) (s_sending s0)
    (s_fd s0) (s_id s0) (s_type s0) (s_protocol s0) (s_reading s0) (s_writing s0)
    (s_closing s0) (s_udpconnecting s0) (s_warn_size s0) (s_p s0) (s_dw_lock s0) v
    (s_dw_buffer s0) (s_dw_size s0).
Definition set_dw_buffer (v : option addr) (s0 : socket) : socket :=
  MkSocket (s_opaque s0) (s_high s0) (s_low s0) (s_wb_size s0) (s_stat s0) (s_sending s0)
    (s_fd s0) (s_id s0) (s_type s0) (s_protocol s0) (s_reading s0) (s_writing s0)
    (s_closing s0) (s_udpconnecting s0) (s_warn_size s0) (s_p s0) (s_dw_lock s0)
    (s_dw_offset s0) v (s_dw_size s0).
Definition set_dw_size (v : Z) (s0 : socket) : socket :=
  MkSocket (s_opaque s0) (s_high s0) (s_low s0) (s_wb_size s0) (s_stat s0) (s_sending s0)
    (s_fd s0) (s_id s0) (s_type s0) (s_protocol s0) (s_reading s0) (s_writing s0)
    (s_closing s0) (s_udpconnecting s0) (s_warn_size s0) (s_p s0) (s_dw_lock s0)
    (s_dw_offset s0) (s_dw_buffer s0) v.

Definition socket0 : socket :=
  MkSocket 0 [] [] 0 (MkStat 0 0 0 0) 0 0 0 SOCKET_TYPE_INVALID 0 false false false 0 0
    (PSize 0) false 0 None 0.

#[export] Instance socket_inhabited : Inhabited socket := populate socket0.

(** [union sockaddr_all]: the port and the address are in network order. *)
Record sockaddr := MkAddr { sa_family : Z; sa_port : list Z; sa_addr : list Z }.

Record addrinfo := MkInfo { ai_family : Z; ai_socktype : Z; ai_protocol : Z; ai_addr : sockaddr }.

(** [struct event]: [e_s] is the socket, or null for the pipe. *)
Record event := MkEvent {
  e_s : option Z;
  e_read : bool;
  e_write : bool;
  e_error : bool;
  e_eof : bool
}.

(** [struct socket_sendbuffer]. *)
Inductive sendbuffer_type :=
| SOCKET_BUFFER_MEMORY
| SOCKET_BUFFER_OBJECT
| SOCKET_BUFFER_RAWPOINTER.

Record socket_sendbuffer := MkSend {
  sb_id : Z;
  sb_type : sendbuffer_type;
  sb_buffer : addr;
  sb_sz : Z
}.

(** What [data] of a message points to: nothing, a text of the program, the text
    of an error ([strerror], [gai_strerror]), a name printed into [ss->buffer],
    or new memory with these bytes. *)
Inductive mdata :=
| DNull
| DText (s : string)
| DError (e : Z)
| DGai (e : Z)
| DName (name : list Z)
| DBytes (bs : list Z).

(** [struct socket_message]. *)
Record socket_message := MkMessage { m_id : Z; m_opaque : Z; m_ud : Z; m_data : mdata }.

(** [struct request_package]: the type in its header says which member of the
    union it has. *)
Inductive request :=
| RResume (id opaque : Z)
| RPause (id opaque : Z)
| RBind (id fd opaque : Z)
| RListen (id fd opaque : Z)
| RClose (id shutdown opaque : Z)
| ROpen (id port opaque : Z) (host : list Z)
| RExit
| RTrigger (id : Z)
| RSend (id : Z) (buffer : addr) (sz : Z)
| RSendLow (id : Z) (buffer : addr) (sz : Z)
| RSendUdp (id : Z) (buffer : addr) (sz : Z) (address : list Z)
| RSetUdp (id : Z) (address : list Z)
| RSetopt (id what value : Z)
| RUdp (id fd family opaque : Z).

(** [struct send_object]; [so_free] says that [free_func] is [free]. *)
Record send_object := MkObject { so_buffer : addr; so_sz : Z; so_free : bool }.

(** ** The kernel *)

(** Calls with the type of their answers: a number, where [-e] says that the call
    failed with [errno] [e], or the error or the result. *)
Inductive syscall : Type → Type :=
| SWrite (fd : Z) (bs : list Z) : syscall Z
| SSendto (fd : Z) (bs : list Z) (sa : sockaddr) : syscall Z
| SRead (fd sz : Z) : syscall (Z + list Z)
| SRecvfrom (fd sz : Z) : syscall (Z + list Z * sockaddr)
| SAccept (fd : Z) : syscall (Z + Z * sockaddr)
| SClose (fd : Z) : syscall Z
| SShutdown (fd how : Z) : syscall Z
| SNonblocking (fd : Z) : syscall Z
| SDup (fd : Z) : syscall Z
| SPipe : syscall (Z + Z * Z)
| SSelect (fd : Z) : syscall Z
| SSocket (family type protocol : Z) : syscall Z
| SBind (fd : Z) (sa : sockaddr) : syscall Z
| SListen (fd backlog : Z) : syscall Z
| SConnect (fd : Z) (sa : sockaddr) : syscall Z
| SSetsockopt (fd level what value : Z) : syscall Z
| SGetsockerror (fd : Z) : syscall (Z + Z)
| SGetpeername (fd : Z) : syscall (Z + sockaddr)
| SGetsockname (fd : Z) : syscall (Z + sockaddr)
| SGetaddrinfo (host port : list Z) (type protocol : Z) : syscall (Z + addrinfo * list addrinfo)
| SEpollCreate : syscall Z
| SEpollAdd (efd fd : Z) (s : option Z) : syscall Z
| SEpollDel (efd fd : Z) : syscall Z
| SEpollMod (efd fd s : Z) (read write : bool) : syscall Z
| SEpollWait (efd max : Z) : syscall (Z + list event).

(** A call that has been made, with its answer. *)
Inductive entry : Type :=
| Entry {A : Type} (c : syscall A) (a : A).

Class Kernel := {
  answer : ∀ {A : Type}, list entry → syscall A → A;
  inet_ntop : sockaddr → option (list Z)
}.

(** ** The state *)

(** [struct socket_server], then the pipe, the memory, [errno], the message that
    [socket_server_poll] fills for its caller with [*more], and the history. *)
Record net := MkNet {
  n_time : Z;
  n_reserve_fd : Z;
  n_recvctrl_fd : Z;
  n_sendctrl_fd : Z;
  n_checkctrl : Z;
  n_event_fd : Z;
  n_alloc_id : Z;
  n_event_n : Z;
  n_event_index : Z;
  n_ev : list event;
  n_slot : gmap Z socket;
  n_pipe : list request;
  n_heap : gmap addr (list Z);
  n_errno : Z;
  n_result : socket_message;
  n_more : Z;
  n_history : list entry
}.

Definition put_time (v : Z) (n0 : net) : net :=
  MkNet v (n_reserve_fd n0) (n_recvctrl_fd n0) (n_sendctrl_fd n0) (n_checkctrl n0)
    (n_event_fd n0) (n_alloc_id n0) (n_event_n n0) (n_event_index n0) (n_ev n0) (n_slot n0)
    (n_pipe n0) (n_heap n0) (n_errno n0) (n_result n0) (n_more n0) (n_history n0).
Definition put_reserve_fd (v : Z) (n0 : net) : net :=
  MkNet (n_time n0) v (n_recvctrl_fd n0) (n_sendctrl_fd n0) (n_checkctrl n0) (n_event_fd n0)
    (n_alloc_id n0) (n_event_n n0) (n_event_index n0) (n_ev n0) (n_slot n0) (n_pipe n0)
    (n_heap n0) (n_errno n0) (n_result n0) (n_more n0) (n_history n0).
Definition put_recvctrl_fd (v : Z) (n0 : net) : net :=
  MkNet (n_time n0) (n_reserve_fd n0) v (n_sendctrl_fd n0) (n_checkctrl n0) (n_event_fd n0)
    (n_alloc_id n0) (n_event_n n0) (n_event_index n0) (n_ev n0) (n_slot n0) (n_pipe n0)
    (n_heap n0) (n_errno n0) (n_result n0) (n_more n0) (n_history n0).
Definition put_sendctrl_fd (v : Z) (n0 : net) : net :=
  MkNet (n_time n0) (n_reserve_fd n0) (n_recvctrl_fd n0) v (n_checkctrl n0) (n_event_fd n0)
    (n_alloc_id n0) (n_event_n n0) (n_event_index n0) (n_ev n0) (n_slot n0) (n_pipe n0)
    (n_heap n0) (n_errno n0) (n_result n0) (n_more n0) (n_history n0).
Definition put_checkctrl (v : Z) (n0 : net) : net :=
  MkNet (n_time n0) (n_reserve_fd n0) (n_recvctrl_fd n0) (n_sendctrl_fd n0) v
    (n_event_fd n0) (n_alloc_id n0) (n_event_n n0) (n_event_index n0) (n_ev n0) (n_slot n0)
    (n_pipe n0) (n_heap n0) (n_errno n0) (n_result n0) (n_more n0) (n_history n0).
Definition put_event_fd (v : Z) (n0 : net) : net :=
  MkNet (n_time n0) (n_reserve_fd n0) (n_recvctrl_fd n0) (n_sendctrl_fd n0)
    (n_checkctrl n0) v (n_alloc_id n0) (n_event_n n0) (n_event_index n0) (n_ev n0)
    (n_slot n0) (n_pipe n0) (n_heap n0) (n_errno n0) (n_result n0) (n_more n0)
    (n_history n0).
Definition put_alloc_id (v : Z) (n0 : net) : net :=
  MkNet (n_time n0) (n_reserve_fd n0) (n_recvctrl_fd n0) (n_sendctrl_fd n0) (n_checkctrl n0)
    (n_event_fd n0) v (n_event_n n0) (n_event_index n0) (n_ev n0) (n_slot n0) (n_pipe n0)
    (n_heap n0) (n_errno n0) (n_result n0) (n_more n0) (n_history n0).
Definition put_event_n (v : Z) (n0 : net) : net :=
  MkNet (n_time n0) (n_reserve_fd n0) (n_recvctrl_fd n0) (n_sendctrl_fd n0) (n_checkctrl n0)
    (n_event_fd n0) (n_alloc_id n0) v (n_event_index n0) (n_ev n0) (n_slot n0) (n_pipe n0)
    (n_heap n0) (n_errno n0) (n_result n0) (n_more n0) (n_history n0).
Definition put_event_index (v : Z) (n0 : net) : net :=
  MkNet (n_time n0) (n_reserve_fd n0) (n_recvctrl_fd n0) (n_sendctrl_fd n0) (n_checkctrl n0)
    (n_event_fd n0) (n_alloc_id n0) (n_event_n n0) v (n_ev n0) (n_slot n0) (n_pipe n0)
    (n_heap n0) (n_errno n0) (n_result n0) (n_more n0) (n_history n0).
Definition put_ev (v : list event) (n0 : net) : net :=
  MkNet (n_time n0) (n_reserve_fd n0) (n_recvctrl_fd n0) (n_sendctrl_fd n0) (n_checkctrl n0)
    (n_event_fd n0) (n_alloc_id n0) (n_event_n n0) (n_event_index n0) v (n_slot n0)
    (n_pipe n0) (n_heap n0) (n_errno n0) (n_result n0) (n_more n0) (n_history n0).
Definition put_slot (v : gmap Z socket) (n0 : net) : net :=
  MkNet (n_time n0) (n_reserve_fd n0) (n_recvctrl_fd n0) (n_sendctrl_fd n0) (n_checkctrl n0)
    (n_event_fd n0) (n_alloc_id n0) (n_event_n n0) (n_event_index n0) (n_ev n0) v
    (n_pipe n0) (n_heap n0) (n_errno n0) (n_result n0) (n_more n0) (n_history n0).
Definition put_pipe (v : list request) (n0 : net) : net :=
  MkNet (n_time n0) (n_reserve_fd n0) (n_recvctrl_fd n0) (n_sendctrl_fd n0) (n_checkctrl n0)
    (n_event_fd n0) (n_alloc_id n0) (n_event_n n0) (n_event_index n0) (n_ev n0)
    (n_slot n0) v (n_heap n0) (n_errno n0) (n_result n0) (n_more n0) (n_history n0).
Definition put_heap (v : gmap addr (list Z)) (n0 : net) : net :=
  MkNet (n_time n0) (n_reserve_fd n0) (n_recvctrl_fd n0) (n_sendctrl_fd n0) (n_checkctrl n0)
    (n_event_fd n0) (n_alloc_id n0) (n_event_n n0) (n_event_index n0) (n_ev n0) (n_slot n0)
    (n_pipe n0) v (n_errno n0) (n_result n0) (n_more n0) (n_history n0).
Definition put_errno (v : Z) (n0 : net) : net :=
  MkNet (n_time n0) (n_reserve_fd n0) (n_recvctrl_fd n0) (n_sendctrl_fd n0) (n_checkctrl n0)
    (n_event_fd n0) (n_alloc_id n0) (n_event_n n0) (n_event_index n0) (n_ev n0) (n_slot n0)
    (n_pipe n0) (n_heap n0) v (n_result n0) (n_more n0) (n_history n0).
Definition put_result (v : socket_message) (n0 : net) : net :=
  MkNet (n_time n0) (n_reserve_fd n0) (n_recvctrl_fd n0) (n_sendctrl_fd n0) (n_checkctrl n0)
    (n_event_fd n0) (n_alloc_id n0) (n_event_n n0) (n_event_index n0) (n_ev n0) (n_slot n0)
    (n_pipe n0) (n_heap n0) (n_errno n0) v (n_more n0) (n_history n0).
Definition put_more (v : Z) (n0 : net) : net :=
  MkNet (n_time n0) (n_reserve_fd n0) (n_recvctrl_fd n0) (n_sendctrl_fd n0) (n_checkctrl n0)
    (n_event_fd n0) (n_alloc_id n0) (n_event_n n0) (n_event_index n0) (n_ev n0) (n_slot n0)
    (n_pipe n0) (n_heap n0) (n_errno n0) (n_result n0) v (n_history n0).
Definition put_history (v : list entry) (n0 : net) : net :=
  MkNet (n_time n0) (n_reserve_fd n0) (n_recvctrl_fd n0) (n_sendctrl_fd n0) (n_checkctrl n0)
    (n_event_fd n0) (n_alloc_id n0) (n_event_n n0) (n_event_index n0) (n_ev n0) (n_slot n0)
    (n_pipe n0) (n_heap n0) (n_errno n0) (n_result n0) (n_more n0) v.

Notation M := (stateM net).

Definition message0 : socket_message := MkMessage 0 0 0 DNull.

(** ** Operations on the state *)

Definition get_s (i : Z) : M socket := gets (λ n, n_slot n !!! i).
Definition mod_s (i : Z) (f : socket → socket) : M unit :=
  modify (λ n, put_slot (<[i := f (n_slot n !!! i)]> (n_slot n)) n).

Definition set_result (r : socket_message) : M unit := modify (put_result r).
(** [result->data = d], the rest stays. *)
Definition result_data (d : mdata) : M unit :=
  modify (λ n, let r := n_result n in
    put_result (MkMessage (m_id r) (m_opaque r) (m_ud r) d) n).

#[export] Instance net_heap : HasHeap net := {| heap := n_heap; with_heap := put_heap |}.

Section kernel.
Context `{!Kernel}.

Definition call {A} (c : syscall A) : M A :=
  a ← gets (λ n, answer (n_history n) c);
  modify (λ n, put_history (n_history n ++ [Entry c a]) n);;
  mret a.

(** A call that returns -1 and sets [errno] when it fails. *)
Definition sys (c : syscall Z) : M Z :=
  r ← call c;
  if r <? 0 then modify (put_errno (- r));; mret (-1) else mret r.
Definition sys_sum {A} (c : syscall (Z + A)) : M (option A) :=
  r ← call c;
  match r with inl e => modify (put_errno e);; mret None | inr a => mret (Some a) end.
Definition get_errno : M Z := gets n_errno.
End kernel.
