(* ===== verification/Socket.v ===== *)
(** * The socket server

    The model of [fengnet-src/socket_server.cpp]. Workers call
    [socket_server_send], [_close], [_listen] and the others, which look at a slot
    and put a request into the pipe; the socket thread runs [socket_server_poll],
    which takes requests and the events of [epoll] one by one ([poll_turn]) until
    one of them gives a message.

    Every function here runs as one step; the spin lock of a socket is the field
    [s_dw_lock], and a thread that waits for a lock that is taken is a [Deadlock].
    [fuel] bounds the retries of a [write] that is interrupted. *)
From S2P Require Import Prelude StateM Memory SocketState.

Local Open Scope Z_scope.

Section socket.
Context `{!Kernel} (fuel : nat).

(** ** Locks *)

(** [struct socket_lock]: [l] is its [count], for the lock of the socket [i]. *)
Definition socket_lock_init : Z := 0.

Definition socket_lock (i l : Z) : M Z :=
  if l =? 0 then
    s ← get_s i;
    if s_dw_lock s then liftO Deadlock else mod_s i (set_dw_lock true);; mret (l + 1)
  else mret (l + 1).

(** [None] when the lock is taken. *)
Definition socket_trylock (i l : Z) : M (option Z) :=
  if l =? 0 then
    s ← get_s i;
    if s_dw_lock s then mret None else mod_s i (set_dw_lock true);; mret (Some (l + 1))
  else mret (Some (l + 1)).

Definition socket_unlock (i l : Z) : M Z :=
  let l := l - 1 in
  if l <=? 0 then
    liftO (assert_true (l =? 0));; mod_s i (set_dw_lock false);; mret l
  else mret l.

(** ** Sockets *)

Definition socket_invalid (s : socket) (id : Z) : bool :=
  negb (s_id s =? id) || (s_type s =? SOCKET_TYPE_INVALID).

Definition send_buffer_empty (s : socket) : bool :=
  match s_high s, s_low s with [], [] => true | _, _ => false end.

Definition nomore_sending_data (s : socket) : bool :=
  (send_buffer_empty s && (match s_dw_buffer s with None => true | Some _ => false end) &&
   (Z.land (s_sending s) 0xffff =? 0))
  || (s_type s =? SOCKET_TYPE_HALFCLOSE_WRITE).

Definition can_direct_write (s : socket) (id : Z) : bool :=
  (s_id s =? id) && nomore_sending_data s && (s_type s =? SOCKET_TYPE_CONNECTED) &&
  (s_udpconnecting s =? 0).

Definition halfclose_read (s : socket) : bool := s_type s =? SOCKET_TYPE_HALFCLOSE_READ.

Definition stat_read (i n : Z) : M unit :=
  t ← gets n_time;
  mod_s i (λ s, set_stat (MkStat t (wtime (s_stat s)) (u64 (st_read (s_stat s) + n))
    (st_write (s_stat s))) s).

Definition stat_write (i n : Z) : M unit :=
  t ← gets n_time;
  mod_s i (λ s, set_stat (MkStat (rtime (s_stat s)) t (st_read (s_stat s))
    (u64 (st_write (s_stat s) + n))) s).

(** ** Events *)

(** 1 when it fails, else 0. *)
Definition sp_add (fd : Z) (s : option Z) : M Z :=
  efd ← gets n_event_fd;
  r ← sys (SEpollAdd efd fd s);
  mret (if r =? -1 then 1 else 0).

Definition sp_del (fd : Z) : M unit :=
  efd ← gets n_event_fd; sys (SEpollDel efd fd);; mret tt.

Definition sp_enable (fd i : Z) (read write : bool) : M Z :=
  efd ← gets n_event_fd;
  r ← sys (SEpollMod efd fd i read write);
  mret (if r =? -1 then 1 else 0).

(** The events are the new [ss->ev]. *)
Definition sp_wait : M Z :=
  efd ← gets n_event_fd;
  r ← sys_sum (SEpollWait efd MAX_EVENT);
  match r with
  | None => mret (-1)
  | Some evs => modify (put_ev evs);; mret (zlen evs)
  end.

Definition sp_nonblocking (fd : Z) : M unit := sys (SNonblocking fd);; mret tt.

Definition enable_write (i : Z) (enable : bool) : M Z :=
  s ← get_s i;
  if negb (eqb (s_writing s) enable) then
    mod_s i (set_writing enable);; sp_enable (s_fd s) i (s_reading s) enable
  else mret 0.

Definition enable_read (i : Z) (enable : bool) : M Z :=
  s ← get_s i;
  if negb (eqb (s_reading s) enable) then
    mod_s i (set_reading enable);; sp_enable (s_fd s) i enable (s_writing s)
  else mret 0.

(** ** Memory of the messages *)

(** A message of size [USEROBJECT] is read through [ss->soi], which
    [socket_server_create] clears and nothing sets: null pointers are called. *)
Definition soi_call {A} : M A := liftO Undef.

Definition free_func (so : send_object) (p : addr) : M unit :=
  if so_free so then hfree p else mret tt.

Definition send_object_init (object : addr) (sz : Z) : M (send_object * bool) :=
  if sz =? USEROBJECT then soi_call
  else mret (MkObject object sz true, false).

Definition send_object_init_from_sendbuffer (buf : socket_sendbuffer) : M send_object :=
  match sb_type buf with
  | SOCKET_BUFFER_MEMORY => '(so, _) ← send_object_init (sb_buffer buf) (sb_sz buf); mret so
  | SOCKET_BUFFER_OBJECT => '(so, _) ← send_object_init (sb_buffer buf) USEROBJECT; mret so
  | SOCKET_BUFFER_RAWPOINTER => mret (MkObject (sb_buffer buf) (sb_sz buf) false)
  end.

Definition free_buffer (buf : socket_sendbuffer) : M unit :=
  match sb_type buf with
  | SOCKET_BUFFER_MEMORY => hfree (sb_buffer buf)
  | SOCKET_BUFFER_OBJECT => soi_call
  | SOCKET_BUFFER_RAWPOINTER => mret tt
  end.

(** The buffer and its size. *)
Definition clone_buffer (buf : socket_sendbuffer) : M (addr * Z) :=
  match sb_type buf with
  | SOCKET_BUFFER_MEMORY => mret (sb_buffer buf, sb_sz buf)
  | SOCKET_BUFFER_OBJECT => mret (sb_buffer buf, USEROBJECT)
  | SOCKET_BUFFER_RAWPOINTER =>
      bs ← hread (sb_buffer buf) 0 (sb_sz buf);
      tmp ← hmalloc bs;
      mret (tmp, sb_sz buf)
  end.

Definition write_buffer_free (wb : write_buffer) : M unit :=
  if wb_userobject wb then soi_call else hfree (wb_buffer wb).

Fixpoint free_wb_list (l : list write_buffer) : M unit :=
  match l with
  | [] => mret tt
  | wb :: l' => write_buffer_free wb;; free_wb_list l'
  end.

(** ** Closing *)

Definition force_close (i l : Z) : M unit :=
  s ← get_s i;
  set_result (MkMessage (s_id s) (s_opaque s) 0 DNull);;
  let type := s_type s in
  if type =? SOCKET_TYPE_INVALID then mret tt
  else
    liftO (assert_true (negb (type =? SOCKET_TYPE_RESERVE)));;
    free_wb_list (s_high s);; mod_s i (set_high []);;
    free_wb_list (s_low s);; mod_s i (set_low []);;
    sp_del (s_fd s);;
    l ← socket_lock i l;
    (if negb (type =? SOCKET_TYPE_BIND) then sys (SClose (s_fd s));; mret tt else mret tt);;
    mod_s i (set_type SOCKET_TYPE_INVALID);;
    (match s_dw_buffer s with
     | Some p =>
         free_buffer (MkSend (s_id s)
           (if s_dw_size s =? USEROBJECT then SOCKET_BUFFER_OBJECT else SOCKET_BUFFER_MEMORY)
           p (s_dw_size s));;
         mod_s i (set_dw_buffer None)
     | None => mret tt
     end);;
    socket_unlock i l;;
    mret tt.

Definition close_read (i : Z) : M unit :=
  mod_s i (set_type SOCKET_TYPE_HALFCLOSE_READ);;
  enable_read i false;;
  s ← get_s i;
  sys (SShutdown (s_fd s) SHUT_RD);;
  set_result (MkMessage (s_id s) (s_opaque s) 0 DNull).

Definition report_error (i : Z) (err : mdata) : M Z :=
  s ← get_s i;
  set_result (MkMessage (s_id s) (s_opaque s) 0 err);;
  mret SOCKET_ERR.

Definition close_write (i l : Z) : M Z :=
  s ← get_s i;
  if s_closing s then force_close i l;; mret SOCKET_RST
  else
    let t := s_type s in
    if t =? SOCKET_TYPE_HALFCLOSE_READ then force_close i l;; mret SOCKET_RST
    else if t =? SOCKET_TYPE_HALFCLOSE_WRITE then mret SOCKET_RST
    else
      mod_s i (set_type SOCKET_TYPE_HALFCLOSE_WRITE);;
      sys (SShutdown (s_fd s) SHUT_WR);;
      enable_write i false;;
      e ← get_errno;
      report_error i (DError e).

(** ** New sockets *)

(** The lists of write buffers of a new socket are empty. *)
Definition check_wb_list (l : list write_buffer) : M unit :=
  liftO (assert_true (match l with [] => true | _ => false end)).

(** One turn: the id, if its slot is free. The sum is an [int]. A compare-and-swap
    does not fail, since this runs as one step. *)
Definition reserve_turn : M (option Z) :=
  a ← gets n_alloc_id;
  modify (put_alloc_id (i32 (a + 1)));;
  id ← liftO (cint (a + 1));
  id ← (if id <? 0 then
          a ← gets n_alloc_id;
          modify (put_alloc_id (Z.land a 0x7fffffff));;
          mret (Z.land a 0x7fffffff)
        else mret id);
  let i := HASH_ID id in
  s ← get_s i;
  if s_type s =? SOCKET_TYPE_INVALID then
    mod_s i (set_type SOCKET_TYPE_RESERVE);;
    mod_s i (set_id id);;
    mod_s i (set_protocol PROTOCOL_UNKNOWN);;
    mod_s i (set_udpconnecting 0);;
    mod_s i (set_fd (-1));;
    mret (Some id)
  else mret None.

Fixpoint reserve_loop (n : nat) : M Z :=
  match n with
  | O => mret (-1)
  | S n' =>
      r ← reserve_turn;
      match r with Some id => mret id | None => reserve_loop n' end
  end.

(** The id, or -1 when all slots are taken. *)
Definition reserve_id : M Z := reserve_loop (Z.to_nat MAX_SOCKET).

(** The index of the slot, or [None] for a null pointer. *)
Definition new_fd (id fd protocol opaque : Z) (reading : bool) : M (option Z) :=
  let i := HASH_ID id in
  s ← get_s i;
  liftO (assert_true (s_type s =? SOCKET_TYPE_RESERVE));;
  r ← sp_add fd (Some i);
  if negb (r =? 0) then mod_s i (set_type SOCKET_TYPE_INVALID);; mret None
  else
    mod_s i (set_id id);;
    mod_s i (set_fd fd);;
    mod_s i (set_reading true);;
    mod_s i (set_writing false);;
    mod_s i (set_closing false);;
    mod_s i (set_sending (Z.lor (Z.shiftl (ID_TAG16 id) 16) 0));;
    mod_s i (set_protocol (u8 protocol));;
    mod_s i (set_p (PSize MIN_READ_BUFFER));;
    mod_s i (set_opaque opaque);;
    mod_s i (set_wb_size 0);;
    mod_s i (set_warn_size 0);;
    s ← get_s i;
    check_wb_list (s_high s);;
    check_wb_list (s_low s);;
    mod_s i (set_dw_buffer None);;
    mod_s i (set_dw_size 0);;
    mod_s i (set_stat (MkStat 0 0 0 0));;
    r ← enable_read i reading;
    if negb (r =? 0) then mod_s i (set_type SOCKET_TYPE_INVALID);; mret None
    else mret (Some i).

(** ** Addresses *)

(** ["%s:%d"], cut to [sz - 1] characters. *)
Definition getname (u : sockaddr) (sz : Z) : option (list Z) :=
  match inet_ntop u with
  | Some tmp => Some (take (Z.to_nat (sz - 1))
      (tmp ++ [58] ++ decimal (256 * nth 0 (sa_port u) 0 + nth 1 (sa_port u) 0)))
  | None => None
  end.

(** [None] stands for a length of 0. The numbers after the type are the port and
    the address. *)
Definition udp_socket_address (protocol : Z) (udp_address : list Z) : outcome (option sockaddr) :=
  type ← aget udp_address 0;
  if negb (type =? protocol) then Ret None
  else
    port ← mread udp_address 1 2;
    if protocol =? PROTOCOL_UDP then
      a ← mread udp_address 3 4; Ret (Some (MkAddr AF_INET port a))
    else if protocol =? PROTOCOL_UDPv6 then
      a ← mread udp_address 3 16; Ret (Some (MkAddr AF_INET6 port a))
    else Ret None.

Definition gen_udp_address (protocol : Z) (sa : sockaddr) : list Z :=
  [u8 protocol] ++ sa_port sa ++ sa_addr sa.

(** The member of the union that is there. *)
Definition p_udp_address (s : socket) : outcome (list Z) :=
  match s_p s with PAddress a => Ret a | PSize _ => Undef end.
Definition p_size (s : socket) : outcome Z :=
  match s_p s with PSize n => Ret n | PAddress _ => Undef end.

(** ** The requests of the workers *)

Definition send_request (r : request) : M unit := modify (λ n, put_pipe (n_pipe n ++ [r]) n).

(** A count of 0xffff makes the caller spin until the socket thread has
    taken a request: as one step, it waits for ever. *)
Definition inc_sending_ref (i id : Z) : M unit :=
  s ← get_s i;
  if negb (s_protocol s =? PROTOCOL_TCP) then mret tt
  else
    let sending := s_sending s in
    if Z.shiftr sending 16 =? ID_TAG16 id then
      if Z.land sending 0xffff =? 0xffff then liftO Deadlock
      else mod_s i (set_sending (u64 (sending + 1)))
    else mret tt.

Definition dec_sending_ref (id : Z) : M unit :=
  let i := HASH_ID id in
  s ← get_s i;
  if (s_id s =? id) && (s_protocol s =? PROTOCOL_TCP) then
    liftO (assert_true (negb (Z.land (s_sending s) 0xffff =? 0)));;
    mod_s i (set_sending (u64 (s_sending s - 1)))
  else mret tt.

(** Writes directly; what is left goes to [dw_buffer]. [None] when the address of
    a UDP socket has not been set. *)
Definition direct_write (i : Z) (so : send_object) : M (option Z) :=
  s ← get_s i;
  n ← (if s_protocol s =? PROTOCOL_TCP then
         bs ← hread (so_buffer so) 0 (so_sz so);
         n ← sys (SWrite (s_fd s) bs); mret (Some n)
       else
         a ← liftO (p_udp_address s);
         sa ← liftO (udp_socket_address (s_protocol s) a);
         match sa with
         | None => mret None
         | Some sa =>
             bs ← hread (so_buffer so) 0 (so_sz so);
             n ← sys (SSendto (s_fd s) bs sa); mret (Some n)
         end);
  match n with
  | None => mret None
  | Some n => let n := if n <? 0 then 0 else n in stat_write i n;; mret (Some n)
  end.

Definition post_send (low : bool) (i : Z) (buf : socket_sendbuffer) : M unit :=
  inc_sending_ref i (sb_id buf);;
  '(p, sz) ← clone_buffer buf;
  send_request (if low then RSendLow (sb_id buf) p sz else RSend (sb_id buf) p sz).

Definition socket_server_send (buf : socket_sendbuffer) : M Z :=
  let id := sb_id buf in
  let i := HASH_ID id in
  s ← get_s i;
  if socket_invalid s id || s_closing s then free_buffer buf;; mret (-1)
  else
    o ← (if can_direct_write s id then socket_trylock i socket_lock_init else mret None);
    match o with
    | None => post_send false i buf;; mret 0
    | Some l =>
        s ← get_s i;
        if can_direct_write s id then
          so ← send_object_init_from_sendbuffer buf;
          r ← direct_write i so;
          match r with
          | None =>
              socket_unlock i l;; free_func so (sb_buffer buf);; mret (-1)
          | Some n =>
              if n =? so_sz so then
                socket_unlock i l;; free_func so (sb_buffer buf);; mret 0
              else
                '(p, sz) ← clone_buffer buf;
                mod_s i (set_dw_buffer (Some p));;
                mod_s i (set_dw_size sz);;
                mod_s i (set_dw_offset (i32 n));;
                socket_unlock i l;;
                send_request (RTrigger id);;
                mret 0
          end
        else
          socket_unlock i l;;
          post_send false i buf;;
          mret 0
    end.

Definition socket_server_send_lowpriority (buf : socket_sendbuffer) : M Z :=
  let id := sb_id buf in
  let i := HASH_ID id in
  s ← get_s i;
  if socket_invalid s id then free_buffer buf;; mret (-1)
  else post_send true i buf;; mret 0.

Definition socket_server_exit : M unit := send_request RExit.
Definition socket_server_close (opaque id : Z) : M unit := send_request (RClose id 0 opaque).
Definition socket_server_shutdown (opaque id : Z) : M unit := send_request (RClose id 1 opaque).
Definition socket_server_start (opaque id : Z) : M unit := send_request (RResume id opaque).
Definition socket_server_pause (opaque id : Z) : M unit := send_request (RPause id opaque).
Definition socket_server_nodelay (id : Z) : M unit := send_request (RSetopt id TCP_NODELAY 1).

(** -1, or the file descriptor and the family of its address. An empty host, or
    none, is every address of the machine. *)
Definition do_bind (host : option (list Z)) (port protocol : Z) : M (Z * Z) :=
  let host := match host with
              | None | Some [] | Some (0 :: _) => codes "0.0.0.0"
              | Some h => h end in
  liftO (assert_true ((protocol =? IPPROTO_TCP) || (protocol =? IPPROTO_UDP)));;
  ai ← call (SGetaddrinfo host (decimal port)
         (if protocol =? IPPROTO_TCP then SOCK_STREAM else SOCK_DGRAM) protocol);
  match ai with
  | inl _ => mret (-1, 0)
  | inr (ai, _) =>
      fd ← sys (SSocket (ai_family ai) (ai_socktype ai) 0);
      if fd <? 0 then mret (-1, ai_family ai)
      else
        r ← sys (SSetsockopt fd SOL_SOCKET SO_REUSEADDR 1);
        if r =? -1 then sys (SClose fd);; mret (-1, ai_family ai)
        else
          r ← sys (SBind fd (ai_addr ai));
          if negb (r =? 0) then sys (SClose fd);; mret (-1, ai_family ai)
          else mret (fd, ai_family ai)
  end.

Definition do_listen (host : option (list Z)) (port backlog : Z) : M Z :=
  '(listen_fd, _) ← do_bind host port IPPROTO_TCP;
  if listen_fd <? 0 then mret (-1)
  else
    r ← sys (SListen listen_fd backlog);
    if r =? -1 then sys (SClose listen_fd);; mret (-1) else mret listen_fd.

Definition socket_server_listen (opaque : Z) (addr : option (list Z)) (port backlog : Z) : M Z :=
  fd ← do_listen addr port backlog;
  if fd <? 0 then mret (-1)
  else
    id ← reserve_id;
    if id <? 0 then sys (SClose fd);; mret id
    else send_request (RListen id fd opaque);; mret id.

(** [sizeof(req->u.open)]. *)
Definition sizeof_open : Z := 24.

(** The request, or [None] for -1. *)
Definition open_request (opaque : Z) (addr : list Z) (port : Z) : M (option (Z * request)) :=
  if 256 <=? zlen addr + sizeof_open then mret None
  else
    id ← reserve_id;
    if id <? 0 then mret None else mret (Some (id, ROpen id port opaque addr)).

Definition socket_server_connect (opaque : Z) (addr : list Z) (port : Z) : M Z :=
  r ← open_request opaque addr port;
  match r with
  | None => mret (-1)
  | Some (id, req) => send_request req;; mret id
  end.

Definition socket_server_bind (opaque fd : Z) : M Z :=
  id ← reserve_id;
  if id <? 0 then mret (-1) else send_request (RBind id fd opaque);; mret id.

(** ** Write buffers *)

Definition append_sendbuffer_ (wl : list write_buffer) (buffer : addr) (sz : Z)
    : M (write_buffer * list write_buffer) :=
  '(so, userobject) ← send_object_init buffer sz;
  let buf := MkWb buffer 0 (so_sz so) userobject [] in
  mret (buf, wl ++ [buf]).

(** [new write_buffer()] has no room for the address of a [write_buffer_udp]. *)
Definition append_sendbuffer_udp (i priority : Z) (buffer : addr) (sz : Z) (address : list Z)
    : M unit :=
  s ← get_s i;
  '(buf, wl) ← append_sendbuffer_ (if priority =? PRIORITY_HIGH then s_high s else s_low s) buffer sz;
  room ← liftO (mwrite (wb_room buf) 0 (take (Z.to_nat UDP_ADDRESS_SIZE) address ++
    replicate (Z.to_nat UDP_ADDRESS_SIZE - length address) 0));
  let wl := take (length wl - 1) wl ++
    [MkWb (wb_buffer buf) (wb_ptr buf) (wb_sz buf) (wb_userobject buf) room] in
  mod_s i (if priority =? PRIORITY_HIGH then set_high wl else set_low wl);;
  mod_s i (λ s, set_wb_size (i64 (s_wb_size s + wb_sz buf)) s).

Definition append_sendbuffer (i : Z) (buffer : addr) (sz : Z) : M unit :=
  s ← get_s i;
  '(buf, wl) ← append_sendbuffer_ (s_high s) buffer sz;
  mod_s i (set_high wl);;
  mod_s i (λ s, set_wb_size (i64 (s_wb_size s + wb_sz buf)) s).

Definition append_sendbuffer_low (i : Z) (buffer : addr) (sz : Z) : M unit :=
  s ← get_s i;
  '(buf, wl) ← append_sendbuffer_ (s_low s) buffer sz;
  mod_s i (set_low wl);;
  mod_s i (λ s, set_wb_size (i64 (s_wb_size s + wb_sz buf)) s).

(** ** The requests in the socket thread *)

Definition trigger_write (id : Z) : M Z :=
  let i := HASH_ID id in
  s ← get_s i;
  if socket_invalid s id then mret (-1)
  else
    r ← enable_write i true;
    if negb (r =? 0) then report_error i (DText "enable write failed") else mret (-1).

(** What is sent for a UDP socket to its own or to a given address: the message
    goes out, is dropped, or is appended; [true] when nothing is left to do. *)
Definition send_udp (i priority : Z) (so : send_object) (buffer : addr) (sz : Z)
    (udp_address : option (list Z)) : M bool :=
  s ← get_s i;
  a ← liftO (match udp_address with Some a => Ret a | None => p_udp_address s end);
  sa ← liftO (udp_socket_address (s_protocol s) a);
  match sa with
  | None => free_func so buffer;; mret true
  | Some sa =>
      bs ← hread (so_buffer so) 0 (so_sz so);
      n ← sys (SSendto (s_fd s) bs sa);
      if negb (n =? so_sz so) then append_sendbuffer_udp i priority buffer sz a;; mret false
      else stat_write i n;; free_func so buffer;; mret true
  end.

(** A warning when too much waits to be written. *)
Definition warn_turn (i : Z) : M Z :=
  s ← get_s i;
  if (WARNING_SIZE <=? s_wb_size s) && (s_warn_size s <=? s_wb_size s) then
    mod_s i (set_warn_size (if s_warn_size s =? 0 then WARNING_SIZE * 2 else i64 (s_warn_size s * 2)));;
    let k := Z.quot (s_wb_size s) 1024 in
    set_result (MkMessage (s_id s) (s_opaque s)
      (i32 (if Z.rem (s_wb_size s) 1024 =? 0 then k else k + 1)) DNull);;
    mret SOCKET_WARNING
  else mret (-1).

Definition send_socket (id : Z) (buffer : addr) (sz : Z) (priority : Z)
    (udp_address : option (list Z)) : M Z :=
  let i := HASH_ID id in
  s ← get_s i;
  '(so, _) ← send_object_init buffer sz;
  let type := s_type s in
  if (type =? SOCKET_TYPE_INVALID) || negb (s_id s =? id) ||
     (type =? SOCKET_TYPE_HALFCLOSE_WRITE) || (type =? SOCKET_TYPE_PACCEPT) || s_closing s then
    free_func so buffer;; mret (-1)
  else if (type =? SOCKET_TYPE_PLISTEN) || (type =? SOCKET_TYPE_LISTEN) then
    free_func so buffer;; mret (-1)
  else if send_buffer_empty s then
    sent ← (if s_protocol s =? PROTOCOL_TCP then append_sendbuffer i buffer sz;; mret false
            else send_udp i priority so buffer sz udp_address) : M bool;
    if (sent : bool) then mret (-1)
    else
      r ← enable_write i true;
      if negb (r =? 0) then report_error i (DText "enable write failed") else warn_turn i
  else
    (if s_protocol s =? PROTOCOL_TCP then
       if priority =? PRIORITY_LOW then append_sendbuffer_low i buffer sz
       else append_sendbuffer i buffer sz
     else
       a ← liftO (match udp_address with Some a => Ret a | None => p_udp_address s end);
       append_sendbuffer_udp i priority buffer sz a);;
    warn_turn i.

(** A later message with nothing to be closed or sent. *)
Definition close_socket (id shutdown : Z) : M Z :=
  let i := HASH_ID id in
  s ← get_s i;
  if socket_invalid s id then mret (-1)
  else
    let shutdown_read := halfclose_read s in
    if negb (shutdown =? 0) || nomore_sending_data s then
      force_close i socket_lock_init;;
      mret (if shutdown_read then -1 else SOCKET_CLOSE)
    else
      mod_s i (set_closing true);;
      if negb shutdown_read then close_read i;; mret SOCKET_CLOSE
      else mret (-1).

Definition bind_socket (id fd opaque : Z) : M Z :=
  set_result (MkMessage id opaque 0 DNull);;
  s ← new_fd id fd PROTOCOL_TCP opaque true;
  match s with
  | None => result_data (DText "reach skynet socket number limit");; mret SOCKET_ERR
  | Some i =>
      sp_nonblocking fd;;
      mod_s i (set_type SOCKET_TYPE_BIND);;
      result_data (DText "binding");;
      mret SOCKET_OPEN
  end.

Definition resume_socket (id opaque : Z) : M Z :=
  set_result (MkMessage id opaque 0 DNull);;
  let i := HASH_ID id in
  s ← get_s i;
  if socket_invalid s id then result_data (DText "invalid socket");; mret SOCKET_ERR
  else if halfclose_read s then result_data (DText "socket closed");; mret SOCKET_ERR
  else
    r ← enable_read i true;
    if negb (r =? 0) then result_data (DText "enable read failed");; mret SOCKET_ERR
    else
      s ← get_s i;
      let type := u8 (s_type s) in
      if (type =? SOCKET_TYPE_PACCEPT) || (type =? SOCKET_TYPE_PLISTEN) then
        mod_s i (set_type (if type =? SOCKET_TYPE_PACCEPT then SOCKET_TYPE_CONNECTED
                           else SOCKET_TYPE_LISTEN));;
        mod_s i (set_opaque opaque);;
        result_data (DText "start");;
        mret SOCKET_OPEN
      else if type =? SOCKET_TYPE_CONNECTED then
        mod_s i (set_opaque opaque);;
        result_data (DText "transfer");;
        mret SOCKET_OPEN
      else mret (-1).

Definition pause_socket (id : Z) : M Z :=
  let i := HASH_ID id in
  s ← get_s i;
  if socket_invalid s id then mret (-1)
  else
    r ← enable_read i false;
    if negb (r =? 0) then report_error i (DText "enable read failed") else mret (-1).

Definition setopt_socket (id what value : Z) : M unit :=
  s ← get_s (HASH_ID id);
  if socket_invalid s id then mret tt
  else sys (SSetsockopt (s_fd s) IPPROTO_TCP what value);; mret tt.

Definition socket_keepalive (fd : Z) : M unit :=
  sys (SSetsockopt fd SOL_SOCKET SO_KEEPALIVE 1);; mret tt.

(** The addresses one after the other: the socket that connects or has begun to,
    with what [connect] returned. *)
Fixpoint connect_turn (l : list addrinfo) (sock status : Z) : M (Z * Z * option addrinfo) :=
  match l with
  | [] => mret (sock, status, None)
  | ai :: l' =>
      sock ← sys (SSocket (ai_family ai) (ai_socktype ai) (ai_protocol ai));
      if sock <? 0 then connect_turn l' sock status
      else
        socket_keepalive sock;;
        sp_nonblocking sock;;
        status ← sys (SConnect sock (ai_addr ai));
        e ← get_errno;
        if negb (status =? 0) && negb (e =? EINPROGRESS) then
          sys (SClose sock);; connect_turn l' (-1) status
        else mret (sock, status, Some ai)
  end.

(** The labels [_failed] and [_failed_getaddrinfo]. *)
Definition open_failed (id sock : Z) : M Z :=
  (if 0 <=? sock then sys (SClose sock);; mret tt else mret tt);;
  mod_s (HASH_ID id) (set_type SOCKET_TYPE_INVALID);;
  mret SOCKET_ERR.

Definition open_socket (id port opaque : Z) (host : list Z) : M Z :=
  set_result (MkMessage id opaque 0 DNull);;
  ai ← call (SGetaddrinfo host (decimal port) SOCK_STREAM IPPROTO_TCP);
  match ai with
  | inl status => result_data (DGai status);; open_failed id (-1)
  | inr (ai, l) =>
      '(sock, status, ai_ptr) ← connect_turn (ai :: l) (-1) 0;
      if sock <? 0 then
        e ← get_errno; result_data (DError e);; open_failed id sock
      else
        ns ← new_fd id sock PROTOCOL_TCP opaque true;
        match ns with
        | None => result_data (DText "reach skynet socket number limit");; open_failed id sock
        | Some i =>
            if status =? 0 then
              mod_s i (set_type SOCKET_TYPE_CONNECTED);;
              ai ← liftO (match ai_ptr with Some ai => Ret ai | None => Undef end);
              (match inet_ntop (ai_addr ai) with
               | Some name => result_data (DName name)
               | None => mret tt
               end);;
              mret SOCKET_OPEN
            else
              r ← enable_write i true;
              if negb (r =? 0) then
                result_data (DText "enable write failed");; open_failed id sock
              else mod_s i (set_type SOCKET_TYPE_CONNECTING);; mret (-1)
        end
  end.

Definition listen_socket (id fd opaque : Z) : M Z :=
  s ← new_fd id fd PROTOCOL_TCP opaque false;
  match s with
  | None =>
      sys (SClose fd);;
      set_result (MkMessage id opaque 0 (DText "reach skynet socket number limit"));;
      mod_s (HASH_ID id) (set_type SOCKET_TYPE_INVALID);;
      mret SOCKET_ERR
  | Some i =>
      mod_s i (set_type SOCKET_TYPE_PLISTEN);;
      set_result (MkMessage id opaque 0 (DText "listen"));;
      u ← sys_sum (SGetsockname fd);
      match u with
      | Some u =>
          match inet_ntop u with
          | None => e ← get_errno; result_data (DError e);; mret SOCKET_ERR
          | Some name =>
              set_result (MkMessage id opaque
                (256 * nth 0 (sa_port u) 0 + nth 1 (sa_port u) 0) (DName name));;
              mret SOCKET_OPEN
          end
      | None => e ← get_errno; result_data (DError e);; mret SOCKET_ERR
      end
  end.

Definition set_udp_address (id : Z) (address : list Z) : M Z :=
  let i := HASH_ID id in
  s ← get_s i;
  if socket_invalid s id then mret (-1)
  else
    type ← liftO (aget address 0);
    if negb (type =? s_protocol s) then report_error i (DText "protocol mismatch")
    else
      a ← liftO (mread address 0 (if type =? PROTOCOL_UDP then 1 + 2 + 4 else 1 + 2 + 16));
      old ← liftO (p_udp_address s);
      new ← liftO (mwrite old 0 a);
      mod_s i (set_p (PAddress new));;
      mod_s i (λ s, set_udpconnecting (i32 (s_udpconnecting s - 1)) s);;
      mret (-1).

Definition add_udp_socket (id fd family opaque : Z) : M unit :=
  let protocol := if family =? AF_INET6 then PROTOCOL_UDPv6 else PROTOCOL_UDP in
  ns ← new_fd id fd protocol opaque true;
  match ns with
  | None => sys (SClose fd);; mod_s (HASH_ID id) (set_type SOCKET_TYPE_INVALID)
  | Some i =>
      mod_s i (set_type SOCKET_TYPE_CONNECTED);;
      mod_s i (set_p (PAddress (replicate (Z.to_nat UDP_ADDRESS_SIZE) 0)))
  end.

(** 1 when a request waits in the pipe. *)
Definition has_cmd : M Z :=
  fd ← gets n_recvctrl_fd;
  r ← sys (SSelect fd);
  p ← gets n_pipe;
  mret (if (r =? -1) || match p with [] => true | _ => false end then 0 else 1).

(** The two reads of the pipe: they wait when it is empty. *)
Definition block_readpipe : M request :=
  p ← gets n_pipe;
  match p with
  | [] => liftO Deadlock
  | r :: p' => modify (put_pipe p');; mret r
  end.

Definition ctrl_cmd : M Z :=
  r ← block_readpipe;
  match r with
  | RResume id opaque => resume_socket id opaque
  | RPause id _ => pause_socket id
  | RBind id fd opaque => bind_socket id fd opaque
  | RListen id fd opaque => listen_socket id fd opaque
  | RClose id shutdown _ => close_socket id shutdown
  | ROpen id port opaque host => open_socket id port opaque host
  | RExit => set_result (MkMessage 0 0 0 DNull);; mret SOCKET_EXIT
  | RTrigger id => trigger_write id
  | RSend id buffer sz =>
      ret ← send_socket id buffer sz PRIORITY_HIGH None; dec_sending_ref id;; mret ret
  | RSendLow id buffer sz =>
      ret ← send_socket id buffer sz PRIORITY_LOW None; dec_sending_ref id;; mret ret
  | RSendUdp id buffer sz address => send_socket id buffer sz PRIORITY_HIGH (Some address)
  | RSetUdp id address => set_udp_address id address
  | RSetopt id what value => setopt_socket id what value;; mret (-1)
  | RUdp id fd family opaque => add_udp_socket id fd family opaque;; mret (-1)
  end.

(** ** Events *)

Definition report_connect (i l : Z) : M Z :=
  s ← get_s i;
  e ← call (SGetsockerror (s_fd s));
  let failed := match e with inl e => Some e | inr 0 => None | inr e => Some e end in
  match failed with
  | Some error => force_close i l;; result_data (DError error);; mret SOCKET_ERR
  | None =>
      mod_s i (set_type SOCKET_TYPE_CONNECTED);;
      s ← get_s i;
      r ← gets n_result;
      set_result (MkMessage (s_id s) (s_opaque s) 0 (m_data r));;
      err ← (if nomore_sending_data s then enable_write i false else mret 0) : M Z;
      if negb (err =? 0) then
        force_close i l;; result_data (DText "disable write failed");; mret SOCKET_ERR
      else
        u ← sys_sum (SGetpeername (s_fd s));
        result_data (match u with
                     | Some u => match inet_ntop u with Some name => DName name | None => DNull end
                     | None => DNull
                     end);;
        mret SOCKET_OPEN
  end.

(** When there are no more file descriptors the connection is accepted with the
    reserved one and closed. *)
Definition accept_emfile (i : Z) (e : Z) : M Z :=
  s ← get_s i;
  set_result (MkMessage (s_id s) (s_opaque s) 0 (DError e));;
  reserve_fd ← gets n_reserve_fd;
  (if 0 <=? reserve_fd then
     sys (SClose reserve_fd);;
     c ← sys_sum (SAccept (s_fd s));
     (match c with Some (fd, _) => sys (SClose fd);; mret tt | None => mret tt end);;
     fd ← sys (SDup 1);
     modify (put_reserve_fd fd)
   else mret tt);;
  mret (-1).

Definition report_accept (i : Z) : M Z :=
  s ← get_s i;
  c ← sys_sum (SAccept (s_fd s));
  match c with
  | None =>
      e ← get_errno;
      if (e =? EMFILE) || (e =? ENFILE) then accept_emfile i e else mret 0
  | Some (client_fd, u) =>
      id ← reserve_id;
      if id <? 0 then sys (SClose client_fd);; mret 0
      else
        socket_keepalive client_fd;;
        sp_nonblocking client_fd;;
        s ← get_s i;
        ns ← new_fd id client_fd PROTOCOL_TCP (s_opaque s) false;
        match ns with
        | None => sys (SClose client_fd);; mret 0
        | Some j =>
            stat_read i 1;;
            mod_s j (set_type SOCKET_TYPE_PACCEPT);;
            set_result (MkMessage (s_id s) (s_opaque s) id
              (match getname u MAX_INFO with Some name => DName name | None => DNull end));;
            mret 1
        end
  end.

Definition is_event_of (slots : gmap Z socket) (id : Z) (e : event) : bool :=
  match e_s e with
  | Some i => let s := slots !!! i in socket_invalid s id && (s_id s =? id)
  | None => false
  end.

(** The first of the events that belongs to the closed socket. *)
Fixpoint clear_event (slots : gmap Z socket) (id : Z) (l : list event) : list event :=
  match l with
  | [] => []
  | e :: l' =>
      if is_event_of slots id e
      then MkEvent None (e_read e) (e_write e) (e_error e) (e_eof e) :: l'
      else e :: clear_event slots id l'
  end.

Definition clear_closed_event (type : Z) : M unit :=
  if (type =? SOCKET_CLOSE) || (type =? SOCKET_ERR) then
    modify (λ n,
      let k := Z.to_nat (n_event_index n) in
      put_ev (take k (n_ev n) ++
              clear_event (n_slot n) (m_id (n_result n)) (drop k (n_ev n))) n)
  else mret tt.

Definition forward_message_tcp (i l : Z) : M Z :=
  s ← get_s i;
  sz ← liftO (p_size s);
  n ← sys_sum (SRead (s_fd s) sz);
  match n with
  | None =>
      e ← get_errno;
      if (e =? EINTR) || (e =? EAGAIN) then mret (-1) else report_error i (DError e)
  | Some [] =>
      if s_closing s then
        (if nomore_sending_data s then force_close i l else mret tt);;
        mret (-1)
      else
        let t := s_type s in
        if t =? SOCKET_TYPE_HALFCLOSE_READ then mret (-1)
        else
          (if t =? SOCKET_TYPE_HALFCLOSE_WRITE then force_close i l else close_read i);;
          mret SOCKET_CLOSE
  | Some bs =>
      let n := zlen bs in
      if halfclose_read s then mret (-1)
      else
        stat_read i n;;
        set_result (MkMessage (s_id s) (s_opaque s) n (DBytes bs));;
        if n =? sz then
          sz ← liftO (cint (sz * 2));
          mod_s i (set_p (PSize sz));;
          mret SOCKET_MORE
        else if (MIN_READ_BUFFER <? sz) && (n * 2 <? sz) then
          mod_s i (set_p (PSize (Z.quot sz 2)));;
          mret SOCKET_DATA
        else mret SOCKET_DATA
  end.

Definition forward_message_udp (i l : Z) : M Z :=
  s ← get_s i;
  r ← sys_sum (SRecvfrom (s_fd s) MAX_UDP_PACKAGE);
  match r with
  | None =>
      e ← get_errno;
      if (e =? EINTR) || (e =? EAGAIN) then mret (-1)
      else force_close i l;; result_data (DError e);; mret SOCKET_ERR
  | Some (bs, sa) =>
      let n := zlen bs in
      stat_read i n;;
      let protocol := if sa_family sa =? AF_INET then PROTOCOL_UDP else PROTOCOL_UDPv6 in
      if negb (s_protocol s =? protocol) then mret (-1)
      else
        set_result (MkMessage (s_id s) (s_opaque s) n (DBytes (bs ++ gen_udp_address protocol sa)));;
        mret SOCKET_UDP
  end.

(** ** Sending in the socket thread *)

(** A list of write buffers of the socket, [true] for [high]. *)
Definition wl_of (hi : bool) (s : socket) : list write_buffer := if hi then s_high s else s_low s.
Definition set_wl (hi : bool) (l : list write_buffer) : socket → socket :=
  if hi then set_high l else set_low l.

(** The inner loop: what [write] takes of the buffer, or [None] when it fails. *)
Definition write_turn (fd : Z) (bs : list Z) (_ : unit) : M (unit + option Z) :=
  sz ← sys (SWrite fd bs);
  if sz <? 0 then
    e ← get_errno; if e =? EINTR then mret (inl tt) else mret (inr None)
  else mret (inr (Some sz)).

(** One turn for the head of the list; the result is what the function returns. *)
Definition send_tcp_turn (i : Z) (hi : bool) (l : Z) (_ : unit) : M (unit + Z) :=
  s ← get_s i;
  match wl_of hi s with
  | [] => mret (inr (-1))
  | tmp :: rest =>
      bs ← hread (wb_buffer tmp) (wb_ptr tmp) (wb_sz tmp);
      w ← loopM fuel (write_turn (s_fd s) bs) tt;
      match w with
      | None =>
          e ← get_errno;
          if e =? EAGAIN then mret (inr (-1))
          else r ← close_write i l; mret (inr r)
      | Some sz =>
          stat_write i (i32 sz);;
          mod_s i (λ s, set_wb_size (i64 (s_wb_size s - sz)) s);;
          if negb (sz =? wb_sz tmp) then
            mod_s i (set_wl hi (MkWb (wb_buffer tmp) (wb_ptr tmp + sz) (wb_sz tmp - sz)
              (wb_userobject tmp) (wb_room tmp) :: rest));;
            mret (inr (-1))
          else
            mod_s i (set_wl hi rest);;
            write_buffer_free tmp;;
            mret (inl tt)
      end
  end.

Definition send_list_tcp (i : Z) (hi : bool) (l : Z) : M Z :=
  s ← get_s i;
  loopM (S (length (wl_of hi s))) (send_tcp_turn i hi l) tt.

Definition drop_udp (i : Z) (hi : bool) (tmp : write_buffer) (rest : list write_buffer) : M unit :=
  mod_s i (λ s, set_wb_size (i64 (s_wb_size s - wb_sz tmp)) s);;
  mod_s i (set_wl hi rest);;
  write_buffer_free tmp.

Definition send_udp_turn (i : Z) (hi : bool) (_ : unit) : M (unit + Z) :=
  s ← get_s i;
  match wl_of hi s with
  | [] => mret (inr (-1))
  | tmp :: rest =>
      a ← liftO (mread (wb_room tmp) 0 UDP_ADDRESS_SIZE);
      sa ← liftO (udp_socket_address (s_protocol s) a);
      match sa with
      | None => drop_udp i hi tmp rest;; mret (inr (-1))
      | Some sa =>
          bs ← hread (wb_buffer tmp) (wb_ptr tmp) (wb_sz tmp);
          err ← sys (SSendto (s_fd s) bs sa);
          if err <? 0 then
            e ← get_errno;
            if (e =? EINTR) || (e =? EAGAIN) then mret (inr (-1))
            else drop_udp i hi tmp rest;; mret (inr (-1))
          else
            stat_write i (i32 (wb_sz tmp));;
            drop_udp i hi tmp rest;;
            mret (inl tt)
      end
  end.

Definition send_list_udp (i : Z) (hi : bool) : M Z :=
  s ← get_s i;
  loopM (S (length (wl_of hi s))) (send_udp_turn i hi) tt.

Definition send_list (i : Z) (hi : bool) (l : Z) : M Z :=
  s ← get_s i;
  if s_protocol s =? PROTOCOL_TCP then send_list_tcp i hi l else send_list_udp i hi.

(** Part of the first buffer has been written: [ptr] is not at its start. *)
Definition list_uncomplete (l : list write_buffer) : bool :=
  match l with [] => false | wb :: _ => negb (wb_ptr wb =? 0) end.

Definition raise_uncomplete (i : Z) : M unit :=
  s ← get_s i;
  match s_low s with
  | [] => liftO Undef
  | tmp :: low =>
      mod_s i (set_low low);;
      liftO (assert_true (match s_high s with [] => true | _ => false end));;
      mod_s i (set_high [tmp])
  end.

(** Step 4: both lists are empty. *)
Definition finish_sending (i l : Z) : M Z :=
  s ← get_s i;
  liftO (assert_true (send_buffer_empty s && (s_wb_size s =? 0)));;
  if s_closing s then force_close i l;; mret (-1)
  else
    err ← enable_write i false;
    if negb (err =? 0) then report_error i (DText "disable write failed")
    else
      s ← get_s i;
      if 0 <? s_warn_size s then
        mod_s i (set_warn_size 0);;
        set_result (MkMessage (s_id s) (s_opaque s) 0 DNull);;
        mret SOCKET_WARNING
      else mret (-1).

Definition send_low (i l : Z) : M Z :=
  ret ← send_list i false l;
  if negb (ret =? -1) then mret (if ret =? SOCKET_ERR then SOCKET_ERR else -1)
  else
    s ← get_s i;
    if list_uncomplete (s_low s) then raise_uncomplete i;; mret (-1)
    else match s_low s with [] => finish_sending i l | _ :: _ => mret (-1) end.

Definition send_buffer_ (i l : Z) : M Z :=
  s ← get_s i;
  liftO (assert_true (negb (list_uncomplete (s_low s))));;
  ret ← send_list i true l;
  if negb (ret =? -1) then mret (if ret =? SOCKET_ERR then SOCKET_ERR else -1)
  else
    s ← get_s i;
    match s_high s, s_low s with
    | _ :: _, _ => mret (-1)
    | [], _ :: _ => send_low i l
    | [], [] => finish_sending i l
    end.

(** The rest of a direct write goes in front of [high]. *)
Definition take_dw_buffer (i : Z) : M unit :=
  s ← get_s i;
  match s_dw_buffer s with
  | None => mret tt
  | Some p =>
      '(so, userobject) ← send_object_init p (s_dw_size s);
      let buf := MkWb p (s_dw_offset s) (so_sz so - s_dw_offset s) userobject [] in
      mod_s i (λ s, set_wb_size (i64 (s_wb_size s + wb_sz buf)) s);;
      mod_s i (λ s, set_high (buf :: s_high s) s);;
      mod_s i (set_dw_buffer None)
  end.

Definition send_buffer (i l : Z) : M Z :=
  o ← socket_trylock i l;
  match o with
  | None => mret (-1)
  | Some l =>
      take_dw_buffer i;;
      r ← send_buffer_ i l;
      socket_unlock i l;;
      mret r
  end.

(** ** The socket thread *)

Definition mod_ev (k : Z) (f : event → event) : M unit :=
  modify (λ n, put_ev (alter f (Z.to_nat k) (n_ev n)) n).

Definition event_error (i : Z) : M Z :=
  s ← get_s i;
  e ← call (SGetsockerror (s_fd s));
  report_error i (match e with
                  | inl e => DError e
                  | inr 0 => DText "Unknown error"
                  | inr e => DError e
                  end).

Definition event_eof (i : Z) : M (unit + Z) :=
  s ← get_s i;
  force_close i socket_lock_init;;
  mret (if halfclose_read s then inl tt else inr SOCKET_CLOSE).

(** [k] is the index of the event [e]: [inl] goes on with the loop, [inr] returns. *)
Definition event_read (i k : Z) (e : event) : M (unit + Z) :=
  s ← get_s i;
  type ← (if s_protocol s =? PROTOCOL_TCP then forward_message_tcp i socket_lock_init
          else forward_message_udp i socket_lock_init) : M Z;
  if (s_protocol s =? PROTOCOL_TCP) && (type =? SOCKET_MORE) then
    modify (put_event_index k);; mret (inr SOCKET_DATA)
  else if negb (s_protocol s =? PROTOCOL_TCP) && (type =? SOCKET_UDP) then
    modify (put_event_index k);; mret (inr SOCKET_UDP)
  else
    (if e_write e && negb (type =? SOCKET_CLOSE) && negb (type =? SOCKET_ERR) then
       mod_ev k (λ e, MkEvent (e_s e) false (e_write e) (e_error e) (e_eof e));;
       modify (put_event_index k)
     else mret tt);;
    mret (if type =? -1 then inl tt else inr type).

Definition event_socket (i k : Z) (e : event) : M (unit + Z) :=
  s ← get_s i;
  let type := s_type s in
  if type =? SOCKET_TYPE_CONNECTING then
    r ← report_connect i socket_lock_init; mret (inr r)
  else if type =? SOCKET_TYPE_LISTEN then
    r ← report_accept i;
    mret (if 0 <? r then inr SOCKET_ACCEPT else if r <? 0 then inr SOCKET_ERR else inl tt)
  else if type =? SOCKET_TYPE_INVALID then mret (inl tt)
  else if e_read e then event_read i k e
  else if e_write e then
    r ← send_buffer i socket_lock_init;
    mret (if r =? -1 then inl tt else inr r)
  else if e_error e then r ← event_error i; mret (inr r)
  else if e_eof e then event_eof i
  else mret (inl tt).

(** The next event; when there is none, new ones, or [false]. *)
Definition next_event : M bool :=
  n ← get;
  if n_event_index n =? n_event_n n then
    k ← sp_wait;
    modify (put_event_n k);;
    modify (put_checkctrl 1);;
    modify (put_more 0);;
    modify (put_event_index 0);;
    if k <=? 0 then modify (put_event_n 0);; mret false else mret true
  else mret true.

Definition event_turn : M (unit + Z) :=
  ok ← next_event;
  if negb (ok : bool) then mret (inl tt)
  else
    k ← gets n_event_index;
    modify (put_event_index (k + 1));;
    evs ← gets n_ev;
    e ← liftO (aget evs k);
    match e_s e with
    | None => mret (inl tt)
    | Some i => event_socket i k e
    end.

(** One turn of the loop of [socket_server_poll]. *)
Definition poll_turn (_ : unit) : M (unit + Z) :=
  c ← gets n_checkctrl;
  cmd ← (if negb (c =? 0) then has_cmd else mret 0) : M Z;
  if negb (cmd =? 0) then
    type ← ctrl_cmd;
    if negb (type =? -1) then clear_closed_event type;; mret (inr type)
    else mret (inl tt)
  else
    modify (put_checkctrl 0);;
    event_turn.

Definition socket_server_poll (turns : nat) : M Z := loopM turns poll_turn tt.

(** ** UDP *)

Definition socket_server_udp (opaque : Z) (addr : option (list Z)) (port : Z) : M Z :=
  '(fd, family) ← (if negb (port =? 0) || (match addr with Some _ => true | None => false end)
                   then do_bind addr port IPPROTO_UDP
                   else fd ← sys (SSocket AF_INET SOCK_DGRAM 0); mret (fd, AF_INET)) : M (Z * Z);
  if fd <? 0 then mret (-1)
  else
    sp_nonblocking fd;;
    id ← reserve_id;
    if id <? 0 then sys (SClose fd);; mret (-1)
    else send_request (RUdp id fd family opaque);; mret id.

(** The number of bytes of an address of this type. *)
Definition udp_addrsz (type : Z) : option Z :=
  if type =? PROTOCOL_UDP then Some (1 + 2 + 4)
  else if type =? PROTOCOL_UDPv6 then Some (1 + 2 + 16)
  else None.

(** Sends at once if it can: the result when that settles it. *)
Definition udp_direct (i : Z) (udp_address : list Z) (buf : socket_sendbuffer) : M (option Z) :=
  let id := sb_id buf in
  s ← get_s i;
  o ← (if can_direct_write s id then socket_trylock i socket_lock_init else mret None);
  match o with
  | None => mret None
  | Some l =>
      s ← get_s i;
      if can_direct_write s id then
        so ← send_object_init_from_sendbuffer buf;
        sa ← liftO (udp_socket_address (s_protocol s) udp_address);
        match sa with
        | None => socket_unlock i l;; free_func so (sb_buffer buf);; mret (Some (-1))
        | Some sa =>
            bs ← hread (so_buffer so) 0 (so_sz so);
            n ← sys (SSendto (s_fd s) bs sa);
            if 0 <=? n then
              stat_write i n;; socket_unlock i l;; free_func so (sb_buffer buf);; mret (Some 0)
            else socket_unlock i l;; mret None
        end
      else socket_unlock i l;; mret None
  end.

Definition socket_server_udp_send (udp_address : list Z) (buf : socket_sendbuffer) : M Z :=
  let id := sb_id buf in
  let i := HASH_ID id in
  s ← get_s i;
  if socket_invalid s id then free_buffer buf;; mret (-1)
  else
    type ← liftO (aget udp_address 0);
    match udp_addrsz type with
    | None => free_buffer buf;; mret (-1)
    | Some addrsz =>
        r ← udp_direct i udp_address buf;
        match r with
        | Some r => mret r
        | None =>
            '(p, sz) ← clone_buffer buf;
            a ← liftO (mread udp_address 0 addrsz);
            send_request (RSendUdp id p sz a);;
            mret 0
        end
    end.

Definition socket_server_udp_connect (id : Z) (addr : list Z) (port : Z) : M Z :=
  let i := HASH_ID id in
  s ← get_s i;
  if socket_invalid s id then mret (-1)
  else
    l ← socket_lock i socket_lock_init;
    s ← get_s i;
    if socket_invalid s id then socket_unlock i l;; mret (-1)
    else
      mod_s i (λ s, set_udpconnecting (i32 (s_udpconnecting s + 1)) s);;
      socket_unlock i l;;
      ai ← call (SGetaddrinfo addr (decimal port) SOCK_DGRAM IPPROTO_UDP);
      match ai with
      | inl _ => mret (-1)
      | inr (ai, _) =>
          if ai_family ai =? AF_INET then
            send_request (RSetUdp id (gen_udp_address PROTOCOL_UDP (ai_addr ai)));; mret 0
          else if ai_family ai =? AF_INET6 then
            send_request (RSetUdp id (gen_udp_address PROTOCOL_UDPv6 (ai_addr ai)));; mret 0
          else mret (-1)
      end.

(** The address behind the [ud] bytes of a message, [None] for a null pointer. *)
Definition socket_server_udp_address (data : list Z) (ud : Z) : outcome (option (list Z)) :=
  type ← aget data ud;
  match udp_addrsz type with
  | None => Ret None
  | Some addrsz => a ← mread data ud addrsz; Ret (Some a)
  end.

(** ** Information *)

Definition SOCKET_INFO_UNKNOWN : Z := 0.
Definition SOCKET_INFO_LISTEN : Z := 1.
Definition SOCKET_INFO_TCP : Z := 2.
Definition SOCKET_INFO_UDP : Z := 3.
Definition SOCKET_INFO_BIND : Z := 4.
Definition SOCKET_INFO_CLOSING : Z := 5.

(** The name is [None] where the function leaves it as it was. *)
Record socket_info := MkSocketInfo {
  si_id : Z;
  si_type : Z;
  si_opaque : Z;
  si_read : Z;
  si_write : Z;
  si_rtime : Z;
  si_wtime : Z;
  si_wbuffer : Z;
  si_reading : bool;
  si_writing : bool;
  si_name : option (list Z)
}.

Definition info_name (u : option sockaddr) : option (list Z) :=
  match u with
  | Some u => Some (match getname u MAX_INFO with Some name => name | None => [] end)
  | None => None
  end.

(** The type and the name. *)
Definition query_kind (s : socket) : M (option (Z * option (list Z))) :=
  let type := s_type s in
  if type =? SOCKET_TYPE_BIND then mret (Some (SOCKET_INFO_BIND, Some []))
  else if type =? SOCKET_TYPE_LISTEN then
    u ← sys_sum (SGetsockname (s_fd s)); mret (Some (SOCKET_INFO_LISTEN, info_name u))
  else
    let closing := (type =? SOCKET_TYPE_HALFCLOSE_READ) || (type =? SOCKET_TYPE_HALFCLOSE_WRITE) in
    if closing || (type =? SOCKET_TYPE_CONNECTED) then
      if s_protocol s =? PROTOCOL_TCP then
        u ← sys_sum (SGetpeername (s_fd s));
        mret (Some (if closing then SOCKET_INFO_CLOSING else SOCKET_INFO_TCP, info_name u))
      else
        a ← liftO (p_udp_address s);
        u ← liftO (udp_socket_address (s_protocol s) a);
        mret (Some (SOCKET_INFO_UDP, info_name u))
    else mret None.

Definition query_info (s : socket) : M (option socket_info) :=
  k ← query_kind s;
  mret (match k with
        | None => None
        | Some (type, name) =>
            Some (MkSocketInfo (s_id s) type (u64 (s_opaque s)) (st_read (s_stat s))
              (st_write (s_stat s)) (rtime (s_stat s)) (wtime (s_stat s)) (s_wb_size s)
              (s_reading s) (s_writing s) name)
        end).

(** From slot [i] on; every info is put in front of the list. *)
Fixpoint info_loop (n : nat) (i : Z) (si : list socket_info) : M (list socket_info) :=
  match n with
  | O => mret si
  | S n' =>
      s ← get_s i;
      temp ← query_info s;
      info_loop n' (i + 1) (match temp with Some temp => temp :: si | None => si end)
  end.

Definition socket_server_info : M (list socket_info) := info_loop (Z.to_nat MAX_SOCKET) 0 [].

(** ** The server *)

Definition socket_server_updatetime (time : Z) : M unit := modify (put_time time).

(** A new server, or [false] for a null pointer. The fields it does not name are
    those of the state before: the memory and the history. *)
Definition socket_server_create (time : Z) : M bool :=
  efd ← sys SEpollCreate;
  if efd =? -1 then mret false
  else
    p ← sys_sum SPipe;
    match p with
    | None => sys (SClose efd);; mret false
    | Some (fd0, fd1) =>
        modify (put_event_fd efd);;
        r ← sp_add fd0 None;
        if negb (r =? 0) then
          sys (SClose fd0);; sys (SClose fd1);; sys (SClose efd);; mret false
        else
          reserve_fd ← sys (SDup 1);
          modify (λ n, MkNet time reserve_fd fd0 fd1 1 efd 0 0 0 [] ∅ []
            (n_heap n) (n_errno n) (n_result n) (n_more n) (n_history n));;
          liftO (assert_true (fd0 <? 1024));;
          mret true
    end.

Fixpoint release_loop (n : nat) (i : Z) : M unit :=
  match n with
  | O => mret tt
  | S n' =>
      s ← get_s i;
      (if negb (s_type s =? SOCKET_TYPE_RESERVE) then force_close i socket_lock_init else mret tt);;
      release_loop n' (i + 1)
  end.

Definition socket_server_release : M unit :=
  release_loop (Z.to_nat MAX_SOCKET) 0;;
  n ← get;
  sys (SClose (n_sendctrl_fd n));;
  sys (SClose (n_recvctrl_fd n));;
  sys (SClose (n_event_fd n));;
  (if 0 <=? n_reserve_fd n then sys (SClose (n_reserve_fd n));; mret tt else mret tt).
End socket.
