(* ===== verification/SocketOk.v ===== *)
(** * The invariant of the socket server

    What holds between the steps of the threads: the state of every slot, the
    requests in the pipe, and who owns which block of memory; with the lemmas
    that keep it and the specifications of the functions that the handlers of
    [Socket] are made of. *)
From S2P Require Import Prelude StateM Memory SocketState Socket.

Local Open Scope Z_scope.

(** ** Slots *)

Definition slot_at (i : Z) (st : net) : socket := n_slot st !!! i.
Definition upd (i : Z) (f : socket → socket) (st : net) : net :=
  put_slot (<[i := f (slot_at i st)]> (n_slot st)) st.

Lemma slot_at_upd i f st : slot_at i (upd i f st) = f (slot_at i st).
Proof. unfold slot_at at 1, upd. cbn. apply lookup_total_insert_eq. Qed.

Lemma slot_at_upd_ne i j f st : i ≠ j → slot_at j (upd i f st) = slot_at j st.
Proof. intros H. unfold slot_at, upd. cbn. by apply lookup_total_insert_ne. Qed.

Lemma upd_upd i f g st : upd i g (upd i f st) = upd i (λ s, g (f s)) st.
Proof.
  unfold upd at 1. rewrite slot_at_upd. unfold upd. cbn. by rewrite insert_insert_eq.
Qed.

Lemma wp_get_s i Q st : Q (slot_at i st) st → wp (get_s i) Q st.
Proof. apply (wp_gets (λ n, n_slot n !!! i)). Qed.

Lemma wp_mod_s i f Q st : Q tt (upd i f st) → wp (mod_s i f) Q st.
Proof. apply (wp_modify (λ n, put_slot (<[i := f (n_slot n !!! i)]> (n_slot n)) n)). Qed.

(** ** Ownership *)

Definition slot_bufs (s : socket) : list addr :=
  option_list (s_dw_buffer s) ++ (wb_buffer <$> s_high s) ++ (wb_buffer <$> s_low s).

Definition req_bufs (r : request) : list addr :=
  match r with
  | RSend _ p _ | RSendLow _ p _ | RSendUdp _ p _ _ => [p]
  | _ => []
  end.

Definition slots_bufs (m : gmap Z socket) : list addr := concat (slot_bufs <$> (map_to_list m).*2).
Definition pipe_bufs (l : list request) : list addr := concat (req_bufs <$> l).

Lemma no_bufs s : slot_bufs s = [] → s_dw_buffer s = None ∧ s_high s = [] ∧ s_low s = [].
Proof. unfold slot_bufs. by destruct (s_dw_buffer s), (s_high s), (s_low s). Qed.

(** Every block is owned once: by a slot, by a request in the pipe, or by those who
    hold [held]. *)
Definition mem_ok (held : list addr) (st : net) : Prop :=
  held ++ slots_bufs (n_slot st) ++ pipe_bufs (n_pipe st) ≡ₚ (map_to_list (n_heap st)).*1.

Lemma slots_bufs_delete m i : slots_bufs m ≡ₚ slot_bufs (m !!! i) ++ slots_bufs (delete i m).
Proof.
  unfold slots_bufs. rewrite lookup_total_alt. destruct (m !! i) as [s|] eqn:Hi; cbn [default].
  - by rewrite <-(map_to_list_delete m i s Hi).
  - by rewrite delete_id.
Qed.

Lemma slots_bufs_insert m i s : slots_bufs (<[i := s]> m) ≡ₚ slot_bufs s ++ slots_bufs (delete i m).
Proof.
  rewrite <-insert_delete_eq. unfold slots_bufs.
  by rewrite map_to_list_insert by apply lookup_delete_eq.
Qed.

Lemma slot_bufs_elem m i p : p ∈ slot_bufs (m !!! i) → p ∈ slots_bufs m.
Proof. intros H. rewrite (slots_bufs_delete m i), elem_of_app. by left. Qed.

Lemma mem_ok_upd held held' i f st :
  mem_ok held st → held' ++ slot_bufs (f (slot_at i st)) ≡ₚ held ++ slot_bufs (slot_at i st) →
  mem_ok held' (upd i f st).
Proof.
  unfold mem_ok. cbn [upd n_slot n_pipe n_heap put_slot]. intros Hm Hp.
  change (n_slot (upd i f st)) with (<[i := f (slot_at i st)]> (n_slot st)).
  rewrite slots_bufs_insert, <-Hm, (slots_bufs_delete (n_slot st) i).
  fold (slot_at i st). rewrite !app_assoc, Hp. done.
Qed.

Lemma mem_ok_perm held held' st : held ≡ₚ held' → mem_ok held st → mem_ok held' st.
Proof. unfold mem_ok. by intros ->. Qed.

Lemma mem_ok_nodup held st : mem_ok held st →
  NoDup (held ++ slots_bufs (n_slot st) ++ pipe_bufs (n_pipe st)).
Proof. intros ->. apply NoDup_fst_map_to_list. Qed.

Lemma mem_ok_dom held st p : mem_ok held st →
  (is_Some (n_heap st !! p) ↔ p ∈ held ++ slots_bufs (n_slot st) ++ pipe_bufs (n_pipe st)).
Proof.
  intros ->. rewrite list_elem_of_fmap. split.
  - intros [bs Hp]. exists (p, bs). split; [done|]. by apply elem_of_map_to_list.
  - intros ([q bs] & -> & Hq). exists bs. by apply elem_of_map_to_list.
Qed.

(** A block that is held is in memory and is not owned. *)
Lemma mem_ok_held p held st : mem_ok (p :: held) st →
  is_Some (n_heap st !! p) ∧ p ∉ held ∧ p ∉ slots_bufs (n_slot st) ∧ p ∉ pipe_bufs (n_pipe st).
Proof.
  intros Hm. split.
  - apply (mem_ok_dom _ _ p Hm). set_solver.
  - pose proof (mem_ok_nodup _ _ Hm) as Hn. cbn in Hn. apply NoDup_cons in Hn as [Hn _]. set_solver.
Qed.

Lemma mem_ok_free p held st : mem_ok (p :: held) st → mem_ok held (put_heap (delete p (n_heap st)) st).
Proof.
  intros Hm. pose proof (mem_ok_held _ _ _ Hm) as ([bs Hp] & _). unfold mem_ok in *. cbn in *.
  rewrite <-(map_to_list_delete _ _ _ Hp) in Hm. cbn in Hm. by apply Permutation.Permutation_cons_inv in Hm.
Qed.

Lemma mem_ok_malloc p bs held st : n_heap st !! p = None → mem_ok held st →
  mem_ok (p :: held) (put_heap (<[p := bs]> (n_heap st)) st).
Proof.
  unfold mem_ok. cbn. intros Hp Hm. rewrite map_to_list_insert by done. cbn. by rewrite <-Hm.
Qed.

(** ** The invariant *)

(** The socket that a request is for: one it makes, or one that is there. *)
Definition creates (r : request) : option Z :=
  match r with
  | RBind id _ _ | RListen id _ _ | ROpen id _ _ _ | RUdp id _ _ _ => Some id
  | _ => None
  end.

Definition targets (r : request) : option Z :=
  match r with
  | RResume id _ | RPause id _ | RClose id _ _ | RTrigger id | RSend id _ _ | RSendLow id _ _
  | RSendUdp id _ _ _ | RSetUdp id _ | RSetopt id _ _ => Some id
  | _ => None
  end.

(** Requests that [s_sending] counts. *)
Definition sends (id : Z) (r : request) : bool :=
  match r with RSend id' _ _ | RSendLow id' _ _ => id' =? id | _ => false end.

Definition senders (id : Z) (l : list request) : Z := zlen (filter (λ r, sends id r) l).

(** An address of a datagram: its type and as many bytes as it says. *)
Definition udp_ok (a : list Z) : Prop :=
  ∃ t rest n, a = t :: rest ∧ udp_addrsz t = Some n ∧ n ≤ zlen a.

(** A block with a whole message; messages have a size of type [int]. *)
Definition block_ok (h : gmap addr (list Z)) (p : addr) (sz : Z) : Prop :=
  ∃ bs, h !! p = Some bs ∧ zlen bs = sz ∧ sz ≤ INT_MAX.

Definition req_ok (h : gmap addr (list Z)) (top : Z) (r : request) : Prop :=
  match r with
  | RSend id p sz | RSendLow id p sz => 1 ≤ id ≤ top ∧ block_ok h p sz
  | RSendUdp id p sz a => id ≤ top ∧ block_ok h p sz ∧ udp_ok a
  | RSetUdp id a => id ≤ top ∧ udp_ok a
  | RResume id _ | RPause id _ | RClose id _ _ | RTrigger id | RSetopt id _ _ => id ≤ top
  | RBind id _ _ | RListen id _ _ | ROpen id _ _ _ | RUdp id _ _ _ => 1 ≤ id ≤ top
  | RExit => True
  end.

Definition wb_ok (h : gmap addr (list Z)) (wb : write_buffer) : Prop :=
  0 ≤ wb_ptr wb ∧ 0 ≤ wb_sz wb ∧ wb_userobject wb = false ∧
  block_ok h (wb_buffer wb) (wb_ptr wb + wb_sz wb).

Definition total (l : list write_buffer) : Z := foldr (λ wb n, wb_sz wb + n) 0 l.

(** No byte of these buffers has been written. *)
Definition whole (l : list write_buffer) : Prop := Forall (λ wb, wb_ptr wb = 0) l.

Definition is_live (s : socket) : Prop :=
  s_type s ≠ SOCKET_TYPE_INVALID ∧ s_type s ≠ SOCKET_TYPE_RESERVE.

(** What [s_protocol] says of the other fields of a socket that is in use. *)
Record tcp_ok (h : gmap addr (list Z)) (s : socket) : Prop := {
  to_size : ∃ n, s_p s = PSize n ∧ 0 < n ≤ INT_MAX;
  to_wb_size : s_wb_size s = i64 (total (s_high s) + total (s_low s));
  to_wb : Forall (wb_ok h) (s_high s ++ s_low s);
  to_dw p : s_dw_buffer s = Some p →
    block_ok h p (s_dw_size s) ∧ 0 ≤ s_dw_offset s ≤ s_dw_size s
}.

Record udp_sock_ok (s : socket) : Prop := {
  uo_protocol : s_protocol s = PROTOCOL_UDP ∨ s_protocol s = PROTOCOL_UDPv6;
  uo_address : ∃ a, s_p s = PAddress a ∧ zlen a = UDP_ADDRESS_SIZE;
  uo_wb_size : s_wb_size s = 0;
  uo_bufs : slot_bufs s = []
}.

Definition live_ok (h : gmap addr (list Z)) (s : socket) : Prop :=
  (s_protocol s = PROTOCOL_TCP ∧ tcp_ok h s) ∨ udp_sock_ok s.

Record slot_ok (h : gmap addr (list Z)) (reqs : list request) (top i : Z) (s : socket) : Prop := {
  so_type : 0 ≤ s_type s ≤ SOCKET_TYPE_BIND;
  so_id : 0 ≤ s_id s ≤ top;
  so_home : s_id s ≠ 0 → HASH_ID (s_id s) = i;
  so_used : s_type s ≠ SOCKET_TYPE_INVALID → s_id s ≠ 0;
  so_idle : s_type s = SOCKET_TYPE_INVALID → slot_bufs s = [];
  so_reserve : s_type s = SOCKET_TYPE_RESERVE →
    slot_bufs s = [] ∧ s_protocol s = PROTOCOL_UNKNOWN ∧ senders (s_id s) reqs = 0;
  so_live : is_live s → live_ok h s;
  so_sending : s_protocol s = PROTOCOL_TCP →
    s_sending s = ID_TAG16 (s_id s) * 2 ^ 16 + senders (s_id s) reqs
}.

(** The place in the array of events. *)
Record evs := Evs { ev_index : Z; ev_n : Z; ev_len : Z }.
Definition ev_view (st : net) : evs := Evs (n_event_index st) (n_event_n st) (zlen (n_ev st)).

(** [L] is the socket whose lock is held, [B] a slot that is reserved by the running
    step itself, [cur] the request that is being handled, and [held] the blocks
    that belong to the running step or to the workers. *)
Record ok (L B : option Z) (cur : list request) (held : list addr) (st : net) : Prop := {
  ok_mem : mem_ok held st;
  ok_top : 0 ≤ n_alloc_id st ≤ INT_MAX;
  ok_room : zlen (cur ++ n_pipe st) < 0xffff;
  ok_slot i : slot_ok (n_heap st) (cur ++ n_pipe st) (n_alloc_id st) i (slot_at i st);
  ok_lock i : s_dw_lock (slot_at i st) = bool_decide (L = Some i);
  ok_req : Forall (req_ok (n_heap st) (n_alloc_id st)) (n_pipe st);
  ok_creates id : id ∈ omap creates (cur ++ n_pipe st) →
    s_type (slot_at (HASH_ID id) st) = SOCKET_TYPE_RESERVE ∧ s_id (slot_at (HASH_ID id) st) = id;
  ok_nodup : NoDup (omap creates (cur ++ n_pipe st));
  ok_reserved i : B ≠ Some i → s_type (slot_at i st) = SOCKET_TYPE_RESERVE →
    s_id (slot_at i st) ∈ omap creates (cur ++ n_pipe st);
  ok_first pre r post id : cur ++ n_pipe st = pre ++ r :: post → targets r = Some id →
    s_type (slot_at (HASH_ID id) st) = SOCKET_TYPE_RESERVE → s_id (slot_at (HASH_ID id) st) = id →
    id ∈ omap creates pre;
  ok_ev : 0 ≤ ev_index (ev_view st) ≤ ev_n (ev_view st) ∧ ev_n (ev_view st) ≤ ev_len (ev_view st);
  ok_low i : L ≠ Some i → whole (s_low (slot_at i st))
}.

(** ** Changing a part of the state *)

(** The fields that the invariant looks at. *)
Definition core (st : net) : gmap Z socket * list request * gmap addr (list Z) * Z * evs :=
  (n_slot st, n_pipe st, n_heap st, n_alloc_id st, ev_view st).

Lemma core_slot_at i st st' : core st = core st' → slot_at i st = slot_at i st'.
Proof. unfold core, slot_at. by intros [= -> _ _ _ _]. Qed.

Lemma ok_core L B cur held st st' : core st = core st' → ok L B cur held st → ok L B cur held st'.
Proof.
  intros Hc H. pose proof (λ i, core_slot_at i _ _ Hc) as Hs. unfold core in Hc.
  assert (n_slot st = n_slot st' ∧ n_pipe st = n_pipe st' ∧ n_heap st = n_heap st' ∧
    n_alloc_id st = n_alloc_id st' ∧ ev_view st = ev_view st') as (E1 & E2 & E3 & E4 & E5)
    by (split_and!; congruence).
  destruct H as [O1 O2 O3 O4 O5 O6 O7 O8 O9 O10 O11 O12]. unfold mem_ok in O1.
  rewrite E1, E2, E3 in O1. rewrite E4 in O2. rewrite E2 in *. rewrite E3, E4 in *. rewrite E5 in O11.
  split; try done; setoid_rewrite <-Hs; done.
Qed.

Lemma core_upd i f st st' : core st = core st' → core (upd i f st) = core (upd i f st').
Proof.
  intros Hc. pose proof (core_slot_at i _ _ Hc) as Hs. unfold upd. rewrite Hs.
  unfold core in *. change (ev_view (put_slot ?m ?n)) with (ev_view n). cbn. congruence.
Qed.

Lemma senders_app id l l' : senders id (l ++ l') = senders id l + senders id l'.
Proof. unfold senders. by rewrite filter_app, zlen_app. Qed.

Lemma senders_one id r : senders id [r] = if sends id r then 1 else 0.
Proof. unfold senders. cbn. by destruct (sends id r). Qed.

Lemma senders_nonneg id l : 0 ≤ senders id l.
Proof. apply zlen_nonneg. Qed.

Lemma senders_le id l : senders id l ≤ zlen l.
Proof. unfold senders, zlen. pose proof (length_filter (λ r, sends id r) l). lia. Qed.

(** The invariant of a slot only looks at the count of the requests for it. *)
Lemma slot_ok_reqs h reqs reqs' top i s :
  senders (s_id s) reqs = senders (s_id s) reqs' → slot_ok h reqs top i s → slot_ok h reqs' top i s.
Proof. intros He H. destruct H. split; try done; rewrite <-He; done. Qed.

Lemma block_ok_heap h h' p sz : h' !! p = h !! p → block_ok h p sz → block_ok h' p sz.
Proof. intros Hp (bs & Hb & H). exists bs. by rewrite Hp. Qed.

Lemma wb_ok_heap h h' wb : h' !! wb_buffer wb = h !! wb_buffer wb → wb_ok h wb → wb_ok h' wb.
Proof. intros Hp (H1 & H2 & H3 & H4). split_and!; try done. by eapply block_ok_heap. Qed.

(** ... and at the blocks it owns. *)
Lemma slot_ok_heap h h' reqs top top' i s :
  (∀ p, p ∈ slot_bufs s → h' !! p = h !! p) → top ≤ top' →
  slot_ok h reqs top i s → slot_ok h' reqs top' i s.
Proof.
  intros Hh Ht H. destruct H as [H1 H2 H3 H4 H5 H6 H7 H8]. split; try done; [lia|].
  intros Hlive. destruct (H7 Hlive) as [[Hp [T1 T2 T3 T5]]|Hu]; [left|by right].
  split; [done|]. split; try done.
  - apply Forall_forall. intros wb Hwb. rewrite Forall_forall in T3.
    apply (wb_ok_heap h); [|by apply T3]. apply Hh. unfold slot_bufs.
    rewrite <-fmap_app. set_solver.
  - intros p Hp'. destruct (T5 p Hp') as [Hb Ho]. split; [|done].
    apply (block_ok_heap h); [|done]. apply Hh. unfold slot_bufs. rewrite Hp'. set_solver.
Qed.

Lemma req_ok_heap h h' top top' r :
  (∀ p, p ∈ req_bufs r → h' !! p = h !! p) → top ≤ top' → req_ok h top r → req_ok h' top' r.
Proof.
  intros Hh Ht. destruct r; cbn in *; try lia; try done;
    intros; destruct_and?; split_and?; try lia; try done;
    (eapply block_ok_heap; [apply Hh; set_solver|done]).
Qed.

(** The fields of a socket that the invariant looks at. *)
Definition view (s : socket) :=
  (s_type s, s_id s, s_high s, s_low s, (s_dw_buffer s, s_dw_size s, s_dw_offset s), s_wb_size s,
   s_p s, s_protocol s, s_sending s).

Lemma slot_ok_view h reqs top i s s' :
  view s = view s' → slot_ok h reqs top i s → slot_ok h reqs top i s'.
Proof.
  destruct s, s'. unfold view. cbn. intros [= -> -> -> -> -> -> -> -> -> -> ->] H.
  destruct H as [H1 H2 H3 H4 H5 H6 H7 H8]. split; try done. intros Hl.
  destruct (H7 Hl) as [[Hp [T1 T2 T3 T5]]|[U1 U2 U3 U4]]; [left|right]; done.
Qed.

(** ** Keeping the invariant *)

Lemma slot_at_upd_case i j f st (P : socket → Prop) :
  (i = j → P (f (slot_at j st))) → (i ≠ j → P (slot_at j st)) → P (slot_at j (upd i f st)).
Proof.
  intros H1 H2. destruct (decide (i = j)) as [->|Hne].
  - rewrite slot_at_upd. auto.
  - rewrite slot_at_upd_ne by done. auto.
Qed.

(** A step that changes a slot: what it owns may move to or from the step. *)
Lemma ok_upd L B cur held held' i f st :
  ok L B cur held st →
  slot_ok (n_heap st) (cur ++ n_pipe st) (n_alloc_id st) i (f (slot_at i st)) →
  held' ++ slot_bufs (f (slot_at i st)) ≡ₚ held ++ slot_bufs (slot_at i st) →
  s_id (f (slot_at i st)) = s_id (slot_at i st) →
  s_dw_lock (f (slot_at i st)) = s_dw_lock (slot_at i st) →
  (s_type (f (slot_at i st)) = SOCKET_TYPE_RESERVE ↔ s_type (slot_at i st) = SOCKET_TYPE_RESERVE) →
  (L ≠ Some i → whole (s_low (f (slot_at i st)))) →
  ok L B cur held' (upd i f st).
Proof.
  intros Hok Hs Hm Hid Hlock Hres Hlow. destruct Hok as [O1 O2 O3 O4 O5 O6 O7 O8 O9 O10 O11 O12].
  split; try done.
  - by eapply mem_ok_upd.
  - intros j. apply slot_at_upd_case; [by intros <-|intros _; apply O4].
  - intros j. apply slot_at_upd_case; [intros <-; rewrite Hlock|intros _]; apply O5.
  - intros id Hin. destruct (O7 id Hin) as [Ht Hi]. apply slot_at_upd_case; [|done].
    intros ->. by rewrite Hid, Hres.
  - intros j HB. apply slot_at_upd_case; [|intros _; by apply O9].
    intros <- Ht. rewrite Hid. apply O9; [done|by apply Hres].
  - intros pre r post id He Ht. apply slot_at_upd_case; [|intros _; by eapply O10].
    intros Hij. subst i. rewrite Hid, Hres. by eapply O10.
  - intros j HL. apply slot_at_upd_case; [intros <-; by apply Hlow|intros _; by apply O12].
Qed.

(** The handler of a request that makes a socket is done with its slot. *)
Lemma ok_created L B r id held i f st :
  ok L B [r] held st → creates r = Some id → id ≠ 0 → i = HASH_ID id → B ≠ Some i →
  slot_ok (n_heap st) (n_pipe st) (n_alloc_id st) i (f (slot_at i st)) →
  slot_bufs (f (slot_at i st)) = slot_bufs (slot_at i st) →
  s_id (f (slot_at i st)) = id → s_dw_lock (f (slot_at i st)) = s_dw_lock (slot_at i st) →
  s_type (f (slot_at i st)) ≠ SOCKET_TYPE_RESERVE → s_low (f (slot_at i st)) = s_low (slot_at i st) →
  ok L B [] held (upd i f st).
Proof.
  intros Hok Hr Hid0 Hi HB Hs Hm Hid Hlock Hres Hlow. destruct Hok as [O1 O2 O3 O4 O5 O6 O7 O8 O9 O10 O11 O12].
  cbn [app omap list_omap] in *. rewrite Hr in *.
  apply NoDup_cons in O8 as [Hfresh Hnd].
  assert (Htgt : targets r = None) by (by destruct r).
  assert (Hother : ∀ id', id' ∈ omap creates (n_pipe st) → i ≠ HASH_ID id').
  { intros id' Hin ->. destruct (O7 id' ltac:(set_solver)) as [_ E1].
    destruct (O7 id ltac:(set_solver)) as [_ E2]. rewrite <-Hi in E2. congruence. }
  assert (Hpipe : ∀ j, s_id (slot_at j st) ≠ id → slot_ok (n_heap st) (n_pipe st) (n_alloc_id st) j (slot_at j st)).
  { intros j Hj. eapply slot_ok_reqs; [|apply O4]. change (r :: n_pipe st) with ([r] ++ n_pipe st).
    rewrite senders_app. replace (senders _ [r]) with 0; [done|]. by destruct r. }
  split; try done.
  - eapply mem_ok_upd; [exact O1|by rewrite Hm].
  - cbn. cbn [app] in O3. rewrite zlen_cons in O3. lia.
  - intros j. cbn [app upd n_heap n_pipe n_alloc_id put_slot]. apply slot_at_upd_case.
    + intros <-. exact Hs.
    + intros Hne. apply Hpipe. intros Hj. pose proof (so_home _ _ _ _ _ (O4 j)) as Hh.
      rewrite Hj in Hh. by rewrite Hh in Hi.
  - intros j. apply slot_at_upd_case; [intros <-; rewrite Hlock|intros _]; apply O5.
  - cbn. intros id' Hin. apply slot_at_upd_case; [|intros _; apply O7; set_solver].
    intros E. by destruct (Hother id' Hin).
  - cbn. intros j HBj. apply slot_at_upd_case; [by intros <- ?|]. intros Hne Ht.
    pose proof (O9 j HBj Ht) as Hin. apply elem_of_cons in Hin as [Hin|Hin]; [|done].
    pose proof (so_home _ _ _ _ _ (O4 j) (so_used _ _ _ _ _ (O4 j) ltac:(rewrite Ht; done))) as Hh.
    rewrite Hin in Hh. congruence.
  - cbn. intros pre r' post id' He Ht. apply slot_at_upd_case; [by intros -> ?|].
    intros Hne Ht' Hi'. pose proof (O10 (r :: pre) r' post id' ltac:(by rewrite He) Ht Ht' Hi') as Hin.
    cbn in Hin. rewrite Hr in Hin. apply elem_of_cons in Hin as [->|Hin]; [|done].
    by destruct Hne.
  - intros j HL. apply slot_at_upd_case; [intros <-; rewrite Hlow|intros _]; by apply O12.
Qed.

(** A reserved slot that no request is for is put into use. *)
Lemma ok_built L cur held i f st :
  ok L (Some i) cur held st →
  s_id (slot_at i st) ∉ omap creates (cur ++ n_pipe st) →
  slot_ok (n_heap st) (cur ++ n_pipe st) (n_alloc_id st) i (f (slot_at i st)) →
  slot_bufs (f (slot_at i st)) = slot_bufs (slot_at i st) →
  s_id (f (slot_at i st)) = s_id (slot_at i st) →
  s_dw_lock (f (slot_at i st)) = s_dw_lock (slot_at i st) →
  s_type (f (slot_at i st)) ≠ SOCKET_TYPE_RESERVE → s_low (f (slot_at i st)) = s_low (slot_at i st) →
  ok L None cur held (upd i f st).
Proof.
  intros Hok Hnew Hs Hm Hid Hlock Hres Hlow. destruct Hok as [O1 O2 O3 O4 O5 O6 O7 O8 O9 O10 O11 O12].
  split; try done.
  - eapply mem_ok_upd; [exact O1|by rewrite Hm].
  - intros j. apply slot_at_upd_case; [by intros <-|intros _; apply O4].
  - intros j. apply slot_at_upd_case; [intros <-; rewrite Hlock|intros _]; apply O5.
  - intros id Hin. apply slot_at_upd_case; [|intros _; by apply O7].
    intros ->. destruct (O7 id Hin) as [_ E]. rewrite E in Hnew. done.
  - intros j _. apply slot_at_upd_case; [by intros <- ?|]. intros Hne. apply O9. congruence.
  - intros pre r post id He Ht. apply slot_at_upd_case; [by intros -> ?|intros _; by eapply O10].
  - intros j HL. apply slot_at_upd_case; [intros <-; rewrite Hlow|intros _]; by apply O12.
Qed.

Lemma ok_set_lock L L' B cur held i b st :
  ok L B cur held st →
  (∀ j, bool_decide (L' = Some j) = if decide (i = j) then b else bool_decide (L = Some j)) →
  (b = false → whole (s_low (slot_at i st))) →
  ok L' B cur held (upd i (set_dw_lock b) st).
Proof.
  intros Hok HL Hlow. destruct Hok as [O1 O2 O3 O4 O5 O6 O7 O8 O9 O10 O11 O12].
  split; try done.
  - by eapply mem_ok_upd.
  - intros j. apply slot_at_upd_case; intros; [|apply O4]. eapply slot_ok_view; [|apply O4]. done.
  - intros j. rewrite HL. destruct (decide (i = j)) as [->|].
    + by rewrite slot_at_upd.
    + rewrite slot_at_upd_ne by done. apply O5.
  - intros id Hin. apply slot_at_upd_case; intros; by apply O7.
  - intros j HB. apply slot_at_upd_case; [intros <-; by apply O9|intros _; by apply O9].
  - intros pre r post id He Ht. apply slot_at_upd_case; intros; by eapply O10.
  - intros j HL'. specialize (HL j). rewrite bool_decide_eq_false_2 in HL by done.
    apply slot_at_upd_case; intros Hij; cbn.
    + subst i. rewrite decide_True in HL by done. auto.
    + rewrite decide_False in HL by done. apply O12. by eapply bool_decide_eq_false_1.
Qed.

Lemma ok_lock_on B cur held i st :
  ok None B cur held st → ok (Some i) B cur held (upd i (set_dw_lock true) st).
Proof.
  intros Hok. eapply ok_set_lock; [done| |done]. intros j.
  destruct (decide (i = j)) as [->|]; [by apply bool_decide_eq_true_2|].
  rewrite !bool_decide_eq_false_2; congruence.
Qed.

Lemma ok_lock_off B cur held i st :
  ok (Some i) B cur held st → whole (s_low (slot_at i st)) →
  ok None B cur held (upd i (set_dw_lock false) st).
Proof.
  intros Hok Hlow. eapply ok_set_lock; [done| |done]. intros j.
  destruct (decide (i = j)) as [->|]; rewrite !bool_decide_eq_false_2; congruence.
Qed.

(** ** Memory *)

Lemma ok_heap L B cur held held' h' st :
  ok L B cur held st → mem_ok held' (put_heap h' st) →
  (∀ p, p ∈ slots_bufs (n_slot st) ++ pipe_bufs (n_pipe st) → h' !! p = n_heap st !! p) →
  ok L B cur held' (put_heap h' st).
Proof.
  intros Hok Hm Hp. destruct Hok as [O1 O2 O3 O4 O5 O6 O7 O8 O9 O10 O11 O12]. split; try done.
  - intros i. eapply slot_ok_heap; [|reflexivity|apply O4]. intros p Hin. apply Hp.
    rewrite elem_of_app. left. by eapply (slot_bufs_elem _ i).
  - rewrite Forall_forall in *. intros r Hr. eapply req_ok_heap; [|reflexivity|by apply O6].
    intros p Hin. apply Hp. rewrite elem_of_app. right. unfold pipe_bufs.
    rewrite list_elem_of_In, in_concat. exists (req_bufs r). rewrite <-!list_elem_of_In.
    split; [|done]. apply list_elem_of_fmap. by exists r.
Qed.

(** A block that is held is freed; a new one is held. *)
Lemma ok_free p L B cur held st :
  ok L B cur (p :: held) st → ok L B cur held (put_heap (delete p (n_heap st)) st).
Proof.
  intros Hok. pose proof (ok_mem _ _ _ _ _ Hok) as Hm.
  pose proof (mem_ok_held _ _ _ Hm) as (_ & _ & Hs & Hp).
  eapply ok_heap; [done|by apply mem_ok_free|]. intros q Hq.
  apply lookup_delete_ne. set_solver.
Qed.

Lemma ok_malloc p bs L B cur held st :
  ok L B cur held st → n_heap st !! p = None →
  ok L B cur (p :: held) (put_heap (<[p := bs]> (n_heap st)) st).
Proof.
  intros Hok Hnew. pose proof (ok_mem _ _ _ _ _ Hok) as Hm.
  eapply ok_heap; [done|by apply mem_ok_malloc|]. intros q Hq.
  apply lookup_insert_ne. intros <-.
  assert (is_Some (n_heap st !! p)) as [? ?]; [|congruence].
  apply (mem_ok_dom held st p Hm). set_solver.
Qed.

Lemma ok_perm L B cur held held' st : held ≡ₚ held' → ok L B cur held st → ok L B cur held' st.
Proof.
  intros Hp Hok. destruct Hok. split; try done. by eapply mem_ok_perm.
Qed.

(** The blocks [l] freed one after the other. *)
Definition hdel (l : list addr) (h : gmap addr (list Z)) : gmap addr (list Z) :=
  fold_left (λ h p, delete p h) l h.

Lemma ok_hdel l L B cur held st :
  ok L B cur (l ++ held) st → ok L B cur held (put_heap (hdel l (n_heap st)) st).
Proof.
  revert st. induction l as [|p l IH]; intros st Hok.
  { by eapply ok_core; [|exact Hok]. }
  cbn in *. apply ok_free in Hok. apply IH in Hok. done.
Qed.

Lemma hdel_app l l' h : hdel (l ++ l') h = hdel l' (hdel l h).
Proof. apply fold_left_app. Qed.

Lemma hdel_lookup l h p : p ∉ l → hdel l h !! p = h !! p.
Proof.
  revert h. induction l as [|q l IH]; intros h Hp; [done|]. cbn. apply not_elem_of_cons in Hp as [Hq Hp].
  rewrite IH by done. by apply lookup_delete_ne.
Qed.

(** ** Rules for the operations on the state *)

(** A step that leaves alone what the invariant is about. *)
Record quiet (st st' : net) : Prop := {
  q_view i : view (slot_at i st') = view (slot_at i st);
  q_lock i : s_dw_lock (slot_at i st') = s_dw_lock (slot_at i st);
  q_bufs : slots_bufs (n_slot st') ≡ₚ slots_bufs (n_slot st);
  q_rest : (n_pipe st', n_heap st', n_alloc_id st', ev_view st') = (n_pipe st, n_heap st, n_alloc_id st, ev_view st)
}.

#[export] Instance quiet_refl : Reflexive quiet.
Proof. by split. Qed.

#[export] Instance quiet_trans : Transitive quiet.
Proof.
  intros st1 st2 st3 [V1 L1 B1 R1] [V2 L2 B2 R2]. split; [| | |congruence].
  - intros i. by rewrite V2.
  - intros i. by rewrite L2.
  - by rewrite B2.
Qed.

Lemma view_type s s' : view s' = view s → s_type s' = s_type s.
Proof. by intros [=]. Qed.
Lemma view_id s s' : view s' = view s → s_id s' = s_id s.
Proof. by intros [=]. Qed.

Lemma ok_quiet L B cur held st st' : quiet st st' → ok L B cur held st → ok L B cur held st'.
Proof.
  intros [V K P R] [O1 O2 O3 O4 O5 O6 O7 O8 O9 O10 O11 O12].
  assert (n_pipe st' = n_pipe st ∧ n_heap st' = n_heap st ∧ n_alloc_id st' = n_alloc_id st ∧
    ev_view st' = ev_view st) as (Rp & Rh & Rt & Re) by (split_and!; congruence).
  assert (Vt : ∀ i, s_type (slot_at i st') = s_type (slot_at i st)) by (intros; by apply view_type).
  assert (Vi : ∀ i, s_id (slot_at i st') = s_id (slot_at i st)) by (intros; by apply view_id).
  split; try rewrite ?Rp, ?Rh, ?Rt, ?Re; try done.
  - unfold mem_ok in *. by rewrite Rp, Rh, P.
  - intros i. eapply slot_ok_view; [symmetry; apply V|apply O4].
  - intros i. rewrite K. apply O5.
  - intros id. rewrite Vt, Vi. apply O7.
  - intros i. rewrite Vt, Vi. apply O9.
  - intros pre r post id. rewrite Vt, Vi. apply O10.
  - intros i HL. replace (s_low (slot_at i st')) with (s_low (slot_at i st)); [by apply O12|].
    by injection (V i).
Qed.

Lemma quiet_core st st' : core st = core st' → quiet st st'.
Proof.
  intros Hc. pose proof (λ i, core_slot_at i _ _ Hc) as Hs. unfold core in Hc.
  split; [intros i; by rewrite Hs|intros i; by rewrite Hs| |congruence].
  assert (n_slot st = n_slot st') as -> by congruence. done.
Qed.

Lemma quiet_upd i f st :
  view (f (slot_at i st)) = view (slot_at i st) →
  s_dw_lock (f (slot_at i st)) = s_dw_lock (slot_at i st) → quiet st (upd i f st).
Proof.
  intros Hv Hl. split; [| | |done].
  - intros j. apply slot_at_upd_case; [by intros <-|done].
  - intros j. apply slot_at_upd_case; [by intros <-|done].
  - unfold upd. cbn. rewrite slots_bufs_insert, (slots_bufs_delete (n_slot st) i). fold (slot_at i st).
    assert (slot_bufs (f (slot_at i st)) = slot_bufs (slot_at i st)) as ->; [|done].
    unfold slot_bufs. by injection Hv as _ _ -> -> -> _.
Qed.

Section rules.
Context {Kern : Kernel}.
Implicit Types (st : net).

Lemma wp_call_exact {A} (c : syscall A) (Q : A → net → Prop) st :
  (let a := answer (n_history st) c in Q a (put_history (n_history st ++ [Entry c a]) st)) →
  wp (call c) Q st.
Proof.
  intros HQ. unfold call. apply wp_bind, wp_gets, wp_bind, wp_modify, wp_ret. exact HQ.
Qed.

Lemma wp_sys_exact c Q st :
  (let a := answer (n_history st) c in
   let st' := put_history (n_history st ++ [Entry c a]) st in
   if a <? 0 then Q (-1) (put_errno (- a) st') else Q a st') →
  wp (sys c) Q st.
Proof.
  intros H. unfold sys. apply wp_bind, wp_call_exact. cbv zeta in *.
  destruct (_ <? 0); [|by apply wp_ret]. by apply wp_bind, wp_modify, wp_ret.
Qed.

Lemma wp_call {A} (c : syscall A) (Q : A → net → Prop) st :
  (∀ st', core st = core st' → Q (answer (n_history st) c) st') → wp (call c) Q st.
Proof. intros H. apply wp_call_exact. by apply H. Qed.

(** What [sys] returns: the answer, or -1. *)
Definition sys_result (c : syscall Z) (h : list entry) (r : Z) : Prop :=
  (answer h c < 0 ∧ r = -1) ∨ (0 ≤ answer h c ∧ r = answer h c).

Lemma wp_sys c Q st :
  (∀ r st', core st = core st' → sys_result c (n_history st) r → Q r st') → wp (sys c) Q st.
Proof.
  intros H. apply wp_sys_exact. cbv zeta. unfold sys_result in H.
  destruct (Z.ltb_spec (answer (n_history st) c) 0); apply H; auto.
Qed.

Lemma wp_sys_sum {A} (c : syscall (Z + A)) Q st :
  (∀ st', core st = core st' →
     Q (match answer (n_history st) c with inl _ => None | inr a => Some a end) st') →
  wp (sys_sum c) Q st.
Proof.
  intros H. unfold sys_sum. apply wp_bind, wp_call_exact. cbv zeta.
  destruct (answer (n_history st) c) eqn:E; [apply wp_bind, wp_modify, wp_ret|apply wp_ret]; by apply H.
Qed.

Lemma wp_get_errno Q st : Q (n_errno st) st → wp get_errno Q st.
Proof. apply wp_gets. Qed.

Lemma wp_set_result r Q st :
  (∀ st', core st = core st' → Q tt st') → wp (set_result r) Q st.
Proof. intros H. apply wp_modify. by apply H. Qed.

Lemma wp_result_data d Q st :
  (∀ st', core st = core st' → Q tt st') → wp (result_data d) Q st.
Proof. intros H. apply wp_modify. by apply H. Qed.

Lemma wp_hfree_held p L B cur held Q st :
  ok L B cur (p :: held) st →
  (∀ st', ok L B cur held st' → n_slot st' = n_slot st → n_pipe st' = n_pipe st →
     n_alloc_id st' = n_alloc_id st → (∀ q, q ≠ p → n_heap st' !! q = n_heap st !! q) → Q tt st') →
  wp (hfree p) Q st.
Proof.
  intros Hok HQ. apply wp_hfree.
  - by destruct (mem_ok_held _ _ _ (ok_mem _ _ _ _ _ Hok)) as [? _].
  - apply HQ; try done; [by apply ok_free|]. intros q Hq. cbn. by rewrite lookup_delete_ne.
Qed.

(** ** Quiet functions *)

Lemma wp_stat_read i n Q st : (∀ st', quiet st st' → Q tt st') → wp (stat_read i n) Q st.
Proof. intros H. unfold stat_read. apply wp_bind, wp_gets, wp_mod_s, H. by apply quiet_upd. Qed.

Lemma wp_stat_write i n Q st : (∀ st', quiet st st' → Q tt st') → wp (stat_write i n) Q st.
Proof. intros H. unfold stat_write. apply wp_bind, wp_gets, wp_mod_s, H. by apply quiet_upd. Qed.

Lemma wp_sp_add fd s Q st :
  (∀ r st', core st = core st' → Q r st') → wp (sp_add fd s) Q st.
Proof.
  intros H. unfold sp_add. apply wp_bind, wp_gets, wp_bind, wp_sys. intros r st' Hc _.
  apply wp_ret. by apply H.
Qed.

Lemma wp_sp_enable fd i r w Q st :
  (∀ n st', core st = core st' → Q n st') → wp (sp_enable fd i r w) Q st.
Proof.
  intros H. unfold sp_enable. apply wp_bind, wp_gets, wp_bind, wp_sys. intros n st' Hc _.
  apply wp_ret. by apply H.
Qed.

Lemma wp_sp_nonblocking fd Q st : (∀ st', core st = core st' → Q tt st') → wp (sp_nonblocking fd) Q st.
Proof. intros H. unfold sp_nonblocking. apply wp_bind, wp_sys. intros. apply wp_ret. auto. Qed.

Lemma wp_keepalive fd Q st : (∀ st', core st = core st' → Q tt st') → wp (socket_keepalive fd) Q st.
Proof. intros H. unfold socket_keepalive. apply wp_bind, wp_sys. intros. apply wp_ret. auto. Qed.

Lemma wp_enable_write i b Q st : (∀ r st', quiet st st' → Q r st') → wp (enable_write i b) Q st.
Proof.
  intros H. unfold enable_write. apply wp_bind, wp_get_s. destruct (negb _); [|by apply wp_ret, H].
  apply wp_bind, wp_mod_s, wp_sp_enable. intros n st' Hc. apply H.
  etransitivity; [|by apply quiet_core]. by apply quiet_upd.
Qed.

Lemma wp_enable_read i b Q st : (∀ r st', quiet st st' → Q r st') → wp (enable_read i b) Q st.
Proof.
  intros H. unfold enable_read. apply wp_bind, wp_get_s. destruct (negb _); [|by apply wp_ret, H].
  apply wp_bind, wp_mod_s, wp_sp_enable. intros n st' Hc. apply H.
  etransitivity; [|by apply quiet_core]. by apply quiet_upd.
Qed.

Lemma wp_report_error i e Q st : (∀ st', core st = core st' → Q SOCKET_ERR st') → wp (report_error i e) Q st.
Proof.
  intros H. unfold report_error. apply wp_bind, wp_get_s, wp_bind, wp_set_result.
  intros st' Hc. by apply wp_ret, H.
Qed.
End rules.

(** ** Closing *)

(** The count of the lock of [i] that the step has. *)
Definition lock_ok (L : option Z) (i l : Z) : Prop := (l = 0 ∧ L = None) ∨ (l = 1 ∧ L = Some i).

Definition empty_slot (s : socket) : socket :=
  set_dw_buffer None (set_type SOCKET_TYPE_INVALID (set_low [] (set_high [] s))).

(** The slot is free again and its memory released; the others are as before. *)
Record closed (i : Z) (st st' : net) : Prop := {
  cl_type : s_type (slot_at i st') = SOCKET_TYPE_INVALID;
  cl_id : s_id (slot_at i st') = s_id (slot_at i st);
  cl_other j : j ≠ i → slot_at j st' = slot_at j st;
  cl_rest : n_pipe st' = n_pipe st ∧ n_alloc_id st' = n_alloc_id st ∧ ev_view st' = ev_view st
}.

Lemma slot_bufs_ok L B cur held i st :
  ok L B cur held st →
  NoDup (slot_bufs (slot_at i st)) ∧ (∀ p, p ∈ slot_bufs (slot_at i st) → is_Some (n_heap st !! p)) ∧
  Forall (λ wb, wb_userobject wb = false) (s_high (slot_at i st) ++ s_low (slot_at i st)).
Proof.
  intros Hok. pose proof (ok_mem _ _ _ _ _ Hok) as Hm. split_and!.
  - pose proof (mem_ok_nodup _ _ Hm) as Hn. rewrite (slots_bufs_delete (n_slot st) i) in Hn.
    rewrite !NoDup_app in Hn. by destruct Hn as (_ & _ & (Hn & _) & _).
  - intros p Hp. apply (mem_ok_dom _ _ p Hm). rewrite !elem_of_app. right; left. by eapply slot_bufs_elem.
  - destruct (decide (is_live (slot_at i st))) as [Hl|Hl].
    + destruct (so_live _ _ _ _ _ (ok_slot _ _ _ _ _ Hok i) Hl) as [[_ T]|[_ _ _ U]].
      * eapply Forall_impl; [apply (to_wb _ _ T)|]. by intros wb (_ & _ & ? & _).
      * destruct (no_bufs _ U) as (_ & -> & ->). constructor.
    + assert (slot_bufs (slot_at i st) = []) as U.
      { destruct (decide (s_type (slot_at i st) = SOCKET_TYPE_INVALID)).
        - by apply (so_idle _ _ _ _ _ (ok_slot _ _ _ _ _ Hok i)).
        - destruct (decide (s_type (slot_at i st) = SOCKET_TYPE_RESERVE)).
          + by apply (so_reserve _ _ _ _ _ (ok_slot _ _ _ _ _ Hok i)).
          + by destruct Hl. }
      destruct (no_bufs _ U) as (_ & -> & ->). constructor.
Qed.

(** Without its memory a slot can be closed. *)
Lemma ok_empty L B cur held i st :
  ok L B cur held st → s_type (slot_at i st) ≠ SOCKET_TYPE_RESERVE →
  ok L B cur held (put_heap (hdel (slot_bufs (slot_at i st)) (n_heap st)) (upd i empty_slot st)).
Proof.
  intros Hok Hr. apply (ok_hdel (slot_bufs (slot_at i st)) L B cur held (upd i empty_slot st)).
  eapply ok_upd; [exact Hok| | | | | |].
  - destruct (ok_slot _ _ _ _ _ Hok i) as [H1 H2 H3 H4 H5 H6 H7 H8].
    split; cbn; try done. by intros [].
  - unfold slot_bufs. cbn. rewrite app_nil_r. apply Permutation.Permutation_app_comm.
  - done.
  - done.
  - cbn. by split.
  - intros _. constructor.
Qed.

Section closing.
Context {Kern : Kernel}.

Lemma wp_free_wb_list l (Q : unit → net → Prop) st :
  Forall (λ wb, wb_userobject wb = false) l → NoDup (wb_buffer <$> l) →
  (∀ p, p ∈ wb_buffer <$> l → is_Some (n_heap st !! p)) →
  Q tt (put_heap (hdel (wb_buffer <$> l) (n_heap st)) st) →
  wp (free_wb_list l) Q st.
Proof.
  revert st. induction l as [|wb l IH]; intros st Hu Hn Hp HQ; cbn [free_wb_list].
  { apply wp_ret. by destruct st. }
  apply Forall_cons in Hu as [Hu Hus]. cbn in Hn. apply NoDup_cons in Hn as [Hw Hn].
  apply wp_bind. unfold write_buffer_free. rewrite Hu. apply wp_hfree; [apply Hp; cbn; set_solver|].
  apply IH; [done|done| |done].
  intros p Hin. cbn. rewrite lookup_delete_ne by set_solver. apply Hp. cbn. set_solver.
Qed.

Lemma wp_socket_lock i l Q st :
  (l = 0 → s_dw_lock (slot_at i st) = false) →
  Q (l + 1) (if l =? 0 then upd i (set_dw_lock true) st else st) →
  wp (socket_lock i l) Q st.
Proof.
  intros Hl HQ. unfold socket_lock. destruct (Z.eqb_spec l 0) as [->|].
  - apply wp_bind, wp_get_s. rewrite Hl by done. by apply wp_bind, wp_mod_s, wp_ret.
  - by apply wp_ret.
Qed.

Lemma wp_socket_unlock i l Q st : 1 ≤ l →
  Q (l - 1) (if l =? 1 then upd i (set_dw_lock false) st else st) →
  wp (socket_unlock i l) Q st.
Proof.
  intros Hl HQ. unfold socket_unlock. destruct (Z.leb_spec (l - 1) 0).
  - replace (l - 1 =? 0) with true by lia. apply wp_bind, wp_assert; [done|].
    apply wp_bind, wp_mod_s, wp_ret. by replace (l =? 1) with true in HQ by lia.
  - apply wp_ret. by replace (l =? 1) with false in HQ by lia.
Qed.
End closing.

Lemma core_put_heap h st st' : core st = core st' → core (put_heap h st) = core (put_heap h st').
Proof.
  unfold core. change (ev_view (put_heap ?m ?n)) with (ev_view n). cbn. congruence.
Qed.
Lemma core_ev st st' : core st = core st' → ev_view st = ev_view st'.
Proof. unfold core. congruence. Qed.
Lemma core_heap st st' : core st = core st' → n_heap st = n_heap st'.
Proof. unfold core. congruence. Qed.
Lemma core_pipe st st' : core st = core st' → n_pipe st = n_pipe st'.
Proof. unfold core. congruence. Qed.
Lemma core_top st st' : core st = core st' → n_alloc_id st = n_alloc_id st'.
Proof. unfold core. congruence. Qed.

Lemma closed_core i st st1 st2 : core st1 = core st2 → closed i st st1 → closed i st st2.
Proof.
  intros Hc [H1 H2 H3 (H4 & H5 & H6)]. split.
  - by rewrite <-(core_slot_at i _ _ Hc).
  - by rewrite <-(core_slot_at i _ _ Hc).
  - intros j Hj. rewrite <-(core_slot_at j _ _ Hc). auto.
  - by rewrite <-(core_pipe _ _ Hc), <-(core_top _ _ Hc), <-(core_ev _ _ Hc).
Qed.

Lemma closed_bufs L B cur held i st st' :
  ok L B cur held st' → closed i st st' → slot_bufs (slot_at i st') = [].
Proof. intros Hok [Ht _ _ _]. by apply (so_idle _ _ _ _ _ (ok_slot _ _ _ _ _ Hok i)). Qed.

Lemma closed_empty i h st f :
  s_type (f (slot_at i st)) = SOCKET_TYPE_INVALID → s_id (f (slot_at i st)) = s_id (slot_at i st) →
  closed i st (put_heap h (upd i f st)).
Proof.
  intros Ht Hi. split; [| | |done].
  - change (s_type (slot_at i (upd i f st)) = SOCKET_TYPE_INVALID). by rewrite slot_at_upd.
  - change (s_id (slot_at i (upd i f st)) = s_id (slot_at i st)). by rewrite slot_at_upd.
  - intros j Hj. change (slot_at j (upd i f st) = slot_at j st). by rewrite slot_at_upd_ne.
Qed.

(** What [force_close] does to the slot, with and without taking the lock. *)
Definition close_slot (l : Z) (s : socket) : socket :=
  if l =? 0 then set_dw_lock false (empty_slot (set_dw_lock true s)) else empty_slot s.

Lemma ok_close_slot L B cur held i l st :
  ok L B cur held st → s_type (slot_at i st) ≠ SOCKET_TYPE_RESERVE → lock_ok L i l →
  let st' := put_heap (hdel (slot_bufs (slot_at i st)) (n_heap st)) (upd i (close_slot l) st) in
  ok L B cur held st' ∧ closed i st st'.
Proof.
  intros Hok Hr Hl st'. split; [|by apply closed_empty; unfold close_slot; destruct (l =? 0)].
  destruct Hl as [[-> ->]|[-> ->]]; [|by apply ok_empty].
  apply (ok_lock_on _ _ _ i) in Hok. apply (ok_empty _ _ _ _ i) in Hok; [|by rewrite slot_at_upd].
  apply ok_lock_off in Hok; [|unfold slot_at; cbn; rewrite lookup_total_insert_eq; constructor].
  eapply ok_core; [|exact Hok].
  rewrite slot_at_upd. unfold st', core. cbn. f_equal. f_equal. f_equal.
  unfold slot_at at 1 2. cbn. rewrite !lookup_total_insert_eq, !insert_insert_eq. by rewrite slot_at_upd.
Qed.

Section force_close.
Context {Kern : Kernel}.

Lemma wp_sp_del fd Q st : (∀ st', core st = core st' → Q tt st') → wp (sp_del fd) Q st.
Proof.
  intros HQ. unfold sp_del. apply wp_bind, wp_gets, wp_bind, wp_sys. intros r st' Hc _.
  apply wp_ret. auto.
Qed.

(** [st'] is [st] with one slot and the heap changed. *)
Definition becomes (i : Z) (f : socket → socket) (h : gmap addr (list Z)) (st st' : net) : Prop :=
  core st' = core (put_heap h (upd i f st)).

Lemma becomes_core i f h st st' st'' : core st' = core st'' → becomes i f h st st' → becomes i f h st st''.
Proof. unfold becomes. congruence. Qed.

Lemma becomes_upd i f g h st st' :
  becomes i f h st st' → becomes i (λ s, g (f s)) h st (upd i g st').
Proof.
  unfold becomes. intros Hc. rewrite (core_upd i g _ _ Hc). rewrite <-(upd_upd i f g). done.
Qed.

Lemma becomes_heap i f h h' st st' : becomes i f h st st' → becomes i f h' st (put_heap h' st').
Proof. unfold becomes. intros Hc. by rewrite (core_put_heap h' _ _ Hc). Qed.

Lemma becomes_heap_eq i f h st st' : becomes i f h st st' → n_heap st' = h.
Proof. unfold becomes. intros Hc. by rewrite (core_heap _ _ Hc). Qed.

Lemma becomes_slot i f h st st' : becomes i f h st st' → slot_at i st' = f (slot_at i st).
Proof.
  unfold becomes. intros Hc. rewrite (core_slot_at i _ _ Hc). apply (slot_at_upd i f st).
Qed.

Lemma becomes_ext i f g h st st' :
  becomes i f h st st' → f (slot_at i st) = g (slot_at i st) → becomes i g h st st'.
Proof. unfold becomes, upd. intros Hc E. by rewrite Hc, E. Qed.

Lemma becomes_start i f h st st' : core st' = core (put_heap h st) → becomes i f h st (upd i f st').
Proof. unfold becomes. intros Hc. by rewrite (core_upd i f _ _ Hc). Qed.

Lemma wp_mod_becomes i f h st st1 g Q :
  becomes i f h st st1 → (∀ st2, becomes i (λ s, g (f s)) h st st2 → Q tt st2) →
  wp (mod_s i g) Q st1.
Proof. intros Hb HQ. by apply wp_mod_s, HQ, becomes_upd. Qed.

Lemma wp_free_becomes i f h st st1 l (Q : unit → net → Prop) :
  becomes i f h st st1 → Forall (λ wb, wb_userobject wb = false) l → NoDup (wb_buffer <$> l) →
  (∀ p, p ∈ wb_buffer <$> l → is_Some (h !! p)) →
  (∀ st2, becomes i f (hdel (wb_buffer <$> l) h) st st2 → Q tt st2) →
  wp (free_wb_list l) Q st1.
Proof.
  intros Hb Hu Hn Hp HQ. pose proof (becomes_heap_eq _ _ _ _ _ Hb) as Hh.
  apply wp_free_wb_list; [done|done|by rewrite Hh|]. rewrite Hh. apply HQ. by eapply becomes_heap.
Qed.

Lemma hdel_perm l l' h : l ≡ₚ l' → hdel l h = hdel l' h.
Proof.
  intros Hp. revert h. induction Hp as [|p l l' _ IH|p q l|l1 l2 l3 _ IH1 _ IH2]; intros h; cbn.
  - done.
  - apply IH.
  - by rewrite delete_delete.
  - by rewrite IH1.
Qed.

Lemma wp_force_close L B cur held i l (Q : unit → net → Prop) st :
  ok L B cur held st → s_type (slot_at i st) ≠ SOCKET_TYPE_RESERVE → lock_ok L i l →
  (∀ st', ok L B cur held st' → closed i st st' → Q tt st') →
  wp (force_close i l) Q st.
Proof.
  intros Hok Hr Hl HQ. unfold force_close. apply wp_bind, wp_get_s, wp_bind, wp_set_result.
  intros st1 Hc1. destruct (Z.eqb_spec (s_type (slot_at i st)) SOCKET_TYPE_INVALID) as [Ht|Ht].
  { apply wp_ret, HQ; [by eapply ok_core|]. eapply closed_core; [exact Hc1|]. by split. }
  set (s := slot_at i st) in *. apply wp_bind, wp_assert; [by apply negb_true_iff, Z.eqb_neq|].
  destruct (slot_bufs_ok _ _ _ _ i _ Hok) as (Hn & Hin & Hu). fold s in Hn, Hin, Hu.
  apply Forall_app in Hu as [Hu1 Hu2]. pose proof (core_heap _ _ Hc1) as Hh1.
  destruct (ok_close_slot _ _ _ _ i l _ Hok Hr Hl) as [Hok' Hcl]. fold s in Hok', Hcl.
  unfold slot_bufs in Hn, Hin. rewrite !NoDup_app in Hn. destruct Hn as (_ & Hn1 & Hn2 & Hn12 & Hn3).
  assert (Hlock : l = 0 → s_dw_lock s = false).
  { intros ->. destruct Hl as [[_ ->]|[? _]]; [|done]. apply (ok_lock _ _ _ _ _ Hok). }
  assert (Hdw : ∀ p, s_dw_buffer s = Some p → s_dw_size s =? USEROBJECT = false).
  { intros p Hp. destruct (so_live _ _ _ _ _ (ok_slot _ _ _ _ _ Hok i)) as [[_ T]|[_ _ _ U]]; [by split| |].
    - destruct (to_dw _ _ T p Hp) as [(bs & _ & _ & Hle) _]. unfold USEROBJECT, INT_MAX, s in *. lia.
    - unfold slot_bufs, s in *. by rewrite Hp in U. }
  apply wp_bind, wp_free_wb_list; [done|done|rewrite <-Hh1; set_solver|]. rewrite <-Hh1.
  apply wp_bind, wp_mod_s.
  pose proof (becomes_start i (set_high []) _ st _
    (core_put_heap (hdel (wb_buffer <$> s_high s) (n_heap st)) _ _ (eq_sym Hc1))) as Hb.
  apply wp_bind. eapply wp_free_becomes; [exact Hb|done|done| |clear Hb; intros st2 Hb].
  { intros p Hp. rewrite hdel_lookup by set_solver. apply Hin. set_solver. }
  rewrite <-hdel_app in Hb.
  apply wp_bind. eapply wp_mod_becomes; [exact Hb|clear Hb; intros st3 Hb].
  apply wp_bind, wp_sp_del. intros st4 Hc4. eapply becomes_core in Hb; [|exact Hc4].
  apply wp_bind, wp_socket_lock; [by rewrite (becomes_slot _ _ _ _ _ Hb)|].
  assert (Hb5 : becomes i (λ s, if l =? 0 then set_dw_lock true (set_low [] (set_high [] s))
                                else set_low [] (set_high [] s))
    (hdel ((wb_buffer <$> s_high s) ++ (wb_buffer <$> s_low s)) (n_heap st)) st
    (if l =? 0 then upd i (set_dw_lock true) st4 else st4)).
  { destruct (l =? 0); [|done]. by apply (becomes_upd _ _ (set_dw_lock true)) in Hb. }
  clear Hb. revert Hb5. generalize (if l =? 0 then upd i (set_dw_lock true) st4 else st4).
  intros st5 Hb. apply wp_bind.
  eapply (wp_mono _ (λ _ st6, core st5 = core st6)).
  { destruct (negb _); [apply wp_bind, wp_sys; intros; by apply wp_ret|by apply wp_ret]. }
  intros _ st6 Hc6. eapply becomes_core in Hb; [|exact Hc6]. clear Hc6 st5.
  apply wp_bind. eapply wp_mod_becomes; [exact Hb|clear Hb; intros st7 Hb].
  apply wp_bind. eapply (wp_mono _ (λ _ st8, becomes i
    (λ s, set_dw_buffer None (set_type SOCKET_TYPE_INVALID
       (if l =? 0 then set_dw_lock true (set_low [] (set_high [] s)) else set_low [] (set_high [] s))))
    (hdel (((wb_buffer <$> s_high s) ++ (wb_buffer <$> s_low s)) ++ option_list (s_dw_buffer s))
      (n_heap st)) st st8)).
  { destruct (s_dw_buffer s) as [p|] eqn:Ep.
    - rewrite (Hdw p eq_refl). apply wp_bind, wp_hfree.
      { cbn. rewrite (becomes_heap_eq _ _ _ _ _ Hb), hdel_lookup by (cbn in *; set_solver).
        apply Hin. cbn. set_solver. }
      cbn [sb_buffer heap with_heap net_heap]. rewrite (becomes_heap_eq _ _ _ _ _ Hb).
      rewrite hdel_app. eapply wp_mod_becomes; [by eapply becomes_heap|done].
    - apply wp_ret. rewrite app_nil_r. eapply becomes_ext; [exact Hb|]. fold s.
      destruct (l =? 0), s; cbn in *; by subst. }
  clear Hb. intros _ st8 Hb. apply wp_bind, wp_socket_unlock.
  { destruct Hl as [[-> _]|[-> _]]; lia. }
  apply wp_ret. assert (Hfin : core (put_heap (hdel (slot_bufs s) (n_heap st)) (upd i (close_slot l) st)) =
    core (if l + 1 =? 1 then upd i (set_dw_lock false) st8 else st8)).
  { symmetry. assert (E : hdel (slot_bufs s) (n_heap st) = hdel (((wb_buffer <$> s_high s) ++
      (wb_buffer <$> s_low s)) ++ option_list (s_dw_buffer s)) (n_heap st)).
    { apply hdel_perm. unfold slot_bufs. by rewrite Permutation.Permutation_app_comm. }
    rewrite E. destruct Hl as [[-> _]|[-> _]]; cbn [Z.eqb Z.add] in *.
    - apply (becomes_upd _ _ (set_dw_lock false)) in Hb. exact Hb.
    - exact Hb. }
  apply HQ; [by eapply ok_core|by eapply closed_core].
Qed.
End force_close.
