(* ===== verification/SocketThread.v ===== *)
(** * The socket thread keeps the invariant

    The specifications of the handlers of requests and events of [Socket]: started
    in a state with the invariant of [SocketOk] they return, without a failed
    assertion, a wrong access to memory or a lock that is never released, in a state
    with the invariant. *)
From S2P Require Import Prelude StateM Memory SocketState Socket SocketOk.

Local Open Scope Z_scope.

(** ** Steps of a slot *)

Lemma wp_mod_quiet i f (Q : unit → net → Prop) st :
  view (f (slot_at i st)) = view (slot_at i st) →
  s_dw_lock (f (slot_at i st)) = s_dw_lock (slot_at i st) →
  (∀ st', quiet st st' → slot_at i st' = f (slot_at i st) → Q tt st') →
  wp (mod_s i f) Q st.
Proof.
  intros Hv Hl HQ. apply wp_mod_s, HQ; [by apply quiet_upd|]. apply slot_at_upd.
Qed.

Lemma quiet_is_live i st st' : quiet st st' → is_live (slot_at i st) → is_live (slot_at i st').
Proof. intros [V _ _ _]. unfold is_live. by rewrite (view_type _ _ (V i)). Qed.

Lemma quiet_type i st st' : quiet st st' → s_type (slot_at i st') = s_type (slot_at i st).
Proof. intros [V _ _ _]. by apply view_type. Qed.
Lemma quiet_id i st st' : quiet st st' → s_id (slot_at i st') = s_id (slot_at i st).
Proof. intros [V _ _ _]. by apply view_id. Qed.
Lemma quiet_ev st st' : quiet st st' → ev_view st' = ev_view st.
Proof. intros [_ _ _ R]. congruence. Qed.

Lemma slot_ok_retype h reqs top i t s :
  slot_ok h reqs top i s → is_live s → 2 ≤ t ≤ SOCKET_TYPE_BIND → slot_ok h reqs top i (set_type t s).
Proof.
  intros [H1 H2 H3 H4 H5 H6 H7 H8] Hl Ht. unfold SOCKET_TYPE_BIND in *.
  split; cbn; unfold SOCKET_TYPE_INVALID, SOCKET_TYPE_RESERVE, SOCKET_TYPE_BIND in *; try lia; try done.
  - intros _. apply H4, Hl.
  - intros _. destruct (H7 Hl) as [[Hp [T1 T2 T3 T5]]|[U1 U2 U3 U4]]; [left|right]; done.
Qed.

(** A socket in use changes to another state in which it is in use. *)
Lemma ok_retype L B cur held i t st :
  ok L B cur held st → is_live (slot_at i st) → 2 ≤ t ≤ SOCKET_TYPE_BIND →
  ok L B cur held (upd i (set_type t) st).
Proof.
  intros Hok Hl Ht. eapply ok_upd; [exact Hok| |done|done|done| |].
  - apply slot_ok_retype; [apply Hok|done|done].
  - destruct Hl as [_ Hl]. cbn. unfold SOCKET_TYPE_RESERVE in *. split; [lia|done].
  - apply Hok.
Qed.

Lemma live_upd i t st : 2 ≤ t → is_live (slot_at i (upd i (set_type t) st)).
Proof.
  intros Ht. rewrite slot_at_upd. unfold is_live, SOCKET_TYPE_INVALID, SOCKET_TYPE_RESERVE. cbn. lia.
Qed.

(** ** The request at the head of the pipe *)

Lemma ok_take r p held st :
  ok None None [] held st → n_pipe st = r :: p →
  ok None None [r] (req_bufs r ++ held) (put_pipe p st) ∧ req_ok (n_heap st) (n_alloc_id st) r.
Proof.
  intros [O1 O2 O3 O4 O5 O6 O7 O8 O9 O10 O11 O12] Hp. cbn [app] in *. rewrite Hp in *.
  apply Forall_cons in O6 as [Hr O6]. split; [|done]. split; try done.
  unfold mem_ok in *. rewrite Hp in O1. cbn in *. rewrite <-O1. unfold pipe_bufs. cbn.
  solve_Permutation.
Qed.

(** The socket of the request that is handled is not one that is being made. *)
Lemma target_live r id held st :
  ok None None [r] held st → targets r = Some id →
  socket_invalid (slot_at (HASH_ID id) st) id = false →
  is_live (slot_at (HASH_ID id) st) ∧ s_id (slot_at (HASH_ID id) st) = id.
Proof.
  intros Hok Ht Hv. unfold socket_invalid in Hv. apply orb_false_iff in Hv as [Hi Hv].
  apply negb_false_iff, Z.eqb_eq in Hi. apply Z.eqb_neq in Hv. split; [|done]. split; [done|].
  intros Hres. pose proof (ok_first _ _ _ _ _ Hok [] r (n_pipe st) id eq_refl Ht Hres Hi) as Hin.
  by apply elem_of_nil in Hin.
Qed.

(** A request that does not make a socket and is not counted is done with. *)
Lemma ok_drop L B r held st :
  ok L B [r] held st → creates r = None → (∀ id, sends id r = false) → ok L B [] held st.
Proof.
  intros [O1 O2 O3 O4 O5 O6 O7 O8 O9 O10 O11 O12] Hc Hs. cbn [app omap list_omap] in *.
  rewrite Hc in *. split; try done.
  - cbn. rewrite zlen_cons in O3. lia.
  - intros i. eapply slot_ok_reqs; [|apply O4]. change (r :: n_pipe st) with ([r] ++ n_pipe st).
    rewrite senders_app. unfold senders at 1. cbn. by rewrite Hs.
  - intros pre r' post id He Ht Ht' Hi. cbn [app] in He.
    pose proof (O10 (r :: pre) r' post id ltac:(by rewrite He) Ht Ht' Hi) as Hin. cbn in Hin.
    by rewrite Hc in Hin.
Qed.

Section handlers.
Context {Kern : Kernel}.
Implicit Types (st : net).

Lemma wp_close_read L B cur held i Q st :
  ok L B cur held st → is_live (slot_at i st) →
  (∀ st', ok L B cur held st' → ev_view st' = ev_view st → Q tt st') → wp (close_read i) Q st.
Proof.
  intros Hok Hl HQ. unfold close_read. apply wp_bind, wp_mod_s.
  apply (ok_retype _ _ _ _ i SOCKET_TYPE_HALFCLOSE_READ) in Hok; [|done|done].
  apply wp_bind, wp_enable_read. intros _ st1 Hq1. apply wp_bind, wp_get_s, wp_bind, wp_sys.
  intros _ st2 Hc2 _. apply wp_set_result. intros st3 Hc3.
  apply HQ; [|by rewrite <-(core_ev _ _ Hc3), <-(core_ev _ _ Hc2), (quiet_ev _ _ Hq1)].
  by eapply ok_core, ok_core, ok_quiet.
Qed.

Lemma wp_resume_socket held id opaque Q st :
  ok None None [RResume id opaque] held st →
  (∀ r st', ok None None [RResume id opaque] held st' → Q r st') → wp (resume_socket id opaque) Q st.
Proof.
  intros Hok HQ. unfold resume_socket. apply wp_bind, wp_set_result. intros st1 Hc1.
  eapply ok_core in Hok; [|exact Hc1]. clear Hc1 st. apply wp_bind, wp_get_s.
  assert (Hend : ∀ d r, wp (result_data d;; mret r) Q st1).
  { intros d r. apply wp_bind, wp_result_data. intros st2 Hc. apply wp_ret, HQ. by eapply ok_core. }
  destruct (socket_invalid _ _) eqn:Hv; [apply Hend|]. destruct (halfclose_read _); [apply Hend|].
  destruct (target_live _ id _ _ Hok eq_refl Hv) as [Hl Hi]. clear Hend.
  apply wp_bind, wp_enable_read. intros r st2 Hq.
  eapply ok_quiet in Hok; [|exact Hq]. eapply quiet_is_live in Hl; [|exact Hq]. clear Hq Hv Hi st1.
  assert (Hend : ∀ d r st, ok None None [RResume id opaque] held st → wp (result_data d;; mret r) Q st).
  { intros d r' st Hok'. apply wp_bind, wp_result_data. intros st' Hc. apply wp_ret, HQ. by eapply ok_core. }
  destruct (negb _); [by apply Hend|]. apply wp_bind, wp_get_s.
  destruct (_ || _); [|destruct (_ =? _)].
  - apply wp_bind, wp_mod_s, wp_bind, wp_mod_quiet; [done|done|]. intros st4 Hq _.
    apply Hend. eapply ok_quiet; [exact Hq|]. apply ok_retype; [done|done|].
    unfold SOCKET_TYPE_CONNECTED, SOCKET_TYPE_LISTEN, SOCKET_TYPE_BIND. destruct (_ =? _); lia.
  - apply wp_bind, wp_mod_quiet; [done|done|]. intros st4 Hq _. apply Hend. by eapply ok_quiet.
  - by apply wp_ret, HQ.
Qed.

(** The end of a handler that reports an error or goes on. *)
Lemma wp_checked L B cur held i (r : Z) d (m : M Z) Q st :
  ok L B cur held st → (∀ r st', ok L B cur held st' → Q r st') → wp m Q st →
  wp (if negb (r =? 0) then report_error i d else m) Q st.
Proof.
  intros Hok HQ Hm. destruct (negb _); [|done]. apply wp_report_error. intros st' Hc.
  apply HQ. by eapply ok_core.
Qed.

Lemma wp_pause_socket cur held id Q st :
  ok None None cur held st → (∀ r st', ok None None cur held st' → Q r st') →
  wp (pause_socket id) Q st.
Proof.
  intros Hok HQ. unfold pause_socket. apply wp_bind, wp_get_s.
  destruct (socket_invalid _ _); [by apply wp_ret, HQ|].
  apply wp_bind, wp_enable_read. intros r st1 Hq. eapply ok_quiet in Hok; [|exact Hq].
  eapply wp_checked; [done|done|]. by apply wp_ret, HQ.
Qed.

Lemma wp_trigger_write cur held id Q st :
  ok None None cur held st → (∀ r st', ok None None cur held st' → Q r st') →
  wp (trigger_write id) Q st.
Proof.
  intros Hok HQ. unfold trigger_write. apply wp_bind, wp_get_s.
  destruct (socket_invalid _ _); [by apply wp_ret, HQ|].
  apply wp_bind, wp_enable_write. intros r st1 Hq. eapply ok_quiet in Hok; [|exact Hq].
  eapply wp_checked; [done|done|]. by apply wp_ret, HQ.
Qed.

Lemma wp_setopt_socket cur held id what value Q st :
  ok None None cur held st → (∀ st', ok None None cur held st' → Q tt st') →
  wp (setopt_socket id what value) Q st.
Proof.
  intros Hok HQ. unfold setopt_socket. apply wp_bind, wp_get_s.
  destruct (socket_invalid _ _); [by apply wp_ret, HQ|].
  apply wp_bind, wp_sys. intros r st1 Hc _. apply wp_ret, HQ. by eapply ok_core.
Qed.

Lemma lock_none i : lock_ok None i socket_lock_init.
Proof. by left. Qed.

Lemma wp_close_socket held id shutdown opaque Q st :
  ok None None [RClose id shutdown opaque] held st →
  (∀ r st', ok None None [RClose id shutdown opaque] held st' → Q r st') →
  wp (close_socket id shutdown) Q st.
Proof.
  intros Hok HQ. unfold close_socket. apply wp_bind, wp_get_s.
  destruct (socket_invalid _ _) eqn:Hv; [by apply wp_ret, HQ|].
  destruct (target_live _ id _ _ Hok eq_refl Hv) as [Hl Hi].
  destruct (_ || _).
  { apply wp_bind. eapply wp_force_close; [done|by destruct Hl|apply lock_none|].
    intros st1 Hok1 _. by apply wp_ret, HQ. }
  apply wp_bind, wp_mod_quiet; [done|done|]. intros st1 Hq1 _.
  eapply ok_quiet in Hok; [|exact Hq1]. eapply quiet_is_live in Hl; [|exact Hq1].
  destruct (negb _); [|by apply wp_ret, HQ].
  apply wp_bind. eapply wp_close_read; [done|done|]. intros st2 Hok2 _. by apply wp_ret, HQ.
Qed.
End handlers.

(** ** New sockets *)

Lemma quiet_upd_cong i f g st st' :
  quiet st st' → view (g (slot_at i st')) = view (f (slot_at i st)) →
  s_dw_lock (g (slot_at i st')) = s_dw_lock (f (slot_at i st)) →
  quiet (upd i f st) (upd i g st').
Proof.
  intros [V K P R] Hv Hl. split; [| | |done].
  - intros j. apply slot_at_upd_case; intros Hj.
    + subst j. by rewrite slot_at_upd.
    + by rewrite slot_at_upd_ne.
  - intros j. apply slot_at_upd_case; intros Hj.
    + subst j. by rewrite slot_at_upd.
    + by rewrite slot_at_upd_ne.
  - unfold upd. cbn. rewrite !slots_bufs_insert.
    assert (E : ∀ s s', view s' = view s → slot_bufs s' = slot_bufs s).
    { unfold slot_bufs. by intros s s' [= _ _ -> -> -> _]. }
    rewrite (E _ _ Hv). apply Permutation.Permutation_app_head.
    apply (Permutation.Permutation_app_inv_l (slot_bufs (slot_at i st))).
    rewrite <-(slots_bufs_delete (n_slot st) i), <-P, (slots_bufs_delete (n_slot st') i).
    fold (slot_at i st'). by rewrite (E _ _ (V i)).
Qed.

(** What [new_fd] writes of a slot, as far as the invariant looks at it. *)
Definition newsock (id protocol : Z) (s : socket) : socket :=
  set_dw_size 0 (set_dw_buffer None (set_wb_size 0 (set_p (PSize MIN_READ_BUFFER)
    (set_protocol (u8 protocol) (set_sending (Z.lor (Z.shiftl (ID_TAG16 id) 16) 0) (set_id id s)))))).

Definition freed_sock (id protocol : Z) (f : socket → socket) : Prop :=
  (∀ s, f s = set_type SOCKET_TYPE_INVALID s) ∨
  (∀ s, f s = set_type SOCKET_TYPE_INVALID (newsock id protocol s)).

Section new_fd.
Context {Kern : Kernel}.

Lemma wp_new_fd id fd protocol opaque reading (Q : option Z → net → Prop) st :
  let i := HASH_ID id in
  s_type (slot_at i st) = SOCKET_TYPE_RESERVE → slot_bufs (slot_at i st) = [] →
  (∀ f st', freed_sock id protocol f → quiet (upd i f st) st' → Q None st') →
  (∀ st', quiet (upd i (newsock id protocol) st) st' → Q (Some i) st') →
  wp (new_fd id fd protocol opaque reading) Q st.
Proof.
  intros i Ht Hb Hnone Hsome. unfold new_fd. fold i. apply wp_bind, wp_get_s.
  apply wp_bind, wp_assert; [by rewrite Ht|]. apply wp_bind, wp_sp_add. intros r st1 Hc.
  apply quiet_core in Hc. pose proof (q_view _ _ Hc i) as Hv. pose proof (q_lock _ _ Hc i) as Hl.
  destruct (negb _).
  { apply wp_bind, wp_mod_s, wp_ret, (Hnone (set_type SOCKET_TYPE_INVALID)); [by left|].
    apply quiet_upd_cong; [done| |done]. unfold view in *. cbn. congruence. }
  do 11 apply wp_bind, wp_mod_s. apply wp_bind, wp_get_s. rewrite !upd_upd, slot_at_upd. cbn.
  assert (s_high (slot_at i st1) = [] ∧ s_low (slot_at i st1) = []) as [-> ->].
  { injection Hv as _ _ -> -> _ _ _ _ _ _ _. by apply no_bufs. }
  do 2 (apply wp_bind, wp_assert; [done|]). do 3 apply wp_bind, wp_mod_s.
  apply wp_bind, wp_enable_read. intros r' st2. rewrite !upd_upd. intros Hq.
  assert (Hq2 : quiet (upd i (newsock id protocol) st) st2).
  { etransitivity; [|exact Hq]. apply quiet_upd_cong; [done| |done]. unfold view in *. cbn. congruence. }
  destruct (negb _); [|by apply wp_ret, Hsome].
  apply wp_bind, wp_mod_s, wp_ret.
  eapply (Hnone (λ s, set_type SOCKET_TYPE_INVALID (newsock id protocol s))); [by right|].
  rewrite <-(upd_upd i (newsock id protocol)). apply quiet_upd_cong; [done| |].
  - pose proof (q_view _ _ Hq2 i). unfold view in *. cbn. congruence.
  - apply (q_lock _ _ Hq2 i).
Qed.
End new_fd.

Lemma slot_ok_freed h reqs top i id protocol f s :
  slot_ok h reqs top i s → s_type s = SOCKET_TYPE_RESERVE → s_id s = id →
  protocol ∈ [PROTOCOL_TCP; PROTOCOL_UDP; PROTOCOL_UDPv6] → freed_sock id protocol f →
  slot_ok h reqs top i (f s).
Proof.
  intros [H1 H2 H3 H4 H5 H6 H7 H8] Ht Hid Hp Hf. destruct (H6 Ht) as (Hb & Hu & Hs).
  destruct Hf as [Hf|Hf]; rewrite Hf; split; cbn; try done; try lia.
  - by intros [].
  - by rewrite <-Hid.
  - intros _. unfold slot_bufs in *. cbn. destruct (s_dw_buffer s); [done|exact Hb].
  - by intros [].
  - intros _. rewrite <-Hid, Hs, Z.lor_0_r, Z.shiftl_mul_pow2 by lia. by rewrite Z.add_0_r.
Qed.

Lemma slot_ok_newsock h reqs top i t s :
  slot_ok h reqs top i s → s_type s = SOCKET_TYPE_RESERVE → 2 ≤ t ≤ SOCKET_TYPE_BIND →
  slot_ok h reqs top i (set_type t (newsock (s_id s) PROTOCOL_TCP s)).
Proof.
  intros [H1 H2 H3 H4 H5 H6 H7 H8] Ht Hr. destruct (H6 Ht) as (Hb & Hu & Hs).
  assert (Hi : s_id s ≠ 0) by (apply H4; by rewrite Ht).
  unfold slot_bufs in Hb. destruct (s_dw_buffer s); [done|].
  assert (s_high s = [] ∧ s_low s = []) as [Hhi Hlo] by (destruct (s_high s), (s_low s); done).
  unfold SOCKET_TYPE_BIND in *.
  split; cbn; unfold SOCKET_TYPE_INVALID, SOCKET_TYPE_RESERVE, SOCKET_TYPE_BIND in *; try lia; try done.
  - intros _. left. split; [done|]. split; cbn.
    + exists MIN_READ_BUFFER. split; [done|]. unfold MIN_READ_BUFFER, INT_MAX. lia.
    + by rewrite Hhi, Hlo.
    + by rewrite Hhi, Hlo.
    + done.
  - intros _. rewrite Hs, Z.lor_0_r, Z.shiftl_mul_pow2 by lia. by rewrite Z.add_0_r.
Qed.

Lemma slot_ok_newudp h reqs top i protocol s :
  slot_ok h reqs top i s → s_type s = SOCKET_TYPE_RESERVE →
  protocol ∈ [PROTOCOL_UDP; PROTOCOL_UDPv6] →
  slot_ok h reqs top i (set_p (PAddress (replicate (Z.to_nat UDP_ADDRESS_SIZE) 0))
    (set_type SOCKET_TYPE_CONNECTED (newsock (s_id s) protocol s))).
Proof.
  intros [H1 H2 H3 H4 H5 H6 H7 H8] Ht Hp. destruct (H6 Ht) as (Hb & Hu & Hs).
  assert (Hi : s_id s ≠ 0) by (apply H4; by rewrite Ht).
  unfold slot_bufs in Hb. destruct (s_dw_buffer s); [done|].
  assert (s_high s = [] ∧ s_low s = []) as [Hhi Hlo] by (destruct (s_high s), (s_low s); done).
  assert (u8 protocol = protocol ∧ protocol ≠ PROTOCOL_TCP) as [Hu8 Hne] by set_solver.
  split; cbn; try rewrite Hu8; try done.
  intros _. right. split; cbn.
  - rewrite Hu8. set_solver.
  - by eexists.
  - done.
  - unfold slot_bufs. cbn. by rewrite Hhi, Hlo.
Qed.

(** The slot of a request that makes a socket. *)
Lemma creates_slot r id held st :
  ok None None [r] held st → creates r = Some id → req_ok (n_heap st) (n_alloc_id st) r →
  let s := slot_at (HASH_ID id) st in
  s_type s = SOCKET_TYPE_RESERVE ∧ s_id s = id ∧ slot_bufs s = [] ∧ id ≠ 0 ∧
  slot_ok (n_heap st) (n_pipe st) (n_alloc_id st) (HASH_ID id) s.
Proof.
  intros Hok Hc Hr s. destruct (ok_creates _ _ _ _ _ Hok id) as [Ht Hi].
  { cbn. rewrite Hc. by left. }
  pose proof (ok_slot _ _ _ _ _ Hok (HASH_ID id)) as Hs. split_and!; try done.
  - by apply (so_reserve _ _ _ _ _ Hs).
  - destruct r; try done; cbn in *; simplify_eq; lia.
  - eapply slot_ok_reqs; [|exact Hs]. change ([r] ++ n_pipe st) with (r :: n_pipe st).
    destruct r; try done.
Qed.

(** The request is done, or has failed. *)
Lemma ok_freed r id protocol f held st :
  ok None None [r] held st → creates r = Some id → req_ok (n_heap st) (n_alloc_id st) r →
  protocol ∈ [PROTOCOL_TCP; PROTOCOL_UDP; PROTOCOL_UDPv6] → freed_sock id protocol f →
  ok None None [] held (upd (HASH_ID id) f st).
Proof.
  intros Hok Hc Hr Hp Hf. destruct (creates_slot _ _ _ _ Hok Hc Hr) as (Ht & Hi & Hb & H0 & Hs).
  eapply ok_created; [exact Hok|exact Hc|done|done|done| | | | | |].
  - by eapply slot_ok_freed.
  - destruct Hf as [Hf|Hf]; rewrite Hf; [done|]. unfold slot_bufs in *. cbn. by destruct (s_dw_buffer _).
  - by destruct Hf as [Hf|Hf]; rewrite Hf.
  - by destruct Hf as [Hf|Hf]; rewrite Hf.
  - by destruct Hf as [Hf|Hf]; rewrite Hf.
  - by destruct Hf as [Hf|Hf]; rewrite Hf.
Qed.

Lemma ok_new_tcp r id t held st :
  ok None None [r] held st → creates r = Some id → req_ok (n_heap st) (n_alloc_id st) r →
  2 ≤ t ≤ SOCKET_TYPE_BIND →
  ok None None [] held (upd (HASH_ID id) (λ s, set_type t (newsock id PROTOCOL_TCP s)) st).
Proof.
  intros Hok Hc Hr Ht. destruct (creates_slot _ _ _ _ Hok Hc Hr) as (Hrs & Hi & Hb & H0 & Hs).
  eapply ok_created; [exact Hok|exact Hc|done|done|done| | |done|done| |done].
  - pose proof (slot_ok_newsock _ _ _ _ _ _ Hs Hrs Ht) as Hn. by rewrite Hi in Hn.
  - unfold slot_bufs in *. cbn. by destruct (s_dw_buffer _).
  - cbn. unfold SOCKET_TYPE_RESERVE. lia.
Qed.

Lemma ok_new_udp r id protocol held st :
  ok None None [r] held st → creates r = Some id → req_ok (n_heap st) (n_alloc_id st) r →
  protocol ∈ [PROTOCOL_UDP; PROTOCOL_UDPv6] →
  ok None None [] held (upd (HASH_ID id) (λ s, set_p (PAddress (replicate (Z.to_nat UDP_ADDRESS_SIZE) 0))
    (set_type SOCKET_TYPE_CONNECTED (newsock id protocol s))) st).
Proof.
  intros Hok Hc Hr Hp. destruct (creates_slot _ _ _ _ Hok Hc Hr) as (Hrs & Hi & Hb & H0 & Hs).
  eapply ok_created; [exact Hok|exact Hc|done|done|done| | |done|done|done|done].
  - pose proof (slot_ok_newudp _ _ _ _ _ _ Hs Hrs Hp) as Hn. by rewrite Hi in Hn.
  - unfold slot_bufs in *. cbn. by destruct (s_dw_buffer _).
Qed.

Section makers.
Context {Kern : Kernel}.
Implicit Types (st : net) (Q : Z → net → Prop).

Lemma quiet_set_type i f t st st' :
  quiet (upd i f st) st' → quiet (upd i (λ s, set_type t (f s)) st) (upd i (set_type t) st').
Proof.
  intros Hq. rewrite <-(upd_upd i f (set_type t)). apply quiet_upd_cong; [done| |].
  - pose proof (q_view _ _ Hq i). unfold view in *. cbn. congruence.
  - apply (q_lock _ _ Hq i).
Qed.

Lemma freed_again id protocol f :
  freed_sock id protocol f → freed_sock id protocol (λ s, set_type SOCKET_TYPE_INVALID (f s)).
Proof. intros [Hf|Hf]; [left|right]; intros s; rewrite Hf; [by destruct s|]. by destruct (newsock _ _ s). Qed.

Lemma wp_bind_socket id fd opaque held Q st :
  let r := RBind id fd opaque in
  ok None None [r] held st → req_ok (n_heap st) (n_alloc_id st) r →
  (∀ v st', ok None None [] held st' → Q v st') → wp (bind_socket id fd opaque) Q st.
Proof.
  intros r Hok Hr HQ. unfold bind_socket. apply wp_bind, wp_set_result. intros st1 Hc.
  eapply ok_core in Hok; [|exact Hc]. rewrite (core_heap _ _ Hc), (core_top _ _ Hc) in Hr. clear Hc st.
  destruct (creates_slot _ _ _ _ Hok eq_refl Hr) as (Ht & _ & Hb & _).
  apply wp_bind, wp_new_fd; [done|done| |].
  - intros f st2 Hf Hq. apply wp_bind, wp_result_data. intros st3 Hc. apply wp_ret, HQ.
    eapply ok_core; [exact Hc|]. eapply ok_quiet; [exact Hq|].
    eapply ok_freed; [exact Hok|done|done| |done]. set_solver.
  - intros st2 Hq. apply wp_bind, wp_sp_nonblocking. intros st3 Hc. apply wp_bind, wp_mod_s.
    apply wp_bind, wp_result_data. intros st4 Hc'. apply wp_ret, HQ. eapply ok_core; [exact Hc'|].
    eapply ok_quiet; [apply quiet_set_type; etransitivity; [exact Hq|by apply quiet_core]|].
    eapply ok_new_tcp; [exact Hok|done|done|]. unfold SOCKET_TYPE_BIND. lia.
Qed.

Lemma wp_listen_socket id fd opaque held Q st :
  let r := RListen id fd opaque in
  ok None None [r] held st → req_ok (n_heap st) (n_alloc_id st) r →
  (∀ v st', ok None None [] held st' → Q v st') → wp (listen_socket id fd opaque) Q st.
Proof.
  intros r Hok Hr HQ. unfold listen_socket.
  destruct (creates_slot _ _ _ _ Hok eq_refl Hr) as (Ht & _ & Hb & _).
  apply wp_bind, wp_new_fd; [done|done| |].
  - intros f st2 Hf Hq. apply wp_bind, wp_sys. intros ? st3 Hc _. apply wp_bind, wp_set_result.
    intros st4 Hc4. apply wp_bind, wp_mod_s, wp_ret, HQ.
    eapply ok_quiet; [apply quiet_set_type; etransitivity; [exact Hq|]|].
    { etransitivity; by apply quiet_core. }
    eapply ok_freed; [exact Hok|done|done| |by apply freed_again]. set_solver.
  - intros st2 Hq. apply wp_bind, wp_mod_s.
    eapply (ok_new_tcp _ _ SOCKET_TYPE_PLISTEN) in Hok; [|done|done|done].
    eapply ok_quiet in Hok; [|by apply quiet_set_type]. clear Hr Ht Hb Hq.
    revert Hok. generalize (upd (HASH_ID id) (set_type SOCKET_TYPE_PLISTEN) st2). clear st st2.
    intros st1 Hok. apply wp_bind, wp_set_result. intros st2 Hc2. apply wp_bind, wp_sys_sum.
    intros st3 Hc3. eapply ok_core in Hok; [|exact Hc2]. eapply ok_core in Hok; [|exact Hc3]. clear Hc2 Hc3.
    destruct (match answer _ _ with inl _ => None | inr _ => _ end) as [u|].
    + destruct (inet_ntop u).
      * apply wp_bind, wp_set_result. intros st4 Hc. apply wp_ret, HQ. by eapply ok_core.
      * apply wp_bind, wp_get_errno, wp_bind, wp_result_data. intros st4 Hc.
        apply wp_ret, HQ. by eapply ok_core.
    + apply wp_bind, wp_get_errno, wp_bind, wp_result_data. intros st4 Hc.
      apply wp_ret, HQ. by eapply ok_core.
Qed.

Lemma wp_add_udp_socket id fd family opaque held (Q : unit → net → Prop) st :
  let r := RUdp id fd family opaque in
  ok None None [r] held st → req_ok (n_heap st) (n_alloc_id st) r →
  (∀ st', ok None None [] held st' → Q tt st') → wp (add_udp_socket id fd family opaque) Q st.
Proof.
  intros r Hok Hr HQ. unfold add_udp_socket.
  assert (Hp : (if family =? AF_INET6 then PROTOCOL_UDPv6 else PROTOCOL_UDP) ∈ [PROTOCOL_UDP; PROTOCOL_UDPv6]).
  { destruct (_ =? _); set_solver. }
  revert Hp. generalize (if family =? AF_INET6 then PROTOCOL_UDPv6 else PROTOCOL_UDP).
  intros protocol Hp. destruct (creates_slot _ _ _ _ Hok eq_refl Hr) as (Ht & _ & Hb & _).
  apply wp_bind, wp_new_fd; [done|done| |].
  - intros f st2 Hf Hq. apply wp_bind, wp_sys. intros ? st3 Hc _. apply wp_mod_s, HQ.
    eapply ok_quiet; [apply quiet_set_type; etransitivity; [exact Hq|by apply quiet_core]|].
    eapply ok_freed; [exact Hok|done|done| |by apply freed_again]. set_solver.
  - intros st2 Hq. apply wp_bind, wp_mod_s, wp_mod_s, HQ.
    eapply ok_quiet; [|eapply ok_new_udp; [exact Hok|done|done|exact Hp]].
    rewrite upd_upd. rewrite <-(upd_upd _ (newsock id protocol) (λ s, set_p (PAddress (replicate (Z.to_nat UDP_ADDRESS_SIZE) 0)) (set_type SOCKET_TYPE_CONNECTED s))).
    pose proof (q_view _ _ Hq (HASH_ID id)). apply quiet_upd_cong; [done| |apply (q_lock _ _ Hq)].
    unfold view in *. cbn in *. congruence.
Qed.
End makers.

Section open.
Context {Kern : Kernel}.
Implicit Types (st : net).

Lemma wp_connect_turn l sock status (Q : Z * Z * option addrinfo → net → Prop) st :
  sock < 0 →
  (∀ sock status ai st', core st = core st' → (ai = None → sock < 0) → Q (sock, status, ai) st') →
  wp (connect_turn l sock status) Q st.
Proof.
  revert sock status st. induction l as [|ai l IH]; intros sock status st Hs HQ; cbn [connect_turn].
  { by apply wp_ret, HQ. }
  apply wp_bind, wp_sys. intros fd st1 Hc1 _. destruct (Z.ltb_spec fd 0).
  { apply IH; [done|]. intros. apply HQ; [|done]. congruence. }
  apply wp_bind, wp_keepalive. intros st2 Hc2. apply wp_bind, wp_sp_nonblocking. intros st3 Hc3.
  apply wp_bind, wp_sys. intros r st4 Hc4 _. apply wp_bind, wp_get_errno. destruct (_ && _).
  - apply wp_bind, wp_sys. intros ? st5 Hc5 _. apply IH; [done|]. intros. apply HQ; [congruence|done].
  - apply wp_ret, HQ; [congruence|done].
Qed.

Lemma wp_open_failed r id protocol f sock held (Q : Z → net → Prop) st st' :
  ok None None [r] held st → creates r = Some id → req_ok (n_heap st) (n_alloc_id st) r →
  protocol ∈ [PROTOCOL_TCP; PROTOCOL_UDP; PROTOCOL_UDPv6] →
  freed_sock id protocol (λ s, set_type SOCKET_TYPE_INVALID (f s)) →
  quiet (upd (HASH_ID id) f st) st' →
  (∀ v st'', ok None None [] held st'' → Q v st'') → wp (open_failed id sock) Q st'.
Proof.
  intros Hok Hc Hr Hp Hf Hq HQ. unfold open_failed. apply wp_bind.
  eapply (wp_mono _ (λ _ st2, core st' = core st2)).
  { destruct (0 <=? sock); [apply wp_bind, wp_sys; intros; by apply wp_ret|by apply wp_ret]. }
  intros _ st2 Hc2. apply wp_bind, wp_mod_s, wp_ret, HQ.
  eapply ok_quiet; [apply quiet_set_type; etransitivity; [exact Hq|by apply quiet_core]|].
  by eapply ok_freed.
Qed.

Lemma wp_open_socket id port opaque host held (Q : Z → net → Prop) st :
  let r := ROpen id port opaque host in
  ok None None [r] held st → req_ok (n_heap st) (n_alloc_id st) r →
  (∀ v st', ok None None [] held st' → Q v st') → wp (open_socket id port opaque host) Q st.
Proof.
  intros r Hok Hr HQ. unfold open_socket. apply wp_bind, wp_set_result. intros st1 Hc1.
  apply wp_bind, wp_call. intros st2 Hc2.
  assert (Hc : core st = core st2) by congruence. eapply ok_core in Hok; [|exact Hc].
  rewrite (core_heap _ _ Hc), (core_top _ _ Hc) in Hr. generalize dependent (answer (n_history st1)
    (SGetaddrinfo host (decimal port) SOCK_STREAM IPPROTO_TCP)). clear Hc Hc1 Hc2 st1 st.
  intros ai. destruct (creates_slot _ _ _ _ Hok eq_refl Hr) as (Ht & _ & Hb & _).
  assert (Hearly : ∀ st3 sock, core st2 = core st3 → wp (open_failed id sock) Q st3).
  { intros st3 sock Hc3. unfold open_failed. apply wp_bind.
    eapply (wp_mono _ (λ _ st4, core st2 = core st4)).
    { destruct (0 <=? sock); [apply wp_bind, wp_sys; intros; apply wp_ret; congruence|by apply wp_ret]. }
    intros _ st4 Hc4. apply wp_bind, wp_mod_s, wp_ret, HQ.
    eapply ok_core; [by apply core_upd|]. eapply (ok_freed _ _ PROTOCOL_TCP); [done|done|done|set_solver|by left]. }
  destruct ai as [e|[ai l]].
  { apply wp_bind, wp_result_data. intros st3 Hc3. by apply Hearly. }
  apply wp_bind, wp_connect_turn; [done|]. intros sock status ai_ptr st3 Hc3 Hai.
  destruct (Z.ltb_spec sock 0) as [Hlt|Hge].
  { apply wp_bind, wp_get_errno, wp_bind, wp_result_data. intros st4 Hc4. apply Hearly. congruence. }
  clear Hearly. eapply ok_core in Hok; [|exact Hc3]. rewrite (core_heap _ _ Hc3), (core_top _ _ Hc3) in Hr.
  rewrite (core_slot_at _ _ _ Hc3) in Ht, Hb. clear Hc3 st2.
  apply wp_bind, wp_new_fd; [done|done| |].
  - intros f st4 Hf Hq. apply wp_bind, wp_result_data. intros st5 Hc.
    eapply wp_open_failed; [exact Hok|done|done| |by apply freed_again| |done]; [set_solver|].
    etransitivity; [exact Hq|by apply quiet_core].
  - intros st4 Hq. destruct (status =? 0).
    + apply wp_bind, wp_mod_s. eapply quiet_set_type in Hq.
      eapply (ok_new_tcp _ _ SOCKET_TYPE_CONNECTED) in Hok; [|done|done|done].
      eapply ok_quiet in Hok; [|exact Hq]. destruct ai_ptr as [ap|]; [|specialize (Hai eq_refl); lia].
      apply wp_bind, (wp_lift _ ap); [done|].
      apply wp_bind. eapply (wp_mono _ (λ _ st5, ok None None [] held st5)).
      { destruct (inet_ntop _); [|by apply wp_ret]. apply wp_result_data. intros st5 Hc. by eapply ok_core. }
      intros _ st5 Hok5. by apply wp_ret, HQ.
    + apply wp_bind, wp_enable_write. intros v st5 Hq5. assert (Hq' := transitivity Hq Hq5). clear Hq Hq5 st4.
      destruct (negb _).
      * apply wp_bind, wp_result_data. intros st6 Hc.
        eapply (wp_open_failed _ _ PROTOCOL_TCP); [exact Hok|done|done|set_solver|by right| |done].
        etransitivity; [exact Hq'|by apply quiet_core].
      * apply wp_bind, wp_mod_s, wp_ret, HQ. eapply ok_quiet; [by apply quiet_set_type|].
        eapply ok_new_tcp; [exact Hok|done|done|done].
Qed.
End open.

(** ** Write buffers *)

Lemma i64_i64_add a b : i64 (i64 a + b) = i64 (a + b).
Proof.
  unfold i64. f_equal. replace ((a + 2 ^ 63) `mod` 2 ^ 64 - 2 ^ 63 + b + 2 ^ 63)
    with ((a + 2 ^ 63) `mod` 2 ^ 64 + b) by lia.
  rewrite Zplus_mod_idemp_l. f_equal. lia.
Qed.

Lemma total_app l l' : total (l ++ l') = total l + total l'.
Proof. induction l as [|wb l IH]; cbn; [done|]. change (foldr _ 0 (l ++ l')) with (total (l ++ l')). unfold total in *. lia. Qed.

Definition other_fields_same (s s' : socket) : Prop :=
  s_type s' = s_type s ∧ s_id s' = s_id s ∧ s_protocol s' = s_protocol s ∧ s_p s' = s_p s ∧
  s_sending s' = s_sending s.

(** The lists of a TCP socket change, and its direct write. *)
Lemma slot_ok_bufs h reqs top i s s' :
  slot_ok h reqs top i s → is_live s → s_protocol s = PROTOCOL_TCP → other_fields_same s s' →
  s_wb_size s' = i64 (total (s_high s') + total (s_low s')) →
  Forall (wb_ok h) (s_high s' ++ s_low s') →
  (∀ p, s_dw_buffer s' = Some p →
    block_ok h p (s_dw_size s') ∧ 0 ≤ s_dw_offset s' ≤ s_dw_size s') →
  slot_ok h reqs top i s'.
Proof.
  intros [H1 H2 H3 H4 H5 H6 H7 H8] Hl Hp (E1 & E2 & E3 & E4 & E5) Hw Hf Hd.
  split; rewrite ?E1, ?E2, ?E3, ?E5; try done.
  - intros Ht. by destruct Hl.
  - intros Ht. by destruct Hl.
  - intros _. left. split; [congruence|]. destruct (H7 Hl) as [[_ [T1 T2 T3 T5]]|[U1 _ _ _]].
    + split; try done. by rewrite E4.
    + rewrite Hp in U1. by destruct U1.
Qed.

Lemma live_tcp L B cur held i st :
  ok L B cur held st → is_live (slot_at i st) → s_protocol (slot_at i st) = PROTOCOL_TCP →
  tcp_ok (n_heap st) (slot_at i st).
Proof.
  intros Hok Hl Hp. destruct (so_live _ _ _ _ _ (ok_slot _ _ _ _ _ Hok i) Hl) as [[_ T]|[U1 _ _ _]]; [done|].
  rewrite Hp in U1. by destruct U1.
Qed.

Lemma live_udp L B cur held i st :
  ok L B cur held st → is_live (slot_at i st) → s_protocol (slot_at i st) ≠ PROTOCOL_TCP →
  udp_sock_ok (slot_at i st).
Proof.
  intros Hok Hl Hp. by destruct (so_live _ _ _ _ _ (ok_slot _ _ _ _ _ Hok i) Hl) as [[? _]|U].
Qed.

(** A message is put at the end of a list. *)
Definition appended (hi : bool) (p : addr) (sz : Z) (s : socket) : socket :=
  set_wb_size (i64 (s_wb_size s + sz)) (set_wl hi (wl_of hi s ++ [MkWb p 0 sz false []]) s).

Lemma ok_appended L B cur held hi p sz i st :
  ok L B cur (p :: held) st → is_live (slot_at i st) → s_protocol (slot_at i st) = PROTOCOL_TCP →
  block_ok (n_heap st) p sz → ok L B cur held (upd i (appended hi p sz) st).
Proof.
  intros Hok Hl Hp Hb. pose proof (live_tcp _ _ _ _ _ _ Hok Hl Hp) as [T1 T2 T3 T5].
  assert (Hw : wb_ok (n_heap st) (MkWb p 0 sz false [])).
  { destruct Hb as (bs & Hbs & Hz & Hle). pose proof (zlen_nonneg bs).
    split_and!; cbn; [lia|lia|done|]. exists bs. cbn. split_and!; [done|lia|lia]. }
  apply Forall_app in T3 as [T3 T3']. eapply ok_upd; [exact Hok| | |by destruct hi|by destruct hi|by destruct hi|].
  - eapply slot_ok_bufs; [apply Hok|done|done| | | |].
    + by destruct hi.
    + unfold appended. rewrite T2. cbn. rewrite i64_i64_add. f_equal.
      destruct hi; cbn [appended set_wb_size set_wl set_high set_low wl_of s_high s_low];
        rewrite total_app; unfold total; cbn; lia.
    + unfold appended. rewrite Forall_app. destruct hi; cbn; rewrite Forall_app; auto.
    + by destruct hi.
  - unfold slot_bufs, appended. destruct hi; cbn; rewrite fmap_app; cbn; solve_Permutation.
  - intros HL. pose proof (ok_low _ _ _ _ _ Hok i HL) as Hw'. unfold whole in *.
    destruct hi; cbn; [done|]. rewrite Forall_app. auto.
Qed.

Section send_socket.
Context {Kern : Kernel}.
Implicit Types (st : net).

Lemma wp_send_object_init p sz (Q : send_object * bool → net → Prop) st :
  sz ≤ INT_MAX → Q (MkObject p sz true, false) st → wp (send_object_init p sz) Q st.
Proof.
  intros Hz HQ. unfold send_object_init. replace (sz =? USEROBJECT) with false; [by apply wp_ret|].
  unfold INT_MAX, USEROBJECT in *. lia.
Qed.

Lemma wp_append i hi p sz (Q : unit → net → Prop) st :
  sz ≤ INT_MAX → Q tt (upd i (appended hi p sz) st) →
  wp (if hi then append_sendbuffer i p sz else append_sendbuffer_low i p sz) Q st.
Proof.
  intros Hz HQ. assert (E : ∀ l, wp (append_sendbuffer_ l p sz)
    (λ a st', a = (MkWb p 0 sz false [], l ++ [MkWb p 0 sz false []]) ∧ st' = st) st).
  { intros l. unfold append_sendbuffer_. apply wp_bind, wp_send_object_init; [done|]. by apply wp_ret. }
  destruct hi; [unfold append_sendbuffer|unfold append_sendbuffer_low];
    (apply wp_bind, wp_get_s, wp_bind; eapply wp_mono; [apply E|]; intros a st' [-> ->]; cbn;
     apply wp_bind, wp_mod_s, wp_mod_s; by rewrite upd_upd).
Qed.

Lemma wp_warn_turn i Q st : (∀ r st', quiet st st' → Q r st') → wp (warn_turn i) Q st.
Proof.
  intros HQ. unfold warn_turn. apply wp_bind, wp_get_s. destruct (_ && _); [|by apply wp_ret, HQ].
  apply wp_bind, wp_mod_quiet; [done|done|]. intros st1 Hq _. apply wp_bind, wp_set_result.
  intros st2 Hc. apply wp_ret, HQ. etransitivity; [exact Hq|by apply quiet_core].
Qed.
End send_socket.

(** ** What the kernel is trusted for *)

(** The next [k] calls of [write] with these arguments are all interrupted. *)
Fixpoint interrupted {Kern : Kernel} (k : nat) (h : list entry) (fd : Z) (bs : list Z) : bool :=
  match k with
  | O => true
  | S k' =>
      let a := answer h (SWrite fd bs) in
      (a =? - EINTR) && interrupted k' (h ++ [Entry (SWrite fd bs) a]) fd bs
  end.

(** [write] and [read] do not exceed what they are given, [write] is not interrupted
    for ever, a [read] gets less than 2^30 bytes at once, and addresses have the size
    of their family. *)
Class KernelLaws {Kern : Kernel} (fuel : nat) : Prop := {
  law_write h fd bs : answer h (SWrite fd bs) ≤ zlen bs;
  law_intr h fd bs : interrupted fuel h fd bs = false;
  law_read h fd sz bs : answer h (SRead fd sz) = inr bs → zlen bs ≤ sz ∧ zlen bs < 2 ^ 30;
  law_addrinfo h host port t p ai l :
    answer h (SGetaddrinfo host port t p) = inr (ai, l) →
    length (sa_port (ai_addr ai)) = 2%nat ∧
    (ai_family ai = AF_INET → length (sa_addr (ai_addr ai)) = 4%nat) ∧
    (ai_family ai = AF_INET6 → length (sa_addr (ai_addr ai)) = 16%nat)
}.

(** The kernel does not refuse the datagram that the socket [i] would send now. This
    is not a law: [sendto] may fail, and what the code does then is the subject of
    [datagram_refused] in [SocketProps]. *)
Definition datagram_taken {Kern : Kernel} (i : Z) (st : net) : Prop :=
  s_protocol (slot_at i st) ≠ PROTOCOL_TCP →
  ∀ bs sa, answer (n_history st) (SSendto (s_fd (slot_at i st)) bs sa) = zlen bs.

(** The socket for which this request sends. *)
Definition sends_for (r : request) : option Z :=
  match r with RSend id _ _ | RSendLow id _ _ | RSendUdp id _ _ _ => Some id | _ => None end.

(** ... or that the next request would send. *)
Definition request_taken {Kern : Kernel} (st : net) : Prop :=
  ∀ r p id, n_pipe st = r :: p → sends_for r = Some id → datagram_taken (HASH_ID id) st.

Lemma udp_address_total protocol a :
  udp_ok a ∨ zlen a = UDP_ADDRESS_SIZE → ∃ o, udp_socket_address protocol a = Ret o.
Proof.
  intros Ha. unfold udp_socket_address.
  assert (Hlen : 0 < zlen a).
  { destruct Ha as [(t & rest & n & -> & _ & _)| ->]; [|done].
    rewrite zlen_cons. pose proof (zlen_nonneg rest). lia. }
  destruct (aget_in a 0 ltac:(lia)) as (t & -> & Ht). cbn [mbind outcome_mbind].
  destruct (Z.eqb_spec t protocol) as [->|]; [|by eexists]. cbn [negb].
  assert (H : 3 ≤ zlen a ∧ (protocol = PROTOCOL_UDP → 7 ≤ zlen a) ∧ (protocol = PROTOCOL_UDPv6 → 19 ≤ zlen a)).
  { destruct Ha as [(t & rest & n & -> & Hn & Hle)| ->]; [|done].
    cbn in Ht. injection Ht as ->. unfold udp_addrsz in Hn.
    revert Hn. destruct (Z.eqb_spec protocol PROTOCOL_UDP); [|destruct (Z.eqb_spec protocol PROTOCOL_UDPv6)];
      intros Hn; simplify_eq; unfold PROTOCOL_UDP, PROTOCOL_UDPv6 in *; lia. }
  destruct H as (H3 & H7 & H19). rewrite (mread_in a 1 2) by lia. cbn [mbind outcome_mbind].
  destruct (Z.eqb_spec protocol PROTOCOL_UDP) as [E|].
  { rewrite (mread_in a 3 4) by (specialize (H7 E); lia). by eexists. }
  destruct (Z.eqb_spec protocol PROTOCOL_UDPv6) as [E|]; [|by eexists].
  rewrite (mread_in a 3 16) by (specialize (H19 E); lia). by eexists.
Qed.

Section send_socket.
Context {Kern : Kernel} {fuel : nat} {Laws : KernelLaws fuel}.
Implicit Types (st : net).

Lemma wp_hread_block p sz (Q : list Z → net → Prop) st :
  block_ok (n_heap st) p sz → (∀ bs, zlen bs = sz → Q bs st) → wp (hread p 0 sz) Q st.
Proof.
  intros (bs & Hbs & <- & _) HQ. pose proof (zlen_nonneg bs).
  eapply wp_hread; [exact Hbs|lia|lia|lia|]. rewrite drop_0, firstn_all2 by (unfold zlen; lia). by apply HQ.
Qed.

Lemma wp_datagram fd bs sa st (Q : Z → net → Prop) :
  answer (n_history st) (SSendto fd bs sa) = zlen bs →
  (∀ st', core st = core st' → Q (zlen bs) st') → wp (sys (SSendto fd bs sa)) Q st.
Proof.
  intros Ht HQ. apply wp_sys. intros r st' Hc Hr. unfold sys_result in Hr.
  rewrite Ht in Hr. pose proof (zlen_nonneg bs).
  destruct Hr as [[? _]|[_ ->]]; [lia|by apply HQ].
Qed.

Lemma wp_send_udp L B cur held i priority p sz a (Q : bool → net → Prop) st :
  ok L B cur (p :: held) st → is_live (slot_at i st) → s_protocol (slot_at i st) ≠ PROTOCOL_TCP →
  block_ok (n_heap st) p sz → (∀ a', a = Some a' → udp_ok a') → datagram_taken i st →
  (∀ st', ok L B cur held st' → Q true st') →
  wp (send_udp i priority (MkObject p sz true) p sz a) Q st.
Proof.
  intros Hok Hl Hp Hb Ha Hd HQ. pose proof (live_udp _ _ _ _ _ _ Hok Hl Hp) as [U1 (old & U2 & U3) U4 U5].
  unfold send_udp. apply wp_bind, wp_get_s.
  assert (Hread : ∃ a', (match a with Some a => Ret a | None => p_udp_address (slot_at i st) end) = Ret a' ∧
    (udp_ok a' ∨ zlen a' = UDP_ADDRESS_SIZE)).
  { destruct a as [a'|]; [exists a'; auto|]. exists old. unfold p_udp_address. rewrite U2. auto. }
  destruct Hread as (a' & Ha' & Hao). apply wp_bind, (wp_lift _ a'); [done|].
  destruct (udp_address_total (s_protocol (slot_at i st)) a' Hao) as [o Ho].
  apply wp_bind, (wp_lift _ o); [done|].
  assert (Hfree : ∀ st', ok L B cur (p :: held) st' →
    wp (free_func (MkObject p sz true) p;; mret true) Q st').
  { intros st' Hok'. apply wp_bind. cbn. eapply wp_hfree_held; [exact Hok'|]. intros. by apply wp_ret, HQ. }
  destruct o as [sa|]; [|by apply Hfree].
  apply wp_bind, (wp_hread_block _ sz); [done|]. intros bs Hbs.
  apply wp_bind, wp_datagram; [by apply Hd|]. intros st1 Hc. cbn [so_sz]. rewrite Hbs, Z.eqb_refl. cbn [negb].
  apply wp_bind, wp_stat_write. intros st2 Hq. apply Hfree. eapply ok_quiet; [exact Hq|]. by eapply ok_core.
Qed.

Lemma wp_send_socket r id p sz priority a held (Q : Z → net → Prop) st :
  ok None None [r] (p :: held) st → targets r = Some id → block_ok (n_heap st) p sz →
  (∀ a', a = Some a' → udp_ok a') → datagram_taken (HASH_ID id) st →
  (∀ v st', ok None None [r] held st' → Q v st') → wp (send_socket id p sz priority a) Q st.
Proof.
  intros Hok Ht Hb Ha Hdt HQ. assert (Hz : sz ≤ INT_MAX) by (by destruct Hb as (? & ? & ? & ?)).
  unfold send_socket. apply wp_bind, wp_get_s. apply wp_bind, wp_send_object_init; [done|].
  assert (Hfree : wp (free_func (MkObject p sz true) p;; mret (-1)) Q st).
  { apply wp_bind. cbn. eapply wp_hfree_held; [exact Hok|]. intros. by apply wp_ret, HQ. }
  set (i := HASH_ID id). wp_case Hdrop; [done|]. wp_case Hlisten; [done|]. clear Hfree Hlisten.
  assert (Hv : socket_invalid (slot_at i st) id = false).
  { unfold socket_invalid. rewrite !orb_false_iff in Hdrop. by destruct Hdrop as [[[[-> ->] _] _] _]. }
  destruct (target_live _ id _ _ Hok Ht Hv) as [Hl _]. fold i in Hl. clear Hdrop Hv.
  assert (Hwarn : ∀ st', ok None None [r] held st' → wp (warn_turn i) Q st').
  { intros st' Hok'. apply wp_warn_turn. intros v st2 Hq. apply HQ. by eapply ok_quiet. }
  assert (Hen : ∀ st', ok None None [r] held st' → wp (r ← enable_write i true;
     if negb (r =? 0) then report_error i (DText "enable write failed") else warn_turn i) Q st').
  { intros st' Hok'. apply wp_bind, wp_enable_write. intros v st2 Hq. eapply ok_quiet in Hok'; [|exact Hq].
    eapply wp_checked; [done|done|]. by apply Hwarn. }
  destruct (send_buffer_empty _) eqn:He.
  - destruct (Z.eqb_spec (s_protocol (slot_at i st)) PROTOCOL_TCP) as [Hp|Hp].
    + apply wp_bind, wp_bind, (wp_append i true); [done|]. apply wp_ret, Hen. by apply ok_appended.
    + apply wp_bind. eapply wp_send_udp; [exact Hok|done|done|done|done|done|]. intros st' Hok'. by apply wp_ret, HQ.
  - destruct (Z.eqb_spec (s_protocol (slot_at i st)) PROTOCOL_TCP) as [Hp|Hp].
    + apply wp_bind. replace (if priority =? PRIORITY_LOW then _ else _)
        with (if negb (priority =? PRIORITY_LOW) then append_sendbuffer i p sz else append_sendbuffer_low i p sz)
        by (by destruct (priority =? PRIORITY_LOW)).
      apply wp_append; [done|]. apply Hwarn. by apply ok_appended.
    + pose proof (live_udp _ _ _ _ _ _ Hok Hl Hp) as [_ _ _ U].
      unfold send_buffer_empty in He. by destruct (no_bufs _ U) as (_ & Eh & El); rewrite Eh, El in He.
Qed.
End send_socket.

(** ** The count of the messages to send *)

(** Only [s_sending] changes. *)
Definition recounted (st st' : net) : Prop :=
  (∀ j, ∃ v, slot_at j st' = set_sending v (slot_at j st)) ∧
  slots_bufs (n_slot st') ≡ₚ slots_bufs (n_slot st) ∧
  (n_pipe st', n_heap st', n_alloc_id st', ev_view st') = (n_pipe st, n_heap st, n_alloc_id st, ev_view st).

Lemma recounted_refl st : recounted st st.
Proof. split_and!; try done. intros j. exists (s_sending (slot_at j st)). by destruct (slot_at j st). Qed.

Lemma recounted_upd i v st : recounted st (upd i (set_sending v) st).
Proof.
  split_and!; [|unfold upd; cbn|done].
  - intros j. apply slot_at_upd_case; intros Hj; [by exists v|].
    exists (s_sending (slot_at j st)). by destruct (slot_at j st).
  - rewrite slots_bufs_insert, (slots_bufs_delete (n_slot st) i). done.
Qed.

Lemma ok_recount L B cur cur' held st st' :
  ok L B cur held st → recounted st st' →
  (∀ j, slot_ok (n_heap st') (cur' ++ n_pipe st') (n_alloc_id st') j (slot_at j st')) →
  omap creates cur' = omap creates cur → zlen cur' ≤ zlen cur →
  (∀ pre r post, cur' ++ n_pipe st = pre ++ r :: post →
    ∃ pre', cur ++ n_pipe st = pre' ++ r :: post ∧ omap creates pre' = omap creates pre) →
  ok L B cur' held st'.
Proof.
  intros [O1 O2 O3 O4 O5 O6 O7 O8 O9 O10 O11 O12] (Hv & Hb & R) Hs Hc Hz Hpre.
  assert (n_pipe st' = n_pipe st ∧ n_heap st' = n_heap st ∧ n_alloc_id st' = n_alloc_id st ∧
    ev_view st' = ev_view st) as (Rp & Rh & Rt & Re) by (split_and!; congruence).
  rewrite Rp, Rh, Rt in *. rewrite !omap_app in *.
  assert (Vf : ∀ {A} (g : socket → A), (∀ v s, g (set_sending v s) = g s) → ∀ j, g (slot_at j st') = g (slot_at j st)).
  { intros A g Hg j. destruct (Hv j) as [v ->]. apply Hg. }
  pose proof (Vf _ s_type ltac:(done)) as Vt. pose proof (Vf _ s_id ltac:(done)) as Vi.
  pose proof (Vf _ s_low ltac:(done)) as Vl. pose proof (Vf _ s_dw_lock ltac:(done)) as Vk.
  split; rewrite ?Rp, ?Rh, ?Rt, ?Re, ?omap_app, ?Hc; try done.
  - unfold mem_ok in *. by rewrite Rp, Rh, Hb.
  - rewrite !zlen_app in *. lia.
  - intros i. rewrite Vk. apply O5.
  - intros id. rewrite Vt, Vi. apply O7.
  - intros i. rewrite Vt, Vi. apply O9.
  - intros pre r post id He. rewrite Vt, Vi. destruct (Hpre _ _ _ He) as (pre' & He' & <-).
    by apply (O10 pre' r post).
  - intros i. rewrite Vl. apply O12.
Qed.

Lemma ID_TAG16_range id : 0 ≤ ID_TAG16 id < 2 ^ 16.
Proof.
  unfold ID_TAG16. change 0xffff with (Z.ones 16). rewrite Z.land_ones by lia.
  apply Z.mod_pos_bound. lia.
Qed.

Lemma sending_parts id n : 0 ≤ n < 0xffff →
  let s := ID_TAG16 id * 2 ^ 16 + n in
  Z.land s 0xffff = n ∧ Z.shiftr s 16 = ID_TAG16 id ∧ 0 ≤ s < 2 ^ 32 - 1.
Proof.
  intros Hn s. pose proof (ID_TAG16_range id). unfold s. split_and!; [| |lia|lia].
  - change 0xffff with (Z.ones 16). rewrite Z.land_ones by lia.
    rewrite Z.add_comm, Z.mod_add by lia. apply Z.mod_small. lia.
  - rewrite Z.shiftr_div_pow2, Z.add_comm, Z.div_add, Z.div_small by lia. lia.
Qed.

Section dec.
Context {Kern : Kernel}.

Lemma slot_ok_sent h r reqs id top j s s' :
  slot_ok h (r :: reqs) top j s → sends id r = true → s' = set_sending (s_sending s') s →
  (s_id s = id → s_protocol s = PROTOCOL_TCP → s_sending s' = s_sending s - 1) →
  (s_id s ≠ id → s_sending s' = s_sending s) → slot_ok h reqs top j s'.
Proof.
  intros [H1 H2 H3 H4 H5 H6 H7 H8] Hr Hs Heq Hne. change (r :: reqs) with ([r] ++ reqs) in *.
  rewrite senders_app in *. pose proof (senders_nonneg (s_id s) reqs).
  assert (Hsr : senders (s_id s) [r] = if decide (s_id s = id) then 1 else 0).
  { unfold senders. cbn. destruct (decide (s_id s = id)) as [->|E].
    - by rewrite Hr.
    - destruct (sends (s_id s) r) eqn:E'; [|done]. destruct E.
      destruct r; cbn in *; try done; lia. }
  rewrite Hsr in *. rewrite Hs. split; cbn; try done.
  - intros Ht. specialize (H6 Ht). destruct_and!. split_and!; [done..|]. destruct (decide _); lia.
  - intros Hl. destruct (H7 Hl) as [[Hp [T1 T2 T3 T5]]|[U1 U2 U3 U4]]; [left|right]; done.
  - intros Hp. specialize (H8 Hp). destruct (decide _) as [E|E].
    + specialize (Heq E Hp). lia.
    + specialize (Hne E). lia.
Qed.

Lemma wp_dec_sending_ref r id held (Q : unit → net → Prop) st :
  ok None None [r] held st → sends id r = true → 1 ≤ id →
  (∀ st', ok None None [] held st' → Q tt st') → wp (dec_sending_ref id) Q st.
Proof.
  intros Hok Hr Hid HQ.
  assert (Hdone : ∀ st', recounted st st' →
    (∀ j, s_id (slot_at j st) = id → s_protocol (slot_at j st) = PROTOCOL_TCP →
       s_sending (slot_at j st') = s_sending (slot_at j st) - 1) →
    (∀ j, s_id (slot_at j st) ≠ id → s_sending (slot_at j st') = s_sending (slot_at j st)) →
    ok None None [] held st').
  { intros st' Hrec Heq Hne. eapply (ok_recount _ _ [r] []); [exact Hok|exact Hrec| | |done|].
    - intros j. destruct Hrec as (Hv & _ & R). assert (n_pipe st' = n_pipe st ∧ n_heap st' = n_heap st ∧
        n_alloc_id st' = n_alloc_id st) as (-> & -> & ->) by (split_and!; congruence).
      eapply slot_ok_sent; [apply Hok|exact Hr| |by apply Heq|by apply Hne].
      destruct (Hv j) as [v ->]. done.
    - by destruct r.
    - intros pre r' post He. exists (r :: pre). cbn in *. rewrite He. split; [done|]. by destruct r. }
  unfold dec_sending_ref. apply wp_bind, wp_get_s. set (i := HASH_ID id). set (s := slot_at i st).
  assert (Hhome : ∀ j, s_id (slot_at j st) = id → j = i).
  { intros j Hj. rewrite <-(so_home _ _ _ _ _ (ok_slot _ _ _ _ _ Hok j)), Hj; [done|]. lia. }
  destruct (_ && _) eqn:Hc.
  - apply andb_true_iff in Hc as [Hi Hp]. apply Z.eqb_eq in Hi, Hp.
    pose proof (so_sending _ _ _ _ _ (ok_slot _ _ _ _ _ Hok i) Hp) as Hs. fold s in Hs. rewrite Hi in Hs.
    pose proof (ok_room _ _ _ _ _ Hok) as Hroom. pose proof (senders_le id ([r] ++ n_pipe st)) as Hle.
    pose proof (senders_nonneg id (n_pipe st)) as Hnn. rewrite (senders_app id [r]) in Hs, Hle.
    assert (senders id [r] = 1) as E1 by (unfold senders; cbn; by rewrite Hr).
    destruct (sending_parts id (senders id [r] + senders id (n_pipe st)) ltac:(lia)) as (Hl & _ & Hb).
    rewrite <-Hs in Hl, Hb. apply wp_bind, wp_assert; [apply negb_true_iff, Z.eqb_neq; lia|].
    apply wp_mod_s, HQ, Hdone.
    + apply recounted_upd.
    + intros j Hj _. rewrite (Hhome j Hj), slot_at_upd. cbn. fold s. unfold u64. rewrite Z.mod_small; lia.
    + intros j Hj. rewrite slot_at_upd_ne; [done|]. intros <-. by destruct Hj.
  - apply wp_ret, HQ, Hdone; [apply recounted_refl| |done].
    intros j Hj Hp. pose proof (Hhome j Hj) as ->. fold s in Hj, Hp. rewrite Hj, Hp, !Z.eqb_refl in Hc. done.
Qed.
End dec.

(** ** All requests *)

Lemma ok_udp_address L B cur held i new st :
  ok L B cur held st → is_live (slot_at i st) → s_protocol (slot_at i st) ≠ PROTOCOL_TCP →
  zlen new = UDP_ADDRESS_SIZE → ok L B cur held (upd i (set_p (PAddress new)) st).
Proof.
  intros Hok Hl Hp Hn. pose proof (live_udp _ _ _ _ _ _ Hok Hl Hp) as [U1 U2 U3 U4].
  eapply ok_upd; [exact Hok| |done|done|done|done|apply Hok].
  destruct (ok_slot _ _ _ _ _ Hok i) as [H1 H2 H3 H4 H5 H6 H7 H8]. split; try done.
  intros _. right. split; try done. by exists new.
Qed.

Section ctrl.
Context {Kern : Kernel} {fuel : nat} {Laws : KernelLaws fuel}.
Implicit Types (st : net).

Lemma wp_set_udp_address id a held (Q : Z → net → Prop) st :
  ok None None [RSetUdp id a] held st → udp_ok a →
  (∀ v st', ok None None [RSetUdp id a] held st' → Q v st') → wp (set_udp_address id a) Q st.
Proof.
  intros Hok (t & rest & n & -> & Hn & Hle) HQ. unfold set_udp_address. apply wp_bind, wp_get_s.
  set (i := HASH_ID id). destruct (socket_invalid _ _) eqn:Hv; [by apply wp_ret, HQ|].
  destruct (target_live _ id _ _ Hok eq_refl Hv) as [Hl Hi]. fold i in Hl, Hi.
  apply wp_bind, (wp_lift _ t); [done|]. destruct (Z.eqb_spec t (s_protocol (slot_at i st))) as [E|]; cycle 1.
  { apply wp_report_error. intros st' Hc. apply HQ. by eapply ok_core. }
  assert (Hp : s_protocol (slot_at i st) ≠ PROTOCOL_TCP).
  { rewrite <-E. intros ->. done. }
  pose proof (live_udp _ _ _ _ _ _ Hok Hl Hp) as [U1 (old & U2 & U3) U4 U5]. rewrite <-E in U1.
  replace (if t =? PROTOCOL_UDP then 1 + 2 + 4 else 1 + 2 + 16) with n; cycle 1.
  { by destruct U1 as [-> | ->]; injection Hn as <-. }
  assert (Hn19 : 0 ≤ n ≤ UDP_ADDRESS_SIZE) by (by destruct U1 as [-> | ->]; injection Hn as <-).
  apply wp_bind. eapply wp_lift; [apply mread_in; lia|].
  apply wp_bind, (wp_lift _ old); [unfold p_udp_address; by rewrite U2|].
  destruct (mwrite_in old 0 (take (Z.to_nat n) (drop (Z.to_nat 0) (t :: rest)))) as (new & Hnew & Hlen & _).
  { done. }
  { rewrite U3. unfold zlen. rewrite length_take. unfold UDP_ADDRESS_SIZE in *. lia. }
  apply wp_bind, (wp_lift _ new); [exact Hnew|].
  apply wp_bind, wp_mod_s, wp_bind, wp_mod_quiet; [done|done|]. intros st1 Hq _.
  apply wp_ret, HQ. eapply ok_quiet; [exact Hq|]. apply ok_udp_address; [done|done|done|].
  by rewrite Hlen.
Qed.

Lemma wp_ctrl_cmd held (Q : Z → net → Prop) st :
  ok None None [] held st → n_pipe st ≠ [] → request_taken st →
  (∀ v st', ok None None [] held st' → Q v st') → wp ctrl_cmd Q st.
Proof.
  intros Hok Hp Hdt HQ. unfold ctrl_cmd, block_readpipe. destruct (n_pipe st) as [|r p] eqn:Ep; [done|].
  destruct (ok_take _ _ _ _ Hok Ep) as [Hok1 Hr]. apply wp_bind, wp_bind, wp_gets. rewrite Ep.
  apply wp_bind, wp_modify, wp_ret. clear Hok Hp.
  assert (Ht : ∀ id, sends_for r = Some id → datagram_taken (HASH_ID id) (put_pipe p st)) by (intros id; by apply (Hdt r p)).
  change (n_heap st) with (n_heap (put_pipe p st)) in Hr.
  change (n_alloc_id st) with (n_alloc_id (put_pipe p st)) in Hr.
  clear Hdt. revert Hok1 Hr Ht. generalize (put_pipe p st). clear st Ep p. intros st Hok Hr Ht.
  assert (Hd : creates r = None → (∀ id, sends id r = false) →
    ∀ v st', ok None None [r] held st' → Q v st').
  { intros Hc Hs v st' Hok'. by apply HQ, (ok_drop _ _ r). }
  assert (Hdec : ∀ id v st', sends id r = true → 1 ≤ id → ok None None [r] held st' →
    wp (dec_sending_ref id;; mret v) Q st').
  { intros id v st' Hs Hid Hok'. apply wp_bind. eapply wp_dec_sending_ref; [done|done|done|].
    intros st2 Hok2. by apply wp_ret, HQ. }
  destruct r; cbn [req_bufs app] in Hok; cbn in Hr.
  - eapply wp_resume_socket; [done|by apply Hd].
  - eapply wp_pause_socket; [done|by apply Hd].
  - eapply wp_bind_socket; [done|done|done].
  - eapply wp_listen_socket; [done|done|done].
  - eapply wp_close_socket; [done|by apply Hd].
  - eapply wp_open_socket; [done|done|done].
  - apply wp_bind, wp_set_result. intros st' Hc. apply wp_ret, Hd; [done|done|]. by eapply ok_core.
  - eapply wp_trigger_write; [done|by apply Hd].
  - apply wp_bind. eapply wp_send_socket; [exact Hok|done|apply Hr|done|by apply Ht|]. intros v st' Hok'.
    apply Hdec; [cbn; lia|apply Hr|done].
  - apply wp_bind. eapply wp_send_socket; [exact Hok|done|apply Hr|done|by apply Ht|]. intros v st' Hok'.
    apply Hdec; [cbn; lia|apply Hr|done].
  - eapply wp_send_socket; [exact Hok|done|apply Hr| |by apply Ht|by apply Hd].
    intros a [= <-]. apply Hr.
  - eapply wp_set_udp_address; [exact Hok|apply Hr|by apply Hd].
  - apply wp_bind. eapply wp_setopt_socket; [done|]. intros st' Hok'. by apply wp_ret, Hd.
  - apply wp_bind. eapply wp_add_udp_socket; [done|done|]. intros st' Hok'. by apply wp_ret, HQ.
Qed.
End ctrl.

(** ** Events *)

Lemma clear_event_length slots id l : length (clear_event slots id l) = length l.
Proof. induction l as [|e l IH]; cbn; [done|]. destruct (is_event_of _ _ _); cbn; by rewrite ?IH. Qed.

Lemma core_put_ev l st : length l = length (n_ev st) → core (put_ev l st) = core st.
Proof. intros H. unfold core, ev_view, zlen. cbn. by rewrite H. Qed.

Lemma closed_ev i st st' : closed i st st' → ev_view st' = ev_view st.
Proof. by intros [_ _ _ (_ & _ & ?)]. Qed.

Section events.
Context {Kern : Kernel}.
Implicit Types (st : net).

Lemma wp_clear_closed_event L B cur held type (Q : unit → net → Prop) st :
  ok L B cur held st → (∀ st', ok L B cur held st' → Q tt st') → wp (clear_closed_event type) Q st.
Proof.
  intros Hok HQ. unfold clear_closed_event. destruct (_ || _); [|by apply wp_ret, HQ].
  apply wp_modify, HQ. eapply ok_core; [symmetry; apply core_put_ev|exact Hok].
  by rewrite length_app, clear_event_length, <-length_app, take_drop.
Qed.

Lemma live_not_reserve s : is_live s → s_type s ≠ SOCKET_TYPE_RESERVE.
Proof. by intros []. Qed.

Lemma wp_report_connect held i (Q : Z → net → Prop) st :
  ok None None [] held st → is_live (slot_at i st) →
  (∀ v st', ok None None [] held st' → Q v st') → wp (report_connect i socket_lock_init) Q st.
Proof.
  intros Hok Hl HQ. unfold report_connect. apply wp_bind, wp_get_s, wp_bind, wp_call. intros st1 Hc.
  eapply ok_core in Hok; [|exact Hc]. rewrite (core_slot_at _ _ _ Hc) in Hl.
  assert (Hfail : ∀ d st', ok None None [] held st' → is_live (slot_at i st') →
    wp (force_close i socket_lock_init;; result_data d;; mret SOCKET_ERR) Q st').
  { intros d st' Hok' Hl'. apply wp_bind. eapply wp_force_close; [exact Hok'|by apply live_not_reserve|apply lock_none|].
    intros st2 Hok2 _. apply wp_bind, wp_result_data. intros st3 Hc3. apply wp_ret, HQ. by eapply ok_core. }
  destruct (match answer _ _ with inl _ => _ | inr _ => _ end); [by apply Hfail|].
  apply wp_bind, wp_mod_s, wp_bind, wp_get_s, wp_bind, wp_gets.
  assert (Hok2 := ok_retype _ _ _ _ i SOCKET_TYPE_CONNECTED _ Hok Hl ltac:(done)).
  assert (Hl2 := live_upd i SOCKET_TYPE_CONNECTED st1 ltac:(done)).
  revert Hok2 Hl2. generalize (upd i (set_type SOCKET_TYPE_CONNECTED) st1). clear Hok Hl Hc st1.
  intros st1 Hok Hl. apply wp_bind, wp_set_result. intros st2 Hc.
  eapply ok_core in Hok; [|exact Hc]. rewrite (core_slot_at _ _ _ Hc) in Hl.
  apply wp_bind. eapply (wp_mono _ (λ _ st3, quiet st2 st3)).
  { destruct (nomore_sending_data _); [by apply wp_enable_write|by apply wp_ret]. }
  intros err st3 Hq. eapply ok_quiet in Hok; [|exact Hq]. eapply quiet_is_live in Hl; [|exact Hq].
  destruct (negb _); [by apply Hfail|].
  apply wp_bind, wp_sys_sum. intros st4 Hc4. apply wp_bind, wp_result_data. intros st5 Hc5.
  apply wp_ret, HQ. eapply ok_core; [exact Hc5|]. by eapply ok_core.
Qed.

Lemma wp_event_error held i (Q : Z → net → Prop) st :
  ok None None [] held st → (∀ v st', ok None None [] held st' → Q v st') → wp (event_error i) Q st.
Proof.
  intros Hok HQ. unfold event_error. apply wp_bind, wp_get_s, wp_bind, wp_call. intros st1 Hc.
  apply wp_report_error. intros st2 Hc2. apply HQ. eapply ok_core; [exact Hc2|]. by eapply ok_core.
Qed.

Lemma wp_event_eof held i (Q : unit + Z → net → Prop) st :
  ok None None [] held st → is_live (slot_at i st) →
  (∀ v st', ok None None [] held st' → Q v st') → wp (event_eof i) Q st.
Proof.
  intros Hok Hl HQ. unfold event_eof. apply wp_bind, wp_get_s, wp_bind.
  eapply wp_force_close; [exact Hok|by apply live_not_reserve|apply lock_none|].
  intros st1 Hok1 _. by apply wp_ret, HQ.
Qed.
End events.

Section reading.
Context {Kern : Kernel} {fuel : nat} {Laws : KernelLaws fuel}.
Implicit Types (st : net).

Lemma ok_size L B cur held i n st :
  ok L B cur held st → is_live (slot_at i st) → s_protocol (slot_at i st) = PROTOCOL_TCP →
  0 < n ≤ INT_MAX → ok L B cur held (upd i (set_p (PSize n)) st).
Proof.
  intros Hok Hl Hp Hn. pose proof (live_tcp _ _ _ _ _ _ Hok Hl Hp) as [T1 T2 T3 T5].
  eapply ok_upd; [exact Hok| |done|done|done|done|apply Hok].
  destruct (ok_slot _ _ _ _ _ Hok i) as [H1 H2 H3 H4 H5 H6 H7 H8]. split; try done.
  intros _. left. split; [done|]. split; try done. by exists n.
Qed.

(** The result says whether the socket may have been closed. *)
Lemma wp_forward_message_tcp held i (Q : Z → net → Prop) st :
  ok None None [] held st → is_live (slot_at i st) → s_protocol (slot_at i st) = PROTOCOL_TCP →
  (∀ v st', ok None None [] held st' → ev_view st' = ev_view st → Q v st') →
  wp (forward_message_tcp i socket_lock_init) Q st.
Proof.
  intros Hok Hl Hp HQ. pose proof (live_tcp _ _ _ _ _ _ Hok Hl Hp) as [(sz & Hsz & Hsz') _ _ _].
  unfold forward_message_tcp. apply wp_bind, wp_get_s.
  apply wp_bind, (wp_lift _ sz); [unfold p_size; by rewrite Hsz|].
  apply wp_bind, wp_sys_sum. intros st1 Hc.
  pose proof (law_read (fuel := fuel) (n_history st) (s_fd (slot_at i st)) sz) as Hlaw.
  set (s := slot_at i st) in *.
  assert (HQ1 : ∀ v st', ok None None [] held st' → ev_view st' = ev_view st1 → Q v st').
  { intros v st' Hok' He. apply HQ; [done|]. by rewrite He, (core_ev _ _ Hc). }
  eapply ok_core in Hok; [|exact Hc]. unfold s in Hl, Hp. rewrite (core_slot_at _ _ _ Hc) in Hl, Hp.
  clear HQ Hc. assert (Hclose : ∀ v, wp (force_close i socket_lock_init;; mret v) Q st1).
  { intros v. apply wp_bind. eapply wp_force_close; [exact Hok|by apply live_not_reserve|apply lock_none|].
    intros st2 Hok2 Hcl. apply wp_ret, HQ1; [done|]. by eapply closed_ev. }
  destruct (answer _ _) as [e|bs]; [|specialize (Hlaw bs eq_refl) as [Hle Hbig]; destruct bs as [|b bs]].
  - apply wp_bind, wp_get_errno. destruct (_ || _); [by apply wp_ret, HQ1|].
    apply wp_report_error. intros st2 Hc. apply HQ1; [by eapply ok_core|by rewrite (core_ev _ _ Hc)].
  - destruct (s_closing s); [destruct (nomore_sending_data s)|].
    + apply Hclose.
    + by apply wp_bind, wp_ret, wp_ret, HQ1.
    + destruct (_ =? _); [by apply wp_ret, HQ1|]. destruct (_ =? _); [apply Hclose|].
      apply wp_bind. eapply wp_close_read; [exact Hok|done|]. intros st2 Hok2 He. by apply wp_ret, HQ1.
  - destruct (halfclose_read s); [by apply wp_ret, HQ1|].
    apply wp_bind, wp_stat_read. intros st2 Hq. apply wp_bind, wp_set_result. intros st3 Hc.
    assert (He : ev_view st3 = ev_view st1) by (by rewrite <-(core_ev _ _ Hc), (quiet_ev _ _ Hq)).
    assert (Hq3 : quiet st1 st3) by (etransitivity; [exact Hq|by apply quiet_core]).
    pose proof (q_view _ _ Hq3 i) as Hv. eapply ok_quiet in Hok; [|exact Hq3].
    eapply quiet_is_live in Hl; [|exact Hq3].
    assert (Hp3 : s_protocol (slot_at i st3) = PROTOCOL_TCP) by (unfold view in Hv; congruence).
    pose proof (zlen_nonneg (b :: bs)).
    set (n := zlen (b :: bs)) in *. unfold INT_MAX, MIN_READ_BUFFER in *.
    destruct (Z.eqb_spec n sz) as [E|]; [|destruct (_ && _) eqn:Hhalf].
    + apply wp_bind, (wp_lift _ (sz * 2)); [apply cint_in; unfold INT_MIN, INT_MAX; lia|].
      apply wp_bind, wp_mod_s, wp_ret, HQ1; [|done]. apply ok_size; [done|done|done|unfold INT_MAX; lia].
    + apply wp_bind, wp_mod_s, wp_ret, HQ1; [|done]. apply ok_size; [done|done|done|].
      apply andb_true_iff in Hhalf as [Hhalf _]. apply Z.ltb_lt in Hhalf.
      rewrite Z.quot_div_nonneg by lia. unfold INT_MAX.
      split; [apply Z.div_str_pos; lia|]. apply Z.div_le_upper_bound; lia.
    + by apply wp_ret, HQ1.
Qed.

Lemma wp_forward_message_udp held i (Q : Z → net → Prop) st :
  ok None None [] held st → is_live (slot_at i st) →
  (∀ v st', ok None None [] held st' → ev_view st' = ev_view st → Q v st') →
  wp (forward_message_udp i socket_lock_init) Q st.
Proof.
  intros Hok Hl HQ. unfold forward_message_udp. apply wp_bind, wp_get_s, wp_bind, wp_sys_sum. intros st1 Hc.
  assert (HQ1 : ∀ v st', ok None None [] held st' → ev_view st' = ev_view st1 → Q v st').
  { intros v st' Hok' He. apply HQ; [done|]. by rewrite He, (core_ev _ _ Hc). }
  eapply ok_core in Hok; [|exact Hc]. rewrite (core_slot_at _ _ _ Hc) in Hl.
  destruct (match answer _ _ with inl _ => _ | inr _ => _ end) as [[bs sa]|].
  - apply wp_bind, wp_stat_read. intros st2 Hq. eapply ok_quiet in Hok; [|exact Hq].
    apply quiet_ev in Hq. destruct (negb _); [by apply wp_ret, HQ1|].
    apply wp_bind, wp_set_result. intros st3 Hc3. apply wp_ret, HQ1; [by eapply ok_core|].
    by rewrite <-(core_ev _ _ Hc3).
  - apply wp_bind, wp_get_errno. destruct (_ || _); [by apply wp_ret, HQ1|].
    apply wp_bind. eapply wp_force_close; [exact Hok|by apply live_not_reserve|apply lock_none|].
    intros st2 Hok2 Hcl. apply wp_bind, wp_result_data. intros st3 Hc3. apply wp_ret, HQ1.
    + by eapply ok_core.
    + rewrite <-(core_ev _ _ Hc3). by eapply closed_ev.
Qed.
End reading.

(** ** New ids *)

Lemma ok_alloc L B cur held a st :
  ok L B cur held st → n_alloc_id st ≤ a ≤ INT_MAX → ok L B cur held (put_alloc_id a st).
Proof.
  intros [O1 O2 O3 O4 O5 O6 O7 O8 O9 O10 O11 O12] Ha. split; try done.
  - cbn. lia.
  - intros i. eapply slot_ok_heap; [by intros|apply Ha|apply O4].
  - cbn. eapply Forall_impl; [exact O6|]. intros r Hr. eapply req_ok_heap; [by intros|apply Ha|exact Hr].
Qed.

Lemma req_ids_le h top r id : req_ok h top r → creates r = Some id ∨ targets r = Some id → id ≤ top.
Proof. intros Hr [Hc|Ht]; destruct r; cbn in *; simplify_eq; lia. Qed.

Lemma creates_le B held st id :
  ok None B [] held st → id ∈ omap creates (n_pipe st) → id ≤ n_alloc_id st.
Proof.
  intros Hok Hin. apply list_elem_of_omap in Hin as (r & Hr & Hc).
  pose proof (ok_req _ _ _ _ _ Hok) as Hreq. rewrite Forall_forall in Hreq.
  eapply req_ids_le; [by apply Hreq|by left].
Qed.

Lemma senders_none id l : (∀ r, r ∈ l → sends id r = false) → senders id l = 0.
Proof.
  intros H. unfold senders. induction l as [|r l IH]; [done|]. rewrite filter_cons.
  rewrite decide_False by (rewrite H; [by intros []|set_solver]). apply IH. set_solver.
Qed.

(** What a turn of [reserve_id] makes of a free slot. *)
Definition reserved (id : Z) (s : socket) : socket :=
  set_fd (-1) (set_udpconnecting 0 (set_protocol PROTOCOL_UNKNOWN (set_id id (set_type SOCKET_TYPE_RESERVE s)))).

Lemma ok_reserved_slot held id st :
  ok None None [] held st → id = n_alloc_id st + 1 → id ≤ INT_MAX →
  s_type (slot_at (HASH_ID id) st) = SOCKET_TYPE_INVALID →
  ok None (Some (HASH_ID id)) [] held (upd (HASH_ID id) (reserved id) (put_alloc_id id st)).
Proof.
  intros Hok Hid Hmax Ht. pose proof (ok_top _ _ _ _ _ Hok) as Htop.
  assert (Hreq : ∀ r, r ∈ n_pipe st → ∀ id', creates r = Some id' ∨ targets r = Some id' → id' < id).
  { intros r Hr id' Hc. pose proof (ok_req _ _ _ _ _ Hok) as H. rewrite Forall_forall in H.
    pose proof (req_ids_le _ _ _ _ (H _ Hr) Hc). lia. }
  apply (ok_alloc _ _ _ _ id) in Hok; [|lia].
  change (slot_at (HASH_ID id) st) with (slot_at (HASH_ID id) (put_alloc_id id st)) in Ht.
  change (n_pipe st) with (n_pipe (put_alloc_id id st)) in Hreq.
  assert (Ha : n_alloc_id (put_alloc_id id st) = id) by done.
  revert Ht Hok Hreq Ha. generalize (put_alloc_id id st). set (i := HASH_ID id).
  intros st' Ht [O1 O2 O3 O4 O5 O6 O7 O8 O9 O10 O11 O12] Hreq Ha. cbn [app] in *.
  assert (Hb : slot_bufs (slot_at i st') = []) by (by apply (so_idle _ _ _ _ _ (O4 i))).
  split; try done.
  - by eapply mem_ok_upd.
  - intros j. apply slot_at_upd_case; [intros <-|intros _; apply O4].
    destruct (O4 i) as [H1 H2 H3 H4 H5 H6 H7 H8]. cbn [app upd n_heap n_pipe n_alloc_id put_slot].
    split; cbn; try done; try lia.
    + intros _. split_and!; [exact Hb|done|]. apply senders_none. intros r Hr.
      destruct (sends id r) eqn:Es; [|done].
      assert (targets r = Some id) as Hrt; [|by specialize (Hreq r Hr id (or_intror Hrt)); lia].
      destruct r; cbn in *; try done; f_equal; lia.
    + by intros [].
  - intros j. apply slot_at_upd_case; [intros <-|intros _]; apply O5.
  - intros id' Hin. cbn in *. destruct (O7 id' Hin) as [E _]. apply slot_at_upd_case; [|intros _; by apply O7].
    intros Hij. rewrite <-Hij, Ht in E. done.
  - intros j Hj. apply slot_at_upd_case; [by intros <-|]. intros Hne. by apply O9.
  - intros pre r post id' He Hrt. cbn in He. apply slot_at_upd_case; [|intros _; by eapply O10].
    intros Hij _. cbn. intros <-. exfalso.
    assert (r ∈ n_pipe st') as Hr by (rewrite He; set_solver). specialize (Hreq r Hr id (or_intror Hrt)). lia.
  - intros j HL. apply slot_at_upd_case; intros; apply O12; done.
Qed.

(** Nothing but this slot and [alloc_id] has changed. *)
Record fresh_slot (id : Z) (st st' : net) : Prop := {
  fs_new : n_alloc_id st < id;
  fs_alloc : n_alloc_id st' = id;
  fs_slot : slot_at (HASH_ID id) st' = reserved id (slot_at (HASH_ID id) st);
  fs_free : s_type (slot_at (HASH_ID id) st) = SOCKET_TYPE_INVALID;
  fs_other j : j ≠ HASH_ID id → slot_at j st' = slot_at j st;
  fs_rest : (n_pipe st', n_heap st', ev_view st') = (n_pipe st, n_heap st, ev_view st)
}.

Section reserve.
Context {Kern : Kernel}.
Implicit Types (st : net).

Lemma wp_reserve_turn held (Q : option Z → net → Prop) st :
  ok None None [] held st → n_alloc_id st < INT_MAX →
  let id := n_alloc_id st + 1 in
  (s_type (slot_at (HASH_ID id) st) = SOCKET_TYPE_INVALID →
    Q (Some id) (upd (HASH_ID id) (reserved id) (put_alloc_id id st))) →
  (s_type (slot_at (HASH_ID id) st) ≠ SOCKET_TYPE_INVALID → Q None (put_alloc_id id st)) →
  wp reserve_turn Q st.
Proof.
  intros Hok Hlt id Hsome Hnone. pose proof (ok_top _ _ _ _ _ Hok) as Htop.
  unfold reserve_turn. apply wp_bind, wp_gets, wp_bind, wp_modify. fold id.
  rewrite i32_small by (unfold id; lia).
  apply wp_bind, (wp_lift _ id); [apply cint_in; unfold id, INT_MIN, INT_MAX in *; lia|].
  replace (id <? 0) with false by (unfold id; lia). apply wp_bind, wp_ret, wp_bind, wp_get_s.
  change (slot_at (HASH_ID id) (put_alloc_id id st)) with (slot_at (HASH_ID id) st).
  destruct (Z.eqb_spec (s_type (slot_at (HASH_ID id) st)) SOCKET_TYPE_INVALID) as [E|E].
  - do 5 apply wp_bind, wp_mod_s. apply wp_ret. rewrite !upd_upd. by apply Hsome.
  - by apply wp_ret, Hnone.
Qed.

Lemma wp_reserve_loop n held (Q : Z → net → Prop) st :
  ok None None [] held st → n_alloc_id st + Z.of_nat n ≤ INT_MAX →
  (∀ id st', ok None (Some (HASH_ID id)) [] held st' → fresh_slot id st st' → id ≤ n_alloc_id st + Z.of_nat n →
     Q id st') →
  (∀ st', ok None None [] held st' → st' = put_alloc_id (n_alloc_id st + Z.of_nat n) st →
     (∀ k, 1 ≤ k ≤ Z.of_nat n → s_type (slot_at (HASH_ID (n_alloc_id st + k)) st) ≠ SOCKET_TYPE_INVALID) →
     Q (-1) st') →
  wp (reserve_loop n) Q st.
Proof.
  revert st. induction n as [|n IH]; intros st Hok Hmax Hid Hfull; cbn [reserve_loop].
  { apply wp_ret, Hfull; [done| |lia]. destruct st; cbn. by rewrite Z.add_0_r. }
  pose proof (ok_top _ _ _ _ _ Hok) as Htop.
  apply wp_bind. eapply wp_reserve_turn; [exact Hok|lia| |].
  - intros Ht. apply wp_ret, Hid; [apply ok_reserved_slot; [done|done|lia|done]| |lia].
    split; [lia|done|by rewrite slot_at_upd|done| |done].
    intros j Hj. by rewrite slot_at_upd_ne.
  - intros Ht. apply IH; [apply ok_alloc; [done|lia]|cbn; lia| |].
    + intros id st' Hok' [F1 F2 F3 F4 F5 F6] Hle. cbn in *. apply Hid; [done| |lia].
      split; try done; lia.
    + intros st' Hok' -> Hall. cbn in *. apply Hfull; [done| |].
      * unfold put_alloc_id. cbn. f_equal. lia.
      * intros k Hk. destruct (decide (k = 1)) as [->|]; [done|].
        specialize (Hall (k - 1) ltac:(lia)). by replace (n_alloc_id st + 1 + (k - 1)) with (n_alloc_id st + k) in Hall by lia.
Qed.

(** As many ids are left as [reserve_id] may use. *)
Definition ids_left (st : net) : Prop := n_alloc_id st + MAX_SOCKET ≤ INT_MAX.

Lemma wp_reserve_id held (Q : Z → net → Prop) st :
  ok None None [] held st → ids_left st →
  (∀ id st', ok None (Some (HASH_ID id)) [] held st' → fresh_slot id st st' → id ≤ n_alloc_id st + MAX_SOCKET →
     Q id st') →
  (∀ st', ok None None [] held st' → st' = put_alloc_id (n_alloc_id st + MAX_SOCKET) st →
     (∀ k, 1 ≤ k ≤ MAX_SOCKET → s_type (slot_at (HASH_ID (n_alloc_id st + k)) st) ≠ SOCKET_TYPE_INVALID) →
     Q (-1) st') →
  wp reserve_id Q st.
Proof.
  intros Hok Hids Hid Hfull. assert (E : Z.of_nat (Z.to_nat MAX_SOCKET) = MAX_SOCKET) by (by apply Z2Nat.id).
  unfold reserve_id, ids_left in *. revert E. generalize (Z.to_nat MAX_SOCKET). intros n E.
  eapply wp_reserve_loop; [exact Hok|lia| |]; rewrite E; done.
Qed.
End reserve.

(** The slot that the running step has reserved. *)
Lemma built_slot held i st :
  ok None (Some i) [] held st → s_type (slot_at i st) = SOCKET_TYPE_RESERVE →
  slot_bufs (slot_at i st) = [] ∧ s_low (slot_at i st) = [].
Proof.
  intros Hok Ht. destruct (so_reserve _ _ _ _ _ (ok_slot _ _ _ _ _ Hok i) Ht) as (Hb & _).
  split; [done|]. by apply no_bufs.
Qed.

Lemma fresh_facts held id st st' :
  ok None None [] held st → ok None (Some (HASH_ID id)) [] held st' → fresh_slot id st st' →
  let s := slot_at (HASH_ID id) st' in
  s_type s = SOCKET_TYPE_RESERVE ∧ s_id s = id ∧ slot_bufs s = [] ∧ 1 ≤ id ∧
  s_id s ∉ omap creates (n_pipe st').
Proof.
  intros Hok Hok' Hf s. pose proof (ok_top _ _ _ _ _ Hok). destruct Hf as [F1 F2 F3 F4 F5 F6]. unfold s.
  rewrite F3. split_and!; [done|done| |lia|].
  - rewrite <-F3. eapply built_slot; [done|by rewrite F3].
  - cbn. intros Hin. assert (n_pipe st' = n_pipe st) as E by congruence. rewrite E in Hin.
    pose proof (creates_le _ _ _ _ Hok Hin). lia.
Qed.

Lemma ok_built_tcp held id t st :
  ok None (Some (HASH_ID id)) [] held st →
  s_type (slot_at (HASH_ID id) st) = SOCKET_TYPE_RESERVE → s_id (slot_at (HASH_ID id) st) = id →
  id ∉ omap creates (n_pipe st) → 2 ≤ t ≤ SOCKET_TYPE_BIND →
  ok None None [] held (upd (HASH_ID id) (λ s, set_type t (newsock id PROTOCOL_TCP s)) st).
Proof.
  intros Hok Ht Hi Hnew Hr. destruct (built_slot _ _ _ Hok Ht) as [Hb _].
  eapply ok_built; [exact Hok|by rewrite Hi| | |done|done| |done].
  - pose proof (slot_ok_newsock _ _ _ _ t _ (ok_slot _ _ _ _ _ Hok (HASH_ID id)) Ht Hr) as H. by rewrite Hi in H.
  - unfold slot_bufs in *. cbn. by destruct (s_dw_buffer _).
  - cbn. unfold SOCKET_TYPE_RESERVE. lia.
Qed.

Lemma ok_built_freed held id protocol f st :
  ok None (Some (HASH_ID id)) [] held st →
  s_type (slot_at (HASH_ID id) st) = SOCKET_TYPE_RESERVE → s_id (slot_at (HASH_ID id) st) = id →
  id ∉ omap creates (n_pipe st) → protocol ∈ [PROTOCOL_TCP; PROTOCOL_UDP; PROTOCOL_UDPv6] →
  freed_sock id protocol f → ok None None [] held (upd (HASH_ID id) f st).
Proof.
  intros Hok Ht Hi Hnew Hp Hf. destruct (built_slot _ _ _ Hok Ht) as [Hb _].
  eapply ok_built; [exact Hok|by rewrite Hi| | | | | |].
  - eapply slot_ok_freed; [apply Hok|done|done|exact Hp|done].
  - destruct Hf as [Hf|Hf]; rewrite Hf; [done|]. unfold slot_bufs in *. cbn. by destruct (s_dw_buffer _).
  - by destruct Hf as [Hf|Hf]; rewrite Hf.
  - by destruct Hf as [Hf|Hf]; rewrite Hf.
  - by destruct Hf as [Hf|Hf]; rewrite Hf.
  - by destruct Hf as [Hf|Hf]; rewrite Hf.
Qed.

Section accept.
Context {Kern : Kernel}.
Implicit Types (st : net).

Lemma wp_accept_emfile L B cur held i e (Q : Z → net → Prop) st :
  ok L B cur held st → (∀ v st', ok L B cur held st' → Q v st') → wp (accept_emfile i e) Q st.
Proof.
  intros Hok HQ. unfold accept_emfile. apply wp_bind, wp_get_s, wp_bind, wp_set_result. intros st1 Hc1.
  eapply ok_core in Hok; [|exact Hc1]. apply wp_bind, wp_gets, wp_bind.
  eapply (wp_mono _ (λ _ st', ok L B cur held st')).
  - destruct (0 <=? _); [|by apply wp_ret]. apply wp_bind, wp_sys. intros ? st2 Hc2 _.
    apply wp_bind, wp_sys_sum. intros st3 Hc3. apply wp_bind.
    eapply (wp_mono _ (λ _ st', core st3 = core st')).
    { destruct (match answer _ _ with inl _ => _ | inr _ => _ end) as [[fd u]|]; [|by apply wp_ret].
      apply wp_bind, wp_sys. intros. by apply wp_ret. }
    intros _ st4 Hc4. apply wp_bind, wp_sys. intros fd st5 Hc5 _. apply wp_modify.
    eapply ok_core; [|exact Hok]. change (core (put_reserve_fd fd st5)) with (core st5). congruence.
  - intros _ st2 Hok2. by apply wp_ret, HQ.
Qed.

Lemma wp_report_accept held i (Q : Z → net → Prop) st :
  ok None None [] held st → ids_left st →
  (∀ v st', ok None None [] held st' → Q v st') → wp (report_accept i) Q st.
Proof.
  intros Hok Hids HQ. unfold report_accept. apply wp_bind, wp_get_s, wp_bind, wp_sys_sum. intros st1 Hc.
  eapply ok_core in Hok; [|exact Hc]. unfold ids_left in Hids. rewrite (core_top _ _ Hc) in Hids.
  destruct (match answer _ _ with inl _ => _ | inr _ => _ end) as [[fd u]|]; cycle 1.
  { apply wp_bind, wp_get_errno. destruct (_ || _); [by eapply wp_accept_emfile|by apply wp_ret, HQ]. }
  apply wp_bind. eapply wp_reserve_id; [exact Hok|done| |].
  - intros id st2 Hok2 Hf _. destruct (fresh_facts _ _ _ _ Hok Hok2 Hf) as (Ht & Hi & Hb & H1 & Hnew).
    rewrite Hi in Hnew. replace (id <? 0) with false by lia.
    apply wp_bind, wp_keepalive. intros st3 Hc3. apply wp_bind, wp_sp_nonblocking. intros st4 Hc4.
    assert (Hc24 : core st2 = core st4) by congruence. clear Hf.
    rewrite (core_slot_at _ _ _ Hc24) in Ht, Hi, Hb. rewrite (core_pipe _ _ Hc24) in Hnew.
    eapply ok_core in Hok2; [|exact Hc24]. clear Hc3 Hc4 Hc24 st2 st3.
    apply wp_bind, wp_get_s, wp_bind, wp_new_fd; [done|done| |].
    + intros f st5 Hf Hq. apply wp_bind, wp_sys. intros ? st6 Hc6 _. apply wp_ret, HQ.
      eapply ok_core; [exact Hc6|]. eapply ok_quiet; [exact Hq|].
      eapply ok_built_freed; [done|done|done|done| |exact Hf]. set_solver.
    + intros st5 Hq. apply wp_bind, wp_stat_read. intros st6 Hq6. apply wp_bind, wp_mod_s.
      apply wp_bind, wp_set_result. intros st7 Hc7. apply wp_ret, HQ. eapply ok_core; [exact Hc7|].
      eapply ok_quiet; [apply quiet_set_type; etransitivity; [exact Hq|exact Hq6]|].
      by eapply ok_built_tcp.
  - intros st2 Hok2 _ _. cbn. apply wp_bind, wp_sys. intros ? st3 Hc3 _. apply wp_ret, HQ. by eapply ok_core.
Qed.
End accept.
