(* ===== verification/SocketSend.v ===== *)
(** * Sending in the socket thread

    What [send_buffer] of [Socket] does when a socket can be written: it keeps the
    invariant, and the bytes that go to the kernel, followed by those that still
    wait, are the bytes that waited before. *)
From S2P Require Import Prelude StateM Memory SocketState Socket SocketOk SocketThread.

Local Open Scope Z_scope.

(** ** The bytes that are sent and those that wait *)

(** What an entry of the history has written to [fd]. *)
Definition entry_sent (fd : Z) (e : entry) : list Z :=
  match e with
  | Entry c a =>
      match c in syscall A return A → list Z with
      | SWrite fd' bs => λ a, if fd' =? fd then take (Z.to_nat a) bs else []
      | _ => λ _, []
      end a
  end.

Definition sent (fd : Z) (h : list entry) : list Z := concat (entry_sent fd <$> h).

Definition rest_of (h : gmap addr (list Z)) (wb : write_buffer) : list Z :=
  take (Z.to_nat (wb_sz wb)) (drop (Z.to_nat (wb_ptr wb)) (default [] (h !! wb_buffer wb))).

Definition pend (h : gmap addr (list Z)) (l : list write_buffer) : list Z := concat (rest_of h <$> l).

(** The rest of a direct write goes first, then [high], then [low]. *)
Definition dw_wb (s : socket) : list write_buffer :=
  match s_dw_buffer s with
  | Some p => [MkWb p (s_dw_offset s) (s_dw_size s - s_dw_offset s) false []]
  | None => []
  end.

Definition pending (h : gmap addr (list Z)) (s : socket) : list Z :=
  pend h (dw_wb s ++ s_high s ++ s_low s).

Lemma sent_app fd h h' : sent fd (h ++ h') = sent fd h ++ sent fd h'.
Proof. unfold sent. by rewrite fmap_app, concat_app. Qed.

Lemma pend_app h l l' : pend h (l ++ l') = pend h l ++ pend h l'.
Proof. unfold pend. by rewrite fmap_app, concat_app. Qed.

Lemma pend_heap h h' l : (∀ wb, wb ∈ l → h' !! wb_buffer wb = h !! wb_buffer wb) → pend h' l = pend h l.
Proof.
  intros H. unfold pend. f_equal. apply list_fmap_ext. intros k wb Hk. unfold rest_of.
  rewrite H; [done|]. by eapply list_elem_of_lookup_2.
Qed.

(** A buffer after [n] more bytes of it have been written. *)
Definition advance (n : Z) (wb : write_buffer) : write_buffer :=
  MkWb (wb_buffer wb) (wb_ptr wb + n) (wb_sz wb - n) (wb_userobject wb) (wb_room wb).

Lemma rest_advance h n wb : 0 ≤ n ≤ wb_sz wb → 0 ≤ wb_ptr wb →
  rest_of h wb = take (Z.to_nat n) (rest_of h wb) ++ rest_of h (advance n wb).
Proof.
  intros Hn Hp. unfold rest_of, advance. cbn. set (b := default _ _).
  rewrite take_take, Nat.min_l by lia.
  replace (Z.to_nat (wb_ptr wb + n)) with (Z.to_nat (wb_ptr wb) + Z.to_nat n)%nat by lia.
  rewrite <-drop_drop. set (c := drop _ b).
  rewrite <-(take_drop (Z.to_nat n) (take (Z.to_nat (wb_sz wb)) c)), take_take, Nat.min_l by lia.
  f_equal. rewrite take_drop_commute. repeat f_equal. lia.
Qed.

(** ** Changes of the lists *)

Definition popped (hi : bool) (n : Z) (l : list write_buffer) (s : socket) : socket :=
  set_wl hi l (set_wb_size (i64 (s_wb_size s - n)) s).

Lemma i64_i64_sub a b : i64 (i64 a - b) = i64 (a - b).
Proof. apply (i64_i64_add a (- b)). Qed.

Section popped.
Context (B : option Z) (cur : list request) (held : list addr) (i : Z) (st : net).
Hypothesis Hok : ok (Some i) B cur held st.
Hypothesis Hl : is_live (slot_at i st).
Hypothesis Hp : s_protocol (slot_at i st) = PROTOCOL_TCP.

Lemma ok_popped hi n tmp rest l held' :
  wl_of hi (slot_at i st) = tmp :: rest →
  Forall (wb_ok (n_heap st)) l → total l = total (tmp :: rest) - n →
  held' ++ (wb_buffer <$> l) ≡ₚ held ++ (wb_buffer <$> tmp :: rest) →
  ok (Some i) B cur held' (upd i (popped hi n l) st).
Proof.
  intros Hw Hf Ht Hh. pose proof (live_tcp _ _ _ _ _ _ Hok Hl Hp) as [T1 T2 T3 T5].
  apply Forall_app in T3 as [T3 T3']. eapply ok_upd; [exact Hok| | |by destruct hi|by destruct hi|by destruct hi|done].
  - eapply slot_ok_bufs; [apply Hok|done|done| | | |].
    + by destruct hi.
    + unfold popped. rewrite T2, i64_i64_sub.
      destruct hi; cbn [set_wb_size set_wl set_high set_low s_high s_low s_wb_size wl_of] in *;
        rewrite Hw, Ht; f_equal; lia.
    + destruct hi; cbn; apply Forall_app; by split.
    + by destruct hi.
  - unfold slot_bufs. destruct hi; cbn in *; rewrite Hw in *; revert Hh; cbn;
      generalize (wb_buffer <$> l); intros bl Hh.
    + transitivity ((held' ++ bl) ++ option_list (s_dw_buffer (slot_at i st)) ++ (wb_buffer <$> s_low (slot_at i st)));
        [solve_Permutation|rewrite Hh; solve_Permutation].
    + transitivity ((held' ++ bl) ++ option_list (s_dw_buffer (slot_at i st)) ++ (wb_buffer <$> s_high (slot_at i st)));
        [solve_Permutation|rewrite Hh; solve_Permutation].
Qed.
End popped.

(** ** One list *)

Section list.
Context {Kern : Kernel} {fuel : nat} {Laws : KernelLaws fuel}.
Implicit Types (st : net).

(** The socket has handed a part of one list to the kernel. *)
Record progress (hi : bool) (i : Z) (l : list write_buffer) (st st' : net) : Prop := {
  pr_slot : ∃ stat size,
    slot_at i st' = set_stat stat (set_wb_size size (set_wl hi l (slot_at i st)));
  pr_other j : j ≠ i → slot_at j st' = slot_at j st;
  pr_rest : n_pipe st' = n_pipe st ∧ n_alloc_id st' = n_alloc_id st ∧ ev_view st' = ev_view st;
  pr_heap p : p ∈ slot_bufs (slot_at i st') → n_heap st' !! p = n_heap st !! p;
  pr_bytes : sent (s_fd (slot_at i st)) (n_history st') ++ pend (n_heap st') l =
    sent (s_fd (slot_at i st)) (n_history st) ++ pend (n_heap st) (wl_of hi (slot_at i st))
}.

(** The kernel takes all that is written to [fd]. *)
Definition takes_all (fd : Z) : Prop := ∀ h bs, answer h (SWrite fd bs) = zlen bs.

Lemma wp_write_loop k fd bs (Q : option Z → net → Prop) st :
  interrupted k (n_history st) fd bs = false →
  (∀ r st', core st = core st' →
     sent fd (n_history st') = sent fd (n_history st) ++ take (Z.to_nat (default 0 r)) bs →
     match r with Some n => 0 ≤ n ≤ zlen bs | None => True end →
     (takes_all fd → r = Some (zlen bs)) → Q r st') →
  wp (loopM k (write_turn fd bs) tt) Q st.
Proof.
  revert st. induction k as [|k IH]; intros st Hi HQ; [done|]. cbn [loopM interrupted] in *.
  pose proof (law_write (fuel := fuel) (n_history st) fd bs) as Hle.
  apply wp_bind. unfold write_turn. apply wp_bind, wp_sys_exact. cbv zeta in *.
  set (a := answer _ _) in *.
  assert (Hsent : sent fd (n_history st ++ [Entry (SWrite fd bs) a]) =
    sent fd (n_history st) ++ take (Z.to_nat a) bs).
  { rewrite sent_app. unfold sent at 2. cbn. by rewrite Z.eqb_refl, app_nil_r. }
  destruct (Z.ltb_spec a 0) as [Hneg|Hpos].
  - replace (Z.to_nat a) with 0%nat in Hsent by lia. rewrite take_0, app_nil_r in Hsent.
    cbn [Z.ltb Z.compare]. apply wp_bind, wp_get_errno. cbn [n_errno put_errno].
    destruct (Z.eqb_spec (- a) EINTR) as [E|E].
    + apply wp_ret, IH.
      * cbn. replace (a =? - EINTR) with true in Hi by lia. exact Hi.
      * intros r st' Hc Hs Hr Hall. apply HQ; [done| |done|done]. rewrite Hs. f_equal. exact Hsent.
    + apply wp_ret, wp_ret, HQ; [done| |done|]; cycle 1.
      { intros Hall. pose proof (Hall (n_history st) bs). pose proof (zlen_nonneg bs). unfold a in *. lia. }
      change (Z.to_nat (default 0 None)) with 0%nat.
      rewrite take_0, app_nil_r. exact Hsent.
  - replace (a <? 0) with false by lia. apply wp_ret, wp_ret, HQ; [done|exact Hsent|lia|].
    intros Hall. f_equal. apply Hall.
Qed.

Lemma wp_stat_write_exact i n (Q : unit → net → Prop) st :
  (∀ t, Q tt (upd i (set_stat t) st)) → wp (stat_write i n) Q st.
Proof.
  intros HQ. unfold stat_write. apply wp_bind, wp_gets, wp_mod_s.
  apply (HQ (MkStat (rtime (s_stat (slot_at i st))) (n_time st) (st_read (s_stat (slot_at i st)))
    (u64 (st_write (s_stat (slot_at i st)) + n)))).
Qed.

(** ** The turns of [send_list_tcp] *)

Context (held : list addr) (hi : bool) (i : Z) (st : net).
Let s0 := slot_at i st.
Let l0 := wl_of hi s0.

Lemma progress_wl l st' : progress hi i l st st' → wl_of hi (slot_at i st') = l.
Proof. intros [(stat & size & ->) _ _ _ _]. by destruct hi. Qed.

Lemma progress_fields l st' (A : Type) (f : socket → A) :
  (∀ x y s, f (set_stat x (set_wb_size y (set_wl hi l s))) = f s) →
  progress hi i l st st' → f (slot_at i st') = f s0.
Proof. intros Hf [(stat & size & ->) _ _ _ _]. apply Hf. Qed.

Lemma progress_live l st' : progress hi i l st st' → is_live s0 →
  is_live (slot_at i st') ∧ s_protocol (slot_at i st') = s_protocol s0 ∧ s_fd (slot_at i st') = s_fd s0.
Proof.
  intros Hpr Hl. unfold is_live.
  rewrite (progress_fields l _ _ s_type), (progress_fields l _ _ s_protocol), (progress_fields l _ _ s_fd);
    by destruct hi.
Qed.

(** [n] bytes of the head have been written and the list is now [l]. *)
Lemma progress_more l tmp rest n t st1 st2 :
  progress hi i (tmp :: rest) st st1 → core st1 = core st2 →
  sent (s_fd s0) (n_history st2) = sent (s_fd s0) (n_history st1) ++ take (Z.to_nat n) (rest_of (n_heap st1) tmp) →
  take (Z.to_nat n) (rest_of (n_heap st1) tmp) ++ pend (n_heap st1) l = pend (n_heap st1) (tmp :: rest) →
  (∀ p, p ∈ wb_buffer <$> l → p ∈ wb_buffer <$> tmp :: rest) →
  progress hi i l st (upd i (popped hi n l) (upd i (set_stat t) st2)).
Proof.
  intros [(stat & size & P1) P2 P3 P4 P5] Hc Hs Hb Hin. rewrite upd_upd.
  pose proof (core_heap _ _ Hc) as Hh. split.
  - rewrite slot_at_upd, <-(core_slot_at _ _ _ Hc), P1. exists t, (i64 (size - n)). by destruct hi.
  - intros j Hj. rewrite slot_at_upd_ne by done. rewrite <-(core_slot_at _ _ _ Hc). by apply P2.
  - destruct P3 as (Q1 & Q2 & Q3). cbn. change (ev_view (upd i ?f st2)) with (ev_view st2).
    by rewrite <-(core_pipe _ _ Hc), <-(core_top _ _ Hc), <-(core_ev _ _ Hc).
  - intros p. rewrite slot_at_upd, <-(core_slot_at _ _ _ Hc), P1. change (n_heap (upd _ _ st2)) with (n_heap st2).
    rewrite <-Hh. intros Hp. apply P4. rewrite P1. unfold slot_bufs in *.
    destruct hi; cbn in *; rewrite !elem_of_app in *; specialize (Hin p); cbn in Hin; set_solver.
  - change (n_history (upd _ _ st2)) with (n_history st2). change (n_heap (upd _ _ st2)) with (n_heap st2).
    rewrite <-Hh, <-P5. fold s0. by rewrite Hs, <-app_assoc, Hb.
Qed.
End list.

(** ** Functions that write nothing *)

(** Nothing has been written and no socket has another file descriptor. *)
Definition calm (st st' : net) : Prop :=
  (∀ fd, sent fd (n_history st') = sent fd (n_history st)) ∧
  (∀ i, s_fd (slot_at i st') = s_fd (slot_at i st)).

Definition silent {A} (m : M A) : Prop := ∀ st, pwp m (λ _, calm st) st.

Lemma silent_ret {A} (a : A) : silent (mret a).
Proof. intros st. by apply pwp_ret. Qed.
Lemma silent_bind {A C} (m : M A) (f : A → M C) : silent m → (∀ a, silent (f a)) → silent (m ≫= f).
Proof.
  intros Hm Hf st. apply pwp_bind. eapply pwp_mono; [apply Hm|]. intros a st1 [H1 H1'].
  eapply pwp_mono; [apply Hf|]. intros c st2 [H2 H2']. split; intros; by rewrite ?H2, ?H2'.
Qed.
Lemma silent_gets {A} (f : net → A) : silent (gets f).
Proof. intros st. by apply pwp_gets. Qed.
Lemma silent_modify f :
  (∀ st, n_history (f st) = n_history st ∧ n_slot (f st) = n_slot st) → silent (modify f).
Proof.
  intros Hf st. destruct (Hf st) as [H1 H2]. apply pwp_modify. unfold calm, slot_at. by rewrite H1, H2.
Qed.
Lemma silent_lift {A} (m : outcome A) : silent (liftO m).
Proof. intros st. by apply pwp_lift. Qed.
Lemma silent_get_s i : silent (get_s i).
Proof. apply silent_gets. Qed.
Lemma silent_mod_s i f : (∀ s, s_fd (f s) = s_fd s) → silent (mod_s i f).
Proof.
  intros Hf st. unfold mod_s. apply pwp_modify. split; [done|]. intros j.
  apply (slot_at_upd_case i j f st (λ s, s_fd s = s_fd (slot_at j st))); [intros _; apply Hf|done].
Qed.

Section silent.
Context {Kern : Kernel}.

Lemma silent_call {A} (c : syscall A) : (∀ fd a, entry_sent fd (Entry c a) = []) → silent (call c).
Proof.
  intros Hc. unfold call. apply silent_bind; [apply silent_gets|]. intros a st.
  apply pwp_bind, pwp_modify, pwp_ret. split; [|done]. intros fd.
  cbn [n_history put_history]. rewrite sent_app.
  change (sent fd [Entry c a]) with (entry_sent fd (Entry c a) ++ []). by rewrite Hc, !app_nil_r.
Qed.

Lemma silent_sys c : (∀ fd a, entry_sent fd (Entry c a) = []) → silent (sys c).
Proof.
  intros Hc. unfold sys. apply silent_bind; [by apply silent_call|]. intros r.
  destruct (r <? 0); [|apply silent_ret]. apply silent_bind; [by apply silent_modify|intros; apply silent_ret].
Qed.

Lemma silent_hfree p : silent (hfree p).
Proof.
  unfold hfree. apply silent_bind; [apply silent_gets|]. intros [?|]; [by apply silent_modify|apply silent_lift].
Qed.
End silent.

Create HintDb silent.
#[export] Hint Resolve silent_ret silent_gets silent_lift silent_get_s silent_hfree : silent.
#[export] Hint Extern 1 (silent (modify _)) => (by apply silent_modify) : silent.
#[export] Hint Extern 1 (silent (mod_s _ _)) => (by apply silent_mod_s) : silent.
#[export] Hint Extern 1 (silent (call _)) => (by apply silent_call) : silent.
#[export] Hint Extern 1 (silent (sys _)) => (by apply silent_sys) : silent.

Ltac silent :=
  repeat first
    [ solve [auto with silent]
    | apply silent_bind; [|intros ?]
    | match goal with |- silent (if ?b then _ else _) => destruct b end
    | match goal with |- silent (match ?x with _ => _ end) => destruct x end
    | progress cbv zeta ].

Section silent_functions.
Context {Kern : Kernel}.

Lemma silent_set_result r : silent (set_result r).
Proof. unfold set_result. silent. Qed.
#[local] Hint Resolve silent_set_result : silent.

Lemma silent_enable_write i b : silent (enable_write i b).
Proof. unfold enable_write, sp_enable. silent. Qed.
Lemma silent_report_error i e : silent (report_error i e).
Proof. unfold report_error. silent. Qed.

Lemma silent_free_wb_list l : silent (free_wb_list l).
Proof. induction l as [|wb l IH]; cbn; unfold write_buffer_free, soi_call; silent. Qed.
#[local] Hint Resolve silent_enable_write silent_report_error silent_free_wb_list : silent.

Lemma silent_force_close i l : silent (force_close i l).
Proof. unfold force_close, socket_lock, socket_unlock, sp_del, free_buffer, soi_call. silent. Qed.
#[local] Hint Resolve silent_force_close : silent.

Lemma silent_close_write i l : silent (close_write i l).
Proof. unfold close_write, get_errno. silent. Qed.
Lemma silent_finish_sending i l : silent (finish_sending i l).
Proof. unfold finish_sending. silent. Qed.
Lemma silent_take_dw_buffer i : silent (take_dw_buffer i).
Proof. unfold take_dw_buffer, send_object_init, soi_call. silent. Qed.
End silent_functions.

(** ** The turns of [send_list_tcp] that end *)

(** The socket is closed, or for writing. *)
Definition cannot_write (s : socket) : Prop :=
  s_type s = SOCKET_TYPE_INVALID ∨ s_type s = SOCKET_TYPE_HALFCLOSE_WRITE.

Section turns.
Context {Kern : Kernel} {fuel : nat} {Laws : KernelLaws fuel}.
Implicit Types (st : net).

Lemma wp_close_write held i (Q : Z → net → Prop) st :
  ok (Some i) None [] held st → is_live (slot_at i st) → whole (s_low (slot_at i st)) →
  (∀ v st', v = SOCKET_ERR ∨ v = SOCKET_RST → ok (Some i) None [] held st' →
     whole (s_low (slot_at i st')) → cannot_write (slot_at i st') → Q v st') →
  wp (close_write i 1) Q st.
Proof.
  intros Hok Hl Hw HQ. unfold close_write. apply wp_bind, wp_get_s.
  assert (Hforce : wp (force_close i 1;; mret SOCKET_RST) Q st).
  { apply wp_bind. eapply wp_force_close; [exact Hok|by apply live_not_reserve|by right|].
    intros st1 Hok1 Hcl. apply wp_ret, HQ; [by right|done| |left; apply Hcl].
    destruct (no_bufs _ (closed_bufs _ _ _ _ _ _ _ Hok1 Hcl)) as (_ & _ & ->). constructor. }
  destruct (s_closing _); [done|]. destruct (_ =? _); [done|].
  destruct (Z.eqb_spec (s_type (slot_at i st)) SOCKET_TYPE_HALFCLOSE_WRITE).
  { apply wp_ret, HQ; [by right|done|done|by right]. }
  apply wp_bind, wp_mod_s, wp_bind, wp_sys. intros ? st1 Hc1 _.
  apply wp_bind, wp_enable_write. intros ? st2 Hq2. apply wp_bind, wp_get_errno, wp_report_error.
  intros st3 Hc3. apply HQ; [by left| | |right].
  - eapply ok_core; [exact Hc3|]. eapply ok_quiet; [exact Hq2|]. eapply ok_core; [exact Hc1|].
    by apply ok_retype.
  - rewrite <-(core_slot_at _ _ _ Hc3). pose proof (q_view _ _ Hq2 i) as Hv.
    rewrite <-(core_slot_at _ _ _ Hc1), slot_at_upd in Hv. unfold view in Hv. cbn in Hv.
    replace (s_low (slot_at i st2)) with (s_low (slot_at i st)) by congruence. done.
  - rewrite <-(core_slot_at _ _ _ Hc3), (quiet_type i _ _ Hq2), <-(core_slot_at _ _ _ Hc1).
    by rewrite slot_at_upd.
Qed.

Context (held : list addr) (hi : bool) (i : Z) (st : net).
Hypothesis Hl : is_live (slot_at i st).
Hypothesis Hp : s_protocol (slot_at i st) = PROTOCOL_TCP.
Hypothesis Hlow : whole (s_low (slot_at i st)).
Local Notation l0 := (wl_of hi (slot_at i st)).
Local Notation fd := (s_fd (slot_at i st)).

(** What the call of [send_list_tcp] ends with: the list has been handed over up to
    a first buffer that may be in part; or the socket has an error. *)
Definition list_done (r : Z) (st' : net) : Prop :=
  (r = -1 ∧ ∃ l, (∀ wb, wb ∈ tail l → wb ∈ l0) ∧ ok (Some i) None [] held st' ∧ progress hi i l st st' ∧
     (takes_all fd → l = [])) ∨
  (¬ takes_all fd ∧ (r = SOCKET_ERR ∨ r = SOCKET_RST) ∧ ok (Some i) None [] held st' ∧
    whole (s_low (slot_at i st')) ∧ cannot_write (slot_at i st') ∧
    ∃ rest, sent fd (n_history st') ++ rest = sent fd (n_history st) ++ pend (n_heap st) l0).

Definition list_turn (st' : net) (l : list write_buffer) : Prop :=
  l `suffix_of` l0 ∧ ok (Some i) None [] held st' ∧ progress hi i l st st'.

Lemma suffix_in (l l' : list write_buffer) wb : l `suffix_of` l' → wb ∈ tail l → wb ∈ l'.
Proof. intros [k ->] Hin. apply elem_of_app. right. destruct l; [done|]. by right. Qed.

Lemma list_turn_done st' l : list_turn st' l → (takes_all fd → l = []) → list_done (-1) st'.
Proof.
  intros (Hs & Hok & Hpr) Hall. left. split; [done|]. exists l. split; [|done].
  intros wb. by apply suffix_in.
Qed.

Lemma list_turn_low st' l : list_turn st' l → whole (s_low (slot_at i st')).
Proof.
  intros (Hs & _ & [(stat & size & ->) _ _ _ _]). destruct hi; [exact Hlow|]. cbn. destruct Hs as [k Hk].
  unfold whole in *. cbn in Hk. rewrite Hk in Hlow. apply Forall_app in Hlow. apply Hlow.
Qed.

Lemma wb_block st' tmp rest :
  ok (Some i) None [] held st' → is_live (slot_at i st') → s_protocol (slot_at i st') = PROTOCOL_TCP →
  wl_of hi (slot_at i st') = tmp :: rest →
  Forall (wb_ok (n_heap st')) (tmp :: rest) ∧ 0 ≤ wb_ptr tmp ∧ 0 ≤ wb_sz tmp ∧ wb_userobject tmp = false ∧
  zlen (rest_of (n_heap st') tmp) = wb_sz tmp ∧
  ∃ bs, n_heap st' !! wb_buffer tmp = Some bs ∧ wb_ptr tmp + wb_sz tmp ≤ zlen bs.
Proof.
  intros Hok Hl' Hp' Hw. pose proof (live_tcp _ _ _ _ _ _ Hok Hl' Hp') as [_ _ T3 _].
  apply Forall_app in T3 as [T3 T3']. assert (Hall : Forall (wb_ok (n_heap st')) (tmp :: rest)).
  { destruct hi; cbn in Hw; by rewrite <-Hw. }
  split; [done|]. apply Forall_cons in Hall as [(W1 & W2 & W3 & (bs & Hbs & W4 & _)) _].
  split_and!; [done|done|done| |exists bs; split; [done|lia]].
  unfold rest_of. rewrite Hbs. cbn. unfold zlen in *. rewrite length_take, length_drop. lia.
Qed.

Lemma upd_popped n l st' :
  upd i (set_wl hi l) (upd i (λ s, set_wb_size (i64 (s_wb_size s - n)) s) st') = upd i (popped hi n l) st'.
Proof. exact (upd_upd i (λ s, set_wb_size (i64 (s_wb_size s - n)) s) (set_wl hi l) st'). Qed.

Lemma progress_free l p st' :
  progress hi i l st st' → p ∉ slot_bufs (slot_at i st') →
  progress hi i l st (put_heap (delete p (n_heap st')) st').
Proof.
  intros Hpr Hp'. pose proof (progress_wl _ _ _ _ _ Hpr) as Hw. destruct Hpr as [P1 P2 P3 P4 P5].
  split; [exact P1|exact P2|exact P3| |].
  - intros q Hq. change (q ∈ slot_bufs (slot_at i st')) in Hq. cbn.
    rewrite lookup_delete_ne by (intros ->; done). by apply P4.
  - cbn [n_heap n_history put_heap]. rewrite <-P5. f_equal. apply pend_heap. intros wb Hwb.
    apply lookup_delete_ne. intros ->. apply Hp'. rewrite <-Hw in Hwb. unfold slot_bufs.
    rewrite !elem_of_app, !list_elem_of_fmap. destruct hi; cbn in Hwb; eauto 6.
Qed.

Lemma wp_send_tcp_turn st' l (Q : unit + Z → net → Prop) :
  list_turn st' l →
  (∀ st'' l', list_turn st'' l' → (length l' < length l)%nat → Q (inl tt) st'') →
  (∀ r st'', list_done r st'' → Q (inr r) st'') →
  wp (send_tcp_turn fuel i hi 1 tt) Q st'.
Proof.
  intros Hturn Hmore Hend. pose proof Hturn as (Hs & Hok & Hpr).
  destruct (progress_live _ _ _ _ _ Hpr Hl) as (Hl' & Hp' & Hfd). rewrite Hp in Hp'.
  unfold send_tcp_turn. apply wp_bind, wp_get_s. pose proof (progress_wl _ _ _ _ _ Hpr) as Hw. rewrite Hw.
  destruct l as [|tmp rest]; [apply wp_ret, Hend; by eapply list_turn_done|].
  destruct (wb_block st' tmp rest Hok Hl' Hp' Hw) as (Hall & W1 & W2 & W3 & Hlen & bs & Hbs & Hsz).
  apply wp_bind. eapply wp_hread; [exact Hbs|lia|lia|lia|].
  assert (Hrest : take (Z.to_nat (wb_sz tmp)) (drop (Z.to_nat (wb_ptr tmp)) bs) = rest_of (n_heap st') tmp).
  { unfold rest_of. by rewrite Hbs. }
  rewrite Hrest, Hfd. apply wp_bind, (wp_write_loop (Laws := Laws)); [apply law_intr|].
  intros r st2 Hc Hsent Hr Hfull. destruct r as [n|]; cycle 1.
  { assert (Hnot : ¬ takes_all fd) by (intros H; by specialize (Hfull H)).
    change (Z.to_nat (default 0 None)) with 0%nat in Hsent.
    pose proof (ok_core _ _ _ _ _ _ Hc Hok) as Hok2.
    assert (Hturn2 : list_turn st2 (tmp :: rest)).
    { split; [done|split; [done|]]. destruct Hpr as [P1 P2 P3 P4 P5]. split.
      - by rewrite <-(core_slot_at _ _ _ Hc).
      - intros j Hj. rewrite <-(core_slot_at _ _ _ Hc). by apply P2.
      - by rewrite <-(core_pipe _ _ Hc), <-(core_top _ _ Hc), <-(core_ev _ _ Hc).
      - intros p. rewrite <-(core_slot_at _ _ _ Hc), <-(core_heap _ _ Hc). apply P4.
      - rewrite <-(core_heap _ _ Hc), <-P5. by rewrite Hsent, take_0, app_nil_r. }
    apply wp_bind, wp_get_errno. destruct (_ =? _); [apply wp_ret, Hend; by eapply list_turn_done; [|intros H]|].
    apply wp_bind. eapply wp_mono; [apply wp_and; [|apply silent_close_write]|].
    { eapply (wp_close_write _ _ (λ v st3, (v = SOCKET_ERR ∨ v = SOCKET_RST) ∧ ok (Some i) None [] held st3 ∧
        whole (s_low (slot_at i st3)) ∧ cannot_write (slot_at i st3)));
        [exact Hok2|by rewrite <-(core_slot_at _ _ _ Hc)|by eapply list_turn_low|by intros]. }
    intros v st3 [(Hv & Hok3 & Hw3 & Hcw) [Hsame _]]. apply wp_ret, Hend. right. split_and!; try done.
    exists (pend (n_heap st2) (tmp :: rest)). rewrite Hsame. apply Hturn2. }
  cbn [default] in Hsent. rewrite Hlen in Hr.
  apply wp_bind, wp_stat_write_exact. intros t. apply wp_bind, wp_mod_s.
  assert (Hok3 : ok (Some i) None [] held (upd i (set_stat t) st2)).
  { eapply ok_quiet; [by apply quiet_upd|]. by eapply ok_core. }
  assert (Hl3 : is_live (slot_at i (upd i (set_stat t) st2)) ∧
    s_protocol (slot_at i (upd i (set_stat t) st2)) = PROTOCOL_TCP ∧
    wl_of hi (slot_at i (upd i (set_stat t) st2)) = tmp :: rest).
  { rewrite slot_at_upd, <-(core_slot_at _ _ _ Hc). split_and!; [done|done|by destruct hi]. }
  destruct Hl3 as (Hl3 & Hp3 & Hw3). pose proof (core_heap _ _ Hc) as Hh.
  destruct (Z.eqb_spec n (wb_sz tmp)) as [->|Hne]; cbn [negb].
  - apply wp_bind, wp_mod_s. rewrite upd_popped. set (st3 := upd i (set_stat t) st2) in *.
    assert (Hok4 : ok (Some i) None [] (wb_buffer tmp :: held) (upd i (popped hi (wb_sz tmp) rest) st3)).
    { eapply ok_popped; [exact Hok3|done|done|exact Hw3| |cbn; unfold total; lia|cbn; solve_Permutation].
      change (n_heap st3) with (n_heap st2). rewrite <-Hh. by apply Forall_cons in Hall as [_ ?]. }
    assert (Hpr4 : progress hi i rest st (upd i (popped hi (wb_sz tmp) rest) st3)).
    { eapply progress_more; [exact Hpr|exact Hc|exact Hsent| |set_solver].
      rewrite firstn_all2 by (unfold zlen in Hlen; lia). done. }
    apply wp_bind. unfold write_buffer_free. rewrite W3. apply wp_hfree.
    { change (heap (upd _ _ _)) with (n_heap st2). rewrite <-Hh. by exists bs. }
    apply wp_ret, (Hmore _ rest); [|cbn; lia]. split; [by eapply suffix_cons_l|]. split.
    + by apply ok_free.
    + apply progress_free; [done|]. intros Hin.
      destruct (mem_ok_held _ _ _ (ok_mem _ _ _ _ _ Hok4)) as (_ & _ & Hns & _).
      apply Hns. by apply (slot_bufs_elem _ i).
  - apply wp_bind, wp_mod_s. rewrite upd_popped. apply wp_ret, Hend. left. split; [done|].
    exists (advance n tmp :: rest). split; [|split; [|split]].
    + intros wb Hwb. eapply suffix_in; [exact Hs|exact Hwb].
    + eapply ok_popped; [exact Hok3|done|done|exact Hw3| |cbn; unfold total; lia|done].
      change (n_heap (upd _ _ _)) with (n_heap st2). rewrite <-Hh.
      apply Forall_cons in Hall as [(V1 & V2 & V3 & V4) ?]. apply Forall_cons. split; [|done].
      split_and!; cbn; [lia|lia|done|]. by replace (wb_ptr tmp + n + (wb_sz tmp - n)) with (wb_ptr tmp + wb_sz tmp) by lia.
    + eapply progress_more; [exact Hpr|exact Hc|exact Hsent| |done].
      change (pend ?h (?x :: ?y)) with (rest_of h x ++ pend h y).
      rewrite app_assoc, <-rest_advance by lia. done.
    + intros Heager. destruct Hne. specialize (Hfull Heager). injection Hfull as ->. exact Hlen.
Qed.

Lemma wp_send_list_tcp (Q : Z → net → Prop) :
  ok (Some i) None [] held st → (∀ r st'', list_done r st'' → Q r st'') →
  wp (send_list_tcp fuel i hi 1) Q st.
Proof.
  intros Hok HQ. unfold send_list_tcp. apply wp_bind, wp_get_s.
  eapply (wp_loop (λ _ st', ∃ l, list_turn st' l) (λ _ st', length (wl_of hi (slot_at i st')))).
  - intros [] st' (l & Hturn). pose proof Hturn as (_ & _ & Hpr). rewrite (progress_wl _ _ _ _ _ Hpr).
    eapply wp_send_tcp_turn; [exact Hturn| |exact HQ]. intros st'' l' Hturn' Hlt.
    pose proof Hturn' as (_ & _ & Hpr'). rewrite (progress_wl _ _ _ _ _ Hpr'). eauto.
  - exists l0. split; [done|]. split; [done|]. split; try done.
    exists (s_stat (slot_at i st)), (s_wb_size (slot_at i st)). destruct hi; by destruct (slot_at i st).
  - cbn. lia.
Qed.
End turns.

(** ** The whole of [send_buffer] *)

Section buffer.
Context {Kern : Kernel} {fuel : nat} {Laws : KernelLaws fuel}.
Implicit Types (st : net).

(** The bytes that have gone to the kernel and those that wait. *)
Definition stream (i : Z) (st : net) : list Z :=
  sent (s_fd (slot_at i st)) (n_history st) ++ pending (n_heap st) (slot_at i st).

Lemma wp_take_dw_buffer held i (Q : unit → net → Prop) st :
  ok (Some i) None [] held st → is_live (slot_at i st) →
  (∀ st', ok (Some i) None [] held st' → is_live (slot_at i st') → stream i st' = stream i st →
     s_low (slot_at i st') = s_low (slot_at i st) → s_dw_buffer (slot_at i st') = None →
     s_fd (slot_at i st') = s_fd (slot_at i st) →
     s_closing (slot_at i st') = s_closing (slot_at i st) → Q tt st') →
  wp (take_dw_buffer i) Q st.
Proof.
  intros Hok Hl HQ. unfold take_dw_buffer. apply wp_bind, wp_get_s.
  destruct (s_dw_buffer (slot_at i st)) as [p|] eqn:Ed; [|by apply wp_ret, HQ].
  assert (Hp : s_protocol (slot_at i st) = PROTOCOL_TCP).
  { destruct (decide (s_protocol (slot_at i st) = PROTOCOL_TCP)) as [|Hne]; [done|].
    pose proof (live_udp _ _ _ _ _ _ Hok Hl Hne) as [_ _ _ U]. destruct (no_bufs _ U). congruence. }
  pose proof (live_tcp _ _ _ _ _ _ Hok Hl Hp) as [T1 T2 T3 T5]. destruct (T5 p Ed) as [Hb Ho].
  destruct Hb as (bs & Hbs & Hz & Hmax). apply wp_bind, wp_send_object_init; [lia|]. cbn [so_sz].
  apply wp_bind, wp_mod_s, wp_bind, wp_mod_s, wp_mod_s. rewrite !upd_upd. cbn [wb_sz].
  set (wb := MkWb p (s_dw_offset (slot_at i st)) (s_dw_size (slot_at i st) - s_dw_offset (slot_at i st)) false []).
  set (f := λ s : socket, set_dw_buffer None _).
  assert (Hf : f (slot_at i st) = set_dw_buffer None (set_high (wb :: s_high (slot_at i st))
    (set_wb_size (i64 (s_wb_size (slot_at i st) + wb_sz wb)) (slot_at i st)))) by done.
  clearbody f. apply HQ; rewrite ?slot_at_upd, ?Hf; try done.
  - eapply ok_upd; [exact Hok| | | | | |done]; rewrite ?Hf; try done.
    + eapply slot_ok_bufs; [apply Hok|done|done| | | |]; try done.
      * cbn. rewrite T2, i64_i64_add. f_equal. unfold total. cbn. lia.
      * cbn. apply Forall_cons. split; [|done]. split_and!; cbn; [lia|lia|done|].
        exists bs. split_and!; [done|lia|lia].
    + unfold slot_bufs. cbn. rewrite Ed. cbn. solve_Permutation.
  - unfold stream. rewrite slot_at_upd, Hf. cbn. f_equal. unfold pending. cbn.
    unfold dw_wb. cbn. by rewrite Ed.
Qed.

(** Nothing waits any more, and a socket that was to be closed is. *)
Definition all_sent (i : Z) (st st' : net) : Prop :=
  stream i st' = stream i st ∧ slot_bufs (slot_at i st') = [] ∧
  (s_closing (slot_at i st) = true → s_type (slot_at i st') = SOCKET_TYPE_INVALID).

(** The socket cannot be written any more, and the kernel has got the beginning of what
    waited. *)
Definition cut_off (i : Z) (st st' : net) : Prop :=
  cannot_write (slot_at i st') ∧ ∃ rest, sent (s_fd (slot_at i st)) (n_history st') ++ rest = stream i st.

(** What holds at the end, with the lock still held. *)
Definition sent_on (held : list addr) (i : Z) (st st' : net) : Prop :=
  ok (Some i) None [] held st' ∧ whole (s_low (slot_at i st')) ∧
  (stream i st' = stream i st ∨ cut_off i st st') ∧
  (takes_all (s_fd (slot_at i st)) → all_sent i st st').

Lemma stream_quiet i st st' : quiet st st' → calm st st' → stream i st' = stream i st.
Proof.
  intros [V _ _ R] [Hs Hfd]. unfold stream, pending, dw_wb. specialize (V i). unfold view in V.
  rewrite Hfd, Hs. replace (s_dw_buffer (slot_at i st')) with (s_dw_buffer (slot_at i st)) by congruence.
  replace (s_dw_offset (slot_at i st')) with (s_dw_offset (slot_at i st)) by congruence.
  replace (s_dw_size (slot_at i st')) with (s_dw_size (slot_at i st)) by congruence.
  replace (s_high (slot_at i st')) with (s_high (slot_at i st)) by congruence.
  replace (s_low (slot_at i st')) with (s_low (slot_at i st)) by congruence.
  by replace (n_heap st') with (n_heap st) by congruence.
Qed.

Lemma stream_empty i st :
  slot_bufs (slot_at i st) = [] → stream i st = sent (s_fd (slot_at i st)) (n_history st).
Proof.
  intros Hb. destruct (no_bufs _ Hb) as (E1 & E2 & E3). unfold stream, pending, dw_wb.
  by rewrite E1, E2, E3, app_nil_r.
Qed.

Lemma live_size_0 L B cur held i st :
  ok L B cur held st → is_live (slot_at i st) → s_high (slot_at i st) = [] → s_low (slot_at i st) = [] →
  s_wb_size (slot_at i st) = 0.
Proof.
  intros Hok Hl Hh Hw. destruct (so_live _ _ _ _ _ (ok_slot _ _ _ _ _ Hok i) Hl) as [[_ [_ T _ _]]|[_ _ U _]].
  - by rewrite T, Hh, Hw.
  - done.
Qed.

Lemma wp_finish_sending held i (Q : Z → net → Prop) st :
  ok (Some i) None [] held st → is_live (slot_at i st) → slot_bufs (slot_at i st) = [] →
  (∀ r st', sent_on held i st st' → Q r st') → wp (finish_sending i 1) Q st.
Proof.
  intros Hok Hl Hb HQ. eapply wp_mono; [apply wp_and; [|apply silent_finish_sending]|].
  { instantiate (1 := λ r st', ok (Some i) None [] held st' ∧
      ((quiet st st' ∧ s_closing (slot_at i st) = false) ∨
       (slot_bufs (slot_at i st') = [] ∧ s_type (slot_at i st') = SOCKET_TYPE_INVALID))).
    destruct (no_bufs _ Hb) as (_ & Eh & Ew). unfold finish_sending. apply wp_bind, wp_get_s.
    apply wp_bind, wp_assert; [unfold send_buffer_empty; by rewrite Eh, Ew, (live_size_0 _ _ _ _ _ _ Hok Hl Eh Ew)|].
    destruct (s_closing _).
    { apply wp_bind. eapply wp_force_close; [exact Hok|by apply live_not_reserve|by right|].
      intros st1 Hok1 Hcl. apply wp_ret. split; [done|]. right. split; [by eapply closed_bufs|apply Hcl]. }
    assert (Hq : ∀ st', quiet st st' → ok (Some i) None [] held st' ∧ ((quiet st st' ∧ false = false) ∨
       (slot_bufs (slot_at i st') = [] ∧ s_type (slot_at i st') = SOCKET_TYPE_INVALID))).
    { intros st' Hq. split; [by eapply ok_quiet|by left]. }
    apply wp_bind, wp_enable_write. intros err st1 Hq1. destruct (negb _).
    { apply wp_report_error. intros st2 Hc. apply Hq. etransitivity; [exact Hq1|by apply quiet_core]. }
    apply wp_bind, wp_get_s. destruct (0 <? _); [|by apply wp_ret, Hq].
    apply wp_bind, wp_mod_quiet; [done|done|]. intros st2 Hq2 _. apply wp_bind, wp_set_result.
    intros st3 Hc3. apply wp_ret, Hq. etransitivity; [exact Hq1|]. etransitivity; [exact Hq2|by apply quiet_core]. }
  intros r st' [[Hok' Hcase] Hcalm]. apply HQ.
  assert (Hb' : slot_bufs (slot_at i st') = []).
  { destruct Hcase as [[Hq _]|[? _]]; [|done]. pose proof (q_view _ _ Hq i) as V. unfold view in V.
    destruct (no_bufs _ Hb) as (E1 & E2 & E3). unfold slot_bufs.
    replace (s_dw_buffer (slot_at i st')) with (s_dw_buffer (slot_at i st)) by congruence.
    replace (s_high (slot_at i st')) with (s_high (slot_at i st)) by congruence.
    replace (s_low (slot_at i st')) with (s_low (slot_at i st)) by congruence. by rewrite E1, E2, E3. }
  assert (Hs : stream i st' = stream i st).
  { rewrite !stream_empty by done. destruct Hcalm as [Hs Hfd]. by rewrite Hfd, Hs. }
  split; [done|]. split; [|split; [by left|]].
  - destruct (no_bufs _ Hb') as (_ & _ & ->). constructor.
  - intros _. split_and!; [done|done|]. intros Hclosing.
    destruct Hcase as [[_ ?]|[_ ?]]; [congruence|done].
Qed.

Lemma wp_send_list_udp held i hi (Q : Z → net → Prop) st :
  ok (Some i) None [] held st → is_live (slot_at i st) → s_protocol (slot_at i st) ≠ PROTOCOL_TCP →
  Q (-1) st → wp (send_list_udp i hi) Q st.
Proof.
  intros Hok Hl Hp HQ. pose proof (live_udp _ _ _ _ _ _ Hok Hl Hp) as [_ _ _ U].
  destruct (no_bufs _ U) as (_ & Eh & Ew).
  assert (Hwl : wl_of hi (slot_at i st) = []) by (by destruct hi).
  unfold send_list_udp. apply wp_bind, wp_get_s. rewrite Hwl. cbn [loopM length].
  unfold send_udp_turn. apply wp_bind, wp_bind, wp_get_s. rewrite Hwl. by apply wp_ret, wp_ret.
Qed.

(** What [send_list] ends with, for both kinds of sockets. *)
Definition list_sent (held : list addr) (i : Z) (hi : bool) (st : net) (r : Z) (st' : net) : Prop :=
  (r = -1 ∧ ok (Some i) None [] held st' ∧ is_live (slot_at i st') ∧ stream i st' = stream i st ∧
    wl_of (negb hi) (slot_at i st') = wl_of (negb hi) (slot_at i st) ∧
    s_dw_buffer (slot_at i st') = None ∧ s_fd (slot_at i st') = s_fd (slot_at i st) ∧
    s_closing (slot_at i st') = s_closing (slot_at i st) ∧
    (∀ wb, wb ∈ tail (wl_of hi (slot_at i st')) → wb ∈ wl_of hi (slot_at i st)) ∧
    (takes_all (s_fd (slot_at i st)) → wl_of hi (slot_at i st') = [])) ∨
  (r = SOCKET_ERR ∨ r = SOCKET_RST) ∧ ¬ takes_all (s_fd (slot_at i st)) ∧ ok (Some i) None [] held st' ∧ whole (s_low (slot_at i st')) ∧
    cut_off i st st'.

Lemma stream_lists i st : s_dw_buffer (slot_at i st) = None →
  stream i st = sent (s_fd (slot_at i st)) (n_history st) ++
    pend (n_heap st) (s_high (slot_at i st)) ++ pend (n_heap st) (s_low (slot_at i st)).
Proof. intros Hd. unfold stream, pending, dw_wb. by rewrite Hd, !pend_app. Qed.

(** The other list is not touched. *)
Lemma progress_stream hi i l st st' :
  progress hi i l st st' → s_dw_buffer (slot_at i st) = None →
  (hi = false → s_high (slot_at i st) = []) → stream i st' = stream i st.
Proof.
  intros [(stat & size & P1) P2 P3 P4 P5] Hd Hh.
  rewrite !stream_lists; [|done|rewrite P1; by destruct hi].
  assert (Hpend : ∀ l', (∀ wb, wb ∈ l' → wb_buffer wb ∈ slot_bufs (slot_at i st')) →
    pend (n_heap st') l' = pend (n_heap st) l').
  { intros l' Hin. apply pend_heap. intros wb Hwb. apply P4. by apply Hin. }
  rewrite P1 in Hpend |- *.
  destruct hi; cbn [set_stat set_wb_size set_wl set_high set_low s_high s_low s_fd wl_of] in *.
  - rewrite (Hpend (s_low (slot_at i st))); [by rewrite app_assoc, P5, app_assoc|].
    intros wb Hwb. unfold slot_bufs. cbn. rewrite !elem_of_app, !list_elem_of_fmap. eauto.
  - rewrite Hh by done. change (pend ?h []) with (@nil Z). cbn [app]. exact P5.
Qed.

Lemma wp_send_list held i hi (Q : Z → net → Prop) st :
  ok (Some i) None [] held st → is_live (slot_at i st) → s_dw_buffer (slot_at i st) = None →
  whole (s_low (slot_at i st)) → (hi = false → s_high (slot_at i st) = []) →
  (∀ r st', list_sent held i hi st r st' → Q r st') → wp (send_list fuel i hi 1) Q st.
Proof.
  intros Hok Hl Hd Hw Hh HQ. unfold send_list. apply wp_bind, wp_get_s.
  destruct (Z.eqb_spec (s_protocol (slot_at i st)) PROTOCOL_TCP) as [Hp|Hp]; cycle 1.
  { eapply wp_send_list_udp; [done|done|done|]. apply HQ. left. split_and!; try done.
    all: pose proof (live_udp _ _ _ _ _ _ Hok Hl Hp) as [_ _ _ U].
    all: destruct (no_bufs _ U) as (_ & Eh & Ew); destruct hi; cbn; by rewrite ?Eh, ?Ew. }
  eapply (wp_send_list_tcp held); [done|done|done|exact Hok|].
  intros r st' [(-> & l & Hin & Hok' & Hpr & Hall)|(Hnot & Hr & Hok' & Hw' & Hcw & rest & Hrest)].
  - destruct (progress_live hi i st l st' Hpr Hl) as (Hl' & _ & Hfd). apply HQ. left. split_and!; try done.
    + by eapply progress_stream.
    + destruct Hpr as [(stat & size & ->) _ _ _ _]. by destruct hi.
    + destruct Hpr as [(stat & size & ->) _ _ _ _]. by destruct hi.
    + destruct Hpr as [(stat & size & ->) _ _ _ _]. by destruct hi.
    + by rewrite (progress_wl _ _ _ _ _ Hpr).
    + by rewrite (progress_wl _ _ _ _ _ Hpr).
  - apply HQ. right. split_and!; try done. split; [done|]. rewrite stream_lists by done. destruct hi; cbn [wl_of] in Hrest.
    + exists (rest ++ pend (n_heap st) (s_low (slot_at i st))). by rewrite app_assoc, Hrest, app_assoc.
    + exists rest. by rewrite Hh.
Qed.

Lemma wp_raise_uncomplete held i tmp low (Q : unit → net → Prop) st :
  ok (Some i) None [] held st → is_live (slot_at i st) → s_high (slot_at i st) = [] →
  s_low (slot_at i st) = tmp :: low → s_dw_buffer (slot_at i st) = None →
  (∀ st', ok (Some i) None [] held st' → s_low (slot_at i st') = low → stream i st' = stream i st → Q tt st') →
  wp (raise_uncomplete i) Q st.
Proof.
  intros Hok Hl Hh Hw Hd HQ. unfold raise_uncomplete. apply wp_bind, wp_get_s. rewrite Hw.
  apply wp_bind, wp_mod_s, wp_bind, wp_assert; [by rewrite Hh|]. apply wp_mod_s. rewrite upd_upd.
  assert (Hp : s_protocol (slot_at i st) = PROTOCOL_TCP).
  { destruct (decide (s_protocol (slot_at i st) = PROTOCOL_TCP)) as [|Hne]; [done|].
    pose proof (live_udp _ _ _ _ _ _ Hok Hl Hne) as [_ _ _ U]. destruct (no_bufs _ U) as (_ & _ & E). congruence. }
  pose proof (live_tcp _ _ _ _ _ _ Hok Hl Hp) as [T1 T2 T3 T5].
  apply HQ; [|by rewrite slot_at_upd|].
  - eapply ok_upd; [exact Hok| | |done|done|done|done].
    + eapply slot_ok_bufs; [apply Hok|done|done|done| | |done].
      * cbn. rewrite T2, Hh, Hw. f_equal. unfold total. cbn. lia.
      * cbn. by rewrite Hh, Hw in T3.
    + unfold slot_bufs. cbn. by rewrite Hh, Hw.
  - rewrite !stream_lists; [|done|by rewrite slot_at_upd]. rewrite slot_at_upd. cbn. rewrite Hh, Hw.
    unfold pend. cbn. by rewrite app_nil_r.
Qed.

Lemma whole_tail l l' : (∀ wb, wb ∈ tail l' → wb ∈ l) → whole l → whole (tail l').
Proof. unfold whole. rewrite !Forall_forall. auto. Qed.

Lemma sent_on_after held i st st1 st2 :
  stream i st1 = stream i st → s_fd (slot_at i st1) = s_fd (slot_at i st) →
  s_closing (slot_at i st1) = s_closing (slot_at i st) → sent_on held i st1 st2 → sent_on held i st st2.
Proof. unfold sent_on, all_sent, cut_off. by intros -> -> ->. Qed.

Lemma wp_send_low held i (Q : Z → net → Prop) st :
  ok (Some i) None [] held st → is_live (slot_at i st) → s_dw_buffer (slot_at i st) = None →
  whole (s_low (slot_at i st)) → s_high (slot_at i st) = [] →
  (∀ r st', sent_on held i st st' → Q r st') → wp (send_low fuel i 1) Q st.
Proof.
  intros Hok Hl Hd Hw Hh HQ. unfold send_low. apply wp_bind.
  eapply wp_send_list; [exact Hok|done|done|done|done|].
  intros r st1 [(-> & Hok1 & Hl1 & Hs1 & Hh1 & Hd1 & Hf1 & Hc1 & Ht1 & Ha1)|(Hr & Hnot & Hok1 & Hw1 & Hcw)]; cycle 1.
  { replace (r =? -1) with false by (destruct Hr as [-> | ->]; done). cbn [negb].
    apply wp_ret, HQ. split_and!; [done|done|by right|done]. }
  cbn [Z.eqb negb]. apply wp_bind, wp_get_s. cbn [negb wl_of] in *. rewrite Hh in Hh1.
  pose proof (whole_tail _ _ Ht1 Hw) as Hw1. destruct (s_low (slot_at i st1)) as [|wb low] eqn:El.
  - cbn. eapply wp_finish_sending; [exact Hok1|done| |].
    + unfold slot_bufs. by rewrite Hd1, Hh1, El.
    + intros r st2 H2. apply HQ. eapply sent_on_after; [done|done|done|exact H2].
  - assert (Hnot : ¬ takes_all (s_fd (slot_at i st))) by (intros H; by specialize (Ha1 H)).
    destruct (list_uncomplete _) eqn:Eu.
    + apply wp_bind. eapply wp_raise_uncomplete; [exact Hok1|done|done|exact El|done|].
      intros st2 Hok2 E2 Hs2. apply wp_ret, HQ. split_and!; [done|by rewrite E2|left; congruence|done].
    + apply wp_ret, HQ. split_and!; [done| |by left|done]. rewrite El. cbn in Eu.
      apply negb_false_iff, Z.eqb_eq in Eu. by apply Forall_cons.
Qed.

Lemma wp_send_buffer_ held i (Q : Z → net → Prop) st :
  ok (Some i) None [] held st → is_live (slot_at i st) → s_dw_buffer (slot_at i st) = None →
  whole (s_low (slot_at i st)) →
  (∀ r st', sent_on held i st st' → Q r st') → wp (send_buffer_ fuel i 1) Q st.
Proof.
  intros Hok Hl Hd Hw HQ. unfold send_buffer_. apply wp_bind, wp_get_s. apply wp_bind, wp_assert.
  { destruct (s_low _) as [|wb low]; [done|]. apply Forall_cons in Hw as [E _]. cbn. by rewrite E. }
  apply wp_bind. eapply wp_send_list; [exact Hok|done|done|done|done|].
  intros r st1 [(-> & Hok1 & Hl1 & Hs1 & Hh1 & Hd1 & Hf1 & Hc1 & Ht1 & Ha1)|(Hr & Hnot & Hok1 & Hw1 & Hcw)]; cycle 1.
  { replace (r =? -1) with false by (destruct Hr as [-> | ->]; done). cbn [negb].
    apply wp_ret, HQ. split_and!; [done|done|by right|done]. }
  cbn [Z.eqb negb]. apply wp_bind, wp_get_s. cbn [negb wl_of] in *.
  destruct (s_high (slot_at i st1)) as [|wb high] eqn:Eh; [destruct (s_low (slot_at i st1)) as [|wb low] eqn:El|].
  - eapply wp_finish_sending; [exact Hok1|done|by unfold slot_bufs; rewrite Hd1, Eh, El|].
    intros r st2 H2. apply HQ. eapply sent_on_after; [done|done|done|exact H2].
  - eapply wp_send_low; [exact Hok1|done|done|by rewrite El, Hh1|done|].
    intros r st2 H2. apply HQ. eapply sent_on_after; [done|done|done|exact H2].
  - apply wp_ret, HQ. split_and!; [done|by rewrite Hh1|by left|]. intros H. by specialize (Ha1 H).
Qed.

(** What waits is written to the kernel in its order, unless the socket fails; a
    kernel that takes everything leaves nothing. *)
Lemma wp_send_buffer held i (Q : Z → net → Prop) st :
  ok None None [] held st → is_live (slot_at i st) →
  (∀ r st', ok None None [] held st' →
    (stream i st' = stream i st ∨ cut_off i st st') →
    (takes_all (s_fd (slot_at i st)) → all_sent i st st') → Q r st') →
  wp (send_buffer fuel i socket_lock_init) Q st.
Proof.
  intros Hok Hl HQ. unfold send_buffer, socket_trylock. cbn [Z.eqb socket_lock_init].
  pose proof (ok_lock _ _ _ _ _ Hok i) as Hlock. rewrite bool_decide_eq_false_2 in Hlock by done.
  pose proof (ok_low _ _ _ _ _ Hok i ltac:(done)) as Hw.
  apply wp_bind, wp_bind, wp_get_s. rewrite Hlock. apply wp_bind, wp_mod_s, wp_ret.
  change (0 + 1) with 1. apply (ok_lock_on _ _ _ i) in Hok.
  set (st0 := upd i (set_dw_lock true) st).
  assert (H0 : slot_at i st0 = set_dw_lock true (slot_at i st)) by apply slot_at_upd.
  apply wp_bind. eapply wp_take_dw_buffer; [exact Hok|by rewrite H0|].
  intros st1 Hok1 Hl1 Hs1 El Ed Ef Ec. fold st0 in Hs1, El, Ef, Ec. rewrite H0 in El, Ef, Ec. apply wp_bind.
  eapply wp_send_buffer_; [exact Hok1|done|done|by rewrite El|].
  assert (Hs0 : stream i st0 = stream i st) by (unfold stream; by rewrite H0).
  intros r st2 H2. eapply (sent_on_after _ _ st) in H2 as (Hok2 & Hw2 & Hs2 & Ha2); [|congruence|done|done].
  apply wp_bind, wp_socket_unlock; [done|]. rewrite Z.eqb_refl.
  set (st3 := upd i (set_dw_lock false) st2).
  assert (H3 : slot_at i st3 = set_dw_lock false (slot_at i st2)) by apply slot_at_upd.
  assert (Hs3 : stream i st3 = stream i st2) by (unfold stream; by rewrite H3).
  apply wp_ret, HQ; [by apply ok_lock_off| |]; fold st3; unfold all_sent, cut_off; rewrite H3, Hs3; done.
Qed.
End buffer.

(** ** A message joins what waits *)

Section join.
Context {Kern : Kernel}.
Implicit Types (st : net).
#[local] Hint Resolve silent_set_result silent_enable_write silent_report_error : silent.

Lemma silent_warn_turn i : silent (warn_turn i).
Proof. unfold warn_turn. silent. Qed.
#[local] Hint Resolve silent_warn_turn : silent.

Lemma stream_calm i st st' : calm st st' → quiet st st' → stream i st' = stream i st.
Proof. intros. by apply stream_quiet. Qed.

Lemma stream_appended i hi p sz bs st :
  n_heap st !! p = Some bs → zlen bs = sz → (hi = true → s_low (slot_at i st) = []) →
  stream i (upd i (appended hi p sz) st) = stream i st ++ bs.
Proof.
  intros Hp Hz Hlow. unfold stream. rewrite slot_at_upd.
  replace (s_fd (appended hi p sz (slot_at i st))) with (s_fd (slot_at i st)) by (by destruct hi).
  change (n_history (upd _ _ st)) with (n_history st). change (n_heap (upd _ _ st)) with (n_heap st).
  rewrite <-app_assoc. f_equal. unfold pending.
  replace (dw_wb (appended hi p sz (slot_at i st))) with (dw_wb (slot_at i st)) by (by destruct hi).
  assert (Hwb : pend (n_heap st) [MkWb p 0 sz false []] = bs).
  { unfold pend, rest_of. cbn. rewrite Hp, app_nil_r. cbn. rewrite drop_0. apply firstn_all2.
    unfold zlen in Hz. lia. }
  rewrite !pend_app, <-app_assoc. f_equal. rewrite <-Hwb, <-!pend_app. f_equal.
  destruct hi; cbn; [|by rewrite app_assoc]. by rewrite Hlow, !app_nil_r.
Qed.

(** A message that is for an open connection, and that no other one is put before. *)
Definition joins (s : socket) (id priority : Z) : Prop :=
  is_live s ∧ s_id s = id ∧ s_protocol s = PROTOCOL_TCP ∧ s_closing s = false ∧
  s_type s ∉ [SOCKET_TYPE_HALFCLOSE_WRITE; SOCKET_TYPE_PACCEPT; SOCKET_TYPE_PLISTEN; SOCKET_TYPE_LISTEN] ∧
  (priority = PRIORITY_LOW ∨ s_low s = []).

Lemma wp_send_joins id p sz priority bs (Q : Z → net → Prop) st :
  joins (slot_at (HASH_ID id) st) id priority → n_heap st !! p = Some bs → zlen bs = sz → sz ≤ INT_MAX →
  (∀ v st', stream (HASH_ID id) st' = stream (HASH_ID id) st ++ bs → Q v st') →
  wp (send_socket id p sz priority None) Q st.
Proof.
  set (i := HASH_ID id). intros (Hl & Hid & Hp & Hc & Ht & Hlow) Hbs Hz Hmax HQ.
  unfold send_socket. fold i. apply wp_bind, wp_get_s, wp_bind, wp_send_object_init; [done|].
  assert (Hn : ∀ t, t ∈ [SOCKET_TYPE_HALFCLOSE_WRITE; SOCKET_TYPE_PACCEPT; SOCKET_TYPE_PLISTEN; SOCKET_TYPE_LISTEN] →
    (s_type (slot_at i st) =? t) = false).
  { intros t Hin. apply Z.eqb_neq. intros E. by rewrite E in Ht. }
  rewrite (Hn SOCKET_TYPE_HALFCLOSE_WRITE), (Hn SOCKET_TYPE_PACCEPT), (Hn SOCKET_TYPE_PLISTEN),
    (Hn SOCKET_TYPE_LISTEN) by set_solver.
  replace (s_type (slot_at i st) =? SOCKET_TYPE_INVALID) with false
    by (symmetry; apply Z.eqb_neq, Hl). rewrite Hid, Z.eqb_refl, Hc, Hp. cbn [negb orb Z.eqb PROTOCOL_TCP].
  assert (Htail : ∀ hi (m : M Z), (hi = true → s_low (slot_at i st) = []) → silent m →
    (∀ st', wp m (λ _ st2, quiet st' st2) st') → wp m Q (upd i (appended hi p sz) st)).
  { intros hi m Hhi Hs Hq. eapply wp_mono; [apply wp_and; [apply Hq|apply Hs]|].
    intros v st2 [Hq2 Hc2]. apply HQ. rewrite (stream_calm _ _ _ Hc2 Hq2). by eapply stream_appended. }
  assert (Hwarn : ∀ st', wp (warn_turn i) (λ _ st2, quiet st' st2) st') by (intros; by apply wp_warn_turn).
  destruct (send_buffer_empty _) eqn:He.
  - assert (Hlow' : s_low (slot_at i st) = []).
    { unfold send_buffer_empty in He. by destruct (s_high _), (s_low _). }
    apply wp_bind, wp_bind, (wp_append i true); [done|]. apply wp_ret. apply Htail; [done|silent|].
    intros st'. apply wp_bind, wp_enable_write. intros r st1 Hq1. destruct (negb _).
    + apply wp_report_error. intros st2 Hc2. etransitivity; [exact Hq1|by apply quiet_core].
    + eapply wp_mono; [apply Hwarn|]. intros v st2 Hq2. by etransitivity.
  - apply wp_bind. destruct (Z.eqb_spec priority PRIORITY_LOW) as [->|Hne].
    + apply (wp_append i false); [done|]. apply Htail; [done|silent|done].
    + apply (wp_append i true); [done|]. apply Htail; [|silent|done]. intros _. by destruct Hlow.
Qed.
End join.

(** ** The other sockets *)

(** Neither another slot nor the pipe has changed. *)
Definition apart (i : Z) (st st' : net) : Prop :=
  (∀ j, j ≠ i → slot_at j st' = slot_at j st) ∧ n_pipe st' = n_pipe st.

Definition only {A} (i : Z) (m : M A) : Prop := ∀ st, pwp m (λ _, apart i st) st.

Section only.
Context (i : Z).

Lemma apart_trans st1 st2 st3 : apart i st1 st2 → apart i st2 st3 → apart i st1 st3.
Proof. intros [H1 P1] [H2 P2]. split; [|congruence]. intros j Hj. by rewrite H2, H1. Qed.

Lemma only_ret {A} (a : A) : only i (mret a).
Proof. intros st. by apply pwp_ret. Qed.
Lemma only_bind {A C} (m : M A) (f : A → M C) : only i m → (∀ a, only i (f a)) → only i (m ≫= f).
Proof.
  intros Hm Hf st. apply pwp_bind. eapply pwp_mono; [apply Hm|]. intros a st1 H1.
  eapply pwp_mono; [apply Hf|]. intros c st2. by apply apart_trans.
Qed.
Lemma only_gets {A} (f : net → A) : only i (gets f).
Proof. intros st. by apply pwp_gets. Qed.
Lemma only_modify f : (∀ st, (n_slot (f st), n_pipe (f st)) = (n_slot st, n_pipe st)) → only i (modify f).
Proof. intros Hf st. apply pwp_modify. unfold apart, slot_at. by injection (Hf st) as -> ->. Qed.
Lemma only_lift {A} (m : outcome A) : only i (liftO m).
Proof. intros st. by apply pwp_lift. Qed.
Lemma only_mod_s f : only i (mod_s i f).
Proof.
  intros st. unfold mod_s. apply pwp_modify. split; [|done]. intros j Hj. by apply slot_at_upd_ne.
Qed.
Lemma only_loop {I R} k (body : I → M (I + R)) x : (∀ x, only i (body x)) → only i (loopM k body x).
Proof.
  intros Hb st. eapply (pwp_loop (λ _ st', apart i st st') (λ _, apart i st)); [|done]. intros y st1 H1.
  eapply pwp_mono; [apply Hb|]. intros r st2 H2. assert (apart i st st2) by (by eapply apart_trans). by destruct r.
Qed.
End only.

Create HintDb only.
#[export] Hint Resolve only_ret only_gets only_lift only_mod_s : only.
#[export] Hint Extern 1 (only _ (modify _)) => (by apply only_modify) : only.
#[export] Hint Extern 1 (only _ (get_s _)) => apply only_gets : only.
#[export] Hint Extern 1 (only _ get_errno) => apply only_gets : only.

Ltac solve_only :=
  repeat first
    [ solve [auto with only]
    | apply only_bind; [|intros ?]
    | match goal with |- only _ (if ?b then _ else _) => destruct b end
    | match goal with |- only _ (match ?x with _ => _ end) => destruct x end
    | progress cbv zeta ].

Section only_functions.
Context {Kern : Kernel} {fuel : nat} (i : Z).

Lemma only_call {A} (c : syscall A) : only i (call c).
Proof. unfold call. solve_only. Qed.
#[local] Hint Resolve only_call : only.
Lemma only_sys c : only i (sys c).
Proof. unfold sys. solve_only. Qed.
Lemma only_set_result r : only i (set_result r).
Proof. unfold set_result. solve_only. Qed.
Lemma only_hfree p : only i (hfree p).
Proof. unfold hfree. solve_only. Qed.
#[local] Hint Resolve only_sys only_set_result only_hfree : only.
Lemma only_enable_write b : only i (enable_write i b).
Proof. unfold enable_write, sp_enable. solve_only. Qed.
Lemma only_report_error e : only i (report_error i e).
Proof. unfold report_error. solve_only. Qed.
Lemma only_free_wb_list l : only i (free_wb_list l).
Proof. induction l as [|wb l IH]; cbn; unfold write_buffer_free, soi_call; solve_only. Qed.
#[local] Hint Resolve only_enable_write only_report_error only_free_wb_list : only.
Lemma only_force_close l : only i (force_close i l).
Proof. unfold force_close, socket_lock, socket_unlock, sp_del, free_buffer, soi_call. solve_only. Qed.
#[local] Hint Resolve only_force_close : only.
Lemma only_close_write l : only i (close_write i l).
Proof. unfold close_write. solve_only. Qed.
Lemma only_finish_sending l : only i (finish_sending i l).
Proof. unfold finish_sending. solve_only. Qed.
Lemma only_take_dw_buffer : only i (take_dw_buffer i).
Proof. unfold take_dw_buffer, send_object_init, soi_call. solve_only. Qed.
Lemma only_hread p off sz : only i (hread (S := net) p off sz).
Proof. unfold hread. solve_only. Qed.
Lemma only_stat_write n : only i (stat_write i n).
Proof. unfold stat_write. solve_only. Qed.
#[local] Hint Resolve only_close_write only_finish_sending only_take_dw_buffer only_hread only_stat_write : only.
Lemma only_write_loop fd bs : only i (loopM fuel (write_turn fd bs) tt).
Proof. apply only_loop. intros []. unfold write_turn. solve_only. Qed.
#[local] Hint Resolve only_write_loop : only.
Lemma only_send_list hi l : only i (send_list fuel i hi l).
Proof.
  unfold send_list, send_list_tcp, send_list_udp. apply only_bind; [apply only_gets|intros s].
  destruct (_ =? _); (apply only_bind; [apply only_gets|intros ?]; apply only_loop; intros []).
  - unfold send_tcp_turn, write_buffer_free, soi_call. solve_only.
  - unfold send_udp_turn, drop_udp, write_buffer_free, soi_call. solve_only.
Qed.
#[local] Hint Resolve only_send_list : only.

(** [send_buffer] works on its own socket. *)
Lemma only_send_buffer l : only i (send_buffer fuel i l).
Proof. unfold send_buffer, send_buffer_, send_low, raise_uncomplete, socket_trylock, socket_unlock. solve_only. Qed.
End only_functions.

Lemma slots_bufs_elem m p : p ∈ slots_bufs m → ∃ j, p ∈ slot_bufs (m !!! j).
Proof.
  unfold slots_bufs. rewrite list_elem_of_In, in_concat. intros (l & Hl & Hp).
  apply list_elem_of_In, list_elem_of_fmap in Hl as (s & -> & Hs).
  apply list_elem_of_fmap in Hs as ([j s'] & -> & Hs). apply elem_of_map_to_list in Hs.
  exists j. rewrite (lookup_total_correct _ _ _ Hs). by apply list_elem_of_In.
Qed.

(** The memory of a slot that has none any more has been released. *)
Lemma memory_released held i st st' :
  mem_ok held st → mem_ok held st' → apart i st st' → slot_bufs (slot_at i st') = [] →
  ∀ p, p ∈ slot_bufs (slot_at i st) → n_heap st' !! p = None.
Proof.
  intros Hm Hm' [Hs Hpipe] Hnb p Hp. apply eq_None_not_Some. intros Hin%(mem_ok_dom _ _ _ Hm').
  pose proof (mem_ok_nodup _ _ Hm) as Hn. rewrite (slots_bufs_delete (n_slot st) i) in Hn. fold (slot_at i st) in Hn.
  rewrite Hpipe in Hin. rewrite !NoDup_app in Hn. destruct Hn as (_ & Hheld & (_ & Hslot & _) & Hq & _).
  rewrite !elem_of_app in Hin. destruct Hin as [Hin|[Hin|Hin]].
  - apply (Hheld p Hin). rewrite !elem_of_app. auto.
  - apply slots_bufs_elem in Hin as [j Hj]. fold (slot_at j st') in Hj.
    destruct (decide (j = i)) as [->|Hne]; [rewrite Hnb in Hj; by apply elem_of_nil in Hj|].
    rewrite Hs in Hj by done. apply (Hslot p Hp). apply (slot_bufs_elem _ j).
    by rewrite lookup_total_delete_ne.
  - apply (Hq p); [|done]. rewrite elem_of_app. auto.
Qed.
