(* ===== verification/SocketCalls.v ===== *)
(** * The calls of the workers keep the invariant

    The specifications of the functions of [Socket] that the workers call: what
    they look at and write directly, and the requests they put into the pipe. *)
From S2P Require Import Prelude StateM Memory SocketState Socket SocketOk SocketThread SocketSend.

Local Open Scope Z_scope.

(** ** A new request *)

(** There is room for one more request: the pipe holds less than 2^16 bytes. *)
Definition has_room (st : net) : Prop := zlen (n_pipe st) + 1 < 0xffff.

Lemma last_split {A} (l pre post : list A) x r :
  l ++ [r] = pre ++ x :: post →
  (pre = l ∧ x = r ∧ post = []) ∨ ∃ post', post = post' ++ [r] ∧ l = pre ++ x :: post'.
Proof.
  destruct post as [|y post _] using rev_ind; intros H.
  - left. apply app_inj_tail in H as [-> ->]. done.
  - right. exists post. rewrite app_comm_cons, app_assoc in H. by apply app_inj_tail in H as [-> ->].
Qed.

(** A request for a socket that is there, or for no socket, is put at the end. *)
Lemma ok_enqueue r held st st1 :
  ok None None [] (req_bufs r ++ held) st → recounted st st1 → has_room st →
  req_ok (n_heap st) (n_alloc_id st) r → creates r = None →
  (∀ j, slot_ok (n_heap st) (n_pipe st ++ [r]) (n_alloc_id st) j (slot_at j st1)) →
  ok None None [] held (put_pipe (n_pipe st ++ [r]) st1).
Proof.
  intros [O1 O2 O3 O4 O5 O6 O7 O8 O9 O10 O11 O12] (Hv & Hb & R) Hroom Hr Hc Hs. cbn [app] in *.
  assert (n_heap st1 = n_heap st ∧ n_alloc_id st1 = n_alloc_id st ∧
    ev_view st1 = ev_view st) as (Rh & Rt & Re) by (split_and!; congruence).
  assert (Vf : ∀ {A} (g : socket → A), (∀ v s, g (set_sending v s) = g s) → ∀ j, g (slot_at j st1) = g (slot_at j st)).
  { intros A g Hg j. destruct (Hv j) as [v ->]. apply Hg. }
  pose proof (Vf _ s_type ltac:(done)) as Vt. pose proof (Vf _ s_id ltac:(done)) as Vi.
  pose proof (Vf _ s_low ltac:(done)) as Vl. pose proof (Vf _ s_dw_lock ltac:(done)) as Vk. clear Vf.
  assert (Ho : omap creates (n_pipe st ++ [r]) = omap creates (n_pipe st)).
  { rewrite omap_app. cbn. by rewrite Hc, app_nil_r. }
  split; cbn [app put_pipe n_heap n_pipe n_alloc_id n_slot]; rewrite ?Ho, ?Rh, ?Rt; try done.
  - unfold mem_ok in *. cbn. rewrite Rh, Hb, <-O1. unfold pipe_bufs. rewrite fmap_app, concat_app. cbn.
    rewrite app_nil_r. solve_Permutation.
  - rewrite zlen_app. unfold has_room in Hroom. unfold zlen in *. cbn. lia.
  - intros i. change (slot_at i (put_pipe ?l st1)) with (slot_at i st1). rewrite Vk. apply O5.
  - apply Forall_app. split; [done|]. by apply Forall_singleton.
  - intros id. change (slot_at ?i (put_pipe ?l st1)) with (slot_at i st1). rewrite Vt, Vi. apply O7.
  - intros i. change (slot_at i (put_pipe ?l st1)) with (slot_at i st1). rewrite Vt, Vi. apply O9.
  - intros pre r' post id He Ht. change (slot_at ?i (put_pipe ?l st1)) with (slot_at i st1). rewrite Vt, Vi.
    intros Hres Hid. apply last_split in He as [(-> & -> & ->)|(post' & -> & He)].
    + rewrite <-Hid. by apply O9.
    + by eapply O10.
  - change (ev_view (put_pipe ?l st1)) with (ev_view st1). by rewrite Re.
  - intros i. change (slot_at i (put_pipe ?l st1)) with (slot_at i st1). rewrite Vl. apply O12.
Qed.

(** ... when it is not counted. *)
Lemma ok_enqueue_plain r held st :
  ok None None [] (req_bufs r ++ held) st → has_room st → req_ok (n_heap st) (n_alloc_id st) r →
  creates r = None → (∀ id, sends id r = false) → ok None None [] held (put_pipe (n_pipe st ++ [r]) st).
Proof.
  intros Hok Hroom Hr Hc Hs. eapply ok_enqueue; [exact Hok|apply recounted_refl|done|done|done|].
  intros j. eapply slot_ok_reqs; [|apply Hok]. cbn [app]. rewrite senders_app.
  rewrite senders_one, Hs. lia.
Qed.

(** The request that makes the socket of a slot that has just been reserved. *)
Lemma ok_enqueue_create r id held st :
  ok None (Some (HASH_ID id)) [] held st → has_room st → req_ok (n_heap st) (n_alloc_id st) r →
  creates r = Some id → id ∉ omap creates (n_pipe st) →
  s_type (slot_at (HASH_ID id) st) = SOCKET_TYPE_RESERVE → s_id (slot_at (HASH_ID id) st) = id →
  ok None None [] held (put_pipe (n_pipe st ++ [r]) st).
Proof.
  intros [O1 O2 O3 O4 O5 O6 O7 O8 O9 O10 O11 O12] Hroom Hr Hc Hnew Ht Hi. cbn [app] in *.
  assert (Ho : omap creates (n_pipe st ++ [r]) = omap creates (n_pipe st) ++ [id]).
  { rewrite omap_app. cbn. by rewrite Hc. }
  split; cbn [app put_pipe n_heap n_pipe n_alloc_id n_slot]; rewrite ?Ho; try done.
  - unfold mem_ok in *. cbn. unfold pipe_bufs in *. rewrite fmap_app, concat_app. cbn.
    replace (req_bufs r) with (@nil addr) by (by destruct r). by rewrite !app_nil_r.
  - rewrite zlen_app. unfold has_room in Hroom. unfold zlen in *. cbn. lia.
  - intros i. change (slot_at i (put_pipe ?l st)) with (slot_at i st).
    eapply slot_ok_reqs; [|apply O4]. rewrite senders_app, senders_one.
    replace (sends _ r) with false by (by destruct r). lia.
  - apply Forall_app. split; [done|]. by apply Forall_singleton.
  - intros id' Hin. apply elem_of_app in Hin as [Hin|Hin%list_elem_of_singleton]; [by apply O7|by subst].
  - apply NoDup_app. split_and!; [done| |apply NoDup_singleton].
    intros x Hx ->%list_elem_of_singleton. done.
  - intros i _ Hres. change (slot_at i (put_pipe ?l st)) with (slot_at i st) in *. apply elem_of_app.
    destruct (decide (i = HASH_ID id)) as [->|Hne]; [right; rewrite Hi; by apply list_elem_of_singleton|].
    left. apply O9; [congruence|done].
  - intros pre r' post id' He Htg Hres Hid. change (slot_at ?i (put_pipe ?l st)) with (slot_at i st) in *.
    apply last_split in He as [(-> & -> & ->)|(post' & -> & He)]; [by destruct r|]. by eapply O10.
Qed.

(** ** The message of a caller *)

(** The blocks that the caller holds before and after the call: the memory of a
    message is given away, memory behind a raw pointer stays with the caller. *)
Definition buf_ok (h : gmap addr (list Z)) (held held' : list addr) (buf : socket_sendbuffer) : Prop :=
  match sb_type buf with
  | SOCKET_BUFFER_MEMORY => held = sb_buffer buf :: held' ∧ block_ok h (sb_buffer buf) (sb_sz buf)
  | SOCKET_BUFFER_RAWPOINTER => held = held' ∧ 0 ≤ sb_sz buf ≤ INT_MAX ∧
      ∃ bs, h !! sb_buffer buf = Some bs ∧ sb_sz buf ≤ zlen bs
  | SOCKET_BUFFER_OBJECT => False
  end.

(** The caller knows the id from the server, and does not send to a socket that is
    not there yet. *)
Definition send_ok (st : net) (id : Z) : Prop :=
  id ≤ n_alloc_id st ∧
  (s_id (slot_at (HASH_ID id) st) = id → s_type (slot_at (HASH_ID id) st) ≠ SOCKET_TYPE_RESERVE).

Lemma buf_size h held held' buf : buf_ok h held held' buf → 0 ≤ sb_sz buf ≤ INT_MAX.
Proof.
  unfold buf_ok. destruct (sb_type buf); [|done|by intros (_ & ? & _)].
  intros (_ & bs & _ & <- & ?). pose proof (zlen_nonneg bs). lia.
Qed.

(** The bytes to send. *)
Definition message (h : gmap addr (list Z)) (buf : socket_sendbuffer) : list Z :=
  take (Z.to_nat (sb_sz buf)) (default [] (h !! sb_buffer buf)).

(** The call has put the message into the pipe. *)
Definition posted (low : bool) (buf : socket_sendbuffer) (st st' : net) : Prop :=
  stream (HASH_ID (sb_id buf)) st' = stream (HASH_ID (sb_id buf)) st ∧
  ∃ p, n_heap st' !! p = Some (message (n_heap st) buf) ∧
    n_pipe st' = n_pipe st ++ [if low then RSendLow (sb_id buf) p (sb_sz buf) else RSend (sb_id buf) p (sb_sz buf)].

Section buffers.
Context {Kern : Kernel} {fuel : nat} {Laws : KernelLaws fuel}.
Context (held held' : list addr) (buf : socket_sendbuffer).
Implicit Types (st : net).

Lemma wp_free_buffer L B cur (Q : unit → net → Prop) st :
  ok L B cur held st → buf_ok (n_heap st) held held' buf →
  (∀ st', ok L B cur held' st' → Q tt st') → wp (free_buffer buf) Q st.
Proof.
  intros Hok Hb HQ. unfold free_buffer, buf_ok in *. destruct (sb_type buf); [|done|].
  - destruct Hb as [-> _]. eapply wp_hfree_held; [exact Hok|]. intros. by apply HQ.
  - destruct Hb as [<- _]. by apply wp_ret, HQ.
Qed.

Lemma wp_init_from_sendbuffer h (Q : send_object → net → Prop) st :
  buf_ok h held held' buf →
  Q (MkObject (sb_buffer buf) (sb_sz buf)
      (match sb_type buf with SOCKET_BUFFER_MEMORY => true | _ => false end)) st →
  wp (send_object_init_from_sendbuffer buf) Q st.
Proof.
  intros Hb HQ. pose proof (buf_size _ _ _ _ Hb). unfold send_object_init_from_sendbuffer, buf_ok in *.
  destruct (sb_type buf); [|done|by apply wp_ret].
  apply wp_bind, wp_send_object_init; [lia|]. by apply wp_ret.
Qed.

Definition object_of : send_object :=
  MkObject (sb_buffer buf) (sb_sz buf)
    (match sb_type buf with SOCKET_BUFFER_MEMORY => true | _ => false end).

Lemma wp_free_object L B cur (Q : unit → net → Prop) st :
  ok L B cur held st → buf_ok (n_heap st) held held' buf →
  (∀ h, ok L B cur held' (put_heap h st) → Q tt (put_heap h st)) →
  wp (free_func object_of (sb_buffer buf)) Q st.
Proof.
  intros Hok Hb HQ. unfold free_func, object_of, buf_ok in *. cbn. destruct (sb_type buf); [|done|].
  - destruct Hb as [-> _]. apply wp_hfree; [by destruct (mem_ok_held _ _ _ (ok_mem _ _ _ _ _ Hok)) as [? _]|].
    apply HQ. by apply ok_free.
  - destruct Hb as [<- _]. apply wp_ret. specialize (HQ (n_heap st)).
    replace (put_heap (n_heap st) st) with st in HQ by (by destruct st). by apply HQ.
Qed.

Lemma wp_read_object (Q : list Z → net → Prop) st :
  buf_ok (n_heap st) held held' buf → (∀ bs, zlen bs = sb_sz buf → bs = message (n_heap st) buf → Q bs st) →
  wp (hread (so_buffer object_of) 0 (so_sz object_of)) Q st.
Proof.
  intros Hb HQ. pose proof (buf_size _ _ _ _ Hb).
  assert (∃ bs, n_heap st !! sb_buffer buf = Some bs ∧ sb_sz buf ≤ zlen bs) as (bs & Hbs & Hle).
  { unfold buf_ok in Hb. destruct (sb_type buf); [|done|naive_solver].
    destruct Hb as (_ & bs & ? & ? & _). exists bs. split; [done|lia]. }
  eapply wp_hread; [exact Hbs|cbn; lia|cbn; lia|cbn; lia|]. apply HQ.
  - cbn. rewrite drop_0. unfold zlen in *. rewrite length_take. lia.
  - cbn. unfold message. by rewrite Hbs, drop_0.
Qed.

(** A block of its own with the message: the memory itself, or a copy. The state in
    between need not have the invariant. *)
Lemma wp_clone_buffer (Q : addr * Z → net → Prop) st :
  buf_ok (n_heap st) held held' buf →
  (∀ p h', (∀ L B cur st0, n_heap st0 = n_heap st → ok L B cur held st0 →
       ok L B cur (p :: held') (put_heap h' st0)) →
     block_ok h' p (sb_sz buf) → (∀ q, is_Some (n_heap st !! q) → h' !! q = n_heap st !! q) →
     h' !! p = Some (message (n_heap st) buf) →
     Q (p, sb_sz buf) (put_heap h' st)) →
  wp (clone_buffer buf) Q st.
Proof.
  intros Hb HQ. pose proof (buf_size _ _ _ _ Hb). unfold clone_buffer, buf_ok in *.
  destruct (sb_type buf); [|done|].
  - destruct Hb as [-> Hblk]. apply wp_ret. pose proof (HQ (sb_buffer buf) (n_heap st)) as H'.
    replace (put_heap (n_heap st) st) with st in H' by (by destruct st). apply H'; [|done|done|].
    { intros L B cur st0 E Hok. rewrite <-E. by destruct st0. }
    destruct Hblk as (bs & Hbs & Hsz & _). unfold message. rewrite Hbs. cbn. f_equal.
    rewrite firstn_all2; [done|]. unfold zlen in Hsz. lia.
  - destruct Hb as (<- & Hz & bs & Hbs & Hle). apply wp_bind. eapply wp_hread; [exact Hbs|lia|lia|lia|].
    rewrite drop_0. apply wp_bind, wp_hmalloc. intros p Hp. apply wp_ret, HQ; cbn [heap with_heap net_heap] in *.
    + intros L B cur st0 E Hok. rewrite <-E. apply ok_malloc; [done|by rewrite E].
    + exists (take (Z.to_nat (sb_sz buf)) bs). rewrite lookup_insert_eq. split; [done|].
      unfold zlen in *. rewrite length_take. lia.
    + intros q [c Hq]. apply lookup_insert_ne. congruence.
    + rewrite lookup_insert_eq. unfold message. by rewrite Hbs.
Qed.

Lemma recounted_heap h st st1 : recounted st st1 → recounted (put_heap h st) (put_heap h st1).
Proof.
  intros (Hv & Hb & R). split_and!; [exact Hv|exact Hb|].
  change (ev_view (put_heap ?h ?s)) with (ev_view s). cbn. congruence.
Qed.

(** The count is one higher if the socket is a TCP socket. *)
Lemma wp_inc_sending_ref L B cur i id (Q : unit → net → Prop) st :
  ok L B cur held st → s_id (slot_at i st) = id → senders id (cur ++ n_pipe st) < 0xffff →
  (∀ st', recounted st st' → n_history st' = n_history st →
     (∀ j, j ≠ i → s_sending (slot_at j st') = s_sending (slot_at j st)) →
     (s_protocol (slot_at i st) = PROTOCOL_TCP →
        s_sending (slot_at i st') = s_sending (slot_at i st) + 1) → Q tt st') →
  wp (inc_sending_ref i id) Q st.
Proof.
  intros Hok Hid Hlt HQ. unfold inc_sending_ref. apply wp_bind, wp_get_s.
  destruct (Z.eqb_spec (s_protocol (slot_at i st)) PROTOCOL_TCP) as [Hp|Hp]; cbn [negb].
  - pose proof (so_sending _ _ _ _ _ (ok_slot _ _ _ _ _ Hok i) Hp) as Hs. rewrite Hid in Hs.
    pose proof (senders_nonneg id (cur ++ n_pipe st)).
    destruct (sending_parts id (senders id (cur ++ n_pipe st)) ltac:(lia)) as (E1 & E2 & E3).
    rewrite <-Hs in E1, E2, E3. rewrite E1, E2, Z.eqb_refl.
    replace (senders id (cur ++ n_pipe st) =? 0xffff) with false by lia.
    apply wp_mod_s, HQ; [apply recounted_upd|done| |].
    + intros j Hj. by rewrite slot_at_upd_ne.
    + intros _. rewrite slot_at_upd. cbn. unfold u64. apply Z.mod_small. lia.
  - apply wp_ret, HQ; [apply recounted_refl|done|done|done].
Qed.

(** The stream of a socket depends on its blocks. *)
Lemma stream_heap j h st :
  (∀ q, q ∈ slot_bufs (slot_at j st) → h !! q = n_heap st !! q) → stream j (put_heap h st) = stream j st.
Proof.
  intros Hh. unfold stream, pending. f_equal. apply pend_heap. intros wb Hwb. apply Hh.
  change (slot_at j (put_heap h st)) with (slot_at j st) in Hwb. unfold slot_bufs.
  rewrite !elem_of_app, !list_elem_of_fmap. rewrite !elem_of_app in Hwb.
  destruct Hwb as [Hwb|[Hwb|Hwb]]; [left|eauto..]. unfold dw_wb in Hwb.
  destruct (s_dw_buffer _) as [p|]; [|by apply elem_of_nil in Hwb]. apply list_elem_of_singleton in Hwb as ->.
  cbn. set_solver.
Qed.

Lemma stream_recounted j st st1 :
  recounted st st1 → n_history st1 = n_history st → stream j st1 = stream j st.
Proof.
  intros (Hv & _ & R) Hh. unfold stream, pending, dw_wb. destruct (Hv j) as [v ->]. rewrite Hh.
  by replace (n_heap st1) with (n_heap st) by congruence.
Qed.

(** The request and its count go together. *)
Lemma slot_ok_post h reqs r id top j s s' :
  slot_ok h reqs top j s → sends id r = true → s' = set_sending (s_sending s') s →
  (s_id s = id → s_type s ≠ SOCKET_TYPE_RESERVE) →
  (s_id s = id → s_protocol s = PROTOCOL_TCP → s_sending s' = s_sending s + 1) →
  (s_id s ≠ id → s_sending s' = s_sending s) → slot_ok h (reqs ++ [r]) top j s'.
Proof.
  intros [H1 H2 H3 H4 H5 H6 H7 H8] Hr Hs Hres Heq Hne.
  assert (Hsr : senders (s_id s) (reqs ++ [r]) = senders (s_id s) reqs + if decide (s_id s = id) then 1 else 0).
  { rewrite senders_app, senders_one. f_equal. destruct (decide (s_id s = id)) as [->|E].
    - by rewrite Hr.
    - destruct (sends (s_id s) r) eqn:E'; [|done]. destruct E. destruct r; cbn in *; try done; lia. }
  rewrite Hs. split; cbn; try done.
  - intros Ht. specialize (H6 Ht). rewrite Hsr, decide_False by (intros E; by apply Hres).
    by rewrite Z.add_0_r.
  - intros Hl. destruct (H7 Hl) as [[Hp [T1 T2 T3 T5]]|[U1 U2 U3 U4]]; [left|right]; done.
  - intros Hp. rewrite Hsr. specialize (H8 Hp). destruct (decide _) as [E|E].
    + specialize (Heq E Hp). lia.
    + specialize (Hne E). lia.
Qed.

Lemma wp_post_send low (Q : unit → net → Prop) st :
  ok None None [] held st → buf_ok (n_heap st) held held' buf → send_ok st (sb_id buf) →
  socket_invalid (slot_at (HASH_ID (sb_id buf)) st) (sb_id buf) = false → has_room st →
  (∀ st', ok None None [] held' st' → posted low buf st st' → Q tt st') →
  wp (post_send low (HASH_ID (sb_id buf)) buf) Q st.
Proof.
  intros Hok Hb [Htop Hres] Hv Hroom HQ. set (id := sb_id buf) in *. set (i := HASH_ID id) in *.
  unfold socket_invalid in Hv. apply orb_false_iff in Hv as [Hid Hty].
  apply negb_false_iff, Z.eqb_eq in Hid. apply Z.eqb_neq in Hty. specialize (Hres Hid).
  pose proof (ok_slot _ _ _ _ _ Hok) as Hsl. cbn [app] in Hsl.
  assert (Hpos : 1 ≤ id).
  { pose proof (so_used _ _ _ _ _ (Hsl i) Hty). pose proof (so_id _ _ _ _ _ (Hsl i)). lia. }
  assert (Hhome : ∀ j, s_id (slot_at j st) = id → j = i).
  { intros j Hj. rewrite <-(so_home _ _ _ _ _ (Hsl j)), Hj; [done|]. lia. }
  unfold post_send. apply wp_bind. fold id. eapply wp_inc_sending_ref; [exact Hok|done| |].
  { pose proof (senders_le id (n_pipe st)). unfold has_room in Hroom. cbn. lia. }
  intros st1 Hrec Hhist Hother Hsame. assert (Eh : n_heap st = n_heap st1) by (destruct Hrec as (_ & _ & R); congruence).
  apply wp_bind, wp_clone_buffer; [by rewrite <-Eh|]. intros p h' Hmem Hblk Hh Hmsg.
  specialize (Hmem None None [] st Eh Hok). cbn [fst snd]. apply wp_modify, HQ; cycle 1.
  { split; [|exists p; split; [cbn; by rewrite Eh|]].
    - change (stream (HASH_ID id) (put_heap h' st1) = stream (HASH_ID id) st).
      rewrite (stream_recounted _ (put_heap h' st)); [|by apply recounted_heap|done].
      apply stream_heap. intros q Hq. rewrite Eh. apply Hh. rewrite <-Eh.
      apply (mem_ok_dom _ _ q (ok_mem _ _ _ _ _ Hok)).
      rewrite !elem_of_app. right; left. by apply (slot_bufs_elem _ (HASH_ID id)).
    - cbn. destruct Hrec as (_ & _ & R). replace (n_pipe st1) with (n_pipe st) by congruence. by destruct low. }
  set (r := if low then RSendLow id p (sb_sz buf) else RSend id p (sb_sz buf)).
  replace (n_pipe (put_heap h' st1)) with (n_pipe (put_heap h' st)) by (destruct Hrec as (_ & _ & R); cbn; congruence).
  assert (Hr : sends id r = true) by (unfold r; destruct low; cbn; lia).
  eapply ok_enqueue; [|by apply recounted_heap|done| | |].
  - unfold r. destruct low; exact Hmem.
  - unfold r. destruct low; cbn; (split; [lia|done]).
  - by unfold r; destruct low.
  - intros j. change (slot_at j (put_heap h' st1)) with (slot_at j st1).
    eapply slot_ok_post; [apply (ok_slot _ _ _ _ _ Hmem j)|exact Hr| | | |].
    + destruct Hrec as (Hv & _). destruct (Hv j) as [v ->]. done.
    + intros Hj. by rewrite (Hhome j Hj).
    + intros Hj Hp. rewrite (Hhome j Hj) in *. by apply Hsame.
    + intros Hj. apply Hother. intros ->. done.
Qed.
End buffers.

(** ** Sending *)

Lemma quiet_heap st st' : quiet st st' → n_heap st' = n_heap st.
Proof. intros [_ _ _ R]. congruence. Qed.
Lemma quiet_pipe st st' : quiet st st' → n_pipe st' = n_pipe st.
Proof. intros [_ _ _ R]. congruence. Qed.
Lemma quiet_top st st' : quiet st st' → n_alloc_id st' = n_alloc_id st.
Proof. intros [_ _ _ R]. congruence. Qed.

Lemma can_direct s id : can_direct_write s id = true →
  s_id s = id ∧ s_type s = SOCKET_TYPE_CONNECTED ∧ s_dw_buffer s = None ∧ s_high s = [] ∧ s_low s = [].
Proof.
  unfold can_direct_write, nomore_sending_data, send_buffer_empty. rewrite !andb_true_iff, !orb_true_iff.
  intros [[[Hid Hn] Ht] _]. apply Z.eqb_eq in Hid, Ht. split; [done|]. split; [done|].
  rewrite Ht in Hn. destruct Hn as [Hn|Hn]; [|done]. rewrite !andb_true_iff in Hn. destruct Hn as [[H1 H2] _].
  by destruct (s_high s), (s_low s), (s_dw_buffer s).
Qed.

(** A direct write is not made while a message of the socket is in the pipe. *)
Lemma direct_senders L B held i id st :
  ok L B [] held st → can_direct_write (slot_at i st) id = true →
  s_protocol (slot_at i st) = PROTOCOL_TCP → senders id (n_pipe st) = 0.
Proof.
  intros Hok Hcan Hp. destruct (can_direct _ _ Hcan) as (Hid & Ht & _).
  pose proof (so_sending _ _ _ _ _ (ok_slot _ _ _ _ _ Hok i) Hp) as Hs. rewrite Hid in Hs.
  pose proof (ok_room _ _ _ _ _ Hok). pose proof (senders_le id ([] ++ n_pipe st)).
  pose proof (senders_nonneg id ([] ++ n_pipe st)).
  destruct (sending_parts id (senders id ([] ++ n_pipe st)) ltac:(lia)) as (E & _). rewrite <-Hs in E.
  revert Hcan. unfold can_direct_write, nomore_sending_data. rewrite E, Ht. cbn [app] in *.
  rewrite !andb_true_iff, !orb_true_iff. intros [[[_ [[_ Hz]%andb_true_iff|Hz]] _] _]; [by apply Z.eqb_eq|done].
Qed.

Section send.
Context {Kern : Kernel} {fuel : nat} {Laws : KernelLaws fuel}.
Context (held held' : list addr) (buf : socket_sendbuffer).
Implicit Types (st : net).
Local Notation i := (HASH_ID (sb_id buf)).

(** [n] bytes of the message have been written. *)
Definition wrote (n : Z) (st st' : net) : Prop :=
  0 ≤ n ≤ sb_sz buf ∧ quiet st st' ∧ s_fd (slot_at i st') = s_fd (slot_at i st) ∧
  (s_protocol (slot_at i st) = PROTOCOL_TCP →
    sent (s_fd (slot_at i st)) (n_history st') =
    sent (s_fd (slot_at i st)) (n_history st) ++ take (Z.to_nat n) (message (n_heap st) buf)) ∧
  (n ≠ sb_sz buf → s_protocol (slot_at i st) = PROTOCOL_TCP).

Lemma wp_direct_write L (Q : option Z → net → Prop) st :
  ok L None [] held st → buf_ok (n_heap st) held held' buf → is_live (slot_at i st) → datagram_taken i st →
  (∀ st', quiet st st' → Q None st') → (∀ n st', wrote n st st' → Q (Some n) st') →
  wp (direct_write i (object_of buf)) Q st.
Proof.
  intros Hok Hb Hl Hdt Hnone Hsome. pose proof (buf_size _ _ _ _ Hb) as Hz.
  assert (Hend : ∀ n st', core st = core st' → n ≤ sb_sz buf →
    (s_protocol (slot_at i st) = PROTOCOL_TCP →
      sent (s_fd (slot_at i st)) (n_history st') =
      sent (s_fd (slot_at i st)) (n_history st) ++ take (Z.to_nat n) (message (n_heap st) buf)) →
    (n ≠ sb_sz buf → s_protocol (slot_at i st) = PROTOCOL_TCP) →
    wp (let n := if n <? 0 then 0 else n in stat_write i n;; mret (Some n)) Q st').
  { intros n st' Hc Hle Hs Hne. cbv zeta. apply wp_bind, wp_stat_write_exact. intros t. apply wp_ret, Hsome.
    split; [destruct (Z.ltb_spec n 0); lia|]. split; [etransitivity; [by apply quiet_core|by apply quiet_upd]|].
    split; [rewrite slot_at_upd; cbn; by rewrite (core_slot_at i _ _ Hc)|]. split.
    - intros Hp. change (n_history (upd _ _ st')) with (n_history st'). rewrite (Hs Hp).
      f_equal. f_equal. destruct (Z.ltb_spec n 0); lia.
    - intros Hn. apply Hne. intros ->. replace (sb_sz buf <? 0) with false in Hn by lia. done. }
  unfold direct_write. apply wp_bind, wp_get_s, wp_bind.
  destruct (Z.eqb_spec (s_protocol (slot_at i st)) PROTOCOL_TCP) as [Hp|Hp].
  - apply wp_bind. eapply (wp_read_object held held'); [done|]. intros bs Hbs Hmsg.
    apply wp_bind, wp_sys_exact. cbv zeta. set (a := answer _ _).
    pose proof (law_write (fuel := fuel) (n_history st) (s_fd (slot_at i st)) bs) as Hlaw. fold a in Hlaw.
    assert (Hsent : sent (s_fd (slot_at i st)) (n_history st ++ [Entry (SWrite (s_fd (slot_at i st)) bs) a]) =
      sent (s_fd (slot_at i st)) (n_history st) ++ take (Z.to_nat a) (message (n_heap st) buf)).
    { rewrite sent_app, <-Hmsg. unfold sent at 2. cbn. by rewrite Z.eqb_refl, app_nil_r. }
    destruct (Z.ltb_spec a 0).
    + apply wp_ret, Hend; [done|lia| |done]. intros _.
      replace (Z.to_nat (-1)) with (Z.to_nat a) by lia. exact Hsent.
    + apply wp_ret, Hend; [done|lia| |done]. intros _. exact Hsent.
  - pose proof (live_udp _ _ _ _ _ _ Hok Hl Hp) as [_ (a & Ha & Hla) _ _].
    apply wp_bind, (wp_lift _ a); [unfold p_udp_address; by rewrite Ha|].
    destruct (udp_address_total (s_protocol (slot_at i st)) a (or_intror Hla)) as [o Ho].
    apply wp_bind, (wp_lift _ o); [done|]. destruct o as [sa|].
    + apply wp_bind. eapply (wp_read_object held held'); [done|]. intros bs Hbs _.
      apply wp_bind, wp_datagram; [by apply Hdt|]. intros st1 Hc.
      apply wp_ret, Hend; [done|lia|done|]. by rewrite Hbs.
    + by apply wp_ret, wp_ret, Hnone.
Qed.

(** The rest of a direct write is kept by the socket. *)
Definition dw_rest (n : Z) (p : addr) (sz : Z) (s : socket) : socket :=
  set_dw_offset n (set_dw_size sz (set_dw_buffer (Some p) s)).

Lemma ok_dw_rest L B cur n p sz j hd st :
  ok L B cur (p :: hd) st → is_live (slot_at j st) → s_protocol (slot_at j st) = PROTOCOL_TCP →
  s_dw_buffer (slot_at j st) = None → block_ok (n_heap st) p sz → 0 ≤ n ≤ sz →
  ok L B cur hd (upd j (dw_rest n p sz) st).
Proof.
  intros Hok Hl Hp Hd Hblk Hn. pose proof (live_tcp _ _ _ _ _ _ Hok Hl Hp) as [T1 T2 T3 T5].
  eapply ok_upd; [exact Hok| | |done|done|done|apply Hok].
  - eapply slot_ok_bufs; [apply Hok|done|done|done|done|done|]. intros q [= <-]. cbn. split; [done|lia].
  - unfold slot_bufs. cbn. rewrite Hd. cbn. solve_Permutation.
Qed.

Lemma wp_unlock_1 cur j (Q : Z → net → Prop) hd st :
  ok (Some j) None cur hd st → whole (s_low (slot_at j st)) →
  (∀ st', ok None None cur hd st' → st' = upd j (set_dw_lock false) st → Q 0 st') → wp (socket_unlock j 1) Q st.
Proof.
  intros Hok Hw HQ. apply wp_socket_unlock; [done|]. rewrite Z.eqb_refl. apply HQ; [by apply ok_lock_off|done].
Qed.

(** The call has written the message, or its beginning, itself. *)
Definition written (st st' : net) : Prop :=
  slot_bufs (slot_at i st) = [] ∧ stream i st' = stream i st ++ message (n_heap st) buf ∧
  (n_pipe st' = n_pipe st ∨ n_pipe st' = n_pipe st ++ [RTrigger (sb_id buf)]).

Lemma message_length h : buf_ok h held held' buf → zlen (message h buf) = sb_sz buf.
Proof.
  intros Hb. pose proof (buf_size _ _ _ _ Hb). unfold message, buf_ok in *.
  assert (∃ bs, h !! sb_buffer buf = Some bs ∧ sb_sz buf ≤ zlen bs) as (bs & -> & Hle).
  { destruct (sb_type buf); [|done|naive_solver]. destruct Hb as (_ & bs & ? & <- & _). by exists bs. }
  cbn. unfold zlen in *. rewrite length_take. lia.
Qed.

Lemma quiet_bufs j st st' : quiet st st' → slot_bufs (slot_at j st') = slot_bufs (slot_at j st).
Proof. intros [V _ _ _]. specialize (V j). unfold view, slot_bufs in *. congruence. Qed.

(** With the lock, and with nothing that waits. *)
Definition send_locked : M Z :=
  so ← send_object_init_from_sendbuffer buf;
  r ← direct_write i so;
  match r with
  | None => socket_unlock i 1;; free_func so (sb_buffer buf);; mret (-1)
  | Some n =>
      if n =? so_sz so then socket_unlock i 1;; free_func so (sb_buffer buf);; mret 0
      else
        '(p, sz) ← clone_buffer buf;
        mod_s i (set_dw_buffer (Some p));;
        mod_s i (set_dw_size sz);;
        mod_s i (set_dw_offset (i32 n));;
        socket_unlock i 1;;
        send_request (RTrigger (sb_id buf));;
        mret 0
  end.

Lemma wp_send_locked (Q : Z → net → Prop) st :
  ok (Some i) None [] held st → is_live (slot_at i st) → slot_bufs (slot_at i st) = [] →
  buf_ok (n_heap st) held held' buf → sb_id buf ≤ n_alloc_id st → has_room st → datagram_taken i st →
  (∀ v st', ok None None [] held' st' →
     (v = 0 → s_protocol (slot_at i st) = PROTOCOL_TCP → written st st') → Q v st') →
  wp send_locked Q st.
Proof.
  intros Hok Hl Hnb Hb Htop Hroom Hdt HQ. destruct (no_bufs _ Hnb) as (Hd & _ & Hlow).
  pose proof (message_length _ Hb) as Hmlen. pose proof (buf_size _ _ _ _ Hb) as Hbz.
  unfold send_locked. apply wp_bind. eapply wp_init_from_sendbuffer; [exact Hb|].
  change (MkObject _ _ _) with (object_of buf).
  assert (Hfin : ∀ v st', quiet st st' →
    (v = 0 → s_protocol (slot_at i st) = PROTOCOL_TCP → s_fd (slot_at i st') = s_fd (slot_at i st) ∧
       sent (s_fd (slot_at i st)) (n_history st') =
       sent (s_fd (slot_at i st)) (n_history st) ++ message (n_heap st) buf) →
    wp (socket_unlock i 1;; free_func (object_of buf) (sb_buffer buf);; mret v) Q st').
  { intros v st' Hq Hs. eapply ok_quiet in Hok; [|exact Hq]. pose proof (quiet_bufs i _ _ Hq) as Hnb'.
    rewrite Hnb in Hnb'. destruct (no_bufs _ Hnb') as (_ & _ & Hlow').
    rewrite <-(quiet_heap _ _ Hq) in Hb. apply wp_bind. eapply wp_unlock_1; [exact Hok|rewrite Hlow'; constructor|].
    intros st2 Hok2 ->. apply wp_bind. eapply (wp_free_object held held'); [exact Hok2|exact Hb|].
    intros h Hok3. apply wp_ret, HQ; [done|]. intros -> Hp. destruct (Hs eq_refl Hp) as [Hfd Hsent].
    assert (E : slot_at i (put_heap h (upd i (set_dw_lock false) st')) = set_dw_lock false (slot_at i st'))
      by apply (slot_at_upd i (set_dw_lock false) st').
    split; [done|]. split; [|left; exact (quiet_pipe _ _ Hq)].
    rewrite !stream_empty; [|done|by rewrite E]. rewrite E. cbn. rewrite Hfd. exact Hsent. }
  apply wp_bind. eapply wp_direct_write; [exact Hok|done|done|done|by intros; apply Hfin|].
  intros n st' (Hn & Hq & Hfd & Hsent & Htcp). cbn [so_sz object_of].
  destruct (Z.eqb_spec n (sb_sz buf)) as [->|Hne].
  { apply Hfin; [done|]. intros _ Hp. split; [done|]. rewrite Hsent by done. f_equal.
    apply firstn_all2. unfold zlen in Hmlen. lia. }
  clear Hfin. specialize (Htcp Hne). specialize (Hsent Htcp). pose proof (quiet_heap _ _ Hq) as Eh.
  pose proof (quiet_bufs i _ _ Hq) as Hnb'. rewrite Hnb in Hnb'. destruct (no_bufs _ Hnb') as (Hd' & Hh' & Hlow').
  eapply ok_quiet in Hok; [|exact Hq]. eapply quiet_is_live in Hl; [|exact Hq].
  assert (Hp' : s_protocol (slot_at i st') = PROTOCOL_TCP).
  { pose proof (q_view _ _ Hq i) as V. unfold view in V. congruence. }
  apply wp_bind. eapply (wp_clone_buffer held held'); [by rewrite Eh|]. intros p h' Hmem Hblk _ Hmsg.
  specialize (Hmem _ _ _ st' eq_refl Hok). do 3 apply wp_bind, wp_mod_s. rewrite !upd_upd, i32_small by lia.
  change (upd i _ (put_heap h' st')) with (upd i (dw_rest n p (sb_sz buf)) (put_heap h' st')).
  eapply (ok_dw_rest _ _ _ n _ _ i) in Hmem; [|done|done|done|exact Hblk|lia].
  apply wp_bind. eapply wp_unlock_1; [exact Hmem|rewrite slot_at_upd; cbn; change (slot_at i (put_heap h' st')) with (slot_at i st'); rewrite Hlow'; constructor|].
  intros st2 Hok2 ->. apply wp_bind, wp_modify, wp_ret, HQ.
  - apply (ok_enqueue_plain (RTrigger (sb_id buf)) held'); [exact Hok2| | |done|done].
    + unfold has_room in *. cbn. by rewrite (quiet_pipe _ _ Hq).
    + cbn. by rewrite (quiet_top _ _ Hq).
  - intros _ _. split; [done|]. split; [|right; cbn; by rewrite (quiet_pipe _ _ Hq)].
    rewrite (stream_empty i st) by done. unfold stream.
    change (slot_at i (put_pipe _ _)) with
      (slot_at i (upd i (set_dw_lock false) (upd i (dw_rest n p (sb_sz buf)) (put_heap h' st')))).
    rewrite !slot_at_upd. change (slot_at i (put_heap h' st')) with (slot_at i st').
    unfold pending, dw_wb. cbn [set_dw_lock dw_rest set_dw_offset set_dw_size set_dw_buffer s_fd s_dw_buffer s_dw_offset
      s_dw_size s_high s_low n_history n_heap put_pipe put_heap upd put_slot].
    rewrite Hh', Hlow', Hfd, Hsent, <-app_assoc. f_equal. unfold pend. cbn. rewrite app_nil_r.
    unfold rest_of. cbn. rewrite Hmsg, Eh. cbn [default].
    rewrite (firstn_all2 (n := Z.to_nat (sb_sz buf - n))); [apply take_drop|].
    rewrite length_drop. unfold zlen in Hmlen. cbn. lia.
Qed.

Lemma wp_socket_server_send (Q : Z → net → Prop) st :
  ok None None [] held st → buf_ok (n_heap st) held held' buf → send_ok st (sb_id buf) → has_room st →
  datagram_taken i st →
  (∀ v st', ok None None [] held' st' →
     (v = 0 → s_protocol (slot_at i st) = PROTOCOL_TCP →
        written st st' ∧ senders (sb_id buf) (n_pipe st) = 0 ∨ posted false buf st st') → Q v st') →
  wp (socket_server_send buf) Q st.
Proof.
  intros Hok Hb Hsend Hroom Hdt HQ. unfold socket_server_send. apply wp_bind, wp_get_s.
  destruct (_ || _) eqn:Hv.
  { apply wp_bind. eapply wp_free_buffer; [exact Hok|exact Hb|]. intros. by apply wp_ret, HQ. }
  apply orb_false_iff in Hv as [Hv _].
  assert (Hpost : wp (post_send false i buf;; mret 0) Q st).
  { apply wp_bind. eapply wp_post_send; [exact Hok|done|done|done|done|]. intros. apply wp_ret, HQ; [done|].
    intros _ _. by right. }
  destruct (can_direct_write (slot_at i st) (sb_id buf)) eqn:Hcan; [|by apply wp_bind, wp_ret].
  clear Hpost. pose proof (ok_lock _ _ _ _ _ Hok i) as Hlock. rewrite bool_decide_eq_false_2 in Hlock by done.
  destruct (can_direct _ _ Hcan) as (Hid & Ht & Hd & Hh & Hlow).
  assert (Hcount : s_protocol (slot_at i st) = PROTOCOL_TCP → senders (sb_id buf) (n_pipe st) = 0).
  { intros Hp. by eapply direct_senders. }
  apply wp_bind. unfold socket_trylock. cbn [Z.eqb socket_lock_init]. apply wp_bind, wp_get_s. rewrite Hlock.
  apply wp_bind, wp_mod_s, wp_ret. change (0 + 1) with 1. apply (ok_lock_on _ _ _ i) in Hok.
  apply wp_bind, wp_get_s. rewrite slot_at_upd.
  change (can_direct_write (set_dw_lock true (slot_at i st)) (sb_id buf))
    with (can_direct_write (slot_at i st) (sb_id buf)). rewrite Hcan. fold send_locked.
  set (st0 := upd i (set_dw_lock true) st) in *.
  assert (E0 : slot_at i st0 = set_dw_lock true (slot_at i st)) by apply slot_at_upd.
  eapply wp_send_locked; [exact Hok| | |exact Hb|apply Hsend|exact Hroom| |].
  - rewrite E0. unfold is_live. cbn. by rewrite Ht.
  - rewrite E0. unfold slot_bufs. cbn. by rewrite Hd, Hh, Hlow.
  - unfold datagram_taken. by rewrite E0.
  - rewrite E0. intros v st' Hok' Hw. apply HQ; [done|]. intros Hv0 Hp. left. split; [|by apply Hcount].
    destruct (Hw Hv0 Hp) as (W1 & W2 & W3). rewrite E0 in W1. split; [exact W1|]. split; [|exact W3].
    rewrite W2. f_equal. unfold stream. by rewrite E0.
Qed.

Lemma wp_socket_server_send_lowpriority (Q : Z → net → Prop) st :
  ok None None [] held st → buf_ok (n_heap st) held held' buf → send_ok st (sb_id buf) → has_room st →
  (∀ v st', ok None None [] held' st' → Q v st') → wp (socket_server_send_lowpriority buf) Q st.
Proof.
  intros Hok Hb Hsend Hroom HQ. unfold socket_server_send_lowpriority. apply wp_bind, wp_get_s.
  destruct (socket_invalid _ _) eqn:Hv.
  { apply wp_bind. eapply wp_free_buffer; [exact Hok|exact Hb|]. intros. by apply wp_ret, HQ. }
  apply wp_bind. eapply wp_post_send; [exact Hok|done|done|done|done|]. intros. by apply wp_ret, HQ.
Qed.
End send.

(** ** The other calls *)

Section calls.
Context {Kern : Kernel} {fuel : nat} {Laws : KernelLaws fuel}.
Implicit Types (st : net).

Lemma wp_do_bind host port protocol (Q : Z * Z → net → Prop) st :
  protocol = IPPROTO_TCP ∨ protocol = IPPROTO_UDP →
  (∀ a st', core st = core st' → Q a st') → wp (do_bind host port protocol) Q st.
Proof.
  intros Hp HQ. unfold do_bind. apply wp_bind, wp_assert; [by destruct Hp as [-> | ->]|].
  apply wp_bind, wp_call. intros st1 Hc1. destruct (answer _ _) as [e|[ai l]]; [by apply wp_ret, HQ|].
  apply wp_bind, wp_sys. intros fd st2 Hc2 _. assert (core st = core st2) by congruence.
  destruct (fd <? 0); [by apply wp_ret, HQ|].
  assert (Hfail : ∀ a st', core st = core st' → wp (sys (SClose fd);; mret a) Q st').
  { intros a st' Hc. apply wp_bind, wp_sys. intros ? st'' Hc' _. apply wp_ret, HQ. congruence. }
  apply wp_bind, wp_sys. intros r st3 Hc3 _. destruct (r =? -1); [apply Hfail; congruence|].
  apply wp_bind, wp_sys. intros r' st4 Hc4 _. destruct (negb _); [apply Hfail; congruence|].
  apply wp_ret, HQ. congruence.
Qed.

Lemma wp_do_listen host port backlog (Q : Z → net → Prop) st :
  (∀ a st', core st = core st' → Q a st') → wp (do_listen host port backlog) Q st.
Proof.
  intros HQ. unfold do_listen. apply wp_bind, wp_do_bind; [by left|]. intros [fd family] st1 Hc1.
  destruct (fd <? 0); [by apply wp_ret, HQ|]. apply wp_bind, wp_sys. intros r st2 Hc2 _.
  destruct (r =? -1); [|apply wp_ret, HQ; congruence].
  apply wp_bind, wp_sys. intros ? st3 Hc3 _. apply wp_ret, HQ. congruence.
Qed.

Lemma core_room st st' : core st = core st' → has_room st → has_room st'.
Proof. intros Hc. unfold has_room. by rewrite (core_pipe _ _ Hc). Qed.
Lemma core_ids st st' : core st = core st' → ids_left st → ids_left st'.
Proof. intros Hc. unfold ids_left. by rewrite (core_top _ _ Hc). Qed.

(** A new id goes with the request that makes its socket. *)
Lemma wp_reserve_request held (r : Z → request) (fail : Z → M Z) (Q : Z → net → Prop) st :
  ok None None [] held st → ids_left st → has_room st →
  (∀ id, creates (r id) = Some id) → (∀ id h top, 1 ≤ id ≤ top → req_ok h top (r id)) →
  (∀ id st', ok None None [] held st' → id < 0 → wp (fail id) Q st') →
  (∀ id st', ok None None [] held st' → Q id st') →
  wp (id ← reserve_id; if id <? 0 then fail id else send_request (r id);; mret id) Q st.
Proof.
  intros Hok Hids Hroom Hc Hr Hfail HQ. apply wp_bind. eapply wp_reserve_id; [exact Hok|done| |].
  - intros id st1 Hok1 Hf _. destruct (fresh_facts _ _ _ _ Hok Hok1 Hf) as (Ht & Hi & Hb & H1 & Hnew).
    rewrite Hi in Hnew. replace (id <? 0) with false by lia. apply wp_bind, wp_modify, wp_ret, HQ.
    destruct Hf as [F1 F2 F3 F4 F5 F6]. eapply ok_enqueue_create; [exact Hok1| |apply Hr; lia|apply Hc|done|done|done].
    unfold has_room in *. by replace (n_pipe st1) with (n_pipe st) by congruence.
  - intros st1 Hok1 _ _. apply Hfail; [done|lia].
Qed.

Lemma wp_close_fail held fd v (Q : Z → net → Prop) st :
  ok None None [] held st → (∀ v st', ok None None [] held st' → Q v st') →
  wp (sys (SClose fd);; mret v) Q st.
Proof.
  intros Hok HQ. apply wp_bind, wp_sys. intros ? st1 Hc _. apply wp_ret, HQ. by eapply ok_core.
Qed.

Lemma wp_socket_server_listen held opaque addr port backlog (Q : Z → net → Prop) st :
  ok None None [] held st → ids_left st → has_room st →
  (∀ v st', ok None None [] held st' → Q v st') → wp (socket_server_listen opaque addr port backlog) Q st.
Proof.
  intros Hok Hids Hroom HQ. unfold socket_server_listen. apply wp_bind, wp_do_listen. intros fd st1 Hc.
  eapply ok_core in Hok; [|exact Hc]. destruct (fd <? 0); [by apply wp_ret, HQ|].
  eapply (wp_reserve_request held (λ id, RListen id fd opaque) (λ id, sys (SClose fd);; mret id));
    [exact Hok|by eapply core_ids|by eapply core_room|done|by intros| |done].
  intros id st2 Hok2 _. by eapply wp_close_fail.
Qed.

Lemma wp_socket_server_bind held opaque fd (Q : Z → net → Prop) st :
  ok None None [] held st → ids_left st → has_room st →
  (∀ v st', ok None None [] held st' → Q v st') → wp (socket_server_bind opaque fd) Q st.
Proof.
  intros Hok Hids Hroom HQ. unfold socket_server_bind.
  eapply (wp_reserve_request held (λ id, RBind id fd opaque) (λ _, mret (-1)));
    [exact Hok|done|done|done|by intros| |done].
  intros id st2 Hok2 _. by apply wp_ret, HQ.
Qed.

Lemma wp_socket_server_connect held opaque addr port (Q : Z → net → Prop) st :
  ok None None [] held st → ids_left st → has_room st →
  (∀ v st', ok None None [] held st' → Q v st') → wp (socket_server_connect opaque addr port) Q st.
Proof.
  intros Hok Hids Hroom HQ. unfold socket_server_connect, open_request.
  destruct (256 <=? _); [by apply wp_bind, wp_ret, wp_ret, HQ|].
  assert (H : wp (id ← reserve_id; if id <? 0 then mret (-1) else send_request (ROpen id port opaque addr);; mret id) Q st).
  { eapply (wp_reserve_request held (λ id, ROpen id port opaque addr) (λ _, mret (-1)));
      [exact Hok|done|done|done|by intros| |done].
    intros id st2 Hok2 _. by apply wp_ret, HQ. }
  destruct H as (v & st' & H & Hv). exists v, st'. split; [|done]. revert H.
  unfold mbind, stateM_mbind. destruct (reserve_id st) as [[id st1]| | | |]; cbn; try done.
  by destruct (id <? 0).
Qed.

Lemma wp_socket_server_udp held opaque addr port (Q : Z → net → Prop) st :
  ok None None [] held st → ids_left st → has_room st →
  (∀ v st', ok None None [] held st' → Q v st') → wp (socket_server_udp opaque addr port) Q st.
Proof.
  intros Hok Hids Hroom HQ. unfold socket_server_udp. apply wp_bind.
  eapply (wp_mono _ (λ _ st', core st = core st')).
  { destruct (_ || _); [apply wp_do_bind; [by right|done]|]. apply wp_bind, wp_sys. intros. by apply wp_ret. }
  intros [fd family] st1 Hc. eapply ok_core in Hok; [|exact Hc]. eapply core_ids in Hids; [|exact Hc].
  eapply core_room in Hroom; [|exact Hc]. clear Hc st. destruct (fd <? 0); [by apply wp_ret, HQ|].
  apply wp_bind, wp_sp_nonblocking. intros st2 Hc.
  eapply (wp_reserve_request held (λ id, RUdp id fd family opaque) (λ _, sys (SClose fd);; mret (-1)));
    [by eapply ok_core|by eapply core_ids|by eapply core_room|done|by intros| |done].
  intros id st3 Hok3 _. by eapply wp_close_fail.
Qed.

(** A plain request. *)
Lemma wp_request held r (Q : unit → net → Prop) st :
  ok None None [] (req_bufs r ++ held) st → has_room st → req_ok (n_heap st) (n_alloc_id st) r →
  creates r = None → (∀ id, sends id r = false) →
  (∀ st', ok None None [] held st' → Q tt st') → wp (send_request r) Q st.
Proof. intros. apply wp_modify. auto using ok_enqueue_plain. Qed.

Lemma gen_udp_address_ok protocol sa :
  length (sa_port sa) = 2%nat →
  (protocol = PROTOCOL_UDP ∧ length (sa_addr sa) = 4%nat ∨ protocol = PROTOCOL_UDPv6 ∧ length (sa_addr sa) = 16%nat) →
  udp_ok (gen_udp_address protocol sa).
Proof.
  intros Hp Ha. unfold gen_udp_address.
  exists (u8 protocol), (sa_port sa ++ sa_addr sa), (3 + zlen (sa_addr sa)). split; [done|].
  unfold zlen. cbn. rewrite !length_app, Hp.
  destruct Ha as [[-> Ha]|[-> Ha]]; rewrite Ha; (split; [done|lia]).
Qed.

Lemma wp_socket_server_udp_connect held id addr port (Q : Z → net → Prop) st :
  ok None None [] held st → has_room st → id ≤ n_alloc_id st →
  (∀ v st', ok None None [] held st' → Q v st') → wp (socket_server_udp_connect id addr port) Q st.
Proof.
  intros Hok Hroom Htop HQ. unfold socket_server_udp_connect. apply wp_bind, wp_get_s.
  destruct (socket_invalid _ _) eqn:Hv; [by apply wp_ret, HQ|]. set (i := HASH_ID id) in *.
  pose proof (ok_lock _ _ _ _ _ Hok i) as Hlock. rewrite bool_decide_eq_false_2 in Hlock by done.
  pose proof (ok_low _ _ _ _ _ Hok i ltac:(done)) as Hw.
  apply wp_bind, wp_socket_lock; [done|]. cbn [Z.eqb socket_lock_init]. change (0 + 1) with 1.
  apply wp_bind, wp_get_s. rewrite slot_at_upd.
  change (socket_invalid (set_dw_lock true (slot_at i st)) id) with (socket_invalid (slot_at i st) id). rewrite Hv.
  apply (ok_lock_on _ _ _ i) in Hok. apply wp_bind, wp_mod_quiet; [done|done|]. intros st1 Hq _.
  eapply ok_quiet in Hok; [|exact Hq]. apply wp_bind. eapply wp_unlock_1; [exact Hok| |].
  { pose proof (q_view _ _ Hq i) as V. rewrite slot_at_upd in V. unfold view in V. cbn in V.
    by replace (s_low (slot_at i st1)) with (s_low (slot_at i st)) by congruence. }
  intros st2 Hok2 ->. apply wp_bind, wp_call. intros st3 Hc3.
  eapply ok_core in Hok2; [|exact Hc3].
  assert (Htop3 : id ≤ n_alloc_id st3).
  { rewrite <-(core_top _ _ Hc3). change (n_alloc_id (upd _ _ st1)) with (n_alloc_id st1). rewrite (quiet_top _ _ Hq). done. }
  assert (Hroom3 : has_room st3).
  { eapply core_room; [exact Hc3|]. unfold has_room. change (n_pipe (upd _ _ st1)) with (n_pipe st1).
    rewrite (quiet_pipe _ _ Hq). exact Hroom. }
  destruct (answer _ _) as [e|[ai l]] eqn:Ea; [by apply wp_ret, HQ|].
  apply (law_addrinfo (fuel := fuel)) in Ea as (Hport & H4 & H6).
  destruct (Z.eqb_spec (ai_family ai) AF_INET); [|destruct (Z.eqb_spec (ai_family ai) AF_INET6)].
  - apply wp_bind. eapply wp_request; [exact Hok2|done| |done|done|intros; by apply wp_ret, HQ].
    split; [done|]. apply gen_udp_address_ok; auto.
  - apply wp_bind. eapply wp_request; [exact Hok2|done| |done|done|intros; by apply wp_ret, HQ].
    split; [done|]. apply gen_udp_address_ok; auto.
  - by apply wp_ret, HQ.
Qed.
End calls.

Section udp_send.
Context {Kern : Kernel} {fuel : nat} {Laws : KernelLaws fuel}.
Context (held held' : list addr) (buf : socket_sendbuffer).
Implicit Types (st : net).
Local Notation i := (HASH_ID (sb_id buf)).

Lemma wp_udp_direct a (Q : option Z → net → Prop) st :
  ok None None [] held st → buf_ok (n_heap st) held held' buf → udp_ok a →
  (∀ v st', ok None None [] held' st' → Q (Some v) st') →
  (∀ st', ok None None [] held st' → n_heap st' = n_heap st → n_alloc_id st' = n_alloc_id st →
     n_pipe st' = n_pipe st → Q None st') →
  wp (udp_direct i a buf) Q st.
Proof.
  intros Hok Hb Ha Hsome Hnone. unfold udp_direct. apply wp_bind, wp_get_s.
  destruct (can_direct_write (slot_at i st) (sb_id buf)) eqn:Hcan; [|by apply wp_bind, wp_ret, wp_ret, Hnone].
  pose proof (ok_lock _ _ _ _ _ Hok i) as Hlock. rewrite bool_decide_eq_false_2 in Hlock by done.
  pose proof (ok_low _ _ _ _ _ Hok i ltac:(done)) as Hw.
  apply wp_bind. unfold socket_trylock. cbn [Z.eqb socket_lock_init]. apply wp_bind, wp_get_s. rewrite Hlock.
  apply wp_bind, wp_mod_s, wp_ret. change (0 + 1) with 1. apply (ok_lock_on _ _ _ i) in Hok.
  apply wp_bind, wp_get_s. rewrite slot_at_upd.
  change (can_direct_write (set_dw_lock true (slot_at i st)) (sb_id buf))
    with (can_direct_write (slot_at i st) (sb_id buf)). rewrite Hcan.
  assert (Hw1 : whole (s_low (slot_at i (upd i (set_dw_lock true) st)))) by (by rewrite slot_at_upd).
  change (n_heap st) with (n_heap (upd i (set_dw_lock true) st)) in Hb.
  apply wp_bind. eapply wp_init_from_sendbuffer; [exact Hb|]. change (MkObject _ _ _) with (object_of buf).
  set (st0 := upd i (set_dw_lock true) st) in *.
  assert (Hfin : ∀ v st', quiet st0 st' →
    wp (socket_unlock i 1;; free_func (object_of buf) (sb_buffer buf);; mret (Some v)) Q st').
  { intros v st' Hq. eapply ok_quiet in Hok; [|exact Hq]. rewrite <-(quiet_heap _ _ Hq) in Hb.
    apply wp_bind. eapply wp_unlock_1; [exact Hok| |].
    - pose proof (q_view _ _ Hq i) as V. unfold view in V. by replace (s_low (slot_at i st')) with (s_low (slot_at i st0)) by congruence.
    - intros st2 Hok2 ->. apply wp_bind. eapply (wp_free_object held held'); [exact Hok2|exact Hb|].
      intros. by apply wp_ret, Hsome. }
  destruct (udp_address_total (s_protocol (set_dw_lock true (slot_at i st))) a (or_introl Ha)) as [o Ho].
  apply wp_bind, (wp_lift _ o); [done|]. destruct o as [sa|]; [|by apply Hfin].
  apply wp_bind. eapply (wp_read_object held held'); [done|]. intros bs Hbs _.
  apply wp_bind, wp_sys. intros n st1 Hc _. destruct (0 <=? n); cycle 1.
  { pose proof (quiet_core _ _ Hc) as Hq. pose proof (quiet_heap _ _ Hq) as Eh.
    pose proof (quiet_pipe _ _ Hq) as Ep. pose proof (quiet_top _ _ Hq) as Et. eapply ok_quiet in Hok; [|exact Hq].
    apply wp_bind. eapply wp_unlock_1; [exact Hok| |].
    - pose proof (q_view _ _ Hq i) as V. unfold view in V. by replace (s_low (slot_at i st1)) with (s_low (slot_at i st0)) by congruence.
    - intros st2 Hok2 ->. apply wp_ret, Hnone; [exact Hok2|exact Eh|exact Et|exact Ep]. }
  apply wp_bind, wp_stat_write. intros st2 Hq2. apply Hfin. etransitivity; [by apply quiet_core|exact Hq2].
Qed.

Lemma wp_socket_server_udp_send a (Q : Z → net → Prop) st :
  ok None None [] held st → buf_ok (n_heap st) held held' buf → udp_ok a →
  sb_id buf ≤ n_alloc_id st → has_room st →
  (∀ v st', ok None None [] held' st' → Q v st') → wp (socket_server_udp_send a buf) Q st.
Proof.
  intros Hok Hb Ha Htop Hroom HQ. unfold socket_server_udp_send. apply wp_bind, wp_get_s.
  destruct (socket_invalid _ _).
  { apply wp_bind. eapply wp_free_buffer; [exact Hok|exact Hb|]. intros. by apply wp_ret, HQ. }
  pose proof Ha as (t & rest & n & -> & Hn & Hle). apply wp_bind, (wp_lift _ t); [done|]. rewrite Hn.
  apply wp_bind. eapply wp_udp_direct; [exact Hok|done|done|intros; by apply wp_ret, HQ|].
  intros st1 Hok1 Eh Et Ep. rewrite <-Eh in Hb. apply wp_bind. eapply (wp_clone_buffer held held'); [exact Hb|].
  intros p h' Hmem Hblk _ _. specialize (Hmem _ _ _ st1 eq_refl Hok1).
  assert (Hn3 : 3 ≤ n).
  { revert Hn. unfold udp_addrsz. destruct (t =? _); [|destruct (t =? _)]; intros [= <-]; lia. }
  apply wp_bind. eapply wp_lift; [apply mread_in; lia|].
  apply wp_bind. eapply wp_request; [exact Hmem| | |done|done|intros; by apply wp_ret, HQ].
  - unfold has_room in *. by change (n_pipe (put_heap h' st1)) with (n_pipe st1); rewrite Ep.
  - split; [cbn; lia|]. split; [exact Hblk|].
    exists t, (take (Z.to_nat n - 1) rest), n. change (Z.to_nat 0) with 0%nat. rewrite drop_0.
    split_and!; [|done|].
    + replace (Z.to_nat n) with (S (Z.to_nat n - 1)) at 1 by lia. done.
    + unfold zlen in *. rewrite length_take. lia.
Qed.
End udp_send.
