(* ===== verification/SocketSafe.v ===== *)
(** * Every step of the socket server is safe

    The turns of the socket thread and the calls of the workers as steps on the
    state: in every state that they reach the invariant of [SocketOk] holds, and
    the next step returns. *)
From S2P Require Import Prelude StateM Memory SocketState Socket SocketOk SocketThread SocketSend SocketCalls.

Local Open Scope Z_scope.

Section events.
Context {Kern : Kernel} {fuel : nat} {Laws : KernelLaws fuel}.
Implicit Types (st : net).

(** Only the place in the events changes. *)
Lemma ok_events L B cur held st st' :
  ok L B cur held st → (n_slot st', n_pipe st', n_heap st', n_alloc_id st') =
    (n_slot st, n_pipe st, n_heap st, n_alloc_id st) →
  0 ≤ n_event_index st' ≤ n_event_n st' ∧ n_event_n st' ≤ zlen (n_ev st') → ok L B cur held st'.
Proof.
  intros Hok [= E1 E2 E3 E4] Hev. assert (Hs : ∀ i, slot_at i st' = slot_at i st) by (unfold slot_at; congruence).
  destruct Hok as [O1 O2 O3 O4 O5 O6 O7 O8 O9 O10 O11 O12]. unfold mem_ok in O1.
  rewrite <-E1, <-E2, <-E3 in O1. rewrite <-E4 in O2. rewrite <-E2 in *. rewrite <-E3, <-E4 in *.
  split; try done; setoid_rewrite Hs; done.
Qed.

Lemma ok_index L B cur held k st :
  ok L B cur held st → 0 ≤ k ≤ n_event_n st → ok L B cur held (put_event_index k st).
Proof.
  intros Hok Hk. eapply ok_events; [exact Hok|done|]. pose proof (ok_ev _ _ _ _ _ Hok) as [_ H]. done.
Qed.

Lemma wp_event_read held i k e (Q : unit + Z → net → Prop) st :
  ok None None [] held st → is_live (slot_at i st) → 0 ≤ k ≤ n_event_n st →
  (∀ v st', ok None None [] held st' → Q v st') → wp (event_read i k e) Q st.
Proof.
  intros Hok Hl Hk HQ. unfold event_read. apply wp_bind, wp_get_s, wp_bind.
  eapply (wp_mono _ (λ _ st', ok None None [] held st' ∧ ev_view st' = ev_view st)).
  { destruct (Z.eqb_spec (s_protocol (slot_at i st)) PROTOCOL_TCP) as [Hp|Hp].
    - eapply (wp_forward_message_tcp (Laws := Laws)); [exact Hok|done|done|done].
    - eapply wp_forward_message_udp; [exact Hok|done|done]. }
  intros type st1 [Hok1 He]. assert (Hk1 : 0 ≤ k ≤ n_event_n st1).
  { unfold ev_view in He. by replace (n_event_n st1) with (n_event_n st) by congruence. }
  assert (Hidx : ok None None [] held (put_event_index k st1)) by (by apply ok_index).
  wp_case H1; [by apply wp_bind, wp_modify, wp_ret, HQ|].
  wp_case H2; [by apply wp_bind, wp_modify, wp_ret, HQ|].
  apply wp_bind. eapply (wp_mono _ (λ _ st', ok None None [] held st')).
  - wp_case H3; [|by apply wp_ret]. unfold mod_ev. apply wp_bind, wp_modify, wp_modify.
    eapply ok_core; [|exact Hidx]. unfold core, ev_view, zlen. cbn. by rewrite length_alter.
  - intros _ st2 Hok2. by apply wp_ret, HQ.
Qed.

Lemma wp_event_socket held i k e (Q : unit + Z → net → Prop) st :
  ok None None [] held st → s_type (slot_at i st) ≠ SOCKET_TYPE_RESERVE → 0 ≤ k ≤ n_event_n st →
  ids_left st → (∀ v st', ok None None [] held st' → Q v st') → wp (event_socket fuel i k e) Q st.
Proof.
  intros Hok Hr Hk Hids HQ. unfold event_socket. apply wp_bind, wp_get_s.
  destruct (Z.eqb_spec (s_type (slot_at i st)) SOCKET_TYPE_INVALID) as [Hinv|Hinv].
  { rewrite Hinv. cbn. by apply wp_ret, HQ. }
  assert (Hl : is_live (slot_at i st)) by done.
  wp_case H1.
  { apply wp_bind. eapply wp_report_connect; [exact Hok|done|]. intros v st' Hok'. by apply wp_ret, HQ. }
  wp_case H2.
  { apply wp_bind. eapply wp_report_accept; [exact Hok|done|]. intros v st' Hok'. by apply wp_ret, HQ. }
  wp_case H4; [by eapply wp_event_read|].
  wp_case H5.
  { apply wp_bind. eapply wp_send_buffer; [exact Hok|done|]. intros v st' Hok' _ _. by apply wp_ret, HQ. }
  wp_case H6; [apply wp_bind; eapply wp_event_error; [exact Hok|]; intros v st' Hok'; by apply wp_ret, HQ|].
  wp_case H7; [by eapply wp_event_eof|]. by apply wp_ret, HQ.
Qed.

(** ** The turn of the socket thread *)

(** What the turn is for: a request ([inl]), or an event with its index. *)
Definition turn_head : M (unit + option (Z * event)) :=
  c ← gets n_checkctrl;
  cmd ← (if negb (c =? 0) then has_cmd else mret 0) : M Z;
  if negb (cmd =? 0) then mret (inl tt)
  else
    modify (put_checkctrl 0);;
    ok ← next_event;
    if negb (ok : bool) then mret (inr None)
    else
      k ← gets n_event_index;
      modify (put_event_index (k + 1));;
      evs ← gets n_ev;
      e ← liftO (aget evs k);
      mret (inr (Some (k, e))).

Definition turn_rest (h : unit + option (Z * event)) : M (unit + Z) :=
  match h with
  | inl _ =>
      type ← ctrl_cmd;
      if negb (type =? -1) then clear_closed_event type;; mret (inr type) else mret (inl tt)
  | inr None => mret (inl tt)
  | inr (Some (k, e)) =>
      match e_s e with None => mret (inl tt) | Some i => event_socket fuel i k e end
  end.

Lemma poll_turn_split st : poll_turn fuel tt st = (turn_head ≫= turn_rest) st.
Proof.
  unfold poll_turn, event_turn, turn_head, mbind, stateM_mbind, gets, modify, mret, stateM_mret, liftO.
  cbn [mbind outcome_mbind]. destruct (negb (n_checkctrl st =? 0)).
  - destruct (has_cmd st) as [[cmd st1]| | | |]; cbn [mbind outcome_mbind]; try done.
    destruct (negb (cmd =? 0)); [done|].
    destruct (next_event _) as [[b st2]| | | |]; cbn [mbind outcome_mbind]; try done.
    destruct (negb b); [done|]. cbn. by destruct (aget (n_ev st2) (n_event_index st2)).
  - cbn. destruct (next_event _) as [[b st2]| | | |]; cbn [mbind outcome_mbind]; try done.
    destruct (negb b); [done|]. cbn. by destruct (aget (n_ev st2) (n_event_index st2)).
Qed.
End events.

Section turn.
Context {Kern : Kernel} {fuel : nat} {Laws : KernelLaws fuel}.
Implicit Types (st : net).

Lemma wp_has_cmd (Q : Z → net → Prop) st :
  (∀ v st', core st = core st' → (v ≠ 0 → n_pipe st' ≠ []) → Q v st') → wp has_cmd Q st.
Proof.
  intros HQ. unfold has_cmd. apply wp_bind, wp_gets, wp_bind, wp_sys. intros r st1 Hc _.
  apply wp_bind, wp_gets, wp_ret, HQ; [done|]. destruct (n_pipe st1); [|done].
  by rewrite orb_true_r.
Qed.

Lemma wp_next_event held (Q : bool → net → Prop) st :
  ok None None [] held st →
  (∀ b st', ok None None [] held st' → n_alloc_id st' = n_alloc_id st →
     (b = true → n_event_index st' < n_event_n st') → Q b st') →
  wp next_event Q st.
Proof.
  intros Hok HQ. pose proof (ok_ev _ _ _ _ _ Hok) as [Hi Hn]. cbn in Hi, Hn. unfold next_event.
  apply wp_bind, wp_get. destruct (Z.eqb_spec (n_event_index st) (n_event_n st)) as [E|E]; cycle 1.
  { apply wp_ret, HQ; [done|done|]. intros _. lia. }
  apply wp_bind. unfold sp_wait. apply wp_bind, wp_gets, wp_bind, wp_sys_sum. intros st1 Hc.
  eapply ok_core in Hok; [|exact Hc]. pose proof (core_top _ _ Hc) as Ht. rewrite Ht in HQ. clear Hc Ht Hi Hn E.
  pose proof (ok_ev _ _ _ _ _ Hok) as [Hi Hn]. cbn in Hi, Hn.
  destruct (match answer _ _ with inl _ => _ | inr _ => _ end) as [evs|].
  - apply wp_bind, wp_modify, wp_ret. do 4 apply wp_bind, wp_modify. pose proof (zlen_nonneg evs).
    destruct (Z.leb_spec (zlen evs) 0).
    + apply wp_bind, wp_modify, wp_ret, HQ; [|done|done]. eapply ok_events; [exact Hok|done|]. cbn. lia.
    + apply wp_ret, HQ; [|done|]; [|intros _; cbn; lia]. eapply ok_events; [exact Hok|done|]. cbn. lia.
  - apply wp_ret. do 4 apply wp_bind, wp_modify. cbn [Z.leb Z.compare].
    apply wp_bind, wp_modify, wp_ret, HQ; [|done|done]. eapply ok_events; [exact Hok|done|]. cbn.
    pose proof (zlen_nonneg (n_ev st1)). lia.
Qed.

Lemma wp_turn_head held (Q : unit + option (Z * event) → net → Prop) st :
  ok None None [] held st →
  (∀ h st', ok None None [] held st' → n_alloc_id st' = n_alloc_id st →
     (h = inl tt → n_pipe st' ≠ []) → (∀ k e, h = inr (Some (k, e)) → 0 ≤ k ≤ n_event_n st') → Q h st') →
  wp turn_head Q st.
Proof.
  intros Hok HQ. unfold turn_head. apply wp_bind, wp_gets, wp_bind.
  eapply (wp_mono _ (λ v st', core st = core st' ∧ (v ≠ 0 → n_pipe st' ≠ []))).
  { destruct (negb _); [by apply wp_has_cmd|]. by apply wp_ret. }
  intros v st1 [Hc Hp]. eapply ok_core in Hok; [|exact Hc]. rewrite (core_top _ _ Hc) in HQ. clear Hc.
  destruct (Z.eqb_spec v 0) as [->|Hv]; cbn [negb]; [|by apply wp_ret, HQ; auto].
  apply wp_bind, wp_modify. apply wp_bind. eapply (wp_next_event held); [by eapply ok_core; [|exact Hok]|].
  intros b st2 Hok2 Ht Hlt. destruct b; cbn [negb]; [|by apply wp_ret, HQ].
  apply wp_bind, wp_gets, wp_bind, wp_modify, wp_bind, wp_gets. specialize (Hlt eq_refl).
  pose proof (ok_ev _ _ _ _ _ Hok2) as [Hi Hn]. cbn in Hi, Hn.
  destruct (aget_in (n_ev st2) (n_event_index st2) ltac:(lia)) as (e & He & _).
  apply wp_bind, (wp_lift _ e); [done|]. apply wp_ret, HQ; [apply ok_index; [done|lia]|done|done|].
  intros k e' [= <- <-]. cbn. lia.
Qed.

(** An event of a socket whose slot has been reserved anew would be an error, and so
    is a datagram that the kernel refuses. *)
Definition turn_ok (st : net) : Prop :=
  pwp turn_head (λ h st',
    (∀ k e i, h = inr (Some (k, e)) → e_s e = Some i → s_type (slot_at i st') ≠ SOCKET_TYPE_RESERVE) ∧
    (h = inl tt → request_taken st')) st.

Lemma wp_poll_turn held (Q : unit + Z → net → Prop) st :
  ok None None [] held st → ids_left st → turn_ok st →
  (∀ v st', ok None None [] held st' → Q v st') → wp (poll_turn fuel tt) Q st.
Proof.
  intros Hok Hids Hturn HQ. assert (H : wp (turn_head ≫= turn_rest (fuel := fuel)) Q st).
  { apply wp_bind. eapply wp_mono; [apply wp_and; [|exact Hturn]|].
    { eapply (wp_turn_head held); [done|]. intros h st' H1 H2 H3 H4.
      exact (conj H1 (conj H2 (conj H3 H4))). }
    intros h st1 [(Hok1 & Ht & Hp & Hk) [Hev Hdt]]. unfold ids_left in Hids. rewrite <-Ht in Hids.
    destruct h as [[]|[[k e]|]]; cbn [turn_rest].
    - apply wp_bind. eapply (wp_ctrl_cmd); [exact Hok1|by apply Hp|by apply Hdt|]. intros type st2 Hok2.
      destruct (negb _); [|by apply wp_ret, HQ].
      apply wp_bind. eapply wp_clear_closed_event; [exact Hok2|]. intros st3 Hok3. by apply wp_ret, HQ.
    - destruct (e_s e) as [i|] eqn:Ei; [|by apply wp_ret, HQ].
      eapply (wp_event_socket (Laws := Laws)); [exact Hok1|by eapply Hev|by eapply Hk|done|done].
    - by apply wp_ret, HQ. }
  destruct H as (a & st' & H & HQ'). exists a, st'. split; [|done]. by rewrite poll_turn_split.
Qed.
End turn.

(** ** Information, and the server itself *)

Section server.
Context {Kern : Kernel} {fuel : nat} {Laws : KernelLaws fuel}.
Implicit Types (st : net).

Lemma wp_query_info held i (Q : option socket_info → net → Prop) st :
  ok None None [] held st → (∀ v st', core st = core st' → Q v st') →
  wp (query_info (slot_at i st)) Q st.
Proof.
  intros Hok HQ. unfold query_info. set (s := slot_at i st).
  apply wp_bind. eapply (wp_mono _ (λ _ st', core st = core st')); [|intros; by apply wp_ret, HQ].
  unfold query_kind. destruct (s_type s =? SOCKET_TYPE_BIND); [by apply wp_ret|].
  destruct (_ =? _); [apply wp_bind, wp_sys_sum; intros; by apply wp_ret|]. wp_case Hc; [|by apply wp_ret].
  destruct (Z.eqb_spec (s_protocol s) PROTOCOL_TCP) as [|Hp]; [apply wp_bind, wp_sys_sum; intros; by apply wp_ret|].
  assert (Hl : is_live s).
  { unfold is_live. rewrite !orb_true_iff, !Z.eqb_eq in Hc. by destruct Hc as [[-> | ->]| ->]. }
  pose proof (live_udp _ _ _ _ _ _ Hok Hl Hp) as [_ (a & Ha & Hla) _ _]. fold s in Ha.
  apply wp_bind, (wp_lift _ a); [unfold p_udp_address; by rewrite Ha|].
  destruct (udp_address_total (s_protocol s) a (or_intror Hla)) as [o Ho].
  apply wp_bind, (wp_lift _ o); [done|]. by apply wp_ret.
Qed.

Lemma wp_info_loop held n i si (Q : list socket_info → net → Prop) st :
  ok None None [] held st → (∀ v st', ok None None [] held st' → Q v st') →
  wp (info_loop n i si) Q st.
Proof.
  revert i si st. induction n as [|n IH]; intros i si st Hok HQ; cbn [info_loop]; [by apply wp_ret, HQ|].
  apply wp_bind, wp_get_s, wp_bind. eapply wp_query_info; [exact Hok|]. intros v st' Hc.
  apply IH; [by eapply ok_core|done].
Qed.

(** A new server keeps the memory that there is. *)
Lemma ok_new held st :
  mem_ok held st → n_slot st = ∅ → n_pipe st = [] → n_alloc_id st = 0 →
  0 ≤ n_event_index st ≤ n_event_n st ∧ n_event_n st ≤ zlen (n_ev st) → ok None None [] held st.
Proof.
  intros Hm Hs Hp Ha Hev. assert (E : ∀ i, slot_at i st = socket0).
  { intros i. unfold slot_at. by rewrite Hs, lookup_total_empty. }
  split; rewrite ?Hp, ?Ha; try done; try (intros i; rewrite E); try done.
  - split; try done. by intros [].
  - by intros Hin%elem_of_nil.
  - by apply NoDup_nil.
  - intros pre r post id H. by destruct pre.
  - intros _. constructor.
Qed.

Lemma create_ok held time (Q : bool → net → Prop) st :
  mem_ok held st → n_slot st = ∅ → n_pipe st = [] →
  (∀ h fd0 fd1, answer h SPipe = inr (fd0, fd1) → fd0 < 1024) →
  (∀ st', Q false st') → (∀ st', ok None None [] held st' → Q true st') →
  wp (socket_server_create time) Q st.
Proof.
  intros Hm Hs Hp Hfd Hfalse Htrue. unfold socket_server_create. apply wp_bind, wp_sys. intros efd st1 Hc1 _.
  destruct (efd =? -1); [by apply wp_ret, Hfalse|]. apply wp_bind, wp_sys_sum. intros st2 Hc2.
  destruct (answer _ SPipe) as [e|[fd0 fd1]] eqn:Ea.
  { apply wp_bind, wp_sys. intros. by apply wp_ret, Hfalse. }
  apply Hfd in Ea. apply wp_bind, wp_modify, wp_bind, wp_sp_add. intros r st3 Hc3. destruct (negb _).
  { do 3 (apply wp_bind, wp_sys; intros). by apply wp_ret, Hfalse. }
  apply wp_bind, wp_sys. intros rfd st4 Hc4 _. apply wp_bind, wp_modify.
  apply wp_bind, wp_assert; [by apply Z.ltb_lt|]. apply wp_ret, Htrue.
  apply ok_new; try done. unfold mem_ok in *. cbn.
  assert (E : n_heap st4 = n_heap st).
  { rewrite <-(core_heap _ _ Hc4), <-(core_heap _ _ Hc3). cbn. by rewrite <-(core_heap _ _ Hc2), <-(core_heap _ _ Hc1). }
  by rewrite E, <-Hm, Hs, Hp.
Qed.

(** ** Steps *)

(** What a thread may do next: a call, a turn of the socket thread, or to take and
    release memory. *)
Inductive op :=
| Send (buf : socket_sendbuffer)
| SendLow (buf : socket_sendbuffer)
| UdpSend (address : list Z) (buf : socket_sendbuffer)
| UdpConnect (id : Z) (addr : list Z) (port : Z)
| Listen (opaque : Z) (addr : option (list Z)) (port backlog : Z)
| Connect (opaque : Z) (addr : list Z) (port : Z)
| Bind (opaque fd : Z)
| Udp (opaque : Z) (addr : option (list Z)) (port : Z)
| Close (opaque id : Z)
| Shutdown (opaque id : Z)
| Start (opaque id : Z)
| Pause (opaque id : Z)
| Nodelay (id : Z)
| Exit
| Info
| UpdateTime (time : Z)
| Malloc (bs : list Z)
| Free (p : addr)
| Turn.

Definition run (o : op) : M Z :=
  match o with
  | Send buf => socket_server_send buf
  | SendLow buf => socket_server_send_lowpriority buf
  | UdpSend a buf => socket_server_udp_send a buf
  | UdpConnect id addr port => socket_server_udp_connect id addr port
  | Listen opaque addr port backlog => socket_server_listen opaque addr port backlog
  | Connect opaque addr port => socket_server_connect opaque addr port
  | Bind opaque fd => socket_server_bind opaque fd
  | Udp opaque addr port => socket_server_udp opaque addr port
  | Close opaque id => socket_server_close opaque id;; mret 0
  | Shutdown opaque id => socket_server_shutdown opaque id;; mret 0
  | Start opaque id => socket_server_start opaque id;; mret 0
  | Pause opaque id => socket_server_pause opaque id;; mret 0
  | Nodelay id => socket_server_nodelay id;; mret 0
  | Exit => socket_server_exit;; mret 0
  | Info => socket_server_info;; mret 0
  | UpdateTime time => socket_server_updatetime time;; mret 0
  | Malloc bs => hmalloc bs;; mret 0
  | Free p => hfree p;; mret 0
  | Turn => poll_turn fuel tt;; mret 0
  end.

(** When it may be done, with the blocks that the workers hold before and after. *)
Definition allowed (o : op) (held held' : list addr) (st : net) : Prop :=
  match o with
  | Send buf =>
      buf_ok (n_heap st) held held' buf ∧ send_ok st (sb_id buf) ∧ has_room st ∧
      datagram_taken (HASH_ID (sb_id buf)) st
  | SendLow buf => buf_ok (n_heap st) held held' buf ∧ send_ok st (sb_id buf) ∧ has_room st
  | UdpSend a buf =>
      buf_ok (n_heap st) held held' buf ∧ udp_ok a ∧ sb_id buf ≤ n_alloc_id st ∧ has_room st
  | UdpConnect id _ _ | Close _ id | Shutdown _ id | Start _ id | Pause _ id | Nodelay id =>
      held' = held ∧ id ≤ n_alloc_id st ∧ has_room st
  | Listen _ _ _ _ | Connect _ _ _ | Bind _ _ | Udp _ _ _ => held' = held ∧ ids_left st ∧ has_room st
  | Exit => held' = held ∧ has_room st
  | Info | UpdateTime _ => held' = held
  | Malloc _ => held' = fresh (dom (n_heap st)) :: held
  | Free p => held ≡ₚ p :: held'
  | Turn => held' = held ∧ ids_left st ∧ turn_ok st
  end.

Lemma step_keeps_ok o held held' st :
  ok None None [] held st → allowed o held held' st →
  wp (run o) (λ _ st', ok None None [] held' st') st.
Proof.
  intros Hok Ha.
  assert (Hreq : ∀ r, held' = held → has_room st → req_ok (n_heap st) (n_alloc_id st) r → creates r = None →
    (∀ id, sends id r = false) → req_bufs r = [] →
    wp (send_request r;; mret 0) (λ _ st', ok None None [] held' st') st).
  { intros r -> Hroom Hr Hc Hs Hb. apply wp_bind. eapply wp_request; [by rewrite Hb|done|done|done|done|].
    intros st' Hok'. by apply wp_ret. }
  destruct o; cbn [allowed run] in *; destruct_and?.
  - by eapply (wp_socket_server_send (Laws := Laws)).
  - by eapply wp_socket_server_send_lowpriority.
  - by eapply (wp_socket_server_udp_send).
  - subst. by eapply (wp_socket_server_udp_connect (Laws := Laws)).
  - subst. by eapply wp_socket_server_listen.
  - subst. by eapply wp_socket_server_connect.
  - subst. by eapply wp_socket_server_bind.
  - subst. by eapply wp_socket_server_udp.
  - by apply Hreq.
  - by apply Hreq.
  - by apply Hreq.
  - by apply Hreq.
  - by apply Hreq.
  - by apply Hreq.
  - subst. apply wp_bind. unfold socket_server_info. eapply wp_info_loop; [exact Hok|]. intros. by apply wp_ret.
  - subst. apply wp_bind, wp_modify, wp_ret. by eapply ok_core; [|exact Hok].
  - subst. apply wp_bind. unfold hmalloc. apply wp_bind, wp_gets, wp_bind, wp_modify, wp_ret, wp_ret.
    apply ok_malloc; [done|]. apply not_elem_of_dom, is_fresh.
  - eapply ok_perm in Hok; [|exact Ha]. apply wp_bind. eapply wp_hfree_held; [exact Hok|]. intros. by apply wp_ret.
  - subst. apply wp_bind. eapply (wp_poll_turn (Laws := Laws)); [exact Hok|done|done|]. intros. by apply wp_ret.
Qed.

Inductive step : list addr * net → list addr * net → Prop :=
| step_op o held held' v st st' :
    allowed o held held' st → run o st = Ret (v, st') → step (held, st) (held', st').

Lemma steps_ok c c' : rtc step c c' → ok None None [] c.1 c.2 → ok None None [] c'.1 c'.2.
Proof.
  induction 1 as [|c1 c2 c3 Hs _ IH]; [done|]. intros Hok. apply IH. destruct Hs as [o held held' v st st' Ha Hr].
  destruct (step_keeps_ok _ _ _ _ Hok Ha) as (v' & st2 & Hr' & Hok').
  cbn in *. rewrite Hr in Hr'. by injection Hr' as -> ->.
Qed.
End server.
