(* ===== verification/SocketProps.v ===== *)
(** * What the socket server promises

    The properties of the socket server, from the lemmas of [SocketOk] and the files
    after it, each with a run of the model on a kernel ([Mild]) that takes all bytes
    and tells that the first socket can be written. *)
From S2P Require Import Prelude StateM Memory SocketState Socket SocketOk SocketThread SocketSend SocketCalls SocketSafe.

Local Open Scope Z_scope.

(** ** A concrete kernel *)

Module Mild.
Definition reply {A} (c : syscall A) : A :=
  match c in syscall A return A with
  | SWrite _ bs => zlen bs
  | SSendto _ bs _ => zlen bs
  | SRead _ _ => inl EAGAIN
  | SRecvfrom _ _ => inl EAGAIN
  | SAccept _ => inl EAGAIN
  | SClose _ => 0
  | SShutdown _ _ => 0
  | SNonblocking _ => 0
  | SDup _ => 9
  | SPipe => inr (4, 5)
  | SSelect _ => 1
  | SSocket _ _ _ => 7
  | SBind _ _ => 0
  | SListen _ _ => 0
  | SConnect _ _ => - EINPROGRESS
  | SSetsockopt _ _ _ _ => 0
  | SGetsockerror _ => inr 0
  | SGetpeername _ => inl EAGAIN
  | SGetsockname _ => inl EAGAIN
  | SGetaddrinfo _ _ _ _ =>
      let ai := MkInfo AF_INET SOCK_STREAM IPPROTO_TCP (MkAddr AF_INET [0; 80] [127; 0; 0; 1]) in
      inr (ai, [])
  | SEpollCreate => 3
  | SEpollAdd _ _ _ => 0
  | SEpollDel _ _ => 0
  | SEpollMod _ _ _ _ _ => 0
  | SEpollWait _ _ => inr [MkEvent (Some 1) false true false false]
  end.

#[export] Instance kernel : Kernel := {| answer A _ c := reply c; inet_ntop _ := None |}.

#[export] Instance laws : KernelLaws 1.
Proof.
  split.
  - intros. cbn. lia.
  - intros h fd bs. cbn. rewrite andb_true_r. apply Z.eqb_neq. pose proof (zlen_nonneg bs). unfold EINTR. lia.
  - done.
  - intros h host port t p ai l [= <- <-]. done.
Qed.

(** Memory, and no server yet. *)
Definition net0 : net := MkNet 0 0 0 0 0 0 0 0 0 [] ∅ [] ∅ 0 message0 0 [].

Definition result_of {A} (m : outcome (A * net)) : net := match m with Ret (_, st) => st | _ => net0 end.

Definition after (o : op) (st : net) : net := result_of (run (fuel := 1) o st).

Definition created : net := result_of (socket_server_create 0 net0).
(** A worker connects, and the socket thread begins with it. *)
Definition connecting : net := after (Connect 17 (codes "localhost") 80) created.
Definition opening : net := after Turn connecting.
(** It has a message to send. *)
Definition loaded : net := after (Malloc [1; 2; 3]) opening.
Definition message1 : socket_sendbuffer := MkSend 1 SOCKET_BUFFER_MEMORY 1 3.
(** The connection is there. *)
Definition opened : net := after Turn loaded.
(** Or the message waits for it, and the socket is to be closed. *)
Definition waiting : net := after Turn (after (Send message1) loaded).
Definition closing : net := after Turn (after (Close 17 1) waiting).
End Mild.

(** ** Safety *)

Section safety.
Context {Kern : Kernel} {fuel : nat} {Laws : KernelLaws fuel}.

(** A server that has been created, and then any allowed steps of its threads. *)
Definition reachable (c : list addr * net) : Prop :=
  ∃ held0 time st0 st1,
    mem_ok held0 st0 ∧ n_slot st0 = ∅ ∧ n_pipe st0 = [] ∧
    (∀ h fd0 fd1, answer h SPipe = inr (fd0, fd1) → fd0 < 1024) ∧
    socket_server_create time st0 = Ret (true, st1) ∧ rtc (step (fuel := fuel)) (held0, st1) c.

Lemma reachable_ok c : reachable c → ok None None [] c.1 c.2.
Proof.
  intros (held0 & time & st0 & st1 & Hm & Hs & Hp & Hfd & Hc & Hsteps).
  eapply steps_ok; [exact Hsteps|]. cbn.
  destruct (create_ok held0 time (λ b st, b = true → ok None None [] held0 st) st0 Hm Hs Hp Hfd) as (b & st & Hr & Hok);
    [done|done|]. rewrite Hr in Hc. injection Hc as -> ->. by apply Hok.
Qed.

Lemma reachable_step held held' st st' o v :
  reachable (held, st) → allowed o held held' st → run (fuel := fuel) o st = Ret (v, st') →
  reachable (held', st').
Proof.
  intros (held0 & time & st0 & st1 & H1 & H2 & H3 & H4 & H5 & H6) Ha Hr.
  exists held0, time, st0, st1. split_and!; try done. eapply rtc_r; [exact H6|]. by econstructor.
Qed.

(** C4: A call of a worker or a turn of the socket thread that is [allowed], in a
    state that a server reaches by allowed steps, returns: no assertion fails, no
    memory is read or freed that is not there, and no lock is waited for in vain;
    afterwards every block of memory belongs to exactly one owner. Allowed is what
    keeps the contract of the calls: the caller owns the memory it sends and knows the
    id from the server, no message is sent to an id whose socket is not made yet
    (see [message_before_open_aborts]), the pipe has room and ids are left, the event is
    not an old one of a slot reserved anew, and the kernel does not refuse the datagram
    that the step sends for a UDP socket (see [datagram_refused]). *)
Theorem server_safe held st o held' :
  reachable (held, st) → allowed o held held' st →
  ∃ v st', run (fuel := fuel) o st = Ret (v, st') ∧
    held' ++ slots_bufs (n_slot st') ++ pipe_bufs (n_pipe st') ≡ₚ (map_to_list (n_heap st')).*1.
Proof.
  intros Hr Ha. destruct (step_keeps_ok o held held' st (reachable_ok _ Hr) Ha) as (v & st' & Hrun & Hok).
  exists v, st'. split; [done|]. apply Hok.
Qed.

(** C34: The union [p] of a socket in use holds what its protocol says: the size of
    the next read for TCP, an address of 19 bytes for UDP. *)
Theorem union_typed held st i :
  reachable (held, st) → is_live (slot_at i st) →
  let s := slot_at i st in
  (s_protocol s = PROTOCOL_TCP ∧ ∃ n, p_size s = Ret n ∧ 0 < n ≤ INT_MAX) ∨
  ((s_protocol s = PROTOCOL_UDP ∨ s_protocol s = PROTOCOL_UDPv6) ∧
   ∃ a, p_udp_address s = Ret a ∧ zlen a = UDP_ADDRESS_SIZE).
Proof.
  intros Hr Hl s. pose proof (reachable_ok _ Hr) as Hok. cbn in Hok.
  destruct (so_live _ _ _ _ _ (ok_slot _ _ _ _ _ Hok i) Hl) as [[Hp [(n & Hn & Hb) _ _ _]]|[Hp (a & Ha & Hz) _ _]].
  - left. split; [done|]. exists n. unfold p_size, s. by rewrite Hn.
  - right. split; [done|]. exists a. unfold p_udp_address, s. by rewrite Ha.
Qed.

(** ** Sending *)

(** C12: A worker that sends to an open TCP socket either writes the message itself,
    which it only does when nothing of the socket waits, not even in the pipe; then
    the bytes that have gone to the kernel with those that wait grow by exactly
    the message. Or it puts the message at the end of the pipe. *)
Theorem send_keeps_order held held' buf st :
  reachable (held, st) → buf_ok (n_heap st) held held' buf → send_ok st (sb_id buf) → has_room st →
  s_protocol (slot_at (HASH_ID (sb_id buf)) st) = PROTOCOL_TCP →
  ∃ v st', socket_server_send buf st = Ret (v, st') ∧
    (v = 0 → written buf st st' ∧ senders (sb_id buf) (n_pipe st) = 0 ∨ posted false buf st st').
Proof.
  intros Hr Hb Hs Hroom Hp. pose proof (reachable_ok _ Hr) as Hok. cbn in Hok.
  destruct (wp_socket_server_send (Laws := Laws) held held' buf
    (λ v st', v = 0 → written buf st st' ∧ senders (sb_id buf) (n_pipe st) = 0 ∨ posted false buf st st')
    st Hok Hb Hs Hroom ltac:(by intros Hu)) as (v & st' & Hrun & HQ); [by auto|]. by exists v, st'.
Qed.

(** The socket thread puts a message of the pipe behind what waits for its
    socket, unless low-priority data waits that it goes in front of. *)
Theorem message_joins_stream id p bs priority st :
  joins (slot_at (HASH_ID id) st) id priority → n_heap st !! p = Some bs → zlen bs ≤ INT_MAX →
  ∃ v st', send_socket id p (zlen bs) priority None st = Ret (v, st') ∧
    stream (HASH_ID id) st' = stream (HASH_ID id) st ++ bs.
Proof.
  intros Hj Hp Hmax.
  destruct (wp_send_joins id p (zlen bs) priority bs
    (λ _ st', stream (HASH_ID id) st' = stream (HASH_ID id) st ++ bs) st Hj Hp eq_refl Hmax)
    as (v & st' & Hrun & HQ); [done|]. by exists v, st'.
Qed.

(** C5: When a socket can be written, its bytes go to the kernel in the order in
    which they wait: first the rest of a direct write, then the high and then the low
    list. None is lost or repeated: what has gone out with what still waits is what it
    was. Or the kernel has refused and the socket is closed for writing; then what has
    gone out is the beginning of it. *)
Theorem send_buffer_in_order held st i :
  reachable (held, st) → is_live (slot_at i st) →
  ∃ r st', send_buffer fuel i socket_lock_init st = Ret (r, st') ∧
    (stream i st' = stream i st ∨
     (cannot_write (slot_at i st') ∧ ∃ rest, sent (s_fd (slot_at i st)) (n_history st') ++ rest = stream i st)).
Proof.
  intros Hr Hl. pose proof (reachable_ok _ Hr) as Hok. cbn in Hok.
  assert (H : wp (send_buffer fuel i socket_lock_init)
    (λ _ st', stream i st' = stream i st ∨ cut_off i st st') st).
  { eapply (wp_send_buffer (Laws := Laws) held i); [exact Hok|exact Hl|]. by intros. }
  destruct H as (r & st' & Hrun & HQ). by exists r, st'.
Qed.

(** C11: A socket that was closed while data waited is closed for good by the next event
    for writing if the kernel takes what is written to it: all that waited has been
    written, the slot is free, and the blocks of memory that it had are released. *)
Theorem closing_socket_closes held st i :
  reachable (held, st) → is_live (slot_at i st) → s_closing (slot_at i st) = true →
  takes_all (s_fd (slot_at i st)) →
  ∃ r st', send_buffer fuel i socket_lock_init st = Ret (r, st') ∧
    s_type (slot_at i st') = SOCKET_TYPE_INVALID ∧ slot_bufs (slot_at i st') = [] ∧
    (∀ p, p ∈ slot_bufs (slot_at i st) → n_heap st' !! p = None) ∧
    sent (s_fd (slot_at i st')) (n_history st') = stream i st.
Proof.
  intros Hr Hl Hc Hall. pose proof (reachable_ok _ Hr) as Hok. cbn in Hok.
  assert (H : wp (send_buffer fuel i socket_lock_init) (λ _ st', ok None None [] held st' ∧ all_sent i st st') st).
  { eapply (wp_send_buffer (Laws := Laws) held i); [exact Hok|exact Hl|]. auto. }
  eapply wp_and in H; [|apply (only_send_buffer i)].
  destruct H as (r & st' & Hrun & (Hok' & Hs & Hb & Ht) & Hap). exists r, st'. split_and!; [done|by apply Ht|done| |].
  - by apply (memory_released held i st); [apply Hok|apply Hok'| |].
  - by rewrite <-Hs, stream_empty.
Qed.

(** ** Ids and addresses *)

(** While ids are left [reserve_id] gives an id above every id before it, whose
    slot was free and is now reserved for it; it gives -1 only when no slot is
    free; the other slots stay as they are. *)
Theorem reserve_id_fresh held st :
  reachable (held, st) → ids_left st →
  ∃ id st', reserve_id st = Ret (id, st') ∧
    ((n_alloc_id st < id ∧ n_alloc_id st' = id ∧
      s_type (slot_at (HASH_ID id) st) = SOCKET_TYPE_INVALID ∧
      s_type (slot_at (HASH_ID id) st') = SOCKET_TYPE_RESERVE ∧ s_id (slot_at (HASH_ID id) st') = id ∧
      ∀ j, j ≠ HASH_ID id → slot_at j st' = slot_at j st) ∨
     (id = -1 ∧ (∀ j, slot_at j st' = slot_at j st) ∧
      ∀ j, 0 ≤ j < MAX_SOCKET → s_type (slot_at j st) ≠ SOCKET_TYPE_INVALID)).
Proof.
  intros Hr Hids. pose proof (reachable_ok _ Hr) as Hok. cbn in Hok. pose proof (ok_top _ _ _ _ _ Hok) as Htop.
  match goal with |- ∃ id st', _ ∧ ?P => assert (H : wp reserve_id (λ id st', P) st) end.
  { eapply wp_reserve_id; [exact Hok|done| |].
    - intros id st' _ [F1 F2 F3 F4 F5 F6] _. left. rewrite F3. by split_and!.
    - intros st' _ -> Hfull. right. split_and!; [done|done|]. intros j Hj.
      set (a := n_alloc_id st) in *. set (k := (j - a - 1) mod MAX_SOCKET + 1).
      pose proof (Z.mod_pos_bound (j - a - 1) MAX_SOCKET ltac:(done)) as Hk.
      specialize (Hfull k ltac:(unfold k; lia)). replace j with (HASH_ID (a + k)); [done|].
      unfold HASH_ID, k, ids_left in *. fold a in Hids. unfold u32.
      rewrite (Z.mod_small (a + _)) by (unfold INT_MAX in *; lia).
      rewrite Z.add_assoc, (Z.add_comm a), <-Z.add_assoc, Zplus_mod_idemp_l.
      replace (j - a - 1 + (a + 1)) with j by lia. by apply Z.mod_small. }
  destruct H as (id & st' & Hrun & HQ). by exists id, st'.
Qed.
End safety.

(** The address of a datagram, written by [gen_udp_address] and read again by
    [udp_socket_address], is the same, whatever bytes follow it. *)
Theorem udp_address_round_trip protocol sa rest :
  length (sa_port sa) = 2%nat →
  (protocol = PROTOCOL_UDP ∧ sa_family sa = AF_INET ∧ length (sa_addr sa) = 4%nat ∨
   protocol = PROTOCOL_UDPv6 ∧ sa_family sa = AF_INET6 ∧ length (sa_addr sa) = 16%nat) →
  udp_socket_address protocol (gen_udp_address protocol sa ++ rest) = Ret (Some sa).
Proof.
  destruct sa as [family port a]. cbn. intros Hp Ha.
  destruct port as [|p0 [|p1 [|]]]; try done.
  assert (Hport : mread (u8 protocol :: [p0; p1] ++ a ++ rest) 1 2 = Ret [p0; p1]).
  { rewrite mread_in; [done|done|done|]. cbn [app]. rewrite !zlen_cons. pose proof (zlen_nonneg (a ++ rest)). lia. }
  assert (Haddr : ∀ n, length a = n → mread (u8 protocol :: [p0; p1] ++ a ++ rest) 3 (Z.of_nat n) = Ret a).
  { intros n <-. rewrite mread_in; [|done|lia|].
    - rewrite Nat2Z.id. change (drop _ _) with (a ++ rest). by rewrite take_app_length.
    - rewrite zlen_cons, !zlen_app. unfold zlen. cbn. lia. }
  unfold udp_socket_address, gen_udp_address. cbn [sa_port sa_addr app] in *.
  destruct Ha as [(-> & -> & Ha)|(-> & -> & Ha)]; apply Haddr in Ha.
  - change (Z.of_nat 4) with 4 in Ha. change (aget _ 0) with (@Ret Z PROTOCOL_UDP). cbn -[mread].
    rewrite Hport. cbn -[mread]. by rewrite Ha.
  - change (Z.of_nat 16) with 16 in Ha. change (aget _ 0) with (@Ret Z PROTOCOL_UDPv6). cbn -[mread].
    rewrite Hport. cbn -[mread]. by rewrite Ha.
Qed.

(** ** The runs *)

Module Runs.
Import Mild.

Lemma created_reachable : reachable (fuel := 1) ([], created).
Proof.
  exists [], 0, net0, created. split_and!; [by vm_compute|done|done| | |apply rtc_refl].
  - intros h fd0 fd1 [= <- <-]. done.
  - reflexivity.
Qed.

Lemma connecting_reachable : reachable (fuel := 1) ([], connecting).
Proof.
  eapply (reachable_step _ _ _ _ (Connect 17 (codes "localhost") 80)); [apply created_reachable| |].
  - split; [done|]. by split; vm_compute.
  - vm_compute. reflexivity.
Qed.

Ltac turn :=
  intros h st' Hh; vm_compute in Hh; simplify_eq;
  (split; [intros k e i ? He; simplify_eq; cbn in He; simplify_eq; vm_compute; done
          |intros ? r p id Hp Hid; vm_compute in Hp; simplify_eq; cbn in Hid; simplify_eq; intros Hu; by destruct Hu]).

Lemma opening_reachable : reachable (fuel := 1) ([], opening).
Proof.
  eapply (reachable_step _ _ _ _ Turn); [apply connecting_reachable| |].
  - split; [done|]. split; [by vm_compute|]. turn.
  - vm_compute. reflexivity.
Qed.

Lemma loaded_reachable : reachable (fuel := 1) ([1%positive], loaded).
Proof.
  eapply (reachable_step _ _ _ _ (Malloc [1; 2; 3])); [apply opening_reachable| |].
  - vm_compute. reflexivity.
  - vm_compute. reflexivity.
Qed.

Lemma message1_ok : buf_ok (n_heap loaded) [1%positive] [] message1.
Proof. split; [done|]. exists [1; 2; 3]. by vm_compute. Qed.

Lemma opened_reachable : reachable (fuel := 1) ([1%positive], opened).
Proof.
  eapply (reachable_step _ _ _ _ Turn); [apply loaded_reachable| |].
  - split; [done|]. split; [by vm_compute|]. turn.
  - vm_compute. reflexivity.
Qed.

Lemma waiting_reachable : reachable (fuel := 1) ([], waiting).
Proof.
  eapply (reachable_step _ _ _ _ Turn); [eapply (reachable_step _ _ _ _ (Send message1));
    [apply loaded_reachable| |vm_compute; reflexivity]| |vm_compute; reflexivity].
  - split; [apply message1_ok|]. split; [split; [by vm_compute|intros _; by vm_compute]|].
    split; [by vm_compute|]. intros _ ? ?. done.
  - split; [done|]. split; [by vm_compute|]. turn.
Qed.

Lemma closing_reachable : reachable (fuel := 1) ([], closing).
Proof.
  eapply (reachable_step _ _ _ _ Turn); [eapply (reachable_step _ _ _ _ (Close 17 1));
    [apply waiting_reachable| |vm_compute; reflexivity]| |vm_compute; reflexivity].
  - split; [done|]. by split; vm_compute.
  - split; [done|]. split; [by vm_compute|]. turn.
Qed.
End Runs.

Import Mild Runs.

Lemma message1_ok' : buf_ok (n_heap opened) [1%positive] [] message1.
Proof. split; [done|]. exists [1; 2; 3]. by vm_compute. Qed.

Lemma server_safe_witness : ∃ v st', run (fuel := 1) (Send message1) opened = Ret (v, st') ∧
  [] ++ slots_bufs (n_slot st') ++ pipe_bufs (n_pipe st') ≡ₚ (map_to_list (n_heap st')).*1.
Proof.
  apply (server_safe [1%positive] opened (Send message1) []); [apply opened_reachable|].
  split; [apply message1_ok'|]. split; [split; [by vm_compute|intros _; by vm_compute]|].
  split; [by vm_compute|]. intros Hu. by destruct Hu.
Defined.

Lemma live_by s : (s_type s =? SOCKET_TYPE_INVALID) || (s_type s =? SOCKET_TYPE_RESERVE) = false → is_live s.
Proof. rewrite orb_false_iff, !Z.eqb_neq. done. Qed.

Lemma union_typed_witness :
  let s := slot_at 1 opened in
  (s_protocol s = PROTOCOL_TCP ∧ ∃ n, p_size s = Ret n ∧ 0 < n ≤ INT_MAX) ∨
  ((s_protocol s = PROTOCOL_UDP ∨ s_protocol s = PROTOCOL_UDPv6) ∧
   ∃ a, p_udp_address s = Ret a ∧ zlen a = UDP_ADDRESS_SIZE).
Proof.
  apply (union_typed (fuel := 1) [1%positive] opened 1); [apply opened_reachable|].
  apply live_by. vm_compute. reflexivity.
Defined.

Lemma send_keeps_order_witness : ∃ v st', socket_server_send message1 opened = Ret (v, st') ∧
  (v = 0 → written message1 opened st' ∧ senders 1 (n_pipe opened) = 0 ∨ posted false message1 opened st').
Proof.
  apply (send_keeps_order (fuel := 1) [1%positive] [] message1 opened); [apply opened_reachable|apply message1_ok'| | |].
  - split; [by vm_compute|]. intros _. by vm_compute.
  - by vm_compute.
  - vm_compute. reflexivity.
Defined.

Lemma message_joins_stream_witness : ∃ v st',
  send_socket 1 1%positive (zlen [1; 2; 3]) PRIORITY_HIGH None opened = Ret (v, st') ∧
  stream (HASH_ID 1) st' = stream (HASH_ID 1) opened ++ [1; 2; 3].
Proof.
  apply (message_joins_stream 1 1%positive [1; 2; 3] PRIORITY_HIGH opened).
  - split; [apply live_by; vm_compute; reflexivity|]. split_and!; try (vm_compute; reflexivity).
    + vm_compute. set_solver.
    + right. vm_compute. reflexivity.
  - vm_compute. reflexivity.
  - by vm_compute.
Defined.

Lemma send_buffer_in_order_witness : ∃ r st', send_buffer 1 1 socket_lock_init waiting = Ret (r, st') ∧
  (stream 1 st' = stream 1 waiting ∨
   (cannot_write (slot_at 1 st') ∧
    ∃ rest, sent (s_fd (slot_at 1 waiting)) (n_history st') ++ rest = stream 1 waiting)).

Proof.
  apply (send_buffer_in_order (fuel := 1) [] waiting 1); [apply waiting_reachable|].
  apply live_by. vm_compute. reflexivity.
Defined.

Lemma closing_socket_closes_witness : ∃ r st', send_buffer 1 1 socket_lock_init closing = Ret (r, st') ∧
  s_type (slot_at 1 st') = SOCKET_TYPE_INVALID ∧ slot_bufs (slot_at 1 st') = [] ∧
  (∀ p, p ∈ slot_bufs (slot_at 1 closing) → n_heap st' !! p = None) ∧
  sent (s_fd (slot_at 1 st')) (n_history st') = stream 1 closing.
Proof.
  apply (closing_socket_closes (fuel := 1) [] closing 1); [apply closing_reachable| | |by intros].
  - apply live_by. vm_compute. reflexivity.
  - vm_compute. reflexivity.
Defined.

Lemma reserve_id_fresh_witness : ∃ id st', reserve_id opened = Ret (id, st') ∧
  ((n_alloc_id opened < id ∧ n_alloc_id st' = id ∧
    s_type (slot_at (HASH_ID id) opened) = SOCKET_TYPE_INVALID ∧
    s_type (slot_at (HASH_ID id) st') = SOCKET_TYPE_RESERVE ∧ s_id (slot_at (HASH_ID id) st') = id ∧
    ∀ j, j ≠ HASH_ID id → slot_at j st' = slot_at j opened) ∨
   (id = -1 ∧ (∀ j, slot_at j st' = slot_at j opened) ∧
    ∀ j, 0 ≤ j < MAX_SOCKET → s_type (slot_at j opened) ≠ SOCKET_TYPE_INVALID)).
Proof.
  apply (reserve_id_fresh (fuel := 1) [1%positive] opened); [apply opened_reachable|by vm_compute].
Defined.

Lemma udp_address_round_trip_witness :
  udp_socket_address PROTOCOL_UDP (gen_udp_address PROTOCOL_UDP (MkAddr AF_INET [0; 53] [127; 0; 0; 1]) ++ [0; 0]) =
  Ret (Some (MkAddr AF_INET [0; 53] [127; 0; 0; 1])).
Proof. apply udp_address_round_trip; [done|]. left. done. Defined.

(** ** Where the promises end *)

(** The socket thread that cannot hand over a datagram keeps it for later with
    [append_sendbuffer_udp], which writes the address behind the write buffer: the
    buffer was made without room for it. *)
Theorem datagram_refused {Kern : Kernel} i priority p sz a sa st :
  block_ok (n_heap st) p sz →
  udp_socket_address (s_protocol (slot_at i st)) a = Ret (Some sa) →
  (∀ bs, answer (n_history st) (SSendto (s_fd (slot_at i st)) bs sa) ≠ zlen bs) →
  send_udp i priority (MkObject p sz true) p sz (Some a) st = Undef.
Proof.
  intros (bs & Hbs & Hsz & Hmax) Ha Hn. specialize (Hn bs).
  pose proof (zlen_nonneg bs). unfold send_udp.
  assert (Hread : hread p 0 sz st = Ret (bs, st)).
  { unfold hread, gets, liftO, mbind, stateM_mbind. cbn [mbind outcome_mbind heap net_heap]. rewrite Hbs.
    rewrite mread_in by lia. cbn. by rewrite drop_0, firstn_all2 by (unfold zlen in *; lia). }
  assert (Hsend : ∃ n st', sys (SSendto (s_fd (slot_at i st)) bs sa) st = Ret (n, st') ∧ n ≠ sz).
  { unfold sys, call, gets, modify, mret, stateM_mret, mbind, stateM_mbind. cbn [mbind outcome_mbind].
    destruct (Z.ltb_spec (answer (n_history st) (SSendto (s_fd (slot_at i st)) bs sa)) 0);
      eexists _, _; (split; [reflexivity|lia]). }
  destruct Hsend as (n & st' & Hsend & Hne).
  unfold get_s at 1, gets at 1, mbind, stateM_mbind. cbn [mbind outcome_mbind liftO].
  fold (slot_at i st). rewrite Ha.
  change (liftO (Ret (Some sa)) st) with (Ret (Some sa, st)). cbn [mbind outcome_mbind so_buffer so_sz]. rewrite Hread. cbn [mbind outcome_mbind].
  rewrite Hsend. cbn [mbind outcome_mbind]. rewrite (proj2 (Z.eqb_neq _ _) Hne). cbn [negb].
  unfold append_sendbuffer_udp, append_sendbuffer_, send_object_init.
  replace (sz =? USEROBJECT) with false by (unfold USEROBJECT, INT_MAX in *; lia).
  unfold get_s, gets, mret, stateM_mret, mbind, stateM_mbind. cbn [mbind outcome_mbind liftO wb_room].
  assert (Hroom : ∀ A (l : list A), l ≠ [] → mwrite [] 0 l = Undef).
  { intros A [|x l] Hl; [done|]. unfold mwrite. rewrite zlen_cons. pose proof (zlen_nonneg l).
    rewrite (zlen_nil (A := A)). replace (0 + (1 + zlen l) <=? 0) with false by lia. by rewrite andb_false_r. }
  rewrite Hroom; [done|]. intros E. apply (f_equal length) in E. rewrite length_app, length_take, length_replicate in E.
  change (Z.to_nat UDP_ADDRESS_SIZE) with 19%nat in E. change (length (@nil Z)) with 0%nat in E. lia.
Qed.

(** A kernel without room for datagrams. *)
Definition busy : Kernel := {|
  answer A _ c := match c in syscall A return A with SSendto _ _ _ => - EAGAIN | c => reply c end;
  inet_ntop _ := None |}.

(** A UDP socket, and a block with a message for it. *)
Definition udp_slot : socket :=
  set_p (PAddress (replicate 19 0)) (set_protocol PROTOCOL_UDP (set_type SOCKET_TYPE_CONNECTED (set_id 1 socket0))).
Definition udp_net : net := put_heap {[1%positive := [1; 2; 3]]} (put_slot {[1 := udp_slot]} net0).

Lemma datagram_refused_witness :
  @send_udp busy 1 PRIORITY_HIGH (MkObject 1 3 true) 1 3
    (Some (gen_udp_address PROTOCOL_UDP (MkAddr AF_INET [0; 53] [127; 0; 0; 1]))) udp_net = Undef.
Proof.
  apply (datagram_refused (Kern := busy) 1 PRIORITY_HIGH 1%positive 3
    (gen_udp_address PROTOCOL_UDP (MkAddr AF_INET [0; 53] [127; 0; 0; 1])) (MkAddr AF_INET [0; 53] [127; 0; 0; 1])).
  - exists [1; 2; 3]. by vm_compute.
  - vm_compute. reflexivity.
  - intros bs. cbn. pose proof (zlen_nonneg bs). unfold EAGAIN. lia.
Defined.

(** A message for a socket that is not there yet is not counted; when the socket is
    made first, the assertion of [dec_sending_ref] fails. *)
Lemma message_before_open_aborts :
  let st := after (Send message1) (after (Malloc [1; 2; 3]) connecting) in
  s_type (slot_at 1 st) = SOCKET_TYPE_RESERVE ∧
  run (fuel := 1) Turn (after Turn st) = AssertFail.
Proof. vm_compute. done. Qed.
