(* ===== verification/FengnetSocket.v ===== *)
(** * Sockets of services

    The model of [fengnet-src/fengnet_socket.cpp], which joins the socket server
    ([Socket]) and the server ([Server]): what the socket thread reports goes as a
    message into the queue of a service, and services call the socket server with
    their own handle.

    The state [front] has both, the pointer [SOCKET_SERVER] (is it set), and the
    [struct fengnet_socket_message]s on the heap. The memory of the data is that of
    the socket server. *)
From S2P Require Import Prelude Text MessageQueue Scheduler Handle Server StateM Memory SocketState Socket SocketOk SocketProps.

Local Open Scope Z_scope.

(** ** Data *)

Definition FENGNET_SOCKET_TYPE_DATA : Z := 1.
Definition FENGNET_SOCKET_TYPE_CONNECT : Z := 2.
Definition FENGNET_SOCKET_TYPE_CLOSE : Z := 3.
Definition FENGNET_SOCKET_TYPE_ACCEPT : Z := 4.
Definition FENGNET_SOCKET_TYPE_ERROR : Z := 5.
Definition FENGNET_SOCKET_TYPE_UDP : Z := 6.
Definition FENGNET_SOCKET_TYPE_WARNING : Z := 7.
Definition PTYPE_SOCKET : Z := 6.

(** [sizeof(struct fengnet_socket_message)]. *)
Definition SIZEOF_SOCKET_MESSAGE : Z := 24.

(** [sm_tail] is the text behind the struct; [sm_buffer] is null or a block. *)
Record fengnet_socket_message := MkSM {
  sm_type : Z;
  sm_id : Z;
  sm_ud : Z;
  sm_buffer : option addr;
  sm_tail : list Z
}.

(** The texts of the C library for error numbers. *)
Class ErrorTexts := {
  strerror : Z → list Z;
  gai_strerror : Z → list Z
}.

Record front (E : Type) := MkFront {
  f_net : net;
  f_server : bool;
  f_node : node E;
  f_messages : gmap addr fengnet_socket_message
}.
Arguments MkFront {E} f_net f_server f_node f_messages.
Arguments f_net {E} f.
Arguments f_server {E} f.
Arguments f_node {E} f.
Arguments f_messages {E} f.

Section front.
Context {E : Type} `{!Outside E} `{!Kernel} `{!ErrorTexts} (fuel : nat).
Implicit Types (f : front E) (n : node E) (ctx : positive).
Notation F := (stateM (front E)).

Definition with_net (w : net) f : front E := MkFront w (f_server f) (f_node f) (f_messages f).
Definition with_server (b : bool) f : front E := MkFront (f_net f) b (f_node f) (f_messages f).
Definition with_node n f : front E := MkFront (f_net f) (f_server f) n (f_messages f).
Definition with_messages (m : gmap addr fengnet_socket_message) f : front E :=
  MkFront (f_net f) (f_server f) (f_node f) m.

(** A part of the state at work. *)
Definition on_net {A} (m : M A) : F A := λ f, '(a, w) ← m (f_net f); Ret (a, with_net w f).
Definition on_node {A} (m : node E → outcome (A * node E)) : F A :=
  λ f, '(a, n) ← m (f_node f); Ret (a, with_node n f).

(** A call with [SOCKET_SERVER]: a null pointer must not be followed. *)
Definition server {A} (m : M A) : F A :=
  ok ← gets f_server;
  if ok : bool then on_net m else liftO Undef.

Definition context_handle ctx : F Z := on_node (λ n, h ← fengnet_context_handle n.2 ctx; Ret (h, n)).

(** ** The struct of a message *)

Definition new_message (sm : fengnet_socket_message) : F addr :=
  p ← gets (λ f, fresh (dom (f_messages f)));
  modify (λ f, with_messages (<[p := sm]> (f_messages f)) f);;
  mret p.

(** [result->data] as text: of a block of bytes [strlen] finds no end. *)
Definition data_chars (d : mdata) : outcome (list Z) :=
  match d with
  | DNull => Ret []
  | DText s => Ret (c_str (codes s))
  | DError e => Ret (c_str (strerror e))
  | DGai e => Ret (c_str (gai_strerror e))
  | DName name => Ret (c_str name)
  | DBytes _ => Undef
  end.

(** [result->data] as memory for [sm->buffer], which is freed: a text is none. *)
Definition data_block (d : mdata) : M (option addr) :=
  match d with
  | DNull => mret None
  | DBytes bs => p ← hmalloc bs; mret (Some p)
  | _ => liftO Undef
  end.

Definition free_message (p : addr) : F unit :=
  b ← gets (λ f, f_messages f !! p);
  match b with
  | Some _ => modify (λ f, with_messages (delete p (f_messages f)) f)
  | None => liftO Undef
  end.

Definition free_block (b : option addr) : F unit :=
  match b with Some p => on_net (hfree p) | None => mret tt end.

(** ** The socket thread *)

(** What the message has of the data: 128 characters of a text at most, or the block. *)
Definition carry (padding : bool) (d : mdata) : F (option addr * list Z) :=
  if padding then text ← liftO (data_chars d); mret (None, take 128 text)
  else b ← on_net (data_block d); mret (b, []).

Definition forward_message (type : Z) (padding : bool) : F unit :=
  result ← gets (λ f, n_result (f_net f));
  '(buffer, tail) ← carry padding (m_data result);
  let sz := SIZEOF_SOCKET_MESSAGE + zlen tail in
  sm ← new_message (MkSM type (m_id result) (m_ud result) buffer tail);
  r ← on_node (λ n, fengnet_context_push n (u32 (m_opaque result))
        (MkMsg 0 0 (Zpos sm) (message_size PTYPE_SOCKET sz)));
  if negb (r =? 0) then free_block buffer;; free_message sm else mret tt.

(** The [switch]: the type for the service, and whether the data is text. *)
Definition forward_as (type : Z) : option (Z * bool) :=
  if type =? SOCKET_DATA then Some (FENGNET_SOCKET_TYPE_DATA, false)
  else if type =? SOCKET_CLOSE then Some (FENGNET_SOCKET_TYPE_CLOSE, false)
  else if type =? SOCKET_OPEN then Some (FENGNET_SOCKET_TYPE_CONNECT, true)
  else if type =? SOCKET_ERR then Some (FENGNET_SOCKET_TYPE_ERROR, true)
  else if type =? SOCKET_ACCEPT then Some (FENGNET_SOCKET_TYPE_ACCEPT, true)
  else if type =? SOCKET_UDP then Some (FENGNET_SOCKET_TYPE_UDP, false)
  else if type =? SOCKET_WARNING then Some (FENGNET_SOCKET_TYPE_WARNING, false)
  else None.

Definition poll_end (type : Z) : F Z :=
  if type =? SOCKET_EXIT then mret 0
  else
    match forward_as type with
    | Some (t, padding) =>
        forward_message t padding;;
        more ← gets (λ f, n_more (f_net f));
        mret (if negb (more =? 0) then -1 else 1)
    | None =>
        on_node (λ n, n' ← fengnet_error n None ("Unknown socket message type %d."%string, [type]); Ret (tt, n'));;
        mret (-1)
    end.

Definition fengnet_socket_poll (turns : nat) : F Z :=
  ss ← gets f_server;
  liftO (assert_true ss);;
  on_net (modify (put_more 1));;
  type ← on_net (socket_server_poll fuel turns);
  poll_end type.

(** ** The calls of services *)

Definition fengnet_socket_init (now : Z) : F unit :=
  b ← on_net (socket_server_create now);
  modify (with_server b).

Definition fengnet_socket_exit : F unit := server socket_server_exit.

Definition fengnet_socket_free : F unit :=
  server socket_server_release;; modify (with_server false).

Definition fengnet_socket_sendbuffer (buffer : socket_sendbuffer) : F Z := server (socket_server_send buffer).
Definition fengnet_socket_sendbuffer_lowpriority (buffer : socket_sendbuffer) : F Z :=
  server (socket_server_send_lowpriority buffer).

Definition fengnet_socket_listen ctx (host : option (list Z)) (port backlog : Z) : F Z :=
  source ← context_handle ctx; server (socket_server_listen source host port backlog).
Definition fengnet_socket_connect ctx (host : list Z) (port : Z) : F Z :=
  source ← context_handle ctx; server (socket_server_connect source host port).
Definition fengnet_socket_bind ctx (fd : Z) : F Z :=
  source ← context_handle ctx; server (socket_server_bind source fd).
Definition fengnet_socket_close ctx (id : Z) : F unit :=
  source ← context_handle ctx; server (socket_server_close source id).
Definition fengnet_socket_shutdown ctx (id : Z) : F unit :=
  source ← context_handle ctx; server (socket_server_shutdown source id).
Definition fengnet_socket_start ctx (id : Z) : F unit :=
  source ← context_handle ctx; server (socket_server_start source id).
Definition fengnet_socket_pause ctx (id : Z) : F unit :=
  source ← context_handle ctx; server (socket_server_pause source id).
Definition fengnet_socket_nodelay (id : Z) : F unit := server (socket_server_nodelay id).
Definition fengnet_socket_udp ctx (host : option (list Z)) (port : Z) : F Z :=
  source ← context_handle ctx; server (socket_server_udp source host port).
Definition fengnet_socket_udp_connect (id : Z) (host : list Z) (port : Z) : F Z :=
  server (socket_server_udp_connect id host port).
Definition fengnet_socket_udp_sendbuffer (address : list Z) (buffer : socket_sendbuffer) : F Z :=
  server (socket_server_udp_send address buffer).

(** The bytes of the address, or [None] for a null pointer. *)
Definition fengnet_socket_udp_address (msg : fengnet_socket_message) : F (option (list Z)) :=
  if negb (sm_type msg =? FENGNET_SOCKET_TYPE_UDP) then mret None
  else
    data ← gets (λ f, b ← sm_buffer msg; n_heap (f_net f) !! b);
    match data with
    | Some data => liftO (socket_server_udp_address data (sm_ud msg))
    | None => liftO Undef
    end.

Definition fengnet_socket_info : F (list socket_info) := server socket_server_info.
Definition fengnet_socket_updatetime (now : Z) : F unit := server (socket_server_updatetime now).

(** [sz] is an [int]: a negative one says that the buffer is an object. *)
Definition sendbuffer_init_ (id : Z) (buffer : addr) (sz : Z) : socket_sendbuffer :=
  MkSend id (if sz <? 0 then SOCKET_BUFFER_OBJECT else SOCKET_BUFFER_MEMORY) buffer (u64 sz).

Definition fengnet_socket_send (id : Z) (buffer : addr) (sz : Z) : F Z :=
  fengnet_socket_sendbuffer (sendbuffer_init_ id buffer sz).
Definition fengnet_socket_send_lowpriority (id : Z) (buffer : addr) (sz : Z) : F Z :=
  fengnet_socket_sendbuffer_lowpriority (sendbuffer_init_ id buffer sz).
Definition fengnet_socket_udp_send (id : Z) (address : list Z) (buffer : addr) (sz : Z) : F Z :=
  fengnet_socket_udp_sendbuffer address (sendbuffer_init_ id buffer sz).
End front.

(** ** What the socket thread reports *)

Section reports.
Context {Kern : Kernel} (fuel : nat).
Implicit Types (st : net).

(** The type of a report goes with its data: new memory, nothing, or text. *)
Inductive report : Z → socket_message → Prop :=
| report_data id opaque bs : bs ≠ [] → report SOCKET_DATA (MkMessage id opaque (zlen bs) (DBytes bs))
| report_udp id opaque bs protocol sa : protocol = PROTOCOL_UDP ∨ protocol = PROTOCOL_UDPv6 →
    report SOCKET_UDP (MkMessage id opaque (zlen bs) (DBytes (bs ++ gen_udp_address protocol sa)))
| report_nothing type id opaque ud : type = SOCKET_CLOSE ∨ type = SOCKET_WARNING →
    report type (MkMessage id opaque ud DNull)
| report_text type id opaque ud d : type = SOCKET_OPEN ∨ type = SOCKET_ERR ∨ type = SOCKET_ACCEPT →
    (∀ bs, d ≠ DBytes bs) → report type (MkMessage id opaque ud d)
| report_exit : report SOCKET_EXIT (MkMessage 0 0 0 DNull).

(** A function that leaves the report as it is. *)
Definition keeps {A} (m : M A) : Prop := ∀ st, pwp m (λ _ st', n_result st' = n_result st) st.

Lemma keeps_ret {A} (a : A) : keeps (mret a).
Proof. intros st. by apply pwp_ret. Qed.
Lemma keeps_bind {A B} (m : M A) (f : A → M B) : keeps m → (∀ a, keeps (f a)) → keeps (m ≫= f).
Proof.
  intros Hm Hf st. apply pwp_bind. eapply pwp_mono; [apply Hm|]. intros a st1 <-. apply Hf.
Qed.
Lemma keeps_gets {A} (g : net → A) : keeps (gets g).
Proof. intros st. by apply pwp_gets. Qed.
Lemma keeps_modify g : (∀ st, n_result (g st) = n_result st) → keeps (modify g).
Proof. intros H st. apply pwp_modify, H. Qed.
Lemma keeps_lift {A} (m : outcome A) : keeps (liftO m).
Proof. intros st. by apply pwp_lift. Qed.
Lemma keeps_get_s i : keeps (get_s i).
Proof. apply keeps_gets. Qed.
Lemma keeps_mod_s i f : keeps (mod_s i f).
Proof. by apply keeps_modify. Qed.
Lemma keeps_call {A} (c : syscall A) : keeps (call c).
Proof. apply keeps_bind; [apply keeps_gets|]. intros a. apply keeps_bind; [by apply keeps_modify|]. intros. apply keeps_ret. Qed.
End reports.

Create HintDb kept.
#[export] Hint Resolve keeps_ret keeps_gets keeps_lift keeps_get_s keeps_mod_s keeps_call : kept.

(** Splits a program into its parts, and looks these up. *)
Ltac keep :=
  repeat first
    [ solve [eauto with kept]
    | match goal with
      | |- keeps (_ ≫= _) => apply keeps_bind; [|intros ?]
      | |- keeps (if ?b then _ else _) => destruct b
      | |- keeps (match ?x with _ => _ end) => destruct x
      | |- keeps (modify _) => apply keeps_modify; done
      end ].

Section kept.
Context {Kern : Kernel}.

Lemma keeps_sys c : keeps (sys c).
Proof. unfold sys. keep. Qed.
Lemma keeps_sys_sum {A} (c : syscall (Z + A)) : keeps (sys_sum c).
Proof. unfold sys_sum. keep. Qed.
#[local] Hint Resolve keeps_sys keeps_sys_sum : kept.
Lemma keeps_socket_lock i l : keeps (socket_lock i l).
Proof. unfold socket_lock. keep. Qed.
Lemma keeps_socket_trylock i l : keeps (socket_trylock i l).
Proof. unfold socket_trylock. keep. Qed.
Lemma keeps_socket_unlock i l : keeps (socket_unlock i l).
Proof. unfold socket_unlock. keep. Qed.
Lemma keeps_stat_read i n : keeps (stat_read i n).
Proof. unfold stat_read. keep. Qed.
Lemma keeps_enable_write i b : keeps (enable_write i b).
Proof. unfold enable_write, sp_enable. keep. Qed.
Lemma keeps_dec_sending_ref id : keeps (dec_sending_ref id).
Proof. unfold dec_sending_ref. keep. Qed.
Lemma keeps_hfree p : keeps (hfree (S := net) p).
Proof. unfold hfree. keep. Qed.
Lemma keeps_free_buffer buf : keeps (free_buffer buf).
Proof. unfold free_buffer, soi_call. keep. apply keeps_hfree. Qed.
Lemma keeps_free_wb_list l : keeps (free_wb_list l).
Proof.
  induction l as [|wb l IH]; cbn [free_wb_list]; [keep|]. apply keeps_bind; [|done].
  unfold write_buffer_free, soi_call. keep. apply keeps_hfree.
Qed.
Lemma keeps_sp_del fd : keeps (sp_del fd).
Proof. unfold sp_del. keep. Qed.
End kept.
#[export] Hint Resolve keeps_sys keeps_sys_sum keeps_socket_lock keeps_socket_trylock keeps_socket_unlock
  keeps_stat_read keeps_enable_write keeps_dec_sending_ref keeps_hfree keeps_free_buffer keeps_free_wb_list keeps_sp_del : kept.

(** [m], started where the report is [r], ends only with results and reports in [P]. *)
Definition from {A} (r : socket_message) (m : M A) (P : A → socket_message → Prop) : Prop :=
  ∀ st, n_result st = r → pwp m (λ a st', P a (n_result st')) st.

Section from.
Context {A : Type}.
Implicit Types (r : socket_message) (P : A → socket_message → Prop).

Lemma from_ret r a P : P a r → from r (mret a) P.
Proof. intros HP st <-. by apply pwp_ret. Qed.
Lemma from_bind {B} r (m : M B) (f : B → M A) P Q :
  from r m Q → (∀ b r', Q b r' → from r' (f b) P) → from r (m ≫= f) P.
Proof.
  intros Hm Hf st Hst. apply pwp_bind. eapply pwp_mono; [by apply Hm|]. intros b st' HQ. by apply (Hf b _ HQ).
Qed.
Lemma from_keep {B} r (m : M B) (f : B → M A) P : keeps m → (∀ b, from r (f b) P) → from r (m ≫= f) P.
Proof.
  intros Hm Hf. apply (from_bind _ _ _ _ (λ _ r', r' = r)); [|by intros b ? ->].
  intros st <-. apply Hm.
Qed.
Lemma from_keeps r (m : M A) P : keeps m → (∀ a, P a r) → from r m P.
Proof. intros Hm HP st <-. eapply pwp_mono; [apply Hm|]. intros a st' ->. apply HP. Qed.
Lemma from_set r r' (f : unit → M A) P : from r' (f tt) P → from r (set_result r' ≫= f) P.
Proof. intros Hf st _. apply pwp_bind, pwp_modify. by apply Hf. Qed.
Lemma from_data r d (f : unit → M A) P :
  from (MkMessage (m_id r) (m_opaque r) (m_ud r) d) (f tt) P → from r (result_data d ≫= f) P.
Proof. intros Hf st <-. apply pwp_bind, pwp_modify. by apply Hf. Qed.
Lemma from_mono r (m : M A) P Q : from r m Q → (∀ a r', Q a r' → P a r') → from r m P.
Proof. intros Hm HQ st Hst. eapply pwp_mono; [by apply Hm|]. intros. by apply HQ. Qed.
(** What the report was does not matter. *)
Lemma from_skip {B} r (m : M B) (f : B → M A) P : (∀ b r', from r' (f b) P) → from r (m ≫= f) P.
Proof. intros Hf. apply (from_bind _ _ _ _ (λ _ _, True)); [by intros st _ b st' _|]. intros b r' _. apply Hf. Qed.
End from.

(** Follows a program up to the next call that changes the report. *)
Ltac follow :=
  repeat first
    [ match goal with
      | |- from _ (mret _) _ => apply from_ret
      | |- from _ (set_result _ ≫= _) _ => apply from_set
      | |- from _ (result_data _ ≫= _) _ => apply from_data; cbn [m_id m_opaque m_ud]
      | |- from _ (_ ≫= _) _ => apply from_keep; [solve [keep]|intros ?]
      | |- from _ (if ?b then _ else _) _ => destruct b
      | |- from _ (match ?x with _ => _ end) _ => destruct x
      | |- from _ ((match ?x with _ => _ end) ≫= _) _ => destruct x
      end ].

Section told.
Context {Kern : Kernel}.

(** Nothing, or a report that goes with its type. *)
Definition told (type : Z) (r : socket_message) : Prop := type = -1 ∨ report type r.

Definition empty_report (r : socket_message) : Prop := ∃ id opaque ud, r = MkMessage id opaque ud DNull.

Lemma told_none r : told (-1) r.
Proof. by left. Qed.
Lemma told_nothing type id opaque ud : type = SOCKET_CLOSE ∨ type = SOCKET_WARNING →
  told type (MkMessage id opaque ud DNull).
Proof. right. by constructor. Qed.
Lemma told_text type id opaque ud d : type = SOCKET_OPEN ∨ type = SOCKET_ERR ∨ type = SOCKET_ACCEPT →
  (∀ bs, d ≠ DBytes bs) → told type (MkMessage id opaque ud d).
Proof. right. by constructor. Qed.

Lemma from_force_close r i l : from r (force_close i l) (λ _ r', empty_report r').
Proof.
  unfold force_close. follow; unfold empty_report; eauto.
Qed.
Lemma from_close_read r i : from r (close_read i) (λ _ r', empty_report r').
Proof.
  unfold close_read, enable_read, sp_enable. follow. intros st _. apply pwp_modify. unfold empty_report. cbn. eauto.
Qed.
Lemma from_report_error r i d : (∀ bs, d ≠ DBytes bs) → from r (report_error i d) told.
Proof. intros Hd. unfold report_error. follow. apply told_text; auto. Qed.
End told.

Section kept_more.
Context {Kern : Kernel}.

Lemma keeps_enable_read i b : keeps (enable_read i b).
Proof. unfold enable_read, sp_enable. keep. Qed.
Lemma keeps_sp_add fd s : keeps (sp_add fd s).
Proof. unfold sp_add. keep. Qed.
Lemma keeps_sp_nonblocking fd : keeps (sp_nonblocking fd).
Proof. unfold sp_nonblocking. keep. Qed.
Lemma keeps_check_wb_list l : keeps (check_wb_list l).
Proof. unfold check_wb_list. keep. Qed.
#[local] Hint Resolve keeps_enable_read keeps_sp_add keeps_sp_nonblocking keeps_check_wb_list : kept.
Lemma keeps_new_fd id fd protocol opaque reading : keeps (new_fd id fd protocol opaque reading).
Proof. unfold new_fd. keep. Qed.
Lemma keeps_get_errno : keeps get_errno.
Proof. unfold get_errno. keep. Qed.
Lemma keeps_stat_write i n : keeps (stat_write i n).
Proof. unfold stat_write. keep. Qed.
Lemma keeps_socket_keepalive fd : keeps (socket_keepalive fd).
Proof. unfold socket_keepalive. keep. Qed.
#[local] Hint Resolve keeps_get_errno keeps_socket_keepalive : kept.
Lemma keeps_hread p off sz : keeps (hread (S := net) p off sz).
Proof. unfold hread. keep. Qed.
Lemma keeps_send_object_init p sz : keeps (send_object_init p sz).
Proof. unfold send_object_init, soi_call. keep. Qed.
Lemma keeps_free_func so p : keeps (free_func so p).
Proof. unfold free_func. keep. Qed.
#[local] Hint Resolve keeps_hread keeps_stat_write keeps_send_object_init keeps_free_func : kept.
Lemma keeps_append_sendbuffer i p sz : keeps (append_sendbuffer i p sz).
Proof. unfold append_sendbuffer, append_sendbuffer_. keep. Qed.
Lemma keeps_append_sendbuffer_low i p sz : keeps (append_sendbuffer_low i p sz).
Proof. unfold append_sendbuffer_low, append_sendbuffer_. keep. Qed.
Lemma keeps_append_sendbuffer_udp i priority p sz a : keeps (append_sendbuffer_udp i priority p sz a).
Proof. unfold append_sendbuffer_udp, append_sendbuffer_. keep. Qed.
#[local] Hint Resolve keeps_append_sendbuffer_udp : kept.
Lemma keeps_send_udp i priority so p sz a : keeps (send_udp i priority so p sz a).
Proof. unfold send_udp. keep. Qed.
Lemma keeps_reserve_id : keeps reserve_id.
Proof.
  unfold reserve_id. induction (Z.to_nat MAX_SOCKET) as [|n IH]; cbn [reserve_loop]; [keep|].
  apply keeps_bind; [unfold reserve_turn; keep|]. intros []; [keep|done].
Qed.
Lemma keeps_connect_turn l sock status : keeps (connect_turn l sock status).
Proof. revert sock status. induction l as [|ai l IH]; intros; cbn [connect_turn]; keep. Qed.
End kept_more.
#[export] Hint Resolve keeps_enable_read keeps_sp_add keeps_sp_nonblocking keeps_new_fd keeps_get_errno keeps_stat_write
  keeps_socket_keepalive keeps_hread keeps_send_object_init keeps_free_func keeps_append_sendbuffer
  keeps_append_sendbuffer_low keeps_append_sendbuffer_udp keeps_send_udp keeps_connect_turn keeps_reserve_id : kept.

Section requests.
Context {Kern : Kernel}.
#[local] Hint Resolve told_none : core.
#[local] Hint Extern 1 (told _ _) => apply told_text; auto; done : core.

Ltac told := follow; auto; try (apply told_text; auto; done).

Lemma from_trigger_write r id : from r (trigger_write id) told.
Proof. unfold trigger_write. told. by apply from_report_error. Qed.

Lemma from_warn_turn r i : from r (warn_turn i) told.
Proof. unfold warn_turn. told. apply told_nothing; auto. Qed.

Lemma from_send_socket r id buffer sz priority a : from r (send_socket id buffer sz priority a) told.
Proof.
  unfold send_socket. told; apply from_report_error || apply from_warn_turn; done.
Qed.

Lemma from_close_socket r id shutdown : from r (close_socket id shutdown) told.
Proof.
  unfold close_socket. follow; auto.
  all: try (eapply from_bind; [apply from_force_close || apply from_close_read|]; intros [] ? (? & ? & ? & ->); follow;
    try case_match; auto; apply told_nothing; auto).
Qed.

Lemma from_bind_socket r id fd opaque : from r (bind_socket id fd opaque) told.
Proof. unfold bind_socket. told. Qed.

Lemma from_resume_socket r id opaque : from r (resume_socket id opaque) told.
Proof. unfold resume_socket. told. Qed.

Lemma from_pause_socket r id : from r (pause_socket id) told.
Proof. unfold pause_socket. told. by apply from_report_error. Qed.

Lemma from_open_socket r id port opaque host : from r (open_socket id port opaque host) told.
Proof. unfold open_socket, open_failed. told. Qed.

Lemma from_listen_socket r id fd opaque : from r (listen_socket id fd opaque) told.
Proof. unfold listen_socket. told. Qed.

Lemma from_set_udp_address r id address : from r (set_udp_address id address) told.
Proof. unfold set_udp_address. told. by apply from_report_error. Qed.

Lemma from_ctrl_cmd r : from r ctrl_cmd told.
Proof.
  unfold ctrl_cmd. apply from_skip. intros q r0. destruct q.
  - apply from_resume_socket.
  - apply from_pause_socket.
  - apply from_bind_socket.
  - apply from_listen_socket.
  - apply from_close_socket.
  - apply from_open_socket.
  - follow. right. exact report_exit.
  - apply from_trigger_write.
  - eapply from_bind; [apply from_send_socket|]. intros. follow. done.
  - eapply from_bind; [apply from_send_socket|]. intros. follow. done.
  - apply from_send_socket.
  - apply from_set_udp_address.
  - apply from_skip. intros. told.
  - apply from_skip. intros. told.
Qed.
End requests.

(** ** Events *)

Section events.
Context {Kern : Kernel} (fuel : nat).
#[local] Hint Resolve told_none : core.
#[local] Hint Extern 1 (told _ _) => apply told_text; auto; done : core.

Ltac told := follow; auto; try (apply told_text; auto; done).

Ltac closes := eapply from_bind; [apply from_force_close || apply from_close_read|intros [] ? (? & ? & ? & ->)].

Lemma from_report_error_err r i d : (∀ bs, d ≠ DBytes bs) →
  from r (report_error i d) (λ v r', v = SOCKET_ERR ∧ report SOCKET_ERR r').
Proof. intros Hd. unfold report_error. follow. split; [done|]. constructor; auto. Qed.

Lemma from_report_connect r i l : from r (report_connect i l) report.
Proof.
  unfold report_connect. follow; [closes; follow; constructor; auto..|]. constructor; [auto|].
  repeat case_match; done.
Qed.

(** The results of [report_accept]. *)
Definition accept_told (v : Z) (r : socket_message) : Prop :=
  v = 0 ∨ v = 1 ∧ report SOCKET_ACCEPT r ∨ v = -1 ∧ report SOCKET_ERR r.

Lemma from_report_accept r i : from r (report_accept i) accept_told.
Proof.
  unfold report_accept, accept_emfile. follow; unfold accept_told; auto.
  - right; left. split; [done|]. constructor; [auto|]. by case_match.
  - right; right. split; [done|]. constructor; auto.
Qed.

(** The results of [forward_message_tcp]. *)
Definition tcp_told (v : Z) (r : socket_message) : Prop := told v r ∨ v = SOCKET_MORE ∧ report SOCKET_DATA r.

Lemma from_forward_tcp r i l : from r (forward_message_tcp i l) tcp_told.
Proof.
  unfold forward_message_tcp. follow; unfold tcp_told; auto.
  all: try (closes; follow; left; auto; apply told_nothing; auto; fail).
  - right. split; [done|]. by constructor.
  - left; right. by constructor.
  - left; right. by constructor.
  - eapply from_mono; [by apply from_report_error|]. auto.
Qed.

Lemma from_forward_udp r i l : from r (forward_message_udp i l) told.
Proof.
  unfold forward_message_udp. follow; auto.
  - right. constructor. case_match; auto.
  - closes. told.
Qed.

Lemma report_type type r : report type r → 0 ≤ type ≤ 7.
Proof.
  destruct 1; unfold SOCKET_DATA, SOCKET_UDP, SOCKET_EXIT, SOCKET_CLOSE, SOCKET_WARNING, SOCKET_OPEN, SOCKET_ERR,
    SOCKET_ACCEPT in *; lia.
Qed.

Lemma told_report type r : told type r →
  match (if type =? -1 then inl tt else inr type) with inl _ => True | inr type => report type r end.
Proof. intros [->|Hr]; [done|]. apply report_type in Hr as Ht. by rewrite (proj2 (Z.eqb_neq _ _)) by lia. Qed.

Lemma from_event_read r i k e :
  from r (event_read i k e) (λ v r', match v with inl _ => True | inr type => report type r' end).
Proof.
  unfold event_read. apply from_keep; [keep|]. intros s. destruct (s_protocol s =? PROTOCOL_TCP).
  - eapply from_bind; [apply from_forward_tcp|]. intros type r1 Ht. cbn [andb negb].
    destruct (Z.eqb_spec type SOCKET_MORE) as [->|Hne]; unfold mod_ev; follow.
    { destruct Ht as [[Ht|Ht]|[_ Ht]]; [done|apply report_type in Ht; unfold SOCKET_MORE in Ht; lia|done]. }
    all: destruct Ht as [Ht|[Ht _]]; [by apply told_report|done].
  - eapply from_bind; [apply from_forward_udp|]. intros type r1 Ht. cbn [andb negb].
    destruct (Z.eqb_spec type SOCKET_UDP) as [->|Hne]; unfold mod_ev; follow; [by destruct Ht|by apply told_report..].
Qed.

(** ** Sending *)

(** What the functions that write lists of buffers return. *)
Definition sent_told (v : Z) (r : socket_message) : Prop :=
  v = -1 ∨ v = SOCKET_RST ∨ v = SOCKET_ERR ∧ report SOCKET_ERR r.

Lemma from_close_write r i l : from r (close_write i l) sent_told.
Proof.
  unfold close_write, report_error. follow; unfold sent_told; auto; [closes; follow; auto..|].
  right; right. split; [done|]. constructor; auto.
Qed.

Lemma from_loop {I R} (body : I → M (I + R)) (P : R → socket_message → Prop) :
  (∀ i r, from r (body i) (λ v r', match v with inl _ => True | inr v => P v r' end)) →
  ∀ n i r, from r (loopM n body i) P.
Proof.
  intros Hb n. induction n as [|n IH]; intros i r; cbn [loopM]; [by intros st _ ? ?|].
  eapply from_bind; [apply Hb|]. intros [i'|v] r' Hv; [apply IH|by apply from_ret].
Qed.

Lemma keeps_loop {I R} (body : I → M (I + R)) n i : (∀ i, keeps (body i)) → keeps (loopM n body i).
Proof.
  intros Hb. revert i. induction n as [|n IH]; intros i; cbn [loopM]; [by intros st ? ?|].
  apply keeps_bind; [done|]. intros [i'|v]; [done|apply keeps_ret].
Qed.

Lemma keeps_write_turn fd bs u : keeps (write_turn fd bs u).
Proof. unfold write_turn. keep. Qed.
Lemma keeps_write_buffer_free wb : keeps (write_buffer_free wb).
Proof. unfold write_buffer_free, soi_call. keep. Qed.
#[local] Hint Resolve keeps_write_turn keeps_write_buffer_free keeps_loop : kept.

Lemma from_send_list r i hi l : from r (send_list fuel i hi l) sent_told.
Proof.
  unfold send_list, send_list_tcp, send_list_udp. follow.
  - apply from_loop. intros u r0. unfold send_tcp_turn. follow; unfold sent_told; auto.
    eapply from_bind; [apply from_close_write|]. intros. by follow.
  - apply from_loop. intros u r0. unfold send_udp_turn, drop_udp. follow; unfold sent_told; auto.
Qed.

Lemma from_finish_sending r i l : from r (finish_sending i l) told.
Proof.
  unfold finish_sending. follow; auto.
  - closes. by follow.
  - by apply from_report_error.
  - apply told_nothing. auto.
Qed.

(** After [send_list] has not returned -1. *)
Lemma told_sent v r : sent_told v r → told (if v =? SOCKET_ERR then SOCKET_ERR else -1) r.
Proof. intros [->|[->|[-> Hr]]]; [by left..|by right]. Qed.
#[local] Hint Resolve told_sent : core.

Lemma from_send_low r i l : from r (send_low fuel i l) told.
Proof.
  unfold send_low, raise_uncomplete. eapply from_bind; [apply from_send_list|]. intros v r0 Hv.
  follow; auto. apply from_finish_sending.
Qed.

Lemma from_send_buffer r i l : from r (send_buffer fuel i l) told.
Proof.
  unfold send_buffer, take_dw_buffer. follow; auto.
  all: eapply from_bind; [|intros; by follow].
  all: unfold send_buffer_; do 2 (apply from_keep; [keep|intros ?]); eapply from_bind; [apply from_send_list|];
    intros v r0 Hv; follow; auto using from_finish_sending, from_send_low.
Qed.

Lemma from_event_socket r i k e :
  from r (event_socket fuel i k e) (λ v r', match v with inl _ => True | inr type => report type r' end).
Proof.
  unfold event_socket, event_error, event_eof. follow; try done.
  - eapply from_bind; [apply from_report_connect|]. intros. by follow.
  - eapply from_bind; [apply from_report_accept|]. intros v r0 Hv. follow.
    by destruct Hv as [->|[[-> Hr]|[-> Hr]]].
  - apply from_event_read.
  - eapply from_bind; [apply from_send_buffer|]. intros v r0 Hv. follow. by apply told_report.
  - eapply from_bind; [follow; apply from_report_error_err; repeat case_match; done|]. intros v r0 [-> Hr]. by follow.
  - closes. follow. destruct (halfclose_read _); [done|]. constructor. auto.
Qed.

Lemma from_poll_turn r :
  from r (poll_turn fuel tt) (λ v r', match v with inl _ => True | inr type => report type r' end).
Proof.
  unfold poll_turn, event_turn. apply from_keep; [keep|]. intros c. apply from_skip. intros cmd r0. follow.
  - eapply from_bind; [apply from_ctrl_cmd|]. intros type r1 Ht. destruct (Z.eqb_spec type (-1)) as [->|Hne]; cbn [negb]; [by follow|].
    unfold clear_closed_event. follow; by destruct Ht.
  - apply from_skip. intros ok r1. follow; try done. apply from_event_socket.
Qed.

(** Whatever [socket_server_poll] returns, the report goes with its type. *)
Lemma poll_reports turns st : pwp (socket_server_poll fuel turns) (λ type st', report type (n_result st')) st.
Proof. by eapply from_loop; [intros; apply from_poll_turn|]. Qed.
End events.

(** ** From the socket thread to the services *)

Section delivery.
Context {E : Type} {Out : Outside E} {Kern : Kernel} {Texts : ErrorTexts} (fuel : nat).
Implicit Types (f : front E) (n : node E).

(** How the data of a report travels: as a copy of the text behind the struct, or
    as the new block that the struct points to. *)
Definition carried (padding : bool) (d : mdata) (w w' : net) (buffer : option addr) (tail : list Z) : Prop :=
  if padding then
    w' = w ∧ buffer = None ∧ ∃ text, data_chars d = Ret text ∧ tail = take 128 text
  else
    tail = [] ∧
    match d with
    | DBytes bs => ∃ p, n_heap w !! p = None ∧ buffer = Some p ∧ w' = put_heap (<[p := bs]> (n_heap w)) w
    | _ => d = DNull ∧ buffer = None ∧ w' = w
    end.

Lemma carry_spec type t padding f :
  report type (n_result (f_net f)) → forward_as type = Some (t, padding) →
  ∃ w' buffer tail, carry padding (m_data (n_result (f_net f))) f = Ret ((buffer, tail), with_net w' f) ∧
    carried padding (m_data (n_result (f_net f))) (f_net f) w' buffer tail.
Proof.
  intros Hr Ht. assert (Hid : with_net (f_net f) f = f) by by destruct f.
  unfold carry, carried. inversion Hr as [id o bs Hbs HT HR|id o bs pr sa Hp HT HR|ty id o ud Hty HT HR|ty id o ud d Hty Hd HT HR|HT HR];
    subst; cbn [m_data].
  - injection Ht as <- <-. eexists _, _, _. split; [reflexivity|]. split; [done|]. eexists. split; [|done].
    apply not_elem_of_dom, is_fresh.
  - injection Ht as <- <-. eexists _, _, _. split; [reflexivity|]. split; [done|]. eexists. split; [|done].
    apply not_elem_of_dom, is_fresh.
  - assert (padding = false) as -> by (by destruct Hty as [-> | ->]; injection Ht as <- <-).
    eexists _, _, _. by split; [reflexivity|].
  - assert (padding = true) as -> by (by destruct Hty as [->|[-> | ->]]; injection Ht as <- <-).
    assert (∃ text, data_chars d = Ret text) as [text Htext].
    { destruct d; try (by eexists). by destruct (Hd bs). }
    eexists (f_net f), None, (take 128 text). rewrite Htext, Hid. split; [done|]. eauto.
  - done.
Qed.

Lemma carried_tail padding d w w' buffer tail : carried padding d w w' buffer tail → zlen tail ≤ 128.
Proof.
  unfold carried. destruct padding; [intros (_ & _ & text & _ & ->)|intros [-> _]; done].
  unfold zlen. rewrite length_take. lia.
Qed.

Lemma carried_result padding d w w' buffer tail : carried padding d w w' buffer tail → n_more w' = n_more w.
Proof.
  unfold carried. destruct padding; [by intros [-> _]|]. intros [_ H].
  destruct d; try (by destruct H as (_ & _ & ->)). by destruct H as (p & _ & _ & ->).
Qed.

(** The block belongs to the one who has the message. *)
Lemma carried_ok padding d w w' buffer tail held :
  carried padding d w w' buffer tail → ok None None [] held w → ok None None [] (option_list buffer ++ held) w'.
Proof.
  unfold carried. destruct padding; [by intros (-> & -> & _)|]. intros [_ H] Hok.
  destruct d; try (by destruct H as (_ & -> & ->)). destruct H as (p & Hp & -> & ->). by apply ok_malloc.
Qed.

(** Nothing is left of data that nobody takes. *)
Lemma free_carried padding d w w' buffer tail f :
  carried padding d w w' buffer tail → f_net f = w' → free_block buffer f = Ret (tt, with_net w f).
Proof.
  unfold carried. intros H <-. destruct padding.
  - destruct H as (<- & -> & _). by destruct f.
  - destruct H as [_ H]. destruct d; try (destruct H as (_ & -> & <-); by destruct f).
    destruct H as (p & Hp & -> & E1). cbn [free_block]. unfold on_net, hfree, gets, mbind, stateM_mbind. cbn [mbind outcome_mbind heap net_heap].
    rewrite E1. cbn [n_heap put_heap]. rewrite lookup_insert_eq. cbn. rewrite delete_insert_id by done. by destruct w.
Qed.

(** The message for the struct at [p]. *)
Definition socket_message_at (p : addr) (tail : list Z) : fengnet_message :=
  MkMsg 0 0 (Zpos p) (message_size PTYPE_SOCKET (SIZEOF_SOCKET_MESSAGE + zlen tail)).

(** What [forward_message] comes to, by the answer of the push. *)
Lemma forward_message_eq type t padding f :
  report type (n_result (f_net f)) → forward_as type = Some (t, padding) →
  let r := n_result (f_net f) in
  ∃ w' buffer tail p, carried padding (m_data r) (f_net f) w' buffer tail ∧ f_messages f !! p = None ∧
    let ms := <[p := MkSM t (m_id r) (m_ud r) buffer tail]> (f_messages f) in
    ∀ v n', fengnet_context_push (f_node f) (u32 (m_opaque r)) (socket_message_at p tail) = Ret (v, n') →
    forward_message t padding f =
      Ret (tt, if v =? 0 then MkFront w' (f_server f) n' ms
               else MkFront (f_net f) (f_server f) n' (f_messages f)).
Proof.
  intros Hr Ht r. destruct (carry_spec type t padding f Hr Ht) as (w' & buffer & tail & Hrun & Hc). fold r in Hrun, Hc.
  set (p := fresh (dom (f_messages f))). assert (Hp : f_messages f !! p = None) by (apply not_elem_of_dom, is_fresh).
  exists w', buffer, tail, p. split_and!; [done|done|]. intros ms v n' Hpush.
  unfold forward_message, gets at 1, mbind, stateM_mbind. cbn [mbind outcome_mbind]. fold r. rewrite Hrun. cbn [mbind outcome_mbind].
  unfold new_message, gets, modify, mbind, stateM_mbind, mret, stateM_mret. cbn [mbind outcome_mbind f_messages with_net]. fold p.
  unfold on_node at 1. cbn [f_node with_messages with_net]. unfold socket_message_at in Hpush. rewrite Hpush.
  cbn [mbind outcome_mbind]. destruct (v =? 0); cbn [negb]; [done|].
  rewrite (free_carried padding (m_data r) (f_net f) w' buffer tail) by done. cbn [mbind outcome_mbind].
  unfold free_message, gets, modify, mbind, stateM_mbind. cbn [mbind outcome_mbind f_messages with_net with_node with_messages].
  rewrite lookup_insert_eq. unfold with_messages, with_net, with_node. cbn. by rewrite delete_insert_id.
Qed.

Lemma forward_known type r : report type r → type ≠ SOCKET_EXIT → ∃ t padding, forward_as type = Some (t, padding).
Proof.
  destruct 1 as [| |? ? ? ? Hty|? ? ? ? ? Hty|]; intros Hne; try done; repeat destruct Hty as [-> |Hty]; try subst;
    by eexists _, _.
Qed.

Lemma poll_begin turns f : f_server f = true →
  fengnet_socket_poll fuel turns f =
    ('(type, w) ← socket_server_poll fuel turns (put_more 1 (f_net f)); poll_end type (with_net w f)).
Proof.
  intros Hs. unfold fengnet_socket_poll, gets, mbind, stateM_mbind. cbn [mbind outcome_mbind]. rewrite Hs.
  unfold on_net. cbn [liftO assert_true modify mbind outcome_mbind f_net with_net].
  by destruct (socket_server_poll _ _ _) as [[type w]| | | |].
Qed.

(** One poll, from what [socket_server_poll] returns on. *)
Lemma poll_eq turns f type w t padding f' :
  f_server f = true → socket_server_poll fuel turns (put_more 1 (f_net f)) = Ret (type, w) → type ≠ SOCKET_EXIT →
  forward_as type = Some (t, padding) → forward_message t padding (with_net w f) = Ret (tt, f') → n_more (f_net f') = n_more w →
  fengnet_socket_poll fuel turns f = Ret (if n_more w =? 0 then 1 else -1, f').
Proof.
  intros Hs Hpoll Hne Ht Hf Hmore. rewrite poll_begin by done.
  rewrite Hpoll. cbn [mbind outcome_mbind]. unfold poll_end. rewrite (proj2 (Z.eqb_neq _ _) Hne), Ht. unfold mbind, stateM_mbind. rewrite Hf.
  cbn [mbind outcome_mbind gets]. rewrite Hmore. by destruct (n_more w =? 0).
Qed.

(** C22: everything the socket thread reports goes to the service that the socket belongs
    to: as one message behind those that wait in its queue, of type [PTYPE_SOCKET], whose
    struct says what happened to which socket and has the text or owns the block of the
    data. If there is no such service, nothing is left of the report; when the thread is
    told to exit, nothing is sent. *)
Theorem results_reach_services turns f type w hd l :
  f_server f = true → server_ok (f_node f) hd l →
  socket_server_poll fuel turns (put_more 1 (f_net f)) = Ret (type, w) →
  let r := n_result w in let code := if n_more w =? 0 then 1 else -1 in
  (type = SOCKET_EXIT → fengnet_socket_poll fuel turns f = Ret (0, with_net w f)) ∧
  (type ≠ SOCKET_EXIT →
     (∀ c i x, registered (f_node f).1 c i → contexts (f_node f).2 !! c = Some x → c_handle x ≠ u32 (m_opaque r)) →
     fengnet_socket_poll fuel turns f = Ret (code, with_net w f)) ∧
  ∀ c i x q, type ≠ SOCKET_EXIT →
    registered (f_node f).1 c i → contexts (f_node f).2 !! c = Some x → c_handle x = u32 (m_opaque r) →
    MessageQueue.heap (queues (f_node f).2) !! c_queue x = Some q → ring_room q →
    ∃ t padding w' buffer tail p st' l',
      forward_as type = Some (t, padding) ∧ carried padding (m_data r) w w' buffer tail ∧
      (∀ held, ok None None [] held w → ok None None [] (option_list buffer ++ held) w') ∧
      f_messages f !! p = None ∧
      fengnet_socket_poll fuel turns f =
        Ret (code, MkFront w' true (on_world (f_node f) (set_queues (f_node f).2 st'))
                     (<[p := MkSM t (m_id r) (m_ud r) buffer tail]> (f_messages f))) ∧
      MessageQueue.contents <$> MessageQueue.heap st' =
        <[c_queue x := MessageQueue.contents q ++ [socket_message_at p tail]]>
          (MessageQueue.contents <$> MessageQueue.heap (queues (f_node f).2)) ∧
      server_ok (on_world (f_node f) (set_queues (f_node f).2 st')) hd l'.
Proof.
  intros Hs Hn Hpoll r code. pose proof (poll_reports fuel turns _ _ _ Hpoll) as Hr. fold r in Hr. split_and!.
  - intros ->. rewrite poll_begin by done.
    by rewrite Hpoll.
  - intros Hne Hno. destruct (forward_known _ _ Hr Hne) as (t & padding & Ht).
    destruct (forward_message_eq type t padding (with_net w f) Hr Ht) as (w' & buffer & tail & p & Hc & Hp & Hrun).
    fold r in Hrun. eapply poll_eq; [done..| |done].
    assert (Hpush : fengnet_context_push (f_node f) (u32 (m_opaque r)) (socket_message_at p tail) = Ret (-1, f_node f)).
    { unfold fengnet_context_push. by rewrite (handle_grab_miss _ _ _ _ Hn Hno). }
    rewrite (Hrun _ _ Hpush). by destruct f.
  - intros c i x q Hne Hreg Hx Hh Hq Hroom. destruct (forward_known _ _ Hr Hne) as (t & padding & Ht).
    destruct (forward_message_eq type t padding (with_net w f) Hr Ht) as (w' & buffer & tail & p & Hc & Hp & Hrun).
    fold r in Hrun, Hc. destruct (context_push_spec _ hd l c x i q (socket_message_at p tail) Hn Hreg Hx Hq Hroom)
      as (st' & l' & Hpush & Hcont & Hok). rewrite Hh in Hpush.
    exists t, padding, w', buffer, tail, p, st', l'. split_and!; try done.
    + intros held. exact (carried_ok _ _ _ _ _ _ held Hc).
    + eapply poll_eq; [done..| |exact (carried_result _ _ _ _ _ _ Hc)]. rewrite (Hrun _ _ Hpush). cbn. by rewrite Hs.
Qed.
End delivery.

(** ** A concrete run *)

(** A kernel with two bytes for every read. *)
#[export] Instance chatty : Kernel := {|
  answer A _ c := match c in syscall A return A with SRead _ _ => inr [104; 105] | c => Mild.reply c end;
  inet_ntop _ := None |}.
#[export] Instance no_texts : ErrorTexts := {| strerror _ := []; gai_strerror _ := [] |}.

(** A connected socket of the second service of [example_node], and an event for it. *)
Definition read_event : event := MkEvent (Some 1) true false false false.
Definition talking : front (list (positive * Z * fengnet_message)) :=
  MkFront
    (MkNet 0 0 0 0 0 0 1 1 0 [read_event]
       {[1 := set_opaque 0x1000002 (set_p (PSize 64) (set_type SOCKET_TYPE_CONNECTED (set_id 1 socket0)))]}
       [] ∅ 0 message0 0 [])
    true example_node ∅.

(** After [socket_server_poll]. *)
Definition read_net : net :=
  match socket_server_poll 1 1 (put_more 1 (f_net talking)) with Ret (_, w) => w | _ => f_net talking end.

Lemma results_reach_services_witness : ∃ b p w st',
  fengnet_socket_poll 1 1 talking =
    Ret (-1, MkFront w true (on_world example_node (set_queues example_world st'))
               {[p := MkSM FENGNET_SOCKET_TYPE_DATA 1 2 (Some b) []]}) ∧
  n_heap w = {[b := [104; 105]]} ∧
  MessageQueue.contents <$> MessageQueue.heap st' =
    <[2%positive := [MkMsg 0 0 (Zpos p) (24 + 6 * 2 ^ 56)]]> (MessageQueue.contents <$> MessageQueue.heap (queues example_world)).
Proof.
  destruct (results_reach_services 1 1 talking SOCKET_DATA read_net {[1%positive]} []) as (_ & _ & H).
  - reflexivity.
  - exact example_server_ok.
  - vm_compute. reflexivity.
  - destruct (H 2%positive 2 (example_context 0x1000002 2) example_queue2)
      as (t & padding & w' & buffer & tail & p & st' & l' & Ht & Hc & _ & Hp & Hrun & Hcont & _).
    + discriminate.
    + split; [lia|reflexivity].
    + reflexivity.
    + vm_compute. reflexivity.
    + reflexivity.
    + left. vm_compute. reflexivity.
    + injection Ht as <- <-. destruct Hc as [-> Hc].
      change (m_data (n_result read_net)) with (DBytes [104; 105]) in Hc. destruct Hc as (b & _ & -> & ->).
      exists b, p, (put_heap (<[b := [104; 105]]> (n_heap read_net)) read_net), st'. split; [exact Hrun|].
      split; [reflexivity|exact Hcont].
Defined.

(** ** Addresses of datagrams *)

(** A service reads the address of the sender behind the bytes of a datagram. *)
Theorem udp_message_address {E} f p id bs protocol sa tail :
  length (sa_port sa) = 2%nat →
  (protocol = PROTOCOL_UDP ∧ length (sa_addr sa) = 4%nat ∨ protocol = PROTOCOL_UDPv6 ∧ length (sa_addr sa) = 16%nat) →
  n_heap (f_net f) !! p = Some (bs ++ gen_udp_address protocol sa) →
  fengnet_socket_udp_address (E := E) (MkSM FENGNET_SOCKET_TYPE_UDP id (zlen bs) (Some p) tail) f =
    Ret (Some (gen_udp_address protocol sa), f).
Proof.
  intros Hport Ha Hp. unfold fengnet_socket_udp_address. cbn [sm_type sm_buffer sm_ud].
  rewrite Z.eqb_refl. cbn [negb]. unfold gets, liftO, mbind, stateM_mbind. cbn [mbind outcome_mbind option_bind]. rewrite Hp.
  assert (Hlen : zlen (gen_udp_address protocol sa) = if protocol =? PROTOCOL_UDP then 7 else 19).
  { unfold gen_udp_address, zlen. rewrite !length_app, Hport. by destruct Ha as [[-> ->]|[-> ->]]. }
  assert (Hout : socket_server_udp_address (bs ++ gen_udp_address protocol sa) (zlen bs) = Ret (Some (gen_udp_address protocol sa))).
  { unfold socket_server_udp_address. pose proof (zlen_nonneg bs).
    assert (Hread : mread (bs ++ gen_udp_address protocol sa) (zlen bs) (zlen (gen_udp_address protocol sa)) =
      Ret (gen_udp_address protocol sa)).
    { rewrite mread_in; [|done|apply zlen_nonneg|rewrite zlen_app; lia]. unfold zlen.
      by rewrite !Nat2Z.id, drop_app_length, firstn_all. }
    assert (Hfirst : aget (bs ++ gen_udp_address protocol sa) (zlen bs) = Ret protocol).
    { apply aget_Ret. split; [done|]. unfold zlen. rewrite Nat2Z.id, lookup_app_r by done. rewrite Nat.sub_diag. cbn.
      by destruct Ha as [[-> _]|[-> _]]. }
    rewrite Hfirst. cbn [mbind outcome_mbind]. rewrite Hlen in Hread.
    destruct Ha as [[-> _]|[-> _]]; [change (udp_addrsz _) with (Some 7)|change (udp_addrsz _) with (Some 19)];
      cbn [Z.eqb PROTOCOL_UDP PROTOCOL_UDPv6 Pos.eqb] in Hread; cbv beta iota; by rewrite Hread. }
  by rewrite Hout.
Qed.
