(* ===== verification/HarborService.v ===== *)
(** * The harbor service

    The model of [service-src/service_harbor.cpp]. The harbor of a node sends the
    messages for services of other nodes over a connection to each of them, and
    forwards what arrives to the services of its own node. It keeps messages for
    nodes that are not connected, and for global names whose handle is not known.

    The state is the [struct harbor], the memory of messages, and the calls that
    the service has made to the rest of the server; the answer of [fengnet_send]
    to the last call is a parameter. Queues have one owner at a time, so a pointer
    to one is its value; a pointer to a node of the table of names is its bucket
    and its place in the chain. Log lines are left out, and so is [ctx], which is
    the context of all calls. *)
From S2P Require Import Prelude Text StateM Memory Handle.

Local Open Scope Z_scope.

(** ** Constants *)

Definition HASH_SIZE : Z := 4096.
Definition DEFAULT_QUEUE_SIZE : Z := 1024.
Definition HEADER_COOKIE_LENGTH : Z := 12.
Definition GLOBALNAME_LENGTH : Z := 16.
Definition REMOTE_MAX : Z := 256.
Definition UINT32_MAX : Z := 2 ^ 32 - 1.

Definition STATUS_WAIT : Z := 0.
Definition STATUS_HANDSHAKE : Z := 1.
Definition STATUS_HEADER : Z := 2.
Definition STATUS_CONTENT : Z := 3.
Definition STATUS_DOWN : Z := 4.

Definition PTYPE_TEXT : Z := 0.
Definition PTYPE_ERROR : Z := 7.
Definition PTYPE_TAG_DONTCOPY : Z := 0x10000.
Definition FENGNET_SOCKET_TYPE_DATA : Z := 1.
Definition FENGNET_SOCKET_TYPE_CONNECT : Z := 2.
Definition FENGNET_SOCKET_TYPE_CLOSE : Z := 3.
Definition FENGNET_SOCKET_TYPE_ERROR : Z := 5.

(** ** Data *)

Record remote_message_header := MkHeader {
  hd_source : Z;
  hd_destination : Z;
  hd_session : Z
}.

(** The buffer may be null. *)
Record harbor_msg := MkMsg {
  hm_header : remote_message_header;
  hm_buffer : option addr;
  hm_size : Z
}.

(** A slot of [q_data] that has not been written is [None]. *)
Record harbor_msg_queue := MkQueue {
  q_size : Z;
  q_head : Z;
  q_tail : Z;
  q_data : list (option harbor_msg)
}.

(** [struct keyvalue]; the chain of its bucket is a list. *)
Record keyvalue := MkNode {
  k_key : list Z;
  k_hash : Z;
  k_value : Z;
  k_queue : option harbor_msg_queue
}.

Definition set_value (v : Z) (n : keyvalue) : keyvalue := MkNode (k_key n) (k_hash n) v (k_queue n).
Definition set_kqueue (q : option harbor_msg_queue) (n : keyvalue) : keyvalue :=
  MkNode (k_key n) (k_hash n) (k_value n) q.

Record slave := MkSlave {
  sl_fd : Z;
  sl_queue : option harbor_msg_queue;
  sl_status : Z;
  sl_length : Z;
  sl_read : Z;
  sl_size : list Z;
  sl_recv_buffer : option addr
}.

Definition set_fd (v : Z) (s : slave) : slave :=
  MkSlave v (sl_queue s) (sl_status s) (sl_length s) (sl_read s) (sl_size s) (sl_recv_buffer s).
Definition set_queue (v : option harbor_msg_queue) (s : slave) : slave :=
  MkSlave (sl_fd s) v (sl_status s) (sl_length s) (sl_read s) (sl_size s) (sl_recv_buffer s).
Definition set_status (v : Z) (s : slave) : slave :=
  MkSlave (sl_fd s) (sl_queue s) v (sl_length s) (sl_read s) (sl_size s) (sl_recv_buffer s).
Definition set_length (v : Z) (s : slave) : slave :=
  MkSlave (sl_fd s) (sl_queue s) (sl_status s) v (sl_read s) (sl_size s) (sl_recv_buffer s).
Definition set_read (v : Z) (s : slave) : slave :=
  MkSlave (sl_fd s) (sl_queue s) (sl_status s) (sl_length s) v (sl_size s) (sl_recv_buffer s).
Definition set_size (v : list Z) (s : slave) : slave :=
  MkSlave (sl_fd s) (sl_queue s) (sl_status s) (sl_length s) (sl_read s) v (sl_recv_buffer s).
Definition set_recv (v : option addr) (s : slave) : slave :=
  MkSlave (sl_fd s) (sl_queue s) (sl_status s) (sl_length s) (sl_read s) (sl_size s) v.

Record harbor := MkHarbor {
  h_id : Z;
  h_slave : Z;
  h_map : list (list keyvalue);
  h_s : list slave
}.

(** A call to the rest of the server. [CSend] has the bytes that [fengnet_send] is
    given ([None] for a null pointer), [CWrite] those of
    [fengnet_socket_sendbuffer]. *)
Inductive call :=
| CSend (source destination type session : Z) (data : option (list Z))
| CWrite (fd : Z) (data : list Z)
| CStart (fd : Z)
| CClose (fd : Z)
| CCallback
| CHarborStart.

#[export] Instance call_eq_dec : EqDecision call.
Proof. solve_decision. Defined.

Record state := MkState {
  st_h : harbor;
  st_heap : gmap addr (list Z);
  st_calls : list call
}.

Definition put_h (h : harbor) (st : state) : state := MkState h (st_heap st) (st_calls st).
Definition put_mem (m : gmap addr (list Z)) (st : state) : state := MkState (st_h st) m (st_calls st).
Definition put_calls (l : list call) (st : state) : state := MkState (st_h st) (st_heap st) l.

#[export] Instance state_heap : HasHeap state := {| heap := st_heap; with_heap := put_mem |}.

Notation M := (stateM state).

Definition with_map (m : list (list keyvalue)) (h : harbor) : harbor := MkHarbor (h_id h) (h_slave h) m (h_s h).
Definition with_s (l : list slave) (h : harbor) : harbor := MkHarbor (h_id h) (h_slave h) (h_map h) l.

(** [&h->s[i]] *)
Definition get_slave (i : Z) : M slave := l ← gets (λ st, h_s (st_h st)); liftO (aget l i).
Definition mod_slave (i : Z) (f : slave → slave) : M unit :=
  modify (λ st, put_h (with_s (alter f (Z.to_nat i) (h_s (st_h st))) (st_h st)) st).

(** A node: its bucket and its place in the chain. *)
Notation node_at := (Z * nat)%type (only parsing).

Definition get_node (p : node_at) : M keyvalue :=
  m ← gets (λ st, h_map (st_h st));
  l ← liftO (aget m p.1);
  match l !! p.2 with Some n => mret n | None => liftO Undef end.
Definition mod_node (p : node_at) (f : keyvalue → keyvalue) : M unit :=
  modify (λ st, put_h (with_map (alter (alter f p.2) (Z.to_nat p.1) (h_map (st_h st))) (st_h st)) st).

(** ** Queues *)

(** The ring is full when one slot is free; then its messages are copied to the
    start of one of twice the size. *)
Definition expand_ring (queue : harbor_msg_queue) : outcome harbor_msg_queue :=
  if (q_tail queue + 1) mod q_size queue =? q_head queue then
    size ← cint (q_size queue * 2);
    new_buffer ← for_loop (Z.to_nat (q_size queue - 1)) 0 (λ i new_buffer,
        m ← aget (q_data queue) ((i + q_head queue) mod q_size queue);
        aset new_buffer i m)
      (replicate (Z.to_nat size) None);
    Ret (MkQueue size 0 (q_size queue - 1) new_buffer)
  else Ret queue.

Definition push_queue_msg (queue : harbor_msg_queue) (m : harbor_msg) : outcome harbor_msg_queue :=
  queue ← expand_ring queue;
  data ← aset (q_data queue) (q_tail queue) (Some m);
  Ret (MkQueue (q_size queue) (q_head queue) ((q_tail queue + 1) mod q_size queue) data).

Definition push_queue (queue : harbor_msg_queue) (buffer : option addr) (sz : Z)
    (header : remote_message_header) : outcome harbor_msg_queue :=
  push_queue_msg queue (MkMsg header buffer sz).

Definition pop_queue (queue : harbor_msg_queue) : outcome (option harbor_msg * harbor_msg_queue) :=
  if q_head queue =? q_tail queue then Ret (None, queue)
  else
    slot ← aget (q_data queue) (q_head queue);
    match slot with
    | None => Undef
    | Some m => Ret (Some m, MkQueue (q_size queue) ((q_head queue + 1) mod q_size queue)
                               (q_tail queue) (q_data queue))
    end.

Definition new_queue : harbor_msg_queue :=
  MkQueue DEFAULT_QUEUE_SIZE 0 0 (replicate (Z.to_nat DEFAULT_QUEUE_SIZE) None).

(** [while ((m = pop_queue(queue)) != NULL) f(m)], with the queue that is left. *)
Definition while_pop (f : harbor_msg → M unit) (queue : harbor_msg_queue) : M harbor_msg_queue :=
  loopM (S (Z.to_nat (q_size queue))) (λ queue,
    '(m, queue) ← liftO (pop_queue queue);
    match m with
    | None => mret (inr queue)
    | Some m => f m;; mret (inl queue)
    end) queue.

(** [free], which takes a null pointer too. *)
Definition free_buffer (p : option addr) : M unit :=
  match p with Some p => hfree p | None => mret tt end.

Definition release_queue (queue : option harbor_msg_queue) : M unit :=
  match queue with
  | None => mret tt
  | Some queue => while_pop (λ m, free_buffer (hm_buffer m)) queue;; mret tt
  end.

(** ** The table of names *)

(** The xor of the four words of a name of 16 bytes. *)
Definition name_hash (name : list Z) : Z :=
  Z.lxor (Z.lxor (Z.lxor (le_value (take 4 name)) (le_value (take 4 (drop 4 name))))
    (le_value (take 4 (drop 8 name)))) (le_value (take 4 (drop 12 name))).

(** [strncmp(a, b, n) == 0] *)
Fixpoint strncmp_eq (n : nat) (a b : list Z) : bool :=
  match n, a, b with
  | S n', x :: a', y :: b' => (x =? y) && ((x =? 0) || strncmp_eq n' a' b')
  | _, _, _ => true
  end.

Fixpoint find_node (h : Z) (name : list Z) (node : list keyvalue) : option nat :=
  match node with
  | [] => None
  | n :: next =>
      if (k_hash n =? h) && strncmp_eq (Z.to_nat GLOBALNAME_LENGTH) (k_key n) name then Some O
      else S <$> find_node h name next
  end.

Definition hash_search (name : list Z) : M (option node_at) :=
  let h := name_hash name in
  m ← gets (λ st, h_map (st_h st));
  l ← liftO (aget m (h mod HASH_SIZE));
  mret ((λ k, (h mod HASH_SIZE, k)) <$> find_node h name l).

Definition hash_insert (name : list Z) : M node_at :=
  let h := name_hash name in
  m ← gets (λ st, h_map (st_h st));
  l ← liftO (aget m (h mod HASH_SIZE));
  m ← liftO (aset m (h mod HASH_SIZE) (MkNode name h 0 None :: l));
  modify (λ st, put_h (with_map m (st_h st)) st);;
  mret (h mod HASH_SIZE, O).

Definition hash_new : list (list keyvalue) := replicate (Z.to_nat HASH_SIZE) [].

Fixpoint delete_chain (node : list keyvalue) : M unit :=
  match node with
  | [] => mret tt
  | n :: next => release_queue (k_queue n);; delete_chain next
  end.

Fixpoint hash_delete (hash : list (list keyvalue)) : M unit :=
  match hash with
  | [] => mret tt
  | l :: hash' => delete_chain l;; hash_delete hash'
  end.

(** ** Calls to the server *)

Section harbor.
Context (reply : list call → Z).

Definition post (c : call) : M Z :=
  modify (λ st, put_calls (st_calls st ++ [c]) st);;
  gets (λ st, reply (st_calls st)).

Definition read_buffer (data : option addr) (sz : Z) : M (list Z) :=
  match data with Some p => hread p 0 sz | None => mret [] end.

(** With [PTYPE_TAG_DONTCOPY] the memory is no longer the caller's. *)
Definition fengnet_send (source destination type session : Z) (data : option addr) (sz : Z) : M Z :=
  bs ← read_buffer data sz;
  r ← post (CSend source destination type session ((λ _, bs) <$> data));
  (if negb (Z.land type PTYPE_TAG_DONTCOPY =? 0) then free_buffer data else mret tt);;
  mret r.

Definition send_text (source destination type session : Z) (text : list Z) : M unit :=
  post (CSend source destination type session (Some text));; mret tt.

Definition send_nothing (source destination type session : Z) : M unit :=
  post (CSend source destination type session None);; mret tt.

(** ** Closing *)

Definition close_harbor (id : Z) : M unit :=
  s ← get_slave id;
  mod_slave id (set_status STATUS_DOWN);;
  (if negb (sl_fd s =? 0) then post (CClose (sl_fd s));; mod_slave id (set_fd 0) else mret tt);;
  match sl_queue s with
  | None => mret tt
  | Some q => release_queue (Some q);; mod_slave id (set_queue None)
  end.

Definition report_harbor_down (id : Z) : M unit :=
  slave ← gets (λ st, h_slave (st_h st));
  send_text 0 slave PTYPE_TEXT 0 (codes "D " ++ decimal id).

Definition zero_slave : slave := MkSlave 0 None STATUS_WAIT 0 0 [0; 0; 0; 0] None.

Definition harbor_create : harbor :=
  MkHarbor 0 0 hash_new (replicate (Z.to_nat REMOTE_MAX) zero_slave).

(** From [i] on, [n] of them. *)
Fixpoint close_from (n : nat) (i : Z) : M unit :=
  match n with O => mret tt | S n' => close_harbor i;; close_from n' (i + 1) end.

Definition close_all_remotes : M unit := close_from (Z.to_nat (REMOTE_MAX - 1)) 1.

Definition harbor_release : M unit :=
  close_all_remotes;;
  m ← gets (λ st, h_map (st_h st));
  hash_delete m.

(** ** Packages *)

Definition to_bigendian (n : Z) : list Z :=
  [Z.land (Z.shiftr n 24) 0xff; Z.land (Z.shiftr n 16) 0xff; Z.land (Z.shiftr n 8) 0xff; Z.land n 0xff].

Definition header_to_message (header : remote_message_header) : list Z :=
  to_bigendian (hd_source header) ++ to_bigendian (hd_destination header) ++
  to_bigendian (hd_session header).

(** A word is the four bytes that it has in memory. *)
Definition from_bigendian (n : list Z) : Z :=
  let b k := nth k n 0 in
  Z.lor (Z.lor (Z.lor (Z.shiftl (b 0%nat) 24) (Z.shiftl (b 1%nat) 16)) (Z.shiftl (b 2%nat) 8)) (b 3%nat).

Definition message_to_header (message : list Z) : remote_message_header :=
  MkHeader (from_bigendian (take 4 message)) (from_bigendian (take 4 (drop 4 message)))
    (from_bigendian (take 4 (drop 8 message))).

(** [harbor | handle], the bits of a handle of this node. *)
Definition own_handle (id handle : Z) : Z :=
  Z.lor (Z.land handle HANDLE_MASK) (u32 (Z.shiftl id HANDLE_REMOTE_SHIFT)).

Definition forward_local_messsage (msg : addr) (sz : Z) : M unit :=
  cookie ← hread msg (sz - HEADER_COOKIE_LENGTH) HEADER_COOKIE_LENGTH;
  let header := message_to_header cookie in
  let type := Z.shiftr (hd_destination header) HANDLE_REMOTE_SHIFT in
  id ← gets (λ st, h_id (st_h st));
  let destination := own_handle id (hd_destination header) in
  r ← fengnet_send (hd_source header) destination (Z.lor type PTYPE_TAG_DONTCOPY)
    (i32 (hd_session header)) (Some msg) (sz - HEADER_COOKIE_LENGTH);
  if (r <? 0) && negb (type =? PTYPE_ERROR) then
    send_nothing destination (hd_source header) PTYPE_ERROR (i32 (hd_session header))
  else mret tt.

(** What goes over the connection for a message. *)
Definition package (bs : list Z) (cookie : remote_message_header) : list Z :=
  to_bigendian (u32 (zlen bs + HEADER_COOKIE_LENGTH)) ++ bs ++ header_to_message cookie.

Definition send_remote (fd : Z) (buffer : option addr) (sz : Z) (cookie : remote_message_header) : M unit :=
  let sz_header := u64 (sz + HEADER_COOKIE_LENGTH) in
  if UINT32_MAX <? sz_header then mret tt
  else
    bs ← read_buffer buffer sz;
    post (CWrite fd (package bs cookie));;
    mret tt.

(** ** Queues of messages that can go out *)

Definition dispatch_name_queue (p : node_at) : M unit :=
  node ← get_node p;
  let handle := k_value node in
  let harbor_id := Z.shiftr handle HANDLE_REMOTE_SHIFT in
  s ← get_slave harbor_id;
  match k_queue node with
  | None => liftO Undef
  | Some queue =>
      if sl_fd s =? 0 then
        if sl_status s =? STATUS_DOWN then mret tt
        else
          (match sl_queue s with
           | None => mod_slave harbor_id (set_queue (Some queue));; mod_node p (set_kqueue None)
           | Some _ =>
               queue ← while_pop (λ m,
                 s ← get_slave harbor_id;
                 q ← liftO (match sl_queue s with Some q => push_queue_msg q m | None => Undef end);
                 mod_slave harbor_id (set_queue (Some q))) queue;
               mod_node p (set_kqueue (Some queue))
           end);;
          slave ← gets (λ st, h_slave (st_h st));
          if harbor_id =? Z.shiftr slave HANDLE_REMOTE_SHIFT then
            s ← get_slave harbor_id;
            match sl_queue s with
            | None => liftO Undef
            | Some q =>
                q ← while_pop (λ m,
                  let h := hm_header m in
                  let type := Z.shiftr (hd_destination h) HANDLE_REMOTE_SHIFT in
                  fengnet_send (hd_source h) handle (Z.lor type PTYPE_TAG_DONTCOPY)
                    (i32 (hd_session h)) (hm_buffer m) (hm_size m);;
                  mret tt) q;
                release_queue (Some q);;
                mod_slave harbor_id (set_queue None)
            end
          else mret tt
      else
        queue ← while_pop (λ m,
          let h := hm_header m in
          send_remote (sl_fd s) (hm_buffer m) (hm_size m)
            (MkHeader (hd_source h) (Z.lor (hd_destination h) (Z.land handle HANDLE_MASK))
               (hd_session h));;
          free_buffer (hm_buffer m)) queue;
        mod_node p (set_kqueue (Some queue))
  end.

Definition dispatch_queue (id : Z) : M unit :=
  s ← get_slave id;
  liftO (assert_true (negb (sl_fd s =? 0)));;
  match sl_queue s with
  | None => mret tt
  | Some queue =>
      queue ← while_pop (λ m,
        send_remote (sl_fd s) (hm_buffer m) (hm_size m) (hm_header m);;
        free_buffer (hm_buffer m)) queue;
      release_queue (Some queue);;
      mod_slave id (set_queue None)
  end.

(** ** Data from a connection *)

(** The body of a message, from the place [off] of the data on. *)
Definition read_content (id : Z) (buffer : addr) (off size : Z) : M (Z * Z + unit) :=
  s ← get_slave id;
  let need := sl_length s - sl_read s in
  match sl_recv_buffer s with
  | None => liftO Undef
  | Some recv =>
      if size <? need then
        bs ← hread buffer off size;
        hwrite recv (sl_read s) bs;;
        mod_slave id (set_read (sl_read s + size));;
        mret (inr tt)
      else
        bs ← hread buffer off need;
        hwrite recv (sl_read s) bs;;
        forward_local_messsage recv (sl_length s);;
        mod_slave id (set_length 0);;
        mod_slave id (set_read 0);;
        mod_slave id (set_recv None);;
        mod_slave id (set_status STATUS_HEADER);;
        if size - need =? 0 then mret (inr tt) else mret (inl (off + need, size - need))
  end.

(** The length in front of it. New memory is filled before it is read. *)
Definition read_header (id : Z) (buffer : addr) (off size : Z) : M (Z * Z + unit) :=
  s ← get_slave id;
  let need := 4 - sl_read s in
  if size <? need then
    bs ← hread buffer off size;
    sz ← liftO (mwrite (sl_size s) (sl_read s) bs);
    mod_slave id (set_size sz);;
    mod_slave id (set_read (sl_read s + size));;
    mret (inr tt)
  else
    bs ← hread buffer off need;
    sz ← liftO (mwrite (sl_size s) (sl_read s) bs);
    mod_slave id (set_size sz);;
    if negb (nth 0 sz 0 =? 0) then close_harbor id;; mret (inr tt)
    else
      let length := Z.lor (Z.lor (Z.shiftl (nth 1 sz 0) 16) (Z.shiftl (nth 2 sz 0) 8)) (nth 3 sz 0) in
      mod_slave id (set_length length);;
      mod_slave id (set_read 0);;
      recv ← hmalloc (replicate (Z.to_nat length) 0);
      mod_slave id (set_recv (Some recv));;
      mod_slave id (set_status STATUS_CONTENT);;
      if size - need =? 0 then mret (inr tt) else read_content id buffer (off + need) (size - need).

(** The body of the loop of [push_socket_data]: [inl] goes on with the rest. *)
Definition data_turn (id : Z) (buffer : addr) (r : Z * Z) : M (Z * Z + unit) :=
  let '(off, size) := r in
  s ← get_slave id;
  if sl_status s =? STATUS_HANDSHAKE then
    bs ← hread buffer off 1;
    if negb (nth 0 bs 0 =? id) then close_harbor id;; mret (inr tt)
    else
      mod_slave id (set_status STATUS_HEADER);;
      dispatch_queue id;;
      if size - 1 =? 0 then mret (inl (off + 1, size - 1))
      else read_header id buffer (off + 1) (size - 1)
  else if sl_status s =? STATUS_HEADER then read_header id buffer off size
  else if sl_status s =? STATUS_CONTENT then read_content id buffer off size
  else mret (inr tt).

(** The index of the slave with this [fd], from [i] on; 0 when there is none. *)
Fixpoint find_fd (fd i : Z) (s : list slave) : Z :=
  match s with
  | [] => 0
  | x :: s' => if sl_fd x =? fd then i else find_fd fd (i + 1) s'
  end.

Definition harbor_id (fd : Z) : M Z :=
  l ← gets (λ st, h_s (st_h st));
  mret (find_fd fd 1 (take (Z.to_nat (REMOTE_MAX - 1)) (drop 1 l))).

Definition push_socket_data (fd ud : Z) (buffer : addr) : M unit :=
  id ← harbor_id fd;
  if id =? 0 then mret tt
  else loopM (Z.to_nat ud + 3) (data_turn id buffer) (0, ud).

(** ** Commands and messages *)

Definition update_name (name : list Z) (handle : Z) : M unit :=
  node ← hash_search name;
  p ← (match node with Some p => mret p | None => hash_insert name end);
  mod_node p (set_value handle);;
  n ← get_node p;
  match k_queue n with
  | None => mret tt
  | Some _ =>
      dispatch_name_queue p;;
      n ← get_node p;
      release_queue (k_queue n);;
      mod_node p (set_kqueue None)
  end.

Definition remote_send_handle (source destination type session : Z) (msg : option addr) (sz : Z) : M Z :=
  let harbor_id := Z.shiftr destination HANDLE_REMOTE_SHIFT in
  id ← gets (λ st, h_id (st_h st));
  if harbor_id =? id then
    fengnet_send source destination (Z.lor type PTYPE_TAG_DONTCOPY) session msg sz;;
    mret 1
  else
    s ← get_slave harbor_id;
    let header := MkHeader source
      (Z.lor (u32 (Z.shiftl type HANDLE_REMOTE_SHIFT)) (Z.land destination HANDLE_MASK)) (u32 session) in
    if (sl_fd s =? 0) || (sl_status s =? STATUS_HANDSHAKE) then
      if sl_status s =? STATUS_DOWN then
        send_nothing destination source PTYPE_ERROR session;;
        mret 0
      else
        q ← liftO (push_queue (default new_queue (sl_queue s)) msg sz header);
        mod_slave harbor_id (set_queue (Some q));;
        mret 1
    else
      send_remote (sl_fd s) msg sz header;;
      mret 0.

Definition remote_send_name (source : Z) (name : list Z) (type session : Z) (msg : option addr) (sz : Z) : M Z :=
  node ← hash_search name;
  p ← (match node with Some p => mret p | None => hash_insert name end);
  n ← get_node p;
  if k_value n =? 0 then
    q ← liftO (push_queue (default new_queue (k_queue n)) msg sz
      (MkHeader source (u32 (Z.shiftl type HANDLE_REMOTE_SHIFT)) (u32 session)));
    mod_node p (set_kqueue (Some q));;
    slave ← gets (λ st, h_slave (st_h st));
    send_text 0 slave PTYPE_TEXT 0 (c_str (codes "Q " ++ name));;
    mret 1
  else remote_send_handle source (k_value n) type session msg sz.

Definition handshake (id : Z) : M unit :=
  s ← get_slave id;
  own ← gets (λ st, h_id (st_h st));
  post (CWrite (sl_fd s) [u8 own]);;
  mret tt.

(** What [sscanf(s, "%d %d")] stores into two zeros. *)
Definition scan_two (s : list Z) : Z * Z :=
  match scan_int s with
  | None => (0, 0)
  | Some (a, s') => (a, match scan_int s' with Some (b, _) => b | None => 0 end)
  end.

(** Connecting to a harbor ([S]), or accepting it ([A]). *)
Definition connect_harbor (first : bool) (text : list Z) : M unit :=
  let '(fd, id) := scan_two (c_str text) in
  if (fd =? 0) || (id <=? 0) || (REMOTE_MAX <=? id) then mret tt
  else
    slave ← get_slave id;
    if negb (sl_fd slave =? 0) then mret tt
    else
      mod_slave id (set_fd fd);;
      post (CStart fd);;
      handshake id;;
      if first then mod_slave id (set_status STATUS_HANDSHAKE)
      else mod_slave id (set_status STATUS_HEADER);; dispatch_queue id.

(** A zero follows the message in memory; a message of one letter has nothing at
    [msg + 2]. *)
Definition harbor_command (msg : list Z) (source : Z) : M unit :=
  c ← liftO (aget (msg ++ [0]) 0);
  let s := i32 (zlen msg) - 2 in
  let name := drop 2 msg in
  if c =? 78 then
    if s <? 0 then liftO Undef
    else if (s <=? 0) || (GLOBALNAME_LENGTH <=? s) then mret tt
    else update_name (name ++ replicate (Z.to_nat (GLOBALNAME_LENGTH - s)) 0) source
  else if (c =? 83) || (c =? 65) then
    if s <? 0 then liftO Undef
    else connect_harbor (c =? 83) name
  else mret tt.

(** The messages of the service, by their type: a socket message, a command, a
    message for another node, or any other. *)
Inductive harbor_input :=
| ISocket (type id ud : Z) (buffer : option addr)
| ICommand (msg : list Z)
| IRemote (name : list Z) (handle : Z) (message : option addr) (sz type : Z)
| IOther (type : Z).

Definition socket_input (type id ud : Z) (buffer : option addr) : M unit :=
  if type =? FENGNET_SOCKET_TYPE_DATA then
    match buffer with
    | None => liftO Undef
    | Some p => push_socket_data id ud p;; hfree p
    end
  else if (type =? FENGNET_SOCKET_TYPE_ERROR) || (type =? FENGNET_SOCKET_TYPE_CLOSE) then
    id ← harbor_id id;
    if negb (id =? 0) then report_harbor_down id else mret tt
  else mret tt.

Definition mainloop (session source : Z) (msg : harbor_input) : M Z :=
  match msg with
  | ISocket type id ud buffer => socket_input type id ud buffer;; mret 0
  | ICommand msg => harbor_command msg source;; mret 0
  | IRemote name handle message sz type =>
      r ← (if handle =? 0 then remote_send_name source name type session message sz
           else remote_send_handle source handle type session message sz);
      if negb (r =? 0) then mret 0 else free_buffer message;; mret 0
  | IOther type =>
      (if negb (session =? 0) && negb (type =? PTYPE_ERROR) then send_nothing 0 source PTYPE_ERROR session
       else mret tt);;
      mret 0
  end.

Definition harbor_init (args : list Z) : M Z :=
  let '(harbor_id, slave) := match scan_int (c_str args) with
                             | None => (0, 0)
                             | Some (a, s) => (a, match scan_unsigned s with Some (b, _) => b | None => 0 end)
                             end in
  if slave =? 0 then mret 1
  else
    modify (λ st, put_h (MkHarbor harbor_id slave (h_map (st_h st)) (h_s (st_h st))) st);;
    (if harbor_id =? 0 then close_all_remotes else mret tt);;
    post CCallback;;
    post CHarborStart;;
    mret 0.
End harbor.
