(* ===== verification/HarborQueue.v ===== *)
(** * The queues of the harbor

    A queue of [HarborService] as a list: pushing appends, also when the ring has
    to grow, and popping takes the first message; the rule for the loops that pop
    until the queue is empty. *)
From S2P Require Import Prelude StateM Memory HarborService.

Local Open Scope Z_scope.

(** The messages of a queue, the oldest first. *)
Record queue_rep (q : harbor_msg_queue) (l : list harbor_msg) : Prop := {
  qr_head : 0 ≤ q_head q < q_size q;
  qr_data : zlen (q_data q) = q_size q;
  qr_tail : q_tail q = (q_head q + zlen l) mod q_size q;
  qr_len : zlen l < q_size q;
  qr_slots k m : l !! k = Some m →
    q_data q !! Z.to_nat ((q_head q + Z.of_nat k) mod q_size q) = Some (Some m)
}.

(** The same as a function. *)
Definition messages (q : harbor_msg_queue) : list harbor_msg :=
  omap (λ k, default None (q_data q !! Z.to_nat ((q_head q + Z.of_nat k) mod q_size q)))
    (seq 0 (Z.to_nat ((q_tail q - q_head q) mod q_size q))).

Lemma rep_messages q l : queue_rep q l → messages q = l.
Proof.
  intros [Hh Hd Ht Hl Hs]. pose proof (zlen_nonneg l). unfold messages.
  replace ((q_tail q - q_head q) mod q_size q) with (zlen l).
  2:{ rewrite Ht, Zminus_mod_idemp_l. replace (q_head q + zlen l - q_head q) with (zlen l) by lia.
      by rewrite Z.mod_small. }
  unfold zlen. rewrite Nat2Z.id. clear Ht Hl H. revert Hs.
  cut (∀ n, (∀ k m, l !! k = Some m →
     q_data q !! Z.to_nat ((q_head q + Z.of_nat (n + k)) mod q_size q) = Some (Some m)) →
   omap (λ k, default None (q_data q !! Z.to_nat ((q_head q + Z.of_nat k) mod q_size q))) (seq n (length l)) = l).
  { intros H Hs. by apply H. }
  induction l as [|m l IH]; intros n Hs; [done|]. cbn [length seq omap list_omap].
  pose proof (Hs 0%nat m eq_refl) as H0. rewrite Nat.add_0_r in H0. rewrite H0. cbn. f_equal.
  apply IH. intros k m' Hk. specialize (Hs (S k) m' Hk). by rewrite Nat.add_succ_r in Hs.
Qed.

Lemma new_queue_rep : queue_rep new_queue [].
Proof. by split. Qed.

(** The place of a message does not collide with that of another. *)
Lemma ring_place size head i j :
  0 ≤ i < size → 0 ≤ j < size → (head + i) mod size = (head + j) mod size → i = j.
Proof.
  intros Hi Hj H. assert (H' : (head + i - (head + j)) mod size = 0).
  { rewrite Zminus_mod, H, Z.sub_diag. apply Z.mod_0_l. lia. }
  replace (head + i - (head + j)) with (i - j) in H' by lia.
  apply Z.mod_divide in H' as [k Hk]; [|lia].
  assert (k < 1) by nia. assert (-1 < k) by nia. replace k with 0 in Hk by lia. lia.
Qed.

Lemma queue_full q l : queue_rep q l →
  ((q_tail q + 1) mod q_size q =? q_head q) = (zlen l =? q_size q - 1).
Proof.
  intros [Hh Hd Ht Hl Hs]. pose proof (zlen_nonneg l). rewrite Ht, Zplus_mod_idemp_l.
  destruct (Z.eqb_spec (zlen l) (q_size q - 1)) as [E|E].
  - rewrite E. replace (q_head q + (q_size q - 1) + 1) with (q_head q + 1 * q_size q) by lia.
    rewrite Z_mod_plus_full, Z.mod_small by done. apply Z.eqb_refl.
  - apply Z.eqb_neq. intros H'. apply E.
    enough (zlen l + 1 = 0) by lia. apply (ring_place (q_size q) (q_head q)); [lia|lia|].
    rewrite Z.add_0_r, (Z.mod_small (q_head q)) by lia. by rewrite Z.add_assoc.
Qed.

(** The loop that copies the messages to the start of a new ring. *)
Lemma copy_ring q l size n :
  queue_rep q l → (n ≤ length l)%nat → zlen l ≤ size →
  ∃ new, for_loop n 0 (λ i new_buffer,
      m ← aget (q_data q) ((i + q_head q) mod q_size q); aset new_buffer i m)
      (replicate (Z.to_nat size) None) = Ret new ∧ zlen new = size ∧
    ∀ k m, (k < n)%nat → l !! k = Some m → new !! k = Some (Some m).
Proof.
  intros Hq Hn Hsz. pose proof (qr_head _ _ Hq) as Hh. unfold zlen in Hsz.
  destruct (for_loop_inv (λ i (new : list (option harbor_msg)), zlen new = size ∧
    ∀ k m, Z.of_nat k < i → l !! k = Some m → new !! k = Some (Some m))
    (λ i new_buffer, m ← aget (q_data q) ((i + q_head q) mod q_size q); aset new_buffer i m) n 0
    (replicate (Z.to_nat size) None)) as (new & Hrun & Hlen & Hnew).
  - split; [unfold zlen; rewrite length_replicate; lia|lia].
  - intros i new Hi [Hlen Hnew]. destruct (lookup_lt_is_Some_2 l (Z.to_nat i)) as [m Hm]; [lia|].
    pose proof (qr_slots _ _ Hq _ _ Hm) as Hd. rewrite Z2Nat.id in Hd by lia.
    assert (Hg : aget (q_data q) ((i + q_head q) mod q_size q) = Ret (Some m)).
    { apply aget_Ret. rewrite Z.add_comm. split; [apply Z.mod_pos_bound; lia|done]. }
    rewrite Hg. bsimpl. rewrite aset_in by lia. eexists. split; [done|].
    split; [by rewrite zlen_insert|]. intros k m' Hk Hm'.
    destruct (decide (k = Z.to_nat i)) as [->|Hne].
    + rewrite list_lookup_insert_eq by (unfold zlen in *; lia). congruence.
    + rewrite list_lookup_insert_ne by done. apply Hnew; [lia|done].
  - exists new. split; [done|]. split; [done|]. intros k m Hk. apply Hnew. lia.
Qed.

Lemma expand_rep q l : queue_rep q l → zlen l < 2 ^ 30 - 1 →
  ∃ q', expand_ring q = Ret q' ∧ queue_rep q' l ∧ zlen l < q_size q' - 1.
Proof.
  intros Hq Hlt. unfold expand_ring. rewrite (queue_full _ _ Hq).
  pose proof (qr_head _ _ Hq) as Hh. pose proof (zlen_nonneg l) as Hz.
  destruct (Z.eqb_spec (zlen l) (q_size q - 1)) as [E|E].
  2:{ exists q. split; [done|]. split; [done|]. pose proof (qr_len _ _ Hq). lia. }
  rewrite cint_in by (unfold INT_MAX, INT_MIN; lia). bsimpl.
  destruct (copy_ring q l (q_size q * 2) (Z.to_nat (q_size q - 1)) Hq) as (new & Hrun & Hlen & Hnew).
  { unfold zlen in *. lia. }
  { lia. }
  rewrite Hrun. bsimpl. eexists. split; [done|]. assert (Hsz : 1 ≤ q_size q) by lia.
  split; [split; cbn|cbn].
  - lia.
  - done.
  - rewrite Z.mod_small; lia.
  - lia.
  - intros k m Hk. pose proof (lookup_lt_Some _ _ _ Hk). unfold zlen in *.
    rewrite Z.mod_small, Z.add_0_l, Nat2Z.id by lia. apply Hnew; [lia|done].
  - destruct (Z.eq_dec (q_size q) 1); lia.
Qed.

Lemma push_rep q l m : queue_rep q l → zlen l < 2 ^ 30 - 1 →
  ∃ q', push_queue_msg q m = Ret q' ∧ queue_rep q' (l ++ [m]).
Proof.
  intros Hq0 Hlt. destruct (expand_rep q l Hq0 Hlt) as (q1 & He & [Hh Hd Ht Hl Hs] & Hroom).
  unfold push_queue_msg. rewrite He. bsimpl. clear He Hq0 q. pose proof (zlen_nonneg l) as Hz.
  pose proof (Z.mod_pos_bound (q_head q1 + zlen l) (q_size q1) ltac:(lia)) as Hb.
  rewrite aset_in by (rewrite Ht; lia). bsimpl. eexists. split; [done|].
  rewrite Ht. split; cbn.
  - done.
  - by rewrite zlen_insert.
  - rewrite Zplus_mod_idemp_l, zlen_app, <-Z.add_assoc. done.
  - rewrite zlen_app. change (zlen [m]) with 1. lia.
  - intros k x Hk. destruct (decide (k = length l)) as [->|Hne].
    + rewrite lookup_app_r, Nat.sub_diag in Hk by done. injection Hk as ->.
      rewrite list_lookup_insert_eq; [done|]. unfold zlen in *. lia.
    + assert (Hkl : (k < length l)%nat).
      { apply lookup_lt_Some in Hk. rewrite length_app in Hk. cbn in Hk. lia. }
      rewrite lookup_app_l in Hk by done. rewrite list_lookup_insert_ne; [by apply Hs|].
      intros E. apply Z2Nat.inj in E; [|lia|apply Z.mod_pos_bound; lia].
      apply ring_place in E; unfold zlen in *; lia.
Qed.

Lemma pop_rep_nil q : queue_rep q [] → pop_queue q = Ret (None, q).
Proof.
  intros [Hh _ Ht _ _]. unfold pop_queue. rewrite Ht, zlen_nil, Z.add_0_r, Z.mod_small by done.
  by rewrite Z.eqb_refl.
Qed.

Lemma pop_rep_cons q m l : queue_rep q (m :: l) →
  ∃ q', pop_queue q = Ret (Some m, q') ∧ queue_rep q' l.
Proof.
  intros [Hh Hd Ht Hl Hs]. unfold pop_queue. pose proof (zlen_nonneg l). rewrite zlen_cons in *.
  destruct (Z.eqb_spec (q_head q) (q_tail q)) as [E|_].
  { exfalso. enough (1 + zlen l = 0) by lia. apply (ring_place (q_size q) (q_head q)); [lia|lia|].
    by rewrite Z.add_0_r, (Z.mod_small (q_head q)), <-Ht by lia. }
  assert (Hg : aget (q_data q) (q_head q) = Ret (Some m)).
  { apply aget_Ret. split; [lia|]. specialize (Hs 0%nat m eq_refl).
    by rewrite Z.add_0_r, Z.mod_small in Hs by done. }
  rewrite Hg. bsimpl. eexists. split; [done|]. split; cbn.
  - apply Z.mod_pos_bound. lia.
  - done.
  - rewrite Zplus_mod_idemp_l, Ht. f_equal. lia.
  - lia.
  - intros k x Hk. specialize (Hs (S k) x Hk). rewrite Zplus_mod_idemp_l, <-Z.add_assoc.
    by replace (1 + Z.of_nat k) with (Z.of_nat (S k)) by lia.
Qed.

(** The loops that take the messages of a queue one by one. *)
Lemma wp_while_pop (f : harbor_msg → M unit) (Inv : list harbor_msg → state → Prop) q l Q st :
  queue_rep q l → Inv l st →
  (∀ m l' st', (∃ pre, l = pre ++ m :: l') → Inv (m :: l') st' → wp (f m) (λ _ st'', Inv l' st'') st') →
  (∀ q' st', queue_rep q' [] → Inv [] st' → Q q' st') → wp (while_pop f q) Q st.
Proof.
  intros Hq Hi Hf HQ. unfold while_pop.
  assert (Hlen : (length l < S (Z.to_nat (q_size q)))%nat).
  { pose proof (qr_len _ _ Hq). unfold zlen in *. lia. }
  remember (S (Z.to_nat (q_size q))) as fuel eqn:E. clear E. revert q l st Hq Hi Hf HQ Hlen.
  induction fuel as [|fuel IH]; intros q l st Hq Hi Hf HQ Hlen; [lia|]. cbn [loopM]. apply wp_bind.
  destruct l as [|m l].
  - apply wp_bind. eapply wp_lift; [by apply pop_rep_nil|]. apply wp_ret, wp_ret. by apply HQ.
  - destruct (pop_rep_cons _ _ _ Hq) as (q' & Hp & Hq'). apply wp_bind. eapply wp_lift; [exact Hp|].
    apply wp_bind. eapply wp_mono; [apply (Hf m l); [by exists []|done]|]. intros ? st' Hi'. apply wp_ret.
    apply (IH q' l st'); [done|done| |done|cbn in Hlen; lia].
    intros m' l' st2 [pre ->]. apply Hf. by exists (m :: pre).
Qed.
