(* ===== verification/HarborOk.v ===== *)
(** * The invariant of the harbor

    Every block of memory has one owner: a queue of a node or of a name, the buffer
    that a message is received into, or whoever holds it ([held]). *)
From S2P Require Import Prelude StateM Memory HarborService HarborQueue.

Local Open Scope Z_scope.

(** ** Owned memory *)

(** The blocks that something needs, with their sizes. *)
Definition msg_needs (m : harbor_msg) : list (addr * Z) :=
  match hm_buffer m with Some p => [(p, hm_size m)] | None => [] end.
Definition queue_needs (q : option harbor_msg_queue) : list (addr * Z) :=
  match q with Some q => concat (msg_needs <$> messages q) | None => [] end.
Definition slave_needs (s : slave) : list (addr * Z) :=
  queue_needs (sl_queue s) ++ match sl_recv_buffer s with Some p => [(p, sl_length s)] | None => [] end.
Definition chain_needs (l : list keyvalue) : list (addr * Z) := concat ((λ n, queue_needs (k_queue n)) <$> l).
Definition needs (h : harbor) : list (addr * Z) :=
  concat (slave_needs <$> h_s h) ++ concat (chain_needs <$> h_map h).

Definition has_block (m : gmap addr (list Z)) (b : addr * Z) : Prop :=
  ∃ bs, m !! b.1 = Some bs ∧ b.2 ≤ zlen bs ∧ bytes bs.

Definition is_word (x : Z) : Prop := 0 ≤ x < 2 ^ 32.

Definition msg_ok (m : harbor_msg) : Prop :=
  is_word (hd_source (hm_header m)) ∧ is_word (hd_destination (hm_header m)) ∧
  is_word (hd_session (hm_header m)) ∧ 0 ≤ hm_size m ∧ (hm_buffer m = None → hm_size m = 0).

Definition queue_ok (q : option harbor_msg_queue) : Prop :=
  match q with Some q => ∃ l, queue_rep q l ∧ Forall msg_ok l | None => True end.

(** The length of a package, from the four bytes in front of it. *)
Definition be_len (sz : list Z) : Z :=
  Z.lor (Z.lor (Z.shiftl (nth 1 sz 0) 16) (Z.shiftl (nth 2 sz 0) 8)) (nth 3 sz 0).

(** What a slave looks like in each state. *)
Definition status_ok (s : slave) : Prop :=
  if sl_status s =? STATUS_CONTENT then
    sl_fd s ≠ 0 ∧ sl_queue s = None ∧ is_Some (sl_recv_buffer s) ∧
    0 ≤ sl_read s < Z.max 1 (sl_length s) ∧
    nth 0 (sl_size s) 0 = 0 ∧ sl_length s = be_len (sl_size s)
  else
    sl_recv_buffer s = None ∧ 0 ≤ sl_read s < 4 ∧
    (sl_status s = STATUS_HEADER ∧ sl_fd s ≠ 0 ∧ sl_queue s = None ∨
     sl_status s = STATUS_HANDSHAKE ∧ sl_fd s ≠ 0 ∨
     sl_status s = STATUS_WAIT ∧ sl_fd s = 0 ∨
     sl_status s = STATUS_DOWN ∧ sl_fd s = 0 ∧ sl_queue s = None).

Record slave_ok (s : slave) : Prop := {
  so_queue : queue_ok (sl_queue s);
  so_size : zlen (sl_size s) = 4 ∧ bytes (sl_size s);
  so_status : status_ok s
}.

Record node_ok (b : nat) (n : keyvalue) : Prop := {
  no_key : length (k_key n) = 16%nat;
  no_hash : k_hash n = name_hash (k_key n);
  no_bucket : Z.of_nat b = k_hash n mod HASH_SIZE;
  no_value : is_word (k_value n);
  no_queue : queue_ok (k_queue n)
}.

Record wf (h : harbor) : Prop := {
  wf_map : length (h_map h) = Z.to_nat HASH_SIZE;
  wf_s : length (h_s h) = Z.to_nat REMOTE_MAX;
  wf_id : 0 ≤ h_id h < 256;
  wf_slave : is_word (h_slave h);
  wf_slaves : Forall slave_ok (h_s h);
  wf_nodes b l n : h_map h !! b = Some l → n ∈ l → node_ok b n
}.

Record hok (held : list addr) (h : harbor) (m : gmap addr (list Z)) : Prop := {
  hk_own : held ++ (needs h).*1 ≡ₚ (map_to_list m).*1;
  hk_room : Forall (has_block m) (needs h);
  hk_wf : wf h
}.

Lemma hok_perm held held' h m : held ≡ₚ held' → hok held h m → hok held' h m.
Proof. intros Hp [H1 H2 H3]. split; [by rewrite <-Hp|done|done]. Qed.

Lemma hok_nodup held h m : hok held h m → NoDup (held ++ (needs h).*1).
Proof. intros [H _ _]. rewrite H. apply NoDup_fst_map_to_list. Qed.

Lemma hok_dom held h m p : hok held h m → is_Some (m !! p) ↔ p ∈ held ++ (needs h).*1.
Proof.
  intros [-> _ _]. rewrite list_elem_of_fmap. split.
  - intros [bs Hp]. exists (p, bs). split; [done|]. by apply elem_of_map_to_list.
  - intros ([q bs] & -> & Hq). exists bs. by apply elem_of_map_to_list.
Qed.

Lemma hok_held p held h m : hok (p :: held) h m → is_Some (m !! p) ∧ p ∉ held ∧ p ∉ (needs h).*1.
Proof.
  intros Hk. split.
  - apply (hok_dom _ _ _ p Hk). set_solver.
  - pose proof (hok_nodup _ _ _ Hk) as Hn. cbn in Hn. apply NoDup_cons in Hn as [Hn _]. set_solver.
Qed.

Lemma room_same m m' (l : list (addr * Z)) :
  Forall (has_block m) l → (∀ p, p ∈ l.*1 → m' !! p = m !! p) → Forall (has_block m') l.
Proof.
  rewrite !Forall_forall. intros H Hs b Hb. destruct (H b Hb) as (bs & Hp & Hr). exists bs.
  split; [|done]. rewrite Hs; [done|]. apply list_elem_of_fmap. by exists b.
Qed.

Lemma hok_free p held h m : hok (p :: held) h m → hok held h (delete p m).
Proof.
  intros Hk. pose proof (hok_held _ _ _ _ Hk) as ([bs Hp] & _ & Hn). destruct Hk as [H1 H2 H3].
  split; [| |done].
  - rewrite <-(map_to_list_delete _ _ _ Hp) in H1. cbn in H1. by apply Permutation.Permutation_cons_inv in H1.
  - eapply room_same; [done|]. intros q Hq. rewrite lookup_delete_ne; [done|]. set_solver.
Qed.

Lemma hok_malloc p bs held h m : m !! p = None → hok held h m → hok (p :: held) h (<[p := bs]> m).
Proof.
  intros Hp Hk. split; [| |apply Hk].
  - rewrite map_to_list_insert by done. cbn. by rewrite <-(hk_own _ _ _ Hk).
  - eapply room_same; [apply Hk|]. intros q Hq. rewrite lookup_insert_ne; [done|]. intros ->.
    assert (is_Some (m !! q)) as [? ?]; [|congruence]. apply (hok_dom _ _ _ q Hk). set_solver.
Qed.

(** Writing into a block that stays as large. *)
Lemma hok_write p old new held h m :
  m !! p = Some old → zlen new = zlen old → bytes new → hok held h m → hok held h (<[p := new]> m).
Proof.
  intros Hp Hl Hb [H1 H2 H3]. split; [| |done].
  - rewrite H1. rewrite <-(insert_delete_eq m p new), map_to_list_insert by apply lookup_delete_eq.
    rewrite <-(map_to_list_delete _ _ _ Hp). done.
  - eapply Forall_impl; [exact H2|]. intros [q n] (bs & Hq & Hn & Hbs). cbn in *.
    destruct (decide (q = p)) as [->|Hne].
    + exists new. rewrite lookup_insert_eq. split; [done|]. rewrite Hp in Hq. injection Hq as ->. cbn. split; [lia|done].
    + exists bs. by rewrite lookup_insert_ne.
Qed.

(** ** Changing one slave or one name *)

Lemma concat_insert {A B} (f : A → list B) l i x y :
  l !! i = Some x → concat (f <$> <[i := y]> l) ++ f x ≡ₚ concat (f <$> l) ++ f y.
Proof.
  revert i. induction l as [|z l IH]; intros [|i] Hi; try done; cbn in *.
  - injection Hi as ->. solve_Permutation.
  - specialize (IH i Hi). rewrite <-!app_assoc, IH. done.
Qed.

Section change.
Context (held held' : list addr) (h : harbor) (m : gmap addr (list Z)).

(** The rest of the needs when one part is taken out. *)
Lemma needs_slave i s s' : h_s h !! i = Some s →
  needs (with_s (<[i := s']> (h_s h)) h) ++ slave_needs s ≡ₚ needs h ++ slave_needs s'.
Proof.
  intros Hs. unfold needs. cbn. rewrite <-!app_assoc, (Permutation.Permutation_app_comm (concat (chain_needs <$> h_map h)) (slave_needs s)), (Permutation.Permutation_app_comm _ (slave_needs s')), !app_assoc.
  by rewrite (concat_insert slave_needs _ _ _ s' Hs).
Qed.

Definition with_node (p : node_at) (n : keyvalue) : harbor :=
  with_map (alter (λ l, <[p.2 := n]> l) (Z.to_nat p.1) (h_map h)) h.

Lemma needs_node p l n n' : h_map h !! Z.to_nat p.1 = Some l → l !! p.2 = Some n →
  needs (with_node p n') ++ queue_needs (k_queue n) ≡ₚ needs h ++ queue_needs (k_queue n').
Proof.
  intros Hl Hn. unfold needs, with_node. cbn. rewrite <-!app_assoc. f_equiv.
  assert (E : alter (λ l, <[p.2 := n']> l) (Z.to_nat p.1) (h_map h) =
    <[Z.to_nat p.1 := <[p.2 := n']> l]> (h_map h)).
  { apply list_eq. intros i. destruct (decide (i = Z.to_nat p.1)) as [->|Hne].
    - rewrite list_lookup_alter_eq, list_lookup_insert_eq, Hl by (by eapply lookup_lt_Some). done.
    - by rewrite list_lookup_alter_ne, list_lookup_insert_ne. }
  rewrite E. pose proof (concat_insert chain_needs _ _ _ (<[p.2 := n']> l) Hl) as H1.
  pose proof (concat_insert (λ n, queue_needs (k_queue n)) l _ _ n' Hn) as H2.
  fold (chain_needs l) in H2. fold (chain_needs (<[p.2 := n']> l)) in H2.
  apply (Permutation.Permutation_app_inv_r (chain_needs l)).
  rewrite <-app_assoc, (Permutation.Permutation_app_comm (queue_needs (k_queue n))), app_assoc, H1.
  rewrite <-!app_assoc. f_equiv. rewrite H2. apply Permutation.Permutation_app_comm.
Qed.

(** Blocks go from the holders to what is new, and back. *)
Lemma hok_needs h' old new :
  hok held h m → wf h' → needs h' ++ old ≡ₚ needs h ++ new →
  held' ++ new.*1 ≡ₚ held ++ old.*1 → Forall (has_block m) new → hok held' h' m.
Proof.
  intros [H1 H2 H3] Hw Hn Hh Hb. split; [| |done].
  - rewrite <-H1. assert (Hn' : (needs h' ++ old).*1 ≡ₚ (needs h ++ new).*1) by (by rewrite Hn).
    rewrite !fmap_app in Hn'. rename Hn into Hn0. rename Hn' into Hn.
    apply (Permutation.Permutation_app_inv_r old.*1). rewrite <-!app_assoc, Hn.
    rewrite (Permutation.Permutation_app_comm (needs h).*1 old.*1), !app_assoc, <-Hh.
    rewrite <-!app_assoc. f_equiv. apply Permutation.Permutation_app_comm.
  - assert (Hall : Forall (has_block m) (needs h' ++ old)).
    { rewrite Hn. apply Forall_app. by split. }
    by apply Forall_app in Hall as [? _].
Qed.

Lemma wf_slave_upd i s' : wf h → slave_ok s' → wf (with_s (<[i := s']> (h_s h)) h).
Proof.
  intros [] Hs. split; cbn; try done.
  - by rewrite length_insert.
  - apply Forall_insert; done.
Qed.

Lemma wf_node_upd p l n n' : wf h → h_map h !! Z.to_nat p.1 = Some l → l !! p.2 = Some n →
  node_ok (Z.to_nat p.1) n' → wf (with_node p n').
Proof.
  intros [H1 H2 H3 H4 H5 H6] Hl Hn Hok. split; cbn; try done.
  - by rewrite length_alter.
  - intros b l' x Hb Hx. destruct (decide (b = Z.to_nat p.1)) as [->|Hne].
    + rewrite list_lookup_alter_eq, Hl in Hb. injection Hb as <-.
      apply list_elem_of_lookup in Hx as [k Hk]. destruct (decide (k = p.2)) as [->|Hk'].
      * rewrite list_lookup_insert_eq in Hk by (by eapply lookup_lt_Some). injection Hk as <-. done.
      * rewrite list_lookup_insert_ne in Hk by done. eapply H6; [exact Hl|]. by eapply list_elem_of_lookup_2.
    + rewrite list_lookup_alter_ne in Hb by done. by eapply H6.
Qed.

Lemma hok_slave i s s' :
  hok held h m → h_s h !! i = Some s → slave_ok s' →
  held' ++ (slave_needs s').*1 ≡ₚ held ++ (slave_needs s).*1 → Forall (has_block m) (slave_needs s') →
  hok held' (with_s (<[i := s']> (h_s h)) h) m.
Proof.
  intros Hk Hs Hok Hn Hb. eapply hok_needs; [exact Hk| |by apply needs_slave|done|done].
  apply wf_slave_upd; [apply Hk|done].
Qed.

Lemma hok_node p l n n' :
  hok held h m → h_map h !! Z.to_nat p.1 = Some l → l !! p.2 = Some n → node_ok (Z.to_nat p.1) n' →
  held' ++ (queue_needs (k_queue n')).*1 ≡ₚ held ++ (queue_needs (k_queue n)).*1 →
  Forall (has_block m) (queue_needs (k_queue n')) → hok held' (with_node p n') m.
Proof.
  intros Hk Hl Hn Hok Hp Hb. eapply hok_needs; [exact Hk| |by eapply needs_node|done|done].
  eapply wf_node_upd; [apply Hk|done..].
Qed.
End change.

(** ** The operations on the state *)

Definition put_slave (i : Z) (s : slave) (st : state) : state :=
  put_h (with_s (<[Z.to_nat i := s]> (h_s (st_h st))) (st_h st)) st.
Definition put_node (p : node_at) (n : keyvalue) (st : state) : state :=
  put_h (with_node (st_h st) p n) st.
Definition slave_at (i : Z) (st : state) (s : slave) : Prop :=
  0 ≤ i ∧ h_s (st_h st) !! Z.to_nat i = Some s.
Definition node_is (p : node_at) (st : state) (n : keyvalue) : Prop :=
  0 ≤ p.1 ∧ ∃ l, h_map (st_h st) !! Z.to_nat p.1 = Some l ∧ l !! p.2 = Some n.

Lemma alter_insert {A} (f : A → A) (i : nat) (l : list A) x : l !! i = Some x → alter f i l = <[i := f x]> l.
Proof.
  intros Hx. apply list_eq. intros j. destruct (decide (j = i)) as [->|Hne].
  - rewrite list_lookup_alter_eq, Hx, list_lookup_insert_eq by (by eapply lookup_lt_Some). done.
  - by rewrite list_lookup_alter_ne, list_lookup_insert_ne.
Qed.

Lemma wp_get_slave i s Q st : slave_at i st s → Q s st → wp (get_slave i) Q st.
Proof.
  intros [Hi Hs] HQ. unfold get_slave. apply wp_bind, wp_gets. eapply wp_lift; [|exact HQ]. by apply aget_Ret.
Qed.

Lemma wp_mod_slave i f s (Q : unit → state → Prop) st :
  slave_at i st s → Q tt (put_slave i (f s) st) → wp (mod_slave i f) Q st.
Proof.
  intros [Hi Hs] HQ. unfold mod_slave. apply wp_modify. by rewrite (alter_insert _ _ _ _ Hs).
Qed.

Lemma wp_get_node p n Q st : node_is p st n → Q n st → wp (get_node p) Q st.
Proof.
  intros [Hp (l & Hl & Hn)] HQ. unfold get_node. apply wp_bind, wp_gets, wp_bind.
  eapply wp_lift; [by apply aget_Ret|]. rewrite Hn. by apply wp_ret.
Qed.

Lemma wp_mod_node p f n (Q : unit → state → Prop) st :
  node_is p st n → Q tt (put_node p (f n) st) → wp (mod_node p f) Q st.
Proof.
  intros [Hp (l & Hl & Hn)] HQ. unfold mod_node. apply wp_modify.
  rewrite (alter_insert _ _ _ _ Hl), (alter_insert _ _ _ _ Hn). unfold put_node, with_node in HQ.
  by rewrite (alter_insert _ _ _ _ Hl) in HQ.
Qed.

Lemma slave_at_put i s s' st : slave_at i st s → slave_at i (put_slave i s' st) s'.
Proof.
  intros [Hi Hs]. split; [done|]. cbn. apply list_lookup_insert_eq. by eapply lookup_lt_Some.
Qed.

Lemma put_slave_put i s s' st : put_slave i s' (put_slave i s st) = put_slave i s' st.
Proof. unfold put_slave, put_h, with_s. cbn. by rewrite list_insert_insert_eq. Qed.

Lemma put_slave_id i s st : slave_at i st s → put_slave i s st = st.
Proof.
  intros [_ Hs]. unfold put_slave, put_h, with_s. rewrite list_insert_id by done. by destruct st as [[] ? ?].
Qed.

Lemma node_is_put p n n' st : node_is p st n → node_is p (put_node p n' st) n'.
Proof.
  intros [Hp (l & Hl & Hn)]. split; [done|]. exists (<[p.2 := n']> l). cbn.
  rewrite list_lookup_alter_eq, Hl. split; [done|]. apply list_lookup_insert_eq. by eapply lookup_lt_Some.
Qed.

(** What the caller sees of a buffer. *)
Definition buf_data (m : gmap addr (list Z)) (data : option addr) (sz : Z) : list Z :=
  match data with Some p => take (Z.to_nat sz) (default [] (m !! p)) | None => [] end.
Definition msg_data (m : gmap addr (list Z)) (x : harbor_msg) : list Z := buf_data m (hm_buffer x) (hm_size x).

Definition buf_needs (data : option addr) (sz : Z) : list (addr * Z) :=
  match data with Some p => [(p, sz)] | None => [] end.
Definition free_buf (data : option addr) (m : gmap addr (list Z)) : gmap addr (list Z) :=
  match data with Some p => delete p m | None => m end.

Lemma wp_read_buffer data sz (Q : list Z → state → Prop) st :
  0 ≤ sz → Forall (has_block (st_heap st)) (buf_needs data sz) →
  Q (buf_data (st_heap st) data sz) st → wp (read_buffer data sz) Q st.
Proof.
  intros Hsz Hb HQ. destruct data as [p|]; [|by apply wp_ret]. apply Forall_singleton in Hb as (bs & Hp & Hle & _).
  cbn in *. eapply wp_hread; [exact Hp|lia|lia|lia|]. rewrite drop_0. by rewrite Hp in HQ.
Qed.

Lemma wp_free_message data sz (Q : unit → state → Prop) st :
  Forall (has_block (st_heap st)) (buf_needs data sz) → Q tt (put_mem (free_buf data (st_heap st)) st) →
  wp (free_buffer data) Q st.
Proof.
  intros Hb HQ. destruct data as [p|]; [|apply wp_ret; by destruct st].
  apply Forall_singleton in Hb as (bs & Hp & _). apply wp_hfree; [by exists bs|done].
Qed.

Lemma hok_free_buf data sz held h m :
  hok ((buf_needs data sz).*1 ++ held) h m → hok held h (free_buf data m).
Proof. destruct data; [apply hok_free|done]. Qed.

Section server.
Context (reply : list call → Z).

Lemma wp_post c (Q : Z → state → Prop) st :
  Q (reply (st_calls st ++ [c])) (put_calls (st_calls st ++ [c]) st) → wp (post reply c) Q st.
Proof. intros HQ. by apply wp_bind, wp_modify, wp_gets. Qed.

Lemma wp_post_ret c (Q : unit → state → Prop) st :
  Q tt (put_calls (st_calls st ++ [c]) st) → wp (post reply c;; mret tt) Q st.
Proof. intros HQ. apply wp_bind, wp_post. by apply wp_ret. Qed.

(** What [send_remote] hands to the socket: nothing when it is too large. *)
Definition remote_call (fd : Z) (bs : list Z) (sz : Z) (cookie : remote_message_header) : list call :=
  if UINT32_MAX <? u64 (sz + HEADER_COOKIE_LENGTH) then [] else [CWrite fd (package bs cookie)].

Lemma wp_send_remote fd data sz cookie (Q : unit → state → Prop) st :
  0 ≤ sz → Forall (has_block (st_heap st)) (buf_needs data sz) →
  Q tt (put_calls (st_calls st ++ remote_call fd (buf_data (st_heap st) data sz) sz cookie) st) →
  wp (send_remote reply fd data sz cookie) Q st.
Proof.
  intros Hsz Hb HQ. unfold send_remote, remote_call in *. wp_case E.
  - apply wp_ret. rewrite app_nil_r in HQ. by destruct st.
  - apply wp_bind. eapply wp_read_buffer; [done|done|]. by apply wp_post_ret.
Qed.

(** [fengnet_send] that takes the memory. *)
Lemma wp_send_away source destination type session data sz (Q : Z → state → Prop) st :
  0 ≤ sz → Forall (has_block (st_heap st)) (buf_needs data sz) →
  (let c := CSend source destination (Z.lor type PTYPE_TAG_DONTCOPY) session
              ((λ _, buf_data (st_heap st) data sz) <$> data) in
   Q (reply (st_calls st ++ [c])) (put_mem (free_buf data (st_heap st)) (put_calls (st_calls st ++ [c]) st))) →
  wp (fengnet_send reply source destination (Z.lor type PTYPE_TAG_DONTCOPY) session data sz) Q st.
Proof.
  intros Hsz Hb HQ. unfold fengnet_send. apply wp_bind. eapply wp_read_buffer; [done|done|].
  apply wp_bind, wp_post, wp_bind.
  assert (E : (Z.land (Z.lor type PTYPE_TAG_DONTCOPY) PTYPE_TAG_DONTCOPY =? 0) = false).
  { apply Z.eqb_neq. rewrite Z.land_lor_distr_l, Z.land_diag. intros E.
    apply Z.lor_eq_0_iff in E as [_ E]. done. }
  rewrite E. eapply wp_free_message; [exact Hb|]. by apply wp_ret.
Qed.
End server.

(** ** Emptying a queue *)

Definition list_needs (l : list harbor_msg) : list (addr * Z) := concat (msg_needs <$> l).

Lemma rep_needs q l : queue_rep q l → queue_needs (Some q) = list_needs l.
Proof. intros H. unfold queue_needs. by rewrite (rep_messages _ _ H). Qed.

(** The state after a loop that makes the calls [out] for every message and gives
    its memory away. *)
Record drained (l : list harbor_msg) (out : list Z → harbor_msg → list call) (st st' : state) : Prop := {
  dr_h : st_h st' = st_h st;
  dr_calls : st_calls st' = st_calls st ++ concat ((λ m, out (msg_data (st_heap st) m) m) <$> l);
  dr_heap p : p ∉ (list_needs l).*1 → st_heap st' !! p = st_heap st !! p
}.

Lemma buf_data_same m m' data sz :
  (∀ p, p ∈ (buf_needs data sz).*1 → m' !! p = m !! p) → buf_data m' data sz = buf_data m data sz.
Proof. destruct data as [p|]; [|done]. cbn. intros H. rewrite H; [done|set_solver]. Qed.

Lemma wp_drain (f : harbor_msg → M unit) out q l held h Q st :
  queue_rep q l → Forall msg_ok l → Forall (has_block (st_heap st)) (list_needs l) →
  hok ((list_needs l).*1 ++ held) h (st_heap st) →
  (∀ m st' Q', msg_ok m → Forall (has_block (st_heap st')) (msg_needs m) →
     (∀ u, Q' u (put_mem (free_buf (hm_buffer m) (st_heap st'))
        (put_calls (st_calls st' ++ out (msg_data (st_heap st') m) m) st'))) → wp (f m) Q' st') →
  (∀ q' st', queue_rep q' [] → drained l out st st' → hok held h (st_heap st') → Q q' st') →
  wp (while_pop f q) Q st.
Proof.
  intros Hq Hl Hb Hk Hf HQ.
  eapply (wp_while_pop f (λ r st', ∃ pre, l = pre ++ r ∧ hok ((list_needs r).*1 ++ held) h (st_heap st') ∧
    drained pre out st st' ∧ ∀ p, p ∈ (list_needs r).*1 → st_heap st' !! p = st_heap st !! p));
    [exact Hq| | |].
  - exists []. split; [done|]. split; [done|]. split; [|done]. split; [done| |done].
    cbn. by rewrite app_nil_r.
  - intros m r st' _ (pre & El & Hk' & [D1 D2 D3] & Hsame).
    assert (Hbr : Forall (has_block (st_heap st')) (list_needs (m :: r))).
    { eapply room_same; [|exact Hsame]. rewrite El in Hb. unfold list_needs in Hb.
      rewrite fmap_app, concat_app, Forall_app in Hb. apply Hb. }
    unfold list_needs in Hbr. cbn [fmap list_fmap concat] in Hbr. apply Forall_app in Hbr as [Hbm _].
    assert (Hm : msg_ok m). { rewrite El, Forall_app in Hl. destruct Hl as [_ Hl]. by inversion Hl. }
    apply (Hf m st'); [exact Hm|exact Hbm|]. intros _. cbn [st_h st_heap put_mem put_calls].
    unfold list_needs in Hk'. cbn [fmap list_fmap concat] in Hk'. rewrite fmap_app, <-app_assoc in Hk'.
    pose proof (hok_nodup _ _ _ Hk') as Hnd. rewrite <-!app_assoc in Hnd.
    change (msg_needs m) with (buf_needs (hm_buffer m) (hm_size m)) in Hk', Hnd, Hbm.
    assert (Hfree : ∀ p, p ∉ (buf_needs (hm_buffer m) (hm_size m)).*1 →
      free_buf (hm_buffer m) (st_heap st') !! p = st_heap st' !! p).
    { intros p Hp. destruct (hm_buffer m); [|done]. cbn in *. rewrite lookup_delete_ne; [done|set_solver]. }
    assert (Hdata : msg_data (st_heap st') m = msg_data (st_heap st) m).
    { apply buf_data_same. intros p Hp. apply Hsame. unfold list_needs. cbn [fmap list_fmap concat].
      rewrite fmap_app. apply elem_of_app. by left. }
    exists (pre ++ [m]). split; [by rewrite <-app_assoc|]. split; [by eapply hok_free_buf|]. split.
    + split; cbn.
      * done.
      * rewrite D2, Hdata, fmap_app, concat_app, <-app_assoc. cbn. by rewrite app_nil_r.
      * intros p Hp. unfold list_needs in Hp. rewrite fmap_app, concat_app, fmap_app, not_elem_of_app in Hp.
        destruct Hp as [Hp1 Hp2]. cbn in Hp2. rewrite app_nil_r in Hp2.
        rewrite Hfree; [|exact Hp2]. by apply D3.
    + intros p Hp. rewrite Hfree.
      * apply Hsame. unfold list_needs. cbn [fmap list_fmap concat]. rewrite fmap_app. apply elem_of_app. by right.
      * intros Hp'. apply NoDup_app in Hnd as (_ & Hnd & _). apply (Hnd p Hp'), elem_of_app. by left.
  - intros q' st' Hq' (pre & El & Hk' & Hd & _). rewrite app_nil_r in El. subst pre. by apply HQ.
Qed.

Lemma wp_release_queue q held h (Q : unit → state → Prop) st :
  queue_ok q → Forall (has_block (st_heap st)) (queue_needs q) →
  hok ((queue_needs q).*1 ++ held) h (st_heap st) →
  (∀ st', st_h st' = st_h st → st_calls st' = st_calls st →
     (∀ p, p ∉ (queue_needs q).*1 → st_heap st' !! p = st_heap st !! p) →
     hok held h (st_heap st') → Q tt st') →
  wp (release_queue q) Q st.
Proof.
  intros Hq Hb Hk HQ. destruct q as [q|]; [|by apply wp_ret, HQ]. destruct Hq as (l & Hq & Hl).
  rewrite (rep_needs _ _ Hq) in *. unfold release_queue. apply wp_bind.
  eapply (wp_drain _ (λ _ _, [])); [exact Hq|exact Hl|exact Hb|exact Hk| |].
  - intros m st' Q' Hm Hbm HQ'. eapply wp_free_message; [exact Hbm|]. specialize (HQ' tt).
    rewrite app_nil_r in HQ'. by destruct st'.
  - intros q' st' _ [D1 D2 D3] Hk'. apply wp_ret, HQ; [done| |done|done].
    rewrite D2. assert (E : ∀ (x : list harbor_msg), concat ((λ _, []) <$> x) = @nil call)
      by (induction x; done). by rewrite E, app_nil_r.
Qed.
