(* ===== verification/HarborRecv.v ===== *)
(** * What the harbor receives

    The bytes of a connection, cut into data messages in any way, are the packages
    that [cut] finds in them: [push_socket_data] forwards each of them once, in
    order, and keeps the incomplete rest. *)
From S2P Require Import Prelude StateM Memory Handle HarborService HarborQueue HarborOk.

Local Open Scope Z_scope.

(** ** The reference *)

(** What the first bytes of a stream are: not yet a package, one with its rest, one
    that is too long, or a whole one that is too short for the header at its end. (An empty
    package is only looked at when more bytes arrive.) *)
Inductive first_part :=
| More
| Package (p rest : list Z)
| TooLong
| TooShort.

Definition first (s : list Z) : first_part :=
  match s with
  | b0 :: b1 :: b2 :: b3 :: r =>
      let len := be_len [b0; b1; b2; b3] in
      if negb (b0 =? 0) then TooLong
      else if zlen r <? len then More
      else if len <? HEADER_COOKIE_LENGTH then if zlen r =? 0 then More else TooShort
      else Package (take (Z.to_nat len) r) (drop (Z.to_nat len) r)
  | _ => More
  end.

Inductive ending := Rest (s : list Z) | Closed | Short.

Fixpoint cut_n (n : nat) (s : list Z) : list (list Z) * ending :=
  match n with
  | O => ([], Rest s)
  | S n' =>
      match first s with
      | More => ([], Rest s)
      | Package p r => let '(ps, e) := cut_n n' r in (p :: ps, e)
      | TooLong => ([], Closed)
      | TooShort => ([], Short)
      end
  end.

(** The packages of a stream, and how it ends. *)
Definition cut (s : list Z) : list (list Z) * ending := cut_n (S (length s)) s.

Lemma first_package s p r : first s = Package p r → (length r < length s)%nat.
Proof.
  unfold first. destruct s as [|b0 [|b1 [|b2 [|b3 s]]]]; try done.
  repeat case_match; try done.
  intros [= <- <-]. rewrite length_drop. cbn. lia.
Qed.

Lemma cut_enough n m s : (length s < n)%nat → (length s < m)%nat → cut_n n s = cut_n m s.
Proof.
  revert m s. induction n as [|n IH]; intros [|m] s Hn Hm; try lia. cbn [cut_n].
  destruct (first s) as [|p r| |] eqn:E; try done. apply first_package in E.
  by rewrite (IH m r) by lia.
Qed.

Lemma cut_eq s : cut s =
  match first s with
  | More => ([], Rest s)
  | Package p r => let '(ps, e) := cut r in (p :: ps, e)
  | TooLong => ([], Closed)
  | TooShort => ([], Short)
  end.
Proof.
  unfold cut at 1. cbn [cut_n]. destruct (first s) as [|p r| |] eqn:E; try done.
  apply first_package in E. unfold cut. by rewrite (cut_enough (length s) (S (length r)) r) by lia.
Qed.

(** The bytes of a connection that have arrived and are not forwarded yet. *)
Definition unread (s : slave) (m : gmap addr (list Z)) : list Z :=
  if sl_status s =? STATUS_CONTENT then
    sl_size s ++ match sl_recv_buffer s with
                 | Some p => take (Z.to_nat (sl_read s)) (default [] (m !! p))
                 | None => []
                 end
  else take (Z.to_nat (sl_read s)) (sl_size s).

(** A connection whose handshake is done. *)
Definition is_open (s : slave) : Prop := sl_status s = STATUS_HEADER ∨ sl_status s = STATUS_CONTENT.

(** ** Memory beside that of one slave *)

Definition others (held : list addr) (i : Z) (h : harbor) : list addr :=
  held ++ (needs (with_s (<[Z.to_nat i := zero_slave]> (h_s h)) h)).*1.

Lemma others_put held i s st : others held i (st_h (put_slave i s st)) = others held i (st_h st).
Proof. unfold others. cbn. unfold with_s. cbn. by rewrite list_insert_insert_eq. Qed.

Lemma hok_split held i s st : slave_at i st s → hok held (st_h st) (st_heap st) →
  (slave_needs s).*1 ++ others held i (st_h st) ≡ₚ (map_to_list (st_heap st)).*1.
Proof.
  intros [_ Hs] Hk. rewrite <-(hk_own _ _ _ Hk). unfold others.
  pose proof (needs_slave (st_h st) _ _ zero_slave Hs) as Hn. change (slave_needs zero_slave) with (@nil (addr * Z)) in Hn.
  rewrite app_nil_r in Hn.
  rewrite <-Hn, fmap_app. solve_Permutation.
Qed.

Lemma others_not held i s st p : slave_at i st s → hok held (st_h st) (st_heap st) →
  p ∈ others held i (st_h st) → p ∉ (slave_needs s).*1 ∧ is_Some (st_heap st !! p).
Proof.
  intros Hs Hk Hp. pose proof (hok_split _ _ _ _ Hs Hk) as Hsp. split.
  - intros Hp'. assert (Hnd : NoDup ((slave_needs s).*1 ++ others held i (st_h st))).
    { rewrite Hsp. apply NoDup_fst_map_to_list. }
    apply NoDup_app in Hnd as (_ & Hnd & _). by apply (Hnd p).
  - assert (Hin : p ∈ (map_to_list (st_heap st)).*1) by (rewrite <-Hsp, elem_of_app; by right).
    apply list_elem_of_fmap in Hin as ([q bs] & -> & Hq). exists bs. by apply elem_of_map_to_list.
Qed.

Section receive.
Context (reply : list call → Z) (held : list addr).

(** The calls for a package that has arrived. *)
Definition deliver (id : Z) (calls : list call) (p : list Z) : list call :=
  let header := message_to_header (drop (length p - 12) p) in
  let type := Z.shiftr (hd_destination header) HANDLE_REMOTE_SHIFT in
  let destination := own_handle id (hd_destination header) in
  let calls := calls ++ [CSend (hd_source header) destination (Z.lor type PTYPE_TAG_DONTCOPY)
    (i32 (hd_session header)) (Some (take (length p - 12) p))] in
  if (reply calls <? 0) && negb (type =? PTYPE_ERROR) then
    calls ++ [CSend destination (hd_source header) PTYPE_ERROR (i32 (hd_session header)) None]
  else calls.

Lemma wp_forward recv blk sz (Q : unit → state → Prop) st :
  st_heap st !! recv = Some blk → 12 ≤ sz ≤ zlen blk → bytes blk →
  Q tt (put_mem (delete recv (st_heap st))
    (put_calls (deliver (h_id (st_h st)) (st_calls st) (take (Z.to_nat sz) blk)) st)) →
  wp (forward_local_messsage reply recv sz) Q st.
Proof.
  intros Hp Hlen Hb HQ. unfold forward_local_messsage. unfold HEADER_COOKIE_LENGTH.
  apply wp_bind. eapply wp_hread; [exact Hp|lia|lia|lia|].
  set (p := take (Z.to_nat sz) blk) in *.
  assert (Hl : length p = Z.to_nat sz) by (unfold p, zlen in *; rewrite length_take; lia).
  assert (E : take (Z.to_nat 12) (drop (Z.to_nat (sz - 12)) blk) = drop (length p - 12) p).
  { rewrite Hl. unfold p. rewrite skipn_firstn_comm. f_equal; [lia|f_equal; lia]. }
  rewrite E. apply wp_bind, wp_gets, wp_bind.
  assert (E2 : take (Z.to_nat (sz - 12)) blk = take (length p - 12) p).
  { rewrite Hl. unfold p. rewrite take_take. f_equal. lia. }
  eapply wp_send_away; [lia| |].
  { apply Forall_singleton. exists blk. cbn. split; [done|]. split; [lia|done]. }
  cbn [buf_data fmap option_fmap option_map free_buf]. rewrite Hp. cbn [default id]. rewrite E2.
  unfold deliver in HQ. cbv zeta in HQ. cbv zeta beta. wp_case Hc.
  - by apply wp_post_ret.
  - by apply wp_ret.
Qed.

(** ** The body of a package *)

(** The slave when a package has been forwarded. *)
Definition emptied (s : slave) : slave :=
  set_status STATUS_HEADER (set_recv None (set_read 0 (set_length 0 s))).

(** The state of the connection after some of its bytes, and what has stayed. *)
Record received (i : Z) (s s' : slave) (unread' : list Z) (calls : list call) (st st' : state) : Prop := {
  rc_slave : slave_at i st' s';
  rc_h : st_h st' = st_h (put_slave i s' st);
  rc_fd : sl_fd s' = sl_fd s;
  rc_open : is_open s';
  rc_unread : unread s' (st_heap st') = unread';
  rc_calls : st_calls st' = calls;
  rc_frame p : p ∈ others held i (st_h st) → st_heap st' !! p = st_heap st !! p;
  rc_ok : hok held (st_h st') (st_heap st')
}.

Lemma emptied_ok s : slave_ok s → sl_fd s ≠ 0 → sl_queue s = None → slave_ok (emptied s).
Proof.
  intros [H1 H2 H3] Hfd Hq. split; cbn; [done|done|]. unfold status_ok. cbn.
  split; [done|]. split; [lia|]. by left.
Qed.

Lemma content_facts s : slave_ok s → sl_status s = STATUS_CONTENT →
  sl_fd s ≠ 0 ∧ sl_queue s = None ∧ is_Some (sl_recv_buffer s) ∧ 0 ≤ sl_read s < Z.max 1 (sl_length s) ∧
  nth 0 (sl_size s) 0 = 0 ∧ sl_length s = be_len (sl_size s).
Proof. intros [_ _ H] Hst. unfold status_ok in H. by rewrite Hst in H. Qed.

Lemma hok_slave_ok i s st : slave_at i st s → hok held (st_h st) (st_heap st) → slave_ok s.
Proof.
  intros [_ Hs] Hk. pose proof (wf_slaves _ (hk_wf _ _ _ Hk)) as Hall. rewrite Forall_lookup in Hall. by eapply Hall.
Qed.

Lemma hok_slave_room i s st : slave_at i st s → hok held (st_h st) (st_heap st) →
  Forall (has_block (st_heap st)) (slave_needs s).
Proof.
  intros [_ Hs] Hk. pose proof (hk_room _ _ _ Hk) as Hr. unfold needs in Hr. apply Forall_app in Hr as [Hr _].
  apply List.Forall_concat in Hr. rewrite Forall_fmap in Hr. by eapply (Forall_lookup_1 _ _ _ _ Hr).
Qed.
End receive.

(** What a buffer starts with after bytes have been written into it. *)
Lemma mwrite_prefix (old new bs : list Z) (off : Z) :
  0 ≤ off → mwrite old off bs = Ret new →
  off + zlen bs ≤ zlen old ∧ zlen new = zlen old ∧
  take (Z.to_nat (off + zlen bs)) new = take (Z.to_nat off) old ++ bs.
Proof.
  intros Ho Hw. unfold mwrite in Hw. destruct (_ && _) eqn:E; [|done]. injection Hw as <-.
  apply andb_true_iff in E as [_ E]. apply Z.leb_le in E. pose proof (zlen_nonneg bs).
  split; [done|]. unfold zlen in *. split.
  - rewrite !length_app, length_take, length_drop. lia.
  - rewrite app_assoc, take_app_length'; [done|]. rewrite length_app, length_take. lia.
Qed.

Lemma mwrite_bytes (old new bs : list Z) off : mwrite old off bs = Ret new → bytes old → bytes bs → bytes new.
Proof.
  unfold mwrite. destruct (_ && _); [|done]. intros [= <-] Ho Hb. rewrite !Forall_app. split_and!; [|done|].
  - by apply Forall_take.
  - by apply Forall_drop.
Qed.

Lemma be_len_range sz : bytes sz → 0 ≤ be_len sz < 2 ^ 24.
Proof.
  intros Hb. unfold be_len. assert (Hn : ∀ k, 0 ≤ nth k sz 0 < 2 ^ 8).
  { intros k. destruct (nth_in_or_default k sz 0) as [Hin| ->]; [|done].
    rewrite Forall_forall in Hb. apply Hb. by apply list_elem_of_In. }
  pose proof (Hn 1%nat). pose proof (Hn 2%nat). pose proof (Hn 3%nat).
  rewrite <-Z.lor_assoc, Z.lor_comm.
  assert (H2 : 0 ≤ Z.lor (Z.shiftl (nth 2 sz 0) 8) (nth 3 sz 0) < 2 ^ 16).
  { rewrite lor_shiftl_l by lia. lia. }
  rewrite lor_shiftl by lia. lia.
Qed.

(** The first package, when its four bytes of length are there. *)
Lemma first_header sz body :
  zlen sz = 4 → nth 0 sz 0 = 0 → first (sz ++ body) =
  if zlen body <? be_len sz then More
  else if be_len sz <? HEADER_COOKIE_LENGTH then if zlen body =? 0 then More else TooShort
  else Package (take (Z.to_nat (be_len sz)) body) (drop (Z.to_nat (be_len sz)) body).
Proof.
  intros Hl H0. destruct sz as [|b0 [|b1 [|b2 [|b3 [|]]]]]; try (unfold zlen in Hl; cbn in Hl; lia).
  cbn in H0. subst b0. done.
Qed.

Section content.
Context (reply : list call → Z) (held : list addr).
Implicit Types (s : slave) (st : state).

Lemma recv_other i s st recv : slave_at i st s → hok held (st_h st) (st_heap st) →
  sl_recv_buffer s = Some recv → recv ∉ others held i (st_h st).
Proof.
  intros Hs Hk Hr Hin. destruct (others_not _ _ _ _ _ Hs Hk Hin) as [Hn _]. apply Hn.
  unfold slave_needs. rewrite Hr, fmap_app. apply elem_of_app. right. cbn. set_solver.
Qed.

(** The buffer that a message is received into. *)
Lemma recv_block i s st : slave_at i st s → sl_status s = STATUS_CONTENT → hok held (st_h st) (st_heap st) →
  ∃ recv blk, sl_recv_buffer s = Some recv ∧ st_heap st !! recv = Some blk ∧ sl_length s ≤ zlen blk ∧ bytes blk ∧
    recv ∉ others held i (st_h st).
Proof.
  intros Hs Hst Hk. destruct (content_facts s (hok_slave_ok _ _ _ _ Hs Hk) Hst) as (_ & _ & [recv Hr] & _).
  pose proof (hok_slave_room _ _ _ _ Hs Hk) as Hroom. unfold slave_needs in Hroom. rewrite Hr in Hroom.
  apply Forall_app in Hroom as [_ Hroom]. apply Forall_singleton in Hroom as (blk & Hb & Hl & Hy).
  exists recv, blk. split_and!; try done. by eapply recv_other.
Qed.

(** The parts of the unread bytes of a message whose length is known. *)
Lemma content_first i s st c off : slave_at i st s → sl_status s = STATUS_CONTENT → hok held (st_h st) (st_heap st) →
  0 ≤ off ≤ zlen c → ∃ recv blk, sl_recv_buffer s = Some recv ∧ st_heap st !! recv = Some blk ∧
    sl_length s ≤ zlen blk ∧ bytes blk ∧ recv ∉ others held i (st_h st) ∧ 0 ≤ sl_length s ∧ 0 ≤ sl_read s < Z.max 1 (sl_length s) ∧
    let got := take (Z.to_nat (sl_read s)) blk in let d := drop (Z.to_nat off) c in
    zlen got = sl_read s ∧ zlen d = zlen c - off ∧ first (unread s (st_heap st) ++ d) =
      if zlen got + zlen d <? sl_length s then More
      else if sl_length s <? 12 then if zlen got + zlen d =? 0 then More else TooShort
      else Package (take (Z.to_nat (sl_length s)) (got ++ d)) (drop (Z.to_nat (sl_length s)) (got ++ d)).
Proof.
  intros Hs Hst Hk Hoff. pose proof (hok_slave_ok _ _ _ _ Hs Hk) as Hso.
  destruct (content_facts s Hso Hst) as (Hfd & Hq & _ & Hread & H0 & Hbe).
  destruct (recv_block _ _ _ Hs Hst Hk) as (recv & blk & Hr & Hblk & Hbl & Hby & Hro).
  pose proof (be_len_range (sl_size s) (proj2 (so_size _ Hso))) as Hrange.
  exists recv, blk. split_and!; try done; try lia. intros got d.
  assert (Hgot : zlen got = sl_read s) by (unfold got, zlen in *; rewrite length_take; lia).
  split; [done|]. split; [unfold d, zlen in *; rewrite length_drop; lia|].
  unfold unread. rewrite Hst, Hr, Hblk. cbn [Z.eqb Pos.eqb STATUS_CONTENT default id]. rewrite <-app_assoc. fold got.
  rewrite first_header by (apply Hso || done). by rewrite <-Hbe, !zlen_app.
Qed.

Lemma wp_read_content i s st buf c off (Q : Z * Z + unit → state → Prop) :
  slave_at i st s → sl_status s = STATUS_CONTENT → hok held (st_h st) (st_heap st) →
  st_heap st !! buf = Some c → bytes c → buf ∈ held → 0 ≤ off ≤ zlen c → off < zlen c ∨ 0 < sl_length s →
  let d := drop (Z.to_nat off) c in
  let X := unread s (st_heap st) ++ d in
  first X ≠ TooShort →
  (first X = More → ∀ s' st', received held i s s' X (st_calls st) st st' → Q (inr tt) st') →
  (∀ p r, first X = Package p r → r = drop (Z.to_nat (zlen c - zlen r)) c → zlen r < zlen d → ∀ st',
     received held i s (emptied s) [] (deliver reply (h_id (st_h st)) (st_calls st) p) st st' →
     Q (if zlen r =? 0 then inr tt else inl (zlen c - zlen r, zlen r)) st') →
  wp (read_content reply i buf off (zlen c - off)) Q st.
Proof.
  intros Hs Hst Hk Hc Hcb Hin Hoff Hfed d X Hshort Hmore Hpkg. pose proof (hok_slave_ok _ _ _ _ Hs Hk) as Hso.
  destruct (content_facts s Hso Hst) as (Hfd & Hq & _).
  destruct (content_first i s st c off Hs Hst Hk Hoff) as (recv & blk & Hr & Hblk & Hbl & Hby & Hro & Hpos & Hread & Hgot & Hd & EF).
  fold d in Hd, EF. fold X in EF.
  assert (Hbuf : buf ≠ recv). { intros ->. apply Hro. unfold others. apply elem_of_app. by left. }
  set (got := take (Z.to_nat (sl_read s)) blk) in *.
  assert (EX : X = sl_size s ++ got ++ d).
  { unfold X, unread. rewrite Hst, Hr, Hblk. cbn. by rewrite <-app_assoc. }
  rewrite Hgot in EF. unfold read_content. apply wp_bind. eapply wp_get_slave; [exact Hs|]. rewrite Hr.
  wp_case Hn; [apply Z.ltb_lt in Hn|apply Z.ltb_ge in Hn].
  - rewrite (proj2 (Z.ltb_lt _ _)) in EF by lia.
    apply wp_bind. eapply wp_hread; [exact Hc|lia|lia|lia|]. fold d.
    rewrite (firstn_all2 d) by (unfold zlen in *; lia).
    apply wp_bind. eapply wp_hwrite; [exact Hblk|lia|lia|]. intros new Hw.
    pose proof (mwrite_bytes _ _ _ _ Hw Hby ltac:(by apply Forall_drop)) as Hnb.
    apply mwrite_prefix in Hw as (_ & Hnl & Hnt); [|lia]. fold got in Hnt.
    apply wp_bind. eapply (wp_mod_slave i _ s); [exact Hs|]. apply wp_ret. rewrite Hd in Hnt.
    eapply (Hmore EF (set_read (sl_read s + (zlen c - off)) s)). split.
    + by eapply slave_at_put.
    + done.
    + done.
    + by right.
    + unfold unread. cbn. rewrite Hst, Hr. cbn. rewrite lookup_insert_eq. cbn. by rewrite Hnt.
    + done.
    + intros p Hp. cbn. rewrite lookup_insert_ne; [done|]. intros ->. done.
    + eapply (hok_slave held held).
      * eapply hok_write; [exact Hblk|done|done|exact Hk].
      * apply Hs.
      * destruct Hso as [P1 P2 P3]. split; [done|done|]. unfold status_ok in *. cbn. rewrite Hst in *. cbn in *.
        intuition lia.
      * done.
      * eapply Forall_impl; [apply (hok_slave_room _ _ _ _ Hs Hk)|]. intros [q n] (bs & Hq' & Hle & Hbs).
        cbn in *. destruct (decide (q = recv)) as [->|Hne].
        -- exists new. cbn. rewrite lookup_insert_eq. rewrite Hblk in Hq'. injection Hq' as <-. split_and!; [done|lia|done].
        -- exists bs. cbn. by rewrite lookup_insert_ne.
  - rewrite (proj2 (Z.ltb_ge _ _)) in EF by lia.
    assert (Hlen : 12 ≤ sl_length s).
    { destruct (Z.ltb_spec (sl_length s) 12); [|done]. destruct (Z.eqb_spec (sl_read s + zlen d) 0); [lia|done]. }
    rewrite (proj2 (Z.ltb_ge _ _) Hlen) in EF. set (need := sl_length s - sl_read s) in *.
    apply wp_bind. eapply wp_hread; [exact Hc|lia|lia|lia|]. fold d.
    set (b := take (Z.to_nat need) d). assert (Hb : zlen b = need) by (unfold b, zlen in *; rewrite length_take; lia).
    apply wp_bind. eapply wp_hwrite; [exact Hblk|lia|lia|]. intros new Hw.
    assert (Hbb : bytes b) by (unfold b; by apply Forall_take, Forall_drop).
    pose proof (mwrite_bytes _ _ _ _ Hw Hby Hbb) as Hnb.
    apply mwrite_prefix in Hw as (_ & Hnl & Hnt); [|lia]. fold got in Hnt. rewrite Hb in Hnt.
    replace (sl_read s + need) with (sl_length s) in Hnt by lia.
    apply wp_bind. eapply (wp_forward reply recv new); [cbn; apply lookup_insert_eq|lia|done|].
    cbn [st_h st_heap st_calls put_mem put_calls heap with_heap state_heap]. rewrite Hnt, delete_insert_eq.
    assert (Ep : take (Z.to_nat (sl_length s)) (got ++ d) = got ++ b).
    { rewrite take_app_ge by (unfold zlen in *; lia). f_equal. unfold b. f_equal. unfold zlen in *; lia. }
    assert (Er : drop (Z.to_nat (sl_length s)) (got ++ d) = drop (Z.to_nat (off + need)) c).
    { rewrite drop_app_ge by (unfold zlen in *; lia). unfold d. rewrite drop_drop. f_equal. unfold zlen in *; lia. }
    rewrite Ep, Er in EF.
    assert (Hzr : zlen (drop (Z.to_nat (off + need)) c) = zlen c - off - need).
    { unfold zlen in *. rewrite length_drop. lia. }
    specialize (Hpkg _ _ EF). rewrite Hzr in Hpkg.
    replace (zlen c - (zlen c - off - need)) with (off + need) in Hpkg by lia.
    specialize (Hpkg eq_refl ltac:(lia)).
    apply wp_bind. eapply (wp_mod_slave i _ s); [exact Hs|].
    do 3 (apply wp_bind; eapply (wp_mod_slave i); [eapply slave_at_put; exact Hs|]; rewrite put_slave_put).
    match goal with |- wp ?m Q ?st' => assert (H : received held i s (emptied s) []
      (deliver reply (h_id (st_h st)) (st_calls st) (got ++ b)) st st') end.
    { split.
      - eapply slave_at_put. exact Hs.
      - done.
      - done.
      - by left.
      - done.
      - done.
      - intros p Hp. cbn. rewrite lookup_delete_ne; [done|]. intros ->. done.
      - eapply hok_free with (p := recv). eapply (hok_slave held (recv :: held)).
        + exact Hk.
        + apply Hs.
        + by apply emptied_ok.
        + unfold slave_needs. cbn [emptied sl_queue sl_recv_buffer set_status set_recv set_read set_length].
          rewrite Hr, !fmap_app. cbn. rewrite app_nil_r. solve_Permutation.
        + pose proof (hok_slave_room _ _ _ _ Hs Hk) as Hroom. apply Forall_app in Hroom as [Hroom _].
          unfold slave_needs. cbn [emptied sl_queue sl_recv_buffer set_status set_recv set_read set_length].
          by rewrite app_nil_r. }
    specialize (Hpkg _ H). replace (zlen c - off - need) with (zlen c - off - need) in Hpkg by lia.
    destruct (_ =? 0); by apply wp_ret.
Qed.

(** A package that is too short for its header is read in front of its memory. *)
Lemma read_content_short i s st buf c off :
  slave_at i st s → sl_status s = STATUS_CONTENT → hok held (st_h st) (st_heap st) →
  st_heap st !! buf = Some c → buf ∈ held → 0 ≤ off ≤ zlen c →
  first (unread s (st_heap st) ++ drop (Z.to_nat off) c) = TooShort →
  read_content reply i buf off (zlen c - off) st = Undef.
Proof.
  intros Hs Hst Hk Hc Hin Hoff Hshort.
  destruct (content_first i s st c off Hs Hst Hk Hoff) as (recv & blk & Hr & Hblk & Hbl & Hby & Hro & Hpos & Hread & Hgot & Hd & EF).
  set (d := drop (Z.to_nat off) c) in *. rewrite EF, Hgot in Hshort.
  destruct (Z.ltb_spec (sl_read s + zlen d) (sl_length s)) as [|Hn]; [done|].
  destruct (Z.ltb_spec (sl_length s) 12); [|done].
  assert (Hbuf : buf ≠ recv). { intros ->. apply Hro. unfold others. apply elem_of_app. by left. }
  unfold read_content. apply undef_bind. eapply wp_get_slave; [exact Hs|]. rewrite Hr.
  rewrite (proj2 (Z.ltb_ge _ _)) by lia. apply undef_bind. eapply wp_hread; [exact Hc|lia|lia|lia|]. fold d.
  set (b := take _ d). assert (Hb : zlen b = sl_length s - sl_read s) by (unfold b, zlen in *; rewrite length_take; lia).
  apply undef_bind. eapply wp_hwrite; [exact Hblk|lia|lia|]. intros new _.
  apply undef_first. unfold forward_local_messsage, HEADER_COOKIE_LENGTH. apply undef_first.
  unfold hread. apply undef_bind, wp_gets. cbn. rewrite lookup_insert_eq. cbn.
  unfold mread. rewrite (proj2 (Z.leb_gt 0 (sl_length s - 12))) by lia. done.
Qed.

Lemma wpu_read_content i s st buf c off (Q : Z * Z + unit → state → Prop) :
  slave_at i st s → sl_status s = STATUS_CONTENT → hok held (st_h st) (st_heap st) →
  st_heap st !! buf = Some c → bytes c → buf ∈ held → 0 ≤ off ≤ zlen c → off < zlen c ∨ 0 < sl_length s →
  let d := drop (Z.to_nat off) c in
  let X := unread s (st_heap st) ++ d in
  (first X = More → ∀ s' st', received held i s s' X (st_calls st) st st' → Q (inr tt) st') →
  (∀ p r, first X = Package p r → r = drop (Z.to_nat (zlen c - zlen r)) c → zlen r < zlen d → ∀ st',
     received held i s (emptied s) [] (deliver reply (h_id (st_h st)) (st_calls st) p) st st' →
     Q (if zlen r =? 0 then inr tt else inl (zlen c - zlen r, zlen r)) st') →
  wpu (first X = TooShort) (read_content reply i buf off (zlen c - off)) Q st.
Proof.
  intros Hs Hst Hk Hc Hcb Hin Hoff Hfed d X Hmore Hpkg.
  assert (Hcase : first X = TooShort ∨ first X ≠ TooShort) by (destruct (first X); by auto).
  destruct Hcase as [E|E]; [right; split; [done|by eapply read_content_short]|left].
  by eapply wp_read_content.
Qed.
End content.

(** ** Closing *)

Definition closed_slave (s : slave) : slave := set_queue None (set_fd 0 (set_status STATUS_DOWN s)).

Lemma closed_ok s : slave_ok s → sl_recv_buffer s = None → 0 ≤ sl_read s < 4 → slave_ok (closed_slave s).
Proof. intros [H1 H2 H3] Hr Hrd. split; [done|done|]. unfold status_ok. cbn. split_and!; [done|lia|lia|]. by do 3 right. Qed.

Section close.
Context (reply : list call → Z) (held : list addr).
Implicit Types (s : slave) (st : state).

Lemma wp_close_harbor i s (Q : unit → state → Prop) st :
  slave_at i st s → sl_recv_buffer s = None → queue_ok (sl_queue s) →
  Forall (has_block (st_heap st)) (queue_needs (sl_queue s)) →
  hok ((queue_needs (sl_queue s)).*1 ++ held) (st_h (put_slave i (closed_slave s) st)) (st_heap st) →
  (∀ st', st_h st' = st_h (put_slave i (closed_slave s) st) →
     st_calls st' = st_calls st ++ (if sl_fd s =? 0 then [] else [CClose (sl_fd s)]) →
     (∀ p, p ∉ (queue_needs (sl_queue s)).*1 → st_heap st' !! p = st_heap st !! p) →
     hok held (st_h st') (st_heap st') → Q tt st') →
  wp (close_harbor reply i) Q st.
Proof.
  intros Hs Hr Hq Hroom Hk HQ. unfold close_harbor. apply wp_bind. eapply wp_get_slave; [exact Hs|].
  apply wp_bind. eapply wp_mod_slave; [exact Hs|]. apply wp_bind.
  set (calls := st_calls st ++ (if sl_fd s =? 0 then [] else [CClose (sl_fd s)])) in *.
  set (s1 := set_fd 0 (set_status STATUS_DOWN s)).
  eapply (wp_mono _ (λ _ st1, st1 = put_calls calls (put_slave i s1 st))).
  { destruct (Z.eqb_spec (sl_fd s) 0) as [E|E]; cbn [negb].
    - apply wp_ret. unfold calls, s1. rewrite app_nil_r. destruct s; cbn in *. subst. by destruct st.
    - apply wp_bind, wp_post. eapply wp_mod_slave; [by eapply slave_at_put|].
      unfold put_slave, put_calls, put_h, with_s. cbn. by rewrite list_insert_insert_eq. }
  intros ? st1 ->. destruct (sl_queue s) as [q|] eqn:Eq.
  - apply wp_bind. eapply wp_release_queue; [exact Hq|exact Hroom|exact Hk|]. intros st2 E1 E2 E3 Hk2.
    assert (Hs2 : slave_at i st2 s1).
    { destruct Hs as [Hi Hs]. split; [done|]. rewrite E1. cbn. apply list_lookup_insert_eq. by eapply lookup_lt_Some. }
    eapply wp_mod_slave; [exact Hs2|].
    assert (E : st_h (put_slave i (set_queue None s1) st2) = st_h (put_slave i (closed_slave s) st)).
    { cbn. rewrite E1. cbn. unfold with_s. cbn. by rewrite list_insert_insert_eq. }
    apply HQ; [exact E|exact E2|exact E3|]. rewrite E. exact Hk2.
  - apply wp_ret. assert (E : closed_slave s = s1). { unfold closed_slave, s1. destruct s. cbn in *. by subst. }
    rewrite E in *. apply HQ; done.
Qed.
End close.

(** ** The length in front of a package *)

Lemma hok_new_recv held i s s' p n st :
  slave_at i st s → hok held (st_h st) (st_heap st) → st_heap st !! p = None → sl_recv_buffer s = None →
  0 ≤ n → slave_ok s' → sl_queue s' = sl_queue s → sl_recv_buffer s' = Some p → sl_length s' = n →
  hok held (st_h (put_slave i s' st)) (<[p := replicate (Z.to_nat n) 0]> (st_heap st)).
Proof.
  intros Hs Hk Hp Hr Hn Hok Hq Hr' Hl.
  pose proof (hok_slave_room _ _ _ _ Hs Hk) as Hroom.
  assert (En : slave_needs s' = slave_needs s ++ [(p, n)]).
  { unfold slave_needs. rewrite Hq, Hr', Hr, Hl, app_nil_r. done. }
  apply (hok_slave (p :: held) held (st_h st) _ (Z.to_nat i) s s').
  - by apply hok_malloc.
  - apply Hs.
  - done.
  - rewrite En, fmap_app. cbn. solve_Permutation.
  - rewrite En. apply Forall_app. split.
    + eapply room_same; [exact Hroom|]. intros q Hq'. rewrite lookup_insert_ne; [done|]. intros <-.
      assert (Hin : p ∈ (map_to_list (st_heap st)).*1).
      { rewrite <-(hok_split _ _ _ _ Hs Hk). apply elem_of_app. by left. }
      apply list_elem_of_fmap in Hin as ([q bs] & -> & Hin). apply elem_of_map_to_list in Hin. cbn in *. congruence.
    + apply Forall_singleton. exists (replicate (Z.to_nat n) 0). cbn. rewrite lookup_insert_eq.
      split; [done|]. split; [unfold zlen; rewrite length_replicate; lia|]. by apply Forall_replicate.
Qed.

(** The slave when the length of a package is there. *)
Definition with_length (sz : list Z) (recv : addr) (s : slave) : slave :=
  set_status STATUS_CONTENT (set_recv (Some recv) (set_read 0 (set_length (be_len sz) (set_size sz s)))).

Lemma with_length_ok sz recv s :
  slave_ok s → sl_fd s ≠ 0 → sl_queue s = None → zlen sz = 4 → bytes sz → nth 0 sz 0 = 0 →
  slave_ok (with_length sz recv s).
Proof.
  intros [H1 H2 H3] Hfd Hq Hl Hb H0. split; [done|done|]. unfold status_ok. cbn. split_and!; try done; lia.
Qed.

Section header.
Context (reply : list call → Z) (held : list addr).
Implicit Types (s : slave) (st : state).

Lemma received_trans i s s1 s2 X1 X2 calls1 calls2 st st1 st2 :
  received held i s s1 X1 calls1 st st1 → received held i s1 s2 X2 calls2 st1 st2 →
  received held i s s2 X2 calls2 st st2.
Proof.
  intros [A1 A2 A3 A4 A5 A6 A7 A8] [B1 B2 B3 B4 B5 B6 B7 B8].
  assert (E : st_h st2 = st_h (put_slave i s2 st)).
  { rewrite B2. cbn. rewrite A2. cbn. unfold with_s. cbn. by rewrite list_insert_insert_eq. }
  split; try done; [congruence|]. intros p Hp. rewrite B7, A7; [done|done|].
  by rewrite A2, others_put.
Qed.

Lemma header_facts s : slave_ok s → sl_status s = STATUS_HEADER →
  sl_recv_buffer s = None ∧ 0 ≤ sl_read s < 4 ∧ sl_fd s ≠ 0 ∧ sl_queue s = None.
Proof.
  intros [_ _ H] Hst. unfold status_ok in H. rewrite Hst in H. cbn in H.
  destruct H as (H1 & H2 & H3). destruct H3 as [(_ & ? & ?)|[(? & _)|[(? & _)|(? & _)]]]; done.
Qed.

Lemma first_short X : zlen X < 4 → first X = More.
Proof. intros H. destruct X as [|? [|? [|? [|? ?]]]]; try done. rewrite !zlen_cons in H. match type of H with context [zlen ?l] => pose proof (zlen_nonneg l) end. lia. Qed.

Lemma first_too_long sz body : zlen sz = 4 → nth 0 sz 0 ≠ 0 → first (sz ++ body) = TooLong.
Proof.
  intros Hl H0. destruct sz as [|b0 [|b1 [|b2 [|b3 [|]]]]]; try (unfold zlen in Hl; cbn in Hl; lia).
  cbn in *. by rewrite (proj2 (Z.eqb_neq _ _)).
Qed.

Lemma wpu_read_header i s st buf c off (Q : Z * Z + unit → state → Prop) :
  slave_at i st s → sl_status s = STATUS_HEADER → hok held (st_h st) (st_heap st) →
  st_heap st !! buf = Some c → bytes c → buf ∈ held → 0 ≤ off ≤ zlen c →
  let d := drop (Z.to_nat off) c in
  let X := unread s (st_heap st) ++ d in
  (first X = More → ∀ s' st', received held i s s' X (st_calls st) st st' → Q (inr tt) st') →
  (first X = TooLong → ∀ s' st', st_h st' = st_h (put_slave i (closed_slave s') st) →
     st_calls st' = st_calls st ++ [CClose (sl_fd s)] →
     (∀ p, st_heap st' !! p = st_heap st !! p) → hok held (st_h st') (st_heap st') → Q (inr tt) st') →
  (∀ p r, first X = Package p r → r = drop (Z.to_nat (zlen c - zlen r)) c → zlen r < zlen d → ∀ s' st',
     received held i s s' [] (deliver reply (h_id (st_h st)) (st_calls st) p) st st' →
     Q (if zlen r =? 0 then inr tt else inl (zlen c - zlen r, zlen r)) st') →
  wpu (first X = TooShort) (read_header reply i buf off (zlen c - off)) Q st.
Proof.
  intros Hs Hst Hk Hc Hcb Hin Hoff d X Hmore Hlong Hpkg. pose proof (hok_slave_ok _ _ _ _ Hs Hk) as Hso.
  destruct (header_facts s Hso Hst) as (Hr & Hread & Hfd & Hq). destruct (so_size _ Hso) as [Hsz Hszb].
  assert (Hd : zlen d = zlen c - off) by (unfold d, zlen in *; rewrite length_drop; lia).
  set (got := take (Z.to_nat (sl_read s)) (sl_size s)) in *.
  assert (Hgot : zlen got = sl_read s) by (unfold got, zlen in *; rewrite length_take; lia).
  assert (EX : X = got ++ d). { unfold X, unread. by rewrite Hst. }
  unfold read_header. wpu_step. eapply wp_get_slave; [exact Hs|].
  wp_case Hn; [apply Z.ltb_lt in Hn|apply Z.ltb_ge in Hn].
  - wpu_step. eapply wp_hread; [exact Hc|lia|lia|lia|]. fold d.
    rewrite (firstn_all2 d) by (unfold zlen in *; lia).
    destruct (mwrite_spec (sl_size s) (sl_read s) d) as (new & Hw & _); [lia|lia|].
    wpu_step. eapply wp_lift; [exact Hw|].
    pose proof (mwrite_bytes _ _ _ _ Hw Hszb ltac:(by apply Forall_drop)) as Hnb.
    apply mwrite_prefix in Hw as (_ & Hnl & Hnt); [|lia]. fold got in Hnt. rewrite Hd in Hnt.
    wpu_step. eapply wp_mod_slave; [exact Hs|]. wpu_step. eapply wp_mod_slave; [by eapply slave_at_put|].
    rewrite put_slave_put. apply wpu_wp, wp_ret.
    eapply (Hmore ltac:(rewrite EX; apply first_short; rewrite zlen_app; lia)). split.
    + by eapply slave_at_put.
    + done.
    + done.
    + by left.
    + unfold unread. cbn. rewrite Hst. cbn. by rewrite EX, Hnt.
    + done.
    + done.
    + eapply (hok_slave held held); [exact Hk|apply Hs| |done|].
      * destruct Hso as [P1 P2 P3]. split; [done|cbn; split; [lia|done]|]. unfold status_ok. cbn. rewrite Hst. cbn.
        split_and!; [done|lia|lia|by left].
      * exact (hok_slave_room _ _ _ _ Hs Hk).
  - set (need := 4 - sl_read s) in *.
    wpu_step. eapply wp_hread; [exact Hc|lia|lia|lia|]. fold d.
    set (b := take (Z.to_nat need) d). assert (Hb : zlen b = need) by (unfold b, zlen in *; rewrite length_take; lia).
    destruct (mwrite_spec (sl_size s) (sl_read s) b) as (new & Hw & _); [lia|lia|].
    wpu_step. eapply wp_lift; [exact Hw|].
    assert (Hbb : bytes b) by (unfold b; by apply Forall_take, Forall_drop).
    pose proof (mwrite_bytes _ _ _ _ Hw Hszb Hbb) as Hnb.
    apply mwrite_prefix in Hw as (_ & Hnl & Hnt); [|lia]. fold got in Hnt. rewrite Hb in Hnt.
    replace (Z.to_nat (sl_read s + need)) with (length new) in Hnt by (unfold zlen in *; lia).
    rewrite firstn_all in Hnt.
    assert (EX2 : X = new ++ drop (Z.to_nat (off + need)) c).
    { rewrite EX, Hnt, <-app_assoc. f_equal. unfold b. rewrite <-(take_drop (Z.to_nat need) d) at 1. f_equal.
      unfold d. rewrite drop_drop. f_equal. lia. }
    wpu_step. eapply wp_mod_slave; [exact Hs|].
    wp_case H0; [apply negb_true_iff, Z.eqb_neq in H0|apply negb_false_iff, Z.eqb_eq in H0].
    { assert (EF : first X = TooLong) by (rewrite EX2; apply first_too_long; [lia|done]).
      wpu_step. eapply (wp_close_harbor reply held); [by eapply slave_at_put|done|by cbn; rewrite Hq|by cbn; rewrite Hq| |].
      - rewrite put_slave_put. cbn [set_size sl_queue]. rewrite Hq. cbn [queue_needs app fmap list_fmap].
        eapply (hok_slave held held); [exact Hk|apply Hs| | |].
        + apply closed_ok; [|done|done]. destruct Hso as [P1 P2 P3]. split; [done|cbn; split; [lia|done]|].
          unfold status_ok in *. cbn. rewrite Hst in *. exact P3.
        + unfold slave_needs. cbn. by rewrite Hr, Hq.
        + unfold slave_needs. cbn. by rewrite Hr.
      - intros st' E1 E2 E3 Hk'. apply wpu_wp, wp_ret. rewrite put_slave_put in E1. cbn [set_size sl_fd] in E2.
        rewrite (proj2 (Z.eqb_neq _ _) Hfd) in E2. eapply (Hlong EF); [exact E1|exact E2| |exact Hk'].
        intros p. rewrite E3; [done|]. cbn. rewrite Hq. apply not_elem_of_nil. }
    rewrite EX2 in Hmore, Hpkg |- *. rewrite first_header in Hmore, Hpkg |- * by (done || lia).
    fold (be_len new). pose proof (be_len_range new Hnb) as Hrange.
    wpu_step. eapply wp_mod_slave; [by eapply slave_at_put|]. rewrite put_slave_put.
    wpu_step. eapply wp_mod_slave; [by eapply slave_at_put|]. rewrite put_slave_put.
    wpu_step. apply wp_hmalloc. intros recv Hrecv.
    wpu_step. eapply wp_mod_slave; [eapply slave_at_put; exact Hs|].
    wpu_step. eapply wp_mod_slave; [eapply slave_at_put; eapply slave_at_put; exact Hs|].
    cbn [st_heap put_slave put_h heap state_heap] in Hrecv. set (s1 := with_length new recv s).
    match goal with |- wpu _ _ _ ?st' => set (st1 := st') end.
    assert (E1 : st1 = put_slave i s1 (put_mem (<[recv := replicate (Z.to_nat (be_len new)) 0]> (st_heap st)) st)).
    { unfold st1, put_slave, put_h, put_mem, with_s, with_heap, state_heap. cbn. by rewrite !list_insert_insert_eq. }
    clearbody st1. subst st1.
    assert (Hok1 : slave_ok s1) by (apply with_length_ok; done || lia).
    set (st1 := put_slave i s1 _).
    assert (Hrc : received held i s s1 new (st_calls st) st st1).
    { split.
      - eapply slave_at_put. exact Hs.
      - done.
      - done.
      - by right.
      - unfold unread. cbn. by rewrite app_nil_r.
      - done.
      - intros p Hp. cbn. rewrite lookup_insert_ne; [done|]. intros <-.
        destruct (others_not _ _ _ _ _ Hs Hk Hp) as [_ [? ?]]. congruence.
      - refine (hok_new_recv held i s s1 recv (be_len new) st Hs Hk Hrecv Hr _ Hok1 eq_refl eq_refl eq_refl). lia. }
    assert (Hbuf : st_heap st1 !! buf = Some c).
    { rewrite (rc_frame _ _ _ _ _ _ _ _ Hrc); [done|]. unfold others. apply elem_of_app. by left. }
    assert (Hzr : zlen (drop (Z.to_nat (off + need)) c) = zlen c - off - need).
    { unfold zlen in *. rewrite length_drop. lia. }
    wp_case Hz; [apply Z.eqb_eq in Hz|apply Z.eqb_neq in Hz].
    + assert (Enil : drop (Z.to_nat (off + need)) c = []).
      { apply nil_length_inv. unfold zlen in *. lia. }
      apply wpu_wp, wp_ret. rewrite Enil in Hmore. change (zlen (@nil Z)) with 0 in Hmore.
      assert (Em : (if 0 <? be_len new then More else if be_len new <? HEADER_COOKIE_LENGTH then More else
        Package (take (Z.to_nat (be_len new)) []) (drop (Z.to_nat (be_len new)) [])) = More).
      { destruct (Z.ltb_spec 0 (be_len new)); [done|]. by rewrite (proj2 (Z.ltb_lt _ _)) by (unfold HEADER_COOKIE_LENGTH; lia). }
      apply (Hmore Em s1). by rewrite app_nil_r.
    + replace (zlen c - off - need) with (zlen c - (off + need)) by lia.
      eapply wpu_weaken; [|eapply (wpu_read_content reply held i s1 st1 buf c (off + need))];
        [|apply Hrc|done|apply Hrc|exact Hbuf|done|done|lia|left; lia| |];
        rewrite (rc_unread _ _ _ _ _ _ _ _ Hrc), first_header by (done || lia).
      * done.
      * intros Hm s' st' H2. apply (Hmore Hm s'). eapply received_trans; [exact Hrc|exact H2].
      * intros p r Hp Hrr Hrd st' H2. apply (Hpkg p r Hp Hrr ltac:(lia) (emptied s1)).
        eapply received_trans; [exact Hrc|exact H2].
Qed.
End header.

(** ** A message with data *)

Section data.
Context (reply : list call → Z) (held : list addr).
Implicit Types (s : slave) (st : state).

(** The connection has been closed. *)
Record shut (i : Z) (s : slave) (calls : list call) (st st' : state) : Prop := {
  sh_h : ∃ s', st_h st' = st_h (put_slave i (closed_slave s') st);
  sh_calls : st_calls st' = calls ++ [CClose (sl_fd s)];
  sh_frame p : p ∈ others held i (st_h st) → st_heap st' !! p = st_heap st !! p;
  sh_ok : hok held (st_h st') (st_heap st')
}.

Lemma shut_after i s s1 X calls calls' st st1 st2 :
  received held i s s1 X calls st st1 → shut i s1 calls' st1 st2 → shut i s calls' st st2.
Proof.
  intros [A1 A2 A3 A4 A5 A6 A7 A8] [(s' & B1) B2 B3 B4]. split; [|by rewrite B2, A3| |done].
  - exists s'. rewrite B1. cbn. rewrite A2. cbn. unfold with_s. cbn. by rewrite list_insert_insert_eq.
  - intros p Hp. rewrite B3, A7; [done|done|]. by rewrite A2, others_put.
Qed.

(** One turn on the bytes [X]: the unread ones and the last [size] ones of the
    data [c]. *)
Definition turn_post (i : Z) (s : slave) (X c : list Z) (size : Z) (st : state) (r : Z * Z + unit) (st' : state) : Prop :=
  match first X with
  | More => r = inr tt ∧ ∃ s', received held i s s' X (st_calls st) st st'
  | TooLong => r = inr tt ∧ shut i s (st_calls st) st st'
  | Package p rest =>
      r = (if zlen rest =? 0 then inr tt else inl (zlen c - zlen rest, zlen rest)) ∧
      zlen rest < size ≤ zlen c ∧ rest = drop (Z.to_nat (zlen c - zlen rest)) c ∧
      ∃ s', received held i s s' [] (deliver reply (h_id (st_h st)) (st_calls st) p) st st'
  | TooShort => False
  end.

Lemma wpu_header_turn i s st buf c off (Q : Z * Z + unit → state → Prop) :
  slave_at i st s → sl_status s = STATUS_HEADER → hok held (st_h st) (st_heap st) →
  st_heap st !! buf = Some c → bytes c → buf ∈ held → 0 ≤ off ≤ zlen c →
  (∀ r st', turn_post i s (unread s (st_heap st) ++ drop (Z.to_nat off) c) c (zlen c - off) st r st' → Q r st') →
  wpu (first (unread s (st_heap st) ++ drop (Z.to_nat off) c) = TooShort)
    (read_header reply i buf off (zlen c - off)) Q st.
Proof.
  intros Hs Hst Hk Hc Hcb Hin Hoff HQ.
  assert (Hd : zlen (drop (Z.to_nat off) c) = zlen c - off) by (unfold zlen in *; rewrite length_drop; lia).
  eapply (wpu_read_header reply held i s st buf c off); try done; unfold turn_post in HQ.
  - intros E s' st' H. apply HQ. rewrite E. split; [done|]. by exists s'.
  - intros E s' st' E1 E2 E3 Hk'. apply HQ. rewrite E. split; [done|]. split; [by exists s'|done| |done]. intros. apply E3.
  - intros p r E Hr Hrd s' st' H. apply HQ. rewrite E. split_and!; [done|lia|lia|done|]. by exists s'.
Qed.

Lemma wpu_open_turn i s st buf c off (Q : Z * Z + unit → state → Prop) :
  slave_at i st s → is_open s → hok held (st_h st) (st_heap st) →
  st_heap st !! buf = Some c → bytes c → buf ∈ held → 0 ≤ off ≤ zlen c →
  off < zlen c ∨ sl_status s = STATUS_HEADER ∨ 0 < sl_length s →
  (∀ r st', turn_post i s (unread s (st_heap st) ++ drop (Z.to_nat off) c) c (zlen c - off) st r st' → Q r st') →
  wpu (first (unread s (st_heap st) ++ drop (Z.to_nat off) c) = TooShort)
    (data_turn reply i buf (off, zlen c - off)) Q st.
Proof.
  intros Hs [Hst|Hst] Hk Hc Hcb Hin Hoff Hfed HQ; unfold data_turn; apply wpu_bind, wpu_wp; (eapply wp_get_slave; [exact Hs|]);
    rewrite Hst; cbn [Z.eqb Pos.eqb STATUS_HANDSHAKE STATUS_HEADER STATUS_CONTENT].
  - eapply wpu_header_turn; done.
  - assert (Hd : zlen (drop (Z.to_nat off) c) = zlen c - off) by (unfold zlen in *; rewrite length_drop; lia).
    assert (Hfed' : off < zlen c ∨ 0 < sl_length s) by (destruct Hfed as [?|[E|?]]; [by left|by rewrite Hst in E|by right]).
    eapply (wpu_read_content reply held i s st buf c off); try done; unfold turn_post in HQ.
    + intros E s' st' H. apply HQ. rewrite E. split; [done|]. by exists s'.
    + intros p r E Hr Hrd st' H. apply HQ. rewrite E. split_and!; [done|lia|lia|done|]. by exists (emptied s).
Qed.

(** What has become of the bytes [X] of a connection. *)
Definition taken (i : Z) (s : slave) (X : list Z) (st st' : state) : Prop :=
  let '(ps, e) := cut X in
  let calls := foldl (deliver reply (h_id (st_h st))) (st_calls st) ps in
  match e with
  | Rest r => ∃ s', received held i s s' r calls st st'
  | Closed => shut i s calls st st'
  | Short => False
  end.

(** The loop goes on like this after a turn. *)
Lemma wpu_rest_turns buf c fuel size i s X st r st1 (Q : unit → state → Prop) :
  (∀ off s1 st1', zlen c - off < Z.of_nat fuel → slave_at i st1' s1 → is_open s1 → hok held (st_h st1') (st_heap st1') →
     st_heap st1' !! buf = Some c → 0 ≤ off < zlen c →
     (∀ st2, taken i s1 (unread s1 (st_heap st1') ++ drop (Z.to_nat off) c) st1' st2 → Q tt st2) →
     wpu ((cut (unread s1 (st_heap st1') ++ drop (Z.to_nat off) c)).2 = Short)
       (loopM fuel (data_turn reply i buf) (off, zlen c - off)) Q st1') →
  st_heap st !! buf = Some c → buf ∈ held →
  turn_post i s X c size st r st1 → size ≤ Z.of_nat fuel →
  (∀ st', taken i s X st st' → Q tt st') →
  wpu ((cut X).2 = Short) (match r with inl x => loopM fuel (data_turn reply i buf) x | inr u => mret u end) Q st1.
Proof.
  intros IH Hc Hin Ht Hfuel HQ. unfold turn_post in Ht. unfold taken in HQ. rewrite cut_eq in HQ |- *.
  destruct (first X) as [|p rest| |]; [| | |done].
  - destruct Ht as [-> Ht]. by apply wpu_wp, wp_ret, HQ.
  - destruct (cut rest) as [ps e] eqn:Ec. destruct Ht as (-> & Hle & Hrest & s' & Hrc).
    assert (Hnext : ∀ st2, taken i s' rest st1 st2 → Q tt st2).
    { intros st2 Htk. apply HQ. unfold taken in Htk. rewrite Ec in Htk. cbn [foldl].
      rewrite (rc_h _ _ _ _ _ _ _ _ Hrc), (rc_calls _ _ _ _ _ _ _ _ Hrc) in Htk.
      destruct e as [r| |]; [|by eapply shut_after|done].
      destruct Htk as (s2 & H2). exists s2. by eapply received_trans. }
    destruct (Z.eqb_spec (zlen rest) 0) as [E|E].
    + apply wpu_wp, wp_ret, Hnext. assert (Er : rest = []) by (apply nil_length_inv; unfold zlen in E; lia).
      rewrite Er. unfold taken. cbn. exists s'. destruct Hrc as [R1 R2 R3 R4 R5 R6 R7 R8]. split; try done.
      by rewrite (put_slave_id _ _ _ R1).
    + pose proof (zlen_nonneg rest).
      replace (zlen c - zlen rest, zlen rest) with (zlen c - zlen rest, zlen c - (zlen c - zlen rest)) by (f_equal; lia).
      eapply wpu_weaken; [|apply (IH (zlen c - zlen rest) s' st1)]; [| |apply Hrc|apply Hrc|apply Hrc| |lia|];
        rewrite ?(rc_unread _ _ _ _ _ _ _ _ Hrc), <-?Hrest; cbn [app].
      * by rewrite Ec.
      * lia.
      * rewrite (rc_frame _ _ _ _ _ _ _ _ Hrc); [done|]. unfold others. apply elem_of_app. by left.
      * exact Hnext.
  - destruct Ht as [-> Ht]. by apply wpu_wp, wp_ret, HQ.
Qed.
End data.

Section loop.
Context (reply : list call → Z) (held : list addr).
Implicit Types (s : slave) (st : state).

Lemma short_first X : first X = TooShort → (cut X).2 = Short.
Proof. intros E. by rewrite cut_eq, E. Qed.

Lemma wpu_open_turns fuel i s st buf c off (Q : unit → state → Prop) :
  slave_at i st s → is_open s → hok held (st_h st) (st_heap st) →
  st_heap st !! buf = Some c → bytes c → buf ∈ held → 0 ≤ off ≤ zlen c →
  off < zlen c ∨ sl_status s = STATUS_HEADER ∨ 0 < sl_length s →
  let X := unread s (st_heap st) ++ drop (Z.to_nat off) c in
  zlen c - off < Z.of_nat fuel →
  (∀ st', taken reply held i s X st st' → Q tt st') →
  wpu ((cut X).2 = Short) (loopM fuel (data_turn reply i buf) (off, zlen c - off)) Q st.
Proof.
  intros Hs Hop Hk Hc Hcb Hin Hoff Hfed X Hfuel HQ. subst X.
  revert off s st Hs Hop Hk Hc Hoff Hfed Hfuel HQ. induction fuel as [|fuel IH]; intros; [lia|].
  cbn [loopM]. apply wpu_bind. eapply wpu_weaken; [apply short_first|].
  eapply wpu_open_turn; [exact Hs|exact Hop|exact Hk|exact Hc|done|done|done|done|].
  intros r st1 Ht.
  eapply (wpu_rest_turns reply held buf c fuel (zlen c - off) i s _ st r st1); [|exact Hc|done|exact Ht|lia|exact HQ].
  intros off' s1 st1' Hf Hs1 Ho1 Hk1 Hc1 Hoff1 HQ1. eapply IH; try done; [lia|by left; lia].
Qed.
End loop.

(** ** The queue of a harbor that is connected *)

(** The packages of a queue, for the connection [fd]. *)
Definition queue_calls (fd : Z) (m : gmap addr (list Z)) (q : option harbor_msg_queue) : list call :=
  match q with
  | Some q => concat ((λ x, remote_call fd (msg_data m x) (hm_size x) (hm_header x)) <$> messages q)
  | None => []
  end.

Section queue.
Context (reply : list call → Z) (held : list addr).
Implicit Types (s : slave) (st : state).

Lemma wp_dispatch_queue i s (Q : unit → state → Prop) st :
  slave_at i st s → sl_fd s ≠ 0 → queue_ok (sl_queue s) →
  Forall (has_block (st_heap st)) (queue_needs (sl_queue s)) →
  hok ((queue_needs (sl_queue s)).*1 ++ held) (st_h (put_slave i (set_queue None s) st)) (st_heap st) →
  (∀ st', st_h st' = st_h (put_slave i (set_queue None s) st) →
     st_calls st' = st_calls st ++ queue_calls (sl_fd s) (st_heap st) (sl_queue s) →
     (∀ p, p ∉ (queue_needs (sl_queue s)).*1 → st_heap st' !! p = st_heap st !! p) →
     hok held (st_h st') (st_heap st') → Q tt st') →
  wp (dispatch_queue reply i) Q st.
Proof.
  intros Hs Hfd Hq Hroom Hk HQ. unfold dispatch_queue. apply wp_bind. eapply wp_get_slave; [exact Hs|].
  apply wp_bind, wp_assert; [by apply negb_true_iff, Z.eqb_neq|].
  destruct (sl_queue s) as [q|] eqn:Eq.
  - destruct Hq as (l & Hq & Hl). cbn [queue_calls] in HQ. rewrite (rep_messages _ _ Hq) in HQ.
    rewrite (rep_needs _ _ Hq) in *. apply wp_bind.
    eapply (wp_drain _ (λ bs x, remote_call (sl_fd s) bs (hm_size x) (hm_header x)) q l held);
      [exact Hq|exact Hl|exact Hroom|exact Hk| |].
    + intros m st' Q' (_ & _ & _ & Hsz & _) Hb HQ'. apply wp_bind. eapply wp_send_remote; [done|exact Hb|].
      eapply wp_free_message; [exact Hb|]. apply HQ'.
    + intros q' st1 Hq' [D1 D2 D3] Hk1.
      assert (En : queue_needs (Some q') = []) by by rewrite (rep_needs _ _ Hq').
      apply wp_bind. eapply (wp_release_queue (Some q') held); [by exists []|by rewrite En|rewrite En; exact Hk1|].
      intros st2 E1 E2 E3 Hk2.
      assert (Hs2 : slave_at i st2 s). { destruct Hs as [Hi Hs]. split; [done|]. by rewrite E1, D1. }
      eapply wp_mod_slave; [exact Hs2|].
      assert (E : st_h (put_slave i (set_queue None s) st2) = st_h (put_slave i (set_queue None s) st)).
      { cbn. by rewrite E1, D1. }
      apply HQ; [exact E|cbn; by rewrite E2|intros p Hp; cbn; rewrite E3; [by apply D3|rewrite En; apply not_elem_of_nil]|].
      rewrite E. exact Hk2.
  - apply wp_ret. assert (E : put_slave i (set_queue None s) st = st).
    { rewrite <-(put_slave_id i s st Hs) at 2. f_equal. destruct s. cbn in *. by subst. }
    rewrite E in *. apply HQ; [done|by cbn; rewrite app_nil_r|done|exact Hk].
Qed.

(** ** The slave of a connection *)

Definition peer (fd : Z) (h : harbor) : Z := find_fd fd 1 (take (Z.to_nat (REMOTE_MAX - 1)) (drop 1 (h_s h))).

Lemma find_fd_spec fd k l : 0 < k → let i := find_fd fd k l in
  i = 0 ∨ k ≤ i ∧ ∃ s, l !! Z.to_nat (i - k) = Some s ∧ sl_fd s = fd.
Proof.
  revert k. induction l as [|x l IH]; intros k Hk; [by left|]. cbn [find_fd].
  destruct (Z.eqb_spec (sl_fd x) fd) as [E|E].
  - right. split; [lia|]. exists x. by rewrite Z.sub_diag.
  - destruct (IH (k + 1) ltac:(lia)) as [?|(Hi & s & Hs & Hf)]; [by left|]. right. split; [lia|]. exists s.
    split; [|done]. replace (Z.to_nat (find_fd fd (k + 1) l - k)) with (S (Z.to_nat (find_fd fd (k + 1) l - (k + 1)))) by lia.
    done.
Qed.

Lemma peer_spec fd st : let i := peer fd (st_h st) in
  i = 0 ∨ 1 ≤ i < REMOTE_MAX ∧ ∃ s, slave_at i st s ∧ sl_fd s = fd.
Proof.
  unfold peer. destruct (find_fd_spec fd 1 (take (Z.to_nat (REMOTE_MAX - 1)) (drop 1 (h_s (st_h st)))) ltac:(done))
    as [?|(Hi & s & Hs & Hf)]; [by left|]. right.
  set (i := find_fd _ _ _) in *. pose proof (lookup_lt_Some _ _ _ Hs) as Hlt.
  rewrite length_take in Hlt. split; [unfold REMOTE_MAX in *; lia|]. exists s. split; [|done]. split; [lia|].
  rewrite lookup_take_lt in Hs by lia. rewrite lookup_drop in Hs. rewrite <-Hs. f_equal. lia.
Qed.

Lemma wp_harbor_id fd (Q : Z → state → Prop) st : Q (peer fd (st_h st)) st → wp (harbor_id fd) Q st.
Proof. intros HQ. unfold harbor_id. by apply wp_bind, wp_gets, wp_ret. Qed.

Lemma wpu_push_open i s st buf c fd (Q : unit → state → Prop) :
  slave_at i st s → is_open s → hok held (st_h st) (st_heap st) → peer fd (st_h st) = i → i ≠ 0 →
  st_heap st !! buf = Some c → bytes c → buf ∈ held →
  c ≠ [] ∨ sl_status s = STATUS_HEADER ∨ 0 < sl_length s →
  (∀ st', taken reply held i s (unread s (st_heap st) ++ c) st st' → Q tt st') →
  wpu ((cut (unread s (st_heap st) ++ c)).2 = Short) (push_socket_data reply fd (zlen c) buf) Q st.
Proof.
  intros Hs Hop Hk Hp Hi Hc Hcb Hin Hfed HQ. unfold push_socket_data. wpu_step. apply wp_harbor_id. rewrite Hp.
  rewrite (proj2 (Z.eqb_neq _ _) Hi). pose proof (zlen_nonneg c).
  pose proof (wpu_open_turns reply held (Z.to_nat (zlen c) + 3) i s st buf c 0 Q Hs Hop Hk Hc Hcb Hin ltac:(lia)) as H1.
  cbv zeta in H1. rewrite drop_0, Z.sub_0_r in H1. apply H1; [|lia|done].
  destruct Hfed as [Hne|?]; [left|by right]. destruct c; [done|]. rewrite zlen_cons. pose proof (zlen_nonneg c). lia.
Qed.
End queue.

(** ** The handshake *)

(** The slave behind a handshake. *)
Definition greeted (s : slave) : slave := set_queue None (set_status STATUS_HEADER s).

Section handshake.
Context (reply : list call → Z) (held : list addr).
Implicit Types (s : slave) (st : state).

Lemma handshake_facts s : slave_ok s → sl_status s = STATUS_HANDSHAKE →
  sl_recv_buffer s = None ∧ 0 ≤ sl_read s < 4 ∧ sl_fd s ≠ 0.
Proof.
  intros [_ _ H] Hst. unfold status_ok in H. rewrite Hst in H. cbn in H.
  destruct H as (H1 & H2 & H3). destruct H3 as [(? & _)|[(_ & ?)|[(? & _)|(? & _)]]]; done.
Qed.

Lemma greeted_ok s : slave_ok s → sl_recv_buffer s = None → 0 ≤ sl_read s < 4 → sl_fd s ≠ 0 → slave_ok (greeted s).
Proof. intros [H1 H2 H3] Hr Hrd Hfd. split; [done|done|]. unfold status_ok. cbn. split_and!; [done|lia|lia|]. by left. Qed.

(** The memory of the queue is taken out of a slave. *)
Lemma hok_take_queue i s s' st : slave_at i st s → hok held (st_h st) (st_heap st) → slave_ok s' →
  sl_queue s' = None → sl_recv_buffer s' = None → sl_recv_buffer s = None →
  hok ((queue_needs (sl_queue s)).*1 ++ held) (st_h (put_slave i s' st)) (st_heap st).
Proof.
  intros Hs Hk Hok Hq' Hr' Hr. eapply (hok_slave held); [exact Hk|apply Hs|done| |].
  - unfold slave_needs. rewrite Hq', Hr', Hr, !app_nil_r. solve_Permutation.
  - unfold slave_needs. by rewrite Hq', Hr'.
Qed.

(** What the first data of a connection comes to: the byte [b] is the id of the
    harbor, and [c] is the rest. *)
Definition greeting (i : Z) (s : slave) (b : Z) (c : list Z) (st st' : state) : Prop :=
  if b =? i then
    ∃ st1, st_h st1 = st_h (put_slave i (greeted s) st) ∧
      st_calls st1 = st_calls st ++ queue_calls (sl_fd s) (st_heap st) (sl_queue s) ∧
      (∀ p, p ∈ others held i (st_h st) → st_heap st1 !! p = st_heap st !! p) ∧
      taken reply held i (greeted s) (take (Z.to_nat (sl_read s)) (sl_size s) ++ c) st1 st'
  else shut held i s (st_calls st) st st'.

Lemma wpu_push_handshake i s st buf b c fd (Q : unit → state → Prop) :
  slave_at i st s → sl_status s = STATUS_HANDSHAKE → hok held (st_h st) (st_heap st) →
  peer fd (st_h st) = i → i ≠ 0 → st_heap st !! buf = Some (b :: c) → bytes (b :: c) → buf ∈ held →
  (∀ st', greeting i s b c st st' → Q tt st') →
  wpu (b = i ∧ (cut (take (Z.to_nat (sl_read s)) (sl_size s) ++ c)).2 = Short)
    (push_socket_data reply fd (zlen (b :: c)) buf) Q st.
Proof.
  intros Hs Hst Hk Hp Hi Hc Hcb Hin HQ. pose proof (hok_slave_ok _ _ _ _ Hs Hk) as Hso.
  destruct (handshake_facts s Hso Hst) as (Hr & Hrd & Hfd). pose proof (zlen_nonneg c) as Hz.
  assert (Hroom : Forall (has_block (st_heap st)) (queue_needs (sl_queue s))).
  { pose proof (hok_slave_room _ _ _ _ Hs Hk) as Hroom. by apply Forall_app in Hroom as [? _]. }
  assert (Hother : ∀ p, p ∈ others held i (st_h st) → p ∉ (queue_needs (sl_queue s)).*1).
  { intros p Hp' Hin'. destruct (others_not _ _ _ _ _ Hs Hk Hp') as [Hn _]. apply Hn.
    unfold slave_needs. rewrite fmap_app. apply elem_of_app. by left. }
  unfold push_socket_data. wpu_step. apply wp_harbor_id. rewrite Hp, (proj2 (Z.eqb_neq _ _) Hi).
  assert (Hfuel : ∃ n, (Z.to_nat (zlen (b :: c)) + 3 = S n)%nat ∧ zlen c < Z.of_nat n).
  { exists (Z.to_nat (zlen (b :: c)) + 2)%nat. rewrite zlen_cons. lia. }
  destruct Hfuel as (n & -> & Hn). cbn [loopM]. apply wpu_bind. unfold data_turn at 1.
  wpu_step. eapply wp_get_slave; [exact Hs|]. rewrite Hst. cbn [Z.eqb Pos.eqb STATUS_HANDSHAKE].
  wpu_step. eapply wp_hread; [exact Hc|lia|lia|rewrite zlen_cons; lia|].
  change (nth 0 (take (Z.to_nat 1) (drop (Z.to_nat 0) (b :: c))) 0) with b.
  unfold greeting in HQ. destruct (Z.eqb_spec b i) as [->|Hb]; cbn [negb].
  - wpu_step. eapply wp_mod_slave; [exact Hs|]. wpu_step.
    eapply (wp_dispatch_queue reply held i (set_status STATUS_HEADER s)); [by eapply slave_at_put|done|apply Hso|done| |].
    { rewrite put_slave_put. apply (hok_take_queue i s (greeted s) st); try done. by apply greeted_ok. }
    intros st1 E1 E2 E3 Hk1. rewrite put_slave_put in E1. fold (greeted s) in E1.
    assert (Hs1 : slave_at i st1 (greeted s)).
    { destruct Hs as [Hi' Hs]. split; [done|]. rewrite E1. cbn. apply list_lookup_insert_eq. by eapply lookup_lt_Some. }
    assert (Hfr : ∀ p, p ∈ others held i (st_h st) → st_heap st1 !! p = st_heap st !! p).
    { intros p Hp'. rewrite E3; [done|]. by apply Hother. }
    assert (Hc1 : st_heap st1 !! buf = Some (i :: c)).
    { rewrite Hfr; [done|]. unfold others. apply elem_of_app. by left. }
    rewrite zlen_cons. replace (1 + zlen c - 1) with (zlen (i :: c) - 1) by (rewrite zlen_cons; lia).
    assert (Hu : unread (greeted s) (st_heap st1) ++ drop (Z.to_nat (0 + 1)) (i :: c) =
      take (Z.to_nat (sl_read s)) (sl_size s) ++ c) by done.
    assert (HQ' : ∀ st', taken reply held i (greeted s) (take (Z.to_nat (sl_read s)) (sl_size s) ++ c) st1 st' → Q tt st').
    { intros st' Ht. apply HQ. exists st1. by split_and!. }
    assert (Hend : 0 ≤ 0 + 1 ≤ zlen (i :: c)) by (rewrite zlen_cons; lia).
    wp_case Hz0.
    + apply wpu_wp, wp_ret. eapply wpu_weaken; [|eapply (wpu_open_turns reply held n i (greeted s) st1 buf (i :: c) (0 + 1));
        [exact Hs1|by left|exact Hk1|exact Hc1|done|done|done|by right; left|rewrite zlen_cons; lia|]].
      { by rewrite Hu. }
      intros st' Ht. rewrite Hu in Ht. by apply HQ'.
    + eapply wpu_weaken; [|eapply (wpu_header_turn reply held i (greeted s) st1 buf (i :: c) (0 + 1));
        [exact Hs1|done|exact Hk1|exact Hc1|done|done|done|]].
      { rewrite Hu. intros. split; [done|]. by apply short_first. }
      rewrite Hu. intros r st2 Ht.
      eapply wpu_weaken; [|eapply (wpu_rest_turns reply held buf (i :: c) n (zlen (i :: c) - (0 + 1)) i (greeted s) _ st1 r st2);
        [|exact Hc1|done|exact Ht|rewrite zlen_cons; lia|exact HQ']]; [done|].
      intros off' s1 st1' Hf Hs1' Ho1 Hk1' Hc1' Hoff1 HQ1. eapply wpu_open_turns; try done; [lia|by left; lia].
  - wpu_step. eapply (wp_close_harbor reply held i s); [exact Hs|exact Hr|apply Hso|exact Hroom| |].
    { apply (hok_take_queue i s (closed_slave s) st); try done. by apply closed_ok. }
    intros st' E1 E2 E3 Hk'. apply wpu_wp, wp_ret, wpu_wp, wp_ret, HQ. rewrite (proj2 (Z.eqb_neq _ _) Hfd) in E2.
    split; [by exists s|done| |done]. intros p Hp'. rewrite E3; [done|]. by apply Hother.
Qed.
End handshake.
