(* ===== verification/HarborSend.v ===== *)
(** * What the harbor sends

    The functions of [HarborService] that take messages for other nodes: the table
    of names, the queues of names and of harbors that are not connected, and the
    commands. *)
From S2P Require Import Prelude Text StateM Memory Handle HarborService HarborQueue HarborOk HarborRecv.

Local Open Scope Z_scope.

(** ** The table of names *)

Lemma hash_range name : 0 ≤ name_hash name mod HASH_SIZE < HASH_SIZE.
Proof. by apply Z.mod_pos_bound. Qed.

Lemma wf_bucket h b : wf h → 0 ≤ b < HASH_SIZE → ∃ l, aget (h_map h) b = Ret l ∧ h_map h !! Z.to_nat b = Some l.
Proof.
  intros Hw Hb. apply aget_in. pose proof (wf_map _ Hw) as H. unfold zlen. rewrite H.
  unfold HASH_SIZE in *. lia.
Qed.

Lemma find_node_some h name l k : find_node h name l = Some k →
  ∃ n, l !! k = Some n ∧ k_hash n = h ∧ strncmp_eq (Z.to_nat GLOBALNAME_LENGTH) (k_key n) name = true.
Proof.
  revert k. induction l as [|n l IH]; intros k; [done|]. cbn [find_node].
  destruct (_ && _) eqn:E.
  - intros [= <-]. apply andb_true_iff in E as [E1 E2]. apply Z.eqb_eq in E1. by exists n.
  - destruct (find_node h name l) as [k'|]; [|done]. cbn. intros [= <-]. by apply IH.
Qed.

(** Where a name is in the table. *)
Definition lookup_name (name : list Z) (h : harbor) : option node_at :=
  let b := name_hash name mod HASH_SIZE in
  l ← h_map h !! Z.to_nat b;
  (λ k, (b, k)) <$> find_node (name_hash name) name l.

Lemma wp_hash_search name (Q : option node_at → state → Prop) st :
  wf (st_h st) → Q (lookup_name name (st_h st)) st → wp (hash_search name) Q st.
Proof.
  intros Hw HQ. unfold hash_search, lookup_name in *. apply wp_bind, wp_gets, wp_bind.
  destruct (wf_bucket _ _ Hw (hash_range name)) as (l & Hg & Hl). eapply wp_lift; [exact Hg|].
  apply wp_ret. rewrite Hl in HQ. exact HQ.
Qed.

Lemma lookup_name_node name p st : lookup_name name (st_h st) = Some p →
  ∃ n, node_is p st n ∧ k_hash n = name_hash name.
Proof.
  unfold lookup_name. destruct (h_map _ !! _) as [l|] eqn:Hl; [|done]. cbn.
  destruct (find_node _ _ _) as [k|] eqn:Hk; [|done]. intros [= <-].
  destruct (find_node_some _ _ _ _ Hk) as (n & Hn & Hh & _). exists n. split; [|done].
  split; [apply hash_range|]. by exists l.
Qed.

(** The table with a new name in it. *)
Definition with_name (name : list Z) (h : harbor) : harbor :=
  let b := name_hash name mod HASH_SIZE in
  with_map (alter (cons (MkNode name (name_hash name) 0 None)) (Z.to_nat b) (h_map h)) h.

Lemma wf_with_name name h : wf h → length name = 16%nat → wf (with_name name h).
Proof.
  intros [H1 H2 H3 H4 H5 H6] Hn. pose proof (hash_range name). split; cbn; try done.
  - by rewrite length_alter.
  - intros b l n Hb Hin. destruct (decide (b = Z.to_nat (name_hash name mod HASH_SIZE))) as [->|Hne].
    + rewrite list_lookup_alter_eq in Hb. destruct (h_map h !! _) as [l0|] eqn:El; [|done]. injection Hb as <-.
      apply elem_of_cons in Hin as [->|Hin]; [|by eapply H6].
      split; cbn; try done. rewrite Z2Nat.id; [done|lia].
    + rewrite list_lookup_alter_ne in Hb by done. by eapply H6.
Qed.

Lemma hok_with_name held name h m : hok held h m → length name = 16%nat → hok held (with_name name h) m.
Proof.
  intros Hk Hn. pose proof (wf_with_name name h (hk_wf _ _ _ Hk) Hn) as Hw.
  assert (E : needs (with_name name h) = needs h).
  { unfold needs, with_name. cbn. f_equal. generalize (Z.to_nat (name_hash name mod HASH_SIZE)) as b.
    generalize (h_map h) as l. induction l as [|x l IH]; intros [|b]; cbn; try done. by rewrite IH. }
  destruct Hk as [H1 H2 H3]. split; [by rewrite E|by rewrite E|done].
Qed.

Lemma wp_hash_insert name (Q : node_at → state → Prop) st :
  wf (st_h st) → Q (name_hash name mod HASH_SIZE, O) (put_h (with_name name (st_h st)) st) →
  wp (hash_insert name) Q st.
Proof.
  intros Hw HQ. unfold hash_insert. apply wp_bind, wp_gets, wp_bind.
  destruct (wf_bucket _ _ Hw (hash_range name)) as (l & Hg & Hl). eapply wp_lift; [exact Hg|].
  apply wp_bind. eapply wp_lift.
  { apply aset_in. pose proof (hash_range name). unfold zlen. rewrite (wf_map _ Hw). unfold HASH_SIZE in *. lia. }
  apply wp_bind, wp_modify, wp_ret. unfold with_name in HQ. by rewrite (alter_insert _ _ _ _ Hl) in HQ.
Qed.

Lemma with_name_node name st : wf (st_h st) →
  node_is (name_hash name mod HASH_SIZE, O) (put_h (with_name name (st_h st)) st) (MkNode name (name_hash name) 0 None).
Proof.
  intros Hw. pose proof (hash_range name). destruct (wf_bucket _ _ Hw (hash_range name)) as (l & _ & Hl).
  split; [cbn; lia|]. cbn. rewrite list_lookup_alter_eq, Hl. by eexists.
Qed.

(** The node of a name that is there, or a new one. *)
Definition named (name : list Z) (st : state) : node_at * state :=
  match lookup_name name (st_h st) with
  | Some p => (p, st)
  | None => ((name_hash name mod HASH_SIZE, O), put_h (with_name name (st_h st)) st)
  end.

Lemma wp_named {A} name (k : node_at → M A) (Q : A → state → Prop) st :
  wf (st_h st) → wp (k (named name st).1) Q (named name st).2 →
  wp (node ← hash_search name;
      p ← (match node with Some p => mret p | None => hash_insert name end);
      k p) Q st.
Proof.
  intros Hw HQ. unfold named in HQ. apply wp_bind, wp_hash_search; [done|].
  destruct (lookup_name name (st_h st)) as [p|].
  - by apply wp_bind, wp_ret.
  - by apply wp_bind, wp_hash_insert.
Qed.

Lemma named_ok name held st : hok held (st_h st) (st_heap st) → length name = 16%nat →
  hok held (st_h (named name st).2) (st_heap st) ∧ st_heap (named name st).2 = st_heap st ∧
  st_calls (named name st).2 = st_calls st ∧ h_s (st_h (named name st).2) = h_s (st_h st) ∧
  h_id (st_h (named name st).2) = h_id (st_h st) ∧ h_slave (st_h (named name st).2) = h_slave (st_h st) ∧
  ∃ n, node_is (named name st).1 (named name st).2 n ∧
    (lookup_name name (st_h st) = None → n = MkNode name (name_hash name) 0 None).
Proof.
  intros Hk Hn. unfold named. destruct (lookup_name name (st_h st)) as [p|] eqn:E; cbn [fst snd].
  - split_and!; try done. destruct (lookup_name_node _ _ _ E) as (n & Hnode & _). by exists n.
  - split_and!; try done; [by apply hok_with_name|]. eexists. split; [apply with_name_node, Hk|done].
Qed.

(** ** Headers *)

(** The word with the type and the handle. *)
Definition type_handle (type handle : Z) : Z := handle mod 2 ^ 24 + type mod 256 * 2 ^ 24.

Lemma u32_shiftl type : u32 (Z.shiftl type HANDLE_REMOTE_SHIFT) = Z.shiftl (type mod 256) 24.
Proof.
  unfold u32, HANDLE_REMOTE_SHIFT. rewrite !Z.shiftl_mul_pow2 by done.
  change (2 ^ 32) with (256 * 2 ^ 24). by rewrite Z.mul_mod_distr_r.
Qed.

Lemma handle_mask handle : Z.land handle HANDLE_MASK = handle mod 2 ^ 24.
Proof. change HANDLE_MASK with (2 ^ 24 - 1). by apply land_mask. Qed.

Lemma header_word type handle :
  Z.lor (u32 (Z.shiftl type HANDLE_REMOTE_SHIFT)) (Z.land handle HANDLE_MASK) = type_handle type handle.
Proof.
  rewrite u32_shiftl, handle_mask. unfold type_handle. apply lor_shiftl_l; [done|]. by apply Z.mod_pos_bound.
Qed.

Lemma type_handle_word type handle : is_word (type_handle type handle).
Proof.
  unfold is_word, type_handle. pose proof (Z.mod_pos_bound handle (2 ^ 24) ltac:(done)).
  pose proof (Z.mod_pos_bound type 256 ltac:(done)). lia.
Qed.

Lemma word_shift w : is_word w → 0 ≤ Z.shiftr w HANDLE_REMOTE_SHIFT < REMOTE_MAX.
Proof.
  unfold is_word, HANDLE_REMOTE_SHIFT, REMOTE_MAX. intros H. rewrite Z.shiftr_div_pow2 by done.
  split; [apply Z.div_pos; lia|]. apply Z.div_lt_upper_bound; lia.
Qed.

Lemma u32_word z : is_word (u32 z).
Proof. apply u32_bound. Qed.

Lemma wf_slave_at i st : wf (st_h st) → 0 ≤ i < REMOTE_MAX → ∃ s, slave_at i st s.
Proof.
  intros Hw Hi. destruct (lookup_lt_is_Some_2 (h_s (st_h st)) (Z.to_nat i)) as [s Hs].
  { rewrite (wf_s _ Hw). lia. }
  exists s. split; [lia|done].
Qed.

(** There is room in a queue for one message more. *)
Definition has_place (q : option harbor_msg_queue) : Prop :=
  match q with Some q => zlen (messages q) < 2 ^ 30 - 1 | None => True end.

(** The messages of a queue that may not be there. *)
Definition waiting (q : option harbor_msg_queue) : list harbor_msg :=
  match q with Some q => messages q | None => [] end.

Lemma waiting_needs q : queue_needs q = list_needs (waiting q).
Proof. by destruct q. Qed.

Lemma push_waiting q m : queue_ok q → has_place q → msg_ok m → ∃ q',
  push_queue_msg (default new_queue q) m = Ret q' ∧ queue_ok (Some q') ∧ waiting (Some q') = waiting q ++ [m] ∧
  queue_needs (Some q') = queue_needs q ++ msg_needs m.
Proof.
  intros Hq Hp Hm. assert (H : ∃ l, queue_rep (default new_queue q) l ∧ Forall msg_ok l ∧ waiting q = l).
  { destruct q as [q|]; [|exists []; split; [apply new_queue_rep|done]]. destruct Hq as (l & Hl & Hall).
    exists l. split; [done|]. split; [done|]. by apply rep_messages. }
  destruct H as (l & Hl & Hall & E). destruct (push_rep _ _ m Hl) as (q' & Hrun & Hq').
  { destruct q as [q|]; [|by rewrite <-E]. cbn in *. by rewrite <-E. }
  exists q'. split; [done|]. split; [exists (l ++ [m]); split; [done|by apply Forall_app_2; [|apply Forall_singleton]]|].
  rewrite !waiting_needs. cbn [waiting]. rewrite (rep_messages _ _ Hq'), E. split; [done|].
  unfold list_needs. rewrite fmap_app, concat_app. cbn. by rewrite app_nil_r.
Qed.

Section send.
Context (reply : list call → Z) (held : list addr).
Implicit Types (s : slave) (st : state).

(** What [remote_send_handle] does with a message. *)
Inductive sent_out (source destination type session : Z) (msg : option addr) (sz : Z) (st : state)
    : Z → state → Prop :=
| sent_own st' :
    Z.shiftr destination HANDLE_REMOTE_SHIFT = h_id (st_h st) → st_h st' = st_h st →
    st_calls st' = st_calls st ++ [CSend source destination (Z.lor type PTYPE_TAG_DONTCOPY) session
      ((λ _, buf_data (st_heap st) msg sz) <$> msg)] →
    hok held (st_h st') (st_heap st') → sent_out source destination type session msg sz st 1 st'
| sent_down s st' :
    slave_at (Z.shiftr destination HANDLE_REMOTE_SHIFT) st s → sl_status s = STATUS_DOWN →
    st' = put_calls (st_calls st ++ [CSend destination source PTYPE_ERROR session None]) st →
    sent_out source destination type session msg sz st 0 st'
| sent_queue s q' st' :
    slave_at (Z.shiftr destination HANDLE_REMOTE_SHIFT) st s →
    Z.shiftr destination HANDLE_REMOTE_SHIFT ≠ h_id (st_h st) →
    (sl_fd s = 0 ∨ sl_status s = STATUS_HANDSHAKE) → sl_status s ≠ STATUS_DOWN →
    waiting (Some q') = waiting (sl_queue s) ++
      [MkMsg (MkHeader source (type_handle type destination) (u32 session)) msg sz] →
    st' = put_slave (Z.shiftr destination HANDLE_REMOTE_SHIFT) (set_queue (Some q') s) st →
    hok held (st_h st') (st_heap st') → sent_out source destination type session msg sz st 1 st'
| sent_away s st' :
    slave_at (Z.shiftr destination HANDLE_REMOTE_SHIFT) st s →
    Z.shiftr destination HANDLE_REMOTE_SHIFT ≠ h_id (st_h st) → sl_fd s ≠ 0 → is_open s → sl_queue s = None →
    st' = put_calls (st_calls st ++ remote_call (sl_fd s) (buf_data (st_heap st) msg sz) sz
      (MkHeader source (type_handle type destination) (u32 session))) st →
    sent_out source destination type session msg sz st 0 st'.

Lemma open_facts s : slave_ok s → sl_fd s ≠ 0 → sl_status s ≠ STATUS_HANDSHAKE → is_open s ∧ sl_queue s = None.
Proof.
  intros [_ _ H] Hfd Hst. unfold status_ok in H. destruct (Z.eqb_spec (sl_status s) STATUS_CONTENT) as [E|E].
  - split; [by right|]. by destruct H as (_ & ? & _).
  - destruct H as (_ & _ & [(? & _ & ?)|[(? & _)|[(_ & ?)|(_ & ? & _)]]]); try done. split; [by left|done].
Qed.

Lemma wp_remote_send_handle source destination type session msg sz (Q : Z → state → Prop) st :
  hok ((buf_needs msg sz).*1 ++ held) (st_h st) (st_heap st) → Forall (has_block (st_heap st)) (buf_needs msg sz) →
  0 ≤ sz → (msg = None → sz = 0) → is_word source → is_word destination →
  (∀ s, slave_at (Z.shiftr destination HANDLE_REMOTE_SHIFT) st s → has_place (sl_queue s)) →
  (∀ r st', sent_out source destination type session msg sz st r st' → Q r st') →
  wp (remote_send_handle reply source destination type session msg sz) Q st.
Proof.
  intros Hk Hb Hsz Hnull Hsrc Hdst Hplace HQ. unfold remote_send_handle. apply wp_bind, wp_gets.
  wp_case Eid; [apply Z.eqb_eq in Eid|apply Z.eqb_neq in Eid].
  { apply wp_bind. eapply wp_send_away; [done|exact Hb|]. apply wp_ret, HQ.
    apply sent_own; [done|done|done|]. cbn. by eapply hok_free_buf. }
  destruct (wf_slave_at (Z.shiftr destination HANDLE_REMOTE_SHIFT) st (hk_wf _ _ _ Hk)) as [s Hs]; [by apply word_shift|].
  pose proof (hok_slave_ok _ _ _ _ Hs Hk) as Hso.
  apply wp_bind. eapply wp_get_slave; [exact Hs|]. rewrite header_word.
  destruct ((sl_fd s =? 0) || (sl_status s =? STATUS_HANDSHAKE)) eqn:Ew.
  - wp_case Ed; [apply Z.eqb_eq in Ed|apply Z.eqb_neq in Ed].
    + unfold send_nothing. apply wp_bind, wp_post_ret, wp_ret, HQ. by eapply sent_down.
    + apply wp_bind. destruct (push_waiting (sl_queue s)
        (MkMsg (MkHeader source (type_handle type destination) (u32 session)) msg sz)) as (q' & Hrun & Hq' & Hwt & Hn).
      { apply Hso. } { by apply Hplace. }
      { split; [done|]. split; [apply type_handle_word|]. split; [apply u32_word|]. by split. }
      eapply wp_lift; [exact Hrun|]. apply wp_bind. eapply wp_mod_slave; [exact Hs|]. apply wp_ret, HQ.
      eapply sent_queue; [exact Hs|done| |done|exact Hwt|done|].
      { apply orb_true_iff in Ew as [E|E]; apply Z.eqb_eq in E; [by left|by right]. }
      change (msg_needs _) with (buf_needs msg sz) in Hn.
      assert (Esn : slave_needs (set_queue (Some q') s) ≡ₚ slave_needs s ++ buf_needs msg sz).
      { unfold slave_needs. cbn [set_queue sl_queue sl_recv_buffer sl_length]. rewrite Hn. solve_Permutation. }
      eapply (hok_slave ((buf_needs msg sz).*1 ++ held)); [exact Hk|apply Hs| | |].
      * destruct Hso as [S1 S2 S3]. split; [done|done|]. unfold status_ok in *. cbn.
        destruct (Z.eqb_spec (sl_status s) STATUS_CONTENT) as [E|E].
        -- exfalso. rewrite E in Ew. destruct S3 as (? & _). rewrite (proj2 (Z.eqb_neq _ _)) in Ew by done. done.
        -- destruct S3 as (R1 & R2 & R3). split; [done|]. split; [done|].
           destruct R3 as [(E1 & E2 & _)|[R3|[R3|(? & _)]]]; [|by right; left|by do 2 right; left|done].
           exfalso. rewrite E1, (proj2 (Z.eqb_neq _ _) E2) in Ew. done.
      * rewrite Esn, fmap_app. solve_Permutation.
      * rewrite Esn. apply Forall_app. split; [|exact Hb]. exact (hok_slave_room _ _ _ _ Hs Hk).
  - apply orb_false_iff in Ew as [E1 E2]. apply Z.eqb_neq in E1, E2.
    destruct (open_facts s Hso E1 E2) as [Hop Hq].
    apply wp_bind. eapply wp_send_remote; [done|exact Hb|]. apply wp_ret, HQ. by eapply sent_away.
Qed.
End send.

(** ** The messages that wait for a name *)

Section names.
Context (reply : list call → Z) (held : list addr).
Implicit Types (s : slave) (st : state).

(** The call for a message to a service of the own node. *)
Definition local_call (handle : Z) (bs : list Z) (m : harbor_msg) : list call :=
  [CSend (hd_source (hm_header m)) handle
    (Z.lor (Z.shiftr (hd_destination (hm_header m)) HANDLE_REMOTE_SHIFT) PTYPE_TAG_DONTCOPY)
    (i32 (hd_session (hm_header m))) ((λ _, bs) <$> hm_buffer m)].

(** The call for a message to a service of another node. *)
Definition name_call (fd handle : Z) (bs : list Z) (m : harbor_msg) : list call :=
  remote_call fd bs (hm_size m) (MkHeader (hd_source (hm_header m))
    (Z.lor (hd_destination (hm_header m)) (Z.land handle HANDLE_MASK)) (hd_session (hm_header m))).

Definition calls_of (out : list Z → harbor_msg → list call) (m : gmap addr (list Z)) (l : list harbor_msg) : list call :=
  concat ((λ x, out (msg_data m x) x) <$> l).

(** What has become of the messages [l] of a name: they stay (and are freed
    afterwards), wait for the harbor, or have gone out. [q] is the queue that the
    node has then. *)
Inductive name_sent (p : node_at) (n : keyvalue) (l : list harbor_msg) (st : state)
    (q : option harbor_msg_queue) : state → Prop :=
| name_down s :
    slave_at (Z.shiftr (k_value n) HANDLE_REMOTE_SHIFT) st s → sl_status s = STATUS_DOWN →
    q = k_queue n → name_sent p n l st q st
| name_moved s q2 :
    slave_at (Z.shiftr (k_value n) HANDLE_REMOTE_SHIFT) st s → sl_fd s = 0 → sl_status s = STATUS_WAIT →
    Z.shiftr (k_value n) HANDLE_REMOTE_SHIFT ≠ Z.shiftr (h_slave (st_h st)) HANDLE_REMOTE_SHIFT →
    waiting (Some q2) = waiting (sl_queue s) ++ l → waiting q = [] →
    name_sent p n l st q (put_node p (set_kqueue q n)
      (put_slave (Z.shiftr (k_value n) HANDLE_REMOTE_SHIFT) (set_queue (Some q2) s) st))
| name_local s st' :
    slave_at (Z.shiftr (k_value n) HANDLE_REMOTE_SHIFT) st s → sl_fd s = 0 → sl_status s = STATUS_WAIT →
    Z.shiftr (k_value n) HANDLE_REMOTE_SHIFT = Z.shiftr (h_slave (st_h st)) HANDLE_REMOTE_SHIFT → waiting q = [] →
    st_h st' = st_h (put_node p (set_kqueue q n)
      (put_slave (Z.shiftr (k_value n) HANDLE_REMOTE_SHIFT) (set_queue None s) st)) →
    st_calls st' = st_calls st ++ calls_of (local_call (k_value n)) (st_heap st) (waiting (sl_queue s) ++ l) →
    name_sent p n l st q st'
| name_away s st' :
    slave_at (Z.shiftr (k_value n) HANDLE_REMOTE_SHIFT) st s → sl_fd s ≠ 0 → waiting q = [] →
    st_h st' = st_h (put_node p (set_kqueue q n) st) →
    st_calls st' = st_calls st ++ calls_of (name_call (sl_fd s) (k_value n)) (st_heap st) l →
    name_sent p n l st q st'.

Lemma wait_facts s : slave_ok s → sl_fd s = 0 → sl_status s ≠ STATUS_DOWN →
  sl_status s = STATUS_WAIT ∧ sl_recv_buffer s = None.
Proof.
  intros [_ _ H] Hfd Hst. unfold status_ok in H. destruct (Z.eqb_spec (sl_status s) STATUS_CONTENT) as [E|E].
  - by destruct H as (? & _).
  - destruct H as (Hr & _ & [(_ & ? & _)|[(_ & ?)|[(? & _)|(? & _)]]]); done.
Qed.

Lemma slave_queue_ok s q : slave_ok s → sl_status s = STATUS_WAIT → queue_ok q → slave_ok (set_queue q s).
Proof.
  intros [S1 S2 S3] Hst Hq. split; [done|done|]. unfold status_ok in *. cbn. rewrite Hst in *. cbn in *.
  destruct S3 as (R1 & R2 & R3). split; [done|]. split; [done|].
  destruct R3 as [(? & _)|[(? & _)|[R3|(? & _)]]]; [done|done|by do 2 right; left|done].
Qed.

Lemma hok_node_ok p n st : node_is p st n → hok held (st_h st) (st_heap st) →
  node_ok (Z.to_nat p.1) n ∧ Forall (has_block (st_heap st)) (queue_needs (k_queue n)).
Proof.
  intros (_ & l & Hl & Hn) Hk. split.
  - eapply (wf_nodes _ (hk_wf _ _ _ Hk)); [exact Hl|]. by eapply list_elem_of_lookup_2.
  - pose proof (hk_room _ _ _ Hk) as Hr. unfold needs in Hr. apply Forall_app in Hr as [_ Hr].
    apply List.Forall_concat in Hr. rewrite Forall_fmap in Hr. pose proof (Forall_lookup_1 _ _ _ _ Hr Hl) as Hr'.
    unfold chain_needs in Hr'. cbn in Hr'. apply List.Forall_concat in Hr'. rewrite Forall_fmap in Hr'.
    by apply (Forall_lookup_1 _ _ _ _ Hr' Hn).
Qed.

Lemma set_kqueue_ok b q n : node_ok b n → queue_ok q → node_ok b (set_kqueue q n).
Proof. intros [] Hq. by split. Qed.

(** The messages of a name are taken out of its node. *)
Lemma hok_take_name p n q st : node_is p st n → hok held (st_h st) (st_heap st) → queue_ok q → queue_needs q = [] →
  hok ((queue_needs (k_queue n)).*1 ++ held) (st_h (put_node p (set_kqueue q n) st)) (st_heap st).
Proof.
  intros Hn Hk Hq E. destruct (hok_node_ok _ _ _ Hn Hk) as [Hno _]. destruct Hn as (_ & l & Hl & Hn).
  eapply (hok_node held); [exact Hk|exact Hl|exact Hn|by apply set_kqueue_ok| |]; cbn; rewrite E; [|done].
  cbn. rewrite app_nil_r. apply Permutation.Permutation_app_comm.
Qed.

Lemma name_away_wp p n q l s (Q : unit → state → Prop) st :
  node_is p st n → hok held (st_h st) (st_heap st) → k_queue n = Some q → queue_rep q l → Forall msg_ok l →
  slave_at (Z.shiftr (k_value n) HANDLE_REMOTE_SHIFT) st s → sl_fd s ≠ 0 →
  (∀ q' st', name_sent p n l st q' st' → queue_ok q' → hok held (st_h st') (st_heap st') →
     node_is p st' (set_kqueue q' n) → Q tt st') →
  wp (queue ← while_pop (λ m,
        let h := hm_header m in
        send_remote reply (sl_fd s) (hm_buffer m) (hm_size m)
          (MkHeader (hd_source h) (Z.lor (hd_destination h) (Z.land (k_value n) HANDLE_MASK)) (hd_session h));;
        free_buffer (hm_buffer m)) q;
      mod_node p (set_kqueue (Some queue))) Q st.
Proof.
  intros Hn Hk Eq Hq Hl Hs Hfd HQ. destruct (hok_node_ok _ _ _ Hn Hk) as [Hno Hroom].
  rewrite Eq, (rep_needs _ _ Hq) in Hroom. apply wp_bind.
  assert (Hnew : queue_needs (Some new_queue) = []) by by rewrite (rep_needs _ _ new_queue_rep).
  pose proof (hok_take_name p n (Some new_queue) st Hn Hk ltac:(exists []; split; [apply new_queue_rep|done]) Hnew) as Hk1.
  rewrite Eq, (rep_needs _ _ Hq) in Hk1.
  eapply (wp_drain _ (name_call (sl_fd s) (k_value n)) q l held); [exact Hq|exact Hl|exact Hroom|exact Hk1| |].
  - intros m st' Q' (_ & _ & _ & Hsz & _) Hb HQ'. apply wp_bind. eapply wp_send_remote; [done|exact Hb|].
    eapply wp_free_message; [exact Hb|]. apply HQ'.
  - intros q' st1 Hq' [D1 D2 D3] Hk2.
    assert (Hn1 : node_is p st1 n). { unfold node_is. by rewrite D1. }
    eapply wp_mod_node; [exact Hn1|].
    assert (Hqn : queue_needs (Some q') = []) by by rewrite (rep_needs _ _ Hq').
    assert (E : st_h (put_node p (set_kqueue (Some q') n) st1) = st_h (put_node p (set_kqueue (Some q') n) st)).
    { cbn. by rewrite D1. }
    apply (HQ (Some q')); [| |rewrite E|by eapply node_is_put].
    + eapply name_away; [exact Hs|done|cbn; by rewrite (rep_messages _ _ Hq')|exact E|exact D2].
    + by exists [].
    + pose proof (hok_take_name p n (Some q') st Hn Hk ltac:(by exists []) Hqn) as Hk3.
      rewrite Eq, (rep_needs _ _ Hq) in Hk3.
      destruct Hk2 as [O1 O2 O3]. destruct Hk3 as [P1 P2 P3].
      assert (En : needs (st_h (put_node p (set_kqueue (Some q') n) st)) ≡ₚ needs (st_h (put_node p (set_kqueue (Some new_queue) n) st))).
      { destruct Hn as (_ & lb & Hlb & Hn). pose proof (needs_node (st_h st) p lb n (set_kqueue (Some q') n) Hlb Hn) as N1.
        pose proof (needs_node (st_h st) p lb n (set_kqueue (Some new_queue) n) Hlb Hn) as N2.
        cbn [set_kqueue k_queue] in N1, N2. rewrite Hqn, app_nil_r in N1. rewrite Hnew, app_nil_r in N2.
        apply (Permutation.Permutation_app_inv_r (queue_needs (k_queue n))). by rewrite N1, N2. }
      split; [rewrite En; exact O1|cbn [put_node put_h st_heap]; rewrite En; exact O2|exact P3].
Qed.
End names.

Section join.
Context (reply : list call → Z) (held : list addr).
Implicit Types (s : slave) (st : state).

Lemma put_slave_node i s p n st : put_slave i s (put_node p n st) = put_node p n (put_slave i s st).
Proof. done. Qed.

(** The messages [l] of a name go to the queue of a slave. *)
Lemma hok_move p n q q2 l i s st :
  node_is p st n → slave_at i st s → hok held (st_h st) (st_heap st) → sl_status s = STATUS_WAIT →
  sl_recv_buffer s = None → queue_needs (k_queue n) = list_needs l → queue_ok q → queue_needs q = [] →
  queue_ok (Some q2) → waiting (Some q2) = waiting (sl_queue s) ++ l →
  hok held (st_h (put_node p (set_kqueue q n) (put_slave i (set_queue (Some q2) s) st))) (st_heap st).
Proof.
  intros Hn Hs Hk Hst Hr El Hq Eq Hq2 Ew. pose proof (hok_slave_ok _ _ _ _ Hs Hk) as Hso.
  pose proof (hok_slave_room _ _ _ _ Hs Hk) as Hroom. destruct (hok_node_ok _ _ _ _ Hn Hk) as [_ Hnroom].
  pose proof (hok_take_name held p n q st Hn Hk Hq Eq) as Hk1. rewrite <-put_slave_node.
  assert (En : slave_needs (set_queue (Some q2) s) = slave_needs s ++ list_needs l).
  { unfold slave_needs. cbn [set_queue sl_queue sl_recv_buffer]. rewrite Hr, !waiting_needs, Ew, !app_nil_r.
    unfold list_needs. by rewrite fmap_app, concat_app. }
  eapply (hok_slave ((queue_needs (k_queue n)).*1 ++ held)); [exact Hk1|apply Hs|by apply slave_queue_ok| |].
  - rewrite En, El, fmap_app. solve_Permutation.
  - rewrite En. apply Forall_app. split; [exact Hroom|]. rewrite <-El. exact Hnroom.
Qed.

Lemma name_join_wp p n q l s (Q : unit → state → Prop) st :
  let i := Z.shiftr (k_value n) HANDLE_REMOTE_SHIFT in
  node_is p st n → hok held (st_h st) (st_heap st) → k_queue n = Some q → queue_rep q l → Forall msg_ok l →
  slave_at i st s → sl_status s = STATUS_WAIT → sl_recv_buffer s = None →
  zlen (waiting (sl_queue s) ++ l) < 2 ^ 30 - 1 →
  (∀ q' q2, queue_ok q' → waiting q' = [] → queue_ok (Some q2) → waiting (Some q2) = waiting (sl_queue s) ++ l →
     hok held (st_h (put_node p (set_kqueue q' n) (put_slave i (set_queue (Some q2) s) st))) (st_heap st) →
     Q tt (put_node p (set_kqueue q' n) (put_slave i (set_queue (Some q2) s) st))) →
  wp (match sl_queue s with
      | None => mod_slave i (set_queue (Some q));; mod_node p (set_kqueue None)
      | Some _ =>
          queue ← while_pop (λ m,
            s ← get_slave i;
            q ← liftO (match sl_queue s with Some q => push_queue_msg q m | None => Undef end);
            mod_slave i (set_queue (Some q))) q;
          mod_node p (set_kqueue (Some queue))
      end) Q st.
Proof.
  intros i Hn Hk Eq Hq Hl Hs Hst Hr Hroom HQ. pose proof (hok_slave_ok _ _ _ _ Hs Hk) as Hso.
  assert (El : queue_needs (k_queue n) = list_needs l) by (rewrite Eq; by apply rep_needs).
  destruct (sl_queue s) as [q0|] eqn:Es.
  2:{ apply wp_bind. eapply wp_mod_slave; [exact Hs|]. eapply wp_mod_node; [exact Hn|].
      assert (Hw : waiting (Some q) = waiting (sl_queue s) ++ l) by (rewrite Es; by apply rep_messages).
      apply (HQ None q); [done|done|by exists l|by rewrite Es in Hw|].
      eapply (hok_move p n None q l); try done. by exists l. }
  pose proof (so_queue _ Hso) as Hqo. rewrite Es in Hqo. destruct Hqo as (l0 & Hq0 & Hl0).
  assert (Ew0 : waiting (Some q0) = l0) by by apply rep_messages. rewrite Ew0 in *.
  apply wp_bind. eapply (wp_while_pop _ (λ r st', ∃ pre q', l = pre ++ r ∧ queue_rep q' (l0 ++ pre) ∧
    st' = put_slave i (set_queue (Some q') s) st)); [exact Hq| | |].
  - exists [], q0. split; [done|]. rewrite app_nil_r. split; [done|]. rewrite <-Es.
    rewrite <-(put_slave_id i s st Hs) at 1. f_equal. by destruct s.
  - intros m r st' _ (pre & q' & E & Hq' & ->). apply wp_bind. eapply wp_get_slave; [by eapply slave_at_put|].
    cbn [set_queue sl_queue]. destruct (push_rep q' (l0 ++ pre) m Hq') as (q2 & Hrun & Hq2).
    { rewrite E in Hroom. rewrite !zlen_app in *. pose proof (zlen_nonneg (m :: r)). lia. }
    apply wp_bind. eapply wp_lift; [exact Hrun|]. eapply wp_mod_slave; [by eapply slave_at_put|].
    rewrite put_slave_put. exists (pre ++ [m]), q2. rewrite <-!app_assoc. split; [done|].
    split; [by rewrite app_assoc|done].
  - intros q' st' Hq' (pre & q2 & E & Hq2 & ->). rewrite app_nil_r in E. subst pre.
    eapply wp_mod_node; [exact Hn|].
    assert (Eq' : queue_needs (Some q') = []) by by rewrite (rep_needs _ _ Hq').
    assert (Hok2 : queue_ok (Some q2)) by (exists (l0 ++ l); split; [done|by apply Forall_app_2]).
    assert (Hw : waiting (Some q2) = l0 ++ l) by by apply rep_messages.
    apply HQ; [by exists []|by apply rep_messages|done|done|].
    eapply (hok_move p n (Some q') q2 l); try done; [by exists []|]. by rewrite Es, Ew0.
Qed.
End join.

Section dispatch.
Context (reply : list call → Z) (held : list addr).
Implicit Types (s : slave) (st : state).

(** The queue of the own node is emptied at once. *)
Lemma name_local_wp p n q' q2 s i (Q : unit → state → Prop) st :
  let st1 := put_node p (set_kqueue q' n) (put_slave i (set_queue (Some q2) s) st) in
  slave_at i st s → slave_ok s → sl_status s = STATUS_WAIT → queue_ok (Some q2) →
  hok held (st_h st1) (st_heap st) →
  (∀ st', st_h st' = st_h (put_node p (set_kqueue q' n) (put_slave i (set_queue None s) st)) →
     st_calls st' = st_calls st ++ calls_of (local_call (k_value n)) (st_heap st) (waiting (Some q2)) →
     hok held (st_h st') (st_heap st') → Q tt st') →
  wp (s ← get_slave i;
      match sl_queue s with
      | None => liftO Undef
      | Some q =>
          q ← while_pop (λ m,
            let h := hm_header m in
            let type := Z.shiftr (hd_destination h) HANDLE_REMOTE_SHIFT in
            fengnet_send reply (hd_source h) (k_value n) (Z.lor type PTYPE_TAG_DONTCOPY)
              (i32 (hd_session h)) (hm_buffer m) (hm_size m);;
            mret tt) q;
          release_queue (Some q);;
          mod_slave i (set_queue None)
      end) Q st1.
Proof.
  intros st1 Hs Hso Hst (l & Hq2 & Hl) Hk HQ.
  assert (Hs1 : slave_at i st1 (set_queue (Some q2) s)).
  { destruct Hs as [Hi Hs]. split; [done|]. cbn. apply list_lookup_insert_eq. by eapply lookup_lt_Some. }
  assert (Hr : sl_recv_buffer s = None).
  { destruct Hso as [_ _ S3]. unfold status_ok in S3. rewrite Hst in S3. cbn in S3. by destruct S3. }
  apply wp_bind. eapply wp_get_slave; [exact Hs1|]. cbn [set_queue sl_queue].
  pose proof (hok_slave_room _ _ _ _ Hs1 Hk) as Hroom. unfold slave_needs in Hroom.
  cbn [set_queue sl_queue sl_recv_buffer] in Hroom. rewrite Hr, app_nil_r, (rep_needs _ _ Hq2) in Hroom.
  set (h2 := st_h (put_slave i (set_queue None s) st1)).
  assert (Hk2 : hok ((list_needs l).*1 ++ held) h2 (st_heap st1)).
  { eapply (hok_slave held); [exact Hk|apply Hs1|by apply slave_queue_ok| |].
    - unfold slave_needs. cbn [set_queue sl_queue sl_recv_buffer]. rewrite Hr, (rep_needs _ _ Hq2).
      cbn. rewrite !app_nil_r. apply Permutation.Permutation_app_comm.
    - unfold slave_needs. cbn. by rewrite Hr. }
  apply wp_bind. eapply (wp_drain _ (local_call (k_value n)) q2 l held); [exact Hq2|exact Hl|exact Hroom|exact Hk2| |].
  - intros m st' Q' (_ & _ & _ & Hsz & _) Hb HQ'. apply wp_bind. eapply wp_send_away; [done|exact Hb|].
    apply wp_ret. apply HQ'.
  - intros q3 st2 Hq3 [D1 D2 D3] Hk3.
    assert (En : queue_needs (Some q3) = []) by by rewrite (rep_needs _ _ Hq3).
    apply wp_bind. eapply (wp_release_queue (Some q3) held); [by exists []|by rewrite En|rewrite En; exact Hk3|].
    intros st3 E1 E2 E3 Hk4.
    assert (Hs3 : slave_at i st3 (set_queue (Some q2) s)). { destruct Hs1 as [Hi Hs1]. split; [done|]. by rewrite E1, D1. }
    eapply wp_mod_slave; [exact Hs3|].
    assert (E : st_h (put_slave i (set_queue None s) st3) = h2). { unfold h2. cbn. by rewrite E1, D1. }
    change (set_queue None (set_queue (Some q2) s)) with (set_queue None s).
    apply HQ.
    + rewrite E. unfold h2, st1. cbn. unfold with_s, with_node. cbn. by rewrite list_insert_insert_eq.
    + cbn. rewrite E2, D2. unfold calls_of. cbn [waiting]. by rewrite (rep_messages _ _ Hq2).
    + rewrite E. exact Hk4.
Qed.

Lemma wp_dispatch_name_queue p n q l (Q : unit → state → Prop) st :
  node_is p st n → hok held (st_h st) (st_heap st) → k_queue n = Some q → queue_rep q l → Forall msg_ok l →
  (∀ s, slave_at (Z.shiftr (k_value n) HANDLE_REMOTE_SHIFT) st s → zlen (waiting (sl_queue s) ++ l) < 2 ^ 30 - 1) →
  (∀ q' st', name_sent p n l st q' st' → queue_ok q' → hok held (st_h st') (st_heap st') →
     node_is p st' (set_kqueue q' n) → Q tt st') →
  wp (dispatch_name_queue reply p) Q st.
Proof.
  intros Hn Hk Eq Hq Hl Hroom HQ. destruct (hok_node_ok _ _ _ _ Hn Hk) as [Hno _].
  unfold dispatch_name_queue. apply wp_bind. eapply wp_get_node; [exact Hn|].
  set (i := Z.shiftr (k_value n) HANDLE_REMOTE_SHIFT) in *.
  destruct (wf_slave_at i st (hk_wf _ _ _ Hk)) as [s Hs]; [apply word_shift, Hno|].
  apply wp_bind. eapply wp_get_slave; [exact Hs|]. rewrite Eq. specialize (Hroom s Hs).
  pose proof (hok_slave_ok _ _ _ _ Hs Hk) as Hso.
  wp_case Hfd; [apply Z.eqb_eq in Hfd|apply Z.eqb_neq in Hfd]; [|by eapply name_away_wp].
  wp_case Hd; [apply Z.eqb_eq in Hd|apply Z.eqb_neq in Hd].
  { apply wp_ret, (HQ (k_queue n)); [by eapply name_down|apply Hno|done|]. destruct n. exact Hn. }
  destruct (wait_facts s Hso Hfd Hd) as [Hst Hr].
  assert (Hnode : ∀ q' x, node_is p (put_node p (set_kqueue q' n) (put_slave i x st)) (set_kqueue q' n)).
  { intros q' x. by eapply (node_is_put p n (set_kqueue q' n) (put_slave i x st)). }
  apply wp_bind. eapply (name_join_wp held p n q l s); try done. intros q' q2 Hq' Ew' Hq2 Ew2 Hk2.
  apply wp_bind, wp_gets. wp_case Hloc; [apply Z.eqb_eq in Hloc|apply Z.eqb_neq in Hloc].
  - eapply (name_local_wp p n q' q2 s i _ st); try done. intros st' E1 E2 Hk3.
    apply (HQ q'); [|done|done|].
    + eapply name_local; [exact Hs|done|done|done|done|exact E1|]. by rewrite E2, Ew2.
    + unfold node_is. rewrite E1. apply Hnode.
  - apply wp_ret, (HQ q'); [by eapply name_moved|done|done|apply Hnode].
Qed.
End dispatch.

(** ** The commands and the messages *)

(** No queue is near the size that an [int] cannot double. *)
Definition queues_small (h : harbor) : Prop :=
  (∀ s, s ∈ h_s h → zlen (waiting (sl_queue s)) < 2 ^ 29) ∧
  (∀ l n, l ∈ h_map h → n ∈ l → zlen (waiting (k_queue n)) < 2 ^ 29 - 1).

Section update.
Context (reply : list call → Z) (held : list addr).
Implicit Types (s : slave) (st : state).

(** What [update_name] does: the node of the name, and the messages that waited. *)
Inductive updated (name : list Z) (handle : Z) (st st' : state) : Prop :=
| updated_quiet p st1 n :
    named name st = (p, st1) → node_is p st1 n → k_queue n = None →
    st' = put_node p (set_value handle n) st1 → updated name handle st st'
| updated_sent p st1 n q l q' st2 :
    named name st = (p, st1) → node_is p st1 n → k_queue n = Some q → queue_rep q l →
    name_sent p (set_value handle n) l (put_node p (set_value handle n) st1) q' st2 →
    st_h st' = st_h (put_node p (set_kqueue None (set_value handle n)) st2) →
    st_calls st' = st_calls st2 → (∀ a, a ∉ (queue_needs q').*1 → st_heap st' !! a = st_heap st2 !! a) →
    updated name handle st st'.

Lemma small_node p n st : queues_small (st_h st) → node_is p st n → zlen (waiting (k_queue n)) < 2 ^ 29 - 1.
Proof. intros [_ H] (_ & l & Hl & Hn). eapply H; by eapply list_elem_of_lookup_2. Qed.

Lemma small_slave i s st : queues_small (st_h st) → slave_at i st s → zlen (waiting (sl_queue s)) < 2 ^ 29.
Proof. intros [H _] [_ Hs]. apply H. by eapply list_elem_of_lookup_2. Qed.

Lemma wp_update_name name handle (Q : unit → state → Prop) st :
  hok held (st_h st) (st_heap st) → length name = 16%nat → is_word handle → queues_small (st_h st) →
  (∀ st', updated name handle st st' → hok held (st_h st') (st_heap st') → Q tt st') →
  wp (update_name reply name handle) Q st.
Proof.
  intros Hk Hname Hh Hsm HQ. unfold update_name. eapply wp_named; [apply Hk|].
  destruct (named_ok name held st Hk Hname) as (Hk1 & Em & Ec & Es & Eid & Esl & n & Hn & Hnew).
  destruct (named name st) as [p st1] eqn:Enm. cbn [fst snd] in *. rewrite <-Em in Hk1.
  destruct (hok_node_ok _ _ _ _ Hn Hk1) as [Hno Hroom].
  apply wp_bind. eapply wp_mod_node; [exact Hn|].
  assert (Hn2 : node_is p (put_node p (set_value handle n) st1) (set_value handle n)) by by eapply node_is_put.
  apply wp_bind. eapply wp_get_node; [exact Hn2|]. cbn [set_value k_queue].
  assert (Hk2 : hok held (st_h (put_node p (set_value handle n) st1)) (st_heap st1)).
  { destruct Hn as (_ & lb & Hlb & Hn). eapply (hok_node held); [exact Hk1|exact Hlb|exact Hn| |done|exact Hroom].
    destruct Hno. by split. }
  destruct (k_queue n) as [q|] eqn:Eq; [|apply wp_ret, HQ; [by eapply updated_quiet|exact Hk2]].
  pose proof (no_queue _ _ Hno) as Hqok. rewrite Eq in Hqok. destruct Hqok as (l & Hq & Hl).
  assert (Hln : zlen l < 2 ^ 29 - 1).
  { destruct (lookup_name name (st_h st)) eqn:El; [|specialize (Hnew eq_refl); by subst n].
    assert (st1 = st) as -> by (unfold named in Enm; rewrite El in Enm; by injection Enm).
    pose proof (small_node _ _ _ Hsm Hn) as H. rewrite Eq in H. cbn in H. by rewrite (rep_messages _ _ Hq) in H. }
  apply wp_bind. eapply (wp_dispatch_name_queue reply held p (set_value handle n) q l); [exact Hn2|exact Hk2|exact Eq|done|done| |].
  { intros s [_ Hs]. rewrite zlen_app. cbn in Hs. rewrite Es in Hs.
    pose proof (proj1 Hsm s (list_elem_of_lookup_2 _ _ _ Hs)). lia. }
  intros q' st2 Hsent Hq' Hk3 Hn3. apply wp_bind. eapply wp_get_node; [exact Hn3|]. cbn [set_kqueue k_queue].
  apply wp_bind. destruct (hok_node_ok _ _ _ _ Hn3 Hk3) as [_ Hroom3].
  pose proof (hok_take_name held p _ None st2 Hn3 Hk3 I eq_refl) as Hk4.
  eapply (wp_release_queue q' held); [exact Hq'|exact Hroom3|exact Hk4|]. intros st3 E1 E2 E3 Hk5.
  assert (Hn4 : node_is p st3 (set_kqueue q' (set_value handle n))) by (unfold node_is; by rewrite E1).
  eapply wp_mod_node; [exact Hn4|].
  assert (E : st_h (put_node p (set_kqueue None (set_kqueue q' (set_value handle n))) st3) =
    st_h (put_node p (set_kqueue None (set_value handle n)) st2)) by (cbn; by rewrite E1).
  apply HQ; [|rewrite E; exact Hk5]. eapply updated_sent; try done.
Qed.

(** What [remote_send_name] does: the message waits at the name, with a query for
    it, or goes to the harbor. *)
Inductive name_used (source : Z) (name : list Z) (type session : Z) (msg : option addr) (sz : Z) (st : state)
    : Z → state → Prop :=
| name_waits p st1 n q' st' :
    named name st = (p, st1) → node_is p st1 n → k_value n = 0 →
    waiting (Some q') = waiting (k_queue n) ++ [MkMsg (MkHeader source (type_handle type 0) (u32 session)) msg sz] →
    st' = put_calls (st_calls st ++ [CSend 0 (h_slave (st_h st)) PTYPE_TEXT 0 (Some (c_str (codes "Q " ++ name)))])
            (put_node p (set_kqueue (Some q') n) st1) →
    hok held (st_h st') (st_heap st') → name_used source name type session msg sz st 1 st'
| name_known p n r st' :
    lookup_name name (st_h st) = Some p → node_is p st n → k_value n ≠ 0 →
    sent_out held source (k_value n) type session msg sz st r st' →
    name_used source name type session msg sz st r st'.

Lemma wp_remote_send_name source name type session msg sz (Q : Z → state → Prop) st :
  hok ((buf_needs msg sz).*1 ++ held) (st_h st) (st_heap st) → Forall (has_block (st_heap st)) (buf_needs msg sz) →
  0 ≤ sz → (msg = None → sz = 0) → is_word source → length name = 16%nat → queues_small (st_h st) →
  (∀ r st', name_used source name type session msg sz st r st' → Q r st') →
  wp (remote_send_name reply source name type session msg sz) Q st.
Proof.
  intros Hk Hb Hsz Hnull Hsrc Hname Hsm HQ. unfold remote_send_name. eapply wp_named; [apply Hk|].
  destruct (named_ok name _ st Hk Hname) as (Hk1 & Em & Ec & Es & Eid & Esl & n & Hn & Hnew).
  destruct (named name st) as [p st1] eqn:Enm. cbn [fst snd] in *. rewrite <-Em in Hk1, Hb.
  destruct (hok_node_ok _ _ _ _ Hn Hk1) as [Hno Hroom].
  apply wp_bind. eapply wp_get_node; [exact Hn|].
  wp_case Ev; [apply Z.eqb_eq in Ev|apply Z.eqb_neq in Ev].
  - assert (Hplace : has_place (k_queue n)).
    { destruct (lookup_name name (st_h st)) eqn:El; [|specialize (Hnew eq_refl); by subst n].
      assert (st1 = st) as -> by (unfold named in Enm; rewrite El in Enm; by injection Enm).
      pose proof (small_node _ _ _ Hsm Hn) as H. destruct (k_queue n); [cbn in *; lia|done]. }
    apply wp_bind. destruct (push_waiting (k_queue n)
      (MkMsg (MkHeader source (type_handle type 0) (u32 session)) msg sz)) as (q' & Hrun & Hq' & Hwt & Hne).
    { apply Hno. } { done. }
    { split; [done|]. split; [apply type_handle_word|]. split; [apply u32_word|]. by split. }
    eapply wp_lift; [unfold push_queue; rewrite <-header_word in Hrun; rewrite Z.lor_0_r in Hrun; exact Hrun|].
    apply wp_bind. eapply wp_mod_node; [exact Hn|]. apply wp_bind, wp_gets. unfold send_text.
    apply wp_bind, wp_post_ret, wp_ret, HQ. cbn [put_node put_h st_h st_calls with_node with_map h_slave].
    rewrite Ec, Esl. eapply name_waits; [done|exact Hn|done|exact Hwt|done|].
    destruct Hn as (_ & lb & Hlb & Hn). change (msg_needs _) with (buf_needs msg sz) in Hne.
    eapply (hok_node ((buf_needs msg sz).*1 ++ held)); [exact Hk1|exact Hlb|exact Hn| | |]; cbn [set_kqueue k_queue].
    + by apply set_kqueue_ok.
    + rewrite Hne, fmap_app. solve_Permutation.
    + rewrite Hne. apply Forall_app. by split.
  - assert (El : ∃ p', lookup_name name (st_h st) = Some p').
    { destruct (lookup_name name (st_h st)) eqn:El; [by eexists|]. specialize (Hnew eq_refl). by subst n. }
    destruct El as [p' El]. unfold named in Enm. rewrite El in Enm. injection Enm as -> ->.
    eapply (wp_remote_send_handle reply held); [exact Hk|exact Hb|done|done|done|apply Hno| |].
    { intros s Hs. pose proof (small_slave _ _ _ Hsm Hs) as H. destruct (sl_queue s); [cbn in *; lia|done]. }
    intros r st' Hsent. apply HQ. by eapply name_known.
Qed.
End update.
