(* ===== verification/HarborSafe.v ===== *)
(** * Runs of the harbor

    The commands, the messages of the service, and its runs: the invariant [hok] is
    kept by every message but the malformed ones, which are undefined behaviour. *)
From S2P Require Import Prelude Text StateM Memory Handle HarborService HarborQueue HarborOk HarborRecv HarborSend.

Local Open Scope Z_scope.

Section commands.
Context (reply : list call → Z) (held : list addr).
Implicit Types (s : slave) (st : state).

(** ** Connecting *)

Lemma free_slave_facts s : slave_ok s → sl_fd s = 0 →
  sl_recv_buffer s = None ∧ 0 ≤ sl_read s < 4 ∧ (sl_status s = STATUS_WAIT ∨ sl_status s = STATUS_DOWN).
Proof.
  intros [_ _ H] Hfd. unfold status_ok in H. destruct (Z.eqb_spec (sl_status s) STATUS_CONTENT) as [E|E].
  - by destruct H as (? & _).
  - destruct H as (Hr & Hrd & [(_ & ? & _)|[(_ & ?)|[(? & _)|(? & _)]]]); [done|done| |];
      (split; [done|]; split; [done|]); [by left|by right].
Qed.

(** The slave that has been connected to ([first]) or accepted. *)
Definition connected (first : bool) (fd : Z) (s : slave) : slave :=
  if first then set_status STATUS_HANDSHAKE (set_fd fd s) else greeted (set_fd fd s).

Inductive connection (first : bool) (text : list Z) (st : state) : state → Prop :=
| not_connected :
    (∀ fd id s, scan_two (c_str text) = (fd, id) → slave_at id st s → fd = 0 ∨ id ≤ 0 ∨ REMOTE_MAX ≤ id ∨ sl_fd s ≠ 0) →
    connection first text st st
| is_connected fd id s st' :
    scan_two (c_str text) = (fd, id) → fd ≠ 0 → 0 < id < REMOTE_MAX → slave_at id st s → sl_fd s = 0 →
    st_h st' = st_h (put_slave id (connected first fd s) st) →
    st_calls st' = st_calls st ++ [CStart fd; CWrite fd [u8 (h_id (st_h st))]] ++
      (if first then [] else queue_calls fd (st_heap st) (sl_queue s)) →
    (first = true → st_heap st' = st_heap st) →
    connection first text st st'.

Lemma wp_connect_harbor first text (Q : unit → state → Prop) st :
  hok held (st_h st) (st_heap st) →
  (∀ st', connection first text st st' → hok held (st_h st') (st_heap st') → Q tt st') →
  wp (connect_harbor reply first text) Q st.
Proof.
  intros Hk HQ. unfold connect_harbor. destruct (scan_two (c_str text)) as [fd id] eqn:Et.
  wp_case Ebad.
  { apply wp_ret, HQ; [|exact Hk]. apply not_connected. intros fd' id' s' E [Hi _]. rewrite Et in E. injection E as <- <-.
    apply orb_true_iff in Ebad as [Ebad|Ebad]; [apply orb_true_iff in Ebad as [Ebad|Ebad]|];
      [apply Z.eqb_eq in Ebad|apply Z.leb_le in Ebad..]; lia. }
  apply orb_false_iff in Ebad as [Ebad Eid2]. apply orb_false_iff in Ebad as [Efd Eid].
  apply Z.eqb_neq in Efd. apply Z.leb_gt in Eid, Eid2.
  destruct (wf_slave_at id st (hk_wf _ _ _ Hk)) as [s Hs]; [lia|].
  pose proof (hok_slave_ok _ _ _ _ Hs Hk) as Hso. pose proof (hok_slave_room _ _ _ _ Hs Hk) as Hroom.
  apply wp_bind. eapply wp_get_slave; [exact Hs|].
  wp_case E0.
  { apply wp_ret, HQ; [|exact Hk]. apply not_connected. intros fd' id' s' E [_ Hs']. rewrite Et in E. injection E as <- <-.
    destruct Hs as [_ Hs]. rewrite Hs in Hs'. injection Hs' as <-. do 3 right. by apply negb_true_iff, Z.eqb_neq in E0. }
  apply negb_false_iff, Z.eqb_eq in E0.
  destruct (free_slave_facts s Hso E0) as (Hr & Hrd & Hst).
  apply wp_bind. eapply wp_mod_slave; [exact Hs|].
  unfold handshake. apply wp_bind, wp_post, wp_bind, wp_bind. eapply wp_get_slave; [eapply slave_at_put; exact Hs|].
  apply wp_bind, wp_gets, wp_post_ret. cbn [set_fd sl_fd].
  match goal with |- wp _ Q ?st' => set (st1 := st') end.
  assert (Hs1 : slave_at id st1 (set_fd fd s)) by (eapply slave_at_put; exact Hs).
  assert (Ec1 : st_calls st1 = st_calls st ++ [CStart fd; CWrite fd [u8 (h_id (st_h st))]]).
  { cbn. by rewrite <-app_assoc. }
  destruct first.
  - eapply wp_mod_slave; [exact Hs1|]. apply HQ.
    + eapply is_connected; [exact Et|done|lia|exact Hs|done| |by cbn; rewrite <-app_assoc|done].
      unfold st1. cbn. unfold with_s. cbn. by rewrite list_insert_insert_eq.
    + assert (E : st_h (put_slave id (set_status STATUS_HANDSHAKE (set_fd fd s)) st1) =
        st_h (put_slave id (set_status STATUS_HANDSHAKE (set_fd fd s)) st)).
      { unfold st1. cbn. unfold with_s. cbn. by rewrite list_insert_insert_eq. }
      rewrite E. eapply (hok_slave held); [exact Hk|apply Hs| |done|exact Hroom].
      destruct Hso as [S1 S2 S3]. split; [done|done|]. unfold status_ok. cbn. split_and!; [done|lia|lia|]. by right; left.
  - apply wp_bind. eapply wp_mod_slave; [exact Hs1|].
    set (s2 := set_status STATUS_HEADER (set_fd fd s)). set (st2 := put_slave id s2 st1).
    assert (Hs2 : slave_at id st2 s2) by by eapply slave_at_put.
    assert (E : st_h (put_slave id (set_queue None s2) st2) = st_h (put_slave id (connected false fd s) st)).
    { unfold st2, st1, s2, connected, greeted. cbn. unfold with_s. cbn. by rewrite !list_insert_insert_eq. }
    eapply (wp_dispatch_queue reply held id s2); [exact Hs2|done|apply Hso| | |].
    + cbn. unfold slave_needs in Hroom. by apply Forall_app in Hroom as [? _].
    + rewrite E. apply (hok_take_queue held id s (connected false fd s) st); try done.
      destruct Hso as [S1 S2 S3]. split; [done|done|]. unfold status_ok. cbn. split_and!; [done|lia|lia|]. by left.
    + intros st' E1 E2 E3 Hk'. apply HQ; [|exact Hk']. rewrite E in E1.
      eapply is_connected; [exact Et|done|lia|exact Hs|done|exact E1| |done].
      rewrite E2. change (st_calls st2) with (st_calls st1). rewrite Ec1, <-app_assoc. done.
Qed.

(** ** Commands *)

(** A command that needs more than its letter. *)
Definition one_letter (msg : list Z) : bool :=
  match msg with [c] => bool_decide (c ∈ [78; 83; 65]) | _ => false end.

Lemma wp_harbor_command msg source (Q : unit → state → Prop) st :
  hok held (st_h st) (st_heap st) → is_word source → queues_small (st_h st) →
  one_letter msg = false → zlen msg ≤ INT_MAX →
  (∀ st', hok held (st_h st') (st_heap st') → Q tt st') →
  wp (harbor_command reply msg source) Q st.
Proof.
  intros Hk Hsrc Hsm Hone Hmax HQ. pose proof (zlen_nonneg msg) as Hz. unfold harbor_command.
  destruct (aget_in (msg ++ [0]) 0) as (c & Hc & _).
  { rewrite zlen_app. change (zlen [0]) with 1. lia. }
  apply wp_bind. eapply wp_lift; [exact Hc|]. rewrite i32_small by lia.
  assert (H2 : c ∈ [78; 83; 65] → 2 ≤ zlen msg).
  { intros Hin. destruct msg as [|x [|y msg]]; [injection Hc as <-; set_solver| |].
    - injection Hc as <-. cbn in Hone. by apply bool_decide_eq_false in Hone.
    - rewrite !zlen_cons. pose proof (zlen_nonneg msg). lia. }
  wp_case E1; [apply Z.eqb_eq in E1|].
  - specialize (H2 ltac:(subst c; set_solver)). rewrite (proj2 (Z.ltb_ge _ _)) by lia.
    wp_case E2; [by apply wp_ret, HQ|]. apply orb_false_iff in E2 as [E2 E3]. apply Z.leb_gt in E2, E3.
    eapply (wp_update_name reply held); [exact Hk| |done|done|intros; by apply HQ].
    rewrite length_app, length_drop, length_replicate. unfold zlen, GLOBALNAME_LENGTH in *. lia.
  - wp_case E2; [|by apply wp_ret, HQ].
    apply orb_true_iff in E2. rewrite !Z.eqb_eq in E2.
    specialize (H2 ltac:(destruct E2 as [-> | ->]; set_solver)). rewrite (proj2 (Z.ltb_ge _ _)) by lia.
    eapply wp_connect_harbor; [exact Hk|]. intros. by apply HQ.
Qed.
End commands.

(** ** Messages *)

Section mainloop.
Context (reply : list call → Z).
Implicit Types (s : slave) (st : state).

(** What a connection has to read when [c] arrives, if it reads at all: the byte of the
    handshake is the id of the harbor, or the connection is closed. *)
Definition stream_of (i : Z) (s : slave) (m : gmap addr (list Z)) (c : list Z) : option (list Z) :=
  if sl_status s =? STATUS_HANDSHAKE then
    match c with
    | b :: c => if b =? i then Some (take (Z.to_nat (sl_read s)) (sl_size s) ++ c) else None
    | [] => None
    end
  else if (sl_status s =? STATUS_HEADER) || (sl_status s =? STATUS_CONTENT) then Some (unread s m ++ c)
  else None.

Definition is_short (e : ending) : bool := match e with Short => true | _ => false end.

(** With the data [c] a package is there that is shorter than the header at the end of
    each package. [send_remote] writes none. *)
Definition short_data (fd : Z) (c : list Z) (st : state) : bool :=
  let i := peer fd (st_h st) in
  if i =? 0 then false
  else
    match s ← h_s (st_h st) !! Z.to_nat i; stream_of i s (st_heap st) c with
    | Some stream => is_short (cut stream).2
    | None => false
    end.

(** The messages whose handling is undefined behaviour. *)
Definition malformed (msg : harbor_input) (st : state) : bool :=
  match msg with
  | ISocket type fd ud (Some p) =>
      (type =? FENGNET_SOCKET_TYPE_DATA) && short_data fd (default [] (st_heap st !! p)) st
  | ICommand msg => one_letter msg
  | _ => false
  end.

(** The contract of those who send messages to the service, with the blocks that others
    hold before and after: the memory of data and of messages is given away and data is not
    empty. What the data and the commands say is left open. *)
Definition allowed (held held' : list addr) (source : Z) (msg : harbor_input) (st : state) : Prop :=
  is_word source ∧ queues_small (st_h st) ∧
  match msg with
  | ISocket type fd ud buffer =>
      if type =? FENGNET_SOCKET_TYPE_DATA then
        ∃ p c, buffer = Some p ∧ held = p :: held' ∧ st_heap st !! p = Some c ∧ bytes c ∧ ud = zlen c ∧ c ≠ []
      else held = held'
  | ICommand msg => held = held' ∧ zlen msg ≤ INT_MAX
  | IRemote name handle message sz type =>
      held = (buf_needs message sz).*1 ++ held' ∧ Forall (has_block (st_heap st)) (buf_needs message sz) ∧
      0 ≤ sz ∧ (message = None → sz = 0) ∧ length name = 16%nat ∧ is_word handle
  | IOther _ => held = held'
  end.

Lemma wp_push_closed held i s st buf (c : list Z) fd (Q : unit → state → Prop) :
  slave_at i st s → ¬ is_open s → sl_status s ≠ STATUS_HANDSHAKE → hok held (st_h st) (st_heap st) →
  peer fd (st_h st) = i → Q tt st → wp (push_socket_data reply fd (zlen c) buf) Q st.
Proof.
  intros Hs Hop Hst Hk Hp HQ. unfold push_socket_data. apply wp_bind, wp_harbor_id. rewrite Hp.
  destruct (i =? 0); [by apply wp_ret|]. replace (Z.to_nat (zlen c) + 3)%nat with (S (Z.to_nat (zlen c) + 2)) by lia.
  cbn [loopM]. apply wp_bind. unfold data_turn at 1. apply wp_bind. eapply wp_get_slave; [exact Hs|].
  rewrite (proj2 (Z.eqb_neq _ _) Hst). rewrite !(proj2 (Z.eqb_neq _ _)).
  - by apply wp_ret, wp_ret.
  - intros E. apply Hop. by right.
  - intros E. apply Hop. by left.
Qed.

Lemma wp_push_socket_data held p c fd (Q : unit → state → Prop) st :
  hok held (st_h st) (st_heap st) → p ∈ held → st_heap st !! p = Some c → bytes c → c ≠ [] →
  (∀ st', short_data fd c st = false → hok held (st_h st') (st_heap st') → Q tt st') →
  wpu (short_data fd c st = true) (push_socket_data reply fd (zlen c) p) Q st.
Proof.
  intros Hk Hin Hp Hb Hne HQ. destruct (peer_spec fd st) as [E|(Hi & s & Hs & Hfd)].
  { left. unfold push_socket_data. apply wp_bind, wp_harbor_id. rewrite E. apply wp_ret, HQ; [|done].
    unfold short_data. by rewrite E. }
  unfold short_data in *. set (i := peer fd (st_h st)) in *. rewrite (proj2 (Z.eqb_neq i 0)) in * by lia.
  rewrite (proj2 Hs) in *. cbn [mbind option_bind] in *. unfold stream_of in *.
  destruct (Z.eqb_spec (sl_status s) STATUS_HANDSHAKE) as [Est|Est].
  - destruct c as [|b c]; [done|]. eapply wpu_weaken; [|eapply (wpu_push_handshake reply held i s st p b c fd); try done; [lia|]].
    { intros [-> Hsh]. by rewrite Z.eqb_refl, Hsh. }
    intros st' Hg. unfold greeting in Hg. destruct (b =? i).
    + destruct Hg as (st1 & _ & _ & _ & Ht). unfold taken in Ht.
      destruct (cut _) as [ps [r| |]]; [destruct Ht as (s' & []); by apply HQ|destruct Ht; by apply HQ|done].
    + destruct Hg. by apply HQ.
  - assert (Hopen : is_open s → (sl_status s =? STATUS_HEADER) || (sl_status s =? STATUS_CONTENT) = true).
    { by intros [-> | ->]. }
    assert (Hshut : ¬ is_open s → (sl_status s =? STATUS_HEADER) || (sl_status s =? STATUS_CONTENT) = false).
    { intros Hno. apply orb_false_iff. rewrite !Z.eqb_neq. split; intros E; apply Hno; [by left|by right]. }
     assert (Hdec : is_open s ∨ ¬ is_open s).
    { unfold is_open. destruct (decide (sl_status s = STATUS_HEADER)), (decide (sl_status s = STATUS_CONTENT)); tauto. }
    destruct Hdec as [Hop|Hop].
    2: { left. rewrite (Hshut Hop) in *. by eapply wp_push_closed; [exact Hs|done|done|exact Hk|done|apply HQ]. }
    rewrite (Hopen Hop) in *. eapply wpu_weaken; [|eapply (wpu_push_open reply held i s st p c fd); try done; [lia|by left|]].
    { by intros ->. }
    intros st' Ht. unfold taken in Ht.
    destruct (cut _) as [ps [r| |]]; [destruct Ht as (s' & []); by apply HQ|destruct Ht; by apply HQ|done].
Qed.

Lemma wp_release_unsent held msg sz (Q : Z → state → Prop) st :
  hok ((buf_needs msg sz).*1 ++ held) (st_h st) (st_heap st) → Forall (has_block (st_heap st)) (buf_needs msg sz) →
  (∀ st', hok held (st_h st') (st_heap st') → Q 0 st') → wp (free_buffer msg;; mret 0) Q st.
Proof.
  intros Hk Hb HQ. apply wp_bind. eapply wp_free_message; [exact Hb|]. apply wp_ret, HQ. by eapply hok_free_buf.
Qed.

(** A command that is nothing but its letter makes the harbor read behind the message. *)
Lemma one_letter_undefined msg source st : one_letter msg = true → harbor_command reply msg source st = Undef.
Proof.
  destruct msg as [|c [|? ?]]; [done| |done]. cbn [one_letter]. rewrite bool_decide_eq_true. intros Hc.
  repeat (apply elem_of_cons in Hc as [->|Hc]; [done|]). by apply elem_of_nil in Hc.
Qed.

Lemma mainloop_ok held held' session source msg (Q : Z → state → Prop) st :
  hok held (st_h st) (st_heap st) → allowed held held' source msg st →
  (∀ st', malformed msg st = false → hok held' (st_h st') (st_heap st') → Q 0 st') →
  wpu (malformed msg st = true) (mainloop reply session source msg) Q st.
Proof.
  intros Hk (Hsrc & Hsm & Ha) HQ. destruct msg as [type fd ud buffer|msg|name handle message sz type|type]; cbn [mainloop].
  3, 4: left; specialize (λ st', HQ st' eq_refl) as HQ.
  - unfold socket_input. destruct (type =? FENGNET_SOCKET_TYPE_DATA) eqn:Et.
    + destruct Ha as (p & c & -> & -> & Hp & Hb & -> & Hne). cbn [malformed] in *. rewrite Et, Hp in *. cbn [default id andb] in *.
      apply wpu_bind, wpu_bind.
      eapply (wp_push_socket_data (p :: held')); [exact Hk|by left|exact Hp|done|done|].
      intros st' Hsh Hk'. left. apply wp_hfree; [by apply (hok_held _ _ _ _ Hk')|].
      apply wpu_wp, wp_ret, HQ; [done|]. by apply hok_free.
    + subst held'. assert (Em : malformed (ISocket type fd ud buffer) st = false) by (cbn; rewrite Et; by destruct buffer).
      specialize (λ st', HQ st' Em) as HQ. left. apply wp_bind. wp_case E2; [|by apply wp_ret, wp_ret, HQ].
      apply wp_bind, wp_harbor_id. wp_case E3; [|by apply wp_ret, wp_ret, HQ].
      unfold report_harbor_down. apply wp_bind, wp_gets, wp_post_ret. by apply wp_ret, HQ.
  - destruct Ha as (<- & H2). cbn [malformed] in *. destruct (one_letter msg) eqn:Eo.
    { right. split; [done|]. apply undef_first. by apply one_letter_undefined. }
    left. apply wp_bind. eapply (wp_harbor_command reply held); try done.
    intros st' Hk'. by apply wp_ret, HQ.
  - destruct Ha as (-> & Hb & Hsz & Hnull & Hname & Hh). apply wp_bind.
    assert (Hout : ∀ dest r st', sent_out held' source dest type session message sz st r st' →
      wp (if negb (r =? 0) then mret 0 else free_buffer message;; mret 0) Q st').
    { intros dest r st' [st0 _ _ _ Hk'|s st0 _ _ ->|s q' st0 _ _ _ _ _ _ Hk'|s st0 _ _ _ _ _ ->]; cbn [Z.eqb negb].
      - by apply wp_ret, HQ.
      - by eapply wp_release_unsent.
      - by apply wp_ret, HQ.
      - by eapply wp_release_unsent. }
    wp_case Eh.
    + eapply (wp_remote_send_name reply held'); [exact Hk|done|done|done|done|done|done|].
      intros r st' [p st1 n q' st0 _ _ _ _ _ Hk'|p n r' st0 _ _ _ Hs]; [by apply wp_ret, HQ|by eapply Hout].
    + eapply (wp_remote_send_handle reply held'); [exact Hk|done|done|done|done|done| |].
      { intros s Hs. pose proof (small_slave _ _ _ Hsm Hs) as H. destruct (sl_queue s); [cbn in *; lia|done]. }
      intros r st' Hs. by eapply Hout.
  - subst held'. apply wp_bind. wp_case E; [|by apply wp_ret, wp_ret, HQ].
    unfold send_nothing. by apply wp_post_ret, wp_ret, HQ.
Qed.
End mainloop.

(** ** The start of the service *)

Section start.
Context (reply : list call → Z) (held : list addr).
Implicit Types (s : slave) (st : state).

Lemma quiet_facts s : slave_ok s → sl_recv_buffer s = None → 0 ≤ sl_read s < 4.
Proof.
  intros [_ _ H] Hr. unfold status_ok in H. destruct (sl_status s =? STATUS_CONTENT).
  - destruct H as (_ & _ & [? ?] & _). congruence.
  - by destruct H as (_ & ? & _).
Qed.

Lemma wp_close_from n i (Q : unit → state → Prop) st :
  0 ≤ i → i + Z.of_nat n ≤ REMOTE_MAX → hok held (st_h st) (st_heap st) →
  (∀ j s, slave_at j st s → sl_recv_buffer s = None) →
  (∀ st', hok held (st_h st') (st_heap st') → Q tt st') → wp (close_from reply n i) Q st.
Proof.
  revert i st. induction n as [|n IH]; intros i st Hi Hn Hk Hall HQ; [by apply wp_ret, HQ|]. cbn [close_from].
  destruct (wf_slave_at i st (hk_wf _ _ _ Hk)) as [s Hs]; [lia|].
  pose proof (hok_slave_ok _ _ _ _ Hs Hk) as Hso. pose proof (Hall _ _ Hs) as Hr.
  pose proof (hok_slave_room _ _ _ _ Hs Hk) as Hroom. apply Forall_app in Hroom as [Hroom _].
  apply wp_bind. eapply (wp_close_harbor reply held i s); [exact Hs|done|apply Hso|exact Hroom| |].
  - apply (hok_take_queue held i s (closed_slave s) st); try done. apply closed_ok; [done|done|]. by apply quiet_facts.
  - intros st' E1 E2 E3 Hk'. apply IH; [lia|lia|exact Hk'| |exact HQ].
    intros j s' [Hj Hs']. rewrite E1 in Hs'. cbn in Hs'.
    destruct (decide (Z.to_nat j = Z.to_nat i)) as [E|Hne].
    + rewrite E, list_lookup_insert_eq in Hs' by (destruct Hs as [_ Hs]; by eapply lookup_lt_Some). by injection Hs' as <-.
    + rewrite list_lookup_insert_ne in Hs' by done. by apply (Hall j).
Qed.

Lemma created_ok id slave m : 0 ≤ id < 256 → is_word slave → Forall bytes (map_to_list m).*2 →
  hok (map_to_list m).*1 (MkHarbor id slave hash_new (replicate (Z.to_nat REMOTE_MAX) zero_slave)) m.
Proof.
  intros Hid Hsl Hb. assert (E : needs (MkHarbor id slave hash_new (replicate (Z.to_nat REMOTE_MAX) zero_slave)) = []).
  { unfold needs. cbn [h_s h_map]. unfold hash_new. rewrite !fmap_replicate.
    assert (H : ∀ n, concat (replicate n (@nil (addr * Z))) = []) by (intros n; induction n; done). by rewrite !H. }
  split; [by rewrite E, app_nil_r|by rewrite E|].
  split; cbn [h_map h_s h_id h_slave]; [apply length_replicate|apply length_replicate|done|done| |].
  - apply Forall_replicate. split; [done|cbn; split; [done|by repeat constructor]|]. unfold status_ok. cbn.
    split_and!; [done|done|done|]. by do 2 right; left.
  - intros b l n Hl Hin. apply lookup_replicate in Hl as [-> _]. by apply elem_of_nil in Hin.
Qed.

(** ** Runs *)

(** A message of the service, or what others do with their memory. *)
Inductive harbor_step : list addr * state → list addr * state → Prop :=
| step_message l l' session source msg r st st' :
    allowed l l' source msg st → mainloop reply session source msg st = Ret (r, st') →
    harbor_step (l, st) (l', st')
| step_malloc l p bs st :
    st_heap st !! p = None → bytes bs → harbor_step (l, st) (p :: l, put_mem (<[p := bs]> (st_heap st)) st)
| step_free l p st : harbor_step (p :: l, st) (l, put_mem (delete p (st_heap st)) st)
| step_order l l' st : l ≡ₚ l' → harbor_step (l, st) (l', st).

(** The service has been started, with memory [m], and has got messages. *)
Definition harbor_reachable (c : list addr * state) : Prop :=
  ∃ args (m : gmap addr (list Z)) st, Forall bytes (map_to_list m).*2 ∧
    (∀ id rest, scan_int (c_str args) = Some (id, rest) → 0 ≤ id < 256) ∧
    harbor_init reply args (MkState harbor_create m []) = Ret (0, st) ∧
    rtc harbor_step ((map_to_list m).*1, st) c.
End start.

Lemma harbor_init_ok reply args (m : gmap addr (list Z)) r st : Forall bytes (map_to_list m).*2 →
  (∀ id rest, scan_int (c_str args) = Some (id, rest) → 0 ≤ id < 256) →
  harbor_init reply args (MkState harbor_create m []) = Ret (r, st) → r = 0 →
  hok (map_to_list m).*1 (st_h st) (st_heap st).
Proof.
  intros Hb Hid. revert r st. apply (wp_pwp _ (λ r st, r = 0 → hok (map_to_list m).*1 (st_h st) (st_heap st))).
  unfold harbor_init. destruct (match scan_int (c_str args) with Some _ => _ | None => _ end) as [id slave] eqn:E.
  assert (Hi : 0 ≤ id < 256 ∧ is_word slave).
  { destruct (scan_int (c_str args)) as [[a s]|]; [|by injection E as <- <-]. injection E as -> <-.
    split; [by eapply Hid|]. unfold scan_unsigned. destruct (sign_of _) as [neg s']. destruct (digits _ _ _ _) as [v some].
    destruct some; [|done]. case_match; apply u32_word. }
  destruct Hi as [Hi Hw]. wp_case Es; [by apply wp_ret|]. apply wp_bind, wp_modify, wp_bind.
  cbn [st_h st_heap st_calls put_h h_map h_s].
  pose proof (created_ok id slave m Hi Hw Hb) as Hk.
  assert (Hend : ∀ st', hok (map_to_list m).*1 (st_h st') (st_heap st') →
    wp (post reply CCallback;; post reply CHarborStart;; mret 0)
      (λ r st, r = 0 → hok (map_to_list m).*1 (st_h st) (st_heap st)) st').
  { intros st' Hk'. apply wp_bind, wp_post, wp_bind, wp_post, wp_ret. by intros _. }
  wp_case E0; [|by apply wp_ret, Hend].
  eapply (wp_close_from reply (map_to_list m).*1); [done|done|exact Hk| |exact Hend].
  intros j s [_ Hs]. cbn in Hs. by apply lookup_replicate in Hs as [-> _].
Qed.

Lemma harbor_reachable_ok reply c : harbor_reachable reply c → hok c.1 (st_h c.2) (st_heap c.2).
Proof.
  intros (args & m & st & Hb & Hid & Hinit & Hsteps). pose proof (harbor_init_ok _ _ _ _ _ Hb Hid Hinit eq_refl) as Hk.
  change (map_to_list m).*1 with (((map_to_list m).*1, st).1) in Hk. revert Hk.
  change (st_h st) with (st_h ((map_to_list m).*1, st).2). change (st_heap st) with (st_heap ((map_to_list m).*1, st).2).
  revert Hsteps. generalize ((map_to_list m).*1, st) as c0. clear. intros c0. induction 1 as [|c1 c2 c3 Hs _ IH]; [done|].
  intros Hk. apply IH. destruct Hs as [l l' session source msg r st st' Ha Hrun|l p bs st Hp Hb|l p st|l l' st Hp]; cbn in *.
  - pose proof (mainloop_ok reply l l' session source msg (λ r st, hok l' (st_h st) (st_heap st)) st Hk Ha ltac:(done)) as H.
    by apply (wpu_pwp _ _ _ _ H r).
  - by apply hok_malloc.
  - by apply hok_free.
  - by eapply hok_perm.
Qed.
