(* ===== verification/HarborProps.v ===== *)
(** * What the harbor promises

    The properties of the harbor service, from the lemmas of [HarborOk] and the
    files after it, with concrete runs. *)
From S2P Require Import Prelude Text StateM Memory Handle HarborService HarborQueue HarborOk HarborRecv HarborSend HarborSafe.

Local Open Scope Z_scope.

(** ** Packages *)

(** The packages written to a connection. *)
Definition packs (fd : Z) (calls : list call) : list (list Z) :=
  omap (λ c, match c with CWrite fd' bs => if fd' =? fd then Some bs else None | _ => None end) calls.

(** The packages for a harbor, in the order of their messages: those that were
    written to its connection, and those that wait. *)
Definition outbox (i : Z) (st : state) : list (list Z) :=
  match h_s (st_h st) !! Z.to_nat i with
  | Some s => (if sl_fd s =? 0 then [] else packs (sl_fd s) (st_calls st)) ++
              packs (sl_fd s) (queue_calls (sl_fd s) (st_heap st) (sl_queue s))
  | None => []
  end.

Lemma packs_app fd l1 l2 : packs fd (l1 ++ l2) = packs fd l1 ++ packs fd l2.
Proof. apply omap_app. Qed.

Lemma packs_remote fd bs sz h : u64 (sz + HEADER_COOKIE_LENGTH) ≤ UINT32_MAX →
  packs fd (remote_call fd bs sz h) = [package bs h].
Proof.
  intros H. unfold remote_call. rewrite (proj2 (Z.ltb_ge _ _)) by done. cbn. by rewrite Z.eqb_refl.
Qed.

Lemma queue_calls_waiting fd m q : queue_calls fd m q =
  calls_of (λ bs x, remote_call fd bs (hm_size x) (hm_header x)) m (waiting q).
Proof. by destruct q. Qed.

Lemma calls_of_app out m l1 l2 : calls_of out m (l1 ++ l2) = calls_of out m l1 ++ calls_of out m l2.
Proof. unfold calls_of. by rewrite fmap_app, concat_app. Qed.

Lemma packs_deliver reply fd id p calls : packs fd (deliver reply id calls p) = packs fd calls.
Proof. unfold deliver. cbv zeta. case_match; rewrite !packs_app; cbn; by rewrite ?app_nil_r. Qed.

Lemma packs_delivers reply fd id ps calls : packs fd (foldl (deliver reply id) calls ps) = packs fd calls.
Proof. revert calls. induction ps as [|p ps IH]; intros calls; [done|]. cbn [foldl]. rewrite IH. apply packs_deliver. Qed.

(** The packages of a queue do not depend on the connection. *)
Lemma packs_queue fd fd' m q : packs fd (queue_calls fd m q) = packs fd' (queue_calls fd' m q).
Proof.
  rewrite !queue_calls_waiting. unfold calls_of. induction (waiting q) as [|x l IH]; [done|].
  cbn [fmap list_fmap concat]. rewrite !packs_app, IH. f_equal. unfold remote_call.
  case_match; [done|]. cbn. by rewrite !Z.eqb_refl.
Qed.

(** ** Bytes of a package *)

Lemma to_bigendian_bytes n : bytes (to_bigendian n).
Proof.
  unfold to_bigendian. change 0xff with (2 ^ 8 - 1). rewrite !land_mask by done.
  repeat (constructor; [unfold is_byte; by apply Z.mod_pos_bound|]). constructor.
Qed.

Lemma from_to_bigendian n : is_word n → from_bigendian (to_bigendian n) = n.
Proof.
  intros Hn. unfold from_bigendian, to_bigendian. cbn [nth]. change 0xff with (2 ^ 8 - 1). rewrite !land_mask by done.
  rewrite !Z.shiftr_div_pow2 by done. unfold is_word in Hn.
  assert (E : n / 2 ^ 24 mod 2 ^ 8 = n / 2 ^ 24).
  { apply Z.mod_small. split; [apply Z.div_pos; lia|apply Z.div_lt_upper_bound; lia]. }
  rewrite E. pose proof (Z.mod_pos_bound (n / 2 ^ 16) (2 ^ 8) ltac:(done)).
  pose proof (Z.mod_pos_bound (n / 2 ^ 8) (2 ^ 8) ltac:(done)). pose proof (Z.mod_pos_bound n (2 ^ 8) ltac:(done)).
  rewrite <-Z.lor_assoc, <-Z.lor_assoc.
  assert (H2 : Z.lor (Z.shiftl (n / 2 ^ 8 mod 2 ^ 8) 8) (n mod 2 ^ 8) = n mod 2 ^ 8 + n / 2 ^ 8 mod 2 ^ 8 * 2 ^ 8).
  { by apply lor_shiftl_l. }
  rewrite H2, (lor_shiftl_l _ (n / 2 ^ 16 mod 2 ^ 8) 16) by lia. rewrite lor_shiftl_l by lia.
  change (2 ^ 24) with (2 ^ 8 * 2 ^ 8 * 2 ^ 8). change (2 ^ 16) with (2 ^ 8 * 2 ^ 8). rewrite <-!Z.div_div by done.
  pose proof (Z.div_mod n (2 ^ 8) ltac:(done)). pose proof (Z.div_mod (n / 2 ^ 8) (2 ^ 8) ltac:(done)).
  pose proof (Z.div_mod (n / 2 ^ 8 / 2 ^ 8) (2 ^ 8) ltac:(done)). lia.
Qed.

Lemma header_message h : is_word (hd_source h) → is_word (hd_destination h) → is_word (hd_session h) →
  message_to_header (header_to_message h) = h.
Proof.
  intros H1 H2 H3. unfold message_to_header, header_to_message.
  assert (E1 : take 4 (to_bigendian (hd_source h) ++ to_bigendian (hd_destination h) ++ to_bigendian (hd_session h)) =
    to_bigendian (hd_source h)) by done.
  assert (E2 : take 4 (drop 4 (to_bigendian (hd_source h) ++ to_bigendian (hd_destination h) ++ to_bigendian (hd_session h))) =
    to_bigendian (hd_destination h)) by done.
  assert (E3 : take 4 (drop 8 (to_bigendian (hd_source h) ++ to_bigendian (hd_destination h) ++ to_bigendian (hd_session h))) =
    to_bigendian (hd_session h)) by done.
  rewrite E1, E2, E3, !from_to_bigendian by done. by destruct h.
Qed.

Lemma be_len_package n r : 0 ≤ n < 2 ^ 24 → take 1 (to_bigendian n) = [0] ∧ be_len (to_bigendian n) = n ∧
  first (to_bigendian n ++ r) = if zlen r <? n then More
    else if n <? HEADER_COOKIE_LENGTH then if zlen r =? 0 then More else TooShort
    else Package (take (Z.to_nat n) r) (drop (Z.to_nat n) r).
Proof.
  intros Hn. assert (H0 : nth 0 (to_bigendian n) 0 = 0).
  { unfold to_bigendian. cbn [nth]. rewrite Z.shiftr_div_pow2, Z.div_small by lia. done. }
  assert (Hb : be_len (to_bigendian n) = n).
  { rewrite <-(from_to_bigendian n) at 2 by (unfold is_word; lia). unfold from_bigendian, be_len. rewrite H0.
    by rewrite Z.shiftl_0_l, Z.lor_0_l. }
  split; [unfold to_bigendian in *; cbn in *; by rewrite H0|]. split; [done|].
  rewrite first_header, Hb; done.
Qed.

(** A message that fits into a package. *)
Definition fits (bs : list Z) : Prop := zlen bs + HEADER_COOKIE_LENGTH < 2 ^ 24.

Lemma header_length h : zlen (header_to_message h) = HEADER_COOKIE_LENGTH.
Proof. done. Qed.

(** The packages of a stream are those it was made of. *)
Lemma cut_packages (ms : list (list Z * remote_message_header)) :
  Forall (λ x, fits x.1) ms →
  cut (concat ((λ x, package x.1 x.2) <$> ms)) = ((λ x, x.1 ++ header_to_message x.2) <$> ms, Rest []).
Proof.
  induction 1 as [|[bs h] ms Hf _ IH]; [done|]. cbn [fmap list_fmap concat fst snd]. rewrite cut_eq.
  pose proof (zlen_nonneg bs) as Hz. unfold fits in Hf. cbn in Hf. unfold package at 1. rewrite <-!app_assoc.
  rewrite u32_small by (unfold HEADER_COOKIE_LENGTH in *; lia).
  destruct (be_len_package (zlen bs + HEADER_COOKIE_LENGTH) (bs ++ header_to_message h ++ concat ((λ x, package x.1 x.2) <$> ms)))
    as (_ & _ & ->); [unfold HEADER_COOKIE_LENGTH in *; lia|].
  rewrite (proj2 (Z.ltb_ge (zlen bs + HEADER_COOKIE_LENGTH) HEADER_COOKIE_LENGTH)) by lia.
  rewrite (proj2 (Z.ltb_ge _ _)).
  2:{ rewrite !zlen_app, header_length. pose proof (zlen_nonneg (concat ((λ x, package x.1 x.2) <$> ms))). lia. }
  rewrite app_assoc. rewrite take_app_length', drop_app_length'; [|rewrite length_app; unfold zlen, HEADER_COOKIE_LENGTH; cbn; lia..].
  by rewrite IH.
Qed.

(** ** Streams *)

Lemma first_app s b : first s ≠ More →
  first (s ++ b) = match first s with Package p r => Package p (r ++ b) | x => x end.
Proof.
  destruct s as [|b0 [|b1 [|b2 [|b3 s]]]]; try done. cbn [first app]. intros H.
  destruct (negb (b0 =? 0)); [done|].
  destruct (zlen s <? _) eqn:E; [done|]. apply Z.ltb_ge in E. pose proof (zlen_nonneg b). pose proof (zlen_nonneg s).
  rewrite (proj2 (Z.ltb_ge _ _)) by (rewrite zlen_app; lia).
  destruct (_ <? HEADER_COOKIE_LENGTH) eqn:E0.
  { destruct (Z.eqb_spec (zlen s) 0); [done|]. by rewrite (proj2 (Z.eqb_neq _ _)) by (rewrite zlen_app; lia). }
  apply Z.ltb_ge in E0. unfold HEADER_COOKIE_LENGTH in E0. unfold zlen in *. f_equal.
  - rewrite take_app_le; [done|lia].
  - rewrite drop_app_le; [done|lia].
Qed.

(** A stream that arrives in two parts. *)
Lemma cut_two a b : cut (a ++ b) =
  match (cut a).2 with
  | Rest r => ((cut a).1 ++ (cut (r ++ b)).1, (cut (r ++ b)).2)
  | e => ((cut a).1, e)
  end.
Proof.
  induction a as [a IH] using (induction_ltof1 _ (@length Z)). unfold ltof in IH. rewrite (cut_eq a).
  destruct (first a) as [|p r| |] eqn:E; cbn [fst snd].
  - by destruct (cut (a ++ b)).
  - rewrite cut_eq, first_app, E by by rewrite E. rewrite IH by by eapply first_package.
    destruct (cut r) as [ps e]. cbn [fst snd]. destruct e; done.
  - by rewrite cut_eq, first_app, E by by rewrite E.
  - by rewrite cut_eq, first_app, E by by rewrite E.
Qed.

Section arrival.
Context (reply : list call → Z) (held : list addr).
Implicit Types (s : slave) (st : state).

(** The data of a connection, each part of it in new memory. *)
Fixpoint arrive (fd : Z) (chunks : list (list Z)) : M unit :=
  match chunks with
  | [] => mret tt
  | c :: chunks =>
      p ← hmalloc c;
      mainloop reply 0 0 (ISocket FENGNET_SOCKET_TYPE_DATA fd (zlen c) (Some p));;
      arrive fd chunks
  end.

Lemma find_fd_fds fd k l l' : sl_fd <$> l = sl_fd <$> l' → find_fd fd k l = find_fd fd k l'.
Proof.
  revert k l'. induction l as [|x l IH]; intros k [|x' l'] E; try done. injection E as E1 E2. cbn.
  by rewrite E1, (IH _ _ E2).
Qed.

Lemma peer_put fd i s s' st : slave_at i st s → sl_fd s' = sl_fd s → peer fd (st_h (put_slave i s' st)) = peer fd (st_h st).
Proof.
  intros [_ Hs] E. apply find_fd_fds. rewrite !fmap_take, !fmap_drop. do 2 f_equal. cbn.
  rewrite list_fmap_insert, E. apply list_insert_id. by rewrite list_lookup_fmap, Hs.
Qed.

Lemma recv_needed i s st q : slave_at i st s → sl_recv_buffer s = Some q → q ∈ (needs (st_h st)).*1.
Proof.
  intros [_ Hs] Eq. apply list_elem_of_fmap. exists (q, sl_length s). split; [done|]. unfold needs. apply elem_of_app. left.
  apply list_elem_of_In, List.in_concat. exists (slave_needs s). split; apply list_elem_of_In.
  - apply list_elem_of_fmap. exists s. split; [done|]. by eapply list_elem_of_lookup_2.
  - unfold slave_needs. rewrite Eq. apply elem_of_app. right. by left.
Qed.

Lemma unread_same i s st m : slave_at i st s → (∀ q, q ∈ (needs (st_h st)).*1 → m !! q = st_heap st !! q) →
  unread s m = unread s (st_heap st).
Proof.
  intros Hs Hm. unfold unread. case_match; [|done]. destruct (sl_recv_buffer s) as [q|] eqn:Eq; [|done].
  rewrite Hm; [done|]. by eapply recv_needed.
Qed.

(** What is left unread is never a whole package. *)
Lemma unread_more i s st : slave_at i st s → is_open s → hok held (st_h st) (st_heap st) →
  cut (unread s (st_heap st)) = ([], Rest (unread s (st_heap st))).
Proof.
  intros Hs Ho Hk. rewrite cut_eq. pose proof (hok_slave_ok _ _ _ _ Hs Hk) as Hso. destruct Ho as [E|E].
  - destruct (header_facts s Hso E) as (_ & Hrd & _). rewrite first_short; [done|].
    unfold unread. rewrite E. cbn. unfold zlen. rewrite length_take. lia.
  - destruct (recv_block held i s st Hs E Hk) as (q & blk & Eq & Hb & Hlen & _).
    destruct (content_facts s Hso E) as (_ & _ & _ & Hrd & H0 & Hbe).
    unfold unread. rewrite E, Eq, Hb. cbn [Z.eqb Pos.eqb STATUS_CONTENT default].
    rewrite first_header; [|apply Hso|done]. rewrite <-Hbe. set (got := take _ _).
    assert (Hg : zlen got = sl_read s) by (unfold got, id, zlen in *; rewrite length_take; lia). rewrite Hg.
    destruct (Z.ltb_spec (sl_read s) (sl_length s)); [done|].
    by rewrite (proj2 (Z.ltb_lt _ _)), (proj2 (Z.eqb_eq _ _)) by (unfold HEADER_COOKIE_LENGTH; lia).
Qed.

(** The memory of the data is given back. *)
Lemma received_free p c i s s' r calls st st' :
  slave_at i st s → hok held (st_h st) (st_heap st) → st_heap st !! p = None →
  received (p :: held) i s s' r calls (put_mem (<[p := c]> (st_heap st)) st) st' →
  is_Some (st_heap st' !! p) ∧ received held i s s' r calls st (put_mem (delete p (st_heap st')) st').
Proof.
  intros Hs Hk Hp [R1 R2 R3 R4 R5 R6 R7 R8]. destruct (hok_held _ _ _ _ R8) as (Hin & _ & Hn). split; [done|].
  split; try done.
  - rewrite <-R5. apply (unread_same i s' st'); [done|]. intros q Hq. apply lookup_delete_ne. intros ->. done.
  - intros q Hq. cbn. assert (Hqp : q ≠ p).
    { intros ->. destruct (others_not held i s st p Hs Hk Hq) as [_ [? ?]]. congruence. }
    rewrite lookup_delete_ne by done. rewrite R7.
    + cbn. by rewrite lookup_insert_ne.
    + unfold others in *. by right.
  - by apply hok_free.
Qed.

Lemma received_refl i s st : slave_at i st s → is_open s → hok held (st_h st) (st_heap st) →
  received held i s s (unread s (st_heap st)) (st_calls st) st st.
Proof. intros Hs Ho Hk. split; try done. by rewrite put_slave_id. Qed.

(** A connection that reads to the end of its last package does not wait for the bytes of
    an empty one. *)
Lemma no_empty_package i s st c : slave_at i st s → is_open s → hok held (st_h st) (st_heap st) →
  (cut (unread s (st_heap st) ++ c)).2 = Rest [] → sl_status s = STATUS_HEADER ∨ 0 < sl_length s.
Proof.
  intros Hs [E|E] Hk Hc; [by left|right]. pose proof (hok_slave_ok _ _ _ _ Hs Hk) as Hso.
  destruct (content_facts s Hso E) as (_ & _ & [q Eq] & Hrd & H0 & Hbe).
  destruct (Z.ltb_spec 0 (sl_length s)); [done|exfalso]. rewrite cut_eq in Hc.
  unfold unread in Hc. rewrite E, Eq in Hc. cbn [Z.eqb Pos.eqb STATUS_CONTENT] in Hc.
  replace (Z.to_nat (sl_read s)) with 0%nat in Hc by lia. rewrite take_0, app_nil_r in Hc.
  rewrite first_header, <-Hbe in Hc; [|apply Hso|done]. pose proof (zlen_nonneg c).
  rewrite (proj2 (Z.ltb_ge _ _)), (proj2 (Z.ltb_lt _ _)) in Hc by (unfold HEADER_COOKIE_LENGTH; lia).
  destruct (_ =? 0); [|done]. injection Hc as Hnil. apply app_eq_nil in Hnil as [Hnil _].
  destruct (so_size _ Hso) as [H4 _]. by rewrite Hnil in H4.
Qed.

(** A connection does not see how its data was cut. *)
Lemma wp_arrive fd i chunks s (Q : unit → state → Prop) st :
  slave_at i st s → is_open s → hok held (st_h st) (st_heap st) → peer fd (st_h st) = i → i ≠ 0 →
  Forall (λ c, bytes c) chunks → (cut (unread s (st_heap st) ++ concat chunks)).2 = Rest [] →
  (∀ s' st', received held i s s' []
     (foldl (deliver reply (h_id (st_h st))) (st_calls st) (cut (unread s (st_heap st) ++ concat chunks)).1) st st' →
     Q tt st') →
  wp (arrive fd chunks) Q st.
Proof.
  revert s st. induction chunks as [|c chunks IH]; intros s st Hs Ho Hk Hp Hi Hb Hcut HQ; cbn [arrive].
  { apply wp_ret. cbn [concat] in *. rewrite app_nil_r in *.
    assert (E : cut (unread s (st_heap st)) = ([], Rest (unread s (st_heap st)))).
    { by eapply unread_more. }
    rewrite E in *. cbn in Hcut. injection Hcut as Hcut. apply (HQ s). rewrite <-Hcut at 1. by apply received_refl. }
  apply Forall_cons in Hb as [Hb Hbs]. apply wp_bind, wp_hmalloc. intros p Hfresh. cbn [heap with_heap state_heap] in *.
  set (st1 := put_mem _ st). pose proof (hok_malloc p c held _ _ Hfresh Hk) as Hk1.
  assert (Eu : unread s (st_heap st1) = unread s (st_heap st)).
  { apply (unread_same i s st); [done|]. intros q Hq. apply lookup_insert_ne. intros <-.
    assert (is_Some (st_heap st !! p)) as [? ?]; [|congruence]. apply (hok_dom _ _ _ p Hk), elem_of_app. by right. }
  pose proof (no_empty_package i s st _ Hs Ho Hk Hcut) as Hfed.
  cbn [concat] in Hcut, HQ. rewrite app_assoc, cut_two in Hcut, HQ.
  destruct (cut (unread s (st_heap st) ++ c)) as [ps e] eqn:Ec. cbn [fst snd] in *.
  destruct e as [r1| |]; [|done|done]. cbn [fst snd] in *.
  apply wp_bind. cbn [mainloop socket_input Z.eqb Pos.eqb FENGNET_SOCKET_TYPE_DATA]. apply wp_bind, wp_bind.
  eapply wp_wpu; [|eapply (wpu_push_open reply (p :: held) i s st1 p c fd);
    [done|done|exact Hk1|exact Hp|done|apply lookup_insert_eq|done|by left|by right|]].
  { by rewrite Eu, Ec. }
  rewrite Eu. unfold taken. rewrite Ec. intros st2 [s2 H2].
  destruct (received_free p c i s s2 r1 _ st st2 Hs Hk Hfresh H2) as [Hin H3].
  apply wp_hfree; [exact Hin|]. apply wp_ret. cbn [with_heap state_heap heap].
  set (st3 := put_mem (delete p (st_heap st2)) st2) in *. pose proof (rc_unread _ _ _ _ _ _ _ _ H3) as Eu3.
  pose proof (rc_h _ _ _ _ _ _ _ _ H3) as Eh3. pose proof (rc_calls _ _ _ _ _ _ _ _ H3) as Ec3.
  eapply (IH s2 st3); try apply H3; try done.
  - rewrite Eh3. rewrite (peer_put fd i s s2 st Hs); [done|]. apply H3.
  - by rewrite Eu3.
  - intros s4 st4 H4. apply (HQ s4). rewrite Eu3, Ec3, Eh3 in H4.
    rewrite foldl_app. eapply received_trans; [exact H3|exact H4].
Qed.
End arrival.

(** ** Messages between nodes *)

(** A message for a service of another node. *)
Record message := MkMessage {
  m_source : Z;
  m_destination : Z;
  m_type : Z;
  m_session : Z;
  m_data : list Z
}.

Definition message_package (m : message) : list Z :=
  package (m_data m) (MkHeader (m_source m) (type_handle (m_type m) (m_destination m)) (u32 (m_session m))).

(** A message for a service of the harbor [id]. *)
Definition message_ok (id : Z) (m : message) : Prop :=
  is_word (m_source m) ∧ is_word (m_destination m) ∧ Z.shiftr (m_destination m) HANDLE_REMOTE_SHIFT = id ∧
  0 ≤ m_type m < 256 ∧ - 2 ^ 31 ≤ m_session m < 2 ^ 31 ∧ fits (m_data m) ∧ bytes (m_data m).

(** The calls for a message that arrives: it goes to its service, and an error goes
    back when there is none. *)
Definition handed_over (reply : list call → Z) (calls : list call) (m : message) : list call :=
  let calls := calls ++ [CSend (m_source m) (m_destination m) (Z.lor (m_type m) PTYPE_TAG_DONTCOPY)
    (m_session m) (Some (m_data m))] in
  if (reply calls <? 0) && negb (m_type m =? PTYPE_ERROR) then
    calls ++ [CSend (m_destination m) (m_source m) PTYPE_ERROR (m_session m) None]
  else calls.

Lemma own_type_handle type dest : is_word dest →
  own_handle (Z.shiftr dest HANDLE_REMOTE_SHIFT) (type_handle type dest) = dest.
Proof.
  intros Hd. unfold own_handle. rewrite handle_mask, u32_shiftl. unfold type_handle, HANDLE_REMOTE_SHIFT.
  rewrite Z.mod_add, Z.mod_mod, Z.shiftr_div_pow2 by done. unfold is_word in Hd.
  rewrite (Z.mod_small (dest / 2 ^ 24)).
  - rewrite lor_shiftl by (done || by apply Z.mod_pos_bound). pose proof (Z.div_mod dest (2 ^ 24) ltac:(done)). lia.
  - split; [apply Z.div_pos; lia|]. apply Z.div_lt_upper_bound; lia.
Qed.

Lemma type_of_handle type dest : 0 ≤ type < 256 → Z.shiftr (type_handle type dest) HANDLE_REMOTE_SHIFT = type.
Proof.
  intros Ht. unfold type_handle, HANDLE_REMOTE_SHIFT. rewrite Z.shiftr_div_pow2, Z.div_add by done.
  rewrite Z.div_small by by apply Z.mod_pos_bound. by rewrite Z.mod_small.
Qed.

Lemma i32_u32 z : - 2 ^ 31 ≤ z < 2 ^ 31 → i32 (u32 z) = z.
Proof. intros H. unfold i32, u32. rewrite Zplus_mod_idemp_l, Z.mod_small; lia. Qed.

Lemma deliver_message reply id calls m : message_ok id m →
  deliver reply id calls (m_data m ++ header_to_message (MkHeader (m_source m)
    (type_handle (m_type m) (m_destination m)) (u32 (m_session m)))) = handed_over reply calls m.
Proof.
  intros (Hs & Hd & <- & Ht & Hses & _ & _). unfold deliver. cbv zeta. set (h := MkHeader _ _ _).
  assert (El : (length (m_data m ++ header_to_message h) - 12)%nat = length (m_data m)).
  { rewrite length_app. change (length (header_to_message h)) with 12%nat. lia. }
  rewrite El, drop_app_length, take_app_length, header_message; [|done|apply type_handle_word|apply u32_word].
  subst h. cbn [hd_source hd_destination hd_session]. rewrite own_type_handle, type_of_handle by done.
  by rewrite i32_u32 by lia.
Qed.

Lemma message_package_bytes id m : message_ok id m → bytes (message_package m).
Proof.
  intros (_ & _ & _ & _ & _ & _ & Hb). unfold message_package, package, header_to_message.
  rewrite !Forall_app. split_and!; try apply to_bigendian_bytes. done.
Qed.

(** C15: the messages that another node sends to this one, cut in any way into the
    data of an open connection, reach [fengnet_send] once each and in their order,
    with the source, destination, type, session and bytes they were sent with; the
    sender gets an error for each that has no service. *)
Theorem remote_messages_arrive reply held st fd s (ms : list message) (chunks : list (list Z)) :
  harbor_reachable reply (held, st) →
  0 < peer fd (st_h st) → slave_at (peer fd (st_h st)) st s → is_open s → unread s (st_heap st) = [] →
  Forall (message_ok (h_id (st_h st))) ms → concat chunks = concat (message_package <$> ms) →
  ∃ st', arrive reply fd chunks st = Ret (tt, st') ∧
    st_calls st' = foldl (handed_over reply) (st_calls st) ms.
Proof.
  intros Hr Hi Hs Ho Hu Hms Hc. pose proof (harbor_reachable_ok _ _ Hr) as Hk. cbn [fst snd] in Hk.
  set (f := λ m, (m_data m, MkHeader (m_source m) (type_handle (m_type m) (m_destination m)) (u32 (m_session m)))).
  assert (Ec : cut (concat chunks) = ((λ x, x.1 ++ header_to_message x.2) <$> (f <$> ms), Rest [])).
  { rewrite Hc, <-cut_packages; [by rewrite <-list_fmap_compose|].
    apply Forall_fmap. eapply Forall_impl; [exact Hms|]. by intros m (_ & _ & _ & _ & _ & ? & _). }
  assert (Hb : Forall (λ c : list Z, bytes c) chunks).
  { apply Forall_concat. rewrite Hc. apply Forall_concat, Forall_fmap. eapply Forall_impl; [exact Hms|].
    intros m. apply message_package_bytes. }
  assert (H : wp (arrive reply fd chunks) (λ _ st', st_calls st' = foldl (handed_over reply) (st_calls st) ms) st).
  { eapply (wp_arrive reply held fd _ chunks s); [exact Hs|done|exact Hk|done|lia|done|by rewrite Hu; cbn [app]; rewrite Ec|].
    intros s' st' [_ _ _ _ _ -> _ _]. rewrite Hu. cbn [app]. rewrite Ec. cbn [fst]. clear Ec Hc Hu.
    generalize (st_calls st) as calls. induction Hms as [|m ms Hm _ IH]; intros calls; [done|].
    cbn [fmap list_fmap foldl]. rewrite <-IH. f_equal. by apply deliver_message. }
  destruct H as ([] & st' & Hrun & HQ). by exists st'.
Qed.

(** ** Concrete runs *)

(** A server that takes every message. *)
Definition quiet (calls : list call) : Z := 0.

(** Harbor 1 behind its start. *)
Definition started : state :=
  MkState (MkHarbor 1 16777217 hash_new (replicate (Z.to_nat REMOTE_MAX) zero_slave)) ∅ [CCallback; CHarborStart].

(** It has accepted connection 7 from harbor 2. *)
Definition accepted : state :=
  put_slave 2 (MkSlave 7 None STATUS_HEADER 0 0 [0; 0; 0; 0] None)
    (put_calls (st_calls started ++ [CStart 7; CWrite 7 [1]]) started).

Definition small_b (h : harbor) : bool :=
  forallb (λ s, zlen (waiting (sl_queue s)) <? 2 ^ 29) (h_s h) &&
  forallb (λ l, forallb (λ n, zlen (waiting (k_queue n)) <? 2 ^ 29 - 1) l) (h_map h).

Lemma small_b_true h : small_b h = true → queues_small h.
Proof.
  unfold small_b. rewrite andb_true_iff, !forallb_forall. intros [H1 H2]. split.
  - intros s Hs. apply Z.ltb_lt, H1. by apply list_elem_of_In.
  - intros l n Hl Hn. apply list_elem_of_In in Hl, Hn. specialize (H2 l Hl). rewrite forallb_forall in H2.
    by apply Z.ltb_lt, H2.
Qed.

Lemma started_reachable : harbor_reachable quiet ([], started).
Proof.
  exists (codes "1 16777217"), ∅, started. split; [by rewrite map_to_list_empty|]. split.
  { intros id rest H. vm_compute in H. injection H as <- _. lia. }
  split; [vm_compute; reflexivity|]. rewrite map_to_list_empty. constructor.
Qed.

Lemma accepted_reachable : harbor_reachable quiet ([], accepted).
Proof.
  destruct started_reachable as (args & m & st & H1 & H2 & H3 & H4). exists args, m, st. split_and!; try done.
  eapply rtc_r; [exact H4|]. eapply (step_message _ _ _ 0 0 (ICommand (codes "A 7 2")) 0).
  - split; [done|]. split; [apply small_b_true; vm_compute; reflexivity|]. done.
  - vm_compute. reflexivity.
Qed.

Definition hello : message := MkMessage 33554435 16777221 1 (-5) [104; 105].

Lemma remote_messages_arrive_witness :
  concat [[0; 0]; [0; 14; 104; 105; 2; 0]; [0; 3; 1; 0; 0; 5; 255; 255; 255; 251]] = concat (message_package <$> [hello]) ∧
  ∃ st', arrive quiet 7 [[0; 0]; [0; 14; 104; 105; 2; 0]; [0; 3; 1; 0; 0; 5; 255; 255; 255; 251]] accepted = Ret (tt, st') ∧
    st_calls st' = st_calls accepted ++ [CSend 33554435 16777221 65537 (-5) (Some [104; 105])].
Proof.
  assert (E : concat [[0; 0]; [0; 14; 104; 105; 2; 0]; [0; 3; 1; 0; 0; 5; 255; 255; 255; 251]] =
    concat (message_package <$> [hello])) by (vm_compute; reflexivity).
  split; [exact E|].
  assert (Ep : peer 7 (st_h accepted) = 2) by (vm_compute; reflexivity).
  destruct (remote_messages_arrive quiet [] accepted 7 (MkSlave 7 None STATUS_HEADER 0 0 [0; 0; 0; 0] None) [hello]
    [[0; 0]; [0; 14; 104; 105; 2; 0]; [0; 3; 1; 0; 0; 5; 255; 255; 255; 251]]) as (st' & Hrun & Hc).
  - apply accepted_reachable.
  - by rewrite Ep.
  - rewrite Ep. split; [lia|]. vm_compute. reflexivity.
  - by left.
  - done.
  - apply Forall_singleton. unfold message_ok, is_word, fits, HEADER_COOKIE_LENGTH. cbn.
    split_and!; try lia; try done. by repeat constructor.
  - exact E.
  - exists st'. split; [exact Hrun|]. rewrite Hc. vm_compute. reflexivity.
Defined.

(** Each block of memory is held by exactly one queue or buffer of the harbor, or by
    somebody else. *)
Definition owned_once (held : list addr) (st : state) : Prop :=
  held ++ (needs (st_h st)).*1 ≡ₚ (map_to_list (st_heap st)).*1.

(** C14: What the next message does to a harbor that has got any messages. It is undefined
    behaviour exactly for the [malformed] ones: a command [N], [S] or [A] that is nothing but
    its letter, and data with which a package is complete, on a connection that reads, that
    is shorter than the 12 bytes at the end of each package of [send_remote]. Every other
    message is handled, and then each block of memory is held by exactly one of the queues of
    the harbor, one of its buffers, or somebody else: none is leaked or freed twice. The senders
    keep the contract [allowed]: the memory that is sent is given away and its size is right,
    data is not empty, and queues are shorter than 2^29. *)
Theorem harbor_safe reply held held' st session source msg :
  harbor_reachable reply (held, st) → allowed held held' source msg st →
  if malformed msg st then mainloop reply session source msg st = Undef
  else ∃ st', mainloop reply session source msg st = Ret (0, st') ∧ owned_once held' st'.
Proof.
  intros Hr Ha. apply harbor_reachable_ok in Hr.
  pose proof (mainloop_ok reply held held' session source msg
    (λ r st', malformed msg st = false ∧ r = 0 ∧ owned_once held' st') st Hr Ha) as H.
  destruct H as [(r & st' & Hrun & Hm & -> & H)|[Hm Hrun]].
  - intros st' Hm Hk. split_and!; [done|done|apply Hk].
  - rewrite Hm. by exists st'.
  - by rewrite Hm.
Qed.

(** A message for harbor 2 waits in its queue. *)
Definition with_block : state := put_mem {[1%positive := [104; 105]]} started.

Lemma with_block_reachable : harbor_reachable quiet ([1%positive], with_block).
Proof.
  destruct started_reachable as (args & m & st & H1 & H2 & H3 & H4). exists args, m, st. split_and!; try done.
  eapply rtc_r; [exact H4|]. apply (step_malloc quiet [] 1%positive [104; 105] started); [done|]. by repeat constructor.
Qed.

Lemma harbor_safe_witness :
  harbor_reachable quiet ([1%positive], with_block) ∧
  ∃ st', mainloop quiet 5 16777221 (IRemote (replicate 16 0) 33554435 (Some 1%positive) 2 1) with_block = Ret (0, st') ∧
    owned_once [] st'.
Proof.
  split; [apply with_block_reachable|].
  apply (harbor_safe quiet [1%positive] [] with_block 5 16777221 (IRemote (replicate 16 0) 33554435 (Some 1%positive) 2 1)).
  - apply with_block_reachable.
  - split; [done|]. split; [apply small_b_true; vm_compute; reflexivity|]. split; [done|].
    split; [|done]. apply Forall_singleton. exists [104; 105]. split; [done|]. split; [done|]. by repeat constructor.
Defined.

(** ** What waits for a harbor *)

Lemma outbox_at i st s : slave_at i st s → outbox i st =
  (if sl_fd s =? 0 then [] else packs (sl_fd s) (st_calls st)) ++ packs (sl_fd s) (queue_calls (sl_fd s) (st_heap st) (sl_queue s)).
Proof. intros [_ Hs]. unfold outbox. by rewrite Hs. Qed.

(** C16: a message for another harbor that is not down goes behind all messages for
    that harbor, as one package with its source, its destination and type in one
    word, its session and its bytes. *)
Theorem send_joins_outbox reply held held' st session source name dest msg sz type s :
  let i := Z.shiftr dest HANDLE_REMOTE_SHIFT in
  harbor_reachable reply (held, st) → allowed held held' source (IRemote name dest msg sz type) st →
  dest ≠ 0 → i ≠ h_id (st_h st) → slave_at i st s → sl_status s ≠ STATUS_DOWN →
  sz + HEADER_COOKIE_LENGTH ≤ UINT32_MAX →
  ∃ st', mainloop reply session source (IRemote name dest msg sz type) st = Ret (0, st') ∧
    outbox i st' = outbox i st ++
      [package (buf_data (st_heap st) msg sz) (MkHeader source (type_handle type dest) (u32 session))].
Proof.
  intros i Hr (Hsrc & Hsm & -> & Hb & Hsz & Hnull & _ & Hd) Hd0 Hi Hs Hdown Hmax.
  pose proof (harbor_reachable_ok _ _ Hr) as Hk. cbn [fst snd] in Hk.
  assert (Hmax' : u64 (sz + HEADER_COOKIE_LENGTH) ≤ UINT32_MAX).
  { unfold u64, UINT32_MAX, HEADER_COOKIE_LENGTH in *. rewrite Z.mod_small; lia. }
  assert (Hsame : ∀ s', slave_at i st s' → s' = s). { intros s' [_ Hs']. destruct Hs as [_ Hs]. congruence. }
  set (out := λ (r : Z) st', r = 0 ∧ outbox i st' = outbox i st ++
    [package (buf_data (st_heap st) msg sz) (MkHeader source (type_handle type dest) (u32 session))]).
  cut (wp (mainloop reply session source (IRemote name dest msg sz type)) out st).
  { intros (r & st' & Hrun & -> & H). by exists st'. }
  cbn [mainloop]. rewrite (proj2 (Z.eqb_neq _ _) Hd0). apply wp_bind.
  eapply (wp_remote_send_handle reply held'); [exact Hk|exact Hb|done|done|done|done| |].
  { intros s' Hs'. pose proof (small_slave _ _ _ Hsm Hs') as H. destruct (sl_queue s'); [cbn in *; lia|done]. }
  intros r st' [st0 ? _ _ _|s0 st0 Hs0 ? _|s0 q' st0 Hs0 _ _ _ Hw -> _|s0 st0 Hs0 _ Hfd _ Hq ->]; try done.
  - apply Hsame in Hs0 as ->. done.
  - apply Hsame in Hs0 as ->. cbn [Z.eqb negb]. apply wp_ret. split; [done|].
    rewrite (outbox_at i st s Hs), (outbox_at i _ (set_queue (Some q') s)) by by eapply slave_at_put.
    cbn [set_queue sl_fd sl_queue put_slave put_h st_calls st_heap]. rewrite <-app_assoc. f_equal.
    rewrite !queue_calls_waiting, Hw, calls_of_app, packs_app. f_equal. unfold calls_of. cbn. rewrite app_nil_r.
    by apply packs_remote.
  - apply Hsame in Hs0 as ->. cbn [Z.eqb negb]. apply wp_bind. eapply wp_free_message; [exact Hb|]. apply wp_ret. split; [done|].
    rewrite (outbox_at i st s Hs), (outbox_at i _ s) by done. rewrite (proj2 (Z.eqb_neq _ _) Hfd), Hq.
    cbn [put_mem put_calls st_calls st_heap queue_calls]. change (packs (sl_fd s) []) with (@nil (list Z)).
    by rewrite !app_nil_r, packs_app, packs_remote.
Qed.

Lemma with_block_allowed : allowed [1%positive] [] 16777221 (IRemote (replicate 16 0) 33554435 (Some 1%positive) 2 1) with_block.
Proof.
  split; [done|]. split; [apply small_b_true; vm_compute; reflexivity|]. split; [done|].
  split; [|done]. apply Forall_singleton. exists [104; 105]. split; [done|]. split; [done|]. by repeat constructor.
Qed.

Lemma send_joins_outbox_witness : outbox 2 with_block = [] ∧
  ∃ st', mainloop quiet 5 16777221 (IRemote (replicate 16 0) 33554435 (Some 1%positive) 2 1) with_block = Ret (0, st') ∧
    outbox 2 st' = [[0; 0; 0; 14; 104; 105; 1; 0; 0; 5; 1; 0; 0; 3; 0; 0; 0; 5]].
Proof.
  split; [vm_compute; reflexivity|].
  destruct (send_joins_outbox quiet [1%positive] [] with_block 5 16777221 (replicate 16 0) 33554435 (Some 1%positive) 2 1
    zero_slave) as (st' & Hrun & Ho).
  - apply with_block_reachable.
  - apply with_block_allowed.
  - done.
  - done.
  - split; [done|]. vm_compute. reflexivity.
  - done.
  - done.
  - exists st'. split; [exact Hrun|]. etransitivity; [exact Ho|]. vm_compute. reflexivity.
Defined.

(** C17: when a harbor connects ([S]) or is accepted ([A]) over a new connection, the
    byte with the own id comes first, and all that waited for it follows in its
    order: at once for [A], after the handshake for [S]. *)
Theorem connection_sends_outbox reply held st session source text (first : bool) fd i s :
  harbor_reachable reply (held, st) → is_word source → queues_small (st_h st) → zlen text + 2 ≤ INT_MAX →
  scan_two (c_str text) = (fd, i) → fd ≠ 0 → 0 < i < REMOTE_MAX → slave_at i st s → sl_fd s = 0 →
  packs fd (st_calls st) = [] →
  ∃ st' s', mainloop reply session source (ICommand ((if first then 83 else 65) :: 32 :: text)) st = Ret (0, st') ∧
    slave_at i st' s' ∧ sl_fd s' = fd ∧ outbox i st' = [u8 (h_id (st_h st))] :: outbox i st ∧
    if first then sl_status s' = STATUS_HANDSHAKE
    else sl_status s' = STATUS_HEADER ∧ packs fd (st_calls st') = outbox i st'.
Proof.
  intros Hr Hsrc Hsm Hmax Et Hfd Hi Hs Hs0 Hnew. pose proof (harbor_reachable_ok _ _ Hr) as Hk. cbn [fst snd] in Hk.
  set (post := λ (r : Z) st', r = 0 ∧ connection first text st st').
  assert (H : wp (mainloop reply session source (ICommand ((if first then 83 else 65) :: 32 :: text))) post st).
  { cbn [mainloop]. apply wp_bind. unfold harbor_command. pose proof (zlen_nonneg text).
    set (c := if first then 83 else 65). apply wp_bind. eapply (wp_lift _ c); [done|]. rewrite i32_small by (rewrite !zlen_cons; lia).
    rewrite !zlen_cons. rewrite (proj2 (Z.ltb_ge _ _)) by lia. cbn [drop].
    assert (Ec : (c =? 78) = false ∧ (c =? 83) || (c =? 65) = true ∧ (c =? 83) = first) by by subst c; destruct first.
    destruct Ec as (-> & -> & ->). eapply (wp_connect_harbor reply held); [exact Hk|]. intros st' Hc _. by apply wp_ret. }
  destruct H as (r & st' & Hrun & -> & Hc). exists st', (connected first fd s).
  destruct Hc as [Hno|fd' i' s1 st' Et' _ _ Hs1 _ Eh Ec Em].
  { destruct (Hno _ _ _ Et Hs) as [?|[?|[?|?]]]; try done; lia. }
  rewrite Et in Et'. injection Et' as <- <-. assert (s1 = s) as -> by (destruct Hs as [_ Hs], Hs1 as [_ Hs1]; congruence).
  assert (Hs' : slave_at i st' (connected first fd s)).
  { destruct Hs as [Hi0 Hs]. split; [done|]. rewrite Eh. cbn. apply list_lookup_insert_eq. by eapply lookup_lt_Some. }
  assert (Efd : sl_fd (connected first fd s) = fd) by by destruct first.
  assert (Ep : packs fd (st_calls st') = [u8 (h_id (st_h st))] :: (if first then [] else outbox i st)).
  { rewrite Ec, !packs_app, Hnew. cbn [app packs omap list_omap]. rewrite Z.eqb_refl. cbn [app]. f_equal.
    destruct first; [done|]. rewrite (outbox_at i st s Hs), Hs0. cbn [Z.eqb app]. apply packs_queue. }
  split; [exact Hrun|]. split; [exact Hs'|]. split; [exact Efd|].
  assert (Eo : outbox i st' = [u8 (h_id (st_h st))] :: outbox i st).
  { rewrite (outbox_at i st' _ Hs'), Efd, Ep, (proj2 (Z.eqb_neq _ _) Hfd). destruct first.
    - rewrite (Em eq_refl), (outbox_at i st s Hs), Hs0. cbn [connected set_status set_fd sl_queue Z.eqb app]. f_equal. apply packs_queue.
    - cbn. by rewrite app_nil_r. }
  split; [exact Eo|]. destruct first; [done|]. split; [done|]. by rewrite Eo, Ep.
Qed.

(** The state after a run. *)
Definition after (m : outcome (Z * state)) : state := match m with Ret (_, st) => st | _ => started end.

(** [with_block] after the message. *)
Definition queued : state :=
  after (mainloop quiet 5 16777221 (IRemote (replicate 16 0) 33554435 (Some 1%positive) 2 1) with_block).

Lemma queued_reachable : harbor_reachable quiet ([], queued).
Proof.
  destruct with_block_reachable as (args & m & st & H1 & H2 & H3 & H4). exists args, m, st. split_and!; try done.
  eapply rtc_r; [exact H4|].
  apply (step_message quiet [1%positive] [] 5 16777221 (IRemote (replicate 16 0) 33554435 (Some 1%positive) 2 1) 0).
  - apply with_block_allowed.
  - vm_compute. reflexivity.
Qed.

Lemma connection_sends_outbox_witness :
  ∃ st', mainloop quiet 0 16777217 (ICommand (codes "A 7 2")) queued = Ret (0, st') ∧
    packs 7 (st_calls st') = [[1]; [0; 0; 0; 14; 104; 105; 1; 0; 0; 5; 1; 0; 0; 3; 0; 0; 0; 5]].
Proof.
  destruct (connection_sends_outbox quiet [] queued 0 16777217 (codes "7 2") false 7 2
    (default zero_slave (h_s (st_h queued) !! 2%nat))) as (st' & s' & Hrun & _ & _ & Ho & _ & Hp).
  - apply queued_reachable.
  - done.
  - apply small_b_true. vm_compute. reflexivity.
  - done.
  - vm_compute. reflexivity.
  - done.
  - done.
  - split; [done|]. vm_compute. reflexivity.
  - vm_compute. reflexivity.
  - vm_compute. reflexivity.
  - exists st'. split; [exact Hrun|]. rewrite Hp, Ho. vm_compute. reflexivity.
Defined.

(** The first byte from a harbor that has been connected to is its id: then all
    that waited for it has been written, in its order, and the rest of the data is
    taken as a stream; any other byte closes the connection. *)
Theorem handshake_sends_queue reply held st session source fd p b c s :
  let i := peer fd (st_h st) in
  harbor_reachable reply (p :: held, st) →
  st_heap st !! p = Some (b :: c) → bytes (b :: c) → 0 < i → slave_at i st s → sl_status s = STATUS_HANDSHAKE →
  (∃ r, (cut (take (Z.to_nat (sl_read s)) (sl_size s) ++ c)).2 = Rest r) →
  ∃ st' s', mainloop reply session source (ISocket FENGNET_SOCKET_TYPE_DATA fd (zlen (b :: c)) (Some p)) st = Ret (0, st') ∧
    slave_at i st' s' ∧ sl_queue s' = None ∧
    if b =? i then is_open s' ∧ sl_fd s' = sl_fd s ∧ packs (sl_fd s) (st_calls st') = outbox i st
    else sl_status s' = STATUS_DOWN ∧ sl_fd s' = 0 ∧ st_calls st' = st_calls st ++ [CClose (sl_fd s)].
Proof.
  intros i Hr Hp Hb Hi Hs Hst [r Hcut]. pose proof (harbor_reachable_ok _ _ Hr) as Hk. cbn [fst snd] in Hk.
  set (out := λ (v : Z) st', v = 0 ∧ ∃ s', slave_at i st' s' ∧ sl_queue s' = None ∧
    if b =? i then is_open s' ∧ sl_fd s' = sl_fd s ∧ packs (sl_fd s) (st_calls st') = outbox i st
    else sl_status s' = STATUS_DOWN ∧ sl_fd s' = 0 ∧ st_calls st' = st_calls st ++ [CClose (sl_fd s)]).
  cut (wp (mainloop reply session source (ISocket FENGNET_SOCKET_TYPE_DATA fd (zlen (b :: c)) (Some p))) out st).
  { intros (v & st' & Hrun & -> & s' & H). by exists st', s'. }
  cbn [mainloop socket_input Z.eqb Pos.eqb FENGNET_SOCKET_TYPE_DATA]. apply wp_bind, wp_bind.
  destruct (handshake_facts s (hok_slave_ok _ _ _ _ Hs Hk) Hst) as (_ & _ & Hfd).
  eapply wp_wpu; [|eapply (wpu_push_handshake reply (p :: held) i s st p b c fd); [exact Hs|done|exact Hk|done|lia|done|done|by left|]].
  { rewrite Hcut. by intros [_ ?]. }
  intros st' Hg. unfold greeting in Hg. destruct (b =? i) eqn:Ebi.
  - destruct Hg as (st1 & E1 & E2 & _ & Ht). unfold taken in Ht. destruct (cut _) as [ps e] eqn:Ec. cbn [snd] in Hcut. subst e.
    destruct Ht as [s' Hrc]. pose proof (rc_ok _ _ _ _ _ _ _ _ Hrc) as Hk'.
    apply wp_hfree; [by apply (hok_held _ _ _ _ Hk')|]. apply wp_ret. split; [done|]. exists s'.
    assert (Hop : is_open s') by apply Hrc. assert (Ef : sl_fd s' = sl_fd s) by apply (rc_fd _ _ _ _ _ _ _ _ Hrc).
    split; [apply Hrc|]. split.
    { apply (open_facts s'); [apply (hok_slave_ok _ _ _ _ (rc_slave _ _ _ _ _ _ _ _ Hrc) Hk')|by rewrite Ef|].
      intros E. destruct Hop as [Hop|Hop]; by rewrite E in Hop. }
    split; [done|]. split; [done|]. cbn [with_heap state_heap put_mem st_calls].
    rewrite (rc_calls _ _ _ _ _ _ _ _ Hrc), packs_delivers, E2, packs_app, (outbox_at i st s Hs).
    by rewrite (proj2 (Z.eqb_neq _ _) Hfd).
  - destruct Hg as [[s1 E1] E2 _ Hk']. apply wp_hfree; [by apply (hok_held _ _ _ _ Hk')|]. apply wp_ret. split; [done|].
    exists (closed_slave s1). split; [|done]. destruct Hs as [Hi0 Hs]. split; [done|]. cbn. rewrite E1. cbn.
    apply list_lookup_insert_eq. by eapply lookup_lt_Some.
Qed.

(** [queued] after it has been told to connect; then the id of the other side
    arrives, and a byte of a package. *)
Definition connecting : state :=
  let st := after (mainloop quiet 0 16777217 (ICommand (codes "S 7 2")) queued) in
  put_mem (<[2%positive := [2; 0]]> (st_heap st)) st.

Lemma greeting_reachable : harbor_reachable quiet ([2%positive], connecting).
Proof.
  destruct queued_reachable as (args & m & st & H1 & H2 & H3 & H4). exists args, m, st. split_and!; try done.
  eapply rtc_r; [eapply rtc_r; [exact H4|]|].
  - apply (step_message quiet [] [] 0 16777217 (ICommand (codes "S 7 2")) 0
      queued (after (mainloop quiet 0 16777217 (ICommand (codes "S 7 2")) queued))).
    + split; [done|]. split; [apply small_b_true; vm_compute; reflexivity|]. done.
    + vm_compute. reflexivity.
  - apply (step_malloc quiet [] 2%positive [2; 0]); [vm_compute; reflexivity|]. by repeat constructor.
Qed.

Lemma handshake_sends_queue_witness :
  ∃ st', mainloop quiet 0 0 (ISocket FENGNET_SOCKET_TYPE_DATA 7 2 (Some 2%positive)) connecting = Ret (0, st') ∧
    packs 7 (st_calls st') = [[1]; [0; 0; 0; 14; 104; 105; 1; 0; 0; 5; 1; 0; 0; 3; 0; 0; 0; 5]].
Proof.
  assert (Ep : peer 7 (st_h connecting) = 2) by (vm_compute; reflexivity).
  assert (Es : h_s (st_h connecting) !! 2%nat = Some (default zero_slave (h_s (st_h connecting) !! 2%nat)))
    by (vm_compute; reflexivity).
  assert (Ef : sl_fd (default zero_slave (h_s (st_h connecting) !! 2%nat)) = 7) by (vm_compute; reflexivity).
  destruct (handshake_sends_queue quiet [] connecting 0 0 7 2%positive 2 [0]
    (default zero_slave (h_s (st_h connecting) !! 2%nat))) as (st' & s' & Hrun & _ & _ & H).
  - apply greeting_reachable.
  - vm_compute. reflexivity.
  - by repeat constructor.
  - by rewrite Ep.
  - rewrite Ep. split; [done|exact Es].
  - vm_compute. reflexivity.
  - exists [0]. vm_compute. reflexivity.
  - exists st'. split; [exact Hrun|]. rewrite Ep, Ef in H. destruct H as (_ & _ & H). rewrite H. vm_compute. reflexivity.
Defined.

(** ** Names *)

Lemma strncmp_eq_refl n s : strncmp_eq n s s = true.
Proof. revert s. induction n as [|n IH]; intros [|x s]; try done. cbn. rewrite Z.eqb_refl, IH. by destruct (x =? 0). Qed.

(** A name that has just been used first is the first node of its bucket. *)
Lemma lookup_first_use name n st : wf (st_h st) → k_hash n = name_hash name → k_key n = name →
  let p := (name_hash name mod HASH_SIZE, O) in
  lookup_name name (st_h (put_node p n (put_h (with_name name (st_h st)) st))) = Some p.
Proof.
  intros Hw Hh Hkey p. destruct (wf_bucket _ _ Hw (hash_range name)) as (l & _ & Hl). unfold lookup_name. cbn [fst].
  cbn. rewrite list_lookup_alter_eq, list_lookup_alter_eq, Hl. cbn.
  by rewrite Hh, Z.eqb_refl, Hkey, strncmp_eq_refl.
Qed.

(** A message for a global name of another node that is not yet connected loses
    its handle when the name becomes known: it joins the messages for that harbor
    with a destination of only its type, handle 0. *)
Theorem early_name_loses_handle reply held held' st st1 session session' source handle key msg sz type s :
  let name := key ++ replicate (Z.to_nat (GLOBALNAME_LENGTH - zlen key)) 0 in
  let i := Z.shiftr handle HANDLE_REMOTE_SHIFT in
  harbor_reachable reply (held, st) → allowed held held' source (IRemote name 0 msg sz type) st →
  0 < zlen key < GLOBALNAME_LENGTH → lookup_name name (st_h st) = None → sz + HEADER_COOKIE_LENGTH ≤ UINT32_MAX →
  slave_at i st s → sl_fd s = 0 → sl_status s = STATUS_WAIT → i ≠ Z.shiftr (h_slave (st_h st)) HANDLE_REMOTE_SHIFT →
  mainloop reply session source (IRemote name 0 msg sz type) st = Ret (0, st1) →
  is_word handle → queues_small (st_h st1) →
  ∃ st2, mainloop reply session' handle (ICommand (78 :: 32 :: key)) st1 = Ret (0, st2) ∧
    outbox i st2 = outbox i st ++
      [package (buf_data (st_heap st) msg sz) (MkHeader source (type_handle type 0) (u32 session))].
Proof.
  intros name i Hr (Hsrc & Hsm & -> & Hb & Hsz & Hnull & Hname & _) Hkey Hnew Hmax Hs Hfd Hst Hi Hrun Hh Hsm1.
  pose proof (harbor_reachable_ok _ _ Hr) as Hk. cbn [fst snd] in Hk.
  assert (Hw : wp (mainloop reply session source (IRemote name 0 msg sz type))
    (λ r st1, r = 0 ∧ name_used held' source name type session msg sz st 1 st1) st).
  { cbn [mainloop Z.eqb]. apply wp_bind. eapply (wp_remote_send_name reply held'); try done.
    intros r st' Hu. assert (r = 1) as ->.
    { destruct Hu as [|p n r st' El]; [done|]. congruence. }
    cbn [Z.eqb negb]. by apply wp_ret. }
  destruct Hw as (r & st1' & Hrun' & -> & Hu). rewrite Hrun in Hrun'. injection Hrun' as <-.
  remember 1 as one. destruct Hu as [p stn n q' st1 En Hn _ Hwt E1 Hk1|p n r st1 El]; [|congruence].
  unfold named in En. rewrite Hnew in En. injection En as <- <-.
  assert (n = MkNode name (name_hash name) 0 None) as ->.
  { destruct Hn as (_ & l & Hl & Hn). destruct (with_name_node name st (hk_wf _ _ _ Hk)) as (_ & l' & Hl' & Hn').
    cbn [fst snd] in *. congruence. }
  set (p := (name_hash name mod HASH_SIZE, O)) in *. set (node := MkNode name (name_hash name) 0 None) in *.
  set (stn := put_h (with_name name (st_h st)) st) in *.
  assert (Hnamed : named name st1 = (p, st1)).
  { unfold named. rewrite E1. cbn [put_calls st_h]. unfold stn, p. by rewrite lookup_first_use by done || apply Hk. }
  assert (Hn1 : node_is p st1 (set_kqueue (Some q') node)).
  { rewrite E1. exact (node_is_put p node (set_kqueue (Some q') node) stn Hn). }
  assert (Hs1 : slave_at i st1 s) by by rewrite E1.
  assert (H2 : wp (mainloop reply session' handle (ICommand (78 :: 32 :: key))) (λ r st2, r = 0 ∧ updated name handle st1 st2) st1).
  { cbn [mainloop]. apply wp_bind. unfold harbor_command. apply wp_bind. eapply (wp_lift _ 78); [done|].
    rewrite i32_small by (rewrite !zlen_cons; unfold GLOBALNAME_LENGTH, INT_MAX in *; lia). rewrite !zlen_cons. cbn [Z.eqb Pos.eqb drop].
    replace (1 + (1 + zlen key) - 2) with (zlen key) by lia. rewrite (proj2 (Z.ltb_ge _ _)) by lia.
    rewrite (proj2 (Z.leb_gt _ _)) by lia. rewrite (proj2 (Z.leb_gt _ _)) by lia. cbn [orb].
    eapply (wp_update_name reply held'); [exact Hk1|exact Hname|exact Hh|exact Hsm1|]. intros st2 Hup _. by apply wp_ret. }
  destruct H2 as (r & st2 & Hrun2 & -> & Hup). exists st2. split; [exact Hrun2|].
  clear Hrun Hrun2 Hsm Hsm1 Hb.
  assert (Esame : ∀ p' st' n', named name st1 = (p', st') → node_is p' st' n' → p' = p ∧ st' = st1 ∧ n' = set_kqueue (Some q') node).
  { intros p' st' n' E (_ & l' & Hl' & Hn'). rewrite Hnamed in E. injection E as <- <-.
    destruct Hn1 as (_ & l & Hl & Hn1). split; [done|]. split; [done|]. congruence. }
  destruct Hup as [p' st' n' En Hn' Eq _|p' st' n' q l q2 st3 En Hn' Eq Hq Hsent E2 Ec2 Em2];
    destruct (Esame _ _ _ En Hn') as (-> & -> & ->); [done|]. cbn in Eq. injection Eq as <-.
  cbn [waiting node k_queue app] in Hwt. rewrite (rep_messages _ _ Hq) in Hwt. subst l.
  set (stx := put_node p _ st1) in *. assert (Hsx : slave_at i stx s) by exact Hs1.
  assert (Hone : ∀ s', slave_at i stx s' → s' = s). { intros s' [_ Hs']. destruct Hsx as [_ Hsx]. congruence. }
  destruct Hsent as [s' Hs' Hd|s' q3 Hs' _ _ _ Hw3 Hw2|s' st3 Hs' _ _ Hl _|s' st3 Hs' Hf _]; cbn [set_value k_value] in *.
  - apply Hone in Hs' as ->. by rewrite Hst in Hd.
  - apply Hone in Hs' as ->. rewrite waiting_needs, Hw2 in Em2.
    assert (Hs2 : slave_at i st2 (set_queue (Some q3) s)).
    { destruct Hsx as [Hi0 Hsx]. split; [done|]. rewrite E2. cbn. apply list_lookup_insert_eq. by eapply lookup_lt_Some. }
    assert (Eheap : st_heap st2 = st_heap st).
    { apply map_eq. intros a. rewrite Em2 by apply not_elem_of_nil. cbn. by rewrite E1. }
    rewrite (outbox_at i st2 _ Hs2), (outbox_at i st s Hs). cbn [set_queue sl_fd sl_queue]. rewrite Hfd. cbn [Z.eqb app].
    rewrite Eheap, !queue_calls_waiting, Hw3, calls_of_app, packs_app. f_equal. unfold calls_of. cbn. rewrite app_nil_r.
    apply packs_remote. unfold u64, UINT32_MAX, HEADER_COOKIE_LENGTH in *. rewrite Z.mod_small; lia.
  - exfalso. apply Hi. unfold i. rewrite Hl. unfold stx. cbn. by rewrite E1.
  - apply Hone in Hs' as ->. congruence.
Qed.

(** [with_block] after a message for the name of a service that is not known yet. *)
Definition asked : state :=
  after (mainloop quiet 5 16777221 (IRemote (codes "db" ++ replicate 14 0) 0 (Some 1%positive) 2 1) with_block).

Lemma early_name_loses_handle_witness :
  ∃ st2, mainloop quiet 0 33554435 (ICommand (codes "N db")) asked = Ret (0, st2) ∧
    outbox 2 st2 = [[0; 0; 0; 14; 104; 105; 1; 0; 0; 5; 1; 0; 0; 0; 0; 0; 0; 5]].
Proof.
  destruct (early_name_loses_handle quiet [1%positive] [] with_block asked 5 0 16777221 33554435 (codes "db")
    (Some 1%positive) 2 1 zero_slave) as (st2 & Hrun & Ho).
  - apply with_block_reachable.
  - destruct with_block_allowed as (H1 & H2 & H3 & H4 & H5 & H6 & _ & _). by split_and!.
  - done.
  - vm_compute. reflexivity.
  - done.
  - split; [done|]. vm_compute. reflexivity.
  - done.
  - done.
  - done.
  - vm_compute. reflexivity.
  - done.
  - apply small_b_true. vm_compute. reflexivity.
  - exists st2. split; [exact Hrun|]. etransitivity; [exact Ho|]. vm_compute. reflexivity.
Defined.

(** A package that is shorter than its header makes the harbor read in front of its
    memory. *)
Theorem short_package_undefined : arrive quiet 7 [[0; 0; 0; 4; 1; 2; 3; 4]] accepted = Undef.
Proof. vm_compute. reflexivity. Qed.
